(* ===== verification/_CoqProject ===== *)
-Q . S2P
Prelude.v
GoLib.v
Prog.v
ProgSpec.v
Types.v
Codec.v
JsonText.v
JsonCodec.v
TimeText.v
Budget.v
CircuitBreaker.v
Policies.v
MemoryConfig.v
Telemetry.v
Events.v
EventsCodec.v
Effects.v
Hooks.v
ErrorControl.v
Sanitize.v
LLM.v
Memory.v
Tools.v
Retry.v
AgentLoop.v
LoopFacts.v
LoopSafety.v
LoopBounds.v
LoopMessages.v
LoopBudget.v
LoopEvents.v
LoopBreaker.v
Conversation.v
ConversationFaults.v
ConversationRun.v
EventBus.v
Handles.v
EventLog.v
Registry.v
AgentTools.v
McpClient.v
A2aClient.v
AgentConfig.v
AgentConfigFacts.v
AgentRun.v
MemoryPg.v
MemoryPgFacts.v
Providers.v
ProvidersFacts.v
RestateDefs.v
RestateLoop.v
RestateRun.v
RestateFacts.v
RestateSafety.v
RestateRouting.v
RestateBounds.v
RestateClient.v
RestateCaller.v
TemporalFingerprint.v
TemporalDefs.v
TemporalLoop.v
TemporalFacts.v
TemporalActivities.v
TemporalSafety.v
TemporalBounds.v
TemporalResume.v
TemporalLift.v
TemporalServe.v
TemporalRouting.v
TemporalApprovals.v
TemporalClient.v
TemporalCaller.v
TemporalStream.v
Witnesses.v
BuilderWitnesses.v
StoreWitnesses.v
TemporalWitnesses.v
WireWitnesses.v
ClientWitnesses.v
RestateWitnesses.v
