(* ===== verification/Prelude.v ===== *)
(** * agent-sdk-go: the agent, its loop and its shared runtime core

    This development models the core of the Go library agent-sdk-go: the construction of an
    agent from its options ([pkg/agent]), the local runtime's agent loop and the
    runtime-independent code it is built on (the package [internal/runtime/base], which the
    Temporal and Restate backends share), the workflow of the Temporal backend with its
    activities and its client, the durable loop of the Restate backend with its event log and
    its client, the conversation stores, the wire format of the events, the clients
    of the model providers and of MCP and A2A servers, and the PostgreSQL memory, with the
    theorems that make them correct.

    ** The program

    [NewAgent] builds a configuration ([buildAgentConfig]): it normalises names and limits,
    fills the registries, checks the graph of sub-agents and resolves the tools once.  [Run]
    and [Stream] resolve them again, build the specifications of the sub-agents and hand a
    request to the runtime.

    A run ([driveRun]/[driveStream]) calls [executeAgentLoop].  The loop loads the
    conversation, recalls long-term memory, prefetches retriever context, and then makes
    rounds: a model call (with retries, hooks, an optional fallback client and streamed
    events), then the tool calls the model asked for, in parallel or in sequence.  Every
    tool call passes an unknown-tool check, the circuit breaker, its authorizer, an approval
    gate, and then runs as a tool or as a nested run of a sub-agent.  All runs of one tree
    share a budget tracker, enforced by the root only.  The last round makes a final call
    without tools unless a callback extends the run once.

    On the Temporal backend the loop is a workflow ([AgentWorkflow]): every model call, tool
    call, approval, conversation access and event is an activity, a sub-agent is a child
    workflow, and a run that grows long continues as a new one with the state it needs as
    its input.  The client starts workflows, forwards approvals by completing the activities
    that wait for them, and reads the events from a stream or the event bus.

    On the Restate backend the loop is a handler of a durable service whose steps are
    journaled: a step runs once and answers the same after a replay, an approval is an
    awakeable that races a timer, a sub-agent is a call of its service, and the events go to
    a virtual object, the event log of the run, from which the client pulls them.  The client
    starts runs through the HTTP ingress, with retries, and resolves the awakeables.

    ** How the code is modelled

    - [Prog.v]: code with effects is a finite tree [prog A]: perform an effect, continue with
      the answer.  [texec m tr a] says that [m] can perform the trace [tr] and return [a];
      [par] is the [sync.WaitGroup] fan-out, whose scheduler is an effect, so [texec] ranges
      over all interleavings; [run] executes a tree against a handler.  [ProgSpec.v]: rules
      for the specifications of programs.
    - [Effects.v]: the effects are the calls to what the repository does not define (model
      clients, tools, hooks, clock, identifiers, contexts, event bus, stores, the approval
      channel), plus the accesses to the two heap objects the goroutines of a run share,
      the budget tracker and the circuit breaker.  The former are answered freely; the
      latter as [Budget.v] and [CircuitBreaker.v] define ([heap_step], [steps]).  An
      environment never answers outside the Go type of the call and nothing else is assumed
      of it.
    - The Temporal workflow has effects of its own ([TemporalDefs.v]): an activity or child
      workflow with its options, timers, side effects, and the reads of the workflow's
      state.  The answers are free, an execution is any trace, and the activities are
      programs of the base runtime's effects, joined with the workflow in [TemporalServe.v].
    - The durable handlers of Restate have theirs ([RestateDefs.v]): a durable step, named by
      the data its closure captures, with the closure as a program of the base effects
      ([step_body]); awakeables, timers, calls of services and publishing.  A trace is
      [genuine] when the answer of every step is one that its closure can give.  The client's
      effects ([RestateClient.v]) are HTTP requests, calls of the ingress, the pulls, the stash
      of staged runs and the selects of its goroutines.
    - Pointers are options, Go maps are [gmap], [int64] counters wrap, [float64] is IEEE
      binary64 ([SpecFloat]), strings are byte strings, string enumerations stay strings.
      Log records, spans and latency histograms are left out; counters are effects.

    ** Files

    - [Prelude.v] (this file): tactics, hints and generic lemmas; [guarded] is "every event
      that needs it is preceded by one that allows it".
    - [GoLib.v], [Codec.v], [JsonText.v], [JsonCodec.v], [TimeText.v]: the parts of the Go
      standard library used (strings, time and its text forms, floats, [encoding/json] from
      texts to values and back, SHA-256, hexadecimal).
    - [Types.v], [Events.v], [Telemetry.v]: data of [internal/types], [pkg/interfaces],
      [internal/events]; the counters of a run.
    - [Budget.v] ([base/budget.go]), [CircuitBreaker.v] ([base/circuit_breaker.go]),
      [Policies.v] ([internal/runtime/runtime.go]), [MemoryConfig.v] ([pkg/memory]),
      [ErrorControl.v] ([base/error_control.go]), [Sanitize.v] ([base/sanitize.go]): the pure
      components, one operation per method.
    - [Hooks.v] ([internal/hooks]), [LLM.v], [Tools.v], [Memory.v] ([base/runtime.go],
      [base/utils.go], [base/hooks.go], [base/memory.go]): the effectful operations of the
      base runtime.
    - [Retry.v] ([executeWithPolicy]) and [AgentLoop.v] ([local/agent_loop.go],
      [local/subagent.go], the drivers of [local/runtime.go]): the loop, on the path without a
      durable step runner.  A Go closure or loop body is a definition of its own; the
      nested loop of a sub-agent is the parameter [exec_sub] of the sections, tied by
      [executeAgentLoop_fuel].
    - [LoopFacts.v]: the footprints of the loop's parts and shared induction principles;
      [LoopSafety.v], [LoopBounds.v], [LoopBudget.v], [LoopMessages.v], [LoopEvents.v],
      [LoopBreaker.v]: the theorems about whole runs.
    - [Conversation.v] ([pkg/conversation/inmem], [pkg/conversation/redis]): both stores behind
      one type class, [ConversationStore], whose contract [KeepsLast] each discharges; the
      Redis server is an environment with the documented laws of its commands.
      [ConversationFaults.v]: the Redis store on a server that refuses commands and loses
      expired keys.  [ConversationRun.v] composes the loop with any store of the contract.
    - [EventBus.v] ([internal/eventbus/inmem.go]): the bus as a state machine over channels and
      the calls that hold its lock, with an executable step function for its runs.
    - [Handles.v] ([internal/store/kv.go], [local/run_handle.go], [local/stream_handle.go],
      [agent_stream.go], the reconnect of [agent.go]): handles, their registry and the
      goroutines around them as a state machine.
    - [EventLog.v] ([restate/event_log.go], [restate/stream_handle.go]): the durable event log
      of a run, its handlers refined to the list of published messages, and the loop of a
      reader, an iteration being a function of what it observes.
    - [EventsCodec.v]: the JSON encoding of events and their decoding
      ([internal/events/codec.go], [pkg/agent]'s event types).
    - [TemporalDefs.v] and [TemporalLoop.v] ([temporal/agent_workflow.go]): the workflow, its
      state, options and effects; [TemporalFingerprint.v] ([temporal/fingerprint.go]) and
      [TemporalActivities.v] (the activities); [TemporalServe.v] runs the workflow's requests
      by the activities.  [TemporalFacts.v], [TemporalLift.v]: the footprints and induction
      principles of the workflow; [TemporalSafety.v], [TemporalBounds.v], [TemporalResume.v],
      [TemporalRouting.v], [TemporalApprovals.v]: its theorems.
    - [TemporalClient.v] ([temporal/runtime.go], [temporal/approval.go], the run handles):
      the caller's side; [TemporalCaller.v]: its theorems; [TemporalStream.v]: the events a
      subscriber gets, and the handle of a run as a state machine: its context, its driver, the
      goroutine that waits for the workflow, and its readers.
    - [RestateDefs.v], [RestateLoop.v], [RestateRun.v] ([restate/agent_loop.go],
      [restate/subagent.go]): the durable steps, the tool calls with approvals and delegation,
      the rounds and the handlers.  [RestateFacts.v]: footprints and induction principles;
      [RestateSafety.v], [RestateRouting.v], [RestateBounds.v]: the theorems of the handlers.
    - [RestateClient.v] ([restate/options.go], [ingress.go], [approval.go], [runtime.go],
      [run_handle.go], [stream_handle.go], [server.go]): configuration, requests with retries,
      starting, finding and cancelling runs, the approval loop, handles, registration.
      [RestateCaller.v]: its theorems.
    - [Registry.v]: the four registries of [pkg/agent], one generic definition.
      [AgentTools.v]: tool names and adapters, filters, approval policies.
    - [McpClient.v] ([pkg/mcp/client]), [A2aClient.v] ([pkg/a2a/client]): the protocol clients;
      the protocol libraries and the servers are effects or data of the environment, Go maps
      shared with the caller live in a store.
    - [MemoryPg.v] ([pkg/memory/pgvector]): the PostgreSQL memory, its statements as data with
      their texts; [MemoryPgFacts.v]: the meaning of the statements on a table, the promise, and
      the refinement.
    - [Providers.v] ([pkg/llm]): the clients of OpenAI, DeepSeek, Ollama, Anthropic and Gemini,
      from the conversation to the vendor's request and back; [ProvidersFacts.v]: the wire
      formats as instances of a class [Turns], and the theorems.
    - [AgentConfig.v] ([config.go], [runtime_factory.go]): the builder, one definition per
      validator and phase; agents are locations, so sub-agents can be shared and cyclic.
      [AgentConfigFacts.v]: its theorems.  [AgentRun.v] ([agent.go]): the pre-flight of a run.
    - [Witnesses.v], [BuilderWitnesses.v], [StoreWitnesses.v], [TemporalWitnesses.v],
      [WireWitnesses.v], [ClientWitnesses.v], [RestateWitnesses.v]: a sample agent and
      environment, a built agent with a sub-agent, concrete Redis and PostgreSQL servers, a
      conversation for the model providers, sample workflows, activities, events, durable
      steps and callers, at which the theorems with hypotheses are applied.

    ** What is proved

    - Safety of tool execution on every interleaving and at every nesting depth: only after
      the authorizer allowed it, and only after that very call was approved where approval is
      required; hooks cannot change which tool runs.
    - Termination and bounds: the loop always produces an outcome, counts its model calls,
      answers every call of a batch with one tool message, decides at most one extension.
    - Budget: after a breach nothing is spent before the request was answered with an approval
      and the watermark advanced, in that order; total tokens are bounded
      by the windows the approvals grant; the tracker's operations on every branch.
    - Circuit breaker: in a run without sub-agents a tripped tool never executes again while
      trips do not expire.
    - Conversation: what is appended is what the trace of the run tells, its prompt, the answer
      of the model and the tool results of every round, and its last answer, once and in order.
    - Events: a streamed turn and a tool call follow the AG-UI protocol; a stream starts with
      RUN_STARTED and ends with one terminal event, also when the loop panics.
    - Refinements: the retry loop against its specification, the circuit breaker against the
      history of outcomes, hook loops against a single chain.
    - The pure components: defaults, resolution, validation, back-off, sanitising, counters.
    - Building: what an accepted configuration guarantees; the check of the sub-agent graph is
      exactly "all delegations are short and distinct" and terminates on cyclic graphs; a
      request that passes the pre-flight never exceeds the nesting limit in the loop.
    - Registries: refinement to an ordered catalog.  Stores: refinement to complete logs, for
      Redis also when commands fail and keys expire; concurrent Redis writers stay within the bound and push each message once (that they can
      lose messages is an example in [StoreWitnesses.v]); the next run sees the last one.  The
      PostgreSQL memory: a memory is seen and cleared exactly from the scopes it extends, until a
      Store of any scope takes its ID.
    - Event bus: no send or close of a closed channel, delivery in order without loss, a
      [Publish] can always finish when its subscribers read, and keeps every writer of the bus
      out while one of them does not.  Handles: one cancellation, one hand-out of the events,
      a stable outcome; reconnects find exactly the live runs.  Event log: handlers against the
      published list, a reader gets every event once; the offsets it attaches are too large, so
      that resuming loses events.
    - Temporal: tools run only when authorized and approved, also through the activities
      and across continued runs; the workflow's turns, activities and approvals are bounded;
      a continued run resumes where the last one stopped; its events go to the stream of the
      root; a status given to a published request completes the very activity that waits; the
      driver stops a run only after recording why; every reader of a run gets one outcome; a
      subscriber gets the published events in order up to the terminal one.
    - Restate: in both execution modes a tool or sub-agent service is called only after its
      authorization step and, where needed, its awakeable allowed it; events, also those a
      step streams, and sub-agents stay on the stream and within the depth of the run; the durable
      steps of a run are bounded; an approval travels from the loop to the handler and back to
      its awakeable; the approval loop starts the handler once for every approval; a started run
      publishes to what its caller pulls.
    - Wire format: the decoder gives back an encoded event whose texts are UTF-8 and whose
      numbers read back, and the parsers the typed values of CUSTOM events.
    - Model providers: a complete conversation, which is what the rounds of the loop add to
      ([rounds_complete]), becomes one request that says the same and answers every tool call
      where the vendor wants the answer; cache breakpoints change nothing else.
    - Clients: attempts, sessions and connections are bounded and released on every
      interleaving; A2A messages survive the conversion both ways.

    ** Bounds and fuel

    Rounds are bounded by [round_fuel], twice the iteration limit (one extension of at most
    the limit is possible), nesting by [depth_fuel], the distance to [MaxSubAgentDepth].
    Running out is the effect [OOutOfFuel]; [loop_terminates] proves that no execution
    performs it.  The search of the sub-agent graph and the resolution of specifications are
    given one more level than the depth limit and never run out ([dfs_complete],
    [resolveSubAgentSpecs_total]).  An MCP session serves finitely many calls, since its
    deadline ends it; how many is part of the environment's answer.  The other recursions are
    structural or have a proved measure ([collapse_newlines]).

    ** Not modelled

    The durable path of the local runtime ([stepRunner], durable runs and reconnects; of its
    handles only [Cancel] is modelled): it repeats the modelled loop around the journal of a
    third-party engine.  Of the
    Restate backend the HTTP endpoint and the replay of its journal (steps are answered once,
    which is what the journal promises).  The registry of the Temporal runtime's active handles and the
    start and stop of its workers.  The A2A server, the decoding of the default memory
    extractor's reply, context cancellation inside third-party calls, and what remains of the
    clients of third-party services (Weaviate, the retrievers, the SDKs' accumulators of
    streams, the Retry-After header), output (logging, tracing)
    or glue (command line, examples, benchmarks): their behaviour is that of the services and
    libraries they call. *)
From stdpp Require Export base list strings gmap option.
From Stdlib Require Export ZArith Lia Bool Ascii.

#[global] Open Scope string_scope.
#[global] Open Scope list_scope.
#[global] Open Scope Z_scope.

(** ** Automation shared by every file *)

Create HintDb sdk.
Create Rewrite HintDb sdk.

(** Case analysis on the innermost [match]/[if] of the goal or of a hypothesis. *)
Ltac split_match :=
  match goal with
  | |- context [match ?x with _ => _ end] => destruct x eqn:?
  | H : context [match ?x with _ => _ end] |- _ => destruct x eqn:?
  end.

(** Inversion of equations between constructors, with the boolean tests they came from. *)
Ltac crush_bool :=
  repeat match goal with
  | H : (_ && _)%bool = true |- _ => apply andb_true_iff in H; destruct H
  | H : (_ || _)%bool = false |- _ => apply orb_false_iff in H; destruct H
  | H : negb _ = true |- _ => apply negb_true_iff in H
  | H : negb _ = false |- _ => apply negb_false_iff in H
  | H : (_ <? _) = true |- _ => apply Z.ltb_lt in H
  | H : (_ <? _) = false |- _ => apply Z.ltb_ge in H
  | H : (_ <=? _) = true |- _ => apply Z.leb_le in H
  | H : (_ <=? _) = false |- _ => apply Z.leb_gt in H
  | H : (_ =? _) = true |- _ => apply Z.eqb_eq in H
  | H : (_ =? _) = false |- _ => apply Z.eqb_neq in H
  | H : String.eqb _ _ = true |- _ => apply String.eqb_eq in H
  | H : String.eqb _ _ = false |- _ => apply String.eqb_neq in H
  end.

(** ** Generic lemmas on lists *)

(** The last [n] elements of a list. *)
Definition last_n {A} (n : nat) (l : list A) : list A := drop (length l - n) l.

Lemma length_last_n {A} n (l : list A) : length (last_n n l) = (n `min` length l)%nat.
Proof. unfold last_n. rewrite length_drop. lia. Qed.

Lemma last_n_all {A} n (l : list A) : (length l <= n)%nat -> last_n n l = l.
Proof. intros. unfold last_n. replace (length l - n)%nat with 0%nat by lia. apply drop_0. Qed.

Lemma last_n_app {A} n (l k : list A) :
  last_n n (last_n n l ++ k) = last_n n (l ++ k).
Proof.
  unfold last_n. rewrite !length_app, length_drop.
  destruct (decide (length l <= n)%nat).
  - replace (length l - n)%nat with 0%nat by lia. rewrite drop_0. f_equal. lia.
  - rewrite <- drop_app_le by lia. rewrite drop_drop. f_equal. lia.
Qed.

(** The answers and the final state of a sequence of operations. *)
Fixpoint run_ops {S O R} (step : S -> O -> R * S) (s : S) (os : list O) : list R * S :=
  match os with
  | [] => ([], s)
  | o :: os => let p := step s o in let q := run_ops step p.2 os in (p.1 :: q.1, q.2)
  end.

(** [interleaving l1 l2 l]: [l] is a shuffle of [l1] and [l2] keeping both orders. *)
Inductive interleaving {A} : list A -> list A -> list A -> Prop :=
| il_nil : interleaving [] [] []
| il_left x l1 l2 l : interleaving l1 l2 l -> interleaving (x :: l1) l2 (x :: l)
| il_right x l1 l2 l : interleaving l1 l2 l -> interleaving l1 (x :: l2) (x :: l).

#[export] Hint Constructors interleaving : sdk.

Lemma interleaving_nil_l {A} (l : list A) : interleaving [] l l.
Proof. induction l; auto with sdk. Qed.

Lemma interleaving_nil_r {A} (l : list A) : interleaving l [] l.
Proof. induction l; auto with sdk. Qed.

Lemma interleaving_sym {A} (l1 l2 l : list A) : interleaving l1 l2 l -> interleaving l2 l1 l.
Proof. induction 1; auto with sdk. Qed.

Lemma interleaving_in {A} (x : A) l1 l2 l :
  interleaving l1 l2 l -> In x l <-> In x l1 \/ In x l2.
Proof. induction 1; simpl in *; tauto. Qed.

Lemma interleaving_app_inv {A} (l1 l2 p q : list A) :
  interleaving l1 l2 (p ++ q) ->
  exists p1 q1 p2 q2, l1 = p1 ++ q1 /\ l2 = p2 ++ q2 /\
    interleaving p1 p2 p /\ interleaving q1 q2 q.
Proof.
  revert l1 l2. induction p as [|x p IH]; intros l1 l2 H; simpl in H.
  - exists [], l1, [], l2. auto with sdk.
  - inversion H as [|? l1' ? ? Hil|? ? l2' ? Hil]; subst.
    + destruct (IH _ _ Hil) as (p1 & q1 & p2 & q2 & -> & -> & ? & ?).
      exists (x :: p1), q1, p2, q2. auto with sdk.
    + destruct (IH _ _ Hil) as (p1 & q1 & p2 & q2 & -> & -> & ? & ?).
      exists p1, q1, (x :: p2), q2. auto with sdk.
Qed.

#[export] Hint Resolve interleaving_nil_l interleaving_nil_r : sdk.

(** ** Guarded lists

    [guarded needs G past l]: every element of [l] that [needs] a guard has, earlier in
    [l] or in [past], an element related to it by [G].  Safety properties of the form
    "nobody does A before B was granted" are instances. *)
Section guarded.
Context {A : Type} (needs : A -> Prop) (G : A -> A -> Prop).

Definition guarded (past l : list A) : Prop :=
  forall pre e post, l = pre ++ e :: post -> needs e ->
    exists f, In f (past ++ pre) /\ G f e.

Lemma guarded_nil past : guarded past [].
Proof. intros pre e post H. destruct pre; discriminate. Qed.

Lemma guarded_cons past x l :
  (needs x -> exists f, In f past /\ G f x) ->
  guarded (past ++ [x]) l -> guarded past (x :: l).
Proof.
  intros Hx Hl pre e post Heq He. destruct pre as [|y pre]; simplify_eq/=.
  - destruct (Hx He) as (f & ? & ?). exists f. split; [|done]. apply in_or_app. auto.
  - destruct (Hl pre e post eq_refl He) as (f & Hin & ?). exists f. split; [|done].
    by rewrite <- app_assoc in Hin.
Qed.

Lemma guarded_app past l1 l2 :
  guarded past l1 -> guarded (past ++ l1) l2 -> guarded past (l1 ++ l2).
Proof.
  revert past. induction l1 as [|x l1 IH]; intros past H1 H2; simpl.
  - by rewrite app_nil_r in H2.
  - apply guarded_cons.
    + intros Hx. destruct (H1 [] x l1 eq_refl Hx) as (f & Hin & ?). exists f.
      by rewrite app_nil_r in Hin.
    + apply IH.
      * intros pre e post -> He. destruct (H1 (x :: pre) e post eq_refl He) as (f & Hin & ?).
        exists f. by rewrite <- app_assoc.
      * by rewrite <- app_assoc.
Qed.

Lemma guarded_mono past past' l :
  (forall f, In f past -> In f past') -> guarded past l -> guarded past' l.
Proof.
  intros Hsub H pre e post -> He. destruct (H pre e post eq_refl He) as (f & Hin & ?).
  exists f. split; [|done]. apply in_app_or in Hin. apply in_or_app. naive_solver.
Qed.

Lemma guarded_no_needs past l : (forall e, In e l -> ~ needs e) -> guarded past l.
Proof.
  intros H pre e post -> He. exfalso. apply (H e); [|done]. apply in_or_app. simpl. auto.
Qed.

Lemma guarded_interleaving past l1 l2 l :
  interleaving l1 l2 l -> guarded past l1 -> guarded past l2 -> guarded past l.
Proof.
  intros Hil H1 H2 pre e post -> He.
  destruct (interleaving_app_inv _ _ _ _ Hil) as (p1 & q1 & p2 & q2 & -> & -> & Hp & Hq).
  inversion Hq as [|? q1' ? ? _|? ? q2' ? _]; subst.
  - destruct (H1 p1 e q1' eq_refl He) as (f & Hin & ?). exists f. split; [|done].
    apply in_app_or in Hin. apply in_or_app. destruct Hin as [|Hin]; [auto|right].
    apply (interleaving_in f _ _ _ Hp). auto.
  - destruct (H2 p2 e q2' eq_refl He) as (f & Hin & ?). exists f. split; [|done].
    apply in_app_or in Hin. apply in_or_app. destruct Hin as [|Hin]; [auto|right].
    apply (interleaving_in f _ _ _ Hp). auto.
Qed.

(** [followed l]: every element that [needs] it has, later in [l], an element related to it:
    "who begins also finishes". *)
Definition followed (l : list A) : Prop :=
  forall pre e post, l = pre ++ e :: post -> needs e -> exists f, In f post /\ G e f.

Lemma followed_nil : followed [].
Proof. intros pre e post H. destruct pre; discriminate. Qed.

Lemma followed_cons x l : (needs x -> exists f, In f l /\ G x f) -> followed l -> followed (x :: l).
Proof. intros Hx Hl [|y pre] e post Heq He; simplify_eq/=; [auto|by eapply Hl]. Qed.

Lemma followed_app l1 l2 : followed l1 -> followed l2 -> followed (l1 ++ l2).
Proof.
  intros H1 H2. induction l1 as [|x l1 IH]; [done|]. simpl. apply followed_cons.
  - intros Hx. destruct (H1 [] x l1 eq_refl Hx) as (f & ? & ?). exists f. split; [|done]. apply in_or_app. auto.
  - apply IH. intros pre e post -> He. by apply (H1 (x :: pre) e post).
Qed.

Lemma followed_no_needs l : (forall e, In e l -> ~ needs e) -> followed l.
Proof. intros H pre e post -> He. exfalso. apply (H e); [|done]. apply in_or_app. simpl. auto. Qed.
End guarded.
