(* ===== verification/GoLib.v ===== *)
(** The parts of the Go language and standard library the program relies on:
    64-bit integers, byte strings ([strings.TrimSpace], [strconv.Quote], decimal
    rendering), [time.Time]/[time.Duration], IEEE binary64 arithmetic and error values.
    Everything here is executable. *)
From S2P Require Import Prelude.
From stdpp Require Export pretty sorting.
From Stdlib Require Import SpecFloat.

#[local] Open Scope string_scope.
#[local] Open Scope list_scope.
#[local] Open Scope Z_scope.

(** ** Machine integers: Go [int] and [int64] on a 64-bit platform *)

Definition max_int64 : Z := 2 ^ 63 - 1.
Definition min_int64 : Z := - 2 ^ 63.

(** Two's complement wrap-around of a mathematical result to an [int64]. *)
Definition wrap64 (z : Z) : Z := (z + 2 ^ 63) mod 2 ^ 64 - 2 ^ 63.

Definition in64 (z : Z) : Prop := min_int64 <= z <= max_int64.

Lemma wrap64_range z : in64 (wrap64 z).
Proof. unfold in64, wrap64, min_int64, max_int64. pose proof (Z.mod_pos_bound (z + 2^63) (2^64)). lia. Qed.

Lemma wrap64_id z : in64 z -> wrap64 z = z.
Proof. unfold in64, wrap64, min_int64, max_int64. intros. rewrite Z.mod_small; lia. Qed.

Lemma wrap64_wrap_l a b : wrap64 (wrap64 a + b) = wrap64 (a + b).
Proof.
  unfold wrap64. f_equal.
  replace ((a + 2^63) mod 2^64 - 2^63 + b + 2^63) with ((a + 2^63) mod 2^64 + b) by lia.
  rewrite Zplus_mod_idemp_l. f_equal. lia.
Qed.

Lemma wrap64_wrap_r a b : wrap64 (a + wrap64 b) = wrap64 (a + b).
Proof. rewrite Z.add_comm, wrap64_wrap_l. f_equal. lia. Qed.

#[export] Hint Resolve wrap64_range : sdk.
#[export] Hint Rewrite wrap64_wrap_l wrap64_wrap_r : sdk.

(** ** Byte strings *)

Abbreviation bytes := (list ascii).

Fixpoint to_bytes (s : string) : bytes :=
  match s with EmptyString => [] | String c s => c :: to_bytes s end.

Fixpoint of_bytes (l : bytes) : string :=
  match l with [] => EmptyString | c :: l => String c (of_bytes l) end.

Lemma of_to_bytes s : of_bytes (to_bytes s) = s.
Proof. induction s; simpl; congruence. Qed.

Lemma to_of_bytes l : to_bytes (of_bytes l) = l.
Proof. induction l; simpl; congruence. Qed.

Lemma to_bytes_app s t : to_bytes (s +:+ t) = to_bytes s ++ to_bytes t.
Proof.
  induction s as [|c s IH]; [done|].
  change (c :: to_bytes (s +:+ t) = c :: (to_bytes s ++ to_bytes t)). by rewrite IH.
Qed.

Lemma to_bytes_inj s t : to_bytes s = to_bytes t -> s = t.
Proof. intros H. rewrite <- (of_to_bytes s), H. apply of_to_bytes. Qed.

Fixpoint strip_prefix (p l : bytes) : option bytes :=
  match p, l with
  | [], _ => Some l
  | a :: p, b :: l => if Ascii.eqb a b then strip_prefix p l else None
  | _ :: _, [] => None
  end.

Lemma strip_prefix_Some p l r : strip_prefix p l = Some r <-> l = p ++ r.
Proof.
  revert l. induction p as [|a p IH]; intros [|b l]; simpl; try naive_solver.
  destruct (Ascii.eqb_spec a b); naive_solver.
Qed.

Definition ascs (l : list N) : bytes := map ascii_of_N l.

(** UTF-8 encodings of the runes [unicode.IsSpace] accepts. *)
Definition space_runes : list bytes :=
  map ascs ([[9]; [10]; [11]; [12]; [13]; [32]; [194; 133]; [194; 160]; [225; 154; 128];
    [226; 128; 128]; [226; 128; 129]; [226; 128; 130]; [226; 128; 131]; [226; 128; 132];
    [226; 128; 133]; [226; 128; 134]; [226; 128; 135]; [226; 128; 136]; [226; 128; 137];
    [226; 128; 138]; [226; 128; 168]; [226; 128; 169]; [226; 128; 175]; [226; 129; 159];
    [227; 128; 128]]%N).

(** Strip one leading rune of [ps], if there is one. *)
Fixpoint strip_one (ps : list bytes) (l : bytes) : option bytes :=
  match ps with
  | [] => None
  | p :: ps => match strip_prefix p l with Some r => Some r | None => strip_one ps l end
  end.

Fixpoint trim_fuel (fuel : nat) (ps : list bytes) (l : bytes) : bytes :=
  match fuel with
  | O => l
  | S fuel => match strip_one ps l with Some r => trim_fuel fuel ps r | None => l end
  end.

Definition trim_left_bytes (l : bytes) : bytes := trim_fuel (length l) space_runes l.
Definition trim_right_bytes (l : bytes) : bytes :=
  rev (trim_fuel (length l) (map (@rev ascii) space_runes) (rev l)).

(** [strings.TrimSpace] *)
Definition TrimSpace (s : string) : string :=
  of_bytes (trim_right_bytes (trim_left_bytes (to_bytes s))).

(** [strings.HasPrefix] and the slice [s[len(prefix):]]. *)
Definition CutPrefix (s p : string) : option string :=
  of_bytes <$> strip_prefix (to_bytes p) (to_bytes s).

(** [strings.Join] *)
Fixpoint Join (sep : string) (l : list string) : string :=
  match l with
  | [] => ""
  | [x] => x
  | x :: l => x +:+ sep +:+ Join sep l
  end.

(** *** Case *)

Definition lower_byte (c : ascii) : ascii :=
  let n := N_of_ascii c in if ((65 <=? n) && (n <=? 90))%N then ascii_of_N (n + 32) else c.

Definition bytes_are (l : bytes) (ns : list N) : bool := bool_decide (l = ascs ns).

(** [strings.ToLower] on what it makes ASCII: the letters, and the two runes outside ASCII whose
    lower case is an ASCII letter, U+212A (k) and U+0130 (i); other runes are kept.  With
    [folding], what [strings.EqualFold] identifies with an ASCII letter: U+017F (s) instead of
    U+0130. *)
Fixpoint lower_bytes (folding : bool) (l : bytes) : bytes :=
  match l with
  | [] => []
  | a :: t =>
      match t with
      | [] => [lower_byte a]
      | b :: u =>
          if negb folding && bytes_are [a; b] [196; 176]%N then "i"%char :: lower_bytes folding u
          else if folding && bytes_are [a; b] [197; 191]%N then "s"%char :: lower_bytes folding u
          else match u with
               | c :: v =>
                   if bytes_are [a; b; c] [226; 132; 170]%N then "k"%char :: lower_bytes folding v
                   else lower_byte a :: lower_bytes folding t
               | [] => lower_byte a :: lower_bytes folding t
               end
      end
  end.

Definition ToLower (s : string) : string := of_bytes (lower_bytes false (to_bytes s)).

(** [strings.EqualFold], where one of the two is ASCII. *)
Definition fold_case (s : string) : string := of_bytes (lower_bytes true (to_bytes s)).
Definition EqualFold (s w : string) : bool := String.eqb (fold_case s) (fold_case w).

(** Decimal rendering of an integer ([%d]). *)
Definition Itoa (z : Z) : string := pretty z.

Definition hex_digit (n : N) : ascii :=
  ascii_of_N (if (n <? 10)%N then 48 + n else 87 + n)%N.

Definition quote_byte (c : ascii) : bytes :=
  let n := N_of_ascii c in
  if (n =? 34)%N then ascs [92; 34]%N
  else if (n =? 92)%N then ascs [92; 92]%N
  else if (n =? 7)%N then ascs [92; 97]%N
  else if (n =? 8)%N then ascs [92; 98]%N
  else if (n =? 12)%N then ascs [92; 102]%N
  else if (n =? 10)%N then ascs [92; 110]%N
  else if (n =? 13)%N then ascs [92; 114]%N
  else if (n =? 9)%N then ascs [92; 116]%N
  else if (n =? 11)%N then ascs [92; 118]%N
  else if ((n <? 32) || (n =? 127))%N
       then ascs [92; 120]%N ++ [hex_digit (n / 16); hex_digit (n mod 16)]
  else [c].

(** [strconv.Quote] ([%q]): exact on ASCII; bytes of printable non-ASCII runes pass through. *)
Definition Quote (s : string) : string :=
  of_bytes (ascs [34]%N ++ flat_map quote_byte (to_bytes s) ++ ascs [34]%N).

(** *** Facts about trimming *)

Lemma strip_one_Some ps l r :
  strip_one ps l = Some r -> exists p, In p ps /\ l = p ++ r.
Proof.
  induction ps as [|p ps IH]; simpl; [done|]. destruct (strip_prefix p l) eqn:E.
  - intros [= ->]. apply strip_prefix_Some in E. eauto.
  - intros H. destruct (IH H) as (q & ? & ?). eauto.
Qed.

Lemma strip_one_None ps l : strip_one ps l = None <-> forall p r, In p ps -> l <> p ++ r.
Proof.
  induction ps as [|p ps IH]; simpl; [naive_solver|].
  destruct (strip_prefix p l) as [b|] eqn:E.
  - apply strip_prefix_Some in E. split; [done|]. intros H. exfalso. apply (H p b); auto.
  - rewrite IH. split; [|naive_solver]. intros H q r [->|Hq]; [|by apply H].
    intros ->. by rewrite (proj2 (strip_prefix_Some q (q ++ r) r) eq_refl) in E.
Qed.

Definition nonempty_runes (ps : list bytes) : Prop := Forall (fun p => p <> []) ps.

Lemma space_runes_nonempty : nonempty_runes space_runes.
Proof. unfold nonempty_runes. repeat constructor; done. Qed.

Lemma rev_runes_nonempty : nonempty_runes (map (@rev ascii) space_runes).
Proof. unfold nonempty_runes. repeat constructor; done. Qed.

#[export] Hint Resolve space_runes_nonempty rev_runes_nonempty : sdk.

Lemma trim_fuel_done ps fuel l :
  nonempty_runes ps -> (length l <= fuel)%nat -> strip_one ps (trim_fuel fuel ps l) = None.
Proof.
  intros Hps. revert l. induction fuel as [|fuel IH]; intros l Hl; simpl.
  - destruct l; [|simpl in *; lia]. apply strip_one_None. intros p r Hp Hr.
    apply Forall_forall with (x := p) in Hps; [|by apply list_elem_of_In]. by destruct p.
  - destruct (strip_one ps l) as [r|] eqn:E; [|done]. apply IH.
    apply strip_one_Some in E as (p & Hp & ->).
    apply Forall_forall with (x := p) in Hps; [|by apply list_elem_of_In].
    destruct p; [done|]. rewrite length_app in Hl. simpl in *. lia.
Qed.

Lemma trim_fuel_id ps fuel l : strip_one ps l = None -> trim_fuel fuel ps l = l.
Proof. intros H. destruct fuel; simpl; [done|]. by rewrite H. Qed.

Lemma trim_fuel_suffix ps fuel l : exists p, l = p ++ trim_fuel fuel ps l.
Proof.
  revert l. induction fuel as [|fuel IH]; intros l; simpl; [by exists []|].
  destruct (strip_one ps l) as [r|] eqn:E; [|by exists []].
  apply strip_one_Some in E as (p & _ & ->). destruct (IH r) as [q Hq].
  exists (p ++ q). by rewrite <- app_assoc, <- Hq.
Qed.

Lemma strip_one_None_prefix ps l k : strip_one ps (l ++ k) = None -> strip_one ps l = None.
Proof.
  rewrite !strip_one_None. intros H p r Hp ->. apply (H p (r ++ k) Hp). by rewrite app_assoc.
Qed.

Lemma trim_right_prefix l : exists k, l = trim_right_bytes l ++ k.
Proof.
  unfold trim_right_bytes.
  destruct (trim_fuel_suffix (map (@rev ascii) space_runes) (length l) (rev l)) as [p Hp].
  exists (rev p). rewrite <- rev_app_distr, <- Hp. by rewrite rev_involutive.
Qed.

Lemma trim_right_idem l : trim_right_bytes (trim_right_bytes l) = trim_right_bytes l.
Proof.
  unfold trim_right_bytes at 1. rewrite trim_fuel_id; [by rewrite rev_involutive|].
  unfold trim_right_bytes. rewrite rev_involutive.
  apply trim_fuel_done; [auto with sdk|]. by rewrite length_rev.
Qed.

Lemma TrimSpace_idem s : TrimSpace (TrimSpace s) = TrimSpace s.
Proof.
  unfold TrimSpace. rewrite to_of_bytes. f_equal.
  set (l := trim_left_bytes (to_bytes s)).
  assert (Hl : strip_one space_runes l = None).
  { apply trim_fuel_done; auto with sdk. }
  destruct (trim_right_prefix l) as [k Hk]. rewrite Hk in Hl.
  apply strip_one_None_prefix in Hl.
  unfold trim_left_bytes at 1. rewrite (trim_fuel_id _ _ _ Hl). apply trim_right_idem.
Qed.

#[export] Hint Rewrite TrimSpace_idem : sdk.

Example TrimSpace_ex : TrimSpace "  a b	 " = "a b".
Proof. vm_compute. reflexivity. Qed.

(** ** Time *)

(** [time.Time] as nanoseconds since January 1 of year 1 UTC, so the zero [Time] is 0;
    [time.Duration] as an [int64] number of nanoseconds. *)
Definition Time := Z.
Definition Duration := Z.

Definition second : Duration := 1000000000.
Definition minute : Duration := 60 * second.
Definition hour : Duration := 60 * minute.

Definition unix_epoch : Time := 62135596800 * second.
Definition IsZero (t : Time) : bool := t =? 0.
Definition UnixNano (t : Time) : Z := wrap64 (t - unix_epoch).
Definition time_Unix0 (nsec : Z) : Time := unix_epoch + nsec.
(** [t.Sub(u)] saturates at the ends of [Duration]. *)
Definition time_Sub (t u : Time) : Duration := Z.max min_int64 (Z.min max_int64 (t - u)).
Definition time_Add (t : Time) (d : Duration) : Time := t + d.

Lemma UnixNano_Unix0 t : in64 (t - unix_epoch) -> time_Unix0 (UnixNano t) = t.
Proof. intros H. unfold time_Unix0, UnixNano. rewrite wrap64_id by done. lia. Qed.

(** ** IEEE binary64 *)

Abbreviation f64 := spec_float.

#[export] Instance spec_float_eq_dec : EqDecision spec_float.
Proof. solve_decision. Defined.
#[export] Instance f64_eq_dec : EqDecision f64 := spec_float_eq_dec.

Definition f64_zero : f64 := S754_zero false.
Definition f64_of_Z (z : Z) : f64 := binary_normalize 53 1024 z 0 false.
Definition f64_mul : f64 -> f64 -> f64 := SFmul 53 1024.
Definition f64_div : f64 -> f64 -> f64 := SFdiv 53 1024.
Definition f64_ltb : f64 -> f64 -> bool := SFltb.
Definition f64_leb : f64 -> f64 -> bool := SFleb.
Definition f64_eqb : f64 -> f64 -> bool := SFeqb.
(** The float64 nearest to the decimal literal [n / d]. *)
Definition f64_lit (n d : Z) : f64 := f64_div (f64_of_Z n) (f64_of_Z d).

(** Round a non-negative rational [n / d] to the nearest integer, halves away from zero. *)
Definition round_half_up (n d : Z) : Z := (2 * n + d) / (2 * d).
(** Same with halves to even, as decimal formatting does. *)
Definition round_half_even (n d : Z) : Z :=
  let q := n / d in
  let r := 2 * (n mod d) in
  if r <? d then q else if d <? r then q + 1 else if Z.even q then q else q + 1.

Definition sgn (s : bool) (z : Z) : Z := if s then - z else z.

(** [math.Round]: nearest integer, halves away from zero. *)
Definition math_Round (x : f64) : f64 :=
  match x with
  | S754_finite s m e =>
      if 0 <=? e then x
      else let n := round_half_up (Zpos m) (2 ^ (- e)) in
           if n =? 0 then S754_zero s else f64_of_Z (sgn s n)
  | _ => x
  end.

(** Conversion [int64(x)]: truncation; values out of range, infinities and NaN give the
    minimum [int64], as the amd64 conversion instruction does. *)
Definition f64_to_int64 (x : f64) : Z :=
  match x with
  | S754_zero _ => 0
  | S754_finite s m e =>
      let z := sgn s (if 0 <=? e then Zpos m * 2 ^ e else Zpos m / 2 ^ (- e)) in
      if (min_int64 <=? z) && (z <=? max_int64) then z else min_int64
  | _ => min_int64
  end.

Lemma f64_to_int64_range x : in64 (f64_to_int64 x).
Proof.
  unfold f64_to_int64, in64. destruct x; try (unfold min_int64, max_int64; lia).
  destruct ((min_int64 <=? _) && _) eqn:E; crush_bool; [done|]. unfold min_int64, max_int64; lia.
Qed.

Definition pad_left (w : nat) (s : string) : string :=
  of_bytes (replicate (w - String.length s) "0"%char) +:+ s.

(** [%.<prec>f] *)
Definition fmt_fixed (prec : nat) (x : f64) : string :=
  match x with
  | S754_nan => "NaN"
  | S754_infinity s => if s then "-Inf" else "+Inf"
  | S754_zero s => (if s then "-" else "") +:+ "0" +:+
      (if Nat.eqb prec 0 then "" else "." +:+ of_bytes (replicate prec "0"%char))
  | S754_finite s m e =>
      let p := 10 ^ Z.of_nat prec in
      let n := if 0 <=? e then Zpos m * 2 ^ e * p
               else round_half_even (Zpos m * p) (2 ^ (- e)) in
      (if s then "-" else "") +:+ Itoa (n / p) +:+
      (if Nat.eqb prec 0 then "" else "." +:+ pad_left prec (Itoa (n mod p)))
  end.

Example fmt_fixed_ex : fmt_fixed 2 (f64_lit 7 8) = "0.88" /\ fmt_fixed 6 (f64_lit 1 10) = "0.100000".
Proof. vm_compute. auto. Qed.

Example math_Round_ex : f64_to_int64 (math_Round (f64_mul (f64_lit 25 10) (f64_of_Z 1000))) = 2500.
Proof. vm_compute. reflexivity. Qed.

(** ** [time.Duration.String] *)

(** Fraction digits of [v / 10^prec], trailing zeros dropped. *)
Fixpoint drop_trailing_zeros (l : list ascii) : list ascii :=
  match l with
  | [] => []
  | c :: l =>
      match drop_trailing_zeros l with
      | [] => if Ascii.eqb c "0" then [] else [c]
      | l' => c :: l'
      end
  end.
Definition fmt_frac (v : Z) (prec : nat) : string :=
  match drop_trailing_zeros (to_bytes (pad_left prec (Itoa (v mod 10 ^ Z.of_nat prec)))) with
  | [] => ""
  | l => "." +:+ of_bytes l
  end.

Definition Duration_String (d : Duration) : string :=
  let u := Z.abs d in
  let body :=
    if u =? 0 then "0s"
    else if u <? 1000 then Itoa u +:+ "ns"
    else if u <? 1000000 then Itoa (u / 1000) +:+ fmt_frac u 3 +:+ of_bytes (ascs [194; 181]%N) +:+ "s"
    else if u <? second then Itoa (u / 1000000) +:+ fmt_frac u 6 +:+ "ms"
    else
      let secs := u / second in
      let s := Itoa (secs mod 60) +:+ fmt_frac u 9 +:+ "s" in
      let mins := secs / 60 in
      if mins =? 0 then s else
      let s := Itoa (mins mod 60) +:+ "m" +:+ s in
      let hours := mins / 60 in
      if hours =? 0 then s else Itoa hours +:+ "h" +:+ s in
  (if d <? 0 then "-" else "") +:+ body.

Example Duration_String_ex :
  Duration_String (744 * hour) = "744h0m0s" /\ Duration_String 1500000000 = "1.5s" /\
  Duration_String (- 2 * minute - 3000000) = "-2m0.003s" /\ Duration_String 1100000 = "1.1ms".
Proof. vm_compute. auto. Qed.

(** ** Sorting: [sort.Strings] *)

Definition sort_Strings (l : list string) : list string := merge_sort String.le l.

Lemma sort_Strings_Permutation l : sort_Strings l ≡ₚ l.
Proof. apply merge_sort_Permutation. Qed.

Lemma sort_Strings_Sorted l : Sorted String.le (sort_Strings l).
Proof. apply (Sorted_merge_sort _). Qed.

(** Sorting forgets the order, and nothing else. *)
Lemma sort_Strings_eq l k : sort_Strings l = sort_Strings k <-> l ≡ₚ k.
Proof.
  split.
  - intros H. rewrite <- (sort_Strings_Permutation l), H. apply sort_Strings_Permutation.
  - intros H. apply (Sorted_unique String.le); [apply sort_Strings_Sorted..|].
    by rewrite !sort_Strings_Permutation.
Qed.

Lemma elem_of_sort_Strings x l : x ∈ sort_Strings l <-> x ∈ l.
Proof. by rewrite sort_Strings_Permutation. Qed.
