(* ===== verification/Prog.v ===== *)
(** Effectful Go code as finite effect trees.

    A computation is a tree of effects [Do o k]: perform the effect [o], continue with the
    answer.  What an effect answers is decided by the environment (the LLM, the tools, the
    clock, the scheduler, ...) and, for the shared Go objects, by their own definitions
    (see [Effects.v]).  [texec m tr a] says that [m] can perform the effects [tr] in order
    and return [a]; [par] is the goroutine fan-out of a [sync.WaitGroup]: every
    interleaving of the branches' effects, chosen by [sched] effects. *)
From S2P Require Import Prelude.

(** An effect signature: effects and the type of the answer to each. *)
Class Sig := { op : Type; ans : op -> Type; sched : op; sched_ans : ans sched -> bool }.

Section prog.
Context `{S : Sig}.

Inductive prog (A : Type) : Type :=
| Ret (a : A)
| Do (o : op) (k : ans o -> prog A).

Arguments Ret {A} _.
Arguments Do {A} _ _.

Fixpoint bind {A B} (f : A -> prog B) (m : prog A) : prog B :=
  match m with
  | Ret a => f a
  | Do o k => Do o (fun r => bind f (k r))
  end.

#[global] Instance prog_ret : MRet prog := fun A a => Ret a.
#[global] Instance prog_bind : MBind prog := fun A B f m => bind f m.
#[global] Instance prog_map : FMap prog := fun A B f m => bind (fun a => Ret (f a)) m.

(** Perform one effect. *)
Definition perform (o : op) : prog (ans o) := Do o (fun r => Ret r).

(** Sequential traversal: [for idx, x := range l]. *)
Fixpoint traverse {A B} (f : A -> prog B) (l : list A) : prog (list B) :=
  match l with
  | [] => Ret []
  | x :: l => y ← f x; ys ← traverse f l; Ret (y :: ys)
  end.

(** A loop over a list that threads a state and may return early. *)
Fixpoint fold_prog {A B} (f : B -> A -> prog B) (b : B) (l : list A) : prog B :=
  match l with
  | [] => Ret b
  | x :: l => b' ← f b x; fold_prog f b' l
  end.

(** Two goroutines and the wait for both: at each point the scheduler decides which one
    performs its next effect. *)
Fixpoint par2 {A B} (m : prog A) : prog B -> prog (A * B) :=
  fix go (n : prog B) : prog (A * B) :=
    match m, n with
    | Ret a, _ => (fun b => (a, b)) <$> n
    | Do _ _, Ret b => (fun a => (a, b)) <$> m
    | Do o1 k1, Do o2 k2 =>
        Do sched (fun c =>
          if sched_ans c then Do o1 (fun r => par2 (k1 r) n)
          else Do o2 (fun r => go (k2 r)))
    end.

(** One goroutine per element, results stored at the element's index. *)
Fixpoint par {A} (ms : list (prog A)) : prog (list A) :=
  match ms with
  | [] => Ret []
  | m :: ms => (fun p => p.1 :: p.2) <$> par2 m (par ms)
  end.

(** *** Traces *)

Record event := Ev { ev_op : op; ev_ans : ans ev_op }.

Inductive texec {A} : prog A -> list event -> A -> Prop :=
| texec_ret a : texec (Ret a) [] a
| texec_do o k r tr a : texec (k r) tr a -> texec (Do o k) (Ev o r :: tr) a.

(** Scheduling decisions carry no other meaning. *)
Definition is_sched (e : event) : Prop := ev_op e = sched.

(** *** Trace specifications *)

(** Every execution of [m] satisfies [Q] of its trace and result. *)
Definition spec {A} (m : prog A) (Q : list event -> A -> Prop) : Prop :=
  forall tr a, texec m tr a -> Q tr a.

Lemma texec_inv {A} (m : prog A) tr a :
  texec m tr a ->
  match m with
  | Ret b => tr = [] /\ a = b
  | Do o k => exists r tr', tr = Ev o r :: tr' /\ texec (k r) tr' a
  end.
Proof. destruct 1; eauto. Qed.

Lemma texec_ret_inv {A} (a : A) tr b : texec (Ret a) tr b -> tr = [] /\ b = a.
Proof. apply (texec_inv (Ret a)). Qed.

Lemma texec_do_inv {A} o (k : ans o -> prog A) tr b :
  texec (Do o k) tr b -> exists r tr', tr = Ev o r :: tr' /\ texec (k r) tr' b.
Proof. apply (texec_inv (Do o k)). Qed.

Lemma texec_bind_inv {A B} (m : prog A) (f : A -> prog B) tr b :
  texec (bind f m) tr b ->
  exists tr1 tr2 a, tr = tr1 ++ tr2 /\ texec m tr1 a /\ texec (f a) tr2 b.
Proof.
  revert tr. induction m as [a|o k IH]; intros tr H; simpl in H.
  - exists [], tr, a. repeat split; [constructor|done].
  - apply texec_do_inv in H as (r & tr' & -> & H).
    destruct (IH _ _ H) as (tr1 & tr2 & a & -> & ? & ?).
    exists (Ev o r :: tr1), tr2, a. repeat split; [by constructor|done].
Qed.

Lemma texec_bind {A B} (m : prog A) (f : A -> prog B) tr1 tr2 a b :
  texec m tr1 a -> texec (f a) tr2 b -> texec (bind f m) (tr1 ++ tr2) b.
Proof. induction 1; simpl; [done|]. intros. constructor. auto. Qed.

Lemma spec_ret {A} (a : A) (Q : list event -> A -> Prop) : Q [] a -> spec (Ret a) Q.
Proof. intros H tr b Hx. apply texec_ret_inv in Hx as [-> ->]. done. Qed.

Lemma spec_mret {A} (a : A) (Q : list event -> A -> Prop) : Q [] a -> spec (mret a) Q.
Proof. apply spec_ret. Qed.

Lemma spec_do {A} o (k : ans o -> prog A) Q :
  (forall r, spec (k r) (fun tr a => Q (Ev o r :: tr) a)) -> spec (Do o k) Q.
Proof. intros H tr a Hx. apply texec_do_inv in Hx as (r & tr' & -> & Hx). by apply H. Qed.

Lemma spec_perform o Q : (forall r, Q [Ev o r] r) -> spec (perform o) Q.
Proof. intros H. apply spec_do. intros r. by apply spec_ret. Qed.

Lemma spec_bind {A B} (m : prog A) (f : A -> prog B) Q1 Q :
  spec m Q1 ->
  (forall tr1 a, Q1 tr1 a -> spec (f a) (fun tr2 b => Q (tr1 ++ tr2) b)) ->
  spec (m ≫= f) Q.
Proof.
  intros H1 H2 tr b Hx. apply texec_bind_inv in Hx as (tr1 & tr2 & a & -> & Ha & Hb).
  by apply (H2 tr1 a (H1 _ _ Ha)).
Qed.

Lemma spec_fmap {A B} (m : prog A) (f : A -> B) Q :
  spec m (fun tr a => Q tr (f a)) -> spec (f <$> m) Q.
Proof.
  intros H. apply (spec_bind m (fun a => Ret (f a)) _ _ H).
  intros tr a Ha. apply spec_ret. by rewrite app_nil_r.
Qed.

Lemma spec_conseq {A} (m : prog A) (Q Q' : list event -> A -> Prop) :
  spec m Q -> (forall tr a, Q tr a -> Q' tr a) -> spec m Q'.
Proof. intros H HQ tr a Hx. auto. Qed.

Lemma spec_and {A} (m : prog A) (Q Q' : list event -> A -> Prop) :
  spec m Q -> spec m Q' -> spec m (fun tr a => Q tr a /\ Q' tr a).
Proof. intros H H' tr a Hx. auto. Qed.

Lemma spec_true {A} (m : prog A) : spec m (fun _ _ => True).
Proof. done. Qed.

Lemma spec_traverse {A B} (f : A -> prog B) (P : list event -> Prop) (R : A -> B -> Prop) l :
  P [] -> (forall t1 t2, P t1 -> P t2 -> P (t1 ++ t2)) ->
  (forall x, In x l -> spec (f x) (fun tr y => P tr /\ R x y)) ->
  spec (traverse f l) (fun tr ys => P tr /\ Forall2 R l ys).
Proof.
  intros Hnil Happ. induction l as [|x l IH]; intros Hf; simpl.
  - apply spec_ret. auto.
  - eapply spec_bind; [apply Hf; simpl; auto|]. intros tr1 y [H1 Hy].
    eapply spec_bind; [apply IH; intros; apply Hf; simpl; auto|]. intros tr2 ys [H2 Hys].
    apply spec_ret. rewrite app_nil_r. auto.
Qed.

Lemma spec_fold {A B} (f : B -> A -> prog B) (P : list event -> Prop) (I : B -> Prop) l :
  P [] -> (forall t1 t2, P t1 -> P t2 -> P (t1 ++ t2)) ->
  (forall b x, I b -> spec (f b x) (fun tr b' => P tr /\ I b')) ->
  forall b, I b -> spec (fold_prog f b l) (fun tr b' => P tr /\ I b').
Proof.
  intros Hnil Happ Hf. induction l as [|x l IH]; intros b Hb; simpl.
  - apply spec_ret. auto.
  - eapply spec_bind; [by apply Hf|]. intros tr1 b' [H1 Hb'].
    eapply spec_conseq; [by apply IH|]. simpl. intros tr2 ? [? ?]. auto.
Qed.

(** *** Fan-out: every execution of [par2] is an interleaving *)

Lemma texec_fmap_inv {A B} (f : A -> B) (m : prog A) tr b :
  texec (f <$> m) tr b -> exists a, b = f a /\ texec m tr a.
Proof.
  intros H. apply texec_bind_inv in H as (t1 & t2 & a & -> & Ha & Hb).
  apply texec_ret_inv in Hb as [-> ->]. rewrite app_nil_r. eauto.
Qed.

(** [tr] without its scheduling decisions is a shuffle of [t1] and [t2]. *)
Inductive shuffled : list event -> list event -> list event -> Prop :=
| sh_nil : shuffled [] [] []
| sh_left x l1 l2 l : shuffled l1 l2 l -> shuffled (x :: l1) l2 (x :: l)
| sh_right x l1 l2 l : shuffled l1 l2 l -> shuffled l1 (x :: l2) (x :: l)
| sh_sched x l1 l2 l : is_sched x -> shuffled l1 l2 l -> shuffled l1 l2 (x :: l).

Lemma shuffled_nil_l l : shuffled [] l l.
Proof. induction l; by constructor. Qed.

Lemma shuffled_nil_r l : shuffled l [] l.
Proof. induction l; by constructor. Qed.

Lemma texec_par2 {A B} (m : prog A) (n : prog B) tr p :
  texec (par2 m n) tr p ->
  exists t1 t2, texec m t1 p.1 /\ texec n t2 p.2 /\ shuffled t1 t2 tr.
Proof.
  revert n tr. induction m as [a|o1 k1 IHm]; intros n tr H.
  - destruct n; apply texec_fmap_inv in H as (b' & -> & H);
      exists [], tr; (split; [constructor|split; [done|apply shuffled_nil_l]]).
  - revert tr H. induction n as [b|o2 k2 IHn]; intros tr H.
    + apply texec_fmap_inv in H as (a' & -> & H).
      exists tr, []. split; [done|]. split; [constructor|apply shuffled_nil_r].
    + simpl in H. apply texec_do_inv in H as (c & tr' & -> & H).
      destruct (sched_ans c); apply texec_do_inv in H as (r & tr2 & -> & H).
      * destruct (IHm _ _ _ H) as (t1 & t2 & ? & ? & ?).
        exists (Ev o1 r :: t1), t2. split; [by constructor|]. split; [done|].
        apply sh_sched; [done|]. by apply sh_left.
      * destruct (IHn _ _ H) as (t1 & t2 & ? & ? & ?).
        exists t1, (Ev o2 r :: t2). split; [done|]. split; [by constructor|].
        apply sh_sched; [done|]. by apply sh_right.
Qed.

(** Trace predicates that survive shuffling. *)
Class Shuffleable (P : list event -> Prop) := {
  shuffle_nil : P [];
  shuffle_app t1 t2 : P t1 -> P t2 -> P (t1 ++ t2);
  shuffle_shuffled t1 t2 t : shuffled t1 t2 t -> P t1 -> P t2 -> P t }.

Lemma spec_par {A B} (f : A -> prog B) (P : list event -> Prop) `{!Shuffleable P}
    (R : A -> B -> Prop) l :
  (forall x, In x l -> spec (f x) (fun tr y => P tr /\ R x y)) ->
  spec (par (map f l)) (fun tr ys => P tr /\ Forall2 R l ys).
Proof.
  induction l as [|x l IH]; intros Hf; simpl.
  - apply spec_ret. split; [apply shuffle_nil|constructor].
  - apply spec_fmap. intros tr [y ys] Hx. apply texec_par2 in Hx as (t1 & t2 & Hy & Hys & Hs).
    destruct (Hf x (or_introl eq_refl) _ _ Hy) as [? ?].
    destruct (IH (fun z Hz => Hf z (or_intror Hz)) _ _ Hys) as [? ?].
    split; [by eapply shuffle_shuffled|]. constructor; done.
Qed.

(** *** Running a tree against an executable environment *)

Section run.
Context {W : Type} (h : W -> forall o, ans o * W).

Fixpoint run {A} (w : W) (m : prog A) : list event * A * W :=
  match m with
  | Ret a => ([], a, w)
  | Do o k =>
      let '(r, w') := h w o in
      let '(tr, a, w'') := run w' (k r) in
      (Ev o r :: tr, a, w'')
  end.

Lemma run_texec {A} w (m : prog A) tr a w' : run w m = (tr, a, w') -> texec m tr a.
Proof.
  revert w tr a w'. induction m as [b|o k IH]; intros w tr a w'; simpl.
  - intros [= <- <- _]. constructor.
  - destruct (h w o) as [r w1]. destruct (run w1 (k r)) as [[tr1 a1] w2] eqn:E.
    intros [= <- <- _]. constructor. by eapply IH.
Qed.

Definition run_trace {A} w (m : prog A) : list event := (run w m).1.1.
Definition run_value {A} w (m : prog A) : A := (run w m).1.2.

Lemma run_texec' {A} w (m : prog A) : texec m (run_trace w m) (run_value w m).
Proof.
  unfold run_trace, run_value. destruct (run w m) as [[tr a] w'] eqn:E. by eapply run_texec.
Qed.
End run.
End prog.

Arguments prog {_} _.
Arguments Ret {_ _} _.
Arguments Do {_ _} _ _.
Arguments spec {_ _} _ _.
Arguments event : clear implicits.

(** ** Trace predicates closed under shuffling: the common shapes *)
Section shuffleable.
Context `{S : Sig}.

Lemma shuffled_Forall (P : @event S -> Prop) t1 t2 t :
  (forall e, is_sched e -> P e) ->
  shuffled t1 t2 t -> Forall P t1 -> Forall P t2 -> Forall P t.
Proof.
  intros Hs. induction 1; intros H1 H2; auto.
  - inversion H1; subst. auto.
  - inversion H2; subst. auto.
Qed.

(** [Forall P] for a [P] that holds of scheduling decisions. *)
Lemma Shuffleable_Forall (P : @event S -> Prop) :
  (forall e, is_sched e -> P e) -> Shuffleable (Forall P).
Proof.
  intros Hs. constructor.
  - constructor.
  - intros. by apply Forall_app.
  - intros. by eapply shuffled_Forall.
Qed.

Lemma shuffled_app_inv (t1 t2 p q : list (@event S)) :
  shuffled t1 t2 (p ++ q) ->
  exists p1 q1 p2 q2, t1 = p1 ++ q1 /\ t2 = p2 ++ q2 /\ shuffled p1 p2 p /\ shuffled q1 q2 q.
Proof.
  revert t1 t2. induction p as [|x p IH]; intros t1 t2 H; simpl in H.
  - exists [], t1, [], t2. repeat split; try done. constructor.
  - inversion H as [|? l1 ? ? H'|? ? l2 ? H'|? ? ? ? Hs H']; subst;
      destruct (IH _ _ H') as (p1 & q1 & p2 & q2 & -> & -> & ? & ?).
    + exists (x :: p1), q1, p2, q2. repeat split; try done. by constructor.
    + exists p1, q1, (x :: p2), q2. repeat split; try done. by constructor.
    + exists p1, q1, p2, q2. repeat split; try done. by constructor.
Qed.

Lemma shuffled_in (e : @event S) t1 t2 t :
  shuffled t1 t2 t -> In e t1 \/ In e t2 -> In e t.
Proof. induction 1; simpl; tauto. Qed.

(** Guardedness survives shuffling: a guard stays earlier than what it guards. *)
Lemma Shuffleable_guarded (needs : @event S -> Prop) (G : event S -> event S -> Prop) past :
  (forall e, is_sched e -> ~ needs e) -> Shuffleable (guarded needs G past).
Proof.
  intros Hs. constructor.
  - apply guarded_nil.
  - intros t1 t2 H1 H2. apply guarded_app; [done|]. eapply guarded_mono; [|done].
    intros f ?. apply in_or_app. auto.
  - intros t1 t2 t Hsh H1 H2 pre e post -> He.
    destruct (shuffled_app_inv _ _ _ _ Hsh) as (p1 & q1 & p2 & q2 & -> & -> & Hp & Hq).
    inversion Hq as [|? q1' ? ? _|? ? q2' ? _|? ? ? ? Hx _]; subst.
    + destruct (H1 p1 e q1' eq_refl He) as (f & Hin & ?). exists f. split; [|done].
      apply in_app_or in Hin. apply in_or_app. destruct Hin as [|Hin]; [auto|right].
      eapply shuffled_in; eauto.
    + destruct (H2 p2 e q2' eq_refl He) as (f & Hin & ?). exists f. split; [|done].
      apply in_app_or in Hin. apply in_or_app. destruct Hin as [|Hin]; [auto|right].
      eapply shuffled_in; eauto.
    + exfalso. by eapply Hs.
Qed.

(** So does the converse: what follows stays later than what it follows. *)
Lemma Shuffleable_followed (needs : @event S -> Prop) (G : event S -> event S -> Prop) :
  (forall e, is_sched e -> ~ needs e) -> Shuffleable (followed needs G).
Proof.
  intros Hs. constructor; [apply followed_nil|by intros; apply followed_app|].
  intros t1 t2 t Hsh H1 H2 pre e post -> He.
  destruct (shuffled_app_inv _ _ _ _ Hsh) as (p1 & q1 & p2 & q2 & -> & -> & Hp & Hq).
  inversion Hq as [|? q1' ? ? Hq'|? ? q2' ? Hq'|? ? ? ? Hx _]; subst.
  - destruct (H1 p1 e q1' eq_refl He) as (f & Hin & ?). exists f. split; [|done]. eapply shuffled_in; eauto.
  - destruct (H2 p2 e q2' eq_refl He) as (f & Hin & ?). exists f. split; [|done]. eapply shuffled_in; eauto.
  - exfalso. by eapply Hs.
Qed.

Lemma Shuffleable_and (P Q : list (@event S) -> Prop) :
  Shuffleable P -> Shuffleable Q -> Shuffleable (fun t => P t /\ Q t).
Proof.
  intros HP HQ. constructor.
  - split; apply shuffle_nil.
  - intros t1 t2 [] []. split; by apply shuffle_app.
  - intros t1 t2 t Hsh [] []. split; by eapply shuffle_shuffled.
Qed.

(** A property of the traces all of whose answers satisfy [T]. *)
Lemma Shuffleable_given (T : @event S -> Prop) (P : list (@event S) -> Prop) :
  Shuffleable P -> Shuffleable (fun t => Forall T t -> P t).
Proof.
  intros HP. constructor.
  - intros _. apply shuffle_nil.
  - intros t1 t2 H1 H2 [? ?]%Forall_app. by apply shuffle_app; auto.
  - intros t1 t2 t Hsh H1 H2 Ht. rewrite List.Forall_forall in Ht.
    eapply shuffle_shuffled; [exact Hsh|apply H1|apply H2]; apply List.Forall_forall; intros e He;
      apply Ht; eapply shuffled_in; eauto.
Qed.
End shuffleable.

