(* ===== verification/ProgSpec.v ===== *)
(** Reasoning about effect trees over any signature: [only P m], every effect an execution of
    [m] performs satisfies [P]; [safe J past m], in every execution of [m] that follows the trace
    [past] each effect is justified by what precedes it; [paired T needs G m], what is begun
    is finished. *)
From S2P Require Import Prelude Prog.

Section prog_spec.
Context `{S : Sig}.

Section only.
Context (P : event S -> Prop).

Definition only {A} (m : prog A) : Prop := spec m (fun tr _ => Forall P tr).

Lemma only_ret {A} (a : A) : only (mret a).
Proof. by apply spec_mret. Qed.

Lemma only_perform o : (forall r, P (Ev o r)) -> only (perform o).
Proof. intros H. apply spec_perform. intros r. by constructor. Qed.

Lemma only_bind {A B} (m : prog A) (f : A -> prog B) : only m -> (forall a, only (f a)) -> only (m ≫= f).
Proof.
  intros Hm Hf. eapply spec_bind; [exact Hm|]. intros t1 a H1. eapply spec_conseq; [apply Hf|].
  intros t2 b H2. by apply Forall_app.
Qed.

Lemma only_fmap {A B} (f : A -> B) (m : prog A) : only m -> only (f <$> m).
Proof. intros H. apply spec_fmap. exact H. Qed.

Lemma only_traverse {A B} (f : A -> prog B) l : (forall x, only (f x)) -> only (traverse f l).
Proof. intros H. induction l as [|x l IH]; simpl; [apply only_ret|]. repeat (apply only_bind; [done|intros]). apply only_ret. Qed.

Lemma only_par {A B} (f : A -> prog B) l :
  (forall e, is_sched e -> P e) -> (forall x, only (f x)) -> only (par (map f l)).
Proof.
  intros Hs H tr a Hx. eapply (@spec_par S _ _ f (Forall P) (Shuffleable_Forall P Hs) (fun _ _ => True)); [|exact Hx].
  intros x _ t y Hy. split; [by eapply H|done].
Qed.
End only.

Lemma only_mono (P Q : event S -> Prop) {A} (m : prog A) : (forall e, P e -> Q e) -> only P m -> only Q m.
Proof. intros H Hm. eapply spec_conseq; [exact Hm|]. intros tr a Ht. by eapply Forall_impl. Qed.

(** What holds of the trace and result of the first part is available to the second. *)
Lemma spec_seq {A B} (m : prog A) (f : A -> prog B) (Q1 : list (event S) -> A -> Prop) Q2 Q :
  spec m Q1 -> (forall t1 a, Q1 t1 a -> spec (f a) (Q2 t1 a)) ->
  (forall t1 a t2 b, Q1 t1 a -> Q2 t1 a t2 b -> Q (t1 ++ t2) b) -> spec (m ≫= f) Q.
Proof. intros H1 H2 H. eapply spec_bind; [exact H1|]. intros t1 a Ha. eapply spec_conseq; [by apply H2|]. eauto. Qed.

(** A postcondition of the executions all of whose effects satisfy [T]. *)
Definition given (T : event S -> Prop) {A} (Q : list (event S) -> A -> Prop) (tr : list (event S)) (a : A) : Prop :=
  Forall T tr -> Q tr a.

Lemma spec_given_bind T {A B} (m : prog A) (f : A -> prog B) (Q1 : list (event S) -> A -> Prop) Q :
  spec m (given T Q1) ->
  (forall t1 a, Forall T t1 -> Q1 t1 a -> spec (f a) (given T (fun t2 b => Q (t1 ++ t2) b))) ->
  spec (m ≫= f) (given T Q).
Proof.
  intros Hm Hf tr b Hx Ht. apply texec_bind_inv in Hx as (t1 & t2 & a & -> & Ha & Hb).
  apply Forall_app in Ht as [H1 H2]. by eapply (Hf t1 a H1 (Hm _ _ Ha H1)).
Qed.

Lemma spec_given T {A} (m : prog A) (Q : list (event S) -> A -> Prop) : spec m Q -> spec m (given T Q).
Proof. intros H tr a Hx _. by apply H. Qed.

(** [justified J past l]: every element [e] of [l] satisfies [J] of what precedes it, in [past] or
    in [l]; [J] may only ask for elements to be there. *)
Section justified.
Context (J : list (event S) -> event S -> Prop).
Context (J_mono : forall p p' e, (forall f, In f p -> In f p') -> J p e -> J p' e).

Definition justified (past l : list (event S)) : Prop :=
  forall pre e post, l = pre ++ e :: post -> J (past ++ pre) e.

Lemma justified_nil past : justified past [].
Proof. intros pre e post H. destruct pre; discriminate. Qed.

Lemma justified_cons past x l : J past x -> justified (past ++ [x]) l -> justified past (x :: l).
Proof.
  intros Hx Hl [|y pre] e post Heq; simplify_eq/=; [by rewrite app_nil_r|].
  specialize (Hl pre e post eq_refl). by rewrite <- app_assoc in Hl.
Qed.

Lemma justified_app past l1 l2 : justified past l1 -> justified (past ++ l1) l2 -> justified past (l1 ++ l2).
Proof.
  revert past. induction l1 as [|x l1 IH]; intros past H1 H2; simpl; [by rewrite app_nil_r in H2|].
  apply justified_cons; [by specialize (H1 [] x l1 eq_refl); rewrite app_nil_r in H1|].
  apply IH; [|by rewrite <- app_assoc].
  intros pre e post ->. specialize (H1 (x :: pre) e post eq_refl). by rewrite <- app_assoc.
Qed.

Lemma justified_mono past past' l : (forall f, In f past -> In f past') -> justified past l -> justified past' l.
Proof using J_mono.
  intros Hsub H pre e post ->. eapply J_mono; [|by eapply H]. intros f Hf. apply in_app_or in Hf. apply in_or_app. naive_solver.
Qed.

Lemma justified_all past l : (forall e, In e l -> forall p, J p e) -> justified past l.
Proof. intros H pre e post ->. apply H. apply in_or_app. simpl. auto. Qed.

Lemma Shuffleable_justified past : (forall e p, is_sched e -> J p e) -> Shuffleable (justified past).
Proof using J_mono.
  intros Hs. constructor.
  - apply justified_nil.
  - intros t1 t2 H1 H2. apply justified_app; [done|]. eapply justified_mono; [|done]. intros f ?. apply in_or_app. auto.
  - intros t1 t2 t Hsh H1 H2 pre e post ->.
    destruct (shuffled_app_inv _ _ _ _ Hsh) as (p1 & q1 & p2 & q2 & -> & -> & Hp & Hq).
    assert (forall p, (forall f, In f p -> In f p1 \/ In f p2) -> J (past ++ p) e -> J (past ++ pre) e) as Hup.
    { intros p Hsub. apply J_mono. intros f Hf. apply in_app_or in Hf. apply in_or_app.
      destruct Hf as [|Hf]; [auto|right]. by eapply shuffled_in, Hsub. }
    inversion Hq as [|? q1' ? ? _|? ? q2' ? _|? ? ? ? Hx _]; subst.
    + apply (Hup p1); [auto|]. by apply (H1 p1 e q1').
    + apply (Hup p2); [auto|]. by apply (H2 p2 e q2').
    + by apply Hs.
Qed.

Definition safe (past : list (event S)) {A} (m : prog A) : Prop := spec m (fun tr _ => justified past tr).

Lemma safe_ret past {A} (a : A) : safe past (mret a).
Proof. apply spec_mret, justified_nil. Qed.

Lemma safe_only past {A} (m : prog A) : only (fun e => forall p, J p e) m -> safe past m.
Proof.
  intros H. eapply spec_conseq; [exact H|]. intros tr a Ht. apply justified_all.
  intros e He. rewrite List.Forall_forall in Ht. by apply Ht.
Qed.

(** [R] is what the continuation learns of the trace and answer of the first part. *)
Lemma safe_bind past {A B} (R : list (event S) -> A -> Prop) (m : prog A) (f : A -> prog B) :
  safe past m -> spec m R -> (forall t a, R t a -> safe (past ++ t) (f a)) -> safe past (m ≫= f).
Proof.
  intros Hm HR Hf. eapply spec_bind; [by apply (spec_and _ _ _ Hm HR)|]. cbn beta. intros t1 a [H1 H2].
  eapply spec_conseq; [by apply Hf|]. intros t2 b H3. by apply justified_app.
Qed.

Lemma safe_seq past {A B} (m : prog A) (f : A -> prog B) :
  safe past m -> (forall t a, safe (past ++ t) (f a)) -> safe past (m ≫= f).
Proof. intros Hm Hf. apply (safe_bind past (fun _ _ => True)); [done|apply spec_true|auto]. Qed.

Lemma safe_mono past past' {A} (m : prog A) :
  (forall f, In f past -> In f past') -> safe past m -> safe past' m.
Proof using J_mono. intros Hsub H. eapply spec_conseq; [exact H|]. intros tr a. by apply justified_mono. Qed.

Lemma safe_later past t {A} (m : prog A) : safe past m -> safe (past ++ t) m.
Proof using J_mono. apply safe_mono. intros f Hf. apply in_or_app. by left. Qed.

(** One effect. *)
Lemma safe_perform past o : (forall r, J past (Ev o r)) -> safe past (perform o).
Proof. intros H. apply spec_perform. intros r. apply justified_cons; [apply H|apply justified_nil]. Qed.

Lemma safe_traverse past {A B} (f : A -> prog B) l :
  (forall x, In x l -> safe past (f x)) -> safe past (traverse f l).
Proof using J_mono.
  revert past. induction l as [|x l IH]; intros past H; simpl; [apply safe_ret|].
  apply safe_seq; [apply H; by left|]. intros t y. apply safe_seq; [|intros; apply safe_ret].
  apply IH. intros z Hz. apply safe_later, H. by right.
Qed.

Lemma safe_par past {A B} (f : A -> prog B) l :
  (forall e p, is_sched e -> J p e) -> (forall x, In x l -> safe past (f x)) -> safe past (par (map f l)).
Proof using J_mono.
  intros Hs H tr a Hx.
  eapply (@spec_par S _ _ f (justified past) (Shuffleable_justified past Hs) (fun _ _ => True)); [|exact Hx].
  intros x Hin t y Hy. split; [by eapply H|done].
Qed.

(** [yields past m Q]: [m] is safe after [past], and [Q] holds of the whole trace and the result. *)
Definition yields (past : list (event S)) {A} (m : prog A) (Q : list (event S) -> A -> Prop) : Prop :=
  spec m (fun t a => justified past t /\ Q (past ++ t) a).

Lemma yields_ret past {A} (a : A) (Q : list (event S) -> A -> Prop) : Q past a -> yields past (mret a) Q.
Proof. intros H. apply spec_mret. rewrite app_nil_r. split; [apply justified_nil|done]. Qed.

Lemma yields_bind past {A B} (m : prog A) (f : A -> prog B) (P : list (event S) -> A -> Prop) Q :
  yields past m P -> (forall past' a, P past' a -> yields past' (f a) Q) -> yields past (m ≫= f) Q.
Proof.
  intros Hm Hf. eapply spec_bind; [exact Hm|]. cbn beta. intros t1 a [H1 Ha]. eapply spec_conseq; [by apply Hf|].
  cbn beta. intros t2 b [H2 Hb]. split; [by apply justified_app|]. by rewrite app_assoc.
Qed.

Lemma yields_conseq past {A} (m : prog A) (P Q : list (event S) -> A -> Prop) :
  yields past m P -> (forall past' a, P past' a -> Q past' a) -> yields past m Q.
Proof. intros H HPQ. eapply spec_conseq; [exact H|]. cbn beta. intros t a [? ?]. auto. Qed.

Lemma yields_both past {A} (m : prog A) (R : list (event S) -> A -> Prop) (Q : list (event S) -> A -> Prop) :
  safe past m -> spec m R -> (forall t a, R t a -> Q (past ++ t) a) -> yields past m Q.
Proof. intros Hs HR H. eapply spec_conseq; [by apply (spec_and _ _ _ Hs HR)|]. cbn beta. intros t a [? ?]. auto. Qed.

(** A part that performs nothing to justify, in a state that later events do not change. *)
Lemma yields_later past {A} (m : prog A) (Q : list (event S) -> A -> Prop) (P : list (event S) -> Prop) :
  safe past m -> P past -> (forall p t a, P p -> Q (p ++ t) a) -> yields past m Q.
Proof. intros Hs HP H. eapply spec_conseq; [exact Hs|]. cbn beta. intros t a Hj. auto. Qed.

Lemma yields_safe past {A} (m : prog A) (Q : list (event S) -> A -> Prop) : yields past m Q -> safe past m.
Proof. intros H. eapply spec_conseq; [exact H|]. by intros t a []. Qed.

(** A phase that goes through a list: what held of each element before holds of its successor. *)
Lemma yields_traverse {A B} (P : list (event S) -> A -> Prop) (Q : list (event S) -> B -> Prop) (f : A -> prog B) :
  (forall p t x, P p x -> P (p ++ t) x) -> (forall p t y, Q p y -> Q (p ++ t) y) ->
  (forall past x, P past x -> yields past (f x) Q) ->
  forall past l, Forall (P past) l -> yields past (traverse f l) (fun p ys => Forall (Q p) ys).
Proof.
  intros HP HQ Hf past l. revert past. induction l as [|x l IH]; intros past Hl; simpl; [by apply yields_ret|].
  inversion Hl as [|? ? Hx Hl']; subst. clear Hl. rename Hl' into Hl.
  apply (yields_bind past (f x) _ (fun p y => Q p y /\ Forall (P p) l)).
  - eapply spec_conseq; [by apply Hf|]. cbn beta. intros t y [? ?]. repeat split; try done.
    eapply Forall_impl; [|exact Hl]. intros z. apply HP.
  - intros p y [Hy Hl']. apply (yields_bind p (traverse f l) _ (fun p' ys => Q p' y /\ Forall (Q p') ys)).
    + eapply spec_conseq; [by apply IH|]. cbn beta. intros t ys [? ?]. auto.
    + intros p' ys [? ?]. apply yields_ret. by constructor.
Qed.
End justified.

(** In the executions all of whose effects satisfy [T], what [needs] it is followed by what
    finishes it. *)
Section paired.
Context (T : event S -> Prop) (needs : event S -> Prop) (G : event S -> event S -> Prop).

Definition paired {A} (m : prog A) : Prop := spec m (given T (fun tr _ => followed needs G tr)).

Lemma paired_ret {A} (a : A) : paired (mret a).
Proof. apply spec_mret. intros _. apply followed_nil. Qed.

Lemma paired_only {A} (m : prog A) : only (fun e => ~ needs e) m -> paired m.
Proof.
  intros H. eapply spec_conseq; [exact H|]. intros tr a Ht _. apply followed_no_needs.
  intros e He. rewrite List.Forall_forall in Ht. by apply Ht.
Qed.

Lemma paired_bind {A B} (m : prog A) (f : A -> prog B) : paired m -> (forall a, paired (f a)) -> paired (m ≫= f).
Proof.
  intros Hm Hf. eapply spec_given_bind; [exact Hm|]. cbn beta. intros t1 a _ H1. eapply spec_conseq; [apply Hf|].
  intros t2 b H2 Ht. by apply followed_app; [|apply H2].
Qed.

Lemma paired_traverse {A B} (f : A -> prog B) l : (forall x, paired (f x)) -> paired (traverse f l).
Proof. intros H. induction l as [|x l IH]; simpl; [apply paired_ret|]. repeat (apply paired_bind; [done|intros]). apply paired_ret. Qed.

Lemma paired_par {A B} (f : A -> prog B) l :
  (forall e, is_sched e -> ~ needs e) -> (forall x, paired (f x)) -> paired (par (map f l)).
Proof.
  intros Hs H tr a Hx.
  refine (proj1 (@spec_par S _ _ f _ (Shuffleable_given T _ (Shuffleable_followed needs G Hs)) (fun _ _ => True) l _ tr a Hx)).
  intros x Hin t y Hy. split; [by eapply H|done].
Qed.
End paired.
End prog_spec.
