(* ===== verification/Types.v ===== *)
(** Data shared by the components ([internal/types], [pkg/interfaces], the input and
    result structs of [internal/runtime/base]).  Go string enumerations stay strings;
    pointers are options; [map[string]T] is [gmap string T]; an [any] decoded from JSON
    is a [value].  Field names carry a prefix per struct. *)
From S2P Require Import Prelude GoLib.

#[local] Open Scope string_scope.
#[local] Open Scope list_scope.
#[local] Open Scope Z_scope.

(** ** JSON values *)

Inductive value :=
| VNull
| VBool (b : bool)
| VNum (x : f64)
| VStr (s : string)
| VArr (l : list value)
| VObj (l : list (string * value)).

Abbreviation Args := (gmap string value).

(** Type assertion [v.(string)]. *)
Definition as_string (v : option value) : option string :=
  match v with Some (VStr s) => Some s | _ => None end.

(** ** Budgets: configuration and the breach error *)

Record BudgetConfig := {
  cfg_MaxTokens : Z;
  cfg_MaxCostUSD : f64;
  cfg_PromptUSDPer1M : f64;
  cfg_CompletionUSDPer1M : f64;
  cfg_OnExceeded : string;
  cfg_ApprovalExtraTokens : Z;
  cfg_ApprovalExtraCostUSD : f64;
  cfg_MaxApprovals : Z }.

Definition BudgetStopRun : string := "stop_run".
Definition BudgetWaitForApproval : string := "wait_for_approval".

Definition BudgetExceededAction_IsValid (a : string) : bool :=
  String.eqb a BudgetStopRun || String.eqb a BudgetWaitForApproval.

Definition BudgetExceededKindTokens : string := "tokens".
Definition BudgetExceededKindCost : string := "cost_usd".

Record BudgetExceededError := {
  be_Kind : string;
  be_TotalTokens : Z;
  be_TotalCostUSD : f64;
  be_LimitTokens : Z;
  be_LimitCostUSD : f64;
  be_WatermarkTokens : Z;
  be_WatermarkCostUSD : f64 }.

Definition BudgetExceededError_Error (e : BudgetExceededError) : string :=
  if String.eqb (be_Kind e) BudgetExceededKindCost then
    "per-run budget exceeded: estimated cost $" +:+ fmt_fixed 6 (be_TotalCostUSD e) +:+
    " exceeds limit $" +:+ fmt_fixed 6 (be_LimitCostUSD e) +:+
    " (watermark $" +:+ fmt_fixed 6 (be_WatermarkCostUSD e) +:+ ")"
  else
    "per-run budget exceeded: total tokens " +:+ Itoa (be_TotalTokens e) +:+
    " exceeds limit " +:+ Itoa (be_LimitTokens e) +:+
    " (watermark " +:+ Itoa (be_WatermarkTokens e) +:+ ")".

(** ** Errors

    An error is its message and what [errors.Is]/[errors.As] find in its chain. *)
Inductive sentinel :=
| ErrBudgetExceeded
| ErrBudgetApprovalUnavailable
| ContextCanceled
| ContextDeadlineExceeded
| ErrRegistryNotFound
| ErrRegistryDuplicate
| ErrRegistryInvalidName
| ErrRegistryNilEntry
| ErrSubAgentNameInvalid
| ErrApprovalAlreadyResolved
| ErrRunNotFound
| ErrStreamNotFound
| ErrStreamOffsetNotSupported
| ErrStreamAlreadyConsumed
| ErrRunAlreadyCompleted
| ErrEventBusClosed
| ErrAgentEventLogCleared
| ErrAgentFingerprintMismatch
| ErrNotApprovalCustomEvent.

#[export] Instance sentinel_eq_dec : EqDecision sentinel.
Proof. solve_decision. Defined.

Record error := {
  err_msg : string;
  err_chain : list sentinel;
  err_budget : option BudgetExceededError }.

Definition errors_New (msg : string) : error := {| err_msg := msg; err_chain := []; err_budget := None |}.

Definition sentinel_msg (s : sentinel) : string :=
  match s with
  | ErrBudgetExceeded => "agent: per-run budget exceeded"
  | ErrBudgetApprovalUnavailable => "agent: budget approval unavailable (stream not connected)"
  | ContextCanceled => "context canceled"
  | ContextDeadlineExceeded => "context deadline exceeded"
  | ErrRegistryNotFound => "agent: registry entry not found"
  | ErrRegistryDuplicate => "agent: registry entry already exists"
  | ErrRegistryInvalidName => "agent: registry name must not be empty"
  | ErrRegistryNilEntry => "agent: registry entry must not be nil"
  | ErrSubAgentNameInvalid => "sub-agent name invalid for delegation tool"
  | ErrApprovalAlreadyResolved => "runtime: approval already resolved"
  | ErrRunNotFound => "runtime: run not found (unknown runID)"
  | ErrStreamNotFound => "runtime: stream not found (unknown runID)"
  | ErrStreamOffsetNotSupported => "runtime: stream offset not supported by this runtime"
  | ErrStreamAlreadyConsumed => "runtime: stream events already consumed on this handle"
  | ErrRunAlreadyCompleted => "runtime: run already completed, stream unavailable"
  | ErrEventBusClosed => "eventbus: closed"
  | ErrAgentEventLogCleared => "pubsub: agent event log already cleared"
  | ErrAgentFingerprintMismatch =>
      "temporal: agent fingerprint mismatch (caller vs worker); redeploy worker or align config/registries or retry run"
  | ErrNotApprovalCustomEvent => "temporal: custom event is not a recognized approval kind"
  end.

Definition sentinel_error (s : sentinel) : error :=
  {| err_msg := sentinel_msg s; err_chain := [s]; err_budget := None |}.

Definition budget_error (b : BudgetExceededError) : error :=
  {| err_msg := BudgetExceededError_Error b; err_chain := []; err_budget := Some b |}.

(** [fmt.Errorf(prefix + "%w", err)] *)
Definition wrap_error (prefix : string) (e : error) : error :=
  {| err_msg := prefix +:+ err_msg e; err_chain := err_chain e; err_budget := err_budget e |}.

(** [fmt.Errorf("%w: %s", sentinel, msg)] and [fmt.Errorf("%w: %w", sentinel, err)] *)
Definition sentinel_with_msg (s : sentinel) (msg : string) : error :=
  {| err_msg := sentinel_msg s +:+ ": " +:+ msg; err_chain := [s]; err_budget := None |}.
Definition sentinel_wrapping (s : sentinel) (e : error) : error :=
  {| err_msg := sentinel_msg s +:+ ": " +:+ err_msg e; err_chain := s :: err_chain e;
     err_budget := err_budget e |}.

Definition errors_Is (e : error) (s : sentinel) : bool := bool_decide (s ∈ err_chain e).

(** The result of a Go function [(T, error)]. *)
Definition result (A : Type) : Type := sum error A.

(** ** Tools *)

Definition ToolKindNative : string := "native".
Definition ToolKindMCP : string := "mcp".
Definition ToolKindA2A : string := "a2a".
Definition ToolKindSubAgent : string := "sub_agent".
Definition ToolKindRetriever : string := "retriever".
Definition ToolKindMemory : string := "memory".

(** An [interfaces.Tool] seen through its pure methods.  [t_kind] is the answer of
    [ToolKindProvider] when implemented, [t_approval] the answer of [ToolApproval],
    [t_authorizer] whether [ToolAuthorizer] is implemented.  [Execute] and [Authorize]
    are effects. *)
Record Tool := {
  t_Name : string;
  t_DisplayName : string;
  t_Description : string;
  t_Parameters : value;
  t_kind : option string;
  t_approval : option bool;
  t_authorizer : bool }.

Definition KindOf (t : Tool) : string :=
  match t_kind t with
  | Some kind => if String.eqb kind "" then ToolKindNative else kind
  | None => ToolKindNative
  end.

Definition CountsTowardToolTelemetry (k : string) : bool :=
  negb (String.eqb k ToolKindSubAgent || String.eqb k ToolKindA2A || String.eqb k ToolKindRetriever).

Definition HooksEligible (k : string) : bool :=
  String.eqb k ToolKindNative || String.eqb k ToolKindMCP.

Record ToolSpec := { ts_Name : string; ts_Description : string; ts_Parameters : value }.

Definition ToolToSpec (t : Tool) : ToolSpec :=
  {| ts_Name := t_Name t; ts_Description := t_Description t; ts_Parameters := t_Parameters t |}.

Definition ToolsToSpecs (tools : list Tool) : list ToolSpec := map ToolToSpec tools.

(** ** LLM requests and responses *)

Record LLMUsage := {
  u_PromptTokens : Z;
  u_CompletionTokens : Z;
  u_TotalTokens : Z;
  u_CachedPromptTokens : Z;
  u_ReasoningTokens : Z }.

Record LLMReasoning := { r_Enabled : bool; r_Effort : string; r_BudgetTokens : Z }.

Record LLMSampling := {
  s_Temperature : option f64;
  s_MaxTokens : Z;
  s_TopP : option f64;
  s_TopK : option Z;
  s_Reasoning : option LLMReasoning }.

Definition MessageRoleSystem : string := "system".
Definition MessageRoleUser : string := "user".
Definition MessageRoleAssistant : string := "assistant".
Definition MessageRoleTool : string := "tool".
Definition MessageRoleReasoning : string := "reasoning".

Record ToolCall := { c_ToolCallID : string; c_ToolName : string; c_Args : Args }.

Record Message := {
  m_Role : string;
  m_Content : string;
  m_ToolName : string;
  m_ToolCallID : string;
  m_ToolCalls : list (option ToolCall);
  m_Metadata : Args;
  m_CreatedAt : Time }.

(** A message with only a role and content; a tool-role message. *)
Definition text_message (role content : string) : Message :=
  {| m_Role := role; m_Content := content; m_ToolName := ""; m_ToolCallID := "";
     m_ToolCalls := []; m_Metadata := ∅; m_CreatedAt := 0 |}.
Definition tool_message (content name id : string) : Message :=
  {| m_Role := MessageRoleTool; m_Content := content; m_ToolName := name; m_ToolCallID := id;
     m_ToolCalls := []; m_Metadata := ∅; m_CreatedAt := 0 |}.
(** [interfaces.Message{}] *)
Definition zero_message : Message := text_message "" "".

Definition with_content (m : Message) (c : string) : Message :=
  {| m_Role := m_Role m; m_Content := c; m_ToolName := m_ToolName m;
     m_ToolCallID := m_ToolCallID m; m_ToolCalls := m_ToolCalls m;
     m_Metadata := m_Metadata m; m_CreatedAt := m_CreatedAt m |}.

Record ResponseFormat := { rf_Type : string; rf_Name : string; rf_Schema : value }.

Record LLMRequest := {
  q_SystemMessage : string;
  q_ResponseFormat : option ResponseFormat;
  q_Tools : list ToolSpec;
  q_Messages : list Message;
  q_Temperature : option f64;
  q_MaxTokens : Z;
  q_TopP : option f64;
  q_TopK : option Z;
  q_Reasoning : option LLMReasoning }.

Record LLMResponse := {
  p_Content : string;
  p_Metadata : Args;
  p_Usage : option LLMUsage;
  p_ToolCalls : list (option ToolCall) }.

Record LLMStreamChunk := { k_ContentDelta : string; k_ThinkingDelta : string }.

(** An [interfaces.LLMClient] seen through its pure methods; calls are effects. *)
Record LLMClient := { l_Model : string; l_Provider : string; l_IsStreamSupported : bool }.

(** ** Results of the base runtime *)

Record ToolCallRequest := {
  tc_ToolCallID : string;
  tc_ToolName : string;
  tc_ToolDisplayName : string;
  tc_ToolKind : string;
  tc_Args : Args;
  tc_NeedsApproval : bool;
  tc_Unknown : bool }.

Record LLMResult := {
  lr_Content : string;
  lr_ToolCalls : list ToolCallRequest;
  lr_Usage : option LLMUsage }.

Record AuthorizeResult := { ar_Allowed : bool; ar_Reason : string }.

Record Document := { d_Content : string; d_Source : string; d_Score : f64 }.

Record RetrieverResult := { rr_Context : string; rr_TotalSearches : Z; rr_FailedSearches : Z }.
Record MemoryResult := { mr_Context : string; mr_TotalRecalls : Z; mr_FailedRecalls : Z }.

(** A Go [any] returned by [Tool.Execute], seen through the observations the program makes
    of it: the assertion to [[]Document] and its [%v] and [%T] renderings. *)
Record any := { any_docs : option (list Document); any_fmt : string; any_type : string }.

(** ** Memory *)

Record MemoryScope := {
  sc_UserID : string; sc_TenantID : string; sc_AgentID : string; sc_Tags : gmap string string }.

Definition zero_scope : MemoryScope :=
  {| sc_UserID := ""; sc_TenantID := ""; sc_AgentID := ""; sc_Tags := ∅ |}.

Record MemoryRecord := {
  rec_Text : string; rec_Kind : string; rec_Metadata : gmap string string; rec_ExpiresAt : Time }.

Record MemoryEntry := {
  e_ID : string; e_Text : string; e_Kind : string; e_Scope : MemoryScope;
  e_Metadata : gmap string string; e_ExpiresAt : Time; e_Score : f64;
  e_CreatedAt : Time; e_UpdatedAt : Time }.

Record LoadMemoryOptions := { lo_Limit : Z; lo_MinScore : f64; lo_Kinds : list string }.

Definition SaveMemoryToolName : string := "save_memory".
Definition MemoryToolParamText : string := "text".
Definition MemoryToolParamKind : string := "kind".

(** ** Retriever tool names *)

Definition RetrieverModeAgentic : string := "agentic".
Definition RetrieverModePrefetch : string := "prefetch".
Definition RetrieverModeHybrid : string := "hybrid".

Definition RetrieverToolNamePrefix : string := "retriever_".
Definition RetrieverToolParamQuery : string := "query".

Definition RetrieverToolName (retrieverName : string) : string :=
  let name := TrimSpace retrieverName in
  if String.eqb name "" then "" else RetrieverToolNamePrefix +:+ name.

Definition RetrieverNameFromToolName (toolName : string) : option string :=
  let toolName := TrimSpace toolName in
  match (if String.eqb toolName "" then None else CutPrefix toolName RetrieverToolNamePrefix) with
  | None => None
  | Some rest => let name := TrimSpace rest in if String.eqb name "" then None else Some name
  end.

Definition RetrieverToolDisplayName (retrieverKey : string) : string :=
  let key := TrimSpace retrieverKey in
  if String.eqb key "" then "" else key +:+ " Retriever Tool".

Definition RetrieverToolParamQueryValue (args : Args) : result string :=
  match as_string (args !! RetrieverToolParamQuery) with
  | None => inl (errors_New ("retriever tool: " +:+ Quote RetrieverToolParamQuery +:+ " parameter required"))
  | Some query =>
      let query := TrimSpace query in
      if String.eqb query "" then
        inl (errors_New ("retriever tool: " +:+ Quote RetrieverToolParamQuery +:+ " must be non-empty"))
      else inr query
  end.

(** ** Approvals *)

Definition MaxApprovalTimeout : Duration := 31 * 24 * hour.

Definition ApprovalStatusNone : string := "NONE".
Definition ApprovalStatusPending : string := "PENDING".
Definition ApprovalStatusApproved : string := "APPROVED".
Definition ApprovalStatusRejected : string := "REJECTED".
Definition ApprovalStatusUnavailable : string := "UNAVAILABLE".
Definition ApprovalStatusTimedOut : string := "TIMED_OUT".

Definition ApprovalRequestNameTool : string := "tool_approval".
Definition ApprovalRequestNameSubAgent : string := "sub_agent_delegation".
Definition ApprovalRequestNameBudget : string := "budget_approval".

(** [ApprovalRequest.Name] with its [Value] payload (the [Respond] callback is the answer of
    the approval wait). *)
Inductive ApprovalRequest :=
| ToolApproval (AgentName ToolCallID ToolName ToolDisplayName : string) (args : Args) (token : string)
| SubAgentApproval (AgentName SubAgentName : string) (args : Args) (token : string)
| BudgetApproval (AgentName Detail : string) (TotalTokens : Z) (CostUSD : f64) (token : string).

Definition ApprovalRequest_Name (r : ApprovalRequest) : string :=
  match r with
  | ToolApproval _ _ _ _ _ _ => ApprovalRequestNameTool
  | SubAgentApproval _ _ _ _ => ApprovalRequestNameSubAgent
  | BudgetApproval _ _ _ _ _ => ApprovalRequestNameBudget
  end.

(** ** Error control *)

Inductive ErrorControlAction :=
| ErrorControlAbort
| ErrorControlFallbackModel
| ErrorControlContinueWithFinalCall
| ErrorControlExtendIterations
| ErrorControlOther (n : Z).  (* any other value of the int type *)

Record ErrorControlDecision := { dec_Action : ErrorControlAction; dec_ExtraIterations : Z }.

Record LLMFailureInfo := { fi_Attempt : Z; fi_Err : error }.
Record MaxIterationsInfo := { mi_IterationCount : Z; mi_MaxIterations : Z; mi_LastAction : string }.

Record CircuitBreakerConfig := {
  cb_MaxConsecutiveSameArgs : Z; cb_PatternWindowSize : Z; cb_ResetAfter : Duration }.

(** [ErrorControlConfig]; the two hook fields say whether the callback is set (a call is an
    effect). *)
Record ErrorControlConfig := {
  ec_OnLLMFailure : bool;
  ec_OnMaxIterationsExceeded : bool;
  ec_FallbackLLMClient : string;
  ec_CircuitBreaker : option CircuitBreakerConfig }.
