(* ===== verification/Codec.v ===== *)
(** [encoding/json] marshalling of JSON values, [crypto/sha256] and hexadecimal rendering:
    the standard-library codecs behind [HashToolArgs] and [IdempotencyKey]. *)
From S2P Require Import Prelude GoLib Types.
From Stdlib Require Import SpecFloat.

#[local] Open Scope string_scope.
#[local] Open Scope list_scope.
#[local] Open Scope Z_scope.

(** ** JSON *)
Module Json.

Definition in_range (lo hi : N) (c : ascii) : bool :=
  let n := N_of_ascii c in ((lo <=? n) && (n <=? hi))%N.

(** Length of the valid UTF-8 rune at the head, 0 when the head is not valid UTF-8. *)
Definition rune_len (l : bytes) : nat :=
  match l with
  | a :: l =>
      let cont := in_range 128 191 in
      if in_range 0 127 a then 1%nat else
      match l with
      | b :: l =>
          if in_range 194 223 a && cont b then 2%nat else
          match l with
          | c :: l =>
              if ((in_range 224 224 a && in_range 160 191 b) || (in_range 237 237 a && in_range 128 159 b) ||
                  ((in_range 225 236 a || in_range 238 239 a) && cont b)) && cont c then 3%nat else
              match l with
              | d :: _ =>
                  if ((in_range 240 240 a && in_range 144 191 b) || (in_range 244 244 a && in_range 128 143 b) ||
                      (in_range 241 243 a && cont b)) && cont c && cont d then 4%nat else 0%nat
              | [] => 0%nat
              end
          | [] => 0%nat
          end
      | [] => 0%nat
      end
  | [] => 0%nat
  end.

Definition u00 (n : N) : bytes := to_bytes "\u00" ++ [hex_digit (n / 16); hex_digit (n mod 16)].

(** One ASCII byte inside a JSON string (with [encoding/json]'s HTML escaping). *)
Definition escape_ascii (c : ascii) : bytes :=
  let n := N_of_ascii c in
  if (n =? 34)%N then ascs [92; 34]%N
  else if (n =? 92)%N then ascs [92; 92]%N
  else if (n =? 8)%N then to_bytes "\b"
  else if (n =? 12)%N then to_bytes "\f"
  else if (n =? 10)%N then to_bytes "\n"
  else if (n =? 13)%N then to_bytes "\r"
  else if (n =? 9)%N then to_bytes "\t"
  else if ((n <? 32) || (n =? 60) || (n =? 62) || (n =? 38))%N then u00 n
  else [c].

Fixpoint escape (fuel : nat) (l : bytes) : bytes :=
  match fuel, l with
  | O, _ | _, [] => []
  | S fuel, c :: rest =>
      match rune_len l with
      | O => to_bytes "\ufffd" ++ escape fuel rest
      | S O => escape_ascii c ++ escape fuel rest
      | n =>
          let r := take n l in
          (if decide (r = ascs [226; 128; 168]%N) then to_bytes "\u2028"
           else if decide (r = ascs [226; 128; 169]%N) then to_bytes "\u2029" else r)
          ++ escape fuel (drop n l)
      end
  end.

Definition json_string (s : string) : string :=
  let b := to_bytes s in
  of_bytes (ascs [34]%N ++ escape (length b) b ++ ascs [34]%N).

(** *** Shortest decimal that reads back as the same float64 *)

Definition f64_of_ratio (n d : Z) : f64 :=
  match n, d with
  | Zpos n, Zpos d => SFdiv 53 1024 (S754_finite false n 0) (S754_finite false d 0)
  | _, _ => S754_zero false
  end.

(** [x * 10^k] as a ratio. *)
Definition scale10 (n d k : Z) : Z * Z :=
  if 0 <=? k then (n * 10 ^ k, d) else (n, d * 10 ^ (- k)).

(** Least [k >= k0] such that [n/d < 10^k]. *)
Fixpoint decimal_point (fuel : nat) (n d k : Z) : Z :=
  match fuel with
  | O => k
  | S fuel => let '(n', d') := scale10 n d (- k) in
              if n' <? d' then k else decimal_point fuel n d (k + 1)
  end.

Fixpoint shortest (fuel : nat) (x : f64) (n d k nd : Z) : Z * Z :=
  let '(a, b) := scale10 n d (nd - k) in
  let digits := round_half_even a b in
  match fuel with
  | O => (digits, k - nd)
  | S fuel =>
      let '(a', b') := scale10 digits 1 (k - nd) in
      if f64_eqb (f64_of_ratio a' b') x then (digits, k - nd)
      else shortest fuel x n d k (nd + 1)
  end.

Fixpoint strip_zeros (fuel : nat) (digits e : Z) : Z * Z :=
  match fuel with
  | O => (digits, e)
  | S fuel => if digits mod 10 =? 0 then strip_zeros fuel (digits / 10) (e + 1) else (digits, e)
  end.

Definition zeros (n : Z) : string := of_bytes (replicate (Z.to_nat n) "0"%char).

(** Rendering of a positive finite float. *)
Definition json_pos (x : f64) (m : positive) (e : Z) : string :=
  let n := if 0 <=? e then Zpos m * 2 ^ e else Zpos m in
  let d := if 0 <=? e then 1 else 2 ^ (- e) in
  let k := decimal_point 10 n d ((Z.log2 n - Z.log2 d) * 30103 / 100000 - 2) in
  let '(digits, ex) := shortest 16 x n d k 1 in
  let '(digits, ex) := strip_zeros 20 digits ex in
  let ds := Itoa digits in
  let len := Z.of_nat (String.length ds) in
  let point := len + ex in
  if (point <? -5) || (22 <=? point) then
    let e10 := point - 1 in
    let frac := String.substring 1 (String.length ds - 1) ds in
    String.substring 0 1 ds +:+ (if String.eqb frac "" then "" else "." +:+ frac) +:+
    (if e10 <? 0 then "e-" else "e+") +:+ Itoa (Z.abs e10)
  else if point <=? 0 then "0." +:+ zeros (- point) +:+ ds
  else if len <=? point then ds +:+ zeros (point - len)
  else String.substring 0 (Z.to_nat point) ds +:+ "." +:+
       String.substring (Z.to_nat point) (String.length ds - Z.to_nat point) ds.

Definition json_num (x : f64) : option string :=
  match x with
  | S754_zero s => Some (if s then "-0" else "0")
  | S754_finite s m e =>
      Some ((if s then "-" else "") +:+ json_pos (S754_finite false m e) m e)
  | _ => None
  end.

(** *** Values; object keys are emitted in byte order *)

Fixpoint insert_key {A} (kv : string * A) (l : list (string * A)) : list (string * A) :=
  match l with
  | [] => [kv]
  | kv' :: l' => if String.leb kv.1 kv'.1 then kv :: l else kv' :: insert_key kv l'
  end.

Definition sort_keys {A} (l : list (string * A)) : list (string * A) := foldr insert_key [] l.

Definition all_some {A} (l : list (option A)) : option (list A) := mapM id l.

Definition json_object (fields : list (string * option string)) : option string :=
  fs ← mapM (fun kv => s ← kv.2; Some (json_string kv.1 +:+ ":" +:+ s)) (sort_keys fields);
  Some ("{" +:+ Join "," fs +:+ "}").

Fixpoint marshal (v : value) : option string :=
  match v with
  | VNull => Some "null"
  | VBool b => Some (if b then "true" else "false")
  | VNum x => json_num x
  | VStr s => Some (json_string s)
  | VArr l => vs ← all_some (map marshal l); Some ("[" +:+ Join "," vs +:+ "]")
  | VObj l => json_object (map (fun kv => (kv.1, marshal kv.2)) l)
  end.

(** [json.Marshal] of a [map[string]any]. *)
Definition marshal_args (a : Args) : option string :=
  json_object (map (fun kv => (kv.1, marshal kv.2)) (map_to_list a)).

Example marshal_ex :
  marshal_args {[ "b" := VNum (f64_lit 5 2); "a" := VArr [VStr "x<"; VNum (f64_of_Z 12)] ]}
  = Some (of_bytes (to_bytes "{" ++ ascs [34]%N ++ to_bytes "a" ++ ascs [34]%N ++ to_bytes ":[" ++
      ascs [34]%N ++ to_bytes "x\u003c" ++ ascs [34]%N ++ to_bytes ",12]," ++ ascs [34]%N ++
      to_bytes "b" ++ ascs [34]%N ++ to_bytes ":2.5}")).
Proof. vm_compute. reflexivity. Qed.

Example json_num_ex :
  map json_num [f64_lit 1 10; f64_lit 1 3; f64_of_Z (10 ^ 21); f64_lit 1 10000000; f64_of_Z (-120)]
  = [Some "0.1"; Some "0.3333333333333333"; Some "1e+21"; Some "1e-7"; Some "-120"].
Proof. vm_compute. reflexivity. Qed.
End Json.

(** ** SHA-256 *)
Module Sha256.

(** Reduction modulo 2^32. *)
Definition w32 (z : Z) : Z := Z.land z 4294967295.
Definition rotr (n x : Z) : Z := Z.lor (Z.shiftr x n) (w32 (Z.shiftl x (32 - n))).

Definition K : list Z :=
  [1116352408; 1899447441; 3049323471; 3921009573; 961987163; 1508970993; 2453635748; 2870763221;
   3624381080; 310598401; 607225278; 1426881987; 1925078388; 2162078206; 2614888103; 3248222580;
   3835390401; 4022224774; 264347078; 604807628; 770255983; 1249150122; 1555081692; 1996064986;
   2554220882; 2821834349; 2952996808; 3210313671; 3336571891; 3584528711; 113926993; 338241895;
   666307205; 773529912; 1294757372; 1396182291; 1695183700; 1986661051; 2177026350; 2456956037;
   2730485921; 2820302411; 3259730800; 3345764771; 3516065817; 3600352804; 4094571909; 275423344;
   430227734; 506948616; 659060556; 883997877; 958139571; 1322822218; 1537002063; 1747873779;
   1955562222; 2024104815; 2227730452; 2361852424; 2428436474; 2756734187; 3204031479; 3329325298].

Definition H0 : list Z :=
  [1779033703; 3144134277; 1013904242; 2773480762; 1359893119; 2600822924; 528734635; 1541459225].

Definition nthz (l : list Z) (i : nat) : Z := nth i l 0.

(** Message schedule, most recent word first. *)
Fixpoint schedule (n : nat) (w : list Z) : list Z :=
  match n with
  | O => w
  | S n =>
      let w15 := nthz w 14 in
      let w2 := nthz w 1 in
      let s0 := Z.lxor (Z.lxor (rotr 7 w15) (rotr 18 w15)) (Z.shiftr w15 3) in
      let s1 := Z.lxor (Z.lxor (rotr 17 w2) (rotr 19 w2)) (Z.shiftr w2 10) in
      schedule n (w32 (nthz w 15 + s0 + nthz w 6 + s1) :: w)
  end.

Definition round (s : list Z) (kw : Z * Z) : list Z :=
  match s with
  | [a; b; c; d; e; f; g; h] =>
      let s1 := Z.lxor (Z.lxor (rotr 6 e) (rotr 11 e)) (rotr 25 e) in
      let ch := Z.lxor (Z.land e f) (Z.land (Z.lxor e 4294967295) g) in
      let t1 := w32 (h + s1 + ch + kw.1 + kw.2) in
      let s0 := Z.lxor (Z.lxor (rotr 2 a) (rotr 13 a)) (rotr 22 a) in
      let maj := Z.lxor (Z.lxor (Z.land a b) (Z.land a c)) (Z.land b c) in
      [w32 (t1 + w32 (s0 + maj)); a; b; c; w32 (d + t1); e; f; g]
  | _ => s
  end.

Definition compress (h : list Z) (block : list Z) : list Z :=
  let w := rev (schedule 48 (rev block)) in
  zip_with (fun a b => w32 (a + b)) h (fold_left round (zip K w) h).

Fixpoint words (fuel : nat) (l : list Z) : list Z :=
  match fuel, l with
  | S fuel, a :: b :: c :: d :: l => (a * 16777216 + b * 65536 + c * 256 + d) :: words fuel l
  | _, _ => []
  end.

Fixpoint blocks (fuel : nat) (l : list Z) : list (list Z) :=
  match fuel, l with
  | S fuel, _ :: _ => take 16 l :: blocks fuel (drop 16 l)
  | _, _ => []
  end.

Definition be_bytes (n : nat) (z : Z) : list Z :=
  map (fun i => Z.shiftr z (8 * Z.of_nat i) mod 256) (rev (seq 0 n)).

Definition padded (l : list Z) : list Z :=
  let len := Z.of_nat (length l) in
  l ++ [128] ++ replicate (Z.to_nat ((55 - len) mod 64)) 0 ++ be_bytes 8 (8 * len).

Definition sum (s : string) : list Z :=
  let msg := padded (map (fun c => Z.of_N (N_of_ascii c)) (to_bytes s)) in
  let ws := words (length msg) msg in
  flat_map (be_bytes 4) (fold_left compress (blocks (length ws) ws) H0).

Definition hex_byte (z : Z) : bytes := [hex_digit (Z.to_N (z / 16)); hex_digit (Z.to_N (z mod 16))].

(** [hex.EncodeToString(sum[:])], also [fmt.Sprintf("%x", sum)]. *)
Definition hex (s : string) : string := of_bytes (flat_map hex_byte (sum s)).

Example sha_abc :
  hex "abc" = "ba7816bf8f01cfea414140de5dae2223b00361a396177a9cb410ff61f20015ad".
Proof. vm_compute. reflexivity. Qed.

(** *** The digest always has 32 bytes *)

Lemma length_round s kw : length s = 8%nat -> length (round s kw) = 8%nat.
Proof. do 9 (destruct s as [|? s]; try done). Qed.

Lemma length_compress h b : length h = 8%nat -> length (compress h b) = 8%nat.
Proof.
  intros Hh. unfold compress. rewrite length_zip_with.
  assert (forall l s, length s = 8%nat -> length (fold_left round l s) = 8%nat) as Hf.
  { induction l as [|x l IH]; simpl; [done|]. intros. by apply IH, length_round. }
  rewrite Hf by done. lia.
Qed.

Lemma length_sum s : length (sum s) = 32%nat.
Proof.
  unfold sum. generalize (blocks (length (words (length (padded (map (fun c => Z.of_N (N_of_ascii c)) (to_bytes s)))) (padded (map (fun c => Z.of_N (N_of_ascii c)) (to_bytes s))))) (words (length (padded (map (fun c => Z.of_N (N_of_ascii c)) (to_bytes s)))) (padded (map (fun c => Z.of_N (N_of_ascii c)) (to_bytes s))))).
  intros bs. assert (forall l h, length h = 8%nat -> length (fold_left compress l h) = 8%nat) as Hf.
  { induction l as [|x l IH]; simpl; [done|]. intros. by apply IH, length_compress. }
  specialize (Hf bs H0 eq_refl). revert Hf.
  generalize (fold_left compress bs H0). intros l Hl.
  do 9 (destruct l as [|? l]; try done).
Qed.

Lemma length_of_bytes l : String.length (of_bytes l) = length l.
Proof. induction l; simpl; congruence. Qed.

Lemma length_hex s : String.length (hex s) = 64%nat.
Proof.
  unfold hex. rewrite length_of_bytes. pose proof (length_sum s) as Hl. revert Hl.
  generalize (sum s). intros l.
  assert (length (flat_map hex_byte l) = 2 * length l)%nat as ->; [|lia].
  induction l as [|x l IH]; simpl in *; lia.
Qed.
End Sha256.

(** [base.HashToolArgs]: hash of the canonical JSON, or "" when the arguments do not marshal. *)
Definition HashToolArgs (args : Args) : string :=
  match Json.marshal_args args with
  | None => ""
  | Some b => Sha256.hex b
  end.

(** [ExecuteToolInput.IdempotencyKey] *)
Definition IdempotencyKey (runID : string) (iteration : Z) (toolCallID : string) : string :=
  String.substring 0 32 (Sha256.hex (runID +:+ ":" +:+ Itoa iteration +:+ ":" +:+ toolCallID)).

Lemma length_substring s n m :
  (n + m <= String.length s)%nat -> String.length (String.substring n m s) = m.
Proof.
  revert s m. induction n as [|n IHn]; intros s m.
  - revert m. induction s as [|c s IHs]; intros m; destruct m; simpl; intros; try lia.
    rewrite IHs; lia.
  - destruct s; simpl; intros; [lia|]. apply IHn. lia.
Qed.

(** The idempotency key always has the fixed length external APIs rely on. *)
Lemma IdempotencyKey_length runID iteration toolCallID :
  String.length (IdempotencyKey runID iteration toolCallID) = 32%nat.
Proof. apply length_substring. rewrite Sha256.length_hex. lia. Qed.

Lemma HashToolArgs_length args :
  HashToolArgs args = "" \/ String.length (HashToolArgs args) = 64%nat.
Proof. unfold HashToolArgs. destruct Json.marshal_args; [right|by left]. apply Sha256.length_hex. Qed.
