(* ===== verification/JsonText.v ===== *)
(** JSON text: what [encoding/json] accepts and what it prints.  A document is read into a tree
    whose number literals are kept, because a literal is converted when the type of its target
    is known. *)
From S2P Require Import Prelude GoLib Types Codec.

#[local] Open Scope string_scope.
#[local] Open Scope list_scope.
#[local] Open Scope Z_scope.

Inductive json :=
| JNull
| JBool (b : bool)
| JNum (lit : bytes)
| JStr (s : string)
| JArr (l : list json)
| JObj (l : list (string * json)).

(** ** Printing *)

Fixpoint sep_bytes (l : list bytes) : bytes :=
  match l with
  | [] => []
  | [x] => x
  | x :: l => x ++ ","%char :: sep_bytes l
  end.

Definition render_string (s : string) : bytes := to_bytes (Json.json_string s).

Fixpoint render (j : json) : bytes :=
  match j with
  | JNull => to_bytes "null"
  | JBool b => to_bytes (if b then "true" else "false")
  | JNum lit => lit
  | JStr s => render_string s
  | JArr l => "["%char :: sep_bytes (map render l) ++ ["]"%char]
  | JObj l => "{"%char :: sep_bytes (map (fun kv => render_string kv.1 ++ ":"%char :: render kv.2) l) ++ ["}"%char]
  end.

(** ** Reading *)

Definition is_json_space (c : ascii) : bool :=
  let n := N_of_ascii c in ((n =? 32) || (n =? 9) || (n =? 13) || (n =? 10))%N.

Fixpoint skip_ws (l : bytes) : bytes :=
  match l with c :: r => if is_json_space c then skip_ws r else l | [] => [] end.

Definition is_digit (c : ascii) : bool := Json.in_range 48 57 c.

Fixpoint span (p : ascii -> bool) (l : bytes) : bytes * bytes :=
  match l with
  | c :: r => if p c then let '(a, b) := span p r in (c :: a, b) else ([], l)
  | [] => ([], [])
  end.

(** At least one digit. *)
Definition digits1 (l : bytes) : option (bytes * bytes) :=
  let '(a, b) := span is_digit l in match a with [] => None | _ => Some (a, b) end.

Definition sign_p (l : bytes) : bytes * bytes :=
  match l with c :: r => if Ascii.eqb c "-" then ([c], r) else ([], l) | [] => ([], []) end.

(** No digit follows a leading zero. *)
Definition int_p (l : bytes) : option (bytes * bytes) :=
  match l with
  | c :: r => if Ascii.eqb c "0" then Some ([c], r) else digits1 l
  | [] => None
  end.

Definition frac_p (l : bytes) : option (bytes * bytes) :=
  match l with
  | c :: r => if Ascii.eqb c "." then '(a, b) ← digits1 r; Some (c :: a, b) else Some ([], l)
  | [] => Some ([], [])
  end.

Definition exp_sign_p (l : bytes) : bytes * bytes :=
  match l with c :: r => if Ascii.eqb c "-" || Ascii.eqb c "+" then ([c], r) else ([], l) | [] => ([], []) end.

Definition exp_p (l : bytes) : option (bytes * bytes) :=
  match l with
  | c :: r =>
      if Ascii.eqb c "e" || Ascii.eqb c "E" then
        let '(s, r) := exp_sign_p r in '(a, b) ← digits1 r; Some (c :: s ++ a, b)
      else Some ([], l)
  | [] => Some ([], [])
  end.

Definition num_p (l : bytes) : option (bytes * bytes) :=
  let '(s, l) := sign_p l in
  '(i, l) ← int_p l; '(f, l) ← frac_p l; '(e, l) ← exp_p l;
  Some (s ++ i ++ f ++ e, l).

(** *** Strings *)

Definition unhex (c : ascii) : option N :=
  let n := N_of_ascii c in
  if ((48 <=? n) && (n <=? 57))%N then Some (n - 48)%N
  else if ((97 <=? n) && (n <=? 102))%N then Some (n - 87)%N
  else if ((65 <=? n) && (n <=? 70))%N then Some (n - 55)%N
  else None.

Definition hex4 (a b c d : ascii) : option N :=
  x ← unhex a; y ← unhex b; z ← unhex c; w ← unhex d; Some (x * 4096 + y * 256 + z * 16 + w)%N.

Definition utf8 (n : N) : bytes :=
  if (n <? 128)%N then ascs [n]
  else if (n <? 2048)%N then ascs [192 + n / 64; 128 + n mod 64]%N
  else if (n <? 65536)%N then ascs [224 + n / 4096; 128 + n / 64 mod 64; 128 + n mod 64]%N
  else ascs [240 + n / 262144; 128 + n / 4096 mod 64; 128 + n / 64 mod 64; 128 + n mod 64]%N.

Definition replacement : bytes := ascs [239; 191; 189]%N.

(** The escape after a backslash that is not [\u]. *)
Definition simple_escape (c : ascii) : option ascii :=
  let n := N_of_ascii c in
  if ((n =? 34) || (n =? 92) || (n =? 47))%N then Some c
  else if (n =? 98)%N then Some (ascii_of_N 8)
  else if (n =? 102)%N then Some (ascii_of_N 12)
  else if (n =? 110)%N then Some (ascii_of_N 10)
  else if (n =? 114)%N then Some (ascii_of_N 13)
  else if (n =? 116)%N then Some (ascii_of_N 9)
  else None.

(** The value of [\uXXXX], after the backslash; a surrogate that is not the first of a pair is
    replaced. *)
Definition low_surrogate (l : bytes) : option (N * bytes) :=
  match l with
  | s :: u :: a :: b :: c :: d :: r =>
      if Ascii.eqb s "\" && Ascii.eqb u "u" then
        n ← hex4 a b c d; if ((56320 <=? n) && (n <=? 57343))%N then Some (n, r) else None
      else None
  | _ => None
  end.

Definition unicode_escape (l : bytes) : option (bytes * bytes) :=
  match l with
  | a :: b :: c :: d :: r =>
      n ← hex4 a b c d;
      if ((55296 <=? n) && (n <=? 57343))%N then
        match (if (n <=? 56319)%N then low_surrogate r else None) with
        | Some (m, r) => Some (utf8 (65536 + (n - 55296) * 1024 + (m - 56320))%N, r)
        | None => Some (replacement, r)
        end
      else Some (utf8 n, r)
  | _ => None
  end.

Definition escape_p (l : bytes) : option (bytes * bytes) :=
  match l with
  | c :: r => if Ascii.eqb c "u" then unicode_escape r else c ← simple_escape c; Some ([c], r)
  | [] => None
  end.

(** One character of a string: [None] is an error, [Some None] the closing quote. *)
Definition char_p (l : bytes) : option (option bytes * bytes) :=
  match l with
  | [] => None
  | c :: r =>
      let n := N_of_ascii c in
      if (n =? 34)%N then Some (None, r)
      else if (n =? 92)%N then '(x, r) ← escape_p r; Some (Some x, r)
      else if (n <? 32)%N then None
      else match Json.rune_len l with
           | O => Some (Some replacement, r)
           | k => Some (Some (take k l), drop k l)
           end
  end.

(** The rest of a string after its opening quote. *)
Fixpoint str_p (fuel : nat) (l : bytes) : option (bytes * bytes) :=
  match fuel with
  | O => None
  | S fuel =>
      '(c, r) ← char_p l;
      match c with
      | None => Some ([], r)
      | Some x => '(s, r) ← str_p fuel r; Some (x ++ s, r)
      end
  end.

Definition string_p (l : bytes) : option (string * bytes) :=
  match l with
  | c :: r => if Ascii.eqb c "034" then '(s, r) ← str_p (length r) r; Some (of_bytes s, r) else None
  | [] => None
  end.

(** *** Values *)

Definition expect (x : ascii) (l : bytes) : option bytes :=
  match skip_ws l with c :: r => if Ascii.eqb c x then Some r else None | [] => None end.

Definition literal_p (l : bytes) : option (json * bytes) :=
  match strip_prefix (to_bytes "null") l with
  | Some r => Some (JNull, r)
  | None =>
      match strip_prefix (to_bytes "true") l with
      | Some r => Some (JBool true, r)
      | None =>
          match strip_prefix (to_bytes "false") l with
          | Some r => Some (JBool false, r)
          | None => '(lit, r) ← num_p l; Some (JNum lit, r)
          end
      end
  end.

Section composite.
Context (value_p : bytes -> option (json * bytes)).

(** The rest of an array after an element, and of an object after a member. *)
Fixpoint elements_p (fuel : nat) (l : bytes) : option (list json * bytes) :=
  match fuel with
  | O => None
  | S fuel =>
      '(v, r) ← value_p l;
      match skip_ws r with
      | c :: r =>
          if Ascii.eqb c "]" then Some ([v], r)
          else if Ascii.eqb c "," then '(vs, r) ← elements_p fuel r; Some (v :: vs, r)
          else None
      | [] => None
      end
  end.

Definition member_p (l : bytes) : option (string * json * bytes) :=
  '(k, r) ← string_p (skip_ws l); r ← expect ":" r; '(v, r) ← value_p r; Some (k, v, r).

Fixpoint members_p (fuel : nat) (l : bytes) : option (list (string * json) * bytes) :=
  match fuel with
  | O => None
  | S fuel =>
      '(kv, r) ← member_p l;
      match skip_ws r with
      | c :: r =>
          if Ascii.eqb c "}" then Some ([kv], r)
          else if Ascii.eqb c "," then '(kvs, r) ← members_p fuel r; Some (kv :: kvs, r)
          else None
      | [] => None
      end
  end.

Definition array_p (l : bytes) : option (json * bytes) :=
  match expect "]" l with
  | Some r => Some (JArr [], r)
  | None => '(vs, r) ← elements_p (length l) l; Some (JArr vs, r)
  end.

Definition object_p (l : bytes) : option (json * bytes) :=
  match expect "}" l with
  | Some r => Some (JObj [], r)
  | None => '(kvs, r) ← members_p (length l) l; Some (JObj kvs, r)
  end.
End composite.

(** [depth]: how many more arrays and objects may be open. *)
Fixpoint value_p (depth : nat) (l : bytes) : option (json * bytes) :=
  match skip_ws l with
  | [] => None
  | c :: r =>
      if Ascii.eqb c "034" then '(s, r) ← string_p (c :: r); Some (JStr s, r)
      else if Ascii.eqb c "[" then match depth with O => None | S d => array_p (value_p d) r end
      else if Ascii.eqb c "{" then match depth with O => None | S d => object_p (value_p d) r end
      else literal_p (c :: r)
  end.

Definition maxNestingDepth : nat := Z.to_nat 10000.

Definition parse (s : string) : option json :=
  '(j, r) ← value_p maxNestingDepth (to_bytes s);
  match skip_ws r with [] => Some j | _ => None end.

Example parse_ex :
  parse (of_bytes (to_bytes " { " ++ render_string "a<b" ++ to_bytes ":[1, -2.5e3,null ] }"))
  = Some (JObj [("a<b", JArr [JNum (to_bytes "1"); JNum (to_bytes "-2.5e3"); JNull])]) /\
  parse "[1,]" = None /\ parse "01" = None /\ parse "{}x" = None.
Proof. vm_compute. auto. Qed.

(** ** Documents that are printed and read back *)

Fixpoint valid_utf8 (fuel : nat) (l : bytes) : bool :=
  match fuel, l with
  | _, [] => true
  | O, _ => false
  | S fuel, _ => match Json.rune_len l with O => false | n => valid_utf8 fuel (drop n l) end
  end.

(** [utf8.ValidString] *)
Definition ValidString (s : string) : bool := valid_utf8 (String.length s) (to_bytes s).

Definition number_ok (lit : bytes) : bool := bool_decide (num_p lit = Some (lit, [])).

Fixpoint json_ok (depth : nat) (j : json) {struct j} : bool :=
  match j with
  | JNull | JBool _ => true
  | JNum lit => number_ok lit
  | JStr s => ValidString s
  | JArr l => match depth with O => false | S d => forallb (json_ok d) l end
  | JObj l => match depth with O => false | S d => forallb (fun kv => ValidString kv.1 && json_ok d kv.2) l end
  end.

(** ** Strings are read back *)

Lemma in_range_spec lo hi c : Json.in_range lo hi c = true <-> (lo <= N_of_ascii c <= hi)%N.
Proof. unfold Json.in_range. cbv zeta. by rewrite andb_true_iff, !N.leb_le. Qed.

(** The rune at the head of a text only depends on its own bytes. *)
Lemma rune_len_take l x : Json.rune_len l <> 0%nat ->
  Json.rune_len (take (Json.rune_len l) l ++ x) = Json.rune_len l /\ (Json.rune_len l <= length l)%nat.
Proof.
  unfold Json.rune_len. destruct l as [|a l]; [done|]. destruct (Json.in_range 0 127 a) eqn:Ea; [cbn; rewrite Ea; auto with lia|].
  destruct l as [|b l]; [done|]. cbv zeta. destruct (Json.in_range 194 223 a && _) eqn:Eb; [cbn; rewrite Ea, Eb; auto with lia|].
  destruct l as [|c l]; [done|].
  destruct (_ && Json.in_range 128 191 c) eqn:Ec; [cbn; rewrite Ea, Eb, Ec; auto with lia|].
  destruct l as [|d l]; [done|]. destruct (_ && Json.in_range 128 191 d) eqn:Ed; [cbn; rewrite Ea, Eb, Ec, Ed; auto with lia|done].
Qed.

Lemma rune_len_ascii c l : Json.rune_len (c :: l) = 1%nat -> (N_of_ascii c < 128)%N.
Proof.
  unfold Json.rune_len. destruct (Json.in_range 0 127 c) eqn:Ea; [|repeat case_match; done].
  intros _. apply in_range_spec in Ea. lia.
Qed.

Lemma rune_len_multi c l n : Json.rune_len (c :: l) = S (S n) -> (128 <= N_of_ascii c)%N.
Proof.
  unfold Json.rune_len. destruct (Json.in_range 0 127 c) eqn:Ea; [done|]. intros _.
  assert (~ (0 <= N_of_ascii c <= 127)%N) by (rewrite <- in_range_spec; congruence). lia.
Qed.

Lemma char_p_ascii c x : (N_of_ascii c < 128)%N -> char_p (Json.escape_ascii c ++ x) = Some (Some [c], x).
Proof.
  intros H. destruct c as [[] [] [] [] [] [] [] []]; try (exfalso; vm_compute in H; discriminate); reflexivity.
Qed.

Lemma char_p_multi l x n : Json.rune_len l = S (S n) ->
  char_p (take (S (S n)) l ++ x) = Some (Some (take (S (S n)) l), x).
Proof.
  intros H. destruct (rune_len_take l x) as [Hr Hl]; [by rewrite H|]. rewrite H in Hr, Hl.
  destruct l as [|c l]; [done|]. pose proof (rune_len_multi c l n H) as Hc.
  change (take (S (S n)) (c :: l)) with (c :: take (S n) l) in *. cbn [app] in *.
  unfold char_p. cbv zeta.
  rewrite (proj2 (N.eqb_neq _ 34)), (proj2 (N.eqb_neq _ 92)), (proj2 (N.ltb_ge _ 32)), Hr by lia.
  assert (Hlen : length (c :: take (S n) l) = S (S n)) by (cbn in *; rewrite length_take; lia).
  change (c :: take (S n) l ++ x) with ((c :: take (S n) l) ++ x).
  rewrite <- Hlen at 1 2. by rewrite take_app_length, drop_app_length.
Qed.

Lemma escape_step fuel c l : Json.rune_len (c :: l) <> 0%nat ->
  exists e, Json.escape (S fuel) (c :: l) = e ++ Json.escape fuel (drop (Json.rune_len (c :: l)) (c :: l)) /\
    forall x, char_p (e ++ x) = Some (Some (take (Json.rune_len (c :: l)) (c :: l)), x).
Proof.
  intros H. cbn [Json.escape]. destruct (Json.rune_len (c :: l)) as [|[|n]] eqn:E; [done|..].
  - eexists. split; [reflexivity|]. intros x. apply char_p_ascii. by eapply rune_len_ascii.
  - eexists. split; [reflexivity|]. intros x. case_decide as E1; [by rewrite E1|]. case_decide as E2; [by rewrite E2|].
    by apply char_p_multi.
Qed.

Lemma str_p_escape fuel : forall l k rest, valid_utf8 fuel l = true -> (length l <= fuel)%nat ->
  (length (Json.escape fuel l) < k)%nat -> str_p k (Json.escape fuel l ++ "034"%char :: rest) = Some (l, rest).
Proof.
  induction fuel as [|fuel IH]; intros l k rest Hv Hl Hk.
  - destruct l; [|cbn in Hl; lia]. destruct k; [cbn in Hk; lia|reflexivity].
  - destruct l as [|c l]; [destruct k; [cbn in Hk; lia|reflexivity]|].
    destruct k as [|k]; [lia|]. cbn [valid_utf8] in Hv.
    assert (Hn : Json.rune_len (c :: l) <> 0%nat) by (intros E; by rewrite E in Hv).
    destruct (rune_len_take (c :: l) [] Hn) as [_ Hlen].
    destruct (escape_step fuel c l Hn) as (e & He & Hc).
    rewrite He in Hk |- *. rewrite <- app_assoc. cbn [str_p]. rewrite Hc. cbn [mbind option_bind].
    assert (He' : e <> []) by (intros ->; by specialize (Hc [])).
    destruct e as [|e0 e]; [done|]. rewrite length_app in Hk. cbn [length] in Hk.
    rewrite IH; [cbn; by rewrite take_drop| | |lia].
    + destruct (Json.rune_len (c :: l)); [done|exact Hv].
    + rewrite length_drop. cbn in *. lia.
Qed.

Lemma string_p_render s rest : ValidString s = true -> string_p (render_string s ++ rest) = Some (s, rest).
Proof.
  intros H. unfold render_string, Json.json_string. rewrite to_of_bytes, <- !app_assoc. cbn [ascs map app string_p].
  change (ascii_of_N 34) with "034"%char. cbn -[Json.escape str_p to_bytes of_bytes].
  assert (Hl : length (to_bytes s) = String.length s) by (clear; induction s; cbn; lia).
  unfold ValidString in H. rewrite <- Hl in H.
  rewrite (str_p_escape (length (to_bytes s))); [|done|lia|rewrite length_app; cbn; lia].
  cbn. by rewrite of_to_bytes.
Qed.

(** ** Numbers are read back *)

(** What may follow a value inside a document. *)
Definition closes (l : bytes) : Prop :=
  match l with [] => True | c :: _ => c = ","%char \/ c = "]"%char \/ c = "}"%char end.

Lemma closes_head l c r : closes l -> l = c :: r ->
  is_digit c = false /\ Ascii.eqb c "-" = false /\ Ascii.eqb c "+" = false /\ Ascii.eqb c "." = false /\
  Ascii.eqb c "e" = false /\ Ascii.eqb c "E" = false /\ is_json_space c = false /\ Ascii.eqb c "0" = false.
Proof. intros H ->. by destruct H as [->|[->| ->]]. Qed.

Lemma span_app p l a b rest : (forall c r, rest = c :: r -> p c = false) ->
  span p l = (a, b) -> span p (l ++ rest) = (a, b ++ rest).
Proof.
  intros Hr. revert a. induction l as [|c l IH]; intros a; cbn.
  - intros [= <- <-]. cbn. destruct rest as [|c r]; [done|]. cbn. by rewrite (Hr c r eq_refl).
  - destruct (p c); [|by intros [= <- <-]]. destruct (span p l) as [a' b']. intros [= <- <-]. by rewrite (IH a' eq_refl).
Qed.

Section reads.
Context (rest : bytes) (Hrest : closes rest).

#[local] Ltac at_end := let c := fresh "c" in let r := fresh "r" in let E := fresh "E" in
  destruct rest as [|c r] eqn:E; [reflexivity|];
  destruct (closes_head _ c r Hrest eq_refl) as (? & ? & ? & ? & ? & ? & ? & ?).

Lemma digits1_app l a b : digits1 l = Some (a, b) -> digits1 (l ++ rest) = Some (a, b ++ rest).
Proof.
  unfold digits1. destruct (span is_digit l) as [x y] eqn:E.
  rewrite (span_app is_digit l x y rest); [|by intros c r ->; apply (closes_head (c :: r) c r)|done].
  destruct x; [done|]. by intros [= <- <-].
Qed.

Lemma sign_app l : l <> [] -> sign_p (l ++ rest) = ((sign_p l).1, (sign_p l).2 ++ rest).
Proof. destruct l as [|c l]; [done|]. intros _. cbn. by destruct (Ascii.eqb c "-"). Qed.

Lemma int_app l a b : int_p l = Some (a, b) -> int_p (l ++ rest) = Some (a, b ++ rest).
Proof.
  destruct l as [|c l]; [done|]. cbn [int_p app]. destruct (Ascii.eqb c "0"); [by intros [= <- <-]|].
  apply (digits1_app (c :: l)).
Qed.

Lemma frac_app l a b : frac_p l = Some (a, b) -> frac_p (l ++ rest) = Some (a, b ++ rest).
Proof.
  destruct l as [|c l]; cbn [frac_p app].
  - intros [= <- <-]. clear -Hrest. at_end. cbn. by rewrite H2.
  - destruct (Ascii.eqb c "."); [|by intros [= <- <-]]. destruct (digits1 l) as [[x y]|] eqn:E; [|done].
    rewrite (digits1_app _ _ _ E). cbn. by intros [= <- <-].
Qed.

Lemma exp_sign_app l : l <> [] -> exp_sign_p (l ++ rest) = ((exp_sign_p l).1, (exp_sign_p l).2 ++ rest).
Proof. destruct l as [|c l]; [done|]. intros _. cbn. by destruct (_ || _). Qed.

Lemma exp_app l a b : exp_p l = Some (a, b) -> exp_p (l ++ rest) = Some (a, b ++ rest).
Proof.
  destruct l as [|c l]; cbn [exp_p app].
  - intros [= <- <-]. clear -Hrest. at_end. cbn. by rewrite H3, H4.
  - destruct (_ || _); [|by intros [= <- <-]]. destruct l as [|d l]; [done|].
    rewrite exp_sign_app by done. destruct (exp_sign_p (d :: l)) as [s t]. cbn [fst snd].
    destruct (digits1 t) as [[x y]|] eqn:E; [|done]. rewrite (digits1_app _ _ _ E). cbn. by intros [= <- <-].
Qed.

Lemma num_app l a b : num_p l = Some (a, b) -> num_p (l ++ rest) = Some (a, b ++ rest).
Proof.
  unfold num_p. destruct l as [|c l]; [done|]. rewrite sign_app by done.
  destruct (sign_p (c :: l)) as [s t]. cbn [fst snd].
  destruct (int_p t) as [[i t1]|] eqn:Ei; [|done]. rewrite (int_app _ _ _ Ei). cbn [mbind option_bind].
  destruct (frac_p t1) as [[f t2]|] eqn:Ef; [|done]. rewrite (frac_app _ _ _ Ef). cbn [mbind option_bind].
  destruct (exp_p t2) as [[e t3]|] eqn:Ee; [|done]. rewrite (exp_app _ _ _ Ee). cbn. by intros [= <- <-].
Qed.
End reads.

Lemma num_head c l x : num_p (c :: l) = Some x -> c = "-"%char \/ is_digit c = true.
Proof.
  unfold num_p. cbn [sign_p]. destruct (Ascii.eqb_spec c "-") as [->|_]; [by left|]. cbn [int_p].
  destruct (Ascii.eqb_spec c "0") as [->|_]; [by right|]. unfold digits1. cbn [span].
  destruct (is_digit c); [by right|done].
Qed.

(** ** Documents are read back *)

Section json_ind'.
Context (P : json -> Prop) (Hnull : P JNull) (Hbool : forall b, P (JBool b)) (Hnum : forall l, P (JNum l))
  (Hstr : forall s, P (JStr s)) (Harr : forall l, Forall P l -> P (JArr l))
  (Hobj : forall l, Forall (fun kv => P kv.2) l -> P (JObj l)).

Fixpoint json_ind' (j : json) : P j :=
  match j with
  | JNull => Hnull
  | JBool b => Hbool b
  | JNum l => Hnum l
  | JStr s => Hstr s
  | JArr l => Harr l ((fix go l := match l return Forall P l with
      | [] => List.Forall_nil P
      | j :: l => List.Forall_cons P j l (json_ind' j) (go l) end) l)
  | JObj l => Hobj l ((fix go l := match l return Forall (fun kv => P kv.2) l with
      | [] => List.Forall_nil _
      | kv :: l => List.Forall_cons (fun kv => P kv.2) kv l (json_ind' kv.2) (go l) end) l)
  end.
End json_ind'.

Definition reads (d : nat) (j : json) : Prop := forall rest, closes rest -> value_p d (render j ++ rest) = Some (j, rest).

Lemma skip_closes rest : closes rest -> skip_ws rest = rest.
Proof. destruct rest as [|c r]; [done|]. intros H. cbn. destruct (closes_head _ c r H eq_refl) as (_ & _ & _ & _ & _ & _ & -> & _). done. Qed.

(** The first byte of a number starts no other value. *)
Lemma number_byte c : c = "-"%char \/ is_digit c = true ->
  is_json_space c = false /\ Ascii.eqb c "034" = false /\ Ascii.eqb c "[" = false /\ Ascii.eqb c "{" = false /\
  Ascii.eqb "n" c = false /\ Ascii.eqb "t" c = false /\ Ascii.eqb "f" c = false.
Proof. intros [->|H]; [done|]. by destruct c as [[] [] [] [] [] [] [] []]. Qed.

Lemma value_num d lit : number_ok lit = true -> reads d (JNum lit).
Proof.
  intros H rest Hr. apply bool_decide_eq_true in H. pose proof (num_app rest Hr _ _ _ H) as Hn. cbn [render].
  destruct lit as [|c l]; [done|]. destruct (number_byte c (num_head _ _ _ H)) as (H1 & H2 & H3 & H4 & H5 & H6 & H7).
  cbn [app] in *. assert (E : literal_p (c :: l ++ rest) = Some (JNum (c :: l), rest)).
  { unfold literal_p. cbn [to_bytes strip_prefix]. by rewrite H5, H6, H7, Hn. }
  destruct d; cbn [value_p skip_ws]; by rewrite H1, H2, H3, H4, E.
Qed.

Lemma value_str d s : ValidString s = true -> reads d (JStr s).
Proof.
  intros H rest _. cbn [render]. pose proof (string_p_render s rest H) as E.
  unfold render_string, Json.json_string in *. rewrite to_of_bytes in *. cbn [ascs map app] in *.
  destruct d; cbn [value_p skip_ws]; change (is_json_space (ascii_of_N 34)) with false; cbn [negb];
    change (Ascii.eqb (ascii_of_N 34) "034") with true; by rewrite E.
Qed.

Lemma expect_other x c l : is_json_space c = false -> Ascii.eqb c x = false -> expect x (c :: l) = None.
Proof. intros H1 H2. unfold expect. cbn. by rewrite H1, H2. Qed.

(** The first byte of a value closes nothing. *)
Lemma render_head d j : json_ok d j = true -> exists c l, render j = c :: l /\ is_json_space c = false /\
  Ascii.eqb c "]" = false /\ Ascii.eqb c "}" = false.
Proof.
  destruct j as [|[]|lit|s|l|l]; cbn [json_ok render]; intros H; try (eexists _, _; split; [reflexivity|done]).
  apply bool_decide_eq_true in H. destruct lit as [|c l]; [done|]. exists c, l. split; [done|].
  destruct (num_head _ _ _ H) as [->|Hd]; [done|]. by destruct c as [[] [] [] [] [] [] [] []].
Qed.

Lemma render_nonempty d j : json_ok d j = true -> (0 < length (render j))%nat.
Proof. intros H. destruct (render_head d j H) as (c & l & -> & _). cbn. lia. Qed.

Lemma sep_cons x y l : sep_bytes (x :: y :: l) = x ++ ","%char :: sep_bytes (y :: l).
Proof. reflexivity. Qed.

Lemma elements_read d l rest : l <> [] -> Forall (reads d) l -> forallb (json_ok d) l = true ->
  forall fuel, (length (sep_bytes (map render l)) < fuel)%nat ->
  elements_p (value_p d) fuel (sep_bytes (map render l) ++ "]"%char :: rest) = Some (l, rest).
Proof.
  intros Hne HF. induction HF as [|j l Hj HF IH]; [done|]. cbn [forallb]. intros [Hok Hoks]%andb_true_iff fuel Hlt.
  pose proof (render_nonempty d j Hok). destruct fuel as [|fuel]; [lia|]. cbn [elements_p]. destruct l as [|j' l].
  - cbn [sep_bytes map]. rewrite Hj by (cbn; auto). reflexivity.
  - cbn [map] in Hlt |- *. rewrite sep_cons in Hlt |- *. rewrite length_app in Hlt. cbn [length] in Hlt.
    rewrite <- app_assoc. cbn [app]. rewrite Hj by (cbn; auto). cbn [mbind option_bind skip_ws].
    change (is_json_space ",") with false. cbn iota.
    change (Ascii.eqb "," "]") with false. change (Ascii.eqb "," ",") with true. cbn iota.
    cbn [map] in IH. rewrite IH; [reflexivity|done|done|lia].
Qed.

Lemma member_read d k v rest : ValidString k = true -> reads d v -> closes rest ->
  member_p (value_p d) (render_string k ++ ":"%char :: render v ++ rest) = Some (k, v, rest).
Proof.
  intros Hk Hv Hr. unfold member_p. pose proof (string_p_render k (":"%char :: render v ++ rest) Hk) as E.
  assert (Hws : forall x, skip_ws (render_string k ++ x) = render_string k ++ x).
  { intros x. unfold render_string, Json.json_string. by rewrite to_of_bytes. }
  rewrite Hws, E. cbn [mbind option_bind]. unfold expect. cbn [skip_ws]. change (is_json_space ":") with false. cbn iota.
  change (Ascii.eqb ":" ":") with true. cbn [mbind option_bind]. by rewrite Hv.
Qed.

Lemma render_string_nonempty k : (0 < length (render_string k))%nat.
Proof. unfold render_string, Json.json_string. rewrite to_of_bytes. cbn. lia. Qed.

Definition render_member (kv : string * json) : bytes := render_string kv.1 ++ ":"%char :: render kv.2.

Lemma members_read d l rest : l <> [] -> Forall (fun kv => reads d kv.2) l ->
  forallb (fun kv => ValidString kv.1 && json_ok d kv.2) l = true ->
  forall fuel, (length (sep_bytes (map render_member l)) < fuel)%nat ->
  members_p (value_p d) fuel (sep_bytes (map render_member l) ++ "}"%char :: rest) = Some (l, rest).
Proof.
  intros Hne HF. induction HF as [|[k v] l Hj HF IH]; [done|]. cbn [forallb fst snd] in *.
  intros [[Hk Hok]%andb_true_iff Hoks]%andb_true_iff fuel Hlt.
  destruct fuel as [|fuel]; [lia|]. cbn [members_p]. destruct l as [|kv' l].
  - cbn [sep_bytes map]. unfold render_member. cbn [fst snd]. rewrite <- app_assoc. cbn [app].
    rewrite (member_read d k v); [reflexivity|done|done|cbn; auto].
  - cbn [map] in Hlt |- *. rewrite sep_cons in Hlt |- *. rewrite length_app in Hlt. cbn [length] in Hlt.
    unfold render_member at 1. cbn [fst snd]. rewrite <- !app_assoc. cbn [app].
    rewrite (member_read d k v); [|done|done|cbn; auto]. cbn [mbind option_bind skip_ws].
    change (is_json_space ",") with false. cbn iota.
    change (Ascii.eqb "," "}") with false. change (Ascii.eqb "," ",") with true. cbn iota.
    cbn [map] in IH. rewrite IH; [reflexivity|done|done|lia].
Qed.

Lemma array_read d l rest : Forall (reads d) l -> forallb (json_ok d) l = true ->
  array_p (value_p d) (sep_bytes (map render l) ++ "]"%char :: rest) = Some (JArr l, rest).
Proof.
  intros HF Hok. unfold array_p. destruct l as [|j l]; [reflexivity|].
  assert (E : expect "]" (sep_bytes (map render (j :: l)) ++ "]"%char :: rest) = None).
  { cbn [forallb] in Hok. apply andb_true_iff in Hok as [Hj _]. destruct (render_head d j Hj) as (c & x & Hc & H1 & H2 & _).
    cbn [map]. destruct l; cbn [map]; [|rewrite sep_cons]; cbn [sep_bytes]; rewrite Hc; cbn [app]; by apply expect_other. }
  rewrite E, elements_read; [reflexivity|done|done|done|]. rewrite length_app. cbn. lia.
Qed.

Lemma object_read d l rest : Forall (fun kv => reads d kv.2) l ->
  forallb (fun kv => ValidString kv.1 && json_ok d kv.2) l = true ->
  object_p (value_p d) (sep_bytes (map render_member l) ++ "}"%char :: rest) = Some (JObj l, rest).
Proof.
  intros HF Hok. unfold object_p. destruct l as [|kv l]; [reflexivity|].
  assert (E : expect "}" (sep_bytes (map render_member (kv :: l)) ++ "}"%char :: rest) = None).
  { assert (Hc : exists x, render_member kv = "034"%char :: x).
    { unfold render_member, render_string, Json.json_string. rewrite to_of_bytes. eexists. reflexivity. }
    destruct Hc as [x Hc]. cbn [map]. destruct l; cbn [map]; [|rewrite sep_cons]; cbn [sep_bytes]; rewrite Hc; reflexivity. }
  rewrite E, members_read; [reflexivity|done|done|done|]. rewrite length_app. cbn. lia.
Qed.

Lemma value_read j : forall d, json_ok d j = true -> reads d j.
Proof.
  induction j as [|b|lit|s|l IH|l IH] using json_ind'; intros d H.
  - intros rest _. by destruct d.
  - intros rest _. by destruct d, b.
  - by apply value_num.
  - by apply value_str.
  - destruct d as [|d]; [done|]. intros rest _. cbn [render app]. rewrite <- app_assoc. cbn [app value_p skip_ws].
    change (is_json_space "[") with false. cbn iota. change (Ascii.eqb "[" "034") with false. cbn iota.
    change (Ascii.eqb "[" "[") with true. cbn iota. apply array_read; [|done].
    cbn [json_ok] in H. rewrite forallb_forall in H. rewrite List.Forall_forall in IH |- *. auto.
  - destruct d as [|d]; [done|]. intros rest _. cbn [render app]. rewrite <- app_assoc. cbn [app value_p skip_ws].
    change (is_json_space "{") with false. cbn iota. change (Ascii.eqb "{" "034") with false. cbn iota.
    change (Ascii.eqb "{" "[") with false. change (Ascii.eqb "{" "{") with true. cbn iota.
    apply object_read; [|done].
    cbn [json_ok] in H. rewrite forallb_forall in H. rewrite List.Forall_forall in IH |- *. intros kv Hin.
    specialize (H kv Hin). apply andb_true_iff in H as [_ H]. auto.
Qed.

(** What is printed is read back, whatever its nesting up to the limit of the decoder. *)
Lemma parse_render j : json_ok maxNestingDepth j = true -> parse (of_bytes (render j)) = Some j.
Proof.
  intros H. unfold parse. rewrite to_of_bytes. pose proof (value_read j _ H [] I) as E. rewrite app_nil_r in E.
  rewrite E. reflexivity.
Qed.
