(* ===== verification/JsonCodec.v ===== *)
(** [json.Marshal] and [json.Unmarshal] on the types the events are made of: one encoder and
    decoder per type, with the law that what is encoded is decoded, and the rules for structs. *)
From S2P Require Import Prelude GoLib Types Codec JsonText.
From Stdlib Require Import SpecFloat.

#[local] Open Scope string_scope.
#[local] Open Scope list_scope.
#[local] Open Scope Z_scope.

(** ** Numbers *)

Definition dec_value (l : bytes) : Z := fold_left (fun acc c => acc * 10 + (Z.of_N (N_of_ascii c) - 48)) l 0.

(** A literal without fraction and exponent, in range. *)
Definition read_int (lit : bytes) : option Z :=
  let '(s, l) := sign_p lit in
  '(i, l) ← int_p l;
  match l with
  | [] => let z := match s with [] => dec_value i | _ => - dec_value i end in
          if (min_int64 <=? z) && (z <=? max_int64) then Some z else None
  | _ => None
  end.

Definition exponent (e : bytes) : Z :=
  match e with
  | [] => 0
  | _ :: e => match exp_sign_p e with
              | (["-"%char], d) => - dec_value d
              | (_, d) => dec_value d
              end
  end.

(** [strconv.ParseFloat]: the nearest float; out of range is an error. *)
Definition read_float (lit : bytes) : option f64 :=
  let '(s, l) := sign_p lit in
  '(i, l) ← int_p l; '(f, l) ← frac_p l; '(e, _) ← exp_p l;
  let frac := match f with [] => [] | _ :: d => d end in
  let '(n, d) := Json.scale10 (dec_value (i ++ frac)) 1 (exponent e - Z.of_nat (length frac)) in
  match Json.f64_of_ratio n d with
  | S754_infinity _ | S754_nan => None
  | x => Some (match s with [] => x | _ => SFopp x end)
  end.

Example read_float_ex :
  map (fun s => read_float (to_bytes s)) ["2.5"; "-0"; "1e-7"; "1e400"; "0.1"; "12"]
  = [Some (f64_lit 5 2); Some (S754_zero true); Some (f64_lit 1 10000000); None; Some (f64_lit 1 10); Some (f64_of_Z 12)].
Proof. vm_compute. reflexivity. Qed.

(** The float prints as a number that reads as the float again. *)
Definition float_reads (x : f64) : bool :=
  match Json.json_num x with
  | Some s => number_ok (to_bytes s) && bool_decide (read_float (to_bytes s) = Some x)
  | None => false
  end.

Example floats_read : forallb float_reads [f64_zero; f64_lit 1 10; f64_of_Z (-120); f64_lit 1 3; f64_of_Z (10 ^ 21)] = true.
Proof. vm_compute. reflexivity. Qed.

(** *** Integers *)

Lemma dec_value_app a b : dec_value (a ++ b) = fold_left (fun acc c => acc * 10 + (Z.of_N (N_of_ascii c) - 48)) b (dec_value a).
Proof. unfold dec_value. by rewrite fold_left_app. Qed.

Lemma pretty_char x : (x < 10)%N ->
  is_digit (pretty_N_char x) = true /\ Z.of_N (N_of_ascii (pretty_N_char x)) - 48 = Z.of_N x /\
  (Ascii.eqb (pretty_N_char x) "0" = bool_decide (x = 0%N)).
Proof.
  intros H. assert (Hn : exists n, (n < 10)%nat /\ x = N.of_nat n) by (exists (N.to_nat x); lia).
  destruct Hn as (n & Hn & ->). do 10 (destruct n as [|n]; [done|]). lia.
Qed.

Lemma pretty_go x : forall s, exists D, to_bytes (pretty_N_go x s) = D ++ to_bytes s /\
  forallb is_digit D = true /\ dec_value D = Z.of_N x /\
  ((0 < x)%N -> exists c r, D = c :: r /\ Ascii.eqb c "0" = false).
Proof.
  induction (N.lt_wf_0 x) as [x _ IH]. intros s. destruct (decide (x = 0%N)) as [->|Hx].
  { exists []. rewrite pretty_N_go_0. by repeat split; [..|lia]. }
  rewrite pretty_N_go_step by lia. destruct (IH (x `div` 10)%N ltac:(apply N.div_lt; lia) (String (pretty_N_char (x `mod` 10)) s))
    as (D & E & HD & Hv & Hh).
  destruct (pretty_char (x `mod` 10)) as (H1 & H2 & H3); [by apply N.mod_lt|].
  exists (D ++ [pretty_N_char (x `mod` 10)]). split; [by rewrite E, <- app_assoc|]. split; [|split].
  - rewrite forallb_app, HD. cbn. by rewrite H1.
  - rewrite dec_value_app, Hv. cbn. rewrite H2, N2Z.inj_mod, N2Z.inj_div by lia. cbn. pose proof (Z.div_mod (Z.of_N x) 10). lia.
  - intros _. destruct (decide (0 < x `div` 10)%N) as [Hd|Hd].
    + destruct (Hh Hd) as (c & r & -> & Hc). by eexists _, _.
    + assert (x `div` 10 = 0)%N as H0 by (by apply N.le_0_r, N.nlt_ge). rewrite H0 in E. rewrite pretty_N_go_0 in E. cbn in E.
      assert (D = []) as -> by (destruct D; [done|]; apply (f_equal length) in E; rewrite length_app in E; cbn in E; lia).
      eexists _, _. split; [reflexivity|]. rewrite H3. apply bool_decide_eq_false.
      pose proof (N.div_mod' x 10). lia.
Qed.

Lemma span_digits D r : forallb is_digit D = true -> match r with c :: _ => is_digit c = false | [] => True end ->
  span is_digit (D ++ r) = (D, r).
Proof.
  intros H Hr. induction D as [|c D IH]; cbn in *.
  - destruct r as [|c r]; [done|]. cbn. by rewrite Hr.
  - apply andb_true_iff in H as [-> H]. by rewrite (IH H).
Qed.

(** The digits of a natural number are a complete integer part. *)
Lemma int_p_pretty n : exists D, to_bytes (pretty n) = D /\ int_p D = Some (D, []) /\ dec_value D = Z.of_N n /\
  exists c r, D = c :: r /\ is_digit c = true.
Proof.
  unfold pretty, pretty_N. case_decide as H.
  - subst. exists ["0"%char]. repeat split. by exists "0"%char, [].
  - destruct (pretty_go n "") as (D & E & HD & Hv & Hh). rewrite app_nil_r in E. exists D.
    destruct (Hh ltac:(lia)) as (c & r & -> & Hc). repeat split; [done| |done|].
    + unfold int_p. rewrite Hc. unfold digits1. rewrite <- (app_nil_r (c :: r)) at 1. by rewrite span_digits.
    + exists c, r. cbn in HD. split; [done|]. by apply andb_true_iff in HD as [? _].
Qed.

Definition int_lit (z : Z) : bytes := to_bytes (Itoa z).

Lemma int_lit_parts z : exists D, int_lit z = (if z <? 0 then "-"%char :: D else D) /\
  int_p D = Some (D, []) /\ dec_value D = Z.abs z /\ exists c r, D = c :: r /\ is_digit c = true.
Proof.
  unfold int_lit, Itoa, pretty, pretty_Z. destruct z as [|p|p].
  - exists ["0"%char]. repeat split. by exists "0"%char, [].
  - destruct (int_p_pretty (Npos p)) as (D & E & H). exists D. split; [exact E|]. cbn. exact H.
  - destruct (int_p_pretty (Npos p)) as (D & E & H). exists D. split; [|exact H]. rewrite to_bytes_app. cbn. f_equal. exact E.
Qed.

Lemma sign_int_lit z D : (exists c r, D = c :: r /\ is_digit c = true) ->
  sign_p (if z <? 0 then "-"%char :: D else D) = (if z <? 0 then ["-"%char] else [], D).
Proof.
  intros (c & r & -> & H). destruct (z <? 0); [reflexivity|]. cbn. destruct (Ascii.eqb_spec c "-") as [->|]; [done|reflexivity].
Qed.

Lemma read_int_lit z : in64 z -> read_int (int_lit z) = Some z.
Proof.
  intros H. destruct (int_lit_parts z) as (D & -> & Hi & Hv & Hd). unfold read_int. rewrite (sign_int_lit z D Hd), Hi.
  cbn [mbind option_bind]. unfold in64 in H. destruct (Z.ltb_spec z 0); rewrite Hv.
  - replace (- Z.abs z) with z by lia. by rewrite (proj2 (Z.leb_le _ z)), (proj2 (Z.leb_le z _)) by lia.
  - replace (Z.abs z) with z by lia. by rewrite (proj2 (Z.leb_le _ z)), (proj2 (Z.leb_le z _)) by lia.
Qed.

Lemma int_lit_ok z : number_ok (int_lit z) = true.
Proof.
  apply bool_decide_eq_true. destruct (int_lit_parts z) as (D & -> & Hi & Hv & Hd). unfold num_p.
  rewrite (sign_int_lit z D Hd), Hi. cbn. rewrite !app_nil_r. by destruct (z <? 0).
Qed.

(** ** Any value *)

Section value_ind'.
Context (P : value -> Prop) (Hnull : P VNull) (Hbool : forall b, P (VBool b)) (Hnum : forall x, P (VNum x))
  (Hstr : forall s, P (VStr s)) (Harr : forall l, Forall P l -> P (VArr l))
  (Hobj : forall l, Forall (fun kv => P kv.2) l -> P (VObj l)).

Fixpoint value_ind' (v : value) : P v :=
  match v with
  | VNull => Hnull
  | VBool b => Hbool b
  | VNum x => Hnum x
  | VStr s => Hstr s
  | VArr l => Harr l ((fix go l := match l return Forall P l with
      | [] => List.Forall_nil P
      | v :: l => List.Forall_cons P v l (value_ind' v) (go l) end) l)
  | VObj l => Hobj l ((fix go l := match l return Forall (fun kv => P kv.2) l with
      | [] => List.Forall_nil _
      | kv :: l => List.Forall_cons (fun kv => P kv.2) kv l (value_ind' kv.2) (go l) end) l)
  end.
End value_ind'.

Definition enc_float (x : f64) : option json := JNum ∘ to_bytes <$> Json.json_num x.
Definition dec_float (j : json) : option f64 := match j with JNum lit => read_float lit | _ => None end.

Lemma float_law x j : float_reads x = true -> enc_float x = Some j -> dec_float j = Some x.
Proof.
  unfold float_reads, enc_float. destruct (Json.json_num x) as [s|]; [|done]. cbn.
  intros [_ H]%andb_true_iff [= <-]. by apply bool_decide_eq_true in H.
Qed.

(** The members of an object, if all their values have an encoding. *)
Definition members (fields : list (string * option json)) : option (list (string * json)) :=
  mapM (fun kv => j ← kv.2; Some (kv.1, j)) fields.

(** The keys of a map are sorted. *)
Fixpoint to_json (v : value) : option json :=
  match v with
  | VNull => Some JNull
  | VBool b => Some (JBool b)
  | VNum x => enc_float x
  | VStr s => Some (JStr s)
  | VArr l => JArr <$> Json.all_some (map to_json l)
  | VObj l => JObj <$> members (Json.sort_keys (map (fun kv => (kv.1, to_json kv.2)) l))
  end.

(** [m[k] = v] on a map kept sorted. *)
Fixpoint put_key {A} (k : string) (a : A) (l : list (string * A)) : list (string * A) :=
  match l with
  | [] => [(k, a)]
  | (k', a') :: l' =>
      match String.compare k k' with
      | Lt => (k, a) :: l
      | Eq => (k, a) :: l'
      | Gt => (k', a') :: put_key k a l'
      end
  end.

Fixpoint of_json (j : json) : option value :=
  match j with
  | JNull => Some VNull
  | JBool b => Some (VBool b)
  | JNum _ => VNum <$> dec_float j
  | JStr s => Some (VStr s)
  | JArr l => VArr <$> Json.all_some (map of_json l)
  | JObj l =>
      kvs ← Json.all_some (map (fun kv => v ← of_json kv.2; Some (kv.1, v)) l);
      Some (VObj (fold_left (fun m kv => put_key kv.1 kv.2 m) kvs []))
  end.

(** *** Encoding agrees with [Json.marshal] *)

Lemma sort_keys_map {A B} (f : A -> B) l :
  Json.sort_keys (map (fun kv => (kv.1, f kv.2)) l) = map (fun kv => (kv.1, f kv.2)) (Json.sort_keys l).
Proof.
  unfold Json.sort_keys. induction l as [|[k a] l IH]; [done|]. cbn [map foldr fst snd]. rewrite IH. generalize (foldr Json.insert_key [] l).
  intros m. induction m as [|[k' a'] m IHm]; [done|]. cbn. destruct (String.leb k k'); [done|]. cbn. by rewrite IHm.
Qed.

Lemma mapM_some_map {A B} (f : A -> option B) l : mapM id (map f l) = mapM f l.
Proof. induction l as [|a l IH]; [done|]. cbn. by rewrite <- IH. Qed.

Lemma join_sep l : to_bytes (Join "," l) = sep_bytes (map to_bytes l).
Proof.
  induction l as [|x [|y l] IH]; [done|done|]. change (Join "," (x :: y :: l)) with (x +:+ "," +:+ Join "," (y :: l)).
  rewrite !to_bytes_app, IH. reflexivity.
Qed.

Lemma mapM_render {A} (f : A -> option string) (g : A -> option json) l :
  Forall (fun a => f a = of_bytes ∘ render <$> g a) l ->
  mapM f l = map (of_bytes ∘ render) <$> mapM g l.
Proof.
  induction 1 as [|a l Ha _ IH]; [done|]. cbn. rewrite Ha, IH. destruct (g a); [|done]. cbn. by destruct (mapM g l).
Qed.

Lemma map_to_of l : map to_bytes (map (of_bytes ∘ render) l) = map render l.
Proof. rewrite map_map. apply map_ext. intros j. apply to_of_bytes. Qed.

Lemma wrap_bytes o c l : of_bytes (o :: to_bytes (Join "," l) ++ [c]) = (String o "" +:+ Join "," l +:+ String c "").
Proof.
  apply to_bytes_inj. rewrite to_of_bytes, !to_bytes_app. reflexivity.
Qed.

Lemma insert_key_in {A} (kv k : string * A) m : In kv (Json.insert_key k m) -> kv = k \/ In kv m.
Proof. induction m as [|b m IH]; cbn; [naive_solver|]. destruct (String.leb k.1 b.1); cbn; naive_solver. Qed.

Lemma sort_keys_in {A} (kv : string * A) l : In kv (Json.sort_keys l) -> In kv l.
Proof.
  unfold Json.sort_keys. induction l as [|a l IH]; [done|]. cbn. intros [->|Hin]%insert_key_in; auto.
Qed.

Lemma sort_keys_Forall {A} (P : string * A -> Prop) l : Forall P l -> Forall P (Json.sort_keys l).
Proof. rewrite !List.Forall_forall. intros H kv Hin. by apply H, sort_keys_in. Qed.

Lemma mapM_members {A} (f : A -> option string) (g : A -> option json) (l : list (string * A)) :
  Forall (fun kv => f kv.2 = of_bytes ∘ render <$> g kv.2) l ->
  mapM (fun kv => s ← kv.2; Some (Json.json_string kv.1 +:+ ":" +:+ s)) (map (fun kv => (kv.1, f kv.2)) l) =
  map (of_bytes ∘ render_member) <$> members (map (fun kv => (kv.1, g kv.2)) l).
Proof.
  unfold members. induction 1 as [|[k a] l Ha _ IH]; [done|]. cbn [map mapM fst snd] in *. rewrite Ha, IH.
  destruct (g a) as [j|]; [|done]. cbn. destruct (mapM _ (map (fun kv => (kv.1, g kv.2)) l)); [|done]. cbn -[Json.json_string render_member].
  do 2 f_equal. apply to_bytes_inj. unfold render_member, render_string. cbn [fst snd].
  rewrite to_of_bytes, !to_bytes_app, to_of_bytes. reflexivity.
Qed.

Lemma render_marshal v : Json.marshal v = of_bytes ∘ render <$> to_json v.
Proof.
  induction v as [|[]|x|s|l IH|l IH] using value_ind'; try reflexivity.
  - cbn. unfold enc_float. destruct (Json.json_num x) as [s|]; [|done]. cbn. by rewrite of_to_bytes.
  - cbn. unfold render_string. by rewrite of_to_bytes.
  - cbn [Json.marshal to_json]. unfold Json.all_some. rewrite !mapM_some_map, (mapM_render _ _ _ IH).
    destruct (mapM to_json l) as [js|]; [|done]. cbn. f_equal.
    rewrite <- (wrap_bytes "["%char "]"%char), join_sep, map_to_of. reflexivity.
  - cbn [Json.marshal to_json]. unfold Json.json_object. rewrite !sort_keys_map.
    rewrite (mapM_members _ to_json) by (by apply sort_keys_Forall).
    destruct (members _) as [ms|]; [|done]. cbn. f_equal.
    rewrite <- (wrap_bytes "{"%char "}"%char), join_sep. rewrite map_map.
    by rewrite (map_ext (fun x => to_bytes ((of_bytes ∘ render_member) x)) render_member) by (intros; apply to_of_bytes).
Qed.

(** *** A value is decoded from its encoding *)

Definition key_lt (k k' : string) : bool := match String.compare k k' with Lt => true | _ => false end.

(** Sorted by key, without a key twice. *)
Fixpoint strictly {A} (l : list (string * A)) : bool :=
  match l with [] => true | kv :: l => forallb (fun kv' => key_lt kv.1 kv'.1) l && strictly l end.

(** Objects as maps hold them, floats that read back. *)
Fixpoint value_ok (v : value) : bool :=
  match v with
  | VNum x => float_reads x
  | VArr l => forallb value_ok l
  | VObj l => strictly l && forallb (fun kv => value_ok kv.2) l
  | _ => true
  end.

Lemma sort_strictly {A} (l : list (string * A)) : strictly l = true -> Json.sort_keys l = l.
Proof.
  unfold Json.sort_keys. induction l as [|[k a] l IH]; [done|]. cbn [strictly foldr]. intros [H1 H2]%andb_true_iff.
  rewrite (IH H2). destruct l as [|[k' a'] l]; [done|]. cbn [forallb fst] in H1. apply andb_true_iff in H1 as [H1 _].
  cbn. unfold key_lt, String.leb in *. by destruct (String.compare k k').
Qed.

Lemma put_last {A} k (a : A) m : forallb (fun kv => key_lt kv.1 k) m = true -> put_key k a m = m ++ [(k, a)].
Proof.
  induction m as [|[k' a'] m IH]; [done|]. cbn [forallb fst put_key]. intros [H1 H2]%andb_true_iff.
  unfold key_lt in H1. rewrite String.compare_antisym. destruct (String.compare k' k); try done. cbn. by rewrite (IH H2).
Qed.

Lemma strictly_app {A} (m l : list (string * A)) : strictly (m ++ l) = true ->
  strictly m = true /\ strictly l = true /\ forall kv kv', In kv m -> In kv' l -> key_lt kv.1 kv'.1 = true.
Proof.
  induction m as [|x m IH]; [done|]. cbn [app strictly]. rewrite forallb_app. intros [[H1 H2]%andb_true_iff H3]%andb_true_iff.
  destruct (IH H3) as (Hm & Hl & H). rewrite H1, Hm. repeat split; [done|]. rewrite forallb_forall in H2. intros kv kv' [->|Hin] Hin'; auto.
Qed.

Lemma put_all {A} (l : list (string * A)) : forall m, strictly (m ++ l) = true ->
  fold_left (fun m kv => put_key kv.1 kv.2 m) l m = m ++ l.
Proof.
  induction l as [|[k a] l IH]; intros m H; [by rewrite app_nil_r|]. cbn [fold_left fst snd].
  rewrite put_last; [rewrite IH; by rewrite <- app_assoc|].
  apply strictly_app in H as (_ & _ & H). apply forallb_forall. intros kv Hin. by apply (H kv (k, a)); [|left].
Qed.

Lemma value_law v : forall j, value_ok v = true -> to_json v = Some j -> of_json j = Some v.
Proof.
  induction v as [|b|x|s|l IH|l IH] using value_ind'; cbn [to_json value_ok]; intros j Hok.
  1,2,4: by intros [= <-].
  - intros H. assert (E : exists lit, j = JNum lit) by (unfold enc_float in H; destruct (Json.json_num x); [|done]; by injection H as <-; eexists).
    destruct E as [lit ->]. cbn [of_json]. by rewrite (float_law x _ Hok H).
  - unfold Json.all_some. destruct (mapM id (map to_json l)) as [js|] eqn:E; [|done]. intros [= <-]. cbn [of_json].
    assert (H : mapM id (map of_json js) = Some l); [|by unfold Json.all_some; rewrite H].
    rewrite mapM_some_map. rewrite mapM_some_map in E. apply mapM_Some in E. rewrite forallb_forall in Hok. apply mapM_Some.
    apply Forall2_flip. rewrite List.Forall_forall in IH. induction E as [|v j vs js Hv HF IHl]; constructor.
    + apply (IH v (or_introl eq_refl)); [by apply Hok; left|done].
    + apply IHl; intros; [apply IH|apply Hok]; by try right.
  - apply andb_true_iff in Hok as [Hs Hok]. rewrite sort_keys_map, (sort_strictly _ Hs). unfold members.
    destruct (mapM _ _) as [js|] eqn:E; [|done]. intros [= <-]. cbn. unfold Json.all_some.
    assert (H : mapM id (map (fun kv => v ← of_json kv.2; Some (kv.1, v)) js) = Some l); [|rewrite H; cbn; by rewrite put_all].
    rewrite <- mapM_some_map, map_map, mapM_some_map in E. rewrite mapM_some_map. apply mapM_Some in E. apply mapM_Some, Forall2_flip.
    rewrite forallb_forall in Hok. rewrite List.Forall_forall in IH. clear Hs.
    induction E as [|[k v] [k' j] kvs js Hv HF IHl]; constructor.
    + cbn in Hv. destruct (to_json v) as [j'|] eqn:Ej; [|done]. injection Hv as -> ->. cbn.
      by rewrite (IH (k', v) (or_introl eq_refl) j (Hok _ (or_introl eq_refl)) Ej).
    + apply IHl; intros; [apply IH|apply Hok]; by try right.
Qed.

(** ** Codecs *)

(** A type of the Go program with its JSON: the zero value, encoding, decoding into a variable
    that already has a value, and what makes a value survive. *)
Class Codec (A : Type) := {
  c_zero : A;
  c_enc : A -> option json;
  c_dec : A -> json -> option A;
  c_ok : A -> Prop;
  c_law a j : c_ok a -> c_enc a = Some j -> c_dec c_zero j = Some a }.

(** The encoding is never [null]. *)
Class NonNull (A : Type) `{Codec A} := non_null : forall a, c_enc a <> Some JNull.

(** [null] leaves a variable that is no pointer, map or interface as it is. *)
Definition dec_string (cur : string) (j : json) : option string :=
  match j with JNull => Some cur | JStr s => Some s | _ => None end.
Definition dec_int (cur : Z) (j : json) : option Z :=
  match j with JNull => Some cur | JNum lit => read_int lit | _ => None end.
Definition dec_f64 (cur : f64) (j : json) : option f64 :=
  match j with JNull => Some cur | _ => dec_float j end.
Definition dec_any (_ : value) (j : json) : option value := of_json j.
Definition dec_ptr {A} `{Codec A} (cur : option A) (j : json) : option (option A) :=
  match j with JNull => Some None | _ => Some <$> c_dec (default c_zero cur) j end.

#[export] Program Instance string_codec : Codec string :=
  {| c_zero := ""; c_enc s := Some (JStr s); c_dec := dec_string; c_ok _ := True |}.
Next Obligation. by intros s j _ [= <-]. Qed.

#[export] Program Instance int_codec : Codec Z :=
  {| c_zero := 0; c_enc z := Some (JNum (int_lit z)); c_dec := dec_int; c_ok := in64 |}.
Next Obligation. intros z j H [= <-]. by apply read_int_lit. Qed.

#[export] Program Instance float_codec : Codec f64 :=
  {| c_zero := f64_zero; c_enc := enc_float; c_dec := dec_f64; c_ok x := float_reads x = true |}.
Next Obligation.
  intros x j Hok H. pose proof (float_law x j Hok H). by destruct j.
Qed.

#[export] Program Instance any_codec : Codec value :=
  {| c_zero := VNull; c_enc := to_json; c_dec := dec_any; c_ok v := value_ok v = true |}.
Next Obligation. intros v j Hok H. by apply value_law. Qed.

Definition enc_ptr {A} `{Codec A} (o : option A) : option json :=
  match o with None => Some JNull | Some a => c_enc a end.
Definition when_some {A} (P : A -> Prop) (o : option A) : Prop := match o with None => True | Some a => P a end.

#[export] Program Instance ptr_codec {A} `{NonNull A} : Codec (option A) :=
  {| c_zero := None; c_enc := enc_ptr; c_dec := dec_ptr; c_ok := when_some c_ok |}.
Next Obligation.
  intros A ? ? [a|] j Hok H; [|by injection H as <-].
  assert (Hj : dec_ptr None j = Some <$> c_dec c_zero j) by (destruct j; try reflexivity; by apply non_null in H).
  by rewrite Hj, (c_law a j Hok H).
Qed.

#[export] Instance string_non_null : NonNull string.
Proof. by intros s. Qed.
#[export] Instance int_non_null : NonNull Z.
Proof. by intros z. Qed.

(** *** Maps: the entries are sorted, and decoded into the map that is there; [null] is a nil map *)

Definition enc_map {A} `{Codec A} (m : gmap string A) : option json :=
  JObj <$> members (Json.sort_keys (map (fun kv => (kv.1, c_enc kv.2)) (map_to_list m))).

Fixpoint dec_entries {A} `{Codec A} (m : gmap string A) (es : list (string * json)) : option (gmap string A) :=
  match es with
  | [] => Some m
  | (k, j) :: es => a ← c_dec c_zero j; dec_entries (<[k := a]> m) es
  end.

Definition dec_map {A} `{Codec A} (cur : gmap string A) (j : json) : option (gmap string A) :=
  match j with JNull => Some ∅ | JObj es => dec_entries cur es | _ => None end.

Lemma dec_entries_law {A} `{Codec A} (l : list (string * A)) : forall es m,
  Forall (fun kv => c_ok kv.2) l -> members (map (fun kv => (kv.1, c_enc kv.2)) l) = Some es ->
  dec_entries m es = Some (fold_left (fun (m : gmap string A) kv => <[kv.1 := kv.2]> m) l m).
Proof.
  unfold members. induction l as [|[k a] l IH]; intros es m Hok; cbn [map mapM fst snd].
  - by intros [= <-].
  - inversion Hok as [|? ? Ha Hl]; subst. destruct (c_enc a) as [j|] eqn:Ej; [|done]. cbn [mbind option_bind].
    destruct (mapM _ _) as [js|] eqn:E; [|done]. intros [= <-]. cbn. rewrite (c_law a j Ha Ej). cbn. by apply IH.
Qed.

Lemma insert_all_map {A} (l : list (string * A)) : forall m : gmap string A, NoDup l.*1 ->
  fold_left (fun (m : gmap string A) kv => <[kv.1 := kv.2]> m) l m = list_to_map l ∪ m.
Proof.
  induction l as [|[k a] l IH]; intros m; cbn; [by rewrite map_empty_union|]. intros [Hk Hl]%NoDup_cons.
  rewrite IH by done. apply map_eq. intros k'. rewrite !lookup_union. destruct (decide (k = k')) as [->|Hne].
  - rewrite !lookup_insert_eq, (not_elem_of_list_to_map_1 l k' Hk). by destruct (m !! k').
  - by rewrite !lookup_insert_ne.
Qed.

Lemma insert_key_perm {A} (kv : string * A) l : Json.insert_key kv l ≡ₚ kv :: l.
Proof. induction l as [|kv' l IH]; cbn; [done|]. destruct (String.leb _ _); [done|]. rewrite IH. constructor. Qed.

Lemma sort_keys_perm {A} (l : list (string * A)) : Json.sort_keys l ≡ₚ l.
Proof. unfold Json.sort_keys. induction l as [|kv l IH]; cbn; [done|]. by rewrite insert_key_perm, IH. Qed.

Lemma map_law {A} `{Codec A} (m : gmap string A) j :
  map_Forall (fun _ a => c_ok a) m -> enc_map m = Some j -> dec_map ∅ j = Some m.
Proof.
  intros Hok. unfold enc_map. rewrite sort_keys_map. destruct (members _) as [es|] eqn:E; [|done]. intros [= <-]. cbn [dec_map].
  rewrite (dec_entries_law _ _ _) with (2 := E).
  - f_equal. rewrite insert_all_map by (rewrite sort_keys_perm; apply NoDup_fst_map_to_list).
    rewrite map_union_empty. rewrite <- (list_to_map_to_list m) at 2. apply list_to_map_proper; [|apply sort_keys_perm].
    rewrite sort_keys_perm. apply NoDup_fst_map_to_list.
  - apply sort_keys_Forall. apply List.Forall_forall. intros [k a] Hin. cbn. apply (Hok k a).
    by apply elem_of_map_to_list, list_elem_of_In.
Qed.

#[export] Program Instance map_codec {A} `{Codec A} : Codec (gmap string A) :=
  {| c_zero := ∅; c_enc := enc_map; c_dec := dec_map; c_ok := map_Forall (fun _ a => c_ok a) |}.
Next Obligation. intros A ? m j. apply map_law. Qed.

#[export] Instance map_non_null {A} `{Codec A} : NonNull (gmap string A).
Proof. intros m. cbn. unfold enc_map. by destruct (members _). Qed.

(** ** Structs

    The fields of a struct with their names: [None] where a value has no encoding, [Some None]
    where [omitempty] leaves the field out. *)
Abbreviation field_list := (list (string * option (option json))).

Definition required {A} `{Codec A} (name : string) (a : A) : string * option (option json) := (name, Some <$> c_enc a).
Definition omitempty {A} `{Codec A} (zero : bool) (name : string) (a : A) : string * option (option json) :=
  (name, if zero then Some None else Some <$> c_enc a).

Fixpoint enc_fields (fs : field_list) : option (list (string * json)) :=
  match fs with
  | [] => Some []
  | (k, x) :: fs => x ← x; es ← enc_fields fs; Some (match x with Some j => (k, j) :: es | None => es end)
  end.

Definition enc_struct (fs : field_list) : option json := JObj <$> enc_fields fs.

Lemma enc_struct_non_null fs : enc_struct fs <> Some JNull.
Proof. unfold enc_struct. by destruct (enc_fields fs). Qed.

(** A key names a field when they are equal up to case. *)
Definition fold_name (s : string) : string := of_bytes (lower_bytes true (to_bytes s)).
Definition same_name (k name : string) : bool := String.eqb (fold_name k) (fold_name name).

Definition matching (name : string) (es : list (string * json)) : list json :=
  map snd (List.filter (fun kv => same_name kv.1 name) es).

(** All the entries with the name are decoded, one after the other, into the field. *)
Fixpoint dec_all {A} `{Codec A} (cur : A) (l : list json) : option A :=
  match l with [] => Some cur | j :: l => a ← c_dec cur j; dec_all a l end.

Definition dec_field {A} `{Codec A} (cur : A) (name : string) (es : list (string * json)) : option A :=
  dec_all cur (matching name es).

(** Other entries are ignored; [null] changes nothing. *)
Definition dec_struct {A} (cur : A) (f : list (string * json) -> option A) (j : json) : option A :=
  match j with JNull => Some cur | JObj es => f es | _ => None end.

(** No two fields have names a key could match at once. *)
Fixpoint distinct (names : list string) : bool :=
  match names with [] => true | n :: ns => forallb (fun n' => negb (same_name n' n)) ns && distinct ns end.

Lemma matching_none name fs es :
  enc_fields fs = Some es -> forallb (fun n => negb (same_name n name)) (map fst fs) = true -> matching name es = [].
Proof.
  revert es. induction fs as [|[k x] fs IH]; intros es; cbn [enc_fields map fst forallb]; [by intros [= <-]|].
  destruct x as [x|]; [|done]. cbn [mbind option_bind]. destruct (enc_fields fs) as [es'|]; [|done]. cbn [mbind option_bind]. intros [= <-] [H1 H2]%andb_true_iff.
  specialize (IH es' eq_refl H2). destruct x; [|done]. unfold matching in *. cbn [List.filter fst]. apply negb_true_iff in H1. by rewrite H1.
Qed.

Lemma same_name_refl n : same_name n n = true.
Proof. apply String.eqb_refl. Qed.

Lemma same_name_sym n m : same_name n m = same_name m n.
Proof. apply String.eqb_sym. Qed.

Lemma matching_enc fs es name x : distinct (map fst fs) = true -> enc_fields fs = Some es -> In (name, Some x) fs ->
  matching name es = match x with Some j => [j] | None => [] end.
Proof.
  revert es. induction fs as [|[k y] fs IH]; intros es; [done|]. cbn [map fst distinct enc_fields].
  intros [H1 H2]%andb_true_iff. destruct y as [y|]; [|done]. cbn [mbind option_bind].
  destruct (enc_fields fs) as [es'|] eqn:E; [|done]. intros [= <-] [[= -> ->]|Hin].
  - pose proof (matching_none name fs es' E H1) as Hn. destruct x; [|done]. unfold matching in *. cbn [List.filter fst].
    rewrite same_name_refl. cbn [map snd]. by rewrite Hn.
  - rewrite <- (IH es' H2 eq_refl Hin). destruct y; [|done]. unfold matching. cbn [List.filter fst].
    assert (Hk : same_name k name = false); [|by rewrite Hk].
    rewrite forallb_forall in H1. rewrite same_name_sym. apply negb_true_iff, H1. by apply (in_map fst) in Hin.
Qed.

Section fields.
Context (fs : field_list) (es : list (string * json)) (Hd : distinct (map fst fs) = true) (He : enc_fields fs = Some es).

Lemma enc_all name x : In (name, x) fs -> exists y, x = Some y.
Proof.
  clear Hd. revert es He. induction fs as [|[k y] fs' IH]; intros es'; [done|]. cbn.
  destruct y as [y|]; [|done]. cbn. destruct (enc_fields fs') as [e|]; [|done]. intros _ [[= -> <-]|Hin]; [eauto|].
  by eapply IH.
Qed.

Lemma dec_required {A} `{Codec A} name (a : A) : In (required name a) fs -> c_ok a -> dec_field c_zero name es = Some a.
Proof.
  intros Hin Hok. unfold dec_field, required in *. destruct (enc_all _ _ Hin) as [y Hy].
  destruct (c_enc a) as [j|] eqn:Ej; [|done]. cbn in *. rewrite (matching_enc fs es name (Some j)) by done.
  cbn. by rewrite (c_law a j Hok Ej).
Qed.

Lemma dec_omitempty {A} `{Codec A} (zero : bool) name (a : A) : In (omitempty zero name a) fs -> (zero = true -> a = c_zero) ->
  (zero = false -> c_ok a) -> dec_field c_zero name es = Some a.
Proof.
  intros Hin Hz Hok. destruct zero; [|by apply dec_required; [|auto]].
  unfold dec_field, omitempty in *. rewrite (matching_enc fs es name None) by done. cbn. by rewrite Hz.
Qed.
End fields.

Definition empty_str (s : string) : bool := String.eqb s "".
Definition empty_int (z : Z) : bool := z =? 0.
Definition empty_float (x : f64) : bool := f64_eqb x f64_zero.
Definition empty_ptr {A} (o : option A) : bool := match o with None => true | Some _ => false end.
Definition empty_map {A} (m : gmap string A) : bool := Nat.eqb (size m) 0.

Lemma empty_str_zero s : empty_str s = true -> s = "".
Proof. apply String.eqb_eq. Qed.
Lemma empty_int_zero z : empty_int z = true -> z = 0.
Proof. apply Z.eqb_eq. Qed.
Lemma empty_ptr_zero {A} (o : option A) : empty_ptr o = true -> o = None.
Proof. by destruct o. Qed.
Lemma empty_map_zero {A} (m : gmap string A) : empty_map m = true -> m = ∅.
Proof. intros H%Nat.eqb_eq. by apply map_size_empty_iff. Qed.

(** ** Structs behind an [any]

    A struct stored in an [any] is decoded as a map and has its entries sorted when it is
    encoded again; its own decoder still reads them. *)

Lemma compare_lt_trans a : forall b c, key_lt a b = true -> key_lt b c = true -> key_lt a c = true.
Proof.
  unfold key_lt. induction a as [|x a IH]; intros [|y b] [|z c]; cbn; try done. unfold Ascii.compare.
  destruct (N.compare_spec (N_of_ascii x) (N_of_ascii y)) as [E1|E1|E1]; [..|done];
    destruct (N.compare_spec (N_of_ascii y) (N_of_ascii z)) as [E2|E2|E2]; try done; intros H1 H2.
  - rewrite E1, E2, N.compare_refl. by apply (IH b c).
  - rewrite E1. by rewrite (proj2 (N.compare_lt_iff _ _)).
  - rewrite <- E2. by rewrite (proj2 (N.compare_lt_iff _ _)).
  - rewrite (proj2 (N.compare_lt_iff (N_of_ascii x) (N_of_ascii z))); [done|lia].
Qed.

Lemma key_lt_antisym k k' : String.compare k k' = Gt -> key_lt k' k = true.
Proof. intros H. unfold key_lt. by rewrite String.compare_antisym, H. Qed.

Lemma put_key_spec {A} k (a : A) l : strictly l = true -> ~ In k (map fst l) ->
  strictly (put_key k a l) = true /\ put_key k a l ≡ₚ (k, a) :: l.
Proof.
  induction l as [|[k' a'] l IH]; [done|]. cbn [strictly map fst put_key]. intros [H1 H2]%andb_true_iff Hk.
  destruct (String.compare k k') eqn:E.
  - apply String.compare_eq_iff in E. subst. destruct Hk. by left.
  - split; [|done]. cbn [strictly forallb fst]. unfold key_lt at 1. rewrite E, H1, H2, !andb_true_r. cbn.
    rewrite forallb_forall in H1 |- *. intros kv Hin. apply (compare_lt_trans k k'); [|by apply H1]. unfold key_lt. by rewrite E.
  - destruct IH as [IH1 IH2]; [done|intros Hin; apply Hk; by right|]. split; [|rewrite IH2; constructor].
    cbn [strictly fst]. rewrite IH1, andb_true_r. rewrite forallb_forall in H1 |- *. intros kv Hin.
    apply (Permutation_in _ IH2) in Hin as [<-|Hin]; [by apply key_lt_antisym|by apply H1].
Qed.

Lemma put_all_perm {A} (l : list (string * A)) : forall m, strictly m = true -> NoDup (map fst (m ++ l)) ->
  strictly (fold_left (fun m kv => put_key kv.1 kv.2 m) l m) = true /\
  fold_left (fun m kv => put_key kv.1 kv.2 m) l m ≡ₚ m ++ l.
Proof.
  induction l as [|[k a] l IH]; intros m Hm Hnd; [by rewrite app_nil_r|]. cbn [fold_left fst snd].
  rewrite map_app in Hnd. cbn [map fst] in Hnd. apply NoDup_app in Hnd as (Hnm & Hdis & Hnl).
  destruct (put_key_spec k a m Hm) as [H1 H2].
  { intros Hin. apply (Hdis k); [by apply list_elem_of_In|left]. }
  destruct (IH (put_key k a m) H1) as [H3 H4].
  { rewrite H2. cbn. rewrite map_app. apply NoDup_cons in Hnl as [Hk Hnl]. apply NoDup_cons. split.
    - rewrite elem_of_app. intros [Hin|Hin]; [|done]. apply (Hdis k Hin). left.
    - apply NoDup_app. split; [done|]. split; [|done]. intros x Hx Hx'. apply (Hdis x Hx). by right. }
  split; [done|]. rewrite H4, H2. cbn. apply Permutation_middle.
Qed.

(** A document that is the same after a decoding into an [any]. *)
Definition stable (j : json) : Prop := exists v, of_json j = Some v /\ to_json v = Some j.

Lemma stable_value v j : value_ok v = true -> to_json v = Some j -> stable j.
Proof. intros Hok H. exists v. split; [by apply value_law|done]. Qed.

Lemma members_perm (l l' : list (string * option json)) es : l ≡ₚ l' -> members l = Some es ->
  exists es', members l' = Some es' /\ es' ≡ₚ es.
Proof.
  unfold members. intros HP H. apply mapM_Some in H. destruct (Permutation_Forall2 HP H) as (es' & HP' & H').
  exists es'. split; [by apply mapM_Some|done].
Qed.

(** An object whose entries are decoded and encoded again, up to the order of the keys. *)
Lemma object_of_members es (l : list (string * value)) es1 : NoDup (map fst l) ->
  mapM id (map (fun kv => v ← of_json kv.2; Some (kv.1, v)) es) = Some l ->
  members (map (fun kv => (kv.1, to_json kv.2)) l) = Some es1 ->
  exists v es', of_json (JObj es) = Some v /\ to_json v = Some (JObj es') /\ es' ≡ₚ es1.
Proof.
  intros Hnd Hd He. destruct (put_all_perm l [] eq_refl) as [Hl Hp]; [done|]. cbn [app] in Hp.
  exists (VObj (fold_left (fun m kv => put_key kv.1 kv.2 m) l [])). cbn [of_json]. unfold Json.all_some. rewrite Hd. cbn [mbind option_bind].
  cbn [to_json]. rewrite sort_keys_map, (sort_strictly _ Hl).
  destruct (members_perm (map (fun kv => (kv.1, to_json kv.2)) l)
    (map (fun kv => (kv.1, to_json kv.2)) (fold_left (fun m kv => put_key kv.1 kv.2 m) l [])) es1) as (es' & He' & Hp');
    [by rewrite Hp|done|].
  exists es'. by rewrite He'.
Qed.

Lemma filter_perm {A} (p : A -> bool) l l' : l ≡ₚ l' -> List.filter p l ≡ₚ List.filter p l'.
Proof.
  induction 1 as [|x l l' _ IH|x y l|l1 l2 l3 _ IH1 _ IH2]; cbn; [done|..].
  - by destruct (p x); rewrite IH.
  - destruct (p x), (p y); try done. constructor.
  - by rewrite IH1.
Qed.

Lemma matching_perm name es es' : es' ≡ₚ es -> (length (matching name es) <= 1)%nat -> matching name es' = matching name es.
Proof.
  intros HP Hl. assert (H : matching name es' ≡ₚ matching name es) by (by apply Permutation_map, filter_perm).
  destruct (matching name es) as [|x [|y r]]; cbn in Hl; [by apply Permutation_nil_r in H|by apply Permutation_singleton_r in H|lia].
Qed.

(** Reordered entries of an encoded struct are decoded all the same. *)
Lemma dec_field_perm fs es es' {A} `{Codec A} (cur : A) name :
  distinct (map fst fs) = true -> enc_fields fs = Some es -> es' ≡ₚ es -> In name (map fst fs) ->
  dec_field cur name es' = dec_field cur name es.
Proof.
  intros Hd He HP Hin. unfold dec_field. rewrite (matching_perm name es es' HP); [done|].
  apply in_map_iff in Hin as ([k x] & <- & Hin). destruct (enc_all fs es He k x Hin) as [y ->].
  cbn. rewrite (matching_enc fs es k y Hd He Hin). by destruct y; cbn; lia.
Qed.

(** The keys of an encoded struct are different. *)
Lemma enc_fields_keys fs es : distinct (map fst fs) = true -> enc_fields fs = Some es -> NoDup (map fst es) /\
  Forall (fun kv => In (kv.1, Some (Some kv.2)) fs) es.
Proof.
  revert es. induction fs as [|[k x] fs IH]; intros es; cbn [enc_fields map fst distinct].
  { intros _ [= <-]. split; constructor. }
  intros [H1 H2]%andb_true_iff. destruct x as [x|]; [|done]. cbn [mbind option_bind].
  destruct (enc_fields fs) as [es'|] eqn:E; [|done]. intros [= <-]. destruct (IH es' H2 eq_refl) as [IH1 IH2].
  assert (Hf : Forall (fun kv => In (kv.1, Some (Some kv.2)) ((k, Some x) :: fs)) es').
  { eapply Forall_impl; [exact IH2|]. intros kv ?. by right. }
  destruct x as [j|]; [|done]. split; [|constructor; [by left|done]]. cbn [map fst]. apply NoDup_cons. split; [|done].
  intros Hin. apply list_elem_of_In, in_map_iff in Hin as (kv & Hk & Hin). rewrite List.Forall_forall in IH2.
  apply IH2 in Hin. apply (in_map fst) in Hin. cbn in Hin. rewrite Hk in Hin. rewrite forallb_forall in H1. apply H1 in Hin.
  by rewrite same_name_refl in Hin.
Qed.

Lemma insert_put {A} k (a : A) l : ~ In k (map fst l) -> Json.insert_key (k, a) l = put_key k a l.
Proof.
  induction l as [|[k' a'] l IH]; [done|]. cbn [map fst Json.insert_key put_key]. intros Hk. unfold String.leb.
  destruct (String.compare k k') eqn:E; [|done|].
  - apply String.compare_eq_iff in E. destruct Hk. by left.
  - rewrite IH; [done|]. intros Hin. apply Hk. by right.
Qed.

Lemma strictly_sort {A} (l : list (string * A)) : NoDup (map fst l) -> strictly (Json.sort_keys l) = true.
Proof.
  unfold Json.sort_keys. induction l as [|[k a] l IH]; [done|]. cbn [map fst foldr]. intros [Hk Hl]%NoDup_cons.
  assert (Hk' : ~ In k (map fst (Json.sort_keys l))).
  { rewrite <- list_elem_of_In. rewrite (sort_keys_perm l). done. }
  rewrite insert_put by done. by apply put_key_spec; [apply IH|].
Qed.

Lemma stable_map (m : gmap string value) j : map_Forall (fun _ v => value_ok v = true) m -> enc_map m = Some j -> stable j.
Proof.
  intros Hok H. assert (Hs : strictly (Json.sort_keys (map_to_list m)) = true) by apply strictly_sort, NoDup_fst_map_to_list.
  apply (stable_value (VObj (Json.sort_keys (map_to_list m)))).
  - cbn [value_ok]. rewrite Hs. cbn. apply forallb_forall. intros [k v] Hin%sort_keys_in. apply (Hok k v).
    by apply elem_of_map_to_list, list_elem_of_In.
  - rewrite <- H. unfold enc_map. cbn [to_json]. rewrite !sort_keys_map, (sort_strictly _ Hs). reflexivity.
Qed.

(** An integer that survives as a float: up to 2^53 in absolute value. *)
Definition int_survives (z : Z) : bool :=
  match read_float (int_lit z) with
  | Some x => bool_decide (Json.json_num x = Some (Itoa z))
  | None => false
  end.

Lemma stable_int z : int_survives z = true -> stable (JNum (int_lit z)).
Proof.
  unfold int_survives. destruct (read_float (int_lit z)) as [x|] eqn:E; [|done]. intros H%bool_decide_eq_true.
  exists (VNum x). cbn. unfold dec_float, enc_float. by rewrite E, H.
Qed.

Lemma stable_float x j : float_reads x = true -> enc_float x = Some j -> stable j.
Proof. intros Hok H. by apply (stable_value (VNum x)). Qed.

Lemma stable_str s : stable (JStr s).
Proof. by exists (VStr s). Qed.

Example ints_survive : map int_survives [0; 2 ^ 53; -120; 2 ^ 53 + 1] = [true; true; true; false].
Proof. vm_compute. reflexivity. Qed.
