(* ===== verification/TimeText.v ===== *)
(** The JSON of [time.Time]: RFC 3339 with nanoseconds, in the offset of the location. *)
From S2P Require Import Prelude GoLib Types Codec JsonText JsonCodec.

#[local] Open Scope string_scope.
#[local] Open Scope list_scope.
#[local] Open Scope Z_scope.

(** ** Dates *)

Definition leap (y : Z) : bool := (y mod 4 =? 0) && (negb (y mod 100 =? 0) || (y mod 400 =? 0)).

(** Days before the months of a year, and before its end. *)
Definition month_starts (l : bool) : list Z :=
  let b := if l then 1 else 0 in
  [0; 31; 59 + b; 90 + b; 120 + b; 151 + b; 181 + b; 212 + b; 243 + b; 273 + b; 304 + b; 334 + b; 365 + b].

Definition month_start (l : bool) (m : Z) : Z := nth (Z.to_nat (m - 1)) (month_starts l) 0.
Definition month_days (l : bool) (m : Z) : Z := month_start l (m + 1) - month_start l m.

(** Days from January 1, year 1 to the start of year [y]. *)
Definition year_start (y : Z) : Z := let n := y - 1 in 365 * n + n / 4 - n / 100 + n / 400.

Definition days_of (y m d : Z) : Z := year_start y + month_start (leap y) m + (d - 1).

Fixpoint find_month (l : bool) (fuel : nat) (m yday : Z) : Z :=
  match fuel with
  | O => m
  | S fuel => if yday <? month_start l (m + 1) then m else find_month l fuel (m + 1) yday
  end.

(** The year of a day and the day in it: cycles of 400, 100, 4 years and 1 year. *)
Definition year_of (days : Z) : Z * Z :=
  let a := days / 146097 in let r := days mod 146097 in
  let c := Z.min (r / 36524) 3 in let r := r - 36524 * c in
  let q := r / 1461 in let r := r mod 1461 in
  let n := Z.min (r / 365) 3 in
  (400 * a + 100 * c + 4 * q + n + 1, r - 365 * n).

Definition date_of (days : Z) : Z * Z * Z :=
  let '(y, yday) := year_of days in
  let m := find_month (leap y) 11 1 yday in
  (y, m, yday - month_start (leap y) m + 1).

Lemma year_of_spec days y yday : 0 <= days -> year_of days = (y, yday) ->
  1 <= y /\ year_start y + yday = days /\ 0 <= yday < (if leap y then 366 else 365).
Proof.
  intros H. unfold year_of.
  pose proof (Z.div_mod days 146097 ltac:(lia)) as Ea. pose proof (Z.mod_pos_bound days 146097 ltac:(lia)) as Ba.
  pose proof (Z.div_pos days 146097 H ltac:(lia)).
  set (a := days / 146097) in *. set (r := days mod 146097) in *.
  set (c := Z.min (r / 36524) 3). set (r1 := r - 36524 * c).
  assert (Hc : 0 <= c <= 3 /\ 0 <= r1 <= 36524 /\ (c < 3 -> r1 < 36524)).
  { unfold c, r1, c. pose proof (Z.div_mod r 36524 ltac:(lia)). pose proof (Z.mod_pos_bound r 36524 ltac:(lia)). lia. }
  pose proof (Z.div_mod r1 1461 ltac:(lia)) as Eq. pose proof (Z.mod_pos_bound r1 1461 ltac:(lia)) as Bq.
  set (q := r1 / 1461) in *. set (r2 := r1 mod 1461) in *.
  set (n := Z.min (r2 / 365) 3). set (r3 := r2 - 365 * n).
  assert (Hn : 0 <= n <= 3 /\ 0 <= r3 <= 365 /\ (n < 3 -> r3 < 365)).
  { unfold n, r3, n. pose proof (Z.div_mod r2 365 ltac:(lia)). pose proof (Z.mod_pos_bound r2 365 ltac:(lia)). lia. }
  assert (Hq : 0 <= q <= 24) by lia.
  assert (Hlast : r3 = 365 -> n = 3 /\ (q = 24 -> c = 3)) by lia.
  intros [= <- <-]. fold c r1 q r2 n r3. set (Y := 400 * a + 100 * c + 4 * q + n).
  assert (H4 : Y / 4 = 100 * a + 25 * c + q) by (symmetry; apply (Z.div_unique _ _ _ n); lia).
  assert (H100 : Y / 100 = 4 * a + c) by (symmetry; apply (Z.div_unique _ _ _ (4 * q + n)); lia).
  assert (H400 : Y / 400 = a) by (symmetry; apply (Z.div_unique _ _ _ (100 * c + 4 * q + n)); lia).
  split; [lia|]. split.
  { unfold year_start. replace (Y + 1 - 1) with Y by lia. rewrite H4, H100, H400. unfold Y. lia. }
  split; [lia|]. destruct (Z.eq_dec r3 365) as [E|]; [|destruct (leap _); lia].
  destruct (Hlast E) as [Hn3 Hc3].
  enough (leap (Y + 1) = true) as -> by lia.
  unfold leap. assert (M4 : (Y + 1) mod 4 = 0) by (symmetry; apply (Z.mod_unique _ _ (100 * a + 25 * c + q + 1)); lia).
  rewrite M4. cbn [Z.eqb andb]. destruct (Z.eq_dec q 24) as [E24|].
  - assert (M400 : (Y + 1) mod 400 = 0) by (symmetry; apply (Z.mod_unique _ _ (a + 1)); lia). rewrite M400. by rewrite orb_true_r.
  - assert (M100 : (Y + 1) mod 100 = 4 * q + 4) by (symmetry; apply (Z.mod_unique _ _ (4 * a + c)); lia).
    rewrite M100. by rewrite (proj2 (Z.eqb_neq _ 0)) by lia.
Qed.

(** The month and day of every day of a year. *)
Lemma month_of_spec l yday : 0 <= yday < (if l : bool then 366 else 365) ->
  let m := find_month l 11 1 yday in
  1 <= m <= 12 /\ 1 <= yday - month_start l m + 1 <= month_days l m.
Proof.
  intros H.
  assert (Hall : forallb (fun n => let y := Z.of_nat n in let m := find_month l 11 1 y in
    (1 <=? m) && (m <=? 12) && (1 <=? y - month_start l m + 1) && (y - month_start l m + 1 <=? month_days l m))
    (seq 0 (if l then 366 else 365)) = true) by (destruct l; vm_compute; reflexivity).
  rewrite forallb_forall in Hall. specialize (Hall (Z.to_nat yday)). rewrite Z2Nat.id in Hall by lia.
  cbv zeta in *. rewrite !andb_true_iff, !Z.leb_le in Hall. apply and_assoc.
  assert (Hin : In (Z.to_nat yday) (seq 0 (if l then 366 else 365))) by (apply in_seq; destruct l; lia).
  specialize (Hall Hin). lia.
Qed.

Lemma date_of_spec days y m d : 0 <= days -> date_of days = (y, m, d) ->
  1 <= y /\ 1 <= m <= 12 /\ 1 <= d <= month_days (leap y) m /\ days_of y m d = days.
Proof.
  intros H. unfold date_of. destruct (year_of days) as [y' yday] eqn:E. cbv zeta.
  destruct (year_of_spec days y' yday H E) as (H1 & H2 & H3). pose proof (month_of_spec (leap y') yday H3) as [Hm Hd].
  cbv zeta in *. generalize dependent (find_month (leap y') 11 1 yday). intros m' Hm Hd [= -> -> <-].
  unfold days_of. lia.
Qed.

Example dates : (date_of 0, date_of 719162, date_of 738944) = ((1, 1, 1), (1970, 1, 1), (2024, 2, 29)).
Proof. vm_compute. reflexivity. Qed.

(** ** Digits *)

Definition digit_of (n : Z) : ascii := ascii_of_N (Z.to_N (48 + n)).
Definition two (n : Z) : bytes := [digit_of (n / 10); digit_of (n mod 10)].

Definition digit_p (l : bytes) : option (Z * bytes) :=
  match l with c :: r => if is_digit c then Some (Z.of_N (N_of_ascii c) - 48, r) else None | [] => None end.

Definition two_p (l : bytes) : option (Z * bytes) :=
  '(a, l) ← digit_p l; '(b, l) ← digit_p l; Some (10 * a + b, l).

Definition in_bounds (lo hi : Z) (x : Z * bytes) : option (Z * bytes) :=
  if (lo <=? x.1) && (x.1 <=? hi) then Some x else None.

Definition byte_p (c : ascii) (l : bytes) : option bytes :=
  match l with x :: r => if Ascii.eqb x c then Some r else None | [] => None end.

Lemma digit_of_spec n : 0 <= n < 10 ->
  is_digit (digit_of n) = true /\ Z.of_N (N_of_ascii (digit_of n)) - 48 = n /\ Ascii.eqb (digit_of n) "0" = (n =? 0).
Proof.
  intros H. assert (Hk : exists k, (k < 10)%nat /\ n = Z.of_nat k) by (exists (Z.to_nat n); lia).
  destruct Hk as (k & Hk & ->). do 10 (destruct k as [|k]; [done|]). lia.
Qed.

Lemma two_read n l : 0 <= n < 100 -> two_p (two n ++ l) = Some (n, l).
Proof.
  intros H. pose proof (Z.div_mod n 10 ltac:(lia)) as E. pose proof (Z.mod_pos_bound n 10 ltac:(lia)).
  destruct (digit_of_spec (n / 10)) as (H1 & H2 & _); [lia|]. destruct (digit_of_spec (n mod 10)) as (H3 & H4 & _); [lia|].
  unfold two, two_p, digit_p. cbn [app]. rewrite H1. cbn [mbind option_bind]. rewrite H3. cbn [mbind option_bind].
  rewrite H2, H4. by replace (10 * (n / 10) + n mod 10) with n by lia.
Qed.

(** *** Fractions of a second *)

Fixpoint digits (k : nat) (n : Z) : bytes :=
  match k with O => [] | S k => digits k (n / 10) ++ [digit_of (n mod 10)] end.

Fixpoint trim_zeros (l : bytes) : bytes :=
  match l with
  | [] => []
  | c :: r => match trim_zeros r with [] => if Ascii.eqb c "0" then [] else [c] | r' => c :: r' end
  end.

Definition frac_text (nsec : Z) : bytes :=
  match trim_zeros (digits 9 nsec) with [] => [] | f => "."%char :: f end.

(** Digits after the ninth are dropped. *)
Definition nanos (f : bytes) : Z := dec_value (take 9 (f ++ repeat "0"%char 9)).

Definition nsec_p (l : bytes) : option (Z * bytes) :=
  match l with
  | c :: r => if Ascii.eqb c "." then '(f, r) ← digits1 r; Some (nanos f, r) else Some (0, l)
  | [] => Some (0, [])
  end.

Lemma trim_zeros_spec l : exists k, l = trim_zeros l ++ repeat "0"%char k.
Proof.
  induction l as [|c l [k IH]]; [by exists 0%nat|]. cbn. destruct (trim_zeros l) as [|c' r].
  - destruct (Ascii.eqb_spec c "0") as [->|]; [exists (S k)|exists k]; cbn in *; by rewrite IH at 1.
  - exists k. cbn in *. by rewrite IH at 1.
Qed.

Lemma digits_spec k : forall n, 0 <= n < 10 ^ Z.of_nat k ->
  length (digits k n) = k /\ forallb is_digit (digits k n) = true /\ dec_value (digits k n) = n.
Proof.
  induction k as [|k IH]; intros n H; [cbn in *; repeat split; lia|].
  rewrite Nat2Z.inj_succ, Z.pow_succ_r in H by lia.
  pose proof (Z.div_mod n 10 ltac:(lia)) as E. pose proof (Z.mod_pos_bound n 10 ltac:(lia)) as B.
  destruct (IH (n / 10)) as (H1 & H2 & H3); [lia|]. destruct (digit_of_spec (n mod 10)) as (H4 & H5 & _); [lia|].
  cbn [digits]. rewrite length_app, forallb_app, dec_value_app, H1, H2, H3. cbn [length forallb fold_left]. rewrite H4, H5.
  repeat split; lia.
Qed.

Lemma nanos_trimmed f k : length (f ++ repeat "0"%char k) = 9%nat -> nanos f = dec_value (f ++ repeat "0"%char k).
Proof.
  intros H. unfold nanos. f_equal. pose proof H as H'. rewrite length_app, repeat_length in H'.
  replace (repeat "0"%char 9) with (repeat "0"%char k ++ repeat "0"%char (9 - k)) by (rewrite <- repeat_app; f_equal; lia).
  rewrite app_assoc. by apply take_app_length'.
Qed.

Lemma nsec_read n c l : 0 <= n < 10 ^ 9 -> is_digit c = false -> Ascii.eqb c "." = false ->
  nsec_p (frac_text n ++ c :: l) = Some (n, c :: l).
Proof.
  intros H Hc Hdot. destruct (digits_spec 9 n) as (H1 & H2 & H3); [exact H|]. unfold frac_text.
  destruct (trim_zeros_spec (digits 9 n)) as [k Hk].
  assert (Hv : nanos (trim_zeros (digits 9 n)) = n).
  { rewrite (nanos_trimmed _ k); rewrite <- Hk; done. }
  destruct (trim_zeros (digits 9 n)) as [|d f] eqn:Ef.
  - cbn [app nsec_p]. rewrite Hdot. by change (nanos []) with 0 in Hv; subst.
  - cbn [app nsec_p]. change (Ascii.eqb "." ".") with true. cbn iota. unfold digits1.
    change (d :: f ++ c :: l) with ((d :: f) ++ c :: l). rewrite span_digits; [|rewrite Hk, forallb_app in H2; by apply andb_true_iff in H2 as [? _]|done].
    cbn [mbind option_bind]. by rewrite Hv.
Qed.

(** ** Times *)

Definition date_text (y m d : Z) : bytes :=
  two (y / 100) ++ two (y mod 100) ++ "-"%char :: two m ++ "-"%char :: two d.

Definition clock_text (sec : Z) : bytes :=
  two (sec / 3600) ++ ":"%char :: two (sec / 60 mod 60) ++ ":"%char :: two (sec mod 60).

Definition zone_text (minutes : Z) : bytes :=
  if minutes =? 0 then ["Z"%char]
  else (if minutes <? 0 then "-"%char else "+"%char) :: two (Z.abs minutes / 60) ++ ":"%char :: two (Z.abs minutes mod 60).

Definition day_seconds : Z := 86400.

(** [t.Format(time.RFC3339Nano)] at [zone] minutes east of UTC. *)
Definition Format_RFC3339Nano (zone : Z) (t : Time) : bytes :=
  let local := t + zone * minute in
  let secs := local / second in
  let '(y, m, d) := date_of (secs / day_seconds) in
  date_text y m d ++ "T"%char :: clock_text (secs mod day_seconds) ++ frac_text (local mod second) ++ zone_text zone.

Definition date_p (l : bytes) : option (Z * bytes) :=
  '(c, l) ← two_p l; '(e, l) ← two_p l; l ← byte_p "-" l;
  let y := 100 * c + e in
  '(m, l) ← two_p l ≫= in_bounds 1 12; l ← byte_p "-" l;
  '(d, l) ← two_p l ≫= in_bounds 1 (month_days (leap y) m);
  Some (days_of y m d, l).

Definition clock_p (l : bytes) : option (Z * bytes) :=
  '(h, l) ← two_p l ≫= in_bounds 0 23; l ← byte_p ":" l;
  '(m, l) ← two_p l ≫= in_bounds 0 59; l ← byte_p ":" l;
  '(s, l) ← two_p l ≫= in_bounds 0 59;
  Some (3600 * h + 60 * m + s, l).

Definition zone_p (l : bytes) : option (Z * bytes) :=
  match l with
  | c :: r =>
      if Ascii.eqb c "Z" then Some (0, r)
      else if Ascii.eqb c "+" || Ascii.eqb c "-" then
        '(h, r) ← two_p r ≫= in_bounds 0 23; r ← byte_p ":" r; '(m, r) ← two_p r ≫= in_bounds 0 59;
        Some ((if Ascii.eqb c "-" then -1 else 1) * (60 * h + m), r)
      else None
  | [] => None
  end.

(** [time.Parse(time.RFC3339, ...)] in the strict form of [UnmarshalJSON]. *)
Definition Parse_RFC3339 (l : bytes) : option Time :=
  '(days, l) ← date_p l; l ← byte_p "T" l; '(secs, l) ← clock_p l; '(nsec, l) ← nsec_p l; '(zone, l) ← zone_p l;
  match l with
  | [] => Some ((days * day_seconds + secs) * second + nsec - zone * minute)
  | _ => None
  end.

(** The local year has four digits, and the offset less than a day. *)
Definition time_ok (zone : Z) (t : Time) : Prop :=
  -1440 < zone < 1440 /\ 0 <= t + zone * minute < year_start 10000 * day_seconds * second.

Lemma byte_same c l : byte_p c (c :: l) = Some l.
Proof. cbn. by rewrite Ascii.eqb_refl. Qed.

Lemma two_bounded lo hi n l : 0 <= n < 100 -> lo <= n <= hi -> two_p (two n ++ l) ≫= in_bounds lo hi = Some (n, l).
Proof.
  intros H1 H2. rewrite two_read by done. cbn [mbind option_bind]. unfold in_bounds. cbn [fst].
  by rewrite (proj2 (Z.leb_le lo n)), (proj2 (Z.leb_le n hi)) by lia.
Qed.

Lemma month_days_bound l m : 1 <= m <= 12 -> 0 <= month_start l m /\ 1 <= month_days l m <= 31.
Proof.
  intros H. assert (Hk : exists k, (k < 12)%nat /\ m = Z.of_nat (S k)) by (exists (Z.to_nat (m - 1)); lia).
  destruct Hk as (k & Hk & ->). destruct l; do 12 (destruct k as [|k]; [vm_compute; repeat split; discriminate|]); lia.
Qed.

Lemma date_read y m d l : 0 <= y < 10000 -> 1 <= m <= 12 -> 1 <= d <= month_days (leap y) m ->
  date_p (date_text y m d ++ l) = Some (days_of y m d, l).
Proof.
  intros Hy Hm Hd. pose proof (month_days_bound (leap y) m Hm). pose proof (Z.div_mod y 100 ltac:(lia)) as E.
  pose proof (Z.mod_pos_bound y 100 ltac:(lia)). unfold date_text, date_p.
  rewrite <- !app_assoc. rewrite two_read by lia. cbn [mbind option_bind]. rewrite two_read by lia. cbn [mbind option_bind app].
  rewrite byte_same. cbn [mbind option_bind]. rewrite <- app_assoc.
  replace (100 * (y / 100) + y mod 100) with y by lia.
  change (two_p ?x ≫= in_bounds ?a ?b) with (two_p x ≫= in_bounds a b). rewrite (two_bounded 1 12) by lia. cbn [mbind option_bind app].
  rewrite byte_same. cbn [mbind option_bind].
  rewrite (two_bounded 1 (month_days (leap y) m)) by lia. reflexivity.
Qed.

Lemma clock_read s l : 0 <= s < day_seconds -> clock_p (clock_text s ++ l) = Some (s, l).
Proof.
  unfold day_seconds. intros H. unfold clock_text, clock_p.
  pose proof (Z.div_mod s 60 ltac:(lia)) as E1. pose proof (Z.div_mod (s / 60) 60 ltac:(lia)) as E2.
  pose proof (Z.mod_pos_bound s 60 ltac:(lia)). pose proof (Z.mod_pos_bound (s / 60) 60 ltac:(lia)).
  assert (E3 : s / 3600 = s / 60 / 60) by (rewrite Z.div_div by lia; done). rewrite E3.
  rewrite <- app_assoc. rewrite (two_bounded 0 23) by lia. cbn [mbind option_bind app]. rewrite byte_same. cbn [mbind option_bind].
  rewrite <- app_assoc. rewrite (two_bounded 0 59) by lia. cbn [mbind option_bind app]. rewrite byte_same. cbn [mbind option_bind].
  rewrite (two_bounded 0 59) by lia. cbn [mbind option_bind]. do 2 f_equal. lia.
Qed.

Lemma zone_read z : -1440 < z < 1440 -> zone_p (zone_text z) = Some (z, []).
Proof.
  intros H. unfold zone_text. destruct (Z.eqb_spec z 0) as [->|Hz]; [reflexivity|].
  pose proof (Z.div_mod (Z.abs z) 60 ltac:(lia)) as E. pose proof (Z.mod_pos_bound (Z.abs z) 60 ltac:(lia)).
  unfold zone_p. rewrite <- (app_nil_r (two (Z.abs z mod 60))).
  destruct (Z.ltb_spec z 0); repeat (match goal with |- context [Ascii.eqb ?a ?b] =>
      let x := eval vm_compute in (Ascii.eqb a b) in change (Ascii.eqb a b) with x end); cbn [orb]; cbn iota;
    (rewrite (two_bounded 0 23) by lia); cbn [mbind option_bind app]; rewrite byte_same; cbn [mbind option_bind];
    (rewrite (two_bounded 0 59) by lia); cbn [mbind option_bind]; do 2 f_equal; rewrite <- E; lia.
Qed.

Lemma zone_head z : exists c r, zone_text z = c :: r /\ is_digit c = false /\ Ascii.eqb c "." = false.
Proof. unfold zone_text. destruct (z =? 0), (z <? 0); eexists _, _; by repeat split. Qed.

Lemma year_start_mono y : 10000 <= y -> year_start 10000 <= year_start y.
Proof.
  intros H. unfold year_start. cbv zeta. change (365 * (10000 - 1) + (10000 - 1) / 4 - (10000 - 1) / 100 + (10000 - 1) / 400) with 3652059.
  set (n := y - 1). assert (9999 <= n) by lia. pose proof (Z.div_mod n 4 ltac:(lia)). pose proof (Z.mod_pos_bound n 4 ltac:(lia)).
  pose proof (Z.div_mod n 100 ltac:(lia)). pose proof (Z.mod_pos_bound n 100 ltac:(lia)).
  pose proof (Z.div_mod n 400 ltac:(lia)). pose proof (Z.mod_pos_bound n 400 ltac:(lia)). lia.
Qed.

(** The instant survives, whatever the location it is printed in. *)
Lemma Parse_Format zone t : time_ok zone t -> Parse_RFC3339 (Format_RFC3339Nano zone t) = Some t.
Proof.
  intros [Hz Ht]. unfold Format_RFC3339Nano. set (local := t + zone * minute) in *.
  assert (Hs : second = 10 ^ 9) by reflexivity.
  pose proof (Z.div_mod local second ltac:(lia)) as E1. pose proof (Z.mod_pos_bound local second ltac:(lia)) as B1.
  set (secs := local / second) in *. pose proof (Z.div_mod secs day_seconds ltac:(done)) as E2.
  pose proof (Z.mod_pos_bound secs day_seconds ltac:(done)) as B2. set (days := secs / day_seconds) in *.
  assert (Hdays : 0 <= days < year_start 10000).
  { assert (0 <= secs < year_start 10000 * day_seconds).
    { split; [apply Z.div_pos; [apply Ht|done]|]. apply Z.div_lt_upper_bound; [done|]. rewrite Z.mul_comm. apply Ht. }
    split; [apply Z.div_pos; [lia|done]|]. apply Z.div_lt_upper_bound; [done|]. rewrite Z.mul_comm. lia. }
  destruct (date_of days) as [[y m] d] eqn:Ed.
  destruct (date_of_spec days y m d) as (Hy & Hm & Hd & Hdays'); [lia|done|].
  assert (Hy' : y < 10000).
  { apply Z.nle_gt. intros Hge. unfold days_of in Hdays'.
    pose proof (year_start_mono y Hge).
    pose proof (month_days_bound (leap y) m Hm). lia. }
  unfold Parse_RFC3339. rewrite date_read by lia. cbn [mbind option_bind]. rewrite byte_same. cbn [mbind option_bind].
  rewrite clock_read by done. cbn [mbind option_bind]. destruct (zone_head zone) as (c & r & Ec & Hc1 & Hc2). rewrite Ec.
  rewrite nsec_read by done. cbn [mbind option_bind]. rewrite <- Ec, zone_read by lia. cbn [mbind option_bind].
  rewrite Hdays'. f_equal. unfold local, minute in *. lia.
Qed.

(** ** The codec *)

(** The local time zone of a process: minutes east of UTC, for every instant. *)
Class Location := { zone_of : Time -> Z }.

(** [Time.MarshalJSON] fails outside the years 0 to 9999 and for offsets of a day and more. *)
Definition enc_time `{Location} (t : Time) : option json :=
  let local := t + zone_of t * minute in
  if (-1440 <? zone_of t) && (zone_of t <? 1440) &&
     (year_start 0 * day_seconds * second <=? local) && (local <? year_start 10000 * day_seconds * second)
  then Some (JStr (of_bytes (Format_RFC3339Nano (zone_of t) t))) else None.

(** [Time.UnmarshalJSON]; it does not expand escapes, which printed times do not have. *)
Definition dec_time (cur : Time) (j : json) : option Time :=
  match j with JNull => Some cur | JStr s => Parse_RFC3339 (to_bytes s) | _ => None end.

Definition time_codec `{Location} : Codec Time.
Proof.
  refine {| c_zero := 0; c_enc := enc_time; c_dec := dec_time; c_ok t := time_ok (zone_of t) t |}.
  intros t j Hok. unfold enc_time. cbv zeta. case_match; [|done]. intros [= <-]. cbn. rewrite to_of_bytes. by apply Parse_Format.
Defined.
