(* ===== verification/Budget.v ===== *)
(** [internal/runtime/base/budget.go]: the per-run token and cost tracker.  Every method of
    the Go type locks one mutex for its whole body, so each is one atomic step here; the
    [int64] accumulations wrap. *)
From S2P Require Import Prelude GoLib Types.

#[local] Open Scope string_scope.
#[local] Open Scope list_scope.
#[local] Open Scope Z_scope.

Definition nanoUSDPerUSD : f64 := f64_of_Z 1000000000.
Definition defaultMaxApprovals : Z := 5.

Record BudgetTracker := {
  bt_cfg : BudgetConfig;
  totalTokens : Z;
  totalCostNanoUSD : Z;
  promptRateNanoUSDPerToken : Z;
  completionRateNanoUSDPerToken : Z;
  maxCostNanoUSD : Z;
  watermarkTokens : Z;
  watermarkCostNanoUSD : Z;
  approvalCount : Z;
  effectiveMaxApproval : Z;
  hasAdded : bool }.

Definition positive_f64 (x : f64) : bool := f64_ltb f64_zero x.

(** [int64(math.Round(x * k))] *)
Definition round_to_int64 (x k : f64) : Z := f64_to_int64 (math_Round (f64_mul x k)).

Definition NewBudgetTracker (cfg : option BudgetConfig) : option BudgetTracker :=
  match cfg with
  | None => None
  | Some cfg => Some
      {| bt_cfg := cfg;
         totalTokens := 0; totalCostNanoUSD := 0;
         promptRateNanoUSDPerToken :=
           if positive_f64 (cfg_PromptUSDPer1M cfg)
           then round_to_int64 (cfg_PromptUSDPer1M cfg) (f64_of_Z 1000) else 0;
         completionRateNanoUSDPerToken :=
           if positive_f64 (cfg_CompletionUSDPer1M cfg)
           then round_to_int64 (cfg_CompletionUSDPer1M cfg) (f64_of_Z 1000) else 0;
         maxCostNanoUSD :=
           if positive_f64 (cfg_MaxCostUSD cfg)
           then round_to_int64 (cfg_MaxCostUSD cfg) nanoUSDPerUSD else 0;
         watermarkTokens := 0; watermarkCostNanoUSD := 0;
         approvalCount := 0;
         effectiveMaxApproval :=
           if cfg_MaxApprovals cfg <=? 0 then defaultMaxApprovals else cfg_MaxApprovals cfg;
         hasAdded := false |}
  end.

(** The token window of the next breach. *)
Definition token_limit (cfg : BudgetConfig) : Z :=
  if cfg_ApprovalExtraTokens cfg =? 0 then cfg_MaxTokens cfg else cfg_ApprovalExtraTokens cfg.

Definition nano_to_usd (n : Z) : f64 := f64_div (f64_of_Z n) nanoUSDPerUSD.

Definition check_cost (t : BudgetTracker) : option BudgetExceededError :=
  if positive_f64 (cfg_MaxCostUSD (bt_cfg t)) then
    let extra := cfg_ApprovalExtraCostUSD (bt_cfg t) in
    let extraNano := round_to_int64 extra nanoUSDPerUSD in
    let limitNano := if extraNano =? 0 then maxCostNanoUSD t else extraNano in
    let limit := if extraNano =? 0 then cfg_MaxCostUSD (bt_cfg t) else extra in
    if wrap64 (watermarkCostNanoUSD t + limitNano) <=? totalCostNanoUSD t then
      Some {| be_Kind := BudgetExceededKindCost; be_TotalTokens := 0;
              be_TotalCostUSD := nano_to_usd (totalCostNanoUSD t);
              be_LimitTokens := 0; be_LimitCostUSD := limit;
              be_WatermarkTokens := 0;
              be_WatermarkCostUSD := nano_to_usd (watermarkCostNanoUSD t) |}
    else None
  else None.

Definition checkLimits (t : BudgetTracker) : option BudgetExceededError :=
  if (0 <? cfg_MaxTokens (bt_cfg t)) &&
     (wrap64 (watermarkTokens t + token_limit (bt_cfg t)) <=? totalTokens t)
  then Some {| be_Kind := BudgetExceededKindTokens; be_TotalTokens := totalTokens t;
               be_TotalCostUSD := f64_zero; be_LimitTokens := token_limit (bt_cfg t);
               be_LimitCostUSD := f64_zero; be_WatermarkTokens := watermarkTokens t;
               be_WatermarkCostUSD := f64_zero |}
  else check_cost t.

(** [t] with new totals / watermarks / counters. *)
Definition with_totals (t : BudgetTracker) (tokens cost : Z) (added : bool) : BudgetTracker :=
  {| bt_cfg := bt_cfg t; totalTokens := tokens; totalCostNanoUSD := cost;
     promptRateNanoUSDPerToken := promptRateNanoUSDPerToken t;
     completionRateNanoUSDPerToken := completionRateNanoUSDPerToken t;
     maxCostNanoUSD := maxCostNanoUSD t; watermarkTokens := watermarkTokens t;
     watermarkCostNanoUSD := watermarkCostNanoUSD t; approvalCount := approvalCount t;
     effectiveMaxApproval := effectiveMaxApproval t; hasAdded := added |}.

Definition with_watermark (t : BudgetTracker) (tokens cost approvals : Z) : BudgetTracker :=
  {| bt_cfg := bt_cfg t; totalTokens := totalTokens t; totalCostNanoUSD := totalCostNanoUSD t;
     promptRateNanoUSDPerToken := promptRateNanoUSDPerToken t;
     completionRateNanoUSDPerToken := completionRateNanoUSDPerToken t;
     maxCostNanoUSD := maxCostNanoUSD t; watermarkTokens := tokens;
     watermarkCostNanoUSD := cost; approvalCount := approvals;
     effectiveMaxApproval := effectiveMaxApproval t; hasAdded := hasAdded t |}.

(** The accumulation part of [Add]. *)
Definition accumulate (t : BudgetTracker) (u : LLMUsage) : BudgetTracker :=
  with_totals t (wrap64 (totalTokens t + u_TotalTokens u))
    (wrap64 (totalCostNanoUSD t +
       wrap64 (wrap64 (u_PromptTokens u * promptRateNanoUSDPerToken t) +
               wrap64 (u_CompletionTokens u * completionRateNanoUSDPerToken t))))
    true.

Definition Add (t : option BudgetTracker) (u : option LLMUsage)
    : option BudgetExceededError * option BudgetTracker :=
  match t, u with
  | Some t, Some u => let t' := accumulate t u in (checkLimits t', Some t')
  | _, _ => (None, t)
  end.

Definition Check_ (t : option BudgetTracker) : option BudgetExceededError :=
  match t with None => None | Some t => checkLimits t end.

Definition AdvanceWatermark (t : option BudgetTracker) : bool * option BudgetTracker :=
  match t with
  | None => (true, None)
  | Some t => (true, Some (with_watermark t (totalTokens t) (totalCostNanoUSD t)
                             (wrap64 (approvalCount t + 1))))
  end.

Definition ApprovalsExhausted (t : option BudgetTracker) : bool :=
  match t with None => false | Some t => effectiveMaxApproval t <=? approvalCount t end.

Definition ApprovalCount (t : option BudgetTracker) : Z :=
  match t with None => 0 | Some t => approvalCount t end.

Definition Totals (t : option BudgetTracker) : Z * f64 :=
  match t with None => (0, f64_zero) | Some t => (totalTokens t, nano_to_usd (totalCostNanoUSD t)) end.

Definition WatermarkTotals (t : option BudgetTracker) : Z * f64 :=
  match t with
  | None => (0, f64_zero)
  | Some t => (watermarkTokens t, nano_to_usd (watermarkCostNanoUSD t))
  end.

(** [None]: the call panics. *)
Definition RestoreState (t : option BudgetTracker) (tokens : Z) (costUSD : f64) (wmTokens : Z)
    (wmCostUSD : f64) : option (option BudgetTracker) :=
  match t with
  | None => Some None
  | Some t =>
      if hasAdded t then None
      else Some (Some (with_watermark
             (with_totals t tokens (round_to_int64 costUSD nanoUSDPerUSD) (hasAdded t))
             wmTokens (round_to_int64 wmCostUSD nanoUSDPerUSD) (approvalCount t)))
  end.

(** ** Theorems *)

Section laws.
Implicit Types t : BudgetTracker.

Lemma accumulate_cfg t u : bt_cfg (accumulate t u) = bt_cfg t.
Proof. done. Qed.

Lemma accumulate_comm t u v : accumulate (accumulate t u) v = accumulate (accumulate t v) u.
Proof.
  unfold accumulate, with_totals; simpl. f_equal; rewrite !wrap64_wrap_l; f_equal; lia.
Qed.

(** Which limit a breach reports, and when there is one. *)
Lemma checkLimits_tokens t :
  0 < cfg_MaxTokens (bt_cfg t) ->
  (exists e, checkLimits t = Some e /\ be_Kind e = BudgetExceededKindTokens) <->
  wrap64 (watermarkTokens t + token_limit (bt_cfg t)) <= totalTokens t.
Proof.
  intros H. unfold checkLimits. apply Z.ltb_lt in H as ->. simpl.
  destruct (_ <=? _) eqn:E; crush_bool; [naive_solver|]. split; [|lia].
  intros (e & He & Hk). unfold check_cost in He. repeat split_match; simplify_eq.
Qed.

Lemma checkLimits_None_tokens t :
  0 < cfg_MaxTokens (bt_cfg t) -> checkLimits t = None ->
  totalTokens t < wrap64 (watermarkTokens t + token_limit (bt_cfg t)).
Proof.
  intros H Hn. unfold checkLimits in Hn. apply Z.ltb_lt in H. rewrite H in Hn. simpl in Hn.
  destruct (_ <=? _) eqn:E; crush_bool; [done|lia].
Qed.
End laws.

(** Any list of concurrent additions. *)
Definition add_all (t : BudgetTracker) (us : list LLMUsage) : BudgetTracker :=
  fold_left accumulate us t.

(** Goroutines of one run share the tracker: whatever the order in which their usages
    reach [Add], the tracker ends in the same state. *)
Theorem add_order_irrelevant (t : BudgetTracker) (us vs : list LLMUsage) :
  us ≡ₚ vs -> add_all t us = add_all t vs.
Proof.
  intros H. revert t. induction H as [|u us vs _ IH|u v us|us vs ws _ IH1 _ IH2]; intros t; simpl.
  - done.
  - apply IH.
  - by rewrite accumulate_comm.
  - by rewrite IH1.
Qed.

(** ** A run's use of the tracker

    One step of the enforcing (root) run whose model calls use between 0 and [U] tokens each:
    a call's usage is added; a breach, found then or at the check after a round's tools,
    continues the run only through an approval, and only while approvals are not exhausted
    ([applyBudgetExceeded]).  [LoopBudget.v] proves that runs only take these steps. *)
Section steps.
Context (U : Z).

Definition call_usage (u : LLMUsage) : Prop := 0 <= u_TotalTokens u <= U.

Inductive run_step : BudgetTracker -> BudgetTracker -> Prop :=
| step_under t u t' :
    call_usage u -> Add (Some t) (Some u) = (None, Some t') -> run_step t t'
| step_approved t u e t' t'' :
    call_usage u -> Add (Some t) (Some u) = (Some e, Some t') ->
    ApprovalsExhausted (Some t') = false ->
    AdvanceWatermark (Some t') = (true, Some t'') ->
    run_step t t''
| step_rechecked t e t' :
    Check_ (Some t) = Some e -> ApprovalsExhausted (Some t) = false ->
    AdvanceWatermark (Some t) = (true, Some t') -> run_step t t'.

Definition run_reachable : BudgetTracker -> BudgetTracker -> Prop := rtc run_step.
End steps.

Section bounds.
Context (cfg : BudgetConfig) (t0 : BudgetTracker) (U : Z).
Hypothesis (Hnew : NewBudgetTracker (Some cfg) = Some t0).
Hypothesis (Htok : 0 < cfg_MaxTokens cfg).
Hypothesis (Hlim : 0 < token_limit cfg).
Hypothesis (HU : 0 <= U).

Let maxA := effectiveMaxApproval t0.
Let window := token_limit cfg + U.

Hypothesis (Hfit : (maxA + 2) * window <= max_int64).

Definition run_inv (t : BudgetTracker) : Prop :=
  bt_cfg t = cfg /\ effectiveMaxApproval t = maxA /\
  0 <= approvalCount t <= maxA /\
  0 <= watermarkTokens t <= approvalCount t * window /\
  watermarkTokens t <= totalTokens t < watermarkTokens t + token_limit cfg.

Lemma maxA_pos : 0 < maxA.
Proof.
  clear Hfit. unfold maxA. injection Hnew as <-. simpl. destruct (_ <=? 0) eqn:E; crush_bool; [done|lia].
Qed.

Lemma window_fits k : 0 <= k <= maxA -> k * window + token_limit cfg <= max_int64.
Proof. intros. pose proof maxA_pos. unfold window in *. nia. Qed.

Lemma maxA_fits : maxA + 1 <= max_int64.
Proof. pose proof maxA_pos. unfold window in *. nia. Qed.

Lemma run_inv_start : run_inv t0.
Proof.
  pose proof maxA_pos. unfold run_inv, maxA. clear Hfit. injection Hnew as <-. simpl in *.
  repeat split; try lia.
Qed.

Lemma run_inv_step t t' : run_inv t -> run_step U t t' -> run_inv t'.
Proof.
  intros (Hcfg & Hmax & Ha & Hw & Ht) Hs.
  pose proof (window_fits (approvalCount t) Ha) as Hf. pose proof maxA_fits.
  assert (Hwrap : forall z, 0 <= z <= max_int64 -> wrap64 z = z).
  { intros z Hz. apply wrap64_id. unfold in64, min_int64. lia. }
  inversion Hs as [? u ? Hu Hadd|? u e t1 ? Hu Hadd Hex Hadv|? e ? Hchk Hex Hadv]; subst.
  - injection Hadd as Hchk Ht1; subst. unfold call_usage in Hu.
    apply checkLimits_None_tokens in Hchk; [|by rewrite accumulate_cfg, Hcfg].
    simpl in *. rewrite Hcfg in *. rewrite (Hwrap (watermarkTokens t + _)) in Hchk by (unfold window in *; lia).
    rewrite (Hwrap (totalTokens t + _)) in * by (unfold window in *; nia).
    unfold run_inv; simpl. rewrite (Hwrap (totalTokens t + _)) by (unfold window in *; nia).
    repeat split; try done; lia.
  - injection Hadd as Hchk Ht1; subst. injection Hadv as <-. unfold call_usage in Hu.
    simpl in *. crush_bool. rewrite Hmax in Hex.
    assert (approvalCount t < maxA) by (clear - Hex Hmax; lia).
    unfold run_inv; simpl. rewrite (Hwrap (approvalCount t + 1)) by lia.
    rewrite (Hwrap (totalTokens t + _)) by (unfold window in *; nia).
    repeat split; try done; unfold window in *; try lia; try nia.
  - injection Hadv as <-. simpl in *. crush_bool. rewrite Hmax in Hex.
    assert (approvalCount t < maxA) by (clear - Hex Hmax; lia).
    unfold run_inv; simpl. rewrite (Hwrap (approvalCount t + 1)) by lia.
    repeat split; try done; unfold window in *; try lia; try nia.
Qed.

Lemma run_inv_reachable t : run_reachable U t0 t -> run_inv t.
Proof.
  assert (Hgen : forall t1 t2, rtc (run_step U) t1 t2 -> run_inv t1 -> run_inv t2).
  { induction 1; [done|]. intros Hi. apply IHrtc. by eapply run_inv_step. }
  intros H. by apply (Hgen t0), run_inv_start.
Qed.
End bounds.

(** While an enforcing run continues, its approvals never exceed the configured maximum and
    its total tokens stay below [(MaxApprovals + 1)] windows, each window being the
    configured limit plus the usage of one call.  Stated of runs in [LoopBudget.v]. *)
Lemma reachable_tokens_bounded cfg t0 U t :
  NewBudgetTracker (Some cfg) = Some t0 ->
  0 < cfg_MaxTokens cfg -> 0 < token_limit cfg -> 0 <= U ->
  (effectiveMaxApproval t0 + 2) * (token_limit cfg + U) <= max_int64 ->
  run_reachable U t0 t ->
  0 <= approvalCount t <= effectiveMaxApproval t0 /\
  totalTokens t < (effectiveMaxApproval t0 + 1) * (token_limit cfg + U).
Proof.
  intros Hnew Htok Hlim HU Hfit Hr.
  destruct (run_inv_reachable _ _ _ Hnew Htok Hlim HU Hfit t Hr) as (_ & _ & Ha & Hw & Ht).
  split; [done|]. nia.
Qed.

(** The call whose breach stops the run adds at most its own usage. *)
Lemma stopped_tokens_bounded cfg t0 U t u :
  NewBudgetTracker (Some cfg) = Some t0 ->
  0 < cfg_MaxTokens cfg -> 0 < token_limit cfg -> 0 <= U ->
  (effectiveMaxApproval t0 + 2) * (token_limit cfg + U) <= max_int64 ->
  run_reachable U t0 t -> call_usage U u ->
  approvalCount (accumulate t u) <= effectiveMaxApproval t0 /\
  totalTokens (accumulate t u) < (effectiveMaxApproval t0 + 1) * (token_limit cfg + U) + U.
Proof.
  intros Hnew Htok Hlim HU Hfit Hr [Hu1 Hu2].
  destruct (run_inv_reachable _ _ _ Hnew Htok Hlim HU Hfit t Hr) as (_ & _ & Ha & Hw & Ht).
  simpl. rewrite wrap64_id by (unfold in64, min_int64; nia). split; [lia|nia].
Qed.

(** Approving a token breach really un-blocks the run: right after [AdvanceWatermark] the
    token limit is not exceeded (no immediate second pause), as long as the window is
    positive and the sum fits an [int64]. *)
Theorem advance_clears_token_breach t t' :
  AdvanceWatermark (Some t) = (true, Some t') ->
  0 < token_limit (bt_cfg t) -> in64 (totalTokens t) ->
  totalTokens t + token_limit (bt_cfg t) <= max_int64 ->
  Check_ (Some t') = check_cost t'.
Proof.
  intros H Hl Hin Hfit. injection H as <-. unfold Check_, checkLimits. simpl.
  rewrite wrap64_id by (unfold in64 in *; lia).
  replace (totalTokens t + token_limit (bt_cfg t) <=? totalTokens t) with false
    by (symmetry; apply Z.leb_gt; lia).
  by rewrite andb_false_r.
Qed.

(** [AdvanceWatermark] always answers [true] and counts the approval, also once the
    approvals are exhausted (its comment promises [false] there). *)
Theorem advance_never_refuses t :
  ApprovalsExhausted (Some t) = true -> in64 (approvalCount t + 1) ->
  exists t', AdvanceWatermark (Some t) = (true, Some t') /\
    ApprovalCount (Some t') = ApprovalCount (Some t) + 1 /\
    WatermarkTotals (Some t') = Totals (Some t).
Proof. intros _ Hin. eexists. split; [done|]. simpl. by rewrite wrap64_id. Qed.

(** [Add] records the usage whether or not it reports a breach, and reports exactly the
    breach [Check] reports of the updated tracker, tokens before cost. *)
Theorem Add_spec t u r t' :
  Add (Some t) (Some u) = (r, Some t') ->
  totalTokens t' = wrap64 (totalTokens t + u_TotalTokens u) /\
  hasAdded t' = true /\ watermarkTokens t' = watermarkTokens t /\
  approvalCount t' = approvalCount t /\ r = Check_ (Some t') /\
  (0 < cfg_MaxTokens (bt_cfg t) ->
   wrap64 (watermarkTokens t + token_limit (bt_cfg t)) <= totalTokens t' ->
   exists e, r = Some e /\ be_Kind e = BudgetExceededKindTokens).
Proof.
  intros [= <- <-]. repeat split; try done. intros Hpos Hle.
  by apply (checkLimits_tokens (accumulate t u)).
Qed.

(** ** Witnesses *)

Definition sample_cfg : BudgetConfig :=
  {| cfg_MaxTokens := 100; cfg_MaxCostUSD := f64_zero; cfg_PromptUSDPer1M := f64_of_Z 3;
     cfg_CompletionUSDPer1M := f64_lit 25 10; cfg_OnExceeded := BudgetWaitForApproval;
     cfg_ApprovalExtraTokens := 0; cfg_ApprovalExtraCostUSD := f64_zero; cfg_MaxApprovals := 2 |}.

Definition usage (p c : Z) : LLMUsage :=
  {| u_PromptTokens := p; u_CompletionTokens := c; u_TotalTokens := p + c;
     u_CachedPromptTokens := 0; u_ReasoningTokens := 0 |}.

Definition sample_t0 : BudgetTracker :=
  match NewBudgetTracker (Some sample_cfg) with Some t => t | None => with_totals
    {| bt_cfg := sample_cfg; totalTokens := 0; totalCostNanoUSD := 0; promptRateNanoUSDPerToken := 0;
       completionRateNanoUSDPerToken := 0; maxCostNanoUSD := 0; watermarkTokens := 0;
       watermarkCostNanoUSD := 0; approvalCount := 0; effectiveMaxApproval := 0; hasAdded := false |}
    0 0 false end.

Example rates : promptRateNanoUSDPerToken sample_t0 = 3000 /\ completionRateNanoUSDPerToken sample_t0 = 2500.
Proof. vm_compute. auto. Qed.

Lemma add_order_irrelevant_witness :
  add_all sample_t0 [usage 1 2; usage 3 4] = add_all sample_t0 [usage 3 4; usage 1 2].
Proof. apply add_order_irrelevant. constructor. Defined.

Example reachable_example : run_reachable 50 sample_t0 (accumulate sample_t0 (usage 30 20)).
Proof.
  apply rtc_once, (step_under 50 _ (usage 30 20)); [split; vm_compute; congruence|reflexivity].
Qed.

Definition breached : BudgetTracker := accumulate sample_t0 (usage 80 40).

Lemma advance_clears_token_breach_witness :
  Check_ (Some breached) <> None /\ Check_ (AdvanceWatermark (Some breached)).2 = None.
Proof.
  split; [vm_compute; congruence|].
  etransitivity; [apply (advance_clears_token_breach breached)|]; try (vm_compute; congruence).
  vm_compute; split; congruence.
Defined.

Lemma advance_never_refuses_witness :
  exists t', AdvanceWatermark (Some (with_watermark breached 0 0 2)) = (true, Some t') /\
    ApprovalCount (Some t') = 2 + 1 /\ WatermarkTotals (Some t') = Totals (Some breached).
Proof.
  apply (advance_never_refuses (with_watermark breached 0 0 2)); [vm_compute; reflexivity|].
  vm_compute; split; congruence.
Defined.

Lemma Add_spec_witness :
  exists r t', Add (Some sample_t0) (Some (usage 80 40)) = (r, Some t') /\
    totalTokens t' = wrap64 (0 + 120) /\ r <> None.
Proof.
  destruct (Add (Some sample_t0) (Some (usage 80 40))) as [r [t'|]] eqn:E; [|discriminate E].
  exists r, t'. split; [done|]. destruct (Add_spec _ _ _ _ E) as (H & _ & _ & _ & _ & Hb).
  split; [exact H|]. destruct Hb as (e & -> & _); [vm_compute; reflexivity| |done].
  rewrite H. vm_compute. congruence.
Defined.
