(* ===== verification/CircuitBreaker.v ===== *)
(** [internal/runtime/base/circuit_breaker.go]: the per-run tracker that skips a tool after
    repeated failures (the same arguments several times in a row, or two argument sets
    alternating).  A [nil] receiver is [None]; the map of tool states is a [gmap]. *)
From S2P Require Import Prelude GoLib Types Codec.

#[local] Open Scope string_scope.
#[local] Open Scope list_scope.
#[local] Open Scope Z_scope.

Record ToolState := {
  LastHash : string;
  Consecutive : Z;
  Window : list string;
  Tripped : bool;
  TrippedAtUnixNano : Z }.

(** The zero struct, read for a name absent from the map. *)
Definition zero_state : ToolState :=
  {| LastHash := ""; Consecutive := 0; Window := []; Tripped := false; TrippedAtUnixNano := 0 |}.

Record CircuitBreaker := { cfg : CircuitBreakerConfig; Tools : gmap string ToolState }.

Definition CircuitBreakerSkippedMessage (name : string) : string :=
  "Circuit breaker skipped tool " +:+ Quote name +:+ " after repeated failures.".

Definition CountsTowardCircuitBreaker (unknown : bool) (kind : string) : bool :=
  negb unknown && CountsTowardToolTelemetry kind.

Definition NewCircuitBreaker (ec : option ErrorControlConfig) : option CircuitBreaker :=
  match ec with
  | None => None
  | Some ec =>
      match ec_CircuitBreaker ec with
      | None => None
      | Some cb =>
          if (cb_MaxConsecutiveSameArgs cb <=? 0) && (cb_PatternWindowSize cb <? 4) then None
          else Some {| cfg := cb; Tools := ∅ |}
      end
  end.

Definition enabled (c : option CircuitBreaker) : bool :=
  match c with
  | None => false
  | Some c => (0 <? cb_MaxConsecutiveSameArgs (cfg c)) || (4 <=? cb_PatternWindowSize (cfg c))
  end.

(** The persisted snapshot and its reload. *)
Definition State (c : option CircuitBreaker) : gmap string ToolState :=
  match c with None => ∅ | Some c => Tools c end.

Definition Restore (c : option CircuitBreaker) (state : gmap string ToolState) : option CircuitBreaker :=
  match c with None => None | Some c => Some {| cfg := cfg c; Tools := state |} end.

Definition NewCircuitBreakerFromState (ec : option ErrorControlConfig) (state : gmap string ToolState)
    : option CircuitBreaker := Restore (NewCircuitBreaker ec) state.

Definition clear_tool (c : CircuitBreaker) (name : string) : CircuitBreaker :=
  {| cfg := cfg c; Tools := delete name (Tools c) |}.

Definition set_tool (c : CircuitBreaker) (name : string) (st : ToolState) : CircuitBreaker :=
  {| cfg := cfg c; Tools := <[name := st]> (Tools c) |}.

(** [c.state.Tools[name]] *)
Definition get_tool (c : CircuitBreaker) (name : string) : ToolState :=
  default zero_state (Tools c !! name).

Definition reset_due (c : CircuitBreaker) (st : ToolState) (now : Time) : bool :=
  (0 <? cb_ResetAfter (cfg c)) && negb (IsZero now) && (0 <? TrippedAtUnixNano st) &&
  (cb_ResetAfter (cfg c) <=? time_Sub now (time_Unix0 (TrippedAtUnixNano st))).

Definition IsTripped (c : option CircuitBreaker) (name : string) (now : Time)
    : bool * option CircuitBreaker :=
  match c with
  | None => (false, c)
  | Some b =>
      if negb (enabled c) then (false, c) else
      match Tools b !! name with
      | None => (false, c)
      | Some st =>
          if negb (Tripped st) then (false, c)
          else if reset_due b st now then (false, Some (clear_tool b name))
          else (true, c)
      end
  end.

Fixpoint alternates (a b : string) (l : list string) : bool :=
  match l with
  | [] => true
  | h :: l => String.eqb h a && alternates b a l
  end.

Definition isAlternating (window : list string) : bool :=
  if (Z.of_nat (length window) <? 4) || negb (Z.of_nat (length window) mod 2 =? 0) then false else
  match window with
  | a :: b :: _ =>
      if String.eqb a "" || String.eqb b "" || String.eqb a b then false
      else alternates a b window
  | _ => false
  end.

Definition shouldTrip (cb : CircuitBreakerConfig) (st : ToolState) : bool :=
  ((0 <? cb_MaxConsecutiveSameArgs cb) && (cb_MaxConsecutiveSameArgs cb <=? Consecutive st)) ||
  ((4 <=? cb_PatternWindowSize cb) &&
   (cb_PatternWindowSize cb <=? Z.of_nat (length (Window st))) && isAlternating (Window st)).

(** The sliding window keeps the last [PatternWindowSize] hashes. *)
Definition push_window (cb : CircuitBreakerConfig) (w : list string) (h : string) : list string :=
  if negb (String.eqb h "") && (4 <=? cb_PatternWindowSize cb) then
    let w := w ++ [h] in
    if cb_PatternWindowSize cb <? Z.of_nat (length w)
    then last_n (Z.to_nat (cb_PatternWindowSize cb)) w else w
  else w.

(** The state of an untripped tool after one more failure with argument hash [h]. *)
Definition note_failure (cb : CircuitBreakerConfig) (st : ToolState) (h : string) (now : Time) : ToolState :=
  let same := negb (String.eqb h "") && String.eqb h (LastHash st) in
  let st1 := {| LastHash := if same then LastHash st else h;
                Consecutive := if same then Consecutive st + 1 else 1;
                Window := push_window cb (Window st) h;
                Tripped := Tripped st; TrippedAtUnixNano := TrippedAtUnixNano st |} in
  if shouldTrip cb st1 then
    {| LastHash := LastHash st1; Consecutive := Consecutive st1; Window := Window st1;
       Tripped := true; TrippedAtUnixNano := UnixNano now |}
  else st1.

Definition RecordFailure (c : option CircuitBreaker) (name : string) (args : Args) (now : Time)
    : bool * option CircuitBreaker :=
  match c with
  | None => (false, c)
  | Some b =>
      if negb (enabled c) then (false, c) else
      let st := get_tool b name in
      if Tripped st then (true, Some (set_tool b name st))
      else let st' := note_failure (cfg b) st (HashToolArgs args) now in
           (Tripped st', Some (set_tool b name st'))
  end.

Definition RecordSuccess (c : option CircuitBreaker) (name : string) : option CircuitBreaker :=
  match c with
  | None => c
  | Some b =>
      if negb (enabled c) then c else
      let st := get_tool b name in
      if Tripped st then c
      else Some (set_tool b name
             {| LastHash := ""; Consecutive := 0; Window := [];
                Tripped := Tripped st; TrippedAtUnixNano := TrippedAtUnixNano st |})
  end.

Definition ApplyToolCircuitResult (c : option CircuitBreaker) (unknown : bool) (kind name : string)
    (args : Args) (failed : bool) (now : Time) : option CircuitBreaker :=
  match c with
  | None => c
  | Some _ =>
      if negb (CountsTowardCircuitBreaker unknown kind) then c
      else if failed then (RecordFailure c name args now).2
      else RecordSuccess c name
  end.

#[global] Arguments enabled : simpl never.
#[global] Arguments RecordFailure : simpl never.
#[global] Arguments RecordSuccess : simpl never.
#[global] Arguments IsTripped : simpl never.
#[global] Arguments note_failure : simpl never.

(** ** Abstract specification

    What a breaker promises, in terms of the history of one tool: the hashes of its
    failures since its last success, most recent first, or [None] once it has tripped. *)

Definition history := option (list string).

(** Length of the run of equal non-empty hashes at the head. *)
Fixpoint run_len (hs : list string) : Z :=
  match hs with
  | [] => 0
  | h :: hs' =>
      match hs' with
      | h' :: _ => if negb (String.eqb h "") && String.eqb h h' then run_len hs' + 1 else 1
      | [] => 1
      end
  end.

Definition nonempty_hash (h : string) : Prop := h <> "".
#[export] Instance nonempty_hash_dec h : Decision (nonempty_hash h).
Proof. unfold nonempty_hash. apply _. Defined.

(** The last [PatternWindowSize] hashes, oldest first. *)
Definition recent (cb : CircuitBreakerConfig) (hs : list string) : list string :=
  if 4 <=? cb_PatternWindowSize cb
  then last_n (Z.to_nat (cb_PatternWindowSize cb)) (rev (filter nonempty_hash hs)) else [].

Definition trips (cb : CircuitBreakerConfig) (hs : list string) : bool :=
  ((0 <? cb_MaxConsecutiveSameArgs cb) && (cb_MaxConsecutiveSameArgs cb <=? run_len hs)) ||
  ((4 <=? cb_PatternWindowSize cb) &&
   (cb_PatternWindowSize cb <=? Z.of_nat (length (recent cb hs))) && isAlternating (recent cb hs)).

#[global] Arguments trips : simpl never.

Inductive outcome := Failed (h : string) | Succeeded.

Definition abs_step (cb : CircuitBreakerConfig) (a : history) (o : outcome) : history :=
  match a, o with
  | None, _ => None
  | Some hs, Failed h => if trips cb (h :: hs) then None else Some (h :: hs)
  | Some _, Succeeded => Some []
  end.

(** The concrete state of one tool represents an abstract history. *)
Definition represents (cb : CircuitBreakerConfig) (st : ToolState) (a : history) : Prop :=
  match a with
  | None => Tripped st = true
  | Some hs => Tripped st = false /\ LastHash st = default "" (head hs) /\
               Consecutive st = run_len hs /\ Window st = recent cb hs
  end.

(** The concrete effect of an outcome on one tool, as [ApplyToolCircuitResult] makes it. *)
Definition apply_outcome (b : CircuitBreaker) (name : string) (ev : Args * bool) (now : Time) : CircuitBreaker :=
  default b (ApplyToolCircuitResult (Some b) false ToolKindNative name ev.1 ev.2 now).

Definition outcome_of (ev : Args * bool) : outcome :=
  if ev.2 then Failed (HashToolArgs ev.1) else Succeeded.

(** ** The detector of alternating failures *)

Lemma alternates_spec a b l :
  alternates a b l = true <-> forall i h, l !! i = Some h -> h = if Nat.even i then a else b.
Proof.
  revert a b. induction l as [|x l IH]; intros a b; simpl; [split; [intros _ i h H; by rewrite lookup_nil in H|done]|].
  rewrite andb_true_iff, String.eqb_eq, IH. split.
  - intros [-> H] [|i] h Hi; [by injection Hi|]. apply H in Hi as ->.
    rewrite Nat.even_succ, <- Nat.negb_even. by destruct (Nat.even i).
  - intros H. split; [by apply (H 0%nat)|]. intros i h Hi. specialize (H (S i) h Hi).
    rewrite Nat.even_succ, <- Nat.negb_even in H. by destruct (Nat.even i).
Qed.

(** [isAlternating] accepts exactly the windows of even length at least 4 that repeat two
    distinct non-empty hashes in turn. *)
Lemma isAlternating_spec (w : list string) :
  isAlternating w = true <->
  (4 <= length w)%nat /\ Nat.even (length w) = true /\
  exists a b, a <> "" /\ b <> "" /\ a <> b /\
    forall i h, w !! i = Some h -> h = if Nat.even i then a else b.
Proof.
  assert (Heven : (Z.of_nat (length w) mod 2 =? 0) = Nat.even (length w)).
  { destruct (Nat.even (length w)) eqn:E.
    - apply Nat.even_spec in E as [k ->]. apply Z.eqb_eq.
      rewrite Nat2Z.inj_mul, Z.mul_comm. apply Z.mod_mul. lia.
    - apply Z.eqb_neq. assert (Nat.odd (length w) = true) as Ho by (by rewrite <- Nat.negb_even, E).
      apply Nat.odd_spec in Ho as [k ->].
      replace (Z.of_nat (2 * k + 1)) with (1 + Z.of_nat k * 2) by lia.
      rewrite Z.mod_add by lia. done. }
  unfold isAlternating. rewrite Heven. split.
  - destruct (_ || _) eqn:E1; [done|]. crush_bool. intros Hw.
    destruct w as [|a [|b w]]; [done|done|].
    destruct (_ || String.eqb a b) eqn:E2; [done|]. crush_bool.
    repeat split; [lia|done|]. exists a, b. repeat split; try done. by apply alternates_spec.
  - intros (Hlen & He & a & b & Ha & Hb & Hab & H). rewrite He.
    replace (Z.of_nat (length w) <? 4) with false by (symmetry; apply Z.ltb_ge; lia). simpl.
    destruct w as [|a' [|b' w]]; simpl in Hlen; try lia.
    assert (a' = a) as -> by (by apply (H 0%nat)). assert (b' = b) as -> by (by apply (H 1%nat)).
    apply String.eqb_neq in Ha as ->. apply String.eqb_neq in Hb as ->.
    apply String.eqb_neq in Hab as ->. simpl orb. cbv iota. by apply alternates_spec.
Qed.

(** ** Refinement of the abstract history *)

Section refinement.
Context (cb : CircuitBreakerConfig).

Lemma recent_push hs h : push_window cb (recent cb hs) h = recent cb (h :: hs).
Proof.
  unfold push_window, recent. destruct (4 <=? cb_PatternWindowSize cb) eqn:E4; crush_bool.
  - destruct (String.eqb_spec h "") as [->|Hne].
    + rewrite filter_cons_False by (unfold nonempty_hash; auto). done.
    + rewrite filter_cons_True by done. simpl.
      rewrite <- (last_n_app _ (rev (filter nonempty_hash hs))).
      destruct (_ <? _) eqn:El; crush_bool; [done|].
      symmetry. apply last_n_all. lia.
  - by rewrite andb_false_r.
Qed.

Lemma run_len_cons h hs :
  run_len (h :: hs) =
    if negb (String.eqb h "") && String.eqb h (default "" (head hs)) then run_len hs + 1 else 1.
Proof.
  destruct hs as [|h' hs]; simpl; [|done].
  destruct (String.eqb_spec h ""); simpl; [done|]. by destruct (String.eqb_spec h "").
Qed.

Lemma note_failure_represents st hs h now :
  represents cb st (Some hs) -> represents cb (note_failure cb st h now) (abs_step cb (Some hs) (Failed h)).
Proof.
  intros (Ht & Hl & Hc & Hw). unfold note_failure. rewrite Hl, Hc, Hw, recent_push.
  assert (Hlast : (if negb (String.eqb h "") && String.eqb h (default "" (head hs))
                   then default "" (head hs) else h) = h).
  { destruct (_ && _) eqn:E; crush_bool; congruence. }
  rewrite Hlast, <- run_len_cons.
  set (st1 := {| LastHash := h |}). simpl.
  assert (Hs : shouldTrip cb st1 = trips cb (h :: hs)) by done. rewrite Hs.
  destruct (trips cb (h :: hs)); simpl; [done|]. rewrite Ht. done.
Qed.

Lemma note_failure_tripped st hs h now :
  represents cb st (Some hs) -> Tripped (note_failure cb st h now) = trips cb (h :: hs).
Proof.
  intros H. apply (note_failure_represents _ _ h now) in H. simpl in H.
  destruct (trips cb (h :: hs)); [done|]. by destruct H.
Qed.
End refinement.

Lemma get_set_tool c name st : get_tool (set_tool c name st) name = st.
Proof. unfold get_tool, set_tool. simpl. by rewrite lookup_insert_eq. Qed.

Lemma get_set_tool_ne c name name' st :
  name <> name' -> get_tool (set_tool c name st) name' = get_tool c name'.
Proof. intros. unfold get_tool, set_tool. simpl. by rewrite lookup_insert_ne. Qed.

Lemma zero_represents cb : represents cb zero_state (Some []).
Proof. repeat split. unfold recent. by destruct (4 <=? _). Qed.

Lemma apply_outcome_step b name ev now a :
  enabled (Some b) = true -> represents (cfg b) (get_tool b name) a ->
  cfg (apply_outcome b name ev now) = cfg b /\
  represents (cfg b) (get_tool (apply_outcome b name ev now) name) (abs_step (cfg b) a (outcome_of ev)) /\
  (forall name', name <> name' -> get_tool (apply_outcome b name ev now) name' = get_tool b name').
Proof.
  intros Hen Hr. destruct ev as [args failed]. unfold apply_outcome, outcome_of. simpl.
  destruct failed; unfold RecordFailure, RecordSuccess; rewrite Hen; simpl;
    destruct (Tripped (get_tool b name)) eqn:Ht; simpl;
    (split; [done|]); (split; [|intros; try done; by apply get_set_tool_ne]);
    rewrite ?get_set_tool; destruct a as [hs|]; simpl in Hr; destruct_and?; try congruence.
  - apply note_failure_represents. repeat split; done.
  - simpl. repeat split. unfold recent. by destruct (4 <=? _).
Qed.

(** Outcomes of one tool, one after the other. *)
Definition apply_outcomes (b : CircuitBreaker) (name : string) (evs : list ((Args * bool) * Time)) : CircuitBreaker :=
  fold_left (fun b e => apply_outcome b name e.1 e.2) evs b.

Lemma outcomes_history b name (evs : list ((Args * bool) * Time)) a :
  enabled (Some b) = true -> represents (cfg b) (get_tool b name) a ->
  let b' := apply_outcomes b name evs in
  represents (cfg b) (get_tool b' name) (fold_left (abs_step (cfg b)) (map (fun e => outcome_of e.1) evs) a) /\
  (forall name', name <> name' -> get_tool b' name' = get_tool b name').
Proof.
  unfold apply_outcomes.
  revert b a. induction evs as [|[ev now] evs IH]; intros b a Hen Hr; simpl; [done|].
  destruct (apply_outcome_step b name ev now a Hen Hr) as (Hcfg & Hr' & Ho).
  rewrite <- Hcfg in Hr' |- *. destruct (IH _ _ ltac:(unfold enabled; rewrite Hcfg; apply Hen) Hr') as [H1 H2].
  rewrite Hcfg in *. split; [done|]. intros name' Hne. rewrite H2 by done. by apply Ho.
Qed.

(** C29: The breaker refines its abstract history: after any sequence of failures and successes
    of a tool (at any times), the tool's state represents exactly the failures since its
    last success, or the trip, and no other tool's state has changed. *)
Theorem breaker_refines_history b name (evs : list ((Args * bool) * Time)) a :
  enabled (Some b) = true -> represents (cfg b) (get_tool b name) a ->
  let b' := apply_outcomes b name evs in
  represents (cfg b) (get_tool b' name) (fold_left (abs_step (cfg b)) (map (fun e => outcome_of e.1) evs) a) /\
  (forall name', name <> name' -> get_tool b' name' = get_tool b name').
Proof. apply outcomes_history. Qed.


(** The tool's trip flag, read off its history. *)
Lemma tripped_iff b name evs :
  enabled (Some b) = true -> get_tool b name = zero_state ->
  Tripped (get_tool (apply_outcomes b name evs) name) = true <->
  fold_left (abs_step (cfg b)) (map (fun e => outcome_of e.1) evs) (Some []) = None.
Proof.
  intros Hen Hz. destruct (outcomes_history b name evs (Some [])) as [H _]; [done|rewrite Hz; apply zero_represents|].
  destruct (fold_left _ _ _) as [hs|]; simpl in H; [|done]. destruct H as [H _]. rewrite H. split; done.
Qed.

Lemma same_args_history cb h n :
  0 < cb_MaxConsecutiveSameArgs cb -> cb_PatternWindowSize cb < 4 -> h <> "" ->
  fold_left (abs_step cb) (replicate n (Failed h)) (Some []) = None <->
  cb_MaxConsecutiveSameArgs cb <= Z.of_nat n.
Proof.
  intros Hm Hw Hh.
  assert (Hrl : forall k, run_len (replicate k h) = Z.of_nat k).
  { induction k as [|k IH]; [done|]. rewrite replicate_S, run_len_cons, IH.
    replace (String.eqb h "") with false by (symmetry; by apply String.eqb_neq).
    destruct k as [|k]; simpl default.
    - replace (String.eqb h "") with false by (symmetry; by apply String.eqb_neq). done.
    - rewrite String.eqb_refl. simpl negb. cbv [andb]. lia. }
  assert (Htrips : forall k, trips cb (replicate k h) = (cb_MaxConsecutiveSameArgs cb <=? Z.of_nat k)).
  { intros k. unfold trips. rewrite Hrl.
    replace (0 <? _) with true by (symmetry; by apply Z.ltb_lt).
    replace (4 <=? _) with false by (symmetry; by apply Z.leb_gt). by rewrite orb_false_r. }
  assert (Hgen : forall k m, fold_left (abs_step cb) (replicate m (Failed h)) (Some (replicate k h)) = None
      <-> (0 < m)%nat /\ cb_MaxConsecutiveSameArgs cb <= Z.of_nat (k + m)).
  { intros k m. revert k. induction m as [|m IH]; intros k; simpl; [split; [done|lia]|].
    rewrite <- replicate_S, Htrips. destruct (_ <=? _) eqn:E; crush_bool.
    - split; [intros _; lia|]. intros _. clear. induction m; simpl; auto.
    - rewrite IH. split; [lia|]. intros. lia. }
  rewrite (Hgen 0%nat n). simpl. lia.
Qed.

(** A tool that fails with the same (marshallable) arguments on every call trips at exactly
    the [MaxConsecutiveSameArgs]-th failure when the alternating detector is off. *)
Theorem same_args_trip_point b name args (times : list Time) :
  enabled (Some b) = true -> get_tool b name = zero_state ->
  0 < cb_MaxConsecutiveSameArgs (cfg b) -> cb_PatternWindowSize (cfg b) < 4 -> HashToolArgs args <> "" ->
  Tripped (get_tool (apply_outcomes b name (map (fun t => ((args, true), t)) times)) name) = true <->
  cb_MaxConsecutiveSameArgs (cfg b) <= Z.of_nat (length times).
Proof.
  intros Hen Hz Hm Hw Hh. rewrite tripped_iff by done. rewrite <- (same_args_history (cfg b) (HashToolArgs args)) by done.
  rewrite map_map. unfold outcome_of. simpl.
  replace (map _ times) with (replicate (length times) (Failed (HashToolArgs args))); [done|].
  clear. induction times; simpl; [done|]. by f_equal.
Qed.

Lemma odd_window_history cb hs :
  Z.odd (cb_PatternWindowSize cb) = true -> cb_MaxConsecutiveSameArgs cb <= 0 ->
  trips cb hs = false.
Proof.
  intros Hodd Hm. unfold trips.
  replace (0 <? _) with false by (symmetry; by apply Z.ltb_ge). simpl.
  destruct (4 <=? cb_PatternWindowSize cb) eqn:E4; [|done]. crush_bool. simpl.
  destruct (_ <=? Z.of_nat _) eqn:El; [|done]. crush_bool. simpl.
  destruct (isAlternating _) eqn:Ea; [|done]. apply isAlternating_spec in Ea as (_ & Hev & _).
  assert (length (recent cb hs) = Z.to_nat (cb_PatternWindowSize cb)) as Hlen.
  { revert El. unfold recent. replace (4 <=? _) with true by (symmetry; by apply Z.leb_le).
    rewrite length_last_n. lia. }
  rewrite Hlen in Hev. exfalso. apply Nat.even_spec in Hev as [k Hk].
  apply Z.odd_spec in Hodd as [j Hj]. lia.
Qed.

(** With an odd [PatternWindowSize] the alternating detector never fires: without a
    same-arguments limit no sequence of outcomes trips the tool. *)
Theorem odd_window_never_trips b name evs :
  enabled (Some b) = true -> get_tool b name = zero_state ->
  Z.odd (cb_PatternWindowSize (cfg b)) = true -> cb_MaxConsecutiveSameArgs (cfg b) <= 0 ->
  Tripped (get_tool (apply_outcomes b name evs) name) = false.
Proof.
  intros Hen Hz Hodd Hm. destruct (Tripped _) eqn:E; [|done]. exfalso. apply tripped_iff in E; [|done|done].
  assert (Hs : forall os hs, exists hs', fold_left (abs_step (cfg b)) os (Some hs) = Some hs').
  { induction os as [|o os IH]; intros hs; simpl; [eauto|].
    destruct o as [h|]; [|apply IH]. rewrite odd_window_history by done. apply IH. }
  destruct (Hs (map (fun e => outcome_of e.1) evs) []) as [hs' Hx]. congruence.
Qed.

(** ** Trips are permanent without a reset delay *)

Inductive cb_op :=
| OpFailure (name : string) (args : Args) (now : Time)
| OpSuccess (name : string)
| OpIsTripped (name : string) (now : Time)
| OpSnapshot.   (* [Restore(State())] *)

Definition cb_run (c : option CircuitBreaker) (o : cb_op) : option CircuitBreaker :=
  match o with
  | OpFailure name args now => (RecordFailure c name args now).2
  | OpSuccess name => RecordSuccess c name
  | OpIsTripped name now => (IsTripped c name now).2
  | OpSnapshot => Restore c (State c)
  end.

Lemma restore_state c : Restore c (State c) = c.
Proof. by destruct c as [[]|]. Qed.

Definition is_tripped_at (c : option CircuitBreaker) (name : string) : Prop :=
  exists b st, c = Some b /\ enabled c = true /\ Tools b !! name = Some st /\ Tripped st = true.

Lemma is_tripped_at_set b name name' st :
  is_tripped_at (Some b) name -> (name' = name -> Tripped st = true) ->
  is_tripped_at (Some (set_tool b name' st)) name.
Proof.
  intros (b' & st' & [= <-] & Hen & Hl & Ht) Hst. unfold is_tripped_at.
  destruct (decide (name' = name)) as [->|Hne].
  - exists (set_tool b name st), st. repeat split; try done; [by apply lookup_insert_eq|auto].
  - exists (set_tool b name' st), st'. repeat split; try done. simpl. by rewrite lookup_insert_ne.
Qed.

Lemma trip_kept c o name :
  is_tripped_at c name -> (forall b, c = Some b -> cb_ResetAfter (cfg b) <= 0) ->
  is_tripped_at (cb_run c o) name.
Proof.
  intros Ht Hreset. pose proof Ht as (b & st & -> & Hen & Hl & Hst).
  specialize (Hreset b eq_refl).
  destruct o as [name' args now|name'|name' now|]; simpl cb_run.
  - unfold RecordFailure. rewrite Hen. simpl.
    destruct (Tripped (get_tool b name')) eqn:E; simpl; apply is_tripped_at_set; try done.
    intros ->. unfold get_tool in E. rewrite Hl in E. simpl in E. congruence.
  - unfold RecordSuccess. rewrite Hen. simpl.
    destruct (Tripped (get_tool b name')) eqn:E; [done|]. apply is_tripped_at_set; [done|].
    intros ->. unfold get_tool in E. rewrite Hl in E. simpl in E. congruence.
  - unfold IsTripped. rewrite Hen. simpl.
    destruct (Tools b !! name') as [st'|]; [|done]. destruct (Tripped st'); [|done]. simpl.
    unfold reset_due. replace (0 <? cb_ResetAfter (cfg b)) with false by (symmetry; apply Z.ltb_ge; lia).
    done.
  - by destruct b.
Qed.

Lemma cb_run_cfg c o b : c = Some b -> exists b', cb_run c o = Some b' /\ cfg b' = cfg b.
Proof.
  intros ->. destruct o; simpl; unfold RecordFailure, RecordSuccess, IsTripped;
    repeat (split_match; simpl); eauto.
Qed.

(** With [ResetAfter = 0] a trip lasts for the remainder of the run: whatever operations
    follow, including journal snapshots, the tool stays skipped at any time. *)
Theorem trip_is_permanent b ops name now :
  is_tripped_at (Some b) name -> cb_ResetAfter (cfg b) <= 0 ->
  (IsTripped (fold_left cb_run ops (Some b)) name now).1 = true.
Proof.
  intros Ht Hr.
  assert (exists b', fold_left cb_run ops (Some b) = Some b' /\ cfg b' = cfg b /\
            is_tripped_at (Some b') name) as (b' & -> & Hc & (b2 & st & [= <-] & Hen & Hl & Hst)).
  { revert b Ht Hr. induction ops as [|o ops IH]; intros b Ht Hr; [simpl; eauto|]. cbn [fold_left].
    destruct (cb_run_cfg (Some b) o b eq_refl) as (b1 & Hb1 & Hcfg). rewrite Hb1.
    destruct (IH b1) as (b' & ? & ? & ?).
    - rewrite <- Hb1. apply trip_kept; [done|]. by intros ? [= <-].
    - by rewrite Hcfg.
    - exists b'. repeat split; congruence. }
  unfold IsTripped. rewrite Hen, Hl. simpl. rewrite Hst. simpl.
  unfold reset_due. rewrite Hc.
  by replace (0 <? cb_ResetAfter (cfg b)) with false by (symmetry; apply Z.ltb_ge; lia).
Qed.

(** With a positive [ResetAfter] the skip ends, and the tool starts afresh, once that much
    time has passed since the trip. *)
Theorem trip_resets_after b name st now :
  enabled (Some b) = true -> Tools b !! name = Some st -> Tripped st = true ->
  0 < cb_ResetAfter (cfg b) -> 0 < TrippedAtUnixNano st -> IsZero now = false ->
  (IsTripped (Some b) name now = (true, Some b) <->
     time_Sub now (time_Unix0 (TrippedAtUnixNano st)) < cb_ResetAfter (cfg b)) /\
  (cb_ResetAfter (cfg b) <= time_Sub now (time_Unix0 (TrippedAtUnixNano st)) ->
     exists b', IsTripped (Some b) name now = (false, Some b') /\ get_tool b' name = zero_state).
Proof.
  intros Hen Hl Ht Hr Hat Hz. unfold IsTripped. rewrite Hen, Hl. simpl. rewrite Ht. simpl.
  unfold reset_due. rewrite Hz. apply Z.ltb_lt in Hr, Hat. rewrite Hr, Hat. simpl.
  destruct (_ <=? time_Sub _ _) eqn:E; crush_bool.
  - split; [split; [done|lia]|]. intros _. eexists. split; [done|].
    unfold get_tool, clear_tool. simpl. by rewrite lookup_delete_eq.
  - split; [done|]. lia.
Qed.
