(* ===== verification/Policies.v ===== *)
(** Execution policies of the agent loop's operations ([internal/runtime/runtime.go]): SDK
    defaults, agent overrides, and the backoff schedule of [executeWithPolicy]
    ([internal/runtime/local/agent_loop.go]). *)
From S2P Require Import Prelude GoLib Types.

#[local] Open Scope string_scope.
#[local] Open Scope list_scope.
#[local] Open Scope Z_scope.

Record RetryPolicy := {
  rp_InitialInterval : Duration;
  rp_BackoffCoefficient : f64;
  rp_MaximumInterval : Duration }.

Record ExecutionPolicy := {
  ep_Timeout : Duration;
  ep_MaxAttempts : Z;
  ep_Retry : RetryPolicy }.

(** One value per operation of the loop: [ExecutionConfigs] and [ExecutionPolicies]. *)
Record PerOperation (A : Type) := {
  po_LLM : A; po_ToolAuth : A; po_ToolExecute : A; po_MCP : A; po_A2A : A;
  po_Retriever : A; po_Memory : A; po_Conversation : A; po_SubAgent : A }.

Arguments po_LLM {A} _.
Arguments po_ToolAuth {A} _.
Arguments po_ToolExecute {A} _.
Arguments po_MCP {A} _.
Arguments po_A2A {A} _.
Arguments po_Retriever {A} _.
Arguments po_Memory {A} _.
Arguments po_Conversation {A} _.
Arguments po_SubAgent {A} _.

Definition ExecutionPolicies := PerOperation ExecutionPolicy.

Record ExecutionConfig := { ex_Timeout : Duration; ex_MaxAttempts : Z }.

Definition ExecutionConfigs := PerOperation ExecutionConfig.

Definition defaultExecutionConfigs : ExecutionConfigs :=
  let cfg t n := {| ex_Timeout := t; ex_MaxAttempts := n |} in
  {| po_LLM := cfg (30 * minute) 3;
     po_ToolAuth := cfg (30 * minute) 1;
     po_ToolExecute := cfg (30 * minute) 3;
     po_MCP := cfg (30 * minute) 3;
     po_A2A := cfg (30 * minute) 3;
     po_Retriever := cfg (5 * minute) 3;
     po_Memory := cfg (5 * minute) 3;
     po_Conversation := cfg (30 * second) 1;
     po_SubAgent := cfg 0 1 |}.

Definition resolveExecutionConfig (agent sdk : ExecutionConfig) : ExecutionConfig :=
  {| ex_Timeout := if 0 <? ex_Timeout agent then ex_Timeout agent else ex_Timeout sdk;
     ex_MaxAttempts := if 0 <? ex_MaxAttempts agent then ex_MaxAttempts agent else ex_MaxAttempts sdk |}.

Definition DefaultRetryPolicy : RetryPolicy :=
  {| rp_InitialInterval := second; rp_BackoffCoefficient := f64_of_Z 2;
     rp_MaximumInterval := 10 * minute |}.

Definition ToPolicy (c : ExecutionConfig) : ExecutionPolicy :=
  {| ep_Timeout := ex_Timeout c;
     ep_MaxAttempts := if ex_MaxAttempts c <? 1 then 1 else ex_MaxAttempts c;
     ep_Retry := DefaultRetryPolicy |}.

Definition ResolveExecutionPolicies (e : ExecutionConfigs) : ExecutionPolicies :=
  let d := defaultExecutionConfigs in
  let resolve (f : ExecutionConfigs -> ExecutionConfig) := ToPolicy (resolveExecutionConfig (f e) (f d)) in
  {| po_LLM := resolve po_LLM; po_ToolAuth := resolve po_ToolAuth;
     po_ToolExecute := resolve po_ToolExecute; po_MCP := resolve po_MCP; po_A2A := resolve po_A2A;
     po_Retriever := resolve po_Retriever; po_Memory := resolve po_Memory;
     po_Conversation := resolve po_Conversation; po_SubAgent := resolve po_SubAgent |}.

(** [next := time.Duration(float64(backoff) * coefficient)], capped at the maximum interval. *)
Definition next_backoff (r : RetryPolicy) (backoff : Duration) : Duration :=
  let next := f64_to_int64 (f64_mul (f64_of_Z backoff) (rp_BackoffCoefficient r)) in
  if rp_MaximumInterval r <? next then rp_MaximumInterval r else next.

(** The wait after the [n]-th failed attempt (from 0). *)
Definition backoff_after (r : RetryPolicy) (n : nat) : Duration :=
  Nat.iter n (next_backoff r) (rp_InitialInterval r).

(** ** Theorems *)

Lemma resolved_attempts agent sdk :
  1 <= ex_MaxAttempts sdk ->
  ep_MaxAttempts (ToPolicy (resolveExecutionConfig agent sdk)) =
    (if 0 <? ex_MaxAttempts agent then ex_MaxAttempts agent else ex_MaxAttempts sdk) /\
  1 <= ep_MaxAttempts (ToPolicy (resolveExecutionConfig agent sdk)).
Proof.
  intros H. unfold ToPolicy, resolveExecutionConfig; simpl.
  destruct (0 <? ex_MaxAttempts agent) eqn:E; crush_bool.
  - replace (_ <? 1) with false by (symmetry; apply Z.ltb_ge; lia). lia.
  - replace (_ <? 1) with false by (symmetry; apply Z.ltb_ge; lia). lia.
Qed.

(** The nine operations: the agent's override and the resolved policy of each. *)
Definition operations : list ((ExecutionConfigs -> ExecutionConfig) * (ExecutionPolicies -> ExecutionPolicy)) :=
  [(po_LLM, po_LLM); (po_ToolAuth, po_ToolAuth); (po_ToolExecute, po_ToolExecute);
   (po_MCP, po_MCP); (po_A2A, po_A2A); (po_Retriever, po_Retriever); (po_Memory, po_Memory);
   (po_Conversation, po_Conversation); (po_SubAgent, po_SubAgent)].

Lemma resolved_operation e f g :
  In (f, g) operations ->
  g (ResolveExecutionPolicies e) = ToPolicy (resolveExecutionConfig (f e) (f defaultExecutionConfigs)) /\
  1 <= ex_MaxAttempts (f defaultExecutionConfigs).
Proof. simpl. intros H. repeat destruct H as [[= <- <-]|H]; try done. Qed.

(** Every operation of the loop runs at least once whatever the agent configures; a positive
    override of attempts or timeout wins, anything else falls back to the SDK default. *)
Theorem resolve_policies_sound (e : ExecutionConfigs) f g :
  In (f, g) operations ->
  let p := g (ResolveExecutionPolicies e) in
  let d := f defaultExecutionConfigs in
  1 <= ep_MaxAttempts p /\ ep_Retry p = DefaultRetryPolicy /\
  ep_MaxAttempts p = (if 0 <? ex_MaxAttempts (f e) then ex_MaxAttempts (f e) else ex_MaxAttempts d) /\
  ep_Timeout p = (if 0 <? ex_Timeout (f e) then ex_Timeout (f e) else ex_Timeout d).
Proof.
  intros Hin p d. destruct (resolved_operation e f g Hin) as [Hp Hd]. subst p d. rewrite Hp.
  destruct (resolved_attempts (f e) (f defaultExecutionConfigs) Hd) as [H1 H2]. done.
Qed.

Lemma backoff_capped n : backoff_after DefaultRetryPolicy (10 + n) = 10 * minute.
Proof.
  induction n as [|n IH]; [by vm_compute|].
  replace (10 + S n)%nat with (S (10 + n)) by lia.
  change (backoff_after DefaultRetryPolicy (S (10 + n)))
    with (next_backoff DefaultRetryPolicy (backoff_after DefaultRetryPolicy (10 + n))).
  rewrite IH. by vm_compute.
Qed.

(** The default backoff doubles from one second and is capped at ten minutes; the float64
    product never rounds or overflows on the way. *)
Theorem backoff_schedule (n : nat) :
  backoff_after DefaultRetryPolicy n = Z.min (2 ^ Z.of_nat n * second) (10 * minute).
Proof.
  destruct (decide (n < 10)%nat) as [Hlt|Hge].
  - do 10 (destruct n as [|n]; [by vm_compute|]). lia.
  - replace n with (10 + (n - 10))%nat by lia. rewrite backoff_capped.
    replace (Z.of_nat (10 + (n - 10))) with (10 + Z.of_nat (n - 10)) by lia.
    rewrite Z.pow_add_r by lia. assert (1 <= 2 ^ Z.of_nat (n - 10)).
    { rewrite <- (Z.pow_0_r 2). apply Z.pow_le_mono_r; lia. }
    unfold minute, second. lia.
Qed.

(** ** Witnesses *)

Definition sample_overrides : ExecutionConfigs :=
  let none := {| ex_Timeout := 0; ex_MaxAttempts := 0 |} in
  {| po_LLM := {| ex_Timeout := -1; ex_MaxAttempts := 7 |};
     po_ToolAuth := none; po_ToolExecute := none; po_MCP := none; po_A2A := none;
     po_Retriever := none; po_Memory := none; po_Conversation := none; po_SubAgent := none |}.

Lemma resolve_policies_sound_witness :
  ep_MaxAttempts (po_LLM (ResolveExecutionPolicies sample_overrides)) = 7 /\
  ep_Timeout (po_LLM (ResolveExecutionPolicies sample_overrides)) = 30 * minute.
Proof.
  destruct (resolve_policies_sound sample_overrides po_LLM po_LLM) as (_ & _ & H1 & H2);
    [simpl; auto|]. rewrite H1, H2. split; reflexivity.
Defined.
