(* ===== verification/MemoryConfig.v ===== *)
(** Long-term memory configuration ([pkg/memory/config.go], [pkg/memory/defaults.go]): scope
    resolution, kind policy, expiry, load options, defaults and validation. *)
From Stdlib Require Import Floats.SpecFloat.
From S2P Require Import Prelude GoLib Types.

#[local] Open Scope string_scope.
#[local] Open Scope list_scope.
#[local] Open Scope Z_scope.

Definition StoreModeOnDemand : string := "ondemand".
Definition StoreModeAlways : string := "always".

Definition KindPreference : string := "preference".
Definition KindFact : string := "fact".
Definition KindDecision : string := "decision".
Definition KindInstruction : string := "instruction".
Definition KindNote : string := "note".

Definition ScopeKeyTenantID : string := "tenant_id".
Definition ScopeKeyUserID : string := "user_id".
Definition ScopeKeyAgentID : string := "agent_id".

(** The string-keyed values of a [context.Context]. *)
Definition Ctx := gmap string value.

Definition ctxKeyTenantID : string := "memory:tenant_id".
Definition ctxKeyUserID : string := "memory:user_id".
Definition ctxKeyAgentID : string := "memory:agent_id".

Definition WithContextTenantID (ctx : Ctx) (id : string) : Ctx := <[ctxKeyTenantID := VStr id]> ctx.
Definition WithContextUserID (ctx : Ctx) (id : string) : Ctx := <[ctxKeyUserID := VStr id]> ctx.
Definition WithContextAgentID (ctx : Ctx) (id : string) : Ctx := <[ctxKeyAgentID := VStr id]> ctx.

Definition ScopeResolver := Ctx -> string.

Definition contextStringResolver (key : string) : ScopeResolver :=
  fun ctx => default "" (as_string (ctx !! key)).

Record ScopeConfig := {
  TenantIDResolver : option ScopeResolver;
  UserIDResolver : option ScopeResolver;
  AgentIDResolver : option ScopeResolver;
  ExtraKeys : list string;
  TagResolvers : gmap string ScopeResolver }.

(** [StoreConfig]; [Extract] names the user's extraction function when set. *)
Record StoreConfig := {
  st_Mode : string;
  st_DedupMinScore : f64;
  st_Extract : option nat;
  st_DefaultKind : string;
  st_AllowedKinds : list string }.

Record RecallConfig := {
  rc_Enabled : bool; rc_Limit : Z; rc_MinScore : f64; rc_Kinds : list string }.

Definition TTLPolicy := gmap string Duration.

(** [memory.Config]; [mc_Memory] says whether the backend is set. *)
Record MemConfig := {
  mc_Memory : bool;
  mc_ScopeConfig : ScopeConfig;
  mc_TTLPolicy : TTLPolicy;
  mc_Store : StoreConfig;
  mc_Recall : RecallConfig }.

(** ** Scope *)

(** First [ExtraKeys] entry without a resolver. *)
Definition ScopeConfig_Validate (c : ScopeConfig) : option error :=
  (fun key => errors_New ("memory scope: ExtraKeys " +:+ Quote key +:+ " requires a TagResolver")) <$>
  find (fun key => bool_decide (TagResolvers c !! key = None)) (ExtraKeys c).

(** [if r != nil { field = r(ctx) }] on a field that starts empty. *)
Definition resolve_field (r : option ScopeResolver) (ctx : Ctx) : string :=
  match r with Some f => f ctx | None => "" end.

(** The tags of [ExtraKeys], empty values left out. *)
Definition resolve_tag (c : ScopeConfig) (ctx : Ctx) (tags : gmap string string) (key : string)
    : gmap string string :=
  match TagResolvers c !! key with
  | Some r => if String.eqb (r ctx) "" then tags else <[key := r ctx]> tags
  | None => tags   (* excluded by Validate *)
  end.

Definition resolve_tags (c : ScopeConfig) (ctx : Ctx) : gmap string string :=
  fold_left (resolve_tag c ctx) (ExtraKeys c) ∅.

Definition Resolve (c : ScopeConfig) (ctx : Ctx) : result MemoryScope :=
  match ScopeConfig_Validate c with
  | Some e => inl e
  | None => inr {| sc_UserID := resolve_field (UserIDResolver c) ctx;
                   sc_TenantID := resolve_field (TenantIDResolver c) ctx;
                   sc_AgentID := resolve_field (AgentIDResolver c) ctx;
                   sc_Tags := resolve_tags c ctx |}
  end.

Definition reserved_key (k : string) : bool :=
  String.eqb k ScopeKeyUserID || String.eqb k ScopeKeyTenantID || String.eqb k ScopeKeyAgentID.

Definition set_nonempty (k v : string) (m : gmap string string) : gmap string string :=
  if String.eqb v "" then m else <[k := v]> m.

Definition ScopeMetadata (s : MemoryScope) : gmap string string :=
  set_nonempty ScopeKeyAgentID (sc_AgentID s)
    (set_nonempty ScopeKeyTenantID (sc_TenantID s)
      (set_nonempty ScopeKeyUserID (sc_UserID s)
        (filter (fun kv => reserved_key kv.1 = false) (sc_Tags s)))).

(** ** Kinds and expiry *)

Definition ExpiresAt (p : TTLPolicy) (kind : string) (now : Time) : Time :=
  match p !! kind with
  | None => 0
  | Some ttl => if ttl <=? 0 then 0 else time_Add now ttl
  end.

Definition ResolveKind (s : StoreConfig) (kind : string) : result string :=
  let kind := if String.eqb kind "" then st_DefaultKind s else kind in
  let kind := if String.eqb kind "" then KindNote else kind in
  match st_AllowedKinds s with
  | [] => inr kind
  | allowed =>
      if existsb (String.eqb kind) allowed then inr kind
      else inl (errors_New ("memory store: kind " +:+ Quote kind +:+ " is not allowed"))
  end.

Definition ExpiresAtForKind (c : MemConfig) (kind : string) (now : Time) : Time :=
  match ResolveKind (mc_Store c) kind with
  | inl _ => 0
  | inr resolved => ExpiresAt (mc_TTLPolicy c) resolved now
  end.

(** ** Load options *)

Definition zero_load_options : LoadMemoryOptions := {| lo_Limit := 0; lo_MinScore := f64_zero; lo_Kinds := [] |}.

(** [WithLoadLimit], [WithMinScore] and [WithLoadKinds] applied in this order. *)
Definition build_load_options (limit : Z) (minScore : f64) (kinds : list string) (withMinScore : bool)
    : LoadMemoryOptions :=
  {| lo_Limit := limit;
     lo_MinScore := if withMinScore && f64_ltb f64_zero minScore then minScore else f64_zero;
     lo_Kinds := kinds |}.

Definition loadOptions (r : RecallConfig) (withMinScore : bool) : LoadMemoryOptions :=
  build_load_options (rc_Limit r) (rc_MinScore r) (rc_Kinds r) withMinScore.

Definition LoadOptions (r : RecallConfig) : LoadMemoryOptions := loadOptions r true.
Definition RecencyLoadOptions (r : RecallConfig) : LoadMemoryOptions := loadOptions r false.

(** ** Defaults and validation *)

(** [float32] values are kept at their own precision. *)
Definition f32_of_Z (n : Z) : f64 := binary_normalize 24 128 n 0 false.
Definition f32_lit (n d : Z) : f64 := SFdiv 24 128 (f32_of_Z n) (f32_of_Z d).

Definition defaultRecallLimit : Z := 10.
Definition defaultRecallMinScore : f64 := f32_lit 35 100.
Definition defaultDedupMinScore : f64 := f32_lit 85 100.

Definition TTLDecision : Duration := 7 * 24 * hour.
Definition TTLNote : Duration := 48 * hour.

Definition DefaultStoreMode : string := StoreModeOnDemand.
Definition DefaultStoreConfig : StoreConfig :=
  {| st_Mode := DefaultStoreMode; st_DedupMinScore := defaultDedupMinScore; st_Extract := None;
     st_DefaultKind := KindNote; st_AllowedKinds := [] |}.
Definition DefaultScopeConfig : ScopeConfig :=
  {| TenantIDResolver := Some (contextStringResolver ctxKeyTenantID);
     UserIDResolver := Some (contextStringResolver ctxKeyUserID);
     AgentIDResolver := Some (contextStringResolver ctxKeyAgentID);
     ExtraKeys := []; TagResolvers := ∅ |}.
Definition DefaultTTLPolicy : TTLPolicy :=
  <[KindDecision := TTLDecision]> (<[KindFact := 0]> (<[KindPreference := 0]>
    (<[KindInstruction := 0]> (<[KindNote := TTLNote]> ∅)))).
Definition DefaultRecallConfig : RecallConfig :=
  {| rc_Enabled := true; rc_Limit := defaultRecallLimit; rc_MinScore := defaultRecallMinScore; rc_Kinds := [] |}.
Definition DefaultConfig (store : bool) : MemConfig :=
  {| mc_Memory := store; mc_ScopeConfig := DefaultScopeConfig; mc_TTLPolicy := DefaultTTLPolicy;
     mc_Store := DefaultStoreConfig; mc_Recall := DefaultRecallConfig |}.

Definition StoreConfig_WithDefaults (s : StoreConfig) : StoreConfig :=
  {| st_Mode := if String.eqb (st_Mode s) "" then DefaultStoreMode else st_Mode s;
     st_DedupMinScore := if f64_leb (st_DedupMinScore s) f64_zero then defaultDedupMinScore
                         else st_DedupMinScore s;
     st_Extract := st_Extract s;
     st_DefaultKind := if String.eqb (st_DefaultKind s) "" && bool_decide (st_AllowedKinds s = [])
                       then KindNote else st_DefaultKind s;
     st_AllowedKinds := st_AllowedKinds s |}.

(** Validation failures. *)
Inductive config_error :=
| MemoryRequired
| ScopeInvalid (e : error)
| DefaultKindRejected (e : error)
| InvalidStoreMode (mode : string)
| ExtractOnDemand
| DedupMinScoreRange (x : f64).

Definition StoreConfig_Validate (s : StoreConfig) : option config_error :=
  match ResolveKind s "" with
  | inl e => Some (DefaultKindRejected e)
  | inr _ =>
      if negb (String.eqb (st_Mode s) StoreModeOnDemand || String.eqb (st_Mode s) StoreModeAlways)
      then Some (InvalidStoreMode (st_Mode s))
      else if String.eqb (st_Mode s) StoreModeOnDemand && bool_decide (is_Some (st_Extract s))
      then Some ExtractOnDemand
      else if f64_ltb (st_DedupMinScore s) f64_zero || f64_ltb (f32_of_Z 1) (st_DedupMinScore s)
      then Some (DedupMinScoreRange (st_DedupMinScore s))
      else None
  end.

Definition Config_WithDefaults (c : MemConfig) : MemConfig :=
  let sc := mc_ScopeConfig c in
  {| mc_Memory := mc_Memory c;
     mc_ScopeConfig :=
       match TenantIDResolver sc, UserIDResolver sc, AgentIDResolver sc, ExtraKeys sc with
       | None, None, None, [] => DefaultScopeConfig
       | _, _, _, _ => sc
       end;
     mc_TTLPolicy := if decide (mc_TTLPolicy c = ∅) then DefaultTTLPolicy else mc_TTLPolicy c;
     mc_Store := StoreConfig_WithDefaults (mc_Store c);
     mc_Recall := let r := mc_Recall c in
       {| rc_Enabled := rc_Enabled r;
          rc_Limit := if rc_Limit r <=? 0 then defaultRecallLimit else rc_Limit r;
          rc_MinScore := rc_MinScore r; rc_Kinds := rc_Kinds r |} |}.

Definition Config_Validate (c : MemConfig) : option config_error :=
  if negb (mc_Memory c) then Some MemoryRequired else
  match ScopeConfig_Validate (mc_ScopeConfig c) with
  | Some e => Some (ScopeInvalid e)
  | None => StoreConfig_Validate (mc_Store c)
  end.

(** ** Theorems *)

Lemma ResolveKind_inv s kind k :
  ResolveKind s kind = inr k ->
  k <> "" /\ ResolveKind s k = inr k /\
  (st_AllowedKinds s <> [] -> k ∈ st_AllowedKinds s) /\ (kind <> "" -> k = kind).
Proof.
  unfold ResolveKind. cbv zeta. intros H.
  set (k1 := if String.eqb kind "" then st_DefaultKind s else kind) in *.
  set (k2 := if String.eqb k1 "" then KindNote else k1) in *.
  assert (Hne : k2 <> "").
  { subst k2. destruct (String.eqb k1 "") eqn:E; [done|]. by apply String.eqb_neq in E. }
  assert (Hk : k = k2 /\ (st_AllowedKinds s <> [] -> existsb (String.eqb k2) (st_AllowedKinds s) = true)).
  { destruct (st_AllowedKinds s); [by simplify_eq|]. destruct (existsb _ _); by simplify_eq. }
  assert (Hid : kind <> "" -> k2 = kind).
  { intros Hn. subst k2 k1. apply String.eqb_neq in Hn. by rewrite !Hn. }
  clearbody k2. destruct Hk as [-> Ha].
  replace (String.eqb k2 "") with false by (symmetry; by apply String.eqb_neq).
  replace (String.eqb k2 "") with false by (symmetry; by apply String.eqb_neq).
  repeat split; [done| | |done].
  - destruct (st_AllowedKinds s); [done|]. by rewrite Ha.
  - intros Hn. specialize (Ha Hn). apply existsb_exists in Ha as (x & Hin & Hx).
    apply String.eqb_eq in Hx as ->. by apply list_elem_of_In.
Qed.

(** A resolved kind is never empty and obeys the allow list; resolving it again changes
    nothing, so a record's expiry (for which the runtime resolves the kind a second time) is
    the one its stored kind has in the TTL policy. *)
Theorem ResolveKind_sound c kind k now :
  ResolveKind (mc_Store c) kind = inr k ->
  k <> "" /\ (kind <> "" -> k = kind) /\
  (st_AllowedKinds (mc_Store c) <> [] -> k ∈ st_AllowedKinds (mc_Store c)) /\
  ExpiresAtForKind c k now = ExpiresAt (mc_TTLPolicy c) k now.
Proof.
  intros H. destruct (ResolveKind_inv _ _ _ H) as (H1 & H2 & H3 & H4).
  unfold ExpiresAtForKind. by rewrite H2.
Qed.

Lemma set_nonempty_lookup k v m k' :
  set_nonempty k v m !! k' = if decide (k' = k /\ v <> "") then Some v else m !! k'.
Proof.
  unfold set_nonempty. destruct (String.eqb v "") eqn:E; crush_bool; case_decide as Hd; try tauto.
  - destruct Hd as [-> _]. by apply lookup_insert_eq.
  - apply lookup_insert_ne. intros ->. tauto.
Qed.

(** Struct fields of a scope win over tags of the same key, empty fields leave no key, and
    every other tag is kept. *)
Theorem ScopeMetadata_lookup s k :
  ScopeMetadata s !! k =
    if String.eqb k ScopeKeyUserID then (if String.eqb (sc_UserID s) "" then None else Some (sc_UserID s))
    else if String.eqb k ScopeKeyTenantID then (if String.eqb (sc_TenantID s) "" then None else Some (sc_TenantID s))
    else if String.eqb k ScopeKeyAgentID then (if String.eqb (sc_AgentID s) "" then None else Some (sc_AgentID s))
    else sc_Tags s !! k.
Proof.
  unfold ScopeMetadata. rewrite !set_nonempty_lookup.
  assert (Hf : filter (fun kv : string * string => reserved_key kv.1 = false) (sc_Tags s) !! k =
               if reserved_key k then None else sc_Tags s !! k).
  { destruct (reserved_key k) eqn:Er.
    - apply map_lookup_filter_None. right. intros ? _. simpl. by rewrite Er.
    - destruct (sc_Tags s !! k) eqn:El.
      + by apply map_lookup_filter_Some.
      + apply map_lookup_filter_None. by left. }
  rewrite Hf. unfold reserved_key.
  destruct (String.eqb k ScopeKeyUserID) eqn:E1; [apply String.eqb_eq in E1; subst|apply String.eqb_neq in E1].
  { destruct (String.eqb (sc_UserID s) "") eqn:E; crush_bool; repeat case_decide; try tauto;
      destruct_and?; try discriminate; done. }
  destruct (String.eqb k ScopeKeyTenantID) eqn:E2; [apply String.eqb_eq in E2; subst|apply String.eqb_neq in E2].
  { destruct (String.eqb (sc_TenantID s) "") eqn:E; crush_bool; repeat case_decide; try tauto;
      destruct_and?; try discriminate; done. }
  destruct (String.eqb k ScopeKeyAgentID) eqn:E3; [apply String.eqb_eq in E3; subst|apply String.eqb_neq in E3].
  { destruct (String.eqb (sc_AgentID s) "") eqn:E; crush_bool; repeat case_decide; try tauto;
      destruct_and?; try discriminate; done. }
  repeat case_decide; try tauto; done.
Qed.

Lemma resolve_tags_app c ctx keys (tags : gmap string string) k :
  fold_left (resolve_tag c ctx) keys tags !! k =
  if decide (k ∈ keys /\ from_option (fun r => r ctx) "" (TagResolvers c !! k) <> "")
  then Some (from_option (fun r => r ctx) "" (TagResolvers c !! k)) else tags !! k.
Proof.
  revert tags. induction keys as [|key keys IH]; intros tags; simpl fold_left.
  - case_decide as H; [|done]. destruct H as [H _]. by apply not_elem_of_nil in H.
  - rewrite IH. clear IH. unfold resolve_tag.
    destruct (decide (k = key)) as [->|Hne].
    + destruct (TagResolvers c !! key) as [r|] eqn:Er; simpl.
      * destruct (String.eqb (r ctx) "") eqn:E; crush_bool; repeat case_decide; try tauto.
        -- destruct H0. split; [left|done].
        -- by rewrite lookup_insert_eq.
        -- destruct H0. split; [left|done].
      * repeat case_decide; tauto.
    + assert (Hiff : k ∈ key :: keys <-> k ∈ keys) by (rewrite elem_of_cons; tauto).
      destruct (TagResolvers c !! key) as [r|]; [destruct (String.eqb (r ctx) "")|];
        repeat case_decide; try tauto; by rewrite lookup_insert_ne.
Qed.

(** Resolution fails exactly when an extra key has no resolver; otherwise the tags are
    exactly the extra keys whose resolver answers a non-empty value. *)
Theorem Resolve_tags c ctx :
  ((exists e, Resolve c ctx = inl e) <-> exists k, k ∈ ExtraKeys c /\ TagResolvers c !! k = None) /\
  (forall s, Resolve c ctx = inr s -> forall k v,
     sc_Tags s !! k = Some v <->
     k ∈ ExtraKeys c /\ v <> "" /\ exists r, TagResolvers c !! k = Some r /\ r ctx = v).
Proof.
  unfold Resolve, ScopeConfig_Validate. split.
  - destruct (find _ _) as [k|] eqn:E; simpl.
    + apply find_some in E as [Hin Hb]. apply bool_decide_eq_true in Hb.
      split; [|eauto]. intros _. exists k. split; [by apply list_elem_of_In|done].
    + split; [by intros [? ?]|]. intros (k & Hin & Hk).
      eapply find_none in E; [|by apply list_elem_of_In]. simpl in E.
      by apply bool_decide_eq_false in E.
  - destruct (find _ _); simpl; [done|]. intros s [= <-] k v. simpl. unfold resolve_tags.
    rewrite resolve_tags_app. case_decide as H.
    + destruct H as [Hin Hne]. destruct (TagResolvers c !! k) as [r|] eqn:Er; simpl in *; [|done].
      split; [intros [= <-]; eauto|]. intros (_ & _ & r' & [= ->] & <-). done.
    + rewrite lookup_empty. split; [done|]. intros (Hin & Hv & r & Hr & <-). exfalso. apply H.
      by rewrite Hr.
Qed.

(** The checks of [Validate] after the kind, on defaulted settings. *)
Lemma store_tail_valid s (P : Prop) :
  P ->
  (if negb (String.eqb (if String.eqb (st_Mode s) "" then DefaultStoreMode else st_Mode s) StoreModeOnDemand
            || String.eqb (if String.eqb (st_Mode s) "" then DefaultStoreMode else st_Mode s) StoreModeAlways)
   then Some (InvalidStoreMode (if String.eqb (st_Mode s) "" then DefaultStoreMode else st_Mode s))
   else if String.eqb (if String.eqb (st_Mode s) "" then DefaultStoreMode else st_Mode s) StoreModeOnDemand
           && bool_decide (is_Some (st_Extract s))
   then Some ExtractOnDemand
   else if f64_ltb (if f64_leb (st_DedupMinScore s) f64_zero then defaultDedupMinScore else st_DedupMinScore s) f64_zero
           || f64_ltb (f32_of_Z 1) (if f64_leb (st_DedupMinScore s) f64_zero then defaultDedupMinScore else st_DedupMinScore s)
   then Some (DedupMinScoreRange (if f64_leb (st_DedupMinScore s) f64_zero then defaultDedupMinScore else st_DedupMinScore s))
   else None) = None <->
  P /\
  (st_Mode s = "" \/ st_Mode s = StoreModeOnDemand \/ st_Mode s = StoreModeAlways) /\
  (st_Mode s <> StoreModeAlways -> st_Extract s = None) /\
  (f64_leb (st_DedupMinScore s) f64_zero = true \/ f64_ltb (f32_of_Z 1) (st_DedupMinScore s) = false /\
   f64_ltb (st_DedupMinScore s) f64_zero = false).
Proof.
  intros HP.
  set (d := if f64_leb (st_DedupMinScore s) f64_zero then defaultDedupMinScore else st_DedupMinScore s).
  assert (Hd : f64_ltb d f64_zero || f64_ltb (f32_of_Z 1) d = false <->
     f64_leb (st_DedupMinScore s) f64_zero = true \/
     f64_ltb (f32_of_Z 1) (st_DedupMinScore s) = false /\ f64_ltb (st_DedupMinScore s) f64_zero = false).
  { subst d. destruct (f64_leb (st_DedupMinScore s) f64_zero).
    - split; [by left|]. intros _. by vm_compute.
    - rewrite orb_false_iff. naive_solver. }
  assert (Hm : (String.eqb (st_Mode s) "" = true /\ st_Mode s = "") \/
     (String.eqb (st_Mode s) "" = false /\ String.eqb (st_Mode s) StoreModeOnDemand = true /\
        st_Mode s = StoreModeOnDemand) \/
     (String.eqb (st_Mode s) "" = false /\ String.eqb (st_Mode s) StoreModeOnDemand = false /\
        String.eqb (st_Mode s) StoreModeAlways = true /\ st_Mode s = StoreModeAlways) \/
     (String.eqb (st_Mode s) "" = false /\ String.eqb (st_Mode s) StoreModeOnDemand = false /\
        String.eqb (st_Mode s) StoreModeAlways = false /\
        ~ (st_Mode s = "" \/ st_Mode s = StoreModeOnDemand \/ st_Mode s = StoreModeAlways))).
  { destruct (String.eqb (st_Mode s) "") eqn:E1; [left; by apply String.eqb_eq in E1|].
    destruct (String.eqb (st_Mode s) StoreModeOnDemand) eqn:E2; [right; left; by apply String.eqb_eq in E2|].
    destruct (String.eqb (st_Mode s) StoreModeAlways) eqn:E3; crush_bool; naive_solver. }
  revert Hd. generalize (f64_leb (st_DedupMinScore s) f64_zero = true \/
     f64_ltb (f32_of_Z 1) (st_DedupMinScore s) = false /\ f64_ltb (st_DedupMinScore s) f64_zero = false).
  intros D Hd.
  destruct Hm as [[E1 Hm]|[(E1 & E2 & Hm)|[(E1 & E2 & E3 & Hm)|(E1 & E2 & E3 & Hm)]]];
    rewrite E1, ?E2, ?E3; simpl; [| | |split; [done|tauto]]; rewrite Hm.
  - destruct (st_Extract s); simpl; [split; [done|]; intros (_ & _ & H & _); by discriminate H|].
    destruct (_ || _); split; try done; [intros (_ & _ & _ & H); apply Hd in H; discriminate H|]. intros _. repeat split; [done|by left|]. by apply Hd.
  - destruct (st_Extract s); simpl; [split; [done|]; intros (_ & _ & H & _); by discriminate H|].
    destruct (_ || _); split; try done; [intros (_ & _ & _ & H); apply Hd in H; discriminate H|]. intros _. repeat split; [done|by right; left|]. by apply Hd.
  - destruct (_ || _); split; try done; [intros (_ & _ & _ & H); apply Hd in H; discriminate H|]. intros _. repeat split; [done|by right; right|done|]. by apply Hd.
Qed.

(** Validation after defaults: which user settings still fail. *)
Theorem defaults_validate s :
  StoreConfig_Validate (StoreConfig_WithDefaults s) = None <->
  (st_AllowedKinds s = [] \/
   (if String.eqb (st_DefaultKind s) "" then KindNote else st_DefaultKind s) ∈ st_AllowedKinds s) /\
  (st_Mode s = "" \/ st_Mode s = StoreModeOnDemand \/ st_Mode s = StoreModeAlways) /\
  (st_Mode s <> StoreModeAlways -> st_Extract s = None) /\
  (f64_leb (st_DedupMinScore s) f64_zero = true \/ f64_ltb (f32_of_Z 1) (st_DedupMinScore s) = false /\
   f64_ltb (st_DedupMinScore s) f64_zero = false).
Proof.
  unfold StoreConfig_Validate, ResolveKind, StoreConfig_WithDefaults. cbn [st_DefaultKind st_AllowedKinds st_Mode st_Extract st_DedupMinScore].
  cbv zeta. rewrite String.eqb_refl.
  set (dk := if String.eqb (st_DefaultKind s) "" && bool_decide (st_AllowedKinds s = []) then KindNote else st_DefaultKind s).
  assert (Hdk : (if String.eqb dk "" then KindNote else dk) =
                (if String.eqb (st_DefaultKind s) "" then KindNote else st_DefaultKind s)).
  { subst dk. destruct (String.eqb (st_DefaultKind s) "") eqn:E; simpl; [|by rewrite E].
    case_bool_decide; [done|by rewrite E]. }
  rewrite Hdk. set (k := if String.eqb (st_DefaultKind s) "" then KindNote else st_DefaultKind s).
  destruct (existsb (String.eqb k) (st_AllowedKinds s)) eqn:Ex.
  2: { assert (Hn : k ∉ st_AllowedKinds s).
       { intros Hin. assert (existsb (String.eqb k) (st_AllowedKinds s) = true); [|congruence].
         apply existsb_exists. exists k. rewrite String.eqb_refl. split; [by apply list_elem_of_In|done]. }
       destruct (st_AllowedKinds s) as [|a l]; [|rewrite Ex; split; [done|intros ([?|?] & _); done]].
       apply (store_tail_valid s _ (or_introl eq_refl)). }
  assert (Hin : k ∈ st_AllowedKinds s).
  { apply existsb_exists in Ex as (x & ? & Hx). apply String.eqb_eq in Hx as ->. by apply list_elem_of_In. }
  destruct (st_AllowedKinds s) as [|a l]; [by apply not_elem_of_nil in Hin|]. rewrite Ex.
  apply (store_tail_valid s _ (or_intror Hin)).
Qed.

(** ** Witnesses *)

Definition sample_store : StoreConfig :=
  {| st_Mode := ""; st_DedupMinScore := f64_zero; st_Extract := None; st_DefaultKind := KindFact;
     st_AllowedKinds := [KindFact; KindPreference] |}.

Definition sample_config : MemConfig :=
  {| mc_Memory := true; mc_ScopeConfig := DefaultScopeConfig; mc_TTLPolicy := DefaultTTLPolicy;
     mc_Store := sample_store; mc_Recall := DefaultRecallConfig |}.

Lemma ResolveKind_sound_witness : KindFact <> "" /\ KindFact ∈ st_AllowedKinds sample_store.
Proof.
  destruct (ResolveKind_sound sample_config "" KindFact 0) as (H1 & _ & H2 & _); [reflexivity|].
  split; [exact H1|apply H2; discriminate].
Defined.
