(* ===== verification/Telemetry.v ===== *)
(** Operational counters of a run ([internal/types/telemetry.go]) and the run result
    ([internal/types/agent.go]).  The [int64] counters are incremented once per call of one
    process, so they are unbounded integers here. *)
From S2P Require Import Prelude GoLib Types.

#[local] Open Scope string_scope.
#[local] Open Scope list_scope.
#[local] Open Scope Z_scope.

Definition FinishReasonComplete : string := "complete".
Definition FinishReasonMaxIterations : string := "max_iterations".
Definition FinishReasonBudgetExceeded : string := "budget_exceeded".

Record RunTelemetry := {
  rt_StartedAt : Time; rt_CompletedAt : Time; rt_TotalLLMCalls : Z; rt_LLMRetryCount : Z;
  rt_FinishReason : string }.

Record ToolTelemetry := {
  tt_TotalCalls : Z; tt_FailedCalls : Z;
  tt_Breakdown : gmap string Z; tt_FailedBreakdown : gmap string Z }.

Record StorageTelemetry := {
  sg_TotalRetrieverSearches : Z; sg_FailedRetrieverSearches : Z;
  sg_PrefetchSearches : Z; sg_AgenticSearches : Z;
  sg_TotalMemoryRecalls : Z; sg_FailedMemoryRecalls : Z;
  sg_TotalMemoryStores : Z; sg_FailedMemoryStores : Z }.

Record AgentTelemetry := {
  at_Run : RunTelemetry; at_Tools : ToolTelemetry; at_Storage : StorageTelemetry }.

Record AgentRunResult := {
  ar_Content : string; ar_AgentName : string; ar_Model : string;
  ar_Metadata : option Args;   (* a nil map is [None] *)
  ar_RunID : string;
  ar_LLMUsage : option LLMUsage; ar_Telemetry : option AgentTelemetry }.

(** [m[k]++] *)
Definition incr (k : string) (m : gmap string Z) : gmap string Z :=
  <[k := default 0 (m !! k) + 1]> m.

(** [ToolTelemetry.Record]; a nil map and an empty map are both [∅]. *)
Definition Record_ (t : ToolTelemetry) (name : string) (failed : bool) : ToolTelemetry :=
  {| tt_TotalCalls := tt_TotalCalls t + 1;
     tt_FailedCalls := if failed then tt_FailedCalls t + 1 else tt_FailedCalls t;
     tt_Breakdown := if String.eqb name "" then tt_Breakdown t else incr name (tt_Breakdown t);
     tt_FailedBreakdown :=
       if failed && negb (String.eqb name "") then incr name (tt_FailedBreakdown t)
       else tt_FailedBreakdown t |}.

Definition zero_tools : ToolTelemetry :=
  {| tt_TotalCalls := 0; tt_FailedCalls := 0; tt_Breakdown := ∅; tt_FailedBreakdown := ∅ |}.
Definition zero_storage : StorageTelemetry :=
  {| sg_TotalRetrieverSearches := 0; sg_FailedRetrieverSearches := 0; sg_PrefetchSearches := 0;
     sg_AgenticSearches := 0; sg_TotalMemoryRecalls := 0; sg_FailedMemoryRecalls := 0;
     sg_TotalMemoryStores := 0; sg_FailedMemoryStores := 0 |}.

(** [base.NewAgentTelemetry] *)
Definition NewAgentTelemetry (startedAt : Time) : AgentTelemetry :=
  {| at_Run := {| rt_StartedAt := startedAt; rt_CompletedAt := 0; rt_TotalLLMCalls := 0;
                  rt_LLMRetryCount := 0; rt_FinishReason := FinishReasonComplete |};
     at_Tools := zero_tools; at_Storage := zero_storage |}.

(** ** Field updates used by the loop *)

Definition upd_run (f : RunTelemetry -> RunTelemetry) (t : AgentTelemetry) : AgentTelemetry :=
  {| at_Run := f (at_Run t); at_Tools := at_Tools t; at_Storage := at_Storage t |}.
Definition upd_tools (f : ToolTelemetry -> ToolTelemetry) (t : AgentTelemetry) : AgentTelemetry :=
  {| at_Run := at_Run t; at_Tools := f (at_Tools t); at_Storage := at_Storage t |}.
Definition upd_storage (f : StorageTelemetry -> StorageTelemetry) (t : AgentTelemetry) : AgentTelemetry :=
  {| at_Run := at_Run t; at_Tools := at_Tools t; at_Storage := f (at_Storage t) |}.

Definition add_llm_call (r : RunTelemetry) : RunTelemetry :=
  {| rt_StartedAt := rt_StartedAt r; rt_CompletedAt := rt_CompletedAt r;
     rt_TotalLLMCalls := rt_TotalLLMCalls r + 1; rt_LLMRetryCount := rt_LLMRetryCount r;
     rt_FinishReason := rt_FinishReason r |}.
Definition set_finish (reason : string) (r : RunTelemetry) : RunTelemetry :=
  {| rt_StartedAt := rt_StartedAt r; rt_CompletedAt := rt_CompletedAt r;
     rt_TotalLLMCalls := rt_TotalLLMCalls r; rt_LLMRetryCount := rt_LLMRetryCount r;
     rt_FinishReason := reason |}.
Definition set_completed (now : Time) (r : RunTelemetry) : RunTelemetry :=
  {| rt_StartedAt := rt_StartedAt r; rt_CompletedAt := now;
     rt_TotalLLMCalls := rt_TotalLLMCalls r; rt_LLMRetryCount := rt_LLMRetryCount r;
     rt_FinishReason := rt_FinishReason r |}.

(** Adds to the retriever counters (total, failed, prefetch, agentic). *)
Definition add_searches (total failed prefetch agentic : Z) (s : StorageTelemetry) : StorageTelemetry :=
  {| sg_TotalRetrieverSearches := sg_TotalRetrieverSearches s + total;
     sg_FailedRetrieverSearches := sg_FailedRetrieverSearches s + failed;
     sg_PrefetchSearches := sg_PrefetchSearches s + prefetch;
     sg_AgenticSearches := sg_AgenticSearches s + agentic;
     sg_TotalMemoryRecalls := sg_TotalMemoryRecalls s; sg_FailedMemoryRecalls := sg_FailedMemoryRecalls s;
     sg_TotalMemoryStores := sg_TotalMemoryStores s; sg_FailedMemoryStores := sg_FailedMemoryStores s |}.

(** Adds to the memory counters (recalls, failed recalls, stores, failed stores). *)
Definition add_memory (recalls failedRecalls stores failedStores : Z) (s : StorageTelemetry) : StorageTelemetry :=
  {| sg_TotalRetrieverSearches := sg_TotalRetrieverSearches s;
     sg_FailedRetrieverSearches := sg_FailedRetrieverSearches s;
     sg_PrefetchSearches := sg_PrefetchSearches s; sg_AgenticSearches := sg_AgenticSearches s;
     sg_TotalMemoryRecalls := sg_TotalMemoryRecalls s + recalls;
     sg_FailedMemoryRecalls := sg_FailedMemoryRecalls s + failedRecalls;
     sg_TotalMemoryStores := sg_TotalMemoryStores s + stores;
     sg_FailedMemoryStores := sg_FailedMemoryStores s + failedStores |}.

(** ** Theorems *)

Definition record_all (calls : list (string * bool)) (t : ToolTelemetry) : ToolTelemetry :=
  fold_left (fun t c => Record_ t c.1 c.2) calls t.

Definition count_calls (p : string * bool -> bool) (calls : list (string * bool)) : Z :=
  Z.of_nat (length (List.filter p calls)).

Lemma lookup_incr k k' m :
  default 0 (incr k m !! k') = default 0 (m !! k') + (if String.eqb k k' then 1 else 0).
Proof.
  unfold incr. destruct (String.eqb k k') eqn:E; crush_bool.
  - subst. by rewrite lookup_insert_eq.
  - rewrite lookup_insert_ne by done. lia.
Qed.

(** The telemetry of a run is the count of its recorded calls: totals over all calls, each
    breakdown entry over the calls of that (non-empty) name, whatever the order. *)
Theorem telemetry_counts (calls : list (string * bool)) (t : ToolTelemetry) :
  let r := record_all calls t in
  tt_TotalCalls r = tt_TotalCalls t + Z.of_nat (length calls) /\
  tt_FailedCalls r = tt_FailedCalls t + count_calls (fun c => c.2) calls /\
  forall name, name <> "" ->
    default 0 (tt_Breakdown r !! name) =
      default 0 (tt_Breakdown t !! name) + count_calls (fun c => String.eqb c.1 name) calls /\
    default 0 (tt_FailedBreakdown r !! name) =
      default 0 (tt_FailedBreakdown t !! name) + count_calls (fun c => c.2 && String.eqb c.1 name) calls.
Proof.
  cbv zeta. unfold record_all, count_calls. revert t.
  induction calls as [|[n f] calls IH]; intros t; simpl; [repeat split; intros; lia|].
  destruct (IH (Record_ t n f)) as (H1 & H2 & H3). rewrite H1, H2. simpl.
  repeat split; [lia|destruct f; simpl; lia| |]; destruct (H3 name) as [H4 H5]; auto.
  - rewrite H4. unfold Record_; simpl. destruct (String.eqb n "") eqn:En.
    + apply String.eqb_eq in En as ->. replace (String.eqb "" name) with false; [lia|].
      symmetry. by apply String.eqb_neq.
    + rewrite lookup_incr. destruct (String.eqb n name); simpl; lia.
  - rewrite H5. unfold Record_; simpl. destruct f; simpl; [|lia].
    destruct (String.eqb n "") eqn:En; simpl.
    + apply String.eqb_eq in En as ->. replace (String.eqb "" name) with false; [lia|].
      symmetry. by apply String.eqb_neq.
    + rewrite lookup_incr. destruct (String.eqb n name); simpl; lia.
Qed.

Lemma telemetry_counts_witness :
  default 0 (tt_FailedBreakdown (record_all [("a", true); ("", false); ("b", false); ("a", false)] zero_tools) !! "a") = 1.
Proof.
  destruct (telemetry_counts [("a", true); ("", false); ("b", false); ("a", false)] zero_tools) as (_ & _ & H).
  destruct (H "a") as [_ ->]; [discriminate|]. reflexivity.
Defined.
