(* ===== verification/Events.v ===== *)
(** Agent events ([internal/events]): the AG-UI event values the runtimes publish.  Their wire
    format is in [EventsCodec]. *)
From S2P Require Import Prelude GoLib Types JsonText Telemetry.

#[local] Open Scope string_scope.
#[local] Open Scope list_scope.
#[local] Open Scope Z_scope.

(** The payload of a CUSTOM event, an [any]: one of the typed values, or what a decoder leaves. The
    [Result] of a replayed step, a [json.RawMessage], is the JSON value its text spells. *)
Inductive CustomValue :=
| AnyValue (v : value)
| AgentCustomEventApprovalValue (AgentName ToolCallID ToolName ToolDisplayName : string) (args : Args) (token : string)
| AgentCustomEventDelegationValue (AgentName SubAgentName ToolCallID : string) (args : Args) (token : string)
| AgentCustomEventBudgetValue (AgentName Detail : string) (TotalTokens : Z) (CostUSD : f64) (token : string)
| AgentCustomEventStepReplayedValue (StepID Status : string) (Result : option json) (StartedAt CompletedAt : string).

Inductive EventBody :=
| AgentRunStartedEvent (ThreadID RunID ParentRunID : string)
| AgentRunFinishedEvent (ThreadID RunID : string) (Result : option AgentRunResult)
| AgentRunErrorEvent (Message : string) (Code : option string)
| AgentStepStartedEvent (StepName : string)
| AgentStepFinishedEvent (StepName : string)
| AgentTextMessageStartEvent (MessageID Role : string)
| AgentTextMessageContentEvent (MessageID Delta : string)
| AgentTextMessageEndEvent (MessageID : string)
| AgentToolCallStartEvent (ToolCallID ToolCallName ParentMessageID : string)
| AgentToolCallArgsEvent (ToolCallID Delta : string)
| AgentToolCallEndEvent (ToolCallID : string)
| AgentToolCallResultEvent (MessageID ToolCallID Content Role : string)
| AgentReasoningStartEvent (MessageID : string)
| AgentReasoningMessageStartEvent (MessageID Role : string)
| AgentReasoningMessageContentEvent (MessageID Delta : string)
| AgentReasoningMessageEndEvent (MessageID : string)
| AgentReasoningEndEvent (MessageID : string)
| AgentRawEvent (Event : value) (Source : string)
| AgentCustomEvent (Name : string) (Value : CustomValue).

Definition AgentEventAll : string := "*".

(** [AgentEvent.Type()] *)
Definition Type_ (e : EventBody) : string :=
  match e with
  | AgentRunStartedEvent _ _ _ => "RUN_STARTED"
  | AgentRunFinishedEvent _ _ _ => "RUN_FINISHED"
  | AgentRunErrorEvent _ _ => "RUN_ERROR"
  | AgentStepStartedEvent _ => "STEP_STARTED"
  | AgentStepFinishedEvent _ => "STEP_FINISHED"
  | AgentTextMessageStartEvent _ _ => "TEXT_MESSAGE_START"
  | AgentTextMessageContentEvent _ _ => "TEXT_MESSAGE_CONTENT"
  | AgentTextMessageEndEvent _ => "TEXT_MESSAGE_END"
  | AgentToolCallStartEvent _ _ _ => "TOOL_CALL_START"
  | AgentToolCallArgsEvent _ _ => "TOOL_CALL_ARGS"
  | AgentToolCallEndEvent _ => "TOOL_CALL_END"
  | AgentToolCallResultEvent _ _ _ _ => "TOOL_CALL_RESULT"
  | AgentReasoningStartEvent _ => "REASONING_START"
  | AgentReasoningMessageStartEvent _ _ => "REASONING_MESSAGE_START"
  | AgentReasoningMessageContentEvent _ _ => "REASONING_MESSAGE_CONTENT"
  | AgentReasoningMessageEndEvent _ => "REASONING_MESSAGE_END"
  | AgentReasoningEndEvent _ => "REASONING_END"
  | AgentRawEvent _ _ => "RAW"
  | AgentCustomEvent _ _ => "CUSTOM"
  end.

(** The events of a run's life (the [RUN_*] types; [STEP_*] events belong to delegations),
    published by the drivers of a run and not by the loop. *)
Definition is_lifecycle (e : EventBody) : bool :=
  match e with
  | AgentRunStartedEvent _ _ _ | AgentRunFinishedEvent _ _ _ | AgentRunErrorEvent _ _ => true
  | _ => false
  end.

(** An event: its body and the creation timestamp of [NewBaseEvent] (Unix milliseconds). *)
Record AgentEvent := { ae_Body : EventBody; ae_Timestamp : Z }.

(** [NewBaseEvent] at time [now]; every [NewAgent...Event] builds its event on it. *)
Definition NewEvent (b : EventBody) (now : Time) : AgentEvent :=
  {| ae_Body := b; ae_Timestamp := (now - unix_epoch) / 1000000 |}.

Definition AgentCustomEventNameToolApproval : string := "tool_approval".
Definition AgentCustomEventNameSubAgentDelegation : string := "sub_agent_delegation".
Definition AgentCustomEventNameBudget : string := "budget_approval".
Definition AgentCustomEventNameStepReplayed : string := "step_replayed".

(** The publish filter of the loop: nothing when the list is empty, everything with ["*"]. *)
Definition event_allowed (types : list string) (e : EventBody) : bool :=
  existsb (fun et => String.eqb et AgentEventAll || String.eqb et (Type_ e)) types.
