(* ===== verification/EventsCodec.v ===== *)
(** The wire format of agent events ([internal/events]): [ToJSON], [EventFromJSON] and the
    typed values of CUSTOM events, with the JSON of run results and their telemetry. *)
From S2P Require Import Prelude GoLib Types Codec JsonText JsonCodec TimeText Telemetry Events.

#[local] Open Scope string_scope.
#[local] Open Scope list_scope.
#[local] Open Scope Z_scope.

(** ** Struct codecs *)

(** A field list is decoded field by field. *)
Ltac in_fields := cbn; first [left; reflexivity | right; in_fields].

Ltac zero_law := first [apply empty_str_zero | apply empty_int_zero | apply empty_map_zero | apply empty_ptr_zero].

Ltac field_law He :=
  match type of He with
  | enc_fields ?fs = Some ?es =>
      match goal with
      | |- context [@dec_field ?A ?C ?z ?name es] =>
          let H := fresh "H" in
          eassert (H : @dec_field A C z name es = Some _);
          [first [ refine (@dec_omitempty fs es eq_refl He A C _ name _ _ _ _); [in_fields|zero_law|intros _]
                 | refine (@dec_required fs es eq_refl He A C name _ _ _); [in_fields|] ]; try (first [cbn; tauto | exact I | solve [repeat match goal with K : _ /\ _ |- _ => destruct K end; assumption]
                                                                          | solve [cbn; unfold when_some; case_match; done]])
          | rewrite H; clear H; cbn [mbind option_bind] ]
      end
  end.

Ltac struct_law dec :=
  let a := fresh "a" in let j := fresh "j" in let Hok := fresh "Hok" in let He := fresh "He" in
  intros a j Hok; cbn beta in Hok |- *; try red in Hok; unfold enc_struct;
  match goal with |- context [enc_fields ?fs] => destruct (enc_fields fs) eqn:He end; [|done]; intros [= <-]; unfold dec; cbn [dec_struct];
  repeat field_law He; try (destruct a; reflexivity).

(** ** Usage and telemetry *)

Definition usage_fields (u : LLMUsage) : field_list :=
  [omitempty (empty_int (u_PromptTokens u)) "prompt_tokens" (u_PromptTokens u);
   omitempty (empty_int (u_CompletionTokens u)) "completion_tokens" (u_CompletionTokens u);
   omitempty (empty_int (u_TotalTokens u)) "total_tokens" (u_TotalTokens u);
   omitempty (empty_int (u_CachedPromptTokens u)) "cached_prompt_tokens" (u_CachedPromptTokens u);
   omitempty (empty_int (u_ReasoningTokens u)) "reasoning_tokens" (u_ReasoningTokens u)].

Definition dec_usage (cur : LLMUsage) : json -> option LLMUsage := dec_struct cur (fun es =>
  p ← dec_field (u_PromptTokens cur) "prompt_tokens" es; c ← dec_field (u_CompletionTokens cur) "completion_tokens" es;
  t ← dec_field (u_TotalTokens cur) "total_tokens" es; k ← dec_field (u_CachedPromptTokens cur) "cached_prompt_tokens" es;
  r ← dec_field (u_ReasoningTokens cur) "reasoning_tokens" es;
  Some {| u_PromptTokens := p; u_CompletionTokens := c; u_TotalTokens := t; u_CachedPromptTokens := k; u_ReasoningTokens := r |}).

Definition usage_ok (u : LLMUsage) : Prop :=
  in64 (u_PromptTokens u) /\ in64 (u_CompletionTokens u) /\ in64 (u_TotalTokens u) /\ in64 (u_CachedPromptTokens u) /\
  in64 (u_ReasoningTokens u).

#[export] Program Instance usage_codec : Codec LLMUsage :=
  {| c_zero := {| u_PromptTokens := 0; u_CompletionTokens := 0; u_TotalTokens := 0; u_CachedPromptTokens := 0; u_ReasoningTokens := 0 |};
     c_enc u := enc_struct (usage_fields u); c_dec := dec_usage; c_ok := usage_ok |}.
Next Obligation. struct_law dec_usage. Qed.

#[export] Instance struct_non_null_usage : NonNull LLMUsage.
Proof. intros u. apply enc_struct_non_null. Qed.

(** A nil map of counters and an empty one are not told apart. *)
Definition tool_fields (t : ToolTelemetry) : field_list :=
  [required "total_calls" (tt_TotalCalls t); required "failed_calls" (tt_FailedCalls t);
   omitempty (empty_map (tt_Breakdown t)) "breakdown" (tt_Breakdown t);
   omitempty (empty_map (tt_FailedBreakdown t)) "failed_breakdown" (tt_FailedBreakdown t)].

Definition dec_tools (cur : ToolTelemetry) : json -> option ToolTelemetry := dec_struct cur (fun es =>
  t ← dec_field (tt_TotalCalls cur) "total_calls" es; f ← dec_field (tt_FailedCalls cur) "failed_calls" es;
  b ← dec_field (tt_Breakdown cur) "breakdown" es; fb ← dec_field (tt_FailedBreakdown cur) "failed_breakdown" es;
  Some {| tt_TotalCalls := t; tt_FailedCalls := f; tt_Breakdown := b; tt_FailedBreakdown := fb |}).

Definition tools_ok (t : ToolTelemetry) : Prop :=
  in64 (tt_TotalCalls t) /\ in64 (tt_FailedCalls t) /\ map_Forall (fun _ n => in64 n) (tt_Breakdown t) /\
  map_Forall (fun _ n => in64 n) (tt_FailedBreakdown t).

#[export] Program Instance tools_codec : Codec ToolTelemetry :=
  {| c_zero := zero_tools; c_enc t := enc_struct (tool_fields t); c_dec := dec_tools; c_ok := tools_ok |}.
Next Obligation. struct_law dec_tools. Qed.

Definition storage_fields (t : StorageTelemetry) : field_list :=
  [required "total_retriever_searches" (sg_TotalRetrieverSearches t);
   required "failed_retriever_searches" (sg_FailedRetrieverSearches t);
   omitempty (empty_int (sg_PrefetchSearches t)) "prefetch_searches" (sg_PrefetchSearches t);
   omitempty (empty_int (sg_AgenticSearches t)) "agentic_searches" (sg_AgenticSearches t);
   omitempty (empty_int (sg_TotalMemoryRecalls t)) "total_memory_recalls" (sg_TotalMemoryRecalls t);
   omitempty (empty_int (sg_FailedMemoryRecalls t)) "failed_memory_recalls" (sg_FailedMemoryRecalls t);
   omitempty (empty_int (sg_TotalMemoryStores t)) "total_memory_stores" (sg_TotalMemoryStores t);
   omitempty (empty_int (sg_FailedMemoryStores t)) "failed_memory_stores" (sg_FailedMemoryStores t)].

Definition dec_storage (cur : StorageTelemetry) : json -> option StorageTelemetry := dec_struct cur (fun es =>
  a ← dec_field (sg_TotalRetrieverSearches cur) "total_retriever_searches" es;
  b ← dec_field (sg_FailedRetrieverSearches cur) "failed_retriever_searches" es;
  c ← dec_field (sg_PrefetchSearches cur) "prefetch_searches" es; d ← dec_field (sg_AgenticSearches cur) "agentic_searches" es;
  e ← dec_field (sg_TotalMemoryRecalls cur) "total_memory_recalls" es;
  f ← dec_field (sg_FailedMemoryRecalls cur) "failed_memory_recalls" es;
  g ← dec_field (sg_TotalMemoryStores cur) "total_memory_stores" es;
  h ← dec_field (sg_FailedMemoryStores cur) "failed_memory_stores" es;
  Some {| sg_TotalRetrieverSearches := a; sg_FailedRetrieverSearches := b; sg_PrefetchSearches := c; sg_AgenticSearches := d;
          sg_TotalMemoryRecalls := e; sg_FailedMemoryRecalls := f; sg_TotalMemoryStores := g; sg_FailedMemoryStores := h |}).

Definition storage_ok (t : StorageTelemetry) : Prop :=
  in64 (sg_TotalRetrieverSearches t) /\ in64 (sg_FailedRetrieverSearches t) /\ in64 (sg_PrefetchSearches t) /\
  in64 (sg_AgenticSearches t) /\ in64 (sg_TotalMemoryRecalls t) /\ in64 (sg_FailedMemoryRecalls t) /\
  in64 (sg_TotalMemoryStores t) /\ in64 (sg_FailedMemoryStores t).

#[export] Program Instance storage_codec : Codec StorageTelemetry :=
  {| c_zero := zero_storage; c_enc t := enc_struct (storage_fields t); c_dec := dec_storage; c_ok := storage_ok |}.
Next Obligation. struct_law dec_storage. Qed.

Section telemetry.
Context `{Location}.

Definition run_fields (r : RunTelemetry) : field_list :=
  [required (H := time_codec) "started_at" (rt_StartedAt r); required (H := time_codec) "completed_at" (rt_CompletedAt r);
   required "total_llm_calls" (rt_TotalLLMCalls r);
   omitempty (empty_int (rt_LLMRetryCount r)) "llm_retry_count" (rt_LLMRetryCount r);
   required "finish_reason" (rt_FinishReason r)].

Definition dec_run (cur : RunTelemetry) : json -> option RunTelemetry := dec_struct cur (fun es =>
  s ← dec_field (H := time_codec) (rt_StartedAt cur) "started_at" es;
  c ← dec_field (H := time_codec) (rt_CompletedAt cur) "completed_at" es;
  t ← dec_field (rt_TotalLLMCalls cur) "total_llm_calls" es; l ← dec_field (rt_LLMRetryCount cur) "llm_retry_count" es;
  f ← dec_field (rt_FinishReason cur) "finish_reason" es;
  Some {| rt_StartedAt := s; rt_CompletedAt := c; rt_TotalLLMCalls := t; rt_LLMRetryCount := l; rt_FinishReason := f |}).

Definition run_ok (r : RunTelemetry) : Prop :=
  time_ok (zone_of (rt_StartedAt r)) (rt_StartedAt r) /\ time_ok (zone_of (rt_CompletedAt r)) (rt_CompletedAt r) /\
  in64 (rt_TotalLLMCalls r) /\ in64 (rt_LLMRetryCount r).

#[export] Program Instance run_codec : Codec RunTelemetry :=
  {| c_zero := {| rt_StartedAt := 0; rt_CompletedAt := 0; rt_TotalLLMCalls := 0; rt_LLMRetryCount := 0; rt_FinishReason := "" |};
     c_enc r := enc_struct (run_fields r); c_dec := dec_run; c_ok := run_ok |}.
Next Obligation. struct_law dec_run. Qed.

Definition telemetry_fields (t : AgentTelemetry) : field_list :=
  [required "run" (at_Run t); required "tools" (at_Tools t); required "storage" (at_Storage t)].

Definition dec_telemetry (cur : AgentTelemetry) : json -> option AgentTelemetry := dec_struct cur (fun es =>
  r ← dec_field (at_Run cur) "run" es; t ← dec_field (at_Tools cur) "tools" es; s ← dec_field (at_Storage cur) "storage" es;
  Some {| at_Run := r; at_Tools := t; at_Storage := s |}).

Definition telemetry_ok (t : AgentTelemetry) : Prop := run_ok (at_Run t) /\ tools_ok (at_Tools t) /\ storage_ok (at_Storage t).

#[export] Program Instance telemetry_codec : Codec AgentTelemetry :=
  {| c_zero := {| at_Run := c_zero; at_Tools := c_zero; at_Storage := c_zero |};
     c_enc t := enc_struct (telemetry_fields t); c_dec := dec_telemetry; c_ok := telemetry_ok |}.
Next Obligation. struct_law dec_telemetry. Qed.

#[export] Instance telemetry_non_null : NonNull AgentTelemetry.
Proof. intros t. apply enc_struct_non_null. Qed.

(** ** Results *)

Definition result_fields (r : AgentRunResult) : field_list :=
  [required "content" (ar_Content r); required "agent_name" (ar_AgentName r); required "model" (ar_Model r);
   required "metadata" (ar_Metadata r);
   omitempty (empty_str (ar_RunID r)) "run_id" (ar_RunID r);
   omitempty (empty_ptr (ar_LLMUsage r)) "llm_usage" (ar_LLMUsage r);
   omitempty (empty_ptr (ar_Telemetry r)) "telemetry" (ar_Telemetry r)].

Definition dec_result (cur : AgentRunResult) : json -> option AgentRunResult := dec_struct cur (fun es =>
  c ← dec_field (ar_Content cur) "content" es; n ← dec_field (ar_AgentName cur) "agent_name" es;
  m ← dec_field (ar_Model cur) "model" es; md ← dec_field (ar_Metadata cur) "metadata" es;
  r ← dec_field (ar_RunID cur) "run_id" es; u ← dec_field (ar_LLMUsage cur) "llm_usage" es;
  t ← dec_field (ar_Telemetry cur) "telemetry" es;
  Some {| ar_Content := c; ar_AgentName := n; ar_Model := m; ar_Metadata := md; ar_RunID := r; ar_LLMUsage := u; ar_Telemetry := t |}).

Definition result_ok (r : AgentRunResult) : Prop :=
  when_some (map_Forall (fun _ v => value_ok v = true)) (ar_Metadata r) /\ when_some usage_ok (ar_LLMUsage r) /\
  when_some telemetry_ok (ar_Telemetry r).

#[export] Program Instance result_codec : Codec AgentRunResult :=
  {| c_zero := {| ar_Content := ""; ar_AgentName := ""; ar_Model := ""; ar_Metadata := None; ar_RunID := ""; ar_LLMUsage := None;
                  ar_Telemetry := None |};
     c_enc r := enc_struct (result_fields r); c_dec := dec_result; c_ok := result_ok |}.
Next Obligation. struct_law dec_result. Qed.

#[export] Instance result_non_null : NonNull AgentRunResult.
Proof. intros t. apply enc_struct_non_null. Qed.
End telemetry.

(** ** Values of CUSTOM events *)

Definition approval_fields (AgentName ToolCallID ToolName ToolDisplayName : string) (args : Args) (token : string) : field_list :=
  [omitempty (empty_str AgentName) "agentName" AgentName; omitempty (empty_str ToolCallID) "toolCallId" ToolCallID;
   required "toolName" ToolName; omitempty (empty_str ToolDisplayName) "toolDisplayName" ToolDisplayName;
   omitempty (empty_map args) "args" args; omitempty (empty_str token) "approvalToken" token].

Definition delegation_fields (AgentName SubAgentName ToolCallID : string) (args : Args) (token : string) : field_list :=
  [omitempty (empty_str AgentName) "agentName" AgentName; omitempty (empty_str SubAgentName) "subAgentName" SubAgentName;
   omitempty (empty_str ToolCallID) "toolCallId" ToolCallID; omitempty (empty_map args) "args" args;
   omitempty (empty_str token) "approvalToken" token].

Definition budget_fields (AgentName Detail : string) (TotalTokens : Z) (CostUSD : f64) (token : string) : field_list :=
  [omitempty (empty_str AgentName) "agentName" AgentName; omitempty (empty_str Detail) "detail" Detail;
   omitempty (empty_int TotalTokens) "totalTokens" TotalTokens; omitempty (empty_float CostUSD) "costUsd" CostUSD;
   omitempty (empty_str token) "approvalToken" token].

(** [json.RawMessage]: its JSON as it is; a nil one is [null], and any JSON is read, also [null]. *)
#[local] Program Instance raw_codec : Codec (option json) :=
  {| c_zero := None; c_enc r := Some (default JNull r); c_dec _ j := Some (Some j); c_ok r := r <> None |}.
Next Obligation. by intros [r|] j Hr [= <-]. Qed.

Definition step_fields (StepID Status : string) (Result : option json) (StartedAt CompletedAt : string) : field_list :=
  [required "stepId" StepID; required "status" Status;
   omitempty (H := raw_codec) (match Result with None => true | Some _ => false end) "result" Result;
   omitempty (empty_str StartedAt) "startedAt" StartedAt; omitempty (empty_str CompletedAt) "completedAt" CompletedAt].

Definition custom_fields (v : CustomValue) : field_list :=
  match v with
  | AnyValue _ => []
  | AgentCustomEventApprovalValue an id tn td args tok => approval_fields an id tn td args tok
  | AgentCustomEventDelegationValue an sn id args tok => delegation_fields an sn id args tok
  | AgentCustomEventBudgetValue an d t c tok => budget_fields an d t c tok
  | AgentCustomEventStepReplayedValue id st r a b => step_fields id st r a b
  end.

Definition enc_custom (v : CustomValue) : option json :=
  match v with AnyValue v => to_json v | _ => enc_struct (custom_fields v) end.

Definition zero_approval : CustomValue := AgentCustomEventApprovalValue "" "" "" "" ∅ "".
Definition zero_delegation : CustomValue := AgentCustomEventDelegationValue "" "" "" ∅ "".
Definition zero_budget : CustomValue := AgentCustomEventBudgetValue "" "" 0 f64_zero "".
Definition zero_step : CustomValue := AgentCustomEventStepReplayedValue "" "" None "" "".

Definition dec_approval : json -> option CustomValue := dec_struct zero_approval (fun es =>
  an ← dec_field "" "agentName" es; id ← dec_field "" "toolCallId" es; tn ← dec_field "" "toolName" es;
  td ← dec_field "" "toolDisplayName" es; args ← dec_field (∅ : Args) "args" es; tok ← dec_field "" "approvalToken" es;
  Some (AgentCustomEventApprovalValue an id tn td args tok)).

Definition dec_delegation : json -> option CustomValue := dec_struct zero_delegation (fun es =>
  an ← dec_field "" "agentName" es; sn ← dec_field "" "subAgentName" es; id ← dec_field "" "toolCallId" es;
  args ← dec_field (∅ : Args) "args" es; tok ← dec_field "" "approvalToken" es;
  Some (AgentCustomEventDelegationValue an sn id args tok)).

Definition dec_budget : json -> option CustomValue := dec_struct zero_budget (fun es =>
  an ← dec_field "" "agentName" es; d ← dec_field "" "detail" es; t ← dec_field 0 "totalTokens" es;
  c ← dec_field f64_zero "costUsd" es; tok ← dec_field "" "approvalToken" es;
  Some (AgentCustomEventBudgetValue an d t c tok)).

Definition dec_step : json -> option CustomValue := dec_struct zero_step (fun es =>
  id ← dec_field "" "stepId" es; st ← dec_field "" "status" es; r ← dec_field (H := raw_codec) None "result" es;
  a ← dec_field "" "startedAt" es; b ← dec_field "" "completedAt" es;
  Some (AgentCustomEventStepReplayedValue id st r a b)).

(** The decoder of a typed value. *)
Definition dec_like (v : CustomValue) : json -> option CustomValue :=
  match v with
  | AnyValue _ => fun j => AnyValue <$> of_json j
  | AgentCustomEventApprovalValue _ _ _ _ _ _ => dec_approval
  | AgentCustomEventDelegationValue _ _ _ _ _ => dec_delegation
  | AgentCustomEventBudgetValue _ _ _ _ _ => dec_budget
  | AgentCustomEventStepReplayedValue _ _ _ _ _ => dec_step
  end.

(** [parseCustomPayload]: a value of the wanted type is returned, another one is encoded and
    decoded. *)
Definition parseCustomPayload (wanted : CustomValue -> bool) (dec : json -> option CustomValue) (v : CustomValue)
    : option CustomValue :=
  if wanted v then Some v else enc_custom v ≫= dec.

Definition is_approval (v : CustomValue) : bool :=
  match v with AgentCustomEventApprovalValue _ _ _ _ _ _ => true | _ => false end.
Definition is_delegation (v : CustomValue) : bool :=
  match v with AgentCustomEventDelegationValue _ _ _ _ _ => true | _ => false end.
Definition is_budget (v : CustomValue) : bool :=
  match v with AgentCustomEventBudgetValue _ _ _ _ _ => true | _ => false end.
Definition is_step (v : CustomValue) : bool :=
  match v with AgentCustomEventStepReplayedValue _ _ _ _ _ => true | _ => false end.

Definition ParseCustomEventApproval (name : string) (v : CustomValue) : option CustomValue :=
  if String.eqb name AgentCustomEventNameToolApproval then parseCustomPayload is_approval dec_approval v else None.
Definition ParseCustomEventDelegation (name : string) (v : CustomValue) : option CustomValue :=
  if String.eqb name AgentCustomEventNameSubAgentDelegation then parseCustomPayload is_delegation dec_delegation v else None.
Definition ParseCustomEventBudget (name : string) (v : CustomValue) : option CustomValue :=
  if String.eqb name AgentCustomEventNameBudget then parseCustomPayload is_budget dec_budget v else None.
Definition ParseCustomEventStepReplayed (name : string) (v : CustomValue) : option CustomValue :=
  if String.eqb name AgentCustomEventNameStepReplayed then parseCustomPayload is_step dec_step v else None.

(** What is left of the JSON of a replayed step by a decoding into an [any]: keys are sorted, the last of equal
    keys stays, numbers are floats. *)
Definition normal (j : json) : option json := of_json j ≫= to_json.

(** The value a parser finds. *)
Definition reread (v : CustomValue) : CustomValue :=
  match v with
  | AgentCustomEventStepReplayedValue id st r a b => AgentCustomEventStepReplayedValue id st (r ≫= normal) a b
  | _ => v
  end.

(** Values that survive: floats that read back, counts a float holds, results that can be decoded. *)
Definition custom_ok (v : CustomValue) : Prop :=
  match v with
  | AnyValue v => value_ok v = true
  | AgentCustomEventApprovalValue _ _ _ _ args _ | AgentCustomEventDelegationValue _ _ _ args _ =>
      map_Forall (fun _ v => value_ok v = true) args
  | AgentCustomEventBudgetValue _ _ t c _ => in64 t /\ int_survives t = true /\ float_reads c = true /\ c <> SpecFloat.S754_zero true
  | AgentCustomEventStepReplayedValue _ _ r _ _ => when_some (fun j => is_Some (normal j)) r
  end.

Lemma empty_float_zero c : c <> SpecFloat.S754_zero true -> empty_float c = true -> c = f64_zero.
Proof. destruct c as [[]| | |]; try done; by destruct s. Qed.

Lemma custom_distinct v : distinct (map fst (custom_fields v)) = true.
Proof. by destruct v. Qed.

Lemma omitted_stable {A} `{Codec A} zero name (a : A) j : (zero = false -> c_enc a = Some j -> stable j) ->
  (omitempty zero name a).2 = Some (Some j) -> stable j.
Proof. unfold omitempty. cbn. destruct zero; [done|]. intros Hs. destruct (c_enc a); [|done]. intros [= ->]. auto. Qed.

(** Every entry of an encoded value is, after a decoding into an [any], the one of the value reread. *)
Lemma stable_normal j : stable j -> normal j = Some j.
Proof. intros (w & Hd & He). unfold normal. by rewrite Hd. Qed.

Lemma custom_stable v es : custom_ok v -> is_step v = false -> enc_fields (custom_fields v) = Some es -> Forall (fun kv => stable kv.2) es.
Proof.
  intros Hok Hns He. destruct (enc_fields_keys _ _ (custom_distinct v) He) as [_ HF].
  eapply Forall_impl; [exact HF|]. intros [k j] Hin. cbn in Hin |- *. clear He HF.
  assert (Hstr : forall z name (s : string), (omitempty z name s).2 = Some (Some j) -> stable j).
  { intros z name s. apply (omitted_stable z name s). intros _ [= <-]. apply stable_str. }
  destruct v as [v|an id tn td args tok|an sn id args tok|an d t c tok|]; [| | | |done];
    cbn [custom_fields approval_fields delegation_fields budget_fields] in Hin;
    [done|..]; repeat (destruct Hin as [Hin|Hin]; [|try done]); apply (f_equal snd) in Hin; cbn [snd] in Hin; try (by eapply Hstr).
  - injection Hin as <-. apply stable_str.
  - eapply (omitted_stable (empty_map args) "args" args); [|exact Hin]. intros _. by apply stable_map.
  - eapply (omitted_stable (empty_map args) "args" args); [|exact Hin]. intros _. by apply stable_map.
  - eapply (omitted_stable (empty_int t) "totalTokens" t); [|exact Hin]. intros _ [= <-]. apply stable_int. apply Hok.
  - eapply (omitted_stable (empty_float c) "costUsd" c); [|exact Hin]. intros _. apply stable_float. apply Hok.
Qed.

Lemma custom_normal v es : custom_ok v -> enc_fields (custom_fields v) = Some es ->
  exists es1, enc_fields (custom_fields (reread v)) = Some es1 /\
    Forall2 (fun kv kv' => kv'.1 = kv.1 /\ normal kv.2 = Some kv'.2) es es1.
Proof.
  intros Hok He. destruct (is_step v) eqn:Hs.
  - destruct v as [| | | |id st r a b]; try done. cbn [reread custom_fields custom_ok] in *.
    destruct r as [j|]; cbn [when_some] in Hok; [destruct Hok as [j' Hj]|]; cbn [mbind option_bind] in *; rewrite ?Hj;
      unfold step_fields, omitempty, required in *; cbn [c_enc raw_codec string_codec] in *;
      destruct (empty_str a), (empty_str b); cbn in He |- *; injection He as <-; (eexists; split; [reflexivity|]);
      repeat constructor; done.
  - exists es. assert (reread v = v) as -> by by destruct v. split; [done|]. pose proof (custom_stable v es Hok Hs He) as HF.
    clear He. induction HF as [|[k j] es Hj _ IH]; constructor; [|done]. split; [done|by apply stable_normal].
Qed.

(** An object of such entries. *)
Lemma normal_members es es1 : Forall2 (fun kv kv' => kv'.1 = kv.1 /\ normal kv.2 = Some kv'.2) es es1 -> exists l : list (string * value),
  mapM id (map (fun kv => v ← of_json kv.2; Some (kv.1, v)) es) = Some l /\
  members (map (fun kv => (kv.1, to_json kv.2)) l) = Some es1 /\ map fst l = map fst es.
Proof.
  induction 1 as [|[k j] [k' j'] es es1 [Hk Hn] _ (l & IH1 & IH2 & IH3)]; [by exists []|]. cbn [fst snd] in *. subst k'.
  unfold normal in Hn. destruct (of_json j) as [v|] eqn:Hd; [|done]. cbn [mbind option_bind] in Hn.
  exists ((k, v) :: l). unfold members in *. cbn [map mapM fst snd]. rewrite Hd, Hn. cbn. by rewrite IH1, IH2, IH3.
Qed.

Lemma normal_object es es1 : NoDup (map fst es) -> Forall2 (fun kv kv' => kv'.1 = kv.1 /\ normal kv.2 = Some kv'.2) es es1 ->
  exists v es', of_json (JObj es) = Some v /\ to_json v = Some (JObj es') /\ es' ≡ₚ es1.
Proof.
  intros Hnd Hs. destruct (normal_members es es1 Hs) as (l & Hd & He & Hk). apply (object_of_members es l es1); [by rewrite Hk|done..].
Qed.

Ltac field_perm_law He HP :=
  match type of He with
  | enc_fields ?fs = Some ?es =>
      match type of HP with
      | ?es' ≡ₚ _ =>
          match goal with
          | |- context [@dec_field ?A ?C ?z ?name es'] =>
              rewrite (@dec_field_perm fs es es' A C z name eq_refl He HP) by (cbn; tauto); field_law He
          end
      end
  end.

(** A typed value is read from its entries, in whatever order they come. *)
Lemma custom_law v es es' : custom_ok v \/ is_step v = true -> match v with AnyValue _ => False | _ => True end ->
  enc_fields (custom_fields v) = Some es -> es' ≡ₚ es -> dec_like v (JObj es') = Some v.
Proof.
  intros Hok Hv He HP. destruct v as [v|an id tn td args tok|an sn id args tok|an d t c tok|id st r a b]; [done|..];
    cbn [dec_like custom_ok custom_fields] in *; unfold dec_approval, dec_delegation, dec_budget, dec_step; cbn [dec_struct].
  - destruct Hok as [Hok|]; [|done]. repeat field_perm_law He HP. reflexivity.
  - destruct Hok as [Hok|]; [|done]. repeat field_perm_law He HP. reflexivity.
  - destruct Hok as [(H1 & H2 & H3 & H4)|]; [|done].
    do 3 field_perm_law He HP. rewrite (dec_field_perm (budget_fields an d t c tok) es es' f64_zero "costUsd" eq_refl He HP) by (cbn; tauto).
    assert (Hc : dec_field f64_zero "costUsd" es = Some c).
    { apply (@dec_omitempty (budget_fields an d t c tok) es eq_refl He f64 float_codec (empty_float c)); [in_fields|by apply empty_float_zero|done]. }
    rewrite Hc. cbn [mbind option_bind]. field_perm_law He HP. reflexivity.
  - do 2 field_perm_law He HP.
    rewrite (dec_field_perm (H := raw_codec) (step_fields id st r a b) es es' None "result" eq_refl He HP) by (cbn; tauto).
    assert (Hr : dec_field (H := raw_codec) None "result" es = Some r).
    { apply (@dec_omitempty (step_fields id st r a b) es eq_refl He (option json) raw_codec (match r with None => true | Some _ => false end));
        [in_fields|by destruct r|by destruct r]. }
    rewrite Hr. cbn [mbind option_bind]. repeat field_perm_law He HP. reflexivity.
Qed.

(** A typed value that was decoded into an [any] is found again by its parser. *)
Lemma custom_reparsed v j : custom_ok v -> enc_custom v = Some j ->
  exists w, of_json j = Some w /\ enc_custom (AnyValue w) ≫= dec_like v = Some (match v with AnyValue _ => AnyValue w | _ => reread v end).
Proof.
  intros Hok. destruct (match v with AnyValue _ => true | _ => false end) eqn:Hv.
  - destruct v as [v| | | |]; try done. cbn. intros He. exists v. pose proof (value_law v j Hok He) as Hd.
    by rewrite He; cbn; rewrite Hd.
  - intros He. assert (E : enc_struct (custom_fields v) = Some j) by (destruct v; [done|exact He..]).
    unfold enc_struct in E. destruct (enc_fields (custom_fields v)) as [es|] eqn:Ef; [|done]. injection E as <-.
    destruct (enc_fields_keys _ _ (custom_distinct v) Ef) as [Hnd _]. destruct (custom_normal v es Hok Ef) as (es1 & Ef1 & HF).
    destruct (normal_object es es1 Hnd HF) as (w & es' & Hd & Hw & HP).
    exists w. split; [done|]. cbn [enc_custom]. rewrite Hw. cbn [mbind option_bind].
    assert (dec_like v = dec_like (reread v)) as -> by by destruct v.
    rewrite (custom_law (reread v) es1 es'); [by destruct v| |by destruct v|done..].
    destruct (is_step v) eqn:Hs; [right|left]; by destruct v.
Qed.

(** ** Events *)

Section events.
Context `{Location}.

Definition lifecycle_fields (b : EventBody) : field_list :=
  match b with
  | AgentRunStartedEvent th r p =>
      [required "threadId" th; required "runId" r; omitempty (empty_str p) "parentRunId" p]
  | AgentRunFinishedEvent th r res => [required "threadId" th; required "runId" r; omitempty (empty_ptr res) "result" res]
  | AgentRunErrorEvent m c => [required "message" m; omitempty (empty_ptr c) "code" c]
  | AgentStepStartedEvent n | AgentStepFinishedEvent n => [required "stepName" n]
  | _ => []
  end.

Definition text_fields (b : EventBody) : field_list :=
  match b with
  | AgentTextMessageStartEvent m r => [required "messageId" m; required "role" r]
  | AgentTextMessageContentEvent m d => [required "messageId" m; required "delta" d]
  | AgentTextMessageEndEvent m => [required "messageId" m]
  | _ => []
  end.

Definition reasoning_fields (b : EventBody) : field_list :=
  match b with
  | AgentReasoningMessageStartEvent m r => [required "messageId" m; required "role" r]
  | AgentReasoningMessageContentEvent m d => [required "messageId" m; required "delta" d]
  | AgentReasoningMessageEndEvent m | AgentReasoningStartEvent m | AgentReasoningEndEvent m => [required "messageId" m]
  | _ => []
  end.

Definition tool_call_fields (b : EventBody) : field_list :=
  match b with
  | AgentToolCallStartEvent c n p =>
      [required "toolCallId" c; required "toolCallName" n; omitempty (empty_str p) "parentMessageId" p]
  | AgentToolCallArgsEvent c d => [required "toolCallId" c; required "delta" d]
  | AgentToolCallEndEvent c => [required "toolCallId" c]
  | AgentToolCallResultEvent m c t r =>
      [required "messageId" m; required "toolCallId" c; required "content" t; omitempty (empty_str r) "role" r]
  | _ => []
  end.

Definition raw_fields (b : EventBody) : field_list :=
  match b with
  | AgentRawEvent e s => [required "event" e; omitempty (empty_str s) "source" s]
  | AgentCustomEvent n v =>
      [required "name" n; ("value", match v with AnyValue VNull => Some None | _ => Some <$> enc_custom v end)]
  | _ => []
  end.

(** Each event belongs to one family; the others give it no field. *)
Definition body_fields (b : EventBody) : field_list :=
  lifecycle_fields b ++ text_fields b ++ reasoning_fields b ++ tool_call_fields b ++ raw_fields b.

(** The embedded [BaseEvent] comes first. *)
Definition event_fields (e : AgentEvent) : field_list :=
  required "type" (Type_ (ae_Body e)) :: omitempty false "timestamp" (Some (ae_Timestamp e)) :: body_fields (ae_Body e).

Definition ToJSON (e : AgentEvent) : option string := of_bytes ∘ render <$> enc_struct (event_fields e).

(** A decoded event; its offset in the stream is set by the reader. *)
Record WireEvent := { we_Body : EventBody; we_Timestamp : option Z; we_Offset : option Z }.

Definition dec_body (f : list (string * json) -> option EventBody) (es : list (string * json)) : option WireEvent :=
  b ← f es; ts ← dec_field (None : option Z) "timestamp" es;
  Some {| we_Body := b; we_Timestamp := ts; we_Offset := None |}.

Abbreviation entries := (list (string * json)).

Definition dec_message1 (mk : string -> EventBody) (es : entries) : option EventBody := m ← dec_field "" "messageId" es; Some (mk m).
Definition dec_message2 (mk : string -> string -> EventBody) (name : string) (es : entries) : option EventBody :=
  m ← dec_field "" "messageId" es; x ← dec_field "" name es; Some (mk m x).

Definition eventRegistry : list (string * (entries -> option EventBody)) :=
  [("RUN_STARTED", fun es => th ← dec_field "" "threadId" es; r ← dec_field "" "runId" es; p ← dec_field "" "parentRunId" es;
      Some (AgentRunStartedEvent th r p));
   ("RUN_FINISHED", fun es => th ← dec_field "" "threadId" es; r ← dec_field "" "runId" es;
      res ← dec_field (None : option AgentRunResult) "result" es; Some (AgentRunFinishedEvent th r res));
   ("RUN_ERROR", fun es => m ← dec_field "" "message" es; c ← dec_field (None : option string) "code" es; Some (AgentRunErrorEvent m c));
   ("STEP_STARTED", fun es => n ← dec_field "" "stepName" es; Some (AgentStepStartedEvent n));
   ("STEP_FINISHED", fun es => n ← dec_field "" "stepName" es; Some (AgentStepFinishedEvent n));
   ("TEXT_MESSAGE_START", dec_message2 AgentTextMessageStartEvent "role");
   ("TEXT_MESSAGE_CONTENT", dec_message2 AgentTextMessageContentEvent "delta");
   ("TEXT_MESSAGE_END", dec_message1 AgentTextMessageEndEvent);
   ("TOOL_CALL_START", fun es => c ← dec_field "" "toolCallId" es; n ← dec_field "" "toolCallName" es;
      p ← dec_field "" "parentMessageId" es; Some (AgentToolCallStartEvent c n p));
   ("TOOL_CALL_ARGS", fun es => c ← dec_field "" "toolCallId" es; d ← dec_field "" "delta" es; Some (AgentToolCallArgsEvent c d));
   ("TOOL_CALL_END", fun es => c ← dec_field "" "toolCallId" es; Some (AgentToolCallEndEvent c));
   ("TOOL_CALL_RESULT", fun es => m ← dec_field "" "messageId" es; c ← dec_field "" "toolCallId" es;
      t ← dec_field "" "content" es; r ← dec_field "" "role" es; Some (AgentToolCallResultEvent m c t r));
   ("REASONING_MESSAGE_CONTENT", dec_message2 AgentReasoningMessageContentEvent "delta");
   ("REASONING_MESSAGE_START", dec_message2 AgentReasoningMessageStartEvent "role");
   ("REASONING_MESSAGE_END", dec_message1 AgentReasoningMessageEndEvent);
   ("REASONING_START", dec_message1 AgentReasoningStartEvent);
   ("REASONING_END", dec_message1 AgentReasoningEndEvent);
   ("RAW", fun es => e ← dec_field VNull "event" es; s ← dec_field "" "source" es; Some (AgentRawEvent e s));
   ("CUSTOM", fun es => n ← dec_field "" "name" es; v ← dec_field VNull "value" es; Some (AgentCustomEvent n (AnyValue v)))].

Inductive decode_error := BadJSON | UnknownType (t : string).

Definition EventTypeFromJSON (j : json) : option string := dec_struct "" (fun es => dec_field "" "type" es) j.

Definition EventFromJSON (data : string) : sum decode_error WireEvent :=
  match parse data with
  | None => inl BadJSON
  | Some j =>
      match EventTypeFromJSON j with
      | None => inl BadJSON
      | Some t =>
          match List.find (fun x => String.eqb x.1 t) eventRegistry with
          | None => inl (UnknownType t)
          | Some (_, f) =>
              match j with
              | JObj es => match dec_body f es with Some e => inr e | None => inl BadJSON end
              | _ => inl BadJSON
              end
          end
      end
  end.

(** ** What is published is what a subscriber decodes *)

(** A typed value of a CUSTOM event arrives as a map. *)
Definition on_wire (b : EventBody) : option EventBody :=
  match b with
  | AgentCustomEvent n v => w ← enc_custom v ≫= of_json; Some (AgentCustomEvent n (AnyValue w))
  | _ => Some b
  end.

Definition body_ok (b : EventBody) : Prop :=
  match b with
  | AgentRunFinishedEvent _ _ res => when_some result_ok res
  | AgentRawEvent e _ => value_ok e = true
  | AgentCustomEvent _ v => custom_ok v
  | _ => True
  end.

(** The strings of the document are valid UTF-8, and it is not nested too deeply. *)
Definition text_ok (e : AgentEvent) : bool :=
  match enc_struct (event_fields e) with Some j => json_ok maxNestingDepth j | None => false end.

Lemma event_distinct e : distinct (map fst (event_fields e)) = true.
Proof. by destruct e as [[] ts]. Qed.

Section decode.
Context (e : AgentEvent) (es : list (string * json)) (He : enc_fields (event_fields e) = Some es).

Lemma type_decoded : EventTypeFromJSON (JObj es) = Some (Type_ (ae_Body e)).
Proof. unfold EventTypeFromJSON. cbn [dec_struct]. refine (@dec_required _ es (event_distinct e) He string string_codec "type" _ _ _); [by left|done]. Qed.

Lemma timestamp_decoded : in64 (ae_Timestamp e) -> dec_field (None : option Z) "timestamp" es = Some (Some (ae_Timestamp e)).
Proof.
  intros Hok. refine (@dec_omitempty _ es (event_distinct e) He (option Z) ptr_codec false "timestamp" (Some (ae_Timestamp e)) _ _ _);
    [by right; left|done|done].
Qed.
End decode.

Definition decoder_of (t : string) : option (string * (entries -> option EventBody)) :=
  List.find (fun x => String.eqb x.1 t) eventRegistry.

(** The registered decoder of an event's type reads its body. *)
Lemma body_decoded e es : body_ok (ae_Body e) -> enc_fields (event_fields e) = Some es ->
  exists f, decoder_of (Type_ (ae_Body e)) = Some (Type_ (ae_Body e), f) /\ f es = on_wire (ae_Body e) /\
    exists b, on_wire (ae_Body e) = Some b.
Proof.
  destruct e as [b ts]. cbn [ae_Body]. intros Hok He.
  destruct b; (eexists; split; [reflexivity|]); cbn beta; unfold dec_message1, dec_message2;
    try (split; [repeat field_law He; reflexivity|by eexists]).
  cbn [body_ok on_wire] in *. field_law He.
  assert (Hv : forall x, (match Value with AnyValue VNull => Some None | _ => Some <$> enc_custom Value end) = Some x ->
    matching "value" es = match x with Some j => [j] | None => [] end).
  { intros x Hx. apply (matching_enc _ es "value" x (event_distinct _) He). rewrite <- Hx. do 3 right. by left. }
  destruct (enc_all _ es He "value" (match Value with AnyValue VNull => Some None | _ => Some <$> enc_custom Value end)) as [x Hx];
    [do 3 right; by left|].
  unfold dec_field. rewrite (Hv x Hx). destruct (match Value with AnyValue VNull => true | _ => false end) eqn:Hnull.
  - destruct Value as [[]| | | |]; try done. injection Hx as <-. cbn. split; [done|by eexists].
  - assert (Hx' : Some <$> enc_custom Value = Some x) by (destruct Value as [[]| | | |]; [discriminate Hnull|exact Hx..]).
    destruct (enc_custom Value) as [j|] eqn:Ej; [|done]. injection Hx' as <-.
    destruct (custom_reparsed Value j Hok Ej) as (w & Hw & _). cbn. unfold dec_any. rewrite !Hw. cbn. split; [done|by eexists].
Qed.

Lemma event_decoded e s : ToJSON e = Some s -> body_ok (ae_Body e) -> in64 (ae_Timestamp e) -> text_ok e = true ->
  exists b, on_wire (ae_Body e) = Some b /\
    EventFromJSON s = inr {| we_Body := b; we_Timestamp := Some (ae_Timestamp e); we_Offset := None |}.
Proof.
  unfold ToJSON, text_ok, enc_struct. destruct (enc_fields (event_fields e)) as [es|] eqn:He; [|done].
  intros Hs%(inj Some) Hok Hts Htext. subst s. destruct (body_decoded e es Hok He) as (f & Hf & Hb & b & Hw). exists b. split; [done|].
  unfold EventFromJSON. unfold compose. rewrite (parse_render _ Htext), (type_decoded e es He). unfold decoder_of in Hf. rewrite Hf.
  unfold dec_body. by rewrite Hb, Hw; cbn [mbind option_bind]; rewrite (timestamp_decoded e es He Hts).
Qed.

(** The typed value of an approval request, as its parser reads it from the decoded event. *)
Definition parse_custom (n : string) (v : CustomValue) : option CustomValue :=
  if String.eqb n AgentCustomEventNameToolApproval then ParseCustomEventApproval n v
  else if String.eqb n AgentCustomEventNameSubAgentDelegation then ParseCustomEventDelegation n v
  else if String.eqb n AgentCustomEventNameBudget then ParseCustomEventBudget n v
  else ParseCustomEventStepReplayed n v.

(** The name a typed value is published under. *)
Definition named (v : CustomValue) (n : string) : Prop :=
  match v with
  | AnyValue _ => False
  | AgentCustomEventApprovalValue _ _ _ _ _ _ => n = AgentCustomEventNameToolApproval
  | AgentCustomEventDelegationValue _ _ _ _ _ => n = AgentCustomEventNameSubAgentDelegation
  | AgentCustomEventBudgetValue _ _ _ _ _ => n = AgentCustomEventNameBudget
  | AgentCustomEventStepReplayedValue _ _ _ _ _ => n = AgentCustomEventNameStepReplayed
  end.

Lemma custom_roundtrip n v j w : named v n -> custom_ok v -> enc_custom v = Some j -> of_json j = Some w ->
  parse_custom n (AnyValue w) = Some (reread v).
Proof.
  intros Hn Hok He Hd. destruct (custom_reparsed v j Hok He) as (w' & Hw & Hp). assert (w' = w) as -> by congruence.
  destruct v; cbn in Hn; [done|subst n..]; exact Hp.
Qed.
(** What a decoder makes of a typed value is read by its parser. *)
Lemma custom_decoded n v b : on_wire (AgentCustomEvent n v) = Some b -> body_ok (AgentCustomEvent n v) -> named v n ->
  exists w, b = AgentCustomEvent n (AnyValue w) /\ parse_custom n (AnyValue w) = Some (reread v).
Proof.
  cbn [on_wire body_ok]. intros Hw Hok Hn. destruct (enc_custom v) as [j|] eqn:Ej; [|done]. cbn [mbind option_bind] in Hw.
  destruct (of_json j) as [w|] eqn:Ew; [|done]. injection Hw as <-. exists w. split; [done|]. by eapply custom_roundtrip.
Qed.

(** C38: An event that is encoded by [ToJSON] and decoded by [EventFromJSON] is the same event, of
    whatever type it is, with its timestamp; a typed value of a CUSTOM event arrives as a map, in which the
    parser of its kind finds it again, the JSON of a replayed step in the form a decoding into an [any] leaves. This is for events
    whose strings are valid UTF-8 and that are not nested too deeply ([text_ok]), with integers of 64 bits, times that RFC 3339 can
    write, floats that read back as they are written and no negative zero, and at most 2^53 tokens in a budget
    request ([body_ok]): beyond that the parser returns a rounded count. *)
Theorem event_roundtrip e s : ToJSON e = Some s -> body_ok (ae_Body e) -> in64 (ae_Timestamp e) -> text_ok e = true ->
  exists b, on_wire (ae_Body e) = Some b /\
    EventFromJSON s = inr {| we_Body := b; we_Timestamp := Some (ae_Timestamp e); we_Offset := None |} /\
    (forall n v, ae_Body e = AgentCustomEvent n v -> named v n ->
       exists w, b = AgentCustomEvent n (AnyValue w) /\ parse_custom n (AnyValue w) = Some (reread v)).
Proof.
  intros Hs Hok Hts Htext. destruct (event_decoded e s Hs Hok Hts Htext) as (b & Hw & He). exists b. split_and!; [done..|].
  intros n v Hb Hn. rewrite Hb in Hw, Hok. by apply custom_decoded.
Qed.
End events.
