(* ===== verification/Effects.v ===== *)
(** The static wiring of an agent ([runtime.AgentSpec], [runtime.AgentConfig],
    [base.Runtime]) and the effects of the agent loop.

    An effect is a call the modelled code makes to something it does not define: the LLM
    client, a tool, a hook, the clock, the approval channel, the event bus, a store; or an
    access to one of the two Go objects that the goroutines of a run share, the budget
    tracker and the circuit breaker, referenced by location.  The environment answers the
    former freely; the latter answer as [Budget.v] and [CircuitBreaker.v] define
    ([heap_step]).  Logging, tracing and histograms are not modelled. *)
From S2P Require Import Prelude GoLib Types Prog Policies MemoryConfig Budget CircuitBreaker Telemetry Events.

#[local] Open Scope string_scope.
#[local] Open Scope list_scope.
#[local] Open Scope Z_scope.

(** ** Wiring *)

(** A Go func value: [nil] is [None]. *)
Definition func := nat.

Record AgentHooks := {
  h_BeforeLLM : list (option func); h_AfterLLM : list (option func);
  h_BeforeTool : list (option func); h_AfterTool : list (option func);
  h_BeforeRetrieve : list (option func); h_AfterRetrieve : list (option func);
  h_BeforeMemoryLoad : list (option func); h_AfterMemoryLoad : list (option func);
  h_BeforeMemoryStore : list (option func); h_AfterMemoryStore : list (option func);
  h_OnBudgetExceeded : list (option func) }.

Record HookGroup := { g_Name : string; g_Hooks : AgentHooks }.

Record RunMeta := { rm_RunID : string; rm_Iteration : Z; rm_HooksGroup : string }.

(** [hooks.ToolCall] *)
Record HookToolCall := {
  hc_ID : string; hc_Name : string; hc_DisplayName : string; hc_Kind : string; hc_Args : Args }.
Record RetrieveCall := { rq_Query : string; rq_Mode : string; rq_RetrieverName : string }.
Record MemoryLoadCall := {
  ml_Scope : MemoryScope; ml_Query : string; ml_Limit : Z; ml_MinScore : f64; ml_Kinds : list string }.
Record MemoryStoreCall := { ms_Scope : MemoryScope; ms_Record : MemoryRecord; ms_ID : string }.
Record OnBudgetExceededHookInput := {
  bh_RunMeta : RunMeta; bh_Kind : string; bh_TotalTokens : Z; bh_TotalCostUSD : f64;
  bh_Action : string; bh_ApprovalCount : Z; bh_ApprovalsExhausted : bool }.

Record AgentSpec := {
  as_Name : string; as_Description : string; as_SystemPrompt : string;
  as_ResponseFormat : option ResponseFormat }.

(** [interfaces.Retriever], by name. *)
Record Retriever := { ret_Name : string }.

(** [runtime.AgentConfig], its nested structs flattened.  The primary client is never nil
    ([buildAgentConfig] refuses it); the approval policy is a pure predicate;
    [ac_Conversation] says whether a conversation store is configured. *)
Record AgentConfig := {
  ac_LLMClient : LLMClient;
  ac_Sampling : option LLMSampling;
  ac_ToolApprovalPolicy : option (Tool -> bool);
  ac_Retrievers : list Retriever;
  ac_RetrieverMode : string;
  ac_Conversation : bool;
  ac_ConversationSize : Z;
  ac_ConversationSaveOnIteration : bool;
  ac_Memory : option MemConfig;
  ac_MaxIterations : Z;
  ac_Timeout : Duration;
  ac_ApprovalTimeout : Duration;
  ac_Budget : option BudgetConfig;
  ac_ExecutionConfigs : ExecutionConfigs;
  ac_Hooks : list HookGroup;
  ac_NamedLLMClients : gmap string (option LLMClient);
  ac_ErrorControl : option ErrorControlConfig }.

Definition AgentToolExecutionModeParallel : string := "parallel".
Definition AgentToolExecutionModeSequential : string := "sequential".

(** [base.Runtime]; [r_Metrics] says whether the metrics sink is non-nil where the code asks. *)
Record Runtime := {
  rt_AgentSpec : AgentSpec;
  rt_AgentConfig : AgentConfig;
  rt_Metrics : bool;
  rt_ToolExecutionMode : string }.

Record ToolExecMeta := { tm_IdempotencyKey : string; tm_RunID : string; tm_ToolCallID : string; tm_Iteration : Z }.

(** How a [select] on an approval ends. *)
Inductive approval_outcome :=
| Resolved (status : string)
| CtxDone (e : error)
| TimerFired.

(** A stream opened by [GenerateStream], as its consumer sees it until the end: the chunks
    ([nil] ones included), then [Err()] and [GetResult()]. *)
Record Stream := {
  sm_Chunks : list (option LLMStreamChunk); sm_Err : option error; sm_Result : option LLMResponse }.

(** Location of a shared object. *)
Definition loc := nat.

(** ** Effects *)

Inductive Op :=
(* scheduler and fuel *)
| OSched
| OOutOfFuel
(* clock, identifiers, contexts *)
| ONow
| ONewUUID
| OCtxErr
| OWithTimeout (d : Duration)
| OBackoff (d : Duration)
(* observability and events *)
| OMetric (name : string) (attrs : list (string * string))
| OPublish (channel : string) (e : AgentEvent)
(* hooks *)
| OBeforeLLM (f : func) (m : RunMeta) (q : LLMRequest)
| OAfterLLM (f : func) (m : RunMeta) (p : LLMResponse)
| OBeforeTool (f : func) (m : RunMeta) (c : HookToolCall)
| OAfterTool (f : func) (m : RunMeta) (c : HookToolCall) (content : string) (e : option error)
| OBeforeRetrieve (f : func) (m : RunMeta) (c : RetrieveCall)
| OAfterRetrieve (f : func) (m : RunMeta) (c : RetrieveCall) (docs : list Document)
| OBeforeMemoryLoad (f : func) (m : RunMeta) (c : MemoryLoadCall)
| OAfterMemoryLoad (f : func) (m : RunMeta) (sc : MemoryScope) (query context : string)
| OBeforeMemoryStore (f : func) (m : RunMeta) (c : MemoryStoreCall)
| OAfterMemoryStore (f : func) (m : RunMeta) (c : MemoryStoreCall)
| OOnBudgetExceeded (f : func) (i : OnBudgetExceededHookInput)
| OOnLLMFailure (i : LLMFailureInfo)
| OOnMaxIterations (i : MaxIterationsInfo)
(* LLM clients *)
| OGenerate (c : LLMClient) (q : LLMRequest)
| OGenerateStream (c : LLMClient) (q : LLMRequest)
(* tools: the runtime that makes the call, the tool, the context metadata, the arguments *)
| OToolExecute (rt : Runtime) (t : Tool) (m : option ToolExecMeta) (args : Args)
| OToolAuthorize (rt : Runtime) (t : Tool) (args : Args)
(* retrievers, memory, conversations *)
| OSearch (r : Retriever) (query : string)
| OMemoryLoad (sc : MemoryScope) (query : string) (o : LoadMemoryOptions)
| OMemoryStore (sc : MemoryScope) (r : MemoryRecord) (id : option string)
| OMemoryExtract (f : func) (ms : list Message)
| OListMessages (id : string) (limit : Z)
| OAddMessage (id : string) (m : Message)
(* approvals *)
| OPendingStore (token : string)
| OPendingDelete (token : string)
| OApprovalHandler (timeout : Duration) (r : ApprovalRequest)
| OAwaitApproval (r : ApprovalRequest) (timeout : option Duration)
(* the shared budget tracker *)
| OBudgetAdd (l : loc) (u : option LLMUsage)
| OBudgetCheck (l : loc)
| OBudgetExhausted (l : loc)
| OBudgetCount (l : loc)
| OBudgetTotals (l : loc)
| OBudgetAdvance (l : loc)
(* the shared circuit breaker *)
| OCBNew (ec : option ErrorControlConfig)
| OCBIsTripped (l : loc) (name : string) (now : Time)
| OCBRecordFailure (l : loc) (name : string) (args : Args) (now : Time)
| OCBRecordSuccess (l : loc) (name : string)
| OCBState (l : loc)
| OCBRestore (l : loc) (st : gmap string ToolState).

Definition Ans (o : Op) : Type :=
  match o with
  | OSched => bool
  | ONow => Time
  | ONewUUID => string
  | OCtxErr => option error
  | OBackoff _ => option error           (* [Some e]: the context ended first *)
  | OBeforeLLM _ _ _ => result LLMRequest
  | OAfterLLM _ _ _ => result LLMResponse
  | OBeforeTool _ _ _ => result Args
  | OAfterTool _ _ _ _ _ => result (string * option error)
  | OBeforeRetrieve _ _ _ => result string
  | OAfterRetrieve _ _ _ _ => result (list Document)
  | OBeforeMemoryLoad _ _ _ => result (string * Z * f64 * list string)
  | OAfterMemoryLoad _ _ _ _ _ => result string
  | OBeforeMemoryStore _ _ _ => result (MemoryRecord * string)
  | OAfterMemoryStore _ _ _ => option error
  | OOnLLMFailure _ => ErrorControlDecision
  | OOnMaxIterations _ => ErrorControlDecision
  | OGenerate _ _ => result LLMResponse
  | OGenerateStream _ _ => result Stream
  | OToolExecute _ _ _ _ => result any
  | OToolAuthorize _ _ _ => result (bool * string)
  | OSearch _ _ => result (list Document)
  | OMemoryLoad _ _ _ => result (list MemoryEntry)
  | OMemoryStore _ _ _ => result string
  | OMemoryExtract _ _ => result (list MemoryRecord)
  | OListMessages _ _ => result (list Message)
  | OAddMessage _ _ => option error
  | OAwaitApproval _ _ => approval_outcome
  | OBudgetAdd _ _ => option BudgetExceededError
  | OBudgetCheck _ => option BudgetExceededError
  | OBudgetExhausted _ => bool
  | OBudgetCount _ => Z
  | OBudgetTotals _ => Z * f64
  | OBudgetAdvance _ => bool
  | OCBNew _ => option loc
  | OCBIsTripped _ _ _ => bool
  | OCBRecordFailure _ _ _ _ => bool
  | OCBState _ => gmap string ToolState
  | _ => unit
  end.

#[global] Instance agent_sig : Sig :=
  {| op := Op; ans := Ans; sched := OSched; sched_ans := fun b => b |}.

(** [perform] at the agent signature, keeping the answer's type computed. *)
Definition call (o : Op) : prog (Ans o) := perform (S := agent_sig) o.

Notation Event := (event agent_sig).

(** ** Frequent effects *)

Definition emit_metric (name : string) (attrs : list (string * string)) : prog unit :=
  call (OMetric name attrs).

(** A Go [defer]red or fallible prefix: continue on success, return the error otherwise. *)
Definition bind_result {A B} (m : prog (result A)) (f : A -> prog (result B)) : prog (result B) :=
  r ← m; match r with inl e => mret (inl e) | inr a => f a end.

Notation "x ←? m ; k" := (bind_result m (fun x => k))
  (at level 20, m at level 100, k at level 200, only parsing) : stdpp_scope.
Notation "' p ←? m ; k" := (bind_result m (fun p => k))
  (at level 20, p pattern, m at level 100, k at level 200, only parsing) : stdpp_scope.

(** ** Shared objects *)

Record heap := { hp_budget : gmap loc BudgetTracker; hp_cb : gmap loc CircuitBreaker }.

Definition set_budget (h : heap) (l : loc) (t : BudgetTracker) : heap :=
  {| hp_budget := <[l := t]> (hp_budget h); hp_cb := hp_cb h |}.
Definition set_cb (h : heap) (l : loc) (c : CircuitBreaker) : heap :=
  {| hp_budget := hp_budget h; hp_cb := <[l := c]> (hp_cb h) |}.

(** One atomic access to a budget tracker: its answer and the tracker it leaves. *)
Definition budget_access {R} (h : heap) (l : loc) (f : BudgetTracker -> R * BudgetTracker)
    (r : R) (h' : heap) : Prop :=
  exists t, hp_budget h !! l = Some t /\ (f t).1 = r /\ h' = set_budget h l (f t).2.
Definition cb_access {R} (h : heap) (l : loc) (f : CircuitBreaker -> R * CircuitBreaker)
    (r : R) (h' : heap) : Prop :=
  exists c, hp_cb h !! l = Some c /\ (f c).1 = r /\ h' = set_cb h l (f c).2.

Definition keep {A B} (d : A) (p : B * option A) : B * A := (p.1, default d p.2).

(** The effects on shared objects answer as their components define; every other effect
    leaves them alone. *)
Definition heap_step (h : heap) (e : Event) (h' : heap) : Prop :=
  match e with
  | Ev o r =>
      match o return Ans o -> Prop with
      | OBudgetAdd l u => fun r => budget_access h l (fun t => keep t (Add (Some t) u)) r h'
      | OBudgetCheck l => fun r => budget_access h l (fun t => (Check_ (Some t), t)) r h'
      | OBudgetExhausted l => fun r => budget_access h l (fun t => (ApprovalsExhausted (Some t), t)) r h'
      | OBudgetCount l => fun r => budget_access h l (fun t => (ApprovalCount (Some t), t)) r h'
      | OBudgetTotals l => fun r => budget_access h l (fun t => (Totals (Some t), t)) r h'
      | OBudgetAdvance l => fun r => budget_access h l (fun t => keep t (AdvanceWatermark (Some t))) r h'
      | OCBNew ec => fun r =>
          match NewCircuitBreaker ec, r with
          | None, None => h' = h
          | Some c, Some l => hp_cb h !! l = None /\ h' = set_cb h l c
          | _, _ => False
          end
      | OCBIsTripped l name now => fun r => cb_access h l (fun c => keep c (IsTripped (Some c) name now)) r h'
      | OCBRecordFailure l name args now => fun r =>
          cb_access h l (fun c => keep c (RecordFailure (Some c) name args now)) r h'
      | OCBRecordSuccess l name => fun r =>
          cb_access h l (fun c => (tt, default c (RecordSuccess (Some c) name))) r h'
      | OCBState l => fun r => cb_access h l (fun c => (State (Some c), c)) r h'
      | OCBRestore l st => fun r => cb_access h l (fun c => (tt, default c (Restore (Some c) st))) r h'
      | _ => fun _ => h' = h
      end r
  end.

Inductive steps : heap -> list Event -> heap -> Prop :=
| steps_nil h : steps h [] h
| steps_cons h e h1 tr h2 : heap_step h e h1 -> steps h1 tr h2 -> steps h (e :: tr) h2.

Lemma steps_app h t1 t2 h2 :
  steps h (t1 ++ t2) h2 <-> exists h1, steps h t1 h1 /\ steps h1 t2 h2.
Proof.
  split.
  - revert h. induction t1 as [|e t1 IH]; intros h H; simpl in H.
    + exists h. split; [constructor|done].
    + inversion H; subst. destruct (IH _ H5) as (h' & ? & ?). exists h'. split; [by econstructor|done].
  - intros (h1 & H1 & H2). induction H1; simpl; [done|]. econstructor; eauto.
Qed.

(** ** Footprints: every effect a computation can perform satisfies a predicate *)

Fixpoint always (P : Op -> Prop) {A} (m : prog A) : Prop :=
  match m with
  | Ret _ => True
  | Do o k => P o /\ forall r, always P (k r)
  end.

Lemma always_bind P {A B} (m : prog A) (f : A -> prog B) :
  always P m -> (forall a, always P (f a)) -> always P (m ≫= f).
Proof. intros Hm Hf. induction m as [a|o k IH]; simpl in *; [apply Hf|]. naive_solver. Qed.

Lemma always_call (P : Op -> Prop) o : P o -> always P (call o).
Proof. simpl. auto. Qed.

Lemma always_ret (P : Op -> Prop) {A} (a : A) : always P (mret a).
Proof. done. Qed.

Lemma always_fmap P {A B} (f : A -> B) (m : prog A) : always P m -> always P (f <$> m).
Proof. intros H. by apply (always_bind P m (fun a => Ret (f a))). Qed.

Lemma always_traverse P {A B} (f : A -> prog B) l :
  (forall x, always P (f x)) -> always P (traverse f l).
Proof.
  intros H. induction l as [|x l IH]; [done|]. simpl.
  apply always_bind; [done|]. intros y. by apply always_bind.
Qed.

Lemma always_fold P {A B} (f : B -> A -> prog B) l b :
  (forall b x, always P (f b x)) -> always P (fold_prog f b l).
Proof.
  intros H. revert b. induction l as [|x l IH]; intros b; [done|]. simpl. by apply always_bind.
Qed.

Lemma always_par2 P {A B} (m : prog A) (n : prog B) :
  P OSched -> always P m -> always P n -> always P (par2 m n).
Proof.
  intros Hs. revert n. induction m as [a|o1 k1 IHm]; intros n Hm Hn.
  - destruct n as [b|o2 k2]; [done|]. by apply always_fmap.
  - induction n as [b|o2 k2 IHn]; [by apply (always_fmap P _ (Do o1 k1))|].
    destruct Hm as [H1 Hm]. destruct Hn as [H2 Hn]. split; [done|]. intros c. simpl.
    destruct (c : bool); (split; [done|]); intros r.
    + apply IHm; [done|]. by split.
    + by apply IHn.
Qed.

Lemma always_par P {A} (ms : list (prog A)) :
  P OSched -> (forall m, In m ms -> always P m) -> always P (par ms).
Proof.
  intros Hs. induction ms as [|m ms IH]; intros H; [done|]. simpl.
  apply always_fmap, always_par2; [done| |]; auto with datatypes.
Qed.

Lemma always_bind_result P {A B} (m : prog (result A)) (f : A -> prog (result B)) :
  always P m -> (forall a, always P (f a)) -> always P (bind_result m f).
Proof. intros Hm Hf. apply always_bind; [done|]. intros [e|a]; [done|apply Hf]. Qed.

Lemma always_mono (P Q : Op -> Prop) {A} (m : prog A) :
  (forall o, P o -> Q o) -> always P m -> always Q m.
Proof. intros H. induction m; simpl; naive_solver. Qed.

(** A footprint, read on traces. *)
Lemma always_spec (P : Op -> Prop) {A} (m : prog A) :
  always P m -> spec m (fun tr _ => Forall (fun e => P (ev_op e)) tr).
Proof. intros H tr a Hx. induction Hx; [done|]. destruct H. constructor; auto. Qed.

(** ** Metrics *)

(** Number of increments of a counter in a trace. *)
Definition is_metric (name : string) (o : Op) : bool :=
  match o with OMetric n _ => String.eqb n name | _ => false end.
Definition metric_count (name : string) (tr : list Event) : Z :=
  Z.of_nat (length (List.filter (fun e => is_metric name (ev_op e)) tr)).

Lemma metric_count_app n t1 t2 : metric_count n (t1 ++ t2) = metric_count n t1 + metric_count n t2.
Proof. unfold metric_count. rewrite List.filter_app, length_app. lia. Qed.

Lemma metric_count_none n {A} (m : prog A) tr a :
  always (fun o => is_metric n o = false) m -> texec m tr a -> metric_count n tr = 0.
Proof.
  intros H Hx. apply (always_spec _ _ H) in Hx. unfold metric_count.
  induction Hx as [|e tr He _ IH]; simpl; [done|]. by rewrite He.
Qed.

(** Started, completed and failed calls of a family. *)
Definition tally (family : string) (tr : list Event) : Z * Z * Z :=
  (metric_count (family +:+ ".started") tr, metric_count (family +:+ ".completed") tr,
   metric_count (family +:+ ".failed") tr).
Definition add3 (a b : Z * Z * Z) : Z * Z * Z := (a.1.1 + b.1.1, a.1.2 + b.1.2, a.2 + b.2).

Definition quiet (family : string) (o : Op) : Prop :=
  is_metric (family +:+ ".started") o = false /\ is_metric (family +:+ ".completed") o = false /\
  is_metric (family +:+ ".failed") o = false.

Lemma tally_app f t1 t2 : tally f (t1 ++ t2) = add3 (tally f t1) (tally f t2).
Proof. unfold tally, add3. simpl. by rewrite !metric_count_app. Qed.

Lemma tally_quiet f {A} (m : prog A) tr a : always (quiet f) m -> texec m tr a -> tally f tr = (0, 0, 0).
Proof.
  intros H Hx. unfold tally.
  assert (Hq : forall n, (forall o, quiet f o -> is_metric n o = false) -> metric_count n tr = 0).
  { intros n Hn. eapply metric_count_none; [|exact Hx]. eapply always_mono; [exact Hn|exact H]. }
  rewrite !Hq; [done| | |]; by intros o (? & ? & ?).
Qed.

(** ** Inverting executions *)

Lemma texec_call_inv o tr (r : Ans o) : texec (call o) tr r -> tr = [Ev (S := agent_sig) o r].
Proof.
  unfold call, perform. intros H.
  apply texec_do_inv in H as (r' & tr' & -> & H). apply texec_ret_inv in H as [-> ->]. done.
Qed.

Lemma texec_call o (r : Ans o) : texec (call o) [Ev (S := agent_sig) o r] r.
Proof. unfold call, perform. constructor. constructor. Qed.

Lemma spec_call o (Q : list Event -> Ans o -> Prop) :
  (forall r, Q [Ev (S := agent_sig) o r] r) -> spec (call o) Q.
Proof. intros H tr r Hx. apply texec_call_inv in Hx as ->. apply H. Qed.

Lemma texec_mbind_inv {A B} (m : prog A) (f : A -> prog B) (tr : list Event) b :
  texec (m ≫= f) tr b -> exists t1 t2 a, tr = t1 ++ t2 /\ texec m t1 a /\ texec (f a) t2 b.
Proof. apply texec_bind_inv. Qed.

Lemma texec_result_inv {A B} (m : prog (result A)) (f : A -> prog (result B)) (tr : list Event) b :
  texec (bind_result m f) tr b ->
  (exists e, b = inl e /\ texec m tr (inl e)) \/
  (exists t1 t2 a, tr = t1 ++ t2 /\ texec m t1 (inr a) /\ texec (f a) t2 b).
Proof.
  intros (t1 & t2 & [e|a] & -> & H1 & H2)%texec_mbind_inv.
  - apply texec_ret_inv in H2 as [-> ->]. rewrite app_nil_r. left. eauto.
  - right. eauto 6.
Qed.

Lemma texec_mret_inv {A} (a : A) (tr : list Event) b : texec (mret a) tr b -> tr = [] /\ b = a.
Proof. apply texec_ret_inv. Qed.

(** Decompose an execution into the executions of its parts. *)
Ltac texec_inv1 :=
  match goal with
  | H : texec (call ?o) ?t ?r |- _ => apply (texec_call_inv o t r) in H; subst t
  | H : texec (mret _) ?t _ |- _ => apply texec_mret_inv in H; destruct H as [? ?]; subst
  | H : texec (Ret _) ?t _ |- _ => apply texec_ret_inv in H; destruct H as [? ?]; subst
  | H : texec (mbind _ _) _ _ |- _ =>
      apply texec_mbind_inv in H; destruct H as (? & ? & ? & ? & ? & ?); subst
  | H : texec (bind_result _ _) _ _ |- _ =>
      apply texec_result_inv in H; destruct H as [(? & ? & ?)|(? & ? & ? & ? & ? & ?)]; subst
  end.
Ltac texec_invs := repeat texec_inv1.
Ltac call_inv H :=
  match type of H with texec (call ?o) ?t ?r => apply (texec_call_inv o t r) in H; subst t end.

#[global] Opaque call.
#[global] Arguments always : simpl never.
#[global] Arguments call : simpl never.

Create HintDb footprint.
#[export] Hint Resolve always_ret : footprint.

(** Walk through a computation, leaving the effects it performs. *)
Ltac foot :=
  repeat first
    [ progress intros
    | apply always_ret
    | solve [eauto 4 with footprint]
    | apply always_call; solve [simpl; auto | repeat split; reflexivity]
    | apply always_bind_result
    | apply always_bind
    | apply always_fmap
    | apply always_traverse
    | apply always_fold
    | case_match
    | progress cbv beta zeta ].
