(* ===== verification/Hooks.v ===== *)
(** Hook chains ([internal/hooks]): the ordered middleware groups around every LLM, tool,
    retriever and memory operation.  Calling a hook function is an effect; the copies the
    code makes of slices and maps ([cloneDocuments], [cloneKinds], [cloneToolArgs]) are the
    identity on values. *)
From S2P Require Import Prelude GoLib Types Prog Policies MemoryConfig Budget CircuitBreaker Telemetry Events Effects.

#[local] Open Scope string_scope.
#[local] Open Scope list_scope.
#[local] Open Scope Z_scope.

(** [AgentHooks.Merge] *)
Definition Merge (h other : AgentHooks) : AgentHooks :=
  {| h_BeforeLLM := h_BeforeLLM h ++ h_BeforeLLM other;
     h_AfterLLM := h_AfterLLM h ++ h_AfterLLM other;
     h_BeforeTool := h_BeforeTool h ++ h_BeforeTool other;
     h_AfterTool := h_AfterTool h ++ h_AfterTool other;
     h_BeforeRetrieve := h_BeforeRetrieve h ++ h_BeforeRetrieve other;
     h_AfterRetrieve := h_AfterRetrieve h ++ h_AfterRetrieve other;
     h_BeforeMemoryLoad := h_BeforeMemoryLoad h ++ h_BeforeMemoryLoad other;
     h_AfterMemoryLoad := h_AfterMemoryLoad h ++ h_AfterMemoryLoad other;
     h_BeforeMemoryStore := h_BeforeMemoryStore h ++ h_BeforeMemoryStore other;
     h_AfterMemoryStore := h_AfterMemoryStore h ++ h_AfterMemoryStore other;
     h_OnBudgetExceeded := h_OnBudgetExceeded h ++ h_OnBudgetExceeded other |}.

Definition with_group (m : RunMeta) (name : string) : RunMeta :=
  {| rm_RunID := rm_RunID m; rm_Iteration := rm_Iteration m; rm_HooksGroup := name |}.

(** The double loop every [Run...] function has: groups in order, the hooks of a group in
    order, nil hooks skipped, stop at the first error.  Answers the value reached and the
    error. *)
Section chain.
Context {C : Type} (get : AgentHooks -> list (option func)).
Context (step : string -> func -> C -> prog (result C)).

Fixpoint run_hooks (name : string) (hs : list (option func)) (c : C) : prog (C * option error) :=
  match hs with
  | [] => mret (c, None)
  | None :: hs => run_hooks name hs c
  | Some f :: hs =>
      r ← step name f c;
      match r with
      | inl e => mret (c, Some e)
      | inr c' => run_hooks name hs c'
      end
  end.

Fixpoint run_groups (groups : list HookGroup) (c : C) : prog (C * option error) :=
  match groups with
  | [] => mret (c, None)
  | g :: groups =>
      r ← run_hooks (g_Name g) (get (g_Hooks g)) c;
      match r.2 with
      | Some e => mret r
      | None => run_groups groups r.1
      end
  end.

(** [return Zero{}, err] *)
Definition run_chain (groups : list HookGroup) (c : C) : prog (result C) :=
  r ← run_groups groups c;
  mret (match r.2 with Some e => inl e | None => inr r.1 end).
End chain.

(** ** The hook families *)

Definition RunBeforeLLM (groups : list HookGroup) (m : RunMeta) (q : LLMRequest) : prog (result LLMRequest) :=
  run_chain h_BeforeLLM (fun name f q => call (OBeforeLLM f (with_group m name) q)) groups q.

Definition RunAfterLLM (groups : list HookGroup) (m : RunMeta) (p : LLMResponse) : prog (result LLMResponse) :=
  run_chain h_AfterLLM (fun name f p => call (OAfterLLM f (with_group m name) p)) groups p.

Definition with_args (c : HookToolCall) (a : Args) : HookToolCall :=
  {| hc_ID := hc_ID c; hc_Name := hc_Name c; hc_DisplayName := hc_DisplayName c;
     hc_Kind := hc_Kind c; hc_Args := a |}.

Definition before_tool_step (m : RunMeta) (name : string) (f : func) (c : HookToolCall)
    : prog (result HookToolCall) :=
  a ←? call (OBeforeTool f (with_group m name) c); mret (inr (with_args c a)).

Definition RunBeforeTool (groups : list HookGroup) (m : RunMeta) (c : HookToolCall)
    : prog (result HookToolCall) :=
  if negb (HooksEligible (hc_Kind c)) then mret (inr c)
  else run_chain h_BeforeTool (before_tool_step m) groups c.

(** The content, execution error and hook error of the Go triple. *)
Definition RunAfterTool (groups : list HookGroup) (m : RunMeta) (c : HookToolCall)
    (content : string) (execErr : option error) : prog ((string * option error) * option error) :=
  if negb (HooksEligible (hc_Kind c)) then mret ((content, execErr), None)
  else run_groups h_AfterTool
         (fun name f cur => call (OAfterTool f (with_group m name) c cur.1 cur.2)) groups (content, execErr).

Definition with_query (c : RetrieveCall) (q : string) : RetrieveCall :=
  {| rq_Query := q; rq_Mode := rq_Mode c; rq_RetrieverName := rq_RetrieverName c |}.

Definition before_retrieve_step (m : RunMeta) (name : string) (f : func) (c : RetrieveCall)
    : prog (result RetrieveCall) :=
  q ←? call (OBeforeRetrieve f (with_group m name) c); mret (inr (with_query c q)).

Definition RunBeforeRetrieve (groups : list HookGroup) (m : RunMeta) (c : RetrieveCall)
    : prog (result RetrieveCall) :=
  run_chain h_BeforeRetrieve (before_retrieve_step m) groups c.

Definition RunAfterRetrieve (groups : list HookGroup) (m : RunMeta) (c : RetrieveCall)
    (docs : list Document) : prog (result (list Document)) :=
  run_chain h_AfterRetrieve
    (fun name f cur => call (OAfterRetrieve f (with_group m name) c cur)) groups docs.

Definition before_load_step (m : RunMeta) (name : string) (f : func) (c : MemoryLoadCall)
    : prog (result MemoryLoadCall) :=
  out ←? call (OBeforeMemoryLoad f (with_group m name) c);
  let '(query, limit, minScore, kinds) := out in
  mret (inr {| ml_Scope := ml_Scope c; ml_Query := query; ml_Limit := limit;
               ml_MinScore := minScore; ml_Kinds := kinds |}).

Definition RunBeforeMemoryLoad (groups : list HookGroup) (m : RunMeta) (c : MemoryLoadCall)
    : prog (result MemoryLoadCall) :=
  run_chain h_BeforeMemoryLoad (before_load_step m) groups c.

Definition RunAfterMemoryLoad (groups : list HookGroup) (m : RunMeta) (c : MemoryLoadCall)
    (promptContext : string) : prog (result string) :=
  run_chain h_AfterMemoryLoad
    (fun name f cur => call (OAfterMemoryLoad f (with_group m name) (ml_Scope c) (ml_Query c) cur))
    groups promptContext.

Definition before_store_step (m : RunMeta) (name : string) (f : func) (c : MemoryStoreCall)
    : prog (result MemoryStoreCall) :=
  out ←? call (OBeforeMemoryStore f (with_group m name) c);
  mret (inr {| ms_Scope := ms_Scope c; ms_Record := out.1; ms_ID := out.2 |}).

Definition RunBeforeMemoryStore (groups : list HookGroup) (m : RunMeta) (c : MemoryStoreCall)
    : prog (result MemoryStoreCall) :=
  run_chain h_BeforeMemoryStore (before_store_step m) groups c.

Definition after_store_step (m : RunMeta) (c : MemoryStoreCall) (name : string) (f : func) (_ : unit)
    : prog (result unit) :=
  e ← call (OAfterMemoryStore f (with_group m name) c);
  mret (match e with Some e => inl e | None => inr tt end).

Definition RunAfterMemoryStore (groups : list HookGroup) (m : RunMeta) (c : MemoryStoreCall)
    : prog (option error) :=
  r ← run_groups h_AfterMemoryStore (after_store_step m c) groups tt; mret r.2.

Definition budget_hook_step (i : OnBudgetExceededHookInput) (name : string) (f : func) (_ : unit)
    : prog (result unit) :=
  _ ← call (OOnBudgetExceeded f
        {| bh_RunMeta := with_group (bh_RunMeta i) name; bh_Kind := bh_Kind i;
           bh_TotalTokens := bh_TotalTokens i; bh_TotalCostUSD := bh_TotalCostUSD i;
           bh_Action := bh_Action i; bh_ApprovalCount := bh_ApprovalCount i;
           bh_ApprovalsExhausted := bh_ApprovalsExhausted i |});
  mret (inr tt).

Definition RunOnBudgetExceeded (groups : list HookGroup) (i : OnBudgetExceededHookInput) : prog unit :=
  _ ← run_groups h_OnBudgetExceeded (budget_hook_step i) groups tt; mret tt.

(** ** What a chain does *)

(** The hooks of a family in execution order, with their group names. *)
Definition flat (get : AgentHooks -> list (option func)) (groups : list HookGroup) : list (string * func) :=
  concat (map (fun g => omap (fun o => match o with Some f => Some (g_Name g, f) | None => None end)
                             (get (g_Hooks g))) groups).

(** [chain step hs c tr r]: one call per hook of [hs] in order, each given what the previous
    one answered, until the first error. *)
Inductive chain {C} (step : string -> func -> C -> prog (result C))
    : list (string * func) -> C -> list Event -> C * option error -> Prop :=
| chain_done c : chain step [] c [] (c, None)
| chain_next n f hs c t c' tr r :
    texec (step n f c) t (inr c') -> chain step hs c' tr r -> chain step ((n, f) :: hs) c (t ++ tr) r
| chain_error n f hs c t e : texec (step n f c) t (inl e) -> chain step ((n, f) :: hs) c t (c, Some e).

Section chain_laws.
Context {C : Type} (get : AgentHooks -> list (option func)).
Context (step : string -> func -> C -> prog (result C)).

Lemma chain_app hs hs' c tr r :
  chain step (hs ++ hs') c tr r <->
  (exists e, r.2 = Some e /\ chain step hs c tr r) \/
  (exists c' t1 t2, tr = t1 ++ t2 /\ chain step hs c t1 (c', None) /\ chain step hs' c' t2 r).
Proof.
  split.
  - revert c tr. induction hs as [|[n f] hs IH]; intros c tr H; simpl in H.
    + right. exists c, [], tr. split; [done|]. split; [constructor|done].
    + inversion H as [|? ? ? ? t c' tr' ? Hs Hc|? ? ? ? ? e Hs]; subst.
      * destruct (IH _ _ Hc) as [(e & He & H')|(c2 & t1 & t2 & -> & H1 & H2)].
        -- left. exists e. split; [done|]. by econstructor.
        -- right. exists c2, (t ++ t1), t2. rewrite app_assoc. split; [done|]. split; [|done]. by econstructor.
      * left. exists e. split; [done|]. by constructor.
  - intros [(e & He & H)|(c' & t1 & t2 & -> & H1 & H2)].
    + induction H; simpl in *; [done| |by constructor]. econstructor; eauto.
    + remember (c', None) as r1 eqn:Hr1. induction H1; simplify_eq/=; [done|].
      rewrite <- app_assoc. econstructor; eauto.
Qed.

Lemma run_hooks_chain name hs c tr r :
  texec (run_hooks step name hs c) tr r <->
  chain step (omap (fun o => match o with Some f => Some (name, f) | None => None end) hs) c tr r.
Proof.
  split.
  - revert c tr. induction hs as [|[f|] hs IH]; intros c tr H; simpl in H |- *.
    + apply texec_ret_inv in H as [-> ->]. constructor.
    + apply texec_bind_inv in H as (t1 & t2 & [e|c'] & -> & H1 & H2).
      * apply texec_ret_inv in H2 as [-> ->]. rewrite app_nil_r. by constructor.
      * econstructor; eauto.
    + by apply IH.
  - revert c tr. induction hs as [|[f|] hs IH]; intros c tr H; simpl in H |- *.
    + inversion H; subst. constructor.
    + inversion H as [|? ? ? ? t c' tr' ? Hs Hc|? ? ? ? ? e Hs]; subst.
      * eapply texec_bind; [done|]. by apply IH.
      * rewrite <- (app_nil_r tr). eapply texec_bind; [done|]. constructor.
    + by apply IH.
Qed.

Lemma run_groups_iff groups c tr r :
  texec (run_groups get step groups c) tr r <-> chain step (flat get groups) c tr r.
Proof.
  unfold flat. split.
  - revert c tr. induction groups as [|g groups IH]; intros c tr H; simpl in H |- *.
    + apply texec_ret_inv in H as [-> ->]. constructor.
    + apply texec_bind_inv in H as (t1 & t2 & [c' [e|]] & -> & H1 & H2);
        apply run_hooks_chain in H1; apply chain_app.
      * apply texec_ret_inv in H2 as [-> ->]. rewrite app_nil_r. left. eauto.
      * right. exists c', t1, t2. split; [done|]. split; [done|]. by apply IH.
  - revert c tr. induction groups as [|g groups IH]; intros c tr H; simpl in H |- *.
    + inversion H; subst. constructor.
    + apply chain_app in H as [(e & He & H)|(c' & t1 & t2 & -> & H1 & H2)].
      * destruct r as [c' e']. simpl in He. subst e'. rewrite <- (app_nil_r tr).
        eapply texec_bind; [by apply run_hooks_chain|]. simpl. constructor.
      * eapply texec_bind; [by apply run_hooks_chain|]. simpl. by apply IH.
Qed.

(** The nested loops make one pass over the registered hooks: groups in registration
    order, hooks in order inside a group, nil hooks skipped, each hook fed the previous
    one's output, and nothing runs after the first error. *)
Theorem run_groups_chain groups c tr r :
  texec (run_groups get step groups c) tr r <-> chain step (flat get groups) c tr r.
Proof. apply run_groups_iff. Qed.

(** An invariant of every step is an invariant of the chain. *)
Lemma chain_invariant (I : C -> Prop) hs c tr r :
  (forall n f c, I c -> spec (step n f c) (fun _ r => forall c', r = inr c' -> I c')) ->
  I c -> chain step hs c tr r -> I r.1.
Proof.
  intros Hstep Hc H. induction H as [|? ? ? ? ? ? ? ? Hs H IH|]; simpl; try done.
  apply IH. by eapply (Hstep _ _ _ Hc).
Qed.
End chain_laws.

(** A BeforeTool chain can rewrite the arguments of a call and nothing else: the tool, its
    kind and the call ID that reach execution are those that were authorized and approved;
    a kind that is not hook-eligible passes untouched and calls no hook. *)
Theorem before_tool_keeps_identity groups m c tr r :
  texec (RunBeforeTool groups m c) tr r ->
  (forall c', r = inr c' -> c' = with_args c (hc_Args c')) /\
  (HooksEligible (hc_Kind c) = false -> tr = [] /\ r = inr c).
Proof.
  unfold RunBeforeTool. destruct (HooksEligible (hc_Kind c)) eqn:E; simpl; intros H.
  - split; [|done]. intros c' ->.
    apply texec_bind_inv in H as (t1 & t2 & [c1 e] & -> & H1 & H2).
    apply texec_ret_inv in H2 as [-> H2]. simpl in H2. destruct e; [done|]. injection H2 as ->.
    apply run_groups_iff in H1.
    apply (chain_invariant _ (fun c1 => c1 = with_args c (hc_Args c1)) _ c) in H1; [done| |by destruct c].
    intros n f c2 Hc tr' r Hx c' ->. apply texec_bind_inv in Hx as (? & ? & [e|a] & _ & _ & Hx).
    + apply texec_ret_inv in Hx as [_ Hx]. done.
    + apply texec_ret_inv in Hx as [_ Hx]. injection Hx as ->. rewrite Hc. done.
  - apply texec_ret_inv in H as [-> ->]. split; [|done]. intros c' [= <-]. by destruct c.
Qed.

(** Merging hook sets runs the receiver's hooks first, for every family. *)
Theorem merge_runs_both name h other get :
  In get [h_BeforeLLM; h_AfterLLM; h_BeforeTool; h_AfterTool; h_BeforeRetrieve; h_AfterRetrieve;
          h_BeforeMemoryLoad; h_AfterMemoryLoad; h_BeforeMemoryStore; h_AfterMemoryStore; h_OnBudgetExceeded] ->
  flat get [{| g_Name := name; g_Hooks := Merge h other |}] =
  flat get [{| g_Name := name; g_Hooks := h |}; {| g_Name := name; g_Hooks := other |}].
Proof.
  intros Hin. assert (Hm : get (Merge h other) = get h ++ get other).
  { simpl in Hin. repeat destruct Hin as [<-|Hin]; done. }
  unfold flat. simpl. rewrite Hm, !app_nil_r. apply omap_app.
Qed.

(** ** Footprints *)

Lemma always_run_groups P {C} get (step : string -> func -> C -> prog (result C)) groups c :
  (forall n f c, always P (step n f c)) -> always P (run_groups get step groups c).
Proof.
  intros H. assert (Hh : forall name hs c, always P (run_hooks step name hs c)).
  { intros name hs. induction hs as [|[f|] hs IH]; intros c'; simpl; [apply always_ret| |apply IH].
    apply always_bind; [apply H|]. intros [e|c2]; [apply always_ret|apply IH]. }
  revert c. induction groups as [|g groups IH]; intros c; simpl; [apply always_ret|].
  apply always_bind; [apply Hh|]. intros [c' [e|]]; simpl; [apply always_ret|apply IH].
Qed.

Lemma always_run_chain P {C} get (step : string -> func -> C -> prog (result C)) groups c :
  (forall n f c, always P (step n f c)) -> always P (run_chain get step groups c).
Proof.
  intros H. apply always_bind; [by apply always_run_groups|]. intros r. apply always_ret.
Qed.

(** A hook call of any family. *)
Definition is_hook_op (o : Op) : Prop :=
  match o with
  | OBeforeLLM _ _ _ | OAfterLLM _ _ _ | OBeforeTool _ _ _ | OAfterTool _ _ _ _ _
  | OBeforeRetrieve _ _ _ | OAfterRetrieve _ _ _ _ | OBeforeMemoryLoad _ _ _
  | OAfterMemoryLoad _ _ _ _ _ | OBeforeMemoryStore _ _ _ | OAfterMemoryStore _ _ _
  | OOnBudgetExceeded _ _ => True
  | _ => False
  end.

Section hook_footprints.
Context (P : Op -> Prop) (HP : forall o, is_hook_op o -> P o).

Ltac hook := repeat first
  [ apply always_run_chain | apply always_run_groups | progress intros | apply always_ret
  | apply always_call; apply HP; exact I
  | apply always_bind_result | apply always_bind | case_match | progress simpl ].

Lemma foot_RunBeforeLLM g m q : always P (RunBeforeLLM g m q).
Proof. unfold RunBeforeLLM. hook. Qed.
Lemma foot_RunAfterLLM g m p : always P (RunAfterLLM g m p).
Proof. unfold RunAfterLLM. hook. Qed.
Lemma foot_RunBeforeTool g m c : always P (RunBeforeTool g m c).
Proof. unfold RunBeforeTool, before_tool_step. hook. Qed.
Lemma foot_RunAfterTool g m c s e : always P (RunAfterTool g m c s e).
Proof. unfold RunAfterTool. hook. Qed.
Lemma foot_RunBeforeRetrieve g m c : always P (RunBeforeRetrieve g m c).
Proof. unfold RunBeforeRetrieve, before_retrieve_step. hook. Qed.
Lemma foot_RunAfterRetrieve g m c d : always P (RunAfterRetrieve g m c d).
Proof. unfold RunAfterRetrieve. hook. Qed.
Lemma foot_RunBeforeMemoryLoad g m c : always P (RunBeforeMemoryLoad g m c).
Proof. unfold RunBeforeMemoryLoad, before_load_step. hook. Qed.
Lemma foot_RunAfterMemoryLoad g m c s : always P (RunAfterMemoryLoad g m c s).
Proof. unfold RunAfterMemoryLoad. hook. Qed.
Lemma foot_RunBeforeMemoryStore g m c : always P (RunBeforeMemoryStore g m c).
Proof. unfold RunBeforeMemoryStore, before_store_step. hook. Qed.
Lemma foot_RunAfterMemoryStore g m c : always P (RunAfterMemoryStore g m c).
Proof. unfold RunAfterMemoryStore, after_store_step. hook. Qed.
Lemma foot_RunOnBudgetExceeded g i : always P (RunOnBudgetExceeded g i).
Proof. unfold RunOnBudgetExceeded, budget_hook_step. hook. Qed.
End hook_footprints.

#[export] Hint Resolve foot_RunBeforeLLM foot_RunAfterLLM foot_RunBeforeTool foot_RunAfterTool
  foot_RunBeforeRetrieve foot_RunAfterRetrieve foot_RunBeforeMemoryLoad foot_RunAfterMemoryLoad
  foot_RunBeforeMemoryStore foot_RunAfterMemoryStore foot_RunOnBudgetExceeded : footprint.

Lemma hook_quiet f o : is_hook_op o -> quiet f o.
Proof. by destruct o. Qed.
#[export] Hint Resolve hook_quiet : footprint.

