(* ===== verification/ErrorControl.v ===== *)
(** Error control ([internal/runtime/base/error_control.go]): the iteration bound, the model
    fallback and the two user callbacks. *)
From S2P Require Import Prelude GoLib Types Prog Policies MemoryConfig Budget CircuitBreaker Telemetry Events Effects.

#[local] Open Scope string_scope.
#[local] Open Scope list_scope.
#[local] Open Scope Z_scope.

Definition EffectiveMaxIterations (configured : Z) : Z :=
  if configured <=? 0 then 10 else configured.

Definition ClampExtraIterations (extra originalMax : Z) : Z :=
  if extra <? 1 then 0
  else let capAt := EffectiveMaxIterations originalMax in
       if capAt <? extra then capAt else extra.

Definition LastToolAction (toolNames : list string) : string := Join "," toolNames.

Definition LLMPolicyAttempts (maxAttempts : Z) : Z := if maxAttempts <? 1 then 1 else maxAttempts.

Definition fallback_client (rt : Runtime) : result LLMClient :=
  match ac_ErrorControl (rt_AgentConfig rt) with
  | None => inl (errors_New "error control: FallbackModel requested but FallbackLLMClient is empty")
  | Some cfg =>
      if String.eqb (TrimSpace (ec_FallbackLLMClient cfg)) "" then
        inl (errors_New "error control: FallbackModel requested but FallbackLLMClient is empty")
      else
        match ac_NamedLLMClients (rt_AgentConfig rt) !! ec_FallbackLLMClient cfg with
        | Some (Some c) => inr c
        | _ => inl (errors_New ("error control: FallbackLLMClient " +:+ Quote (ec_FallbackLLMClient cfg) +:+
                                " is not in NamedLLMClients"))
        end
  end.

Definition ResolveLLMClient (rt : Runtime) (useFallback : bool) : result LLMClient :=
  if negb useFallback then inr (ac_LLMClient (rt_AgentConfig rt)) else fallback_client rt.

Definition abort_decision : ErrorControlDecision :=
  {| dec_Action := ErrorControlAbort; dec_ExtraIterations := 0 |}.
Definition final_decision : ErrorControlDecision :=
  {| dec_Action := ErrorControlContinueWithFinalCall; dec_ExtraIterations := 0 |}.

(** What is made of the callback's answer. *)
Definition accept_llm_failure (rt : Runtime) (d : ErrorControlDecision) : ErrorControlDecision :=
  match dec_Action d with
  | ErrorControlAbort => d
  | ErrorControlFallbackModel =>
      match ResolveLLMClient rt true with inl _ => abort_decision | inr _ => d end
  | _ => abort_decision
  end.

Definition DecideLLMFailure (rt : Runtime) (info : LLMFailureInfo) : prog ErrorControlDecision :=
  match ac_ErrorControl (rt_AgentConfig rt) with
  | Some cfg =>
      if ec_OnLLMFailure cfg then d ← call (OOnLLMFailure info); mret (accept_llm_failure rt d)
      else mret abort_decision
  | None => mret abort_decision
  end.

Definition accept_max_iterations (info : MaxIterationsInfo) (d : ErrorControlDecision) : ErrorControlDecision :=
  match dec_Action d with
  | ErrorControlContinueWithFinalCall => d
  | ErrorControlExtendIterations =>
      let extra := ClampExtraIterations (dec_ExtraIterations d) (mi_MaxIterations info) in
      if extra <? 1 then final_decision
      else {| dec_Action := dec_Action d; dec_ExtraIterations := extra |}
  | _ => final_decision
  end.

Definition DecideMaxIterations (rt : Runtime) (info : MaxIterationsInfo) (alreadyExtended : bool)
    : prog ErrorControlDecision :=
  if alreadyExtended then mret final_decision else
  match ac_ErrorControl (rt_AgentConfig rt) with
  | Some cfg =>
      if ec_OnMaxIterationsExceeded cfg
      then d ← call (OOnMaxIterations info); mret (accept_max_iterations info d)
      else mret final_decision
  | None => mret final_decision
  end.

(** ** Theorems *)

Lemma EffectiveMaxIterations_pos c : 1 <= EffectiveMaxIterations c.
Proof. unfold EffectiveMaxIterations. destruct (_ <=? _) eqn:E; crush_bool; lia. Qed.

Lemma ClampExtraIterations_bounds extra m :
  0 <= ClampExtraIterations extra m <= EffectiveMaxIterations m.
Proof.
  pose proof (EffectiveMaxIterations_pos m). unfold ClampExtraIterations.
  destruct (extra <? 1) eqn:E1; crush_bool; [lia|].
  destruct (_ <? extra) eqn:E2; crush_bool; lia.
Qed.

(** What the loop may receive from [DecideMaxIterations]. *)
Definition bounded_decision (m : Z) (extended : bool) (d : ErrorControlDecision) : Prop :=
  dec_Action d = ErrorControlContinueWithFinalCall \/
  dec_Action d = ErrorControlExtendIterations /\ extended = false /\
  1 <= dec_ExtraIterations d <= EffectiveMaxIterations m.

Lemma DecideMaxIterations_inv rt info extended tr d :
  texec (DecideMaxIterations rt info extended) tr d ->
  bounded_decision (mi_MaxIterations info) extended d.
Proof.
  unfold DecideMaxIterations. destruct extended; [intros [-> ->]%texec_ret_inv; by left|].
  destruct (ac_ErrorControl _) as [cfg|]; [|intros [-> ->]%texec_ret_inv; by left].
  destruct (ec_OnMaxIterationsExceeded cfg); [|intros [-> ->]%texec_ret_inv; by left].
  intros (t1 & t2 & d0 & -> & _ & [-> ->]%texec_ret_inv)%texec_bind_inv.
  unfold accept_max_iterations. destruct (dec_Action d0) eqn:Ea; try (by left).
  pose proof (ClampExtraIterations_bounds (dec_ExtraIterations d0) (mi_MaxIterations info)).
  destruct (_ <? 1) eqn:E; crush_bool; [by left|]. right. simpl. repeat split; first [done | lia].
Qed.

(** Whatever the user callback answers, the loop is told either to make its final call or,
    at most once per run, to extend by between one and the original number of rounds. *)
Theorem max_iterations_decision_bounded rt info extended tr d :
  texec (DecideMaxIterations rt info extended) tr d ->
  bounded_decision (mi_MaxIterations info) extended d.
Proof. apply DecideMaxIterations_inv. Qed.

(** A fallback is only ever decided when the fallback client resolves; every other answer of
    the callback (or its absence) aborts. *)
Theorem llm_failure_decision_sound rt info tr d :
  texec (DecideLLMFailure rt info) tr d ->
  dec_Action d = ErrorControlAbort \/
  dec_Action d = ErrorControlFallbackModel /\ exists c, ResolveLLMClient rt true = inr c.
Proof.
  unfold DecideLLMFailure.
  destruct (ac_ErrorControl _) as [cfg|]; [|intros [-> ->]%texec_ret_inv; by left].
  destruct (ec_OnLLMFailure cfg); [|intros [-> ->]%texec_ret_inv; by left].
  intros (t1 & t2 & d0 & -> & _ & [-> ->]%texec_ret_inv)%texec_bind_inv.
  unfold accept_llm_failure. destruct (dec_Action d0) eqn:Ea; try (by left).
  destruct (ResolveLLMClient rt true) as [e|c]; [by left|right; eauto].
Qed.

Section footprints.
Context (P : Op -> Prop).

Lemma foot_DecideLLMFailure rt i : (forall i, P (OOnLLMFailure i)) -> always P (DecideLLMFailure rt i).
Proof. intros H. unfold DecideLLMFailure. foot. Qed.

Lemma foot_DecideMaxIterations rt i e :
  (forall i, P (OOnMaxIterations i)) -> always P (DecideMaxIterations rt i e).
Proof. intros H. unfold DecideMaxIterations. foot. Qed.
End footprints.

#[export] Hint Resolve foot_DecideLLMFailure foot_DecideMaxIterations : footprint.
