(* ===== verification/Sanitize.v ===== *)
(** Prompt sanitisation ([internal/runtime/base/sanitize.go]): volatile timestamps and
    session identifiers are removed from message contents before an LLM call.  The
    patterns are run by a small leftmost-first backtracking matcher on bytes, the semantics
    of Go's [regexp] for them. *)
From S2P Require Import Prelude GoLib Types.

#[local] Open Scope string_scope.
#[local] Open Scope list_scope.
#[local] Open Scope Z_scope.

(** ** Regular expressions *)

Inductive re :=
| REps
| RCls (p : ascii -> bool)
| RSeq (r1 r2 : re)
| RAlt (r1 r2 : re)          (* [r1] preferred *)
| RMany (p : ascii -> bool)  (* greedy [p*] *)
| RWordB.                    (* [\b] *)

Definition in_range (a b c : ascii) : bool :=
  (N_of_ascii a <=? N_of_ascii c)%N && (N_of_ascii c <=? N_of_ascii b)%N.
Definition is_digit : ascii -> bool := in_range "0" "9".
Definition is_alpha (c : ascii) : bool := in_range "a" "z" c || in_range "A" "Z" c.
Definition is_word (c : ascii) : bool := is_alpha c || is_digit c || Ascii.eqb c "_".
Definition one_of (s : string) (c : ascii) : bool := existsb (Ascii.eqb c) (to_bytes s).

(** Position in the input: the previous byte and the rest. *)
Definition pos : Type := option ascii * bytes.

Definition at_word_boundary (p : pos) : bool :=
  let w o := match o with Some c => is_word c | None => false end in
  xorb (w p.1) (w (hd_error p.2)).

Fixpoint match_many (p : ascii -> bool) (prev : option ascii) (s : bytes) (k : pos -> option pos)
    : option pos :=
  match s with
  | c :: s' =>
      if p c then
        match match_many p (Some c) s' k with
        | Some x => Some x
        | None => k (prev, s)
        end
      else k (prev, s)
  | [] => k (prev, s)
  end.

(** [matches r q k]: the end of the preferred match of [r] from [q] that [k] accepts. *)
Fixpoint matches (r : re) (q : pos) (k : pos -> option pos) : option pos :=
  match r with
  | REps => k q
  | RCls p =>
      match q.2 with
      | c :: s => if p c then k (Some c, s) else None
      | [] => None
      end
  | RSeq r1 r2 => matches r1 q (fun q' => matches r2 q' k)
  | RAlt r1 r2 =>
      match matches r1 q k with
      | Some x => Some x
      | None => matches r2 q k
      end
  | RMany p => match_many p q.1 q.2 k
  | RWordB => if at_word_boundary q then k q else None
  end.

(** [Regexp.ReplaceAllString] for a pattern that never matches the empty string. *)
Fixpoint replace_all_fuel (fuel : nat) (r : re) (rep : bytes) (q : pos) : bytes :=
  match fuel, q.2 with
  | S fuel, c :: s =>
      match matches r q Some with
      | Some q' => rep ++ replace_all_fuel fuel r rep q'
      | None => c :: replace_all_fuel fuel r rep (Some c, s)
      end
  | _, s => s
  end.

Definition re_ReplaceAll (r : re) (rep s : bytes) : bytes := replace_all_fuel (length s) r rep (None, s).

(** ** The patterns *)

Definition RChr (a : ascii) : re := RCls (Ascii.eqb a).
Definition ROpt (r : re) : re := RAlt r REps.
Definition RPlus (p : ascii -> bool) : re := RSeq (RCls p) (RMany p).
Fixpoint RSeqs (l : list re) : re := match l with [] => REps | r :: l => RSeq r (RSeqs l) end.
Definition RStr (s : string) : re := RSeqs (map RChr (to_bytes s)).
Fixpoint RAlts (l : list re) : re :=
  match l with [] => RCls (fun _ => false) | [r] => r | r :: l => RAlt r (RAlts l) end.
Definition RTimes (n : nat) (p : ascii -> bool) : re := RSeqs (replicate n (RCls p)).

(** [\s] *)
Definition is_space : ascii -> bool :=
  fun c => existsb (N.eqb (N_of_ascii c)) [9; 10; 12; 13; 32]%N.

Definition iso_timestamp : re :=
  RSeqs [RWordB; RTimes 4 is_digit; RChr "-"; RTimes 2 is_digit; RChr "-"; RTimes 2 is_digit;
         RCls (one_of "T "); RTimes 2 is_digit; RChr ":"; RTimes 2 is_digit; RChr ":"; RTimes 2 is_digit;
         ROpt (RSeq (RChr ".") (RPlus is_digit));
         ROpt (RAlt (RChr "Z")
                 (RSeqs [RCls (one_of "+-"); RTimes 2 is_digit; ROpt (RChr ":"); RTimes 2 is_digit]));
         RWordB].

Definition ansic_timestamp : re :=
  RSeqs [RWordB; RAlts (map RStr ["Mon"; "Tue"; "Wed"; "Thu"; "Fri"; "Sat"; "Sun"]); RPlus is_space;
         RAlts (map RStr ["Jan"; "Feb"; "Mar"; "Apr"; "May"; "Jun"; "Jul"; "Aug"; "Sep"; "Oct"; "Nov"; "Dec"]);
         RPlus is_space; RCls is_digit; ROpt (RCls is_digit); RPlus is_space;
         RTimes 2 is_digit; RChr ":"; RTimes 2 is_digit; RChr ":"; RTimes 2 is_digit; RPlus is_space;
         RTimes 4 is_digit; RWordB].

Definition sanitizeTimestampRe : re := RAlt iso_timestamp ansic_timestamp.

Definition lower (c : ascii) : ascii := if in_range "A" "Z" c then ascii_of_N (N_of_ascii c + 32) else c.

(** [(?i)] on a letter; [s] also folds to U+017F. *)
Definition RFold (a : ascii) : re :=
  let ascii_fold := RCls (fun c => Ascii.eqb (lower c) a) in
  if Ascii.eqb a "s" then RAlt ascii_fold (RSeq (RChr (ascii_of_N 197)) (RChr (ascii_of_N 191)))
  else ascii_fold.
Definition RFoldStr (s : string) : re := RSeqs (map RFold (to_bytes s)).

(** [(?i)[A-Za-z0-9_-]]: one ASCII byte; the folds of [s] and [k] outside ASCII. *)
Definition id_class (c : ascii) : bool := is_word c || Ascii.eqb c "-".
Definition id_folds : list re :=
  [RSeq (RChr (ascii_of_N 197)) (RChr (ascii_of_N 191));
   RSeqs [RChr (ascii_of_N 226); RChr (ascii_of_N 132); RChr (ascii_of_N 170)]].

Definition quote_class (c : ascii) : bool := Ascii.eqb c "'" || Ascii.eqb c (ascii_of_N 34).

(** Greedy repetition of a general expression, at most [n] times. *)
Fixpoint RStar (n : nat) (r : re) : re :=
  match n with O => REps | S n => ROpt (RSeq r (RStar n r)) end.

Definition is_hex (c : ascii) : bool := is_digit (lower c) || in_range "a" "f" (lower c).

(** [n] bounds the repetitions of the identifier class: the length of the input is enough. *)
Definition session_id (n : nat) : re :=
  let id_char := RAlts (RCls id_class :: id_folds) in
  RSeqs [RWordB;
         RAlts (map (fun w => RSeqs [RFoldStr w; ROpt (RCls (one_of "_-")); RFoldStr "id"])
                    ["session"; "conversation"; "run"; "request"]);
         RMany is_space; RCls (one_of ":="); RMany is_space; ROpt (RCls quote_class);
         RSeq id_char (RStar n id_char); ROpt (RCls quote_class)].

Definition uuid : re :=
  RSeqs [RWordB; RTimes 8 is_hex; RChr "-"; RTimes 4 is_hex; RChr "-"; RTimes 4 is_hex; RChr "-";
         RTimes 4 is_hex; RChr "-"; RTimes 12 is_hex; RWordB].

Definition sanitizeSessionIDRe (n : nat) : re := RAlt (session_id n) uuid.

Definition sanitizeWhitespaceRe : re := RPlus (fun c => existsb (N.eqb (N_of_ascii c)) [32; 9]%N).

(** ** [strings.ReplaceAll] *)

Fixpoint bytes_replace_fuel (fuel : nat) (old new s : bytes) : bytes :=
  match fuel, s with
  | S fuel, c :: s' =>
      match strip_prefix old s with
      | Some rest => new ++ bytes_replace_fuel fuel old new rest
      | None => c :: bytes_replace_fuel fuel old new s'
      end
  | _, s => s
  end.

Definition bytes_ReplaceAll (old new s : bytes) : bytes := bytes_replace_fuel (length s) old new s.

Fixpoint bytes_contains (sub s : bytes) : bool :=
  match strip_prefix sub s with
  | Some _ => true
  | None => match s with [] => false | _ :: s' => bytes_contains sub s' end
  end.

(** [strings.Contains] *)
Definition Contains (s sub : string) : bool := bytes_contains (to_bytes sub) (to_bytes s).

Definition nl : ascii := ascii_of_N 10.
Definition cr : ascii := ascii_of_N 13.

(** [for strings.Contains(s, NL3) { s = strings.ReplaceAll(s, NL3, NL2) }] *)
Fixpoint collapse_newlines_fuel (fuel : nat) (s : bytes) : bytes :=
  match fuel with
  | O => s
  | S fuel =>
      if bytes_contains [nl; nl; nl] s
      then collapse_newlines_fuel fuel (bytes_ReplaceAll [nl; nl; nl] [nl; nl] s)
      else s
  end.

Definition collapse_newlines (s : bytes) : bytes := collapse_newlines_fuel (length s) s.

Definition sanitizeContent (s : string) : string :=
  if String.eqb s "" then s else
  let s := re_ReplaceAll sanitizeTimestampRe [] (to_bytes s) in
  let s := re_ReplaceAll (sanitizeSessionIDRe (length s)) [] s in
  let s := re_ReplaceAll sanitizeWhitespaceRe [ascii_of_N 32] s in
  let s := bytes_ReplaceAll [cr; nl] [nl] s in
  TrimSpace (of_bytes (collapse_newlines s)).

Definition sanitizeMessages (msgs : list Message) : list Message :=
  map (fun m => with_content m (sanitizeContent (m_Content m))) msgs.

Example sanitize_ex :
  sanitizeContent "at 2024-01-02T03:04:05.123Z run_id=abc-1 go  on (Session-ID: 'x9')" = "at go on ()" /\
  sanitizeContent "12024-01-02 03:04:05" = "12024-01-02 03:04:05" /\
  sanitizeContent "Mon Jan  2 15:04:05 2006 123e4567-e89b-12d3-a456-426614174000 x" = "x".
Proof. vm_compute. auto. Qed.

(** ** Theorems *)

Lemma bytes_contains_spec sub s :
  bytes_contains sub s = true <-> exists p q, s = p ++ sub ++ q.
Proof.
  split.
  - induction s as [|c s IH]; simpl; destruct (strip_prefix sub _) as [r|] eqn:E; try done.
    + apply strip_prefix_Some in E. exists [], r. done.
    + apply strip_prefix_Some in E. exists [], r. done.
    + intros H. destruct (IH H) as (p & q & ->). by exists (c :: p), q.
  - intros (p & q & ->). induction p as [|c p IH]; simpl.
    + assert (Hs : strip_prefix sub (sub ++ q) = Some q) by by apply strip_prefix_Some.
      destruct (sub ++ q) eqn:E; simpl; by rewrite Hs.
    + by destruct (strip_prefix sub _).
Qed.

Section replace.
Context (old new : bytes) (Hlen : (length new < length old)%nat).

Lemma replace_shorter fuel s : (length (bytes_replace_fuel fuel old new s) <= length s)%nat.
Proof.
  revert s. induction fuel as [|fuel IH]; intros [|c s]; cbn [bytes_replace_fuel length]; try lia.
  destruct (strip_prefix old (c :: s)) as [r|] eqn:E; simpl.
  - apply strip_prefix_Some in E. rewrite length_app. specialize (IH r).
    assert (length (c :: s) = (length old + length r)%nat) by (rewrite E; apply length_app).
    simpl in *. lia.
  - specialize (IH s). lia.
Qed.

Lemma replace_shrinks fuel s :
  (length s <= fuel)%nat -> bytes_contains old s = true ->
  (length (bytes_replace_fuel fuel old new s) < length s)%nat.
Proof.
  revert s. induction fuel as [|fuel IH]; intros [|c s] Hf Hc; simpl in Hf; try lia.
  - exfalso. destruct old; simpl in *; [lia|done].
  - exfalso. destruct old; simpl in *; [lia|done].
  - cbn [bytes_replace_fuel]. cbn [bytes_contains] in Hc.
    destruct (strip_prefix old (c :: s)) as [r|] eqn:E.
    + apply strip_prefix_Some in E. rewrite length_app. pose proof (replace_shorter fuel r).
      assert (length (c :: s) = (length old + length r)%nat) by (rewrite E; apply length_app). lia.
    + simpl. assert (length s <= fuel)%nat as Hs by lia. specialize (IH s Hs Hc). lia.
Qed.
End replace.

Lemma collapse_newlines_done fuel s :
  (length s <= fuel)%nat -> bytes_contains [nl; nl; nl] (collapse_newlines_fuel fuel s) = false.
Proof.
  revert s. induction fuel as [|fuel IH]; intros s Hf; simpl.
  - destruct s; [done|]. simpl in Hf. lia.
  - destruct (bytes_contains _ s) eqn:E; [|done]. apply IH.
    pose proof (replace_shrinks [nl; nl; nl] [nl; nl] ltac:(simpl; lia) (length s) s (le_n _) E).
    unfold bytes_ReplaceAll. lia.
Qed.

Lemma TrimSpace_infix s : exists p q, to_bytes s = p ++ to_bytes (TrimSpace s) ++ q.
Proof.
  unfold TrimSpace. rewrite to_of_bytes. destruct (trim_right_prefix (trim_left_bytes (to_bytes s))) as [q Hq].
  destruct (trim_fuel_suffix space_runes (length (to_bytes s)) (to_bytes s)) as [p Hp].
  exists p, q. rewrite <- Hq. exact Hp.
Qed.

(** The collapsing loop terminates (its number of passes is below the length of the text),
    and a sanitised message has no run of blank lines and no surrounding space. *)
Theorem sanitize_normalises s :
  bytes_contains [nl; nl; nl] (to_bytes (sanitizeContent s)) = false /\
  TrimSpace (sanitizeContent s) = sanitizeContent s.
Proof.
  unfold sanitizeContent. destruct (String.eqb s "") eqn:E; [apply String.eqb_eq in E as ->; done|].
  cbv zeta. set (b := bytes_ReplaceAll [cr; nl] [nl] _). split; [|apply TrimSpace_idem].
  destruct (bytes_contains [nl; nl; nl] (to_bytes (TrimSpace _))) eqn:Ec; [|done].
  exfalso. apply bytes_contains_spec in Ec as (p & q & Hpq).
  destruct (TrimSpace_infix (of_bytes (collapse_newlines b))) as (p' & q' & H).
  rewrite Hpq, to_of_bytes in H.
  assert (Hc : bytes_contains [nl; nl; nl] (collapse_newlines b) = true).
  { apply bytes_contains_spec. exists (p' ++ p), (q ++ q'). rewrite H. by rewrite <- !app_assoc. }
  pose proof (collapse_newlines_done (length b) b (le_n _)) as Hd.
  unfold collapse_newlines in Hc. congruence.
Qed.

(** Only contents change: roles, tool metadata and order are kept. *)
Lemma sanitizeMessages_keeps msgs :
  Forall2 (fun m m' => m' = with_content m (sanitizeContent (m_Content m))) msgs (sanitizeMessages msgs).
Proof. unfold sanitizeMessages. induction msgs; simpl; constructor; auto. Qed.
