(* ===== verification/LLM.v ===== *)
(** LLM calls ([internal/runtime/base/runtime.go], [utils.go], [hooks.go]): request
    construction, hook middleware, generation with and without streaming, the events of an
    assistant turn, and the resolution of the tool calls of a response. *)
From S2P Require Import Prelude GoLib Types Prog Policies MemoryConfig Budget CircuitBreaker Telemetry Events Effects Hooks Sanitize.

#[local] Open Scope string_scope.
#[local] Open Scope list_scope.
#[local] Open Scope Z_scope.

Definition newline : string := String (ascii_of_N 10) "".

(** ** Usage and sampling *)

Definition CloneLLMUsage (u : option LLMUsage) : option LLMUsage := u.

Definition add_usage (a b : LLMUsage) : LLMUsage :=
  {| u_PromptTokens := wrap64 (u_PromptTokens a + u_PromptTokens b);
     u_CompletionTokens := wrap64 (u_CompletionTokens a + u_CompletionTokens b);
     u_TotalTokens := wrap64 (u_TotalTokens a + u_TotalTokens b);
     u_CachedPromptTokens := wrap64 (u_CachedPromptTokens a + u_CachedPromptTokens b);
     u_ReasoningTokens := wrap64 (u_ReasoningTokens a + u_ReasoningTokens b) |}.

Definition MergeLLMUsage (acc add : option LLMUsage) : option LLMUsage :=
  match add with
  | None => acc
  | Some add' =>
      match acc with
      | None => CloneLLMUsage add
      | Some acc => Some (add_usage acc add')
      end
  end.

Definition ApplyLLMSampling (s : option LLMSampling) (q : LLMRequest) : LLMRequest :=
  match s with
  | None => q
  | Some s =>
      {| q_SystemMessage := q_SystemMessage q; q_ResponseFormat := q_ResponseFormat q;
         q_Tools := q_Tools q; q_Messages := q_Messages q;
         q_Temperature := match s_Temperature s with Some t => Some t | None => q_Temperature q end;
         q_MaxTokens := if 0 <? s_MaxTokens s then s_MaxTokens s else q_MaxTokens q;
         q_TopP := match s_TopP s with Some t => Some t | None => q_TopP q end;
         q_TopK := match s_TopK s with Some t => Some t | None => q_TopK q end;
         q_Reasoning := match s_Reasoning s with Some r => Some r | None => q_Reasoning q end |}
  end.

Definition with_tools (q : LLMRequest) (tools : list ToolSpec) : LLMRequest :=
  {| q_SystemMessage := q_SystemMessage q; q_ResponseFormat := q_ResponseFormat q;
     q_Tools := tools; q_Messages := q_Messages q; q_Temperature := q_Temperature q;
     q_MaxTokens := q_MaxTokens q; q_TopP := q_TopP q; q_TopK := q_TopK q; q_Reasoning := q_Reasoning q |}.

(** ** Request *)

(** The labelled context messages: memory, then retrieved documents. *)
Definition context_messages (memoryContext retrieverContext : string) : list Message :=
  (if String.eqb memoryContext "" then []
   else [text_message MessageRoleUser ("Relevant Memories:" +:+ newline +:+ memoryContext)]) ++
  (if String.eqb retrieverContext "" then []
   else [text_message MessageRoleUser ("Relevant Context:" +:+ newline +:+ retrieverContext)]).

Definition BuildLLMRequest (rt : Runtime) (messages : list Message) (skipTools : bool)
    (memoryContext retrieverContext : string) (tools : list Tool) : LLMRequest :=
  let req := {| q_SystemMessage := as_SystemPrompt (rt_AgentSpec rt);
                q_ResponseFormat := as_ResponseFormat (rt_AgentSpec rt);
                q_Tools := [];
                q_Messages := context_messages memoryContext retrieverContext ++ sanitizeMessages messages;
                q_Temperature := None; q_MaxTokens := 0; q_TopP := None; q_TopK := None;
                q_Reasoning := None |} in
  with_tools (ApplyLLMSampling (ac_Sampling (rt_AgentConfig rt)) req)
             (if skipTools then [] else ToolsToSpecs tools).

(** ** Tools of a run *)

Fixpoint FindToolByName (tools : list Tool) (toolName : string) : option Tool :=
  match tools with
  | [] => None
  | t :: tools => if String.eqb (t_Name t) toolName then Some t else FindToolByName tools toolName
  end.

Definition RequiresApproval (rt : Runtime) (t : Tool) : bool :=
  match ac_ToolApprovalPolicy (rt_AgentConfig rt) with
  | None => default false (t_approval t)
  | Some policy => policy t
  end.

Definition UnknownToolMessage (name : string) : string :=
  "Unknown tool " +:+ Quote name +:+ ". It is not registered on this agent.".

Definition IsUnknownTool (tc : ToolCallRequest) (tools : list Tool) : bool :=
  if tc_Unknown tc then true
  else match FindToolByName tools (tc_ToolName tc) with Some _ => false | None => true end.

Definition NoteUnknownTool (rt : Runtime) (toolName : string) : prog unit :=
  if rt_Metrics rt then emit_metric "agent.tool.call.unknown" [("tool", toolName)] else mret tt.

Definition NoteCircuitSkip (rt : Runtime) (toolName : string) : prog unit :=
  if rt_Metrics rt then emit_metric "agent.tool.call.circuit_open" [("tool", toolName)] else mret tt.

(** ** Response *)

Definition display_name (t : Tool) (name : string) : string :=
  if String.eqb (t_DisplayName t) "" then name else t_DisplayName t.

Definition unknown_request (tc : ToolCall) : ToolCallRequest :=
  {| tc_ToolCallID := c_ToolCallID tc; tc_ToolName := c_ToolName tc; tc_ToolDisplayName := c_ToolName tc;
     tc_ToolKind := ""; tc_Args := c_Args tc; tc_NeedsApproval := false; tc_Unknown := true |}.

Definition known_request (rt : Runtime) (t : Tool) (tc : ToolCall) : ToolCallRequest :=
  {| tc_ToolCallID := c_ToolCallID tc; tc_ToolName := c_ToolName tc;
     tc_ToolDisplayName := display_name t (c_ToolName tc); tc_ToolKind := KindOf t;
     tc_Args := c_Args tc; tc_NeedsApproval := RequiresApproval rt t; tc_Unknown := false |}.

Definition resolve_call (rt : Runtime) (tools : list Tool) (tc : option ToolCall)
    : prog (option ToolCallRequest) :=
  match tc with
  | None => mret None
  | Some tc =>
      match FindToolByName tools (c_ToolName tc) with
      | None => _ ← NoteUnknownTool rt (c_ToolName tc); mret (Some (unknown_request tc))
      | Some t => mret (Some (known_request rt t tc))
      end
  end.

Definition llmResponseToResult (rt : Runtime) (p : LLMResponse) (tools : list Tool) : prog LLMResult :=
  calls ← traverse (resolve_call rt tools) (p_ToolCalls p);
  mret {| lr_Content := p_Content p; lr_ToolCalls := omap id calls; lr_Usage := CloneLLMUsage (p_Usage p) |}.

(** ** Calls *)

Definition emitter := AgentEvent -> prog unit.

Record ExecuteLLMInput := {
  li_AgentName : string; li_MessageID : string; li_RunID : string; li_Iteration : Z;
  li_Messages : list Message; li_SkipTools : bool; li_MemoryContext : string;
  li_RetrieverContext : string; li_Tools : list Tool;
  li_Emit : option emitter; li_Client : option LLMClient }.

(** [emitEvent(fn, NewAgent...Event(...))] *)
Definition emitEvent (fn : option emitter) (b : EventBody) : prog unit :=
  now ← call ONow;
  match fn with None => mret tt | Some f => f (NewEvent b now) end.

Definition hookRunMeta (runID : string) (iteration : Z) : RunMeta :=
  {| rm_RunID := runID; rm_Iteration := iteration; rm_HooksGroup := "" |}.

Definition runBeforeLLMRequest (rt : Runtime) (i : ExecuteLLMInput) (q : LLMRequest) : prog (result LLMRequest) :=
  match ac_Hooks (rt_AgentConfig rt) with
  | [] => mret (inr q)
  | hooks => RunBeforeLLM hooks (hookRunMeta (li_RunID i) (li_Iteration i)) q
  end.

Definition runAfterLLMResponse (rt : Runtime) (i : ExecuteLLMInput) (p : LLMResponse) : prog (result LLMResponse) :=
  match ac_Hooks (rt_AgentConfig rt) with
  | [] => mret (inr p)
  | hooks => RunAfterLLM hooks (hookRunMeta (li_RunID i) (li_Iteration i)) p
  end.

Definition build_request (rt : Runtime) (i : ExecuteLLMInput) : LLMRequest :=
  BuildLLMRequest rt (li_Messages i) (li_SkipTools i) (li_MemoryContext i) (li_RetrieverContext i) (li_Tools i).

Definition effective_client (rt : Runtime) (i : ExecuteLLMInput) : LLMClient :=
  default (ac_LLMClient (rt_AgentConfig rt)) (li_Client i).

Definition client_attrs (c : LLMClient) : list (string * string) :=
  [("model", l_Model c); ("provider", l_Provider c)].

Definition ExecuteLLM (rt : Runtime) (i : ExecuteLLMInput) : prog (result LLMResult) :=
  req ←? runBeforeLLMRequest rt i (build_request rt i);
  let client := effective_client rt i in
  let attrs := client_attrs client in
  _ ← emit_metric "agent.llm.call.started" attrs;
  r ← call (OGenerate client req);
  match r with
  | inl err => _ ← emit_metric "agent.llm.call.failed" attrs; mret (inl err)
  | inr resp =>
      resp ←? runAfterLLMResponse rt i resp;
      _ ← emit_metric "agent.llm.call.completed" attrs;
      res ← llmResponseToResult rt resp (li_Tools i);
      _ ← emitEvent (li_Emit i) (AgentTextMessageStartEvent (li_MessageID i) MessageRoleAssistant);
      _ ← emitEvent (li_Emit i) (AgentTextMessageContentEvent (li_MessageID i) (lr_Content res));
      _ ← emitEvent (li_Emit i) (AgentTextMessageEndEvent (li_MessageID i));
      mret (inr res)
  end.

(** The closures' shared variables: the text message and the reasoning phase. *)
Record stream_vars := {
  textMsgOpen : bool; reasoningMID : string; reasoningPhaseOpen : bool; reasoningMsgOpen : bool }.

Definition init_vars : stream_vars :=
  {| textMsgOpen := false; reasoningMID := ""; reasoningPhaseOpen := false; reasoningMsgOpen := false |}.

Definition set_text (v : stream_vars) (b : bool) : stream_vars :=
  {| textMsgOpen := b; reasoningMID := reasoningMID v; reasoningPhaseOpen := reasoningPhaseOpen v;
     reasoningMsgOpen := reasoningMsgOpen v |}.
Definition set_reasoning (v : stream_vars) (mid : string) (phase msg : bool) : stream_vars :=
  {| textMsgOpen := textMsgOpen v; reasoningMID := mid; reasoningPhaseOpen := phase; reasoningMsgOpen := msg |}.

Section stream.
Context (rt : Runtime) (i : ExecuteLLMInput).

Definition emit_ (b : EventBody) : prog unit := emitEvent (li_Emit i) b.

Definition openTextMsg (v : stream_vars) : prog stream_vars :=
  if textMsgOpen v then mret v
  else _ ← emit_ (AgentTextMessageStartEvent (li_MessageID i) MessageRoleAssistant); mret (set_text v true).

Definition closeTextMsg (v : stream_vars) : prog stream_vars :=
  if negb (textMsgOpen v) then mret v
  else _ ← emit_ (AgentTextMessageEndEvent (li_MessageID i)); mret (set_text v false).

Definition finalizeAssistantText (v : stream_vars) (res : LLMResult) : prog unit :=
  if textMsgOpen v then _ ← closeTextMsg v; mret tt
  else
    v ← openTextMsg v;
    _ ← emit_ (AgentTextMessageContentEvent (li_MessageID i) (lr_Content res));
    _ ← closeTextMsg v; mret tt.

Definition flushReasoning (v : stream_vars) : prog stream_vars :=
  v ← (if reasoningMsgOpen v
       then _ ← emit_ (AgentReasoningMessageEndEvent (reasoningMID v));
            mret (set_reasoning v (reasoningMID v) (reasoningPhaseOpen v) false)
       else mret v);
  if reasoningPhaseOpen v
  then _ ← emit_ (AgentReasoningEndEvent (reasoningMID v));
       mret (set_reasoning v (reasoningMID v) false (reasoningMsgOpen v))
  else mret v.

Definition openReasoning (v : stream_vars) : prog stream_vars :=
  if reasoningPhaseOpen v then mret v
  else
    mid ← call ONewUUID;
    _ ← emit_ (AgentReasoningStartEvent mid);
    _ ← emit_ (AgentReasoningMessageStartEvent mid MessageRoleReasoning);
    mret (set_reasoning v mid true true).

(** One chunk of the loop [for stream.Next()]. *)
Definition on_chunk (v : stream_vars) (chunk : option LLMStreamChunk) : prog stream_vars :=
  match chunk with
  | None => mret v
  | Some c =>
      v ← (if String.eqb (k_ContentDelta c) "" then mret v
           else
             v ← flushReasoning v;
             v ← openTextMsg v;
             _ ← emit_ (AgentTextMessageContentEvent (li_MessageID i) (k_ContentDelta c));
             mret v);
      if String.eqb (k_ThinkingDelta c) "" then mret v
      else
        v ← openReasoning v;
        _ ← emit_ (AgentReasoningMessageContentEvent (reasoningMID v) (k_ThinkingDelta c));
        mret v
  end.

(** The tail shared by the generate fallback and the stream: after-hooks, metrics, result,
    final text. *)
Definition finish_stream (attrs : list (string * string)) (v : stream_vars) (resp : LLMResponse)
    : prog (result LLMResult) :=
  r ← runAfterLLMResponse rt i resp;
  match r with
  | inl err => _ ← emit_metric "agent.llm.call.failed" attrs; mret (inl err)
  | inr resp =>
      res ← llmResponseToResult rt resp (li_Tools i);
      _ ← emit_metric "agent.llm.call.completed" attrs;
      _ ← finalizeAssistantText v res;
      mret (inr res)
  end.

Definition stream_failed (attrs : list (string * string)) (err : error) : prog (result LLMResult) :=
  _ ← emit_metric "agent.llm.call.failed" attrs; mret (inl err).

(** The body once a stream is open. *)
Definition consume_stream (attrs : list (string * string)) (s : Stream) : prog (result LLMResult) :=
  v ← fold_prog on_chunk init_vars (sm_Chunks s);
  v ← flushReasoning v;
  match sm_Err s with
  | Some err => stream_failed attrs err
  | None =>
      match sm_Result s with
      | None => stream_failed attrs (errors_New "stream completed without result")
      | Some resp => finish_stream attrs v resp
      end
  end.

Definition ExecuteLLMStream : prog (result LLMResult) :=
  req ←? runBeforeLLMRequest rt i (build_request rt i);
  let client := effective_client rt i in
  let attrs := client_attrs client in
  _ ← emit_metric "agent.llm.call.started" attrs;
  if negb (l_IsStreamSupported client) then
    r ← call (OGenerate client req);
    match r with
    | inl err => stream_failed attrs err
    | inr resp => finish_stream attrs init_vars resp
    end
  else
    r ← call (OGenerateStream client req);
    match r with
    | inl err => stream_failed attrs err
    | inr s => consume_stream attrs s
    end.
End stream.

(** ** Conversation history *)

Definition FetchConversationMessages (rt : Runtime) (conversationID : string) : prog (result (list Message)) :=
  if negb (ac_Conversation (rt_AgentConfig rt)) then
    mret (inl (errors_New "conversation is not configured"))
  else
    let limit := if ac_ConversationSize (rt_AgentConfig rt) <=? 0 then 20
                 else ac_ConversationSize (rt_AgentConfig rt) in
    r ← call (OListMessages conversationID limit);
    mret (match r with
          | inl err => inl (wrap_error "failed to list conversation messages: " err)
          | inr ms => inr ms
          end).

(** ** Theorems: usage and requests *)

Lemma add_usage_comm a b : add_usage a b = add_usage b a.
Proof. unfold add_usage. f_equal; f_equal; lia. Qed.

Lemma add_usage_assoc a b c : add_usage a (add_usage b c) = add_usage (add_usage a b) c.
Proof.
  unfold add_usage; simpl. f_equal; rewrite wrap64_wrap_l, wrap64_wrap_r; f_equal; lia.
Qed.

(** The counters of one call fit the [int64] fields they are read from. *)
Definition usage_in64 (u : LLMUsage) : Prop :=
  in64 (u_PromptTokens u) /\ in64 (u_CompletionTokens u) /\ in64 (u_TotalTokens u) /\
  in64 (u_CachedPromptTokens u) /\ in64 (u_ReasoningTokens u).

(** Usage accumulates associatively and commutatively, with "not reported" as unit. *)
Theorem MergeLLMUsage_monoid a b c :
  MergeLLMUsage None a = a /\ MergeLLMUsage a None = a /\
  MergeLLMUsage a b = MergeLLMUsage b a /\
  MergeLLMUsage a (MergeLLMUsage b c) = MergeLLMUsage (MergeLLMUsage a b) c.
Proof.
  repeat split; destruct a, b, c; simpl; try done;
    by rewrite ?add_usage_assoc, ?(add_usage_comm l l0).
Qed.

(** A request carries the system prompt unchanged, the labelled contexts followed by the
    conversation with sanitised contents, one spec per tool of the run (none when tools are
    skipped), and sampling fields only where they are set. *)
Theorem BuildLLMRequest_spec rt ms skip mem ret tools :
  let q := BuildLLMRequest rt ms skip mem ret tools in
  q_SystemMessage q = as_SystemPrompt (rt_AgentSpec rt) /\
  q_Messages q = context_messages mem ret ++ sanitizeMessages ms /\
  map ts_Name (q_Tools q) = (if skip then [] else map t_Name tools) /\
  (ac_Sampling (rt_AgentConfig rt) = None ->
     q_Temperature q = None /\ q_MaxTokens q = 0 /\ q_TopP q = None /\ q_TopK q = None /\ q_Reasoning q = None) /\
  (forall s, ac_Sampling (rt_AgentConfig rt) = Some s ->
     q_Temperature q = s_Temperature s /\ q_MaxTokens q = Z.max 0 (s_MaxTokens s) /\
     q_TopP q = s_TopP s /\ q_TopK q = s_TopK s /\ q_Reasoning q = s_Reasoning s).
Proof.
  cbv zeta. unfold BuildLLMRequest. repeat split.
  - by destruct (ac_Sampling _).
  - by destruct (ac_Sampling _).
  - simpl. destruct skip; [done|]. unfold ToolsToSpecs. by rewrite map_map.
  - by rewrite H.
  - by rewrite H.
  - by rewrite H.
  - by rewrite H.
  - by rewrite H.
  - rewrite H. simpl. by destruct (s_Temperature s).
  - rewrite H. simpl. destruct (0 <? s_MaxTokens s) eqn:E; crush_bool; lia.
  - rewrite H. simpl. by destruct (s_TopP s).
  - rewrite H. simpl. by destruct (s_TopK s).
  - rewrite H. simpl. by destruct (s_Reasoning s).
Qed.

Lemma FindToolByName_Some tools name t :
  FindToolByName tools name = Some t -> In t tools /\ t_Name t = name.
Proof.
  induction tools as [|t' tools IH]; simpl; [done|]. destruct (String.eqb (t_Name t') name) eqn:E; [|naive_solver].
  apply String.eqb_eq in E. naive_solver.
Qed.

Lemma FindToolByName_None tools name :
  FindToolByName tools name = None <-> forall t, In t tools -> t_Name t <> name.
Proof.
  induction tools as [|t' tools IH]; simpl; [naive_solver|].
  destruct (String.eqb (t_Name t') name) eqn:E; crush_bool; naive_solver.
Qed.

(** The call [c] of a response, resolved against the tools of the run. *)
Definition resolved (rt : Runtime) (tools : list Tool) (c : ToolCall) (r : ToolCallRequest) : Prop :=
  tc_ToolCallID r = c_ToolCallID c /\ tc_ToolName r = c_ToolName c /\ tc_Args r = c_Args c /\
  match FindToolByName tools (c_ToolName c) with
  | None => tc_Unknown r = true /\ tc_NeedsApproval r = false
  | Some t => tc_Unknown r = false /\ tc_NeedsApproval r = RequiresApproval rt t /\ tc_ToolKind r = KindOf t
  end.

Lemma response_resolved rt p tools tr r :
  texec (llmResponseToResult rt p tools) tr r ->
  Forall2 (resolved rt tools) (omap id (p_ToolCalls p)) (lr_ToolCalls r) /\
  lr_Content r = p_Content p /\ lr_Usage r = p_Usage p.
Proof.
  intros (t1 & t2 & calls & -> & H1 & [-> ->]%texec_ret_inv)%texec_bind_inv. simpl. split; [|done].
  revert t1 calls H1. induction (p_ToolCalls p) as [|c l IH]; intros t1 calls H; simpl in H.
  - apply texec_ret_inv in H as [-> ->]. constructor.
  - apply texec_bind_inv in H as (ta & tb & c' & -> & Hc & H).
    apply texec_bind_inv in H as (tc & td & cs & -> & Hcs & H). apply texec_ret_inv in H as [-> ->].
    specialize (IH _ _ Hcs). destruct c as [c|]; simpl in Hc.
    + destruct (FindToolByName tools (c_ToolName c)) as [t|] eqn:Ef.
      * apply texec_ret_inv in Hc as [-> ->]. simpl. constructor; [|done].
        unfold resolved. rewrite Ef. done.
      * apply texec_bind_inv in Hc as (? & ? & ? & -> & _ & Hc). apply texec_ret_inv in Hc as [-> ->].
        simpl. constructor; [|done]. unfold resolved. by rewrite Ef.
    + apply texec_ret_inv in Hc as [-> ->]. simpl. done.
Qed.

(** Every non-nil call of a response is kept, in order, with its ID, name and arguments; it is
    marked unknown exactly when no registered tool has its name, and otherwise carries the
    kind and the approval requirement of the first tool of that name. *)
Theorem tool_calls_resolved rt p tools tr r :
  texec (llmResponseToResult rt p tools) tr r ->
  Forall2 (resolved rt tools) (omap id (p_ToolCalls p)) (lr_ToolCalls r) /\
  lr_Content r = p_Content p /\ lr_Usage r = p_Usage p.
Proof. apply response_resolved. Qed.

(** ** Theorems: the events of an assistant turn *)

(** The bodies published by a trace. *)
Definition published_body (e : Event) : option EventBody :=
  match ev_op e with OPublish _ a => Some (ae_Body a) | _ => None end.
Definition published (tr : list Event) : list EventBody := omap published_body tr.

Definition publish_to (channel : string) : emitter := fun e => call (OPublish channel e).

(** Protocol state of one turn: text message open; reasoning phase and its message. *)
Definition turn_state : Type := bool * option (string * bool).

(** Legal transitions: text starts closed and outside a reasoning phase, deltas only reach
    an open message, phases are properly nested. *)
Definition turn_step (mid : string) (s : turn_state) (b : EventBody) : option turn_state :=
  match b, s with
  | AgentTextMessageStartEvent m _, (false, None) => if String.eqb m mid then Some (true, None) else None
  | AgentTextMessageContentEvent m _, (true, None) => if String.eqb m mid then Some s else None
  | AgentTextMessageEndEvent m, (true, None) => if String.eqb m mid then Some (false, None) else None
  | AgentReasoningStartEvent m, (t, None) => Some (t, Some (m, false))
  | AgentReasoningMessageStartEvent m _, (t, Some (m', false)) =>
      if String.eqb m m' then Some (t, Some (m, true)) else None
  | AgentReasoningMessageContentEvent m _, (t, Some (m', true)) => if String.eqb m m' then Some s else None
  | AgentReasoningMessageEndEvent m, (t, Some (m', true)) =>
      if String.eqb m m' then Some (t, Some (m, false)) else None
  | AgentReasoningEndEvent m, (t, Some (m', false)) => if String.eqb m m' then Some (t, None) else None
  | _, _ => None
  end.

Definition turn_run (mid : string) (s : turn_state) (l : list EventBody) : option turn_state :=
  fold_left (fun o b => o ≫= fun s => turn_step mid s b) l (Some s).

Lemma turn_run_app mid s l1 l2 s1 :
  turn_run mid s l1 = Some s1 -> turn_run mid s (l1 ++ l2) = turn_run mid s1 l2.
Proof. unfold turn_run. rewrite fold_left_app. by intros ->. Qed.

Lemma published_app t1 t2 : published (t1 ++ t2) = published t1 ++ published t2.
Proof. apply omap_app. Qed.

Definition silent (o : Op) : Prop := match o with OPublish _ _ => False | _ => True end.

Lemma silent_published {A} (m : prog A) : always silent m -> spec m (fun tr _ => published tr = []).
Proof.
  intros H tr a Hx. apply (always_spec _ _ H) in Hx. unfold published.
  induction Hx as [|[o r] tr Ho _ IH]; [done|]. simpl. unfold published_body. simpl in *.
  destruct o; simpl in *; done.
Qed.

Lemma foot_llmResponseToResult P rt p tools :
  (forall a, P (OMetric "agent.tool.call.unknown" a)) -> always P (llmResponseToResult rt p tools).
Proof. intros H. unfold llmResponseToResult, resolve_call, NoteUnknownTool, emit_metric. foot. Qed.

Lemma foot_runBeforeLLMRequest P rt i q :
  (forall o, is_hook_op o -> P o) -> always P (runBeforeLLMRequest rt i q).
Proof. intros H. unfold runBeforeLLMRequest. foot. Qed.

Lemma foot_runAfterLLMResponse P rt i p :
  (forall o, is_hook_op o -> P o) -> always P (runAfterLLMResponse rt i p).
Proof. intros H. unfold runAfterLLMResponse. foot. Qed.

Lemma hook_silent o : is_hook_op o -> silent o.
Proof. by destruct o. Qed.

#[export] Hint Resolve foot_llmResponseToResult foot_runBeforeLLMRequest foot_runAfterLLMResponse hook_silent : footprint.

Section turn.
Context (rt : Runtime) (i : ExecuteLLMInput) (channel : string).
Context (Hemit : li_Emit i = Some (publish_to channel)).

Definition st (v : stream_vars) : turn_state :=
  (textMsgOpen v, if reasoningPhaseOpen v then Some (reasoningMID v, reasoningMsgOpen v) else None).

(** Between operations the reasoning message is open exactly when its phase is. *)
Definition vars_wf (v : stream_vars) : Prop := reasoningMsgOpen v = reasoningPhaseOpen v.

Lemma emit_published b tr u : texec (emit_ i b) tr u -> published tr = [b].
Proof. unfold emit_, emitEvent, publish_to in *. rewrite Hemit. intros H. texec_invs. done. Qed.

(** From protocol state [st v], the execution [tr] ends in [st v']. *)
Definition moves (v : stream_vars) (tr : list Event) (v' : stream_vars) : Prop :=
  turn_run (li_MessageID i) (st v) (published tr) = Some (st v') /\ vars_wf v'.

Lemma moves_app v t1 v1 t2 v2 : moves v t1 v1 -> moves v1 t2 v2 -> moves v (t1 ++ t2) v2.
Proof. intros [H1 _] [H2 ?]. split; [|done]. rewrite published_app. by erewrite turn_run_app. Qed.

Lemma moves_nil v : vars_wf v -> moves v [] v.
Proof. intros H. by split. Qed.

Ltac published_done := unfold moves, st, vars_wf in *; rewrite ?published_app;
  repeat match goal with H : texec (emit_ i _) ?t _ |- _ => apply emit_published in H; rewrite H end;
  simpl; unfold turn_run; simpl; rewrite ?String.eqb_refl; simpl.

Lemma openTextMsg_moves v tr v' :
  vars_wf v -> reasoningPhaseOpen v = false -> texec (openTextMsg i v) tr v' ->
  moves v tr v' /\ textMsgOpen v' = true /\ reasoningPhaseOpen v' = false.
Proof.
  intros Hwf Hp H. unfold openTextMsg in H. destruct (textMsgOpen v) eqn:Et; texec_invs.
  - split; [by apply moves_nil|done].
  - published_done. rewrite Et, Hp. simpl. rewrite ?String.eqb_refl. simpl. by rewrite Hp in *.
Qed.

Lemma closeTextMsg_moves v tr v' :
  vars_wf v -> reasoningPhaseOpen v = false -> texec (closeTextMsg i v) tr v' ->
  moves v tr v' /\ textMsgOpen v' = false /\ reasoningPhaseOpen v' = false.
Proof.
  intros Hwf Hp H. unfold closeTextMsg in H. destruct (textMsgOpen v) eqn:Et; simpl in H; texec_invs.
  - published_done. rewrite Et, Hp. simpl. rewrite ?String.eqb_refl. simpl. by rewrite Hp in *.
  - split; [by apply moves_nil|done].
Qed.

Lemma content_moves v tr u d :
  vars_wf v -> reasoningPhaseOpen v = false -> textMsgOpen v = true ->
  texec (emit_ i (AgentTextMessageContentEvent (li_MessageID i) d)) tr u -> moves v tr v.
Proof. intros Hwf Hp Ht H. published_done. rewrite Ht, Hp. simpl. rewrite ?String.eqb_refl. split; congruence. Qed.

Lemma flushReasoning_moves v tr v' :
  vars_wf v -> texec (flushReasoning i v) tr v' ->
  moves v tr v' /\ reasoningPhaseOpen v' = false /\ textMsgOpen v' = textMsgOpen v.
Proof.
  intros Hwf H. unfold flushReasoning in H. unfold vars_wf in Hwf.
  destruct (reasoningMsgOpen v) eqn:Em; texec_invs; rewrite <- ?Hwf in *; simpl in *; rewrite <- ?Hwf in *; texec_invs.
  - published_done. rewrite Em, <- Hwf. simpl. rewrite ?String.eqb_refl. simpl. by rewrite ?String.eqb_refl.
  - split; [by apply moves_nil; unfold vars_wf; rewrite Em, Hwf|]. by rewrite <- Hwf.
Qed.

Lemma openReasoning_moves v tr v' :
  vars_wf v -> texec (openReasoning i v) tr v' -> moves v tr v' /\ reasoningPhaseOpen v' = true.
Proof.
  intros Hwf H. unfold openReasoning in H. destruct (reasoningPhaseOpen v) eqn:Ep; texec_invs.
  - split; [by apply moves_nil|done].
  - split; [|done]. published_done. rewrite Ep. simpl. by rewrite ?String.eqb_refl.
Qed.

Lemma thinking_moves v tr u d :
  vars_wf v -> reasoningPhaseOpen v = true ->
  texec (emit_ i (AgentReasoningMessageContentEvent (reasoningMID v) d)) tr u -> moves v tr v.
Proof. intros Hwf Hp H. published_done. rewrite Hwf, Hp. simpl. rewrite ?String.eqb_refl. split; congruence. Qed.

Lemma on_chunk_moves v c tr v' :
  vars_wf v -> texec (on_chunk i v c) tr v' -> moves v tr v'.
Proof.
  intros Hwf H. unfold on_chunk in H. destruct c as [c|]; [|texec_invs; by apply moves_nil].
  apply texec_mbind_inv in H as (t1 & t2 & v1 & -> & H1 & H2).
  assert (Hm1 : moves v t1 v1).
  { destruct (String.eqb (k_ContentDelta c) ""); texec_invs; [by apply moves_nil|].
    destruct (flushReasoning_moves _ _ _ Hwf ltac:(eassumption)) as (Ha & Hp & _).
    destruct (openTextMsg_moves _ _ _ (proj2 Ha) Hp ltac:(eassumption)) as (Hb & Ht & Hp').
    eapply moves_app; [done|]. eapply moves_app; [done|]. rewrite app_nil_r.
    eapply content_moves; [apply Hb|done|done|eassumption]. }
  eapply moves_app; [done|]. destruct (String.eqb (k_ThinkingDelta c) ""); texec_invs.
  - by apply moves_nil, Hm1.
  - destruct (openReasoning_moves _ _ _ (proj2 Hm1) ltac:(eassumption)) as [Ha Hp].
    eapply moves_app; [done|]. rewrite app_nil_r.
    eapply thinking_moves; [apply Ha|done|eassumption].
Qed.

Lemma chunks_moves cs v tr v' :
  vars_wf v -> texec (fold_prog (on_chunk i) v cs) tr v' -> moves v tr v'.
Proof.
  revert v tr. induction cs as [|c cs IH]; intros v tr Hwf H; simpl in H; texec_invs.
  - by apply moves_nil.
  - eapply moves_app; [by eapply on_chunk_moves|]. eapply IH; [|done].
    by eapply on_chunk_moves.
Qed.

Lemma finalize_moves v res tr u :
  vars_wf v -> reasoningPhaseOpen v = false -> texec (finalizeAssistantText i v res) tr u ->
  turn_run (li_MessageID i) (st v) (published tr) = Some (false, None).
Proof.
  intros Hwf Hp H. unfold finalizeAssistantText in H. destruct (textMsgOpen v) eqn:Et; texec_invs.
  - destruct (closeTextMsg_moves _ _ _ Hwf Hp ltac:(eassumption)) as ([H1 _] & Hc & Hp').
    rewrite app_nil_r, H1. unfold st. by rewrite Hc, Hp'.
  - destruct (openTextMsg_moves _ _ _ Hwf Hp ltac:(eassumption)) as (Ha & Ht & Hp1).
    match goal with H : texec (emit_ _ _) _ _ |- _ => pose proof (content_moves _ _ _ _ (proj2 Ha) Hp1 Ht H) as Hb end.
    destruct (closeTextMsg_moves _ _ _ (proj2 Ha) Hp1 ltac:(eassumption)) as (Hc & Hcl & Hp2).
    pose proof (moves_app _ _ _ _ _ Ha (moves_app _ _ _ _ _ Hb Hc)) as [Hd _].
    rewrite app_nil_r. rewrite Hd. unfold st. by rewrite Hcl, Hp2.
Qed.

Lemma silent_trace {A} (m : prog A) tr a : always silent m -> texec m tr a -> published tr = [].
Proof. intros H Hx. by eapply silent_published. Qed.

Lemma finish_moves attrs v p tr r :
  vars_wf v -> reasoningPhaseOpen v = false -> texec (finish_stream rt i attrs v p) tr r ->
  exists t, turn_run (li_MessageID i) (st v) (published tr) = Some (t, None) /\
            (forall res, r = inr res -> t = false).
Proof.
  intros Hwf Hp H. unfold finish_stream in H.
  apply texec_mbind_inv in H as (t1 & t2 & r1 & -> & H1 & H2).
  apply silent_trace in H1; [|foot; auto with footprint]. rewrite published_app, H1. simpl.
  destruct r1 as [e|p']; unfold emit_metric in *; texec_invs.
  - exists (textMsgOpen v). unfold st, turn_run. simpl. by rewrite Hp.
  - match goal with H : texec (llmResponseToResult _ _ _) _ _ |- _ =>
      apply silent_trace in H; [|apply foot_llmResponseToResult; done] end.
    exists false. split; [|done]. rewrite !published_app.
    repeat match goal with H : published _ = [] |- _ => rewrite H; clear H end. simpl.
    rewrite app_nil_r. by eapply finalize_moves.
Qed.
End turn.

(** The published events of a streamed assistant turn follow the protocol on every execution:
    a text message and reasoning phases open before their deltas and never overlap wrongly,
    every reasoning phase is closed, and when the call succeeds the text message is closed
    too (also when the model streamed no text at all). *)
Theorem stream_events_well_formed rt i channel tr r :
  li_Emit i = Some (publish_to channel) ->
  texec (ExecuteLLMStream rt i) tr r ->
  exists t, turn_run (li_MessageID i) (false, None) (published tr) = Some (t, None) /\
            (forall res, r = inr res -> t = false).
Proof.
  intros Hemit H. unfold ExecuteLLMStream in H.
  apply texec_result_inv in H as [(e & -> & H)|(t1 & t2 & q & -> & H & H2)];
    (apply silent_trace in H; [|foot; auto with footprint]).
  - rewrite H. by exists false.
  - rewrite published_app, H. simpl. unfold emit_metric in H2.
    apply texec_mbind_inv in H2 as (t3 & t4 & u & -> & H3 & H4). texec_invs. simpl.
    destruct (negb _); apply texec_mbind_inv in H4 as (t5 & t6 & [e|s] & -> & H5 & H6); texec_invs;
      unfold stream_failed, emit_metric in *; texec_invs; simpl; try by exists false.
    + by eapply finish_moves in H6.
    + unfold consume_stream in H6.
      apply texec_mbind_inv in H6 as (t7 & t8 & v & -> & H7 & H8).
      apply texec_mbind_inv in H8 as (t9 & t10 & v1 & -> & H9 & H10).
      eapply chunks_moves in H7; [|done|done].
      destruct (flushReasoning_moves _ _ Hemit _ _ _ (proj2 H7) H9) as (H9' & Hp & _).
      pose proof (moves_app _ _ _ _ _ _ H7 H9') as [Hm Hwf].
      change (false, None) with (st init_vars).
      rewrite app_assoc, published_app. erewrite turn_run_app by exact Hm.
      assert (Hfail : forall attrs e tr r, texec (stream_failed attrs e) tr r ->
                exists t, turn_run (li_MessageID i) (st v1) (published tr) = Some (t, None) /\
                          (forall res, r = inr res -> t = false)).
      { unfold stream_failed, emit_metric. intros attrs e tr r' Hx. texec_invs. simpl.
        exists (textMsgOpen v1). unfold st, turn_run. simpl. by rewrite Hp. }
      destruct (sm_Err s); [by eapply Hfail|]. destruct (sm_Result s); [|by eapply Hfail].
      by eapply finish_moves.
Qed.

(** ** Footprints of the streaming closures *)

#[export] Hint Extern 1 (is_lifecycle _ = false) => reflexivity : footprint.

Section stream_footprints.
Context (P : Op -> Prop) (i : ExecuteLLMInput).
Context (Hnow : P ONow) (Huuid : P ONewUUID).
(** The turn emits no lifecycle event. *)
Context (Hem : forall f b now, is_lifecycle b = false -> li_Emit i = Some f -> always P (f (NewEvent b now))).

Lemma foot_emitEvent b : is_lifecycle b = false -> always P (emitEvent (li_Emit i) b).
Proof using Hnow Hem.
  intros Hb. unfold emitEvent. apply always_bind; [by apply always_call|]. intros now.
  destruct (li_Emit i) as [f|] eqn:E; [by apply Hem|apply always_ret].
Qed.

#[local] Hint Resolve foot_emitEvent : footprint.

Lemma foot_openTextMsg v : always P (openTextMsg i v).
Proof using Hnow Hem. unfold openTextMsg, emit_. foot. Qed.
Lemma foot_closeTextMsg v : always P (closeTextMsg i v).
Proof using Hnow Hem. unfold closeTextMsg, emit_. foot. Qed.
Lemma foot_flushReasoning v : always P (flushReasoning i v).
Proof using Hnow Hem. unfold flushReasoning, emit_. foot. Qed.
Lemma foot_openReasoning v : always P (openReasoning i v).
Proof using Hnow Hem Huuid. unfold openReasoning, emit_. foot. Qed.
#[local] Hint Resolve foot_openTextMsg foot_closeTextMsg foot_flushReasoning foot_openReasoning : footprint.
Lemma foot_finalizeAssistantText v r : always P (finalizeAssistantText i v r).
Proof using Hnow Hem. unfold finalizeAssistantText, emit_. foot. Qed.
Lemma foot_on_chunk v c : always P (on_chunk i v c).
Proof using Hnow Hem Huuid. unfold on_chunk, emit_. foot. Qed.
End stream_footprints.

#[export] Hint Resolve foot_emitEvent foot_flushReasoning foot_finalizeAssistantText foot_on_chunk : footprint.

(** ** Theorems: metering *)

Section metering.
Context (rt : Runtime) (i : ExecuteLLMInput).
Context (Hem : forall f e, li_Emit i = Some f -> always (quiet "agent.llm.call") (f e)).

Let Hemb f b now : is_lifecycle b = false -> li_Emit i = Some f -> always (quiet "agent.llm.call") (f (NewEvent b now)).
Proof. intros _. apply Hem. Qed.

Lemma result_quiet p tools : always (quiet "agent.llm.call") (llmResponseToResult rt p tools).
Proof using. apply foot_llmResponseToResult. by repeat split. Qed.

Lemma finish_stream_tally attrs v p tr r :
  texec (finish_stream rt i attrs v p) tr r ->
  tally "agent.llm.call" tr = match r with inr _ => (0, 1, 0) | inl _ => (0, 0, 1) end.
Proof using Hem.
  unfold finish_stream. intros H. apply texec_mbind_inv in H as (t1 & t2 & r1 & -> & H1 & H2).
  apply (tally_quiet "agent.llm.call") in H1; [|foot]. rewrite tally_app, H1.
  destruct r1 as [e|p']; unfold emit_metric in H2.
  - texec_invs. by vm_compute.
  - apply texec_mbind_inv in H2 as (t3 & t4 & res & -> & H3 & H4).
    apply (tally_quiet "agent.llm.call") in H3; [|apply result_quiet].
    apply texec_mbind_inv in H4 as (t5 & t6 & u & -> & H5 & H6). call_inv H5.
    apply texec_mbind_inv in H6 as (t7 & t8 & u' & -> & H7 & H8). texec_invs.
    apply (tally_quiet "agent.llm.call") in H7; [|by apply foot_finalizeAssistantText].
    rewrite !tally_app, H3, H7. by vm_compute.
Qed.

Lemma consume_stream_tally attrs s tr r :
  texec (consume_stream rt i attrs s) tr r ->
  tally "agent.llm.call" tr = match r with inr _ => (0, 1, 0) | inl _ => (0, 0, 1) end.
Proof using Hem.
  unfold consume_stream. intros H. apply texec_mbind_inv in H as (t1 & t2 & v & -> & H1 & H2).
  apply (tally_quiet "agent.llm.call") in H1; [|foot; by apply foot_on_chunk].
  apply texec_mbind_inv in H2 as (t3 & t4 & v' & -> & H3 & H4).
  apply (tally_quiet "agent.llm.call") in H3; [|by apply foot_flushReasoning].
  rewrite !tally_app, H1, H3.
  destruct (sm_Err s); [|destruct (sm_Result s)];
    [unfold stream_failed, emit_metric in H4; texec_invs; by vm_compute| |
     unfold stream_failed, emit_metric in H4; texec_invs; by vm_compute].
  apply finish_stream_tally in H4. rewrite H4. by destruct r.
Qed.
End metering.

(** Every streamed model call is counted once as started and once as completed or failed,
    according to its result, whatever the hooks and the stream do; a request refused by a
    before-hook is not counted. *)
Theorem stream_calls_metered rt i tr r :
  (forall f e, li_Emit i = Some f -> always (quiet "agent.llm.call") (f e)) ->
  texec (ExecuteLLMStream rt i) tr r ->
  tally "agent.llm.call" tr = (0, 0, 0) \/
  tally "agent.llm.call" tr = match r with inr _ => (1, 1, 0) | inl _ => (1, 0, 1) end.
Proof.
  unfold ExecuteLLMStream. intros Hem H.
  apply texec_result_inv in H as [(e & -> & H)|(t1 & t2 & q & -> & H1 & H2)].
  { left. eapply tally_quiet; [|exact H]. foot. }
  right. apply (tally_quiet "agent.llm.call") in H1; [|foot]. cbv zeta in H2.
  apply texec_mbind_inv in H2 as (t3 & t4 & u & -> & H3 & H4). unfold emit_metric in H3. call_inv H3.
  rewrite !tally_app, H1.
  destruct (negb _); apply texec_mbind_inv in H4 as (t5 & t6 & [e|s] & -> & H5 & H6); call_inv H5;
    rewrite !tally_app.
  - unfold stream_failed, emit_metric in H6. texec_invs. by vm_compute.
  - apply finish_stream_tally in H6; [|done]. rewrite H6. by destruct r.
  - unfold stream_failed, emit_metric in H6. texec_invs. by vm_compute.
  - apply consume_stream_tally in H6; [|done]. rewrite H6. by destruct r.
Qed.

(** The non-streaming call has one more outcome: when an after-hook rejects the response the
    call stays counted as started only, neither completed nor failed. *)
Theorem generate_calls_metered rt i tr r :
  (forall f e, li_Emit i = Some f -> always (quiet "agent.llm.call") (f e)) ->
  texec (ExecuteLLM rt i) tr r ->
  tally "agent.llm.call" tr =
    match r with
    | inr _ => (1, 1, 0)
    | inl _ => if existsb (fun e => match ev_op e with OGenerate _ _ => true | _ => false end) tr
               then if 0 <? metric_count "agent.llm.call.failed" tr then (1, 0, 1) else (1, 0, 0)
               else (0, 0, 0)
    end.
Proof.
  unfold ExecuteLLM. intros Hem H.
  apply texec_result_inv in H as [(e & -> & H)|(t1 & t2 & q & -> & H1 & H2)].
  { assert (Hg : always (fun o => match o with OGenerate _ _ => False | _ => True end)
                   (runBeforeLLMRequest rt i (build_request rt i))).
    { apply foot_runBeforeLLMRequest. by intros []. }
    apply (always_spec _ _ Hg) in H as HF.
    assert (Hx : existsb (fun e : Event => match ev_op e with OGenerate _ _ => true | _ => false end) tr = false).
    { clear - HF. induction HF as [|x tr Hx _ IH]; simpl; [done|]. rewrite IH. by destruct (ev_op x). }
    rewrite Hx. eapply tally_quiet; [|exact H]. foot. }
  apply (tally_quiet "agent.llm.call") in H1; [|foot]. cbv zeta in H2.
  apply texec_mbind_inv in H2 as (t3 & t4 & u & -> & H3 & H4). unfold emit_metric in H3. call_inv H3.
  apply texec_mbind_inv in H4 as (t5 & t6 & r1 & -> & H5 & H6). call_inv H5.
  rewrite !existsb_app. simpl existsb. rewrite !orb_true_r.
  assert (Hf1 : metric_count "agent.llm.call.failed" t1 = 0) by (by injection H1).
  rewrite !metric_count_app, Hf1, !tally_app, H1.
  destruct r1 as [e|p].
  - unfold emit_metric in H6. texec_invs. by vm_compute.
  - apply texec_result_inv in H6 as [(e & -> & H6)|(t7 & t8 & p' & -> & H7 & H8)].
    + apply (tally_quiet "agent.llm.call") in H6; [|foot].
      assert (Hf2 : metric_count "agent.llm.call.failed" t6 = 0) by (by injection H6).
      rewrite H6, Hf2. by vm_compute.
    + apply (tally_quiet "agent.llm.call") in H7; [|foot].
      apply texec_mbind_inv in H8 as (t9 & t10 & u1 & -> & H9 & H10). unfold emit_metric in H9. call_inv H9.
      apply texec_mbind_inv in H10 as (t11 & t12 & res & -> & H11 & H12).
      apply (tally_quiet "agent.llm.call") in H11; [|apply result_quiet].
      assert (H12' : tally "agent.llm.call" t12 = (0, 0, 0) /\ exists x, r = inr x).
      { split.
        - eapply tally_quiet; [|exact H12]. foot; by apply foot_emitEvent.
        - texec_invs. eauto. }
      destruct H12' as [H12' [x ->]]. rewrite !tally_app, H7, H11, H12'. by vm_compute.
Qed.
