(* ===== verification/Memory.v ===== *)
(** Long-term memory at run time ([internal/runtime/base/memory.go] and the memory part of
    [runtime.go]): recall with recency fallback, storing records through kind policy,
    deduplication and expiry, extraction at run end.  The default LLM extractor
    ([extractMemoriesWithLLM]) is one effect; the messages it is given are computed here. *)
From S2P Require Import Prelude GoLib Types Prog Policies MemoryConfig Budget CircuitBreaker Telemetry Events Effects Hooks LLM.

#[local] Open Scope string_scope.
#[local] Open Scope list_scope.
#[local] Open Scope Z_scope.

(** ** Configuration queries *)

Definition mem_config (rt : Runtime) : option MemConfig :=
  match ac_Memory (rt_AgentConfig rt) with
  | Some c => if mc_Memory c then Some c else None
  | None => None
  end.

Definition MemoryConfigured (rt : Runtime) : bool :=
  match mem_config rt with Some _ => true | None => false end.
Definition RecallEnabled (rt : Runtime) : bool :=
  match mem_config rt with Some c => rc_Enabled (mc_Recall c) | None => false end.
Definition RunEndMemoryStoreEnabled (rt : Runtime) : bool :=
  match mem_config rt with Some c => String.eqb (st_Mode (mc_Store c)) StoreModeAlways | None => false end.
Definition MemoryStoreOnDemand (rt : Runtime) : bool :=
  match mem_config rt with Some c => String.eqb (st_Mode (mc_Store c)) StoreModeOnDemand | None => false end.
Definition ResolveMemoryScope (rt : Runtime) (ctx : Ctx) : result MemoryScope :=
  match mem_config rt with
  | None => inr zero_scope
  | Some c => Resolve (mc_ScopeConfig c) ctx
  end.

(** ** Hook wrappers *)

Definition runBeforeMemoryLoadHooks (rt : Runtime) (runID : string) (iter : Z) (c : MemoryLoadCall)
    : prog (result MemoryLoadCall) :=
  match ac_Hooks (rt_AgentConfig rt) with
  | [] => mret (inr c)
  | hooks => RunBeforeMemoryLoad hooks (hookRunMeta runID iter) c
  end.
Definition runAfterMemoryLoadHooks (rt : Runtime) (runID : string) (iter : Z) (c : MemoryLoadCall) (s : string)
    : prog (result string) :=
  match ac_Hooks (rt_AgentConfig rt) with
  | [] => mret (inr s)
  | hooks => RunAfterMemoryLoad hooks (hookRunMeta runID iter) c s
  end.
Definition runBeforeMemoryStoreHooks (rt : Runtime) (runID : string) (iter : Z) (c : MemoryStoreCall)
    : prog (result MemoryStoreCall) :=
  match ac_Hooks (rt_AgentConfig rt) with
  | [] => mret (inr c)
  | hooks => RunBeforeMemoryStore hooks (hookRunMeta runID iter) c
  end.
Definition runAfterMemoryStoreHooks (rt : Runtime) (runID : string) (iter : Z) (c : MemoryStoreCall)
    : prog (option error) :=
  match ac_Hooks (rt_AgentConfig rt) with
  | [] => mret None
  | hooks => RunAfterMemoryStore hooks (hookRunMeta runID iter) c
  end.

(** ** Recall *)

Fixpoint format_entries (n : Z) (es : list MemoryEntry) : string :=
  match es with
  | [] => ""
  | e :: es =>
      "[" +:+ Itoa n +:+ "] " +:+ e_Text e +:+ newline +:+ "(kind: " +:+ e_Kind e +:+ ", score: " +:+
      fmt_fixed 2 (e_Score e) +:+ ")" +:+ newline +:+ newline +:+ format_entries (n + 1) es
  end.
Definition FormatMemoryEntries (es : list MemoryEntry) : string := format_entries 1 es.

Definition loadOptionsFromCall (c : MemoryLoadCall) (withMinScore : bool) : LoadMemoryOptions :=
  build_load_options (ml_Limit c) (ml_MinScore c) (ml_Kinds c) withMinScore.

Record ExecuteMemoryRecallInput := {
  mri_RunID : string; mri_Iteration : Z; mri_Scope : MemoryScope; mri_Query : string }.

Definition recall_failed (e : error) : prog (result MemoryResult) :=
  _ ← emit_metric "agent.memory.recall.failed" []; mret (inl e).

(** Semantic load, then the scoped recency list when it found nothing for a real query. *)
Definition load_entries (c : MemConfig) (lc : MemoryLoadCall) : prog (result (list MemoryEntry)) :=
  entries ←? call (OMemoryLoad (ml_Scope lc) (ml_Query lc) (loadOptionsFromCall lc true));
  match entries with
  | [] => if String.eqb (TrimSpace (ml_Query lc)) "" then mret (inr [])
          else call (OMemoryLoad (ml_Scope lc) "" (RecencyLoadOptions (mc_Recall c)))
  | _ => mret (inr entries)
  end.

Definition ExecuteMemoryRecall (rt : Runtime) (i : ExecuteMemoryRecallInput) : prog (result MemoryResult) :=
  match mem_config rt with
  | None => mret (inr {| mr_Context := ""; mr_TotalRecalls := 0; mr_FailedRecalls := 0 |})
  | Some cfg =>
      _ ← emit_metric "agent.memory.recall.started" [];
      let recall := mc_Recall cfg in
      r ← runBeforeMemoryLoadHooks rt (mri_RunID i) (mri_Iteration i)
            {| ml_Scope := mri_Scope i; ml_Query := mri_Query i; ml_Limit := rc_Limit recall;
               ml_MinScore := rc_MinScore recall; ml_Kinds := rc_Kinds recall |};
      match r with
      | inl err => recall_failed err
      | inr lc =>
          r ← load_entries cfg lc;
          match r with
          | inl err => recall_failed (wrap_error "memory recall: " err)
          | inr entries =>
              r ← runAfterMemoryLoadHooks rt (mri_RunID i) (mri_Iteration i) lc
                    (TrimSpace (FormatMemoryEntries entries));
              match r with
              | inl err => recall_failed err
              | inr memoryContext =>
                  _ ← emit_metric "agent.memory.recall.completed" [];
                  mret (inr {| mr_Context := memoryContext; mr_TotalRecalls := 1; mr_FailedRecalls := 0 |})
              end
          end
      end
  end.

(** ** Store *)

Record StoreMemoryRecordsInput := {
  sri_RunID : string; sri_Iteration : Z; sri_Scope : MemoryScope; sri_Records : list MemoryRecord }.

(** The upsert ID (if any) and the dedup label. *)
Definition dedupStoreOptions (cfg : MemConfig) (scope : MemoryScope) (text : string)
    : prog (result (option string * string)) :=
  let minScore := st_DedupMinScore (mc_Store cfg) in
  if f64_leb minScore f64_zero then mret (inr (None, "append")) else
  _ ← emit_metric "agent.memory.dedup.started" [];
  r ← call (OMemoryLoad scope text {| lo_Limit := 1; lo_MinScore := minScore; lo_Kinds := [] |});
  match r with
  | inl err => _ ← emit_metric "agent.memory.dedup.failed" []; mret (inl err)
  | inr ms =>
      _ ← emit_metric "agent.memory.dedup.completed" [];
      mret (inr (match ms with
                 | [] => (None, "append")
                 | m :: _ => (Some (e_ID m), "upsert")
                 end))
  end.

Definition store_failed (attrs : list (string * string)) (e : error) : prog (option error) :=
  _ ← emit_metric "agent.memory.store.failed" attrs; mret (Some e).

(** The upsert ID chosen by a hook wins over deduplication. *)
Definition store_target (cfg : MemConfig) (scope : MemoryScope) (hookID text : string)
    : prog (result (option string * string)) :=
  let hookID := TrimSpace hookID in
  if negb (String.eqb hookID "") then mret (inr (Some hookID, "upsert"))
  else dedupStoreOptions cfg scope text.

(** From a resolved kind on: dedup, write, after-hooks. *)
Definition write_record (rt : Runtime) (cfg : MemConfig) (i : StoreMemoryRecordsInput)
    (sc : MemoryStoreCall) (text kind : string) : prog (option error) :=
  let kindAttr := [("memory.kind", kind)] in
  _ ← emit_metric "agent.memory.store.started" kindAttr;
  r ← store_target cfg (sri_Scope i) (ms_ID sc) text;
  match r with
  | inl err => store_failed kindAttr (wrap_error "memory store: dedup: " err)
  | inr (id, dedupAction) =>
      now ← call ONow;
      let record := {| rec_Text := text; rec_Kind := kind;
                       rec_Metadata := rec_Metadata (ms_Record sc);
                       rec_ExpiresAt := ExpiresAtForKind cfg kind now |} in
      r ← call (OMemoryStore (sri_Scope i) record id);
      match r with
      | inl err => store_failed kindAttr (wrap_error "memory store: " err)
      | inr storedID =>
          e ← runAfterMemoryStoreHooks rt (sri_RunID i) (sri_Iteration i)
                {| ms_Scope := sri_Scope i; ms_Record := record; ms_ID := storedID |};
          match e with
          | Some err => store_failed kindAttr err
          | None =>
              _ ← emit_metric "agent.memory.store.completed" (kindAttr ++ [("memory.dedup", dedupAction)]);
              mret None
          end
      end
  end.

Definition storeRecord (rt : Runtime) (cfg : MemConfig) (i : StoreMemoryRecordsInput) (rec : MemoryRecord)
    : prog (option error) :=
  r ← runBeforeMemoryStoreHooks rt (sri_RunID i) (sri_Iteration i)
        {| ms_Scope := sri_Scope i; ms_Record := rec; ms_ID := "" |};
  match r with
  | inl err => mret (Some err)
  | inr sc =>
      let text := TrimSpace (rec_Text (ms_Record sc)) in
      if String.eqb text "" then mret None else
      match ResolveKind (mc_Store cfg) (rec_Kind (ms_Record sc)) with
      | inl err => store_failed [] (wrap_error "memory store: " err)
      | inr kind => write_record rt cfg i sc text kind
      end
  end.

(** Records in order, stopping at the first error. *)
Fixpoint store_all (rt : Runtime) (cfg : MemConfig) (i : StoreMemoryRecordsInput) (recs : list MemoryRecord)
    : prog (option error) :=
  match recs with
  | [] => mret None
  | rec :: recs =>
      e ← storeRecord rt cfg i rec;
      match e with Some err => mret (Some err) | None => store_all rt cfg i recs end
  end.

Definition StoreMemoryRecords (rt : Runtime) (i : StoreMemoryRecordsInput) : prog (option error) :=
  match mem_config rt with
  | None => mret None
  | Some cfg => store_all rt cfg i (sri_Records i)
  end.

Definition parseSaveMemoryToolArgs (args : Args) : result MemoryRecord :=
  match as_string (args !! MemoryToolParamText) with
  | None => inl (errors_New ("save_memory: " +:+ Quote MemoryToolParamText +:+ " parameter required"))
  | Some rawText =>
      let text := TrimSpace rawText in
      if String.eqb text "" then
        inl (errors_New ("save_memory: " +:+ Quote MemoryToolParamText +:+ " must be non-empty"))
      else
        inr {| rec_Text := text;
               rec_Kind := match as_string (args !! MemoryToolParamKind) with
                           | Some k => TrimSpace k | None => "" end;
               rec_Metadata := {["source" := SaveMemoryToolName]};
               rec_ExpiresAt := 0 |}
  end.

(** ** Extraction at run end *)

Definition memoryExtractTurnPrompt : string := "Extract durable memories from the conversation above.".

Definition extractable (m : Message) : bool :=
  (String.eqb (m_Role m) MessageRoleUser || String.eqb (m_Role m) MessageRoleAssistant) &&
  negb (String.eqb (TrimSpace (m_Content m)) "").

Definition messagesForMemoryExtraction (ms : list Message) : list Message :=
  let out := List.filter extractable ms in
  match last out with
  | None => []
  | Some m => if String.eqb (m_Role m) MessageRoleAssistant
              then out ++ [text_message MessageRoleUser memoryExtractTurnPrompt] else out
  end.

(** The user's extraction function, or the default one on the primary client. *)
Definition default_extractor : func := 0%nat.

(** The user function [f] is the effect [S f]. *)
Definition resolveMemoryExtractFunc (rt : Runtime) : option func :=
  if negb (RunEndMemoryStoreEnabled rt) then None else
  match mem_config rt with
  | None => None
  | Some cfg =>
      match st_Extract (mc_Store cfg) with
      | Some f => Some (S f)
      | None => Some default_extractor
      end
  end.

Definition call_extract (f : func) (ms : list Message) : prog (result (list MemoryRecord)) :=
  if Nat.eqb f default_extractor then
    match messagesForMemoryExtraction ms with
    | [] => mret (inr [])
    | msgs => call (OMemoryExtract f msgs)
    end
  else call (OMemoryExtract f ms).

Definition extractMemoryRecords (f : func) (ms : list Message) : prog (result (list MemoryRecord)) :=
  _ ← emit_metric "agent.memory.extract.started" [];
  r ← call_extract f ms;
  match r with
  | inl err => _ ← emit_metric "agent.memory.extract.failed" []; mret (inl (wrap_error "memory store: extract: " err))
  | inr recs => _ ← emit_metric "agent.memory.extract.completed" []; mret (inr recs)
  end.

Record ExecuteMemoryStoreInput := {
  esi_RunID : string; esi_Iteration : Z; esi_Scope : MemoryScope; esi_Messages : list Message }.

Definition ExecuteMemoryStore (rt : Runtime) (i : ExecuteMemoryStoreInput) : prog (option error) :=
  if negb (RunEndMemoryStoreEnabled rt) then mret None else
  match resolveMemoryExtractFunc rt with
  | None => _ ← emit_metric "agent.memory.extract.failed" []; mret None
  | Some f =>
      r ← extractMemoryRecords f (esi_Messages i);
      match r with
      | inl err => mret (Some err)
      | inr [] => mret None
      | inr recs =>
          StoreMemoryRecords rt {| sri_RunID := esi_RunID i; sri_Iteration := esi_Iteration i;
                                   sri_Scope := esi_Scope i; sri_Records := recs |}
      end
  end.

(** ** Theorems *)

(** What every write to the memory backend satisfies, for the scope of the call. *)
Definition write_ok (cfg : MemConfig) (scope : MemoryScope) (o : Op) : Prop :=
  match o with
  | OMemoryStore sc r _ =>
      sc = scope /\ rec_Text r <> "" /\ TrimSpace (rec_Text r) = rec_Text r /\
      rec_Kind r <> "" /\ (st_AllowedKinds (mc_Store cfg) <> [] -> rec_Kind r ∈ st_AllowedKinds (mc_Store cfg)) /\
      (rec_ExpiresAt r = 0 \/ exists ttl, mc_TTLPolicy cfg !! rec_Kind r = Some ttl /\ 0 < ttl)
  | _ => True
  end.

Lemma hook_write_ok cfg scope o : is_hook_op o -> write_ok cfg scope o.
Proof. by destruct o. Qed.

#[export] Hint Resolve hook_write_ok : footprint.

Section footprints.
Context (P : Op -> Prop) (HP : forall o, is_hook_op o -> P o).

Lemma foot_runBeforeMemoryLoadHooks rt r n c : always P (runBeforeMemoryLoadHooks rt r n c).
Proof using HP. unfold runBeforeMemoryLoadHooks. foot. Qed.
Lemma foot_runAfterMemoryLoadHooks rt r n c s : always P (runAfterMemoryLoadHooks rt r n c s).
Proof using HP. unfold runAfterMemoryLoadHooks. foot. Qed.
Lemma foot_runBeforeMemoryStoreHooks rt r n c : always P (runBeforeMemoryStoreHooks rt r n c).
Proof using HP. unfold runBeforeMemoryStoreHooks. foot. Qed.
Lemma foot_runAfterMemoryStoreHooks rt r n c : always P (runAfterMemoryStoreHooks rt r n c).
Proof using HP. unfold runAfterMemoryStoreHooks. foot. Qed.
End footprints.

#[export] Hint Resolve foot_runBeforeMemoryLoadHooks foot_runAfterMemoryLoadHooks
  foot_runBeforeMemoryStoreHooks foot_runAfterMemoryStoreHooks : footprint.

Lemma write_record_ok rt cfg i sc text kind0 kind :
  text <> "" -> TrimSpace text = text -> ResolveKind (mc_Store cfg) kind0 = inr kind ->
  always (write_ok cfg (sri_Scope i)) (write_record rt cfg i sc text kind).
Proof.
  intros Ht Htr Hk. destruct (ResolveKind_inv _ _ _ Hk) as (Hne & Hid & Hin & _).
  unfold write_record, store_target, dedupStoreOptions, store_failed, emit_metric. foot.
  apply always_call. simpl. repeat split; try done. unfold ExpiresAtForKind. rewrite Hid.
  unfold ExpiresAt. destruct (mc_TTLPolicy cfg !! kind) as [ttl|]; [|by left].
  destruct (ttl <=? 0) eqn:E; crush_bool; [by left|right; eauto].
Qed.

Lemma storeRecord_ok rt cfg i rec : always (write_ok cfg (sri_Scope i)) (storeRecord rt cfg i rec).
Proof.
  unfold storeRecord. apply always_bind; [foot|]. intros [e|sc]; [foot|]. cbv zeta.
  destruct (String.eqb _ "") eqn:Et; [foot|]. crush_bool.
  destruct (ResolveKind _ _) as [e|kind] eqn:Ek; [unfold store_failed, emit_metric; foot|].
  eapply write_record_ok; [done|apply TrimSpace_idem|done].
Qed.

Lemma store_all_ok rt cfg i recs : always (write_ok cfg (sri_Scope i)) (store_all rt cfg i recs).
Proof.
  induction recs as [|r recs IH]; simpl; [foot|].
  apply always_bind; [apply storeRecord_ok|]. intros [e|]; [foot|apply IH].
Qed.

(** Every memory written by the runtime, through hooks, the [save_memory] tool or run-end
    extraction, lands in the scope of the run with a non-empty trimmed text and a non-empty
    allowed kind, and only expires when its kind has a positive TTL. *)
Theorem memory_writes_well_formed rt cfg i :
  mem_config rt = Some cfg ->
  spec (StoreMemoryRecords rt i)
    (fun tr _ => Forall (fun e => write_ok cfg (sri_Scope i) (ev_op e)) tr).
Proof.
  intros Hc. apply always_spec. unfold StoreMemoryRecords. rewrite Hc. apply store_all_ok.
Qed.

(** The conversation handed to the default extractor: only non-blank user and assistant
    turns, in order, never ending with an assistant message. *)
Theorem extraction_messages_valid ms :
  (forall m, In m (messagesForMemoryExtraction ms) ->
     m_Role m <> MessageRoleTool /\ m_Role m <> MessageRoleSystem /\ TrimSpace (m_Content m) <> "") /\
  (forall m, last (messagesForMemoryExtraction ms) = Some m -> m_Role m = MessageRoleUser) /\
  (messagesForMemoryExtraction ms = [] <-> forall m, In m ms -> extractable m = false).
Proof.
  unfold messagesForMemoryExtraction.
  assert (Hf : forall m, In m (List.filter extractable ms) ->
     (m_Role m = MessageRoleUser \/ m_Role m = MessageRoleAssistant) /\ TrimSpace (m_Content m) <> "").
  { intros m [_ H]%filter_In. unfold extractable in H. crush_bool. apply orb_true_iff in H. split; [|done].
    destruct H as [H|H]; apply String.eqb_eq in H; auto. }
  assert (He : List.filter extractable ms = [] <-> forall m, In m ms -> extractable m = false).
  { clear. induction ms as [|m ms IH]; simpl; [naive_solver|].
    destruct (extractable m) eqn:E; [|rewrite IH; naive_solver].
    split; [done|]. intros H. specialize (H m (or_introl eq_refl)). congruence. }
  destruct (last (List.filter extractable ms)) as [l|] eqn:El.
  2: { apply last_None in El. split; [done|]. split; [done|]. split; [|done]. intros _. by apply He. }
  assert (Hin : In l (List.filter extractable ms)).
  { apply last_Some in El as [l' ->]. apply in_or_app. right. by left. }
  assert (Hne : List.filter extractable ms <> []) by (intros Hx; by rewrite Hx in Hin).
  assert (Hroles : forall m, In m (List.filter extractable ms) ->
     m_Role m <> MessageRoleTool /\ m_Role m <> MessageRoleSystem /\ TrimSpace (m_Content m) <> "").
  { intros m Hm. destruct (Hf m Hm) as [[->| ->] ?]; done. }
  destruct (String.eqb (m_Role l) MessageRoleAssistant) eqn:Ea.
  - split; [|split].
    + intros m Hm. apply in_app_or in Hm as [Hm|[<-|[]]]; [by apply Hroles|done].
    + intros m. rewrite last_snoc. by intros [= <-].
    + split; [by intros [_ ?]%app_eq_nil|]. intros H. exfalso. by apply Hne, He.
  - split; [done|]. split; [|done]. intros m. rewrite El. intros [= <-].
    destruct (Hf l Hin) as [[?|Hr] _]; [done|]. by rewrite Hr in Ea.
Qed.
