(* ===== verification/Tools.v ===== *)
(** Tool execution ([internal/runtime/base/runtime.go], [hooks.go], [types.go]): programmatic
    authorization, hooks around native and MCP tools, retriever tools, the [save_memory]
    tool, and the parallel retriever prefetch. *)
From S2P Require Import Prelude GoLib Types Codec Prog Policies MemoryConfig Budget CircuitBreaker Telemetry Events Effects Hooks LLM Memory.

#[local] Open Scope string_scope.
#[local] Open Scope list_scope.
#[local] Open Scope Z_scope.

Fixpoint format_docs (n : Z) (docs : list Document) : string :=
  match docs with
  | [] => ""
  | d :: docs =>
      "[" +:+ Itoa n +:+ "] " +:+ d_Content d +:+ newline +:+ "(source: " +:+ d_Source d +:+ ", score: " +:+
      fmt_fixed 2 (d_Score d) +:+ ")" +:+ newline +:+ newline +:+ format_docs (n + 1) docs
  end.
Definition FormatRetrieverDocs (docs : list Document) : string := format_docs 1 docs.

(** ** Authorization *)

Definition AuthorizeTool (rt : Runtime) (tools : list Tool) (toolName : string) (args : Args)
    : prog (result AuthorizeResult) :=
  match FindToolByName tools toolName with
  | None => mret (inl (errors_New ("unknown tool: " +:+ toolName)))
  | Some tool =>
      if negb (t_authorizer tool) then mret (inr {| ar_Allowed := true; ar_Reason := "" |})
      else
        decision ←? call (OToolAuthorize rt tool args);
        mret (inr (if decision.1 : bool then {| ar_Allowed := true; ar_Reason := "" |}
                   else {| ar_Allowed := false; ar_Reason := TrimSpace decision.2 |}))
  end.

(** ** Execution *)

Record ExecuteToolInput := {
  ti_Tools : list Tool; ti_ToolName : string; ti_Args : Args; ti_ToolCallID : string;
  ti_RunID : string; ti_Iteration : Z }.

Definition tool_meta (i : ExecuteToolInput) : ToolExecMeta :=
  {| tm_IdempotencyKey := IdempotencyKey (ti_RunID i) (ti_Iteration i) (ti_ToolCallID i);
     tm_RunID := ti_RunID i; tm_ToolCallID := ti_ToolCallID i; tm_Iteration := ti_Iteration i |}.

Definition toolCallForHooks (i : ExecuteToolInput) (tool : Tool) : HookToolCall :=
  {| hc_ID := ti_ToolCallID i; hc_Name := ti_ToolName i;
     hc_DisplayName := display_name tool (ti_ToolName i); hc_Kind := KindOf tool; hc_Args := ti_Args i |}.

Definition runBeforeToolHooks (rt : Runtime) (i : ExecuteToolInput) (tool : Tool) : prog (result HookToolCall) :=
  let c := toolCallForHooks i tool in
  match ac_Hooks (rt_AgentConfig rt) with
  | [] => mret (inr c)
  | hooks => RunBeforeTool hooks (hookRunMeta (ti_RunID i) (ti_Iteration i)) c
  end.

Definition runAfterToolHooks (rt : Runtime) (i : ExecuteToolInput) (c : HookToolCall) (content : string)
    (execErr : option error) : prog ((string * option error) * option error) :=
  match ac_Hooks (rt_AgentConfig rt) with
  | [] => mret ((content, execErr), None)
  | hooks => RunAfterTool hooks (hookRunMeta (ti_RunID i) (ti_Iteration i)) c content execErr
  end.

Definition runBeforeRetrieveHooks (rt : Runtime) (runID : string) (iter : Z) (query mode name : string)
    : prog (result RetrieveCall) :=
  let c := {| rq_Query := query; rq_Mode := mode; rq_RetrieverName := name |} in
  match ac_Hooks (rt_AgentConfig rt) with
  | [] => mret (inr c)
  | hooks => RunBeforeRetrieve hooks (hookRunMeta runID iter) c
  end.

Definition runAfterRetrieveHooks (rt : Runtime) (runID : string) (iter : Z) (c : RetrieveCall)
    (docs : list Document) : prog (result (list Document)) :=
  match ac_Hooks (rt_AgentConfig rt) with
  | [] => mret (inr docs)
  | hooks => RunAfterRetrieve hooks (hookRunMeta runID iter) c docs
  end.

Definition executeRetrieverTool (rt : Runtime) (i : ExecuteToolInput) (tool : Tool) (args : Args)
    : prog (result string) :=
  match RetrieverNameFromToolName (t_Name tool) with
  | None => mret (inl (errors_New ("retriever tool: invalid tool name " +:+ Quote (t_Name tool))))
  | Some retrieverName =>
      match RetrieverToolParamQueryValue args with
      | inl err => mret (inl err)
      | inr query =>
          c ←? runBeforeRetrieveHooks rt (ti_RunID i) (ti_Iteration i) query RetrieverModeAgentic retrieverName;
          res ←? call (OToolExecute rt tool None {[RetrieverToolParamQuery := VStr (rq_Query c)]});
          match any_docs res with
          | None => mret (inl (errors_New ("retriever tool: unexpected result type " +:+ any_type res)))
          | Some docs =>
              docs ←? runAfterRetrieveHooks rt (ti_RunID i) (ti_Iteration i) c docs;
              mret (inr (FormatRetrieverDocs docs))
          end
      end
  end.

(** The metrics that close a tool call. *)
Definition tool_failed (name : string) (err : error) : prog (result string) :=
  _ ← emit_metric "agent.tool.call.failed" [("tool", name)]; mret (inl err).
Definition tool_completed (name content : string) : prog (result string) :=
  _ ← emit_metric "agent.tool.call.completed" [("tool", name)]; mret (inr content).

(** [runHooks] of [executeTool]. *)
Definition run_tool_hooks (rt : Runtime) (tool : Tool) : bool :=
  negb (bool_decide (length (ac_Hooks (rt_AgentConfig rt)) = 0%nat)) && HooksEligible (KindOf tool).

(** The default branch: [tool.Execute] with its metadata, then the after-hooks, whose verdict
    replaces content and error. *)
Definition execute_plain (rt : Runtime) (i : ExecuteToolInput) (tool : Tool) (hooked : HookToolCall)
    (args : Args) : prog (result string) :=
  res ← call (OToolExecute rt tool (Some (tool_meta i)) args);
  let content := match res with inr r => any_fmt r | inl _ => "" end in
  let execErr := match res with inr _ => None | inl e => Some e end in
  out ← (if run_tool_hooks rt tool then runAfterToolHooks rt i hooked content execErr
         else mret ((content, execErr), None));
  match out with
  | (_, Some err) => tool_failed (ti_ToolName i) err
  | ((_, Some err), None) => tool_failed (ti_ToolName i) err
  | ((content, None), None) => tool_completed (ti_ToolName i) content
  end.

Definition executeTool (rt : Runtime) (i : ExecuteToolInput) : prog (result string) :=
  match FindToolByName (ti_Tools i) (ti_ToolName i) with
  | None => _ ← NoteUnknownTool rt (ti_ToolName i); mret (inr (UnknownToolMessage (ti_ToolName i)))
  | Some tool =>
      hooked ←? (if run_tool_hooks rt tool then runBeforeToolHooks rt i tool
                 else mret (inr (toolCallForHooks i tool)));
      let args := if run_tool_hooks rt tool then hc_Args hooked else ti_Args i in
      _ ← emit_metric "agent.tool.call.started" [("tool", ti_ToolName i)];
      if String.eqb (KindOf tool) ToolKindRetriever then
        r ← executeRetrieverTool rt i tool args;
        match r with
        | inl err => tool_failed (ti_ToolName i) err
        | inr content => tool_completed (ti_ToolName i) content
        end
      else execute_plain rt i tool hooked args
  end.

Definition executeSaveMemoryTool (rt : Runtime) (i : ExecuteToolInput) (scope : MemoryScope)
    : prog (result string) :=
  _ ← emit_metric "agent.tool.call.started" [("tool", SaveMemoryToolName)];
  match parseSaveMemoryToolArgs (ti_Args i) with
  | inl err => tool_failed SaveMemoryToolName err
  | inr record =>
      e ← StoreMemoryRecords rt {| sri_RunID := ti_RunID i; sri_Iteration := ti_Iteration i;
                                   sri_Scope := scope; sri_Records := [record] |};
      match e with
      | Some err => tool_failed SaveMemoryToolName err
      | None => tool_completed SaveMemoryToolName "memory saved"
      end
  end.

Definition ExecuteTool (rt : Runtime) (i : ExecuteToolInput) (memScope : MemoryScope) : prog (result string) :=
  if String.eqb (ti_ToolName i) SaveMemoryToolName && MemoryStoreOnDemand rt
  then executeSaveMemoryTool rt i memScope
  else executeTool rt i.

(** ** Retriever prefetch *)

Record ExecuteRetrieversInput := { eri_RunID : string; eri_Iteration : Z; eri_Query : string }.

(** One goroutine: hooks, search, hooks; its documents or its error. *)
Definition search_one (rt : Runtime) (i : ExecuteRetrieversInput) (ret : Retriever)
    : prog (string * result (list Document)) :=
  let attrs := [("retriever", ret_Name ret)] in
  let fail (e : error) := _ ← emit_metric "agent.retriever.call.failed" attrs; mret (ret_Name ret, inl e) in
  _ ← emit_metric "agent.retriever.call.started" attrs;
  r ← runBeforeRetrieveHooks rt (eri_RunID i) (eri_Iteration i) (eri_Query i)
        (ac_RetrieverMode (rt_AgentConfig rt)) (ret_Name ret);
  match r with
  | inl err => fail err
  | inr c =>
      r ← call (OSearch ret (rq_Query c));
      match r with
      | inl err => fail err
      | inr docs =>
          r ← runAfterRetrieveHooks rt (eri_RunID i) (eri_Iteration i) c docs;
          match r with
          | inl err => fail err
          | inr docs =>
              _ ← emit_metric "agent.retriever.call.completed" attrs;
              mret (ret_Name ret, inr docs)
          end
      end
  end.

(** The section a retriever contributes to the prompt. *)
Definition retriever_section (multiple : bool) (res : string * result (list Document)) : string :=
  match res.2 with
  | inl _ => ""
  | inr [] => ""
  | inr docs => (if multiple then "## " +:+ res.1 +:+ newline else "") +:+ FormatRetrieverDocs docs
  end.

Definition is_failed {A} (r : string * result A) : bool := match r.2 with inl _ => true | inr _ => false end.

Definition combine_results (n : Z) (results : list (string * result (list Document))) : RetrieverResult :=
  {| rr_Context := TrimSpace (fold_right (fun r s => retriever_section (1 <? n) r +:+ s) "" results);
     rr_TotalSearches := n;
     rr_FailedSearches := Z.of_nat (length (List.filter is_failed results)) |}.

Definition ExecuteRetrievers (rt : Runtime) (i : ExecuteRetrieversInput) : prog (result RetrieverResult) :=
  match ac_Retrievers (rt_AgentConfig rt) with
  | [] => mret (inr {| rr_Context := ""; rr_TotalSearches := 0; rr_FailedSearches := 0 |})
  | retrievers =>
      results ← par (map (search_one rt i) retrievers);
      mret (inr (combine_results (Z.of_nat (length retrievers)) results))
  end.

(** ** Footprints *)

Section footprints.
Context (P : Op -> Prop) (HP : forall o, is_hook_op o -> P o) (Hm : forall n a, P (OMetric n a)).

Lemma foot_AuthorizeTool rt tools name args :
  (forall t, FindToolByName tools name = Some t -> P (OToolAuthorize rt t args)) ->
  always P (AuthorizeTool rt tools name args).
Proof using. intros H. unfold AuthorizeTool. foot. Qed.

Lemma foot_runBeforeToolHooks rt i t : always P (runBeforeToolHooks rt i t).
Proof using HP. unfold runBeforeToolHooks. foot. Qed.
Lemma foot_runAfterToolHooks rt i c s e : always P (runAfterToolHooks rt i c s e).
Proof using HP. unfold runAfterToolHooks. foot. Qed.
Lemma foot_runBeforeRetrieveHooks rt a b c d e : always P (runBeforeRetrieveHooks rt a b c d e).
Proof using HP. unfold runBeforeRetrieveHooks. foot. Qed.
Lemma foot_runAfterRetrieveHooks rt a b c d : always P (runAfterRetrieveHooks rt a b c d).
Proof using HP. unfold runAfterRetrieveHooks. foot. Qed.
End footprints.

#[export] Hint Resolve foot_runBeforeToolHooks foot_runAfterToolHooks foot_runBeforeRetrieveHooks
  foot_runAfterRetrieveHooks : footprint.

(** ** Theorems *)

#[export] Instance Shuffleable_True : Shuffleable (fun _ : list Event => True).
Proof. by constructor. Qed.

Lemma search_one_name rt i ret : spec (search_one rt i ret) (fun _ res => res.1 = ret_Name ret).
Proof.
  unfold search_one. intros tr a H. cbv zeta in H. unfold emit_metric in H. texec_invs.
  repeat (case_match; texec_invs; try done).
Qed.

(** A retriever prefetch never fails: on every interleaving of the concurrent searches the
    result is the combination of one answer per retriever in registration order, counting
    every retriever and exactly the failed ones, and failed or empty retrievers contribute
    nothing to the context. *)
Theorem prefetch_partial_results rt i tr r :
  texec (ExecuteRetrievers rt i) tr r ->
  exists (results : list (string * result (list Document))) res,
    r = inr res /\
    Forall2 (fun ret a => a.1 = ret_Name ret) (ac_Retrievers (rt_AgentConfig rt)) results /\
    rr_TotalSearches res = Z.of_nat (length (ac_Retrievers (rt_AgentConfig rt))) /\
    rr_FailedSearches res = Z.of_nat (length (List.filter is_failed results)) /\
    0 <= rr_FailedSearches res <= rr_TotalSearches res /\
    (rr_FailedSearches res = rr_TotalSearches res -> rr_Context res = "").
Proof.
  unfold ExecuteRetrievers. destruct (ac_Retrievers (rt_AgentConfig rt)) as [|r0 rets] eqn:Er; intros H.
  - texec_invs. eexists [], _. repeat split; done.
  - apply texec_mbind_inv in H as (t1 & t2 & results & -> & H1 & H2). texec_invs.
    destruct (spec_par (search_one rt i) (fun _ => True) (fun ret a => a.1 = ret_Name ret) (r0 :: rets)
                (fun ret _ => spec_conseq _ _ _ (search_one_name rt i ret) (fun _ _ H => conj I H)) _ _ H1) as [_ HF].
    exists results. eexists. split; [done|]. split; [done|]. split; [done|]. split; [done|].
    pose proof (Forall2_length _ _ _ HF) as Hlen. cbn [rr_FailedSearches rr_TotalSearches rr_Context combine_results].
    pose proof (filter_length_le is_failed results) as Hle. split; [lia|]. intros Heq.
    assert (Hall : forall a, In a results -> is_failed a = true).
    { assert (length (List.filter is_failed results) = length results) as Hf by lia. revert Hf. clear.
      induction results as [|a l IH]; simpl; [done|]. pose proof (filter_length_le is_failed l).
      destruct (is_failed a) eqn:E; simpl; [|lia]. intros Hf. intros b [<-|Hb]; [done|]. apply IH; [lia|done]. }
    assert (Hs : forall b, fold_right (fun r s => retriever_section b r +:+ s) "" results = "").
    { intros b. revert Hall. clear. induction results as [|a l IH]; simpl; [done|]. intros H.
      rewrite IH by auto. specialize (H a (or_introl eq_refl)). unfold retriever_section, is_failed in *.
      by destruct a.2. }
    rewrite Hs. by vm_compute.
Qed.

Lemma execute_plain_tally rt i tool hooked args tr r :
  texec (execute_plain rt i tool hooked args) tr r ->
  tally "agent.tool.call" tr = match r with inr _ => (0, 1, 0) | inl _ => (0, 0, 1) end.
Proof.
  unfold execute_plain. intros H.
  apply texec_mbind_inv in H as (t1 & t2 & res & -> & H1 & H2). call_inv H1.
  apply texec_mbind_inv in H2 as (t3 & t4 & out & -> & H3 & H4).
  apply (tally_quiet "agent.tool.call") in H3; [|foot].
  rewrite !tally_app, H3. destruct out as [[content [err|]] [err'|]]; cbv beta iota zeta in H4;
    unfold tool_failed, tool_completed, emit_metric in H4; texec_invs; by vm_compute.
Qed.

Lemma executeRetrieverTool_quiet rt i tool args : always (quiet "agent.tool.call") (executeRetrieverTool rt i tool args).
Proof. unfold executeRetrieverTool. foot. Qed.

Lemma store_quiet rt i : always (quiet "agent.tool.call") (StoreMemoryRecords rt i).
Proof.
  unfold StoreMemoryRecords. foot. generalize (sri_Records i). intros recs. induction recs as [|r recs IH]; simpl; foot.
  unfold storeRecord, write_record, store_target, dedupStoreOptions, store_failed, emit_metric. foot.
Qed.

(** A tool call that reaches its tool is counted once as started and once as completed or
    failed, according to the result; a call stopped by a before-hook, or naming an unknown
    tool, is not counted at all. *)
Theorem tool_calls_metered rt i scope tr r :
  texec (ExecuteTool rt i scope) tr r ->
  tally "agent.tool.call" tr = (0, 0, 0) \/
  tally "agent.tool.call" tr = match r with inr _ => (1, 1, 0) | inl _ => (1, 0, 1) end.
Proof.
  unfold ExecuteTool. destruct (_ && _).
  - unfold executeSaveMemoryTool, emit_metric. intros H. right.
    apply texec_mbind_inv in H as (t1 & t2 & u & -> & H1 & H2). call_inv H1.
    destruct (parseSaveMemoryToolArgs _) as [err|rec].
    + unfold tool_failed, emit_metric in H2. texec_invs. by vm_compute.
    + apply texec_mbind_inv in H2 as (t3 & t4 & e & -> & H3 & H4).
      apply (tally_quiet "agent.tool.call") in H3; [|apply store_quiet].
      rewrite !tally_app, H3. destruct e; unfold tool_failed, tool_completed, emit_metric in H4; texec_invs; by vm_compute.
  - unfold executeTool. intros H. destruct (FindToolByName _ _) as [tool|].
    2: { left. unfold NoteUnknownTool, emit_metric in H. texec_invs. destruct (rt_Metrics rt); texec_invs; by vm_compute. }
    apply texec_result_inv in H as [(e & -> & H)|(t1 & t2 & hooked & -> & H1 & H2)].
    { left. eapply tally_quiet; [|exact H]. foot. }
    right. apply (tally_quiet "agent.tool.call") in H1; [|foot]. cbv zeta in H2.
    apply texec_mbind_inv in H2 as (t3 & t4 & u & -> & H3 & H4). unfold emit_metric in H3. call_inv H3.
    rewrite !tally_app, H1. destruct (String.eqb (KindOf tool) ToolKindRetriever).
    + apply texec_mbind_inv in H4 as (t5 & t6 & res & -> & H5 & H6).
      apply (tally_quiet "agent.tool.call") in H5; [|apply executeRetrieverTool_quiet].
      rewrite tally_app, H5. destruct res; unfold tool_failed, tool_completed, emit_metric in H6; texec_invs; by vm_compute.
    + apply execute_plain_tally in H4. rewrite H4. by destruct r.
Qed.
