(* ===== verification/Retry.v ===== *)
(** [executeWithPolicy] ([internal/runtime/local/agent_loop.go]): bounded attempts with a
    per-attempt deadline, exponential backoff and short-circuit on context end. *)
From S2P Require Import Prelude GoLib Types Prog Policies MemoryConfig Budget CircuitBreaker Telemetry Events Effects.

#[local] Open Scope string_scope.
#[local] Open Scope list_scope.
#[local] Open Scope Z_scope.

(** [attempts] of the Go function. *)
Definition max_attempts (p : ExecutionPolicy) : Z := if ep_MaxAttempts p <? 1 then 1 else ep_MaxAttempts p.

Section policy.
Context {A : Type} (p : ExecutionPolicy) (operation : prog (result A)).

(** [context.WithTimeout] when the policy has a timeout. *)
Definition attempt_deadline : prog unit :=
  if 0 <? ep_Timeout p then call (OWithTimeout (ep_Timeout p)) else mret tt.

(** The loop, with [n] further attempts allowed after this one. *)
Fixpoint retry (n : nat) (backoff : Duration) : prog (result A) :=
  _ ← attempt_deadline;
  r ← operation;
  match r with
  | inr a => mret (inr a)
  | inl err =>
      c ← call OCtxErr;
      match c with
      | Some e => mret (inl e)
      | None =>
          match n with
          | O => mret (inl err)
          | S n =>
              c ← call (OBackoff backoff);
              match c with
              | Some e => mret (inl e)
              | None => retry n (next_backoff (ep_Retry p) backoff)
              end
          end
      end
  end.

Definition executeWithPolicy : prog (result A) :=
  retry (Z.to_nat (max_attempts p - 1)) (rp_InitialInterval (ep_Retry p)).
End policy.

(** The wrapper for operations that only return an error. *)
Definition executeWithPolicyErr (p : ExecutionPolicy) (operation : prog (option error)) : prog (option error) :=
  r ← executeWithPolicy p (e ← operation; mret (match e with Some e => inl e | None => inr tt end));
  mret (match r with inl e => Some e | inr _ => None end).

(** ** What a policy promises *)

Section spec.
Context {A : Type} (p : ExecutionPolicy) (operation : prog (result A)).

Definition deadline_events : list Event :=
  if 0 <? ep_Timeout p then [Ev (S := agent_sig) (OWithTimeout (ep_Timeout p)) tt] else [].

Definition ctx_event (r : option error) : Event := Ev (S := agent_sig) OCtxErr r.
Definition backoff_event (d : Duration) (r : option error) : Event := Ev (S := agent_sig) (OBackoff d) r.

(** [policy_run k tr r]: from the attempt number [k] (from 0) on, the run performs [tr] and
    returns [r]. *)
Inductive policy_run : nat -> list Event -> result A -> Prop :=
| pr_success k t a :
    texec operation t (inr a) -> policy_run k (deadline_events ++ t) (inr a)
| pr_context_ended k t e c :
    texec operation t (inl e) -> policy_run k (deadline_events ++ t ++ [ctx_event (Some c)]) (inl c)
| pr_exhausted k t e :
    texec operation t (inl e) -> Z.of_nat k + 1 = max_attempts p ->
    policy_run k (deadline_events ++ t ++ [ctx_event None]) (inl e)
| pr_ended_waiting k t e c :
    texec operation t (inl e) -> Z.of_nat k + 1 < max_attempts p ->
    policy_run k (deadline_events ++ t ++
      [ctx_event None; backoff_event (backoff_after (ep_Retry p) k) (Some c)]) (inl c)
| pr_retry k t e t' r :
    texec operation t (inl e) -> Z.of_nat k + 1 < max_attempts p -> policy_run (S k) t' r ->
    policy_run k (deadline_events ++ t ++
      [ctx_event None; backoff_event (backoff_after (ep_Retry p) k) None] ++ t') r.

Lemma deadline_inv tr u : texec (attempt_deadline p) tr u <-> tr = deadline_events.
Proof.
  unfold attempt_deadline, deadline_events. destruct (0 <? ep_Timeout p).
  - split; [intros H; call_inv H; by destruct u|intros ->; destruct u; apply (texec_call (OWithTimeout _))].
  - split; [intros H; by texec_invs|intros ->; destruct u; constructor].
Qed.

Lemma retry_run n k tr r :
  Z.of_nat k + 1 + Z.of_nat n = max_attempts p ->
  texec (retry p operation n (backoff_after (ep_Retry p) k)) tr r <-> policy_run k tr r.
Proof.
  revert k tr. induction n as [|n IH]; intros k tr Hk; (split; [intros H|intros H]); simpl in *.
  - apply texec_mbind_inv in H as (t1 & t2 & u & -> & H1 & H2). apply deadline_inv in H1 as ->.
    apply texec_mbind_inv in H2 as (t3 & t4 & [e|a] & -> & H3 & H4).
    + apply texec_mbind_inv in H4 as (t5 & t6 & c & -> & H5 & H6). call_inv H5.
      destruct c; texec_invs; [by econstructor|]. eapply pr_exhausted; [done|lia].
    + texec_invs. rewrite app_nil_r. by constructor.
  - inversion H; subst; try lia.
    + eapply (texec_bind _ _ _ _ tt); [by apply deadline_inv|]. rewrite <- (app_nil_r t). eapply texec_bind; [done|]. constructor.
    + eapply (texec_bind _ _ _ _ tt); [by apply deadline_inv|]. eapply texec_bind; [done|]. simpl.
      eapply (texec_bind (call OCtxErr) _ [ctx_event _] []); [apply texec_call|]. constructor.
    + eapply (texec_bind _ _ _ _ tt); [by apply deadline_inv|]. eapply texec_bind; [done|]. simpl.
      eapply (texec_bind (call OCtxErr) _ [ctx_event _] []); [apply texec_call|]. constructor.
  - apply texec_mbind_inv in H as (t1 & t2 & u & -> & H1 & H2). apply deadline_inv in H1 as ->.
    apply texec_mbind_inv in H2 as (t3 & t4 & [e|a] & -> & H3 & H4).
    + apply texec_mbind_inv in H4 as (t5 & t6 & c & -> & H5 & H6). call_inv H5.
      destruct c; [texec_invs; by econstructor|].
      apply texec_mbind_inv in H6 as (t7 & t8 & c & -> & H7 & H8). call_inv H7.
      destruct c; [texec_invs; eapply pr_ended_waiting; [done|lia]|].
      apply (IH (S k)) in H8; [|lia]. eapply pr_retry; [done|lia|done].
    + texec_invs. rewrite app_nil_r. by constructor.
  - inversion H; subst; try lia.
    + eapply (texec_bind _ _ _ _ tt); [by apply deadline_inv|]. rewrite <- (app_nil_r t). eapply texec_bind; [done|]. constructor.
    + eapply (texec_bind _ _ _ _ tt); [by apply deadline_inv|]. eapply texec_bind; [done|]. simpl.
      eapply (texec_bind (call OCtxErr) _ [ctx_event _] []); [apply texec_call|]. constructor.
    + eapply (texec_bind _ _ _ _ tt); [by apply deadline_inv|]. eapply texec_bind; [done|]. simpl.
      eapply (texec_bind (call OCtxErr) _ [ctx_event _] [_]); [apply texec_call|]. simpl.
      eapply (texec_bind (call (OBackoff _)) _ [backoff_event _ _] []); [apply texec_call|]. constructor.
    + eapply (texec_bind _ _ _ _ tt); [by apply deadline_inv|]. eapply texec_bind; [done|]. simpl.
      eapply (texec_bind (call OCtxErr) _ [ctx_event _] (_ :: _)); [apply texec_call|]. simpl.
      eapply (texec_bind (call (OBackoff _)) _ [backoff_event _ _] _); [apply texec_call|].
      apply (IH (S k)); [lia|done].
Qed.

Lemma policy_run_iff tr r :
  texec (executeWithPolicy p operation) tr r <-> policy_run 0 tr r.
Proof.
  unfold executeWithPolicy. apply (retry_run _ 0%nat). unfold max_attempts.
  destruct (_ <? 1) eqn:E; crush_bool; lia.
Qed.
End spec.

(** C28: The retry loop implements its policy exactly: attempts one after the other, each under
    the policy's timeout; the first success is returned; a failure is followed by a check of
    the context, which wins over the operation's error; a further attempt is made only below
    the maximum (at least one attempt in all) and after waiting the backoff of its rank; and
    every such course of events is an execution. *)
Theorem executeWithPolicy_refines {A} (p : ExecutionPolicy) (operation : prog (result A)) tr r :
  texec (executeWithPolicy p operation) tr r <-> policy_run p operation 0 tr r.
Proof. apply policy_run_iff. Qed.

(** ** Reasoning rules for clients *)

Lemma always_policy P {A} p (op : prog (result A)) :
  always P op -> P OCtxErr -> (forall d, P (OWithTimeout d)) -> (forall d, P (OBackoff d)) ->
  always P (executeWithPolicy p op).
Proof.
  intros Hop Hc Ht Hb. unfold executeWithPolicy.
  generalize (Z.to_nat (max_attempts p - 1)) as n, (rp_InitialInterval (ep_Retry p)) as b.
  induction n as [|n IH]; intros b; simpl; unfold attempt_deadline; foot.
Qed.

Lemma always_policy_err P p (op : prog (option error)) :
  always P op -> P OCtxErr -> (forall d, P (OWithTimeout d)) -> (forall d, P (OBackoff d)) ->
  always P (executeWithPolicyErr p op).
Proof.
  intros Hop Hc Ht Hb. unfold executeWithPolicyErr. apply always_bind; [|foot].
  apply always_policy; try done. foot.
Qed.

(** A trace predicate that holds of the glue and of every attempt, and composes, holds of
    the whole; a property of successful results is kept. *)
Lemma spec_policy {A} p (op : prog (result A)) (Q : list Event -> Prop) (R : A -> Prop) :
  (forall t1 t2, Q t1 -> Q t2 -> Q (t1 ++ t2)) ->
  Q [] -> (forall d, Q [Ev (S := agent_sig) (OWithTimeout d) tt]) ->
  (forall r, Q [ctx_event r]) -> (forall d r, Q [backoff_event d r]) ->
  spec op (fun tr r => Q tr /\ forall a, r = inr a -> R a) ->
  spec (executeWithPolicy p op) (fun tr r => Q tr /\ forall a, r = inr a -> R a).
Proof.
  intros Happ Hnil Ht Hc Hb Hop tr r H. apply policy_run_iff in H.
  assert (Hd : Q (deadline_events p)).
  { unfold deadline_events. destruct (0 <? ep_Timeout p); auto. }
  assert (Hcons : forall e t, Q [e] -> Q t -> Q (e :: t)) by (intros e t; apply (Happ [e] t)).
  induction H as [k t a H|k t e c H|k t e H _|k t e c H _|k t e t' r H _ _ IH];
    destruct (Hop _ _ H) as [Hq Hr];
    (split; [repeat first [done | apply Hc | apply Hb | apply Happ | apply Hcons]|try done]).
  - apply IH.
  - apply IH.
Qed.

(** Number of attempts: at least one, at most the policy's maximum. *)
Lemma policy_measure {A} p (op : prog (result A)) (f : list Event -> Z) (b : Z) :
  (forall t1 t2, f (t1 ++ t2) = f t1 + f t2) -> 0 <= b ->
  f [] = 0 -> (forall d, f [Ev (S := agent_sig) (OWithTimeout d) tt] = 0) ->
  (forall r, f [ctx_event r] = 0) -> (forall d r, f [backoff_event d r] = 0) ->
  (forall tr r, texec op tr r -> f tr <= b) ->
  forall tr r, texec (executeWithPolicy p op) tr r -> f tr <= max_attempts p * b.
Proof.
  intros Happ Hb0 Hnil Ht Hc Hb Hop tr r H. apply policy_run_iff in H.
  assert (Hd : f (deadline_events p) = 0).
  { unfold deadline_events. destruct (0 <? ep_Timeout p); auto. }
  assert (Hg : forall r d r', f [ctx_event r; backoff_event d r'] = 0).
  { intros r0 d r'. change [ctx_event r0; backoff_event d r'] with ([ctx_event r0] ++ [backoff_event d r']).
    by rewrite Happ, Hc, Hb. }
  assert (Hm : 1 <= max_attempts p) by (unfold max_attempts; destruct (_ <? 1) eqn:E; crush_bool; lia).
  assert (Hgen : forall k, (Z.of_nat k + 1 <= max_attempts p) -> policy_run p op k tr r ->
             f tr <= (max_attempts p - Z.of_nat k) * b).
  { clear H. intros k Hk H.
    induction H as [k t a H|k t e c H|k t e H _|k t e c H _|k t e t' r H Hlt _ IH];
      pose proof (Hop _ _ H); rewrite !Happ, ?Hd, ?Hc, ?Hg; nia. }
  specialize (Hgen 0%nat ltac:(lia) H). lia.
Qed.
