(* ===== verification/AgentLoop.v ===== *)
(** The agent loop of the local runtime ([internal/runtime/local/agent_loop.go],
    [runtime.go], [subagent.go]), on its non-durable path ([stepRunner == nil], where
    [runStep] calls its function directly): the LLM/tool rounds, error control, tool calls
    with authorization, approval, sub-agent delegation and execution, budget enforcement,
    history and memory. *)
From S2P Require Import Prelude GoLib Types Codec Prog Policies MemoryConfig Budget CircuitBreaker Telemetry Events Effects Hooks ErrorControl LLM Memory Tools Retry.

#[local] Open Scope string_scope.
#[local] Open Scope list_scope.
#[local] Open Scope Z_scope.

Definition msgToolRejected : string := "Tool execution was rejected by the user.".
Definition msgToolApprovalUnavailable : string :=
  "Tool approval could not be completed because no approval handler is configured; continuing without running the tool.".
Definition msgToolUnauthorized : string := "Tool execution was denied by authorization policy.".

(** ** Sub-agent routes *)

(** [subAgentRoute]; the route map is an association list with distinct keys. *)
Inductive subAgentRoute :=
| SubAgentRoute (name : string) (runtime : option Runtime) (children : list (string * subAgentRoute))
    (tools : list Tool).

Definition sr_name (r : subAgentRoute) : string := let '(SubAgentRoute n _ _ _) := r in n.
Definition sr_runtime (r : subAgentRoute) : option Runtime := let '(SubAgentRoute _ rt _ _) := r in rt.
Definition sr_children (r : subAgentRoute) : list (string * subAgentRoute) := let '(SubAgentRoute _ _ c _) := r in c.
Definition sr_tools (r : subAgentRoute) : list Tool := let '(SubAgentRoute _ _ _ t) := r in t.

Definition routes := list (string * subAgentRoute).

Fixpoint lookup_route (m : routes) (k : string) : option subAgentRoute :=
  match m with
  | [] => None
  | (k', r) :: m => if String.eqb k' k then Some r else lookup_route m k
  end.

(** [out[k] = r] *)
Fixpoint set_route (m : routes) (k : string) (r : subAgentRoute) : routes :=
  match m with
  | [] => [(k, r)]
  | (k', r') :: m => if String.eqb k' k then (k, r) :: m else (k', r') :: set_route m k r
  end.

(** [runtime.SubAgentSpec]; [Runtime] is [None] for a runtime that is not local. *)
Inductive SubAgentSpec :=
| Spec (Name ToolName : string) (rt : option Runtime) (Children : list (option SubAgentSpec)) (tools : list Tool).

Fixpoint build_route (s : SubAgentSpec) : option (string * subAgentRoute) :=
  let '(Spec name toolName rt children tools) := s in
  match rt with
  | None => None
  | Some lr =>
      let fix build (specs : list (option SubAgentSpec)) (out : routes) : routes :=
        match specs with
        | [] => out
        | None :: specs => build specs out
        | Some s :: specs =>
            build specs (match build_route s with Some (k, r) => set_route out k r | None => out end)
        end in
      Some (toolName, SubAgentRoute name (Some lr) (build children []) tools)
  end.

Fixpoint buildSubAgentRoutes_ (specs : list (option SubAgentSpec)) (out : routes) : routes :=
  match specs with
  | [] => out
  | None :: specs => buildSubAgentRoutes_ specs out
  | Some s :: specs =>
      buildSubAgentRoutes_ specs (match build_route s with Some (k, r) => set_route out k r | None => out end)
  end.
Definition buildSubAgentRoutes (specs : list (option SubAgentSpec)) : routes := buildSubAgentRoutes_ specs [].

(** ** Inputs and results *)

Record AgentLoopInput := {
  in_UserPrompt : string; in_ConversationID : string; in_StreamingEnabled : bool;
  in_Tools : list Tool; in_ChannelName : string; in_EventTypes : list string;
  in_ApprovalHandler : bool; in_SubAgentRoutes : routes; in_SubAgentDepth : Z;
  in_MaxSubAgentDepth : Z; in_MemoryScope : MemoryScope; in_RunID : string;
  in_BudgetTracker : option loc; in_EnforceBudget : bool;
  in_circuitBreaker : option loc; in_circuitNow : Time }.

Definition with_breaker (i : AgentLoopInput) (cb : option loc) (now : Time) : AgentLoopInput :=
  {| in_UserPrompt := in_UserPrompt i; in_ConversationID := in_ConversationID i;
     in_StreamingEnabled := in_StreamingEnabled i; in_Tools := in_Tools i;
     in_ChannelName := in_ChannelName i; in_EventTypes := in_EventTypes i;
     in_ApprovalHandler := in_ApprovalHandler i; in_SubAgentRoutes := in_SubAgentRoutes i;
     in_SubAgentDepth := in_SubAgentDepth i; in_MaxSubAgentDepth := in_MaxSubAgentDepth i;
     in_MemoryScope := in_MemoryScope i; in_RunID := in_RunID i;
     in_BudgetTracker := in_BudgetTracker i; in_EnforceBudget := in_EnforceBudget i;
     in_circuitBreaker := cb; in_circuitNow := now |}.

Record AgentLoopResult := {
  al_Content : string; al_LLMUsage : option LLMUsage; al_Telemetry : AgentTelemetry }.

(** [(result, err)] of the loop: success, or an error with the partial result when the code
    returns one. *)
Inductive loop_outcome :=
| Finished (r : AgentLoopResult)
| Stopped (partial : option AgentLoopResult) (e : error).

(** The view [executeWithPolicy] has of it: on error the result is dropped. *)
Definition as_result (o : loop_outcome) : result AgentLoopResult :=
  match o with Finished r => inr r | Stopped _ e => inl e end.

Record toolResult := { tr_message : Message; tr_failed : bool }.

(** ** Events *)

Definition publishEventToChannel (channelName : string) (e : AgentEvent) : prog unit :=
  if String.eqb (TrimSpace channelName) "" then mret tt else call (OPublish channelName e).

(** The loop's [emit] closure. *)
Definition loop_emit (i : AgentLoopInput) : emitter :=
  fun e => if event_allowed (in_EventTypes i) (ae_Body e)
           then publishEventToChannel (in_ChannelName i) e else mret tt.

Definition emit_body (i : AgentLoopInput) (b : EventBody) : prog unit := emitEvent (Some (loop_emit i)) b.

Definition emitToolEndThenResult (i : AgentLoopInput) (messageID toolCallID content : string) : prog unit :=
  _ ← emit_body i (AgentToolCallEndEvent toolCallID);
  emit_body i (AgentToolCallResultEvent messageID toolCallID content MessageRoleTool).

(** ** Policies of the runtime *)

Definition executionPolicies (rt : Runtime) : ExecutionPolicies :=
  ResolveExecutionPolicies (ac_ExecutionConfigs (rt_AgentConfig rt)).

Definition toolExecutionPolicy (kind : string) (ps : ExecutionPolicies) : ExecutionPolicy :=
  if String.eqb kind ToolKindMCP then po_MCP ps
  else if String.eqb kind ToolKindA2A then po_A2A ps
  else po_ToolExecute ps.

Definition approvalTaskTimeout (rt : Runtime) : Duration :=
  let timeout := ac_ApprovalTimeout (rt_AgentConfig rt) in
  let timeout := if timeout =? 0 then MaxApprovalTimeout else timeout in
  if MaxApprovalTimeout <? timeout then MaxApprovalTimeout else timeout.

Definition subAgentExecutionPolicy (rt : Runtime) : ExecutionPolicy :=
  let p := po_SubAgent (executionPolicies rt) in
  if (ep_Timeout p =? 0) && (0 <? ac_Timeout (rt_AgentConfig rt))
  then {| ep_Timeout := ac_Timeout (rt_AgentConfig rt); ep_MaxAttempts := ep_MaxAttempts p;
          ep_Retry := ep_Retry p |}
  else p.

(** ** Sub-agent inputs ([base/utils.go]) *)

Definition SubAgentToolParamQuery : string := "query".
Definition scopeKeyParentAgentID : string := "parent_agent_id".

Definition SubAgentQuery (args : Args) : string := default "" (as_string (args !! SubAgentToolParamQuery)).

Definition SubAgentScope (parent : MemoryScope) (subAgentID : string) : MemoryScope :=
  {| sc_UserID := sc_UserID parent; sc_TenantID := sc_TenantID parent;
     sc_AgentID := TrimSpace subAgentID;
     sc_Tags := if String.eqb (sc_AgentID parent) "" then sc_Tags parent
                else <[scopeKeyParentAgentID := sc_AgentID parent]> (sc_Tags parent) |}.

(** ** LLM calls of the loop *)

Definition with_client (i : ExecuteLLMInput) (c : LLMClient) : ExecuteLLMInput :=
  {| li_AgentName := li_AgentName i; li_MessageID := li_MessageID i; li_RunID := li_RunID i;
     li_Iteration := li_Iteration i; li_Messages := li_Messages i; li_SkipTools := li_SkipTools i;
     li_MemoryContext := li_MemoryContext i; li_RetrieverContext := li_RetrieverContext i;
     li_Tools := li_Tools i; li_Emit := li_Emit i; li_Client := Some c |}.

Definition run_llm (rt : Runtime) (i : AgentLoopInput) (li : ExecuteLLMInput) (ps : ExecutionPolicies)
    : prog (result LLMResult) :=
  if in_StreamingEnabled i then executeWithPolicy (po_LLM ps) (ExecuteLLMStream rt li)
  else executeWithPolicy (po_LLM ps) (ExecuteLLM rt li).

Definition invokeLLM (rt : Runtime) (i : AgentLoopInput) (li : ExecuteLLMInput) (useFallback : bool)
    (ps : ExecutionPolicies) : prog (result LLMResult) :=
  if useFallback then
    match ResolveLLMClient rt true with
    | inl err => mret (inl err)
    | inr c => run_llm rt i (with_client li c) ps
    end
  else run_llm rt i li ps.

(** The result and whether the fallback client is now in use. *)
Definition invokeLLMWithErrorControl (rt : Runtime) (i : AgentLoopInput) (li : ExecuteLLMInput)
    (useFallback : bool) (ps : ExecutionPolicies) : prog (result (LLMResult * bool)) :=
  r ← invokeLLM rt i li useFallback ps;
  match r with
  | inr res => mret (inr (res, useFallback))
  | inl err =>
      if useFallback then mret (inl err)
      else
        dec ← DecideLLMFailure rt {| fi_Attempt := LLMPolicyAttempts (ep_MaxAttempts (po_LLM ps)); fi_Err := err |};
        match dec_Action dec with
        | ErrorControlFallbackModel =>
            res ←? invokeLLM rt i li true ps; mret (inr (res, true))
        | _ => mret (inl err)
        end
  end.

(** ** Budget *)

Definition budget_request (rt : Runtime) (detail : string) (totals : Z * f64) (token : string) : ApprovalRequest :=
  BudgetApproval (as_Name (rt_AgentSpec rt)) detail totals.1 totals.2 token.

Definition awaitBudgetApprovalStatus (rt : Runtime) (i : AgentLoopInput) (l : loc) (detail : string)
    : prog string :=
  let hasChannel := negb (String.eqb (TrimSpace (in_ChannelName i)) "") in
  if negb (in_ApprovalHandler i) && negb hasChannel then mret ApprovalStatusUnavailable else
  totals ← call (OBudgetTotals l);
  token ← call ONewUUID;
  let req := budget_request rt detail totals token in
  _ ← call (OPendingStore token);
  now ← call ONow;
  _ ← publishEventToChannel (in_ChannelName i)
        (NewEvent (AgentCustomEvent AgentCustomEventNameBudget
           (AgentCustomEventBudgetValue (as_Name (rt_AgentSpec rt)) detail totals.1 totals.2 token)) now);
  _ ← (if in_ApprovalHandler i then call (OApprovalHandler (approvalTaskTimeout rt) req) else mret tt);
  out ← call (OAwaitApproval req None);
  _ ← call (OPendingDelete token);
  mret (match out with Resolved status => status | _ => ApprovalStatusRejected end).

Definition breach_kind (e : BudgetExceededError) : list (string * string) := [("budget.kind", be_Kind e)].

(** The status of an approval pause: continue, or the error that stops the run. *)
Definition budget_verdict (l : loc) (budgetErr : BudgetExceededError) (status : string) : prog (option error) :=
  let stop := mret (Some (sentinel_wrapping ErrBudgetExceeded (budget_error budgetErr))) in
  if String.eqb status ApprovalStatusApproved then
    _ ← emit_metric "agent.budget.approval.approved" (breach_kind budgetErr);
    _ ← call (OBudgetAdvance l);
    mret None
  else if String.eqb status ApprovalStatusTimedOut then
    _ ← emit_metric "agent.budget.approval.timed_out" (breach_kind budgetErr); stop
  else if String.eqb status ApprovalStatusUnavailable then
    _ ← emit_metric "agent.budget.approval.unavailable" (breach_kind budgetErr);
    mret (Some (sentinel_with_msg ErrBudgetApprovalUnavailable (BudgetExceededError_Error budgetErr)))
  else
    _ ← emit_metric "agent.budget.approval.rejected" (breach_kind budgetErr); stop.

(** [applyBudgetExceeded]: [None] lets the run continue; otherwise the caller also records
    [FinishReasonBudgetExceeded], as every stopping path of the Go function does. *)
Definition applyBudgetExceeded (rt : Runtime) (i : AgentLoopInput) (l : loc) (budgetErr : BudgetExceededError)
    : prog (option error) :=
  let action := match ac_Budget (rt_AgentConfig rt) with
                | Some cfg => if String.eqb (cfg_OnExceeded cfg) "" then BudgetStopRun else cfg_OnExceeded cfg
                | None => BudgetStopRun
                end in
  let waits := String.eqb action BudgetWaitForApproval in
  approvalsExhausted ← (if waits then call (OBudgetExhausted l) else mret false);
  approvalCount ← call (OBudgetCount l);
  _ ← emit_metric "agent.budget.exceeded" (breach_kind budgetErr ++ [("budget.action", action)]);
  _ ← RunOnBudgetExceeded (ac_Hooks (rt_AgentConfig rt))
        {| bh_RunMeta := {| rm_RunID := in_RunID i; rm_Iteration := 0; rm_HooksGroup := "" |};
           bh_Kind := be_Kind budgetErr; bh_TotalTokens := be_TotalTokens budgetErr;
           bh_TotalCostUSD := be_TotalCostUSD budgetErr; bh_Action := action;
           bh_ApprovalCount := approvalCount; bh_ApprovalsExhausted := approvalsExhausted |};
  if waits && negb approvalsExhausted then
    _ ← emit_metric "agent.budget.approval.requested" (breach_kind budgetErr);
    status ← awaitBudgetApprovalStatus rt i l (BudgetExceededError_Error budgetErr);
    budget_verdict l budgetErr status
  else
    _ ← (if waits then emit_metric "agent.budget.approval.exhausted" (breach_kind budgetErr) else mret tt);
    mret (Some (sentinel_wrapping ErrBudgetExceeded (budget_error budgetErr))).

(** The error (if any) and the updated telemetry. *)
Definition with_budget_stop (t : AgentTelemetry) (e : option error) : option error * AgentTelemetry :=
  (e, match e with
      | Some _ => upd_run (set_finish FinishReasonBudgetExceeded) t
      | None => t
      end).

Definition checkBudget (rt : Runtime) (i : AgentLoopInput) (t : AgentTelemetry) (usage : option LLMUsage)
    : prog (option error * AgentTelemetry) :=
  match in_BudgetTracker i with
  | None => mret (None, t)
  | Some l =>
      b ← call (OBudgetAdd l usage);
      match b with
      | None => mret (None, t)
      | Some err =>
          if negb (in_EnforceBudget i)
          then mret (Some (sentinel_with_msg ErrBudgetExceeded (BudgetExceededError_Error err)), t)
          else e ← applyBudgetExceeded rt i l err; mret (with_budget_stop t e)
      end
  end.

Definition enforceBudgetIfExceeded (rt : Runtime) (i : AgentLoopInput) (t : AgentTelemetry)
    : prog (option error * AgentTelemetry) :=
  match in_BudgetTracker i with
  | None => mret (None, t)
  | Some l =>
      if negb (in_EnforceBudget i) then mret (None, t)
      else
        b ← call (OBudgetCheck l);
        match b with
        | None => mret (None, t)
        | Some err => e ← applyBudgetExceeded rt i l err; mret (with_budget_stop t e)
        end
  end.

(** ** One tool call *)

Definition finished_tool (tc : ToolCallRequest) (content : string) (failed : bool) : toolResult * option error :=
  ({| tr_message := tool_message content (tc_ToolName tc) (tc_ToolCallID tc); tr_failed := failed |}, None).

(** [return toolResult{message: Message{}, failed: true}, err] *)
Definition hard_error (e : error) : toolResult * option error :=
  ({| tr_message := zero_message; tr_failed := true |}, Some e).

(** Emit the end and result of the call and return its tool message. *)
Definition finish_tool (i : AgentLoopInput) (messageID : string) (tc : ToolCallRequest) (content : string)
    (failed : bool) : prog (toolResult * option error) :=
  _ ← emitToolEndThenResult i messageID (tc_ToolCallID tc) content;
  mret (finished_tool tc content failed).

(** TOOL_CALL_START and, for non-trivial arguments, TOOL_CALL_ARGS. *)
Definition emit_tool_start (i : AgentLoopInput) (messageID : string) (tc : ToolCallRequest) : prog unit :=
  _ ← emit_body i (AgentToolCallStartEvent (tc_ToolCallID tc) (tc_ToolName tc) messageID);
  match Json.marshal_args (tc_Args tc) with
  | Some s =>
      if String.eqb s "" || String.eqb s "null" || String.eqb s "{}" then mret tt
      else emit_body i (AgentToolCallArgsEvent (tc_ToolCallID tc) s)
  | None => mret tt
  end.

(** The circuit-breaker condition of the skip. *)
Definition circuit_tripped (i : AgentLoopInput) (tc : ToolCallRequest) : prog bool :=
  match in_circuitBreaker i with
  | None => mret false
  | Some cb =>
      if CountsTowardCircuitBreaker (tc_Unknown tc) (tc_ToolKind tc)
      then call (OCBIsTripped cb (tc_ToolName tc) (in_circuitNow i))
      else mret false
  end.

(** *** Approval *)

Definition approval_request (rt : Runtime) (tc : ToolCallRequest) (isSubAgent : bool) (token : string)
    : ApprovalRequest :=
  if isSubAgent
  then SubAgentApproval (as_Name (rt_AgentSpec rt)) (tc_ToolDisplayName tc) (tc_Args tc) token
  else ToolApproval (as_Name (rt_AgentSpec rt)) (tc_ToolCallID tc) (tc_ToolName tc)
         (tc_ToolDisplayName tc) (tc_Args tc) token.

Definition approval_event (rt : Runtime) (tc : ToolCallRequest) (isSubAgent : bool) (token : string) : EventBody :=
  if isSubAgent
  then AgentCustomEvent AgentCustomEventNameSubAgentDelegation
         (AgentCustomEventDelegationValue (as_Name (rt_AgentSpec rt)) (tc_ToolDisplayName tc) "" (tc_Args tc) token)
  else AgentCustomEvent AgentCustomEventNameToolApproval
         (AgentCustomEventApprovalValue (as_Name (rt_AgentSpec rt)) (tc_ToolCallID tc) (tc_ToolName tc)
            (tc_ToolDisplayName tc) (tc_Args tc) token).

(** The blocking wait: token, pending entry, event, handler, select. *)
Definition await_tool_approval (rt : Runtime) (i : AgentLoopInput) (tc : ToolCallRequest) (isSubAgent : bool)
    (token : string) : prog (result string) :=
  let timeout := approvalTaskTimeout rt in
  let req := approval_request rt tc isSubAgent token in
  _ ← call (OPendingStore token);
  _ ← emit_body i (approval_event rt tc isSubAgent token);
  _ ← (if in_ApprovalHandler i then call (OApprovalHandler timeout req) else mret tt);
  out ← call (OAwaitApproval req (Some timeout));
  mret (match out with
        | Resolved status => inr status
        | CtxDone e => inl e
        | TimerFired => inl (errors_New ("tool approval timed out after " +:+ Duration_String timeout))
        end).

(** The status of the gate, and the token whose pending entry must be deleted on return. *)
Definition approval_gate (rt : Runtime) (i : AgentLoopInput) (tc : ToolCallRequest) (isSubAgent : bool)
    : prog (result string * option string) :=
  if negb (tc_NeedsApproval tc) then mret (inr ApprovalStatusApproved, None)
  else if String.eqb (in_ChannelName i) "" && negb (in_ApprovalHandler i)
  then mret (inr ApprovalStatusUnavailable, None)
  else
    token ← call ONewUUID;
    status ← await_tool_approval rt i tc isSubAgent token;
    mret (status, Some token).

Definition release_approval (token : option string) : prog unit :=
  match token with Some t => call (OPendingDelete t) | None => mret tt end.

(** *** Dispatch of an approved call *)

Section dispatch.
(** The nested loop: [subAgentRoute.runtime.executeAgentLoop]. *)
Context (exec_sub : Runtime -> AgentLoopInput -> prog loop_outcome).
Context (rt : Runtime) (i : AgentLoopInput).

Definition delegation_name (route : subAgentRoute) (tc : ToolCallRequest) : string :=
  let n := TrimSpace (sr_name route) in if String.eqb n "" then tc_ToolName tc else n.

Definition sub_input (route : subAgentRoute) (tc : ToolCallRequest) (runID : string) : AgentLoopInput :=
  {| in_UserPrompt := SubAgentQuery (tc_Args tc); in_ConversationID := "";
     in_StreamingEnabled := in_StreamingEnabled i; in_Tools := sr_tools route;
     in_ChannelName := in_ChannelName i; in_EventTypes := in_EventTypes i;
     in_ApprovalHandler := in_ApprovalHandler i; in_SubAgentRoutes := sr_children route;
     in_SubAgentDepth := in_SubAgentDepth i + 1; in_MaxSubAgentDepth := in_MaxSubAgentDepth i;
     in_MemoryScope := SubAgentScope (in_MemoryScope i) (delegation_name route tc);
     in_RunID := runID; in_BudgetTracker := in_BudgetTracker i; in_EnforceBudget := false;
     in_circuitBreaker := in_circuitBreaker i; in_circuitNow := 0 |}.

(** What the parent is told.  [executeWithPolicy] drops the partial result of a failed
    child, so the branch of the code that would use its content cannot be taken. *)
Definition delegation_content (r : result AgentLoopResult) : string :=
  match r with
  | inr res => al_Content res
  | inl e =>
      if errors_Is e ErrBudgetExceeded then "Sub-agent stopped: per-run budget exceeded."
      else "Sub-agent execution failed: " +:+ err_msg e
  end.

Definition delegate (route : subAgentRoute) (sub : Runtime) (tc : ToolCallRequest) : prog string :=
  _ ← emit_body i (AgentStepStartedEvent (delegation_name route tc));
  r ← executeWithPolicy (subAgentExecutionPolicy rt)
        (runID ← call ONewUUID;
         o ← exec_sub sub (sub_input route tc runID);
         mret (as_result o));
  _ ← emit_body i (AgentStepFinishedEvent (delegation_name route tc));
  mret (delegation_content r).

Definition execute_delegation (route : subAgentRoute) (tc : ToolCallRequest) : prog string :=
  if in_MaxSubAgentDepth i <=? in_SubAgentDepth i then
    mret ("Sub-agent delegation refused: maximum nesting depth (" +:+ Itoa (in_MaxSubAgentDepth i) +:+ ") reached.")
  else
    match sr_runtime route with
    | Some sub => delegate route sub tc
    | None => mret "Sub-agent delegation not available for this runtime."
    end.

Definition tool_input (iteration : Z) (tc : ToolCallRequest) : ExecuteToolInput :=
  {| ti_Tools := in_Tools i; ti_ToolName := tc_ToolName tc; ti_Args := tc_Args tc;
     ti_ToolCallID := tc_ToolCallID tc; ti_RunID := in_RunID i; ti_Iteration := iteration |}.

(** The plain tool branch: content and whether it failed. *)
Definition run_tool (iteration : Z) (tc : ToolCallRequest) (ps : ExecutionPolicies) : prog (string * bool) :=
  r ← executeWithPolicy (toolExecutionPolicy (tc_ToolKind tc) ps)
        (ExecuteTool rt (tool_input iteration tc) (in_MemoryScope i));
  mret (match r with
        | inl e => ("Tool execution failed: " +:+ err_msg e, true)
        | inr content => (content, false)
        end).

(** The [switch approvalStatus]. *)
Definition dispatch (messageID : string) (iteration : Z) (tc : ToolCallRequest) (ps : ExecutionPolicies)
    (route : option subAgentRoute) (status : string) : prog (toolResult * option error) :=
  if String.eqb status ApprovalStatusApproved then
    match route with
    | Some route => content ← execute_delegation route tc; finish_tool i messageID tc content false
    | None => r ← run_tool iteration tc ps; finish_tool i messageID tc r.1 r.2
    end
  else if String.eqb status ApprovalStatusRejected then finish_tool i messageID tc msgToolRejected false
  else if String.eqb status ApprovalStatusUnavailable then
    finish_tool i messageID tc msgToolApprovalUnavailable false
  else mret (hard_error (errors_New ("unexpected approval status " +:+ Quote status +:+ " for tool " +:+
                                     Quote (tc_ToolName tc)))).

(** From an allowed authorization on: approval gate, dispatch, deferred clean-up. *)
Definition gated (messageID : string) (iteration : Z) (tc : ToolCallRequest) (ps : ExecutionPolicies)
    : prog (toolResult * option error) :=
  let route := lookup_route (in_SubAgentRoutes i) (tc_ToolName tc) in
  g ← approval_gate rt i tc (bool_decide (is_Some route));
  r ← (match g.1 with
       | inl e => mret (hard_error e)
       | inr status => dispatch messageID iteration tc ps route status
       end);
  _ ← release_approval g.2;
  mret r.

Definition denied_content (reason : string) : string :=
  if String.eqb reason "" then msgToolUnauthorized else msgToolUnauthorized +:+ " Reason: " +:+ reason.

Definition executeSingleTool (messageID : string) (iteration : Z) (ps : ExecutionPolicies)
    (tc : ToolCallRequest) : prog (toolResult * option error) :=
  _ ← emit_tool_start i messageID tc;
  if IsUnknownTool tc (in_Tools i) then
    _ ← (if tc_Unknown tc then mret tt else NoteUnknownTool rt (tc_ToolName tc));
    finish_tool i messageID tc (UnknownToolMessage (tc_ToolName tc)) false
  else
    tripped ← circuit_tripped i tc;
    if (tripped : bool) then
      _ ← NoteCircuitSkip rt (tc_ToolName tc);
      finish_tool i messageID tc (CircuitBreakerSkippedMessage (tc_ToolName tc)) false
    else
      a ← executeWithPolicy (po_ToolAuth ps) (AuthorizeTool rt (in_Tools i) (tc_ToolName tc) (tc_Args tc));
      match a with
      | inl err =>
          mret (hard_error (wrap_error ("tool authorization error for " +:+ Quote (tc_ToolName tc) +:+ ": ") err))
      | inr auth =>
          if negb (ar_Allowed auth) then finish_tool i messageID tc (denied_content (ar_Reason auth)) false
          else gated messageID iteration tc ps
      end.

(** *** The batch *)

(** A hard error becomes a synthetic tool message; the batch continues. *)
Definition settle (tc : ToolCallRequest) (r : toolResult * option error) : toolResult :=
  match r.2 with
  | None => r.1
  | Some err =>
      {| tr_message := tool_message ("Tool execution failed: " +:+ err_msg err) (tc_ToolName tc) (tc_ToolCallID tc);
         tr_failed := true |}
  end.

Definition run_one (messageID : string) (iteration : Z) (ps : ExecutionPolicies) (tc : ToolCallRequest)
    : prog toolResult :=
  r ← executeSingleTool messageID iteration ps tc; mret (settle tc r).

Definition executeToolsParallel (messageID : string) (iteration : Z) (calls : list ToolCallRequest)
    (ps : ExecutionPolicies) : prog (list toolResult) :=
  par (map (run_one messageID iteration ps) calls).

Definition executeToolsSequential (messageID : string) (iteration : Z) (calls : list ToolCallRequest)
    (ps : ExecutionPolicies) : prog (list toolResult) :=
  traverse (run_one messageID iteration ps) calls.
End dispatch.

(** ** Conversation *)

Definition conversationMemoryEnabled (rt : Runtime) (i : AgentLoopInput) : bool :=
  negb (String.eqb (in_ConversationID i) "") && ac_Conversation (rt_AgentConfig rt).

Definition add_messages (id : string) (ms : list Message) : prog unit :=
  _ ← traverse (fun m => call (OAddMessage id m)) ms; mret tt.

Definition persistConversationMessages (rt : Runtime) (id : string) (ms : list Message) : prog unit :=
  if negb (ac_Conversation (rt_AgentConfig rt)) || bool_decide (ms = []) then mret tt
  else
    _ ← executeWithPolicyErr (po_Conversation (executionPolicies rt)) (_ ← add_messages id ms; mret (None : option error));
    mret tt.

(** ** The loop *)

(** Variables of the loop. *)
Record loop_state := {
  ls_messages : list Message;
  ls_persisted : nat;          (* persistedMessageCount *)
  ls_maxIter : Z;
  ls_useFallback : bool;
  ls_extended : bool;          (* iterationsExtended *)
  ls_lastContent : string;
  ls_llmUsage : option LLMUsage;
  ls_telemetry : AgentTelemetry }.

Definition set_messages (s : loop_state) (ms : list Message) : loop_state :=
  {| ls_messages := ms; ls_persisted := ls_persisted s; ls_maxIter := ls_maxIter s;
     ls_useFallback := ls_useFallback s; ls_extended := ls_extended s;
     ls_lastContent := ls_lastContent s; ls_llmUsage := ls_llmUsage s; ls_telemetry := ls_telemetry s |}.
Definition set_persisted (s : loop_state) (n : nat) : loop_state :=
  {| ls_messages := ls_messages s; ls_persisted := n; ls_maxIter := ls_maxIter s;
     ls_useFallback := ls_useFallback s; ls_extended := ls_extended s;
     ls_lastContent := ls_lastContent s; ls_llmUsage := ls_llmUsage s; ls_telemetry := ls_telemetry s |}.
Definition set_telemetry (s : loop_state) (t : AgentTelemetry) : loop_state :=
  {| ls_messages := ls_messages s; ls_persisted := ls_persisted s; ls_maxIter := ls_maxIter s;
     ls_useFallback := ls_useFallback s; ls_extended := ls_extended s;
     ls_lastContent := ls_lastContent s; ls_llmUsage := ls_llmUsage s; ls_telemetry := t |}.
Definition extend_iterations (s : loop_state) (extra : Z) : loop_state :=
  {| ls_messages := ls_messages s; ls_persisted := ls_persisted s; ls_maxIter := ls_maxIter s + extra;
     ls_useFallback := ls_useFallback s; ls_extended := true;
     ls_lastContent := ls_lastContent s; ls_llmUsage := ls_llmUsage s; ls_telemetry := ls_telemetry s |}.

(** After a successful LLM call: fallback in use, call counted, usage merged. *)
Definition after_llm (s : loop_state) (usedFB : bool) (usage : option LLMUsage) (t : AgentTelemetry) : loop_state :=
  {| ls_messages := ls_messages s; ls_persisted := ls_persisted s; ls_maxIter := ls_maxIter s;
     ls_useFallback := ls_useFallback s || usedFB; ls_extended := ls_extended s;
     ls_lastContent := ls_lastContent s; ls_llmUsage := MergeLLMUsage (ls_llmUsage s) usage;
     ls_telemetry := t |}.

(** Append the final assistant message. *)
Definition with_answer (s : loop_state) (content : string) (t : AgentTelemetry) : loop_state :=
  {| ls_messages := ls_messages s ++ [text_message MessageRoleAssistant content];
     ls_persisted := ls_persisted s; ls_maxIter := ls_maxIter s; ls_useFallback := ls_useFallback s;
     ls_extended := ls_extended s; ls_lastContent := content; ls_llmUsage := ls_llmUsage s;
     ls_telemetry := t |}.

(** How one round ends. *)
Inductive round_result :=
| NextRound (s : loop_state)      (* [continue] *)
| Done (s : loop_state)           (* [break] *)
| Return (o : loop_outcome).

Definition partial_result (s : loop_state) : AgentLoopResult :=
  {| al_Content := ls_lastContent s; al_LLMUsage := ls_llmUsage s; al_Telemetry := ls_telemetry s |}.

Definition call_message (tc : ToolCallRequest) : option ToolCall :=
  Some {| c_ToolCallID := tc_ToolCallID tc; c_ToolName := tc_ToolName tc; c_Args := tc_Args tc |}.

Definition assistant_message (res : LLMResult) : Message :=
  {| m_Role := MessageRoleAssistant; m_Content := lr_Content res; m_ToolName := ""; m_ToolCallID := "";
     m_ToolCalls := map call_message (lr_ToolCalls res); m_Metadata := ∅; m_CreatedAt := 0 |}.

(** Telemetry of one tool result. *)
Definition record_tool (t : AgentTelemetry) (tc : ToolCallRequest) (r : toolResult) : AgentTelemetry :=
  let failed := tr_failed r in
  let t := if negb (tc_Unknown tc) && CountsTowardToolTelemetry (tc_ToolKind tc)
           then upd_tools (fun tt => Record_ tt (tc_ToolName tc) failed) t else t in
  let t := if String.eqb (tc_ToolKind tc) ToolKindRetriever
           then upd_storage (add_searches 1 (if failed then 1 else 0) 0 1) t else t in
  if String.eqb (tc_ToolName tc) SaveMemoryToolName
  then upd_storage (if failed then add_memory 0 0 0 1 else add_memory 0 0 1 0) t else t.

(** [base.ApplyToolCircuitResult] on the shared breaker. *)
Definition apply_circuit (i : AgentLoopInput) (tc : ToolCallRequest) (r : toolResult) : prog unit :=
  match in_circuitBreaker i with
  | None => mret tt
  | Some cb =>
      if negb (CountsTowardCircuitBreaker (tc_Unknown tc) (tc_ToolKind tc)) then mret tt
      else if tr_failed r
      then _ ← call (OCBRecordFailure cb (tc_ToolName tc) (tc_Args tc) (in_circuitNow i)); mret tt
      else call (OCBRecordSuccess cb (tc_ToolName tc))
  end.

(** Append the tool messages and account for every result, in order. *)
Fixpoint collect_results (i : AgentLoopInput) (calls : list ToolCallRequest) (rs : list toolResult)
    (s : loop_state) : prog loop_state :=
  match calls, rs with
  | tc :: calls, r :: rs =>
      _ ← apply_circuit i tc r;
      collect_results i calls rs
        (set_telemetry (set_messages s (ls_messages s ++ [tr_message r])) (record_tool (ls_telemetry s) tc r))
  | _, _ => mret s
  end.

(** The breaker snapshot of the round: [Restore(State())]. *)
Definition snapshot_breaker (i : AgentLoopInput) : prog unit :=
  match in_circuitBreaker i with
  | None => mret tt
  | Some cb => snap ← call (OCBState cb); call (OCBRestore cb snap)
  end.

Section loop.
Context (exec_sub : Runtime -> AgentLoopInput -> prog loop_outcome).
Context (rt : Runtime).

Definition toolExecMode : string :=
  if String.eqb (rt_ToolExecutionMode rt) "" then AgentToolExecutionModeParallel else rt_ToolExecutionMode rt.

Section round.
Context (i : AgentLoopInput) (ps : ExecutionPolicies) (memoryContext retrieverContext : string).
Context (originalMaxIter : Z).

Definition llm_input (messageID : string) (iter : Z) (s : loop_state) (skipTools : bool) : ExecuteLLMInput :=
  {| li_AgentName := as_Name (rt_AgentSpec rt); li_MessageID := messageID; li_RunID := in_RunID i;
     li_Iteration := iter; li_Messages := ls_messages s; li_SkipTools := skipTools;
     li_MemoryContext := memoryContext; li_RetrieverContext := retrieverContext;
     li_Tools := in_Tools i; li_Emit := Some (loop_emit i); li_Client := None |}.

(** The tools part of a round. *)
Definition run_tools (messageID : string) (iter : Z) (calls : list ToolCallRequest)
    : prog (result (list toolResult)) :=
  if String.eqb toolExecMode AgentToolExecutionModeParallel
  then rs ← executeToolsParallel exec_sub rt i messageID iter calls ps; mret (inr rs)
  else if String.eqb toolExecMode AgentToolExecutionModeSequential
  then rs ← executeToolsSequential exec_sub rt i messageID iter calls ps; mret (inr rs)
  else mret (inl (errors_New ("invalid tool execution mode " +:+ Quote toolExecMode +:+ ": use " +:+
                    Quote AgentToolExecutionModeParallel +:+ " or " +:+ Quote AgentToolExecutionModeSequential))).

(** [ConversationSaveOnIteration] *)
Definition save_iteration (s : loop_state) : prog loop_state :=
  if conversationMemoryEnabled rt i && ac_ConversationSaveOnIteration (rt_AgentConfig rt) &&
     (ls_persisted s <? length (ls_messages s))%nat
  then _ ← persistConversationMessages rt (in_ConversationID i) (drop (ls_persisted s) (ls_messages s));
       mret (set_persisted s (length (ls_messages s)))
  else mret s.

Definition tool_round (messageID : string) (iter : Z) (res : LLMResult) (s : loop_state) : prog round_result :=
  let s := set_messages s (ls_messages s ++ [assistant_message res]) in
  rs ← run_tools messageID iter (lr_ToolCalls res);
  match rs with
  | inl err => mret (Return (Stopped None err))
  | inr rs =>
      s ← collect_results i (lr_ToolCalls res) rs s;
      _ ← snapshot_breaker i;
      b ← enforceBudgetIfExceeded rt i (ls_telemetry s);
      let s := set_telemetry s b.2 in
      match b.1 with
      | Some err => mret (Return (Stopped (Some (partial_result s)) err))
      | None => s ← save_iteration s; mret (NextRound s)
      end
  end.

(** Max iterations reached: one last call without tools. *)
Definition final_call (iter : Z) (s : loop_state) : prog round_result :=
  messageID ← call ONewUUID;
  r ← invokeLLMWithErrorControl rt i (llm_input messageID iter s true) (ls_useFallback s) ps;
  match r with
  | inl err => mret (Return (Stopped None (wrap_error ("llm final call (iter " +:+ Itoa iter +:+ "): ") err)))
  | inr (res, _) =>
      let s := after_llm s false (lr_Usage res) (ls_telemetry s) in
      b ← checkBudget rt i (ls_telemetry s) (lr_Usage res);
      let s := set_telemetry s b.2 in
      match b.1 with
      | Some err => mret (Return (Stopped (Some (partial_result s)) err))
      | None =>
          mret (Done (with_answer s (lr_Content res)
            (upd_run (fun r => set_finish FinishReasonMaxIterations (add_llm_call r)) (ls_telemetry s))))
      end
  end.

(** What follows a response with tool calls. *)
Definition after_calls (messageID : string) (iter : Z) (res : LLMResult) (s : loop_state) : prog round_result :=
  if iter =? ls_maxIter s - 1 then
    dec ← DecideMaxIterations rt
      {| mi_IterationCount := iter + 1; mi_MaxIterations := originalMaxIter;
         mi_LastAction := LastToolAction (map tc_ToolName (lr_ToolCalls res)) |} (ls_extended s);
    match dec_Action dec with
    | ErrorControlExtendIterations =>
        tool_round messageID iter res (extend_iterations s (dec_ExtraIterations dec))
    | _ => final_call iter s
    end
  else tool_round messageID iter res s.

(** The body of [for iter := 0; iter < maxIter; iter++], after the clock reading. *)
Definition llm_round (iter : Z) (s : loop_state) : prog round_result :=
  messageID ← call ONewUUID;
  r ← invokeLLMWithErrorControl rt i (llm_input messageID iter s false) (ls_useFallback s) ps;
  match r with
  | inl err => mret (Return (Stopped None (wrap_error ("llm call (iter " +:+ Itoa iter +:+ "): ") err)))
  | inr (res, usedFB) =>
      let s := after_llm s usedFB (lr_Usage res) (upd_run add_llm_call (ls_telemetry s)) in
      b ← checkBudget rt i (ls_telemetry s) (lr_Usage res);
      let s := set_telemetry s b.2 in
      match b.1 with
      | Some err => mret (Return (Stopped (Some (partial_result s)) err))
      | None =>
          match lr_ToolCalls res with
          | [] => mret (Done (with_answer s (lr_Content res) (ls_telemetry s)))
          | _ => after_calls messageID iter res s
          end
      end
  end.
End round.

(** One iteration: the breaker's clock is read first. *)
Definition iteration (i : AgentLoopInput) (ps : ExecutionPolicies) (mem ret : string) (orig iter : Z)
    (s : loop_state) : prog round_result :=
  match in_circuitBreaker i with
  | None => llm_round i ps mem ret orig iter s
  | Some cb => now ← call ONow; llm_round (with_breaker i (Some cb) now) ps mem ret orig iter s
  end.

(** The [for] loop; [inl] is a return from inside it. *)
Fixpoint rounds (fuel : nat) (i : AgentLoopInput) (ps : ExecutionPolicies) (mem ret : string) (orig iter : Z)
    (s : loop_state) : prog (loop_outcome + loop_state) :=
  if ls_maxIter s <=? iter then mret (inr s) else
  match fuel with
  | O => _ ← call OOutOfFuel; mret (inr s)
  | S fuel =>
      r ← iteration i ps mem ret orig iter s;
      match r with
      | Return o => mret (inl o)
      | Done s => mret (inr s)
      | NextRound s => rounds fuel i ps mem ret orig (iter + 1) s
      end
  end.

(** *** Before the rounds *)

Definition load_history (i : AgentLoopInput) : prog (list Message * nat) :=
  let prompt := [text_message MessageRoleUser (in_UserPrompt i)] in
  if conversationMemoryEnabled rt i then
    r ← FetchConversationMessages rt (in_ConversationID i);
    mret (match r with inl _ => (prompt, 0%nat) | inr conv => (conv ++ prompt, length conv) end)
  else mret (prompt, 0%nat).

Definition recall_memory (i : AgentLoopInput) (ps : ExecutionPolicies) : prog (result MemoryResult) :=
  if MemoryConfigured rt && RecallEnabled rt then
    r ← executeWithPolicy (po_Memory ps)
          (ExecuteMemoryRecall rt {| mri_RunID := in_RunID i; mri_Iteration := 0;
                                     mri_Scope := in_MemoryScope i; mri_Query := in_UserPrompt i |});
    mret (match r with inl e => inl (wrap_error "memory recall: " e) | inr m => inr m end)
  else mret (inr {| mr_Context := ""; mr_TotalRecalls := 0; mr_FailedRecalls := 0 |}).

Definition prefetch_enabled : bool :=
  let mode := ac_RetrieverMode (rt_AgentConfig rt) in
  (String.eqb mode RetrieverModePrefetch || String.eqb mode RetrieverModeHybrid) &&
  negb (bool_decide (length (ac_Retrievers (rt_AgentConfig rt)) = 0%nat)).

Definition prefetch (i : AgentLoopInput) (ps : ExecutionPolicies) : prog (result RetrieverResult) :=
  if prefetch_enabled then
    r ← executeWithPolicy (po_Retriever ps)
          (ExecuteRetrievers rt {| eri_RunID := in_RunID i; eri_Iteration := 0; eri_Query := in_UserPrompt i |});
    mret (match r with inl e => inl (wrap_error "retriever prefetch: " e) | inr m => inr m end)
  else mret (inr {| rr_Context := ""; rr_TotalSearches := 0; rr_FailedSearches := 0 |}).

(** *** After the rounds *)

Definition finish_run (i : AgentLoopInput) (ps : ExecutionPolicies) (s : loop_state) : prog loop_outcome :=
  _ ← (if conversationMemoryEnabled rt i && (ls_persisted s <? length (ls_messages s))%nat
       then persistConversationMessages rt (in_ConversationID i) (drop (ls_persisted s) (ls_messages s))
       else mret tt);
  t ← (if RunEndMemoryStoreEnabled rt then
         e ← executeWithPolicyErr (po_Memory ps)
               (ExecuteMemoryStore rt {| esi_RunID := in_RunID i; esi_Iteration := 0;
                                         esi_Scope := in_MemoryScope i; esi_Messages := ls_messages s |});
         mret (upd_storage (match e with Some _ => add_memory 0 0 0 1 | None => add_memory 0 0 1 0 end)
                 (ls_telemetry s))
       else mret (ls_telemetry s));
  now ← call ONow;
  mret (Finished {| al_Content := ls_lastContent s; al_LLMUsage := ls_llmUsage s;
                    al_Telemetry := upd_run (set_completed now) t |}).

Definition initial_state (maxIter : Z) (messages : list Message) (persisted : nat) (t : AgentTelemetry) : loop_state :=
  {| ls_messages := messages; ls_persisted := persisted; ls_maxIter := maxIter; ls_useFallback := false;
     ls_extended := false; ls_lastContent := ""; ls_llmUsage := None; ls_telemetry := t |}.

(** Rounds that certainly suffice: the bound can be extended once, by at most itself. *)
Definition round_fuel (maxIter : Z) : nat := Z.to_nat (2 * maxIter).

Definition executeAgentLoop_body (input : AgentLoopInput) : prog loop_outcome :=
  startedAt ← call ONow;
  let ps := executionPolicies rt in
  let maxIter := EffectiveMaxIterations (ac_MaxIterations (rt_AgentConfig rt)) in
  cb ← (match in_circuitBreaker input with
        | Some cb => mret (Some cb)
        | None => call (OCBNew (ac_ErrorControl (rt_AgentConfig rt)))
        end);
  let i := with_breaker input cb (in_circuitNow input) in
  h ← load_history i;
  m ← recall_memory i ps;
  match m with
  | inl err => mret (Stopped None err)
  | inr m =>
      r ← prefetch i ps;
      match r with
      | inl err => mret (Stopped None err)
      | inr r =>
          let t := upd_storage (fun sg =>
                     add_searches (rr_TotalSearches r) (rr_FailedSearches r) (rr_TotalSearches r) 0
                       (add_memory (mr_TotalRecalls m) (mr_FailedRecalls m) 0 0 sg))
                     (NewAgentTelemetry startedAt) in
          o ← rounds (round_fuel maxIter) i ps (mr_Context m) (rr_Context r) maxIter 0
                (initial_state maxIter h.1 h.2 t);
          match o with
          | inl o => mret o
          | inr s => finish_run i ps s
          end
      end
  end.
End loop.

(** Sub-agents nest at most [MaxSubAgentDepth] deep, so this many levels suffice. *)
Fixpoint executeAgentLoop_fuel (fuel : nat) (rt : Runtime) (i : AgentLoopInput) : prog loop_outcome :=
  match fuel with
  | O => _ ← call OOutOfFuel; mret (Stopped None (errors_New ""))
  | S fuel => executeAgentLoop_body (executeAgentLoop_fuel fuel) rt i
  end.

Definition depth_fuel (i : AgentLoopInput) : nat :=
  S (Z.to_nat (in_MaxSubAgentDepth i - in_SubAgentDepth i)).

Definition executeAgentLoop (rt : Runtime) (i : AgentLoopInput) : prog loop_outcome :=
  executeAgentLoop_fuel (depth_fuel i) rt i.

(** ** Runs *)

Record RunRequest := {
  rq_UserPrompt : string; rq_ConversationID : string; rq_EnableLLMStream : bool;
  rq_EventTypes : list string; rq_SubAgents : list (option SubAgentSpec);
  rq_MaxSubAgentDepth : Z; rq_Tools : list Tool }.

(** The run result the handle is completed with. *)
Definition run_result (rt : Runtime) (runID : string) (r : AgentLoopResult) : AgentRunResult :=
  {| ar_Content := al_Content r; ar_AgentName := TrimSpace (as_Name (rt_AgentSpec rt));
     ar_Model := l_Model (ac_LLMClient (rt_AgentConfig rt)); ar_Metadata := Some ∅; ar_RunID := runID;
     ar_LLMUsage := al_LLMUsage r; ar_Telemetry := Some (al_Telemetry r) |}.

Definition run_scope (rt : Runtime) (ctx : Ctx) : MemoryScope :=
  match ResolveMemoryScope rt ctx with inl _ => zero_scope | inr s => s end.

(** [budget] is the location of [NewBudgetTracker(Limits.Budget)], if not nil. *)
Definition run_input (rt : Runtime) (handler : bool) (ctx : Ctx) (req : RunRequest) (runID channel : string)
    (eventTypes : list string) (streaming : bool) (budget : option loc) : AgentLoopInput :=
  {| in_UserPrompt := rq_UserPrompt req; in_ConversationID := rq_ConversationID req;
     in_StreamingEnabled := streaming; in_Tools := rq_Tools req; in_ChannelName := channel;
     in_EventTypes := eventTypes; in_ApprovalHandler := handler;
     in_SubAgentRoutes := buildSubAgentRoutes (rq_SubAgents req); in_SubAgentDepth := 0;
     in_MaxSubAgentDepth := rq_MaxSubAgentDepth req; in_MemoryScope := run_scope rt ctx;
     in_RunID := runID; in_BudgetTracker := budget;
     in_EnforceBudget := bool_decide (is_Some budget); in_circuitBreaker := None; in_circuitNow := 0 |}.

Definition driveRun (rt : Runtime) (handler : bool) (ctx : Ctx) (req : RunRequest) (runID : string)
    (budget : option loc) : prog (result AgentRunResult) :=
  let eventTypes := if handler then ["CUSTOM"] else [] in
  o ← executeAgentLoop rt (run_input rt handler ctx req runID "" eventTypes false budget);
  mret (match o with
        | Finished r => inr (run_result rt runID r)
        | Stopped _ e => inl e
        end).

Definition localChannelName (runID : string) : string := "agent-event-" +:+ runID.

(** [publishLifecycleEvent] *)
Definition publishLifecycleEvent (channel : string) (b : EventBody) : prog unit :=
  now ← call ONow;
  if String.eqb channel "" then mret tt else call (OPublish channel (NewEvent b now)).

(** The input of a streamed run. *)
Definition stream_input (rt : Runtime) (handler : bool) (ctx : Ctx) (req : RunRequest) (runID : string)
    (budget : option loc) : AgentLoopInput :=
  let eventTypes := match rq_EventTypes req with [] => [AgentEventAll] | l => l end in
  run_input rt handler ctx req runID (localChannelName runID) eventTypes (rq_EnableLLMStream req) budget.

Definition driveStream (rt : Runtime) (handler : bool) (ctx : Ctx) (req : RunRequest) (runID threadID : string)
    (budget : option loc) : prog (result AgentRunResult) :=
  let channel := localChannelName runID in
  o ← executeAgentLoop rt (stream_input rt handler ctx req runID budget);
  match o with
  | Stopped _ e =>
      _ ← publishLifecycleEvent channel (AgentRunErrorEvent (err_msg e) None);
      mret (inl e)
  | Finished r =>
      _ ← publishLifecycleEvent channel (AgentRunFinishedEvent threadID runID (Some (run_result rt runID r)));
      mret (inr (run_result rt runID r))
  end.

(** What [Stream] publishes before the goroutine of [driveStream] starts. *)
Definition stream_started (runID threadID : string) : prog unit :=
  publishLifecycleEvent (localChannelName runID) (AgentRunStartedEvent threadID runID "").

(** The deferred [recover] of [driveStream], for a panic of the loop with that value. *)
Definition driveStream_recovered (runID panicked : string) : prog (result AgentRunResult) :=
  let err := errors_New ("local: panic in agent loop: " +:+ panicked) in
  _ ← publishLifecycleEvent (localChannelName runID) (AgentRunErrorEvent (err_msg err) None);
  mret (inl err).

(** ** Theorems: sub-agent routes *)

Lemma lookup_set_route m k r k' :
  lookup_route (set_route m k r) k' = if String.eqb k k' then Some r else lookup_route m k'.
Proof.
  induction m as [|[k1 r1] m IH]; simpl; [done|].
  destruct (String.eqb k1 k) eqn:E; simpl.
  - apply String.eqb_eq in E as ->. by destruct (String.eqb k k').
  - rewrite IH. destruct (String.eqb k1 k') eqn:E1; [|done].
    apply String.eqb_eq in E1 as ->. by rewrite String.eqb_sym, E.
Qed.

Lemma set_route_keys m k r :
  NoDup (map fst m) -> NoDup (map fst (set_route m k r)) /\
  forall k', k' ∈ map fst (set_route m k r) -> k' = k \/ k' ∈ map fst m.
Proof.
  induction m as [|[k1 r1] m IH]; simpl; intros H.
  - split; [apply NoDup_singleton|]. intros k' Hk%list_elem_of_singleton. by left.
  - apply NoDup_cons in H as [Hn H]. destruct (String.eqb k1 k) eqn:E; simpl.
    + apply String.eqb_eq in E as ->. split; [by apply NoDup_cons|]. auto.
    + apply String.eqb_neq in E. destruct (IH H) as [Hd Hk]. split.
      * apply NoDup_cons. split; [|done]. intros [->|Hin]%Hk; [done|by apply Hn].
      * intros k' [->|Hin]%elem_of_cons; [right; by left|]. destruct (Hk _ Hin) as [->|]; [by left|right; by right].
Qed.

(** The route a spec stands for, when it is local and named [k]. *)
Definition spec_route (k : string) (s : option SubAgentSpec) : option subAgentRoute :=
  match s with
  | Some (Spec name toolName (Some lr) children tools) =>
      if String.eqb toolName k then Some (SubAgentRoute name (Some lr) (buildSubAgentRoutes children) tools) else None
  | _ => None
  end.

Lemma build_route_spec name toolName lr children tools :
  build_route (Spec name toolName (Some lr) children tools) =
  Some (toolName, SubAgentRoute name (Some lr) (buildSubAgentRoutes children) tools).
Proof. reflexivity. Qed.

Lemma lookup_build specs out k :
  lookup_route (buildSubAgentRoutes_ specs out) k =
  match last (omap (spec_route k) specs) with Some r => Some r | None => lookup_route out k end.
Proof.
  revert out. induction specs as [|[[name tn [lr|] ch tools]|] specs IH]; intros out; [done| | |].
  - cbn [buildSubAgentRoutes_]. rewrite build_route_spec, IH, lookup_set_route. cbn [omap list_omap spec_route].
    destruct (String.eqb tn k); [|done]. rewrite last_cons. by destruct (last _).
  - cbn. apply IH.
  - cbn. apply IH.
Qed.

Lemma build_keys specs out : NoDup (map fst out) -> NoDup (map fst (buildSubAgentRoutes_ specs out)).
Proof.
  revert out. induction specs as [|[[name tn [lr|] ch tools]|] specs IH]; intros out H; [done| | |].
  - cbn [buildSubAgentRoutes_]. rewrite build_route_spec. apply IH. by apply set_route_keys.
  - cbn. by apply IH.
  - cbn. by apply IH.
Qed.

(** The route map of a run has one entry per tool name, and a name is routed to the last
    non-nil spec of that name whose runtime is local, with its sub-agents routed in the same
    way; specs with another runtime are skipped at every level. *)
Theorem routes_last_spec specs :
  NoDup (map fst (buildSubAgentRoutes specs)) /\
  forall k, lookup_route (buildSubAgentRoutes specs) k = last (omap (spec_route k) specs).
Proof.
  split; [apply build_keys, NoDup_nil_2|]. intros k. unfold buildSubAgentRoutes. rewrite lookup_build.
  by destruct (last _).
Qed.
