(* ===== verification/LoopFacts.v ===== *)
(** Reasoning about the agent loop: which classes of effects each part of it can perform,
    and the induction principles over its rounds and its nested sub-agents that the
    theorems of [LoopSafety.v], [LoopBounds.v], [LoopBudget.v] and [LoopMessages.v] use. *)
From S2P Require Import Prelude GoLib Types Codec Prog Policies MemoryConfig Budget CircuitBreaker Telemetry Events Effects Hooks ErrorControl LLM Memory Tools Retry AgentLoop.

#[local] Open Scope string_scope.
#[local] Open Scope list_scope.
#[local] Open Scope Z_scope.

(** ** Classes of effects *)

Inductive op_class := CLlm | CTool | CBudget | CAppend | CFuel | CAwait | CLifecycle | CRecord | CSnapshot | COther.

Definition class_of (o : Op) : op_class :=
  match o with
  | OGenerate _ _ | OGenerateStream _ _ => CLlm
  | OToolExecute _ _ _ _ => CTool
  | OBudgetAdd _ _ | OBudgetCheck _ | OBudgetExhausted _ | OBudgetCount _ | OBudgetTotals _
  | OBudgetAdvance _ => CBudget
  | OAddMessage _ _ => CAppend
  | OOutOfFuel => CFuel
  | OAwaitApproval _ _ => CAwait
  | OCBRecordFailure _ _ _ _ | OCBRecordSuccess _ _ => CRecord
  | OCBState _ | OCBRestore _ _ => CSnapshot
  | OPublish _ e => if is_lifecycle (ae_Body e) then CLifecycle else COther
  | _ => COther
  end.

(** Effects of the listed classes, or unclassified ones. *)
Definition within (cs : list op_class) (o : Op) : Prop := In (class_of o) (COther :: cs).

Lemma within_hook cs o : is_hook_op o -> within cs o.
Proof. destruct o; simpl; try done; intros _; by left. Qed.

Lemma within_other cs o : class_of o = COther -> within cs o.
Proof. intros H. left. by rewrite H. Qed.

Lemma within_weaken cs cs' {A} (m : prog A) :
  (forall c, In c cs -> In c cs') -> always (within cs) m -> always (within cs') m.
Proof. intros H. apply always_mono. intros o [Ho|Ho]; [by left|right; auto]. Qed.

#[export] Hint Resolve within_hook : footprint.

(** [foot] for class footprints. *)
Ltac class_foot :=
  repeat first
    [ progress foot
    | apply always_call; first [by apply within_other | right; simpl; tauto]
    | progress unfold emit_metric ].

Section classes.
Context (cs : list op_class).
Local Notation ok := (always (within cs)).

Lemma within_policy {A} p (op : prog (result A)) : ok op -> ok (executeWithPolicy p op).
Proof. intros H. apply always_policy; [done| | |]; intros; by apply within_other. Qed.
Lemma within_policy_err p (op : prog (option error)) : ok op -> ok (executeWithPolicyErr p op).
Proof. intros H. apply always_policy_err; [done| | |]; intros; by apply within_other. Qed.

Lemma within_emit i e : is_lifecycle (ae_Body e) = false -> ok (loop_emit i e).
Proof.
  intros He. unfold loop_emit, publishEventToChannel. class_foot.
  apply always_call, within_other. simpl. by rewrite He.
Qed.
Lemma within_emit_body i b : is_lifecycle b = false -> ok (emit_body i b).
Proof. intros Hb. unfold emit_body, emitEvent. class_foot. by apply within_emit. Qed.
Lemma within_tool_end i a b c : ok (emitToolEndThenResult i a b c).
Proof. unfold emitToolEndThenResult. apply always_bind; intros; by apply within_emit_body. Qed.
Lemma within_finish_tool i a tc c f : ok (finish_tool i a tc c f).
Proof. unfold finish_tool. apply always_bind; [apply within_tool_end|class_foot]. Qed.
Lemma within_tool_start i a tc : ok (emit_tool_start i a tc).
Proof. unfold emit_tool_start. class_foot; by apply within_emit_body. Qed.
Lemma within_tripped i tc : ok (circuit_tripped i tc).
Proof. unfold circuit_tripped. class_foot. Qed.
Lemma within_authorize rt tools n a : ok (AuthorizeTool rt tools n a).
Proof. apply foot_AuthorizeTool. intros. by apply within_other. Qed.
Lemma within_release t : ok (release_approval t).
Proof. unfold release_approval. class_foot. Qed.
Lemma within_store rt i : ok (StoreMemoryRecords rt i).
Proof.
  unfold StoreMemoryRecords. foot. generalize (sri_Records i) as recs.
  induction recs as [|r recs IH]; simpl; [class_foot|]. apply always_bind.
  - unfold storeRecord, write_record, store_target, dedupStoreOptions, store_failed. class_foot.
  - intros [e|]; [class_foot|apply IH].
Qed.
Lemma within_memory_store rt i : ok (ExecuteMemoryStore rt i).
Proof.
  unfold ExecuteMemoryStore, extractMemoryRecords, call_extract. class_foot; try apply within_store.
Qed.
Lemma within_search rt i r : ok (search_one rt i r).
Proof. unfold search_one. class_foot. Qed.
Lemma within_retrievers rt i : ok (ExecuteRetrievers rt i).
Proof.
  unfold ExecuteRetrievers. destruct (ac_Retrievers _) as [|r l]; [class_foot|].
  apply always_bind; [|class_foot]. apply always_par; [by apply within_other|].
  intros m (x & <- & _)%in_map_iff. apply within_search.
Qed.
Lemma within_prefetch rt i ps : ok (prefetch rt i ps).
Proof.
  unfold prefetch. destruct (prefetch_enabled rt); [|class_foot].
  apply always_bind; [apply within_policy, within_retrievers|class_foot].
Qed.
Lemma within_recall rt i ps : ok (recall_memory rt i ps).
Proof.
  unfold recall_memory. class_foot. apply within_policy.
  unfold ExecuteMemoryRecall, recall_failed, load_entries. class_foot.
Qed.
Lemma within_history rt i : ok (load_history rt i).
Proof. unfold load_history, FetchConversationMessages. class_foot. Qed.
Lemma within_max_iterations rt i e : ok (DecideMaxIterations rt i e).
Proof. apply foot_DecideMaxIterations. intros. by apply within_other. Qed.
Lemma within_note_unknown rt n : ok (NoteUnknownTool rt n).
Proof. unfold NoteUnknownTool. class_foot. Qed.
Lemma within_note_skip rt n : ok (NoteCircuitSkip rt n).
Proof. unfold NoteCircuitSkip. class_foot. Qed.
Lemma within_result rt p tools : ok (llmResponseToResult rt p tools).
Proof. apply foot_llmResponseToResult. intros. by apply within_other. Qed.
End classes.

#[export] Hint Resolve within_policy within_policy_err within_emit_body within_tool_end within_finish_tool
  within_tool_start within_tripped within_authorize within_release
  within_memory_store within_prefetch within_recall within_history within_max_iterations
  within_note_unknown within_note_skip within_store within_retrievers within_result : footprint.

(** *** Where the operations of the runtime publish *)

Section publishing.
Context (allowed : string -> AgentEvent -> Prop).

(** An event goes only to a channel that may have it. *)
Definition publishes (o : Op) : Prop := match o with OPublish c e => allowed c e | _ => True end.

Lemma silent_publishes {A} (m : prog A) : always silent m -> always publishes m.
Proof using. apply always_mono. by intros []. Qed.

Lemma publishes_hook o : is_hook_op o -> publishes o.
Proof using. by destruct o. Qed.

#[local] Hint Resolve publishes_hook : footprint.

Ltac publish_foot :=
  repeat first [ progress foot | apply always_call; exact I | progress unfold emit_metric ].

Lemma publishes_result rt p tools : always publishes (llmResponseToResult rt p tools).
Proof using. by apply foot_llmResponseToResult. Qed.

#[local] Hint Resolve publishes_result : footprint.

Lemma publishes_generate rt li :
  (forall f e, li_Emit li = Some f -> always publishes (f e)) -> always publishes (ExecuteLLM rt li).
Proof using.
  intros He. unfold ExecuteLLM, emitEvent. publish_foot; try apply publishes_result; by apply He.
Qed.

Lemma publishes_stream rt li :
  (forall f e, li_Emit li = Some f -> always publishes (f e)) -> always publishes (ExecuteLLMStream rt li).
Proof using.
  intros He.
  assert (Hem : forall f b now, is_lifecycle b = false -> li_Emit li = Some f -> always publishes (f (NewEvent b now)))
    by (intros; by apply He).
  assert (Hfin : forall attrs v p, always publishes (finish_stream rt li attrs v p)).
  { intros. unfold finish_stream. publish_foot; try done; try apply publishes_result. by apply foot_finalizeAssistantText. }
  unfold ExecuteLLMStream, consume_stream, stream_failed. publish_foot; try apply Hfin; try done.
  by apply foot_on_chunk.
Qed.

Lemma publishes_store rt i : always publishes (StoreMemoryRecords rt i).
Proof using.
  unfold StoreMemoryRecords. foot. generalize (sri_Records i) as recs.
  induction recs as [|r recs IH]; simpl; [publish_foot|]. apply always_bind.
  - unfold storeRecord, write_record, store_target, dedupStoreOptions, store_failed. publish_foot.
  - intros [e|]; [publish_foot|apply IH].
Qed.

Lemma publishes_memory_store rt i : always publishes (ExecuteMemoryStore rt i).
Proof using.
  unfold ExecuteMemoryStore, extractMemoryRecords, call_extract. publish_foot; try apply publishes_store.
Qed.

Lemma publishes_retrievers rt i : always publishes (ExecuteRetrievers rt i).
Proof using.
  unfold ExecuteRetrievers. destruct (ac_Retrievers _) as [|r l]; [publish_foot|].
  apply always_bind; [|publish_foot]. apply always_par; [done|].
  intros m (x & <- & _)%in_map_iff. unfold search_one. publish_foot.
Qed.

Lemma publishes_recall rt i : always publishes (ExecuteMemoryRecall rt i).
Proof using. unfold ExecuteMemoryRecall, recall_failed, load_entries. publish_foot. Qed.

Lemma publishes_fetch rt id : always publishes (FetchConversationMessages rt id).
Proof using. unfold FetchConversationMessages. publish_foot. Qed.

Lemma publishes_add id ms : always publishes (add_messages id ms).
Proof using. unfold add_messages. induction ms; simpl; publish_foot; done. Qed.

Lemma publishes_authorize rt tools n a : always publishes (AuthorizeTool rt tools n a).
Proof using. by apply foot_AuthorizeTool. Qed.

Lemma publishes_llm_failure rt i : always publishes (DecideLLMFailure rt i).
Proof using. by apply foot_DecideLLMFailure. Qed.

Lemma publishes_max_iterations rt i e : always publishes (DecideMaxIterations rt i e).
Proof using. by apply foot_DecideMaxIterations. Qed.

Lemma publishes_execute_tool rt i sc : always publishes (ExecuteTool rt i sc).
Proof using.
  unfold ExecuteTool, executeSaveMemoryTool, executeTool, execute_plain, executeRetrieverTool,
    tool_failed, tool_completed. publish_foot; try apply publishes_store; try exact I.
  unfold NoteUnknownTool. publish_foot.
Qed.
End publishing.

(** *** Parts that perform classified effects *)

Lemma within_snapshot i : always (within [CSnapshot]) (snapshot_breaker i).
Proof. unfold snapshot_breaker. class_foot. Qed.

Lemma within_collect i calls rs s : always (within [CRecord]) (collect_results i calls rs s).
Proof.
  revert rs s. induction calls as [|tc calls IH]; intros rs s; simpl; [class_foot|].
  destruct rs as [|r rs]; [class_foot|]. apply always_bind; [|intros; apply IH].
  unfold apply_circuit. class_foot.
Qed.

Lemma within_generate rt i li :
  li_Emit li = Some (loop_emit i) -> always (within [CLlm]) (ExecuteLLM rt li).
Proof.
  intros He. unfold ExecuteLLM, emitEvent. rewrite He. class_foot; try by apply within_emit.
Qed.

Lemma within_stream rt i li :
  li_Emit li = Some (loop_emit i) -> always (within [CLlm]) (ExecuteLLMStream rt li).
Proof.
  intros He.
  assert (Hem : forall f b now, is_lifecycle b = false -> li_Emit li = Some f -> always (within [CLlm]) (f (NewEvent b now))).
  { rewrite He. intros f b now Hb [= <-]. by apply within_emit. }
  assert (Hfin : forall attrs v p, always (within [CLlm]) (finish_stream rt li attrs v p)).
  { intros. unfold finish_stream. class_foot; try by apply within_other.
    apply foot_finalizeAssistantText; [by apply within_other|done]. }
  unfold ExecuteLLMStream, consume_stream, stream_failed. class_foot; try apply Hfin.
  apply foot_on_chunk; [by apply within_other|by apply within_other|done].
Qed.

Lemma within_invoke rt i li fb ps :
  li_Emit li = Some (loop_emit i) -> always (within [CLlm]) (invokeLLM rt i li fb ps).
Proof.
  intros He. unfold invokeLLM, run_llm. class_foot; apply within_policy;
    (eapply within_stream || eapply within_generate); exact He.
Qed.

Lemma within_llm rt i li fb ps :
  li_Emit li = Some (loop_emit i) -> always (within [CLlm]) (invokeLLMWithErrorControl rt i li fb ps).
Proof.
  intros He. unfold invokeLLMWithErrorControl. class_foot; try (by apply within_invoke).
  apply foot_DecideLLMFailure. intros. by apply within_other.
Qed.

Lemma within_execute_tool rt i sc : always (within [CTool]) (ExecuteTool rt i sc).
Proof.
  unfold ExecuteTool, executeSaveMemoryTool, executeTool, execute_plain, executeRetrieverTool,
    tool_failed, tool_completed. class_foot.
Qed.

Lemma within_budget_hooks rt i l e : always (within [CBudget; CAwait]) (applyBudgetExceeded rt i l e).
Proof.
  unfold applyBudgetExceeded, awaitBudgetApprovalStatus, budget_verdict, publishEventToChannel. class_foot.
Qed.

#[export] Hint Resolve within_budget_hooks : footprint.

Lemma within_check_budget rt i t u : always (within [CBudget; CAwait]) (checkBudget rt i t u).
Proof. unfold checkBudget. class_foot. Qed.

Lemma within_enforce_budget rt i t : always (within [CBudget; CAwait]) (enforceBudgetIfExceeded rt i t).
Proof. unfold enforceBudgetIfExceeded. class_foot. Qed.

Lemma approval_event_lifecycle rt tc b token : is_lifecycle (approval_event rt tc b token) = false.
Proof. by destruct b. Qed.
#[export] Hint Resolve approval_event_lifecycle : footprint.

Lemma within_gate rt i tc b : always (within [CAwait]) (approval_gate rt i tc b).
Proof. unfold approval_gate, await_tool_approval. class_foot. Qed.

Lemma within_persist rt id ms : always (within [CAppend]) (persistConversationMessages rt id ms).
Proof.
  unfold persistConversationMessages, add_messages. case_match; [class_foot|].
  apply always_bind; [apply within_policy_err|]; class_foot.
Qed.

#[export] Hint Resolve within_persist : footprint.

Lemma within_save rt i s : always (within [CAppend]) (save_iteration rt i s).
Proof. unfold save_iteration. class_foot. Qed.

Lemma within_finish rt i ps s : always (within [CAppend]) (finish_run rt i ps s).
Proof. unfold finish_run. class_foot. Qed.

(** ** The calls of a response *)

Lemma policy_run_success {A} p (op : prog (result A)) k tr r a :
  policy_run p op k tr r -> r = inr a -> exists t1 t2, tr = t1 ++ t2 /\ texec op t2 (inr a).
Proof.
  induction 1 as [k t b H|k t e c H|k t e H _|k t e c H _|k t e t' r H _ _ IH]; intros Hr; try done.
  - injection Hr as ->. eauto.
  - destruct (IH Hr) as (t1 & t2 & -> & ?).
    exists (deadline_events p ++ t ++ [ctx_event None; backoff_event (backoff_after (ep_Retry p) k) None] ++ t1), t2.
    split; [|done]. by rewrite <- !app_assoc.
Qed.

(** A successful policy run ends with a successful attempt. *)
Lemma policy_success {A} p (op : prog (result A)) tr a :
  texec (executeWithPolicy p op) tr (inr a) ->
  exists t1 t2, tr = t1 ++ t2 /\ texec op t2 (inr a).
Proof. intros H%policy_run_iff. by eapply policy_run_success. Qed.

(** A request that [llmResponseToResult] made for a runtime and its tools. *)
Definition made_for (rt : Runtime) (tools : list Tool) (tc : ToolCallRequest) : Prop :=
  exists c, resolved rt tools c tc.

Definition calls_made_for (rt : Runtime) (tools : list Tool) (r : result LLMResult) : Prop :=
  forall res, r = inr res -> Forall (made_for rt tools) (lr_ToolCalls res).

Lemma response_made_for rt p tools tr r :
  texec (llmResponseToResult rt p tools) tr r -> Forall (made_for rt tools) (lr_ToolCalls r).
Proof.
  intros (H & _)%response_resolved. induction H; constructor; [by eexists|done].
Qed.

Lemma generate_made_for rt li :
  spec (ExecuteLLM rt li) (fun _ r => calls_made_for rt (li_Tools li) r).
Proof.
  intros tr r H res ->. unfold ExecuteLLM, emit_metric in H.
  apply texec_result_inv in H as [(? & ? & _)|(? & ? & q & _ & _ & H)]; [done|]. cbv zeta in H.
  apply texec_mbind_inv in H as (? & ? & ? & _ & _ & H).
  apply texec_mbind_inv in H as (? & ? & [e|p] & _ & _ & H).
  { by apply texec_mbind_inv in H as (? & ? & ? & _ & _ & [_ [=]]%texec_mret_inv). }
  apply texec_result_inv in H as [(? & ? & _)|(? & ? & p' & _ & _ & H)]; [done|].
  apply texec_mbind_inv in H as (? & ? & ? & _ & _ & H).
  apply texec_mbind_inv in H as (? & ? & r & _ & Hr%response_made_for & H).
  do 3 apply texec_mbind_inv in H as (? & ? & ? & _ & _ & H).
  by apply texec_mret_inv in H as [_ [= ->]].
Qed.

Lemma finish_made_for rt li attrs v p :
  spec (finish_stream rt li attrs v p) (fun _ r => calls_made_for rt (li_Tools li) r).
Proof.
  intros tr r H res ->. unfold finish_stream, emit_metric in H.
  apply texec_mbind_inv in H as (? & ? & [e|p'] & _ & _ & H).
  { by apply texec_mbind_inv in H as (? & ? & ? & _ & _ & [_ [=]]%texec_mret_inv). }
  apply texec_mbind_inv in H as (? & ? & r & _ & Hr%response_made_for & H).
  do 2 apply texec_mbind_inv in H as (? & ? & ? & _ & _ & H).
  by apply texec_mret_inv in H as [_ [= ->]].
Qed.

Lemma failed_made_for rt li attrs e :
  spec (stream_failed attrs e) (fun _ r => calls_made_for rt (li_Tools li) r).
Proof.
  intros tr r H res ->. unfold stream_failed in H.
  by apply texec_mbind_inv in H as (? & ? & ? & _ & _ & [_ [=]]%texec_mret_inv).
Qed.

Lemma stream_made_for rt li :
  spec (ExecuteLLMStream rt li) (fun _ r => calls_made_for rt (li_Tools li) r).
Proof.
  intros tr r H. unfold ExecuteLLMStream, emit_metric in H.
  apply texec_result_inv in H as [(? & -> & _)|(? & ? & q & _ & _ & H)]; [by intros ?|]. cbv zeta in H.
  apply texec_mbind_inv in H as (? & ? & ? & _ & _ & H).
  destruct (negb _); apply texec_mbind_inv in H as (? & ? & [e|s] & _ & _ & H).
  - by eapply failed_made_for.
  - by eapply finish_made_for.
  - by eapply failed_made_for.
  - unfold consume_stream in H. do 2 apply texec_mbind_inv in H as (? & ? & ? & _ & _ & H).
    destruct (sm_Err s); [by eapply failed_made_for|].
    destruct (sm_Result s); [by eapply finish_made_for|by eapply failed_made_for].
Qed.

Lemma invoke_made_for rt i li fb ps :
  spec (invokeLLM rt i li fb ps) (fun _ r => calls_made_for rt (li_Tools li) r).
Proof.
  intros tr r H. unfold invokeLLM, run_llm in H.
  destruct fb; [destruct (ResolveLLMClient rt true) as [e|c]; [apply texec_mret_inv in H as [-> ->]; by intros ?|]|];
    (destruct (in_StreamingEnabled i); intros res ->; apply policy_success in H as (? & ? & _ & H);
     [eapply (stream_made_for rt _ _ _ H)|eapply (generate_made_for rt _ _ _ H)]; reflexivity).
Qed.

(** Every call the loop sees was resolved against the tools of the run. *)
Lemma llm_made_for rt i li fb ps tr r res fb' :
  texec (invokeLLMWithErrorControl rt i li fb ps) tr r -> r = inr (res, fb') ->
  Forall (made_for rt (li_Tools li)) (lr_ToolCalls res).
Proof.
  unfold invokeLLMWithErrorControl. intros (? & ? & [e|x] & _ & H1 & H)%texec_mbind_inv ->.
  - destruct fb; [by apply texec_mret_inv in H as [_ [=]]|].
    apply texec_mbind_inv in H as (? & ? & d & _ & _ & H).
    destruct (dec_Action d); try (by apply texec_mret_inv in H as [_ [=]]).
    apply texec_result_inv in H as [(? & ? & _)|(? & ? & y & _ & H2 & H)]; [done|].
    apply texec_mret_inv in H as [_ [= -> ->]]. by eapply invoke_made_for.
  - apply texec_mret_inv in H as [_ [= -> ->]]. by eapply invoke_made_for.
Qed.

(** ** Footprint of a batch of tool calls *)

Lemma always_bind_spec P {A B} (m : prog A) (f : A -> prog B) :
  always P m -> (forall tr a, texec m tr a -> always P (f a)) -> always P (m ≫= f).
Proof.
  intros Hm Hf. induction m as [a|o k IH].
  - apply (Hf []). constructor.
  - destruct Hm as [Ho Hk]. split; [done|]. intros r. apply IH; [apply Hk|].
    intros tr a Hx. apply (Hf (Ev o r :: tr)). by constructor.
Qed.

(** If [P] holds of tool, approval and unclassified effects, and of every effect of the
    children, it holds of every effect of a batch. *)
Section batch.
Context (P : Op -> Prop) (HP : forall o, within [CTool; CAwait] o -> P o).
Context (exec_sub : Runtime -> AgentLoopInput -> prog loop_outcome) (rt : Runtime) (i : AgentLoopInput).
Context (Hsub : forall name route tc sub id, lookup_route (in_SubAgentRoutes i) name = Some route ->
  sr_runtime route = Some sub -> in_SubAgentDepth i < in_MaxSubAgentDepth i ->
  always P (exec_sub sub (sub_input i route tc id))).

Lemma batch_within cs {A} (m : prog A) :
  (forall c, In c cs -> c = CTool \/ c = CAwait) -> always (within cs) m -> always P m.
Proof using HP.
  intros Hcs. apply always_mono. intros o [Ho|Ho]; apply HP; [by left|right].
  destruct (Hcs _ Ho) as [<-|<-]; simpl; auto.
Qed.

Ltac quiet := apply (batch_within []); [by intros ? []|class_foot].

Lemma batch_policy {A} p (op : prog (result A)) : always P op -> always P (executeWithPolicy p op).
Proof using HP. intros H. apply always_policy; [done| | |]; intros; by apply HP, within_other. Qed.

Lemma batch_delegation name route tc :
  lookup_route (in_SubAgentRoutes i) name = Some route -> always P (execute_delegation exec_sub rt i route tc).
Proof using HP Hsub.
  intros Hr. unfold execute_delegation. destruct (_ <=? _) eqn:E; [apply always_ret|]. crush_bool.
  destruct (sr_runtime route) as [sub|] eqn:Es; [|apply always_ret]. unfold delegate.
  apply always_bind; [quiet|]. intros _. apply always_bind.
  - apply batch_policy. apply always_bind; [quiet|]. intros id.
    apply always_bind; [by eapply Hsub|]. intros o. apply always_ret.
  - intros r. apply always_bind; [quiet|]. intros _. apply always_ret.
Qed.

Lemma batch_gated mid iter tc ps : always P (gated exec_sub rt i mid iter tc ps).
Proof using HP Hsub.
  unfold gated. cbv zeta. apply always_bind; [apply (batch_within [CAwait]); [naive_solver|apply within_gate]|].
  intros [st tok]. apply always_bind; [|intros; quiet]. simpl.
  destruct st as [e|status]; [apply always_ret|]. unfold dispatch.
  destruct (String.eqb status ApprovalStatusApproved); [|repeat case_match; quiet].
  destruct (lookup_route _ _) as [route|] eqn:Er.
  - apply always_bind; [by eapply batch_delegation|]. intros. quiet.
  - apply always_bind; [|intros; quiet].
    unfold run_tool. apply always_bind; [|intros; apply always_ret].
    apply batch_policy, (batch_within [CTool]); [naive_solver|apply within_execute_tool].
Qed.

Lemma batch_tool mid iter ps tc : always P (executeSingleTool exec_sub rt i mid iter ps tc).
Proof using HP Hsub.
  unfold executeSingleTool. apply always_bind; [quiet|]. intros _.
  destruct (IsUnknownTool _ _); [quiet|].
  apply always_bind; [quiet|]. intros b. destruct (b : bool); [quiet|].
  apply always_bind; [quiet|]. intros [e|auth]; [apply always_ret|].
  destruct (negb _); [quiet|apply batch_gated].
Qed.

Lemma batch_run_tools ps mid iter calls : always P (run_tools exec_sub rt i ps mid iter calls).
Proof using HP Hsub.
  assert (H1 : forall tc, always P (run_one exec_sub rt i mid iter ps tc)).
  { intros tc. unfold run_one. apply always_bind; [apply batch_tool|]. intros. apply always_ret. }
  unfold run_tools, executeToolsParallel, executeToolsSequential.
  repeat case_match; try apply always_ret; (apply always_bind; [|intros; apply always_ret]).
  - apply always_par; [by apply HP, within_other|]. intros m (x & <- & _)%in_map_iff. apply H1.
  - by apply always_traverse.
Qed.
End batch.
