(* ===== verification/LoopSafety.v ===== *)
(** Safety of tool execution in the agent loop, on every interleaving of parallel tool calls
    and at every depth of sub-agent nesting: a tool only runs after its authorizer allowed
    it and, when it requires approval, after that very call was approved. *)
From S2P Require Import Prelude GoLib Types Codec Prog Policies MemoryConfig Budget CircuitBreaker Telemetry Events Effects Hooks ErrorControl LLM Memory Tools Retry AgentLoop LoopFacts.

#[local] Open Scope string_scope.
#[local] Open Scope list_scope.
#[local] Open Scope Z_scope.

(** ** Lifting a trace predicate from tool calls to the whole loop *)

Section lift.
Context (Q : list Event -> Prop) {HS : Shuffleable Q}.
Context (Hquiet : forall tr, Forall (fun e => class_of (ev_op e) <> CTool) tr -> Q tr).

Definition holds {A} (m : prog A) : Prop := spec m (fun tr _ => Q tr).

Lemma holds_quiet cs {A} (m : prog A) : ~ In CTool cs -> always (within cs) m -> holds m.
Proof using Hquiet.
  intros Hcs H tr a Hx. apply Hquiet. apply (always_spec _ _ H) in Hx.
  eapply Forall_impl; [exact Hx|]. intros e [He|He] Hc; [by rewrite Hc in He|by rewrite Hc in He].
Qed.

Lemma holds_ret {A} (a : A) : holds (mret a).
Proof using HS. apply spec_mret, shuffle_nil. Qed.

Lemma holds_bind {A B} (R : A -> Prop) (m : prog A) (f : A -> prog B) :
  holds m -> spec m (fun _ a => R a) -> (forall a, R a -> holds (f a)) -> holds (m ≫= f).
Proof using HS.
  intros Hm HR Hf tr b (t1 & t2 & a & -> & H1 & H2)%texec_mbind_inv.
  apply shuffle_app; [by eapply Hm|]. eapply Hf; [by eapply HR|done].
Qed.

Lemma holds_seq {A B} (m : prog A) (f : A -> prog B) :
  holds m -> (forall a, holds (f a)) -> holds (m ≫= f).
Proof using HS. intros Hm Hf. apply (holds_bind (fun _ => True)); [done|apply spec_true|auto]. Qed.

Lemma holds_policy {A} p (op : prog (result A)) : holds op -> holds (executeWithPolicy p op).
Proof using HS Hquiet.
  intros H. apply (spec_conseq _ (fun tr r => Q tr /\ forall a, r = inr a -> True)); [|by intros ? ? []].
  apply spec_policy; try (intros; apply Hquiet; by repeat constructor).
  - intros. by apply shuffle_app.
  - intros tr r Hx. split; [by eapply H|done].
Qed.

Lemma holds_each {A B} (f : A -> prog B) l : (forall x, In x l -> holds (f x)) -> holds (traverse f l).
Proof using HS.
  intros H. induction l as [|x l IH]; simpl; [apply holds_ret|].
  apply holds_seq; [apply H; by left|]. intros y.
  apply holds_seq; [apply IH; auto with datatypes|]. intros ys. apply holds_ret.
Qed.

Lemma holds_par {A B} (f : A -> prog B) l : (forall x, In x l -> holds (f x)) -> holds (par (map f l)).
Proof using HS.
  intros H tr a Hx. eapply (spec_par f Q (fun _ _ => True)); [|exact Hx].
  intros x Hin tr' y Hy. split; [by eapply H|done].
Qed.

Ltac quiet cs := apply (holds_quiet cs); [naive_solver|class_foot].

Lemma holds_delegation exec_sub rt i route tc :
  (forall rt' i', holds (exec_sub rt' i')) -> holds (execute_delegation exec_sub rt i route tc).
Proof using HS Hquiet.
  intros Hsub. unfold execute_delegation. destruct (_ <=? _); [apply holds_ret|].
  destruct (sr_runtime route) as [sub|]; [|apply holds_ret]. unfold delegate.
  apply holds_seq; [quiet (@nil op_class)|]. intros _. apply holds_seq.
  - apply holds_policy. apply holds_seq; [quiet (@nil op_class)|]. intros id.
    apply holds_seq; [apply Hsub|]. intros o. apply holds_ret.
  - intros r. apply holds_seq; [quiet (@nil op_class)|]. intros _. apply holds_ret.
Qed.

(** The only part that executes tools. *)
Context (Htool : forall exec_sub rt i mid iter ps tc,
  (forall rt' i', holds (exec_sub rt' i')) -> made_for rt (in_Tools i) tc ->
  holds (executeSingleTool exec_sub rt i mid iter ps tc)).

Section loop.
Context (exec_sub : Runtime -> AgentLoopInput -> prog loop_outcome) (rt : Runtime).
Context (Hsub : forall rt' i', holds (exec_sub rt' i')).

Lemma holds_run_one i ps mid iter tc :
  made_for rt (in_Tools i) tc -> holds (run_one exec_sub rt i mid iter ps tc).
Proof using HS Htool Hsub.
  intros H. unfold run_one. apply holds_seq; [by apply Htool|]. intros. apply holds_ret.
Qed.

Lemma holds_run_tools i ps mid iter calls :
  Forall (made_for rt (in_Tools i)) calls -> holds (run_tools exec_sub rt i ps mid iter calls).
Proof using HS Htool Hsub.
  intros H. rewrite List.Forall_forall in H.
  unfold run_tools, executeToolsParallel, executeToolsSequential.
  repeat case_match; try apply holds_ret; (apply holds_seq; [|intros; apply holds_ret]).
  - apply holds_par. intros tc Hin. apply holds_run_one. auto.
  - apply holds_each. intros tc Hin. apply holds_run_one. auto.
Qed.

Lemma holds_tool_round i ps mid iter res s :
  Forall (made_for rt (in_Tools i)) (lr_ToolCalls res) ->
  holds (tool_round exec_sub rt i ps mid iter res s).
Proof using HS Hquiet Htool Hsub.
  intros H. unfold tool_round. cbv zeta. apply holds_seq; [by apply holds_run_tools|].
  intros [e|rs]; [apply holds_ret|].
  apply holds_seq; [apply (holds_quiet [CRecord]); [naive_solver|apply within_collect]|]. intros s1.
  apply holds_seq; [apply (holds_quiet [CSnapshot]); [naive_solver|apply within_snapshot]|]. intros _.
  apply holds_seq; [apply (holds_quiet [CBudget; CAwait]); [naive_solver|apply within_enforce_budget]|].
  intros [[e|] t]; simpl; [apply holds_ret|].
  apply holds_seq; [apply (holds_quiet [CAppend]); [naive_solver|apply within_save]|].
  intros. apply holds_ret.
Qed.

Lemma holds_final i ps mem ret iter s : holds (final_call rt i ps mem ret iter s).
Proof using HS Hquiet.
  unfold final_call. apply holds_seq; [quiet (@nil op_class)|]. intros mid.
  apply holds_seq; [apply (holds_quiet [CLlm]); [naive_solver|by apply within_llm]|].
  intros [e|[res fb]]; [apply holds_ret|]. cbv zeta.
  apply holds_seq; [apply (holds_quiet [CBudget; CAwait]); [naive_solver|apply within_check_budget]|].
  intros [[e|] t]; apply holds_ret.
Qed.

Lemma holds_after_calls i ps mem ret orig mid iter res s :
  Forall (made_for rt (in_Tools i)) (lr_ToolCalls res) ->
  holds (after_calls exec_sub rt i ps mem ret orig mid iter res s).
Proof using HS Hquiet Htool Hsub.
  intros H. unfold after_calls. case_match; [|by apply holds_tool_round].
  apply holds_seq; [quiet (@nil op_class)|]. intros d.
  case_match; try apply holds_final. by apply holds_tool_round.
Qed.

Lemma holds_llm_round i ps mem ret orig iter s : holds (llm_round exec_sub rt i ps mem ret orig iter s).
Proof using HS Hquiet Htool Hsub.
  unfold llm_round. apply holds_seq; [quiet (@nil op_class)|]. intros mid.
  apply (holds_bind (fun r => forall res fb, r = inr (res, fb) ->
                       Forall (made_for rt (in_Tools i)) (lr_ToolCalls res))).
  - apply (holds_quiet [CLlm]); [naive_solver|by apply within_llm].
  - intros tr r H res fb Hr. by eapply llm_made_for in H.
  - intros [e|[res fb]] H; [apply holds_ret|]. specialize (H res fb eq_refl). cbv zeta.
    apply holds_seq; [apply (holds_quiet [CBudget; CAwait]); [naive_solver|apply within_check_budget]|].
    intros [[e|] t]; [apply holds_ret|]. simpl.
    destruct (lr_ToolCalls res) eqn:E; [apply holds_ret|]. apply holds_after_calls. by rewrite E.
Qed.

Lemma holds_rounds fuel i ps mem ret orig iter s : holds (rounds exec_sub rt fuel i ps mem ret orig iter s).
Proof using HS Hquiet Htool Hsub.
  revert iter s. induction fuel as [|fuel IH]; intros iter s; simpl; (case_match; [apply holds_ret|]).
  - apply holds_seq; [|intros; apply holds_ret].
    apply (holds_quiet [CFuel]); [naive_solver|]. apply always_call. right. by left.
  - apply holds_seq.
    + unfold iteration. case_match; [|apply holds_llm_round].
      apply holds_seq; [quiet (@nil op_class)|]. intros. apply holds_llm_round.
    + intros [s'|s'|o]; [apply IH|apply holds_ret|apply holds_ret].
Qed.

Lemma holds_body i : holds (executeAgentLoop_body exec_sub rt i).
Proof using HS Hquiet Htool Hsub.
  unfold executeAgentLoop_body. cbv zeta. apply holds_seq; [quiet (@nil op_class)|]. intros now.
  apply holds_seq; [quiet (@nil op_class)|]. intros cb.
  apply holds_seq; [quiet (@nil op_class)|]. intros h.
  apply holds_seq; [quiet (@nil op_class)|]. intros [e|m]; [apply holds_ret|].
  apply holds_seq; [quiet (@nil op_class)|]. intros [e|r]; [apply holds_ret|].
  apply holds_seq; [apply holds_rounds|]. intros [o|s]; [apply holds_ret|].
  apply (holds_quiet [CAppend]); [naive_solver|apply within_finish].
Qed.
End loop.

Lemma holds_loop fuel rt i : holds (executeAgentLoop_fuel fuel rt i).
Proof using HS Hquiet Htool.
  revert rt i. induction fuel as [|fuel IH]; intros rt i; simpl.
  - apply holds_seq; [|intros; apply holds_ret].
    apply (holds_quiet [CFuel]); [naive_solver|]. apply always_call. right. by left.
  - apply holds_body. intros. apply IH.
Qed.
End lift.

(** ** Guards of a tool execution *)

(** The execution of one request's tool: this runtime, the tool registered under the
    request's name, the request's call ID where the call carries metadata. *)
Definition executes (rt : Runtime) (tools : list Tool) (name id : string) (o : Op) : Prop :=
  match o with
  | OToolExecute rt' t m _ =>
      rt' = rt /\ FindToolByName tools name = Some t /\
      (forall meta, m = Some meta -> tm_ToolCallID meta = id)
  | _ => True
  end.

Lemma executes_hook rt tools name id o : is_hook_op o -> executes rt tools name id o.
Proof. by destruct o. Qed.
#[export] Hint Resolve executes_hook : footprint.

Lemma executeTool_executes rt i :
  always (executes rt (ti_Tools i) (ti_ToolName i) (ti_ToolCallID i)) (executeTool rt i).
Proof.
  unfold executeTool, NoteUnknownTool, execute_plain, executeRetrieverTool, tool_failed, tool_completed,
    emit_metric.
  destruct (FindToolByName (ti_Tools i) (ti_ToolName i)) as [t|] eqn:Ef; [|foot].
  foot; apply always_call; simpl; rewrite Ef; (split; [done|]); (split; [done|]); by intros ? [= <-].
Qed.

Lemma ExecuteTool_executes rt i sc :
  always (executes rt (ti_Tools i) (ti_ToolName i) (ti_ToolCallID i)) (ExecuteTool rt i sc).
Proof.
  unfold ExecuteTool. case_match; [|apply executeTool_executes].
  apply (always_mono (within [])).
  - intros o [Ho|[]]. destruct o; simpl in *; done.
  - unfold executeSaveMemoryTool, tool_failed, tool_completed. class_foot.
Qed.

Lemma run_tool_executes rt i iter tc ps :
  always (executes rt (in_Tools i) (tc_ToolName tc) (tc_ToolCallID tc)) (run_tool rt i iter tc ps).
Proof.
  unfold run_tool. apply always_bind; [|intros; apply always_ret].
  apply always_policy; try done. apply (ExecuteTool_executes rt (tool_input i iter tc)).
Qed.

Section guards.
Context (needs : Event -> Prop) (G : Event -> Event -> Prop).
Context (Hneeds : forall e, needs e -> class_of (ev_op e) = CTool).
(** The authorization and the approval of a request guard its execution. *)
Context (Hguard : forall rt tools i tc ta auth tg tok e,
  made_for rt tools tc -> in_Tools i = tools ->
  texec (AuthorizeTool rt tools (tc_ToolName tc) (tc_Args tc)) ta (inr auth) -> ar_Allowed auth = true ->
  texec (approval_gate rt i tc false) tg (inr ApprovalStatusApproved, tok) ->
  executes rt tools (tc_ToolName tc) (tc_ToolCallID tc) (ev_op e) -> needs e ->
  exists f, In f (ta ++ tg) /\ G f e).

Lemma guarded_quiet past tr : Forall (fun e => class_of (ev_op e) <> CTool) tr -> guarded needs G past tr.
Proof using Hneeds.
  intros H. apply guarded_no_needs. rewrite List.Forall_forall in H. intros e He Hn. by apply (H e He), Hneeds.
Qed.

Lemma guarded_within cs {A} (m : prog A) past tr a :
  ~ In CTool cs -> always (within cs) m -> texec m tr a -> guarded needs G past tr.
Proof using Hneeds.
  intros Hcs H Hx. eapply (holds_quiet (guarded needs G past)); [apply guarded_quiet|exact Hcs|exact H|exact Hx].
Qed.

Lemma guarded_each past tr :
  Forall (fun e => needs e -> exists f, In f past /\ G f e) tr -> guarded needs G past tr.
Proof using.
  intros H pre e post -> Hn. apply Forall_app in H as [_ H]. inversion H as [|? ? He _]; subst.
  destruct (He Hn) as (f & ? & ?). exists f. split; [|done]. apply in_or_app. auto.
Qed.

#[export] Instance guarded_shuffleable : Shuffleable (guarded needs G []).
Proof using Hneeds.
  apply Shuffleable_guarded. intros e He Hn. apply Hneeds in Hn. unfold is_sched in He. by rewrite He in Hn.
Qed.

Ltac quiet H cs := eapply (guarded_within cs _ _ _ _); [naive_solver| |exact H]; class_foot.

Lemma gated_guarded exec_sub rt i mid iter ps tc ta auth tr a :
  (forall rt' i', holds (guarded needs G []) (exec_sub rt' i')) ->
  made_for rt (in_Tools i) tc ->
  texec (AuthorizeTool rt (in_Tools i) (tc_ToolName tc) (tc_Args tc)) ta (inr auth) -> ar_Allowed auth = true ->
  texec (gated exec_sub rt i mid iter tc ps) tr a -> guarded needs G ta tr.
Proof using Hneeds Hguard.
  intros Hsub Hmade Ha Hok H. unfold gated in H. cbv zeta in H.
  apply texec_mbind_inv in H as (tg & t1 & [st tok] & -> & Hg & H). simpl in H.
  apply guarded_app; [eapply (guarded_within [CAwait]); [naive_solver|apply within_gate|exact Hg]|].
  apply texec_mbind_inv in H as (t2 & t3 & r & -> & H2 & H3).
  apply guarded_app; [clear H3|quiet H3 (@nil op_class)].
  destruct st as [e|status]; [by apply texec_mret_inv in H2 as [-> _]; apply guarded_nil|].
  unfold dispatch in H2. destruct (String.eqb status ApprovalStatusApproved) eqn:Es.
  2: { repeat case_match; quiet H2 (@nil op_class). }
  apply String.eqb_eq in Es as ->.
  destruct (lookup_route _ _) as [route|] eqn:Er; simpl in Hg;
    apply texec_mbind_inv in H2 as (t4 & t5 & c & -> & H4 & H5);
    (apply guarded_app; [clear H5|quiet H5 (@nil op_class)]).
  - apply (guarded_mono _ _ []); [by intros ? []|].
    eapply (holds_delegation _ (guarded_quiet []) exec_sub rt i route tc); [exact Hsub|exact H4].
  - apply guarded_each. apply (always_spec _ _ (run_tool_executes rt i iter tc ps)) in H4.
    eapply Forall_impl; [exact H4|]. intros e He Hn. by eapply Hguard.
Qed.

Lemma executeSingleTool_guarded exec_sub rt i mid iter ps tc :
  (forall rt' i', holds (guarded needs G []) (exec_sub rt' i')) -> made_for rt (in_Tools i) tc ->
  holds (guarded needs G []) (executeSingleTool exec_sub rt i mid iter ps tc).
Proof using Hneeds Hguard.
  intros Hsub Hmade tr a H. unfold executeSingleTool in H.
  apply texec_mbind_inv in H as (t1 & t2 & u & -> & H1 & H).
  apply guarded_app; [quiet H1 (@nil op_class)|clear H1]. apply (guarded_mono _ _ []); [by intros ? []|].
  destruct (IsUnknownTool _ _); [quiet H (@nil op_class)|].
  apply texec_mbind_inv in H as (t3 & t4 & b & -> & H3 & H).
  apply guarded_app; [quiet H3 (@nil op_class)|clear H3]. apply (guarded_mono _ _ []); [by intros ? []|].
  destruct (b : bool); [quiet H (@nil op_class)|].
  apply texec_mbind_inv in H as (t5 & t6 & a0 & -> & H5 & H).
  apply guarded_app; [quiet H5 (@nil op_class)|].
  destruct a0 as [e|auth]; [by apply texec_mret_inv in H as [-> _]; apply guarded_nil|].
  destruct (ar_Allowed auth) eqn:Eok; simpl in H; [|quiet H (@nil op_class)].
  apply policy_success in H5 as (p & ta & -> & Ha).
  eapply guarded_mono; [|by eapply gated_guarded]. intros f Hf. simpl. apply in_or_app. auto.
Qed.

Lemma loop_guarded rt i : holds (guarded needs G []) (executeAgentLoop rt i).
Proof using Hneeds Hguard.
  apply holds_loop; [apply guarded_shuffleable|apply guarded_quiet|].
  intros exec_sub rt' i' mid iter ps tc Hsub Hm. by apply executeSingleTool_guarded.
Qed.
End guards.

(** *** Authorization *)

Definition needs_authorization (e : Event) : Prop :=
  match ev_op e with OToolExecute _ t _ _ => t_authorizer t = true | _ => False end.

Definition authorized_by (f e : Event) : Prop :=
  match ev_op e with
  | OToolExecute rt t _ _ => exists args reason, f = Ev (S := agent_sig) (OToolAuthorize rt t args) (inr (true, reason))
  | _ => True
  end.

Lemma authorization_event rt tools name args ta auth t :
  FindToolByName tools name = Some t -> t_authorizer t = true ->
  texec (AuthorizeTool rt tools name args) ta (inr auth) -> ar_Allowed auth = true ->
  exists reason, In (Ev (S := agent_sig) (OToolAuthorize rt t args) (inr (true, reason))) ta.
Proof.
  intros Hf Ht H Hok. unfold AuthorizeTool in H. rewrite Hf, Ht in H. simpl in H.
  apply texec_result_inv in H as [(? & ? & _)|(t1 & t2 & d & -> & H1 & H)]; [done|].
  call_inv H1. apply texec_mret_inv in H as [-> [= ->]]. destruct d as [[|] reason]; [|done].
  exists reason. by left.
Qed.

(** C2: No tool with an authorizer ever executes before its authorizer allowed it in the same
    run: on every trace of the loop, sub-agents and parallel calls included, each execution
    is preceded by an allowing answer of that tool's authorizer, asked by the same runtime. *)
Theorem tools_execute_authorized rt i tr o :
  texec (executeAgentLoop rt i) tr o -> guarded needs_authorization authorized_by [] tr.
Proof.
  apply loop_guarded.
  - intros e. unfold needs_authorization. by destruct (ev_op e).
  - intros rt' tools i' tc ta auth tg tok [eo ea] _ _ Ha Hok _ He Hn.
    unfold needs_authorization, authorized_by in *. simpl in *. destruct eo; try done.
    destruct He as (-> & Hf & _). destruct (authorization_event _ _ _ _ _ _ _ Hf Hn Ha Hok) as [reason Hin].
    eexists. split; [apply in_or_app; left; exact Hin|]. eauto.
Qed.

(** *** Approval *)

Definition needs_approval (e : Event) : Prop :=
  match ev_op e with OToolExecute rt t _ _ => RequiresApproval rt t = true | _ => False end.

Definition approved_by (f e : Event) : Prop :=
  match ev_op e with
  | OToolExecute rt t m _ =>
      exists id display args token timeout,
        f = Ev (S := agent_sig)
              (OAwaitApproval (ToolApproval (as_Name (rt_AgentSpec rt)) id (t_Name t) display args token) timeout)
              (Resolved ApprovalStatusApproved) /\
        forall meta, m = Some meta -> tm_ToolCallID meta = id
  | _ => True
  end.

Lemma approval_event_in rt i tc tg tok :
  tc_NeedsApproval tc = true -> texec (approval_gate rt i tc false) tg (inr ApprovalStatusApproved, tok) ->
  exists token timeout,
    In (Ev (S := agent_sig)
          (OAwaitApproval (ToolApproval (as_Name (rt_AgentSpec rt)) (tc_ToolCallID tc) (tc_ToolName tc)
                             (tc_ToolDisplayName tc) (tc_Args tc) token) timeout)
          (Resolved ApprovalStatusApproved)) tg.
Proof.
  intros Hn H. unfold approval_gate in H. rewrite Hn in H. simpl in H.
  destruct (_ && _); [by apply texec_mret_inv in H as [_ [=]]|].
  apply texec_mbind_inv in H as (t1 & t2 & token & -> & _ & H).
  apply texec_mbind_inv in H as (t3 & t4 & status & -> & H3 & H).
  apply texec_mret_inv in H as [-> [= <- _]]. unfold await_tool_approval in H3. cbv zeta in H3.
  apply texec_mbind_inv in H3 as (? & ? & ? & -> & _ & H).
  apply texec_mbind_inv in H as (? & ? & ? & -> & _ & H).
  apply texec_mbind_inv in H as (? & ? & ? & -> & _ & H).
  apply texec_mbind_inv in H as (? & ? & out & -> & H1 & H). call_inv H1.
  apply texec_mret_inv in H as [-> H]. destruct out; try done. injection H as ->.
  exists token, (Some (approvalTaskTimeout rt)). rewrite !in_app_iff. simpl. auto 10.
Qed.

(** C1: No tool that requires approval ever executes unapproved: on every trace of the loop,
    sub-agents and parallel calls included, each execution is preceded by an approval
    request for that tool, made for the same agent and the same call, that was answered
    "approved". *)
Theorem tools_execute_approved rt i tr o :
  texec (executeAgentLoop rt i) tr o -> guarded needs_approval approved_by [] tr.
Proof.
  apply loop_guarded.
  - intros e. unfold needs_approval. by destruct (ev_op e).
  - intros rt' tools i' tc ta auth tg tok [eo ea] [c (_ & Hname & _ & Hc)] _ _ _ Hg He Hn.
    unfold needs_approval, approved_by in *. simpl in *. destruct eo; try done.
    destruct He as (-> & Hf & Hid). rewrite <- Hname, Hf in Hc. destruct Hc as (_ & Hna & _).
    rewrite Hn in Hna. destruct (approval_event_in _ _ _ _ _ Hna Hg) as (token & timeout & Hin).
    apply FindToolByName_Some in Hf as [_ ->].
    eexists. split; [apply in_or_app; right; exact Hin|].
    eexists _, _, _, _, _. split; [done|]. exact Hid.
Qed.
