(* ===== verification/LoopBounds.v ===== *)
(** Termination and bounds of the agent loop: the fuel of the model always suffices, the
    number of model rounds is bounded by the configured maximum, sub-agents nest at most to
    the configured depth, and a batch of tool calls is answered call by call. *)
From S2P Require Import Prelude GoLib Types Codec Prog Policies MemoryConfig Budget CircuitBreaker Telemetry Events Effects Hooks ErrorControl LLM Memory Tools Retry AgentLoop LoopFacts.

#[local] Open Scope string_scope.
#[local] Open Scope list_scope.
#[local] Open Scope Z_scope.

(** ** A batch is answered call by call *)

(** [m] is the tool message that answers [tc]. *)
Definition answers (tc : ToolCallRequest) (m : Message) : Prop :=
  m_Role m = MessageRoleTool /\ m_ToolName m = tc_ToolName tc /\ m_ToolCallID m = tc_ToolCallID tc /\
  m_ToolCalls m = [].

Lemma answers_tool_message tc content : answers tc (tool_message content (tc_ToolName tc) (tc_ToolCallID tc)).
Proof. by repeat split. Qed.

(** The result of a call without error is its tool message. *)
Definition answered (tc : ToolCallRequest) (r : toolResult * option error) : Prop :=
  r.2 = None -> answers tc (tr_message r.1).

Lemma answered_error tc e : answered tc (hard_error e).
Proof. done. Qed.

Lemma finish_answered i mid tc content failed :
  spec (finish_tool i mid tc content failed) (fun _ r => answered tc r).
Proof.
  intros tr r (t1 & t2 & u & _ & _ & H)%texec_mbind_inv. apply texec_mret_inv in H as [_ ->].
  intros _. apply answers_tool_message.
Qed.

Lemma then_answered {A} tc (m : prog A) (f : A -> prog (toolResult * option error)) :
  (forall a, spec (f a) (fun _ r => answered tc r)) -> spec (m ≫= f) (fun _ r => answered tc r).
Proof. intros Hf tr r (t1 & t2 & a & _ & _ & H)%texec_mbind_inv. by eapply Hf. Qed.

Section batch.
Context (exec_sub : Runtime -> AgentLoopInput -> prog loop_outcome) (rt : Runtime) (i : AgentLoopInput).

Lemma gated_answered mid iter tc ps : spec (gated exec_sub rt i mid iter tc ps) (fun _ r => answered tc r).
Proof.
  unfold gated. cbv zeta. apply then_answered. intros [st tok]. simpl.
  eapply (spec_bind _ _ (fun _ r => answered tc r)).
  - destruct st as [e|status]; [by apply spec_mret|]. unfold dispatch.
    destruct (String.eqb status ApprovalStatusApproved).
    + destruct (lookup_route _ _); apply then_answered; intros; apply finish_answered.
    + repeat case_match; try apply finish_answered. by apply spec_mret.
  - intros t1 r Hr. apply (spec_bind _ _ (fun _ _ => True)); [done|]. intros _ _ _. by apply spec_mret.
Qed.

Lemma single_answered mid iter ps tc :
  spec (executeSingleTool exec_sub rt i mid iter ps tc) (fun _ r => answered tc r).
Proof.
  unfold executeSingleTool. apply then_answered. intros _.
  destruct (IsUnknownTool _ _); [apply then_answered; intros; apply finish_answered|].
  apply then_answered. intros b. destruct (b : bool); [apply then_answered; intros; apply finish_answered|].
  apply then_answered. intros [e|auth]; [by apply spec_mret|].
  destruct (negb _); [apply finish_answered|apply gated_answered].
Qed.

Lemma run_one_answers mid iter ps tc :
  spec (run_one exec_sub rt i mid iter ps tc) (fun _ r => True /\ answers tc (tr_message r)).
Proof.
  unfold run_one. eapply spec_bind; [apply single_answered|].
  intros t1 r Hr. apply spec_mret. split; [done|]. unfold settle.
  destruct r.2 eqn:E; [apply answers_tool_message|by apply Hr].
Qed.

(** What a batch returns. *)
Definition batch_answered (calls : list ToolCallRequest) (r : result (list toolResult)) : Prop :=
  forall rs, r = inr rs -> Forall2 (fun tc x => answers tc (tr_message x)) calls rs.

Lemma run_tools_answered ps mid iter calls :
  spec (run_tools exec_sub rt i ps mid iter calls) (fun _ r => batch_answered calls r).
Proof.
  unfold run_tools, executeToolsParallel, executeToolsSequential.
  repeat case_match; [| |by apply spec_mret]; 
    (apply (spec_bind _ _ (fun _ rs => True /\ Forall2 (fun tc x => answers tc (tr_message x)) calls rs));
     [|intros ? rs [_ Hr]; apply spec_mret; by intros ? [= <-]]).
  - apply (spec_par _ (fun _ => True) (fun tc x => answers tc (tr_message x))). intros tc _. apply run_one_answers.
  - apply (spec_traverse _ (fun _ => True) (fun tc x => answers tc (tr_message x))); [done|done|].
    intros tc _. apply run_one_answers.
Qed.
End batch.

(** C25: A batch of tool calls is answered exactly: whether executed in parallel (on every
    interleaving) or sequentially, and whatever is denied, rejected, skipped, unknown or
    failed, there is one tool message per call, in the order of the calls, carrying the
    call's ID and tool name. *)
Theorem tool_batch_answered exec_sub rt i ps mid iter calls tr rs :
  texec (run_tools exec_sub rt i ps mid iter calls) tr (inr rs) ->
  Forall2 (fun tc x => answers tc (tr_message x)) calls rs.
Proof. intros H. by eapply run_tools_answered. Qed.

(** ** Loop states *)

Definition run_of (s : loop_state) : RunTelemetry := at_Run (ls_telemetry s).
Definition llm_calls (s : loop_state) : Z := rt_TotalLLMCalls (run_of s).
Definition finish_of (s : loop_state) : string := rt_FinishReason (run_of s).

(** [s'] differs from [s] in messages, persistence and tool/storage telemetry only. *)
Definition same_control (s s' : loop_state) : Prop :=
  ls_maxIter s' = ls_maxIter s /\ ls_extended s' = ls_extended s /\ run_of s' = run_of s /\
  ls_llmUsage s' = ls_llmUsage s /\ ls_useFallback s' = ls_useFallback s /\ ls_lastContent s' = ls_lastContent s.

Lemma record_tool_run t tc r : at_Run (record_tool t tc r) = at_Run t.
Proof. unfold record_tool. by repeat case_match. Qed.

Lemma collect_results_spec i calls rs s :
  length calls = length rs ->
  spec (collect_results i calls rs s) (fun _ s' =>
    ls_messages s' = ls_messages s ++ map tr_message rs /\ ls_persisted s' = ls_persisted s /\ same_control s s').
Proof.
  revert rs s. induction calls as [|tc calls IH]; intros rs s Hlen; destruct rs as [|r rs]; try done; simpl.
  - apply spec_mret. by rewrite app_nil_r.
  - apply (spec_bind _ _ (fun _ _ => True)); [done|]. intros _ _ _.
    eapply spec_conseq; [apply IH; simpl in Hlen; lia|]. simpl. intros _ s' (-> & -> & Hc).
    split; [by rewrite <- app_assoc|]. split; [done|].
    destruct Hc as (? & ? & Hr & ? & ? & ?). repeat split; try done. rewrite Hr. apply record_tool_run.
Qed.

Lemma enforce_spec rt i t :
  spec (enforceBudgetIfExceeded rt i t) (fun _ b => b.1 = None -> b.2 = t).
Proof.
  intros tr b H Hb. unfold enforceBudgetIfExceeded in H.
  destruct (in_BudgetTracker i); [|by apply texec_mret_inv in H as [_ ->]].
  destruct (negb _); [by apply texec_mret_inv in H as [_ ->]|].
  apply texec_mbind_inv in H as (? & ? & [err|] & _ & _ & H); [|by apply texec_mret_inv in H as [_ ->]].
  apply texec_mbind_inv in H as (? & ? & e & _ & _ & H). apply texec_mret_inv in H as [_ ->].
  unfold with_budget_stop in *. simpl in *. by subst.
Qed.

Lemma check_spec rt i t u :
  spec (checkBudget rt i t u) (fun _ b => b.1 = None -> b.2 = t).
Proof.
  intros tr b H Hb. unfold checkBudget in H.
  destruct (in_BudgetTracker i); [|by apply texec_mret_inv in H as [_ ->]].
  apply texec_mbind_inv in H as (? & ? & [err|] & _ & _ & H); [|by apply texec_mret_inv in H as [_ ->]].
  destruct (negb _); [by apply texec_mret_inv in H as [_ ->]|].
  apply texec_mbind_inv in H as (? & ? & e & _ & _ & H). apply texec_mret_inv in H as [_ ->].
  unfold with_budget_stop in *. simpl in *. by subst.
Qed.

Lemma save_spec rt i s :
  spec (save_iteration rt i s) (fun _ s' => ls_messages s' = ls_messages s /\ same_control s s').
Proof.
  intros tr s' H. unfold save_iteration in H. destruct (_ && _).
  - apply texec_mbind_inv in H as (? & ? & u & _ & _ & H). by apply texec_mret_inv in H as [_ ->].
  - by apply texec_mret_inv in H as [_ ->].
Qed.

(** ** Rounds *)

(** Complete rounds of a conversation: an assistant message with tool calls, followed by
    one matching tool message per call, in order. *)
Definition call_answered (c : option ToolCall) (m : Message) : Prop :=
  match c with
  | Some c => m_Role m = MessageRoleTool /\ m_ToolName m = c_ToolName c /\ m_ToolCallID m = c_ToolCallID c /\
              m_ToolCalls m = []
  | None => False
  end.

Inductive paired : list Message -> Prop :=
| paired_nil : paired []
| paired_round ms a tools :
    paired ms -> m_Role a = MessageRoleAssistant -> m_ToolCalls a <> [] ->
    Forall2 call_answered (m_ToolCalls a) tools -> paired (ms ++ a :: tools).

Lemma answers_paired calls rs :
  Forall2 (fun tc x => answers tc (tr_message x)) calls rs ->
  Forall2 call_answered (map call_message calls) (map tr_message rs).
Proof. induction 1 as [|tc r calls rs H _ IH]; constructor; [by destruct H as (? & ? & ? & ?)|done]. Qed.

(** At the head of the loop, before round [iter] of a run bounded by [orig]: the bound may
    have been extended once, at most doubling it; one model call was made per round; the
    history is followed by complete rounds. *)
Definition bound_inv (orig : Z) (s : loop_state) : Prop :=
  if ls_extended s then orig < ls_maxIter s <= 2 * orig else ls_maxIter s = orig.

Record head_inv (orig : Z) (hist : list Message) (iter : Z) (s : loop_state) : Prop := {
  hi_bound : bound_inv orig s;
  hi_iter : 0 <= iter < ls_maxIter s;
  hi_calls : llm_calls s = iter;
  hi_finish : finish_of s = FinishReasonComplete;
  hi_rounds : exists rest, ls_messages s = hist ++ rest /\ paired rest }.

(** After the loop: the model answered, either in some round or in the call without tools
    that follows the last one. *)
Record done_inv (orig : Z) (hist : list Message) (s : loop_state) : Prop := {
  di_bound : bound_inv orig s;
  di_calls : finish_of s = FinishReasonComplete /\ 1 <= llm_calls s <= ls_maxIter s \/
             finish_of s = FinishReasonMaxIterations /\ llm_calls s = ls_maxIter s + 1;
  di_rounds : exists rest, ls_messages s = hist ++ rest ++ [text_message MessageRoleAssistant (ls_lastContent s)] /\
                paired rest }.

Definition round_inv (orig : Z) (hist : list Message) (iter : Z) (r : round_result) : Prop :=
  match r with
  | NextRound s => head_inv orig hist (iter + 1) s
  | Done s => done_inv orig hist s
  | Return (Finished _) => False
  | Return (Stopped _ _) => True
  end.

Section rounds.
Context (exec_sub : Runtime -> AgentLoopInput -> prog loop_outcome) (rt : Runtime).
Context (orig : Z) (hist : list Message).

(** The state after the model call of a round. *)
Record called_inv (iter : Z) (s : loop_state) : Prop := {
  ca_bound : bound_inv orig s;
  ca_iter : 0 <= iter < ls_maxIter s;
  ca_calls : llm_calls s = iter + 1;
  ca_finish : finish_of s = FinishReasonComplete;
  ca_rounds : exists rest, ls_messages s = hist ++ rest /\ paired rest }.

Lemma tool_round_inv i ps mid iter res s :
  called_inv iter s -> iter + 1 < ls_maxIter s -> lr_ToolCalls res <> [] ->
  spec (tool_round exec_sub rt i ps mid iter res s) (fun _ r => round_inv orig hist iter r).
Proof using.
  intros [Hb Hi Hc Hf (rest & Hm & Hp)] Hlt Hne tr r H. unfold tool_round in H. cbv zeta in H.
  apply texec_mbind_inv in H as (? & ? & [e|rs] & _ & H1 & H); [by apply texec_mret_inv in H as [_ ->]|].
  apply run_tools_answered in H1. specialize (H1 rs eq_refl).
  apply texec_mbind_inv in H as (? & ? & s1 & _ & H2 & H).
  apply collect_results_spec in H2 as (Hms & _ & Hs1); [|by eapply Forall2_length].
  apply texec_mbind_inv in H as (? & ? & u & _ & _ & H).
  apply texec_mbind_inv in H as (? & ? & [[e|] t] & _ & H3 & H); simpl in H;
    [by apply texec_mret_inv in H as [_ ->]|].
  apply enforce_spec in H3. specialize (H3 eq_refl). simpl in H3. subst t.
  apply texec_mbind_inv in H as (? & ? & s2 & _ & H4 & H). apply texec_mret_inv in H as [_ ->].
  apply save_spec in H4 as (Hm2 & Hs2).
  destruct Hs1 as (E1 & E2 & E3 & _). destruct Hs2 as (F1 & F2 & F3 & _).
  simpl in *. unfold llm_calls, finish_of, run_of, bound_inv in *. simpl in *.
  constructor; unfold llm_calls, finish_of, run_of, bound_inv in *.
  - by rewrite F2, F1, E2, E1.
  - rewrite F1, E1. lia.
  - by rewrite F3, E3.
  - by rewrite F3, E3.
  - exists (rest ++ assistant_message res :: map tr_message rs). split.
    + rewrite Hm2, Hms, Hm. by rewrite <- !app_assoc.
    + constructor; [done|done|simpl; by destruct (lr_ToolCalls res)|]. by apply answers_paired.
Qed.

Lemma final_call_inv i ps mem ret iter s :
  called_inv iter s -> iter + 1 = ls_maxIter s ->
  spec (final_call rt i ps mem ret iter s) (fun _ r => round_inv orig hist iter r).
Proof using.
  intros [Hb Hi Hc Hf (rest & Hm & Hp)] Heq tr r H. unfold final_call in H.
  apply texec_mbind_inv in H as (? & ? & mid & _ & _ & H).
  apply texec_mbind_inv in H as (? & ? & [e|[res fb]] & _ & _ & H); [by apply texec_mret_inv in H as [_ ->]|].
  cbv zeta in H.
  apply texec_mbind_inv in H as (? & ? & [[e|] t] & _ & H3 & H); simpl in H;
    apply texec_mret_inv in H as [_ ->]; [done|].
  apply check_spec in H3. specialize (H3 eq_refl). simpl in H3. subst t.
  constructor; unfold llm_calls, finish_of, run_of, bound_inv in *; simpl in *.
  - done.
  - right. split; [done|]. lia.
  - exists rest. split; [by rewrite Hm, <- app_assoc|done].
Qed.

Lemma after_calls_inv i ps mem ret mid iter res s :
  called_inv iter s -> lr_ToolCalls res <> [] ->
  spec (after_calls exec_sub rt i ps mem ret orig mid iter res s) (fun _ r => round_inv orig hist iter r).
Proof using.
  intros Hs Hne. pose proof Hs as [Hb Hi Hc Hf Hr]. unfold after_calls. destruct (iter =? _) eqn:E; crush_bool.
  - intros tr r (? & ? & d & _ & Hd & H)%texec_mbind_inv. apply DecideMaxIterations_inv in Hd. simpl in Hd.
    destruct Hd as [Ha|(Ha & Hx & Hd)]; rewrite Ha in H.
    + eapply final_call_inv in H; [done|done|lia].
    + assert (Ho : EffectiveMaxIterations orig = orig).
      { unfold bound_inv in Hb. rewrite Hx in Hb. unfold EffectiveMaxIterations. destruct (_ <=? _) eqn:E2; crush_bool; lia. }
      rewrite Ho in Hd. eapply tool_round_inv in H; [done| |simpl; lia|done].
      constructor; try done.
      * unfold bound_inv in *. simpl. rewrite Hx in Hb. lia.
      * simpl. lia.
  - apply tool_round_inv; [done|lia|done].
Qed.

Lemma llm_round_inv i ps mem ret iter s :
  head_inv orig hist iter s ->
  spec (llm_round exec_sub rt i ps mem ret orig iter s) (fun _ r => round_inv orig hist iter r).
Proof using.
  intros [Hb Hi Hc Hf (rest & Hm & Hp)] tr r H. unfold llm_round in H.
  apply texec_mbind_inv in H as (? & ? & mid & _ & _ & H).
  apply texec_mbind_inv in H as (? & ? & [e|[res fb]] & _ & _ & H); [by apply texec_mret_inv in H as [_ ->]|].
  cbv zeta in H.
  apply texec_mbind_inv in H as (? & ? & [[e|] t] & _ & H3 & H); simpl in H;
    [by apply texec_mret_inv in H as [_ ->]|].
  apply check_spec in H3. specialize (H3 eq_refl). simpl in H3. subst t.
  destruct (lr_ToolCalls res) eqn:Ec.
  - apply texec_mret_inv in H as [_ ->].
    constructor; unfold llm_calls, finish_of, run_of, bound_inv in *; simpl in *.
    + done.
    + left. split; [done|]. lia.
    + exists rest. split; [by rewrite Hm, <- app_assoc|done].
  - eapply after_calls_inv in H; [done| |by rewrite Ec].
    constructor; unfold llm_calls, finish_of, run_of, bound_inv in *; simpl in *; first [done|lia|eauto].
Qed.

Lemma iteration_inv i ps mem ret iter s :
  head_inv orig hist iter s ->
  spec (iteration exec_sub rt i ps mem ret orig iter s) (fun _ r => round_inv orig hist iter r).
Proof using.
  intros Hs. unfold iteration. destruct (in_circuitBreaker i); [|by apply llm_round_inv].
  intros tr r (? & ? & now & _ & _ & H)%texec_mbind_inv. by eapply llm_round_inv in H.
Qed.

(** The whole loop, for any fuel that reaches the largest possible bound. *)
Lemma rounds_inv fuel i ps mem ret iter s :
  head_inv orig hist iter s -> 2 * orig <= iter + Z.of_nat fuel ->
  spec (rounds exec_sub rt fuel i ps mem ret orig iter s) (fun _ r =>
    match r with inr s' => done_inv orig hist s' | inl (Finished _) => False | inl (Stopped _ _) => True end).
Proof using.
  revert iter s. induction fuel as [|fuel IH]; intros iter s Hs Hfuel tr r H; simpl in H.
  - destruct Hs as [Hb Hi _ _ _]. unfold bound_inv in Hb. destruct (ls_extended s); exfalso; lia.
  - destruct (ls_maxIter s <=? iter) eqn:E; crush_bool; [destruct Hs; lia|].
    apply texec_mbind_inv in H as (? & ? & rr & _ & H1 & H). eapply iteration_inv in H1; [|done].
    destruct rr as [s'|s'|o]; simpl in H1.
    + apply IH in H; [done|done|lia].
    + by apply texec_mret_inv in H as [_ ->].
    + apply texec_mret_inv in H as [_ ->]. by destruct o.
Qed.
End rounds.

(** [finish_run] reports the state the loop ended in. *)
Lemma finish_run_spec rt i ps s :
  spec (finish_run rt i ps s) (fun _ o => exists r, o = Finished r /\
    al_Content r = ls_lastContent s /\ al_LLMUsage r = ls_llmUsage s /\
    at_Tools (al_Telemetry r) = at_Tools (ls_telemetry s) /\
    rt_TotalLLMCalls (at_Run (al_Telemetry r)) = llm_calls s /\
    rt_FinishReason (at_Run (al_Telemetry r)) = finish_of s).
Proof.
  intros tr o H. unfold finish_run in H.
  apply texec_mbind_inv in H as (? & ? & u & _ & _ & H).
  apply texec_mbind_inv in H as (? & ? & t & _ & Ht & H).
  apply texec_mbind_inv in H as (? & ? & now & _ & _ & H). apply texec_mret_inv in H as [_ ->].
  eexists. split; [done|]. simpl.
  assert (Hr : at_Run t = at_Run (ls_telemetry s) /\ at_Tools t = at_Tools (ls_telemetry s)).
  { destruct (RunEndMemoryStoreEnabled rt); [|by apply texec_mret_inv in Ht as [_ ->]].
    apply texec_mbind_inv in Ht as (? & ? & e & _ & _ & Ht). apply texec_mret_inv in Ht as [_ ->]. by destruct e. }
  destruct Hr as [Hr1 Hr2]. rewrite Hr1, Hr2. done.
Qed.

(** ** The whole run *)

Lemma load_history_spec rt i :
  spec (load_history rt i) (fun _ h => exists conv,
    h = (conv ++ [text_message MessageRoleUser (in_UserPrompt i)], length conv) /\
    (conversationMemoryEnabled rt i = false -> conv = [])).
Proof.
  intros tr h H. unfold load_history in H. cbv zeta in H. destruct (conversationMemoryEnabled rt i).
  - apply texec_mbind_inv in H as (? & ? & r & _ & _ & H). apply texec_mret_inv in H as [_ ->].
    destruct r as [e|conv]; [by exists []|by exists conv].
  - apply texec_mret_inv in H as [_ ->]. by exists [].
Qed.

Definition max_iter (rt : Runtime) : Z := EffectiveMaxIterations (ac_MaxIterations (rt_AgentConfig rt)).

Lemma initial_head_inv orig ms n t :
  1 <= orig -> rt_TotalLLMCalls (at_Run t) = 0 -> rt_FinishReason (at_Run t) = FinishReasonComplete ->
  head_inv orig ms 0 (initial_state orig ms n t).
Proof.
  intros Ho Hc Hf. constructor.
  - reflexivity.
  - simpl. lia.
  - exact Hc.
  - exact Hf.
  - exists []. split; [by rewrite app_nil_r|constructor].
Qed.

(** The loop's round bound is always within reach of [round_fuel]. *)
Lemma round_fuel_enough orig : 2 * orig <= 0 + Z.of_nat (round_fuel orig).
Proof. unfold round_fuel. lia. Qed.

(** A finished run, decomposed: the state the loop ended in and the result made of it. *)
Lemma body_finished exec_sub rt i tr r :
  texec (executeAgentLoop_body exec_sub rt i) tr (Finished r) ->
  exists conv s,
    done_inv (max_iter rt) (conv ++ [text_message MessageRoleUser (in_UserPrompt i)]) s /\
    al_Content r = ls_lastContent s /\ al_LLMUsage r = ls_llmUsage s /\
    rt_TotalLLMCalls (at_Run (al_Telemetry r)) = llm_calls s /\
    rt_FinishReason (at_Run (al_Telemetry r)) = finish_of s.
Proof.
  intros H. unfold executeAgentLoop_body in H. cbv zeta in H.
  apply texec_mbind_inv in H as (? & ? & now & _ & _ & H).
  apply texec_mbind_inv in H as (? & ? & cb & _ & _ & H).
  apply texec_mbind_inv in H as (? & ? & h & _ & Hh & H).
  apply load_history_spec in Hh as (conv & -> & _). simpl in H.
  apply texec_mbind_inv in H as (? & ? & [e|m] & _ & _ & H); [by apply texec_mret_inv in H as [_ [=]]|].
  apply texec_mbind_inv in H as (? & ? & [e|rr] & _ & _ & H); [by apply texec_mret_inv in H as [_ [=]]|].
  apply texec_mbind_inv in H as (? & ? & o & _ & Ho & H).
  eapply rounds_inv in Ho; [|apply initial_head_inv; [apply EffectiveMaxIterations_pos|done|done]|apply round_fuel_enough].
  destruct o as [[r'|p e]|s]; [done|by apply texec_mret_inv in H as [_ [=]]|].
  apply finish_run_spec in H as (r' & [= <-] & Hc & Hu & _ & Hn & Hf).
  exists conv, s. split; [exact Ho|]. by split_and!.
Qed.

Lemma executeAgentLoop_unfold rt i :
  executeAgentLoop rt i =
  executeAgentLoop_body (executeAgentLoop_fuel (Z.to_nat (in_MaxSubAgentDepth i - in_SubAgentDepth i))) rt i.
Proof. reflexivity. Qed.

(** A finished run reports a bounded, consistent account of its model calls: with [m] the
    effective iteration limit, some bound [M] between [m] and [2m] (above [m] only through
    one granted extension) separates a run that ended with an answer, after 1 to [M] calls,
    from one that was cut at the bound, after exactly [M + 1] calls. *)
Theorem finished_calls_bounded rt i tr r :
  texec (executeAgentLoop rt i) tr (Finished r) ->
  let calls := rt_TotalLLMCalls (at_Run (al_Telemetry r)) in
  let reason := rt_FinishReason (at_Run (al_Telemetry r)) in
  exists M, max_iter rt <= M <= 2 * max_iter rt /\
    (reason = FinishReasonComplete /\ 1 <= calls <= M \/
     reason = FinishReasonMaxIterations /\ calls = M + 1).
Proof.
  intros H. simpl. rewrite executeAgentLoop_unfold in H. apply body_finished in H as (conv & s & [Hb Hc _] & _ & _ & -> & ->).
  exists (ls_maxIter s). split; [|done]. pose proof (EffectiveMaxIterations_pos (ac_MaxIterations (rt_AgentConfig rt))).
  unfold bound_inv, max_iter in *. destruct (ls_extended s); lia.
Qed.

(** ** Footprint of a run *)

(** If [P] holds of unclassified, model, tool, budget and approval effects, of what the
    conversation parts perform and of the children, it holds of every effect of a run: the
    rounds never exhaust their fuel. *)
Section footprint.
Context (P : Op -> Prop) (HP : forall o, within [CLlm; CTool; CBudget; CAwait; CRecord; CSnapshot] o -> P o).
Context (exec_sub : Runtime -> AgentLoopInput -> prog loop_outcome) (rt : Runtime).
Context (I : AgentLoopInput -> Prop) (HI : forall i cb now, I i -> I (with_breaker i cb now)).
Context (Hsub : forall i name route tc sub id, I i -> lookup_route (in_SubAgentRoutes i) name = Some route ->
  sr_runtime route = Some sub -> in_SubAgentDepth i < in_MaxSubAgentDepth i ->
  always P (exec_sub sub (sub_input i route tc id))).
Context (Hsave : forall i s, I i -> always P (save_iteration rt i s)).
Context (Hfinish : forall i ps s, I i -> always P (finish_run rt i ps s)).

Lemma foot_within cs {A} (m : prog A) :
  (forall c, In c cs -> In c [CLlm; CTool; CBudget; CAwait; CRecord; CSnapshot]) -> always (within cs) m -> always P m.
Proof using HP. intros Hcs. apply always_mono. intros o [Ho|Ho]; apply HP; [by left|right; auto]. Qed.

Ltac quiet := apply (foot_within []); [by intros ? []|class_foot].

Lemma foot_tool_round i ps mid iter res s : I i -> always P (tool_round exec_sub rt i ps mid iter res s).
Proof using HP Hsub Hsave.
  intros Hi. unfold tool_round. cbv zeta. apply always_bind.
  { apply batch_run_tools; [|by eauto]. intros o Ho. apply HP. unfold within in *. simpl in *. tauto. }
  intros [e|rs]; [apply always_ret|].
  apply always_bind; [apply (foot_within [CRecord]); [simpl; tauto|apply within_collect]|]. intros s1.
  apply always_bind; [apply (foot_within [CSnapshot]); [simpl; tauto|apply within_snapshot]|]. intros _.
  apply always_bind; [apply (foot_within [CBudget; CAwait]); [simpl; tauto|apply within_enforce_budget]|].
  intros [[e|] t]; simpl; [apply always_ret|].
  apply always_bind; [by apply Hsave|]. intros. apply always_ret.
Qed.

Lemma foot_final i ps mem ret iter s : always P (final_call rt i ps mem ret iter s).
Proof using HP.
  unfold final_call. apply always_bind; [quiet|]. intros mid.
  apply always_bind; [apply (foot_within [CLlm]); [simpl; tauto|by apply within_llm]|].
  intros [e|[res fb]]; [apply always_ret|]. cbv zeta.
  apply always_bind; [apply (foot_within [CBudget; CAwait]); [simpl; tauto|apply within_check_budget]|].
  intros [[e|] t]; apply always_ret.
Qed.

Lemma foot_after_calls i ps mem ret orig mid iter res s :
  I i -> always P (after_calls exec_sub rt i ps mem ret orig mid iter res s).
Proof using HP Hsub Hsave.
  intros Hi. unfold after_calls. case_match; [|by apply foot_tool_round].
  apply always_bind; [quiet|]. intros d.
  case_match; try apply foot_final. by apply foot_tool_round.
Qed.

Lemma foot_llm_round i ps mem ret orig iter s :
  I i -> always P (llm_round exec_sub rt i ps mem ret orig iter s).
Proof using HP Hsub Hsave.
  intros Hi. unfold llm_round. apply always_bind; [quiet|]. intros mid.
  apply always_bind; [apply (foot_within [CLlm]); [simpl; tauto|by apply within_llm]|].
  intros [e|[res fb]]; [apply always_ret|]. cbv zeta.
  apply always_bind; [apply (foot_within [CBudget; CAwait]); [simpl; tauto|apply within_check_budget]|].
  intros [[e|] t]; [apply always_ret|]. simpl.
  destruct (lr_ToolCalls res); [apply always_ret|by apply foot_after_calls].
Qed.

Lemma foot_iteration i ps mem ret orig iter s :
  I i -> always P (iteration exec_sub rt i ps mem ret orig iter s).
Proof using HP HI Hsub Hsave.
  intros Hi. unfold iteration. destruct (in_circuitBreaker i); [|by apply foot_llm_round].
  apply always_bind; [quiet|]. intros now. by apply foot_llm_round, HI.
Qed.

Lemma foot_rounds fuel i ps mem ret orig hist iter s :
  I i -> head_inv orig hist iter s -> 2 * orig <= iter + Z.of_nat fuel ->
  always P (rounds exec_sub rt fuel i ps mem ret orig iter s).
Proof using HP HI Hsub Hsave.
  intros Hi. revert iter s. induction fuel as [|fuel IH]; intros iter s Hs Hf; simpl.
  - destruct Hs as [Hb Hlt _ _ _]. unfold bound_inv in Hb. destruct (ls_extended s); exfalso; lia.
  - destruct (ls_maxIter s <=? iter); [apply always_ret|].
    apply always_bind_spec; [by apply foot_iteration|]. intros tr r Hr. eapply iteration_inv in Hr; [|done].
    destruct r; [apply IH; [done|lia]|apply always_ret|apply always_ret].
Qed.

Lemma foot_body i : I i -> always P (executeAgentLoop_body exec_sub rt i).
Proof using HP HI Hsub Hsave Hfinish.
  intros Hi. unfold executeAgentLoop_body. cbv zeta. apply always_bind; [quiet|]. intros now.
  apply always_bind; [quiet|]. intros cb. apply always_bind; [quiet|]. intros h.
  apply always_bind; [quiet|]. intros [e|m]; [apply always_ret|].
  apply always_bind; [quiet|]. intros [e|r]; [apply always_ret|].
  apply always_bind.
  - eapply foot_rounds; [by apply HI| |apply round_fuel_enough].
    apply initial_head_inv; [apply EffectiveMaxIterations_pos|done|done].
  - intros [o|s]; [apply always_ret|]. by apply Hfinish, HI.
Qed.
End footprint.

(** ** Fuel *)

(** The operation that marks exhausted fuel is not performed. *)
Definition fueled (o : Op) : Prop := o <> OOutOfFuel.

Lemma fueled_within cs {A} (m : prog A) : ~ In CFuel cs -> always (within cs) m -> always fueled m.
Proof. intros Hcs. apply always_mono. intros o [Ho|Ho] ->; simpl in *; [done|]. tauto. Qed.

Lemma fueled_loop fuel rt i : (depth_fuel i <= fuel)%nat -> always fueled (executeAgentLoop_fuel fuel rt i).
Proof.
  revert rt i. induction fuel as [|fuel IH]; intros rt i Hf; simpl; [unfold depth_fuel in Hf; lia|].
  apply (foot_body fueled) with (I := fun j => depth_fuel j = depth_fuel i); try done.
  - intros o Ho ->. simpl in Ho. unfold within in Ho. simpl in Ho. intuition done.
  - intros j name route tc sub id Hj _ _ Hlt. apply IH. unfold depth_fuel in *. simpl. lia.
  - intros. apply (fueled_within [CAppend]); [naive_solver|apply within_save].
  - intros. apply (fueled_within [CAppend]); [naive_solver|apply within_finish].
Qed.

(** C3: The agent loop terminates: against every environment it produces an outcome, and no
    execution, whatever the model, the tools, the callbacks and the nesting of sub-agents
    do, exhausts the rounds or the nesting depth the model provides; so no outcome is an
    artefact of the bounds. *)
Theorem loop_terminates rt i :
  (forall (W : Type) (h : W -> forall o, Ans o * W) (w : W),
     texec (executeAgentLoop rt i) (run_trace (S := agent_sig) h w (executeAgentLoop rt i))
           (run_value (S := agent_sig) h w (executeAgentLoop rt i))) /\
  (forall tr o, texec (executeAgentLoop rt i) tr o -> Forall (fun e => fueled (ev_op e)) tr).
Proof.
  split.
  - intros W h w. exact (run_texec' h w (executeAgentLoop rt i)).
  - intros tr o H. exact (always_spec _ _ (fueled_loop (depth_fuel i) rt i (le_n _)) tr o H).
Qed.
