(* ===== verification/LoopMessages.v ===== *)
(** What a run appends to its conversation: every message exactly once, in order, in
    complete rounds; sub-agents append nothing. *)
From S2P Require Import Prelude GoLib Types Codec Prog Policies MemoryConfig Budget CircuitBreaker Telemetry Events Effects Hooks ErrorControl LLM Memory Tools Retry AgentLoop LoopFacts LoopBounds.

#[local] Open Scope string_scope.
#[local] Open Scope list_scope.
#[local] Open Scope Z_scope.

(** ** Appended messages *)

Definition append_of (e : Event) : option (string * Message) :=
  match ev_op e with OAddMessage id m => Some (id, m) | _ => None end.

(** The messages a trace offers to the conversation store, with their conversation. *)
Definition appends (tr : list Event) : list (string * Message) := omap append_of tr.

Definition no_append (o : Op) : Prop := class_of o <> CAppend.

Lemma appends_app t1 t2 : appends (t1 ++ t2) = appends t1 ++ appends t2.
Proof. apply omap_app. Qed.

Lemma appends_none {A} (m : prog A) tr a : always no_append m -> texec m tr a -> appends tr = [].
Proof.
  intros H Hx. apply (always_spec _ _ H) in Hx. unfold appends.
  induction Hx as [|[o r] tr Ho _ IH]; [done|]. simpl. unfold append_of, no_append in *. simpl in *.
  by destruct o.
Qed.

Lemma no_append_within cs {A} (m : prog A) : ~ In CAppend cs -> always (within cs) m -> always no_append m.
Proof. intros Hcs. apply always_mono. intros o [Ho|Ho] Hc; rewrite Hc in Ho; [done|tauto]. Qed.

Lemma appends_within cs {A} (m : prog A) tr a :
  ~ In CAppend cs -> always (within cs) m -> texec m tr a -> appends tr = [].
Proof. intros Hcs H. by apply appends_none, (no_append_within cs). Qed.

(** ** Runs without a conversation *)

Lemma no_append_loop fuel rt i : in_ConversationID i = "" -> always no_append (executeAgentLoop_fuel fuel rt i).
Proof.
  revert rt i. induction fuel as [|fuel IH]; intros rt i Hi; simpl.
  - apply always_bind; [by apply always_call|]. intros. apply always_ret.
  - apply (foot_body no_append) with (I := fun j => in_ConversationID j = ""); try done.
    + intros o Ho Hc. unfold within in Ho. rewrite Hc in Ho. simpl in Ho. intuition done.
    + intros. by apply IH.
    + intros j s Hj. unfold save_iteration, conversationMemoryEnabled. rewrite Hj. apply always_ret.
    + intros j ps s Hj. unfold finish_run, conversationMemoryEnabled. rewrite Hj. simpl.
      apply (no_append_within []); [by intros []|]. class_foot.
Qed.

(** ** Persisting *)

Lemma traverse_appends id ms tr rs :
  texec (traverse (fun m => call (OAddMessage id m)) ms) tr rs -> appends tr = map (pair id) ms.
Proof.
  revert tr rs. induction ms as [|m ms IH]; intros tr rs H; simpl in H.
  - by apply texec_ret_inv in H as [-> _].
  - apply texec_mbind_inv in H as (t1 & t2 & y & -> & H1 & H). call_inv H1.
    apply texec_mbind_inv in H as (t3 & t4 & ys & -> & H3 & H). apply texec_ret_inv in H as [-> _].
    rewrite app_nil_r. simpl. f_equal. by eapply IH.
Qed.

(** A conversation write is attempted once per message: the policy sees no failure. *)
Lemma persist_appends rt id ms tr u :
  ac_Conversation (rt_AgentConfig rt) = true ->
  texec (persistConversationMessages rt id ms) tr u -> appends tr = map (pair id) ms.
Proof.
  intros Hc H. unfold persistConversationMessages in H. rewrite Hc in H. simpl in H.
  destruct (bool_decide (ms = [])) eqn:E.
  - apply bool_decide_eq_true in E as ->. by apply texec_mret_inv in H as [-> _].
  - clear E. apply texec_mbind_inv in H as (t1 & t2 & e & -> & H1 & H). apply texec_mret_inv in H as [-> _].
    rewrite app_nil_r. unfold executeWithPolicyErr in H1.
    apply texec_mbind_inv in H1 as (t3 & t4 & r & -> & H1 & H). apply texec_mret_inv in H as [-> _].
    rewrite app_nil_r. clear e.
    assert (Hop : forall t x, texec (e ← (_ ← add_messages id ms; mret (None : option error));
                    mret (match e with Some e => inl e | None => inr tt end)) t x ->
                  appends t = map (pair id) ms /\ x = inr tt).
    { intros t x Hx. apply texec_mbind_inv in Hx as (? & ? & e & -> & Hx & H).
      apply texec_mret_inv in H as [-> ->].
      apply texec_mbind_inv in Hx as (? & ? & [] & -> & Hx & H). apply texec_mret_inv in H as [-> ->].
      unfold add_messages in Hx. apply texec_mbind_inv in Hx as (? & ? & rs & -> & Hx & H).
      apply texec_mret_inv in H as [-> _]. rewrite !app_nil_r. split; [by eapply traverse_appends|done]. }
    assert (Hd : forall p, appends (deadline_events p) = []).
    { intros p. unfold deadline_events. by destruct (0 <? ep_Timeout p). }
    apply policy_run_iff in H1.
    inversion H1 as [k t a Hx|k t e c Hx|k t e Hx _|k t e c Hx _|k t e t' r' Hx _ _]; subst;
      apply Hop in Hx as [Ha Hr]; try discriminate Hr.
    by rewrite appends_app, Hd.
Qed.

(** ** The transcript of a run

    What a run adds to its messages, read off its trace: rounds, each a stretch in which the
    model was asked about everything so far and the tools it called were run, and the last
    answer.  Between these calls nothing asks the model, so no round is left out. *)

Definition no_model (t : list Event) : Prop := Forall (fun e => class_of (ev_op e) <> CLlm) t.

Lemma no_model_app t1 t2 : no_model t1 -> no_model t2 -> no_model (t1 ++ t2).
Proof. intros H1 H2. by apply Forall_app. Qed.

(** Parts that neither ask the model nor write the conversation. *)
Lemma quiet_part cs {A} (m : prog A) tr a :
  ~ In CAppend cs -> ~ In CLlm cs -> always (within cs) m -> texec m tr a -> appends tr = [] /\ no_model tr.
Proof.
  intros Ha Hl H Hx. split; [by eapply appends_within|]. apply (always_spec _ _ H) in Hx.
  eapply Forall_impl; [exact Hx|]. intros e [He|He] Hc; rewrite Hc in He; [done|tauto].
Qed.

Section transcript.
Context (exec_sub : Runtime -> AgentLoopInput -> prog loop_outcome) (rt : Runtime) (input : AgentLoopInput).

(** The input of a round: that of the run, with its breaker and the clock of the round. *)
Definition of_input (i : AgentLoopInput) : Prop := exists cb now, i = with_breaker input cb now.

(** The model was asked about [msgs], with tools or without, and answered [res] in the end. *)
Definition asked (skip : bool) (i : AgentLoopInput) (msgs : list Message) (t : list Event) (res : LLMResult) : Prop :=
  exists li fb fb', li_Messages li = msgs /\ li_SkipTools li = skip /\
    texec (invokeLLMWithErrorControl rt i li fb (executionPolicies rt)) t (inr (res, fb')).

(** A complete round: the answer [res], whose calls were run with the results [rs]. *)
Definition full_round (msgs : list Message) (t : list Event) (res : LLMResult) (rs : list toolResult) : Prop :=
  exists i mid iter t1 t2 t3 t4 t5, of_input i /\ t = t1 ++ t2 ++ t3 ++ t4 ++ t5 /\
    no_model t1 /\ asked false i msgs t2 res /\ no_model t3 /\ lr_ToolCalls res <> [] /\
    texec (run_tools exec_sub rt i (executionPolicies rt) mid iter (lr_ToolCalls res)) t4 (inr rs) /\ no_model t5.

(** The end: an answer without calls, or, where the rounds are used up, the answer of one more
    call without tools in place of the answer that still had calls. *)
Definition last_answer (msgs : list Message) (t : list Event) (res : LLMResult) : Prop :=
  exists i t1 t2 t3, of_input i /\ t = t1 ++ t2 ++ t3 /\ no_model t1 /\ no_model t3 /\
    (asked false i msgs t2 res /\ lr_ToolCalls res = [] \/
     exists res0 ta tb tc, t2 = ta ++ tb ++ tc /\ asked false i msgs ta res0 /\ lr_ToolCalls res0 <> [] /\
       no_model tb /\ asked true i msgs tc res).

Inductive transcript (base : list Message) : list Event -> list Message -> Prop :=
| transcript_nil : transcript base [] []
| transcript_round t ms t' res rs :
    transcript base t ms -> full_round (base ++ ms) t' res rs ->
    transcript base (t ++ t') (ms ++ assistant_message res :: map tr_message rs).

Lemma transcript_paired base t ms : transcript base t ms -> paired ms.
Proof using.
  induction 1 as [|t ms t' res rs _ IH (i & mid & iter & t1 & t2 & t3 & t4 & t5 & _ & _ & _ & _ & _ & Hne & Hx & _)];
    [constructor|]. apply run_tools_answered in Hx. specialize (Hx rs eq_refl).
  constructor; [done|done| |by apply answers_paired]. simpl. by destruct (lr_ToolCalls res).
Qed.

Lemma full_round_after p msgs t res rs : no_model p -> full_round msgs t res rs -> full_round msgs (p ++ t) res rs.
Proof using.
  intros Hp (i & mid & iter & t1 & t2 & t3 & t4 & t5 & Hi & -> & H1 & H). exists i, mid, iter, (p ++ t1), t2, t3, t4, t5.
  split; [done|]. split; [by rewrite <- !app_assoc|]. split; [by apply no_model_app|done].
Qed.

Lemma last_answer_after p msgs t res : no_model p -> last_answer msgs t res -> last_answer msgs (p ++ t) res.
Proof using.
  intros Hp (i & t1 & t2 & t3 & Hi & -> & H1 & H). exists i, (p ++ t1), t2, t3.
  split; [done|]. split; [by rewrite <- !app_assoc|]. split; [by apply no_model_app|done].
Qed.
End transcript.

(** ** Rounds *)

Section rounds.
Context (exec_sub : Runtime -> AgentLoopInput -> prog loop_outcome) (rt : Runtime) (input : AgentLoopInput).
Context (Hsub : forall rt' i', in_ConversationID i' = "" -> always no_append (exec_sub rt' i')).
Context (Hmem : conversationMemoryEnabled rt input = true).

#[local] Abbreviation ps := (executionPolicies rt).
#[local] Abbreviation id := (in_ConversationID input).

(** The conversation after a round: nothing was written, or everything not yet persisted. *)
Definition written (s s' : loop_state) (t : list Event) : Prop :=
  appends t = [] /\ ls_persisted s' = ls_persisted s \/
  appends t = map (pair id) (drop (ls_persisted s) (ls_messages s')) /\ ls_persisted s' = length (ls_messages s').

(** What one round does to the messages and to the conversation. *)
Definition round_told (s : loop_state) (t : list Event) (r : round_result) : Prop :=
  match r with
  | NextRound s' => exists res rs, full_round exec_sub rt input (ls_messages s) t res rs /\
      ls_messages s' = ls_messages s ++ assistant_message res :: map tr_message rs /\ written s s' t
  | Done s' => exists res, last_answer rt input (ls_messages s) t res /\
      ls_messages s' = ls_messages s ++ [text_message MessageRoleAssistant (lr_Content res)] /\
      ls_lastContent s' = lr_Content res /\ appends t = [] /\ ls_persisted s' = ls_persisted s
  | Return _ => appends t = []
  end.

Lemma of_input_conversation i : of_input input i -> in_ConversationID i = id /\ conversationMemoryEnabled rt i = true.
Proof using Hmem. intros (cb & now & ->). by split. Qed.

Ltac quiet H cs := eapply (quiet_part cs) in H; [|naive_solver|naive_solver|class_foot].

Lemma save_writes i s t s' :
  of_input input i -> texec (save_iteration rt i s) t s' ->
  no_model t /\ ls_messages s' = ls_messages s /\ written s s' t.
Proof using Hmem.
  intros Hi H. pose proof H as Hq. unfold save_iteration in H.
  assert (Hn : no_model t).
  { apply (always_spec _ _ (within_save rt i s)) in Hq. eapply Forall_impl; [exact Hq|].
    intros e [He|[He|[]]] Hc; by rewrite Hc in He. }
  split; [done|]. destruct (of_input_conversation i Hi) as [Hid Hc]. destruct (_ && _).
  - apply texec_mbind_inv in H as (t1 & t2 & u & -> & H1 & H). apply texec_mret_inv in H as [-> ->].
    rewrite app_nil_r. apply persist_appends in H1; [|unfold conversationMemoryEnabled in Hc; by crush_bool].
    split; [done|]. right. by rewrite H1, Hid.
  - apply texec_mret_inv in H as [-> ->]. split; [done|]. by left.
Qed.

Lemma tool_round_told i mid iter res s t r :
  of_input input i -> texec (tool_round exec_sub rt i ps mid iter res s) t r ->
  match r with
  | NextRound s' => exists rs t4 t5, t = t4 ++ t5 /\
      texec (run_tools exec_sub rt i ps mid iter (lr_ToolCalls res)) t4 (inr rs) /\ no_model t5 /\
      ls_messages s' = ls_messages s ++ assistant_message res :: map tr_message rs /\ written s s' t
  | Done _ => False
  | Return _ => appends t = []
  end.
Proof using Hsub Hmem.
  intros Hi H. unfold tool_round in H. cbv zeta in H.
  apply texec_mbind_inv in H as (t1 & t2 & rr & -> & H1 & H). pose proof H1 as H1x.
  apply appends_none in H1.
  2: { apply batch_run_tools.
       - intros o Ho Hc. unfold within in Ho. rewrite Hc in Ho. simpl in Ho. intuition done.
       - intros. by apply Hsub. }
  destruct rr as [e|rs]; [apply texec_mret_inv in H as [-> ->]; by rewrite app_nil_r|].
  pose proof H1x as H1r. apply run_tools_answered in H1r. specialize (H1r rs eq_refl).
  apply texec_mbind_inv in H as (t3 & t4 & s1 & -> & H3 & H). pose proof H3 as H3r.
  apply collect_results_spec in H3r as (Hm & Hp & _); [|by eapply Forall2_length].
  eapply (quiet_part [CRecord]) in H3 as [A3 N3]; [|naive_solver|naive_solver|apply within_collect].
  apply texec_mbind_inv in H as (t5 & t6 & u & -> & H5 & H).
  eapply (quiet_part [CSnapshot]) in H5 as [A5 N5]; [|naive_solver|naive_solver|apply within_snapshot].
  apply texec_mbind_inv in H as (t7 & t8 & b & -> & H7 & H).
  eapply (quiet_part [CBudget; CAwait]) in H7 as [A7 N7]; [|naive_solver|naive_solver|apply within_enforce_budget].
  destruct b as [[e|] tl]; simpl in H.
  { apply texec_mret_inv in H as [-> ->]. by rewrite !appends_app, H1, A3, A5, A7. }
  apply texec_mbind_inv in H as (t9 & t10 & s2 & -> & H9 & H). apply texec_mret_inv in H as [-> ->].
  apply save_writes in H9 as (N9 & Hm2 & H9); [|done]. simpl in *. rewrite app_nil_r.
  assert (Hms : ls_messages s2 = ls_messages s ++ assistant_message res :: map tr_message rs)
    by (by rewrite Hm2, Hm, <- app_assoc).
  exists rs, t1, (t3 ++ t5 ++ t7 ++ t9). split; [done|]. split; [done|]. split; [by repeat apply no_model_app|].
  split; [done|]. unfold written in *. rewrite !appends_app, H1, A3, A5, A7. simpl in *. by rewrite Hp in H9.
Qed.

Lemma final_told i mem ret iter s t r :
  texec (final_call rt i ps mem ret iter s) t r ->
  match r with
  | NextRound _ => False
  | Done s' => exists res t1 t2 t3, t = t1 ++ t2 ++ t3 /\ no_model t1 /\ asked rt true i (ls_messages s) t2 res /\ no_model t3 /\
      ls_messages s' = ls_messages s ++ [text_message MessageRoleAssistant (lr_Content res)] /\
      ls_lastContent s' = lr_Content res /\ appends t = [] /\ ls_persisted s' = ls_persisted s
  | Return _ => appends t = []
  end.
Proof using.
  intros H. unfold final_call in H.
  apply texec_mbind_inv in H as (t1 & t2 & mid & -> & H1 & H). quiet H1 (@nil op_class). destruct H1 as [A1 N1].
  apply texec_mbind_inv in H as (t3 & t4 & rr & -> & H3 & H). pose proof H3 as H3x.
  eapply (appends_within [CLlm]) in H3; [|naive_solver|by apply within_llm].
  destruct rr as [e|[res fb]]; [apply texec_mret_inv in H as [-> ->]; by rewrite !appends_app, A1, H3|].
  cbv zeta in H. apply texec_mbind_inv in H as (t5 & t6 & b & -> & H5 & H).
  eapply (quiet_part [CBudget; CAwait]) in H5 as [A5 N5]; [|naive_solver|naive_solver|apply within_check_budget].
  destruct b as [[e|] tl]; simpl in H; apply texec_mret_inv in H as [-> ->]; rewrite !appends_app, A1, H3, A5; [done|].
  exists res, t1, t3, t5. rewrite app_nil_r. split; [done|]. split; [done|]. split; [|by simpl].
  eexists _, _, fb. split; [|split]; [..|exact H3x]; done.
Qed.

Lemma llm_round_told i mem ret orig iter s t r :
  of_input input i -> texec (llm_round exec_sub rt i ps mem ret orig iter s) t r -> round_told s t r.
Proof using Hsub Hmem.
  intros Hi H. unfold llm_round in H.
  apply texec_mbind_inv in H as (t1 & t2 & mid & -> & H1 & H). quiet H1 (@nil op_class). destruct H1 as [A1 N1].
  apply texec_mbind_inv in H as (t3 & t4 & rr & -> & H3 & H). pose proof H3 as H3x.
  eapply (appends_within [CLlm]) in H3; [|naive_solver|by apply within_llm].
  destruct rr as [e|[res fb]].
  { apply texec_mret_inv in H as [-> ->]. simpl. by rewrite !appends_app, A1, H3. }
  cbv zeta in H. apply texec_mbind_inv in H as (t5 & t6 & b & -> & H5 & H).
  eapply (quiet_part [CBudget; CAwait]) in H5 as [A5 N5]; [|naive_solver|naive_solver|apply within_check_budget].
  destruct b as [[e|] tl]; simpl in H.
  { apply texec_mret_inv in H as [-> ->]. simpl. by rewrite !appends_app, A1, H3, A5. }
  assert (Hask : asked rt false i (ls_messages s) t3 res) by (eexists _, _, fb; split; [|split]; [..|exact H3x]; done).
  set (s1 := set_telemetry _ tl) in H.
  assert (Htool : forall st tp tt0 r0, ls_messages st = ls_messages s -> ls_persisted st = ls_persisted s ->
    lr_ToolCalls res <> [] -> appends tp = [] -> no_model tp ->
    texec (tool_round exec_sub rt i ps mid iter res st) tt0 r0 -> round_told s (t1 ++ t3 ++ t5 ++ tp ++ tt0) r0).
  { intros st tp tt0 r0 Hst Hpt Hne Ap Np Hx. apply tool_round_told in Hx; [|done]. unfold round_told.
    destruct r0 as [s'|s'|o]; [|done|by rewrite !appends_app, A1, H3, A5, Ap].
    destruct Hx as (rs & t7 & t8 & -> & Hx & Hn & Hm & Hw). exists res, rs. rewrite <- Hst. split; [|split; [done|]].
    - exists i, mid, iter, t1, t3, (t5 ++ tp), t7, t8. rewrite Hst. split; [done|]. split; [by rewrite <- !app_assoc|].
      split_and!; try done. by apply no_model_app.
    - unfold written in *. rewrite !appends_app in *. rewrite A1, H3, A5, Ap. simpl. by rewrite Hpt in Hw. }
  assert (Hfinal : forall tp tf r0, lr_ToolCalls res <> [] -> appends tp = [] -> no_model tp ->
    texec (final_call rt i ps mem ret iter s1) tf r0 -> round_told s (t1 ++ t3 ++ t5 ++ tp ++ tf) r0).
  { intros tp tf r0 Hne Ap Np Hx. apply final_told in Hx. unfold round_told. rewrite !appends_app, A1, H3, A5, Ap.
    destruct r0 as [s'|s'|o]; [done| |done]. destruct Hx as (res' & t7 & t8 & t9 & -> & N7 & Hx & N9 & Hm & Hl & Ha & Hp).
    exists res'. split; [|done]. exists i, t1, (t3 ++ (t5 ++ tp ++ t7) ++ t8), t9.
    split; [done|]. split; [by rewrite <- !app_assoc|]. split; [done|]. split; [done|]. right.
    exists res, t3, (t5 ++ tp ++ t7), t8. split_and!; try done. by repeat apply no_model_app. }
  destruct (lr_ToolCalls res) as [|c cs] eqn:Ec.
  - apply texec_mret_inv in H as [-> ->]. exists res. rewrite !appends_app, A1, H3, A5, app_nil_r. split; [|done].
    exists i, t1, t3, t5. split_and!; try done. by left.
  - unfold after_calls in H. destruct (iter =? _); [|exact (Htool s1 [] t6 r eq_refl eq_refl ltac:(done) eq_refl ltac:(constructor) H)].
    apply texec_mbind_inv in H as (t7 & t8 & d & -> & H7 & H). quiet H7 (@nil op_class). destruct H7 as [A7 N7].
    destruct (dec_Action d); try (exact (Hfinal t7 t8 r ltac:(done) A7 N7 H)).
    exact (Htool (extend_iterations s1 (dec_ExtraIterations d)) t7 t8 r eq_refl eq_refl ltac:(done) A7 N7 H).
Qed.

Lemma iteration_told i mem ret orig iter s t r :
  of_input input i -> texec (iteration exec_sub rt i ps mem ret orig iter s) t r -> round_told s t r.
Proof using Hsub Hmem.
  intros Hi H. unfold iteration in H. destruct (in_circuitBreaker i) as [cb|]; [|by eapply llm_round_told].
  apply texec_mbind_inv in H as (t1 & t2 & now & -> & H1 & H). quiet H1 (@nil op_class). destruct H1 as [A1 N1].
  apply llm_round_told in H; [|destruct Hi as (cb0 & now0 & ->); by exists (Some cb), now].
  destruct r as [s'|s'|o]; simpl in *.
  - destruct H as (res & rs & Hr & Hm & Hw). exists res, rs. split; [by apply full_round_after|]. split; [done|].
    unfold written in *. by rewrite appends_app, A1.
  - destruct H as (res & Hr & H). exists res. split; [by apply last_answer_after|]. by rewrite appends_app, A1.
  - by rewrite appends_app, A1.
Qed.

Context (conv : list Message) (prompt : Message).

#[local] Abbreviation base := (conv ++ [prompt]).

(** What of a run with the trace [t] so far is in the conversation: nothing, or the prompt and
    its rounds up to some point. *)
Definition saved (t : list Event) (sent : list Message) : Prop :=
  sent = [] \/ exists t1 t2 ms, t = t1 ++ t2 /\ transcript exec_sub rt input base t1 ms /\ sent = prompt :: ms.

Definition sent_inv (sent : list Message) (s : loop_state) : Prop :=
  ls_persisted s = (length conv + length sent)%nat /\ exists more, ls_messages s = conv ++ sent ++ more.

Lemma saved_more t t' sent : saved t sent -> saved (t ++ t') sent.
Proof using.
  intros [->|(t1 & t2 & ms & -> & H & ->)]; [by left|right]. exists t1, (t2 ++ t'), ms. by rewrite <- app_assoc.
Qed.

Lemma sent_extend sent s s' x :
  sent_inv sent s -> ls_messages s' = ls_messages s ++ x -> ls_persisted s' = ls_persisted s -> sent_inv sent s'.
Proof using. intros (Hp & more & Hm) Hm' Hp'. split; [congruence|]. exists (more ++ x). by rewrite Hm', Hm, <- !app_assoc. Qed.

Lemma sent_all sent s s' x rest :
  sent_inv sent s -> ls_messages s' = ls_messages s ++ x -> ls_messages s' = conv ++ rest ->
  sent ++ drop (ls_persisted s) (ls_messages s') = rest.
Proof using.
  intros (Hp & more & Hm) Hx Hr. rewrite Hm, <- !app_assoc in Hx. rewrite Hx in Hr.
  apply app_inv_head in Hr. rewrite <- Hr, Hx, Hp, app_assoc, drop_app_length'; [done|]. by rewrite length_app.
Qed.

(** How the rounds end: with an answer, everything told; or early. *)
Definition rounds_told (p t : list Event) (sent : list Message) (r : loop_outcome + loop_state) : Prop :=
  exists delta, appends t = map (pair id) delta /\
    match r with
    | inl _ => saved (p ++ t) (sent ++ delta)
    | inr s' => exists ms t1 t2 res, t = t1 ++ t2 /\ transcript exec_sub rt input base (p ++ t1) ms /\
        last_answer rt input (base ++ ms) t2 res /\
        ls_messages s' = base ++ ms ++ [text_message MessageRoleAssistant (lr_Content res)] /\
        ls_lastContent s' = lr_Content res /\ sent_inv (sent ++ delta) s'
    end.

Lemma rounds_appends fuel i mem ret orig iter s p ms sent t r :
  of_input input i -> head_inv orig base iter s -> transcript exec_sub rt input base p ms ->
  ls_messages s = base ++ ms -> sent_inv sent s -> saved p sent ->
  2 * orig <= iter + Z.of_nat fuel ->
  texec (rounds exec_sub rt fuel i ps mem ret orig iter s) t r -> rounds_told p t sent r.
Proof using Hsub Hmem.
  intros Hi. revert iter s p ms sent t. induction fuel as [|fuel IH]; intros iter s p ms sent t Hs Hp Hms Hsent Hsv Hf H; simpl in H.
  { destruct Hs as [Hb Hlt _ _ _]. unfold bound_inv in Hb. destruct (ls_extended s); exfalso; lia. }
  destruct (ls_maxIter s <=? iter) eqn:El; [destruct Hs; crush_bool; lia|].
  apply texec_mbind_inv in H as (t1 & t2 & rr & -> & H1 & H).
  pose proof H1 as Ha. apply iteration_told in Ha; [|done]. eapply iteration_inv in H1; [|done].
  destruct rr as [s'|s'|o]; simpl in Ha, H1.
  - destruct Ha as (res & rs & Hr & Hm & Hw). rewrite Hms in Hr.
    pose proof (transcript_round _ _ _ _ _ _ _ _ _ Hp Hr) as Hp'.
    assert (Hms' : ls_messages s' = base ++ ms ++ assistant_message res :: map tr_message rs) by (by rewrite Hm, Hms, <- app_assoc).
    assert (Hgo : forall d, appends t1 = map (pair id) d -> sent_inv (sent ++ d) s' -> saved (p ++ t1) (sent ++ d) ->
      rounds_told p (t1 ++ t2) sent r).
    { intros d Hd Hsi Hsd. eapply IH in H as (delta & Hd2 & Hrr); [|exact H1|exact Hp'|exact Hms'|exact Hsi|exact Hsd|lia].
      exists (d ++ delta). rewrite appends_app, Hd, Hd2, map_app, (app_assoc sent d delta). split; [done|].
      destruct r as [o|sf]; [by rewrite (app_assoc p t1)|].
      destruct Hrr as (ms2 & t3 & t4 & res2 & -> & Ht & Hl & Hrest). exists ms2, (t1 ++ t3), t4, res2.
      rewrite (app_assoc p t1), (app_assoc t1 t3). split; [done|]. split; [exact Ht|]. split; [exact Hl|exact Hrest]. }
    destruct Hw as [(Hw & Hpe)|(Hw & Hpe)].
    + apply (Hgo []); [by rewrite Hw|rewrite app_nil_r; by eapply sent_extend|rewrite app_nil_r; by apply saved_more].
    + assert (Hall : sent ++ drop (ls_persisted s) (ls_messages s') = prompt :: ms ++ assistant_message res :: map tr_message rs).
      { eapply sent_all; [exact Hsent|exact Hm|]. by rewrite Hms', <- app_assoc. }
      eapply Hgo; [exact Hw| |]; rewrite Hall.
      * split; [rewrite Hpe, Hms'; repeat (rewrite length_app || cbn [length app]); lia|]. exists []. by rewrite app_nil_r, Hms', <- app_assoc.
      * right. exists (p ++ t1), [], (ms ++ assistant_message res :: map tr_message rs). by rewrite app_nil_r.
  - destruct Ha as (res & Hr & Hm & Hl & Ha & Hpe). apply texec_mret_inv in H as [-> ->].
    exists []. rewrite !app_nil_r, Ha. split; [done|]. exists ms, [], t1, res. rewrite app_nil_r, <- Hms.
    split_and!; try done; [by rewrite Hm, Hms, <- app_assoc|by eapply sent_extend].
  - apply texec_mret_inv in H as [-> ->]. exists []. rewrite !app_nil_r, Ha. split; [done|]. by apply saved_more.
Qed.
End rounds.

Lemma finish_appends rt i ps s tr o :
  conversationMemoryEnabled rt i = true -> texec (finish_run rt i ps s) tr o ->
  appends tr = map (pair (in_ConversationID i)) (drop (ls_persisted s) (ls_messages s)).
Proof.
  intros Hc H. unfold finish_run in H. rewrite Hc in H. simpl in H.
  apply texec_mbind_inv in H as (t1 & t2 & u & -> & H1 & H).
  assert (Hn : appends t2 = []).
  { eapply (appends_within []); [by intros []| |exact H]. class_foot. }
  rewrite appends_app, Hn, app_nil_r. destruct (_ <? _)%nat eqn:E.
  - apply persist_appends in H1; [done|]. unfold conversationMemoryEnabled in Hc. by crush_bool.
  - apply texec_mret_inv in H1 as [-> _]. apply Nat.ltb_ge in E. by rewrite drop_ge.
Qed.

(** What a run says in its conversation, and how its trace tells it. *)
Definition run_told (exec_sub : Runtime -> AgentLoopInput -> prog loop_outcome) (rt : Runtime) (i : AgentLoopInput)
    (tr : list Event) (o : loop_outcome) (sent : list Message) : Prop :=
  let prompt := text_message MessageRoleUser (in_UserPrompt i) in
  exists conv,
    match o with
    | Finished r => exists t0 t1 t2 t3 ms res,
        tr = t0 ++ t1 ++ t2 ++ t3 /\ no_model t0 /\ transcript exec_sub rt i (conv ++ [prompt]) t1 ms /\
        last_answer rt i ((conv ++ [prompt]) ++ ms) t2 res /\ no_model t3 /\ al_Content r = lr_Content res /\
        sent = prompt :: ms ++ [text_message MessageRoleAssistant (al_Content r)]
    | Stopped _ _ =>
        sent = [] \/
        exists t0 t1 t2 ms, tr = t0 ++ t1 ++ t2 /\ no_model t0 /\ transcript exec_sub rt i (conv ++ [prompt]) t1 ms /\
          sent = prompt :: ms
    end.

(** The runs of sub-agents, below an input. *)
Definition nested (i : AgentLoopInput) : Runtime -> AgentLoopInput -> prog loop_outcome :=
  executeAgentLoop_fuel (Z.to_nat (in_MaxSubAgentDepth i - in_SubAgentDepth i)).

Lemma finish_no_model rt i ps s tr o : texec (finish_run rt i ps s) tr o -> no_model tr.
Proof.
  intros H. apply (always_spec _ _ (within_finish rt i ps s)) in H. eapply Forall_impl; [exact H|].
  intros e [He|[He|[]]] Hc; by rewrite Hc in He.
Qed.

Lemma run_appends rt i tr o :
  conversationMemoryEnabled rt i = true -> texec (executeAgentLoop rt i) tr o ->
  exists sent, appends tr = map (pair (in_ConversationID i)) sent /\ run_told (nested i) rt i tr o sent.
Proof.
  intros Hc H. rewrite executeAgentLoop_unfold in H. fold (nested i) in H. set (sub := nested i) in *.
  unfold executeAgentLoop_body in H. cbv zeta in H. unfold run_told. cbv zeta.
  apply texec_mbind_inv in H as (t1 & t2 & now & -> & H1 & H).
  eapply (quiet_part []) in H1 as [A1 N1]; [|by intros []|by intros []|class_foot].
  apply texec_mbind_inv in H as (t3 & t4 & cb & -> & H3 & H).
  eapply (quiet_part []) in H3 as [A3 N3]; [|by intros []|by intros []|class_foot].
  apply texec_mbind_inv in H as (t5 & t6 & h & -> & H5 & H). pose proof H5 as Hh.
  eapply (quiet_part []) in H5 as [A5 N5]; [|by intros []|by intros []|class_foot].
  apply load_history_spec in Hh as (conv & -> & _). simpl in H.
  apply texec_mbind_inv in H as (t7 & t8 & rm & -> & H7 & H).
  eapply (quiet_part []) in H7 as [A7 N7]; [|by intros []|by intros []|class_foot].
  destruct rm as [e|m].
  { apply texec_mret_inv in H as [-> ->]. exists []. rewrite !appends_app, A1, A3, A5, A7. split; [done|]. exists conv. by left. }
  apply texec_mbind_inv in H as (t9 & t10 & rr & -> & H9 & H).
  eapply (quiet_part []) in H9 as [A9 N9]; [|by intros []|by intros []|class_foot].
  destruct rr as [e|r0].
  { apply texec_mret_inv in H as [-> ->]. exists []. rewrite !appends_app, A1, A3, A5, A7, A9. split; [done|]. exists conv. by left. }
  apply texec_mbind_inv in H as (t11 & t12 & oo & -> & H11 & H). pose proof H11 as Hd.
  eapply rounds_inv in Hd; [|apply initial_head_inv; [apply EffectiveMaxIterations_pos|reflexivity|reflexivity]|apply round_fuel_enough].
  set (prompt := text_message MessageRoleUser (in_UserPrompt i)) in *.
  eapply (rounds_appends sub rt i (fun rt' i' Hi' => no_append_loop _ rt' i' Hi') Hc conv prompt _ _ _ _ _ _ _ [] [] []) in H11;
    [|by exists cb, (in_circuitNow i)|apply initial_head_inv; [apply EffectiveMaxIterations_pos|reflexivity|reflexivity]
     |constructor|by rewrite app_nil_r|split; [simpl; lia|by eexists]|by left|apply round_fuel_enough].
  destruct H11 as (delta & Ha & Hr). simpl in Hr.
  set (t0 := t1 ++ t3 ++ t5 ++ t7 ++ t9).
  assert (N0 : no_model t0) by (by repeat apply no_model_app).
  assert (A0 : forall x, appends (t1 ++ t3 ++ t5 ++ t7 ++ t9 ++ x) = appends x) by (intros x; by rewrite !appends_app, A1, A3, A5, A7, A9).
  assert (T0 : forall x, t1 ++ t3 ++ t5 ++ t7 ++ t9 ++ x = t0 ++ x) by (intros x; unfold t0; by rewrite <- !app_assoc).
  rewrite A0, T0, appends_app, Ha. destruct oo as [[r'|q e]|s]; [done| |].
  - apply texec_mret_inv in H as [-> ->]. exists delta. rewrite !app_nil_r. split; [done|]. exists conv.
    destruct Hr as [->|(ta & tb & ms & -> & Ht & ->)]; [by left|right]. by exists t0, ta, tb, ms.
  - pose proof H as Hfin. pose proof (finish_no_model _ _ _ _ _ _ H) as Nf. apply finish_appends in H; [|done].
    apply finish_run_spec in Hfin as (r & -> & Hcont & _). rewrite H. simpl.
    destruct Hr as (ms & ta & tb & res & -> & Ht & Hl & Hm & Hlc & Hsi).
    exists (delta ++ drop (ls_persisted s) (ls_messages s)). split; [by rewrite map_app|]. exists conv, t0, ta, tb, t12, ms, res.
    split; [by rewrite <- !app_assoc|]. split; [done|]. split; [done|]. split; [done|]. split; [done|]. split; [congruence|].
    rewrite Hcont, Hlc. eapply (sent_all conv); [exact Hsi|by rewrite app_nil_r|]. by rewrite Hm, <- app_assoc.
Qed.

(** The rounds of a transcript are complete: each assistant message with tool calls is followed
    by one matching tool message per call. *)
Lemma run_told_paired exec_sub rt i tr o sent : run_told exec_sub rt i tr o sent ->
  match o with
  | Finished r => exists ms, paired ms /\
      sent = text_message MessageRoleUser (in_UserPrompt i) :: ms ++ [text_message MessageRoleAssistant (al_Content r)]
  | Stopped _ _ => sent = [] \/ exists ms, paired ms /\ sent = text_message MessageRoleUser (in_UserPrompt i) :: ms
  end.
Proof.
  intros [conv H]. destruct o as [r|q e].
  - destruct H as (t0 & t1 & t2 & t3 & ms & res & _ & _ & Ht & _ & _ & _ & ->). exists ms. split; [by eapply transcript_paired|done].
  - destruct H as [->|(t0 & t1 & t2 & ms & _ & _ & Ht & ->)]; [by left|right]. exists ms. split; [by eapply transcript_paired|done].
Qed.

(** C23: What a run writes to its conversation is what its trace tells. A finished run has written
    its prompt, then for every round, in order and once, the answer the model gave (asked about
    the history, the prompt and the rounds before) and the results of the tools it called, one
    matching message per call, and last the content of the model's last answer; outside these
    calls the run itself never asks the model, so no round is missing, and its sub-agents write
    nothing. A run stopped by an error has written nothing, or its prompt and the rounds
    completed up to the last time it saved, never a call without its results. *)
Theorem conversation_appended rt i tr o :
  conversationMemoryEnabled rt i = true ->
  texec (executeAgentLoop rt i) tr o ->
  exists sent, appends tr = map (pair (in_ConversationID i)) sent /\ run_told (nested i) rt i tr o sent /\
    let prompt := text_message MessageRoleUser (in_UserPrompt i) in
    match o with
    | Finished r => exists rest, paired rest /\
        sent = prompt :: rest ++ [text_message MessageRoleAssistant (al_Content r)]
    | Stopped _ _ => sent = [] \/ exists rest, paired rest /\ sent = prompt :: rest
    end.
Proof.
  intros Hc H. destruct (run_appends rt i tr o Hc H) as (sent & Ha & Ht). exists sent.
  split; [done|]. split; [done|]. by eapply run_told_paired.
Qed.
