(* ===== verification/LoopBudget.v ===== *)
(** The budget of a run that delegates to no sub-agent: after a breach nothing more is spent
    unless the budget request was approved and the watermark advanced, and the shared tracker of [Budget.v] only takes the
    steps whose bound is proved there. *)
From S2P Require Import Prelude GoLib Types Codec Prog Policies MemoryConfig Budget CircuitBreaker Telemetry Events Effects Hooks ErrorControl LLM Memory Tools Retry AgentLoop LoopFacts LoopBounds.

#[local] Open Scope string_scope.
#[local] Open Scope list_scope.
#[local] Open Scope Z_scope.

(** ** The gate

    A monitor of the trace. Its state says whether a breach was reported that is not settled
    ([Breached]) and whether the pause was approved since ([Approved]). A model call or a
    tool execution is a violation ([None]) unless the budget is [Settled], and so is an
    advance of the watermark that no approval of the breach precedes. *)
Inductive budget_state :=
| Settled
| Breached
| Approved.

(** What the answer to the budget request of a pause does. *)
Definition after_answer (s : budget_state) (out : approval_outcome) : budget_state :=
  match s, out with
  | Breached, Resolved status => if String.eqb status ApprovalStatusApproved then Approved else Breached
  | _, _ => s
  end.

Definition gate_step (s : budget_state) (e : Event) : option budget_state :=
  let 'Ev o r := e in
  match o return Ans o -> option budget_state with
  | OBudgetAdd _ _ => fun r => Some (match r with Some _ => Breached | None => s end)
  | OBudgetCheck _ => fun r => Some (match r with Some _ => Breached | None => s end)
  | OAwaitApproval (BudgetApproval _ _ _ _ _) _ => fun out => Some (after_answer s out)
  | OBudgetAdvance _ => fun _ => match s with Approved => Some Settled | _ => None end
  | OGenerate _ _ => fun _ => match s with Settled => Some Settled | _ => None end
  | OGenerateStream _ _ => fun _ => match s with Settled => Some Settled | _ => None end
  | OToolExecute _ _ _ _ => fun _ => match s with Settled => Some Settled | _ => None end
  | _ => fun _ => Some s
  end r.

Fixpoint gate (s : budget_state) (tr : list Event) : option budget_state :=
  match tr with
  | [] => Some s
  | e :: tr => s' ← gate_step s e; gate s' tr
  end.

Lemma gate_app b t1 t2 : gate b (t1 ++ t2) = gate b t1 ≫= fun b' => gate b' t2.
Proof. revert b. induction t1 as [|e t1 IH]; intros b; simpl; [done|]. destruct (gate_step b e); simpl; auto. Qed.

(** Effects that neither move the gate nor write a tracker. *)
Definition neutral (o : Op) : Prop :=
  match o with
  | OAwaitApproval _ _
  | OBudgetAdd _ _ | OBudgetCheck _ | OBudgetAdvance _ | OGenerate _ _ | OGenerateStream _ _
  | OToolExecute _ _ _ _ => False
  | _ => True
  end.

Lemma neutral_gate b tr : Forall (fun e => neutral (ev_op e)) tr -> gate b tr = Some b.
Proof. induction 1 as [|[o r] tr Ho _ IH]; [done|]. simpl. by destruct o. Qed.

(** Only [Add] and [AdvanceWatermark] write a tracker. *)
Definition tracker_write (o : Op) : bool :=
  match o with OBudgetAdd _ _ | OBudgetAdvance _ => true | _ => false end.

Lemma budget_access_same {R} h l (f : BudgetTracker -> R) r h' l' :
  budget_access h l (fun t => (f t, t)) r h' -> hp_budget h' !! l' = hp_budget h !! l'.
Proof.
  intros (t & Ht & _ & ->). simpl. destruct (decide (l = l')) as [->|Hne].
  - by rewrite lookup_insert_eq.
  - by rewrite lookup_insert_ne.
Qed.

Lemma heap_step_keeps h e h' l :
  heap_step h e h' -> tracker_write (ev_op e) = false -> hp_budget h' !! l = hp_budget h !! l.
Proof.
  destruct e as [o r]. intros H Ho. destruct o; simpl in *; try discriminate Ho; try (by rewrite H);
    try (exact (budget_access_same h _ _ _ _ l H)); try (by destruct H as (c & _ & _ & ->)).
  destruct (NewCircuitBreaker _), r; try done; [by destruct H as [_ ->]|by rewrite H].
Qed.

Lemma steps_keep h tr h' l :
  steps h tr h' -> Forall (fun e => tracker_write (ev_op e) = false) tr -> hp_budget h' !! l = hp_budget h !! l.
Proof.
  induction 1 as [|h e h1 tr h2 He _ IH]; [done|]. intros [Hw Ht]%Forall_cons.
  rewrite (IH Ht). by eapply heap_step_keeps.
Qed.

(** ** Spending *)

Section spending.
Context (U : Z) (l : loc).

(** The usage a call reports. *)
Definition reports_within (e : Event) : Prop :=
  match ev_op e with OBudgetAdd _ (Some u) => call_usage U u | _ => True end.

(** The trace leaves the gate open and takes the tracker along run steps. *)
Definition spends (tr : list Event) : Prop :=
  gate Settled tr = Some Settled /\
  forall h h' t, steps h tr h' -> hp_budget h !! l = Some t -> Forall reports_within tr ->
    exists t', hp_budget h' !! l = Some t' /\ run_reachable U t t'.

(** The trace ends at a breach that stops the run. *)
Definition exceeds (tr : list Event) : Prop :=
  gate Settled tr = Some Breached /\
  forall h h' t, steps h tr h' -> hp_budget h !! l = Some t -> Forall reports_within tr ->
    exists t1 t', hp_budget h' !! l = Some t' /\ run_reachable U t t1 /\
      (t' = t1 \/ exists u, call_usage U u /\ t' = accumulate t1 u).

Lemma spends_nil : spends [].
Proof using.
  split; [done|]. intros h h' t Hs Ht _. inversion Hs; subst. exists t. split; [done|]. apply rtc_refl.
Qed.

Lemma spends_app t1 t2 : spends t1 -> spends t2 -> spends (t1 ++ t2).
Proof using.
  intros [G1 H1] [G2 H2]. split; [by rewrite gate_app, G1|].
  intros h h' t (hm & Hs1 & Hs2)%steps_app Ht [HF1 HF2]%Forall_app.
  destruct (H1 _ _ _ Hs1 Ht HF1) as (tm & Htm & Hr1). destruct (H2 _ _ _ Hs2 Htm HF2) as (t' & Ht' & Hr2).
  exists t'. split; [done|]. by etrans.
Qed.

Lemma exceeds_app t1 t2 : spends t1 -> exceeds t2 -> exceeds (t1 ++ t2).
Proof using.
  intros [G1 H1] [G2 H2]. split; [by rewrite gate_app, G1|].
  intros h h' t (hm & Hs1 & Hs2)%steps_app Ht [HF1 HF2]%Forall_app.
  destruct (H1 _ _ _ Hs1 Ht HF1) as (tm & Htm & Hr1).
  destruct (H2 _ _ _ Hs2 Htm HF2) as (t2' & t' & Ht' & Hr2 & Hx).
  exists t2', t'. split; [done|]. split; [by etrans|done].
Qed.

Lemma spends_within cs {A} (m : prog A) tr a :
  ~ In CBudget cs -> always (within cs) m -> texec m tr a -> spends tr.
Proof using.
  intros Hcs H Hx. apply (always_spec _ _ H) in Hx. split.
  - clear - Hcs Hx. induction Hx as [|[o r] tr Ho _ IH]; [done|]. simpl.
    unfold within in Ho. simpl in Ho. destruct o; simpl in *; try done; try (exfalso; clear IH; intuition done).
    by destruct r0.
  - intros h h' t Hs Ht _. exists t. split; [|apply rtc_refl]. rewrite <- Ht. eapply steps_keep; [done|].
    eapply Forall_impl; [exact Hx|]. intros e He. unfold within in He. simpl in He.
    destruct (ev_op e); simpl in *; try done; exfalso; intuition done.
Qed.
End spending.

(** ** Pauses *)

(** The error that stops an exceeded run. *)
Definition stop_error (e : error) : Prop :=
  errors_Is e ErrBudgetExceeded = true \/ errors_Is e ErrBudgetApprovalUnavailable = true.

Lemma neutral_trace {A} (m : prog A) tr a :
  always neutral m -> texec m tr a ->
  (forall b, gate b tr = Some b) /\ Forall (fun e => tracker_write (ev_op e) = false) tr.
Proof.
  intros H Hx. apply (always_spec _ _ H) in Hx. split; [intros b; by apply neutral_gate|].
  eapply Forall_impl; [exact Hx|]. intros [o r] He. simpl in *. by destruct o.
Qed.

Lemma neutral_hook o : is_hook_op o -> neutral o.
Proof. by destruct o. Qed.
#[export] Hint Resolve neutral_hook : footprint.

(** Either the pause ends with an advanced watermark, which approvals still allowed, or the
    run must stop. *)
Definition settled (l : loc) (tr : list Event) (e : option error) : Prop :=
  match e with
  | None =>
      gate Breached tr = Some Settled /\
      forall h h' t, steps h tr h' -> hp_budget h !! l = Some t ->
        ApprovalsExhausted (Some t) = false /\ hp_budget h' !! l = (AdvanceWatermark (Some t)).2
  | Some err =>
      gate Breached tr = Some Breached /\ stop_error err /\
      Forall (fun e => tracker_write (ev_op e) = false) tr
  end.

Lemma stop_is_error e : stop_error (sentinel_wrapping ErrBudgetExceeded (budget_error e)).
Proof. left. unfold errors_Is. apply bool_decide_eq_true. simpl. by left. Qed.

Definition all_neutral (tr : list Event) : Prop := Forall (fun e => neutral (ev_op e)) tr.

Lemma neutral_all {A} (m : prog A) tr a : always neutral m -> texec m tr a -> all_neutral tr.
Proof. intros H Hx. exact (always_spec _ _ H _ _ Hx). Qed.

Lemma neutral_no_write tr : all_neutral tr -> Forall (fun e => tracker_write (ev_op e) = false) tr.
Proof. intros H. eapply Forall_impl; [exact H|]. intros [o r] He. simpl in *. by destruct o. Qed.

(** A trace that takes a breached budget to a state and writes no tracker. *)
Definition moves (tr : list Event) (s s' : budget_state) : Prop :=
  gate s tr = Some s' /\ Forall (fun e => tracker_write (ev_op e) = false) tr.

Lemma budget_moves_app t1 t2 s s1 s2 : moves t1 s s1 -> moves t2 s1 s2 -> moves (t1 ++ t2) s s2.
Proof. intros [G1 W1] [G2 W2]. split; [by rewrite gate_app, G1|by apply Forall_app]. Qed.

Lemma neutral_moves tr s : all_neutral tr -> moves tr s s.
Proof. intros H. split; [by apply neutral_gate|by apply neutral_no_write]. Qed.

(** The pause approves the breach exactly when it returns [APPROVED]. *)
Lemma await_moves rt i l d tr status :
  texec (awaitBudgetApprovalStatus rt i l d) tr status ->
  moves tr Breached (if String.eqb status ApprovalStatusApproved then Approved else Breached).
Proof.
  intros H. unfold awaitBudgetApprovalStatus in H. cbv zeta in H. destruct (_ && _).
  { apply texec_mret_inv in H as [-> ->]. by split. }
  apply texec_mbind_inv in H as (t1 & t2 & tot & -> & H1 & H). call_inv H1.
  apply texec_mbind_inv in H as (t3 & t4 & token & -> & H3 & H). call_inv H3.
  apply texec_mbind_inv in H as (t5 & t6 & u & -> & H5 & H). call_inv H5.
  apply texec_mbind_inv in H as (t7 & t8 & now & -> & H7 & H). call_inv H7.
  apply texec_mbind_inv in H as (t9 & t10 & u1 & -> & H9 & H).
  apply neutral_all in H9; [|unfold publishEventToChannel; foot].
  apply texec_mbind_inv in H as (t11 & t12 & u2 & -> & H11 & H). apply neutral_all in H11; [|foot].
  apply texec_mbind_inv in H as (t13 & t14 & out & -> & H13 & H). call_inv H13.
  apply texec_mbind_inv in H as (t15 & t16 & u3 & -> & H15 & H). call_inv H15.
  apply texec_mret_inv in H as [-> ->].
  repeat (eapply budget_moves_app; [apply neutral_moves; first [done|by repeat constructor]|]).
  eapply budget_moves_app; [|apply neutral_moves; by repeat constructor].
  split; [|by repeat constructor]. by destruct out.
Qed.

(** A pause either stops the run without touching the tracker, or it was approved and its
    last effect advances the watermark. *)
Definition advances_last (l : loc) (s : budget_state) (tr : list Event) (e : option error) : Prop :=
  match e with
  | None => exists t1 r, tr = t1 ++ [Ev (S := agent_sig) (OBudgetAdvance l) r] /\ moves t1 s Approved
  | Some err => stop_error err /\ moves tr s Breached
  end.

Lemma advances_last_app l s s1 t1 t2 e :
  moves t1 s s1 -> advances_last l s1 t2 e -> advances_last l s (t1 ++ t2) e.
Proof.
  intros H1. destruct e as [err|]; simpl.
  - intros [? ?]. split; [done|]. by eapply budget_moves_app.
  - intros (t & r & -> & H). exists (t1 ++ t), r. split; [by rewrite app_assoc|]. by eapply budget_moves_app.
Qed.

Lemma verdict_advances l err status tr e :
  texec (budget_verdict l err status) tr e ->
  advances_last l (if String.eqb status ApprovalStatusApproved then Approved else Breached) tr e.
Proof.
  unfold budget_verdict, emit_metric. intros H.
  assert (Hstop : forall m t x, texec (_ ← call (OMetric m (breach_kind err));
                     mret (Some (sentinel_wrapping ErrBudgetExceeded (budget_error err)))) t x ->
                   advances_last l Breached t x).
  { intros m t x Hx. texec_invs. split; [apply stop_is_error|]. apply neutral_moves. by repeat constructor. }
  cbv zeta in H. destruct (String.eqb status ApprovalStatusApproved).
  { texec_invs. eexists [_], _. split; [reflexivity|]. apply neutral_moves. by repeat constructor. }
  destruct (String.eqb status ApprovalStatusTimedOut); [by eapply Hstop|].
  destruct (String.eqb status ApprovalStatusUnavailable); [|by eapply Hstop].
  texec_invs. split; [|apply neutral_moves; by repeat constructor].
  right. unfold errors_Is. apply bool_decide_eq_true. simpl. by left.
Qed.

Ltac advance_skip := eapply advances_last_app; [apply neutral_moves; first [done|by repeat constructor]|].

Lemma apply_settled rt i l err tr e : texec (applyBudgetExceeded rt i l err) tr e -> settled l tr e.
Proof.
  intros H. unfold applyBudgetExceeded in H. cbv zeta in H.
  set (action := match ac_Budget (rt_AgentConfig rt) with Some cfg => _ | None => _ end) in H.
  apply texec_mbind_inv in H as (t1 & t2 & ex & -> & H1 & H).
  assert (Hlast : advances_last l Breached t2 e /\
                  (e = None -> String.eqb action BudgetWaitForApproval && negb ex = true)).
  { apply texec_mbind_inv in H as (t3 & t4 & n & -> & H3 & H). call_inv H3.
    apply texec_mbind_inv in H as (t5 & t6 & u & -> & H5 & H). unfold emit_metric in H5. call_inv H5.
    apply texec_mbind_inv in H as (t7 & t8 & u' & -> & H7 & H). apply neutral_all in H7; [|foot].
    destruct (_ && _).
    - split; [|done]. apply texec_mbind_inv in H as (t9 & t10 & u9 & -> & H9 & H). unfold emit_metric in H9. call_inv H9.
      apply texec_mbind_inv in H as (t11 & t12 & status & -> & H11 & H).
      apply await_moves in H11. apply verdict_advances in H.
      do 4 advance_skip. by eapply advances_last_app.
    - apply texec_mbind_inv in H as (t9 & t10 & u9 & -> & H9 & H). apply texec_mret_inv in H as [-> ->].
      split; [|done]. apply neutral_all in H9; [|destruct (String.eqb _ _); unfold emit_metric; foot].
      do 4 advance_skip. split; [apply stop_is_error|by split]. }
  assert (Hn1 : all_neutral t1).
  { destruct (String.eqb action BudgetWaitForApproval); [call_inv H1; by repeat constructor|].
    apply texec_mret_inv in H1 as [-> _]. constructor. }
  destruct Hlast as [Hlast Hwait]. destruct e as [err'|]; simpl in Hlast.
  - destruct Hlast as [Hs Hn]. destruct (budget_moves_app _ _ _ _ _ (neutral_moves _ Breached Hn1) Hn). by split.
  - destruct Hlast as (t & r & -> & Hn).
    apply andb_true_iff in Hwait as [Hw Hex]; [|done]. apply negb_true_iff in Hex. subst ex.
    rewrite Hw in H1. clear Hw H.
    simpl in H1. call_inv H1.
    destruct (budget_moves_app _ _ _ _ _ (neutral_moves _ Breached Hn1) Hn) as [Hg Hnw]. split.
    + rewrite app_assoc, gate_app, Hg. done.
    + intros h h' tk Hs Ht. rewrite app_assoc in Hs. apply steps_app in Hs as (hm & Hs1 & Hs2).
      inversion Hs1 as [|? ? h1 ? ? He Hs3]; subst. simpl in He. destruct He as (tk' & Ht' & Hx & _).
      rewrite Ht in Ht'. injection Ht' as <-. split; [exact Hx|].
      pose proof (steps_keep _ _ _ l Hs1 Hnw) as Hk.
      inversion Hs2 as [|? ? h2 ? ? He2 Hs4]; subst. inversion Hs4; subst. simpl in He2.
      destruct He2 as (tk2 & Ht2 & _ & ->). simpl. rewrite lookup_insert_eq.
      rewrite Hk, Ht in Ht2. by injection Ht2 as <-.
Qed.

(** ** The two check points *)

(** What a check point does to the gate and the tracker, by its verdict. *)
Definition checked (U : Z) (l : loc) (tr : list Event) (b : option error * AgentTelemetry) : Prop :=
  match b.1 with
  | None => spends U l tr
  | Some e => exceeds U l tr /\ stop_error e /\ rt_FinishReason (at_Run b.2) = FinishReasonBudgetExceeded
  end.

Section check_points.
Context (U : Z) (l : loc) (rt : Runtime) (i : AgentLoopInput).
Context (Hl : in_BudgetTracker i = Some l) (Henf : in_EnforceBudget i = true).

Lemma budget_add_inv u tr b :
  texec (call (OBudgetAdd l u)) tr b -> tr = [Ev (S := agent_sig) (OBudgetAdd l u) b].
Proof using. apply (texec_call_inv (OBudgetAdd l u)). Qed.

Lemma one_step h e h' : steps h [e] h' -> heap_step h e h'.
Proof using. intros H. inversion H as [|? ? h1 ? ? He Hs]; subst. by inversion Hs; subst. Qed.

(** A model call's usage is recorded; a breach either stops the run or is settled. *)
Lemma check_budget_checked t u tr b : texec (checkBudget rt i t u) tr b -> checked U l tr b.
Proof using Hl Henf.
  intros H. unfold checkBudget in H. rewrite Hl, Henf in H. simpl in H.
  apply texec_mbind_inv in H as (t1 & t2 & r & -> & H1 & H). apply budget_add_inv in H1 as ->.
  assert (Hadd : forall h h' tk, steps h [Ev (S := agent_sig) (OBudgetAdd l u) r] h' -> hp_budget h !! l = Some tk ->
            exists tk', hp_budget h' !! l = Some tk' /\ Add (Some tk) u = (r, Some tk')).
  { intros h h' tk (tk0 & Ht & Hr & ->)%one_step Htk. rewrite Htk in Ht. injection Ht as <-.
    simpl in *. rewrite lookup_insert_eq. destruct u as [u|]; simpl in *; subst; eauto. }
  assert (Hu : forall tk r' tk', Add (Some tk) u = (Some r', Some tk') ->
            exists v, u = Some v /\ tk' = accumulate tk v).
  { intros tk r' tk'. destruct u as [v|]; simpl; [|done]. intros [= _ <-]. eauto. }
  destruct r as [err|].
  - apply texec_mbind_inv in H as (t3 & t4 & e & -> & H3 & H). apply texec_mret_inv in H as [-> ->].
    rewrite app_nil_r. apply apply_settled in H3. unfold checked, with_budget_stop. simpl.
    destruct e as [err'|]; simpl in H3.
    + destruct H3 as (Hg & Hs & Hw). split; [|done]. split; [done|].
      intros h h' tk (hm & Hs1 & Hs2)%(steps_app _ [_]) Htk HF.
      destruct (Hadd _ _ _ Hs1 Htk) as (tk' & Htk' & Ha). apply (Hu tk) in Ha as (v & -> & ->).
      exists tk, (accumulate tk v). rewrite (steps_keep _ _ _ l Hs2 Hw), Htk'. split; [done|].
      split; [apply rtc_refl|]. right. exists v. split; [|done]. by apply Forall_cons in HF as [HF _].
    + destruct H3 as (Hg & Hx). split; [done|].
      intros h h' tk (hm & Hs1 & Hs2)%(steps_app _ [_]) Htk HF.
      destruct (Hadd _ _ _ Hs1 Htk) as (tk' & Htk' & Ha). destruct (Hx _ _ _ Hs2 Htk') as [Hex Hadv].
      eexists. split; [exact Hadv|]. destruct (Hu _ _ _ Ha) as (v & -> & ->). apply rtc_once.
      eapply (step_approved U tk v); [by apply Forall_cons in HF as [HF _]|exact Ha|done|done].
  - apply texec_mret_inv in H as [-> ->]. split; [done|]. intros h h' tk Hs Htk HF.
    destruct (Hadd _ _ _ Hs Htk) as (tk' & Htk' & Ha). exists tk'. split; [done|].
    destruct u as [v|]; simpl in Ha.
    + apply rtc_once, (step_under U tk v); [by apply Forall_cons in HF as [HF _]|done].
    + injection Ha as <-. apply rtc_refl.
Qed.

Lemma enforce_checked t tr b : texec (enforceBudgetIfExceeded rt i t) tr b -> checked U l tr b.
Proof using Hl Henf.
  intros H. unfold enforceBudgetIfExceeded in H. rewrite Hl, Henf in H. simpl in H.
  apply texec_mbind_inv in H as (t1 & t2 & r & -> & H1 & H). apply (texec_call_inv (OBudgetCheck l)) in H1 as ->.
  assert (Hchk : forall h h' tk, steps h [Ev (S := agent_sig) (OBudgetCheck l) r] h' -> hp_budget h !! l = Some tk ->
            hp_budget h' !! l = Some tk /\ Check_ (Some tk) = r).
  { intros h h' tk (tk0 & Ht & Hr & ->)%one_step Htk. rewrite Htk in Ht. injection Ht as <-.
    simpl in *. by rewrite lookup_insert_eq. }
  destruct r as [err|].
  - apply texec_mbind_inv in H as (t3 & t4 & e & -> & H3 & H). apply texec_mret_inv in H as [-> ->].
    rewrite app_nil_r. apply apply_settled in H3. unfold checked, with_budget_stop. simpl.
    destruct e as [err'|]; simpl in H3.
    + destruct H3 as (Hg & Hs & Hw). split; [|done]. split; [done|].
      intros h h' tk (hm & Hs1 & Hs2)%(steps_app _ [_]) Htk HF. destruct (Hchk _ _ _ Hs1 Htk) as [Htk' _].
      exists tk, tk. rewrite (steps_keep _ _ _ l Hs2 Hw). split; [done|]. split; [apply rtc_refl|by left].
    + destruct H3 as (Hg & Hx). split; [done|].
      intros h h' tk (hm & Hs1 & Hs2)%(steps_app _ [_]) Htk HF. destruct (Hchk _ _ _ Hs1 Htk) as [Htk' Hc].
      destruct (Hx _ _ _ Hs2 Htk') as [Hex Hadv]. eexists. split; [exact Hadv|]. apply rtc_once.
      by eapply step_rechecked.
  - apply texec_mret_inv in H as [-> ->]. split; [done|]. intros h h' tk Hs Htk _.
    destruct (Hchk _ _ _ Hs Htk) as [Htk' _]. exists tk. split; [done|]. apply rtc_refl.
Qed.
End check_points.

(** ** Runs without sub-agents *)

(** How a run, or a part of it, ends with respect to its budget. *)
Definition outcome_checked (U : Z) (l : loc) (tr : list Event) (o : loop_outcome) : Prop :=
  match o with
  | Finished _ => spends U l tr
  | Stopped p e =>
      spends U l tr \/
      exceeds U l tr /\ stop_error e /\
      exists r, p = Some r /\ rt_FinishReason (at_Run (al_Telemetry r)) = FinishReasonBudgetExceeded
  end.

Definition round_checked (U : Z) (l : loc) (tr : list Event) (r : round_result) : Prop :=
  match r with Return o => outcome_checked U l tr o | _ => spends U l tr end.

Lemma outcome_after U l t1 t2 o : spends U l t1 -> outcome_checked U l t2 o -> outcome_checked U l (t1 ++ t2) o.
Proof.
  intros H1. destruct o as [r|p e]; simpl; [by apply spends_app|].
  intros [H2|(H2 & ?)]; [left; by apply spends_app|right]. split; [by apply exceeds_app|done].
Qed.

Lemma round_after U l t1 t2 r : spends U l t1 -> round_checked U l t2 r -> round_checked U l (t1 ++ t2) r.
Proof. intros H1. destruct r; simpl; [by apply spends_app|by apply spends_app|by apply outcome_after]. Qed.

Section no_routes.
Context (exec_sub : Runtime -> AgentLoopInput -> prog loop_outcome) (rt : Runtime) (U : Z) (l : loc).

Record flat_run (i : AgentLoopInput) : Prop := {
  fr_tracker : in_BudgetTracker i = Some l;
  fr_enforce : in_EnforceBudget i = true;
  fr_routes : in_SubAgentRoutes i = [] }.

Ltac free H cs := eapply (spends_within U l cs) in H; [|naive_solver|class_foot].

Lemma batch_spends i ps mid iter calls tr r :
  flat_run i -> texec (run_tools exec_sub rt i ps mid iter calls) tr r -> spends U l tr.
Proof.
  intros Hi. apply (spends_within U l [CTool; CAwait]); [naive_solver|].
  apply batch_run_tools; [done|]. intros name route tc sub id Hr. by rewrite (fr_routes _ Hi) in Hr.
Qed.

(** After a check point: stop with its error, or go on. *)
Lemma checked_then i tr t2 b (s : loop_state) (k : prog round_result) r :
  checked U l tr b ->
  texec (match b.1 with
         | Some err => mret (Return (Stopped (Some (partial_result (set_telemetry s b.2))) err))
         | None => k
         end) t2 r ->
  (b.1 = None -> texec k t2 r -> round_checked U l t2 r) -> flat_run i ->
  round_checked U l (tr ++ t2) r.
Proof.
  intros Hc H Hk _. unfold checked in Hc. destruct b as [[e|] t]; simpl in *.
  - apply texec_mret_inv in H as [-> ->]. rewrite app_nil_r. right. destruct Hc as (? & ? & ?). eauto 6.
  - apply round_after; [done|]. by apply Hk.
Qed.

Lemma tool_round_checked i ps mid iter res s tr r :
  flat_run i -> texec (tool_round exec_sub rt i ps mid iter res s) tr r -> round_checked U l tr r.
Proof.
  intros Hi H. unfold tool_round in H. cbv zeta in H.
  apply texec_mbind_inv in H as (t1 & t2 & rr & -> & H1 & H). apply batch_spends in H1; [|done].
  apply round_after; [done|]. destruct rr as [e|rs].
  { apply texec_mret_inv in H as [-> ->]. left. apply spends_nil. }
  apply texec_mbind_inv in H as (t3 & t4 & s1 & -> & H3 & H).
  eapply (spends_within U l [CRecord]) in H3; [|naive_solver|apply within_collect]. apply round_after; [done|].
  apply texec_mbind_inv in H as (t5 & t6 & u & -> & H5 & H).
  eapply (spends_within U l [CSnapshot]) in H5; [|naive_solver|apply within_snapshot]. apply round_after; [done|].
  apply texec_mbind_inv in H as (t7 & t8 & b & -> & H7 & H).
  eapply checked_then; [by eapply enforce_checked; [apply Hi|apply Hi|]|exact H| |done].
  intros _ Hk. apply texec_mbind_inv in Hk as (t9 & t10 & s2 & -> & H9 & Hk). apply texec_mret_inv in Hk as [-> ->].
  simpl. rewrite app_nil_r. eapply (spends_within U l [CAppend]); [naive_solver|apply within_save|exact H9].
Qed.

Lemma final_checked i ps mem ret iter s tr r :
  flat_run i -> texec (final_call rt i ps mem ret iter s) tr r -> round_checked U l tr r.
Proof.
  intros Hi H. unfold final_call in H.
  apply texec_mbind_inv in H as (t1 & t2 & mid & -> & H1 & H). free H1 (@nil op_class). apply round_after; [done|].
  apply texec_mbind_inv in H as (t3 & t4 & rr & -> & H3 & H).
  eapply (spends_within U l [CLlm]) in H3; [|naive_solver|by apply within_llm]. apply round_after; [done|].
  destruct rr as [e|[res fb]]; [apply texec_mret_inv in H as [-> ->]; left; apply spends_nil|]. cbv zeta in H.
  apply texec_mbind_inv in H as (t5 & t6 & b & -> & H5 & H).
  eapply checked_then; [by eapply check_budget_checked; [apply Hi|apply Hi|]|exact H| |done].
  intros _ Hk. apply texec_mret_inv in Hk as [-> ->]. apply spends_nil.
Qed.

Lemma llm_round_checked i ps mem ret orig iter s tr r :
  flat_run i -> texec (llm_round exec_sub rt i ps mem ret orig iter s) tr r -> round_checked U l tr r.
Proof.
  intros Hi H. unfold llm_round in H.
  apply texec_mbind_inv in H as (t1 & t2 & mid & -> & H1 & H). free H1 (@nil op_class). apply round_after; [done|].
  apply texec_mbind_inv in H as (t3 & t4 & rr & -> & H3 & H).
  eapply (spends_within U l [CLlm]) in H3; [|naive_solver|by apply within_llm]. apply round_after; [done|].
  destruct rr as [e|[res fb]]; [apply texec_mret_inv in H as [-> ->]; left; apply spends_nil|]. cbv zeta in H.
  apply texec_mbind_inv in H as (t5 & t6 & b & -> & H5 & H).
  eapply checked_then; [by eapply check_budget_checked; [apply Hi|apply Hi|]|exact H| |done].
  intros _ Hk. destruct (lr_ToolCalls res).
  { apply texec_mret_inv in Hk as [-> ->]. apply spends_nil. }
  unfold after_calls in Hk. destruct (iter =? _); [|by eapply tool_round_checked].
  apply texec_mbind_inv in Hk as (t7 & t8 & d & -> & H7 & Hk). free H7 (@nil op_class). apply round_after; [done|].
  destruct (dec_Action d); try (by eapply final_checked). by eapply tool_round_checked.
Qed.

Lemma rounds_checked fuel i ps mem ret orig iter s tr r :
  flat_run i -> texec (rounds exec_sub rt fuel i ps mem ret orig iter s) tr r ->
  match r with inl o => outcome_checked U l tr o | inr _ => spends U l tr end.
Proof.
  intros Hi. revert iter s tr. induction fuel as [|fuel IH]; intros iter s tr H; simpl in H;
    (destruct (ls_maxIter s <=? iter); [apply texec_mret_inv in H as [-> ->]; apply spends_nil|]).
  - apply texec_mbind_inv in H as (t1 & t2 & u & -> & H1 & H). apply texec_mret_inv in H as [-> ->].
    rewrite app_nil_r. eapply (spends_within U l [CFuel]); [naive_solver| |exact H1]. apply always_call. right. by left.
  - apply texec_mbind_inv in H as (t1 & t2 & rr & -> & H1 & H).
    assert (Hr : round_checked U l t1 rr).
    { unfold iteration in H1. destruct (in_circuitBreaker i); [|by eapply llm_round_checked].
      apply texec_mbind_inv in H1 as (t3 & t4 & now & -> & H3 & H1). free H3 (@nil op_class).
      apply round_after; [done|]. eapply llm_round_checked; [|exact H1]. by destruct Hi. }
    destruct rr as [s'|s'|o]; simpl in Hr.
    + apply IH in H. destruct r; [by apply outcome_after|by apply spends_app].
    + apply texec_mret_inv in H as [-> ->]. by rewrite app_nil_r.
    + apply texec_mret_inv in H as [-> ->]. by rewrite app_nil_r.
Qed.

Lemma body_checked i tr o :
  flat_run i -> texec (executeAgentLoop_body exec_sub rt i) tr o -> outcome_checked U l tr o.
Proof.
  intros Hi H. unfold executeAgentLoop_body in H. cbv zeta in H.
  apply texec_mbind_inv in H as (t1 & t2 & now & -> & H1 & H). free H1 (@nil op_class). apply outcome_after; [done|].
  apply texec_mbind_inv in H as (t3 & t4 & cb & -> & H3 & H). free H3 (@nil op_class). apply outcome_after; [done|].
  apply texec_mbind_inv in H as (t5 & t6 & h & -> & H5 & H). free H5 (@nil op_class). apply outcome_after; [done|].
  apply texec_mbind_inv in H as (t7 & t8 & m & -> & H7 & H). free H7 (@nil op_class). apply outcome_after; [done|].
  destruct m as [e|m]; [apply texec_mret_inv in H as [-> ->]; left; apply spends_nil|].
  apply texec_mbind_inv in H as (t9 & t10 & rr & -> & H9 & H). free H9 (@nil op_class). apply outcome_after; [done|].
  destruct rr as [e|rr]; [apply texec_mret_inv in H as [-> ->]; left; apply spends_nil|].
  apply texec_mbind_inv in H as (t11 & t12 & oo & -> & H11 & H).
  apply rounds_checked in H11; [|by destruct Hi]. destruct oo as [o'|s].
  - apply texec_mret_inv in H as [-> ->]. by rewrite app_nil_r.
  - apply outcome_after; [done|]. pose proof H as Hf. apply finish_run_spec in Hf as (r & -> & _).
    eapply (spends_within U l [CAppend]); [naive_solver|apply within_finish|exact H].
Qed.
End no_routes.

(** C4: Once the budget is reported exceeded, a run without sub-agents spends nothing more: no
    model call and no tool execution happens before the pause's budget request was answered
    [APPROVED] and the watermark advanced, and the watermark is never advanced without such
    an answer to the breach; a finished run ends with no unsettled breach, and a run that
    ends with one is stopped by a budget error, its partial result marked
    [budget_exceeded]. *)
Theorem breach_stops_spending rt i l tr o :
  in_BudgetTracker i = Some l -> in_EnforceBudget i = true -> in_SubAgentRoutes i = [] ->
  texec (executeAgentLoop rt i) tr o ->
  exists s, gate Settled tr = Some s /\
    (s <> Settled -> exists r e, o = Stopped (Some r) e /\ stop_error e /\
       rt_FinishReason (at_Run (al_Telemetry r)) = FinishReasonBudgetExceeded).
Proof.
  intros Hl He Hr H. rewrite executeAgentLoop_unfold in H. apply (body_checked _ _ 0 l) in H; [|by split].
  destruct o as [r|p e]; simpl in H; [by exists Settled; destruct H|].
  destruct H as [[Hg _]|([Hg _] & Hs & r & -> & Hf)]; [by exists Settled|]. exists Breached. split; [done|]. eauto 6.
Qed.

