(* ===== verification/LoopEvents.v ===== *)
(** The event stream of a run: the events of one tool call are bracketed and agree with the
    tool message, and a stream ends with exactly one [RUN_*] event, which agrees with the
    result of the run. *)
From S2P Require Import Prelude GoLib Types Codec Prog Policies MemoryConfig Budget CircuitBreaker Telemetry Events Effects Hooks ErrorControl LLM Memory Tools Retry AgentLoop LoopFacts LoopBounds.

#[local] Open Scope string_scope.
#[local] Open Scope list_scope.
#[local] Open Scope Z_scope.

(** ** Lifecycle events *)

Definition no_lifecycle (o : Op) : Prop := class_of o <> CLifecycle.

Lemma no_lifecycle_within cs {A} (m : prog A) :
  ~ In CLifecycle cs -> always (within cs) m -> always no_lifecycle m.
Proof.
  intros Hcs. apply always_mono. intros o [Ho|Ho] Hc; [congruence|]. by rewrite Hc in Ho.
Qed.

Lemma no_lifecycle_loop fuel rt i :
  (depth_fuel i <= fuel)%nat -> always no_lifecycle (executeAgentLoop_fuel fuel rt i).
Proof.
  revert rt i. induction fuel as [|fuel IH]; intros rt i Hf; simpl; [unfold depth_fuel in Hf; lia|].
  apply (foot_body no_lifecycle) with (I := fun j => depth_fuel j = depth_fuel i); try done.
  - intros o Ho Hc. unfold within in Ho. rewrite Hc in Ho. simpl in Ho. intuition done.
  - intros j name route tc sub id Hj _ _ Hlt. apply IH. unfold depth_fuel in *. simpl. lia.
  - intros. apply (no_lifecycle_within [CAppend]); [naive_solver|apply within_save].
  - intros. apply (no_lifecycle_within [CAppend]); [naive_solver|apply within_finish].
Qed.

Lemma no_lifecycle_published tr :
  Forall (fun e => no_lifecycle (ev_op e)) tr -> Forall (fun b => is_lifecycle b = false) (published tr).
Proof.
  induction 1 as [|[o r] tr Ho _ IH]; [constructor|].
  unfold published. simpl. unfold published_body at 1. simpl in *.
  destruct o; simpl; try exact IH. constructor; [|exact IH].
  unfold no_lifecycle in Ho. simpl in Ho. by destruct (is_lifecycle (ae_Body e)).
Qed.

Lemma run_published rt i tr o :
  texec (executeAgentLoop rt i) tr o -> Forall (fun b => is_lifecycle b = false) (published tr).
Proof.
  intros H. apply no_lifecycle_published.
  exact (always_spec _ _ (no_lifecycle_loop (depth_fuel i) rt i (le_n _)) tr o H).
Qed.

(** The event that announces a result. *)
Definition terminal_event (threadID runID : string) (r : result AgentRunResult) : EventBody :=
  match r with
  | inr res => AgentRunFinishedEvent threadID runID (Some res)
  | inl e => AgentRunErrorEvent (err_msg e) None
  end.

Lemma lifecycle_published channel b tr u :
  channel <> "" -> texec (publishLifecycleEvent channel b) tr u -> published tr = [b].
Proof.
  intros Hc H. unfold publishLifecycleEvent in H. apply String.eqb_neq in Hc. rewrite Hc in H.
  texec_invs. done.
Qed.

Lemma channel_named runID : localChannelName runID <> "".
Proof. discriminate. Qed.

(** *** Panics

    The loop may panic at any effect: its trace is then the beginning of an execution. *)
Inductive interrupted {A} : prog A -> list Event -> Prop :=
| interrupted_here m : interrupted m []
| interrupted_later o k r tr : interrupted (k r) tr -> interrupted (Do (S := agent_sig) o k) (Ev (S := agent_sig) o r :: tr).

Lemma interrupted_always (P : Op -> Prop) {A} (m : prog A) tr :
  always P m -> interrupted m tr -> Forall (fun e => P (ev_op e)) tr.
Proof. intros H Hx. induction Hx as [m|o k r tr _ IH]; [constructor|]. destruct H as [Ho Hk]. constructor; [done|by apply IH]. Qed.

(** A stream of the local runtime, from [Stream] to the end of its goroutine: RUN_STARTED, then
    the driver of the run, or the loop up to a panic and the recovery from it. *)
Inductive streamed (rt : Runtime) (handler : bool) (ctx : Ctx) (req : RunRequest) (runID threadID : string)
    (budget : option loc) : list Event -> result AgentRunResult -> Prop :=
| streamed_driven t0 t1 r :
    texec (stream_started runID threadID) t0 tt ->
    texec (driveStream rt handler ctx req runID threadID budget) t1 r ->
    streamed rt handler ctx req runID threadID budget (t0 ++ t1) r
| streamed_panicked t0 t1 t2 panicked r :
    texec (stream_started runID threadID) t0 tt ->
    interrupted (executeAgentLoop rt (stream_input rt handler ctx req runID budget)) t1 ->
    texec (driveStream_recovered runID panicked) t2 r ->
    streamed rt handler ctx req runID threadID budget (t0 ++ t1 ++ t2) r.

Lemma drive_published rt handler ctx req runID threadID budget tr r :
  texec (driveStream rt handler ctx req runID threadID budget) tr r ->
  exists before, published tr = before ++ [terminal_event threadID runID r] /\ Forall (fun b => is_lifecycle b = false) before.
Proof.
  unfold driveStream. cbv zeta. intros (t1 & t2 & o & -> & H1 & H)%texec_mbind_inv.
  apply run_published in H1.
  exists (published t1). split; [|done]. rewrite published_app. f_equal.
  destruct o as [res|p e]; apply texec_mbind_inv in H as (t3 & t4 & u & -> & H3 & H);
    apply texec_mret_inv in H as [-> ->]; rewrite app_nil_r;
    exact (lifecycle_published _ _ _ _ (channel_named runID) H3).
Qed.


(** ** The events of one tool call *)

(** What the run's filter and channel let through. *)
Definition shown (i : AgentLoopInput) (l : list EventBody) : list EventBody :=
  if String.eqb (TrimSpace (in_ChannelName i)) "" then []
  else List.filter (event_allowed (in_EventTypes i)) l.

Lemma shown_app i l k : shown i (l ++ k) = shown i l ++ shown i k.
Proof. unfold shown. case_match; [done|]. apply List.filter_app. Qed.

Lemma emit_shown i b tr u : texec (emit_body i b) tr u -> published tr = shown i [b].
Proof.
  unfold emit_body, emitEvent, loop_emit, publishEventToChannel, shown. simpl. intros H.
  apply texec_mbind_inv in H as (t1 & t2 & now & -> & H1 & H). call_inv H1.
  destruct (event_allowed _ _); [|texec_invs; by case_match]. case_match; texec_invs; done.
Qed.

(** The end of a call: TOOL_CALL_END and TOOL_CALL_RESULT with the content of the message. *)
Definition closing (messageID : string) (tc : ToolCallRequest) (content : string) : list EventBody :=
  [AgentToolCallEndEvent (tc_ToolCallID tc);
   AgentToolCallResultEvent messageID (tc_ToolCallID tc) content MessageRoleTool].

(** How the events of a call end, given its result: closed, or left open by a hard error. *)
Definition ends_with (messageID : string) (tc : ToolCallRequest) (r : toolResult * option error)
    : list EventBody :=
  match r.2 with None => closing messageID tc (m_Content (tr_message r.1)) | Some _ => [] end.

Lemma finish_shown i mid tc content failed tr r :
  texec (finish_tool i mid tc content failed) tr r -> published tr = shown i (ends_with mid tc r).
Proof.
  unfold finish_tool, emitToolEndThenResult. intros (t1 & t2 & u & -> & H1 & H)%texec_mbind_inv.
  apply texec_mret_inv in H as [-> ->]. rewrite app_nil_r.
  apply texec_mbind_inv in H1 as (t3 & t4 & u' & -> & H3%emit_shown & H4%emit_shown).
  rewrite published_app, H3, H4, <- shown_app. done.
Qed.

Lemma start_shown i mid tc tr u :
  texec (emit_tool_start i mid tc) tr u ->
  exists args, published tr = shown i (AgentToolCallStartEvent (tc_ToolCallID tc) (tc_ToolName tc) mid :: args) /\
    (args = [] \/ exists s, args = [AgentToolCallArgsEvent (tc_ToolCallID tc) s]).
Proof.
  unfold emit_tool_start. intros (t1 & t2 & u' & -> & H1%emit_shown & H)%texec_mbind_inv.
  destruct (Json.marshal_args _) as [s|]; [destruct (_ || _)|].
  - texec_invs. exists []. rewrite app_nil_r. auto.
  - apply emit_shown in H. exists [AgentToolCallArgsEvent (tc_ToolCallID tc) s].
    rewrite published_app, H1, H, <- shown_app. eauto.
  - texec_invs. exists []. rewrite app_nil_r. auto.
Qed.

Lemma silent_policy {A} p (op : prog (result A)) : always silent op -> always silent (executeWithPolicy p op).
Proof. intros H. by apply always_policy. Qed.

Lemma silent_authorize rt tools n a : always silent (AuthorizeTool rt tools n a).
Proof. by apply foot_AuthorizeTool. Qed.

Lemma silent_store rt i : always silent (StoreMemoryRecords rt i).
Proof.
  unfold StoreMemoryRecords. foot. generalize (sri_Records i) as recs.
  induction recs as [|r recs IH]; simpl; foot.
  unfold storeRecord, write_record, store_target, dedupStoreOptions, store_failed, emit_metric. foot.
Qed.

Lemma silent_run_tool rt i iter tc ps : always silent (run_tool rt i iter tc ps).
Proof.
  unfold run_tool. apply always_bind; [|foot]. apply silent_policy.
  unfold ExecuteTool, executeSaveMemoryTool, executeTool, execute_plain, executeRetrieverTool, tool_failed,
    tool_completed, NoteUnknownTool, emit_metric. foot. apply silent_store.
Qed.

Lemma silent_tripped i tc : always silent (circuit_tripped i tc).
Proof. unfold circuit_tripped. foot. Qed.

Lemma silent_release t : always silent (release_approval t).
Proof. unfold release_approval. foot. Qed.

Ltac quiet H := apply silent_trace in H; [|first [apply silent_tripped | apply silent_release | apply silent_run_tool
  | apply silent_policy, silent_authorize | unfold NoteUnknownTool, NoteCircuitSkip, emit_metric; foot]].

Lemma gate_shown rt i tc b tr r :
  texec (approval_gate rt i tc b) tr r ->
  published tr = [] \/ exists token, published tr = shown i [approval_event rt tc b token].
Proof.
  unfold approval_gate. intros H. destruct (negb _); [texec_invs; by left|].
  destruct (_ && _); [texec_invs; by left|].
  apply texec_mbind_inv in H as (t1 & t2 & token & -> & H1 & H). call_inv H1.
  apply texec_mbind_inv in H as (t3 & t4 & st & -> & H3 & H). apply texec_mret_inv in H as [-> ->].
  unfold await_tool_approval in H3. cbv zeta in H3.
  apply texec_mbind_inv in H3 as (t5 & t6 & u & -> & H5 & H3). call_inv H5.
  apply texec_mbind_inv in H3 as (t7 & t8 & u' & -> & H7%emit_shown & H3).
  right. exists token. apply silent_trace in H3; [|foot].
  rewrite app_nil_r, !published_app, H7, H3. simpl. by rewrite app_nil_r.
Qed.

(** What lies between the start of a call and its end. *)
Definition between_ok (rt : Runtime) (i : AgentLoopInput) (tc : ToolCallRequest) (l : list EventBody) : Prop :=
  lookup_route (in_SubAgentRoutes i) (tc_ToolName tc) = None ->
  l = [] \/ exists token, l = shown i [approval_event rt tc false token].

Section calls.
Context (exec_sub : Runtime -> AgentLoopInput -> prog loop_outcome) (rt : Runtime) (i : AgentLoopInput).

Lemma dispatch_shown mid iter tc ps route status tr r :
  texec (dispatch exec_sub rt i mid iter tc ps route status) tr r ->
  exists l, published tr = l ++ shown i (ends_with mid tc r) /\ (route = None -> l = []).
Proof using.
  unfold dispatch. intros H. repeat case_match; try (exists []; split; [by eapply finish_shown|done]).
  - apply texec_mbind_inv in H as (t1 & t2 & c & -> & Hx & H%finish_shown).
    exists (published t1). by rewrite published_app, H.
  - apply texec_mbind_inv in H as (t1 & t2 & c & -> & Hx & H%finish_shown). quiet Hx.
    exists []. by rewrite published_app, Hx, H.
  - apply texec_mret_inv in H as [-> ->]. exists []. split; [|done]. unfold shown. simpl. by case_match.
Qed.

Lemma gated_shown mid iter tc ps tr r :
  texec (gated exec_sub rt i mid iter tc ps) tr r ->
  exists l, published tr = l ++ shown i (ends_with mid tc r) /\ between_ok rt i tc l.
Proof using.
  unfold gated. cbv zeta. intros (t1 & t2 & [st tok] & -> & H1%gate_shown & H)%texec_mbind_inv. simpl in H.
  apply texec_mbind_inv in H as (t3 & t4 & r' & -> & H3 & H).
  apply texec_mbind_inv in H as (t5 & t6 & u & -> & H5 & H). apply texec_mret_inv in H as [-> ->]. quiet H5.
  rewrite !published_app, H5, app_nil_r. unfold between_ok.
  destruct st as [e|status].
  - apply texec_mret_inv in H3 as [-> ->]. exists (published t1). split; [unfold shown; simpl; by case_match|].
    intros Hr. rewrite Hr in H1. done.
  - apply dispatch_shown in H3 as (l & -> & Hl). exists (published t1 ++ l). rewrite app_assoc.
    split; [done|]. intros Hr. rewrite Hr in H1, Hl. rewrite Hl, app_nil_r by done. done.
Qed.
End calls.

(** C26: The events of a tool call are bracketed: TOOL_CALL_START, then at most one TOOL_CALL_ARGS,
    then (unless the call is delegated) at most one approval event, then TOOL_CALL_END and
    TOOL_CALL_RESULT carrying exactly the content of the tool message the model will see.
    A hard error (authorizer failure, cancelled or timed-out approval, unexpected approval
    status) is the one case that leaves the call open on the stream. *)
Theorem tool_events_bracketed exec_sub rt i mid iter ps tc tr r :
  texec (executeSingleTool exec_sub rt i mid iter ps tc) tr r ->
  exists args between,
    published tr =
      shown i (AgentToolCallStartEvent (tc_ToolCallID tc) (tc_ToolName tc) mid :: args) ++ between ++
      shown i (ends_with mid tc r) /\
    (args = [] \/ exists s, args = [AgentToolCallArgsEvent (tc_ToolCallID tc) s]) /\
    between_ok rt i tc between.
Proof.
  unfold executeSingleTool. intros (t1 & t2 & u & -> & H1 & H)%texec_mbind_inv.
  destruct (start_shown _ _ _ _ _ H1) as (args & H1' & Hargs). rewrite published_app, H1'. exists args.
  assert (exists l, published t2 = l ++ shown i (ends_with mid tc r) /\ between_ok rt i tc l) as (l & -> & Hl);
    [|by exists l].
  assert (Hnil : between_ok rt i tc []) by (intros _; by left).
  destruct (IsUnknownTool _ _).
  { apply texec_mbind_inv in H as (t3 & t4 & u' & -> & H3 & H%finish_shown). exists [].
    rewrite published_app, H. destruct (tc_Unknown tc); [texec_invs; done|]. quiet H3. by rewrite H3. }
  apply texec_mbind_inv in H as (t3 & t4 & b & -> & H3 & H). quiet H3. rewrite published_app, H3. simpl.
  destruct (b : bool).
  { apply texec_mbind_inv in H as (t5 & t6 & u' & -> & H5 & H%finish_shown). quiet H5. exists [].
    by rewrite published_app, H5, H. }
  apply texec_mbind_inv in H as (t5 & t6 & a & -> & H5 & H). quiet H5. rewrite published_app, H5. simpl.
  destruct a as [e|auth].
  - apply texec_mret_inv in H as [-> ->]. exists []. split; [unfold shown; simpl; by case_match|done].
  - destruct (negb _); [|by eapply gated_shown]. apply finish_shown in H. by exists [].
Qed.
