(* ===== verification/LoopBreaker.v ===== *)
(** The circuit breaker inside the agent loop: in a run without sub-agents no tool executes
    between its trip and the end of the run, when trips do not expire. *)
From S2P Require Import Prelude GoLib Types Codec Prog Policies MemoryConfig Budget CircuitBreaker Telemetry Events Effects Hooks ErrorControl LLM Memory Tools Retry AgentLoop LoopFacts LoopSafety LoopBounds.

#[local] Open Scope string_scope.
#[local] Open Scope list_scope.
#[local] Open Scope Z_scope.

(** ** Trace predicates *)

(** Executions that the breaker watches over. *)
Definition needs_check (e : Event) : Prop :=
  match ev_op e with OToolExecute _ t _ _ => CountsTowardToolTelemetry (KindOf t) = true | _ => False end.

(** [f] is a negative answer of the breaker at [l] for the tool that [e] executes. *)
Definition checked_by (l : loc) (f e : Event) : Prop :=
  match ev_op e with
  | OToolExecute _ t _ _ => exists now, f = Ev (S := agent_sig) (OCBIsTripped l (t_Name t) now) false
  | _ => True
  end.

(** Effects that cannot trip a tool. *)
Definition unrecorded (e : Event) : Prop :=
  class_of (ev_op e) <> CRecord /\ class_of (ev_op e) <> CSnapshot.

(** Every watched execution follows a negative answer for its tool, with no outcome recorded
    in between. *)
Definition vetted (l : loc) (tr : list Event) : Prop :=
  forall pre e post, tr = pre ++ e :: post -> needs_check e ->
    exists p1 f p2, pre = p1 ++ f :: p2 /\ checked_by l f e /\ Forall unrecorded p2.

(** Every reload of the breaker directly follows the reading of the same snapshot. *)
Definition paired (tr : list Event) : Prop :=
  forall pre l st r post, tr = pre ++ Ev (S := agent_sig) (OCBRestore l st) r :: post ->
    exists pre', pre = pre' ++ [Ev (S := agent_sig) (OCBState l) st].

Definition orderly (l : loc) (tr : list Event) : Prop := vetted l tr /\ paired tr.

Lemma split_app {A} (t1 t2 pre : list A) e post :
  t1 ++ t2 = pre ++ e :: post ->
  (exists t, t1 = pre ++ e :: t /\ post = t ++ t2) \/ (exists p, pre = t1 ++ p /\ t2 = p ++ e :: post).
Proof.
  revert t1. induction pre as [|x pre IH]; intros [|y t1] H; simpl in *.
  - right. by exists [].
  - injection H as -> H. left. by exists t1.
  - right. by exists (x :: pre).
  - injection H as -> H. destruct (IH _ H) as [(t & -> & ->)|(p & -> & ->)]; [left|right]; eauto.
Qed.

Lemma vetted_app l t1 t2 : vetted l t1 -> vetted l t2 -> vetted l (t1 ++ t2).
Proof.
  intros H1 H2 pre e post [(t & -> & _)|(p & -> & ->)]%split_app He; [by eapply H1|].
  destruct (H2 p e post eq_refl He) as (p1 & f & p2 & -> & ? & ?). exists (t1 ++ p1), f, p2.
  by rewrite <- app_assoc.
Qed.

Lemma paired_app t1 t2 : paired t1 -> paired t2 -> paired (t1 ++ t2).
Proof.
  intros H1 H2 pre l st r post [(t & -> & _)|(p & -> & ->)]%split_app; [by eapply H1|].
  destruct (H2 p l st r post eq_refl) as [p' ->]. exists (t1 ++ p'). by rewrite <- app_assoc.
Qed.

Lemma orderly_nil l : orderly l [].
Proof. split; [by intros [] ? ? ?|by intros [] ? ? ? ? ?]. Qed.

Lemma orderly_app l t1 t2 : orderly l t1 -> orderly l t2 -> orderly l (t1 ++ t2).
Proof. intros [? ?] [? ?]. split; [by apply vetted_app|by apply paired_app]. Qed.

Lemma paired_unrecorded tr : Forall unrecorded tr -> paired tr.
Proof.
  intros H pre l st r post ->. apply Forall_app in H as [_ H]. apply Forall_cons in H as [[_ H] _]. done.
Qed.

(** A batch: guarded executions and nothing recorded. *)
Lemma orderly_batch l tr : guarded needs_check (checked_by l) [] tr -> Forall unrecorded tr -> orderly l tr.
Proof.
  intros Hg H. split; [|by apply paired_unrecorded]. intros pre e post -> He.
  destruct (Hg pre e post eq_refl He) as (f & Hin & Hf). simpl in Hin. apply in_split in Hin as (p1 & p2 & ->).
  exists p1, f, p2. repeat split; [done|]. apply Forall_app in H as [H _]. apply Forall_app in H as [_ H].
  by apply Forall_cons in H as [_ H].
Qed.

Lemma orderly_within l cs {A} (m : prog A) tr a :
  ~ In CTool cs -> ~ In CSnapshot cs -> always (within cs) m -> texec m tr a -> orderly l tr.
Proof.
  intros Ht Hs Hm H. apply (always_spec _ _ Hm) in H. rewrite List.Forall_forall in H.
  assert (Hc : forall e c, In e tr -> class_of (ev_op e) = c -> c = COther \/ In c cs).
  { intros e c Hin <-. destruct (H e Hin) as [He|He]; [by left|by right]. }
  split.
  - intros pre [o r] post -> He. exfalso. unfold needs_check in He. simpl in He.
    destruct o; try done. destruct (Hc _ CTool (in_elt _ _ _) eq_refl); [done|tauto].
  - intros pre l' st r post ->. exfalso. destruct (Hc _ CSnapshot (in_elt _ _ _) eq_refl); [done|tauto].
Qed.

(** ** Every run without sub-agents is orderly *)

Lemma executes_within rt tools name id cs {A} (m : prog A) :
  ~ In CTool cs -> always (within cs) m -> always (executes rt tools name id) m.
Proof.
  intros Hc. apply always_mono. intros o [Ho|Ho]; destruct o; simpl in *; try done; tauto.
Qed.

Section runs.
Context (exec_sub : Runtime -> AgentLoopInput -> prog loop_outcome) (rt : Runtime) (l : loc).
Local Notation watched := (guarded needs_check (checked_by l) []).

Record flat_run (i : AgentLoopInput) : Prop := {
  fr_breaker : in_circuitBreaker i = Some l;
  fr_routes : in_SubAgentRoutes i = [] }.

Lemma needs_check_tool e : needs_check e -> class_of (ev_op e) = CTool.
Proof. unfold needs_check. by destruct (ev_op e). Qed.

#[local] Instance watched_shuffleable : Shuffleable watched.
Proof.
  apply Shuffleable_guarded. intros e He Hn%needs_check_tool. unfold is_sched in He. by rewrite He in Hn.
Qed.

Lemma gated_executes i mid iter tc ps :
  flat_run i ->
  always (executes rt (in_Tools i) (tc_ToolName tc) (tc_ToolCallID tc)) (gated exec_sub rt i mid iter tc ps).
Proof.
  intros Hi. unfold gated. rewrite (fr_routes _ Hi). simpl. apply always_bind.
  - eapply (executes_within _ _ _ _ [CAwait]); [naive_solver|apply within_gate].
  - intros [st tok]. apply always_bind.
    2: { intros. eapply (executes_within _ _ _ _ []); [naive_solver|class_foot]. }
    simpl. destruct st as [e|status]; [apply always_ret|]. unfold dispatch.
    destruct (String.eqb status _).
    + apply always_bind; [apply run_tool_executes|]. intros.
      eapply (executes_within _ _ _ _ []); [naive_solver|class_foot].
    + repeat case_match; (eapply (executes_within _ _ _ _ []); [naive_solver|class_foot]).
Qed.

Lemma single_tool_watched i mid iter ps tc tr r :
  flat_run i -> made_for rt (in_Tools i) tc -> texec (executeSingleTool exec_sub rt i mid iter ps tc) tr r ->
  watched tr.
Proof.
  intros Hi Hmade H. unfold executeSingleTool in H.
  assert (Hq : forall past {A} (m : prog A) t a, always (within []) m -> texec m t a ->
            guarded needs_check (checked_by l) past t).
  { intros past A m t a Hm Hx. apply guarded_no_needs. intros e He Hn%needs_check_tool.
    apply (always_spec _ _ Hm) in Hx. rewrite List.Forall_forall in Hx.
    destruct (Hx e He) as [Hc|[]]. by rewrite Hn in Hc. }
  apply texec_mbind_inv in H as (t1 & t2 & u & -> & H1 & H).
  apply guarded_app; [eapply Hq; [|exact H1]; class_foot|]. apply (guarded_mono _ _ []); [by intros ? []|].
  destruct (IsUnknownTool tc (in_Tools i)); [eapply Hq; [|exact H]; class_foot|].
  apply texec_mbind_inv in H as (t3 & t4 & b & -> & H3 & H).
  apply guarded_app; [eapply Hq; [|exact H3]; class_foot|].
  destruct (b : bool); [eapply Hq; [|exact H]; class_foot|]. apply guarded_each.
  assert (Hx : Forall (fun e => executes rt (in_Tools i) (tc_ToolName tc) (tc_ToolCallID tc) (ev_op e)) t4).
  { eapply always_spec in H; [exact H|]. apply always_bind.
    - eapply (executes_within _ _ _ _ []); [naive_solver|class_foot].
    - intros [e|auth]; [apply always_ret|]. destruct (negb _); [|by apply gated_executes].
      eapply (executes_within _ _ _ _ []); [naive_solver|class_foot]. }
  eapply Forall_impl; [exact Hx|]. intros [eo ea] He Hn. unfold needs_check, checked_by in *. simpl in *.
  destruct eo; try done.
  destruct He as (-> & Hf & _). destruct Hmade as (c & _ & Hname & _ & Hc). rewrite <- Hname, Hf in Hc.
  destruct Hc as (Hunk & _ & Hkind). apply FindToolByName_Some in Hf as [_ ->].
  unfold circuit_tripped, CountsTowardCircuitBreaker in H3. rewrite (fr_breaker _ Hi), Hunk, Hkind, Hn in H3.
  simpl in H3. call_inv H3. eexists. split; [by left|]. eauto.
Qed.

Local Notation keeps m := (spec m (fun tr _ => orderly l tr)).

Lemma keeps_ret {A} (a : A) : keeps (mret a).
Proof. apply spec_mret, orderly_nil. Qed.

Lemma keeps_within cs {A} (m : prog A) :
  ~ In CTool cs -> ~ In CSnapshot cs -> always (within cs) m -> keeps m.
Proof. intros Ht Hs Hm tr a. by apply (orderly_within l cs). Qed.

Lemma keeps_bind {A B} (R : A -> Prop) (m : prog A) (f : A -> prog B) :
  keeps m -> spec m (fun _ a => R a) -> (forall a, R a -> keeps (f a)) -> keeps (m ≫= f).
Proof.
  intros Hm HR Hf tr b (t1 & t2 & a & -> & H1 & H2)%texec_mbind_inv.
  apply orderly_app; [by eapply Hm|]. eapply Hf; [by eapply HR|done].
Qed.

Lemma keeps_seq {A B} (m : prog A) (f : A -> prog B) :
  keeps m -> (forall a, keeps (f a)) -> keeps (m ≫= f).
Proof. intros Hm Hf. apply (keeps_bind (fun _ => True)); [done|apply spec_true|auto]. Qed.

Ltac quiet cs := apply (keeps_within cs); [naive_solver|naive_solver|class_foot].

Lemma keeps_batch i ps mid iter calls :
  flat_run i -> Forall (made_for rt (in_Tools i)) calls -> keeps (run_tools exec_sub rt i ps mid iter calls).
Proof.
  intros Hi Hm tr r H. apply orderly_batch.
  - rewrite List.Forall_forall in Hm.
    assert (H1 : forall tc, In tc calls -> holds watched (run_one exec_sub rt i mid iter ps tc)).
    { intros tc Hin t a (t1 & t2 & x & -> & Hx & Hr)%texec_mbind_inv.
      apply texec_mret_inv in Hr as [-> _]. rewrite app_nil_r. eapply single_tool_watched; eauto. }
    revert tr r H. change (holds watched (run_tools exec_sub rt i ps mid iter calls)).
    unfold run_tools, executeToolsParallel, executeToolsSequential.
    repeat case_match; try apply holds_ret; try apply _;
      (apply holds_seq; [apply _| |intros; apply holds_ret; apply _]).
    + apply holds_par; [apply _|done].
    + apply holds_each; [apply _|done].
  - assert (Ha : always (within [CTool; CAwait]) (run_tools exec_sub rt i ps mid iter calls)).
    { apply batch_run_tools; [done|]. intros name route tc sub id Hr. by rewrite (fr_routes _ Hi) in Hr. }
    apply (always_spec _ _ Ha) in H. eapply Forall_impl; [exact H|].
    intros e [He|[He|[He|[]]]]; unfold unrecorded; by rewrite <- He.
Qed.

Lemma keeps_snapshot i : keeps (snapshot_breaker i).
Proof.
  unfold snapshot_breaker. destruct (in_circuitBreaker i) as [cb|]; [|apply keeps_ret].
  intros tr a (t1 & t2 & snap & -> & H1 & H2)%texec_mbind_inv. call_inv H1. call_inv H2. split.
  - intros [|e1 [|e2 [|e3 pre]]] e post He; simplify_eq; done.
  - intros [|e1 [|e2 [|e3 pre]]] l' st r post He; simplify_eq. by exists [].
Qed.

Lemma keeps_tool_round i ps mid iter res s :
  flat_run i -> Forall (made_for rt (in_Tools i)) (lr_ToolCalls res) ->
  keeps (tool_round exec_sub rt i ps mid iter res s).
Proof.
  intros Hi H. unfold tool_round. cbv zeta. apply keeps_seq; [by apply keeps_batch|].
  intros [e|rs]; [apply keeps_ret|].
  apply keeps_seq; [apply (keeps_within [CRecord]); [naive_solver|naive_solver|apply within_collect]|].
  intros s1. apply keeps_seq; [apply keeps_snapshot|]. intros _.
  apply keeps_seq; [apply (keeps_within [CBudget; CAwait]); [naive_solver|naive_solver|apply within_enforce_budget]|].
  intros [[e|] t]; [apply keeps_ret|].
  apply keeps_seq; [apply (keeps_within [CAppend]); [naive_solver|naive_solver|apply within_save]|].
  intros. apply keeps_ret.
Qed.

Lemma keeps_final i ps mem ret iter s : keeps (final_call rt i ps mem ret iter s).
Proof.
  unfold final_call. apply keeps_seq; [quiet (@nil op_class)|]. intros mid.
  apply keeps_seq; [apply (keeps_within [CLlm]); [naive_solver|naive_solver|by apply within_llm]|].
  intros [e|[res fb]]; [apply keeps_ret|]. cbv zeta.
  apply keeps_seq; [apply (keeps_within [CBudget; CAwait]); [naive_solver|naive_solver|apply within_check_budget]|].
  intros [[e|] t]; apply keeps_ret.
Qed.

Lemma keeps_llm_round i ps mem ret orig iter s :
  flat_run i -> keeps (llm_round exec_sub rt i ps mem ret orig iter s).
Proof.
  intros Hi. unfold llm_round. apply keeps_seq; [quiet (@nil op_class)|]. intros mid.
  apply (keeps_bind (fun r => forall res fb, r = inr (res, fb) ->
                       Forall (made_for rt (in_Tools i)) (lr_ToolCalls res))).
  - apply (keeps_within [CLlm]); [naive_solver|naive_solver|by apply within_llm].
  - intros tr r H res fb Hr. by eapply llm_made_for in H.
  - intros [e|[res fb]] H; [apply keeps_ret|]. specialize (H res fb eq_refl). cbv zeta.
    apply keeps_seq; [apply (keeps_within [CBudget; CAwait]); [naive_solver|naive_solver|apply within_check_budget]|].
    intros [[e|] t]; [apply keeps_ret|]. simpl.
    destruct (lr_ToolCalls res) eqn:E; [apply keeps_ret|]. rewrite <- E in H. unfold after_calls.
    case_match; [|by apply keeps_tool_round]. apply keeps_seq; [quiet (@nil op_class)|]. intros d.
    case_match; try apply keeps_final. by apply keeps_tool_round.
Qed.

Lemma keeps_rounds fuel i ps mem ret orig iter s :
  flat_run i -> keeps (rounds exec_sub rt fuel i ps mem ret orig iter s).
Proof.
  intros Hi. revert iter s. induction fuel as [|fuel IH]; intros iter s; simpl; (case_match; [apply keeps_ret|]).
  - apply keeps_seq; [|intros; apply keeps_ret].
    apply (keeps_within [CFuel]); [naive_solver|naive_solver|]. apply always_call. right. by left.
  - apply keeps_seq.
    + unfold iteration. destruct (in_circuitBreaker i) eqn:E; [|by apply keeps_llm_round].
      apply keeps_seq; [quiet (@nil op_class)|]. intros now. apply keeps_llm_round.
      rewrite (fr_breaker _ Hi) in E. injection E as <-. by destruct Hi.
    + intros [s'|s'|o]; [apply IH|apply keeps_ret|apply keeps_ret].
Qed.
End runs.

(** The breaker of a run: the one it was given, or the one it creates. *)
Definition created (e : Event) : option (option loc) :=
  match e with
  | Ev o r => match o return Ans o -> option (option loc) with OCBNew _ => fun r => Some r | _ => fun _ => None end r
  end.

Definition run_breaker (i : AgentLoopInput) (tr : list Event) : option loc :=
  match in_circuitBreaker i with
  | Some cb => Some cb
  | None => default None (head (omap created tr))
  end.

(** Perform one step of a computation that neither executes tools nor reloads the breaker. *)
Ltac pass H t1 t2 x :=
  apply texec_mbind_inv in H as (t1 & t2 & x & -> & ?H & H);
  apply orderly_app; [eapply (orderly_within _ []); [..|eassumption]; [naive_solver|naive_solver|class_foot]|].

Lemma body_orderly exec_sub rt i l tr o :
  in_SubAgentRoutes i = [] -> run_breaker i tr = Some l ->
  texec (executeAgentLoop_body exec_sub rt i) tr o -> orderly l tr.
Proof.
  intros Hr Hl H. unfold executeAgentLoop_body in H. cbv zeta in H.
  apply texec_mbind_inv in H as (t1 & t2 & now & -> & H1 & H). call_inv H1.
  apply texec_mbind_inv in H as (t3 & t4 & cb & -> & H3 & H).
  assert (cb = Some l /\ orderly l t3) as [-> H3o].
  { unfold run_breaker in Hl. destruct (in_circuitBreaker i).
    - apply texec_mret_inv in H3 as [-> ->]. split; [done|apply orderly_nil].
    - split; [call_inv H3; exact Hl|]. eapply (orderly_within _ [] (call (OCBNew _))); [..|exact H3];
        [naive_solver|naive_solver|class_foot]. }
  apply orderly_app.
  { eapply (orderly_within _ [] (call ONow)); [..|apply texec_call]; [naive_solver|naive_solver|class_foot]. }
  apply orderly_app; [done|]. clear Hl H3 H3o. set (j := with_breaker i _ _) in H.
  assert (Hj : flat_run l j) by by split.
  clearbody j.
  pass H t5 t6 h. pass H t7 t8 m. destruct m as [e|m]; [by apply texec_mret_inv in H as [-> _]; apply orderly_nil|].
  pass H t9 t10 r. destruct r as [e|r]; [by apply texec_mret_inv in H as [-> _]; apply orderly_nil|].
  apply texec_mbind_inv in H as (t11 & t12 & oo & -> & H11 & H). apply orderly_app; [by eapply keeps_rounds|].
  destruct oo as [o'|s]; [by apply texec_mret_inv in H as [-> _]; apply orderly_nil|].
  eapply (orderly_within _ [CAppend]); [naive_solver|naive_solver|apply within_finish|exact H].
Qed.

(** ** What the trace does to the breaker *)

Definition breaker_at (h : heap) (l : loc) : option CircuitBreaker := hp_cb h !! l.

(** The tool is tripped at [l], for good. *)
Definition tripped_for_good (h : heap) (l : loc) (name : string) : Prop :=
  is_tripped_at (breaker_at h l) name /\ forall b, breaker_at h l = Some b -> cb_ResetAfter (cfg b) <= 0.

(** What one effect does to the breaker at [l]. *)
Definition cb_effect (l : loc) (e : Event) : option cb_op :=
  match ev_op e with
  | OCBIsTripped l' name now => if decide (l' = l) then Some (OpIsTripped name now) else None
  | OCBRecordFailure l' name args now => if decide (l' = l) then Some (OpFailure name args now) else None
  | OCBRecordSuccess l' name => if decide (l' = l) then Some (OpSuccess name) else None
  | OCBState l' => if decide (l' = l) then Some OpSnapshot else None
  | _ => None
  end.

Definition is_reload (e : Event) : Prop := match ev_op e with OCBRestore _ _ => True | _ => False end.

Lemma access_other h l l' {R} (f : CircuitBreaker -> R * CircuitBreaker) r h' :
  cb_access h l' f r h' -> l' <> l -> breaker_at h' l = breaker_at h l.
Proof. intros (c & _ & _ & ->) Hne. unfold breaker_at. simpl. by rewrite lookup_insert_ne. Qed.

Lemma access_same h l {R} (f : CircuitBreaker -> R * CircuitBreaker) r h' :
  cb_access h l f r h' -> exists c, breaker_at h l = Some c /\ (f c).1 = r /\ breaker_at h' l = Some (f c).2.
Proof. intros (c & Hc & Hr & ->). exists c. unfold breaker_at. simpl. by rewrite lookup_insert_eq. Qed.

(** A step that is not a reload acts on an existing breaker as [cb_run] says. *)
Lemma heap_step_cb h e h' l :
  heap_step h e h' -> ~ is_reload e -> is_Some (breaker_at h l) ->
  breaker_at h' l = match cb_effect l e with Some o => cb_run (breaker_at h l) o | None => breaker_at h l end.
Proof.
  destruct e as [o r]. unfold cb_effect, is_reload. simpl. intros Hs Hn [b0 Hb].
  destruct o; simpl in *; try (by subst); try (destruct Hs as (? & _ & _ & ->); done);
    try (destruct (decide _) as [->|Hne]; [|by eapply access_other]; apply access_same in Hs as (c & Hc & _ & ->);
         rewrite Hc; simpl).
  - destruct (NewCircuitBreaker ec) as [c|], r as [l'|]; try done; [|by subst].
    destruct Hs as [Hfree ->]. unfold breaker_at in *. simpl. rewrite lookup_insert_ne; [done|congruence].
  - by destruct (IsTripped (Some c) name now) as [? [?|]] eqn:E; unfold IsTripped in E; repeat split_match; simplify_eq.
  - by destruct (RecordFailure (Some c) name args now) as [? [?|]] eqn:E; unfold RecordFailure in E; repeat split_match; simplify_eq.
  - by destruct (RecordSuccess (Some c) name) as [?|] eqn:E; unfold RecordSuccess in E; repeat split_match; simplify_eq.
  - by destruct c.
Qed.

Lemma tripped_step h e h' l name :
  heap_step h e h' -> ~ is_reload e -> tripped_for_good h l name -> tripped_for_good h' l name.
Proof.
  intros Hs Hn [Ht Hr]. assert (is_Some (breaker_at h l)) as Hb by (destruct Ht as (b & _ & -> & _); eauto).
  pose proof (heap_step_cb _ _ _ _ Hs Hn Hb) as E. destruct Hb as [b Hb].
  unfold tripped_for_good. rewrite E. destruct (cb_effect l e) as [o|]; [|done]. split; [by apply trip_kept|].
  intros b' Hb'. destruct (cb_run_cfg (breaker_at h l) o b Hb) as (b2 & Hb2 & Hcfg).
  rewrite Hb2 in Hb'. injection Hb' as <-. rewrite Hcfg. by apply Hr.
Qed.

(** A reload right after its snapshot changes nothing. *)
Lemma paired_reload h l st (r : unit) h1 h2 :
  heap_step h (Ev (S := agent_sig) (OCBState l) st) h1 ->
  heap_step h1 (Ev (S := agent_sig) (OCBRestore l st) r) h2 ->
  forall l', breaker_at h2 l' = breaker_at h1 l'.
Proof.
  intros Hs Hr l'. simpl in Hs, Hr. destruct (decide (l = l')) as [->|Hne]; [|by eapply access_other].
  apply access_same in Hs as (c & _ & Hst & Hh1). apply access_same in Hr as (c' & Hc' & _ & ->).
  simpl in *. rewrite Hh1 in Hc'. injection Hc' as <-. rewrite Hh1. f_equal. subst st. by destruct c.
Qed.

(** Along a trace with paired reloads a trip stays. *)
Lemma tripped_steps t1 t2 h h1 h2 l name :
  paired (t1 ++ t2) -> steps h t1 h1 -> steps h1 t2 h2 ->
  tripped_for_good h1 l name -> tripped_for_good h2 l name.
Proof.
  intros Hp H1 H2 Ht. revert t1 h H1 Hp.
  induction H2 as [h1|h1 e h2 t2 h3 He _ IH]; intros t1 h H1 Hp; [done|].
  apply (IH) with (t1 := t1 ++ [e]) (h := h).
  - destruct e as [o r].
    assert ((exists l' st, o = OCBRestore l' st) \/ ~ is_reload (Ev (S := agent_sig) o r)) as [(l' & st & ->)|Hno]
      by (destruct o; simpl; eauto).
    + destruct (Hp t1 l' st r t2 eq_refl) as [p ->]. apply steps_app in H1 as (h0 & _ & H1).
      inversion H1 as [|? ? h1' ? ? Hst Hnil]; subst. inversion Hnil; subst.
      pose proof (paired_reload _ _ _ _ _ _ Hst He l) as E. unfold tripped_for_good in *. by rewrite E.
    + by eapply tripped_step.
  - apply steps_app. exists h1. split; [done|]. econstructor; [exact He|constructor].
  - by rewrite <- app_assoc.
Qed.

(** A tool that is not tripped at [l]. *)
Definition clear_at (h : heap) (l : loc) (name : string) : Prop :=
  is_Some (breaker_at h l) /\ ~ is_tripped_at (breaker_at h l) name.

Lemma negative_answer_clears h l name now h' :
  heap_step h (Ev (S := agent_sig) (OCBIsTripped l name now) false) h' -> clear_at h' l name.
Proof.
  intros Hs. simpl in Hs. apply access_same in Hs as (c & _ & Hf & E). unfold clear_at. rewrite E. split; [eauto|].
  unfold IsTripped, keep in *. destruct (enabled (Some c)) eqn:Hen; simpl in *.
  - destruct (Tools c !! name) as [st|] eqn:Hl; simpl.
    + destruct (Tripped st) eqn:Ht; simpl in *.
      * destruct (reset_due c st now); simpl in *; [|done].
        intros (b & st' & [= <-] & _ & Hl' & _). simpl in Hl'. by rewrite lookup_delete_eq in Hl'.
      * intros (b & st' & [= <-] & _ & Hl' & Ht'). congruence.
    + intros (b & st' & [= <-] & _ & Hl' & _). congruence.
  - intros (b & st' & [= <-] & Hen' & _). congruence.
Qed.

Lemma clear_step h e h' l name :
  heap_step h e h' -> unrecorded e -> clear_at h l name -> clear_at h' l name.
Proof.
  intros Hs [Hr Hsn] [Hb Hc].
  assert (~ is_reload e) as Hno by (destruct e as [[] ?]; simpl in *; tauto).
  pose proof (heap_step_cb _ _ _ _ Hs Hno Hb) as E. destruct Hb as [b Hb]. unfold clear_at. rewrite E.
  destruct (cb_effect l e) as [o|] eqn:Ee; [|by split; eauto].
  assert (exists n now, o = OpIsTripped n now) as (n & now & ->).
  { destruct e as [[] ?]; unfold cb_effect in Ee; simpl in *; try done; case_decide; simplify_eq; eauto; done. }
  rewrite Hb in Hc |- *. simpl. unfold IsTripped. destruct (enabled (Some b)) eqn:Hen; simpl; [|eauto].
  destruct (Tools b !! n) as [st|]; simpl; [|eauto]. destruct (Tripped st); simpl; [|eauto].
  destruct (reset_due b st now); simpl; [|eauto]. split; [eauto|].
  intros (b' & st' & [= <-] & Hen' & Hl & Ht). apply Hc. simpl in Hl.
  apply lookup_delete_Some in Hl as [_ Hl]. by exists b, st'.
Qed.

Lemma clear_steps h tr h' l name : steps h tr h' -> Forall unrecorded tr -> clear_at h l name -> clear_at h' l name.
Proof. induction 1; intros HF Hc; [done|]. apply Forall_cons in HF as [He HF]. eauto using clear_step. Qed.

Lemma paired_prefix t1 t2 : paired (t1 ++ t2) -> paired t1.
Proof.
  intros Hp pre l st r post ->. apply (Hp pre l st r (post ++ t2)). by rewrite <- app_assoc.
Qed.

(** [e] executes the named tool, one that the breaker watches. *)
Definition executes_watched (name : string) (e : Event) : Prop :=
  match ev_op e with
  | OToolExecute _ t _ _ => t_Name t = name /\ CountsTowardToolTelemetry (KindOf t) = true
  | _ => False
  end.

(** Where a watched tool executes on an orderly trace, it is not tripped. *)
Lemma vetted_clear l t e t' h h' name :
  vetted l (t ++ e :: t') -> executes_watched name e -> steps h t h' -> clear_at h' l name.
Proof.
  intros Hv He Hs. destruct (Hv t e t' eq_refl) as (p1 & f & p2 & -> & Hf & Hun).
  { unfold executes_watched, needs_check in *. destruct (ev_op e); tauto. }
  unfold executes_watched, checked_by in *. destruct (ev_op e); try done.
  destruct He as [<- _]. destruct Hf as [now ->].
  apply steps_app in Hs as (h4 & _ & Hs). inversion Hs; subst.
  eapply clear_steps; [done|done|]. by eapply negative_answer_clears.
Qed.

(** In a run without sub-agents a tool that the breaker has tripped for good never executes
    again: from any point of the run where the shared breaker holds such a trip, no later
    effect executes that tool (sub-agent, A2A and retriever tools are not watched), parallel
    calls, retries and snapshots of the breaker included. *)
Theorem tripped_tools_stay_skipped rt i l t1 t2 o h h1 h2 name :
  in_SubAgentRoutes i = [] -> run_breaker i (t1 ++ t2) = Some l ->
  texec (executeAgentLoop rt i) (t1 ++ t2) o ->
  steps h t1 h1 -> steps h1 t2 h2 -> tripped_for_good h1 l name ->
  Forall (fun e => ~ executes_watched name e) t2.
Proof.
  intros Hr Hl H H1 H2 Ht. rewrite executeAgentLoop_unfold in H.
  apply (body_orderly _ _ _ l) in H as [Hv Hp]; [|done|done].
  apply List.Forall_forall. intros e (a & b & ->)%in_split He.
  apply steps_app in H2 as (h3 & H2a & _). rewrite app_assoc in Hv, Hp.
  assert (clear_at h3 l name) as [_ Hend].
  { eapply (vetted_clear l (t1 ++ a)); [done|done|]. apply steps_app. eauto. }
  apply Hend. apply (tripped_steps t1 a h h1 h3 l name); try done. by eapply paired_prefix.
Qed.
