(* ===== verification/Conversation.v ===== *)
(** Conversation stores ([pkg/interfaces/conversation.go], [pkg/conversation/inmem],
    [pkg/conversation/redis]).

    [ConversationStore] is the Go interface; [KeepsLast] is what both stores promise a
    sequential client: the last [size] messages of every conversation, in order.  The client's
    theorem ([store_refines]) is proved against that interface, and each store discharges it.

    The Redis server is the environment: [RedisServer] and its laws state what RPUSH, LLEN,
    LTRIM, LRANGE, DEL and EXPIRE are documented to do to the lists the store keeps, when they
    succeed and no key expires in between ([ConversationFaults.v] has a server that fails and
    forgets).  The JSON codec of messages is a parameter with the
    messages it carries faithfully. *)
From S2P Require Import Prelude GoLib Types Prog.

#[local] Open Scope string_scope.
#[local] Open Scope list_scope.
#[local] Open Scope Z_scope.

(** ** Options of a listing *)

Record ListMessagesOptions := { lo_Limit : Z; lo_Offset : Z; lo_Roles : list string }.

Inductive ListMessagesOption :=
| WithLimit (limit : Z)
| WithOffset (offset : Z)
| WithRoles (roles : list string).

Definition apply_option (o : ListMessagesOptions) (opt : ListMessagesOption) : ListMessagesOptions :=
  match opt with
  | WithLimit l => {| lo_Limit := l; lo_Offset := lo_Offset o; lo_Roles := lo_Roles o |}
  | WithOffset k => {| lo_Limit := lo_Limit o; lo_Offset := k; lo_Roles := lo_Roles o |}
  | WithRoles r => {| lo_Limit := lo_Limit o; lo_Offset := lo_Offset o; lo_Roles := r |}
  end.

Definition default_options : ListMessagesOptions :=
  {| lo_Limit := -1; lo_Offset := -1; lo_Roles := [MessageRoleUser; MessageRoleAssistant; MessageRoleTool] |}.

Definition options_of (opts : list ListMessagesOption) : ListMessagesOptions := fold_left apply_option opts default_options.

Definition roleIn (role : string) (roles : list string) : bool := existsb (String.eqb role) roles.

(** An empty list of roles keeps every message. *)
Definition role_kept (roles : list string) (m : Message) : bool :=
  match roles with [] => true | _ => roleIn (m_Role m) roles end.

(** The bounds [start] and [end] of the window into [n] messages, as both stores compute them
    with 64-bit integers. *)
Definition window (n : Z) (o : ListMessagesOptions) : Z * Z :=
  let limit := if lo_Limit o <? 0 then n else lo_Limit o in
  let offset := if lo_Offset o <? 0 then 0 else lo_Offset o in
  let last := wrap64 (n - offset) in
  let start := wrap64 (last - limit) in
  (if start <? 0 then 0 else start, if n <? last then n else last).

(** The messages at the positions [start] to [stop], [stop] excluded. *)
Definition slice {A} (start stop : Z) (l : list A) : list A :=
  take (Z.to_nat (stop - start)) (drop (Z.to_nat start) l).

(** ** In memory *)

Record InMemoryConversation := { im_maxSize : Z; im_messages : gmap string (list Message) }.

(** [NewConversation], [size] being what [WithMaxSize] set (100 by default). *)
Definition inmem_New (size : Z) : InMemoryConversation :=
  {| im_maxSize := if size <=? 0 then 100 else size; im_messages := ∅ |}.

Definition inmem_AddMessage (c : InMemoryConversation) (id : string) (msg : Message) : option error * InMemoryConversation :=
  if String.eqb id "" then (None, c)
  else
    let msgs := default [] (im_messages c !! id) ++ [msg] in
    let n := Z.of_nat (length msgs) in
    let msgs := if (0 <? im_maxSize c) && (im_maxSize c <? n) then drop (Z.to_nat (n - im_maxSize c)) msgs else msgs in
    (None, {| im_maxSize := im_maxSize c; im_messages := <[id := msgs]> (im_messages c) |}).

(** What a listing returns: messages, an error, or a panic. *)
Inductive listed := Listed (ms : list Message) | ListError (e : error) | Panicked.

(** An offset beyond the conversation makes [make] panic with a negative capacity. *)
Definition inmem_ListMessages (c : InMemoryConversation) (id : string) (opts : list ListMessagesOption) : listed :=
  if String.eqb id "" then Listed []
  else match im_messages c !! id with
       | None => Listed []
       | Some msgs =>
           let o := options_of opts in
           let '(start, stop) := window (Z.of_nat (length msgs)) o in
           if wrap64 (stop - start) <? 0 then Panicked
           else Listed (List.filter (role_kept (lo_Roles o)) (slice start stop msgs))
       end.

Definition inmem_Clear (c : InMemoryConversation) (id : string) : option error * InMemoryConversation :=
  if String.eqb id "" then (None, c)
  else (None, {| im_maxSize := im_maxSize c; im_messages := delete id (im_messages c) |}).

(** ** Redis *)

Inductive RedisOp :=
| ORPush (key data : string)
| OLLen (key : string)
| OLTrim (key : string) (start stop : Z)
| OExpire (key : string) (ttl : Duration)
| OLRange (key : string) (start stop : Z)
| ODel (key : string)
| ORedisSched.

#[export] Instance RedisOp_dec : EqDecision RedisOp.
Proof. solve_decision. Defined.

Definition RedisAns (o : RedisOp) : Type :=
  match o with
  | ORPush _ _ | OLTrim _ _ _ | OExpire _ _ | ODel _ => option error
  | OLLen _ => result Z
  | OLRange _ _ _ => result (list string)
  | ORedisSched => bool
  end.

#[export] Instance redis_sig : Sig := {| op := RedisOp; ans := RedisAns; sched := ORedisSched; sched_ans := id |}.

Definition rcall (o : RedisOp) : prog (RedisAns o) := perform (S := redis_sig) o.

Record RedisConversation := { rd_maxSize : Z; rd_ttl : Duration; rd_keyPrefix : string }.

(** [NewConversation] once it has a client. *)
Definition redis_New (size : Z) (ttl : Duration) (prefix : string) : RedisConversation :=
  {| rd_maxSize := if size <=? 0 then 100 else size; rd_ttl := if ttl <=? 0 then 24 * hour else ttl;
     rd_keyPrefix := if String.eqb prefix "" then "conversation" else prefix |}.

Definition getKey (c : RedisConversation) (id : string) : string :=
  (if String.eqb (rd_keyPrefix c) "" then "conversation" else rd_keyPrefix c) +:+ ":" +:+ id +:+ ":messages".

Definition id_required : error := errors_New "id is required".

(** [json.Marshal] and [json.Unmarshal] of messages. *)
Class MessageCodec := {
  marshal_message : Message -> result string;
  unmarshal_message : string -> result Message;
  storable : Message -> Prop;
  codec_roundtrip m : storable m -> exists s, marshal_message m = inr s /\ unmarshal_message s = inr m }.

Section redis.
Context {codec : MessageCodec}.

(** The oldest of [n] values are trimmed from the head of the list; the key is kept alive. *)
Definition redis_trim (c : RedisConversation) (key : string) (n : Z) : prog (option error) :=
  if (0 <? rd_maxSize c) && (rd_maxSize c <? n) then rcall (OLTrim key (wrap64 (n - rd_maxSize c)) (-1)) else mret None.

Definition redis_expire (c : RedisConversation) (key : string) : prog (option error) :=
  if 0 <? rd_ttl c then rcall (OExpire key (rd_ttl c)) else mret None.

(** The commands of a pipeline are sent together but are not a transaction; its error is the
    first one of its commands. *)
Definition redis_AddMessage (c : RedisConversation) (id : string) (msg : Message) : prog (option error) :=
  if String.eqb id "" then mret (Some id_required)
  else
    let key := getKey c id in
    match marshal_message msg with
    | inl e => mret (Some (wrap_error "marshal message: " e))
    | inr data =>
        p ← rcall (ORPush key data);
        l ← rcall (OLLen key);
        match p, l with
        | Some e, _ | None, inl e => mret (Some (wrap_error "redis rpush: " e))
        | None, inr n =>
            t ← redis_trim c key n;
            match t with
            | Some e => mret (Some (wrap_error "redis ltrim: " e))
            | None =>
                x ← redis_expire c key;
                mret (option_map (wrap_error "redis expire: ") x)
            end
        end
    end.

(** The loop that decodes the values: the first undecodable one is an error. *)
Fixpoint decode_kept (roles : list string) (vals : list string) : result (list Message) :=
  match vals with
  | [] => inr []
  | s :: vals =>
      match unmarshal_message s with
      | inl e => inl (wrap_error "unmarshal message: " e)
      | inr m =>
          match decode_kept roles vals with
          | inl e => inl e
          | inr ms => inr (if role_kept roles m then m :: ms else ms)
          end
      end
  end.

Definition redis_ListMessages (c : RedisConversation) (id : string) (opts : list ListMessagesOption) : prog listed :=
  if String.eqb id "" then mret (ListError id_required)
  else
    let key := getKey c id in
    l ← rcall (OLLen key);
    match l with
    | inl e => mret (ListError (wrap_error "redis llen: " e))
    | inr n =>
        let o := options_of opts in
        let '(start, stop) := window n o in
        if stop <=? start then mret (Listed [])
        else
          v ← rcall (OLRange key start (wrap64 (stop - 1)));
          mret (match v with
                | inl e => ListError (wrap_error "redis lrange: " e)
                | inr vals => match decode_kept (lo_Roles o) vals with inl e => ListError e | inr ms => Listed ms end
                end)
    end.

Definition redis_Clear (c : RedisConversation) (id : string) : prog (option error) :=
  if String.eqb id "" then mret (Some id_required)
  else
    d ← rcall (ODel (getKey c id));
    mret (option_map (wrap_error "redis del: ") d).
End redis.

(** ** The contract of a store *)

(** [interfaces.Conversation]; [AddMessage] and [Clear] return their error. *)
Class ConversationStore (S : Type) := {
  AddMessage : S -> string -> Message -> option error * S;
  ListMessages : S -> string -> list ListMessagesOption -> listed * S;
  Clear : S -> string -> option error * S }.

(** What a listing selects of [l]: all but the [offset] most recent messages, of these the
    [limit] most recent, of these the ones with a requested role. *)
Definition selected (o : ListMessagesOptions) (l : list Message) : list Message :=
  let offset := if lo_Offset o <? 0 then 0%nat else Z.to_nat (lo_Offset o) in
  let limit := if lo_Limit o <? 0 then length l else Z.to_nat (lo_Limit o) in
  List.filter (role_kept (lo_Roles o)) (last_n limit (take (length l - offset) l)).

(** The listings with a defined answer: the offset stays within the conversation. *)
Definition listing_ok (o : ListMessagesOptions) (n : nat) : Prop :=
  lo_Limit o <= max_int64 /\ lo_Offset o <= Z.of_nat n.

(** A store that keeps the last [size] messages of every conversation, for the messages it
    can represent. *)
Class KeepsLast (S : Type) `{ConversationStore S} (size : nat) (accepts : Message -> Prop) := {
  wf : S -> Prop;
  stored : S -> string -> list Message;
  stored_bound s id : wf s -> (length (stored s id) <= size)%nat;
  AddMessage_ok s id m : wf s -> id <> "" -> accepts m ->
    exists s', AddMessage s id m = (None, s') /\ wf s' /\ stored s' id = last_n size (stored s id ++ [m]) /\
      forall k, k <> id -> stored s' k = stored s k;
  ListMessages_ok s id opts : wf s -> id <> "" -> listing_ok (options_of opts) (length (stored s id)) ->
    exists s', ListMessages s id opts = (Listed (selected (options_of opts) (stored s id)), s') /\ wf s' /\
      forall k, stored s' k = stored s k;
  Clear_ok s id : wf s -> id <> "" ->
    exists s', Clear s id = (None, s') /\ wf s' /\ stored s' id = [] /\ forall k, k <> id -> stored s' k = stored s k }.

(** *** Specification: the complete log of every conversation *)

Inductive conv_op :=
| CAdd (id : string) (m : Message)
| CList (id : string) (opts : list ListMessagesOption)
| CClear (id : string).

Inductive conv_out := CErr (e : option error) | CListed (l : listed).

Definition store_op {S} `{ConversationStore S} (s : S) (o : conv_op) : conv_out * S :=
  match o with
  | CAdd id m => let '(e, s) := AddMessage s id m in (CErr e, s)
  | CList id opts => let '(l, s) := ListMessages s id opts in (CListed l, s)
  | CClear id => let '(e, s) := Clear s id in (CErr e, s)
  end.

Abbreviation logs := (gmap string (list Message)).
Definition log_of (l : logs) (id : string) : list Message := default [] (l !! id).

Section refinement.
Context (size : nat) (accepts : Message -> Prop).

Definition spec_conv_op (l : logs) (o : conv_op) : conv_out * logs :=
  match o with
  | CAdd id m => (CErr None, <[id := log_of l id ++ [m]]> l)
  | CList id opts => (CListed (Listed (selected (options_of opts) (last_n size (log_of l id)))), l)
  | CClear id => (CErr None, <[id := []]> l)
  end.

(** Operations with a defined answer. *)
Definition defined_op (l : logs) (o : conv_op) : Prop :=
  match o with
  | CAdd id m => id <> "" /\ accepts m
  | CList id opts => id <> "" /\ listing_ok (options_of opts) (length (last_n size (log_of l id)))
  | CClear id => id <> ""
  end.

Fixpoint defined_ops (l : logs) (os : list conv_op) : Prop :=
  match os with [] => True | o :: os => defined_op l o /\ defined_ops (spec_conv_op l o).2 os end.

Lemma log_of_insert l id id' ms : log_of (<[id := ms]> l) id' = if decide (id = id') then ms else log_of l id'.
Proof.
  unfold log_of. destruct (decide (id = id')) as [->|]; [by rewrite lookup_insert_eq|by rewrite lookup_insert_ne].
Qed.

Context {S : Type} `{Hks : KeepsLast S size accepts}.

(** The store holds the end of every log. *)
Definition holds_logs (s : S) (l : logs) : Prop := wf s /\ forall id, stored s id = last_n size (log_of l id).

Lemma store_op_refines s l o :
  holds_logs s l -> defined_op l o ->
  (store_op s o).1 = (spec_conv_op l o).1 /\ holds_logs (store_op s o).2 (spec_conv_op l o).2.
Proof.
  intros [Hwf Hst] Hd. destruct o as [id m|id opts|id]; cbn [store_op spec_conv_op defined_op] in *.
  - destruct Hd as [Hid Ha]. destruct (AddMessage_ok s id m Hwf Hid Ha) as (s' & -> & Hwf' & Hnew & Hold).
    split; [done|]. split; [done|]. intros k. cbn [snd]. rewrite log_of_insert. destruct (decide (id = k)) as [<-|].
    + by rewrite Hnew, Hst, last_n_app.
    + by rewrite Hold.
  - destruct Hd as [Hid Ho]. rewrite <- Hst in Ho.
    destruct (ListMessages_ok s id opts Hwf Hid Ho) as (s' & -> & Hwf' & Hsame). cbn [fst snd].
    split; [by rewrite Hst|]. split; [done|]. intros k. by rewrite Hsame.
  - destruct (Clear_ok s id Hwf Hd) as (s' & -> & Hwf' & Hnew & Hold). split; [done|]. split; [done|].
    intros k. cbn [snd]. rewrite log_of_insert. destruct (decide (id = k)) as [<-|]; [by rewrite Hnew|by rewrite Hold].
Qed.

(** A store that keeps its contract answers every sequence of operations as the complete logs
    would, cut to the last [size] messages. *)
Lemma store_refines s l os :
  holds_logs s l -> defined_ops l os ->
  (run_ops store_op s os).1 = (run_ops spec_conv_op l os).1 /\
  holds_logs (run_ops store_op s os).2 (run_ops spec_conv_op l os).2.
Proof.
  revert s l. induction os as [|o os IH]; intros s l Hs Hd; [done|]. destruct Hd as [Ho Hd]. cbn [run_ops fst snd].
  destruct (store_op_refines s l o Hs Ho) as [-> Hs']. destruct (IH _ _ Hs' Hd) as [-> ?]. done.
Qed.
End refinement.

(** ** Windows *)

(** The window both stores compute is the selection of the contract. *)
Lemma window_selected {A} (o : ListMessagesOptions) (l : list A) :
  Z.of_nat (length l) <= max_int64 -> listing_ok o (length l) ->
  let w := window (Z.of_nat (length l)) o in
  0 <= w.1 <= w.2 /\ w.2 <= Z.of_nat (length l) /\
  slice w.1 w.2 l =
    last_n (if lo_Limit o <? 0 then length l else Z.to_nat (lo_Limit o))
      (take (length l - (if lo_Offset o <? 0 then 0%nat else Z.to_nat (lo_Offset o))) l).
Proof.
  intros Hn [Hlim Hoff]. cbv zeta. unfold window. set (n := Z.of_nat (length l)) in *.
  assert (Hn0 : 0 <= n) by (unfold n; lia).
  set (limit := if lo_Limit o <? 0 then n else lo_Limit o).
  set (offset := if lo_Offset o <? 0 then 0 else lo_Offset o).
  assert (H1 : 0 <= limit <= max_int64) by (unfold limit; destruct (lo_Limit o <? 0) eqn:E; crush_bool; lia).
  assert (H2 : 0 <= offset <= n) by (unfold offset; destruct (lo_Offset o <? 0) eqn:E; crush_bool; lia).
  rewrite (wrap64_id (n - offset)) by (unfold in64, min_int64, max_int64 in *; lia).
  rewrite (wrap64_id (n - offset - limit)) by (unfold in64, min_int64, max_int64 in *; lia).
  destruct (n <? n - offset) eqn:E; crush_bool; [lia|]. clear E.
  assert (Ho : (if lo_Offset o <? 0 then 0%nat else Z.to_nat (lo_Offset o)) = Z.to_nat offset)
    by (unfold offset; by destruct (lo_Offset o <? 0)).
  assert (Hl : (if lo_Limit o <? 0 then length l else Z.to_nat (lo_Limit o)) = Z.to_nat limit)
    by (unfold limit, n; destruct (lo_Limit o <? 0); [by rewrite Nat2Z.id|done]).
  rewrite Ho, Hl. clear Ho Hl. clearbody limit offset. unfold slice, last_n. cbn [fst snd]. rewrite length_take.
  assert (Hs : Z.to_nat (if n - offset - limit <? 0 then 0 else n - offset - limit) =
               ((length l - Z.to_nat offset) `min` length l - Z.to_nat limit)%nat).
  { unfold n in *. destruct (Z.of_nat (length l) - offset - limit <? 0) eqn:E; crush_bool; lia. }
  split; [destruct (n - offset - limit <? 0) eqn:E; crush_bool; lia|]. split; [lia|].
  rewrite <- Hs. rewrite skipn_firstn_comm. f_equal.
  rewrite Hs. destruct (n - offset - limit <? 0) eqn:E; crush_bool; unfold n in *; lia.
Qed.

(** ** The in-memory store keeps the contract *)

#[export] Instance inmem_store : ConversationStore InMemoryConversation := {|
  AddMessage := inmem_AddMessage;
  ListMessages s id opts := (inmem_ListMessages s id opts, s);
  Clear := inmem_Clear |}.

Definition inmem_stored (s : InMemoryConversation) (id : string) : list Message := default [] (im_messages s !! id).

Definition inmem_wf (size : nat) (s : InMemoryConversation) : Prop :=
  im_maxSize s = Z.of_nat size /\ 0 < Z.of_nat size <= max_int64 /\
  forall id, (length (inmem_stored s id) <= size)%nat.

Lemma inmem_New_wf size :
  0 < size <= max_int64 -> inmem_wf (Z.to_nat size) (inmem_New size) /\ forall id, inmem_stored (inmem_New size) id = [].
Proof.
  intros Hs. unfold inmem_wf, inmem_stored, inmem_New. cbn [im_maxSize im_messages].
  destruct (size <=? 0) eqn:E; crush_bool; [lia|].
  split; [split; [lia|split; [lia|]]|]; intros id; rewrite lookup_empty; cbn [default length]; lia || done.
Qed.

(** The oldest messages are dropped so that [size] remain. *)
Lemma trim_last_n {A} (size : nat) (l : list A) :
  (0 < size)%nat ->
  (if (0 <? Z.of_nat size) && (Z.of_nat size <? Z.of_nat (length l))
   then drop (Z.to_nat (Z.of_nat (length l) - Z.of_nat size)) l else l) = last_n size l.
Proof.
  intros Hs. destruct (0 <? Z.of_nat size) eqn:E1; crush_bool; [|lia]. cbn [andb]. unfold last_n.
  destruct (Z.of_nat size <? Z.of_nat (length l)) eqn:E2; crush_bool.
  - f_equal. lia.
  - replace (length l - size)%nat with 0%nat by lia. by rewrite drop_0.
Qed.

Lemma inmem_stored_insert c size id ms k :
  inmem_stored {| im_maxSize := size; im_messages := <[id := ms]> (im_messages c) |} k =
  if decide (id = k) then ms else inmem_stored c k.
Proof.
  unfold inmem_stored. cbn [im_messages]. destruct (decide (id = k)) as [->|].
  - by rewrite lookup_insert_eq.
  - by rewrite lookup_insert_ne.
Qed.

Lemma inmem_stored_delete c size id k :
  inmem_stored {| im_maxSize := size; im_messages := delete id (im_messages c) |} k =
  if decide (id = k) then [] else inmem_stored c k.
Proof.
  unfold inmem_stored. cbn [im_messages]. destruct (decide (id = k)) as [->|].
  - by rewrite lookup_delete_eq.
  - by rewrite lookup_delete_ne.
Qed.

(** The shape of the updates of one conversation. *)
Lemma updated_at {A} (f g : string -> A) (id : string) (v : A) :
  (forall k, g k = if decide (id = k) then v else f k) -> g id = v /\ forall k, k <> id -> g k = f k.
Proof. intros H. split; [|intros k Hk]; rewrite H; by destruct (decide _). Qed.

Lemma inmem_AddMessage_ok size s id m :
  inmem_wf size s -> id <> "" ->
  exists s', inmem_AddMessage s id m = (None, s') /\ inmem_wf size s' /\
    inmem_stored s' id = last_n size (inmem_stored s id ++ [m]) /\ forall k, k <> id -> inmem_stored s' k = inmem_stored s k.
Proof.
  intros (Hm & Hs & Hl) Hid. unfold inmem_AddMessage. destruct (String.eqb_spec id "") as [|_]; [done|].
  eexists. split; [done|]. cbn zeta. rewrite Hm, trim_last_n by lia. fold (inmem_stored s id). split.
  - split; [done|split; [done|]]. intros k. rewrite inmem_stored_insert.
    destruct (decide (id = k)); [rewrite length_last_n; lia|apply Hl].
  - apply updated_at. intros k. apply inmem_stored_insert.
Qed.

Lemma inmem_ListMessages_ok size s id opts :
  inmem_wf size s -> id <> "" -> listing_ok (options_of opts) (length (inmem_stored s id)) ->
  inmem_ListMessages s id opts = Listed (selected (options_of opts) (inmem_stored s id)).
Proof.
  intros (Hm & Hs & Hl) Hid Ho. unfold inmem_ListMessages. destruct (String.eqb_spec id "") as [|_]; [done|].
  specialize (Hl id). unfold inmem_stored in *. destruct (im_messages s !! id) as [msgs|]; cbn [from_option Datatypes.id] in *.
  - pose proof (window_selected (options_of opts) msgs) as Hw. cbv zeta in Hw.
    destruct (window (Z.of_nat (length msgs)) (options_of opts)) as [start stop]. cbn [fst snd] in Hw.
    destruct Hw as (H1 & H2 & H3); [lia|done|]. rewrite wrap64_id by (unfold in64, min_int64, max_int64 in *; lia).
    destruct (stop - start <? 0) eqn:E; crush_bool; [lia|]. unfold selected. by rewrite H3.
  - unfold selected, last_n. by rewrite take_nil, drop_nil.
Qed.

Lemma inmem_Clear_ok size s id :
  inmem_wf size s -> id <> "" ->
  exists s', inmem_Clear s id = (None, s') /\ inmem_wf size s' /\ inmem_stored s' id = [] /\
    forall k, k <> id -> inmem_stored s' k = inmem_stored s k.
Proof.
  intros (Hm & Hs & Hl) Hid. unfold inmem_Clear. destruct (String.eqb_spec id "") as [|_]; [done|].
  eexists. split; [done|]. split.
  - split; [done|split; [done|]]. intros k. rewrite inmem_stored_delete.
    destruct (decide (id = k)); [cbn; lia|apply Hl].
  - apply updated_at. intros k. apply inmem_stored_delete.
Qed.

#[export, refine] Instance inmem_KeepsLast (size : nat) : KeepsLast InMemoryConversation size (fun _ => True) := {|
  wf := inmem_wf size;
  stored := inmem_stored |}.
Proof.
  - intros s id (_ & _ & Hl). apply Hl.
  - intros s id m Hwf Hid _. by apply inmem_AddMessage_ok.
  - intros s id opts Hwf Hid Ho. exists s. split; [|done]. cbn. by rewrite (inmem_ListMessages_ok size).
  - intros s id Hwf Hid. by apply inmem_Clear_ok.
Defined.

(** The in-memory store answers every sequence of operations as the complete logs would, cut
    to the last [size] messages, and never panics while offsets stay within them. *)
Theorem inmem_refines_logs size os :
  0 < size <= max_int64 -> defined_ops (Z.to_nat size) (fun _ => True) ∅ os ->
  (run_ops store_op (inmem_New size) os).1 = (run_ops (spec_conv_op (Z.to_nat size)) ∅ os).1.
Proof.
  intros Hs Hd. destruct (inmem_New_wf size Hs) as [Hwf Hnew].
  eapply (store_refines (Z.to_nat size) (fun _ => True)); [|exact Hd]. split; [exact Hwf|]. intros id.
  cbn. rewrite Hnew. unfold log_of. by rewrite lookup_empty.
Qed.

(** ** The Redis store keeps the contract *)

(** A server that executes the commands: the lists at its keys, and what each command the
    store uses answers and does to them. *)
Class RedisServer (S : Type) := {
  redis_exec : S -> forall o : RedisOp, RedisAns o * S;
  contents : S -> string -> list string;
  exec_RPush s k d : (redis_exec s (ORPush k d)).1 = None /\
    forall k', contents (redis_exec s (ORPush k d)).2 k' = if decide (k = k') then contents s k ++ [d] else contents s k';
  exec_LLen s k : (redis_exec s (OLLen k)).1 = inr (Z.of_nat (length (contents s k))) /\
    forall k', contents (redis_exec s (OLLen k)).2 k' = contents s k';
  exec_LTrim s k start : 0 <= start -> (redis_exec s (OLTrim k start (-1))).1 = None /\
    forall k', contents (redis_exec s (OLTrim k start (-1))).2 k' =
      if decide (k = k') then drop (Z.to_nat start) (contents s k) else contents s k';
  exec_Expire s k ttl : 0 < ttl -> (redis_exec s (OExpire k ttl)).1 = None /\
    forall k', contents (redis_exec s (OExpire k ttl)).2 k' = contents s k';
  exec_LRange s k start stop : 0 <= start <= stop ->
    (redis_exec s (OLRange k start stop)).1 = inr (slice start (stop + 1) (contents s k)) /\
    forall k', contents (redis_exec s (OLRange k start stop)).2 k' = contents s k';
  exec_Del s k : (redis_exec s (ODel k)).1 = None /\
    forall k', contents (redis_exec s (ODel k)).2 k' = if decide (k = k') then [] else contents s k' }.

(** Without another client in between, an operation runs to its end. *)
Definition atomically {S A} `{RedisServer S} (s : S) (m : prog (S := redis_sig) A) : A * S :=
  let r := run (S := redis_sig) redis_exec s m in (r.1.2, r.2).

Lemma atomically_call {S B} `{RedisServer S} (s : S) o (f : RedisAns o -> prog B) :
  atomically s (rcall o ≫= f) = atomically (redis_exec s o).2 (f (redis_exec s o).1).
Proof.
  unfold atomically, rcall, perform. cbn [mbind prog_bind bind run]. destruct (redis_exec s o) as [r s'].
  cbn [fst snd]. by destruct (run (S := redis_sig) redis_exec s' (f r)) as [[? ?] ?].
Qed.

Lemma atomically_mret {S A} `{RedisServer S} (s : S) (a : A) : atomically s (mret a) = (a, s).
Proof. done. Qed.

Lemma getKey_inj c id id' : getKey c id = getKey c id' -> id = id'.
Proof.
  unfold getKey. intros H. apply String.app_inj, String.app_inj in H. apply (f_equal to_bytes) in H.
  rewrite !to_bytes_app in H. by apply app_inv_tail, to_bytes_inj in H.
Qed.

Section redis_contract.
Context {codec : MessageCodec} {S : Type} {server : RedisServer S} (c : RedisConversation).

#[local] Instance redis_store : ConversationStore S := {|
  AddMessage s id m := atomically s (redis_AddMessage c id m);
  ListMessages s id opts := atomically s (redis_ListMessages c id opts);
  Clear s id := atomically s (redis_Clear c id) |}.

(** The values at a key encode the messages. *)
Definition encodes (ms : list Message) (vals : list string) : Prop :=
  Forall2 (fun m v => unmarshal_message v = inr m) ms vals.

Definition redis_stored (s : S) (id : string) : list Message :=
  omap (fun v => match unmarshal_message v with inr m => Some m | inl _ => None end) (contents s (getKey c id)).

Definition redis_wf (size : nat) (s : S) : Prop :=
  rd_maxSize c = Z.of_nat size /\ 0 < Z.of_nat size < max_int64 /\
  forall id, encodes (redis_stored s id) (contents s (getKey c id)) /\ (length (redis_stored s id) <= size)%nat.

Lemma stored_of_encodes s id ms : encodes ms (contents s (getKey c id)) -> redis_stored s id = ms.
Proof.
  unfold redis_stored. induction 1 as [|m v ms vals Hv H IH]; [done|]. cbn. rewrite Hv. cbn. by rewrite IH.
Qed.

Lemma encodes_drop n ms vals : encodes ms vals -> encodes (drop n ms) (drop n vals).
Proof. intros. by apply Forall2_drop. Qed.

Lemma decode_slice roles ms vals : encodes ms vals -> decode_kept roles vals = inr (List.filter (role_kept roles) ms).
Proof. induction 1 as [|m v ms vals Hv H IH]; [done|]. cbn. by rewrite Hv, IH. Qed.

(** A state whose lists are those of [s] but for the key of [id]. *)
Lemma redis_wf_update size s s' id ms :
  redis_wf size s -> encodes ms (contents s' (getKey c id)) -> (length ms <= size)%nat ->
  (forall k, getKey c id <> k -> contents s' k = contents s k) ->
  redis_wf size s' /\ redis_stored s' id = ms /\ forall k, k <> id -> redis_stored s' k = redis_stored s k.
Proof.
  intros (Hm & Hs & Hall) Henc Hlen Hother. pose proof (stored_of_encodes _ _ _ Henc) as Hst.
  assert (Hk : forall k, k <> id -> contents s' (getKey c k) = contents s (getKey c k)).
  { intros k Hk. apply Hother. by intros ?%getKey_inj. }
  assert (Hsk : forall k, k <> id -> redis_stored s' k = redis_stored s k).
  { intros k Hne. unfold redis_stored. by rewrite Hk. }
  split; [|done]. split; [done|split; [done|]]. intros k. destruct (decide (k = id)) as [->|Hne].
  - by rewrite Hst.
  - by rewrite Hsk, Hk.
Qed.
(** Runs the next command of [m] with its law. *)
Ltac redis_step law :=
  match goal with |- context [atomically ?s (rcall ?o ≫= ?f)] => rewrite (atomically_call s o f) end;
  let Ha := fresh "Ha" in let Hc := fresh "Hc" in
  pose proof law as [Ha Hc];
  match type of Ha with ?x.1 = _ => destruct x as [? ?]; cbn [fst snd] in Ha, Hc |- *; subst end.

Lemma redis_trim_ok {B} size s key (f : option error -> prog B) :
  rd_maxSize c = Z.of_nat size -> (0 < size)%nat -> Z.of_nat (length (contents s key)) <= max_int64 ->
  exists s', atomically s (redis_trim c key (Z.of_nat (length (contents s key))) ≫= f) = atomically s' (f None) /\
    forall k, contents s' k = if decide (key = k) then last_n size (contents s key) else contents s k.
Proof.
  intros Hmax Hsize Hn. set (n := length (contents s key)) in *. unfold redis_trim. rewrite Hmax.
  destruct (0 <? Z.of_nat size) eqn:E0; crush_bool; [|lia]. cbn [andb].
  destruct (Z.of_nat size <? Z.of_nat n) eqn:E; crush_bool.
  - rewrite wrap64_id by (unfold in64, min_int64, max_int64 in *; lia).
    redis_step (exec_LTrim s key (Z.of_nat n - Z.of_nat size) ltac:(lia)). eexists. split; [done|].
    intros k. rewrite Hc. unfold last_n. fold n. by replace (Z.to_nat (Z.of_nat n - Z.of_nat size)) with (n - size)%nat by lia.
  - exists s. split; [done|]. intros k. rewrite last_n_all by lia. by destruct (decide (key = k)) as [<-|].
Qed.

Lemma redis_expire_ok {B} s key (f : option error -> prog B) :
  exists s', atomically s (redis_expire c key ≫= f) = atomically s' (f None) /\ forall k, contents s' k = contents s k.
Proof.
  unfold redis_expire. destruct (0 <? rd_ttl c) eqn:E; crush_bool; [|by exists s].
  redis_step (exec_Expire s key (rd_ttl c) ltac:(lia)). eauto.
Qed.

Lemma redis_AddMessage_ok size s id m :
  redis_wf size s -> id <> "" -> storable m ->
  exists s', atomically s (redis_AddMessage c id m) = (None, s') /\ redis_wf size s' /\
    redis_stored s' id = last_n size (redis_stored s id ++ [m]) /\ forall k, k <> id -> redis_stored s' k = redis_stored s k.
Proof.
  intros Hwf Hid Hm. pose proof Hwf as (Hmax & Hs & Hall). destruct (Hall id) as [Henc Hlen].
  destruct (codec_roundtrip m Hm) as (data & Hd & Hu). unfold redis_AddMessage.
  destruct (String.eqb_spec id "") as [|_]; [done|]. cbn zeta. rewrite Hd. set (key := getKey c id) in *.
  redis_step (exec_RPush s key data). redis_step (exec_LLen s0 key).
  set (vals := contents s key ++ [data]) in *.
  assert (Hvals : contents s0 key = vals) by (rewrite Hc; by destruct (decide (key = key))).
  assert (Hev : encodes (redis_stored s id ++ [m]) vals) by (apply Forall2_app; [done|by repeat constructor]).
  assert (Hn : length vals = (length (redis_stored s id) + 1)%nat).
  { rewrite <- (Forall2_length _ _ _ Hev), length_app. done. }
  rewrite <- (Hc0 key). destruct (redis_trim_ok size s1 key (fun t => match t with
    | Some e => mret (Some (wrap_error "redis ltrim: " e))
    | None => x ← redis_expire c key; mret (option_map (wrap_error "redis expire: ") x) end) Hmax) as (s2 & -> & Ht);
    [lia|rewrite Hc0, Hvals; lia|].
  destruct (redis_expire_ok s2 key (fun x => mret (option_map (wrap_error "redis expire: ") x))) as (s3 & -> & Hx).
  exists s3. split; [done|].
  apply (redis_wf_update size s); [done| |rewrite length_last_n; lia|].
  - fold key. rewrite Hx, Ht. destruct (decide (key = key)); [|done]. rewrite Hc0, Hvals. unfold last_n.
    rewrite (Forall2_length _ _ _ Hev). by apply encodes_drop.
  - intros k Hk. rewrite Hx, Ht, !Hc0, !Hc. by destruct (decide (key = k)).
Qed.

Lemma redis_ListMessages_ok size s id opts :
  redis_wf size s -> id <> "" -> listing_ok (options_of opts) (length (redis_stored s id)) ->
  exists s', atomically s (redis_ListMessages c id opts) = (Listed (selected (options_of opts) (redis_stored s id)), s') /\
    redis_wf size s' /\ forall k, redis_stored s' k = redis_stored s k.
Proof.
  intros Hwf Hid Ho. pose proof Hwf as (Hmax & Hs & Hall). destruct (Hall id) as [Henc Hlen].
  unfold redis_ListMessages. destruct (String.eqb_spec id "") as [|_]; [done|]. cbn zeta.
  set (key := getKey c id) in *. redis_step (exec_LLen s key). pose proof (Forall2_length _ _ _ Henc) as Hl.
  assert (Hsame : forall s', (forall k, contents s' k = contents s k) ->
    redis_wf size s' /\ forall k, redis_stored s' k = redis_stored s k).
  { intros s' Hc'. assert (forall k, redis_stored s' k = redis_stored s k) by (intros k; unfold redis_stored; by rewrite Hc').
    split; [|done]. split; [done|split; [done|]]. intros k. rewrite Hc'. by rewrite H. }
  pose proof (window_selected (options_of opts) (redis_stored s id)) as Hw. cbv zeta in Hw. rewrite <- Hl.
  destruct (window _ (options_of opts)) as [start stop]. cbn [fst snd] in Hw.
  destruct Hw as (H1 & H2 & H3); [lia|done|]. unfold selected. rewrite <- H3. destruct (stop <=? start) eqn:E; crush_bool.
  - exists s0. split; [|by apply Hsame]. rewrite atomically_mret. do 2 f_equal. unfold slice.
    by replace (Z.to_nat (stop - start)) with 0%nat by lia.
  - rewrite wrap64_id by (unfold in64, min_int64, max_int64 in *; lia).
    redis_step (exec_LRange s0 key start (stop - 1) ltac:(lia)). eexists. split; [|apply Hsame; intros k; by rewrite Hc0, Hc].
    rewrite atomically_mret, Z.sub_add, Hc. erewrite decode_slice; [done|]. by apply Forall2_take, Forall2_drop.
Qed.

Lemma redis_Clear_ok size s id :
  redis_wf size s -> id <> "" ->
  exists s', atomically s (redis_Clear c id) = (None, s') /\ redis_wf size s' /\ redis_stored s' id = [] /\
    forall k, k <> id -> redis_stored s' k = redis_stored s k.
Proof.
  intros Hwf Hid. unfold redis_Clear. destruct (String.eqb_spec id "") as [|_]; [done|].
  redis_step (exec_Del s (getKey c id)). eexists. split; [done|].
  apply (redis_wf_update size s); [done| |cbn; lia|].
  - rewrite Hc. destruct (decide (getKey c id = getKey c id)); [constructor|done].
  - intros k Hk. rewrite Hc. by destruct (decide (getKey c id = k)).
Qed.

#[refine] Instance redis_KeepsLast (size : nat) : KeepsLast S size storable := {|
  wf := redis_wf size;
  stored := redis_stored |}.
Proof.
  - intros s id (_ & _ & Hl). apply Hl.
  - intros s id m. apply redis_AddMessage_ok.
  - intros s id opts. apply redis_ListMessages_ok.
  - intros s id. apply redis_Clear_ok.
Defined.

End redis_contract.

(** ** Concurrent writers

    [AddMessage] is several commands, so the calls of concurrent writers interleave on the
    server. *)

#[local] Abbreviation revent := (event redis_sig).

(** What a successful command answers. *)
Definition healthy (e : revent) : Prop :=
  match e with
  | Ev (ORPush _ _) p => p = None
  | Ev (OLLen _) l => exists n, l = inr n /\ n <= max_int64
  | _ => True
  end.

Definition is_push (e : revent) : Prop := match ev_op e with ORPush _ _ => True | _ => False end.
Definition is_llen (e : revent) : Prop := match ev_op e with OLLen _ => True | _ => False end.

(** A length above [max] calls for a trim of what exceeds it. *)
Definition exceeds (max : Z) (e : revent) : Prop := match e with Ev (OLLen _) (inr n) => max < n | _ => False end.
Definition trims_to (max : Z) (e f : revent) : Prop :=
  match e, f with Ev (OLLen _) (inr n), Ev (OLTrim _ start _) _ => start = n - max | _, _ => False end.

(** The commands [AddMessage] sends, all for one key. *)
Definition add_command (key : string) (e : revent) : Prop :=
  match ev_op e with
  | ORPush k _ | OLLen k => k = key
  | OLTrim k start stop => k = key /\ 0 <= start /\ stop = -1
  | OExpire k ttl => k = key /\ 0 < ttl
  | ORedisSched => True
  | _ => False
  end.

(** What every writer's commands satisfy, however they are interleaved. *)
Definition writer_trace (key : string) (max : Z) (tr : list revent) : Prop :=
  Forall healthy tr ->
  Forall (add_command key) tr /\ followed is_push (fun _ f => is_llen f) tr /\ followed (exceeds max) (trims_to max) tr.

#[export] Instance writer_trace_shuffleable key max : Shuffleable (S := redis_sig) (writer_trace key max).
Proof.
  apply (Shuffleable_given (S := redis_sig)). apply (Shuffleable_and (S := redis_sig)); [|apply (Shuffleable_and (S := redis_sig))].
  - apply (Shuffleable_Forall (S := redis_sig)). intros [o a] Hs. unfold is_sched in Hs. cbn in Hs. by subst o.
  - apply (Shuffleable_followed (S := redis_sig)). intros [o a] Hs. unfold is_sched in Hs. cbn in Hs. subst o. by intros [].
  - apply (Shuffleable_followed (S := redis_sig)). intros [o a] Hs. unfold is_sched in Hs. cbn in Hs. subst o. by intros [].
Qed.

Lemma spec_rcall {A} o (f : RedisAns o -> prog A) (Q : list revent -> A -> Prop) :
  (forall r, spec (f r) (fun tr a => Q (Ev (S := redis_sig) o r :: tr) a)) -> spec (rcall o ≫= f) Q.
Proof. intros H. apply (spec_do (S := redis_sig) o f). exact H. Qed.

Lemma spec_rcall_last o (Q : list revent -> RedisAns o -> Prop) :
  (forall r, Q [Ev (S := redis_sig) o r] r) -> spec (rcall o) Q.
Proof. exact (spec_perform (S := redis_sig) o Q). Qed.

(** After the length is known: at most a trim, to the length allowed, and an expiry. *)
Definition tail_trace (key : string) (max : Z) (n : Z) (tr : list revent) : Prop :=
  Forall (add_command key) tr /\ (forall e, In e tr -> ~ is_push e /\ ~ is_llen e) /\
  (max < n -> exists r tr', tr = Ev (S := redis_sig) (OLTrim key (n - max) (-1)) r :: tr').

Lemma redis_expire_trace c key : spec (redis_expire c key) (fun tr _ => tail_trace key 0 0 tr).
Proof.
  unfold redis_expire. destruct (0 <? rd_ttl c) eqn:E; crush_bool.
  - apply (spec_rcall_last (OExpire key (rd_ttl c))). intros r.
    split; [by repeat constructor|split; [|lia]]. intros e [<-|[]]. cbn. auto.
  - apply spec_mret. split; [constructor|split; [by intros e []|lia]].
Qed.

Lemma redis_tail_trace c key n (ok : error -> error) :
  0 < rd_maxSize c -> n <= max_int64 ->
  spec (t ← redis_trim c key n;
        match t with
        | Some e => mret (Some (ok e))
        | None => x ← redis_expire c key; mret (option_map (wrap_error "redis expire: ") x)
        end) (fun tr _ => tail_trace key (rd_maxSize c) n tr).
Proof.
  intros Hm Hn. unfold redis_trim. destruct (0 <? rd_maxSize c) eqn:E0; crush_bool; [|lia]. cbn [andb].
  assert (Hexp : spec (x ← redis_expire c key; mret (option_map (wrap_error "redis expire: ") x)) (fun tr _ => tail_trace key 0 0 tr)).
  { eapply spec_bind; [apply redis_expire_trace|]. intros t x Ht. apply spec_mret. by rewrite app_nil_r. }
  destruct (rd_maxSize c <? n) eqn:E; crush_bool.
  - rewrite wrap64_id by (unfold in64, min_int64, max_int64 in *; lia). apply spec_rcall. intros r.
    assert (Hc : forall tr, tail_trace key 0 0 tr ->
      tail_trace key (rd_maxSize c) n (Ev (S := redis_sig) (OLTrim key (n - rd_maxSize c) (-1)) r :: tr)).
    { intros tr (Ha & Hb & _). split; [constructor; [split; [done|lia]|done]|split; [|eauto]].
      intros e [<-|He]; [cbn; auto|auto]. }
    destruct r as [e|]; [apply spec_mret, Hc|].
    + split; [constructor|split; [by intros e' []|lia]].
    + eapply spec_conseq; [exact Hexp|]. intros tr x. apply Hc.
  - eapply spec_conseq; [exact Hexp|]. intros tr x (Ha & Hb & _). split; [done|split; [done|lia]].
Qed.

Lemma redis_AddMessage_trace `{MessageCodec} c id m :
  0 < rd_maxSize c -> spec (redis_AddMessage c id m) (fun tr _ => writer_trace (getKey c id) (rd_maxSize c) tr).
Proof.
  intros Hm. assert (Hnil : writer_trace (getKey c id) (rd_maxSize c) []).
  { intros _. split; [constructor|split; apply followed_nil]. }
  unfold redis_AddMessage. destruct (String.eqb id ""); [by apply spec_mret|]. cbn zeta.
  destruct (marshal_message m) as [e|data]; [by apply spec_mret|]. apply spec_rcall. intros p. apply spec_rcall. intros l.
  destruct p as [e|]; [apply spec_mret; intros Hh; by inversion Hh|].
  destruct l as [e|n]; [apply spec_mret; intros Hh; inversion_clear Hh as [|? ? _ Hh']; inversion_clear Hh' as [|? ? Hl _]; by destruct Hl as (? & ? & _)|].
  intros tr r Hx Hh.
  assert (Hn : n <= max_int64).
  { inversion_clear Hh as [|? ? _ Hh']; inversion_clear Hh' as [|? ? Hl _]. by destruct Hl as (? & [= ->] & ?). }
  apply (redis_tail_trace c (getKey c id) n (wrap_error "redis ltrim: ") Hm Hn) in Hx as (Ha & Hb & Hc).
  split; [by repeat constructor|]. split.
  - apply followed_cons; [intros _; eexists; split; [by left|done]|]. apply followed_cons; [by intros []|].
    apply followed_no_needs. intros e He. by apply Hb.
  - apply followed_cons; [by intros []|]. apply followed_cons.
    + intros Hex. destruct (Hc Hex) as (t & tr' & ->). eexists. split; [by left|done].
    + apply followed_no_needs. intros e He Hex. destruct (Hb e He) as [_ Hll]. apply Hll.
      destruct e as [[] a]; try done; by destruct Hex.
Qed.

Lemma last_split {A} (P : A -> Prop) `{forall x, Decision (P x)} (l : list A) :
  (forall x, In x l -> ~ P x) \/
  exists pre x post, l = pre ++ x :: post /\ P x /\ forall y, In y post -> ~ P y.
Proof.
  induction l as [|x l [IH|(pre & y & post & -> & Hy & Hp)]]; [by left| |].
  - destruct (decide (P x)) as [Hx|Hx]; [|left; by intros y [<-|]; auto]. right. by exists [], x, l.
  - right. by exists (x :: pre), y, post.
Qed.

#[export] Instance is_llen_dec e : Decision (is_llen e).
Proof. destruct e as [[] a]; unfold is_llen; cbn; apply _. Defined.

Section writers.
Context {codec : MessageCodec} {S : Type} {server : RedisServer S}.

(** The server performs the commands of a trace in its order. *)
Inductive replays : S -> list revent -> S -> Prop :=
| replays_nil s : replays s [] s
| replays_command s o tr s' :
    o <> ORedisSched -> replays (redis_exec s o).2 tr s' -> replays s (Ev (S := redis_sig) o (redis_exec s o).1 :: tr) s'
| replays_sched s b tr s' : replays s tr s' -> replays s (Ev (S := redis_sig) ORedisSched b :: tr) s'.

(** Lengths are Go integers. *)
Definition go_ints (tr : list revent) : Prop :=
  forall k n, In (Ev (S := redis_sig) (OLLen k) (inr n)) tr -> n <= max_int64.

(** The values pushed, in the order the server received them. *)
Definition pushed (tr : list revent) : list string :=
  omap (fun e => match ev_op e with ORPush _ d => Some d | _ => None end) tr.

Lemma replays_app_inv s t1 t2 s' : replays s (t1 ++ t2) s' -> exists s1, replays s t1 s1 /\ replays s1 t2 s'.
Proof.
  revert s. induction t1 as [|e t1 IH]; intros s Hr; [exists s; by split; [constructor|]|].
  inversion Hr as [|? ? ? ? Ho Hr'|? ? ? ? Hr']; subst; destruct (IH _ Hr') as (s1 & ? & ?); exists s1; by split; [constructor|].
Qed.

Lemma replays_healthy s tr s' : replays s tr s' -> go_ints tr -> Forall healthy tr.
Proof.
  induction 1 as [|s o tr s' Ho Hr IH|s b tr s' Hr IH]; intros Hg; constructor; try (apply IH; intros k n Hin; apply (Hg k); by right).
  - destruct o; try done; cbn.
    + apply exec_RPush.
    + pose proof (exec_LLen s key) as [Hl _]. eexists. split; [exact Hl|]. apply (Hg key). left. by rewrite Hl.
  - done.
Qed.

(** Along the commands of the writers the list only grows at its end and shrinks at its head. *)
Lemma replays_contents key s tr s' :
  replays s tr s' -> Forall (add_command key) tr -> exists n, contents s' key = drop n (contents s key ++ pushed tr).
Proof.
  induction 1 as [s|s o tr s' Ho Hr IH|s b tr s' Hr IH]; intros Hc; [exists 0%nat; by rewrite app_nil_r| |].
  - inversion_clear Hc as [|? ? Hcmd Hc']. destruct (IH Hc') as [n ->]. destruct o; cbn in Hcmd; try done.
    + subst. destruct (exec_RPush s key data) as [_ ->]. destruct (decide (key = key)); [|done]. exists n. by rewrite <- app_assoc.
    + subst. destruct (exec_LLen s key) as [_ ->]. by exists n.
    + destruct Hcmd as (-> & Hs & ->). destruct (exec_LTrim s key start Hs) as [_ ->]. destruct (decide (key = key)); [|done].
      exists (Z.to_nat start `min` length (contents s key) + n)%nat. rewrite <- drop_drop. f_equal. cbn [pushed omap list_omap ev_op].
      rewrite drop_app_le by lia. f_equal. destruct (decide (Z.to_nat start <= length (contents s key))%nat).
      * f_equal. lia.
      * rewrite !drop_ge by lia. done.
    + destruct Hcmd as (-> & Ht). destruct (exec_Expire s key ttl Ht) as [_ ->]. by exists n.
  - inversion_clear Hc as [|? ? _ Hc']. destruct (IH Hc') as [n ->]. by exists n.
Qed.

Lemma pushed_nil tr : (forall e, In e tr -> ~ is_push e) -> pushed tr = [].
Proof.
  induction tr as [|e tr IH]; intros Hp; [done|]. unfold pushed. cbn. assert (He := Hp e (or_introl eq_refl)).
  unfold is_push in He. destruct (ev_op e); try done; apply IH; intros f Hf; apply Hp; by right.
Qed.

Lemma replays_shrinks key s tr s' :
  replays s tr s' -> Forall (add_command key) tr -> (forall e, In e tr -> ~ is_push e) ->
  (length (contents s' key) <= length (contents s key))%nat.
Proof.
  intros Hr Hc Hp. destruct (replays_contents key s tr s' Hr Hc) as [n ->]. rewrite pushed_nil, app_nil_r by done.
  rewrite length_drop. lia.
Qed.

Lemma replays_cons_inv s o a tr s' :
  o <> ORedisSched -> replays s (Ev (S := redis_sig) o a :: tr) s' ->
  a = (redis_exec s o).1 /\ replays (redis_exec s o).2 tr s'.
Proof.
  intros Ho Hr. remember (Ev (S := redis_sig) o a :: tr) as l eqn:Hl. destruct Hr as [|s o' tr' s' _ Hr|]; try done.
  - injection Hl as -> Hx ->. apply Eqdep_dec.inj_pair2_eq_dec in Hx; [by subst|]. apply RedisOp_dec.
  - by injection Hl as <-.
Qed.

(** Once no push is to come: the length a writer was told decides about its trim. *)
Lemma trimmed_after_llen key max s a post s' :
  replays s (Ev (S := redis_sig) (OLLen key) a :: post) s' -> Forall (add_command key) post ->
  (forall f, In f post -> ~ is_push f) ->
  (exceeds max (Ev (S := redis_sig) (OLLen key) a) ->
   exists f, In f post /\ trims_to max (Ev (S := redis_sig) (OLLen key) a) f) ->
  0 < max -> Z.of_nat (length (contents s' key)) <= max.
Proof.
  intros (Ha & Hr)%replays_cons_inv Hc Hp Htrim Hmax; [|done]. subst a. destruct (exec_LLen s key) as [Ha Hsame].
  rewrite Ha in Htrim. pose proof (replays_shrinks key _ _ _ Hr Hc Hp) as Hlen. rewrite Hsame in Hlen.
  destruct (decide (Z.of_nat (length (contents s key)) <= max)) as [|Hgt]; [lia|].
  destruct Htrim as (f & Hin & Hf); [cbn; lia|]. apply in_split in Hin as (p1 & p2 & ->).
  apply replays_app_inv in Hr as (s2 & Hr1 & Hr2). rewrite Forall_app, Forall_cons in Hc. destruct Hc as (Hc1 & Hcf & Hc2).
  destruct f as [[] b]; try done. cbn in Hf. subst start. destruct Hcf as (-> & H0 & ->).
  apply replays_cons_inv in Hr2 as (_ & Hr2); [|done]. destruct (exec_LTrim s2 key _ H0) as [_ Ht].
  pose proof (replays_shrinks key _ _ _ Hr1 Hc1 ltac:(intros g Hg; apply Hp, in_or_app; by left)) as L1.
  pose proof (replays_shrinks key _ _ _ Hr2 Hc2 ltac:(intros g Hg; apply Hp, in_or_app; right; by right)) as L2.
  rewrite Ht, Hsame in *. destruct (decide (key = key)); [|done]. rewrite length_drop in L2. lia.
Qed.

(** However the calls interleave, when they are all done the list is within its bound. *)
Lemma writers_within_bound key max s tr s' :
  replays s tr s' -> go_ints tr -> writer_trace key max tr -> 0 < max ->
  Z.of_nat (length (contents s key)) <= max -> Z.of_nat (length (contents s' key)) <= max.
Proof.
  intros Hr Hg Hw Hmax Hs. destruct (Hw (replays_healthy s tr s' Hr Hg)) as (Hc & Hpush & Htrim).
  destruct (last_split is_llen tr) as [Hno|(pre & e & post & -> & He & Hno)].
  - pose proof (replays_shrinks key s tr s' Hr Hc) as Hlen. enough (length (contents s' key) <= length (contents s key))%nat by lia.
    apply Hlen. intros e Hin Hp. apply in_split in Hin as (pre & post & ->).
    destruct (Hpush pre e post eq_refl Hp) as (f & Hf & Hl). apply (Hno f); [|done]. apply in_or_app. right. by right.
  - apply replays_app_inv in Hr as (s1 & Hr1 & Hr2). rewrite Forall_app, Forall_cons in Hc. destruct Hc as (_ & Hce & Hcp).
    assert (Hnp : forall f, In f post -> ~ is_push f).
    { intros f Hin Hp. apply in_split in Hin as (p1 & p2 & ->).
      destruct (Hpush (pre ++ e :: p1) f p2) as (g & Hin & Hl); [by rewrite <- app_assoc|done|].
      apply (Hno g); [|done]. apply in_or_app. right. by right. }
    destruct e as [[] a]; try done. cbn in Hce. subst key0.
    exact (trimmed_after_llen key max s1 a post s' Hr2 Hcp Hnp (Htrim pre _ post eq_refl) Hmax).
Qed.

(** What one writer pushes. *)
Definition payload (id : string) (m : Message) : list string :=
  if String.eqb id "" then [] else match marshal_message m with inl _ => [] | inr data => [data] end.

Lemma pushed_shuffled t1 t2 t : shuffled (S := redis_sig) t1 t2 t -> pushed t ≡ₚ pushed t1 ++ pushed t2.
Proof.
  unfold pushed. induction 1 as [|[o a] t1 t2 t _ IH|[o a] t1 t2 t _ IH|[o a] t1 t2 t Hs _ IH]; cbn; [done|..].
  - destruct o; by rewrite ?IH.
  - destruct o; rewrite ?IH; try done. by rewrite Permutation_middle.
  - unfold is_sched in Hs. cbn in Hs. by subst o.
Qed.

Lemma AddMessage_pushed c id m : spec (redis_AddMessage c id m) (fun tr _ => pushed tr = payload id m).
Proof.
  unfold redis_AddMessage, payload. destruct (String.eqb id ""); [by apply spec_mret|]. cbn zeta.
  destruct (marshal_message m) as [e|data]; [by apply spec_mret|]. apply spec_rcall. intros p. apply spec_rcall. intros l.
  assert (Hexp : spec (x ← redis_expire c (getKey c id); mret (option_map (wrap_error "redis expire: ") x)) (fun tr _ => pushed tr = [])).
  { eapply spec_bind; [apply redis_expire_trace|]. intros t x (_ & Ht & _). apply spec_mret. rewrite app_nil_r.
    apply pushed_nil. intros e He. by apply Ht. }
  destruct p as [e|]; [by apply spec_mret|]. destruct l as [e|n]; [by apply spec_mret|]. unfold redis_trim.
  destruct (_ && _).
  - apply spec_rcall. intros [e|]; [by apply spec_mret|]. eapply spec_conseq; [exact Hexp|]. intros tr x Ht. unfold pushed in *. cbn. by rewrite Ht.
  - eapply spec_conseq; [exact Hexp|]. intros tr x Ht. unfold pushed in *. cbn. by rewrite Ht.
Qed.

Lemma writers_trace c id ms :
  0 < rd_maxSize c ->
  spec (par (map (redis_AddMessage c id) ms)) (fun tr _ =>
    writer_trace (getKey c id) (rd_maxSize c) tr /\ pushed tr ≡ₚ flat_map (payload id) ms).
Proof.
  intros Hm. induction ms as [|m ms IH].
  - apply (spec_ret (S := redis_sig)). split; [apply (shuffle_nil (S := redis_sig))|done].
  - cbn [map par]. apply (spec_fmap (S := redis_sig)). intros tr [y ys] Hx.
    apply (texec_par2 (S := redis_sig)) in Hx as (t1 & t2 & Hy & Hys & Hs). destruct (IH _ _ Hys) as [Hw2 Hp2].
    split; [eapply (shuffle_shuffled (S := redis_sig)); [exact Hs|by apply (redis_AddMessage_trace c id m Hm _ _ Hy)|done]|].
    rewrite (pushed_shuffled _ _ _ Hs), Hp2. by rewrite (AddMessage_pushed c id m _ _ Hy).
Qed.

(** C33: Concurrent writers of one conversation, on every interleaving of their commands: every
    message is pushed exactly once, what is left when all are done is the end of the list of
    pushes, and it is within the bound. *)
Theorem concurrent_writers_bounded c id ms s tr rs s' :
  0 < rd_maxSize c -> texec (par (map (redis_AddMessage c id) ms)) tr rs -> replays s tr s' -> go_ints tr ->
  Z.of_nat (length (contents s (getKey c id))) <= rd_maxSize c ->
  pushed tr ≡ₚ flat_map (payload id) ms /\
  (exists n, contents s' (getKey c id) = drop n (contents s (getKey c id) ++ pushed tr)) /\
  Z.of_nat (length (contents s' (getKey c id))) <= rd_maxSize c.
Proof.
  intros Hm Hx Hr Hg Hs. apply (writers_trace c id ms Hm) in Hx as [Hw Hp]. split; [done|]. split.
  - apply (replays_contents _ s tr s' Hr). apply Hw. by eapply replays_healthy.
  - by eapply writers_within_bound.
Qed.
End writers.
