(* ===== verification/ConversationFaults.v ===== *)
(** The Redis conversation store ([pkg/conversation/redis]) against a server that fails and
    forgets: any command may be refused, before or after it took effect, and any key may expire
    before any command.  A sequential client's calls are compared with logs that know only of
    complete calls. *)
From S2P Require Import Prelude GoLib Types Prog Conversation.

#[local] Open Scope string_scope.
#[local] Open Scope list_scope.
#[local] Open Scope Z_scope.

(** ** The server *)

Abbreviation lists := (string -> list string).
#[local] Abbreviation revent := (event redis_sig).

Definition with_list (k : string) (l : list string) (s : lists) : lists := fun k' => if decide (k = k') then l else s k'.

(** Positions from [start] to [stop], included; negative ones count from the end. *)
Definition redis_range (start stop : Z) (l : list string) : list string :=
  let n := Z.of_nat (length l) in
  let first := Z.max 0 (if start <? 0 then n + start else start) in
  let last := Z.min (n - 1) (if stop <? 0 then n + stop else stop) in
  if last <? first then [] else slice first (last + 1) l.

(** What the documented commands do and answer; a list without elements is a key that does not exist. *)
Definition redis_effect (o : RedisOp) (s : lists) : lists :=
  match o with
  | ORPush k d => with_list k (s k ++ [d]) s
  | OLTrim k start stop => with_list k (redis_range start stop (s k)) s
  | ODel k => with_list k [] s
  | _ => s
  end.
Definition redis_answer (o : RedisOp) (s : lists) : RedisAns o :=
  match o with
  | OLLen k => inr (Z.of_nat (length (s k)))
  | OLRange k start stop => inr (redis_range start stop (s k))
  | ORedisSched => true
  | _ => None
  end.

(** The answer is an error. *)
Definition refused (o : RedisOp) : RedisAns o -> bool :=
  match o with
  | OLLen _ | OLRange _ _ _ => fun a => match a with inl _ => true | inr _ => false end
  | ORedisSched => fun _ => false
  | _ => fun a => match a with Some _ => true | None => false end
  end.

(** Keys expire; [lost] tells whether any may have. *)
Definition expires (lost : bool) (s s' : lists) : Prop := forall k, s' k = s k \/ lost = true /\ s' k = [].

(** A list is never longer than an [int] can count. *)
Definition room (o : RedisOp) (s : lists) : Prop :=
  match o with ORPush k _ => Z.of_nat (length (s k)) < max_int64 | _ => True end.

Inductive answered (s : lists) (o : RedisOp) : RedisAns o -> bool -> lists -> Prop :=
| answered_done lost s1 s' :
    expires lost s s1 -> room o s1 -> (forall k, s' k = redis_effect o s1 k) -> answered s o (redis_answer o s1) lost s'
| answered_refused a lost s1 s' :
    expires lost s s1 -> refused o a = true -> (forall k, s' k = s1 k) -> answered s o a lost s'
| answered_unheard a lost s1 s' :
    expires lost s s1 -> refused o a = true -> room o s1 -> (forall k, s' k = redis_effect o s1 k) -> answered s o a lost s'.

Inductive redis_serves : lists -> list revent -> bool -> lists -> Prop :=
| serves_nil s : redis_serves s [] false s
| serves_command s o a lost s1 tr lost' s' :
    answered s o a lost s1 -> redis_serves s1 tr lost' s' -> redis_serves s (Ev (S := redis_sig) o a :: tr) (lost || lost') s'.

(** A command of the trace was refused. *)
Definition faults (tr : list revent) : bool := existsb (fun e => refused (ev_op e) (ev_ans e)) tr.

(** ** Calls *)

(** A call with its outcome, whether a command it sent was refused, and whether a key may have expired meanwhile. *)
Record call := { cl_op : conv_op; cl_out : conv_out; cl_failed : bool; cl_lost : bool }.

Section store.
Context {codec : MessageCodec} (c : RedisConversation).

Definition redis_op (o : conv_op) : prog (S := redis_sig) conv_out :=
  match o with
  | CAdd id m => CErr <$> redis_AddMessage c id m
  | CList id opts => CListed <$> redis_ListMessages c id opts
  | CClear id => CErr <$> redis_Clear c id
  end.

Inductive redis_history : lists -> list call -> lists -> Prop :=
| history_nil s : redis_history s [] s
| history_call s o tr out lost s1 h s' :
    texec (redis_op o) tr out -> redis_serves s tr lost s1 -> redis_history s1 h s' ->
    redis_history s ({| cl_op := o; cl_out := out; cl_failed := faults tr; cl_lost := lost |} :: h) s'.

(** ** Specification: what is kept of every conversation

    An entry is a message as it reads back. *)
Abbreviation entries := (string -> list (result Message)).

Definition op_id (o : conv_op) : string := match o with CAdd id _ | CList id _ | CClear id => id end.
Definition no_id (o : conv_op) : conv_out :=
  match o with CList _ _ => CListed (ListError id_required) | _ => CErr (Some id_required) end.

(** Only the conversation [id] changes. *)
Definition becomes (id : string) (l : list (result Message)) (L L' : entries) : Prop :=
  forall id', L' id' = if decide (id = id') then l else L id'.
Definition forgets (lost : bool) (L L' : entries) : Prop := forall id, L' id = L id \/ lost = true /\ L' id = [].

(** The window of the contract, and its reading: the first entry that does not read is the error. *)
Definition windowed {A} (o : ListMessagesOptions) (l : list A) : list A :=
  last_n (if lo_Limit o <? 0 then length l else Z.to_nat (lo_Limit o))
    (take (length l - (if lo_Offset o <? 0 then 0%nat else Z.to_nat (lo_Offset o))) l).
Fixpoint all_read (l : list (result Message)) : result (list Message) :=
  match l with
  | [] => inr []
  | inl e :: _ => inl e
  | inr m :: l => match all_read l with inl e => inl e | inr ms => inr (m :: ms) end
  end.
Definition listing (o : ListMessagesOptions) (l : list (result Message)) : listed :=
  match all_read (windowed o l) with
  | inl e => ListError (wrap_error "unmarshal message: " e)
  | inr ms => Listed (List.filter (role_kept (lo_Roles o)) ms)
  end.

(** A call that meets no refused command does exactly what it says; one that does reports an
    error, and is done, half done (the oldest messages not yet dropped) or not done. *)
Inductive kept_step (size : nat) (L : entries) : conv_op -> bool -> conv_out -> entries -> Prop :=
| kept_no_id o : op_id o = "" -> kept_step size L o false (no_id o) L
| kept_unencodable id m e :
    id <> "" -> marshal_message m = inl e ->
    kept_step size L (CAdd id m) false (CErr (Some (wrap_error "marshal message: " e))) L
| kept_added id m d L' :
    id <> "" -> marshal_message m = inr d -> becomes id (last_n size (L id ++ [unmarshal_message d])) L L' ->
    kept_step size L (CAdd id m) false (CErr None) L'
| kept_add_failed id m d e l L' :
    id <> "" -> marshal_message m = inr d ->
    l ∈ [L id; L id ++ [unmarshal_message d]; last_n size (L id ++ [unmarshal_message d])] -> becomes id l L L' ->
    kept_step size L (CAdd id m) true (CErr (Some e)) L'
| kept_listed id opts : id <> "" -> kept_step size L (CList id opts) false (CListed (listing (options_of opts) (L id))) L
| kept_list_failed id opts e : id <> "" -> kept_step size L (CList id opts) true (CListed (ListError e)) L
| kept_cleared id L' : id <> "" -> becomes id [] L L' -> kept_step size L (CClear id) false (CErr None) L'
| kept_clear_failed id e l L' : id <> "" -> l ∈ [L id; []] -> becomes id l L L' -> kept_step size L (CClear id) true (CErr (Some e)) L'.

Inductive kept_history (size : nat) : entries -> list call -> entries -> Prop :=
| kept_nil L : kept_history size L [] L
| kept_call L L1 L2 L3 x h L' :
    forgets (cl_lost x) L L1 -> kept_step size L1 (cl_op x) (cl_failed x) (cl_out x) L2 -> forgets (cl_lost x) L2 L3 ->
    kept_history size L3 h L' -> kept_history size L (x :: h) L'.

(** What the lists of the server hold for the store. *)
Definition view (s : lists) : entries := fun id => map unmarshal_message (s (getKey c id)).

(** ** Keys that expire *)

Lemma expires_refl s : expires false s s.
Proof. by left. Qed.

Lemma expires_mono lost lost' s s' : expires lost s s' -> (lost = true -> lost' = true) -> expires lost' s s'.
Proof. intros He Hl k. destruct (He k) as [?|[? ?]]; [by left|right; auto]. Qed.

Lemma expires_trans a b s1 s2 s3 : expires a s1 s2 -> expires b s2 s3 -> expires (a || b) s1 s3.
Proof.
  intros H1 H2 k. destruct (H2 k) as [->|[-> ->]]; [|right; by rewrite orb_true_r].
  destruct (H1 k) as [->|[-> ->]]; [by left|by right].
Qed.

Lemma expires_eq lost s s1 s' : expires lost s s1 -> (forall k, s' k = s1 k) -> expires lost s s'.
Proof. intros He Hk k. rewrite Hk. apply He. Qed.

(** A change that leaves a missing list missing. *)
Lemma expires_with_list lost s s' k (f : list string -> list string) : f [] = [] -> expires lost s s' ->
  expires lost (with_list k (f (s k)) s) (with_list k (f (s' k)) s').
Proof.
  intros Hf He k'. unfold with_list. destruct (decide (k = k')) as [<-|]; [|apply He].
  destruct (He k) as [->|[-> ->]]; [by left|by right].
Qed.

Lemma view_expires lost s s' : expires lost s s' -> forgets lost (view s) (view s').
Proof. intros He id. unfold view. destruct (He (getKey c id)) as [->|[-> ->]]; [by left|by right]. Qed.

(** *** Commands *)

Definition is_reading (o : RedisOp) : Prop := match o with OLLen _ | OLRange _ _ _ | OExpire _ _ => True | _ => False end.

Lemma answered_reading s o a lost s' : is_reading o -> answered s o a lost s' -> expires lost s s'.
Proof. intros Ho Ha. destruct Ha as [lost s1 s' He _ Hs|a lost s1 s' He _ Hs|a lost s1 s' He _ _ Hs]; destruct o; try done; by eapply expires_eq. Qed.

Lemma answered_ok s o a lost s' : answered s o a lost s' -> refused o a = false ->
  exists s1, expires lost s s1 /\ room o s1 /\ a = redis_answer o s1 /\ forall k, s' k = redis_effect o s1 k.
Proof. intros Ha Hr. destruct Ha as [lost s1 s' He Hro Hs|a lost s1 s' _ H _|a lost s1 s' _ H _ _]; [by exists s1|congruence..]. Qed.

(** A command that changes a list has changed it, or not. *)
Lemma answered_cases s o a lost s' : answered s o a lost s' ->
  exists s1, expires lost s s1 /\
    ((forall k, s' k = redis_effect o s1 k) /\ room o s1 \/ (forall k, s' k = s1 k) /\ refused o a = true).
Proof. intros Ha. destruct Ha as [lost s1 s' He Hro Hs|a lost s1 s' He H Hs|a lost s1 s' He H Hro Hs]; exists s1; auto. Qed.

Lemma serves_app s t1 t2 lost s' : redis_serves s (t1 ++ t2) lost s' ->
  exists l1 s1 l2, redis_serves s t1 l1 s1 /\ redis_serves s1 t2 l2 s' /\ lost = l1 || l2.
Proof.
  revert s lost. induction t1 as [|e t1 IH]; intros s lost Hs; [exists false, s, lost; repeat split; [constructor|done]|].
  inversion Hs as [|? ? ? la sa ? lb ? Ha Hr]; subst. destruct (IH _ _ Hr) as (l1 & s1 & l2 & H1 & H2 & ->).
  exists (la || l1), s1, l2. split; [by econstructor|]. split; [done|]. by rewrite orb_assoc.
Qed.

Lemma serves_one s o (a : RedisAns o) tr lost s' : redis_serves s (Ev (S := redis_sig) o a :: tr) lost s' ->
  exists l1 s1 l2, answered s o a l1 s1 /\ redis_serves s1 tr l2 s' /\ lost = l1 || l2.
Proof.
  remember (Ev (S := redis_sig) o a :: tr) as l eqn:Hl. destruct 1 as [|s o' a' la sa tr' lb s' Ha Hr]; [done|].
  injection Hl as -> Hx <-. apply Eqdep_dec.inj_pair2_eq_dec in Hx; [subst; by exists la, sa, lb|apply RedisOp_dec].
Qed.

Lemma serves_none s lost s' : redis_serves s [] lost s' -> lost = false /\ s' = s.
Proof. by inversion 1. Qed.

(** The last command of a call. *)
Lemma serves_single s o (a : RedisAns o) lost s' : redis_serves s [Ev (S := redis_sig) o a] lost s' -> answered s o a lost s'.
Proof.
  intros (l1 & s1 & l2 & Ha & [-> ->]%serves_none & ->)%serves_one. by rewrite orb_false_r.
Qed.

(** Taking a run of a call apart, command by command. *)
Ltac next_command Hx Hs :=
  let r := fresh "r" in let t := fresh "t" in let Ha := fresh "Ha" in
  apply texec_do_inv in Hx as (r & t & -> & Hx);
  apply serves_one in Hs as (? & ? & ? & Ha & Hs & ->).

(** ** After the message is pushed *)

Definition trimmed (key : string) (s : lists) : lists := with_list key (last_n (Z.to_nat (rd_maxSize c)) (s key)) s.

Lemma trimmed_expires key lost s s' : expires lost s s' -> expires lost (trimmed key s) (trimmed key s').
Proof. apply expires_with_list. unfold last_n. by rewrite drop_nil. Qed.

Lemma trim_range n l : 0 <= n -> n = Z.of_nat (length l) - rd_maxSize c -> 0 < rd_maxSize c ->
  redis_range n (-1) l = last_n (Z.to_nat (rd_maxSize c)) l.
Proof.
  intros Hn -> Hm. unfold redis_range, slice, last_n. cbv zeta.
  rewrite (proj2 (Z.ltb_ge (Z.of_nat (length l) - rd_maxSize c) 0)) by lia. change (-1 <? 0) with true. cbv iota.
  rewrite Z.max_r, Z.min_l by lia. rewrite (proj2 (Z.ltb_ge _ _)) by lia.
  rewrite take_ge by (rewrite length_drop; lia). f_equal. lia.
Qed.

Lemma redis_expire_run key s tr r lost s' :
  texec (redis_expire c key) tr r -> redis_serves s tr lost s' ->
  expires lost s s' /\ faults tr = match r with Some _ => true | None => false end.
Proof.
  unfold redis_expire. destruct (0 <? rd_ttl c).
  - intros Hx Hs. apply texec_do_inv in Hx as (a & t & -> & [-> ->]%texec_ret_inv). apply serves_single in Hs.
    split; [by eapply (answered_reading _ (OExpire key (rd_ttl c)))|]. cbn. by destruct a.
  - intros [-> ->]%texec_ret_inv [-> ->]%serves_none. split; [apply expires_refl|done].
Qed.

Lemma redis_tail_run key s n tr r lost s' :
  0 < rd_maxSize c -> Z.of_nat (length (s key)) <= max_int64 -> n = Z.of_nat (length (s key)) ->
  texec (t ← redis_trim c key n;
         match t with
         | Some e => mret (Some (wrap_error "redis ltrim: " e))
         | None => x ← redis_expire c key; mret (option_map (wrap_error "redis expire: ") x)
         end) tr r -> redis_serves s tr lost s' ->
  faults tr = match r with Some _ => true | None => false end /\
  (expires lost (trimmed key s) s' \/ is_Some r /\ expires lost s s').
Proof.
  intros Hm Hb Hn Hx Hs. apply texec_bind_inv in Hx as (t1 & t2 & a & -> & H1 & H2).
  apply serves_app in Hs as (l1 & s1 & l2 & Hs1 & Hs2 & ->). unfold faults. rewrite existsb_app. fold (faults t1) (faults t2).
  assert (Hlast : forall t2 r, texec (x ← redis_expire c key; mret (option_map (wrap_error "redis expire: ") x)) t2 r ->
    redis_serves s1 t2 l2 s' -> expires l2 s1 s' /\ faults t2 = match r with Some _ => true | None => false end).
  { intros u v Hu Hv. apply texec_bind_inv in Hu as (u1 & u2 & b & -> & Hu1 & [-> ->]%texec_ret_inv). rewrite app_nil_r in *.
    destruct (redis_expire_run _ _ _ _ _ _ Hu1 Hv) as [He ->]. split; [done|by destruct b]. }
  revert H1. unfold redis_trim. rewrite (proj2 (Z.ltb_lt 0 (rd_maxSize c)) Hm). cbn [andb].
  destruct (rd_maxSize c <? n) eqn:E; crush_bool.
  - intros (a' & t & -> & [-> ->]%texec_ret_inv)%texec_do_inv. apply serves_single in Hs1.
    destruct (answered_cases _ _ _ _ _ Hs1) as (s0 & He & Hcase).
    assert (Hw : wrap64 (n - rd_maxSize c) = n - rd_maxSize c) by (apply wrap64_id; unfold in64, min_int64, max_int64 in *; lia).
    assert (Ht : (forall k, s1 k = redis_effect (OLTrim key (wrap64 (n - rd_maxSize c)) (-1)) s0 k) -> expires l1 (trimmed key s) s1).
    { intros Hk. eapply expires_eq; [exact (trimmed_expires key _ _ _ He)|]. intros k. rewrite Hk, Hw. cbn [redis_effect]. unfold trimmed, with_list.
      destruct (decide (key = k)); [|done]. destruct (He key) as [Hsame|[_ ->]]; [|by destruct (n - rd_maxSize c)].
      apply trim_range; [lia|by rewrite Hsame, Hn|done]. }
    assert (Hcases : expires l1 (trimmed key s) s1 \/ is_Some a' /\ expires l1 s s1).
    { destruct Hcase as [[Hk _]|[Hk Href]]; [left; by apply Ht|]. right. split; [by destruct a'|by eapply expires_eq]. }
    destruct a' as [e|].
    + apply texec_ret_inv in H2 as [-> ->]. apply serves_none in Hs2 as [-> ->]. rewrite !orb_false_r. split; [done|].
      destruct Hcases as [?|[_ ?]]; [by left|right; by split].
    + destruct (Hlast _ _ H2 Hs2) as [He2 ->]. split; [done|]. left. destruct Hcases as [Hc|[[? ?] _]]; [|done]. by eapply expires_trans.
  - intros [-> ->]%texec_ret_inv. apply serves_none in Hs1 as [-> ->]. destruct (Hlast _ _ H2 Hs2) as [He2 ->]. split; [done|].
    left. cbn [orb]. intros k. destruct (He2 k) as [->|[-> ->]]; [left|by right]. unfold trimmed, with_list.
    destruct (decide (key = k)) as [<-|]; [|done]. symmetry. apply last_n_all. lia.
Qed.

(** ** Windows *)

Lemma window_read {A} (o : ListMessagesOptions) (l : list A) :
  Z.of_nat (length l) <= max_int64 -> lo_Limit o <= max_int64 -> lo_Offset o <= max_int64 ->
  let w := window (Z.of_nat (length l)) o in
  if w.2 <=? w.1 then windowed o l = [] else 0 <= w.1 < w.2 /\ w.2 <= Z.of_nat (length l) /\ slice w.1 w.2 l = windowed o l.
Proof.
  intros Hn Hlim Hoff. cbv zeta. destruct (Z.leb_spec (lo_Offset o) (Z.of_nat (length l))) as [Hin|Hout].
  - destruct (window_selected o l Hn (conj Hlim Hin)) as (H1 & H2 & H3). fold (windowed o l) in H3.
    destruct (_ <=? _) eqn:E; crush_bool; [|split; [lia|by split]]. rewrite <- H3. unfold slice.
    by replace (Z.to_nat _) with 0%nat by lia.
  - assert (windowed o l = []) as ->.
    { unfold windowed. destruct (lo_Offset o <? 0) eqn:E; crush_bool; [lia|]. replace (length l - _)%nat with 0%nat by lia. cbn [take].
      unfold last_n. apply drop_nil. }
    destruct (_ <=? _) eqn:E; [done|]. apply Z.leb_gt in E. exfalso. revert E. unfold window. cbn [fst snd].
    destruct (lo_Offset o <? 0) eqn:E0; crush_bool; [lia|].
    rewrite (wrap64_id (Z.of_nat (length l) - lo_Offset o)) by (unfold in64, min_int64, max_int64 in *; lia).
    destruct (_ <? 0) eqn:E1, (Z.of_nat (length l) <? _) eqn:E2; crush_bool; lia.
Qed.

Lemma range_slice start stop l : 0 <= start < stop -> stop <= Z.of_nat (length l) -> redis_range start (stop - 1) l = slice start stop l.
Proof.
  intros H1 H2. unfold redis_range. cbv zeta. rewrite (proj2 (Z.ltb_ge start 0)), (proj2 (Z.ltb_ge (stop - 1) 0)) by lia.
  rewrite Z.max_r, Z.min_r by lia. rewrite (proj2 (Z.ltb_ge _ _)) by lia. by rewrite Z.sub_add.
Qed.

Lemma decode_all_read roles vals : decode_kept roles vals =
  match all_read (map unmarshal_message vals) with
  | inl e => inl (wrap_error "unmarshal message: " e)
  | inr ms => inr (List.filter (role_kept roles) ms)
  end.
Proof.
  induction vals as [|v vals IH]; [done|]. cbn [decode_kept map all_read]. destruct (unmarshal_message v) as [e|m]; [done|].
  rewrite IH. destruct (all_read _); [done|]. cbn [List.filter]. by destruct (role_kept roles m).
Qed.

Lemma windowed_map {A B} (f : A -> B) o l : windowed o (map f l) = map f (windowed o l).
Proof. unfold windowed, last_n. by rewrite firstn_map, skipn_map, !length_map. Qed.

(** ** One call *)

Definition bounded (s : lists) : Prop := forall k, Z.of_nat (length (s k)) <= max_int64.

Lemma bounded_answered s o a lost s' : 0 < rd_maxSize c -> bounded s -> answered s o a lost s' -> bounded s'.
Proof.
  intros Hm Hb Ha. destruct (answered_cases _ _ _ _ _ Ha) as (s0 & He & Hcase).
  assert (Hb0 : bounded s0) by (intros k; destruct (He k) as [->|[_ ->]]; [apply Hb|cbn; unfold max_int64; lia]).
  destruct Hcase as [[Hk Hr]|[Hk _]]; intros k; rewrite Hk; [|apply Hb0].
  destruct o; cbn [redis_effect]; try apply Hb0; unfold with_list; destruct (decide _); try apply Hb0.
  - rewrite length_app. cbn in Hr |- *. lia.
  - unfold redis_range. cbv zeta. destruct (_ <? _); [cbn; unfold max_int64; lia|]. unfold slice. specialize (Hb0 key).
    rewrite length_take, length_drop. lia.
  - cbn. unfold max_int64. lia.
Qed.

(** The [int]s of a call. *)
Definition go_op (o : conv_op) : Prop :=
  match o with CList _ opts => lo_Limit (options_of opts) <= max_int64 /\ lo_Offset (options_of opts) <= max_int64 | _ => True end.

Lemma view_with_list s s' id l : (forall k, s' k = with_list (getKey c id) l s k) -> becomes id (map unmarshal_message l) (view s) (view s').
Proof.
  intros Hs id'. unfold view. rewrite Hs. unfold with_list. destruct (decide (id = id')) as [<-|Hne]; [by rewrite decide_True|].
  rewrite decide_False; [done|]. by intros ?%getKey_inj.
Qed.

Abbreviation size := (Z.to_nat (rd_maxSize c)).

(** What a call may have been seen to do. *)
Definition call_kept (s : lists) (o : conv_op) (failed : bool) (out : conv_out) (lost : bool) (s' : lists) : Prop :=
  exists L1 L2, forgets lost (view s) L1 /\ kept_step size L1 o failed out L2 /\ forgets lost L2 (view s').

Lemma call_kept_at s o failed out lost s0 s1 s' a b :
  expires a s s0 -> kept_step size (view s0) o failed out (view s1) -> expires b s1 s' -> lost = a || b -> call_kept s o failed out lost s'.
Proof.
  intros H1 Hk H2 ->. exists (view s0), (view s1). split; [|split; [done|]]; eapply view_expires, expires_mono; try done.
  - by intros ->.
  - intros ->. apply orb_true_r.
Qed.

Lemma AddMessage_kept s id m tr r lost s' :
  0 < rd_maxSize c -> bounded s ->
  texec (redis_AddMessage c id m) tr r -> redis_serves s tr lost s' -> call_kept s (CAdd id m) (faults tr) (CErr r) lost s'.
Proof.
  intros Hm Hb. unfold redis_AddMessage. destruct (String.eqb_spec id "") as [->|Hid].
  { intros [-> ->]%texec_ret_inv [-> ->]%serves_none. eapply (call_kept_at _ _ _ _ _ s s s false false); try apply expires_refl; [|done].
    by apply (kept_no_id _ _ (CAdd "" m)). }
  cbn zeta. destruct (marshal_message m) as [e|d] eqn:Em.
  { intros [-> ->]%texec_ret_inv [-> ->]%serves_none. eapply (call_kept_at _ _ _ _ _ s s s false false); try apply expires_refl; [|done].
    by apply kept_unencodable. }
  set (key := getKey c id). intros (p & t1 & -> & Hx)%texec_do_inv (a1 & s1 & b1 & Hp & Hs & ->)%serves_one.
  apply texec_do_inv in Hx as (l & t2 & -> & Hx). apply serves_one in Hs as (a2 & s2 & b2 & Hl & Hs & ->).
  pose proof (bounded_answered _ _ _ _ _ Hm Hb Hp) as Hb1. pose proof (bounded_answered _ _ _ _ _ Hm Hb1 Hl) as Hb2.
  pose proof (answered_reading s1 (OLLen key) l a2 s2 I Hl) as He2.
  destruct (answered_cases _ _ _ _ _ Hp) as (s0 & He0 & Hcase).
  set (L1 := view s0) in *.
  assert (Hpushed : (exists l1, l1 ∈ [L1 id; L1 id ++ [unmarshal_message d]] /\ becomes id l1 L1 (view s1)) /\
    (p = None -> becomes id (L1 id ++ [unmarshal_message d]) L1 (view s1))).
  { assert (Hdone : (forall k, s1 k = redis_effect (ORPush key d) s0 k) -> becomes id (L1 id ++ [unmarshal_message d]) L1 (view s1)).
    { intros Hk. unfold L1 at 1, view at 1. change [unmarshal_message d] with (map unmarshal_message [d]). rewrite <- map_app. by apply view_with_list. }
    destruct Hcase as [[Hk _]|[Hk Href]].
    - split; [|intros _; by apply Hdone]. exists (L1 id ++ [unmarshal_message d]). split; [right; by left|by apply Hdone].
    - split; [|by intros ->]. exists (L1 id). split; [by left|]. intros id'. unfold L1, view. rewrite Hk. by destruct (decide (id = id')) as [<-|]. }
  destruct Hpushed as [(l1 & Hl1 & Hbec) Hok].
  destruct p as [e|].
  - apply texec_ret_inv in Hx as [-> ->]. apply serves_none in Hs as [-> ->]. rewrite orb_false_r. cbn [faults existsb refused ev_op ev_ans orb].
    eapply (call_kept_at _ _ _ _ _ s0 s1 s2 a1 a2); [done| |done|done]. eapply kept_add_failed; [done|done| |exact Hbec].
    set_solver.
  - destruct l as [e|n].
    + apply texec_ret_inv in Hx as [-> ->]. apply serves_none in Hs as [-> ->]. rewrite orb_false_r. cbn [faults existsb refused ev_op ev_ans orb].
      eapply (call_kept_at _ _ _ _ _ s0 s1 s2 a1 a2); [done| |done|done]. eapply kept_add_failed; [done|done| |exact Hbec].
      set_solver.
    + assert (Hn : n = Z.of_nat (length (s2 key))).
      { destruct (answered_ok _ _ _ _ _ Hl eq_refl) as (s2' & _ & _ & Hans & Hk). rewrite Hk. cbn in Hans |- *. congruence. }
      destruct (redis_tail_run key s2 n t2 r b2 s' Hm (Hb2 key) Hn Hx Hs) as [Hf Hend]. specialize (Hok eq_refl).
      change (faults (Ev (S := redis_sig) (ORPush key d) None :: Ev (S := redis_sig) (OLLen key) (inr n) :: t2)) with (faults t2). rewrite Hf.
      assert (Htrim : becomes id (last_n size (L1 id ++ [unmarshal_message d])) L1 (view (trimmed key s1))).
      { intros id'. pose proof (view_with_list s1 (trimmed key s1) id (last_n size (s1 key)) (fun _ => eq_refl) id') as Hv. rewrite Hv.
        specialize (Hok id) as Hid1. rewrite decide_True in Hid1 by done. destruct (decide (id = id')) as [<-|Hne].
        - rewrite <- Hid1. unfold view, last_n. by rewrite skipn_map, length_map.
        - rewrite (Hok id'). by rewrite decide_False. }
      destruct Hend as [Hend|[[e ->] Hend]].
      * assert (He : expires (a2 || b2) (trimmed key s1) s') by (eapply expires_trans; [apply trimmed_expires, He2|done]).
        eapply (call_kept_at _ _ _ _ _ s0 (trimmed key s1) s' a1 (a2 || b2)); [done| |done|done].
        destruct r as [e|]; [eapply kept_add_failed; [done|done| |exact Htrim]; set_solver|by eapply kept_added].
      * assert (He : expires (a2 || b2) s1 s') by (eapply expires_trans; done).
        eapply (call_kept_at _ _ _ _ _ s0 s1 s' a1 (a2 || b2)); [done| |done|done].
        eapply kept_add_failed; [done|done| |exact Hok]. set_solver.
Qed.

Lemma ListMessages_kept s id opts tr r lost s' :
  0 < rd_maxSize c -> bounded s -> lo_Limit (options_of opts) <= max_int64 -> lo_Offset (options_of opts) <= max_int64 ->
  texec (redis_ListMessages c id opts) tr r -> redis_serves s tr lost s' -> call_kept s (CList id opts) (faults tr) (CListed r) lost s'.
Proof.
  intros Hm Hb Hlim Hoff. unfold redis_ListMessages. destruct (String.eqb_spec id "") as [->|Hid].
  { intros [-> ->]%texec_ret_inv [-> ->]%serves_none. eapply (call_kept_at _ _ _ _ _ s s s false false); try apply expires_refl; [|done].
    by apply (kept_no_id _ _ (CList "" opts)). }
  cbn zeta. set (key := getKey c id). intros (l & t1 & -> & Hx)%texec_do_inv (a1 & s1 & b1 & Hl & Hs & ->)%serves_one.
  pose proof (answered_reading s (OLLen key) l a1 s1 I Hl) as He1. pose proof (bounded_answered _ _ _ _ _ Hm Hb Hl) as Hb1.
  assert (Hin : forall out b sf, expires b s1 sf -> kept_step size (view sf) (CList id opts) out.1 (CListed out.2) (view sf) ->
    call_kept s (CList id opts) out.1 (CListed out.2) (a1 || b) sf).
  { intros out b sf He Hk. eapply (call_kept_at _ _ _ _ _ sf sf sf (a1 || b) false); [by eapply expires_trans|done|apply expires_refl|by rewrite orb_false_r]. }
  destruct l as [e|n].
  { apply texec_ret_inv in Hx as [-> ->]. apply serves_none in Hs as [-> ->].
    apply (Hin (true, ListError (wrap_error "redis llen: " e))); [apply expires_refl|by apply kept_list_failed]. }
  assert (Hn : n = Z.of_nat (length (s1 key))).
  { destruct (answered_ok _ _ _ _ _ Hl eq_refl) as (s2' & _ & _ & Hans & Hk). rewrite Hk. cbn in Hans |- *. congruence. }
  pose proof (window_read (options_of opts) (s1 key) (Hb1 key) Hlim Hoff) as Hw. cbv zeta in Hw. rewrite <- Hn in Hw.
  assert (Hlisted : forall vals sf, vals = windowed (options_of opts) (sf key) ->
    kept_step size (view sf) (CList id opts) false
      (CListed (match decode_kept (lo_Roles (options_of opts)) vals with inl e => ListError e | inr ms => Listed ms end)) (view sf)).
  { intros vals sf ->. rewrite decode_all_read, <- windowed_map. pose proof (kept_listed size (view sf) id opts Hid) as Hk.
    unfold listing, view at 2 in Hk. by destruct (all_read _). }
  destruct (window n (options_of opts)) as [start stop]. cbn [fst snd] in Hw. destruct (stop <=? start) eqn:E.
  { apply texec_ret_inv in Hx as [-> ->]. apply serves_none in Hs as [-> ->].
    apply (Hin (false, Listed [])); [apply expires_refl|]. apply (Hlisted []). by rewrite Hw. }
  apply Z.leb_gt in E. destruct Hw as (Hw1 & Hw2 & Hw3).
  apply texec_do_inv in Hx as (v & t2 & -> & [-> ->]%texec_ret_inv). apply serves_single in Hs.
  pose proof (answered_reading s1 (OLRange key start (wrap64 (stop - 1))) v b1 s' I Hs) as He2.
  destruct v as [e|vals].
  { apply (Hin (true, ListError (wrap_error "redis lrange: " e))); [done|by apply kept_list_failed]. }
  destruct (answered_ok _ _ _ _ _ Hs eq_refl) as (s2 & He & _ & Hans & Hk). injection Hans as ->. cbn [redis_effect] in Hk.
  specialize (Hb1 key). rewrite wrap64_id by (unfold in64, min_int64, max_int64 in *; lia).
  eapply (Hin (false, _)); [done|]. cbn [fst snd]. apply Hlisted. rewrite Hk.
  destruct (He key) as [->|[_ ->]]; [by rewrite range_slice, Hw3 by lia|]. unfold redis_range, windowed, last_n. cbn [length].
  rewrite take_nil, drop_nil. by destruct (_ <? _); [|unfold slice; rewrite drop_nil, take_nil].
Qed.

Lemma Clear_kept s id tr r lost s' :
  texec (redis_Clear c id) tr r -> redis_serves s tr lost s' -> call_kept s (CClear id) (faults tr) (CErr r) lost s'.
Proof.
  unfold redis_Clear. destruct (String.eqb_spec id "") as [->|Hid].
  { intros [-> ->]%texec_ret_inv [-> ->]%serves_none. eapply (call_kept_at _ _ _ _ _ s s s false false); try apply expires_refl; [|done].
    by apply (kept_no_id _ _ (CClear "")). }
  set (key := getKey c id). intros (a & t & -> & [-> ->]%texec_ret_inv)%texec_do_inv Hs%serves_single.
  destruct (answered_cases _ _ _ _ _ Hs) as (s0 & He & Hcase).
  eapply (call_kept_at _ _ _ _ _ s0 s' s' lost false); [done| |apply expires_refl|by rewrite orb_false_r].
  assert (Hdone : (forall k, s' k = redis_effect (ODel key) s0 k) -> becomes id [] (view s0) (view s')) by (by apply (view_with_list s0 s' id [])).
  destruct a as [e|]; cbn [faults existsb refused ev_op ev_ans orb option_map].
  - destruct Hcase as [[Hk _]|[Hk _]]; [eapply (kept_clear_failed _ _ _ _ []); [done| |by apply Hdone]; set_solver|].
    eapply (kept_clear_failed _ _ _ _ (view s0 id)); [done|set_solver|]. intros id'. unfold view. rewrite Hk. by destruct (decide (id = id')) as [<-|].
  - destruct Hcase as [[Hk _]|[_ Hr]]; [|done]. apply kept_cleared; [done|by apply Hdone].
Qed.

(** ** Histories *)

Lemma bounded_serves s tr lost s' : 0 < rd_maxSize c -> redis_serves s tr lost s' -> bounded s -> bounded s'.
Proof. intros Hm. induction 1 as [|s o a lost s1 tr lost' s' Ha _ IH]; intros Hb; [done|]. by eapply IH, bounded_answered. Qed.

Lemma op_kept s o tr out lost s' :
  0 < rd_maxSize c -> bounded s -> go_op o -> texec (redis_op o) tr out -> redis_serves s tr lost s' ->
  call_kept s o (faults tr) out lost s'.
Proof.
  intros Hm Hb Ho Hx Hs. destruct o as [id m|id opts|id]; apply texec_fmap_inv in Hx as (r & -> & Hx).
  - by apply AddMessage_kept.
  - destruct Ho. by apply ListMessages_kept.
  - by apply Clear_kept.
Qed.

Lemma history_kept s h s' :
  0 < rd_maxSize c -> redis_history s h s' -> bounded s -> Forall (fun x => go_op (cl_op x)) h ->
  kept_history size (view s) h (view s').
Proof.
  intros Hm. induction 1 as [s|s o tr out lost s1 h s' Hx Hs _ IH]; intros Hb Hg; [constructor|].
  apply Forall_cons_1 in Hg as [Ho Hg]. destruct (op_kept s o tr out lost s1 Hm Hb Ho Hx Hs) as (L1 & L2 & H1 & Hk & H2).
  econstructor; [done..|]. apply IH; [by eapply bounded_serves|done].
Qed.

(** *** Without failures *)

Definition calm (x : call) : Prop := cl_failed x = false /\ cl_lost x = false.
Definition plain_call (x : call) : Prop :=
  op_id (cl_op x) <> "" /\ match cl_op x with CAdd _ m => storable m | _ => True end.

Lemma listing_read o (l : list Message) : listing o (map inr l) = Listed (selected o l).
Proof.
  unfold listing. rewrite windowed_map. assert (E : forall ms : list Message, all_read (map inr ms) = inr ms) by (induction ms as [|m ms IH]; cbn; [done|by rewrite IH]).
  by rewrite E.
Qed.

Lemma kept_calm n L o out L' lg :
  kept_step n L o false out L' -> op_id o <> "" -> match o with CAdd _ m => storable m | _ => True end ->
  (forall id, L id = map inr (last_n n (log_of lg id))) ->
  out = (spec_conv_op n lg o).1 /\ forall id, L' id = map inr (last_n n (log_of (spec_conv_op n lg o).2 id)).
Proof.
  intros Hk Hid Hp HL. inversion Hk as [o' Hno|id m e Hi He|id m d L1 Hi Hd Hb| |id opts Hi| |id L1 Hi Hb|]; subst; try done.
  - destruct (codec_roundtrip m Hp) as (d & Hd & _). congruence.
  - split; [done|]. intros id'. cbn [spec_conv_op snd]. rewrite Hb, log_of_insert. destruct (decide (id = id')) as [<-|]; [|apply HL].
    destruct (codec_roundtrip m Hp) as (d' & Hd' & Hu). assert (d' = d) as -> by congruence. rewrite HL, Hu, <- (last_n_app n (log_of lg id)).
    change [inr m] with (map (@inr error Message) [m]). rewrite <- map_app. unfold last_n at 1 3. by rewrite length_map, skipn_map.
  - split; [|done]. cbn [spec_conv_op fst]. by rewrite HL, listing_read.
  - split; [done|]. intros id'. cbn [spec_conv_op snd]. rewrite Hb, log_of_insert. destruct (decide (id = id')); [|apply HL].
    unfold last_n. by rewrite drop_nil.
Qed.

Lemma forgets_nothing L L' : forgets false L L' -> forall id, L' id = L id.
Proof. intros Hf id. by destruct (Hf id) as [?|[? _]]. Qed.

Lemma history_calm n L h L' lg :
  kept_history n L h L' -> Forall calm h -> Forall plain_call h -> (forall id, L id = map inr (last_n n (log_of lg id))) ->
  map cl_out h = (run_ops (spec_conv_op n) lg (map cl_op h)).1.
Proof.
  intros Hk. revert lg. induction Hk as [L|L L1 L2 L3 x h L' H1 Hs H2 _ IH]; intros lg Hc Hp HL; [done|].
  apply Forall_cons_1 in Hc as [[Hf Hl] Hc]. apply Forall_cons_1 in Hp as [[Hid Hst] Hp]. rewrite Hl in H1, H2. rewrite Hf in Hs.
  destruct (kept_calm n L1 (cl_op x) (cl_out x) L2 lg Hs Hid Hst) as [Ho HL2]; [intros id; by rewrite (forgets_nothing _ _ H1), HL|].
  cbn [map run_ops fst]. rewrite Ho. f_equal. apply IH; [done..|]. intros id. by rewrite (forgets_nothing _ _ H2).
Qed.

(** *** The contract *)

(** C34: Every history of a sequential client of the Redis store, in which any command may be refused, before or after it
    took effect, and any key may expire before any command, is one of logs that are cut to the last [maxSize] messages: a call that meets no
    refused command does exactly what it says, an addition appending its message and leaving the last [maxSize], a
    listing giving the window of limit and offset in what is kept, then the roles, a clearing leaving nothing; a call that
    meets one reports an error and is done, half done or not done; calls without an ID and messages that cannot be encoded are errors that
    change nothing; no call touches another conversation, and what expires is gone as a whole. When no command was refused and no key
    expired, the calls with an ID and with messages the codec carries answer as the complete logs cut to the last [maxSize] messages. *)
Theorem redis_refines_logs s h s' :
  0 < rd_maxSize c -> bounded s -> Forall (fun x => go_op (cl_op x)) h -> redis_history s h s' ->
  kept_history size (view s) h (view s') /\
  ((forall k, s k = []) -> Forall calm h -> Forall plain_call h ->
   map cl_out h = (run_ops (spec_conv_op size) ∅ (map cl_op h)).1).
Proof.
  intros Hm Hb Hg Hh. pose proof (history_kept s h s' Hm Hh Hb Hg) as Hk. split; [done|]. intros He Hc Hp.
  apply (history_calm size (view s) h (view s') ∅ Hk Hc Hp). intros id. unfold view, log_of. rewrite He, lookup_empty. cbn.
  unfold last_n. by rewrite drop_nil.
Qed.
End store.
