(* ===== verification/ConversationRun.v ===== *)
(** The agent loop and a conversation store together: what a finished run leaves in any store
    that keeps the contract of [Conversation.v], and what the next run loads of it. *)
From S2P Require Import Prelude GoLib Types Codec Prog Policies MemoryConfig Budget CircuitBreaker Telemetry Events Effects Hooks ErrorControl LLM Memory Tools Retry AgentLoop LoopFacts LoopBounds LoopMessages Conversation.

#[local] Open Scope string_scope.
#[local] Open Scope list_scope.
#[local] Open Scope Z_scope.

Lemma last_n_app_short {A} n (l k : list A) : (length k <= n)%nat -> last_n n (l ++ k) = last_n (n - length k) l ++ k.
Proof. intros Hk. unfold last_n. rewrite length_app, drop_app_le by lia. do 2 f_equal. lia. Qed.

(** The roles a listing keeps by default. *)
Definition default_kept (m : Message) : Prop := role_kept (lo_Roles default_options) m = true.

Lemma paired_kept ms : paired ms -> Forall default_kept ms.
Proof.
  induction 1 as [|ms a tools Hp IH Ha Hc Ht]; [constructor|]. apply Forall_app. split; [done|]. constructor.
  - unfold default_kept, role_kept, roleIn. cbn. by rewrite Ha.
  - clear Hc. induction Ht as [|c m cs ms' Hcm Ht IHt]; constructor; [|by apply IHt].
    destruct c as [c|]; [|done]. destruct Hcm as (Hr & _). unfold default_kept, role_kept, roleIn. cbn. by rewrite Hr.
Qed.

Lemma filter_kept ms : Forall default_kept ms -> List.filter (role_kept (lo_Roles default_options)) ms = ms.
Proof. induction 1 as [|m ms Hm H IH]; [done|]. cbn [List.filter]. by rewrite Hm, IH. Qed.

Section store.
Context {S : Type} (size : nat) (accepts : Message -> Prop) `{Hks : KeepsLast S size accepts}.

(** The store after the calls of [AddMessage] a trace makes. *)
Definition save (s : S) (p : string * Message) : S := (AddMessage s p.1 p.2).2.
Definition store_after (s : S) (tr : list Event) : S := fold_left save (appends tr) s.

Lemma saved_messages s id sent :
  wf s -> id <> "" -> Forall accepts sent ->
  let s' := fold_left save (map (pair id) sent) s in
  wf s' /\ stored s' id = last_n size (stored s id ++ sent) /\ forall k, k <> id -> stored s' k = stored s k.
Proof.
  intros Hwf Hid Ha. cbv zeta. revert s Hwf. induction Ha as [|m sent Hm Ha IH]; intros s Hwf; cbn [map fold_left].
  - rewrite app_nil_r, last_n_all by by apply stored_bound. done.
  - destruct (AddMessage_ok s id m Hwf Hid Hm) as (s1 & Hadd & Hwf1 & Hst & Hother).
    assert (Hs1 : save s (id, m) = s1) by (unfold save; cbn [fst snd]; by rewrite Hadd). rewrite Hs1.
    destruct (IH s1 Hwf1) as (Hw & Hs & Ho). split; [done|]. split.
    + rewrite Hs, Hst, last_n_app, <- app_assoc. done.
    + intros k Hk. by rewrite Ho, Hother.
Qed.

(** The window of a listing without offset: the end of the store's end. *)
Lemma limited_window s id n old sent :
  wf s -> id <> "" -> stored s id = last_n size (old ++ sent) ->
  Forall default_kept sent -> (length sent <= size)%nat -> Z.of_nat (length sent) <= n <= max_int64 ->
  exists before, (ListMessages s id [WithLimit n]).1 = Listed (before ++ sent).
Proof.
  intros Hwf Hid Hst Hk Hsize Hn. destruct (ListMessages_ok s id [WithLimit n] Hwf Hid) as (s' & -> & _ & _).
  { split; cbn; lia. }
  unfold selected. cbn [options_of fold_left apply_option lo_Limit lo_Offset lo_Roles fst].
  destruct (n <? 0) eqn:E; crush_bool; [lia|]. cbn [lo_Offset default_options Z.ltb Z.compare].
  rewrite Nat.sub_0_r, take_ge by done. rewrite Hst, (last_n_app_short size), (last_n_app_short (Z.to_nat n)) by lia.
  rewrite List.filter_app. eexists. f_equal. f_equal. by apply filter_kept.
Qed.

End store.
