(* ===== verification/EventBus.v ===== *)
(** The in-memory event bus ([internal/eventbus/inmem.go]) as a state machine.

    A channel of Go is an object of a heap: a buffer of 64 payloads and whether it is closed.
    [Publish] holds the read lock during all its sends, so its sends are steps of their own;
    [Subscribe], the unsubscribe function and [Close] hold the write lock and are one step,
    possible only while nobody publishes.  Receiving needs no lock.  Sending on a closed
    channel and closing a channel twice panic. *)
From S2P Require Import Prelude GoLib Types.

#[local] Open Scope string_scope.
#[local] Open Scope list_scope.

Definition chan_cap : nat := 64.

Record chan := { ch_buf : list string; ch_closed : bool }.

(** A call of [Publish] under way: its payload and the subscribers it has yet to send to. *)
Record publishing := { pb_payload : string; pb_todo : list nat }.

Record Inmem := {
  bus_subs : gmap string (list nat);
  bus_closed : bool;
  bus_chans : gmap nat chan;
  bus_readers : gmap nat publishing;  (* the calls that hold the read lock *)
  bus_panicked : bool }.

Definition NewInmem : Inmem :=
  {| bus_subs := ∅; bus_closed := false; bus_chans := ∅; bus_readers := ∅; bus_panicked := false |}.

Definition ErrClosed : error := sentinel_error ErrEventBusClosed.

Definition subs_of (b : Inmem) (channel : string) : list nat := default [] (bus_subs b !! channel).

Definition set_subs (b : Inmem) (m : gmap string (list nat)) : Inmem :=
  {| bus_subs := m; bus_closed := bus_closed b; bus_chans := bus_chans b; bus_readers := bus_readers b; bus_panicked := bus_panicked b |}.
Definition set_chan (b : Inmem) (c : nat) (x : chan) : Inmem :=
  {| bus_subs := bus_subs b; bus_closed := bus_closed b; bus_chans := <[c := x]> (bus_chans b); bus_readers := bus_readers b;
     bus_panicked := bus_panicked b |}.
Definition set_readers (b : Inmem) (r : gmap nat publishing) : Inmem :=
  {| bus_subs := bus_subs b; bus_closed := bus_closed b; bus_chans := bus_chans b; bus_readers := r; bus_panicked := bus_panicked b |}.
Definition panic (b : Inmem) : Inmem :=
  {| bus_subs := bus_subs b; bus_closed := bus_closed b; bus_chans := bus_chans b; bus_readers := bus_readers b; bus_panicked := true |}.

(** [close(ch)] *)
Definition close_chan (b : Inmem) (c : nat) : Inmem :=
  match bus_chans b !! c with
  | Some x => if ch_closed x then panic b else set_chan b c {| ch_buf := ch_buf x; ch_closed := true |}
  | None => panic b
  end.

(** *** [Publish] *)

(** It takes the read lock and the list of subscribers, or finds the bus closed. *)
Definition publish_begin (b : Inmem) (p : nat) (channel data : string) : option error * Inmem :=
  if bus_closed b then (Some ErrClosed, b)
  else (None, set_readers b (<[p := {| pb_payload := data; pb_todo := subs_of b channel |}]> (bus_readers b))).

(** The next send; [None] when it has to wait for room in the buffer. *)
Definition publish_send (b : Inmem) (p : nat) : option Inmem :=
  match bus_readers b !! p with
  | Some {| pb_payload := data; pb_todo := c :: todo |} =>
      match bus_chans b !! c with
      | None => Some (panic b)
      | Some x =>
          if ch_closed x then Some (panic b)
          else if Nat.ltb (length (ch_buf x)) chan_cap then
            Some (set_readers (set_chan b c {| ch_buf := ch_buf x ++ [data]; ch_closed := false |})
                    (<[p := {| pb_payload := data; pb_todo := todo |}]> (bus_readers b)))
          else None
      end
  | _ => None
  end.

(** It returns, having sent to all or because its context ended. *)
Definition publish_return (b : Inmem) (p : nat) : Inmem := set_readers b (delete p (bus_readers b)).

(** *** [Subscribe], unsubscribe, [Close] *)

Definition fresh_chan (b : Inmem) : nat := fresh (dom (bus_chans b) : gset nat).

Definition Subscribe (b : Inmem) (channel : string) : result nat * Inmem :=
  if bus_closed b then (inl ErrClosed, b)
  else
    let c := fresh_chan b in
    (inr c, set_chan (set_subs b (<[channel := subs_of b channel ++ [c]]> (bus_subs b))) c {| ch_buf := []; ch_closed := false |}).

(** The list without the first occurrence of [c]; [None] if there is none. *)
Fixpoint remove_first (c : nat) (l : list nat) : option (list nat) :=
  match l with
  | [] => None
  | x :: l => if Nat.eqb x c then Some l else cons x <$> remove_first c l
  end.

(** The function [Subscribe] returned for [c]. *)
Definition unsubscribe (b : Inmem) (channel : string) (c : nat) : Inmem :=
  if bus_closed b then b
  else match remove_first c (subs_of b channel) with
       | None => b
       | Some l => close_chan (set_subs b (<[channel := l]> (bus_subs b))) c
       end.

Definition all_subs (b : Inmem) : list nat := map_to_list (bus_subs b) ≫= snd.

Definition Close (b : Inmem) : Inmem :=
  if bus_closed b then b
  else
    let b' := fold_left close_chan (all_subs b) b in
    {| bus_subs := ∅; bus_closed := true; bus_chans := bus_chans b'; bus_readers := bus_readers b'; bus_panicked := bus_panicked b' |}.

(** *** A subscriber *)

Definition receive (b : Inmem) (c : nat) : option (string * Inmem) :=
  match bus_chans b !! c with
  | Some {| ch_buf := x :: buf; ch_closed := closed |} => Some (x, set_chan b c {| ch_buf := buf; ch_closed := closed |})
  | _ => None
  end.

(** ** The state machine *)

Inductive label :=
| LBegin (p : nat) (channel data : string)
| LSend (p c : nat) (data : string)
| LReturn (p : nat)
| LCancel (p : nat)
| LSubscribe (channel : string) (c : nat)
| LUnsubscribe (channel : string) (c : nat)
| LClose
| LReceive (c : nat) (data : string).

Inductive step : Inmem -> label -> Inmem -> Prop :=
| step_begin b p channel data b' :
    bus_readers b !! p = None -> publish_begin b p channel data = (None, b') -> step b (LBegin p channel data) b'
| step_send b p c data todo b' :
    bus_readers b !! p = Some {| pb_payload := data; pb_todo := c :: todo |} -> publish_send b p = Some b' ->
    step b (LSend p c data) b'
| step_return b p data :
    bus_readers b !! p = Some {| pb_payload := data; pb_todo := [] |} -> step b (LReturn p) (publish_return b p)
| step_cancel b p c data todo : (* the context ended while a send waited or was chosen *)
    bus_readers b !! p = Some {| pb_payload := data; pb_todo := c :: todo |} -> step b (LCancel p) (publish_return b p)
| step_subscribe b channel c b' :
    bus_readers b = ∅ -> Subscribe b channel = (inr c, b') -> step b (LSubscribe channel c) b'
| step_unsubscribe b channel c :
    bus_readers b = ∅ -> step b (LUnsubscribe channel c) (unsubscribe b channel c)
| step_close b : bus_readers b = ∅ -> step b LClose (Close b)
| step_receive b c data b' : receive b c = Some (data, b') -> step b (LReceive c data) b'.

Inductive steps : Inmem -> list label -> Inmem -> Prop :=
| steps_nil b : steps b [] b
| steps_cons b l b1 tr b2 : step b l b1 -> steps b1 tr b2 -> steps b (l :: tr) b2.

(** ** The invariant *)

Definition is_open (b : Inmem) (c : nat) : Prop := exists x, bus_chans b !! c = Some x /\ ch_closed x = false.

Record bus_inv (b : Inmem) : Prop := {
  bi_calm : bus_panicked b = false;
  bi_nodup channel : NoDup (subs_of b channel);
  bi_once ch1 ch2 c : c ∈ subs_of b ch1 -> c ∈ subs_of b ch2 -> ch1 = ch2;
  bi_open channel c : c ∈ subs_of b channel -> is_open b c;
  bi_todo p r c : bus_readers b !! p = Some r -> c ∈ pb_todo r -> is_open b c }.

Lemma bus_inv_new : bus_inv NewInmem.
Proof.
  constructor; try done; unfold subs_of; cbn; intros *; rewrite ?lookup_empty; cbn; try done.
  - constructor.
  - by intros ?%not_elem_of_nil.
  - by intros ?%not_elem_of_nil.
Qed.

Lemma is_open_set b c x c' : ch_closed x = false -> is_open b c' -> is_open (set_chan b c x) c'.
Proof.
  intros Hx (y & Hy & Hc). unfold is_open. cbn. destruct (decide (c = c')) as [->|].
  - exists x. by rewrite lookup_insert_eq.
  - exists y. by rewrite lookup_insert_ne.
Qed.

(** Changing the buffer of an open channel and the readers. *)
Lemma bus_inv_update b c x readers :
  bus_inv b -> ch_closed x = false ->
  (forall p r c', readers !! p = Some r -> c' ∈ pb_todo r -> is_open b c') ->
  bus_inv (set_readers (set_chan b c x) readers).
Proof.
  intros [H1 H2 H3 H4 H5] Hx Hr. constructor; try done.
  - intros channel c' Hc. by apply is_open_set, (H4 channel).
  - intros p r c' Hp Hc. by apply is_open_set, (Hr p r).
Qed.

Lemma subs_of_insert b channel l channel' :
  subs_of (set_subs b (<[channel := l]> (bus_subs b))) channel' = if decide (channel = channel') then l else subs_of b channel'.
Proof.
  unfold subs_of. cbn [bus_subs set_subs]. destruct (decide (channel = channel')) as [->|].
  - by rewrite lookup_insert_eq.
  - by rewrite lookup_insert_ne.
Qed.

Lemma remove_first_spec c l l' :
  remove_first c l = Some l' -> c ∈ l /\ (NoDup l -> NoDup l' /\ forall x, x ∈ l' <-> x ∈ l /\ x <> c).
Proof.
  revert l'. induction l as [|x l IH]; intros l'; cbn; [done|]. destruct (Nat.eqb_spec x c) as [->|Hx].
  - intros [= <-]. split; [by left|]. intros [Hn Hnd]%NoDup_cons. split; [done|]. intros y. rewrite elem_of_cons.
    split; [intros Hy; split; [by right|by intros ->]|naive_solver].
  - destruct (remove_first c l) as [k|] eqn:Hk; [|done]. intros [= <-]. destruct (IH k eq_refl) as [Hin Hnd].
    split; [by right|]. intros [Hn Hl]%NoDup_cons. destruct (Hnd Hl) as [Hk' Hiff]. split.
    + apply NoDup_cons. split; [|done]. rewrite Hiff. naive_solver.
    + intros y. rewrite !elem_of_cons, Hiff. naive_solver.
Qed.

(** Closing distinct open channels does not panic and closes nothing else. *)
Lemma close_all l b :
  NoDup l -> (forall c, c ∈ l -> is_open b c) ->
  let b' := fold_left close_chan l b in
  bus_panicked b' = bus_panicked b /\ bus_readers b' = bus_readers b /\
  (forall c, c ∉ l -> bus_chans b' !! c = bus_chans b !! c) /\
  (forall c, ch_buf <$> bus_chans b' !! c = ch_buf <$> bus_chans b !! c).
Proof.
  cbv zeta. revert b. induction l as [|c l IH]; intros b Hnd Ho; [done|]. cbn [fold_left].
  apply NoDup_cons in Hnd as [Hn Hnd]. destruct (Ho c) as (x & Hx & Hc); [by left|].
  assert (Hcl : close_chan b c = set_chan b c {| ch_buf := ch_buf x; ch_closed := true |}) by (unfold close_chan; by rewrite Hx, Hc).
  rewrite Hcl. destruct (IH (set_chan b c {| ch_buf := ch_buf x; ch_closed := true |})) as (H1 & H2 & H3 & H4); [done| |].
  - intros c' Hc'. destruct (Ho c') as (y & Hy & Hyc); [by right|]. exists y. cbn. rewrite lookup_insert_ne; [done|]. by intros ->.
  - split; [done|split; [done|split]].
    + intros c' [Hne Hc']%not_elem_of_cons. rewrite H3 by done. cbn. by rewrite lookup_insert_ne.
    + intros c'. rewrite H4. cbn. destruct (decide (c = c')) as [->|]; [by rewrite lookup_insert_eq, Hx|by rewrite lookup_insert_ne].
Qed.

Lemma all_subs_nodup b : bus_inv b -> NoDup (all_subs b) /\ forall c, c ∈ all_subs b -> is_open b c.
Proof.
  intros Hi. assert (Hs : forall channel l, (channel, l) ∈ map_to_list (bus_subs b) -> subs_of b channel = l).
  { intros channel l Hl%elem_of_map_to_list. unfold subs_of. by rewrite Hl. }
  split.
  - apply NoDup_bind.
    + intros [ch1 l1] [ch2 l2] c H1 H2 Hc1 Hc2. cbn in *. apply Hs in H1 as E1, H2 as E2. subst l1 l2.
      by rewrite (bi_once b Hi ch1 ch2 c).
    + intros [ch l] Hl. cbn. rewrite <- (Hs _ _ Hl). apply Hi.
    + apply NoDup_map_to_list.
  - intros c ([ch l] & Hc & Hl)%list_elem_of_bind. cbn in Hc. apply (bi_open b Hi ch). by rewrite (Hs _ _ Hl).
Qed.

Lemma close_all_bus b :
  bus_inv b -> bus_panicked (Close b) = false /\ bus_readers (Close b) = bus_readers b /\
  forall c, ch_buf <$> bus_chans (Close b) !! c = ch_buf <$> bus_chans b !! c.
Proof.
  intros Hi. unfold Close. destruct (bus_closed b); [split; [apply Hi|done]|].
  destruct (all_subs_nodup b Hi) as [Hnd Ho]. destruct (close_all (all_subs b) b Hnd Ho) as (H1 & H2 & _ & H4). cbn.
  split; [by rewrite H1, (bi_calm b Hi)|done].
Qed.

Lemma publish_begin_inv b p channel data b' :
  bus_inv b -> publish_begin b p channel data = (None, b') -> bus_inv b'.
Proof.
  unfold publish_begin. destruct (bus_closed b); [done|]. intros [H1 H2 H3 H4 H5] [= <-]. constructor; try done.
  intros q r c. cbn. destruct (decide (p = q)) as [->|].
  - rewrite lookup_insert_eq. intros [= <-]. cbn. apply H4.
  - rewrite lookup_insert_ne by done. apply H5.
Qed.

(** A send of an open subscriber is a plain append, or has to wait. *)
Lemma publish_send_open b p data c todo :
  bus_inv b -> bus_readers b !! p = Some {| pb_payload := data; pb_todo := c :: todo |} ->
  exists x, bus_chans b !! c = Some x /\ ch_closed x = false /\
    publish_send b p =
      if Nat.ltb (length (ch_buf x)) chan_cap then
        Some (set_readers (set_chan b c {| ch_buf := ch_buf x ++ [data]; ch_closed := false |})
                (<[p := {| pb_payload := data; pb_todo := todo |}]> (bus_readers b)))
      else None.
Proof.
  intros Hi Hp. destruct (bi_todo b Hi p _ c Hp) as (x & Hx & Hc); [by left|]. exists x. split; [done|split; [done|]].
  unfold publish_send. by rewrite Hp, Hx, Hc.
Qed.

Lemma publish_send_inv b p data c todo b' :
  bus_inv b -> bus_readers b !! p = Some {| pb_payload := data; pb_todo := c :: todo |} -> publish_send b p = Some b' -> bus_inv b'.
Proof.
  intros Hi Hp. destruct (publish_send_open _ _ _ _ _ Hi Hp) as (x & Hx & Hc & ->).
  destruct (Nat.ltb _ _); [|done]. intros [= <-]. apply bus_inv_update; [done|done|].
  intros q r c'. destruct (decide (p = q)) as [->|].
  - rewrite lookup_insert_eq. intros [= <-] Hin. apply (bi_todo b Hi q _ c' Hp). by right.
  - rewrite lookup_insert_ne by done. apply Hi.
Qed.

Lemma publish_return_inv b p : bus_inv b -> bus_inv (publish_return b p).
Proof.
  intros [H1 H2 H3 H4 H5]. constructor; try done. intros q r c. cbn. intros [_ Hq]%lookup_delete_Some. by apply (H5 q).
Qed.

Lemma fresh_chan_spec b : bus_chans b !! fresh_chan b = None.
Proof. apply not_elem_of_dom. unfold fresh_chan. apply (is_fresh (C := gset nat)). Qed.

Lemma subs_not_fresh b channel : bus_inv b -> fresh_chan b ∉ subs_of b channel.
Proof. intros Hi Hc. destruct (bi_open b Hi _ _ Hc) as (x & Hx & _). by rewrite fresh_chan_spec in Hx. Qed.

Lemma subscribe_inv b channel c b' : bus_inv b -> bus_readers b = ∅ -> Subscribe b channel = (inr c, b') -> bus_inv b'.
Proof.
  intros Hi Hr. unfold Subscribe. destruct (bus_closed b); [done|]. intros [= <- <-].
  set (c := fresh_chan b). set (l := subs_of b channel ++ [c]).
  assert (Hs : forall ch, subs_of (set_chan (set_subs b (<[channel := l]> (bus_subs b))) c {| ch_buf := []; ch_closed := false |}) ch
                          = if decide (channel = ch) then l else subs_of b ch) by (intros ch; apply (subs_of_insert b)).
  assert (Hf : forall ch, c ∉ subs_of b ch) by (intros ch; by apply subs_not_fresh).
  constructor; [apply Hi|..].
  - intros ch. rewrite Hs. destruct (decide (channel = ch)); [|apply Hi]. apply NoDup_app.
    split; [apply Hi|split; [|apply NoDup_singleton]]. intros x Hx ->%list_elem_of_singleton. by destruct (Hf channel).
  - intros ch1 ch2 x. rewrite !Hs. unfold l.
    destruct (decide (channel = ch1)) as [<-|], (decide (channel = ch2)) as [<-|]; rewrite ?elem_of_app, ?list_elem_of_singleton;
      try done; intros H1 H2.
    + destruct H1 as [H1| ->]; [by apply (bi_once b Hi _ _ x)|by destruct (Hf ch2)].
    + destruct H2 as [H2| ->]; [by apply (bi_once b Hi _ _ x)|by destruct (Hf ch1)].
    + by apply (bi_once b Hi _ _ x).
  - intros ch x. rewrite Hs. intros Hx. destruct (decide (x = c)) as [->|Hne].
    + eexists. cbn. by rewrite lookup_insert_eq.
    + apply is_open_set; [done|]. apply (bi_open b Hi ch).
      destruct (decide (channel = ch)) as [<-|]; [|done]. apply elem_of_app in Hx as [Hx| ->%list_elem_of_singleton]; done.
  - intros p r x. cbn. by rewrite Hr, lookup_empty.
Qed.

(** The unsubscribe function of an open subscriber is a removal and a close that does not panic. *)
Lemma unsubscribe_open b channel c l :
  bus_inv b -> bus_closed b = false -> remove_first c (subs_of b channel) = Some l ->
  exists x, bus_chans b !! c = Some x /\
    unsubscribe b channel c
    = set_chan (set_subs b (<[channel := l]> (bus_subs b))) c {| ch_buf := ch_buf x; ch_closed := true |}.
Proof.
  intros Hi Hc Hl. destruct (remove_first_spec _ _ _ Hl) as [Hin _]. destruct (bi_open b Hi _ _ Hin) as (x & Hx & Ho).
  exists x. split; [done|]. unfold unsubscribe, close_chan. rewrite Hc, Hl. cbn. by rewrite Hx, Ho.
Qed.

Lemma unsubscribe_inv b channel c : bus_inv b -> bus_readers b = ∅ -> bus_inv (unsubscribe b channel c).
Proof.
  intros Hi Hr. destruct (bus_closed b) eqn:Hc; [unfold unsubscribe; by rewrite Hc|].
  destruct (remove_first c (subs_of b channel)) as [l|] eqn:Hl; [|unfold unsubscribe; by rewrite Hc, Hl].
  destruct (unsubscribe_open _ _ _ _ Hi Hc Hl) as (x & Hx & ->). destruct (remove_first_spec _ _ _ Hl) as [Hin Hnd].
  destruct (Hnd (bi_nodup b Hi channel)) as [Hnl Hiff].
  set (b' := set_chan _ _ _).
  assert (Hs : forall ch, subs_of b' ch = if decide (channel = ch) then l else subs_of b ch) by (intros ch; apply (subs_of_insert b)).
  assert (Hsub : forall ch y, y ∈ subs_of b' ch -> y ∈ subs_of b ch /\ y <> c).
  { intros ch y. rewrite Hs. destruct (decide (channel = ch)) as [<-|Hne]; [by rewrite Hiff|].
    intros Hy. split; [done|]. intros ->. by apply Hne, (bi_once b Hi _ _ c). }
  constructor; [apply Hi|..].
  - intros ch. rewrite Hs. destruct (decide _); [done|apply Hi].
  - intros ch1 ch2 y [H1 _]%Hsub [H2 _]%Hsub. by apply (bi_once b Hi _ _ y).
  - intros ch y [Hy Hne]%Hsub. destruct (bi_open b Hi ch y Hy) as (z & Hz & Hzc). exists z. cbn. by rewrite lookup_insert_ne.
  - intros p r y. cbn. by rewrite Hr, lookup_empty.
Qed.

Lemma close_inv b : bus_inv b -> bus_readers b = ∅ -> bus_inv (Close b).
Proof.
  intros Hi Hr. destruct (bus_closed b) eqn:Hc; [unfold Close; by rewrite Hc|].
  destruct (close_all_bus b Hi) as (H1 & H2 & _).
  assert (Hs : forall ch, subs_of (Close b) ch = []).
  { intros ch. unfold subs_of, Close. rewrite Hc. cbn. by rewrite lookup_empty. }
  constructor; [done|..].
  - intros ch. rewrite Hs. constructor.
  - intros ch1 ch2 c. rewrite Hs. by intros ?%not_elem_of_nil.
  - intros ch c. rewrite Hs. by intros ?%not_elem_of_nil.
  - intros p r c. by rewrite H2, Hr, lookup_empty.
Qed.

Lemma receive_spec b c data b' :
  receive b c = Some (data, b') ->
  exists x, bus_chans b !! c = Some x /\ ch_buf x = data :: tail (ch_buf x) /\
    b' = set_chan b c {| ch_buf := tail (ch_buf x); ch_closed := ch_closed x |}.
Proof.
  unfold receive. destruct (bus_chans b !! c) as [[[|y buf] cl]|]; [done| |done]. intros [= -> <-]. by eexists.
Qed.

Lemma receive_inv b c data b' : bus_inv b -> receive b c = Some (data, b') -> bus_inv b'.
Proof.
  intros Hi (x & Hx & _ & ->)%receive_spec.
  assert (Hk : forall c', is_open b c' -> is_open (set_chan b c {| ch_buf := tail (ch_buf x); ch_closed := ch_closed x |}) c').
  { intros c' (y & Hy & Hyc). destruct (decide (c = c')) as [->|].
    - assert (y = x) as -> by congruence. eexists. cbn. by rewrite lookup_insert_eq.
    - exists y. cbn. by rewrite lookup_insert_ne. }
  destruct Hi as [H1 H2 H3 H4 H5]. constructor; try done.
  - intros ch c' Hc'. by apply Hk, (H4 ch).
  - intros p r c' Hp Hc'. by apply Hk, (H5 p r).
Qed.

Lemma step_inv b l b' : step b l b' -> bus_inv b -> bus_inv b'.
Proof.
  destruct 1; intros Hi;
    eauto using publish_begin_inv, publish_send_inv, publish_return_inv, subscribe_inv, unsubscribe_inv, close_inv, receive_inv.
Qed.

Lemma steps_inv b tr b' : steps b tr b' -> bus_inv b -> bus_inv b'.
Proof. induction 1; eauto using step_inv. Qed.

(** ** What reaches a subscriber *)

Definition buffered (b : Inmem) (c : nat) : list string := default [] (ch_buf <$> bus_chans b !! c).

(** What the steps sent to [c], and what they received from it, in order. *)
Definition sent (tr : list label) (c : nat) : list string :=
  tr ≫= fun l => match l with LSend _ c' data => if Nat.eqb c' c then [data] else [] | _ => [] end.
Definition received (tr : list label) (c : nat) : list string :=
  tr ≫= fun l => match l with LReceive c' data => if Nat.eqb c' c then [data] else [] | _ => [] end.

Lemma buffered_set_chan b c x c' : buffered (set_chan b c x) c' = if Nat.eqb c c' then ch_buf x else buffered b c'.
Proof.
  unfold buffered. cbn. destruct (Nat.eqb_spec c c') as [->|]; [by rewrite lookup_insert_eq|by rewrite lookup_insert_ne].
Qed.

Lemma buffered_lookup b c x : bus_chans b !! c = Some x -> buffered b c = ch_buf x.
Proof. unfold buffered. by intros ->. Qed.

(** [Subscribe], unsubscribe and [Close] move no payload. *)
Lemma subscribe_buffered b channel c b' c' : Subscribe b channel = (inr c, b') -> buffered b' c' = buffered b c'.
Proof.
  unfold Subscribe. destruct (bus_closed b); [done|]. intros [= <- <-]. rewrite buffered_set_chan. cbn.
  destruct (Nat.eqb_spec (fresh_chan b) c') as [<-|]; [|done]. unfold buffered. by rewrite fresh_chan_spec.
Qed.

Lemma unsubscribe_buffered b channel c c' : bus_inv b -> buffered (unsubscribe b channel c) c' = buffered b c'.
Proof.
  intros Hi. destruct (bus_closed b) eqn:Hc; [unfold unsubscribe; by rewrite Hc|].
  destruct (remove_first c (subs_of b channel)) as [l|] eqn:Hl; [|unfold unsubscribe; by rewrite Hc, Hl].
  destruct (unsubscribe_open _ _ _ _ Hi Hc Hl) as (x & Hx & ->). rewrite buffered_set_chan. cbn.
  destruct (Nat.eqb_spec c c') as [<-|]; [by rewrite (buffered_lookup _ _ _ Hx)|done].
Qed.

Lemma step_fifo b l b' c : step b l b' -> bus_inv b -> buffered b c ++ sent [l] c = received [l] c ++ buffered b' c.
Proof.
  intros Hstep Hi. destruct Hstep as [b p channel data b' _ Hb|b p c' data todo b' Hp Hs| | |b channel c' b' _ Hs| |b _|b c' data b' Hr];
    cbn [sent received mbind list_bind]; rewrite ?app_nil_r; cbn [app].
  - unfold publish_begin in Hb. destruct (bus_closed b); [done|]. by injection Hb as <-.
  - destruct (publish_send_open _ _ _ _ _ Hi Hp) as (x & Hx & _ & E). rewrite E in Hs.
    destruct (Nat.ltb _ _); [|done]. injection Hs as <-.
    change (buffered (set_readers ?d _) c) with (buffered d c). rewrite buffered_set_chan. cbn.
    destruct (Nat.eqb_spec c' c) as [<-|]; [by rewrite (buffered_lookup _ _ _ Hx)|by rewrite app_nil_r].
  - done.
  - done.
  - symmetry. by apply (subscribe_buffered b channel c').
  - symmetry. by apply unsubscribe_buffered.
  - unfold buffered. by rewrite (proj2 (proj2 (close_all_bus b Hi)) c).
  - apply receive_spec in Hr as (x & Hx & Hd & ->). rewrite buffered_set_chan. cbn.
    destruct (Nat.eqb_spec c' c) as [<-|]; [|done]. by rewrite (buffered_lookup _ _ _ Hx), Hd.
Qed.

Lemma steps_fifo b tr b' c : steps b tr b' -> bus_inv b -> buffered b c ++ sent tr c = received tr c ++ buffered b' c.
Proof.
  induction 1 as [b|b l b1 tr b2 Hs _ IH]; intros Hi; [by rewrite app_nil_r|].
  change (l :: tr) with ([l] ++ tr). unfold sent, received. rewrite !bind_app. fold (sent [l] c) (sent tr c) (received [l] c) (received tr c).
  rewrite app_assoc, (step_fifo _ _ _ _ Hs Hi), <- !app_assoc. f_equal. by apply IH, (step_inv _ _ _ Hs).
Qed.

(** ** What a [Publish] does *)

(** The sends of the call [p], in order. *)
Definition sends (tr : list label) (p : nat) : list nat :=
  tr ≫= fun l => match l with LSend p' c _ => if Nat.eqb p' p then [c] else [] | _ => [] end.
Definition ends (l : label) (p : nat) : Prop := l = LReturn p \/ l = LCancel p.

(** A call that has not ended keeps its payload; what it sent and what is left is what it had to send. *)
Lemma step_reader b l b' p data todo :
  step b l b' -> bus_inv b -> bus_readers b !! p = Some {| pb_payload := data; pb_todo := todo |} -> ~ ends l p ->
  exists todo', bus_readers b' !! p = Some {| pb_payload := data; pb_todo := todo' |} /\ todo = sends [l] p ++ todo'.
Proof.
  intros Hstep Hi Hp He.
  assert (Hwriter : bus_readers b = ∅ -> False) by (intros Hr; by rewrite Hr, lookup_empty in Hp).
  destruct Hstep as [b q channel d b' Hq Hb|b q c d td b' Hq Hs|b q d _|b q c d td _|b ch c b' Hr _|b ch c Hr|b Hr|b c d b' Hr];
    cbn [sends mbind list_bind]; rewrite ?app_nil_r; cbn [app].
  - exists todo. unfold publish_begin in Hb. destruct (bus_closed b); [done|]. injection Hb as <-. cbn.
    rewrite lookup_insert_ne; [done|congruence].
  - destruct (publish_send_open _ _ _ _ _ Hi Hq) as (x & _ & _ & E). rewrite E in Hs.
    destruct (Nat.ltb _ _); [|done]. injection Hs as <-. cbn. destruct (Nat.eqb_spec q p) as [->|].
    + rewrite lookup_insert_eq. rewrite Hq in Hp. injection Hp as -> <-. by exists td.
    + rewrite lookup_insert_ne by done. by exists todo.
  - exists todo. cbn. rewrite lookup_delete_ne; [done|]. intros ->. apply He. by left.
  - exists todo. cbn. rewrite lookup_delete_ne; [done|]. intros ->. apply He. by right.
  - done.
  - done.
  - done.
  - apply receive_spec in Hr as (x & _ & _ & ->). by exists todo.
Qed.

Lemma steps_reader b tr b' p data todo :
  steps b tr b' -> bus_inv b -> bus_readers b !! p = Some {| pb_payload := data; pb_todo := todo |} ->
  Forall (fun l => ~ ends l p) tr ->
  exists todo', bus_readers b' !! p = Some {| pb_payload := data; pb_todo := todo' |} /\ todo = sends tr p ++ todo'.
Proof.
  intros Hs. revert todo. induction Hs as [b|b l b1 tr b2 Hs _ IH]; intros todo Hi Hp He; [by exists todo|].
  apply Forall_cons in He as [Hl He]. destruct (step_reader _ _ _ _ _ _ Hs Hi Hp Hl) as (t1 & H1 & ->).
  destruct (IH t1 (step_inv _ _ _ Hs Hi) H1 He) as (t2 & H2 & ->). exists t2. split; [done|].
  change (l :: tr) with ([l] ++ tr). unfold sends. by rewrite bind_app, app_assoc.
Qed.

Lemma steps_trans b tr1 b1 tr2 b2 : steps b tr1 b1 -> steps b1 tr2 b2 -> steps b (tr1 ++ tr2) b2.
Proof. induction 1; cbn; eauto using steps. Qed.

(** A step of the call [p], or of a subscriber it waits for. *)
Definition helps (p : nat) (todo : list nat) (l : label) : Prop :=
  match l with LSend p' _ _ => p' = p | LReceive c _ => c ∈ todo | _ => False end.

Lemma helps_mono p todo todo' l : (forall c, c ∈ todo -> c ∈ todo') -> helps p todo l -> helps p todo' l.
Proof. destruct l; cbn; auto. Qed.

(** No buffer exceeds its capacity. *)
Definition bus_bounded (b : Inmem) : Prop := forall c, length (buffered b c) <= chan_cap.

Lemma bus_bounded_new : bus_bounded NewInmem.
Proof. intros c. unfold buffered. cbn. rewrite lookup_empty. cbn. lia. Qed.

Lemma step_bounded b l b' : step b l b' -> bus_inv b -> bus_bounded b -> bus_bounded b'.
Proof.
  intros Hs Hi Hb c. pose proof (f_equal length (step_fifo _ _ _ c Hs Hi)) as Hf. rewrite !length_app in Hf.
  specialize (Hb c). destruct l as [|p c' data| | | | | |]; try (cbn in Hf; lia).
  destruct (Nat.eqb_spec c' c) as [->|Hne]; [|cbn in Hf; rewrite (proj2 (Nat.eqb_neq _ _) Hne) in Hf; cbn in Hf; lia].
  inversion Hs as [|? ? ? ? todo ? Hp Hsend| | | | | |]; subst.
  destruct (publish_send_open _ _ _ _ _ Hi Hp) as (x & Hx & _ & E). rewrite E in Hsend.
  destruct (Nat.ltb_spec (length (ch_buf x)) chan_cap); [|done]. rewrite (buffered_lookup _ _ _ Hx) in Hf.
  cbn in Hf. rewrite Nat.eqb_refl in Hf. cbn in Hf. lia.
Qed.

Lemma steps_bounded b tr b' : steps b tr b' -> bus_inv b -> bus_bounded b -> bus_bounded b'.
Proof. induction 1; eauto using step_bounded, step_inv. Qed.

(** A send goes through when its subscriber has room. *)
Lemma publish_send_room b p data c todo :
  bus_inv b -> bus_readers b !! p = Some {| pb_payload := data; pb_todo := c :: todo |} -> length (buffered b c) < chan_cap ->
  exists b', step b (LSend p c data) b' /\ bus_readers b' !! p = Some {| pb_payload := data; pb_todo := todo |}.
Proof.
  intros Hi Hp Hlt. destruct (publish_send_open _ _ _ _ _ Hi Hp) as (x & Hx & _ & E).
  rewrite (buffered_lookup _ _ _ Hx) in Hlt. apply Nat.ltb_lt in Hlt. rewrite Hlt in E.
  eexists. split; [by eapply step_send|]. cbn. by rewrite lookup_insert_eq.
Qed.

(** The next send goes through, after at most one receive of the subscriber it waits for. *)
Lemma publish_send_progress b p data c todo :
  bus_inv b -> bus_bounded b -> bus_readers b !! p = Some {| pb_payload := data; pb_todo := c :: todo |} ->
  exists tr b', steps b tr b' /\ Forall (helps p [c]) tr /\ sends tr p = [c] /\ length tr <= 2 /\
    bus_readers b' !! p = Some {| pb_payload := data; pb_todo := todo |}.
Proof.
  intros Hi Hb Hp. assert (Hself : sends [LSend p c data] p = [c]) by (cbn; by rewrite Nat.eqb_refl).
  destruct (Nat.ltb_spec (length (buffered b c)) chan_cap) as [Hlt|Hge].
  - destruct (publish_send_room _ _ _ _ _ Hi Hp Hlt) as (b' & Hs & Hr). exists [LSend p c data], b'.
    split; [eauto using steps|]. split; [by repeat constructor|]. split; [done|]. split; [cbn; lia|done].
  - assert (exists d b1, step b (LReceive c d) b1) as (d & b1 & Hs1).
    { destruct (publish_send_open _ _ _ _ _ Hi Hp) as ([[|d buf] cl] & Hx & _); rewrite (buffered_lookup _ _ _ Hx) in Hge;
        cbn in Hge; [unfold chan_cap in Hge; lia|]. eexists d, _. constructor. unfold receive. by rewrite Hx. }
    destruct (step_reader _ _ _ p _ _ Hs1 Hi Hp) as (t & Hp1 & Ht); [by intros [?|?]|]. cbn in Ht. subst t.
    pose proof (f_equal length (step_fifo _ _ _ c Hs1 Hi)) as Hf. rewrite !length_app in Hf. cbn in Hf.
    rewrite Nat.eqb_refl in Hf. cbn in Hf. specialize (Hb c).
    destruct (publish_send_room b1 p data c todo) as (b2 & Hs2 & Hr); [eauto using step_inv|done|lia|].
    exists [LReceive c d; LSend p c data], b2. split; [eauto using steps|].
    split; [repeat constructor; by left|]. split; [done|]. split; [cbn; lia|done].
Qed.

Lemma publish_can_finish b p data todo :
  bus_inv b -> bus_bounded b -> bus_readers b !! p = Some {| pb_payload := data; pb_todo := todo |} ->
  exists tr b', steps b (tr ++ [LReturn p]) b' /\ Forall (helps p todo) tr /\ sends tr p = todo /\ length tr <= 2 * length todo.
Proof.
  revert b. induction todo as [|c todo IH]; intros b Hi Hb Hp.
  - exists [], (publish_return b p). split; [|by repeat constructor]. eapply steps_cons, steps_nil. by eapply step_return.
  - destruct (publish_send_progress _ _ _ _ _ Hi Hb Hp) as (tr1 & b1 & Hs1 & Hh1 & Hd1 & Hl1 & Hp1).
    destruct (IH b1) as (tr2 & b2 & Hs2 & Hh2 & Hd2 & Hl2); [eauto using steps_inv|eauto using steps_bounded|done|].
    exists (tr1 ++ tr2), b2. split; [rewrite <- app_assoc; by eapply steps_trans|].
    split; [apply Forall_app; split; eapply Forall_impl; eauto; intros l; apply helps_mono; set_solver|].
    split; [|rewrite length_app; cbn; lia]. unfold sends in *. by rewrite bind_app, Hd1, Hd2.
Qed.

(** While the buffer of a subscriber is full, nobody receives from it and the call that waits to send to it is not
    cancelled, the call stays where it is: no other call can take the write lock. *)
Definition stalled (b : Inmem) (p c : nat) : Prop :=
  length (buffered b c) = chan_cap /\ exists data todo, bus_readers b !! p = Some {| pb_payload := data; pb_todo := c :: todo |}.

Definition writes (l : label) : Prop :=
  match l with LSubscribe _ _ | LUnsubscribe _ _ | LClose => True | _ => False end.

Lemma step_stalled b l b' p c :
  step b l b' -> bus_inv b -> bus_bounded b -> stalled b p c -> received [l] c = [] -> l <> LCancel p ->
  stalled b' p c /\ ~ writes l.
Proof.
  intros Hs Hi Hb (Hfull & data & todo & Hp) Hr Hl.
  assert (Hw : ~ writes l).
  { intros Hw. assert (bus_readers b = ∅) as He by (destruct Hs; done). by rewrite He, lookup_empty in Hp. }
  split; [|done].
  pose proof (f_equal length (step_fifo _ _ _ c Hs Hi)) as Hf. rewrite Hr, !length_app in Hf. cbn [length] in Hf.
  pose proof (step_bounded _ _ _ Hs Hi Hb c) as Hb'.
  assert (~ ends l p) as He.
  { intros [-> | ->]; [|done]. inversion Hs; subst. congruence. }
  destruct (step_reader _ _ _ _ _ _ Hs Hi Hp He) as (t & Hp' & Ht). split; [lia|]. exists data.
  destruct (sends [l] p) as [|c1 cs] eqn:Hsend; [exists todo; cbn in Ht; by subst t|]. exfalso. cbn in Ht. injection Ht as <- _.
  destruct l as [|q c' d| | | | | |]; try done. cbn in Hsend. destruct (Nat.eqb_spec q p); [|done]. injection Hsend as -> _.
  cbn in Hf. rewrite Nat.eqb_refl in Hf. cbn in Hf. lia.
Qed.

(** ** Executable runs *)

Definition no_readers (b : Inmem) : bool := match map_to_list (bus_readers b) with [] => true | _ => false end.

(** One step with a label, when the state allows it. *)
Definition exec_label (b : Inmem) (l : label) : option Inmem :=
  match l with
  | LBegin p channel data =>
      match bus_readers b !! p, publish_begin b p channel data with None, (None, b') => Some b' | _, _ => None end
  | LSend p c data =>
      match bus_readers b !! p with
      | Some {| pb_payload := data'; pb_todo := c' :: _ |} =>
          if bool_decide (data' = data) && Nat.eqb c' c then publish_send b p else None
      | _ => None
      end
  | LReturn p => match bus_readers b !! p with Some {| pb_todo := [] |} => Some (publish_return b p) | _ => None end
  | LCancel p => match bus_readers b !! p with Some {| pb_todo := _ :: _ |} => Some (publish_return b p) | _ => None end
  | LSubscribe channel c =>
      if no_readers b then
        match Subscribe b channel with (inr c', b') => if Nat.eqb c' c then Some b' else None | _ => None end
      else None
  | LUnsubscribe channel c => if no_readers b then Some (unsubscribe b channel c) else None
  | LClose => if no_readers b then Some (Close b) else None
  | LReceive c data =>
      match receive b c with Some (data', b') => if bool_decide (data' = data) then Some b' else None | None => None end
  end.

Fixpoint exec (b : Inmem) (tr : list label) : option Inmem :=
  match tr with [] => Some b | l :: tr => match exec_label b l with Some b1 => exec b1 tr | None => None end end.

Lemma no_readers_spec b : no_readers b = true -> bus_readers b = ∅.
Proof. unfold no_readers. destruct (map_to_list _) eqn:E; [|done]. intros _. by apply map_to_list_empty_iff. Qed.

Lemma exec_label_sound b l b' : exec_label b l = Some b' -> step b l b'.
Proof.
  destruct l as [p channel data|p c data|p|p|channel c|channel c| |c data]; cbn [exec_label].
  - destruct (bus_readers b !! p) eqn:Hp; [done|]. destruct (publish_begin _ _ _ _) as [[e|] b1] eqn:E; [done|].
    intros [= <-]. by apply step_begin.
  - destruct (bus_readers b !! p) as [[d [|c' todo]]|] eqn:Hp; try done.
    destruct (bool_decide_reflect (d = data)) as [->|]; [|done]. destruct (Nat.eqb_spec c' c) as [->|]; [|done].
    cbn. intros E. by eapply step_send.
  - destruct (bus_readers b !! p) as [[d [|c' todo]]|] eqn:Hp; try done. intros [= <-]. by eapply step_return.
  - destruct (bus_readers b !! p) as [[d [|c' todo]]|] eqn:Hp; try done. intros [= <-]. by eapply step_cancel.
  - destruct (no_readers b) eqn:Hr; [|done]. destruct (Subscribe b channel) as [[e|c'] b1] eqn:E; [done|].
    destruct (Nat.eqb_spec c' c) as [->|]; [|done]. intros [= <-]. apply step_subscribe; [by apply no_readers_spec|done].
  - destruct (no_readers b) eqn:Hr; [|done]. intros [= <-]. by apply step_unsubscribe, no_readers_spec.
  - destruct (no_readers b) eqn:Hr; [|done]. intros [= <-]. by apply step_close, no_readers_spec.
  - destruct (receive b c) as [[d b1]|] eqn:E; [|done]. destruct (bool_decide_reflect (d = data)) as [->|]; [|done].
    intros [= <-]. by apply step_receive.
Qed.

Lemma exec_sound b tr b' : exec b tr = Some b' -> steps b tr b'.
Proof.
  revert b. induction tr as [|l tr IH]; intros b; cbn [exec]; [intros [= <-]; constructor|].
  destruct (exec_label b l) as [b1|] eqn:E; [|done]. intros H. eapply steps_cons; [by apply exec_label_sound|by apply IH].
Qed.

(** ** The properties *)

(** C35: whatever the order in which publishers, subscribers, unsubscribe functions and [Close] take the lock, nobody
    sends on or closes a closed channel, every subscriber receives exactly what was sent to it, in order and with
    nothing lost (what it has not received yet is in its buffer, also after the channel was closed), and no buffer
    exceeds its capacity. *)
Theorem bus_safe tr b :
  steps NewInmem tr b ->
  bus_panicked b = false /\
  forall c, sent tr c = received tr c ++ buffered b c /\ length (buffered b c) <= chan_cap.
Proof.
  intros Hs. split; [by apply (steps_inv _ _ _ Hs bus_inv_new)|]. intros c.
  split; [|by apply (steps_bounded _ _ _ Hs bus_inv_new bus_bounded_new)].
  rewrite <- (steps_fifo _ _ _ c Hs bus_inv_new). unfold buffered. cbn. by rewrite lookup_empty.
Qed.

(** a [Publish] that has begun and has not ended can always finish, with its own sends and receives of its
    subscribers only, at most one of each per subscriber; it has then sent to exactly the subscribers the channel had
    when it began, in the order in which they subscribed. *)
Theorem publish_completes b0 tr0 p channel data b1 tr b2 :
  steps NewInmem tr0 b0 -> step b0 (LBegin p channel data) b1 -> steps b1 tr b2 -> Forall (fun l => ~ ends l p) tr ->
  exists tr' b3, steps b2 (tr' ++ [LReturn p]) b3 /\ Forall (helps p (subs_of b0 channel)) tr' /\
    sends (tr ++ tr') p = subs_of b0 channel /\ length tr' <= 2 * length (subs_of b0 channel).
Proof.
  intros Hs0 Hb Hs He.
  pose proof (steps_inv _ _ _ Hs0 bus_inv_new) as Hi0. pose proof (steps_bounded _ _ _ Hs0 bus_inv_new bus_bounded_new) as Hb0.
  pose proof (step_inv _ _ _ Hb Hi0) as Hi1. pose proof (step_bounded _ _ _ Hb Hi0 Hb0) as Hb1.
  assert (Hp : bus_readers b1 !! p = Some {| pb_payload := data; pb_todo := subs_of b0 channel |}).
  { inversion Hb as [? ? ? ? ? _ E| | | | | | |]; subst. unfold publish_begin in E. destruct (bus_closed b0); [done|].
    injection E as <-. cbn. by rewrite lookup_insert_eq. }
  destruct (steps_reader _ _ _ _ _ _ Hs Hi1 Hp He) as (todo & Hp2 & Heq).
  destruct (publish_can_finish b2 p data todo) as (tr' & b3 & H1 & H2 & H3 & H4);
    [eauto using steps_inv|eauto using steps_bounded|done|]. exists tr', b3. split; [done|].
  split; [|split; [unfold sends in *; by rewrite bind_app, H3|rewrite Heq, length_app; lia]].
  eapply Forall_impl; [exact H2|]. intros l. apply helps_mono. intros c. rewrite Heq, elem_of_app. by right.
Qed.

(** a [Publish] that waits for a subscriber with a full buffer keeps everybody out: until that subscriber receives
    or the context of the call ends, no [Subscribe], no unsubscribe function and no [Close] of the bus gets through,
    for no channel. *)
Theorem stalled_subscriber_blocks tr0 b p c tr b' :
  steps NewInmem tr0 b -> stalled b p c -> steps b tr b' -> received tr c = [] -> Forall (fun l => l <> LCancel p) tr ->
  stalled b' p c /\ Forall (fun l => ~ writes l) tr.
Proof.
  intros Hs0 Hst Hs. pose proof (steps_inv _ _ _ Hs0 bus_inv_new) as Hi.
  pose proof (steps_bounded _ _ _ Hs0 bus_inv_new bus_bounded_new) as Hb. clear Hs0.
  induction Hs as [b|b l b1 tr b2 Hl _ IH]; intros Hr Hc; [by split|].
  change (l :: tr) with ([l] ++ tr) in Hr. unfold received in Hr. rewrite bind_app in Hr. apply app_nil in Hr as [Hr1 Hr2].
  apply Forall_cons in Hc as [Hc1 Hc2]. destruct (step_stalled _ _ _ _ _ Hl Hi Hb Hst Hr1 Hc1) as [Hst1 Hw].
  destruct IH as [Hst2 Hws]; eauto using step_inv, step_bounded.
Qed.

(** ** Runs *)

(** One event is published while the subscriber reads, and the bus is closed before it reads the second. *)
Definition short_run : list label :=
  [LSubscribe "run" 0; LBegin 1 "run" "started"; LSend 1 0 "started"; LReceive 0 "started"; LReturn 1;
   LBegin 2 "run" "finished"; LSend 2 0 "finished"; LReturn 2; LClose; LReceive 0 "finished"]%nat.

Lemma bus_safe_witness : exists b, steps NewInmem short_run b /\ bus_panicked b = false /\
  forall c, sent short_run c = received short_run c ++ buffered b c /\ length (buffered b c) <= chan_cap.
Proof.
  destruct (exec NewInmem short_run) as [b|] eqn:E; [|exfalso; vm_compute in E; discriminate E].
  exists b. apply exec_sound in E. split; [exact E|exact (bus_safe short_run b E)].
Defined.

(** The subscriber of a run that nobody reads, and the events that fill its buffer. *)
Definition fill : list label :=
  LSubscribe "run" 0 :: (seq 1 chan_cap ≫= fun p => [LBegin p "run" "delta"; LSend p 0 "delta"; LReturn p]).

Definition filled : Inmem := default NewInmem (exec NewInmem fill).
Definition finishing : Inmem := default NewInmem (exec filled [LBegin 0 "run" "finished"]).
Definition elsewhere : list label := [LBegin 65 "other run" "delta"; LReturn 65]%nat.

Lemma fill_steps : steps NewInmem fill filled /\ step filled (LBegin 0 "run" "finished") finishing.
Proof. split; [apply exec_sound|apply exec_label_sound]; vm_compute; reflexivity. Qed.

Lemma finishing_steps : steps NewInmem (fill ++ [LBegin 0 "run" "finished"]) finishing.
Proof. eapply steps_trans; [apply fill_steps|]. eapply steps_cons, steps_nil. apply fill_steps. Qed.

(** The terminal event of a run whose consumer stopped reading goes through as soon as it reads one event. *)
Lemma publish_completes_witness :
  exists tr' b3, steps finishing (tr' ++ [LReturn 0]) b3 /\ Forall (helps 0 (subs_of filled "run")) tr' /\
    sends tr' 0 = subs_of filled "run" /\ (length tr' <= 2 * length (subs_of filled "run"))%nat.
Proof.
  exact (publish_completes filled fill 0 "run" "finished" finishing [] finishing
           (proj1 fill_steps) (proj2 fill_steps) (steps_nil _) (Forall_nil_2 _)).
Defined.

(** Until then, publishes on other channels come and go while the bus cannot be closed and no run can subscribe. *)
Lemma stalled_subscriber_blocks_witness :
  exists b', steps finishing elsewhere b' /\ stalled b' 0 0 /\ Forall (fun l => ~ writes l) elsewhere.
Proof.
  destruct (exec finishing elsewhere) as [b'|] eqn:E; [|exfalso; vm_compute in E; discriminate E].
  exists b'. apply exec_sound in E. split; [exact E|].
  apply (stalled_subscriber_blocks (fill ++ [LBegin 0 "run" "finished"]) finishing 0 0 elsewhere b' finishing_steps).
  - split; [vm_compute; reflexivity|]. exists "finished", []. vm_compute. reflexivity.
  - exact E.
  - reflexivity.
  - unfold elsewhere. repeat constructor; discriminate.
Defined.
