(* ===== verification/Handles.v ===== *)
(** The handles of runs: the key-value store ([internal/store/kv.go]), the run and stream
    handles of the local runtime ([local/run_handle.go], [local/stream_handle.go]), and the
    agent's registry of them ([pkg/agent/agent_run.go],
    [agent_stream.go], [GetAgentRun]/[GetAgentStream] of [agent.go]).

    A store method runs under its mutex and is one step.  A handle is an object of a heap.
    The goroutine of the run ends in [markDone], which takes three steps: it stores the
    outcome, releases the context and closes [Done]; the goroutine that removes the finished
    run, callers of [Cancel], [Get], [Events] and the phases of a reconnect come in between.

    [Cancel] is modelled with and without a durable engine ([durable-go] is not part of the
    repository: what it answers is an argument).  The state machine is that of a local runtime
    without an engine; the handles of durable runs, of Temporal and of Restate are others.

    The registries of runs and of streams have the same code; a run handle is the part of a
    stream handle without its event channel, so the state machine is that of streams. *)
From S2P Require Import Prelude GoLib Types Telemetry.

#[local] Open Scope string_scope.
#[local] Open Scope list_scope.

(** ** The key-value store *)

Abbreviation KV := gmap.

Section store.
Context {K V : Type} `{Countable K} `{EqDecision V}.

Definition NewKV : KV K V := ∅.
Definition KV_Set (s : KV K V) (key : K) (value : V) : KV K V := <[key := value]> s.
Definition KV_Get (s : KV K V) (key : K) : option V := s !! key.
Definition KV_Delete (s : KV K V) (key : K) : KV K V := delete key s.
Definition KV_Keys (s : KV K V) : list K := (map_to_list s).*1.
Definition KV_DeleteIf (s : KV K V) (key : K) (expected : V) : bool * KV K V :=
  match s !! key with
  | None => (false, s)
  | Some current => if negb (bool_decide (current = expected)) then (false, s) else (true, delete key s)
  end.
Definition KV_Pop (s : KV K V) (key : K) : option V * KV K V :=
  match s !! key with Some val => (Some val, delete key s) | None => (None, s) end.
Definition KV_Len (s : KV K V) : nat := size s.
Definition KV_Clear (s : KV K V) : KV K V := ∅.

(** [DeleteIf] removes exactly the expected binding. *)
Lemma KV_DeleteIf_spec s key expected key' :
  (KV_DeleteIf s key expected).2 !! key' = if decide (key' = key /\ s !! key = Some expected) then None else s !! key'.
Proof.
  unfold KV_DeleteIf. destruct (s !! key) as [v|] eqn:E.
  - destruct (bool_decide_reflect (v = expected)) as [->|Hv]; cbn.
    + destruct (decide (key' = key)) as [->|]; [by rewrite lookup_delete_eq, decide_True|].
      rewrite lookup_delete_ne, decide_False by naive_solver. done.
    + rewrite decide_False; [done|]. intros [_ [= ->]]. done.
  - rewrite decide_False; [done|]. by intros [_ ?].
Qed.

End store.

(** ** Handles *)

Inductive RunStatus := StatusPending | StatusRunning | StatusCompleted | StatusFailed | StatusCancelled.

#[export] Instance RunStatus_eq_dec : EqDecision RunStatus.
Proof. solve_decision. Defined.

Definition IsTerminal (s : RunStatus) : bool :=
  bool_decide (s = StatusCompleted) || bool_decide (s = StatusFailed) || bool_decide (s = StatusCancelled).

Record runHandle := {
  h_id : string;
  h_status : RunStatus;
  h_res : option AgentRunResult;
  h_err : option error;
  h_cancelOnce : bool;  (* the once has fired *)
  h_cancel : bool;      (* the cancel function is set *)
  h_cancelled : bool;   (* it has been called *)
  h_doneOnce : bool;
  h_done : bool;        (* [doneCh] is closed *)
  h_durable : bool }.   (* [durableEngine] is set *)

Definition newRunHandle (id : string) : runHandle :=
  {| h_id := id; h_status := StatusRunning; h_res := None; h_err := None; h_cancelOnce := false; h_cancel := true;
     h_cancelled := false; h_doneOnce := false; h_done := false; h_durable := false |}.

Definition setDurable (h : runHandle) : runHandle :=
  {| h_id := h_id h; h_status := h_status h; h_res := h_res h; h_err := h_err h; h_cancelOnce := h_cancelOnce h;
     h_cancel := h_cancel h; h_cancelled := h_cancelled h; h_doneOnce := h_doneOnce h; h_done := h_done h; h_durable := true |}.

(** The body of [cancelOnce.Do]; also whether it cancelled. *)
Definition cancel_once (h : runHandle) : bool * runHandle :=
  if h_cancelOnce h then (false, h)
  else (h_cancel h,
        {| h_id := h_id h; h_status := h_status h; h_res := h_res h; h_err := h_err h; h_cancelOnce := true; h_cancel := false;
           h_cancelled := h_cancelled h || h_cancel h; h_doneOnce := h_doneOnce h; h_done := h_done h;
           h_durable := h_durable h |}).

(** [CancelRun] is the answer of the engine, asked where there is one; [already_finished] is
    [errors.Is(err, durable.ErrRunAlreadyFinished)]. *)
Definition runHandle_Cancel (already_finished : error -> bool) (CancelRun : option error) (h : runHandle)
    : option error * runHandle :=
  if h_durable h then
    (match CancelRun with
     | Some err => Some (if already_finished err then sentinel_error ErrRunAlreadyCompleted else err)
     | None => None
     end, (cancel_once h).2)
  else
    let '(cancelled, h) := cancel_once h in
    (if negb cancelled then Some (sentinel_error ErrRunAlreadyCompleted) else None, h).

(** [Get]: the outcome when the run is done; else it waits ([None]) until the caller's context ends. *)
Definition runHandle_Get (h : runHandle) (ctx_Err : option error) : option (option AgentRunResult * option error) :=
  if h_done h then Some (h_res h, h_err h)
  else match ctx_Err with Some e => Some (None, Some e) | None => None end.

Section outcome.
(** [errors.Is(err, durable.ErrRunCancelled)] and the message of that error, of the durable engine. *)
Context (is_run_cancelled : error -> bool) (run_cancelled_msg : string).

Definition outcome_status (err : option error) : RunStatus :=
  match err with
  | None => StatusCompleted
  | Some e =>
      if errors_Is e ContextCanceled || is_run_cancelled e || String.eqb (err_msg e) run_cancelled_msg then StatusCancelled
      else StatusFailed
  end.

(** The phases of [markDone]. *)
Definition mark_outcome (h : runHandle) (res : option AgentRunResult) (err : option error) : runHandle :=
  {| h_id := h_id h; h_status := outcome_status err; h_res := res; h_err := err; h_cancelOnce := h_cancelOnce h; h_cancel := h_cancel h;
     h_cancelled := h_cancelled h; h_doneOnce := h_doneOnce h; h_done := h_done h; h_durable := h_durable h |}.
Definition mark_released (h : runHandle) : runHandle := (cancel_once h).2.
Definition mark_closed (h : runHandle) : runHandle :=
  if h_doneOnce h then h
  else {| h_id := h_id h; h_status := h_status h; h_res := h_res h; h_err := h_err h; h_cancelOnce := h_cancelOnce h;
          h_cancel := h_cancel h; h_cancelled := h_cancelled h; h_doneOnce := true; h_done := true;
          h_durable := h_durable h |}.
Definition markDone (h : runHandle) (res : option AgentRunResult) (err : option error) : runHandle :=
  mark_closed (mark_released (mark_outcome h res err)).

End outcome.

Record streamHandle := { sh_run : runHandle; sh_eventsOnce : bool; sh_eventCh : option nat }.

Definition newStreamHandle (id : string) (eventCh : option nat) : streamHandle :=
  {| sh_run := newRunHandle id; sh_eventsOnce := false; sh_eventCh := eventCh |}.

Definition streamHandle_Events (h : streamHandle) (fromOffset : Z) : result nat * streamHandle :=
  if (0 <? fromOffset)%Z then (inl (sentinel_error ErrStreamOffsetNotSupported), h)
  else if IsTerminal (h_status (sh_run h)) then (inl (sentinel_error ErrRunAlreadyCompleted), h)
  else
    let '(ch, h) :=
      if sh_eventsOnce h then (None, h)
      else (sh_eventCh h, {| sh_run := sh_run h; sh_eventsOnce := true; sh_eventCh := None |}) in
    match ch with
    | None => (inl (sentinel_error ErrStreamAlreadyConsumed), h)
    | Some ch => (inr ch, h)
    end.

Definition on_run (f : runHandle -> runHandle) (h : streamHandle) : streamHandle :=
  {| sh_run := f (sh_run h); sh_eventsOnce := sh_eventsOnce h; sh_eventCh := sh_eventCh h |}.

(** ** The agent's registry of handles *)

(** How far the goroutine of a run is, and the agent's goroutines about its handle. *)
Inductive driver := Looping | Stored | Released | Finished.
Inductive tracking := Untracked | Waiting | Awaited.

Record cell := { c_handle : streamHandle; c_driver : driver; c_tracking : tracking }.

(** A call of [GetAgentStream] between its accesses: what it read, or that it is about to delete. *)
Inductive lookup_phase := Got (runID : string) (existing : option nat) | Deleting (runID : string).

Record handles := {
  a_cells : gmap nat cell;
  a_streams : KV string nat;
  a_lookups : gmap nat lookup_phase }.

Definition no_handles : handles := {| a_cells := ∅; a_streams := NewKV; a_lookups := ∅ |}.

Definition cell_id (c : cell) : string := h_id (sh_run (c_handle c)).
Definition cell_done (c : cell) : bool := h_done (sh_run (c_handle c)).

Definition set_cell (w : handles) (l : nat) (c : cell) : handles :=
  {| a_cells := <[l := c]> (a_cells w); a_streams := a_streams w; a_lookups := a_lookups w |}.
Definition set_streams (w : handles) (s : KV string nat) : handles :=
  {| a_cells := a_cells w; a_streams := s; a_lookups := a_lookups w |}.
Definition set_lookups (w : handles) (s : gmap nat lookup_phase) : handles :=
  {| a_cells := a_cells w; a_streams := a_streams w; a_lookups := s |}.
Definition with_handle (c : cell) (h : streamHandle) (d : driver) : cell :=
  {| c_handle := h; c_driver := d; c_tracking := c_tracking c |}.
Definition with_tracking (c : cell) (t : tracking) : cell :=
  {| c_handle := c_handle c; c_driver := c_driver c; c_tracking := t |}.

(** [newAgentStream]: the handle is registered and the goroutine [awaitCompletion] started. *)
Definition newAgentStream (w : handles) (l : nat) (c : cell) : handles :=
  set_cell (set_streams w (KV_Set (a_streams w) (cell_id c) l)) l (with_tracking c Waiting).

(** [awaitCompletion], once [Done] is closed. *)
Definition awaitCompletion (w : handles) (l : nat) (c : cell) : handles :=
  set_cell (set_streams w (KV_DeleteIf (a_streams w) (cell_id c) l).2) l (with_tracking c Awaited).

(** The local runtime without durable engine finds no handle. *)
Definition GetStreamHandle (runID : string) : result nat := inl (sentinel_error ErrStreamNotFound).

(** The accesses of [GetAgentStream]: it reads the registry, polls [Done], deletes. *)
Definition lookup_get (w : handles) (runID : string) : lookup_phase := Got runID (KV_Get (a_streams w) runID).
Definition lookup_select (w : handles) (runID : string) (existing : option nat) : result nat + lookup_phase :=
  match existing with
  | Some l =>
      match a_cells w !! l with
      | Some c => if cell_done c then inr (Deleting runID) else inl (inr l)
      | None => inl (inr l)
      end
  | None =>
      inl (match GetStreamHandle runID with
           | inl e => if errors_Is e ErrRunAlreadyCompleted then inl (sentinel_error ErrRunAlreadyCompleted) else inl e
           | inr l => inr l
           end)
  end.
Definition lookup_delete (w : handles) (runID : string) : result nat * handles :=
  (inl (sentinel_error ErrRunAlreadyCompleted), set_streams w (KV_Delete (a_streams w) runID)).

(** [GetAgentStream] with nothing in between. *)
Definition GetAgentStream (w : handles) (runID : string) : result nat * handles :=
  match lookup_get w runID with
  | Got runID existing =>
      match lookup_select w runID existing with
      | inl answer => (answer, w)
      | inr _ => lookup_delete w runID
      end
  | Deleting runID => lookup_delete w runID
  end.

Inductive action :=
| AStart (l : nat) (id : string)
| ATrack (l : nat)
| AStore (l : nat) (res : option AgentRunResult) (err : option error)
| ARelease (l : nat)
| AClose (l : nat)
| AAwait (l : nat)
| ACancel (l : nat) (r : option error)
| AEvents (l : nat) (r : result nat)
| ALookup (q : nat) (id : string)
| ASelect (q : nat)
| AAnswer (q : nat) (id : string) (r : result nat).

Section machine.
Context (is_run_cancelled : error -> bool) (run_cancelled_msg : string) (already_finished : error -> bool).

Abbreviation Cancel := (runHandle_Cancel already_finished).

Abbreviation outcome_status := (outcome_status is_run_cancelled run_cancelled_msg).
Abbreviation mark_outcome := (mark_outcome is_run_cancelled run_cancelled_msg).

(** The identifier of a new run is a fresh UUID. *)
Definition unused_id (w : handles) (id : string) : Prop := forall l c, a_cells w !! l = Some c -> cell_id c <> id.

Inductive act : handles -> action -> handles -> Prop :=
| act_start w l id ch :
    a_cells w !! l = None -> unused_id w id ->
    act w (AStart l id) (set_cell w l {| c_handle := newStreamHandle id ch; c_driver := Looping; c_tracking := Untracked |})
| act_track w l c :
    a_cells w !! l = Some c -> c_tracking c = Untracked -> act w (ATrack l) (newAgentStream w l c)
| act_store w l c res err :
    a_cells w !! l = Some c -> c_driver c = Looping ->
    act w (AStore l res err) (set_cell w l (with_handle c (on_run (fun h => mark_outcome h res err) (c_handle c)) Stored))
| act_release w l c :
    a_cells w !! l = Some c -> c_driver c = Stored ->
    act w (ARelease l) (set_cell w l (with_handle c (on_run mark_released (c_handle c)) Released))
| act_close w l c :
    a_cells w !! l = Some c -> c_driver c = Released ->
    act w (AClose l) (set_cell w l (with_handle c (on_run mark_closed (c_handle c)) Finished))
| act_await w l c :
    a_cells w !! l = Some c -> c_tracking c = Waiting -> cell_done c = true -> act w (AAwait l) (awaitCompletion w l c)
| act_cancel w l c CancelRun :
    a_cells w !! l = Some c ->
    act w (ACancel l (Cancel CancelRun (sh_run (c_handle c))).1)
      (set_cell w l (with_handle c (on_run (fun h => (Cancel CancelRun h).2) (c_handle c)) (c_driver c)))
| act_events w l c fromOffset r h :
    a_cells w !! l = Some c -> streamHandle_Events (c_handle c) fromOffset = (r, h) ->
    act w (AEvents l r) (set_cell w l (with_handle c h (c_driver c)))
| act_lookup w q id :
    a_lookups w !! q = None -> act w (ALookup q id) (set_lookups w (<[q := lookup_get w id]> (a_lookups w)))
| act_answer w q id existing r :
    a_lookups w !! q = Some (Got id existing) -> lookup_select w id existing = inl r ->
    act w (AAnswer q id r) (set_lookups w (delete q (a_lookups w)))
| act_select w q id existing ph :
    a_lookups w !! q = Some (Got id existing) -> lookup_select w id existing = inr ph ->
    act w (ASelect q) (set_lookups w (<[q := ph]> (a_lookups w)))
| act_delete w q id :
    a_lookups w !! q = Some (Deleting id) ->
    act w (AAnswer q id (lookup_delete w id).1) (set_lookups (lookup_delete w id).2 (delete q (a_lookups w))).

Inductive acts : handles -> list action -> handles -> Prop :=
| acts_nil w : acts w [] w
| acts_cons w a w1 tr w2 : act w a w1 -> acts w1 tr w2 -> acts w (a :: tr) w2.

(** *** Invariants *)

(** What the fields of a handle are, given how far its goroutine is. *)
Definition driver_ok (c : cell) : Prop :=
  let h := sh_run (c_handle c) in
  h_doneOnce h = h_done h /\ h_durable h = false /\
  match c_driver c with
  | Looping => h_status h = StatusRunning /\ h_done h = false
  | Stored => h_status h = outcome_status (h_err h) /\ h_done h = false
  | Released => h_status h = outcome_status (h_err h) /\ h_cancelOnce h = true /\ h_done h = false
  | Finished => h_status h = outcome_status (h_err h) /\ h_cancelOnce h = true /\ h_done h = true
  end.

Record handles_inv (w : handles) : Prop := {
  hi_driver l c : a_cells w !! l = Some c -> driver_ok c;
  hi_unique l1 l2 c1 c2 : a_cells w !! l1 = Some c1 -> a_cells w !! l2 = Some c2 -> cell_id c1 = cell_id c2 -> l1 = l2;
  hi_entry id l : a_streams w !! id = Some l -> exists c, a_cells w !! l = Some c /\ cell_id c = id /\ c_tracking c = Waiting;
  hi_live l c : a_cells w !! l = Some c -> c_tracking c = Waiting -> cell_done c = false -> a_streams w !! cell_id c = Some l;
  hi_got q id l : a_lookups w !! q = Some (Got id (Some l)) -> exists c, a_cells w !! l = Some c /\ cell_id c = id;
  hi_deleting q id : a_lookups w !! q = Some (Deleting id) -> exists l c, a_cells w !! l = Some c /\ cell_id c = id /\ cell_done c = true }.

Lemma handles_inv_new : handles_inv no_handles.
Proof. constructor; intros *; cbn; by rewrite lookup_empty. Qed.

(** Changing a handle in place keeps the registry what it was. *)
Lemma inv_update w l c c' :
  handles_inv w -> a_cells w !! l = Some c -> cell_id c' = cell_id c -> c_tracking c' = c_tracking c ->
  (cell_done c = true -> cell_done c' = true) -> driver_ok c' -> handles_inv (set_cell w l c').
Proof.
  intros [H1 H2 H3 H4 H5 H6] Hc Hid Ht Hd Hok.
  assert (Hlk : forall k x, a_cells (set_cell w l c') !! k = Some x -> exists y, a_cells w !! k = Some y /\
            cell_id x = cell_id y /\ c_tracking x = c_tracking y /\ (cell_done y = true -> cell_done x = true)).
  { intros k x. cbn. destruct (decide (l = k)) as [->|]; [rewrite lookup_insert_eq; intros [= <-]; by exists c|].
    rewrite lookup_insert_ne by done. intros Hx. by exists x. }
  assert (Hlk' : forall k y, a_cells w !! k = Some y -> exists x, a_cells (set_cell w l c') !! k = Some x /\
            cell_id x = cell_id y /\ c_tracking x = c_tracking y /\ (cell_done y = true -> cell_done x = true)).
  { intros k y Hy. cbn. destruct (decide (l = k)) as [->|]; [rewrite lookup_insert_eq|rewrite lookup_insert_ne by done; by exists y].
    assert (y = c) as -> by congruence. by exists c'. }
  constructor.
  - intros k x. cbn. destruct (decide (l = k)) as [->|]; [rewrite lookup_insert_eq; by intros [= <-]|].
    rewrite lookup_insert_ne by done. apply H1.
  - intros l1 l2 c1 c2 (y1 & Hy1 & E1 & _)%Hlk (y2 & Hy2 & E2 & _)%Hlk He. apply (H2 l1 l2 y1 y2); congruence.
  - intros id k (y & Hy & Hyid & Hyt)%H3. destruct (Hlk' k y Hy) as (x & Hx & E1 & E2 & _). exists x. by rewrite E1, E2.
  - intros k x (y & Hy & E1 & E2 & E3)%Hlk Hxt Hxd. rewrite E1. apply H4; [done|congruence|].
    destruct (cell_done y); [by rewrite E3 in Hxd|done].
  - intros q id k (y & Hy & Hyid)%H5. destruct (Hlk' k y Hy) as (x & Hx & E1 & _). exists x. by rewrite E1.
  - intros q id (k & y & Hy & Hyid & Hyd)%H6. destruct (Hlk' k y Hy) as (x & Hx & E1 & _ & E3). exists k, x.
    rewrite E1. by rewrite E3.
Qed.

Lemma cancel_once_spec h :
  let h' := (cancel_once h).2 in
  h_id h' = h_id h /\ h_status h' = h_status h /\ h_res h' = h_res h /\ h_err h' = h_err h /\
  h_done h' = h_done h /\ h_doneOnce h' = h_doneOnce h /\ h_durable h' = h_durable h /\ h_cancelOnce h' = true.
Proof. cbv zeta. unfold cancel_once. by destruct (h_cancelOnce h) eqn:E. Qed.

Lemma Cancel_handle e h : (Cancel e h).2 = (cancel_once h).2.
Proof. unfold runHandle_Cancel. destruct (h_durable h); [done|]. by destruct (cancel_once h). Qed.

Lemma Events_run h off r h' : streamHandle_Events h off = (r, h') -> sh_run h' = sh_run h.
Proof.
  unfold streamHandle_Events. destruct (0 <? off)%Z; [by intros [= _ <-]|]. destruct (IsTerminal _); [by intros [= _ <-]|].
  destruct (sh_eventsOnce h), (sh_eventCh h); by intros [= _ <-].
Qed.

Lemma inv_start w l id ch :
  handles_inv w -> a_cells w !! l = None -> unused_id w id ->
  handles_inv (set_cell w l {| c_handle := newStreamHandle id ch; c_driver := Looping; c_tracking := Untracked |}).
Proof.
  intros [H1 H2 H3 H4 H5 H6] Hl Hid. set (c0 := {| c_handle := _ |}).
  assert (Hlk : forall k x, a_cells (set_cell w l c0) !! k = Some x -> (k = l /\ x = c0) \/ (k <> l /\ a_cells w !! k = Some x)).
  { intros k x. cbn. destruct (decide (l = k)) as [->|]; [rewrite lookup_insert_eq; intros [= <-]; by left|].
    rewrite lookup_insert_ne by done. right. by split; [congruence|]. }
  assert (Hold : forall k x, a_cells w !! k = Some x -> a_cells (set_cell w l c0) !! k = Some x).
  { intros k x Hx. cbn. rewrite lookup_insert_ne; [done|]. intros ->. by rewrite Hl in Hx. }
  constructor.
  - intros k x [[-> ->]|[_ Hx]]%Hlk; [done|by apply (H1 k)].
  - intros l1 l2 c1 c2 [[-> ->]|[_ Hx1]]%Hlk [[-> ->]|[_ Hx2]]%Hlk He; [done| | |by apply (H2 l1 l2 c1 c2)].
    + by destruct (Hid l2 c2 Hx2).
    + by destruct (Hid l1 c1 Hx1).
  - intros i k (c & Hc & Hi)%H3. exists c. by split; [apply Hold|].
  - intros k x [[-> ->]|[_ Hx]]%Hlk; [done|by apply H4].
  - intros q i k (c & Hc & Hi)%H5. exists c. by split; [apply Hold|].
  - intros q i (k & c & Hc & Hi)%H6. exists k, c. by split; [apply Hold|].
Qed.

Lemma inv_track w l c :
  handles_inv w -> a_cells w !! l = Some c -> c_tracking c = Untracked -> handles_inv (newAgentStream w l c).
Proof.
  intros [H1 H2 H3 H4 H5 H6] Hl Ht. unfold newAgentStream. set (c' := with_tracking c Waiting). set (w' := set_cell _ _ _).
  assert (Hlk : forall k x, a_cells w' !! k = Some x -> (k = l /\ x = c') \/ (k <> l /\ a_cells w !! k = Some x)).
  { intros k x. cbn. destruct (decide (l = k)) as [->|]; [rewrite lookup_insert_eq; intros [= <-]; by left|].
    rewrite lookup_insert_ne by done. right. by split; [congruence|]. }
  assert (Hnew : a_cells w' !! l = Some c') by apply lookup_insert_eq.
  assert (Hold : forall k x, a_cells w !! k = Some x -> exists y, a_cells w' !! k = Some y /\ cell_id y = cell_id x /\ cell_done y = cell_done x).
  { intros k x Hx. destruct (decide (l = k)) as [->|]; [|exists x; cbn; by rewrite lookup_insert_ne].
    exists c'. assert (x = c) as -> by congruence. done. }
  constructor.
  - intros k x [[-> ->]|[_ Hx]]%Hlk; [by apply (H1 l c)|by apply (H1 k)].
  - intros l1 l2 c1 c2 [[-> ->]|[_ Hx1]]%Hlk [[-> ->]|[_ Hx2]]%Hlk He; [done| | |by apply (H2 l1 l2 c1 c2)].
    + by apply (H2 l l2 c c2).
    + by apply (H2 l1 l c1 c).
  - intros i k. cbn. unfold KV_Set. destruct (decide (cell_id c = i)) as [<-|Hne].
    + rewrite lookup_insert_eq. intros [= <-]. by exists c'.
    + rewrite lookup_insert_ne by done. intros (x & Hx & Hi & Hw)%H3. exists x.
      rewrite lookup_insert_ne; [done|]. intros <-. assert (x = c) as -> by congruence. by rewrite Ht in Hw.
  - intros k x [[-> ->]|[Hne Hx]]%Hlk Hw Hd; cbn; unfold KV_Set; [by rewrite lookup_insert_eq|].
    rewrite lookup_insert_ne; [by apply H4|]. intros He. apply Hne. by apply (H2 k l x c).
  - intros q i k (x & Hx & Hi)%H5. destruct (Hold k x Hx) as (y & Hy & E & _). exists y. by rewrite E.
  - intros q i (k & x & Hx & Hi & Hd)%H6. destruct (Hold k x Hx) as (y & Hy & E1 & E2). exists k, y. by rewrite E1, E2.
Qed.

(** Removing bindings of finished handles. *)
Lemma inv_remove w (s : KV string nat) :
  handles_inv w -> (forall id l, s !! id = Some l -> a_streams w !! id = Some l) ->
  (forall id l, a_streams w !! id = Some l -> s !! id = Some l \/ exists c, a_cells w !! l = Some c /\ cell_done c = true) ->
  handles_inv (set_streams w s).
Proof.
  intros [H1 H2 H3 H4 H5 H6] Hsub Hdone. constructor; try done.
  - intros id l Hs. by apply H3, Hsub.
  - intros l c Hc Ht Hd. cbn in Hc. destruct (Hdone _ _ (H4 l c Hc Ht Hd)) as [?|(x & Hx & Hxd)]; [done|]. congruence.
Qed.

Lemma inv_await w l c :
  handles_inv w -> a_cells w !! l = Some c -> c_tracking c = Waiting -> cell_done c = true -> handles_inv (awaitCompletion w l c).
Proof.
  intros Hi Hl Ht Hd. unfold awaitCompletion. set (s := (KV_DeleteIf (a_streams w) (cell_id c) l).2).
  assert (Hs : forall id, s !! id = if decide (id = cell_id c /\ a_streams w !! cell_id c = Some l) then None else a_streams w !! id)
    by (intros id; apply KV_DeleteIf_spec).
  assert (Hgone : forall id, s !! id <> Some l).
  { intros id. rewrite Hs. destruct (decide _) as [|Hn]; [done|]. intros He. destruct (hi_entry w Hi id l He) as (x & Hx & Hxi & _).
    assert (x = c) as -> by congruence. apply Hn. by subst id. }
  destruct (inv_remove w s Hi) as [H1 H2 H3 H4 H5 H6].
  - intros id k. rewrite Hs. by destruct (decide _).
  - intros id k Hk. rewrite Hs. destruct (decide _) as [[-> Hc]|]; [|by left]. right. exists c. split; [|done]. congruence.
  - set (c' := with_tracking c Awaited). cbn [a_cells a_streams a_lookups set_streams] in *.
    assert (Hlk : forall k x, a_cells (set_cell (set_streams w s) l c') !! k = Some x -> exists y, a_cells w !! k = Some y /\
              cell_id x = cell_id y /\ cell_done x = cell_done y /\ driver_ok x = driver_ok y /\ (k <> l -> x = y) /\ (k = l -> x = c')).
    { intros k x. cbn. destruct (decide (l = k)) as [<-|]; [rewrite lookup_insert_eq; intros [= <-]; by exists c|].
      rewrite lookup_insert_ne by done. intros Hx. by exists x. }
    assert (Hold : forall k y, a_cells w !! k = Some y -> exists x, a_cells (set_cell (set_streams w s) l c') !! k = Some x /\
              cell_id x = cell_id y /\ cell_done x = cell_done y /\ (k <> l -> x = y)).
    { intros k y Hy. cbn. destruct (decide (l = k)) as [<-|]; [|exists y; by rewrite lookup_insert_ne].
      rewrite lookup_insert_eq. exists c'. assert (y = c) as -> by congruence. done. }
    constructor.
    + intros k x (y & Hy & _ & _ & -> & _)%Hlk. by apply (H1 k).
    + intros l1 l2 c1 c2 (y1 & Hy1 & E1 & _)%Hlk (y2 & Hy2 & E2 & _)%Hlk He. apply (H2 l1 l2 y1 y2); congruence.
    + intros id k Hk. destruct (H3 id k Hk) as (y & Hy & Hyi & Hyt). destruct (Hold k y Hy) as (x & Hx & E1 & _ & E3).
      assert (x = y) as -> by (apply E3; intros ->; by apply (Hgone id)). by exists y.
    + intros k x (y & Hy & E1 & E2 & _ & E4 & E5)%Hlk Hxt Hxd. destruct (decide (k = l)) as [->|Hne].
      * rewrite E5 in Hxt by done. done.
      * rewrite E4 in * by done. by apply (H4 k y).
    + intros q id k (y & Hy & Hyi)%H5. destruct (Hold k y Hy) as (x & Hx & E1 & _). exists x. by rewrite E1.
    + intros q id (k & y & Hy & Hyi & Hyd)%H6. destruct (Hold k y Hy) as (x & Hx & E1 & E2 & _). exists k, x. by rewrite E1, E2.
Qed.

(** The lookups of a reconnect. *)
Lemma inv_lookups w m :
  handles_inv w ->
  (forall q ph, m !! q = Some ph ->
     match ph with
     | Got id (Some l) => exists c, a_cells w !! l = Some c /\ cell_id c = id
     | Got _ None => True
     | Deleting id => exists l c, a_cells w !! l = Some c /\ cell_id c = id /\ cell_done c = true
     end) ->
  handles_inv (set_lookups w m).
Proof.
  intros [H1 H2 H3 H4 H5 H6] Hm. constructor; try done.
  - intros q id l Hq. exact (Hm q _ Hq).
  - intros q id Hq. exact (Hm q _ Hq).
Qed.

Lemma inv_lookup_kept w q ph :
  handles_inv w -> a_lookups w !! q = Some ph ->
  match ph with
  | Got id (Some l) => exists c, a_cells w !! l = Some c /\ cell_id c = id
  | Got _ None => True
  | Deleting id => exists l c, a_cells w !! l = Some c /\ cell_id c = id /\ cell_done c = true
  end.
Proof. intros Hi Hq. destruct ph as [id [l|]|id]; [by apply (hi_got w Hi q)|done|by apply (hi_deleting w Hi q)]. Qed.

(** What one action does to a handle. *)
Lemma driver_ok_store c res err :
  driver_ok c -> c_driver c = Looping -> driver_ok (with_handle c (on_run (fun h => mark_outcome h res err) (c_handle c)) Stored).
Proof. intros (Ho & He & Hd) E. rewrite E in Hd. split; [done|]. split; [done|]. by split; [|apply Hd]. Qed.

Lemma driver_ok_release c :
  driver_ok c -> c_driver c = Stored -> driver_ok (with_handle c (on_run mark_released (c_handle c)) Released).
Proof.
  intros (Ho & He & Hd) E. rewrite E in Hd. unfold driver_ok, mark_released. cbn.
  destruct (cancel_once_spec (sh_run (c_handle c))) as (_ & -> & _ & -> & -> & -> & -> & ->). naive_solver.
Qed.

Lemma driver_ok_close c :
  driver_ok c -> c_driver c = Released -> driver_ok (with_handle c (on_run mark_closed (c_handle c)) Finished).
Proof.
  intros (Ho & He & Hd) E. rewrite E in Hd. destruct Hd as (H1 & H2 & H3). unfold driver_ok, mark_closed. cbn. by rewrite Ho, H3.
Qed.

Lemma driver_ok_cancel c e :
  driver_ok c -> driver_ok (with_handle c (on_run (fun h => (Cancel e h).2) (c_handle c)) (c_driver c)).
Proof.
  unfold driver_ok. cbn. rewrite Cancel_handle.
  destruct (cancel_once_spec (sh_run (c_handle c))) as (_ & -> & _ & -> & -> & -> & -> & Ho). destruct (c_driver c); naive_solver.
Qed.

Lemma inv_delete w q id :
  handles_inv w -> a_lookups w !! q = Some (Deleting id) ->
  handles_inv (set_lookups (lookup_delete w id).2 (delete q (a_lookups w))).
Proof.
  intros Hi Hq. destruct (hi_deleting w Hi q id Hq) as (l & c & Hc & Hcid & Hd). cbn [lookup_delete snd].
  apply (inv_lookups (set_streams w (KV_Delete (a_streams w) id)) (delete q (a_lookups w))).
  - apply inv_remove; [done| |].
    + intros i k. unfold KV_Delete. by intros [_ ?]%lookup_delete_Some.
    + intros i k Hk. unfold KV_Delete. destruct (decide (id = i)) as [<-|]; [|left; by rewrite lookup_delete_ne].
      right. exists c. split; [|done]. destruct (hi_entry w Hi id k Hk) as (x & Hx & Hxi & _).
      assert (k = l) as -> by (apply (hi_unique w Hi k l x c); congruence). done.
  - intros q' ph [_ Hq']%lookup_delete_Some. by apply (inv_lookup_kept w q').
Qed.

Lemma act_inv w a w' : act w a w' -> handles_inv w -> handles_inv w'.
Proof.
  intros Hact Hi. destruct Hact as [w l id ch Hl Hid|w l c Hl Ht|w l c res err Hl Hd|w l c Hl Hd|w l c Hl Hd|w l c Hl Ht Hd|w l c e Hl
    |w l c off r h Hl He|w q id Hq|w q id ex r Hq Hs|w q id ex ph Hq Hs|w q id Hq].
  - by apply inv_start.
  - by apply inv_track.
  - apply (inv_update w l c); try done. apply driver_ok_store; [by apply (hi_driver w Hi l)|done].
  - destruct (cancel_once_spec (sh_run (c_handle c))) as (E1 & _ & _ & _ & E2 & _).
    apply (inv_update w l c); try done; [by unfold cell_done; cbn; unfold mark_released; rewrite E2|].
    apply driver_ok_release; [by apply (hi_driver w Hi l)|done].
  - apply (inv_update w l c); try done.
    + unfold cell_id. cbn. unfold mark_closed. by destruct (h_doneOnce _).
    + unfold cell_done. cbn. unfold mark_closed. by destruct (h_doneOnce _).
    + apply driver_ok_close; [by apply (hi_driver w Hi l)|done].
  - by apply inv_await.
  - destruct (cancel_once_spec (sh_run (c_handle c))) as (E1 & _ & _ & _ & E2 & _).
    apply (inv_update w l c); try done.
    + unfold cell_id. cbn. by rewrite Cancel_handle, E1.
    + unfold cell_done. cbn. by rewrite Cancel_handle, E2.
    + apply driver_ok_cancel. by apply (hi_driver w Hi l).
  - apply Events_run in He. pose proof (hi_driver w Hi l c Hl) as Hok.
    apply (inv_update w l c); try done; unfold cell_id, cell_done, driver_ok in *; cbn; by rewrite He.
  - apply inv_lookups; [done|]. intros q' ph. destruct (decide (q = q')) as [->|].
    + rewrite lookup_insert_eq. intros [= <-]. unfold lookup_get, KV_Get. destruct (a_streams w !! id) as [l|] eqn:E; [|done].
      destruct (hi_entry w Hi id l E) as (c & Hc & Hcid & _). by exists c.
    + rewrite lookup_insert_ne by done. by apply inv_lookup_kept.
  - apply inv_lookups; [done|]. intros q' ph [_ Hq']%lookup_delete_Some. by apply (inv_lookup_kept w q').
  - apply inv_lookups; [done|]. intros q' ph'. destruct (decide (q = q')) as [->|].
    + rewrite lookup_insert_eq. intros [= <-]. unfold lookup_select in Hs. destruct ex as [l|]; [|done].
      destruct (a_cells w !! l) as [c|] eqn:Hc; [|done]. destruct (cell_done c) eqn:Hd; [|done]. injection Hs as <-.
      destruct (hi_got w Hi q' id l Hq) as (x & Hx & Hxi). exists l, c. split; [done|split; [|done]]. congruence.
    + rewrite lookup_insert_ne by done. by apply inv_lookup_kept.
  - by apply inv_delete.
Qed.

Lemma acts_inv w tr w' : acts w tr w' -> handles_inv w -> handles_inv w'.
Proof. induction 1; eauto using act_inv. Qed.

(** *** What happens to one handle *)

(** How often cancelling and handing out the event channel of [l] succeeded. *)
Definition cancels (tr : list action) (l : nat) : nat :=
  length (List.filter (fun a => match a with ACancel l' None => Nat.eqb l' l | _ => false end) tr).
Definition handed (tr : list action) (l : nat) : nat :=
  length (List.filter (fun a => match a with AEvents l' (inr _) => Nat.eqb l' l | _ => false end) tr).

Definition cancel_used (w : handles) (l : nat) : nat :=
  match a_cells w !! l with Some c => Nat.b2n (h_cancelOnce (sh_run (c_handle c))) | None => 0 end.
Definition events_used (w : handles) (l : nat) : nat :=
  match a_cells w !! l with Some c => Nat.b2n (sh_eventsOnce (c_handle c)) | None => 0 end.

Definition outcome_of (c : cell) : option AgentRunResult * option error * RunStatus :=
  (h_res (sh_run (c_handle c)), h_err (sh_run (c_handle c)), h_status (sh_run (c_handle c))).

Lemma set_cell_lookup w l c k : a_cells (set_cell w l c) !! k = if decide (l = k) then Some c else a_cells w !! k.
Proof. cbn. destruct (decide (l = k)) as [->|]; [by rewrite lookup_insert_eq|by rewrite lookup_insert_ne]. Qed.

Lemma Events_once h off r h' :
  streamHandle_Events h off = (r, h') ->
  Nat.b2n (sh_eventsOnce h) + (match r with inr _ => 1 | inl _ => 0 end) <= Nat.b2n (sh_eventsOnce h').
Proof.
  unfold streamHandle_Events. destruct (0 <? off)%Z; [intros [= <- <-]; lia|]. destruct (IsTerminal _); [intros [= <- <-]; lia|].
  destruct (sh_eventsOnce h) eqn:E, (sh_eventCh h); intros [= <- <-]; cbn; rewrite ?E; cbn; lia.
Qed.

Lemma Cancel_once e h : h_durable h = false ->
  Nat.b2n (h_cancelOnce h) + (match (Cancel e h).1 with None => 1 | Some _ => 0 end)
  <= Nat.b2n (h_cancelOnce (Cancel e h).2).
Proof. intros Hd. unfold runHandle_Cancel, cancel_once. rewrite Hd. destruct (h_cancelOnce h) eqn:E; cbn; [rewrite E|destruct (h_cancel h)]; cbn; lia. Qed.

Lemma act_used w a w' l :
  act w a w' -> handles_inv w -> cancel_used w l + cancels [a] l <= cancel_used w' l /\ events_used w l + handed [a] l <= events_used w' l.
Proof.
  intros Hact Hi. unfold cancel_used, events_used.
  destruct Hact as [w k id ch Hl Hid|w k c Hl Ht|w k c res err Hl Hd|w k c Hl Hd|w k c Hl Hd|w k c Hl Ht Hd|w k c e Hl
    |w k c off r h Hl He|w q id Hq|w q id ex r Hq Hs|w q id ex ph Hq Hs|w q id Hq];
    try (cbn; by rewrite ?Nat.add_0_r); unfold newAgentStream, awaitCompletion; rewrite set_cell_lookup;
    (destruct (decide (k = l)) as [->|Hne];
      [rewrite ?Hl
      |cbn [set_streams a_cells]; unfold cancels, handed; cbn [List.filter]; rewrite ?(proj2 (Nat.eqb_neq k l) Hne)]);
    try (repeat case_match; cbn; lia).
  - cbn -[cancel_once]. unfold mark_released. destruct (cancel_once_spec (sh_run (c_handle c))) as (_ & _ & _ & _ & _ & _ & _ & ->).
    destruct (h_cancelOnce _); cbn; lia.
  - cbn. unfold mark_closed. destruct (h_doneOnce _); cbn; lia.
  - destruct (hi_driver w Hi l c Hl) as (_ & Hd & _). pose proof (Cancel_once e (sh_run (c_handle c)) Hd) as Hc. unfold cancels, handed. cbn [List.filter with_handle on_run c_handle sh_run sh_eventsOnce].
    destruct (runHandle_Cancel _ _ _).1; cbn [length]; rewrite ?Nat.eqb_refl; cbn [length] in *; lia.
  - pose proof (Events_once _ _ _ _ He) as Hc. pose proof (Events_run _ _ _ _ He) as Hr. unfold cancels, handed.
    cbn [List.filter with_handle c_handle]. rewrite Hr. destruct r; rewrite ?Nat.eqb_refl; cbn [length]; lia.
Qed.

Lemma acts_used w tr w' l :
  acts w tr w' -> handles_inv w -> cancel_used w l + cancels tr l <= cancel_used w' l /\ events_used w l + handed tr l <= events_used w' l.
Proof.
  induction 1 as [w|w a w1 tr w2 Ha _ IH]; [cbn; lia|]. intros Hi. specialize (IH (act_inv _ _ _ Ha Hi)).
  apply (act_used _ _ _ l) in Ha; [|done].
  change (a :: tr) with ([a] ++ tr). unfold cancels, handed in *. rewrite !List.filter_app, !length_app. lia.
Qed.

Lemma done_finished w l c : handles_inv w -> a_cells w !! l = Some c -> cell_done c = true -> c_driver c = Finished.
Proof.
  intros Hi Hc Hd. destruct (hi_driver w Hi l c Hc) as (_ & _ & Hok). unfold cell_done in Hd. destruct (c_driver c); [..|done]; exfalso;
    rewrite Hd in Hok; destruct_and?; done.
Qed.

(** An action keeps a handle, and the outcome it has unless its goroutine stores it. *)
Lemma act_cell w a w' l c :
  act w a w' -> a_cells w !! l = Some c ->
  exists c', a_cells w' !! l = Some c' /\
    ((outcome_of c' = outcome_of c /\ (cell_done c = true -> cell_done c' = true) /\ (c_driver c' = Looping <-> c_driver c = Looping)) \/
     (c_driver c = Looping /\ exists res err, a = AStore l res err /\ outcome_of c' = (res, err, outcome_status err))).
Proof.
  intros Hact Hc.
  destruct Hact as [w k id ch Hl Hid|w k c0 Hl Ht|w k c0 res err Hl Hd|w k c0 Hl Hd|w k c0 Hl Hd|w k c0 Hl Ht Hd|w k c0 e Hl
    |w k c0 off r h Hl He|w q id Hq|w q id ex r Hq Hs|w q id ex ph Hq Hs|w q id Hq];
    try (exists c; cbn; by auto); unfold newAgentStream, awaitCompletion; rewrite set_cell_lookup;
    (destruct (decide (k = l)) as [->|Hne]; [|exists c; cbn; by auto]);
    (assert (c0 = c) as -> by congruence) || (exfalso; congruence); eexists; split; [done| |done| |done| |done| |done| |done| |done|];
    unfold outcome_of, cell_done; cbn -[cancel_once].
  - by left.
  - right. eauto.
  - left. unfold mark_released. destruct (cancel_once_spec (sh_run (c_handle c))) as (_ & -> & -> & -> & -> & _). by rewrite Hd.
  - left. unfold mark_closed. rewrite Hd. by destruct (h_doneOnce _).
  - by left.
  - left. rewrite Cancel_handle. by destruct (cancel_once_spec (sh_run (c_handle c))) as (_ & -> & -> & -> & -> & _).
  - left. by rewrite (Events_run _ _ _ _ He).
Qed.

Lemma acts_done w tr w' l c :
  acts w tr w' -> handles_inv w -> a_cells w !! l = Some c -> cell_done c = true ->
  exists c', a_cells w' !! l = Some c' /\ cell_done c' = true /\ outcome_of c' = outcome_of c.
Proof.
  intros Hs. revert c. induction Hs as [w|w a w1 tr w2 Ha _ IH]; intros c Hi Hc Hd; [by exists c|].
  destruct (act_cell _ _ _ _ _ Ha Hc) as (c1 & Hc1 & [(Ho & Hd1 & _)|(Hl & _)]);
    [|by rewrite (done_finished w l c) in Hl].
  destruct (IH c1) as (c2 & Hc2 & Hd2 & Ho2); [by eapply act_inv|done|auto|]. exists c2. by rewrite Ho2, Ho.
Qed.

(** The stored outcomes are those the goroutines supplied. *)
Definition outcomes_stored (w : handles) (tr : list action) : Prop :=
  forall l c, a_cells w !! l = Some c -> c_driver c <> Looping ->
    AStore l (h_res (sh_run (c_handle c))) (h_err (sh_run (c_handle c))) ∈ tr.

Lemma act_outcomes_stored w a w' tr : act w a w' -> outcomes_stored w tr -> outcomes_stored w' (tr ++ [a]).
Proof.
  intros Ha Hs l c' Hc' Hd'. rewrite elem_of_app, list_elem_of_singleton. destruct (a_cells w !! l) as [c|] eqn:Hc.
  - destruct (act_cell _ _ _ _ _ Ha Hc) as (c1 & Hc1 & Hcases). assert (c1 = c') as -> by congruence.
    destruct Hcases as [([= -> -> _] & _ & Hd)|(_ & res & err & -> & [= -> -> _])]; [left|by right]. apply Hs; [done|]. by rewrite <- Hd.
  - destruct Ha; try (cbn in Hc'; congruence); unfold newAgentStream, awaitCompletion in Hc'; rewrite set_cell_lookup in Hc';
      destruct (decide _) as [<-|]; try (cbn in Hc'; congruence). by injection Hc' as <-.
Qed.

Lemma acts_outcomes_stored w tr w' tr0 : acts w tr w' -> outcomes_stored w tr0 -> outcomes_stored w' (tr0 ++ tr).
Proof.
  intros Hs. revert tr0. induction Hs as [w|w a w1 tr w2 Ha _ IH]; intros tr0 H0; [by rewrite app_nil_r|].
  change (a :: tr) with ([a] ++ tr). rewrite app_assoc. by apply IH, (act_outcomes_stored w).
Qed.

Lemma outcome_terminal err : IsTerminal (outcome_status err) = true.
Proof. unfold outcome_status. destruct err; [|done]. by destruct (_ || _ || _). Qed.

(** With an engine, [Cancel] says what the engine says, however often it is asked; it releases
    the context in any case, and a run the engine has finished counts as completed. *)
Lemma Cancel_durable CancelRun h : h_durable h = true ->
  (Cancel CancelRun h).1 =
    match CancelRun with
    | Some err => Some (if already_finished err then sentinel_error ErrRunAlreadyCompleted else err)
    | None => None
    end /\
  h_cancelOnce (Cancel CancelRun h).2 = true /\
  (Cancel CancelRun (Cancel CancelRun h).2).1 = (Cancel CancelRun h).1.
Proof.
  intros Hd. destruct (cancel_once_spec h) as (_ & _ & _ & _ & _ & _ & Hd' & Ho). unfold runHandle_Cancel. rewrite Hd. cbn [fst snd].
  rewrite Hd', Hd. by split.
Qed.

(** *** Properties *)

(** C36: on a local runtime without a durable engine, along every interleaving, [Cancel] of a run's handle succeeds at
    most once and its event channel is handed out at most once; when [Done] is closed the handle shows the outcome its
    goroutine stored, with the status that outcome determines, [Cancel] and [Events] report that the run is over, and
    none of this ever changes. *)
Theorem handle_contract tr w l :
  acts no_handles tr w ->
  cancels tr l <= 1 /\ handed tr l <= 1 /\
  forall c, a_cells w !! l = Some c -> cell_done c = true ->
    exists res err, AStore l res err ∈ tr /\
    forall tr' w', acts w tr' w' ->
    exists c', a_cells w' !! l = Some c' /\
      (forall ctx_Err, runHandle_Get (sh_run (c_handle c')) ctx_Err = Some (res, err)) /\
      h_status (sh_run (c_handle c')) = outcome_status err /\
      (forall CancelRun, (Cancel CancelRun (sh_run (c_handle c'))).1 = Some (sentinel_error ErrRunAlreadyCompleted)) /\
      (streamHandle_Events (c_handle c') 0).1 = inl (sentinel_error ErrRunAlreadyCompleted).
Proof.
  intros Hs. pose proof (acts_inv _ _ _ Hs handles_inv_new) as Hi. destruct (acts_used _ _ _ l Hs handles_inv_new) as [H1 H2].
  assert (Hb : forall b, Nat.b2n b <= 1) by (intros []; cbn; lia).
  split; [|split].
  - unfold cancel_used in H1. cbn in H1. destruct (a_cells w !! l); [specialize (Hb (h_cancelOnce (sh_run (c_handle c))))|]; lia.
  - unfold events_used in H2. cbn in H2. destruct (a_cells w !! l); [specialize (Hb (sh_eventsOnce (c_handle c)))|]; lia.
  - intros c Hc Hd. exists (h_res (sh_run (c_handle c))), (h_err (sh_run (c_handle c))). split.
    { apply (acts_outcomes_stored no_handles tr w [] Hs); [intros ? ?; cbn; by rewrite lookup_empty|done|].
      by rewrite (done_finished w l c). }
    intros tr' w' Hs'. destruct (acts_done _ _ _ _ _ Hs' Hi Hc Hd) as (c' & Hc' & Hd' & [= E1 E2 E3]). exists c'. split; [done|].
    pose proof (acts_inv _ _ _ Hs' Hi) as Hi'. destruct (hi_driver w' Hi' l c' Hc') as (_ & Hdur & Hok).
    rewrite (done_finished w' l c') in Hok by done. destruct Hok as (Hst & Hco & _). unfold cell_done in Hd'.
    split; [intros ?; unfold runHandle_Get; by rewrite Hd', E1, E2|]. rewrite <- E2. split; [done|].
    unfold runHandle_Cancel, cancel_once, streamHandle_Events. rewrite Hdur, Hco, Hst, outcome_terminal. by split.
Qed.

(** whatever the interleaving, a reconnect to a run that is tracked and not done gets the handle of that run, a
    reconnect never answers with the handle of another run or of one that was done when it looked, and once the
    goroutines that wait for finished runs have run, the registry holds exactly the runs that are not done. *)
Theorem registry_tracks_live tr w :
  acts no_handles tr w ->
  (forall l c, a_cells w !! l = Some c -> c_tracking c = Waiting -> cell_done c = false ->
     GetAgentStream w (cell_id c) = (inr l, w)) /\
  (forall q id l w', act w (AAnswer q id (inr l)) w' ->
     exists c, a_cells w !! l = Some c /\ cell_id c = id /\ cell_done c = false) /\
  ((forall l w', ~ act w (AAwait l) w') -> forall id l,
     a_streams w !! id = Some l <->
     exists c, a_cells w !! l = Some c /\ cell_id c = id /\ c_tracking c = Waiting /\ cell_done c = false).
Proof.
  intros Hs. pose proof (acts_inv _ _ _ Hs handles_inv_new) as Hi. split; [|split].
  - intros l c Hc Ht Hd. unfold GetAgentStream, lookup_get, KV_Get, lookup_select. rewrite (hi_live w Hi l c Hc Ht Hd). by rewrite Hc, Hd.
  - intros q id l w' Hact. inversion Hact as [| | | | | | | | |? ? ? ex ? Hq Hsel| |]; subst.
    unfold lookup_select in Hsel. destruct ex as [k|]; [|done]. destruct (hi_got w Hi q id k Hq) as (c & Hc & Hid).
    rewrite Hc in Hsel. destruct (cell_done c) eqn:Hd; [done|]. injection Hsel as <-. by exists c.
  - intros Hquiet id l. split.
    + intros He. destruct (hi_entry w Hi id l He) as (c & Hc & Hid & Ht). exists c. split; [done|split; [done|split; [done|]]].
      destruct (cell_done c) eqn:Hd; [|done]. by destruct (Hquiet l (awaitCompletion w l c)); constructor.
    + intros (c & Hc & <- & Ht & Hd). by apply hi_live.
Qed.

End machine.

(** ** A run *)

(** The stream of run "r" is opened and its channel taken, a reconnect finds it while it runs, it is cancelled and ends,
    a second reconnect sees it done, and its entry is removed. *)
Definition sample_run : list action :=
  [AStart 0 "r"; ATrack 0; AEvents 0 (inr 7); ALookup 1 "r"; AAnswer 1 "r" (inr 0); ACancel 0 None;
   AStore 0 None (Some (sentinel_error ContextCanceled)); AEvents 0 (inl (sentinel_error ErrRunAlreadyCompleted)); ARelease 0; AClose 0;
   ALookup 2 "r"; ASelect 2; AAwait 0; AAnswer 2 "r" (inl (sentinel_error ErrRunAlreadyCompleted));
   ALookup 3 "r"; AAnswer 3 "r" (inl (sentinel_error ErrStreamNotFound))].

Definition no_cancel_error (e : error) : bool := false.

Lemma act_cancel_eq ic msg af w l c r :
  a_cells w !! l = Some c -> r = (runHandle_Cancel af None (sh_run (c_handle c))).1 ->
  act ic msg af w (ACancel l r)
    (set_cell w l (with_handle c (on_run (fun h => (runHandle_Cancel af None h).2) (c_handle c)) (c_driver c))).
Proof. intros Hc ->. by apply act_cancel. Qed.

Ltac next_act := eapply acts_cons; [first
  [ eapply (act_start _ _ _ _ _ _ (Some 7)); [reflexivity|intros ? ? E; vm_compute in E; discriminate E]
  | eapply act_track; reflexivity | eapply act_store; reflexivity | eapply act_release; reflexivity | eapply act_close; reflexivity
  | eapply act_await; reflexivity | eapply act_cancel_eq; reflexivity | eapply (act_events _ _ _ _ _ _ 0%Z); reflexivity
  | eapply act_lookup; reflexivity | eapply act_select; reflexivity | eapply act_delete; reflexivity | eapply act_answer; reflexivity ] |].

Lemma sample_acts :
  exists w c, acts no_cancel_error "run cancelled" no_cancel_error no_handles sample_run w /\ a_cells w !! 0 = Some c /\ cell_done c = true.
Proof.
  do 2 eexists. split; [unfold sample_run; do 16 next_act; apply acts_nil|]. split; vm_compute; reflexivity.
Qed.

Lemma handle_contract_witness :
  exists w, acts no_cancel_error "run cancelled" no_cancel_error no_handles sample_run w /\
    cancels sample_run 0 <= 1 /\ handed sample_run 0 <= 1 /\ exists res err, AStore 0 res err ∈ sample_run.
Proof.
  destruct sample_acts as (w & c & Hs & Hc & Hd). exists w. split; [exact Hs|].
  destruct (handle_contract no_cancel_error "run cancelled" no_cancel_error sample_run w 0 Hs) as (H1 & H2 & H3).
  split; [exact H1|]. split; [exact H2|]. destruct (H3 c Hc Hd) as (res & err & Hin & _). exists res, err. exact Hin.
Defined.

Lemma registry_tracks_live_witness :
  exists w, acts no_cancel_error "run cancelled" no_cancel_error no_handles sample_run w /\
    forall q id l w', act no_cancel_error "run cancelled" no_cancel_error w (AAnswer q id (inr l)) w' ->
      exists c, a_cells w !! l = Some c /\ cell_id c = id /\ cell_done c = false.
Proof.
  destruct sample_acts as (w & c & Hs & _). exists w. split; [exact Hs|].
  exact (proj1 (proj2 (registry_tracks_live no_cancel_error "run cancelled" no_cancel_error sample_run w Hs))).
Defined.
