(* ===== verification/EventLog.v ===== *)
(** The durable event log of a run and its reader ([internal/runtime/restate/event_log.go],
    [stream_handle.go]).

    The log is a virtual object of Restate: a key-value state of its own, whose exclusive
    handlers ([Publish], [Subscribe], [Clear]) run one after the other, while the shared
    handler [Pull] reads in between.  A read of the state can fail; [fault] says which key
    does in an invocation.  What the handlers tell other invocations (resolved and rejected
    awakeables) is output.  Writes are kept when a handler fails afterwards.

    The reader of a stream pulls in a loop; an iteration is a function of what it observes.
    The decoder of events is a parameter. *)
From S2P Require Import Prelude GoLib Types Sanitize.

#[local] Open Scope string_scope.
#[local] Open Scope list_scope.
#[local] Open Scope Z_scope.


Definition errAgentEventLogClearedMsg : string := "pubsub: agent event log already cleared".

Definition isAgentEventLogCleared (err : option error) : bool :=
  match err with
  | None => false
  | Some e => if errors_Is e ErrAgentEventLogCleared then true else Contains (err_msg e) errAgentEventLogClearedMsg
  end.

Definition pubsubMetaKey : string := "messagesMetadata".
Definition pubsubSubscriptionKey : string := "subscription".

Record pubsubMetadata := { Head : Z; Tail : Z }.
Record pubsubSubscription := { sub_Offset : Z; sub_ID : string }.
Record pubsubNotification := { NewOffset : Z; NewMessages : list string }.
Record PullRequest := { pq_Offset : option Z; pq_Wait : bool }.
Record PullResponse := { pr_Messages : list string; pr_NextOffset : Z }.

Definition messageKey (i : Z) : string := "m_" +:+ Itoa i.

(** ** The state of the object *)

Record event_log := {
  el_meta : option pubsubMetadata;
  el_messages : gmap string string;
  el_subs : list pubsubSubscription }.

Definition new_log : event_log := {| el_meta := None; el_messages := ∅; el_subs := [] |}.

Definition set_meta (st : event_log) (m : pubsubMetadata) : event_log :=
  {| el_meta := Some m; el_messages := el_messages st; el_subs := el_subs st |}.
Definition set_messages (st : event_log) (m : gmap string string) : event_log :=
  {| el_meta := el_meta st; el_messages := m; el_subs := el_subs st |}.
Definition set_subs_of (st : event_log) (subs : list pubsubSubscription) : event_log :=
  {| el_meta := el_meta st; el_messages := el_messages st; el_subs := subs |}.

(** [restatesdk.Get]: an absent key reads as the zero value. *)
Definition state_get {A} (fault : string -> option error) (key : string) (v : A) : result A :=
  match fault key with Some e => inl e | None => inr v end.

Definition read_message (fault : string -> option error) (st : event_log) (i : Z) : result string :=
  state_get fault (messageKey i) (default "" (el_messages st !! messageKey i)).

Definition zero_meta : pubsubMetadata := {| Head := 0; Tail := 0 |}.

Definition getMetadata (fault : string -> option error) (st : event_log) : result pubsubMetadata :=
  state_get fault pubsubMetaKey (default zero_meta (el_meta st)).

Definition getSubscriptions (fault : string -> option error) (st : event_log) : result (list pubsubSubscription) :=
  state_get fault pubsubSubscriptionKey (el_subs st).

(** The messages from [i], [n] of them, each read by [read]. *)
Fixpoint load_messages (read : Z -> result string) (i : Z) (n : nat) : result (list string) :=
  match n with
  | O => inr []
  | S n =>
      match read i with
      | inl e => inl e
      | inr msg =>
          if String.eqb msg "" then inl (errors_New ("pubsub: missing message at offset " +:+ Itoa i))
          else match load_messages read (i + 1) n with inl e => inl e | inr out => inr (msg :: out) end
      end
  end.

Definition loadMessagesInRange (read : Z -> result string) (fromIncluded toExcluded : Z) : result (list string) :=
  if toExcluded <=? fromIncluded then inr [] else load_messages read fromIncluded (Z.to_nat (toExcluded - fromIncluded)).

(** ** [Pull] *)

(** It answers, or subscribes and waits for messages from an offset. *)
Inductive pull_step := PullReturns (r : result PullResponse) | PullWaits (waitFrom : Z).

Definition cleared_at (waitFrom head : Z) : error :=
  {| err_msg := errAgentEventLogClearedMsg +:+ " (offset " +:+ Itoa waitFrom +:+ " < head " +:+ Itoa head +:+ ")";
     err_chain := [ErrAgentEventLogCleared]; err_budget := None |}.

(** The part without catch-up. *)
Definition pull_wait (req : PullRequest) (waitFrom : Z) : pull_step :=
  if negb (pq_Wait req) then PullReturns (inr {| pr_Messages := []; pr_NextOffset := waitFrom |}) else PullWaits waitFrom.

(** [meta] and [read] are its reads of the state, which other handlers can change in between. *)
Definition Pull (meta : result pubsubMetadata) (read : Z -> result string) (req : PullRequest) : pull_step :=
  match meta with
  | inl e => PullReturns (inl e)
  | inr meta =>
      match pq_Offset req with
      | None => pull_wait req (Tail meta)
      | Some waitFrom =>
          if waitFrom <? Head meta then PullReturns (inl (cleared_at waitFrom (Head meta)))
          else if waitFrom <? Tail meta then
            PullReturns
              (match loadMessagesInRange read waitFrom (Tail meta) with
               | inl e =>
                   if Contains (err_msg e) "missing message" then inl (sentinel_wrapping ErrAgentEventLogCleared e) else inl e
               | inr messages => inr {| pr_Messages := messages; pr_NextOffset := Tail meta |}
               end)
          else pull_wait req waitFrom
      end
  end.

(** What the wait ends with. *)
Inductive wait_first :=
| WaitFailed (e : error)
| TimedOut (e : option error)
| Notified (r : result pubsubNotification).

Definition pull_timeout : error := errors_New "pubsub: pull timeout".

Definition pull_awaited (first : wait_first) : result PullResponse :=
  match first with
  | WaitFailed e => inl e
  | TimedOut (Some e) => inl e
  | TimedOut None => inl pull_timeout
  | Notified (inl e) => inl e
  | Notified (inr note) => inr {| pr_Messages := NewMessages note; pr_NextOffset := NewOffset note |}
  end.

(** ** The exclusive handlers *)

Inductive output :=
| ResolveAwakeable (id : string) (note : pubsubNotification)
| RejectAwakeable (id : string) (e : error).

(** The subscribers are resolved one by one, until the load of one of them fails. *)
Fixpoint notify_all (read : Z -> result string) (tail : Z) (subs : list pubsubSubscription) : option error * list output :=
  match subs with
  | [] => (None, [])
  | sub :: subs =>
      match loadMessagesInRange read (sub_Offset sub) tail with
      | inl e => (Some e, [])
      | inr messages =>
          let '(err, outs) := notify_all read tail subs in
          (err, ResolveAwakeable (sub_ID sub) {| NewOffset := tail; NewMessages := messages |} :: outs)
      end
  end.

Definition Publish (fault : string -> option error) (st : event_log) (message : string) : option error * list output * event_log :=
  match getMetadata fault st with
  | inl e => (Some e, [], st)
  | inr meta =>
      let st := set_messages st (<[messageKey (Tail meta) := message]> (el_messages st)) in
      let meta := {| Head := Head meta; Tail := wrap64 (Tail meta + 1) |} in
      let st := set_meta st meta in
      match getSubscriptions fault st with
      | inl e => (Some e, [], st)
      | inr subs =>
          match notify_all (read_message fault st) (Tail meta) subs with
          | (Some e, outs) => (Some e, outs, st)
          | (None, outs) => (None, outs, set_subs_of st [])
          end
      end
  end.

Definition below_head (offset head : Z) : error :=
  errors_New ("pubsub: offset " +:+ Itoa offset +:+ " is lower than the head " +:+ Itoa head).

Definition Subscribe (fault : string -> option error) (st : event_log) (sub : pubsubSubscription)
    : option error * list output * event_log :=
  match getMetadata fault st with
  | inl e => (Some e, [], st)
  | inr meta =>
      if sub_Offset sub <? Head meta then (None, [RejectAwakeable (sub_ID sub) (below_head (sub_Offset sub) (Head meta))], st)
      else if sub_Offset sub <? Tail meta then
        match loadMessagesInRange (read_message fault st) (sub_Offset sub) (Tail meta) with
        | inl e => (Some e, [], st)
        | inr messages => (None, [ResolveAwakeable (sub_ID sub) {| NewOffset := Tail meta; NewMessages := messages |}], st)
        end
      else
        match getSubscriptions fault st with
        | inl e => (Some e, [], st)
        | inr subs => (None, [], set_subs_of st (subs ++ [sub]))
        end
  end.

(** The keys of the messages from [i], [n] of them, are cleared. *)
Fixpoint clear_messages (m : gmap string string) (i : Z) (n : nat) : gmap string string :=
  match n with O => m | S n => clear_messages (delete (messageKey i) m) (i + 1) n end.

Definition Clear (fault : string -> option error) (st : event_log) : option error * list output * event_log :=
  match getMetadata fault st with
  | inl e => (Some e, [], st)
  | inr meta =>
      if (Tail meta =? 0) && (Head meta =? 0) then (None, [], st)
      else
        let newHead := Tail meta in
        let st := set_messages st (clear_messages (el_messages st) (Head meta) (Z.to_nat (newHead - Head meta))) in
        let st := set_meta st {| Head := newHead; Tail := Tail meta |} in
        match getSubscriptions fault st with
        | inl e => (Some e, [], st)
        | inr subs =>
            let outs :=
              flat_map (fun sub => if sub_Offset sub <? newHead
                                   then [RejectAwakeable (sub_ID sub) (below_head (sub_Offset sub) newHead)] else []) subs in
            (None, outs, match subs with [] => st | _ => set_subs_of st [] end)
        end
  end.

(** ** Sequences of operations *)

Inductive log_op :=
| EPublish (message : string)
| ESubscribe (sub : pubsubSubscription)
| EClear
| EPull (req : PullRequest).

Inductive log_answer :=
| Handled (err : option error) (outs : list output)
| Pulled (r : pull_step).

Definition no_fault (key : string) : option error := None.

Definition handled (p : option error * list output * event_log) : log_answer * event_log := (Handled p.1.1 p.1.2, p.2).

Definition log_step (st : event_log) (o : log_op) : log_answer * event_log :=
  match o with
  | EPublish m => handled (Publish no_fault st m)
  | ESubscribe sub => handled (Subscribe no_fault st sub)
  | EClear => handled (Clear no_fault st)
  | EPull req => (Pulled (Pull (getMetadata no_fault st) (read_message no_fault st) req), st)
  end.

(** *** What the operations promise

    The messages published so far, how many of them were cleared, and who waits for more. *)
Record log_spec := { ls_log : list string; ls_head : nat; ls_subs : list pubsubSubscription }.

Definition spec_new : log_spec := {| ls_log := []; ls_head := 0; ls_subs := [] |}.

Definition len (l : list string) : Z := Z.of_nat (length l).
Definition from_offset (o : Z) (l : list string) : list string := drop (Z.to_nat o) l.

Definition resolve_with (l : list string) (sub : pubsubSubscription) : output :=
  ResolveAwakeable (sub_ID sub) {| NewOffset := len l; NewMessages := from_offset (sub_Offset sub) l |}.

Definition spec_pull (s : log_spec) (req : PullRequest) : pull_step :=
  match pq_Offset req with
  | None => pull_wait req (len (ls_log s))
  | Some o =>
      if o <? Z.of_nat (ls_head s) then PullReturns (inl (cleared_at o (Z.of_nat (ls_head s))))
      else if o <? len (ls_log s) then
        PullReturns (inr {| pr_Messages := from_offset o (ls_log s); pr_NextOffset := len (ls_log s) |})
      else pull_wait req o
  end.

Definition spec_step (s : log_spec) (o : log_op) : log_answer * log_spec :=
  match o with
  | EPublish m =>
      let log := ls_log s ++ [m] in
      (Handled None (map (resolve_with log) (ls_subs s)), {| ls_log := log; ls_head := ls_head s; ls_subs := [] |})
  | ESubscribe sub =>
      if sub_Offset sub <? Z.of_nat (ls_head s) then
        (Handled None [RejectAwakeable (sub_ID sub) (below_head (sub_Offset sub) (Z.of_nat (ls_head s)))], s)
      else if sub_Offset sub <? len (ls_log s) then (Handled None [resolve_with (ls_log s) sub], s)
      else (Handled None [], {| ls_log := ls_log s; ls_head := ls_head s; ls_subs := ls_subs s ++ [sub] |})
  | EClear =>
      (* nobody who waits is told *)
      (Handled None [],
       if Nat.eqb (length (ls_log s)) 0 then s else {| ls_log := ls_log s; ls_head := length (ls_log s); ls_subs := [] |})
  | EPull req => (Pulled (spec_pull s req), s)
  end.

(** Events are JSON texts, never empty. *)
Definition op_ok (o : log_op) : Prop := match o with EPublish m => m <> "" | _ => True end.

Record represents (st : event_log) (s : log_spec) : Prop := {
  rp_meta : default zero_meta (el_meta st) = {| Head := Z.of_nat (ls_head s); Tail := len (ls_log s) |};
  rp_head : (ls_head s <= length (ls_log s))%nat;
  rp_live i : (ls_head s <= i)%nat -> (i < length (ls_log s))%nat -> el_messages st !! messageKey (Z.of_nat i) = ls_log s !! i;
  rp_gone i : (i < ls_head s)%nat -> el_messages st !! messageKey (Z.of_nat i) = None;
  rp_texts : Forall (fun m => m <> "") (ls_log s);
  rp_subs : el_subs st = ls_subs s;
  rp_waiting : Forall (fun sub => len (ls_log s) <= sub_Offset sub) (ls_subs s) }.

Lemma represents_new : represents new_log spec_new.
Proof. constructor; cbn; try done; try lia; constructor. Qed.

Lemma messageKey_inj i j : messageKey i = messageKey j -> i = j.
Proof. unfold messageKey, Itoa. intros H. by do 2 apply (inj _) in H. Qed.

Lemma load_messages_spec read l i :
  Forall (fun m => m <> "") l -> (forall k x, l !! k = Some x -> read (i + Z.of_nat k) = inr x) ->
  load_messages read i (length l) = inr l.
Proof.
  revert i. induction l as [|x l IH]; intros i Hne Hr; [done|]. apply Forall_cons in Hne as [Hx Hne].
  cbn [length load_messages]. pose proof (Hr 0%nat x eq_refl) as H0. rewrite Z.add_0_r in H0. rewrite H0.
  apply String.eqb_neq in Hx. rewrite Hx, IH; [done|done|].
  intros k y Hk. rewrite <- (Hr (S k) y Hk). f_equal. lia.
Qed.

Lemma length_from_offset o l : 0 <= o <= len l -> Z.of_nat (length (from_offset o l)) = len l - o.
Proof. unfold from_offset, len. rewrite length_drop. lia. Qed.

Lemma load_range read (l : list string) o :
  Forall (fun m => m <> "") l -> 0 <= o ->
  (forall i x, l !! i = Some x -> o <= Z.of_nat i -> read (Z.of_nat i) = inr x) ->
  loadMessagesInRange read o (len l) = inr (from_offset o l).
Proof.
  intros Hne Ho Hr. unfold loadMessagesInRange. destruct (Z.leb_spec (len l) o) as [Hle|Hlt].
  - unfold from_offset. rewrite drop_ge; [done|unfold len in *; lia].
  - replace (Z.to_nat (len l - o)) with (length (from_offset o l)) by (pose proof (length_from_offset o l); lia).
    apply load_messages_spec; [by apply Forall_drop|]. intros k x Hk. unfold from_offset in Hk. rewrite lookup_drop in Hk.
    rewrite <- (Hr _ _ Hk) by lia. f_equal. lia.
Qed.

Lemma read_represented st s i x :
  represents st s -> ls_log s !! i = Some x -> (ls_head s <= i)%nat -> read_message no_fault st (Z.of_nat i) = inr x.
Proof.
  intros Hr Hx Hi. unfold read_message, state_get, no_fault. rewrite (rp_live st s Hr i Hi); [by rewrite Hx|].
  by apply lookup_lt_Some in Hx.
Qed.

Lemma load_represented st s o :
  represents st s -> Z.of_nat (ls_head s) <= o ->
  loadMessagesInRange (read_message no_fault st) o (len (ls_log s)) = inr (from_offset o (ls_log s)).
Proof.
  intros Hr Ho. apply load_range; [apply Hr|lia|]. intros i x Hx Hi. apply (read_represented st s); [done|done|lia].
Qed.

Lemma notify_all_represented st s subs :
  represents st s -> Forall (fun sub => Z.of_nat (ls_head s) <= sub_Offset sub) subs ->
  notify_all (read_message no_fault st) (len (ls_log s)) subs = (None, map (resolve_with (ls_log s)) subs).
Proof.
  intros Hr. induction 1 as [|sub subs Hs _ IH]; [done|]. cbn [notify_all map]. by rewrite (load_represented st s), IH.
Qed.

Lemma clear_messages_lookup m i n j :
  clear_messages m (Z.of_nat i) n !! messageKey (Z.of_nat j) =
  if decide (i <= j < i + n)%nat then None else m !! messageKey (Z.of_nat j).
Proof.
  revert m i. induction n as [|n IH]; intros m i; cbn [clear_messages]; [rewrite decide_False by lia; done|].
  replace (Z.of_nat i + 1) with (Z.of_nat (S i)) by lia. rewrite IH.
  destruct (decide (S i <= j < S i + n)%nat); [by rewrite decide_True by lia|].
  destruct (decide (i = j)) as [->|Hne]; [rewrite decide_True by lia; apply lookup_delete_eq|].
  rewrite decide_False by lia. apply lookup_delete_ne. intros E%messageKey_inj. lia.
Qed.

Lemma represents_publish st s m st1 :
  represents st s -> m <> "" ->
  el_meta st1 = Some {| Head := Z.of_nat (ls_head s); Tail := len (ls_log s ++ [m]) |} ->
  el_messages st1 = <[messageKey (len (ls_log s)) := m]> (el_messages st) -> el_subs st1 = [] ->
  represents st1 {| ls_log := ls_log s ++ [m]; ls_head := ls_head s; ls_subs := [] |}.
Proof.
  intros Hr Hm E1 E2 E3. pose proof (rp_head st s Hr) as Hh. constructor; cbn; rewrite ?length_app; cbn [length]; try lia; try done.
  - by rewrite E1.
  - intros i Hi Hlt. rewrite E2. unfold len. destruct (decide (i = length (ls_log s))) as [->|Hne].
    + by rewrite lookup_insert_eq, lookup_app_r, Nat.sub_diag by lia.
    + rewrite lookup_insert_ne by (intros E%messageKey_inj; lia). rewrite lookup_app_l by lia. apply Hr; lia.
  - intros i Hi. rewrite E2. unfold len. rewrite lookup_insert_ne by (intros E%messageKey_inj; lia). by apply Hr.
  - apply Forall_app. split; [apply Hr|by constructor].
Qed.

Lemma publish_step st s m :
  represents st s -> m <> "" -> len (ls_log s) < max_int64 ->
  (log_step st (EPublish m)).1 = (spec_step s (EPublish m)).1 /\
  represents (log_step st (EPublish m)).2 (spec_step s (EPublish m)).2.
Proof.
  intros Hr Hm Hb. pose proof (rp_head st s Hr) as Hh.
  assert (Hw : wrap64 (len (ls_log s) + 1) = len (ls_log s ++ [m])).
  { unfold len in *. rewrite length_app. cbn [length]. rewrite wrap64_id; [lia|]. unfold in64, min_int64, max_int64 in *. lia. }
  cbn [log_step spec_step fst snd]. unfold handled, Publish, getMetadata, getSubscriptions, state_get, no_fault.
  rewrite (rp_meta st s Hr). cbn [Head Tail el_subs set_meta set_messages]. rewrite (rp_subs st s Hr), Hw.
  set (st1 := set_meta _ _). set (s1 := {| ls_log := ls_log s ++ [m]; ls_head := ls_head s; ls_subs := [] |}).
  assert (Hr1 : represents (set_subs_of st1 []) s1) by (by apply (represents_publish st)).
  pose proof (notify_all_represented (set_subs_of st1 []) s1 (ls_subs s) Hr1) as Hn. cbn [ls_log ls_head s1] in Hn.
  change (read_message no_fault (set_subs_of st1 [])) with (read_message no_fault st1) in Hn.
  change (read_message (fun _ => None) st1) with (read_message no_fault st1). rewrite Hn; [done|].
  eapply Forall_impl; [apply (rp_waiting st s Hr)|]. intros sub Hs. unfold len in Hs. lia.
Qed.

Lemma log_clear_step st s :
  represents st s ->
  (log_step st EClear).1 = (spec_step s EClear).1 /\ represents (log_step st EClear).2 (spec_step s EClear).2.
Proof.
  intros Hr. pose proof (rp_head st s Hr) as Hh.
  cbn [log_step spec_step]. unfold handled, Clear, getMetadata, getSubscriptions, state_get, no_fault.
  rewrite (rp_meta st s Hr). cbn [Head Tail fst snd].
  destruct (Nat.eqb_spec (length (ls_log s)) 0) as [H0|H0].
  { assert ((len (ls_log s) =? 0) && (Z.of_nat (ls_head s) =? 0) = true) as ->; [|done].
    unfold len. rewrite H0. cbn. apply Z.eqb_eq. lia. }
  assert ((len (ls_log s) =? 0) = false) as -> by (apply Z.eqb_neq; unfold len; lia). cbn [andb].
  cbn [el_subs set_meta set_messages]. rewrite (rp_subs st s Hr). split.
  - cbn [fst snd]. f_equal. pose proof (rp_waiting st s Hr) as Hw. induction Hw as [|sub subs Hs _ IH]; [done|]. cbn [flat_map].
    apply Z.ltb_ge in Hs. by rewrite Hs.
  - set (st1 := set_meta _ _). set (s1 := {| ls_log := ls_log s; ls_head := length (ls_log s); ls_subs := [] |}).
    assert (Hr1 : represents (set_subs_of st1 []) s1).
    { constructor; cbn; try done; try lia; try apply Hr.
      intros i Hi. replace (Z.to_nat (len (ls_log s) - Z.of_nat (ls_head s))) with (length (ls_log s) - ls_head s)%nat
        by (unfold len; lia). rewrite clear_messages_lookup. destruct (decide _) as [|Hn]; [done|]. apply Hr. lia. }
    cbn [snd]. destruct (ls_subs s) eqn:E; [|done].
    replace st1 with (set_subs_of st1 []); [done|]. unfold st1, set_subs_of, set_meta, set_messages. cbn.
    by rewrite (rp_subs st s Hr), E.
Qed.

Lemma subscribe_step st s sub :
  represents st s ->
  (log_step st (ESubscribe sub)).1 = (spec_step s (ESubscribe sub)).1 /\
  represents (log_step st (ESubscribe sub)).2 (spec_step s (ESubscribe sub)).2.
Proof.
  intros Hr. pose proof (rp_head st s Hr) as Hh.
  cbn [log_step spec_step]. unfold handled, Subscribe, getMetadata, getSubscriptions, state_get.
  cbn [no_fault]. rewrite (rp_meta st s Hr). cbn [Head Tail].
  destruct (Z.ltb_spec (sub_Offset sub) (Z.of_nat (ls_head s))) as [|H1]; [done|].
  destruct (Z.ltb_spec (sub_Offset sub) (len (ls_log s))) as [|H2]; [by rewrite (load_represented st s)|].
  cbn [fst snd]. split; [done|]. destruct Hr. constructor; cbn; try done; [by f_equal|].
  apply Forall_app. split; [done|by constructor].
Qed.

Lemma pull_represented st s req :
  represents st s -> Pull (getMetadata no_fault st) (read_message no_fault st) req = spec_pull s req.
Proof.
  intros Hr. unfold Pull, getMetadata, state_get. cbn [no_fault]. rewrite (rp_meta st s Hr). unfold spec_pull.
  destruct (pq_Offset req) as [o|]; [|done]. cbn [Head Tail].
  destruct (Z.ltb_spec o (Z.of_nat (ls_head s))); [done|]. destruct (o <? len (ls_log s)); [|done].
  by rewrite (load_represented st s).
Qed.

Lemma log_step_refines st s o :
  represents st s -> op_ok o -> len (ls_log s) < max_int64 ->
  (log_step st o).1 = (spec_step s o).1 /\ represents (log_step st o).2 (spec_step s o).2.
Proof.
  intros Hr Ho Hb. destruct o as [m|sub| |req]; [by apply publish_step|by apply subscribe_step|by apply log_clear_step|].
  cbn [log_step spec_step fst snd]. by rewrite (pull_represented st s).
Qed.

Lemma spec_grows s o : (length (ls_log (spec_step s o).2) <= S (length (ls_log s)))%nat.
Proof. destruct o; cbn; repeat case_match; cbn; rewrite ?length_app; cbn; lia. Qed.

Lemma log_refines st s os :
  represents st s -> Forall op_ok os -> len (ls_log s) + Z.of_nat (length os) <= max_int64 ->
  (run_ops log_step st os).1 = (run_ops spec_step s os).1 /\
  represents (run_ops log_step st os).2 (run_ops spec_step s os).2.
Proof.
  revert st s. induction os as [|o os IH]; intros st s Hr Ho Hb; [done|]. apply Forall_cons in Ho as [Ho Hos].
  cbn [run_ops fst snd length] in *. pose proof (spec_grows s o) as Hg. unfold len in *.
  destruct (log_step_refines st s o Hr Ho) as [-> Hr1]; [unfold len; lia|].
  destruct (IH _ _ Hr1 Hos) as [-> ?]; [lia|done].
Qed.

Definition published (os : list log_op) : list string := omap (fun o => match o with EPublish m => Some m | _ => None end) os.

Lemma spec_run_log s os :
  let s' := (run_ops spec_step s os).2 in ls_log s' = ls_log s ++ published os /\ (ls_head s <= ls_head s')%nat \/ (ls_head s > length (ls_log s))%nat.
Proof.
  cbv zeta. revert s. induction os as [|o os IH]; intros s; [left; by rewrite app_nil_r|].
  destruct (decide (ls_head s <= length (ls_log s))%nat) as [Hle|]; [|right; lia]. cbn [run_ops snd].
  assert (ls_log (spec_step s o).2 = ls_log s ++ published [o] /\ (ls_head s <= ls_head (spec_step s o).2)%nat /\
          (ls_head (spec_step s o).2 <= length (ls_log (spec_step s o).2))%nat) as (H1 & H2 & H3).
  { destruct o; cbn; repeat case_match; cbn; rewrite ?app_nil_r, ?length_app; cbn; split; try done; lia. }
  destruct (IH (spec_step s o).2) as [[H4 H5]|]; [|lia]. left. rewrite H4, H1, <- app_assoc. split; [|lia]. f_equal.
  unfold published. by rewrite <- omap_app.
Qed.

Lemma represented_log st s os :
  represents st s -> let s' := (run_ops spec_step s os).2 in
  ls_log s' = ls_log s ++ published os /\ (ls_head s <= ls_head s')%nat.
Proof. intros Hr. pose proof (rp_head st s Hr). destruct (spec_run_log s os) as [|]; [done|lia]. Qed.

(** A message read later is still there, or has been cleared. *)
Lemma later_read st s os i x :
  represents st s -> Forall op_ok os -> len (ls_log s) + Z.of_nat (length os) <= max_int64 -> ls_log s !! i = Some x ->
  read_message no_fault (run_ops log_step st os).2 (Z.of_nat i) = inr x \/
  read_message no_fault (run_ops log_step st os).2 (Z.of_nat i) = inr "".
Proof.
  intros Hr Ho Hb Hx. destruct (log_refines st s os Hr Ho Hb) as [_ Hr']. destruct (represented_log st s os Hr) as [Hl _].
  set (s' := (run_ops spec_step s os).2) in *. destruct (decide (ls_head s' <= i)%nat) as [Hle|Hlt].
  - left. apply (read_represented _ s'); [done| |done]. rewrite Hl. by apply lookup_app_l_Some.
  - right. unfold read_message, state_get, no_fault. by rewrite (rp_gone _ s' Hr' i) by lia.
Qed.

Lemma missing_reported i : Contains ("pubsub: missing message at offset " +:+ Itoa i) "missing message" = true.
Proof.
  unfold Contains. apply bytes_contains_spec. exists (to_bytes "pubsub: "), (to_bytes " at offset " ++ to_bytes (Itoa i)).
  change ("pubsub: missing message at offset ") with ("pubsub: " +:+ "missing message" +:+ " at offset ").
  by rewrite !to_bytes_app, <- !app_assoc.
Qed.

Lemma load_exact_or_missing read l i :
  Forall (fun m => m <> "") l -> (forall k x, l !! k = Some x -> read (i + Z.of_nat k) = inr x \/ read (i + Z.of_nat k) = inr "") ->
  load_messages read i (length l) = inr l \/
  exists e, load_messages read i (length l) = inl e /\ Contains (err_msg e) "missing message" = true.
Proof.
  revert i. induction l as [|x l IH]; intros i Hne Hr; [by left|]. apply Forall_cons in Hne as [Hx Hne].
  cbn [length load_messages]. pose proof (Hr 0%nat x eq_refl) as H0. rewrite Z.add_0_r in H0.
  assert (Hmiss : exists e, inl (errors_New ("pubsub: missing message at offset " +:+ Itoa i)) = inl (B := list string) e /\
            Contains (err_msg e) "missing message" = true) by (eexists; split; [done|apply missing_reported]).
  destruct H0 as [-> | ->]; [|by right]. apply String.eqb_neq in Hx. rewrite Hx.
  destruct (IH (i + 1) Hne) as [-> | (e & -> & He)]; [|by left|right; by exists e].
  intros k y Hk. replace (i + 1 + Z.of_nat k) with (i + Z.of_nat (S k)) by lia. by apply Hr.
Qed.

(** ** The reader of a stream ([streamHandle.runPullLoop]) *)

Section reader.
Context {Ev : Type} (EventFromJSON : string -> result (option Ev)).

(** The select that sends an event: it is sent; or the context is done and, when the run is done, the
    event is still sent or dropped because the buffer is full. *)
Inductive send_outcome := SentNow | CancelledSent | CancelledFull.

(** The messages of a batch; [msgOffset] is attached to the events.  The flag says whether to go on. *)
Fixpoint deliver_batch (runDone : bool) (sends : nat -> send_outcome) (k : nat) (msgOffset : Z) (raws : list string)
    : list (Z * Ev) * bool :=
  match raws with
  | [] => ([], true)
  | raw :: raws =>
      let rest := deliver_batch runDone sends (S k) (wrap64 (msgOffset + 1)) raws in
      match EventFromJSON raw with
      | inl _ | inr None => rest
      | inr (Some ev) =>
          match sends k with
          | SentNow => ((msgOffset, ev) :: rest.1, rest.2)
          | CancelledSent => if negb runDone then ([], false) else ((msgOffset, ev) :: rest.1, rest.2)
          | CancelledFull => if negb runDone then ([], false) else rest
          end
      end
  end.

(** What one iteration observes: whether the run is done and the context ended, the answer of the pull,
    whether the context has ended by then, how the sends go, whether it ends during the pause. *)
Record peek := {
  pk_runDone : bool;
  pk_cancelled : bool;
  pk_resp : result PullResponse;
  pk_cancelled_after : bool;
  pk_sends : nat -> send_outcome;
  pk_wait_cancelled : bool }.

Inductive next := Exit (terminal : bool) | Continue (offset emptyAfterDone : Z).

Definition pubsubDrainEmptyPeeks : Z := 3.

Definition pull_iteration (offset emptyAfterDone : Z) (pk : peek) : list (Z * Ev) * next :=
  if pk_cancelled pk && negb (pk_runDone pk) then ([], Exit false)
  else
    match pk_resp pk with
    | inl err =>
        ([], if pk_cancelled_after pk && negb (pk_runDone pk) then Exit false
             else if isAgentEventLogCleared (Some err) then Exit true else Exit true)
    | inr resp =>
        let offset := pr_NextOffset resp in
        match pr_Messages resp with
        | [] =>
            ([], if pk_runDone pk then
                   let emptyAfterDone := emptyAfterDone + 1 in
                   if pubsubDrainEmptyPeeks <=? emptyAfterDone then Exit true
                   else if pk_wait_cancelled pk then Exit true else Continue offset emptyAfterDone
                 else if pk_wait_cancelled pk then Exit false else Continue offset emptyAfterDone)
        | raws =>
            let '(sent, go_on) := deliver_batch (pk_runDone pk) (pk_sends pk) 0 offset raws in
            (sent, if go_on then Continue offset 0 else Exit false)
        end
    end.

(** The events sent, and how the loop ended; [None] when it goes on after these iterations. *)
Fixpoint runPullLoop (offset emptyAfterDone : Z) (pks : list peek) : list (Z * Ev) * option bool :=
  match pks with
  | [] => ([], None)
  | pk :: pks =>
      match pull_iteration offset emptyAfterDone pk with
      | (sent, Exit b) => (sent, Some b)
      | (sent, Continue offset emptyAfterDone) =>
          let rest := runPullLoop offset emptyAfterDone pks in (sent ++ rest.1, rest.2)
      end
  end.

(** *** Reading an uncleared log with a consumer that stays *)

Definition decoded (raws : list string) : list Ev := omap (fun raw => match EventFromJSON raw with inr (Some ev) => Some ev | _ => None end) raws.

(** The pull is answered by the log as far as it was written then; all of it once the run is done. *)
Definition served (log : list string) (offset : Z) (pk : peek) : Prop :=
  pk_cancelled pk = false /\ pk_wait_cancelled pk = false /\ (forall k, pk_sends pk k = SentNow) /\
  exists t, (t <= length log)%nat /\ (pk_runDone pk = true -> t = length log) /\
    spec_pull {| ls_log := take t log; ls_head := 0; ls_subs := [] |} {| pq_Offset := Some offset; pq_Wait := false |}
    = PullReturns (pk_resp pk).

Fixpoint all_served (log : list string) (offset emptyAfterDone : Z) (pks : list peek) : Prop :=
  match pks with
  | [] => True
  | pk :: pks =>
      served log offset pk /\
      match pull_iteration offset emptyAfterDone pk with
      | (_, Exit _) => True
      | (_, Continue offset emptyAfterDone) => all_served log offset emptyAfterDone pks
      end
  end.

Lemma deliver_all runDone sends k o raws :
  (forall k, sends k = SentNow) ->
  (deliver_batch runDone sends k o raws).2 = true /\ map snd (deliver_batch runDone sends k o raws).1 = decoded raws.
Proof.
  intros Hs. revert k o. induction raws as [|raw raws IH]; intros k o; [done|]. cbn [deliver_batch]. unfold decoded. cbn [omap list_omap].
  destruct (IH (S k) (wrap64 (o + 1))) as [H1 H2]. destruct (EventFromJSON raw) as [e|[ev|]]; try done.
  rewrite Hs. cbn [fst snd map]. by rewrite H2.
Qed.

Lemma iteration_served log o n pk :
  0 <= o -> served log o pk ->
  (exists t, o < Z.of_nat t /\ (t <= length log)%nat /\ (pk_runDone pk = true -> t = length log) /\
     let raws := from_offset o (take t log) in
     pull_iteration o n pk = ((deliver_batch (pk_runDone pk) (pk_sends pk) 0 (Z.of_nat t) raws).1, Continue (Z.of_nat t) 0) /\
     map snd (deliver_batch (pk_runDone pk) (pk_sends pk) 0 (Z.of_nat t) raws).1 = decoded raws) \/
  ((pk_runDone pk = true -> len log <= o) /\
   pull_iteration o n pk =
     ([], if pk_runDone pk then if pubsubDrainEmptyPeeks <=? n + 1 then Exit true else Continue o (n + 1) else Continue o n)).
Proof.
  intros Ho (Hc & Hw & Hs & t & Ht & Hd & Hp). unfold spec_pull in Hp. cbn [pq_Offset ls_head ls_log] in Hp.
  destruct (Z.ltb_spec o (Z.of_nat 0)); [lia|]. unfold len in Hp. rewrite length_take in Hp. rewrite (Nat.min_l t) in Hp by lia.
  unfold pull_iteration. rewrite Hc, Hw. cbn [andb].
  destruct (Z.ltb_spec o (Z.of_nat t)) as [Hlt|Hge].
  - left. exists t. split; [done|split; [done|split; [done|]]]. cbv zeta. injection Hp as <-. cbn [pr_NextOffset pr_Messages].
    destruct (deliver_all (pk_runDone pk) (pk_sends pk) 0 (Z.of_nat t) (from_offset o (take t log)) Hs) as [H1 H2].
    assert (Hn : length (from_offset o (take t log)) <> 0%nat) by (unfold from_offset; rewrite length_drop, length_take; lia).
    destruct (from_offset o (take t log)) as [|raw raws]; [done|]. split; [|done].
    destruct (deliver_batch _ _ _ _ _) as [sent b]. cbn in H1. by subst b.
  - right. split; [intros Hrd; rewrite (Hd Hrd) in Hge; exact Hge|]. injection Hp as <-. cbn [pr_Messages pr_NextOffset].
    destruct (pk_runDone pk); [|done]. by destruct (pubsubDrainEmptyPeeks <=? n + 1).
Qed.

Lemma from_offset_split (o : Z) t (log : list string) :
  0 <= o < Z.of_nat t -> from_offset o log = from_offset o (take t log) ++ from_offset (Z.of_nat t) log.
Proof.
  intros Ho. unfold from_offset. rewrite Nat2Z.id. rewrite <- (take_drop t log) at 1.
  destruct (decide (t <= length log)%nat).
  - rewrite drop_app_le; [done|]. rewrite length_take. lia.
  - rewrite (drop_ge log t) by lia. by rewrite !app_nil_r.
Qed.

Lemma loop_delivers log o n pks :
  0 <= o -> all_served log o n pks ->
  let r := runPullLoop o n pks in
  map snd r.1 `prefix_of` decoded (from_offset o log) /\
  (forall b, r.2 = Some b -> b = true /\ map snd r.1 = decoded (from_offset o log)).
Proof.
  cbv zeta. revert o n. induction pks as [|pk pks IH]; intros o n Ho Hall; [split; [apply prefix_nil|done]|].
  destruct Hall as [Hs Hall]. cbn [runPullLoop].
  destruct (iteration_served log o n pk Ho Hs) as [(t & Ht & Hlen & Hd & E & Hm)|[Hd E]]; rewrite E in *.
  - destruct (IH (Z.of_nat t) 0) as [H1 H2]; [lia|done|]. cbn [fst snd]. rewrite map_app, Hm.
    rewrite (from_offset_split o t log) by lia. unfold decoded in *. rewrite omap_app. split; [by apply prefix_app|].
    intros b Hb. destruct (H2 b Hb) as [-> H3]. by rewrite H3.
  - destruct (pk_runDone pk) eqn:Hrd; [|by apply (IH o n)]. destruct (pubsubDrainEmptyPeeks <=? n + 1); [|by apply (IH o (n + 1))].
    cbn [fst snd map]. split; [apply prefix_nil|]. intros b [= <-]. split; [done|].
    unfold from_offset. rewrite drop_ge; [done|]. specialize (Hd eq_refl). unfold len in Hd. lia.
Qed.

(** Once the run is done, three empty answers end the loop. *)
Lemma loop_drains log o n pks :
  0 <= o -> 0 <= n -> len log <= o -> all_served log o n pks -> Forall (fun pk => pk_runDone pk = true) pks ->
  pubsubDrainEmptyPeeks - n <= Z.of_nat (length pks) -> (0 < length pks)%nat -> (runPullLoop o n pks).2 = Some true.
Proof.
  intros Ho. revert n. induction pks as [|pk pks IH]; intros n Hn Hlen Hall Hd Hk Hpos; [cbn in Hpos; lia|].
  destruct Hall as [Hs Hall]. apply Forall_cons in Hd as [Hrd Hd]. cbn [runPullLoop].
  destruct (iteration_served log o n pk Ho Hs) as [(t & Ht & Ht' & _)|[_ E]]; [unfold len in Hlen; lia|]. rewrite E in *. rewrite Hrd in *.
  destruct (Z.leb_spec pubsubDrainEmptyPeeks (n + 1)) as [|Hlt]; [done|]. cbn [snd]. cbn [length] in Hk. unfold pubsubDrainEmptyPeeks in *.
  apply IH; [lia|done|done|done|lia|lia].
Qed.

Lemma loop_ends log o pks :
  0 <= o -> all_served log o 0 pks -> Forall (fun pk => pk_runDone pk = true) pks -> (4 <= length pks)%nat ->
  (runPullLoop o 0 pks).2 = Some true.
Proof.
  intros Ho Hall Hd Hk. destruct pks as [|pk pks]; [cbn in Hk; lia|].
  destruct (decide (len log <= o)) as [Hle|Hlt].
  { apply (loop_drains log); try done; unfold pubsubDrainEmptyPeeks; lia. }
  destruct Hall as [Hs Hall]. apply Forall_cons in Hd as [Hrd Hd]. cbn [runPullLoop]. cbn [length] in Hk.
  destruct (iteration_served log o 0 pk Ho Hs) as [(t & Ht & Ht' & Htd & E & _)|[Hge E]]; [|by destruct Hlt; apply Hge].
  rewrite E in *. cbn [snd]. apply (loop_drains log); try done; try lia.
  - rewrite (Htd Hrd). unfold len. lia.
  - unfold pubsubDrainEmptyPeeks. lia.
Qed.

(** The offsets attached to the events of a batch count from its end. *)
Lemma attached_offsets runDone sends k o raws :
  (forall k, sends k = SentNow) -> (forall raw, raw ∈ raws -> exists ev, EventFromJSON raw = inr (Some ev)) ->
  0 <= o -> o + Z.of_nat (length raws) <= max_int64 ->
  (deliver_batch runDone sends k o raws).1 = imap (fun i ev => (o + Z.of_nat i, ev)) (decoded raws).
Proof.
  intros Hs. revert k o. induction raws as [|raw raws IH]; intros k o Hd Ho Hb; [done|]. cbn [deliver_batch length] in *.
  destruct (Hd raw) as [ev Hev]; [by left|]. unfold decoded. cbn [omap list_omap]. rewrite Hev, Hs. cbn [fst].
  rewrite wrap64_id by (unfold in64, min_int64, max_int64 in *; lia). rewrite IH; [|by intros r Hr; apply Hd; right|lia|lia].
  rewrite imap_cons. cbn. rewrite Z.add_0_r. f_equal. apply imap_ext. intros i x _. cbn. f_equal. lia.
Qed.

Lemma decoded_all raws evs : Forall2 (fun raw ev => EventFromJSON raw = inr (Some ev)) raws evs -> decoded raws = evs.
Proof. unfold decoded. induction 1 as [|raw ev raws evs H _ IH]; [done|]. cbn [omap list_omap]. by rewrite H, IH. Qed.

Lemma decoded_window raws (o : Z) t :
  (forall raw, raw ∈ raws -> exists ev, EventFromJSON raw = inr (Some ev)) ->
  decoded (from_offset o (take t raws)) = drop (Z.to_nat o) (take t (decoded raws)) /\ length (decoded raws) = length raws.
Proof.
  intros Hd. assert (exists evs, Forall2 (fun raw ev => EventFromJSON raw = inr (Some ev)) raws evs) as [evs Hevs].
  { induction raws as [|raw raws IH]; [by exists []|]. destruct (Hd raw) as [ev Hev]; [by left|].
    destruct IH as [evs Hevs]; [intros r Hr; apply Hd; by right|]. exists (ev :: evs). by constructor. }
  rewrite (decoded_all raws evs Hevs). split; [by apply decoded_all, Forall2_drop, Forall2_take|].
  symmetry. by eapply Forall2_length.
Qed.

(** The events of the batch from [o] up to [t] and the offsets attached to them. *)
Lemma batch_offsets runDone sends (log : list string) o t :
  (forall k, sends k = SentNow) -> (forall raw, raw ∈ log -> exists ev, EventFromJSON raw = inr (Some ev)) ->
  0 <= o -> (t <= length log)%nat -> 2 * len log <= max_int64 ->
  (deliver_batch runDone sends 0 (Z.of_nat t) (from_offset o (take t log))).1
  = imap (fun i ev => (Z.of_nat t + Z.of_nat i, ev)) (drop (Z.to_nat o) (take t (decoded log))).
Proof.
  intros Hs Hd Ho Ht Hb. unfold len in Hb. rewrite attached_offsets; [|done| |lia|].
  - by rewrite (proj1 (decoded_window log o t Hd)).
  - intros raw Hraw. apply Hd. unfold from_offset in Hraw. apply list_elem_of_lookup in Hraw as [i Hi].
    rewrite lookup_drop in Hi. apply lookup_take_Some in Hi as [Hi _]. by apply list_elem_of_lookup_2 in Hi.
  - unfold from_offset. rewrite length_drop, length_take. lia.
Qed.

End reader.

(** ** The properties *)

(** C39: whatever sequence of handlers the log of a run serves, each answers what the list of the published messages
    answers: publishing appends and wakes exactly those who wait, with all messages from their offset; pulling returns
    the messages from an offset, or that they were cleared; clearing forgets the messages and, without telling them,
    those who wait. *)
Theorem event_log_refines os :
  Forall op_ok os -> Z.of_nat (length os) <= max_int64 ->
  (run_ops log_step new_log os).1 = (run_ops spec_step spec_new os).1.
Proof. intros Ho Hb. by apply (log_refines new_log spec_new). Qed.

(** a [Pull] whose reads are interleaved with other handlers, one read of the state at a time, answers with
    exactly the messages that were published when it started, from its offset on, or with the error that ends a stream. *)
Theorem pull_exact_or_cleared os (later : Z -> list log_op) o w :
  Forall op_ok os -> (forall i, Forall op_ok (later i)) -> (forall i, Z.of_nat (length os + length (later i)) <= max_int64) ->
  0 <= o < len (published os) ->
  let st := (run_ops log_step new_log os).2 in
  let r := Pull (getMetadata no_fault st) (fun i => read_message no_fault (run_ops log_step st (later i)).2 i)
             {| pq_Offset := Some o; pq_Wait := w |} in
  r = PullReturns (inr {| pr_Messages := from_offset o (published os); pr_NextOffset := len (published os) |}) \/
  exists e, r = PullReturns (inl e) /\ isAgentEventLogCleared (Some e) = true.
Proof.
  intros Ho Hl Hb Hrange st r. specialize (Hb 0) as Hb0.
  destruct (log_refines new_log spec_new os represents_new Ho) as [_ Hr]; [unfold len; cbn [spec_new ls_log length]; lia|].
  destruct (represented_log new_log spec_new os represents_new) as [Hlog _]. cbn [spec_new ls_log] in Hlog. rewrite app_nil_l in Hlog.
  set (s := (run_ops spec_step spec_new os).2) in *. fold st in Hr. unfold r, Pull, getMetadata, state_get. cbn [no_fault].
  rewrite (rp_meta st s Hr). cbn [pq_Offset Head Tail]. rewrite Hlog.
  destruct (Z.ltb_spec o (Z.of_nat (ls_head s))); [right; by eexists|].
  rewrite (proj2 (Z.ltb_lt _ _)) by lia. unfold loadMessagesInRange. rewrite (proj2 (Z.leb_gt _ _)) by lia.
  pose proof (length_from_offset o (published os)) as Hlen.
  replace (Z.to_nat (len (published os) - o)) with (length (from_offset o (published os))) by lia.
  assert (Hpub : (length (published os) <= length os)%nat).
  { clear. unfold published. induction os as [|[]]; cbn; lia. }
  edestruct (load_exact_or_missing (fun i => read_message no_fault (run_ops log_step st (later i)).2 i)) as [-> | (e & -> & He)];
    [|..|by left|right; rewrite He; by eexists].
  - pose proof (rp_texts st s Hr) as Ht. rewrite Hlog in Ht. by apply Forall_drop.
  - intros k x Hk. unfold from_offset in Hk. rewrite lookup_drop in Hk.
    replace (o + Z.of_nat k) with (Z.of_nat (Z.to_nat o + k)) by lia. specialize (Hb (Z.of_nat (Z.to_nat o + k))).
    apply (later_read st s); [done|done|rewrite Hlog; unfold len; lia|by rewrite Hlog].
Qed.

(** a reader that stays gets the events of the log from its offset on, in order, each once; when it stops it has
    got all of them and emits the terminal event, and it stops at the latest at the fourth pull after the run is done. *)
Theorem reader_delivers {Ev} (EventFromJSON : string -> result (option Ev)) log o pks :
  0 <= o -> all_served EventFromJSON log o 0 pks ->
  map snd (runPullLoop EventFromJSON o 0 pks).1 `prefix_of` decoded EventFromJSON (from_offset o log) /\
  (forall b, (runPullLoop EventFromJSON o 0 pks).2 = Some b ->
     b = true /\ map snd (runPullLoop EventFromJSON o 0 pks).1 = decoded EventFromJSON (from_offset o log)) /\
  (Forall (fun pk => pk_runDone pk = true) pks -> (4 <= length pks)%nat -> (runPullLoop EventFromJSON o 0 pks).2 = Some true).
Proof.
  intros Ho Hall. destruct (loop_delivers EventFromJSON log o 0 pks Ho Hall) as [H1 H2].
  split; [done|split; [done|]]. intros Hd Hk. by apply (loop_ends EventFromJSON log).
Qed.

(** the offset attached to an event is the index of its message plus the size of the batch it came in, so a reader
    that resumes at the offset of an event it got never gets that event nor the following ones, as many as the batch
    had. *)
Theorem resume_skips_batch {Ev} (EventFromJSON : string -> result (option Ev)) log o n pk sent o' n' k saved ev pks :
  (forall raw, raw ∈ log -> exists ev, EventFromJSON raw = inr (Some ev)) -> 0 <= o -> 2 * len log <= max_int64 ->
  served log o pk -> pull_iteration EventFromJSON o n pk = (sent, Continue o' n') -> sent !! k = Some (saved, ev) ->
  all_served EventFromJSON log saved 0 pks ->
  decoded EventFromJSON log !! (Z.to_nat o + k)%nat = Some ev /\
  saved = o + Z.of_nat k + Z.of_nat (length sent) /\
  map snd (runPullLoop EventFromJSON saved 0 pks).1
    `prefix_of` drop (Z.to_nat o + k + length sent) (decoded EventFromJSON log).
Proof.
  intros Hd Ho Hb Hs E Hk Hall.
  destruct (iteration_served EventFromJSON log o n pk Ho Hs) as [(t & Ht & Hlen & _ & E1 & Hm)|[_ E1]]; rewrite E in E1.
  2: { injection E1 as -> _. done. }
  injection E1 as -> _ _. destruct (decoded_window EventFromJSON log o t Hd) as [_ Hn]. destruct Hs as (_ & _ & Hsend & _).
  rewrite (batch_offsets EventFromJSON) in * by done. rewrite list_lookup_imap, lookup_drop in Hk.
  rewrite length_imap, length_drop, length_take, Hn.
  destruct (take t (decoded EventFromJSON log) !! (Z.to_nat o + k)%nat) as [ev'|] eqn:Hev; [|done]. injection Hk as <- ->.
  apply lookup_take_Some in Hev as [Hev Hkt]. split; [done|split; [lia|]].
  destruct (loop_delivers EventFromJSON log (Z.of_nat t + Z.of_nat k) 0 pks) as [Hp _]; [lia|done|].
  destruct (decoded_window EventFromJSON log (Z.of_nat t + Z.of_nat k) (length log) Hd) as [Hw' _].
  rewrite firstn_all in Hw'. rewrite Hw' in Hp. rewrite <- Hn, firstn_all in Hp.
  by replace (Z.to_nat o + k + (t `min` length log - Z.to_nat o))%nat with (Z.to_nat (Z.of_nat t + Z.of_nat k)) by lia.
Qed.

(** ** Runs *)

Definition plain (raw : string) : result (option string) := inr (Some raw).

Definition four : list string := ["a"; "b"; "c"; "d"].

(** A pull at [o] when [t] of the four messages were published, by a consumer that stays. *)
Definition peek_at (runDone : bool) (o : Z) (t : nat) : peek :=
  {| pk_runDone := runDone; pk_cancelled := false;
     pk_resp := inr (if o <? Z.of_nat t then {| pr_Messages := from_offset o (take t four); pr_NextOffset := Z.of_nat t |}
                     else {| pr_Messages := []; pr_NextOffset := o |});
     pk_cancelled_after := false; pk_sends := fun _ => SentNow; pk_wait_cancelled := false |}.

Lemma served_at runDone o t : 0 <= o -> (t <= 4)%nat -> (runDone = true -> t = 4%nat) -> served four o (peek_at runDone o t).
Proof.
  intros Ho Ht Hd. split; [done|split; [done|split; [done|]]]. exists t. split; [done|split; [done|]].
  unfold spec_pull. cbn [pq_Offset ls_head ls_log]. rewrite (proj2 (Z.ltb_ge _ _)) by lia.
  unfold len. rewrite length_take, Nat.min_l by (cbn; lia). cbn [peek_at pk_resp]. by destruct (o <? Z.of_nat t).
Qed.

Definition sample_ops : list log_op :=
  [ESubscribe {| sub_Offset := 0; sub_ID := "early" |}; EPublish "a"; EPublish "b";
   EPull {| pq_Offset := Some 1; pq_Wait := false |}; ESubscribe {| sub_Offset := 2; sub_ID := "late" |}; EClear;
   EPull {| pq_Offset := Some 1; pq_Wait := false |}; EPublish "c"].

Lemma event_log_refines_witness :
  Forall op_ok sample_ops /\ (run_ops log_step new_log sample_ops).1 = (run_ops spec_step spec_new sample_ops).1.
Proof.
  assert (Ho : Forall op_ok sample_ops) by (unfold sample_ops; repeat constructor; discriminate).
  split; [exact Ho|]. apply (event_log_refines sample_ops Ho). unfold max_int64. cbn. lia.
Defined.

(** The one who waits when the log is cleared is neither resolved nor rejected, then or at the next publish. *)
Example cleared_waiter_forgotten :
  drop 5 (run_ops log_step new_log sample_ops).1
  = [Handled None []; Pulled (PullReturns (inl (cleared_at 1 2))); Handled None []].
Proof. vm_compute. reflexivity. Qed.

(** The log is cleared between the reads of the first and of the second message. *)
Lemma pull_exact_or_cleared_witness :
  let os := [EPublish "a"; EPublish "b"] in
  let later := fun i : Z => if i =? 1 then [EClear] else [] in
  let st := (run_ops log_step new_log os).2 in
  let r := Pull (getMetadata no_fault st) (fun i => read_message no_fault (run_ops log_step st (later i)).2 i)
             {| pq_Offset := Some 0; pq_Wait := false |} in
  r = PullReturns (inr {| pr_Messages := from_offset 0 (published os); pr_NextOffset := len (published os) |}) \/
  exists e, r = PullReturns (inl e) /\ isAgentEventLogCleared (Some e) = true.
Proof.
  cbv zeta. apply (pull_exact_or_cleared [EPublish "a"; EPublish "b"] (fun i : Z => if i =? 1 then [EClear] else []) 0 false).
  - repeat constructor; discriminate.
  - intros i. destruct (i =? 1); repeat constructor.
  - intros i. destruct (i =? 1); unfold max_int64; cbn; lia.
  - split; vm_compute; [discriminate|reflexivity].
Defined.

Definition whole_read : list peek := [peek_at false 0 2; peek_at true 2 4; peek_at true 4 4; peek_at true 4 4; peek_at true 4 4].

Lemma reader_delivers_witness :
  all_served plain four 0 0 whole_read /\
  map snd (runPullLoop plain 0 0 whole_read).1 `prefix_of` decoded plain (from_offset 0 four) /\
  (runPullLoop plain 0 0 whole_read).2 = Some true.
Proof.
  assert (Hall : all_served plain four 0 0 whole_read).
  { unfold whole_read. cbn -[served peek_at four plain].
    repeat (split; [apply served_at; try lia; discriminate|]; cbn -[served peek_at]). exact I. }
  split; [exact Hall|]. split; [|vm_compute; reflexivity].
  exact (proj1 (reader_delivers plain four 0 whole_read (Z.le_refl 0) Hall)).
Defined.

(** The reader got "a" and "b" in one pull and saved the offset of "b": on resuming it gets "d" only. *)
Lemma resume_skips_batch_witness :
  decoded plain four !! 1%nat = Some "b" /\
  map snd (runPullLoop plain 3 0 [peek_at true 3 4]).1 `prefix_of` drop 3 (decoded plain four).
Proof.
  destruct (resume_skips_batch plain four 0 0 (peek_at false 0 2) [(2, "a"); (3, "b")] 2 0 1 3 "b" [peek_at true 3 4]) as (H1 & _ & H3).
  - intros raw _. exists raw. reflexivity.
  - lia.
  - vm_compute. discriminate.
  - apply served_at; [lia|lia|discriminate].
  - vm_compute. reflexivity.
  - reflexivity.
  - split; [apply served_at; [lia|lia|reflexivity]|]. vm_compute. exact I.
  - split; [exact H1|exact H3].
Defined.
