(* ===== verification/Registry.v ===== *)
(** The registries of [pkg/agent] ([tool_registry.go], [mcp_registry.go], [a2a_registry.go],
    [subagent_registry.go]): a map from trimmed names to entries and the registration order.
    The four Go types are clones of each other over their entry type; they are instances of
    one section.  The lock of each method makes it one atomic step. *)
From S2P Require Import Prelude GoLib Types.

#[local] Open Scope string_scope.
#[local] Open Scope list_scope.

(** [removeFromOrder]: without the first occurrence of the name. *)
Fixpoint removeFromOrder (order : list string) (name : string) : list string :=
  match order with
  | [] => []
  | n :: order => if String.eqb n name then order else n :: removeFromOrder order name
  end.

Record registry (E : Type) := { reg_entries : gmap string E; reg_order : list string }.
Arguments reg_entries {_} _.
Arguments reg_order {_} _.
Arguments Build_registry {_} _ _.

Section registry.
(** An entry and its [Name()]. *)
Context {E : Type} (name_of : E -> string).

Definition NewRegistry : registry E := {| reg_entries := ∅; reg_order := [] |}.

(** The error and the registry after the call; a nil entry is [None]. *)
Definition Register (r : registry E) (entry : option E) : option error * registry E :=
  match entry with
  | None => (Some (sentinel_error ErrRegistryNilEntry), r)
  | Some e =>
      let name := TrimSpace (name_of e) in
      if String.eqb name "" then (Some (sentinel_error ErrRegistryInvalidName), r)
      else match reg_entries r !! name with
           | Some _ => (Some (sentinel_error ErrRegistryDuplicate), r)
           | None => (None, {| reg_entries := <[name := e]> (reg_entries r); reg_order := reg_order r ++ [name] |})
           end
  end.

Definition Unregister (r : registry E) (name : string) : option error * registry E :=
  let name := TrimSpace name in
  if String.eqb name "" then (Some (sentinel_error ErrRegistryInvalidName), r)
  else match reg_entries r !! name with
       | None => (Some (sentinel_error ErrRegistryNotFound), r)
       | Some _ => (None, {| reg_entries := delete name (reg_entries r);
                             reg_order := removeFromOrder (reg_order r) name |})
       end.

Definition Get (r : registry E) (name : string) : result E :=
  let name := TrimSpace name in
  if String.eqb name "" then inl (sentinel_error ErrRegistryInvalidName)
  else match reg_entries r !! name with
       | None => inl (sentinel_error ErrRegistryNotFound)
       | Some e => inr e
       end.

(** The entries in the order of their registration. *)
Definition List_ (r : registry E) : list E := omap (fun n => reg_entries r !! n) (reg_order r).

(** [RegisterTools], and the registration loops of the agent builder: stop at the first error. *)
Fixpoint RegisterAll (r : registry E) (es : list (option E)) : option error * registry E :=
  match es with
  | [] => (None, r)
  | e :: es =>
      match Register r e with
      | (Some err, r) => (Some err, r)
      | (None, r) => RegisterAll r es
      end
  end.

(** ** Specification: an association list in registration order *)

Definition catalog := list (string * E).

Definition find_entry (c : catalog) (name : string) : option E :=
  snd <$> List.find (fun p => String.eqb (fst p) name) c.

Inductive reg_op :=
| OpRegister (entry : option E)
| OpUnregister (name : string)
| OpGet (name : string)
| OpList.

Inductive reg_out :=
| OutErr (e : option error)
| OutEntry (r : result E)
| OutList (l : list E).

Definition apply_op (r : registry E) (o : reg_op) : reg_out * registry E :=
  match o with
  | OpRegister e => let p := Register r e in (OutErr p.1, p.2)
  | OpUnregister n => let p := Unregister r n in (OutErr p.1, p.2)
  | OpGet n => (OutEntry (Get r n), r)
  | OpList => (OutList (List_ r), r)
  end.

(** What each operation promises: names are trimmed and never empty, the first registration of
    a name wins, entries are listed in the order they came. *)
Definition spec_op (c : catalog) (o : reg_op) : reg_out * catalog :=
  match o with
  | OpRegister None => (OutErr (Some (sentinel_error ErrRegistryNilEntry)), c)
  | OpRegister (Some e) =>
      let n := TrimSpace (name_of e) in
      if String.eqb n "" then (OutErr (Some (sentinel_error ErrRegistryInvalidName)), c)
      else match find_entry c n with
           | Some _ => (OutErr (Some (sentinel_error ErrRegistryDuplicate)), c)
           | None => (OutErr None, c ++ [(n, e)])
           end
  | OpUnregister n =>
      let n := TrimSpace n in
      if String.eqb n "" then (OutErr (Some (sentinel_error ErrRegistryInvalidName)), c)
      else match find_entry c n with
           | None => (OutErr (Some (sentinel_error ErrRegistryNotFound)), c)
           | Some _ => (OutErr None, List.filter (fun p => negb (String.eqb (fst p) n)) c)
           end
  | OpGet n =>
      let n := TrimSpace n in
      (OutEntry (if String.eqb n "" then inl (sentinel_error ErrRegistryInvalidName)
                 else match find_entry c n with
                      | None => inl (sentinel_error ErrRegistryNotFound)
                      | Some e => inr e
                      end), c)
  | OpList => (OutList (map snd c), c)
  end.

(** [r] stores the catalog [c]. *)
Record stores (r : registry E) (c : catalog) : Prop := {
  st_order : reg_order r = map fst c;
  st_nodup : NoDup (map fst c);
  st_lookup n : reg_entries r !! n = find_entry c n;
  st_named n e : (n, e) ∈ c -> n = TrimSpace (name_of e) /\ n <> "" }.

Lemma find_entry_in c n e : find_entry c n = Some e -> (n, e) ∈ c.
Proof.
  unfold find_entry. intros (p & Hf & ->)%fmap_Some. apply List.find_some in Hf as [Hin Heq%String.eqb_eq].
  subst n. destruct p. by apply list_elem_of_In.
Qed.

Lemma find_entry_none c n : find_entry c n = None <-> n ∉ map fst c.
Proof.
  unfold find_entry. rewrite fmap_None. split.
  - intros H Hin. apply list_elem_of_fmap in Hin as (p & -> & Hp%list_elem_of_In).
    eapply List.find_none in H; [|exact Hp]. by rewrite String.eqb_refl in H.
  - intros H. destruct (List.find _ c) as [p|] eqn:Hf; [|done]. exfalso. apply H.
    apply List.find_some in Hf as [Hin Heq%String.eqb_eq]. subst n. apply list_elem_of_fmap. exists p.
    by rewrite list_elem_of_In.
Qed.

Lemma find_entry_intro c n e : NoDup (map fst c) -> (n, e) ∈ c -> find_entry c n = Some e.
Proof.
  unfold find_entry. induction c as [|[n' e'] c IH]; simpl; intros Hnd Hin; [by apply not_elem_of_nil in Hin|].
  apply NoDup_cons in Hnd as [Hn Hnd]. apply elem_of_cons in Hin as [[= <- <-]|Hin]; [by rewrite String.eqb_refl|].
  destruct (String.eqb_spec n' n) as [->|]; [|auto]. exfalso. apply Hn. apply list_elem_of_fmap. by exists (n, e).
Qed.

Lemma find_entry_app c n n' e :
  find_entry (c ++ [(n', e)]) n =
  match find_entry c n with Some x => Some x | None => if String.eqb n' n then Some e else None end.
Proof.
  unfold find_entry. induction c as [|[k x] c IH]; simpl; [by destruct (String.eqb n' n)|].
  by destruct (String.eqb k n).
Qed.

Lemma find_entry_filter c n k :
  find_entry (List.filter (fun p => negb (String.eqb (fst p) n)) c) k =
  if String.eqb n k then None else find_entry c k.
Proof.
  unfold find_entry. induction c as [|[k' x] c IH]; simpl; [by case_match|].
  destruct (String.eqb_spec k' n) as [->|Hne]; simpl.
  - rewrite IH. by destruct (String.eqb n k).
  - destruct (String.eqb_spec k' k) as [->|]; [|done]. simpl. by destruct (String.eqb_spec n k).
Qed.

Lemma NoDup_keys_filter (f : string * E -> bool) c : NoDup (map fst c) -> NoDup (map fst (List.filter f c)).
Proof.
  induction c as [|[k x] c IH]; simpl; [done|]. intros [Hn Hnd]%NoDup_cons.
  destruct (f (k, x)); simpl; [|auto]. apply NoDup_cons. split; [|auto]. intros Hin. apply Hn.
  apply list_elem_of_fmap in Hin as (p & -> & Hp%list_elem_of_In). apply List.filter_In in Hp as [Hp _].
  apply list_elem_of_fmap. exists p. by rewrite list_elem_of_In.
Qed.

Lemma removeFromOrder_filter c n :
  NoDup (map (@fst string E) c) ->
  removeFromOrder (map fst c) n = map fst (List.filter (fun p => negb (String.eqb (fst p) n)) c).
Proof.
  induction c as [|[k x] c IH]; simpl; intros Hnd; [done|]. apply NoDup_cons in Hnd as [Hn Hnd].
  destruct (String.eqb_spec k n) as [->|]; simpl; [|by rewrite IH].
  clear IH. induction c as [|[k' x'] c IH]; simpl in *; [done|].
  apply not_elem_of_cons in Hn as [Hne Hn]. apply NoDup_cons in Hnd as [_ Hnd].
  destruct (String.eqb_spec k' n); [congruence|]. simpl. by rewrite <- IH.
Qed.

Lemma stores_new : stores NewRegistry [].
Proof. constructor; [done|constructor|done|]. by intros ? ? ?%not_elem_of_nil. Qed.

Lemma stores_list r c : stores r c -> List_ r = map snd c.
Proof.
  intros [Ho Hnd Hl _]. unfold List_. rewrite Ho.
  assert (H : forall c', (forall p, p ∈ c' -> p ∈ c) -> omap (fun n => reg_entries r !! n) (map fst c') = map snd c').
  { induction c' as [|[n e] c' IH]; intros Hin; [done|]. cbn [omap list_omap map fst snd].
    rewrite Hl, (find_entry_intro c n e) by (done || apply Hin; left). rewrite IH; [done|].
    intros p Hp. apply Hin. by right. }
  by apply H.
Qed.

Lemma apply_op_spec r c o :
  stores r c -> (apply_op r o).1 = (spec_op c o).1 /\ stores (apply_op r o).2 (spec_op c o).2.
Proof.
  intros Hs. pose proof Hs as [Ho Hnd Hl Hnm]. destruct o as [[e|]|n|n|]; simpl.
  - rewrite Hl. destruct (String.eqb_spec (TrimSpace (name_of e)) "") as [|Hne]; [done|].
    destruct (find_entry c (TrimSpace (name_of e))) eqn:Hf; [done|]. simpl. split; [done|].
    apply find_entry_none in Hf as Hfresh. constructor; simpl.
    + by rewrite Ho, map_app.
    + rewrite map_app. apply NoDup_app. split; [done|]. split; [|apply NoDup_singleton].
      by intros x Hx ->%list_elem_of_singleton.
    + intros k. rewrite find_entry_app. destruct (String.eqb_spec (TrimSpace (name_of e)) k) as [<-|].
      * by rewrite lookup_insert_eq, Hf.
      * rewrite lookup_insert_ne by done. rewrite Hl. by destruct (find_entry c k).
    + intros k x Hin. apply elem_of_app in Hin as [Hin|Hin%list_elem_of_singleton]; [by apply Hnm|]. by injection Hin as -> ->.
  - done.
  - unfold Unregister. rewrite Hl. destruct (String.eqb_spec (TrimSpace n) "") as [|Hne]; [done|].
    destruct (find_entry c (TrimSpace n)) eqn:Hf; [|done]. simpl. split; [done|]. constructor; simpl.
    + by rewrite Ho, removeFromOrder_filter.
    + by apply NoDup_keys_filter.
    + intros k. rewrite find_entry_filter. destruct (String.eqb_spec (TrimSpace n) k) as [<-|].
      * by rewrite lookup_delete_eq.
      * by rewrite lookup_delete_ne.
    + intros k x Hin. apply Hnm. rewrite list_elem_of_In in *. by apply List.filter_In in Hin as [? _].
  - unfold Get. by rewrite Hl.
  - by rewrite (stores_list r c).
Qed.

(** Every registry refines its specification: whatever sequence of operations is performed on
    a new registry, each one answers what the ordered catalog of distinct, trimmed names
    answers, errors included. *)
Theorem registry_refines (os : list reg_op) :
  (run_ops apply_op NewRegistry os).1 = (run_ops spec_op [] os).1 /\
  stores (run_ops apply_op NewRegistry os).2 (run_ops spec_op [] os).2.
Proof.
  assert (H : forall r c, stores r c ->
    (run_ops apply_op r os).1 = (run_ops spec_op c os).1 /\ stores (run_ops apply_op r os).2 (run_ops spec_op c os).2).
  { induction os as [|o os IH]; intros r c Hs; simpl; [done|].
    destruct (apply_op_spec r c o Hs) as [-> Hs']. destruct (IH _ _ Hs') as [-> ?]. done. }
  apply H, stores_new.
Qed.

(** A registration is undone by the deregistration of the same name: the registry is exactly
    what it was, order included. *)
Theorem register_unregister r c e r' :
  stores r c -> Register r (Some e) = (None, r') -> Unregister r' (name_of e) = (None, r).
Proof.
  intros Hs. pose proof Hs as [Ho Hnd Hl _]. unfold Register, Unregister.
  destruct (String.eqb_spec (TrimSpace (name_of e)) "") as [|Hne]; [done|].
  destruct (reg_entries r !! _) eqn:Hf; [done|]. intros [= <-]. simpl.
  rewrite lookup_insert_eq, delete_insert_id by done. f_equal. destruct r as [m o]. simpl in *. f_equal.
  assert (Hn : TrimSpace (name_of e) ∉ o). { rewrite Ho. apply find_entry_none. by rewrite <- Hl. }
  clear - Hn. induction o as [|k o IH]; simpl in *; [by rewrite String.eqb_refl|].
  apply not_elem_of_cons in Hn as [Hne Hn]. destruct (String.eqb_spec k (TrimSpace (name_of e))); [congruence|].
  by rewrite IH.
Qed.
End registry.
