(* ===== verification/AgentTools.v ===== *)
(** The tools an agent offers besides its native ones ([pkg/agent/subagent.go], [mcp.go],
    [a2a.go], [retriever.go], [memory.go]; [pkg/tools/schema.go]), the tool and skill filters
    of [internal/types/mcp.go] and [a2a.go], and the approval policies of
    [pkg/agent/policy.go]. *)
From S2P Require Import Prelude GoLib Types.

#[local] Open Scope string_scope.
#[local] Open Scope list_scope.

(** ** JSON schemas of parameters *)

Definition ParamString (description : string) : value :=
  VObj [("type", VStr "string"); ("description", VStr description)].

Definition Params (properties : list (string * value)) (required : list string) : value :=
  VObj ([("type", VStr "object"); ("properties", VObj properties)] ++
        match required with [] => [] | _ => [("required", VArr (map VStr required))] end).

Definition object_schema : value := VObj [("type", VStr "object")].

(** ** Names *)

Definition is_alnum (c : ascii) : bool :=
  let n := N_of_ascii c in
  ((48 <=? n) && (n <=? 57) || (65 <=? n) && (n <=? 90) || (97 <=? n) && (n <=? 122))%N.

(** [regexp.MustCompile("[^a-zA-Z0-9]+").ReplaceAllString(s, "_")]; [inside] a matched run.  A
    rune outside ASCII has no alphanumeric byte, so runs of bytes are runs of runes. *)
Fixpoint replace_runs (inside : bool) (l : bytes) : bytes :=
  match l with
  | [] => []
  | c :: l =>
      if is_alnum c then c :: replace_runs false l
      else if inside then replace_runs true l else "_"%char :: replace_runs true l
  end.

Fixpoint drop_underscores (l : bytes) : bytes :=
  match l with
  | [] => []
  | c :: l' => if Ascii.eqb c "_" then drop_underscores l' else l
  end.

(** [strings.Trim(s, "_")] *)
Definition trim_underscores (l : bytes) : bytes := rev (drop_underscores (rev (drop_underscores l))).

Definition subAgentToolName (name : string) : result string :=
  let base := TrimSpace name in
  if String.eqb base "" then
    inl (sentinel_with_msg ErrSubAgentNameInvalid "set WithName on the sub-agent")
  else
    let safe := of_bytes (trim_underscores (replace_runs false (to_bytes base))) in
    if String.eqb safe "" then
      inl (sentinel_with_msg ErrSubAgentNameInvalid
             ("name " +:+ Quote base +:+ " must contain at least one letter or digit"))
    else inr ("subagent_" +:+ safe).

Definition prefixed_name (prefix server tool : string) : string :=
  let sn := TrimSpace server in
  let tn := TrimSpace tool in
  if String.eqb sn "" || String.eqb tn "" then "" else prefix +:+ sn +:+ "_" +:+ tn.

Definition mcpToolName (serverName toolName : string) : string := prefixed_name "mcp_" serverName toolName.
Definition a2aToolName (serverName skillID : string) : string := prefixed_name "a2a_" serverName skillID.

Definition display_of (middle server tool : string) : string :=
  let sn := TrimSpace server in
  let tn := TrimSpace tool in
  if String.eqb sn "" || String.eqb tn "" then "" else sn +:+ middle +:+ tn +:+ " Tool".

Definition mcpToolDisplayName (serverName toolName : string) : string := display_of " MCP " serverName toolName.
Definition a2aToolDisplayName (serverName skillID : string) : string := display_of " A2A " serverName skillID.

(** ** Tools *)

(** A tool of a kind of its own, without approval or authorization methods. *)
Definition adapter (kind name display description : string) (parameters : value) : Tool :=
  {| t_Name := name; t_DisplayName := display; t_Description := description; t_Parameters := parameters;
     t_kind := Some kind; t_approval := None; t_authorizer := false |}.

(** [NewSubAgentTool], from the sub-agent's name and description. *)
Definition NewSubAgentTool (name description : string) : option Tool :=
  match subAgentToolName name with
  | inl _ => None
  | inr n =>
      let d := TrimSpace description in
      Some (adapter ToolKindSubAgent n ("Sub-Agent " +:+ name)
              (if negb (String.eqb d "") then "Delegate to specialist sub-agent: " +:+ d
               else if negb (String.eqb (TrimSpace name) "") then "Delegate to specialist sub-agent: " +:+ name
               else "Delegate to a specialist sub-agent to handle this request.")
              (Params [("query", ParamString "Task or question to send to the sub-agent.")] ["query"]))
  end.

(** A nil schema is [VNull]. *)
Definition schema_or_object (v : value) : value := match v with VNull => object_schema | v => v end.

Definition NewMCPTool (serverName : string) (spec : ToolSpec) : Tool :=
  adapter ToolKindMCP (mcpToolName serverName (ts_Name spec)) (mcpToolDisplayName serverName (ts_Name spec))
    (ts_Description spec) (schema_or_object (ts_Parameters spec)).

Record A2ASkillSpec := { sk_ID : string; sk_Name : string; sk_Description : string }.

Definition NewA2ATool (serverName : string) (skill : A2ASkillSpec) : Tool :=
  adapter ToolKindA2A (a2aToolName serverName (sk_ID skill)) (a2aToolDisplayName serverName (sk_ID skill))
    (sk_Description skill) object_schema.

Definition NewRetrieverTool (retrieverName : string) : option Tool :=
  let rn := TrimSpace retrieverName in
  if String.eqb rn "" then None
  else Some (adapter ToolKindRetriever (RetrieverToolName rn) (RetrieverToolDisplayName rn)
    ("Search the " +:+ rn +:+ " knowledge base for relevant context. " +:+
     "Call this when you need external knowledge to answer the user query.")
    (Params [(RetrieverToolParamQuery, ParamString ("Search query to find relevant knowledge in " +:+ rn))]
            [RetrieverToolParamQuery])).

Definition NewRegisteredMemoryTool : Tool :=
  adapter ToolKindMemory SaveMemoryToolName "Save Memory"
    ("Save a fact, preference, or decision to long-term memory for future runs. " +:+
     "Required when the user asks to remember, save, or persist something for later — " +:+
     "call this tool before acknowledging; a text reply alone does not store memory.")
    (Params [(MemoryToolParamText, ParamString
                "The memory text to store (fact, preference, or decision distilled from the conversation)");
             (MemoryToolParamKind, ParamString
                "Optional memory kind (e.g. preference, fact, decision, instruction, note)")]
            [MemoryToolParamText]).

(** The record [MemoryTool.Execute] hands to its store. *)
Definition memory_tool_record (args : Args) : result MemoryRecord :=
  match as_string (args !! MemoryToolParamText) with
  | None => inl (errors_New ("save_memory: " +:+ Quote MemoryToolParamText +:+ " parameter required"))
  | Some raw =>
      let text := TrimSpace raw in
      if String.eqb text "" then
        inl (errors_New ("save_memory: " +:+ Quote MemoryToolParamText +:+ " must be non-empty"))
      else inr {| rec_Text := text;
                  rec_Kind := match as_string (args !! MemoryToolParamKind) with
                              | Some k => TrimSpace k | None => "" end;
                  rec_Metadata := ∅; rec_ExpiresAt := 0%Z |}
  end.

(** [a2aCollectText], on the kinds and texts of the parts of a message. *)
Definition a2aCollectText (parts : list (string * string)) : string :=
  Join (of_bytes (ascs [10%N]))
    (map snd (List.filter (fun p => String.eqb p.1 "text" && negb (String.eqb p.2 "")) parts)).

(** ** Filters *)

Record MCPToolFilter := { f_AllowTools : list string; f_BlockTools : list string }.

Definition MCPToolFilter_Validate (f : MCPToolFilter) : option error :=
  match f_AllowTools f, f_BlockTools f with
  | _ :: _, _ :: _ => Some (errors_New "mcp tool filter: set either AllowTools or BlockTools, not both")
  | _, _ => None
  end.

Definition MCPToolFilter_Apply (f : MCPToolFilter) (specs : list ToolSpec) : list ToolSpec :=
  match f_AllowTools f with
  | _ :: _ => List.filter (fun d => bool_decide (ts_Name d ∈ f_AllowTools f)) specs
  | [] =>
      match f_BlockTools f with
      | _ :: _ => List.filter (fun d => negb (bool_decide (ts_Name d ∈ f_BlockTools f))) specs
      | [] => specs
      end
  end.

Record A2ASkillFilter := { f_AllowSkills : list string; f_BlockSkills : list string }.

Definition A2ASkillFilter_Validate (f : A2ASkillFilter) : option error :=
  match f_AllowSkills f, f_BlockSkills f with
  | _ :: _, _ :: _ => Some (errors_New "a2a skill filter: set either AllowSkills or BlockSkills, not both")
  | _, _ => None
  end.

Definition A2ASkillFilter_Apply (f : A2ASkillFilter) (skills : list A2ASkillSpec) : list A2ASkillSpec :=
  match f_AllowSkills f, f_BlockSkills f with
  | [], [] => skills
  | _ :: _, _ => List.filter (fun s => bool_decide (TrimSpace (sk_ID s) ∈ map TrimSpace (f_AllowSkills f))) skills
  | [], _ => List.filter (fun s => negb (bool_decide (TrimSpace (sk_ID s) ∈ map TrimSpace (f_BlockSkills f)))) skills
  end.

(** ** Approval policies *)

(** [interfaces.AgentToolApprovalPolicy]; a policy of the application is its type's name and
    its predicate. *)
Inductive ApprovalPolicy :=
| RequireAllToolApprovalPolicy
| AutoToolApprovalPolicy
| Allowlist (allowed : gset string)
| CustomPolicy (type : string) (requires : Tool -> bool).

Definition policy_requires (p : ApprovalPolicy) (t : Tool) : bool :=
  match p with
  | RequireAllToolApprovalPolicy => true
  | AutoToolApprovalPolicy => false
  | Allowlist allowed => negb (bool_decide (t_Name t ∈ allowed))
  | CustomPolicy _ f => f t
  end.

Record AllowlistToolApprovalConfig := {
  al_ToolNames : list string; al_SubAgentNames : list string; al_MCPTools : gmap string (list string) }.

(** The [add] closure: empty names are skipped. *)
Definition add_name (m : gset string) (s : string) : gset string :=
  let s := TrimSpace s in if String.eqb s "" then m else m ∪ {[ s ]}.

Fixpoint add_sub_agents (m : gset string) (names : list string) : result (gset string) :=
  match names with
  | [] => inr m
  | n :: names =>
      match subAgentToolName n with
      | inl e => inl (wrap_error ("allowlist SubAgentNames entry " +:+ Quote n +:+ ": ") e)
      | inr name => add_sub_agents (add_name m name) names
      end
  end.

Definition mcp_names (tools : gmap string (list string)) : list string :=
  flat_map (fun p => map (mcpToolName p.1) p.2) (map_to_list tools).

Definition AllowlistToolApprovalPolicy (c : AllowlistToolApprovalConfig) : result ApprovalPolicy :=
  match add_sub_agents (fold_left add_name (al_ToolNames c) ∅) (al_SubAgentNames c) with
  | inl e => inl e
  | inr m => inr (Allowlist (fold_left add_name (mcp_names (al_MCPTools c)) m))
  end.

(** Joined with a comma, as [strings.Join(names, ",")]. *)
Definition toolPolicyFingerprint (p : option ApprovalPolicy) : string :=
  match p with
  | None => "nil"
  | Some RequireAllToolApprovalPolicy => "require_all"
  | Some AutoToolApprovalPolicy => "auto"
  | Some (Allowlist allowed) => "allowlist:" +:+ Join "," (sort_Strings (elements allowed))
  | Some (CustomPolicy type _) => "unknown:" +:+ type
  end.

(** ** Names of sub-agent tools *)

Lemma filter_strip_one (f : ascii -> bool) ps l r :
  Forall (fun p => List.filter f p = []) ps -> strip_one ps l = Some r -> List.filter f r = List.filter f l.
Proof.
  intros Hps (p & Hp & ->)%strip_one_Some. rewrite List.filter_app.
  rewrite Forall_forall in Hps. rewrite (Hps p); [done|by apply list_elem_of_In].
Qed.

Lemma filter_trim_fuel (f : ascii -> bool) ps fuel l :
  Forall (fun p => List.filter f p = []) ps -> List.filter f (trim_fuel fuel ps l) = List.filter f l.
Proof.
  intros Hps. revert l. induction fuel as [|fuel IH]; intros l; simpl; [done|].
  destruct (strip_one ps l) eqn:E; [|done]. rewrite IH. by eapply filter_strip_one.
Qed.

(** Trimming loses no letter and no digit. *)
Lemma alnum_TrimSpace s : List.filter is_alnum (to_bytes (TrimSpace s)) = List.filter is_alnum (to_bytes s).
Proof.
  unfold TrimSpace, trim_right_bytes, trim_left_bytes. rewrite to_of_bytes, List.filter_rev, filter_trim_fuel;
    [|by repeat constructor].
  rewrite List.filter_rev, rev_involutive. apply filter_trim_fuel. by repeat constructor.
Qed.

Lemma alnum_replace_runs b l : List.filter is_alnum (replace_runs b l) = List.filter is_alnum l.
Proof.
  revert b. induction l as [|c l IH]; intros b; simpl; [done|].
  destruct (is_alnum c) eqn:Ec; simpl; [by rewrite Ec, IH|]. destruct b; simpl; by rewrite IH.
Qed.

Lemma alnum_drop_underscores l : List.filter is_alnum (drop_underscores l) = List.filter is_alnum l.
Proof. induction l as [|c l IH]; simpl; [done|]. by destruct (Ascii.eqb_spec c "_"%char) as [->|]. Qed.

Lemma alnum_trim_underscores l : List.filter is_alnum (trim_underscores l) = List.filter is_alnum l.
Proof.
  unfold trim_underscores.
  by rewrite List.filter_rev, alnum_drop_underscores, List.filter_rev, rev_involutive, alnum_drop_underscores.
Qed.

#[export] Hint Rewrite alnum_TrimSpace alnum_replace_runs alnum_trim_underscores to_of_bytes : sdk.

(** The characters tool APIs accept in a name. *)
Definition word_char (c : ascii) : bool := is_alnum c || Ascii.eqb c "_".

Lemma replace_runs_words b l : forallb word_char (replace_runs b l) = true.
Proof.
  revert b. induction l as [|c l IH]; intros b; simpl; [done|].
  destruct (is_alnum c) eqn:Ec; simpl; [by unfold word_char; rewrite Ec, IH|]. destruct b; simpl; by rewrite IH.
Qed.

Lemma drop_underscores_words l : forallb word_char l = true -> forallb word_char (drop_underscores l) = true.
Proof. induction l as [|c l IH]; simpl; [done|]. intros [? ?]%andb_true_iff. case_match; [auto|]. simpl. by apply andb_true_iff. Qed.

Lemma trim_underscores_words l : forallb word_char l = true -> forallb word_char (trim_underscores l) = true.
Proof.
  assert (Hr : forall k, forallb word_char k = true -> forallb word_char (rev k) = true).
  { intros k. rewrite !forallb_forall. intros H x Hx. apply H. by apply in_rev. }
  intros H. unfold trim_underscores. by apply Hr, drop_underscores_words, Hr, drop_underscores_words.
Qed.

(** No word character is left once the underscores are trimmed of a string without letters. *)
Lemma words_without_alnum l : forallb word_char l = true -> List.filter is_alnum l = [] -> trim_underscores l = [].
Proof.
  intros Hw Ha. unfold trim_underscores.
  assert (H : drop_underscores l = []).
  { induction l as [|c l IH]; simpl in *; [done|]. apply andb_true_iff in Hw as [Hc Hw]. unfold word_char in Hc.
    destruct (is_alnum c); [done|]. simpl in Hc. rewrite Hc. auto. }
  by rewrite H.
Qed.

Lemma to_bytes_nil s : to_bytes s = [] <-> s = "".
Proof. by destruct s. Qed.

(** C40: The name of a delegation tool is an identifier tool APIs accept: the prefix and word
    characters that hold every letter and digit of the display name, in order.  It exists
    exactly when the display name has a letter or a digit; otherwise the error is
    [ErrSubAgentNameInvalid]. *)
Theorem subAgentToolName_identifier name :
  match subAgentToolName name with
  | inr s => exists body, s = "subagent_" +:+ of_bytes body /\ forallb word_char body = true /\
      List.filter is_alnum body = List.filter is_alnum (to_bytes name) /\ List.filter is_alnum (to_bytes name) <> []
  | inl e => errors_Is e ErrSubAgentNameInvalid = true /\ List.filter is_alnum (to_bytes name) = []
  end.
Proof.
  unfold subAgentToolName. set (w := replace_runs false (to_bytes (TrimSpace name))).
  assert (Ha : List.filter is_alnum (trim_underscores w) = List.filter is_alnum (to_bytes name)).
  { unfold w. by autorewrite with sdk. }
  destruct (String.eqb_spec (TrimSpace name) "") as [He|_].
  { split; [done|]. by rewrite <- alnum_TrimSpace, He. }
  destruct (String.eqb_spec (of_bytes (trim_underscores w)) "") as [He|Hne].
  - split; [done|]. rewrite <- Ha. apply (f_equal to_bytes) in He. rewrite to_of_bytes in He. by rewrite He.
  - exists (trim_underscores w). split; [done|]. split; [apply trim_underscores_words, replace_runs_words|].
    split; [done|]. rewrite <- Ha. intros Hn. apply Hne.
    unfold w in Hn. rewrite alnum_trim_underscores in Hn.
    by rewrite (words_without_alnum w (replace_runs_words _ _) Hn).
Qed.

(** Distinct display names can share a tool name; [validateToolNames] then refuses the agent. *)
Example subAgentToolName_clash : subAgentToolName "research team" = subAgentToolName " research-team_ ".
Proof. reflexivity. Qed.

(** ** The allowlist *)

Lemma elem_of_add_name m s x : x ∈ add_name m s <-> x ∈ m \/ (x = TrimSpace s /\ x <> "").
Proof. unfold add_name. destruct (String.eqb_spec (TrimSpace s) "") as [He|He]; [naive_solver|]. set_solver. Qed.

Lemma elem_of_add_names l m x :
  x ∈ fold_left add_name l m <-> x ∈ m \/ ((exists s, s ∈ l /\ x = TrimSpace s) /\ x <> "").
Proof.
  revert m. induction l as [|s l IH]; intros m; simpl; [set_solver|].
  rewrite IH, elem_of_add_name. setoid_rewrite elem_of_cons. naive_solver.
Qed.

Lemma elem_of_add_sub_agents l m m' x :
  add_sub_agents m l = inr m' ->
  x ∈ m' <-> x ∈ m \/ ((exists n s, n ∈ l /\ subAgentToolName n = inr s /\ x = TrimSpace s) /\ x <> "").
Proof.
  revert m. induction l as [|n l IH]; intros m; simpl; [intros [= <-]; set_solver|].
  destruct (subAgentToolName n) as [e|s] eqn:Hn; [done|]. intros H. rewrite (IH _ H), elem_of_add_name.
  split; [intros [[?|[-> ?]]|[(k & s' & ? & ? & ->) ?]]; [auto|right; split; [|done]..]|].
  - exists n, s. split; [left|done].
  - exists k, s'. split; [by right|done].
  - intros [?|[(k & s' & [->|?]%elem_of_cons & Hk & ->) ?]]; [auto| |right; eauto 10].
    left. right. rewrite Hn in Hk. by injection Hk as ->.
Qed.

Lemma elem_of_mcp_names tools x :
  x ∈ mcp_names tools <-> exists server ids id, tools !! server = Some ids /\ id ∈ ids /\ x = mcpToolName server id.
Proof.
  unfold mcp_names. rewrite list_elem_of_In, in_flat_map. split.
  - intros ([server ids] & Hin & Hx). apply in_map_iff in Hx as (id & <- & Hid). exists server, ids, id.
    rewrite <- elem_of_map_to_list. by rewrite !list_elem_of_In.
  - intros (server & ids & id & Hs & Hid & ->). exists (server, ids). split.
    + by apply list_elem_of_In, elem_of_map_to_list.
    + apply in_map_iff. exists id. by rewrite <- list_elem_of_In.
Qed.

(** The allowlist waives approval for exactly the tools it names: plain names, delegation
    tools of the named sub-agents and MCP tools of the named servers; blank entries name
    nothing, and an agent name that is not a delegation name is an error. *)
Theorem allowlist_waives_listed c p t :
  AllowlistToolApprovalPolicy c = inr p ->
  policy_requires p t = false <->
    t_Name t <> "" /\
    ((exists s, s ∈ al_ToolNames c /\ t_Name t = TrimSpace s) \/
     (exists n s, n ∈ al_SubAgentNames c /\ subAgentToolName n = inr s /\ t_Name t = TrimSpace s) \/
     (exists server ids id, al_MCPTools c !! server = Some ids /\ id ∈ ids /\
        t_Name t = TrimSpace (mcpToolName server id))).
Proof.
  unfold AllowlistToolApprovalPolicy. destruct (add_sub_agents _ _) as [e|m] eqn:Hm; [done|]. intros [= <-].
  simpl. rewrite negb_false_iff, bool_decide_eq_true, elem_of_add_names, (elem_of_add_sub_agents _ _ _ _ Hm),
    elem_of_add_names. setoid_rewrite elem_of_mcp_names. rewrite elem_of_empty. naive_solver.
Qed.

(** ** Filters *)

Lemma MCPToolFilter_Apply_spec f specs d :
  d ∈ MCPToolFilter_Apply f specs <->
  d ∈ specs /\ (f_AllowTools f = [] \/ ts_Name d ∈ f_AllowTools f) /\
  (f_AllowTools f <> [] \/ ts_Name d ∉ f_BlockTools f).
Proof.
  unfold MCPToolFilter_Apply. destruct (f_AllowTools f); [destruct (f_BlockTools f)|];
    rewrite ?list_elem_of_In, ?List.filter_In, <- ?list_elem_of_In, ?negb_true_iff,
      ?bool_decide_eq_true, ?bool_decide_eq_false; set_solver.
Qed.

(** ** Fingerprints of policies *)

Definition comma_free (s : string) : Prop := ","%char ∉ to_bytes s.

Lemma comma_split (l1 l2 r1 r2 : bytes) (c : ascii) :
  c ∉ l1 -> c ∉ l2 -> l1 ++ c :: r1 = l2 ++ c :: r2 -> l1 = l2 /\ r1 = r2.
Proof.
  revert l2. induction l1 as [|a l1 IH]; intros [|b l2] H1 H2 Heq; simplify_eq/=.
  - done.
  - exfalso. apply H2. by left.
  - exfalso. apply H1. by left.
  - destruct (IH l2) as [-> ->]; [intros ?; apply H1; by right|intros ?; apply H2; by right|done..].
Qed.

Lemma Join_comma_inj l k :
  Forall comma_free l -> Forall comma_free k -> Forall (fun s => s <> "") l -> Forall (fun s => s <> "") k ->
  Join "," l = Join "," k -> l = k.
Proof.
  intros Hl. revert k. induction Hl as [|x l Hx Hl IH]; intros k Hk Hnl Hnk Heq.
  - destruct k as [|y k]; [done|]. inversion_clear Hnk. exfalso. by destruct k; simpl in Heq; destruct y.
  - destruct k as [|y k]; [inversion_clear Hnl; exfalso; by destruct l; simpl in Heq; destruct x|].
    inversion_clear Hk as [|? ? Hy Hk']. inversion_clear Hnl. inversion_clear Hnk.
    apply (f_equal to_bytes) in Heq.
    destruct l as [|x' l], k as [|y' k]; simpl in Heq; rewrite ?to_bytes_app in Heq.
    + f_equal. by apply to_bytes_inj.
    + exfalso. apply Hx. rewrite Heq. set_solver.
    + exfalso. apply Hy. rewrite <- Heq. set_solver.
    + simpl in Heq. apply comma_split in Heq as [Hxy Hr]; [|done..]. apply to_bytes_inj in Hxy, Hr. subst.
      f_equal. by apply IH.
Qed.

(** Caller and worker agree on an allowlist exactly when its fingerprints agree, for names
    without commas (and names are never blank in an allowlist). *)
Theorem allowlist_fingerprint_iff (a b : gset string) :
  set_Forall comma_free a -> set_Forall comma_free b -> "" ∉ a -> "" ∉ b ->
  toolPolicyFingerprint (Some (Allowlist a)) = toolPolicyFingerprint (Some (Allowlist b)) <-> a = b.
Proof.
  intros Ha Hb Hea Heb. split; [|by intros ->]. intros H. cbn [toolPolicyFingerprint] in H. apply String.app_inj in H.
  assert (Hs : forall c : gset string, set_Forall comma_free c -> "" ∉ c ->
     Forall comma_free (sort_Strings (elements c)) /\ Forall (fun s => s <> "") (sort_Strings (elements c))).
  { intros c Hc Hec. split; apply Forall_forall; intros x Hx%elem_of_sort_Strings%elem_of_elements; [auto|].
    by intros ->. }
  destruct (Hs a Ha Hea), (Hs b Hb Heb). apply Join_comma_inj in H; [|done..].
  apply sort_Strings_eq in H. apply leibniz_equiv. intros x. rewrite <- !elem_of_elements. by rewrite H.
Qed.

(** With a comma in a name two different policies share a fingerprint. *)
Example fingerprint_collision :
  toolPolicyFingerprint (Some (Allowlist {[ "a,b" ]})) = toolPolicyFingerprint (Some (Allowlist {[ "a"; "b" ]})) /\
  ({[ "a,b" ]} : gset string) <> {[ "a"; "b" ]}.
Proof. split; [vm_compute; reflexivity|]. intros H. assert (Hin : "a,b" ∈ ({[ "a"; "b" ]} : gset string)) by (rewrite <- H; set_solver). set_solver. Qed.
