(* ===== verification/McpClient.v ===== *)
(** The MCP client ([pkg/mcp/client/client.go], [config.go], the transports of
    [internal/types/mcp.go] and [newMCPClient] of [pkg/agent/mcp_registry.go]): validation of
    a server configuration, the session per operation with its retries, and the paginated
    tool listing.

    The MCP library and the server are the environment: [OConnect] opens a session,
    [OListTools] asks it for one page, [OCallTool] runs a tool.  An attempt has a deadline, so
    a session answers finitely many calls: how many is part of the answer to [OConnect], and
    the call after the last is answered [context deadline exceeded]. *)
From S2P Require Import Prelude GoLib Types Prog AgentTools.

#[local] Open Scope string_scope.
#[local] Open Scope list_scope.
#[local] Open Scope Z_scope.

Definition DefaultMCPTimeout : Duration := 30 * second.
Definition DefaultMCPRetryAttempts : Z := 1.
Definition millisecond : Duration := 1000000.

(** ** Transports *)

(** [clientcredentials.Config] *)
Record OAuthConfig := {
  oa_ClientID : string; oa_ClientSecret : string; oa_TokenURL : string;
  oa_Scopes : list string; oa_EndpointParams : list (string * list string) }.

Record MCPStreamableHTTP := {
  ht_URL : string; ht_Token : string; ht_OAuthClientCreds : option OAuthConfig;
  ht_Headers : list (string * string);  (* in iteration order *)
  ht_SkipTLSVerify : bool }.

(** [MCPTransportConfig]: the types of [internal/types] and any other implementation, by its
    [Kind], its Go type and what its [Validate] returns. *)
Inductive MCPTransportConfig :=
| MCPStdio (Command : string) (args : list string) (Env : list (string * string))
| MCPHTTP (h : MCPStreamableHTTP)
| MCPLoopback (transport : bool)  (* whether it holds an [sdkmcp.Transport] *)
| MCPCustom (kind type : string) (valid : option error).

Definition MCPTransportTypeStdio : string := "stdio".
Definition MCPTransportTypeStreamableHTTP : string := "streamable_http".
Definition MCPTransportTypeLoopback : string := "loopback".

Definition Transport_Kind (t : MCPTransportConfig) : string :=
  match t with
  | MCPStdio _ _ _ => MCPTransportTypeStdio
  | MCPHTTP _ => MCPTransportTypeStreamableHTTP
  | MCPLoopback _ => MCPTransportTypeLoopback
  | MCPCustom kind _ _ => kind
  end.

Definition blank (s : string) : bool := String.eqb (TrimSpace s) "".

(** [anyOAuth]: some field of the credentials is set. *)
Definition any_oauth (cc : OAuthConfig) : bool :=
  negb (blank (oa_ClientID cc) && blank (oa_ClientSecret cc) && blank (oa_TokenURL cc)
        && bool_decide (oa_Scopes cc = []) && bool_decide (oa_EndpointParams cc = [])).

Definition oauth_incomplete (cc : OAuthConfig) : bool :=
  blank (oa_ClientID cc) || blank (oa_ClientSecret cc) || blank (oa_TokenURL cc).

Definition HTTP_Validate (h : MCPStreamableHTTP) : option error :=
  if blank (ht_URL h) then Some (errors_New "mcp streamable_http: url is required")
  else
    let oauthActive := match ht_OAuthClientCreds h with Some cc => any_oauth cc | None => false end in
    if oauthActive && match ht_OAuthClientCreds h with Some cc => oauth_incomplete cc | None => false end then
      Some (errors_New "mcp streamable_http: oauth client credentials require client_id, client_secret, and token_url")
    else if negb (blank (ht_Token h)) && oauthActive then
      Some (errors_New "mcp streamable_http: set only one of token or oauth client credentials")
    else None.

Definition Transport_Validate (t : MCPTransportConfig) : option error :=
  match t with
  | MCPStdio cmd _ _ => if blank cmd then Some (errors_New "mcp stdio transport: Command is empty") else None
  | MCPHTTP h => HTTP_Validate h
  | MCPLoopback ok =>
      if ok then None
      else Some (errors_New "mcp loopback transport: Transport must be a non-nil sdkmcp.Transport")
  | MCPCustom _ _ valid => valid
  end.

(** *** The HTTP client of a transport *)

(** Header names compare up to case. *)
Definition same_header (k k' : string) : bool :=
  bool_decide (map lower_byte (to_bytes k) = map lower_byte (to_bytes k')).

(** [hdr.Get]: the first value of the header, the empty string if there is none. *)
Definition header_get (hdr : list (string * string)) (k : string) : string :=
  match List.find (fun p => same_header p.1 k) hdr with Some p => p.2 | None => "" end.

(** [hdr.Set]: replaces every value of the header. *)
Definition header_set (hdr : list (string * string)) (k v : string) : list (string * string) :=
  List.filter (fun p => negb (same_header p.1 k)) hdr ++ [(k, v)].

Record http_client := {
  hc_oauth : option OAuthConfig;  (* tokens fetched with these credentials *)
  hc_header : list (string * string);  (* added to every request *)
  hc_SkipTLSVerify : bool }.

Definition streamableHTTPClient (h : MCPStreamableHTTP) : http_client :=
  let hdr := omap (fun p => if blank p.1 then None else Some (TrimSpace p.1, p.2)) (ht_Headers h) in
  match ht_OAuthClientCreds h with
  | Some cc => {| hc_oauth := Some cc; hc_header := hdr; hc_SkipTLSVerify := ht_SkipTLSVerify h |}
  | None =>
      {| hc_oauth := None;
         hc_header :=
           if blank (ht_Token h) then hdr
           else if String.eqb (header_get hdr "Authorization") ""
                then header_set hdr "Authorization" ("Bearer " +:+ TrimSpace (ht_Token h)) else hdr;
         hc_SkipTLSVerify := ht_SkipTLSVerify h |}
  end.

(** [transportFromConfig], on its error. *)
Definition transportFromConfig (t : MCPTransportConfig) : option error :=
  match t with
  | MCPStdio cmd _ _ => if blank cmd then Some (errors_New "mcp stdio transport: Command is empty") else None
  | MCPHTTP h => if blank (ht_URL h) then Some (errors_New "mcp streamable_http transport: URL is empty") else None
  | MCPLoopback ok =>
      if ok then None
      else Some (errors_New "mcp loopback transport: Transport must be a non-nil sdkmcp.Transport")
  | MCPCustom kind type _ =>
      Some (errors_New
        (if String.eqb kind MCPTransportTypeStdio then "mcp stdio transport: unexpected config type " +:+ type
         else if String.eqb kind MCPTransportTypeStreamableHTTP then
           "mcp streamable_http transport: unexpected config type " +:+ type
         else if String.eqb kind MCPTransportTypeLoopback then
           "mcp loopback transport: unexpected config type " +:+ type
         else "unsupported mcp transport kind " +:+ Quote kind))
  end.

(** ** Construction *)

(** [agent.MCPConfig] *)
Record MCPConfig := {
  mc_Transport : option MCPTransportConfig; mc_ToolFilter : MCPToolFilter;
  mc_Timeout : Duration; mc_RetryAttempts : Z }.

(** [ClientConfig] without the logger. *)
Record ClientConfig := { cc_Timeout : Duration; cc_RetryAttempts : Z; cc_ToolFilter : MCPToolFilter }.

(** [BuildConfig], on the configuration the options have filled. *)
Definition BuildConfig (c : ClientConfig) : result ClientConfig :=
  match MCPToolFilter_Validate (cc_ToolFilter c) with
  | Some e => inl (wrap_error "mcp client config: " e)
  | None =>
      inr {| cc_Timeout := if cc_Timeout c <=? 0 then DefaultMCPTimeout else cc_Timeout c;
             cc_RetryAttempts := if cc_RetryAttempts c <=? 0 then DefaultMCPRetryAttempts else cc_RetryAttempts c;
             cc_ToolFilter := cc_ToolFilter c |}
  end.

(** [Client]; [cl_closed] says that [mcpClient] is nil. *)
Record Client := {
  cl_name : string; cl_transportCfg : MCPTransportConfig; cl_closed : bool;
  cl_rpcTimeout : Duration; cl_maxRPCAttempts : Z; cl_toolFilter : MCPToolFilter }.

Definition NewClient (name : string) (transportCfg : option MCPTransportConfig) (c : ClientConfig) : result Client :=
  if blank name then inl (errors_New "mcp client: name is empty")
  else match transportCfg with
  | None => inl (errors_New "mcp client: transport config is nil")
  | Some t =>
      match Transport_Validate t with
      | Some e => inl (wrap_error "mcp client: " e)
      | None =>
          match BuildConfig c with
          | inl e => inl e
          | inr cfg =>
              match transportFromConfig t with
              | Some e => inl e
              | None =>
                  inr {| cl_name := name; cl_transportCfg := t; cl_closed := false; cl_rpcTimeout := cc_Timeout cfg;
                         cl_maxRPCAttempts := if cc_RetryAttempts cfg <? 1 then 1 else cc_RetryAttempts cfg;
                         cl_toolFilter := cc_ToolFilter cfg |}
              end
          end
      end
  end.

(** [newMCPClient] of the agent's registry. *)
Definition newMCPClient (name : string) (cfg : MCPConfig) : result Client :=
  let name := TrimSpace name in
  if String.eqb name "" then inl (sentinel_error ErrRegistryInvalidName)
  else match mc_Transport cfg with
  | None => inl (errors_New ("mcp " +:+ Quote name +:+ ": Transport is required"))
  | Some t =>
      match NewClient name (Some t) {| cc_Timeout := mc_Timeout cfg; cc_RetryAttempts := mc_RetryAttempts cfg;
                                       cc_ToolFilter := mc_ToolFilter cfg |} with
      | inl e => inl (wrap_error ("mcp " +:+ Quote name +:+ ": new client: ") e)
      | inr c => inr c
      end
  end.

(** [Close] *)
Definition Client_Close (c : Client) : Client :=
  {| cl_name := cl_name c; cl_transportCfg := cl_transportCfg c; cl_closed := true;
     cl_rpcTimeout := cl_rpcTimeout c; cl_maxRPCAttempts := cl_maxRPCAttempts c; cl_toolFilter := cl_toolFilter c |}.

(** ** Effects *)

(** [sdkmcp.Tool]; the schema is what the JSON of the reply decodes to. *)
Record McpTool := { mt_Name : string; mt_Description : string; mt_InputSchema : value }.

(** A page: tools ([nil] ones included) and the cursor of the next page. *)
Record Page := { pg_Tools : list (option McpTool); pg_NextCursor : string }.

Inductive McpOp :=
| OConnect (deadline : Duration)
| OPing
| OListTools (cursor : string)
| OCallTool (tool : string) (args : value)
| OCloseSession
| OWaitRetry (d : Duration)
| OMcpSched.

(** [OConnect] answers how many calls the session serves before the deadline; [OWaitRetry]
    answers the error of the parent context if it ended; a tool's result is its JSON. *)
Definition McpAns (o : McpOp) : Type :=
  match o with
  | OConnect _ => result nat
  | OPing => option error
  | OListTools _ => result Page
  | OCallTool _ _ => result string
  | OCloseSession => option error
  | OWaitRetry _ => option error
  | OMcpSched => bool
  end.

#[export] Instance mcp_sig : Sig := {| op := McpOp; ans := McpAns; sched := OMcpSched; sched_ans := id |}.

Definition mcall (o : McpOp) : prog (McpAns o) := perform (S := mcp_sig) o.

Definition mcpRetryDelay (attempt : Z) : Duration :=
  let d := wrap64 (attempt * 50 * millisecond) in
  if 2 * second <? d then 2 * second else d.

(** ** Sessions *)

Section session.
(** What the operation does with a session that serves [n] calls; [S] is the state of the
    variables its closure captures, which outlives a failed attempt. *)
Context {S : Type} (fn : nat -> S -> prog (option error * S)).

(** The attempt loop, [n] further attempts being allowed. *)
Fixpoint attempts (c : Client) (n : nat) (attempt : Z) (s : S) : prog (option error * S) :=
  let again (e : error) (s : S) : prog (option error * S) :=
    match n with
    | O => mret (Some e, s)
    | Datatypes.S n =>
        w ← mcall (OWaitRetry (mcpRetryDelay attempt));
        match w with
        | Some e => mret (Some e, s)
        | None => attempts c n (attempt + 1) s
        end
    end in
  match transportFromConfig (cl_transportCfg c) with
  | Some e => mret (Some e, s)
  | None =>
      sess ← mcall (OConnect (cl_rpcTimeout c));
      match sess with
      | inl e => again e s
      | inr life =>
          r ← fn life s;
          _ ← mcall OCloseSession;
          match r.1 with
          | None => mret (None, r.2)
          | Some e => again e r.2
          end
      end
  end.

Definition withSession (c : Client) (s : S) : prog (option error * S) :=
  if cl_closed c then mret (Some (errors_New "mcp client: closed"), s)
  else attempts c (Z.to_nat ((if cl_maxRPCAttempts c <? 1 then 1 else cl_maxRPCAttempts c) - 1)) 1 s.
End session.

(** ** Operations *)

Definition inputSchemaToJSONSchema (v : value) : value :=
  match v with
  | VObj [] => object_schema
  | VObj l => VObj l
  | _ => object_schema
  end.

Definition toolToSpec (t : McpTool) : ToolSpec :=
  {| ts_Name := mt_Name t; ts_Description := mt_Description t;
     ts_Parameters := inputSchemaToJSONSchema (mt_InputSchema t) |}.

Definition page_specs (p : Page) : list ToolSpec := map toolToSpec (omap id (pg_Tools p)).

Definition deadline_exceeded : error := sentinel_error ContextDeadlineExceeded.

(** The pagination loop of [ListTools]; [out] is the captured variable. *)
Fixpoint list_pages (life : nat) (cursor : string) (out : list ToolSpec) : prog (option error * list ToolSpec) :=
  match life with
  | O => mret (Some deadline_exceeded, out)
  | S life =>
      r ← mcall (OListTools cursor);
      match r with
      | inl e => mret (Some e, out)
      | inr p =>
          let out := out ++ page_specs p in
          if String.eqb (pg_NextCursor p) "" then mret (None, out) else list_pages life (pg_NextCursor p) out
      end
  end.

Definition ListTools (c : Client) : prog (result (list ToolSpec)) :=
  r ← withSession (fun life out => list_pages life "" out) c [];
  mret (match r.1 with Some e => inl e | None => inr (MCPToolFilter_Apply (cl_toolFilter c) r.2) end).

Definition Ping (c : Client) : prog (option error) :=
  r ← withSession (fun life (_ : unit) =>
        match life with
        | O => mret (Some deadline_exceeded, tt)
        | S _ => e ← mcall OPing; mret (e, tt)
        end) c tt;
  mret r.1.

(** [CallTool], on the decoding of its input ([None] for an empty one). *)
Definition CallTool (c : Client) (tool : string) (input : option (result value)) : prog (result string) :=
  match input with
  | Some (inl e) => mret (inl (wrap_error "mcp tools/call arguments: " e))
  | _ =>
      let args := match input with Some (inr VNull) | None => VObj [] | Some (inr v) => v | Some (inl _) => VObj [] end in
      r ← withSession (fun life raw =>
            match life with
            | O => mret (Some deadline_exceeded, raw)
            | S _ =>
                a ← mcall (OCallTool tool args);
                mret (match a with inl e => (Some e, raw) | inr b => (None, b) end)
            end) c "";
      mret (match r.1 with Some e => inl e | None => inr r.2 end)
  end.

(** ** Theorems *)

#[local] Abbreviation mevent := (event mcp_sig).

Definition count (f : mevent -> bool) (tr : list mevent) : nat := length (List.filter f tr).

Lemma count_app f t1 t2 : count f (t1 ++ t2) = (count f t1 + count f t2)%nat.
Proof. unfold count. by rewrite List.filter_app, length_app. Qed.

Definition is_connect (e : mevent) : bool := match ev_op e with OConnect _ => true | _ => false end.
Definition is_close (e : mevent) : bool := match ev_op e with OCloseSession => true | _ => false end.
Definition is_opened (e : mevent) : bool :=
  match e with Ev (OConnect _) (inr _) => true | _ => false end.
Definition is_call (e : mevent) : bool := match ev_op e with OCallTool _ _ => true | _ => false end.

(** The pages a trace received, in order. *)
Definition page_of (e : mevent) : option Page := match e with Ev (OListTools _) (inr p) => Some p | _ => None end.
Definition pages (tr : list mevent) : list Page := omap page_of tr.

Lemma pages_app t1 t2 : pages (t1 ++ t2) = pages t1 ++ pages t2.
Proof. apply omap_app. Qed.

(** What an operation does inside a session: no session of its own, one tool call at most. *)
Definition sessionless (tr : list mevent) : Prop :=
  count is_connect tr = 0%nat /\ count is_close tr = 0%nat /\ (count is_call tr <= 1)%nat.

Lemma opened_le_connects tr : (count is_opened tr <= count is_connect tr)%nat.
Proof.
  induction tr as [|[o a] tr IH]; [done|]. unfold count in *. destruct o; simpl; try lia.
  destruct a; simpl; lia.
Qed.

Lemma spec_mcall {A} o (f : McpAns o -> prog A) (Q : list mevent -> A -> Prop) :
  (forall r, spec (f r) (fun tr a => Q ([Ev (S := mcp_sig) o r] ++ tr) a)) -> spec (mcall o ≫= f) Q.
Proof. intros H. apply (spec_do (S := mcp_sig) o f). exact H. Qed.

Section session_spec.
Context {St : Type} (fn : nat -> St -> prog (option error * St)).
(** What an attempt adds to the state is read off its trace. *)
Context (R : St -> list mevent -> St -> Prop).
Hypothesis R_nil : forall s, R s [] s.
Hypothesis R_app : forall s t1 s1 t2 s2, R s t1 s1 -> R s1 t2 s2 -> R s (t1 ++ t2) s2.
Hypothesis R_session : forall s o r,
  match o with OConnect _ | OCloseSession | OWaitRetry _ => True | _ => False end -> R s [Ev (S := mcp_sig) o r] s.
Hypothesis fn_spec : forall life s, spec (fn life s) (fun tr r => R s tr r.2 /\ sessionless tr).

(** A trace of at most [n] attempts, with every session it opened closed. *)
Definition within (n : nat) (s : St) (tr : list mevent) (s' : St) : Prop :=
  R s tr s' /\ (count is_connect tr <= n)%nat /\ count is_opened tr = count is_close tr /\ (count is_call tr <= n)%nat.

Lemma within_app n1 n2 s t1 s1 t2 s2 : within n1 s t1 s1 -> within n2 s1 t2 s2 -> within (n1 + n2) s (t1 ++ t2) s2.
Proof. intros (? & ? & ? & ?) (? & ? & ? & ?). split; [by eapply R_app|]. rewrite !count_app. lia. Qed.

Lemma within_wait s d w : within 0 s [Ev (S := mcp_sig) (OWaitRetry d) w] s.
Proof. split; [by apply R_session|by repeat split; cbn; lia]. Qed.

Lemma within_refused s d e : within 1 s [Ev (S := mcp_sig) (OConnect d) (inl e)] s.
Proof. split; [by apply R_session|by repeat split; cbn; lia]. Qed.

Lemma within_session s d life t cr s' :
  R s t s' -> sessionless t ->
  within 1 s ([Ev (S := mcp_sig) (OConnect d) (inr life)] ++ t ++ [Ev (S := mcp_sig) OCloseSession cr]) s'.
Proof.
  intros HR (Hc & Hcl & Hcall). split.
  - apply (R_app _ [_] s); [by apply R_session|]. apply (R_app _ _ s'); [done|by apply R_session].
  - pose proof (opened_le_connects t). rewrite !count_app, Hc, Hcl.
    assert (count is_opened t = 0%nat) as -> by lia. cbv [count List.filter is_connect is_opened is_close is_call ev_op length] in *. lia.
Qed.

Lemma within_le m n s t s' : (m <= n)%nat -> within m s t s' -> within n s t s'.
Proof. intros ? (? & ? & ? & ?). split; [done|]. lia. Qed.

(** After a failed attempt: wait, then the remaining attempts. *)
Lemma again_spec n s t s' d (next : prog (option error * St)) :
  within 1 s t s' -> spec next (fun tr r => within n s' tr r.2) ->
  spec (w ← mcall (OWaitRetry d); match w with Some e => mret (Some e, s') | None => next end)
    (fun tr r => within (S n) s (t ++ tr) r.2).
Proof.
  intros Hw Hn. apply spec_mcall. intros w. pose proof (within_app _ _ _ _ _ _ _ Hw (within_wait s' d w)) as Hww.
  destruct w as [e|].
  - apply spec_mret. rewrite app_nil_r. eapply within_le; [|exact Hww]. lia.
  - eapply spec_conseq; [exact Hn|]. intros tr r Hr. rewrite app_assoc.
    exact (within_app _ _ _ _ _ _ _ Hww Hr).
Qed.

Lemma attempts_spec c n attempt s : spec (attempts fn c n attempt s) (fun tr r => within (S n) s tr r.2).
Proof.
  revert attempt s. induction n as [|n IH]; intros attempt s; cbn [attempts];
    (destruct (transportFromConfig _); [apply spec_mret; split; [apply R_nil|cbn; lia]|]);
    apply spec_mcall; intros [e|life].
  - apply spec_mret, within_refused.
  - eapply spec_bind; [apply fn_spec|]. intros t1 [[e|] s'] [HR Hs]; apply spec_mcall; intros cr;
      apply spec_mret; rewrite app_nil_r; by apply within_session.
  - by apply again_spec; [apply within_refused|].
  - eapply spec_bind; [apply fn_spec|]. intros t1 [[e|] s'] [HR Hs]; apply spec_mcall; intros cr.
    + pose proof (within_session s (cl_rpcTimeout c) life t1 cr s' HR Hs) as Hw.
      eapply spec_conseq; [apply (again_spec (S n) s _ s' (mcpRetryDelay attempt) _ Hw (IH _ _))|].
      intros tr r. cbn [app]. by rewrite <- app_assoc.
    + apply spec_mret. rewrite app_nil_r. eapply within_le; [|by apply within_session]. lia.
Qed.

Lemma withSession_spec c s :
  spec (withSession fn c s) (fun tr r => within (Z.to_nat (Z.max 1 (cl_maxRPCAttempts c))) s tr r.2).
Proof.
  unfold withSession. destruct (cl_closed c).
  - apply spec_mret. split; [apply R_nil|cbn; lia].
  - eapply spec_conseq; [apply attempts_spec|]. intros tr r. apply within_le.
    destruct (cl_maxRPCAttempts c <? 1) eqn:E; crush_bool; lia.
Qed.
End session_spec.

(** ** Tool listing *)

Definition is_list_event (e : mevent) : Prop := match ev_op e with OListTools _ => True | _ => False end.

Lemma list_events_sessionless tr : Forall is_list_event tr -> sessionless tr.
Proof.
  unfold sessionless. induction 1 as [|[[] a] tr H Ht IH]; try done. by repeat split; cbn; lia.
Qed.

Lemma list_pages_spec life cursor out :
  spec (list_pages life cursor out) (fun tr r =>
    r.2 = out ++ flat_map page_specs (pages tr) /\ Forall is_list_event tr).
Proof.
  revert cursor out. induction life as [|life IH]; intros cursor out; cbn [list_pages].
  - apply spec_mret. by rewrite app_nil_r.
  - apply spec_mcall. intros [e|p]; [apply spec_mret; by rewrite app_nil_r; repeat constructor|].
    destruct (String.eqb _ _).
    + apply spec_mret. split; [|by repeat constructor]. cbn. by rewrite app_nil_r.
    + eapply spec_conseq; [apply IH|]. intros tr r [-> Hl]. split; [|by constructor]. cbn. by rewrite <- app_assoc.
Qed.

(** [ListTools] makes at most the configured number of attempts, closes every session it
    opens, and returns the filtered tools of every page it received, those of failed attempts
    included: a page read before a failure is listed again by the next attempt. *)
Theorem ListTools_accumulates c tr r :
  texec (ListTools c) tr r ->
  (count is_connect tr <= Z.to_nat (Z.max 1 (cl_maxRPCAttempts c)))%nat /\
  count is_opened tr = count is_close tr /\
  forall out, r = inr out -> out = MCPToolFilter_Apply (cl_toolFilter c) (flat_map page_specs (pages tr)).
Proof.
  revert tr r. unfold ListTools. eapply spec_bind.
  - apply (withSession_spec _ (fun s tr s' => s' = s ++ flat_map page_specs (pages tr))).
    + intros s. by rewrite app_nil_r.
    + intros s t1 s1 t2 s2 -> ->. by rewrite pages_app, flat_map_app, app_assoc.
    + intros s [] a ?; try done; by rewrite app_nil_r.
    + intros life s. eapply spec_conseq; [apply list_pages_spec|]. intros t r [-> Hl]. split; [done|].
      by apply list_events_sessionless.
  - intros t1 [e out] (Hout & Hc & Ho & _). apply spec_mret. rewrite app_nil_r. split; [done|]. split; [done|].
    intros o Hr. destruct e; [done|]. injection Hr as <-. cbn in Hout. by rewrite Hout.
Qed.

(** A complete listing: pages linked by their cursors, the last one without a next. *)
Inductive listing : string -> list Page -> Prop :=
| listing_last cursor p : pg_NextCursor p = "" -> listing cursor [p]
| listing_more cursor p ps : pg_NextCursor p <> "" -> listing (pg_NextCursor p) ps -> listing cursor (p :: ps).

(** The cursors a trace asked for. *)
Definition asked (tr : list mevent) : list string :=
  omap (fun e => match ev_op e with OListTools cur => Some cur | _ => None end) tr.

(** What a listing that starts at [cursor] asks for. *)
Fixpoint cursors (cursor : string) (ps : list Page) : list string :=
  match ps with [] => [] | p :: ps => cursor :: cursors (pg_NextCursor p) ps end.

Lemma list_pages_complete life cursor out :
  spec (list_pages life cursor out) (fun tr r => r.1 = None -> listing cursor (pages tr) /\ asked tr = cursors cursor (pages tr)).
Proof.
  revert cursor out. induction life as [|life IH]; intros cursor out; cbn [list_pages]; [by apply spec_mret|].
  apply spec_mcall. intros [e|p]; [by apply spec_mret|]. destruct (String.eqb_spec (pg_NextCursor p) "").
  - apply spec_mret. intros _. split; [by apply listing_last|done].
  - eapply spec_conseq; [apply IH|]. intros tr r H Hr. destruct (H Hr) as [Hl Ha].
    split; [by apply listing_more|]. cbn. f_equal. exact Ha.
Qed.

(** Without retries [ListTools] returns exactly the server's listing: the filtered tools of
    one chain of pages, from the first to the one without a next cursor. *)
Theorem ListTools_single_attempt c tr out :
  cl_maxRPCAttempts c <= 1 -> texec (ListTools c) tr (inr out) ->
  listing "" (pages tr) /\ asked tr = cursors "" (pages tr) /\
  out = MCPToolFilter_Apply (cl_toolFilter c) (flat_map page_specs (pages tr)).
Proof.
  intros Hmax Hx. destruct (ListTools_accumulates c tr _ Hx) as (_ & _ & Hout). specialize (Hout out eq_refl).
  enough (listing "" (pages tr) /\ asked tr = cursors "" (pages tr)) as [? ?] by done. clear Hout. revert Hx. remember (inr out) as r eqn:Hr. revert tr r Hr.
  unfold ListTools, withSession. replace (Z.to_nat _) with 0%nat by (case_match; crush_bool; lia).
  assert (Hb : spec (if cl_closed c then mret (Some (errors_New "mcp client: closed"), [])
                     else attempts (fun life out => list_pages life "" out) c 0 1 [])
    (fun tr r => r.1 = None -> listing "" (pages tr) /\ asked tr = cursors "" (pages tr))).
  { destruct (cl_closed c); [by apply spec_mret|]. cbn [attempts].
    destruct (transportFromConfig _); [by apply spec_mret|]. apply spec_mcall. intros [e|life]; [by apply spec_mret|].
    eapply spec_bind; [apply list_pages_complete|]. intros t1 [[e|] o] H; apply spec_mcall; intros cr; apply spec_mret; [done|].
    intros _. destruct (H eq_refl) as [Hl Ha]. unfold pages, asked in *.
    rewrite !omap_app. cbn. by rewrite !app_nil_r. }
  intros tr r Hr Hx. revert tr r Hx Hr.
  apply (spec_bind _ _ _ (fun tr r => r = inr out -> listing "" (pages tr) /\ asked tr = cursors "" (pages tr)) Hb). intros t1 [e o] H. apply spec_mret. intros Hr. rewrite app_nil_r.
  destruct e; [done|]. by apply H.
Qed.

(** *** A retried listing repeats the pages of the failed attempt *)

Definition sample_client (retries : Z) : result Client :=
  newMCPClient " docs " {| mc_Transport := Some (MCPStdio "server" [] []);
    mc_ToolFilter := {| f_AllowTools := []; f_BlockTools := [] |}; mc_Timeout := 0; mc_RetryAttempts := retries |}.

Definition sample_page (name next : string) : Page :=
  {| pg_Tools := [Some {| mt_Name := name; mt_Description := ""; mt_InputSchema := VNull |}; None];
     pg_NextCursor := next |}.

(** A server with two pages whose second request fails once; the state counts requests. *)
Definition flaky (w : nat) (o : McpOp) : McpAns o * nat :=
  match o with
  | OConnect _ => (inr 9%nat, w)
  | OListTools cursor =>
      (if String.eqb cursor "" then inr (sample_page "a" "2")
       else if Nat.eqb w 1 then inl (errors_New "reset") else inr (sample_page "b" ""), S w)
  | OPing | OCloseSession | OWaitRetry _ => (None, w)
  | OCallTool _ _ => (inr "", w)
  | OMcpSched => (true, w)
  end.

Definition listed_names (retries : Z) : option (list string) :=
  match sample_client retries with
  | inl _ => None
  | inr c => match run_value (S := mcp_sig) flaky 0%nat (ListTools c) with
             | inl _ => None
             | inr out => Some (map ts_Name out)
             end
  end.

Example ListTools_retry_duplicates : listed_names 2 = Some ["a"; "a"; "b"] /\ listed_names 1 = None.
Proof. vm_compute. auto. Qed.

(** ** Tool calls *)

Definition call_answers (tr : list mevent) : list string :=
  omap (fun e => match e with Ev (OCallTool _ _) (inr b) => Some b | _ => None end) tr.

Lemma call_fn_spec tool args life raw :
  spec (match life with
        | O => mret (Some deadline_exceeded, raw)
        | S _ => a ← mcall (OCallTool tool args); mret (match a with inl e => (Some e, raw) | inr b => (None, b) end)
        end) (fun tr r => (r.2 = default raw (last (call_answers tr))) /\ sessionless tr).
Proof.
  destruct life; [apply spec_mret; repeat split; cbn; lia|].
  apply spec_mcall. intros [e|b]; apply spec_mret; repeat split; cbn; lia.
Qed.

(** [CallTool] may run the tool once per attempt and no more; what it returns is the answer
    of the last call that was answered, and undecodable arguments reach no server. *)
Theorem CallTool_at_most_attempts c tool input tr r :
  texec (CallTool c tool input) tr r ->
  (count is_call tr <= Z.to_nat (Z.max 1 (cl_maxRPCAttempts c)))%nat /\
  (forall b, r = inr b -> b = default "" (last (call_answers tr))) /\
  (forall e, input = Some (inl e) -> tr = []).
Proof.
  assert (Hmain : forall args, spec (r ← withSession (fun life raw =>
      match life with
      | O => mret (Some deadline_exceeded, raw)
      | S _ => a ← mcall (OCallTool tool args); mret (match a with inl e => (Some e, raw) | inr b => (None, b) end)
      end) c "";
      mret (match r.1 with Some e => inl e | None => inr r.2 end))
    (fun tr r => (count is_call tr <= Z.to_nat (Z.max 1 (cl_maxRPCAttempts c)))%nat /\
       forall b, r = inr b -> b = default "" (last (call_answers tr)))).
  { intros args. eapply spec_bind.
    - apply (withSession_spec _ (fun s tr s' => s' = default s (last (call_answers tr)))).
      + done.
      + intros s t1 s1 t2 s2 -> ->. unfold call_answers. rewrite omap_app, last_app. by destruct (last (omap _ t2)).
      + by intros s [] a ?.
      + intros life s. apply call_fn_spec.
    - intros t1 [e raw] (Hraw & _ & _ & Hcall). apply spec_mret. rewrite app_nil_r. split; [done|].
      intros b Hb. destruct e; [done|]. by injection Hb as <-. }
  intros Hx. destruct input as [[e|v]|].
  - cbn in Hx. apply texec_ret_inv in Hx as [-> ->]. split; [cbn; lia|]. by split.
  - destruct (Hmain _ tr r Hx). repeat split; [done..|]. by intros ? [=].
  - destruct (Hmain _ tr r Hx). repeat split; [done..|]. by intros ? [=].
Qed.

(** ** Authorization of the HTTP transport *)

Definition bare_http (token : string) (cc : option OAuthConfig) : MCPStreamableHTTP :=
  {| ht_URL := "https://mcp.example"; ht_Token := token; ht_OAuthClientCreds := cc; ht_Headers := [];
     ht_SkipTLSVerify := false |}.

(** A token is sent, unless the caller's headers authorize already. *)
Lemma bearer_token_sent h :
  ht_OAuthClientCreds h = None -> blank (ht_Token h) = false ->
  header_get (hc_header (streamableHTTPClient h)) "Authorization" <> "".
Proof.
  intros Hcc Ht. unfold streamableHTTPClient. rewrite Hcc. cbn [hc_header]. rewrite Ht.
  generalize (omap (fun p => if blank p.1 then None else Some (TrimSpace p.1, p.2)) (ht_Headers h)). intros hdr.
  destruct (String.eqb_spec (header_get hdr "Authorization") "") as [_|]; [|done].
  unfold header_get, header_set. induction hdr as [|[k v] hdr IH]; simpl; [done|].
  destruct (same_header k "Authorization") eqn:E; simpl; [done|]. by rewrite E.
Qed.

(** Credentials without any field set pass validation next to a token, and the token is then
    dropped: [streamableHTTPClient] only asks whether the pointer is nil. *)
Example zero_oauth_drops_token :
  let h := bare_http "secret" (Some {| oa_ClientID := ""; oa_ClientSecret := ""; oa_TokenURL := "";
                                       oa_Scopes := []; oa_EndpointParams := [] |}) in
  HTTP_Validate h = None /\ header_get (hc_header (streamableHTTPClient h)) "Authorization" = "" /\
  header_get (hc_header (streamableHTTPClient (bare_http "secret" None))) "Authorization" = "Bearer secret".
Proof. vm_compute. auto. Qed.
