(* ===== verification/A2aClient.v ===== *)
(** The A2A client ([pkg/a2a/client/client.go], [config.go], [convert.go]): the configuration
    and its header map, which is a Go map shared with the caller; the headers of card
    resolution; the lazily created connection under concurrent calls and [Close]; the
    conversions between the SDK's messages and the program's.

    The a2a library is the environment.  Its data types appear as the program inspects them. *)
From S2P Require Import Prelude GoLib Types Prog AgentTools McpClient.

#[local] Open Scope string_scope.
#[local] Open Scope list_scope.
#[local] Open Scope Z_scope.

Definition DefaultA2ATimeout : Duration := 30 * second.

(** ** Configuration *)

(** Go maps are shared by reference: header maps live in a store. *)
Abbreviation map_loc := nat.
Abbreviation map_store := (gmap nat (gmap string string)).

Definition fresh_loc (s : map_store) : map_loc := fresh (dom s : gset map_loc).

(** [ClientConfig] without the logger; a nil header map is [None]. *)
Record A2AClientConfig := {
  aa_Timeout : Duration; aa_Token : string; aa_Headers : option map_loc;
  aa_SkipTLSVerify : bool; aa_SkillFilter : A2ASkillFilter }.

Definition set_headers (c : A2AClientConfig) (h : option map_loc) (t : Duration) : A2AClientConfig :=
  {| aa_Timeout := t; aa_Token := aa_Token c; aa_Headers := h; aa_SkipTLSVerify := aa_SkipTLSVerify c;
     aa_SkillFilter := aa_SkillFilter c |}.

(** The token injection of [BuildConfig]: it writes into the map the caller passed. *)
Definition inject_token (s : map_store) (c : A2AClientConfig) : option map_loc * map_store :=
  let tok := TrimSpace (aa_Token c) in
  if String.eqb tok "" then (aa_Headers c, s)
  else
    let '(l, s) := match aa_Headers c with
                   | Some l => (l, s)
                   | None => let l := fresh_loc s in (l, <[l := ∅]> s)
                   end in
    let m := default ∅ (s !! l) in
    match m !! "Authorization" with
    | Some _ => (Some l, s)
    | None => (Some l, <[l := <["Authorization" := "Bearer " +:+ tok]> m]> s)
    end.

(** [BuildConfig], on the configuration the options have filled; the map is written before
    the filter is validated. *)
Definition A2A_BuildConfig (s : map_store) (c : A2AClientConfig) : result A2AClientConfig * map_store :=
  let '(h, s) := inject_token s c in
  match A2ASkillFilter_Validate (aa_SkillFilter c) with
  | Some e => (inl (wrap_error "a2a client config: " e), s)
  | None => (inr (set_headers c h (if aa_Timeout c <=? 0 then DefaultA2ATimeout else aa_Timeout c)), s)
  end.

(** The immutable part of [Client]; [ca_headers] is what its HTTP client reads at each request. *)
Record A2AClientRec := {
  ca_name : string; ca_url : string; ca_timeout : Duration; ca_skillFilter : A2ASkillFilter;
  ca_headers : option map_loc; ca_SkipTLSVerify : bool }.

(** [buildHTTPClient]: requests carry headers only if there are some when the client is made. *)
Definition buildHTTPClient (s : map_store) (c : A2AClientConfig) : option map_loc :=
  match aa_Headers c with
  | Some l => if bool_decide (default ∅ (s !! l) = ∅) then None else Some l
  | None => None
  end.

Definition A2A_NewClient (s : map_store) (name url : string) (c : A2AClientConfig) : result A2AClientRec * map_store :=
  if blank name then (inl (errors_New "a2a client: name is empty"), s)
  else if blank url then (inl (errors_New "a2a client: url is empty"), s)
  else
    let '(r, s) := A2A_BuildConfig s c in
    (match r with
     | inl e => inl e
     | inr cfg => inr {| ca_name := name; ca_url := url; ca_timeout := aa_Timeout cfg;
                         ca_skillFilter := aa_SkillFilter cfg; ca_headers := buildHTTPClient s cfg;
                         ca_SkipTLSVerify := aa_SkipTLSVerify cfg |}
     end, s).

(** [agent.A2AConfig] and [newA2AClient] of the agent's registry. *)
Record A2AConfig := {
  xc_URL : string; xc_Timeout : Duration; xc_Token : string; xc_Headers : option map_loc;
  xc_SkillFilter : A2ASkillFilter; xc_SkipTLSVerify : bool }.

Definition newA2AClient (s : map_store) (name : string) (cfg : A2AConfig) : result A2AClientRec * map_store :=
  let name := TrimSpace name in
  if String.eqb name "" then (inl (sentinel_error ErrRegistryInvalidName), s)
  else if blank (xc_URL cfg) then (inl (errors_New ("a2a " +:+ Quote name +:+ ": URL is required")), s)
  else
    let '(r, s) := A2A_NewClient s name (xc_URL cfg)
      {| aa_Timeout := xc_Timeout cfg; aa_Token := xc_Token cfg; aa_Headers := xc_Headers cfg;
         aa_SkipTLSVerify := xc_SkipTLSVerify cfg; aa_SkillFilter := xc_SkillFilter cfg |} in
    (match r with
     | inl e => inl (wrap_error ("a2a " +:+ Quote name +:+ ": new client: ") e)
     | inr c => inr c
     end, s).

(** The headers [headerRoundTripper] sets on a request made now: blank names are skipped.  Only
    card resolution goes through it: [NewFromCard] is not given this HTTP client. *)
Definition request_headers (s : map_store) (c : A2AClientRec) : list (string * string) :=
  match ca_headers c with
  | None => []
  | Some l =>
      omap (fun p => if blank p.1 then None else Some (TrimSpace p.1, p.2)) (map_to_list (default ∅ (s !! l)))
  end.

(** ** SDK data *)

Inductive SDKContent :=
| SDKText (text : string)
| SDKRaw (raw : string)
| SDKData (v : value)
| SDKURL (url : string)
| SDKNoContent.

Record SDKPart := { sp_Content : SDKContent; sp_MediaType : string }.

Inductive SDKRole := RoleUser | RoleAgent | RoleOther.

Record SDKMessage := {
  sm_ID : string; sm_Role : SDKRole; sm_Parts : list (option SDKPart); sm_TaskID : string; sm_ContextID : string }.

Inductive SDKTaskState :=
| TaskStateSubmitted | TaskStateWorking | TaskStateInputRequired | TaskStateCompleted | TaskStateCanceled
| TaskStateFailed | TaskStateRejected | TaskStateAuthRequired | TaskStateOther (s : string).

Record SDKArtifact := { sa_ID : string; sa_Name : string; sa_Parts : list (option SDKPart) }.

Record SDKTask := {
  st_ID : string; st_ContextID : string; st_State : SDKTaskState; st_Message : option SDKMessage;
  st_Artifacts : list (option SDKArtifact) }.

(** ** The program's data ([pkg/interfaces/a2a.go]); raw JSON data is the value it holds. *)

Record A2APart := {
  pt_Kind : string; pt_Text : string; pt_Data : value; pt_FileMIMEType : string; pt_FileBytes : string;
  pt_FileURI : string }.

Record A2AMessage := { am_MessageID : string; am_Role : string; am_Parts : list A2APart }.

Record A2AArtifact := { aa_ArtifactID : string; aa_Name : string; aa_Parts : list A2APart }.

Record A2ATask := {
  tk_ID : string; tk_SessionID : string; tk_Status : string; tk_Message : option A2AMessage;
  tk_Artifacts : list A2AArtifact }.

Record A2AStreamEvent := {
  se_Kind : string; se_TaskID : string; se_IsFinal : bool; se_Message : option A2AMessage;
  se_TaskStatus : option (string * option A2AMessage); se_Artifact : option A2AArtifact }.

Definition zero_event : A2AStreamEvent :=
  {| se_Kind := ""; se_TaskID := ""; se_IsFinal := false; se_Message := None; se_TaskStatus := None;
     se_Artifact := None |}.

(** ** [base64.StdEncoding] *)
Module Base64.

Definition digit (n : N) : ascii :=
  ascii_of_N (if (n <? 26)%N then 65 + n else if (n <? 52)%N then 71 + n else if (n <? 62)%N then n - 4
              else if (n =? 62)%N then 43 else 47)%N.

Definition undigit (c : ascii) : option N :=
  let n := N_of_ascii c in
  if ((65 <=? n) && (n <=? 90))%N then Some (n - 65)%N
  else if ((97 <=? n) && (n <=? 122))%N then Some (n - 71)%N
  else if ((48 <=? n) && (n <=? 57))%N then Some (n + 4)%N
  else if (n =? 43)%N then Some 62%N
  else if (n =? 47)%N then Some 63%N
  else None.

Fixpoint encode (l : bytes) : bytes :=
  match l with
  | a :: b :: c :: l =>
      let n := (N_of_ascii a * 65536 + N_of_ascii b * 256 + N_of_ascii c)%N in
      digit (n / 262144) :: digit (n / 4096 mod 64) :: digit (n / 64 mod 64) :: digit (n mod 64) :: encode l
  | [a; b] =>
      let n := (N_of_ascii a * 1024 + N_of_ascii b * 4)%N in
      [digit (n / 4096); digit (n / 64 mod 64); digit (n mod 64); "="%char]
  | [a] => let n := (N_of_ascii a * 16)%N in [digit (n / 64); digit (n mod 64); "="%char; "="%char]
  | [] => []
  end.

(** Line breaks are ignored; padding is required and only allowed at the end; trailing bits
    are not checked (the encoding is not strict). *)
Fixpoint decode_quads (l : bytes) : option bytes :=
  match l with
  | [] => Some []
  | [a; b; c; d] =>
      x ← undigit a; y ← undigit b;
      if Ascii.eqb c "=" then
        if Ascii.eqb d "=" then Some [ascii_of_N ((x * 64 + y) / 16)] else None
      else
        z ← undigit c;
        if Ascii.eqb d "=" then
          let n := (x * 4096 + y * 64 + z)%N in Some [ascii_of_N (n / 1024); ascii_of_N (n / 4 mod 256)]
        else
          w ← undigit d;
          let n := (x * 262144 + y * 4096 + z * 64 + w)%N in
          Some [ascii_of_N (n / 65536); ascii_of_N (n / 256 mod 256); ascii_of_N (n mod 256)]
  | a :: b :: c :: d :: l =>
      x ← undigit a; y ← undigit b; z ← undigit c; w ← undigit d;
      r ← decode_quads l;
      let n := (x * 262144 + y * 4096 + z * 64 + w)%N in
      Some (ascii_of_N (n / 65536) :: ascii_of_N (n / 256 mod 256) :: ascii_of_N (n mod 256) :: r)
  | _ => None
  end.

Definition is_line_break (c : ascii) : bool := let n := N_of_ascii c in ((n =? 10) || (n =? 13))%N.

Definition EncodeToString (raw : string) : string := of_bytes (encode (to_bytes raw)).
Definition DecodeString (s : string) : option string :=
  of_bytes <$> decode_quads (List.filter (fun c => negb (is_line_break c)) (to_bytes s)).
End Base64.

(** ** Conversions *)

(** [toSDKPart]; [NewTextPart] and [NewDataPart] leave the media type empty. *)
Definition toSDKPart (p : A2APart) : SDKPart :=
  let text := {| sp_Content := SDKText (pt_Text p); sp_MediaType := "" |} in
  let kind := ToLower (TrimSpace (pt_Kind p)) in
  if String.eqb kind "data" then {| sp_Content := SDKData (pt_Data p); sp_MediaType := "" |}
  else if String.eqb kind "file" then
    if negb (String.eqb (pt_FileURI p) "") then
      {| sp_Content := SDKURL (pt_FileURI p); sp_MediaType := pt_FileMIMEType p |}
    else if negb (String.eqb (pt_FileBytes p) "") then
      match Base64.DecodeString (pt_FileBytes p) with
      | Some raw => {| sp_Content := SDKRaw raw; sp_MediaType := pt_FileMIMEType p |}
      | None => text
      end
    else text
  else text.

Definition part (kind text : string) (data : value) (mime bytes uri : string) : A2APart :=
  {| pt_Kind := kind; pt_Text := text; pt_Data := data; pt_FileMIMEType := mime; pt_FileBytes := bytes;
     pt_FileURI := uri |}.

Definition fromSDKPart (p : SDKPart) : A2APart :=
  match sp_Content p with
  | SDKText v => part "text" v VNull "" "" ""
  | SDKRaw v => part "file" "" VNull (sp_MediaType p) (Base64.EncodeToString v) ""
  | SDKData v => part "data" "" v "" "" ""
  | SDKURL v => part "file" "" VNull (sp_MediaType p) "" v
  | SDKNoContent => part "text" "" VNull "" "" ""
  end.

(** [toSDKMessage]; [uuid] is the identifier [NewMessage] mints. *)
Definition toSDKMessage (uuid : string) (m : A2AMessage) : SDKMessage :=
  {| sm_ID := if String.eqb (am_MessageID m) "" then uuid else am_MessageID m;
     sm_Role := if EqualFold (am_Role m) "user" then RoleUser else RoleAgent;
     sm_Parts := map (fun p => Some (toSDKPart p)) (am_Parts m); sm_TaskID := ""; sm_ContextID := "" |}.

Definition fromSDKMessage (m : SDKMessage) : A2AMessage :=
  {| am_MessageID := sm_ID m; am_Role := match sm_Role m with RoleUser => "user" | _ => "agent" end;
     am_Parts := map fromSDKPart (omap id (sm_Parts m)) |}.

Record A2ASendMessageRequest := {
  sr_Message : A2AMessage; sr_TaskID : string; sr_SessionID : string; sr_AcceptedOutputModes : list string }.

(** The SDK request: message and accepted output modes. *)
Definition toSDKSendMessageRequest (uuid : string) (r : A2ASendMessageRequest) : SDKMessage * list string :=
  let m := toSDKMessage uuid (sr_Message r) in
  ({| sm_ID := sm_ID m; sm_Role := sm_Role m; sm_Parts := sm_Parts m; sm_TaskID := sr_TaskID r;
      sm_ContextID := sr_SessionID r |}, sr_AcceptedOutputModes r).

Definition fromSDKTaskState (s : SDKTaskState) : string :=
  match s with
  | TaskStateSubmitted => "submitted"
  | TaskStateWorking => "working"
  | TaskStateInputRequired => "input-required"
  | TaskStateCompleted => "completed"
  | TaskStateCanceled => "canceled"
  | TaskStateFailed => "failed"
  | TaskStateRejected => "rejected"
  | TaskStateAuthRequired => "auth-required"
  | TaskStateOther _ => "unknown"
  end.

Definition fromSDKArtifact (a : SDKArtifact) : A2AArtifact :=
  {| aa_ArtifactID := sa_ID a; aa_Name := sa_Name a; aa_Parts := map fromSDKPart (omap id (sa_Parts a)) |}.

Definition fromSDKTask (t : SDKTask) : A2ATask :=
  {| tk_ID := st_ID t; tk_SessionID := st_ContextID t; tk_Status := fromSDKTaskState (st_State t);
     tk_Message := fromSDKMessage <$> st_Message t;
     tk_Artifacts := map fromSDKArtifact (omap id (st_Artifacts t)) |}.

Inductive SendResult := ResMessage (m : SDKMessage) | ResTask (t : SDKTask) | ResOther.

Definition fromSDKSendMessageResult (r : SendResult) : option A2AMessage * option A2ATask :=
  match r with
  | ResMessage m => (Some (fromSDKMessage m), None)
  | ResTask t => (None, Some (fromSDKTask t))
  | ResOther => (None, None)
  end.

Inductive SDKEvent :=
| EvMessage (m : SDKMessage)
| EvTask (t : SDKTask)
| EvStatus (taskID : string) (state : SDKTaskState) (message : option SDKMessage)
| EvArtifact (taskID : string) (last : bool) (a : SDKArtifact)
| EvOther.

(** [TaskState.Terminal()]: completed, canceled, failed and rejected tasks are over. *)
Definition Terminal (s : SDKTaskState) : bool :=
  match s with TaskStateCompleted | TaskStateCanceled | TaskStateFailed | TaskStateRejected => true | _ => false end.

Definition status_event (taskID : string) (s : SDKTaskState) (m : option SDKMessage) : A2AStreamEvent :=
  {| se_Kind := "taskStatus"; se_TaskID := taskID; se_IsFinal := Terminal s; se_Message := None;
     se_TaskStatus := Some (fromSDKTaskState s, fromSDKMessage <$> m); se_Artifact := None |}.

Definition fromSDKEvent (e : SDKEvent) : A2AStreamEvent :=
  match e with
  | EvMessage m =>
      {| se_Kind := "message"; se_TaskID := sm_TaskID m; se_IsFinal := false; se_Message := Some (fromSDKMessage m);
         se_TaskStatus := None; se_Artifact := None |}
  | EvTask t => status_event (st_ID t) (st_State t) (st_Message t)
  | EvStatus id s m => status_event id s m
  | EvArtifact id last a =>
      {| se_Kind := "artifact"; se_TaskID := id; se_IsFinal := last; se_Message := None; se_TaskStatus := None;
         se_Artifact := Some (fromSDKArtifact a) |}
  | EvOther => zero_event
  end.

(** ** Round trips of parts *)

Module Base64Facts.
Import Base64.

Lemma digit_ok n :
  (n < 64)%N -> undigit (digit n) = Some n /\ Ascii.eqb (digit n) "=" = false /\ is_line_break (digit n) = false.
Proof.
  intros H.
  assert (Hall : forallb (fun k => bool_decide (undigit (digit k) = Some k) && negb (Ascii.eqb (digit k) "=")
                              && negb (is_line_break (digit k))) (map N.of_nat (seq 0 64)) = true) by (vm_compute; reflexivity).
  rewrite forallb_forall in Hall.
  assert (Hin : In n (map N.of_nat (seq 0 64))).
  { apply in_map_iff. exists (N.to_nat n). split; [lia|apply in_seq; lia]. }
  apply Hall in Hin. rewrite !andb_true_iff, !negb_true_iff, bool_decide_eq_true in Hin. tauto.
Qed.

Lemma undigit_digit n : (n < 64)%N -> undigit (digit n) = Some n.
Proof. apply digit_ok. Qed.

Lemma digit_not_pad n : (n < 64)%N -> Ascii.eqb (digit n) "=" = false.
Proof. apply digit_ok. Qed.

(** The bytes and the digits of a group are numbers in two bases. *)
Lemma byte_bound a : (N_of_ascii a < 256)%N.
Proof. apply N_ascii_bounded. Qed.

Lemma ascii_byte a n : n = N_of_ascii a -> ascii_of_N n = a.
Proof. intros ->. apply ascii_N_embedding. Qed.

(** Quotient and remainder of a number written in base [k]. *)
Lemma base_div q r k n : n = (q * k + r)%N -> (r < k)%N -> (n / k)%N = q.
Proof. intros -> Hr. symmetry. apply (N.div_unique _ _ _ r Hr). lia. Qed.

Lemma base_mod q r k n : n = (q * k + r)%N -> (r < k)%N -> (n mod k)%N = r.
Proof. intros -> Hr. symmetry. apply (N.mod_unique _ _ q _ Hr). lia. Qed.

Lemma digits_value n : (n / 262144 * 262144 + n / 4096 mod 64 * 4096 + n / 64 mod 64 * 64 + n mod 64)%N = n.
Proof.
  replace 262144%N with (64 * 64 * 64)%N by done. replace 4096%N with (64 * 64)%N by done.
  rewrite <- !N.Div0.div_div. pose proof (N.div_mod' n 64) as H1. pose proof (N.div_mod' (n / 64) 64) as H2.
  pose proof (N.div_mod' (n / 64 / 64) 64) as H3. revert H1 H2 H3.
  generalize (n mod 64)%N (n / 64 mod 64)%N (n / 64 / 64 mod 64)%N (n / 64 / 64 / 64)%N.
  generalize (n / 64)%N (n / 64 / 64)%N. intros. lia.
Qed.

Lemma decode_triple a b c l :
  decode_quads (encode (a :: b :: c :: l)) = r ← decode_quads (encode l); Some (a :: b :: c :: r).
Proof.
  pose proof (byte_bound a). pose proof (byte_bound b). pose proof (byte_bound c). cbn [encode].
  set (n := (N_of_ascii a * 65536 + N_of_ascii b * 256 + N_of_ascii c)%N).
  assert (Hq : forall t, decode_quads (digit (n / 262144) :: digit (n / 4096 mod 64) :: digit (n / 64 mod 64) :: digit (n mod 64) :: t)
    = r ← decode_quads t; Some (a :: b :: c :: r)).
  { assert (Ha : ascii_of_N (n / 65536) = a).
    { apply ascii_byte, (base_div _ (N_of_ascii b * 256 + N_of_ascii c)%N); unfold n; lia. }
    assert (Hb : ascii_of_N (n / 256 mod 256) = b).
    { apply ascii_byte. rewrite (base_div (N_of_ascii a * 256 + N_of_ascii b) (N_of_ascii c) 256) by (unfold n; lia).
      by apply (base_mod (N_of_ascii a)). }
    assert (Hc : ascii_of_N (n mod 256) = c).
    { apply ascii_byte, (base_mod (N_of_ascii a * 256 + N_of_ascii b)%N); unfold n; lia. }
    assert (Hhi : (n / 262144 < 64)%N) by (apply N.Div0.div_lt_upper_bound; unfold n; lia).
    assert (Hm : forall k, (k mod 64 < 64)%N) by (intros k; by apply N.mod_lt).
    intros t. destruct t as [|t0 t]; cbn [decode_quads];
      rewrite !undigit_digit by auto; cbn [mbind option_bind];
      rewrite ?digit_not_pad by auto; cbn [mbind option_bind]; rewrite digits_value, Ha, Hb, Hc; done. }
  apply Hq.
Qed.

Lemma mod64_lt k : (k mod 64 < 64)%N.
Proof. by apply N.mod_lt. Qed.

Lemma decode_two a b : decode_quads (encode [a; b]) = Some [a; b].
Proof.
  pose proof (byte_bound a). pose proof (byte_bound b). cbn [encode decode_quads].
  set (n := (N_of_ascii a * 1024 + N_of_ascii b * 4)%N).
  assert (Hhi : (n / 4096 < 64)%N) by (apply N.Div0.div_lt_upper_bound; unfold n; lia).
  assert (Hn : (n / 4096 * 4096 + n / 64 mod 64 * 64 + n mod 64)%N = n).
  { replace 4096%N with (64 * 64)%N by done. rewrite <- !N.Div0.div_div. pose proof (N.div_mod' n 64).
    pose proof (N.div_mod' (n / 64) 64). lia. }
  rewrite !undigit_digit by auto using mod64_lt. cbn [mbind option_bind]. rewrite digit_not_pad by apply mod64_lt.
  cbn [Ascii.eqb Bool.eqb]. rewrite Hn. f_equal. f_equal; [|f_equal]; apply ascii_byte.
  - apply (base_div _ (N_of_ascii b * 4)); unfold n; lia.
  - rewrite (base_div (N_of_ascii a * 256 + N_of_ascii b) 0 4) by (unfold n; lia). by apply (base_mod (N_of_ascii a)).
Qed.

Lemma decode_one a : decode_quads (encode [a]) = Some [a].
Proof.
  pose proof (byte_bound a). cbn [encode decode_quads]. set (n := (N_of_ascii a * 16)%N).
  assert (Hhi : (n / 64 < 64)%N) by (apply N.Div0.div_lt_upper_bound; unfold n; lia).
  rewrite !undigit_digit by auto using mod64_lt. cbn [mbind option_bind Ascii.eqb Bool.eqb].
  pose proof (N.div_mod' n 64) as Hn. replace (n / 64 * 64 + n mod 64)%N with n by lia. f_equal. f_equal.
  apply ascii_byte, (base_div _ 0); unfold n; lia.
Qed.

Lemma decode_encode l : decode_quads (encode l) = Some l.
Proof.
  revert l. fix IH 1. intros [|a [|b [|c l]]]; [done|apply decode_one|apply decode_two|].
  rewrite decode_triple, IH. done.
Qed.

Lemma encode_no_breaks l : List.filter (fun c => negb (is_line_break c)) (encode l) = encode l.
Proof.
  assert (Hd : forall n, (n < 64)%N -> is_line_break (digit n) = false) by (intros n ?; by apply digit_ok).
  assert (Hq : forall q n, (n < q * 64)%N -> (n / q < 64)%N) by (intros q n ?; apply N.Div0.div_lt_upper_bound; lia).
  revert l. fix IH 1. intros [|a [|b [|c l]]]; [done|..]; pose proof (byte_bound a); try pose proof (byte_bound b);
    try pose proof (byte_bound c); cbn [encode List.filter];
    rewrite ?Hd by (apply mod64_lt || (apply Hq; lia)); cbn [negb is_line_break]; try done.
  by rewrite IH.
Qed.
End Base64Facts.

Lemma DecodeString_EncodeToString raw : Base64.DecodeString (Base64.EncodeToString raw) = Some raw.
Proof.
  unfold Base64.DecodeString, Base64.EncodeToString.
  rewrite to_of_bytes, Base64Facts.encode_no_breaks, Base64Facts.decode_encode. cbn. by rewrite of_to_bytes.
Qed.

Lemma EncodeToString_nonempty raw : raw <> "" -> Base64.EncodeToString raw <> "".
Proof.
  intros Hr He. apply (f_equal Base64.DecodeString) in He. rewrite DecodeString_EncodeToString in He.
  injection He as ->. done.
Qed.

#[global] Arguments Base64.EncodeToString : simpl never.
#[global] Arguments Base64.DecodeString : simpl never.

(** The parts the conversions keep: one content, and only the fields that content has. *)
Inductive canonical_part : A2APart -> Prop :=
| canonical_text t : canonical_part (part "text" t VNull "" "" "")
| canonical_data v : canonical_part (part "data" "" v "" "" "")
| canonical_url mime u : u <> "" -> canonical_part (part "file" "" VNull mime "" u)
| canonical_file mime raw : raw <> "" -> canonical_part (part "file" "" VNull mime (Base64.EncodeToString raw) "").

Lemma part_roundtrip p : canonical_part p -> fromSDKPart (toSDKPart p) = p.
Proof.
  destruct 1 as [t|v|mime u Hu|mime raw Hr]; [done|done|..]; unfold toSDKPart; cbn.
  - destruct (String.eqb_spec u ""); done.
  - destruct (String.eqb_spec (Base64.EncodeToString raw) "") as [He|_]; [by apply EncodeToString_nonempty in He|].
    cbn. rewrite DecodeString_EncodeToString. done.
Qed.

(** A message that arrives is the message that was sent: identifier, role and every part, file
    contents included, survive the conversion to the SDK's message and back. *)
Theorem message_roundtrip uuid m :
  am_MessageID m <> "" -> am_Role m ∈ ["user"; "agent"] -> Forall canonical_part (am_Parts m) ->
  fromSDKMessage (toSDKMessage uuid m) = m.
Proof.
  destruct m as [id role ps]. cbn [am_MessageID am_Role am_Parts]. intros Hid Hrole Hps.
  unfold toSDKMessage, fromSDKMessage. cbn [sm_ID sm_Role sm_Parts am_MessageID am_Role am_Parts].
  destruct (String.eqb_spec id "") as [|_]; [done|]. f_equal.
  - apply elem_of_cons in Hrole as [->|Hrole]; [done|]. by apply list_elem_of_singleton in Hrole as ->.
  - induction Hps as [|p ps Hp Hps IH]; [done|]. cbn. by rewrite part_roundtrip, IH.
Qed.

(** What is lost: an empty file comes back as an empty text. *)
Example empty_file_becomes_text :
  toSDKPart (fromSDKPart {| sp_Content := SDKRaw ""; sp_MediaType := "image/png" |}) =
  {| sp_Content := SDKText ""; sp_MediaType := "" |}.
Proof. reflexivity. Qed.

(** ** Tokens and shared header maps *)

Lemma fresh_loc_fresh s : s !! fresh_loc s = None.
Proof. apply (not_elem_of_dom (D := gset map_loc)). unfold fresh_loc. apply is_fresh. Qed.

(** Injection only adds: every entry of every map that exists is kept. *)
Lemma inject_token_keeps s c l m k v :
  s !! l = Some m -> m !! k = Some v ->
  exists m', (inject_token s c).2 !! l = Some m' /\ m' !! k = Some v.
Proof.
  intros Hl Hk. unfold inject_token. destruct (String.eqb _ _); [eauto|].
  destruct (aa_Headers c) as [l'|].
  - destruct (default ∅ (s !! l') !! "Authorization") eqn:Ha; cbn [fst snd]; [eauto|].
    destruct (decide (l' = l)) as [->|]; [|rewrite lookup_insert_ne by done; eauto].
    rewrite Hl in Ha |- *. cbn [default from_option id] in *. rewrite lookup_insert_eq. eexists. split; [done|].
    rewrite lookup_insert_ne; [done|]. intros <-. congruence.
  - rewrite lookup_insert_eq. change (default ∅ (Some ∅) : gmap string string) with (∅ : gmap string string). rewrite lookup_empty. cbn [fst snd]. pose proof (fresh_loc_fresh s).
    exists m. rewrite !lookup_insert_ne by congruence. done.
Qed.

(** With a token and a header map of its own (nil, or without [Authorization]) the client
    authorizes its requests with that token. *)
Lemma inject_token_authorizes s c :
  blank (aa_Token c) = false ->
  (forall l, aa_Headers c = Some l -> default ∅ (s !! l) !! "Authorization" = None) ->
  exists l, (inject_token s c).1 = Some l /\
    default ∅ ((inject_token s c).2 !! l) !! "Authorization" = Some ("Bearer " +:+ TrimSpace (aa_Token c)).
Proof.
  unfold inject_token, blank. intros -> Hh. destruct (aa_Headers c) as [l|].
  - rewrite (Hh l eq_refl). exists l. split; [done|]. cbn [fst snd].
    rewrite lookup_insert_eq. cbn [default from_option]. apply lookup_insert_eq.
  - rewrite lookup_insert_eq. change (default ∅ (Some ∅) : gmap string string) with (∅ : gmap string string). rewrite lookup_empty. eexists. split; [done|]. cbn [fst snd].
    rewrite lookup_insert_eq. cbn [default from_option]. apply lookup_insert_eq.
Qed.

(** Two servers configured with one header map: the map is written by the first client, and
    the second client's requests carry the first one's token. *)
Definition shared_config (token : string) : A2AConfig :=
  {| xc_URL := "https://agent.example"; xc_Timeout := 0; xc_Token := token; xc_Headers := Some 0%nat;
     xc_SkillFilter := {| f_AllowSkills := []; f_BlockSkills := [] |}; xc_SkipTLSVerify := false |}.

Definition second_requests : list (string * string) :=
  let s : map_store := {[ 0%nat := {[ "X-Tenant" := "acme" ]} ]} in
  let '(_, s) := newA2AClient s "first" (shared_config "token-1") in
  match newA2AClient s "second" (shared_config "token-2") with
  | (inr c, s) => request_headers s c
  | (inl _, _) => []
  end.

Example shared_headers_leak_token : ("Authorization", "Bearer token-1") ∈ second_requests.
Proof. vm_compute. repeat (left || right). Qed.

(** ** The connection

    [getInner] drops the lock while it connects, so calls race with each other and with
    [Close].  A call that found no connection holds a new one of its own ([pending]) until it
    takes the lock again. *)

Definition conn := nat.

Record conn_state := {
  cs_closed : bool;
  cs_inner : option conn;
  cs_pending : gset conn;
  cs_live : gset conn }.  (* opened and not destroyed *)

Definition conn_init : conn_state := {| cs_closed := false; cs_inner := None; cs_pending := ∅; cs_live := ∅ |}.

(** First critical section of [getInner]: an error, the cached connection, or go and connect. *)
Inductive begin_result := BeginClosed | BeginCached (c : conn) | BeginConnect.

Definition getInner_begin (s : conn_state) : begin_result :=
  if cs_closed s then BeginClosed else match cs_inner s with Some c => BeginCached c | None => BeginConnect end.

(** [NewFromCard] succeeded: the call holds the new connection [c]. *)
Definition getInner_connected (s : conn_state) (c : conn) : conn_state :=
  {| cs_closed := cs_closed s; cs_inner := cs_inner s; cs_pending := cs_pending s ∪ {[ c ]};
     cs_live := cs_live s ∪ {[ c ]} |}.

(** Second critical section, with the connection [c] the call holds: the connection it
    returns ([None] is the error of a closed client). *)
Definition getInner_finish (s : conn_state) (c : conn) : option conn * conn_state :=
  if cs_closed s then
    (None, {| cs_closed := true; cs_inner := cs_inner s; cs_pending := cs_pending s ∖ {[ c ]};
              cs_live := cs_live s ∖ {[ c ]} |})
  else match cs_inner s with
       | Some c' => (Some c', {| cs_closed := false; cs_inner := Some c'; cs_pending := cs_pending s ∖ {[ c ]};
                                 cs_live := cs_live s ∖ {[ c ]} |})
       | None => (Some c, {| cs_closed := false; cs_inner := Some c; cs_pending := cs_pending s ∖ {[ c ]};
                             cs_live := cs_live s |})
       end.

Definition A2A_Close (s : conn_state) : conn_state :=
  if cs_closed s then s
  else {| cs_closed := true; cs_inner := None; cs_pending := cs_pending s;
          cs_live := match cs_inner s with Some c => cs_live s ∖ {[ c ]} | None => cs_live s end |}.

Inductive conn_step : conn_state -> conn_state -> Prop :=
| cs_connect s s0 c : (* the check was made in an earlier state *)
    getInner_begin s0 = BeginConnect -> c ∉ cs_live s -> conn_step s (getInner_connected s c)
| cs_finish s c : c ∈ cs_pending s -> conn_step s (getInner_finish s c).2
| cs_close s : conn_step s (A2A_Close s).

(** What is open is held by a call or installed, and a closed client has nothing installed. *)
Definition conn_inv (s : conn_state) : Prop :=
  cs_live s = cs_pending s ∪ match cs_inner s with Some c => {[ c ]} | None => ∅ end /\
  (forall c, cs_inner s = Some c -> c ∉ cs_pending s /\ cs_closed s = false).

Lemma conn_step_inv s s' : conn_inv s -> conn_step s s' -> conn_inv s'.
Proof.
  intros [Hl Hi]. destruct 1 as [s s0 c Hb Hc|s c Hc|s].
  - split; cbn; [|intros c' Hc'; destruct (Hi _ Hc'); split; [|done]]; destruct (cs_inner s); set_solver.
  - unfold getInner_finish. destruct (cs_closed s) eqn:Hcl; cbn.
    + destruct (cs_inner s) as [c'|] eqn:Hin; [by destruct (Hi c' eq_refl)|]. split; cbn; [set_solver|done].
    + destruct (cs_inner s) as [c'|] eqn:Hin; cbn.
      * destruct (Hi c' eq_refl) as [Hn _]. split; cbn; [set_solver|]. intros ? [= <-]. set_solver.
      * split; cbn; [|intros ? [= <-]; set_solver]. rewrite Hl. apply leibniz_equiv. intros x.
        destruct (decide (x = c)); set_solver.
  - unfold A2A_Close. destruct (cs_closed s) eqn:Hcl; [split; [done|by rewrite Hcl]|].
    destruct (cs_inner s) as [c'|] eqn:Hin; (split; cbn; [|done]); [destruct (Hi c' eq_refl)|]; set_solver.
Qed.

(** However calls and [Close] interleave, no connection leaks: what is open is the installed
    connection or in the hands of a call that is still connecting; once the client is closed
    and the calls are back, nothing is open. *)
Theorem no_connection_leaks s :
  rtc conn_step conn_init s ->
  conn_inv s /\ (cs_closed s = true -> cs_pending s = ∅ -> cs_live s = ∅).
Proof.
  intros Hr.
  assert (Hinv : conn_inv s).
  { assert (H0 : conn_inv conn_init) by (split; [set_solver|done]). revert H0. clear -Hr.
    induction Hr as [|x y z Hs Hr IH]; [done|]. intros Hx. by apply IH, (conn_step_inv x). }
  split; [done|]. destruct Hinv as [Hl Hi]. intros Hc Hp. rewrite Hl, Hp.
  destruct (cs_inner s) as [c|]; [|by rewrite union_empty_l_L]. destruct (Hi c eq_refl) as [_ H']. congruence.
Qed.

(** ** Skills of a server *)

(** [fromSDKAgentCard] keeps of a skill what [NewA2ATool] uses; [ListSkills] filters. *)
Definition ListSkills (c : A2AClientRec) (closed : bool) (resolve : result (list A2ASkillSpec)) : result (list A2ASkillSpec) :=
  if closed then inl (errors_New ("a2a client " +:+ Quote (ca_name c) +:+ ": closed"))
  else match resolve with
       | inl e => inl (wrap_error "a2a client resolve card: " e)
       | inr skills => inr (A2ASkillFilter_Apply (ca_skillFilter c) skills)
       end.
