(* ===== verification/AgentConfig.v ===== *)
(** Construction of an agent ([pkg/agent/config.go], [runtime_factory.go],
    [pkg/conversation/config.go]): the options as a record, the name rules, the validators,
    the registries filled from options, the tools of a run, [buildAgentConfig] and the wiring
    it hands to the runtime.

    Agents are pointers: a sub-agent is a location, and [deref] its configuration.  What MCP
    and A2A servers list is an argument of the functions that ask them.  Registries are those
    of [Registry.v]; an option that passes a registry object and the one that is filled are the
    same object in Go, here the value before and after. *)
From S2P Require Import Prelude GoLib Types Prog Policies MemoryConfig Budget CircuitBreaker Telemetry Events Effects ErrorControl Registry AgentTools McpClient A2aClient.

#[local] Open Scope string_scope.
#[local] Open Scope list_scope.
#[local] Open Scope Z_scope.

(** ** Sequencing of checks *)

Notation "'guard?' e 'in' k" := (match e with Some err => inl err | None => k end)
  (at level 200, e at level 100, k at level 200).
Notation "'let?' x := m 'in' k" := (match m with inl err => inl err | inr x => k end)
  (at level 200, x pattern, m at level 100, k at level 200).

(** ** Names *)

Definition maxAgentNameLen : nat := 64.

Definition is_blank_byte (c : ascii) : bool :=
  let n := N_of_ascii c in ((n =? 32) || (n =? 9) || (n =? 10) || (n =? 13))%N.

Definition name_char (c : ascii) : bool :=
  let n := N_of_ascii c in
  ((97 <=? n) && (n <=? 122) || (48 <=? n) && (n <=? 57) || (n =? 45) || (n =? 95))%N.

(** What one rune of the lowered name contributes; bytes outside ASCII contribute nothing. *)
Definition name_byte (c : ascii) : bytes :=
  if is_blank_byte c then ["-"%char] else if name_char c then [c] else [].

(** The loop of [sanitizeName]; [len] is [b.Len()]. *)
Fixpoint sanitize_loop (len : nat) (l : bytes) : bytes :=
  match l with
  | [] => []
  | c :: l =>
      let len := (len + length (name_byte c))%nat in
      name_byte c ++ (if (maxAgentNameLen <=? len)%nat then [] else sanitize_loop len l)
  end.

Definition sanitizeName (name : string) : string :=
  let name := TrimSpace name in
  if String.eqb name "" then ""
  else of_bytes (take maxAgentNameLen (sanitize_loop 0 (lower_bytes false (to_bytes name)))).

Definition valid_name_char (c : ascii) : bool :=
  let n := N_of_ascii c in name_char c || ((65 <=? n) && (n <=? 90))%N.

Definition validateAgentName (name : string) : option error :=
  if String.eqb name "" then Some (errors_New "name is required")
  else if (maxAgentNameLen <? String.length name)%nat then
    Some (errors_New ("name " +:+ Quote name +:+ " is invalid: max length is 64"))
  else if forallb valid_name_char (to_bytes name) then None
  else Some (errors_New ("name " +:+ Quote name +:+ " is invalid: use letters, digits, hyphens, or underscores only")).

(** ** Validators *)

(** [validateHookGroups] *)
Fixpoint validateHookGroups_ (seen : gset string) (gs : list HookGroup) : option error :=
  match gs with
  | [] => None
  | g :: gs =>
      if String.eqb (g_Name g) "" then Some (errors_New "WithHooks: hook group name is required")
      else if decide (g_Name g ∈ seen) then
        Some (errors_New ("WithHooks: duplicate hook group name " +:+ Quote (g_Name g)))
      else validateHookGroups_ (seen ∪ {[ g_Name g ]}) gs
  end.
Definition validateHookGroups (gs : list HookGroup) : option error := validateHookGroups_ ∅ gs.

Definition budget_err (msg : string) : error := errors_New ("WithBudget: " +:+ msg).

(** The range checks of [validateBudget]. *)
Definition budget_range_error (b : BudgetConfig) : option error :=
  if cfg_MaxTokens b <? 0 then Some (budget_err "MaxTokens must be >= 0")
  else if f64_ltb (cfg_MaxCostUSD b) f64_zero then Some (budget_err "MaxCostUSD must be >= 0")
  else if f64_ltb (cfg_PromptUSDPer1M b) f64_zero then Some (budget_err "PromptUSDPer1M must be >= 0")
  else if f64_ltb (cfg_CompletionUSDPer1M b) f64_zero then Some (budget_err "CompletionUSDPer1M must be >= 0")
  else if (cfg_MaxTokens b =? 0) && f64_eqb (cfg_MaxCostUSD b) f64_zero then
    Some (budget_err "at least one of MaxTokens or MaxCostUSD must be non-zero")
  else if f64_ltb f64_zero (cfg_MaxCostUSD b) &&
          (f64_leb (cfg_PromptUSDPer1M b) f64_zero || f64_leb (cfg_CompletionUSDPer1M b) f64_zero) then
    Some (budget_err "MaxCostUSD requires PromptUSDPer1M and CompletionUSDPer1M to be set")
  else if cfg_ApprovalExtraTokens b <? 0 then Some (budget_err "ApprovalExtraTokens must be >= 0")
  else if f64_ltb (cfg_ApprovalExtraCostUSD b) f64_zero then Some (budget_err "ApprovalExtraCostUSD must be >= 0")
  else if cfg_MaxApprovals b <? 0 then Some (budget_err "MaxApprovals must be >= 0")
  else None.

Definition with_action (b : BudgetConfig) (action : string) (extraTokens : Z) (extraCost : f64) : BudgetConfig :=
  {| cfg_MaxTokens := cfg_MaxTokens b; cfg_MaxCostUSD := cfg_MaxCostUSD b;
     cfg_PromptUSDPer1M := cfg_PromptUSDPer1M b; cfg_CompletionUSDPer1M := cfg_CompletionUSDPer1M b;
     cfg_OnExceeded := action; cfg_ApprovalExtraTokens := extraTokens; cfg_ApprovalExtraCostUSD := extraCost;
     cfg_MaxApprovals := cfg_MaxApprovals b |}.

(** [validateBudget], with the configuration it has normalised. *)
Definition validateBudget (b : BudgetConfig) : result BudgetConfig :=
  guard? budget_range_error b in
  let action := if String.eqb (cfg_OnExceeded b) "" then BudgetStopRun else cfg_OnExceeded b in
  if String.eqb action BudgetStopRun then
    if negb (cfg_ApprovalExtraTokens b =? 0) || negb (f64_eqb (cfg_ApprovalExtraCostUSD b) f64_zero) then
      inl (budget_err ("ApprovalExtraTokens and ApprovalExtraCostUSD are only valid with " +:+
                       "BudgetWaitForApproval, not BudgetStopRun"))
    else if negb (cfg_MaxApprovals b =? 0) then
      inl (budget_err "MaxApprovals is only valid with BudgetWaitForApproval, not BudgetStopRun")
    else inr (with_action b action (cfg_ApprovalExtraTokens b) (cfg_ApprovalExtraCostUSD b))
  else if String.eqb action BudgetWaitForApproval then
    inr (with_action b action
      (if (cfg_ApprovalExtraTokens b =? 0) && (0 <? cfg_MaxTokens b) then cfg_MaxTokens b else cfg_ApprovalExtraTokens b)
      (if f64_eqb (cfg_ApprovalExtraCostUSD b) f64_zero && f64_ltb f64_zero (cfg_MaxCostUSD b)
       then cfg_MaxCostUSD b else cfg_ApprovalExtraCostUSD b))
  else inl (budget_err ("unknown OnExceeded action " +:+ Quote action +:+ "; use BudgetStopRun or BudgetWaitForApproval")).

(** [validateNamedLLMClients]; the entry an error names depends on the order of iteration. *)
Fixpoint validate_named (l : list (string * option LLMClient)) : option error :=
  match l with
  | [] => None
  | (name, client) :: l =>
      if String.eqb (TrimSpace name) "" then Some (errors_New "WithNamedLLMClients: name must not be empty")
      else match client with
           | None => Some (errors_New ("WithNamedLLMClients: " +:+ Quote name +:+ " is nil"))
           | Some _ => validate_named l
           end
  end.
Definition validateNamedLLMClients (m : gmap string (option LLMClient)) : option error := validate_named (map_to_list m).

Definition validateErrorControl (ec : option ErrorControlConfig) (named : gmap string (option LLMClient)) : option error :=
  match ec with
  | None => None
  | Some cfg =>
      if negb (String.eqb (ec_FallbackLLMClient cfg) "") &&
         negb (bool_decide (is_Some (mjoin (named !! ec_FallbackLLMClient cfg)))) then
        Some (errors_New ("WithErrorControl: FallbackLLMClient " +:+ Quote (ec_FallbackLLMClient cfg) +:+
                          " is not in WithNamedLLMClients"))
      else match ec_CircuitBreaker cfg with
           | None => None
           | Some cb =>
               if cb_MaxConsecutiveSameArgs cb <? 0 then
                 Some (errors_New "WithErrorControl: CircuitBreaker.MaxConsecutiveSameArgs must be >= 0")
               else if cb_PatternWindowSize cb <? 0 then
                 Some (errors_New "WithErrorControl: CircuitBreaker.PatternWindowSize must be >= 0")
               else if cb_ResetAfter cb <? 0 then
                 Some (errors_New "WithErrorControl: CircuitBreaker.ResetAfter must be >= 0")
               else None
           end
  end.

Fixpoint validateRetrievers_ (i : Z) (l : list (option Retriever)) : option error :=
  match l with
  | [] => None
  | None :: _ => Some (errors_New ("retriever at index " +:+ Itoa i +:+ " must not be nil"))
  | Some _ :: l => validateRetrievers_ (i + 1) l
  end.
Definition validateRetrievers (l : list (option Retriever)) : option error := validateRetrievers_ 0 l.

Definition validateRetrieverMode (mode : string) : result string :=
  let mode := if String.eqb mode "" then RetrieverModeAgentic else mode in
  if String.eqb mode RetrieverModeAgentic || String.eqb mode RetrieverModePrefetch || String.eqb mode RetrieverModeHybrid
  then inr mode
  else inl (errors_New ("invalid retriever mode " +:+ Quote mode +:+ ": use " +:+ Quote RetrieverModeAgentic +:+ ", " +:+
                        Quote RetrieverModePrefetch +:+ ", or " +:+ Quote RetrieverModeHybrid)).

(** [validateMCPClients] and [validateA2AClients], on the names of the clients. *)
Fixpoint validate_client_names (kind : string) (seen : gset string) (names : list string) : option error :=
  match names with
  | [] => None
  | n :: names =>
      let name := TrimSpace n in
      if String.eqb name "" then Some (errors_New (kind +:+ " client name must not be empty"))
      else if decide (name ∈ seen) then Some (errors_New ("duplicate " +:+ kind +:+ " client name " +:+ Quote name))
      else validate_client_names kind (seen ∪ {[ name ]}) names
  end.

(** [validateToolNames]; [seen] maps a name to the kind that has it. *)
Fixpoint validateToolNames_ (seen : gmap string string) (tools : list Tool) : option error :=
  match tools with
  | [] => None
  | t :: tools =>
      match seen !! t_Name t with
      | Some prev => Some (errors_New ("duplicate tool name " +:+ Quote (t_Name t) +:+ ": " +:+ KindOf t +:+
                                       " tool conflicts with an existing " +:+ prev +:+ " tool"))
      | None => validateToolNames_ (<[t_Name t := KindOf t]> seen) tools
      end
  end.
Definition validateToolNames (tools : list Tool) : option error := validateToolNames_ ∅ tools.

(** ** Conversation *)

Definition DefaultSize : Z := 20.

(** [conversation.Config]; [cv_Conversation] is [IsDistributed] of the backend when it is set. *)
Record ConversationConfig := { cv_Conversation : option bool; cv_Size : Z; cv_SaveOnIteration : bool }.

Definition Conversation_WithDefaults (c : ConversationConfig) : ConversationConfig :=
  {| cv_Conversation := cv_Conversation c; cv_Size := if cv_Size c <=? 0 then DefaultSize else cv_Size c;
     cv_SaveOnIteration := cv_SaveOnIteration c |}.

Definition Conversation_Validate (c : ConversationConfig) : option error :=
  match cv_Conversation c with
  | None => Some (errors_New "conversation config: Conversation is required")
  | Some _ => None
  end.

Definition ValidateDistributed (conv : option bool) (remoteWorkers : bool) : option error :=
  match conv with
  | Some false =>
      if remoteWorkers then
        Some (errors_New ("in-memory conversation cannot be used with remote workers: use distributed storage such " +:+
                          "as redis.NewConversation"))
      else None
  | _ => None
  end.

(** ** Configuration *)

(** An MCP (A2A) client: one the SDK builds from a configuration, or one of the application,
    by its name and identity. *)
Inductive MCPClient := SdkMCP (c : Client) | UserMCP (name : string) (id : nat).
Inductive A2AClient := SdkA2A (c : A2AClientRec) | UserA2A (name : string) (id : nat).

Definition mcp_Name (c : MCPClient) : string := match c with SdkMCP c => cl_name c | UserMCP n _ => n end.
Definition a2a_Name (c : A2AClient) : string := match c with SdkA2A c => ca_name c | UserA2A n _ => n end.

(** [RuntimeFactory]: its [Name] and what its [Validate] returns. *)
Record RuntimeFactory := { rf_FactoryName : string; rf_valid : option error }.

Definition RuntimeNameTemporal : string := "temporal".

Definition AgentModeInteractive : string := "interactive".
Definition AgentModeAutonomous : string := "autonomous".

(** [agentConfig] without its logging and observability fields; a registry is [nil] when no
    option set it. *)
Record agentConfig := {
  b_Name : string;
  b_Description : string;
  b_SystemPrompt : string;
  b_runtimeFactory : option RuntimeFactory;
  b_factoryConflict : option error;
  b_localConfig : bool;
  b_LLMClient : option LLMClient;
  b_namedLLMClients : gmap string (option LLMClient);
  b_tools : list (option Tool);
  b_toolRegistry : option (registry Tool);
  b_mcpRegistry : option (registry MCPClient);
  b_a2aRegistry : option (registry A2AClient);
  b_subAgentRegistry : option (registry loc);
  b_toolApprovalPolicy : option ApprovalPolicy;
  b_maxIterations : Z;
  b_approvalHandler : bool;
  b_timeout : Duration;
  b_approvalTimeout : Duration;
  b_executionConfigs : ExecutionConfigs;
  b_conversationConfig : option ConversationConfig;
  b_memoryConfig : option MemConfig;
  b_responseFormat : option ResponseFormat;
  b_llmSampling : option LLMSampling;
  b_disableLocalWorker : bool;
  b_subAgents : list (option loc);
  b_maxSubAgentDepth : Z;
  b_mcpServers : gmap string MCPConfig;
  b_mcpClients : list (option MCPClient);
  b_a2aServers : gmap string A2AConfig;
  b_a2aClients : list (option A2AClient);
  b_retrievers : list (option Retriever);
  b_retrieverMode : string;
  b_agentMode : string;
  b_agentToolExecutionMode : string;
  b_budgetConfig : option BudgetConfig;
  b_hooks : list HookGroup;
  b_errorControl : option ErrorControlConfig }.

Definition withRuntimeFactory_conflict (c : agentConfig) (f : RuntimeFactory) : option error :=
  if b_localConfig c then Some (errors_New ("WithLocalConfig is incompatible with the " +:+ rf_FactoryName f +:+ " runtime factory"))
  else match b_runtimeFactory c with
       | Some g =>
           if negb (String.eqb (rf_FactoryName g) (rf_FactoryName f)) then
             Some (errors_New ("provide either " +:+ rf_FactoryName g +:+ " or " +:+ rf_FactoryName f +:+ ", not both"))
           else b_factoryConflict c
       | None => b_factoryConflict c
       end.

Definition hasTemporalRuntime (c : agentConfig) : bool :=
  match b_runtimeFactory c with Some f => String.eqb (rf_FactoryName f) RuntimeNameTemporal | None => false end.

(** ** Registries from options *)

(** The error of a registration, wrapped with the option it came from. *)
Definition registered {E} (option_name : string) (p : option error * registry E) : result (registry E) :=
  match p.1 with Some e => inl (wrap_error (option_name +:+ ": ") e) | None => inr p.2 end.

Definition buildToolRegistry (reg : option (registry Tool)) (tools : list (option Tool)) : result (registry Tool) :=
  registered "WithTools" (RegisterAll t_Name (default NewRegistry reg) tools).

(** The keys of a Go map, sorted. *)
Definition sorted_keys {V} (m : gmap string V) : list string := sort_Strings (map fst (map_to_list m)).

Fixpoint register_mcp_servers (reg : registry MCPClient) (servers : gmap string MCPConfig) (keys : list string)
    : result (registry MCPClient) :=
  match keys with
  | [] => inr reg
  | k :: keys =>
      match servers !! k with
      | None => register_mcp_servers reg servers keys
      | Some cfg =>
          match newMCPClient k cfg with
          | inl e => inl (wrap_error "WithMCPConfig: " e)
          | inr cl =>
              let? reg := registered "WithMCPConfig" (Register mcp_Name reg (Some (SdkMCP cl))) in
              register_mcp_servers reg servers keys
          end
      end
  end.

Fixpoint register_clients {E} (name_of : E -> string) (option_name nil_message : string) (reg : registry E)
    (clients : list (option E)) : result (registry E) :=
  match clients with
  | [] => inr reg
  | None :: _ => inl (errors_New nil_message)
  | Some cl :: clients =>
      let? reg := registered option_name (Register name_of reg (Some cl)) in
      register_clients name_of option_name nil_message reg clients
  end.

Definition buildMCPRegistry (reg : option (registry MCPClient)) (servers : gmap string MCPConfig)
    (clients : list (option MCPClient)) : result (registry MCPClient) :=
  let? reg := register_mcp_servers (default NewRegistry reg) servers (sorted_keys servers) in
  let? reg := register_clients mcp_Name "WithMCPClients" "WithMCPClients: mcp client must not be nil" reg clients in
  guard? validate_client_names "mcp" ∅ (map mcp_Name (List_ reg)) in inr reg.

(** Creating an A2A client may write its token into the caller's header map. *)
Fixpoint register_a2a_servers (s : map_store) (reg : registry A2AClient) (servers : gmap string A2AConfig)
    (keys : list string) : result (registry A2AClient) * map_store :=
  match keys with
  | [] => (inr reg, s)
  | k :: keys =>
      match servers !! k with
      | None => register_a2a_servers s reg servers keys
      | Some cfg =>
          let '(r, s) := newA2AClient s k cfg in
          match r with
          | inl e => (inl (wrap_error "WithA2AConfig: " e), s)
          | inr cl =>
              match registered "WithA2AConfig" (Register a2a_Name reg (Some (SdkA2A cl))) with
              | inl e => (inl e, s)
              | inr reg => register_a2a_servers s reg servers keys
              end
          end
      end
  end.

Definition buildA2ARegistry (s : map_store) (reg : option (registry A2AClient)) (servers : gmap string A2AConfig)
    (clients : list (option A2AClient)) : result (registry A2AClient) * map_store :=
  let '(r, s) := register_a2a_servers s (default NewRegistry reg) servers (sorted_keys servers) in
  (let? reg := r in
   let? reg := register_clients a2a_Name "WithA2AClients" "WithA2AClients: a2a client must not be nil" reg clients in
   guard? validate_client_names "a2a" ∅ (map a2a_Name (List_ reg)) in inr reg, s).

(** ** Sub-agents *)

Definition defaultMaxSubAgentDepth : Z := 2.

Section agents.
Context (deref : loc -> agentConfig).

Definition agent_name (l : loc) : string := b_Name (deref l).

(** [a.subAgentRegistry.List()]; none for a nil registry. *)
Definition children (l : loc) : list loc :=
  match b_subAgentRegistry (deref l) with None => [] | Some r => List_ r end.

Definition depth_error (maxDepth : Z) (a : loc) : error :=
  errors_New ("sub-agent depth exceeds max (" +:+ Itoa maxDepth +:+ "): at " +:+ Quote (agent_name a)).
Definition cycle_error (a child : loc) : error :=
  errors_New ("sub-agent cycle detected involving " +:+ Quote (agent_name a) +:+ " and " +:+ Quote (agent_name child)).

(** [dfsSubAgentDepth]: the depth test ends the recursion, after at most [maxDepth] levels.
    [path] is the set of agents on the current path. *)
Fixpoint dfsSubAgentDepth_ (fuel : nat) (maxDepth : Z) (a : loc) (path : gset loc) (depth : Z) : option error :=
  match fuel with
  | O => Some (depth_error maxDepth a)
  | S fuel =>
      if maxDepth <? depth then Some (depth_error maxDepth a)
      else
        (fix visit (l : list loc) : option error :=
           match l with
           | [] => None
           | child :: l =>
               if decide (child ∈ path) then Some (cycle_error a child)
               else match dfsSubAgentDepth_ fuel maxDepth child (path ∪ {[ child ]}) (depth + 1) with
                    | Some e => Some e
                    | None => visit l
                    end
           end) (children a)
  end.

Definition dfs_fuel (maxDepth depth : Z) : nat := Z.to_nat (maxDepth - depth + 2).

Definition dfsSubAgentDepth (maxDepth : Z) (a : loc) (path : gset loc) (depth : Z) : option error :=
  dfsSubAgentDepth_ (dfs_fuel maxDepth depth) maxDepth a path depth.

(** The checks of [validateSubAgentRegistry] on the direct sub-agents. *)
Fixpoint validate_direct (root : string) (seen : gset loc) (seenNames : gset string) (agents : list loc) : option error :=
  match agents with
  | [] => None
  | sa :: agents =>
      if decide (sa ∈ seen) then
        Some (errors_New ("duplicate sub-agent " +:+ Quote (agent_name sa) +:+ " in WithSubAgents"))
      else if String.eqb (agent_name sa) root then
        Some (errors_New ("sub-agent name " +:+ Quote (agent_name sa) +:+ " must differ from root agent name"))
      else match subAgentToolName (agent_name sa) with
           | inl e => Some (wrap_error "WithSubAgents: " e)
           | inr toolName =>
               if decide (toolName ∈ seenNames) then
                 Some (errors_New ("duplicate sub-agent tool name " +:+ Quote toolName))
               else validate_direct root (seen ∪ {[ sa ]}) (seenNames ∪ {[ toolName ]}) agents
           end
  end.

Fixpoint validate_graphs (maxDepth : Z) (agents : list loc) : option error :=
  match agents with
  | [] => None
  | s :: agents =>
      match dfsSubAgentDepth maxDepth s {[ s ]} 1 with
      | Some e => Some e
      | None => validate_graphs maxDepth agents
      end
  end.

Definition validateSubAgentRegistry (root : string) (maxDepth : Z) (reg : registry loc) : option error :=
  let maxDepth := if maxDepth <=? 0 then defaultMaxSubAgentDepth else maxDepth in
  match validate_direct root ∅ ∅ (List_ reg) with
  | Some e => Some e
  | None => validate_graphs maxDepth (List_ reg)
  end.

Definition buildSubAgentRegistry (root : string) (maxDepth : Z) (reg : option (registry loc))
    (subAgents : list (option loc)) : result (registry loc) :=
  let? reg := registered "WithSubAgents" (RegisterAll agent_name (default NewRegistry reg) subAgents) in
  guard? validateSubAgentRegistry root maxDepth reg in inr reg.

(** ** The tools of a run *)

(** What the servers list when they are asked. *)
Context (ListTools_of : MCPClient -> result (list ToolSpec)).
Context (ListSkills_of : A2AClient -> result (list A2ASkillSpec)).

Fixpoint mcp_tools (clients : list MCPClient) : result (list Tool) :=
  match clients with
  | [] => inr []
  | cl :: clients =>
      let serverKey := TrimSpace (mcp_Name cl) in
      match ListTools_of cl with
      | inl e => inl (wrap_error ("mcp " +:+ Quote serverKey +:+ ": list tools: ") e)
      | inr specs => let? tools := mcp_tools clients in inr (map (NewMCPTool serverKey) specs ++ tools)
      end
  end.
Definition resolveMCPTools (c : agentConfig) : result (list Tool) :=
  match b_mcpRegistry c with None => inr [] | Some r => mcp_tools (List_ r) end.

Fixpoint a2a_tools (clients : list A2AClient) : result (list Tool) :=
  match clients with
  | [] => inr []
  | cl :: clients =>
      let serverKey := TrimSpace (a2a_Name cl) in
      match ListSkills_of cl with
      | inl e => inl (wrap_error ("a2a " +:+ Quote serverKey +:+ ": list skills: ") e)
      | inr skills => let? tools := a2a_tools clients in inr (map (NewA2ATool serverKey) skills ++ tools)
      end
  end.
Definition resolveA2ATools (c : agentConfig) : result (list Tool) :=
  match b_a2aRegistry c with None => inr [] | Some r => a2a_tools (List_ r) end.

Definition sub_agent_tool (l : loc) : option Tool := NewSubAgentTool (b_Name (deref l)) (b_Description (deref l)).

Definition resolveSubAgentTools (c : agentConfig) : list Tool :=
  match b_subAgentRegistry c with None => [] | Some r => omap sub_agent_tool (List_ r) end.

Definition resolveMemoryTools (c : agentConfig) : list Tool :=
  match b_memoryConfig c with
  | None => []
  | Some m =>
      let cfg := Config_WithDefaults m in
      if negb (mc_Memory cfg) || negb (String.eqb (st_Mode (mc_Store cfg)) StoreModeOnDemand) then []
      else [NewRegisteredMemoryTool]
  end.

Fixpoint retriever_tools (seen : gset string) (l : list (option Retriever)) : result (list Tool) :=
  match l with
  | [] => inr []
  | None :: l => retriever_tools seen l  (* excluded by [validateRetrievers] *)
  | Some r :: l =>
      let name := TrimSpace (ret_Name r) in
      if String.eqb name "" then inl (errors_New "retriever name must not be empty")
      else if decide (name ∈ seen) then inl (errors_New ("duplicate retriever name " +:+ Quote name))
      else match NewRetrieverTool (ret_Name r) with
           | None => inl (errors_New ("retriever " +:+ Quote name +:+ ": failed to build tool"))
           | Some t => let? tools := retriever_tools (seen ∪ {[ name ]}) l in inr (t :: tools)
           end
  end.
Definition resolveRetrieverTools (c : agentConfig) : result (list Tool) :=
  if negb (String.eqb (b_retrieverMode c) RetrieverModeAgentic) && negb (String.eqb (b_retrieverMode c) RetrieverModeHybrid)
  then inr [] else retriever_tools ∅ (b_retrievers c).

(** Native, MCP, A2A, sub-agent, memory, retriever tools, in this order. *)
Definition resolveTools (c : agentConfig) : result (list Tool) :=
  let native := match b_toolRegistry c with Some r => List_ r | None => [] end in
  let? mcp := resolveMCPTools c in
  let? a2a := resolveA2ATools c in
  let sub := resolveSubAgentTools c in
  let memory := resolveMemoryTools c in
  let? retriever := resolveRetrieverTools c in
  let tools := native ++ mcp ++ a2a ++ sub ++ memory ++ retriever in
  guard? validateToolNames tools in
  guard? (match b_subAgentRegistry c with
          | Some r => validateSubAgentRegistry (b_Name c) (b_maxSubAgentDepth c) r
          | None => None
          end) in
  inr tools.

(** ** [buildAgentConfig] *)

Definition defaultTimeoutInteractive : Duration := 5 * minute.
Definition defaultTimeoutAutonomous : Duration := 60 * minute.
Definition defaultMaxIterations : Z := 5.

(** What the build returns: errors of the memory configuration are kept as values. *)
Inductive build_result :=
| Built (c : agentConfig)
| BuildError (e : error)
| BuildMemoryError (e : config_error).

Definition validateConversation (c : option ConversationConfig) (disableLocalWorker : bool) : result (option ConversationConfig) :=
  match c with
  | None => inr None
  | Some c =>
      let cfg := Conversation_WithDefaults c in
      guard? Conversation_Validate cfg in
      guard? ValidateDistributed (cv_Conversation cfg) disableLocalWorker in
      inr (Some cfg)
  end.

Definition validateMemory (m : option MemConfig) : sum config_error (option MemConfig) :=
  match m with
  | None => inr None
  | Some m =>
      let cfg := Config_WithDefaults m in
      match Config_Validate cfg with Some e => inl e | None => inr (Some cfg) end
  end.

Definition validateAgentMode (mode : string) : result string :=
  let mode := if String.eqb mode "" then AgentModeInteractive else mode in
  if String.eqb mode AgentModeInteractive || String.eqb mode AgentModeAutonomous then inr mode
  else inl (errors_New ("invalid agent mode " +:+ Quote mode +:+ ": use " +:+ Quote AgentModeInteractive +:+ " or " +:+
                        Quote AgentModeAutonomous)).

Definition validateToolExecutionMode (mode : string) : result string :=
  let mode := if String.eqb mode "" then AgentToolExecutionModeParallel else mode in
  if String.eqb mode AgentToolExecutionModeSequential || String.eqb mode AgentToolExecutionModeParallel then inr mode
  else inl (errors_New ("invalid tool execution mode " +:+ Quote mode +:+ ": use " +:+
                        Quote AgentToolExecutionModeSequential +:+ " or " +:+ Quote AgentToolExecutionModeParallel)).

(** Up to the registries: the name, the defaults and the modes. *)
Definition with_identity (c : agentConfig) (name : string) (conv : option ConversationConfig) (mem : option MemConfig)
    (agentMode execMode : string) : agentConfig :=
  {| b_Name := name;
     b_Description := if String.eqb (b_Description c) "" then name +:+ " is an AI agent." else b_Description c;
     b_SystemPrompt := b_SystemPrompt c; b_runtimeFactory := b_runtimeFactory c;
     b_factoryConflict := b_factoryConflict c; b_localConfig := b_localConfig c; b_LLMClient := b_LLMClient c;
     b_namedLLMClients := b_namedLLMClients c; b_tools := b_tools c; b_toolRegistry := b_toolRegistry c;
     b_mcpRegistry := b_mcpRegistry c; b_a2aRegistry := b_a2aRegistry c; b_subAgentRegistry := b_subAgentRegistry c;
     b_toolApprovalPolicy := match b_toolApprovalPolicy c with None => Some RequireAllToolApprovalPolicy | p => p end;
     b_maxIterations := b_maxIterations c; b_approvalHandler := b_approvalHandler c; b_timeout := b_timeout c;
     b_approvalTimeout := b_approvalTimeout c; b_executionConfigs := b_executionConfigs c;
     b_conversationConfig := conv; b_memoryConfig := mem; b_responseFormat := b_responseFormat c;
     b_llmSampling := b_llmSampling c; b_disableLocalWorker := b_disableLocalWorker c; b_subAgents := b_subAgents c;
     b_maxSubAgentDepth := if b_maxSubAgentDepth c <=? 0 then defaultMaxSubAgentDepth else b_maxSubAgentDepth c;
     b_mcpServers := b_mcpServers c; b_mcpClients := b_mcpClients c; b_a2aServers := b_a2aServers c;
     b_a2aClients := b_a2aClients c; b_retrievers := b_retrievers c; b_retrieverMode := b_retrieverMode c;
     b_agentMode := agentMode; b_agentToolExecutionMode := execMode; b_budgetConfig := b_budgetConfig c;
     b_hooks := b_hooks c; b_errorControl := b_errorControl c |}.

(** [buildRegistries] and the retriever mode; the staged tools and sub-agents are consumed. *)
Definition with_registries (c : agentConfig) (tools : registry Tool) (mcp : registry MCPClient) (a2a : registry A2AClient)
    (subs : registry loc) (retrieverMode : string) : agentConfig :=
  {| b_Name := b_Name c; b_Description := b_Description c; b_SystemPrompt := b_SystemPrompt c;
     b_runtimeFactory := b_runtimeFactory c; b_factoryConflict := b_factoryConflict c;
     b_localConfig := b_localConfig c; b_LLMClient := b_LLMClient c; b_namedLLMClients := b_namedLLMClients c;
     b_tools := []; b_toolRegistry := Some tools; b_mcpRegistry := Some mcp; b_a2aRegistry := Some a2a;
     b_subAgentRegistry := Some subs; b_toolApprovalPolicy := b_toolApprovalPolicy c;
     b_maxIterations := b_maxIterations c; b_approvalHandler := b_approvalHandler c; b_timeout := b_timeout c;
     b_approvalTimeout := b_approvalTimeout c; b_executionConfigs := b_executionConfigs c;
     b_conversationConfig := b_conversationConfig c; b_memoryConfig := b_memoryConfig c;
     b_responseFormat := b_responseFormat c; b_llmSampling := b_llmSampling c;
     b_disableLocalWorker := b_disableLocalWorker c; b_subAgents := []; b_maxSubAgentDepth := b_maxSubAgentDepth c;
     b_mcpServers := b_mcpServers c; b_mcpClients := b_mcpClients c; b_a2aServers := b_a2aServers c;
     b_a2aClients := b_a2aClients c; b_retrievers := b_retrievers c; b_retrieverMode := retrieverMode;
     b_agentMode := b_agentMode c; b_agentToolExecutionMode := b_agentToolExecutionMode c;
     b_budgetConfig := b_budgetConfig c; b_hooks := b_hooks c; b_errorControl := b_errorControl c |}.

Definition with_limits (c : agentConfig) (timeout approvalTimeout : Duration) (budget : option BudgetConfig) : agentConfig :=
  {| b_Name := b_Name c; b_Description := b_Description c; b_SystemPrompt := b_SystemPrompt c;
     b_runtimeFactory := b_runtimeFactory c; b_factoryConflict := b_factoryConflict c;
     b_localConfig := b_localConfig c; b_LLMClient := b_LLMClient c; b_namedLLMClients := b_namedLLMClients c;
     b_tools := b_tools c; b_toolRegistry := b_toolRegistry c; b_mcpRegistry := b_mcpRegistry c;
     b_a2aRegistry := b_a2aRegistry c; b_subAgentRegistry := b_subAgentRegistry c;
     b_toolApprovalPolicy := b_toolApprovalPolicy c;
     b_maxIterations := if b_maxIterations c <=? 0 then defaultMaxIterations else b_maxIterations c;
     b_approvalHandler := b_approvalHandler c; b_timeout := timeout; b_approvalTimeout := approvalTimeout;
     b_executionConfigs := b_executionConfigs c; b_conversationConfig := b_conversationConfig c;
     b_memoryConfig := b_memoryConfig c; b_responseFormat := b_responseFormat c; b_llmSampling := b_llmSampling c;
     b_disableLocalWorker := b_disableLocalWorker c; b_subAgents := b_subAgents c;
     b_maxSubAgentDepth := b_maxSubAgentDepth c; b_mcpServers := b_mcpServers c; b_mcpClients := b_mcpClients c;
     b_a2aServers := b_a2aServers c; b_a2aClients := b_a2aClients c; b_retrievers := b_retrievers c;
     b_retrieverMode := b_retrieverMode c; b_agentMode := b_agentMode c;
     b_agentToolExecutionMode := b_agentToolExecutionMode c; b_budgetConfig := budget; b_hooks := b_hooks c;
     b_errorControl := b_errorControl c |}.

Definition resolve_timeout (c : agentConfig) : Duration :=
  if b_timeout c =? 0 then
    if String.eqb (b_agentMode c) AgentModeAutonomous then defaultTimeoutAutonomous else defaultTimeoutInteractive
  else b_timeout c.

Definition resolve_approval_timeout (c : agentConfig) (timeout : Duration) : Duration :=
  if b_approvalTimeout c =? 0 then wrap64 (timeout - 30 * second) else b_approvalTimeout c.

Definition check_approval_timeout (approvalTimeout timeout : Duration) : option error :=
  if timeout <=? approvalTimeout then
    Some (errors_New ("approvalTimeout (" +:+ Duration_String approvalTimeout +:+ ") must be less than agent timeout (" +:+
                      Duration_String timeout +:+ ")"))
  else if MaxApprovalTimeout <? approvalTimeout then
    Some (errors_New ("approvalTimeout (" +:+ Duration_String approvalTimeout +:+ ") exceeds max (" +:+
                      Duration_String MaxApprovalTimeout +:+ ")"))
  else None.

(** The checks before the memory configuration. *)
Definition build_start (c : agentConfig) : result (string * option ConversationConfig) :=
  let name := sanitizeName (b_Name c) in
  guard? validateAgentName name in
  guard? validateHookGroups (b_hooks c) in
  guard? b_factoryConflict c in
  guard? (match b_runtimeFactory c with Some f => rf_valid f | None => None end) in
  guard? (match b_LLMClient c with None => Some (errors_New "LLM client is required") | Some _ => None end) in
  let? conv := validateConversation (b_conversationConfig c) (b_disableLocalWorker c) in
  inr (name, conv).

(** The modes and the registries; creating A2A clients acts on the store of header maps. *)
Definition build_registries (s : map_store) (c : agentConfig) (name : string) (conv : option ConversationConfig)
    (mem : option MemConfig) : result agentConfig * map_store :=
  match (let? mode := validateAgentMode (b_agentMode c) in
         let? exec := validateToolExecutionMode (b_agentToolExecutionMode c) in
         let c := with_identity c name conv mem mode exec in
         let? tools := buildToolRegistry (b_toolRegistry c) (b_tools c) in
         let? mcp := buildMCPRegistry (b_mcpRegistry c) (b_mcpServers c) (b_mcpClients c) in
         inr (c, tools, mcp)) with
  | inl e => (inl e, s)
  | inr (c, tools, mcp) =>
      let '(r, s) := buildA2ARegistry s (b_a2aRegistry c) (b_a2aServers c) (b_a2aClients c) in
      (let? a2a := r in
       let? subs := buildSubAgentRegistry (b_Name c) (b_maxSubAgentDepth c) (b_subAgentRegistry c) (b_subAgents c) in
       guard? validateRetrievers (b_retrievers c) in
       let? rmode := validateRetrieverMode (b_retrieverMode c) in
       inr (with_registries c tools mcp a2a subs rmode), s)
  end.

(** From the first resolution of the tools on. *)
Definition build_end (c : agentConfig) : result agentConfig :=
  let? _ := resolveTools c in
  let timeout := resolve_timeout c in
  let approvalTimeout := resolve_approval_timeout c timeout in
  guard? check_approval_timeout approvalTimeout timeout in
  let? budget := (match b_budgetConfig c with
                  | None => inr None
                  | Some b => let? b := validateBudget b in inr (Some b)
                  end) in
  guard? validateNamedLLMClients (b_namedLLMClients c) in
  guard? validateErrorControl (b_errorControl c) (b_namedLLMClients c) in
  inr (with_limits c timeout approvalTimeout budget).

(** [observability] is the error of the OTLP clients, built last. *)
Definition buildAgentConfig (observability : option error) (s : map_store) (c : agentConfig) : build_result * map_store :=
  match build_start c with
  | inl e => (BuildError e, s)
  | inr (name, conv) =>
      match validateMemory (b_memoryConfig c) with
      | inl e => (BuildMemoryError e, s)
      | inr mem =>
          let '(r, s) := build_registries s c name conv mem in
          (match (let? c := r in build_end c) with
           | inl e => BuildError e
           | inr c => match observability with Some e => BuildError e | None => Built c end
           end, s)
      end
  end.
End agents.

(** ** The runtime view *)

Definition responseFormatForLLM (c : agentConfig) : ResponseFormat :=
  match b_responseFormat c with Some f => f | None => {| rf_Type := "text"; rf_Name := ""; rf_Schema := VNull |} end.

Definition runtimeAgentSpec (c : agentConfig) : AgentSpec :=
  {| as_Name := b_Name c; as_Description := b_Description c; as_SystemPrompt := b_SystemPrompt c;
     as_ResponseFormat := Some (responseFormatForLLM c) |}.

Definition runtimeAgentMemory (c : agentConfig) : option MemConfig := Config_WithDefaults <$> b_memoryConfig c.

(** The client of a built configuration is never nil. *)
Definition runtimeAgentConfig (c : agentConfig) (client : LLMClient) : AgentConfig :=
  {| ac_LLMClient := client;
     ac_Sampling := b_llmSampling c;
     ac_ToolApprovalPolicy := policy_requires <$> b_toolApprovalPolicy c;
     ac_Retrievers := omap id (b_retrievers c);
     ac_RetrieverMode := b_retrieverMode c;
     ac_Conversation := match b_conversationConfig c with Some cv => bool_decide (is_Some (cv_Conversation cv)) | None => false end;
     ac_ConversationSize := match b_conversationConfig c with Some cv => cv_Size cv | None => 0 end;
     ac_ConversationSaveOnIteration := match b_conversationConfig c with Some cv => cv_SaveOnIteration cv | None => false end;
     ac_Memory := runtimeAgentMemory c;
     ac_MaxIterations := b_maxIterations c;
     ac_Timeout := b_timeout c;
     ac_ApprovalTimeout := b_approvalTimeout c;
     ac_Budget := b_budgetConfig c;
     ac_ExecutionConfigs := b_executionConfigs c;
     ac_Hooks := b_hooks c;
     ac_NamedLLMClients := b_namedLLMClients c;
     ac_ErrorControl := b_errorControl c |}.

(** [buildLocalRuntime]; [NewLocalRuntime] gets a metrics sink, the no-op one if unset. *)
Definition local_runtime (c : agentConfig) (client : LLMClient) : Runtime :=
  {| rt_AgentSpec := runtimeAgentSpec c; rt_AgentConfig := runtimeAgentConfig c client; rt_Metrics := true;
     rt_ToolExecutionMode := b_agentToolExecutionMode c |}.

Definition requiresApproval (c : agentConfig) (t : Tool) : bool :=
  match b_toolApprovalPolicy c with
  | None => default false (t_approval t)
  | Some p => policy_requires p t
  end.

Definition hasApprovalTools (c : agentConfig) (tools : list Tool) : bool := existsb (requiresApproval c) tools.
