(* ===== verification/AgentConfigFacts.v ===== *)
(** What the builder guarantees: theorems about [AgentConfig.v]. *)
From S2P Require Import Prelude GoLib Types Prog Policies MemoryConfig Budget CircuitBreaker Telemetry Events Effects ErrorControl LLM AgentLoop Registry AgentTools McpClient A2aClient AgentConfig.

#[local] Open Scope string_scope.
#[local] Open Scope list_scope.
#[local] Open Scope Z_scope.

(** ** Names *)

Lemma forallb_app_and {A} (f : A -> bool) l k : forallb f (l ++ k) = forallb f l && forallb f k.
Proof. apply forallb_app. Qed.

Lemma sanitize_loop_chars len l : forallb name_char (sanitize_loop len l) = true.
Proof.
  revert len. induction l as [|c l IH]; intros len; [done|]. cbn [sanitize_loop].
  rewrite forallb_app. apply andb_true_iff. split.
  - unfold name_byte. destruct (is_blank_byte c); [done|]. destruct (name_char c) eqn:E; [|done]. cbn. by rewrite E.
  - by destruct (_ <=? _)%nat.
Qed.

Lemma forallb_take {A} (f : A -> bool) n l : forallb f l = true -> forallb f (take n l) = true.
Proof.
  rewrite !forallb_forall. intros H x Hx. apply H. rewrite <- (take_drop n l). apply in_or_app. by left.
Qed.

Lemma strlen_of_bytes l : String.length (of_bytes l) = length l.
Proof. induction l; cbn; congruence. Qed.

(** Runes of white space have no name character at either end. *)
Lemma no_space_prefix ps c l :
  forallb (fun p => match p with c :: _ => negb (name_char c) | [] => false end) ps = true ->
  name_char c = true -> strip_one ps (c :: l) = None.
Proof.
  intros Hps Hc. apply strip_one_None. intros p r Hp Heq. rewrite forallb_forall in Hps. specialize (Hps p Hp).
  destruct p as [|d p]; [done|]. injection Heq as -> _. by rewrite Hc in Hps.
Qed.

Lemma TrimSpace_name l : forallb name_char l = true -> TrimSpace (of_bytes l) = of_bytes l.
Proof.
  intros Hl. unfold TrimSpace. rewrite to_of_bytes. f_equal.
  assert (Hleft : trim_left_bytes l = l).
  { unfold trim_left_bytes. destruct l as [|c l]; [done|]. apply trim_fuel_id, no_space_prefix; [by vm_compute|].
    cbn in Hl. by apply andb_true_iff in Hl as [? _]. }
  rewrite Hleft. unfold trim_right_bytes. rewrite trim_fuel_id; [by rewrite rev_involutive|].
  assert (Hr : forallb name_char (rev l) = true).
  { rewrite forallb_forall in *. intros x Hx. apply Hl. by apply in_rev. }
  destruct (rev l) as [|c k]; [done|]. apply no_space_prefix; [by vm_compute|]. cbn in Hr. by apply andb_true_iff in Hr as [? _].
Qed.

Lemma name_char_lt c : name_char c = true -> (N_of_ascii c < 128)%N /\ lower_byte c = c.
Proof.
  unfold name_char, lower_byte. intros H. rewrite !orb_true_iff, !andb_true_iff, !N.leb_le, !N.eqb_eq in H.
  split; [lia|]. destruct ((65 <=? N_of_ascii c) && (N_of_ascii c <=? 90))%N eqn:E; [|done].
  rewrite andb_true_iff, !N.leb_le in E. lia.
Qed.

Lemma bytes_are_high (a : ascii) l n ns : (N_of_ascii a < 128)%N -> (128 <= n < 256)%N -> bytes_are (a :: l) (n :: ns) = false.
Proof.
  intros Ha Hn. apply bool_decide_eq_false. intros [= -> _]. rewrite N_ascii_embedding in Ha; lia.
Qed.

Lemma lower_bytes_name b l : forallb name_char l = true -> lower_bytes b l = l.
Proof.
  induction l as [|a t IH]; intros Hl; [done|]. cbn in Hl. apply andb_true_iff in Hl as [Ha Ht].
  destruct (name_char_lt a Ha) as [Hlt Hlow].
  transitivity (lower_byte a :: lower_bytes b t); [|by rewrite Hlow, IH].
  destruct t as [|c u]; [done|]. cbn [lower_bytes].
  rewrite !(bytes_are_high a) by (done || lia). rewrite !andb_false_r.
  destruct u as [|d v]; [done|]. by rewrite (bytes_are_high a) by (done || lia).
Qed.

Lemma sanitize_loop_name len l :
  forallb name_char l = true -> (len + length l <= maxAgentNameLen)%nat -> sanitize_loop len l = l.
Proof.
  revert len. induction l as [|c l IH]; intros len Hl Hlen; [done|]. cbn in Hl. apply andb_true_iff in Hl as [Hc Hl].
  assert (Hb : name_byte c = [c]).
  { unfold name_byte. rewrite Hc. unfold is_blank_byte. unfold name_char in Hc.
    rewrite !orb_true_iff, !andb_true_iff, !N.leb_le, !N.eqb_eq in Hc.
    destruct (_ || _) eqn:E; [|done]. rewrite !orb_true_iff, !N.eqb_eq in E. lia. }
  cbn [sanitize_loop]. rewrite Hb. cbn [length app] in *. destruct (Nat.leb_spec maxAgentNameLen (len + 1)).
  - destruct l; [done|]. cbn in Hlen. lia.
  - rewrite IH by (done || lia). done.
Qed.

(** [sanitizeName] yields nothing or a name the validator accepts, made of lower-case letters,
    digits, hyphens and underscores, and leaves such a name as it is. *)
Theorem sanitizeName_valid s :
  (sanitizeName s = "" \/ validateAgentName (sanitizeName s) = None) /\
  forallb name_char (to_bytes (sanitizeName s)) = true /\
  (String.length (sanitizeName s) <= maxAgentNameLen)%nat /\
  sanitizeName (sanitizeName s) = sanitizeName s.
Proof.
  assert (Hchars : exists l, sanitizeName s = of_bytes l /\ forallb name_char l = true /\ (length l <= maxAgentNameLen)%nat).
  { unfold sanitizeName. destruct (String.eqb _ _).
    - exists []. repeat split; cbn; lia.
    - eexists. split; [done|]. split; [apply forallb_take, sanitize_loop_chars|]. rewrite length_take. lia. }
  destruct Hchars as (l & -> & Hl & Hlen). rewrite to_of_bytes, strlen_of_bytes. split; [|split; [done|split; [done|]]].
  - destruct (decide (of_bytes l = "")) as [|Hne]; [by left|right]. unfold validateAgentName.
    destruct (String.eqb_spec (of_bytes l) "") as [|_]; [done|]. rewrite strlen_of_bytes.
    destruct (Nat.ltb_spec maxAgentNameLen (length l)); [lia|]. rewrite to_of_bytes.
    assert (forallb valid_name_char l = true) as ->; [|done]. rewrite forallb_forall in *. intros c Hc.
    unfold valid_name_char. by rewrite (Hl c Hc).
  - unfold sanitizeName. rewrite TrimSpace_name by done. destruct (String.eqb_spec (of_bytes l) "") as [He|_]; [done|].
    rewrite to_of_bytes, lower_bytes_name, sanitize_loop_name by done. by rewrite take_ge.
Qed.

Example sanitizeName_ex : sanitizeName "  My Agent (v2)!
" = "my-agent-v2".
Proof. vm_compute. reflexivity. Qed.

(** ** The graph of sub-agents *)

Section graph.
Context (deref : loc -> agentConfig).

Abbreviation children := (children deref).
Abbreviation agent_name := (agent_name deref).

(** [walk a n b]: [n] delegations lead from [a] to [b]. *)
Inductive walk : loc -> nat -> loc -> Prop :=
| walk_here a : walk a 0 a
| walk_step a b n c : b ∈ children a -> walk b n c -> walk a (S n) c.

Lemma walk_app a n b m c : walk a n b -> walk b m c -> walk a (n + m) c.
Proof. induction 1; [done|]. intros. eapply walk_step; eauto. Qed.

Lemma walk_snoc a n b c : walk a n b -> c ∈ children b -> walk a (S n) c.
Proof. intros Hw Hc. rewrite <- Nat.add_1_r. eapply walk_app; [done|]. eapply walk_step; [done|constructor]. Qed.

(** Around a cycle one can walk any distance. *)
Lemma cycle_walks a n m : walk a (S n) a -> exists k, (m <= k)%nat /\ walk a k a.
Proof.
  intros Hc. induction m as [|m (k & Hk & Hw)]; [exists 0%nat; split; [lia|constructor]|].
  exists (S n + k)%nat. split; [lia|]. by eapply walk_app.
Qed.

Lemma dfs_unfold fuel maxDepth a path depth :
  dfsSubAgentDepth_ deref (S fuel) maxDepth a path depth = None <->
  depth <= maxDepth /\
  Forall (fun child => child ∉ path /\ dfsSubAgentDepth_ deref fuel maxDepth child (path ∪ {[ child ]}) (depth + 1) = None)
    (children a).
Proof.
  cbn [dfsSubAgentDepth_]. destruct (maxDepth <? depth) eqn:E; crush_bool; [split; [done|lia]|].
  assert (Hl : forall l,
    (fix visit (l : list loc) : option error :=
       match l with
       | [] => None
       | child :: l =>
           if decide (child ∈ path) then Some (cycle_error deref a child)
           else match dfsSubAgentDepth_ deref fuel maxDepth child (path ∪ {[ child ]}) (depth + 1) with
                | Some e => Some e
                | None => visit l
                end
       end) l = None <->
    Forall (fun child => child ∉ path /\ dfsSubAgentDepth_ deref fuel maxDepth child (path ∪ {[ child ]}) (depth + 1) = None) l).
  { induction l as [|child l IH]; [by split|]. rewrite Forall_cons, <- IH. clear IH.
    destruct (decide (child ∈ path)); [naive_solver|]. destruct (dfsSubAgentDepth_ _ _ _ child _ _); naive_solver. }
  rewrite Hl. naive_solver lia.
Qed.

Lemma dfs_sound fuel maxDepth a path depth n b :
  dfsSubAgentDepth_ deref fuel maxDepth a path depth = None -> walk a n b -> depth + Z.of_nat n <= maxDepth.
Proof.
  intros Hd Hw. revert fuel path depth Hd. induction Hw as [a|a b n c Hb Hw IH]; intros [|fuel] path depth Hd; try done;
    apply dfs_unfold in Hd as [Hle Hall].
  - lia.
  - rewrite Forall_forall in Hall. destruct (Hall _ Hb) as [_ Hd]. apply IH in Hd. lia.
Qed.

Lemma dfs_complete fuel maxDepth a path depth :
  (dfs_fuel maxDepth depth <= fuel)%nat ->
  (forall p, p ∈ path -> exists k, walk p k a) ->
  (forall n b, walk a n b -> depth + Z.of_nat n <= maxDepth) ->
  dfsSubAgentDepth_ deref fuel maxDepth a path depth = None.
Proof.
  revert a path depth. unfold dfs_fuel. induction fuel as [|fuel IH]; intros a path depth Hfuel Hpath Hbound.
  - pose proof (Hbound 0%nat a (walk_here a)). lia.
  - apply dfs_unfold. pose proof (Hbound 0%nat a (walk_here a)). split; [lia|].
    apply Forall_forall. intros child Hc. split.
    + intros Hin. destruct (Hpath _ Hin) as [k Hk].
      destruct (cycle_walks a k (Z.to_nat (maxDepth - depth + 1))) as (m & Hm & Hw).
      { eapply walk_step; [exact Hc|exact Hk]. }
      pose proof (Hbound _ _ Hw). lia.
    + apply IH; [lia| |].
      * intros p [Hp| ->%elem_of_singleton]%elem_of_union; [|exists 0%nat; constructor].
        destruct (Hpath p Hp) as [k Hk]. exists (S k). by eapply walk_snoc.
      * intros n b Hw. pose proof (Hbound (S n) b (walk_step _ _ _ _ Hc Hw)). lia.
Qed.

Lemma dfs_iff maxDepth s :
  dfsSubAgentDepth deref maxDepth s {[ s ]} 1 = None <-> forall n b, walk s n b -> 1 + Z.of_nat n <= maxDepth.
Proof.
  split; [intros H n b; by apply (dfs_sound _ _ _ _ _ _ _ H)|]. intros H. apply dfs_complete; [done| |done].
  intros p ->%elem_of_singleton. exists 0%nat. constructor.
Qed.

Lemma validate_graphs_iff maxDepth agents :
  validate_graphs deref maxDepth agents = None <->
  forall s n b, s ∈ agents -> walk s n b -> 1 + Z.of_nat n <= maxDepth.
Proof.
  induction agents as [|s agents IH]; cbn; [split; [by intros _ ? ? ? ?%not_elem_of_nil|done]|].
  destruct (dfsSubAgentDepth deref maxDepth s {[ s ]} 1) eqn:Hd.
  - split; [done|]. intros H. rewrite (proj2 (dfs_iff maxDepth s)) in Hd; [done|]. intros n b. apply H. by left.
  - rewrite IH. rewrite dfs_iff in Hd. split; intros H; [|intros; eapply H; [by right|done]].
    intros s' n b [->|]%elem_of_cons; [apply Hd|by apply H].
Qed.

(** Every direct sub-agent has a delegation tool of its own. *)
Definition distinct_tools (agents : list loc) : Prop :=
  exists names, map (fun l => subAgentToolName (agent_name l)) agents = map inr names /\ NoDup names.

Lemma validate_direct_iff root agents seen seenNames :
  (forall l n, l ∈ seen -> subAgentToolName (agent_name l) = inr n -> n ∈ seenNames) ->
  validate_direct deref root seen seenNames agents = None <->
  Forall (fun l => agent_name l <> root) agents /\
  exists names, map (fun l => subAgentToolName (agent_name l)) agents = map inr names /\ NoDup names /\
    Forall (fun n => n ∉ seenNames) names.
Proof.
  revert seen seenNames. induction agents as [|sa agents IH]; intros seen seenNames Hseen; cbn [validate_direct].
  - split; [|done]. intros _. split; [done|]. exists []. repeat split; constructor.
  - rewrite Forall_cons. destruct (String.eqb_spec (agent_name sa) root) as [Hr|Hr].
    { destruct (decide _); naive_solver. }
    destruct (subAgentToolName (agent_name sa)) as [e|n] eqn:Hn.
    { split; [by destruct (decide _)|]. intros (_ & [|x names] & Hm & _); cbn in Hm; [done|]. by rewrite Hn in Hm. }
    assert (Hcons : (exists names, map (fun l => subAgentToolName (agent_name l)) (sa :: agents) = map inr names /\
        NoDup names /\ Forall (fun n => n ∉ seenNames) names) <->
      n ∉ seenNames /\ exists names, map (fun l => subAgentToolName (agent_name l)) agents = map inr names /\
        NoDup names /\ Forall (fun m => m ∉ seenNames ∪ {[ n ]}) names).
    { split.
      - intros ([|m names] & Hm & Hnd & Hf); cbn in Hm; [done|]. rewrite Hn in Hm. injection Hm as -> Hm.
        apply NoDup_cons in Hnd as [Hnm Hnd]. apply Forall_cons in Hf as [Hfm Hf]. split; [done|]. exists names.
        split; [done|]. split; [done|]. apply Forall_forall. intros k Hk. rewrite Forall_forall in Hf.
        specialize (Hf k Hk). set_solver.
      - intros (Hns & names & Hm & Hnd & Hf). exists (n :: names). cbn. rewrite Hn, Hm. split; [done|].
        rewrite Forall_forall in Hf. split; [apply NoDup_cons; split; [|done]|].
        + intros Hin. specialize (Hf n Hin). set_solver.
        + apply Forall_cons. split; [done|]. apply Forall_forall. intros k Hk. specialize (Hf k Hk). set_solver. }
    rewrite Hcons. destruct (decide (sa ∈ seen)) as [Hin|Hin].
    { split; [done|]. intros (_ & Hns & _). by destruct Hns; eapply Hseen. }
    destruct (decide (n ∈ seenNames)); [naive_solver|]. rewrite IH; [naive_solver|].
    intros l m [Hl| ->%elem_of_singleton]%elem_of_union Hlm; [apply elem_of_union_l; by eapply Hseen|].
    rewrite Hn in Hlm. injection Hlm as ->. set_solver.
Qed.

Definition effective_depth (maxDepth : Z) : Z := if maxDepth <=? 0 then defaultMaxSubAgentDepth else maxDepth.

(** C32: The sub-agents are accepted exactly when no direct one has the root's name, each has a
    delegation tool of its own, and no chain of delegations is longer than the depth allows;
    so an accepted graph has no cycle and the search always terminates with an answer. *)
Theorem validateSubAgentRegistry_iff root maxDepth reg :
  validateSubAgentRegistry deref root maxDepth reg = None <->
  Forall (fun l => agent_name l <> root) (List_ reg) /\ distinct_tools (List_ reg) /\
  (forall s n b, s ∈ List_ reg -> walk s n b -> 1 + Z.of_nat n <= effective_depth maxDepth).
Proof.
  unfold validateSubAgentRegistry. fold (effective_depth maxDepth).
  assert (Hd := validate_direct_iff root (List_ reg) ∅ ∅).
  destruct (validate_direct deref root ∅ ∅ (List_ reg)) as [e|] eqn:He.
  - split; [done|]. intros (Hr & (names & Hm & Hnd) & _). destruct Hd as [_ Hd]; [set_solver|].
    discriminate Hd. split; [done|]. exists names. split; [done|]. split; [done|]. apply Forall_forall. set_solver.
  - rewrite validate_graphs_iff. destruct Hd as [Hd _]; [set_solver|]. destruct (Hd eq_refl) as (Hr & names & Hm & Hnd & _).
    split; [|naive_solver]. intros Hw. split; [done|]. split; [by exists names|done].
Qed.

(** In an accepted registry no agent delegates to itself, however indirectly. *)
Corollary accepted_acyclic root maxDepth reg s n :
  validateSubAgentRegistry deref root maxDepth reg = None -> s ∈ List_ reg -> ~ walk s (S n) s.
Proof.
  intros (_ & _ & Hw)%validateSubAgentRegistry_iff Hs Hc.
  destruct (cycle_walks s n (Z.to_nat (effective_depth maxDepth)) Hc) as (k & Hk & Hwk).
  pose proof (Hw s k s Hs Hwk). lia.
Qed.
End graph.

(** ** The tools of a run *)

Lemma validateToolNames_iff seen tools :
  validateToolNames_ seen tools = None <->
  NoDup (map t_Name tools) /\ Forall (fun t => seen !! t_Name t = None) tools.
Proof.
  revert seen. induction tools as [|t tools IH]; intros seen; cbn; [split; [split; constructor|done]|].
  destruct (seen !! t_Name t) eqn:Hs.
  - split; [done|]. intros [_ [? _]%Forall_cons]. congruence.
  - rewrite IH, NoDup_cons, Forall_cons. split.
    + intros [Hnd Hf]. rewrite Forall_forall in Hf. split; [split; [|done]|split; [done|]].
      * intros (x & Hx & Hin)%list_elem_of_fmap. specialize (Hf x Hin). rewrite Hx, lookup_insert_eq in Hf. done.
      * apply Forall_forall. intros x Hx. specialize (Hf x Hx). apply lookup_insert_None in Hf. tauto.
    + intros [[Hn Hnd] [_ Hf]]. split; [done|]. rewrite Forall_forall in *. intros x Hx. rewrite lookup_insert_ne.
      * by apply Hf.
      * intros Heq. apply Hn. rewrite Heq. by apply list_elem_of_fmap_2.
Qed.

Lemma FindToolByName_nodup tools t : NoDup (map t_Name tools) -> t ∈ tools -> FindToolByName tools (t_Name t) = Some t.
Proof.
  induction tools as [|t' tools IH]; cbn; [by intros _ ?%not_elem_of_nil|].
  intros [Hn Hnd]%NoDup_cons [->|Hin]%elem_of_cons; [by rewrite String.eqb_refl|].
  destruct (String.eqb_spec (t_Name t') (t_Name t)) as [Heq|_]; [|auto]. exfalso. apply Hn. rewrite Heq.
  by apply list_elem_of_fmap_2.
Qed.

Section tools.
Context (deref : loc -> agentConfig).
Context (ListTools_of : MCPClient -> result (list ToolSpec)).
Context (ListSkills_of : A2AClient -> result (list A2ASkillSpec)).

Abbreviation resolveTools := (resolveTools deref ListTools_of ListSkills_of).

Lemma resolveTools_inv c tools :
  resolveTools c = inr tools ->
  exists mcp a2a retriever,
    tools = match b_toolRegistry c with Some r => List_ r | None => [] end ++ mcp ++ a2a ++
            resolveSubAgentTools deref c ++ resolveMemoryTools c ++ retriever /\
    validateToolNames tools = None /\
    match b_subAgentRegistry c with
    | Some r => validateSubAgentRegistry deref (b_Name c) (b_maxSubAgentDepth c) r = None
    | None => True
    end.
Proof.
  unfold AgentConfig.resolveTools. destruct (resolveMCPTools _ _) as [|mcp]; [done|].
  destruct (resolveA2ATools _ _) as [|a2a]; [done|]. destruct (resolveRetrieverTools _) as [|ret]; [done|].
  destruct (validateToolNames _) eqn:Hv; [done|]. destruct (b_subAgentRegistry c) as [r|].
  - destruct (validateSubAgentRegistry _ _ _ _) eqn:Hs; [done|]. intros [= <-]. by exists mcp, a2a, ret.
  - intros [= <-]. by exists mcp, a2a, ret.
Qed.

Lemma NewSubAgentTool_name name description t :
  NewSubAgentTool name description = Some t -> subAgentToolName name = inr (t_Name t) /\ KindOf t = ToolKindSubAgent.
Proof. unfold NewSubAgentTool. destruct (subAgentToolName name); [done|]. by intros [= <-]. Qed.

Lemma NewSubAgentTool_some name description n :
  subAgentToolName name = inr n -> exists t, NewSubAgentTool name description = Some t /\ t_Name t = n.
Proof. unfold NewSubAgentTool. intros ->. eauto. Qed.

(** The tools of a run have distinct names, so a call is answered by the one tool of that
    name, whatever its kind; and every sub-agent of the registry is offered as a tool. *)
Theorem resolveTools_unambiguous c tools :
  resolveTools c = inr tools ->
  NoDup (map t_Name tools) /\
  (forall t, t ∈ tools -> FindToolByName tools (t_Name t) = Some t) /\
  (forall r l, b_subAgentRegistry c = Some r -> l ∈ List_ r ->
     exists t, t ∈ tools /\ KindOf t = ToolKindSubAgent /\ subAgentToolName (agent_name deref l) = inr (t_Name t)).
Proof.
  intros (mcp & a2a & ret & Htools & Hv & Hs)%resolveTools_inv.
  assert (Hnd : NoDup (map t_Name tools)) by (by apply validateToolNames_iff in Hv as [? _]).
  split; [done|]. split; [intros t; by apply FindToolByName_nodup|]. intros r l Hr Hl. rewrite Hr in Hs.
  apply validateSubAgentRegistry_iff in Hs as (_ & (names & Hm & _) & _).
  assert (exists n, subAgentToolName (agent_name deref l) = inr n) as [n Hn].
  { assert (Hin : subAgentToolName (agent_name deref l) ∈ map inr names) by (rewrite <- Hm; apply list_elem_of_fmap; by exists l).
    apply list_elem_of_fmap in Hin as (n & -> & _). by exists n. }
  destruct (NewSubAgentTool_some (b_Name (deref l)) (b_Description (deref l)) n Hn) as (t & Ht & Htn).
  destruct (NewSubAgentTool_name _ _ _ Ht) as [Hname Hkind]. exists t. split; [|split; [done|by rewrite Hn, Htn]].
  rewrite Htools. unfold resolveSubAgentTools. rewrite Hr.
  assert (t ∈ omap (sub_agent_tool deref) (List_ r)) by (apply list_elem_of_omap; by exists l).
  set_solver.
Qed.
End tools.

(** ** Budgets *)

(** What validation establishes. *)
Record budget_ok (b : BudgetConfig) : Prop := {
  ok_tokens : 0 <= cfg_MaxTokens b;
  ok_extra : 0 <= cfg_ApprovalExtraTokens b;
  ok_approvals : 0 <= cfg_MaxApprovals b;
  ok_action : cfg_OnExceeded b = BudgetStopRun \/ cfg_OnExceeded b = BudgetWaitForApproval;
  ok_stop : cfg_OnExceeded b = BudgetStopRun -> cfg_ApprovalExtraTokens b = 0 /\ cfg_MaxApprovals b = 0;
  ok_window : cfg_OnExceeded b = BudgetWaitForApproval -> 0 < cfg_MaxTokens b -> 0 < cfg_ApprovalExtraTokens b;
  ok_limited : 0 < cfg_MaxTokens b \/ f64_eqb (cfg_MaxCostUSD b) f64_zero = false }.

Lemma budget_range_ok b :
  budget_range_error b = None ->
  0 <= cfg_MaxTokens b /\ 0 <= cfg_ApprovalExtraTokens b /\ 0 <= cfg_MaxApprovals b /\
  (0 < cfg_MaxTokens b \/ f64_eqb (cfg_MaxCostUSD b) f64_zero = false).
Proof.
  unfold budget_range_error. intros H. repeat (case_match; [done|]). crush_bool.
  repeat split; try lia. destruct (f64_eqb (cfg_MaxCostUSD b) f64_zero); [left|by right].
  repeat match goal with Hx : (_ && true) = false |- _ => rewrite andb_true_r in Hx end. crush_bool. lia.
Qed.

(** A validated budget has a normalised action, limits and windows: approvals always grant a
    positive token window when tokens are limited. *)
Theorem validateBudget_sound b b' :
  validateBudget b = inr b' ->
  budget_ok b' /\ cfg_MaxTokens b' = cfg_MaxTokens b /\ cfg_MaxCostUSD b' = cfg_MaxCostUSD b /\
  (0 < cfg_MaxTokens b' -> 0 < token_limit b').
Proof.
  unfold validateBudget. destruct (budget_range_error b) eqn:Hr; [done|].
  apply budget_range_ok in Hr as (Ht & Hx & Ha & Hl). intros H.
  assert (Hok : budget_ok b' /\ cfg_MaxTokens b' = cfg_MaxTokens b /\ cfg_MaxCostUSD b' = cfg_MaxCostUSD b).
  { cbv zeta in H. revert H. generalize (if String.eqb (cfg_OnExceeded b) "" then BudgetStopRun else cfg_OnExceeded b).
    intros action. destruct (String.eqb_spec action BudgetStopRun) as [->|_].
    - destruct (_ || _) eqn:E1; [done|]. destruct (negb (cfg_MaxApprovals b =? 0)) eqn:E2; [done|]. intros [= <-].
      crush_bool. split; [|done]. constructor; cbn; auto; try lia. done.
    - destruct (String.eqb_spec action BudgetWaitForApproval) as [->|_]; [|done]. intros [= <-]. split; [|done].
      constructor; cbn; auto; try done; destruct ((cfg_ApprovalExtraTokens b =? 0) && _) eqn:E; crush_bool; try lia. }
  destruct Hok as (Hok & Hmt & Hmc). split; [done|]. split; [done|]. split; [done|]. intros Hp. unfold token_limit.
  destruct (cfg_ApprovalExtraTokens b' =? 0) eqn:E; [done|]. crush_bool. pose proof (ok_extra _ Hok). lia.
Qed.

(** ** Named clients *)

Lemma validate_named_sound l name c :
  validate_named l = None -> (name, c) ∈ l -> blank name = false /\ is_Some c.
Proof.
  induction l as [|[n cl] l IH]; cbn; [by intros _ ?%not_elem_of_nil|].
  destruct (String.eqb (TrimSpace n) "") eqn:En; [done|]. destruct cl as [cl|]; [|done].
  intros Hv [[= -> ->]|Hin]%elem_of_cons; [split; [exact En|by eexists]|auto].
Qed.

Lemma fallback_resolves ec named client c :
  validateNamedLLMClients named = None -> validateErrorControl (Some ec) named = None ->
  ec_FallbackLLMClient ec <> "" -> b_errorControl c = Some ec -> b_namedLLMClients c = named ->
  exists cl, named !! ec_FallbackLLMClient ec = Some (Some cl) /\ ResolveLLMClient (local_runtime c client) true = inr cl.
Proof.
  intros Hn He Hf Hec Hnm. unfold validateErrorControl in He.
  destruct (negb (String.eqb (ec_FallbackLLMClient ec) "") && _) eqn:E; [done|]. clear He.
  apply andb_false_iff in E as [E|E]; crush_bool; [done|]. apply bool_decide_eq_true in E as [cl Hcl].
  destruct (named !! ec_FallbackLLMClient ec) as [[cl'|]|] eqn:Hl; try done. exists cl'. split; [done|].
  unfold ResolveLLMClient, fallback_client. cbn. rewrite Hec.
  assert (Hb : String.eqb (TrimSpace (ec_FallbackLLMClient ec)) "" = false).
  { apply elem_of_map_to_list in Hl. by apply (validate_named_sound _ _ _ Hn Hl). }
  by rewrite Hb, Hnm, Hl.
Qed.

(** ** The built configuration *)

Section build.
Context (deref : loc -> agentConfig).
Context (ListTools_of : MCPClient -> result (list ToolSpec)).
Context (ListSkills_of : A2AClient -> result (list A2ASkillSpec)).

Lemma build_registries_inv s c name conv mem c1 s' :
  build_registries deref s c name conv mem = (inr c1, s') ->
  b_Name c1 = name /\ b_LLMClient c1 = b_LLMClient c /\ b_conversationConfig c1 = conv /\
  (exists p, b_toolApprovalPolicy c1 = Some p) /\ 0 < b_maxSubAgentDepth c1 /\
  b_budgetConfig c1 = b_budgetConfig c /\
  validateRetrieverMode (b_retrieverMode c) = inr (b_retrieverMode c1).
Proof.
  unfold build_registries.
  destruct (validateAgentMode (b_agentMode c)) as [|am]; [done|].
  destruct (validateToolExecutionMode (b_agentToolExecutionMode c)) as [|em]; [done|].
  destruct (buildToolRegistry _ _) as [|rt]; [done|]. destruct (buildMCPRegistry _ _ _) as [|rm]; [done|].
  destruct (buildA2ARegistry _ _ _ _) as [[|ra] s1]; [done|].
  destruct (buildSubAgentRegistry _ _ _ _ _) as [|rs]; [done|]. destruct (validateRetrievers _); [done|].
  cbn [b_retrieverMode with_identity]. destruct (validateRetrieverMode _) as [|md]; [done|]. intros [= <- _]. cbn.
  repeat split; try done.
  - destruct (b_toolApprovalPolicy c); eauto.
  - destruct (b_maxSubAgentDepth c <=? 0) eqn:E; crush_bool; [done|lia].
Qed.

Lemma resolveTools_limits c t a b :
  resolveTools deref ListTools_of ListSkills_of (with_limits c t a b) = resolveTools deref ListTools_of ListSkills_of c.
Proof. reflexivity. Qed.

(** C31: An agent that was built has a valid name, a model client, an approval policy, positive
    limits, an approval deadline before the run's, a normalised budget, a conversation window,
    a fallback client the error control can use, and tools that resolve. *)
Theorem built_config_sound obs s c c' s' :
  buildAgentConfig deref ListTools_of ListSkills_of obs s c = (Built c', s') ->
  validateAgentName (b_Name c') = None /\
  (exists client, b_LLMClient c' = Some client) /\
  (exists p, b_toolApprovalPolicy c' = Some p) /\
  0 < b_maxIterations c' /\ 0 < b_maxSubAgentDepth c' /\
  b_approvalTimeout c' < b_timeout c' /\ b_approvalTimeout c' <= MaxApprovalTimeout /\
  (forall b, b_budgetConfig c' = Some b -> budget_ok b) /\
  (forall cv, b_conversationConfig c' = Some cv -> 0 < cv_Size cv /\ is_Some (cv_Conversation cv)) /\
  (forall ec client, b_errorControl c' = Some ec -> ec_FallbackLLMClient ec <> "" ->
     exists cl, ResolveLLMClient (local_runtime c' client) true = inr cl) /\
  (exists tools, resolveTools deref ListTools_of ListSkills_of c' = inr tools).
Proof.
  unfold buildAgentConfig. destruct (build_start c) as [|[name conv]] eqn:Hst; [done|].
  destruct (validateMemory _) as [|mem]; [done|].
  destruct (build_registries _ _ _ _ _ _) as [[|c1] s1] eqn:Hreg; [done|].
  apply build_registries_inv in Hreg as (Hname & Hllm & Hconv & Hpol & Hdepth & Hbudget & _).
  unfold build_end. destruct (resolveTools _ _ _ c1) as [|tools] eqn:Htools; [done|].
  destruct (check_approval_timeout _ _) eqn:Hto; [done|].
  destruct (match b_budgetConfig c1 with None => inr None | Some b => _ end) as [|bud] eqn:Hb; [done|].
  destruct (validateNamedLLMClients _) eqn:Hnamed; [done|]. destruct (validateErrorControl _ _) eqn:Hec; [done|].
  destruct obs; [done|]. intros [= <- _].
  unfold build_start in Hst. destruct (validateAgentName _) eqn:Hvn; [done|]. destruct (validateHookGroups _); [done|].
  destruct (b_factoryConflict c); [done|]. destruct (match b_runtimeFactory c with Some f => _ | None => _ end); [done|].
  destruct (b_LLMClient c) as [client|]; [|done].
  destruct (validateConversation _ _) as [|cv] eqn:Hcv; [done|]. injection Hst as <- <-.
  cbn [b_Name b_LLMClient b_toolApprovalPolicy b_maxIterations b_maxSubAgentDepth b_approvalTimeout b_timeout
       b_budgetConfig b_conversationConfig b_errorControl with_limits].
  split; [by rewrite Hname|]. split; [by exists client|]. split; [done|].
  split; [destruct (b_maxIterations c1 <=? 0) eqn:E; crush_bool; [done|lia]|]. split; [done|].
  unfold check_approval_timeout in Hto. destruct (_ <=? resolve_approval_timeout _ _) eqn:E1; [done|].
  destruct (MaxApprovalTimeout <? _) eqn:E2; [done|]. crush_bool. split; [done|]. split; [done|].
  split; [|split; [|split]].
  - intros b ->. destruct (b_budgetConfig c1) as [b0|]; [|done]. destruct (validateBudget b0) as [|b1] eqn:Hv; [done|].
    injection Hb as ->. by apply validateBudget_sound in Hv as [? _].
  - rewrite Hconv. intros cfg ->. unfold validateConversation in Hcv.
    destruct (b_conversationConfig c) as [cv0|]; [|done]. destruct (Conversation_Validate _) eqn:Hv; [done|].
    destruct (ValidateDistributed _ _); [done|]. injection Hcv as <-. split.
    + cbn. destruct (cv_Size cv0 <=? 0) eqn:E; crush_bool; [done|lia].
    + unfold Conversation_Validate in Hv. by destruct (cv_Conversation _).
  - intros ec cl Hecc Hne. rewrite Hecc in Hec.
    pose proof (fallback_resolves ec _ cl (with_limits c1 (resolve_timeout c1) (resolve_approval_timeout c1 (resolve_timeout c1)) bud)
      Hnamed Hec Hne Hecc eq_refl) as (x & _ & Hx). by exists x.
  - exists tools. by rewrite resolveTools_limits.
Qed.
End build.

(** ** Approval deadlines *)

(** When the approval timeout is positive, it is the deadline the local runtime uses, and it
    expires before the run's. *)
Lemma approval_deadline c client :
  0 < b_approvalTimeout c <= MaxApprovalTimeout ->
  approvalTaskTimeout (local_runtime c client) = b_approvalTimeout c.
Proof.
  intros H. unfold approvalTaskTimeout. cbn. destruct (b_approvalTimeout c =? 0) eqn:E; crush_bool; [lia|].
  destruct (MaxApprovalTimeout <? b_approvalTimeout c) eqn:E2; crush_bool; [lia|done].
Qed.

(** Without an approval timeout it is derived from the run's, 30 seconds less; for a run of 30
    seconds or less that is not positive, and passes the check: exactly 30 seconds gives the
    31-day default, more than the run itself, and less gives a deadline in the past, so every
    approval expires at once. *)
Theorem short_runs_have_no_approval_window c client budget :
  0 < b_timeout c <= 30 * second -> b_approvalTimeout c = 0 ->
  let timeout := resolve_timeout c in
  let approvalTimeout := resolve_approval_timeout c timeout in
  check_approval_timeout approvalTimeout timeout = None /\
  let deadline := approvalTaskTimeout (local_runtime (with_limits c timeout approvalTimeout budget) client) in
  (b_timeout c = 30 * second -> deadline = MaxApprovalTimeout) /\ (b_timeout c < 30 * second -> deadline < 0).
Proof.
  intros Ht Ha. cbv zeta. unfold resolve_timeout, resolve_approval_timeout, check_approval_timeout.
  destruct (b_timeout c =? 0) eqn:E; crush_bool; [lia|]. rewrite Ha. cbn [Z.eqb].
  unfold second in *.
  assert (Hw : wrap64 (b_timeout c - 30 * 1000000000) = b_timeout c - 30 * 1000000000).
  { apply wrap64_id. unfold in64, min_int64, max_int64. lia. }
  rewrite Hw. destruct (b_timeout c <=? _) eqn:E1; crush_bool; [lia|].
  destruct (MaxApprovalTimeout <? _) eqn:E2; crush_bool; [unfold MaxApprovalTimeout, hour, minute, second in *; lia|].
  split; [done|]. unfold approvalTaskTimeout. cbn.
  destruct (b_timeout c - 30 * 1000000000 =? 0) eqn:E3; crush_bool.
  - split; [done|lia].
  - split; [lia|]. intros Hlt. destruct (MaxApprovalTimeout <? _) eqn:E4; crush_bool; [|lia].
    unfold MaxApprovalTimeout, hour, minute, second in *. lia.
Qed.
