(* ===== verification/AgentRun.v ===== *)
(** Starting a run ([pkg/agent/agent.go]): the pre-flight checks of [Run] and [Stream], the
    tree of sub-agent specifications, the run request, and how it meets the agent loop. *)
From S2P Require Import Prelude GoLib Types Prog Policies MemoryConfig Budget CircuitBreaker Telemetry Events Effects ErrorControl LLM AgentLoop Registry AgentTools McpClient A2aClient AgentConfig AgentConfigFacts.

#[local] Open Scope string_scope.
#[local] Open Scope list_scope.
#[local] Open Scope Z_scope.

Definition attachMemoryScopeContext (c : agentConfig) (ctx : Ctx) : Ctx :=
  if String.eqb (b_Name c) "" then ctx else WithContextAgentID ctx (b_Name c).

(** [conversationIDFromOpts]: the options, their conversation options and its id. *)
Definition conversationIDFromOpts (opts : option (option string)) : string :=
  match opts with Some (Some id) => id | _ => "" end.

Definition validateConversationID (c : agentConfig) (conversationID : string) : option error :=
  match b_conversationConfig c with
  | None =>
      if String.eqb conversationID "" then None
      else Some (errors_New ("conversationID " +:+ conversationID +:+ " requires conversation configuration"))
  | Some _ =>
      if String.eqb conversationID "" then Some (errors_New "conversationID is required when using conversation") else None
  end.

Definition createRunRequest (c : agentConfig) (userPrompt conversationID : string) (enableLLMStream : bool)
    (tools : list Tool) (subAgents : list (option SubAgentSpec)) : RunRequest :=
  {| rq_UserPrompt := userPrompt; rq_ConversationID := conversationID; rq_EnableLLMStream := enableLLMStream;
     rq_EventTypes := []; rq_SubAgents := subAgents; rq_MaxSubAgentDepth := b_maxSubAgentDepth c; rq_Tools := tools |}.

Section run.
Context (deref : loc -> agentConfig).
Context (ListTools_of : MCPClient -> result (list ToolSpec)).
Context (ListSkills_of : A2AClient -> result (list A2ASkillSpec)).

Abbreviation resolveTools := (resolveTools deref ListTools_of ListSkills_of).

(** [sub.runtime]: the local runtime of an agent built without a runtime factory. *)
Definition sub_runtime (l : loc) : option Runtime :=
  match b_runtimeFactory (deref l), b_LLMClient (deref l) with
  | None, Some client => Some (local_runtime (deref l) client)
  | _, _ => None
  end.

(** [resolveSubAgentSpecs], on the sub-agents of one level; [below] resolves the next level.
    A sub-agent without a tool name is skipped; the first error ends it. *)
Fixpoint specs_of (below : loc -> option (result (list (option SubAgentSpec)))) (subs : list loc)
    : option (result (list (option SubAgentSpec))) :=
  match subs with
  | [] => Some (inr [])
  | sub :: subs =>
      match subAgentToolName (agent_name deref sub) with
      | inl _ => specs_of below subs
      | inr toolName =>
          match resolveTools (deref sub) with
          | inl e => Some (inl e)
          | inr tools =>
              match below sub with
              | None => None
              | Some (inl e) => Some (inl e)
              | Some (inr children) =>
                  match specs_of below subs with
                  | Some (inr specs) =>
                      Some (inr (Some (Spec (agent_name deref sub) toolName (sub_runtime sub) children tools) :: specs))
                  | r => r
                  end
              end
          end
      end
  end.

(** The recursion over the graph; [None] when the fuel runs out. *)
Fixpoint resolveSubAgentSpecs (fuel : nat) (a : loc) : option (result (list (option SubAgentSpec))) :=
  match fuel with
  | O => None
  | S fuel => specs_of (resolveSubAgentSpecs fuel) (children deref a)
  end.

(** The checks of [Run]; [Stream] makes the first two and resolves the sub-agents. *)
Inductive preflight :=
| Refused (e : error)
| Accepted (req : RunRequest)
| OutOfFuel.

Definition approval_missing : error :=
  errors_New "tools require approval but WithApprovalHandler was not set (required for Run)".
Definition budget_handler_missing : error :=
  errors_New ("WithBudget: OnExceeded " +:+ Quote BudgetWaitForApproval +:+
              " requires WithApprovalHandler when calling Run; for stream-only use no handler is needed").

Definition budget_waits (c : agentConfig) : bool :=
  match b_budgetConfig c with Some b => String.eqb (cfg_OnExceeded b) BudgetWaitForApproval | None => false end.

Definition with_specs (r : option (result (list (option SubAgentSpec)))) (k : list (option SubAgentSpec) -> RunRequest) : preflight :=
  match r with None => OutOfFuel | Some (inl e) => Refused e | Some (inr specs) => Accepted (k specs) end.

Definition run_preflight (fuel : nat) (self : loc) (input conversationID : string) : preflight :=
  let c := deref self in
  match validateConversationID c conversationID with
  | Some e => Refused e
  | None =>
      match resolveTools c with
      | inl e => Refused e
      | inr tools =>
          if hasApprovalTools c tools && negb (b_approvalHandler c) then Refused approval_missing
          else if budget_waits c && negb (b_approvalHandler c) then Refused budget_handler_missing
          else with_specs (resolveSubAgentSpecs fuel self) (createRunRequest c input conversationID false tools)
      end
  end.

Definition stream_preflight (fuel : nat) (self : loc) (input conversationID : string) (disableTokenStreaming : bool) : preflight :=
  let c := deref self in
  match validateConversationID c conversationID with
  | Some e => Refused e
  | None =>
      match resolveTools c with
      | inl e => Refused e
      | inr tools =>
          with_specs (resolveSubAgentSpecs fuel self)
            (createRunRequest c input conversationID (negb disableTokenStreaming) tools)
      end
  end.
End run.

(** ** Depth of specifications and routes *)

(** [spec_height n s]: delegations nest at most [n] deep below and including [s]. *)
Fixpoint spec_height (n : nat) (s : option SubAgentSpec) : Prop :=
  match s with
  | None => True
  | Some (Spec _ _ _ children _) =>
      match n with O => False | S n => Forall (spec_height n) children end
  end.

Fixpoint route_height (n : nat) (r : subAgentRoute) : Prop :=
  match n with
  | O => False
  | S n => Forall (fun p => route_height n p.2) (sr_children r)
  end.

Definition routes_within (n : nat) (m : routes) : Prop := Forall (fun p => route_height n p.2) m.

Lemma lookup_route_in m k r : lookup_route m k = Some r -> exists k', (k', r) ∈ m.
Proof.
  induction m as [|[k' r'] m IH]; cbn; [done|]. destruct (String.eqb k' k).
  - intros [= ->]. exists k'. by left.
  - intros (k2 & ?)%IH. exists k2. by right.
Qed.

Lemma set_route_within n m k r : routes_within n m -> route_height n r -> routes_within n (set_route m k r).
Proof.
  intros Hm Hr. induction Hm as [|[k' r'] m Hk Hm IH]; cbn; [by repeat constructor|].
  destruct (String.eqb k' k); by constructor.
Qed.

Lemma build_within n specs out :
  Forall (spec_height n) specs -> routes_within n out ->
  (forall s k r, s ∈ specs -> forall sp, s = Some sp -> build_route sp = Some (k, r) -> route_height n r) ->
  routes_within n (buildSubAgentRoutes_ specs out).
Proof.
  intros Hs. revert out. induction Hs as [|[s|] specs Hs Hss IH]; intros out Hout Hb; cbn; [done| |].
  - apply IH; [|intros; eapply Hb; eauto; by right]. destruct (build_route s) as [[k r]|] eqn:E; [|done].
    apply set_route_within; [done|]. eapply Hb; [by left|done|done].
  - apply IH; [done|]. intros; eapply Hb; eauto. by right.
Qed.

Lemma build_route_height n s k r : spec_height n (Some s) -> build_route s = Some (k, r) -> route_height n r.
Proof.
  revert s k r. induction n as [|n IH]; intros [name tn rt ch tools] k r Hs Hb; [done|].
  destruct rt as [rt|]; [|done]. rewrite build_route_spec in Hb. injection Hb as <- <-. cbn.
  apply build_within; [done|constructor|]. intros s' k' r' Hin sp -> Hb'.
  cbn in Hs. rewrite Forall_forall in Hs. by eapply IH; [apply Hs|].
Qed.

Lemma buildSubAgentRoutes_within n specs : Forall (spec_height n) specs -> routes_within n (buildSubAgentRoutes specs).
Proof.
  intros Hs. apply build_within; [done|constructor|]. intros s k r Hin sp -> Hb. rewrite Forall_forall in Hs.
  by eapply build_route_height; [apply Hs|].
Qed.

(** ** Resolution terminates on accepted graphs *)

Section resolution.
Context (deref : loc -> agentConfig).
Context (ListTools_of : MCPClient -> result (list ToolSpec)).
Context (ListSkills_of : A2AClient -> result (list A2ASkillSpec)).

Abbreviation resolveSubAgentSpecs := (resolveSubAgentSpecs deref ListTools_of ListSkills_of).
Abbreviation resolveTools := (resolveTools deref ListTools_of ListSkills_of).

(** At most [k] delegations lead away from [a]. *)
Definition depth_below (a : loc) (k : nat) : Prop := forall n b, walk deref a n b -> (n <= k)%nat.

Lemma depth_below_child a k c : depth_below a (S k) -> c ∈ children deref a -> depth_below c k.
Proof. intros Ha Hc n b Hw. pose proof (Ha (S n) b (walk_step _ _ _ _ _ Hc Hw)). lia. Qed.

Lemma specs_of_total k below subs :
  (forall s, s ∈ subs -> exists r, below s = Some r /\ forall specs, r = inr specs -> Forall (spec_height k) specs) ->
  exists r, specs_of deref ListTools_of ListSkills_of below subs = Some r /\
    forall specs, r = inr specs -> Forall (spec_height (S k)) specs.
Proof.
  induction subs as [|sub subs IH]; intros Hb; cbn; [eexists; split; [done|]; intros ? [= <-]; constructor|].
  destruct IH as (r & Hr & Hf); [intros; apply Hb; by right|].
  destruct (subAgentToolName _) as [|tn]; [by exists r|].
  destruct (resolveTools (deref sub)) as [e|tools]; [by exists (inl e)|].
  destruct (Hb sub) as ([e|ch] & -> & Hch); [by left|by exists (inl e)|]. rewrite Hr.
  destruct r as [e|specs]; [by exists (inl e)|]. eexists. split; [done|]. intros ? [= <-].
  constructor; [by apply Hch|by apply Hf].
Qed.

Lemma resolveSubAgentSpecs_total k fuel a :
  depth_below a k -> (k < fuel)%nat ->
  exists r, resolveSubAgentSpecs fuel a = Some r /\ forall specs, r = inr specs -> Forall (spec_height k) specs.
Proof.
  revert fuel a. induction k as [|k IH]; intros [|fuel] a Ha Hk; try lia; cbn.
  - destruct (children deref a) as [|c l] eqn:Hc; cbn; [eexists; split; [done|]; intros ? [= <-]; constructor|].
    assert (Hw : walk deref a 1 c) by (eapply walk_step; [rewrite Hc; by left|constructor]).
    specialize (Ha _ _ Hw). lia.
  - apply specs_of_total. intros s Hs. apply IH; [by eapply depth_below_child|lia].
Qed.

(** A validated registry bounds what lies below its agent. *)
Lemma resolveTools_depth self tools :
  resolveTools (deref self) = inr tools -> 0 < b_maxSubAgentDepth (deref self) ->
  depth_below self (Z.to_nat (b_maxSubAgentDepth (deref self))).
Proof.
  intros (_ & _ & _ & _ & _ & Hs)%resolveTools_inv Hpos n b Hw. destruct Hw as [|a b' n c Hb' Hw]; [lia|].
  unfold children in Hb'. destruct (b_subAgentRegistry (deref a)) as [r|]; [|by apply not_elem_of_nil in Hb'].
  apply validateSubAgentRegistry_iff in Hs as (_ & _ & Hd). specialize (Hd _ _ _ Hb' Hw).
  unfold effective_depth in Hd. destruct (b_maxSubAgentDepth (deref a) <=? 0) eqn:E; crush_bool; lia.
Qed.
End resolution.

(** ** From a request to the loop *)

(** The inputs of the loops a run starts: its own and those of its delegations, with the
    circuit breaker the loop fills in. *)
Inductive loop_input (i0 : AgentLoopInput) : AgentLoopInput -> Prop :=
| li_root : loop_input i0 i0
| li_breaker i cb now : loop_input i0 i -> loop_input i0 (with_breaker i cb now)
| li_delegate i k route tc runID :
    loop_input i0 i -> lookup_route (in_SubAgentRoutes i) k = Some route ->
    loop_input i0 (sub_input i route tc runID).

Lemma loop_input_depth i0 i :
  routes_within (Z.to_nat (in_MaxSubAgentDepth i0 - in_SubAgentDepth i0)) (in_SubAgentRoutes i0) ->
  loop_input i0 i ->
  routes_within (Z.to_nat (in_MaxSubAgentDepth i - in_SubAgentDepth i)) (in_SubAgentRoutes i).
Proof.
  intros H0. induction 1 as [|i cb now Hi IH|i k route tc runID Hi IH Hl]; [done|done|].
  cbn. apply lookup_route_in in Hl as [k' Hin]. unfold routes_within in IH. rewrite Forall_forall in IH.
  specialize (IH _ Hin). cbn in IH. destruct (Z.to_nat (in_MaxSubAgentDepth i - in_SubAgentDepth i)) as [|m] eqn:E; [done|].
  replace (Z.to_nat (in_MaxSubAgentDepth i - (in_SubAgentDepth i + 1))) with m by lia. exact IH.
Qed.

Section accepted.
Context (deref : loc -> agentConfig).
Context (ListTools_of : MCPClient -> result (list ToolSpec)).
Context (ListSkills_of : A2AClient -> result (list A2ASkillSpec)).

(** C30: [Run] always answers, and what it accepts can run: the tools resolve to distinct names,
    an approval handler is there when a tool or the budget needs one, a conversation id is
    given exactly when there is a conversation, and in the run's loop and in those of its
    delegations, at any depth, a delegation is never refused for being too deep. *)
Theorem run_preflight_sound self input conversationID :
  let c := deref self in
  0 < b_maxSubAgentDepth c ->
  match run_preflight deref ListTools_of ListSkills_of (S (Z.to_nat (b_maxSubAgentDepth c))) self input conversationID with
  | OutOfFuel => False
  | Refused _ => True
  | Accepted req =>
      resolveTools deref ListTools_of ListSkills_of c = inr (rq_Tools req) /\ NoDup (map t_Name (rq_Tools req)) /\
      ((exists t, t ∈ rq_Tools req /\ requiresApproval c t = true) \/ budget_waits c = true -> b_approvalHandler c = true) /\
      (rq_ConversationID req = "" <-> b_conversationConfig c = None) /\
      forall rt ctx runID channel types streaming budget i k route,
        loop_input (run_input rt (b_approvalHandler c) ctx req runID channel types streaming budget) i ->
        lookup_route (in_SubAgentRoutes i) k = Some route -> in_SubAgentDepth i < in_MaxSubAgentDepth i
  end.
Proof.
  cbv zeta. intros Hpos. unfold run_preflight. set (c := deref self) in *.
  destruct (validateConversationID c conversationID) eqn:Hconv; [done|].
  destruct (resolveTools deref ListTools_of ListSkills_of c) as [|tools] eqn:Htools; [done|].
  destruct (hasApprovalTools c tools && negb (b_approvalHandler c)) eqn:Happ; [done|].
  destruct (budget_waits c && negb (b_approvalHandler c)) eqn:Hbud; [done|].
  destruct (resolveSubAgentSpecs_total deref ListTools_of ListSkills_of (Z.to_nat (b_maxSubAgentDepth c))
    (S (Z.to_nat (b_maxSubAgentDepth c))) self) as (r & -> & Hh); [by eapply resolveTools_depth|lia|].
  destruct r as [e|specs]; [done|]. cbn [with_specs createRunRequest rq_Tools rq_ConversationID].
  split; [done|]. split; [by apply resolveTools_unambiguous in Htools as [? _]|]. split; [|split].
  - intros [(t & Ht & Hr)|Hw].
    + destruct (b_approvalHandler c); [done|]. rewrite andb_true_r in Happ. unfold hasApprovalTools in Happ.
      assert (Hx : existsb (requiresApproval c) tools = true) by (apply existsb_exists; exists t; by rewrite <- list_elem_of_In).
      congruence.
    + rewrite Hw in Hbud. by destruct (b_approvalHandler c).
  - unfold validateConversationID in Hconv. destruct (b_conversationConfig c), (String.eqb_spec conversationID ""); naive_solver.
  - intros rt ctx runID channel types streaming budget i k route Hi Hl.
    apply loop_input_depth in Hi; cbn [run_input in_MaxSubAgentDepth in_SubAgentDepth in_SubAgentRoutes rq_MaxSubAgentDepth rq_SubAgents].
    + destruct (lookup_route_in _ _ _ Hl) as [k' Hin]. unfold routes_within in Hi. rewrite Forall_forall in Hi.
      specialize (Hi _ Hin). cbn in Hi.
      destruct (Z.to_nat (in_MaxSubAgentDepth i - in_SubAgentDepth i)) eqn:E; [done|]. lia.
    + rewrite Z.sub_0_r. by apply buildSubAgentRoutes_within, Hh.
Qed.
End accepted.
