(* ===== verification/MemoryPg.v ===== *)
(** The PostgreSQL memory backend ([pkg/memory/pgvector/memory.go], [schema.go]): the statements
    it builds, with their texts and arguments, the scan of the rows, and Store, Load and Clear
    as programs over the database, the embedding function, the clock and new identifiers. *)
From Stdlib Require Import Floats.SpecFloat.
From S2P Require Import Prelude GoLib Types Codec Prog JsonText JsonCodec MemoryConfig.

#[local] Open Scope string_scope.
#[local] Open Scope list_scope.
#[local] Open Scope Z_scope.

(** ** Tags of a scope, as both backends store them *)

Module ScopeTags.

Definition scopeTagToken (key value : string) : string := key +:+ "=" +:+ value.

(** [encodeScopeTags], for the order in which the map is ranged over. *)
Definition encodeScopeTags (ranged : list (string * string)) : list string :=
  map (fun kv => scopeTagToken kv.1 kv.2) (List.filter (fun kv => negb (reserved_key kv.1)) ranged).

(** [strings.Cut(token, "=")] *)
Fixpoint cut_bytes (l : bytes) : option (bytes * bytes) :=
  match l with
  | [] => None
  | c :: l => if Ascii.eqb c "=" then Some ([], l) else '(a, b) ← cut_bytes l; Some (c :: a, b)
  end.
Definition Cut_eq (s : string) : option (string * string) := '(a, b) ← cut_bytes (to_bytes s); Some (of_bytes a, of_bytes b).

Definition add_tag (out : gmap string string) (token : string) : gmap string string :=
  match Cut_eq token with
  | Some (key, value) => if String.eqb key "" then out else <[key := value]> out
  | None => out
  end.

(** A nil map and an empty one are the same here. *)
Definition decodeScopeTags (tags : list string) : gmap string string := fold_left add_tag tags ∅.
End ScopeTags.

Module Pg.
Import ScopeTags.

Definition DefaultTable : string := "agent_memories".
Definition DefaultTextCol : string := "text".
Definition DefaultEmbeddingCol : string := "embedding".
Definition ColID : string := "id".
Definition ColKind : string := "kind".
Definition ColMetadata : string := "metadata".
Definition ColScopeTags : string := "scope_tags".
Definition ColExpiresAt : string := "expires_at".
Definition ColCreatedAt : string := "created_at".
Definition ColUpdatedAt : string := "updated_at".
Definition ColUserID : string := ScopeKeyUserID.
Definition ColTenantID : string := ScopeKeyTenantID.
Definition ColAgentID : string := ScopeKeyAgentID.
Definition DefaultLoadLimit : Z := 10.

(** [float32(x)]: rounded to 24 bits; [DefaultMinScore] is the float32 0.35. *)
Definition float32 (x : f64) : f64 :=
  match x with
  | S754_finite s m e =>
      match binary_normalize 24 128 (cond_Zopp s (Zpos m)) e s with
      | S754_finite s m e => binary_normalize 53 1024 (cond_Zopp s (Zpos m)) e s
      | y => y
      end
  | _ => x
  end.
Definition DefaultMinScore : f64 := float32 (f64_lit 35 100).

(** A vector of float32 components. *)
Definition Vec : Type := list f64.

(** [Memory], without its logger and connection. *)
Record Memory := {
  pm_table : string; pm_textCol : string; pm_embeddingCol : string; pm_defaultLimit : Z; pm_defaultMinScore : f64 }.

(** What the options set: whether a pool was given, and the DSN. *)
Record pg_options := {
  po_embed : bool; po_table : string; po_textCol : string; po_embeddingCol : string; po_defaultLimit : Z;
  po_defaultMinScore : f64; po_pool : bool; po_dsn : string }.

Definition or_default (s d : string) : string := if String.eqb s "" then d else s.

(** [parse] and [connect] are [pgxpool.ParseConfig] and [pgxpool.NewWithConfig]. *)
Definition NewMemory (parse connect : string -> option error) (o : pg_options) : result Memory :=
  if negb (po_embed o) then inl (errors_New "embed func is required") else
  let m := {| pm_table := or_default (po_table o) DefaultTable; pm_textCol := or_default (po_textCol o) DefaultTextCol;
              pm_embeddingCol := or_default (po_embeddingCol o) DefaultEmbeddingCol;
              pm_defaultLimit := if po_defaultLimit o <=? 0 then DefaultLoadLimit else po_defaultLimit o;
              pm_defaultMinScore := if f64_eqb (po_defaultMinScore o) f64_zero then DefaultMinScore else po_defaultMinScore o |} in
  if po_pool o then inr m
  else if String.eqb (po_dsn o) "" then inl (errors_New "DSN is required when not using WithPool; use WithDSN or WithPool")
  else match parse (po_dsn o) with
       | Some err => inl (wrap_error "parse DSN: " err)
       | None => match connect (po_dsn o) with
                 | Some err => inl (wrap_error "create pgx pool: " err)
                 | None => inr m
                 end
       end.

(** ** Statements

    The argument of a placeholder [$n]. *)
Inductive arg :=
| AVec (v : Vec)
| AStr (s : string)
| AStrs (l : list string)
| AFloat (x : f64)
| AInt (n : Z)
| ABytes (s : string)
| ATime (t : Time)
| ANull.

(** The conditions of a WHERE clause, by the number of their placeholder. *)
Inductive cond :=
| CEq (col : string) (n : nat)             (* col = $n *)
| CTags (n : nat)                          (* scope_tags @> $n::text[] *)
| CKindAny (n : nat)                       (* kind = ANY($n::text[]) *)
| CNotExpired                              (* (expires_at IS NULL OR expires_at > now()) *)
| CScore (n : nat).                        (* 1 - (embedding <=> $1) >= $n *)

Inductive statement :=
| Insert                                   (* the upsert of all columns, $1 to $12 *)
| SelectNear (where_ : list cond)          (* ORDER BY embedding <=> $1 LIMIT $3 *)
| SelectRecent (where_ : list cond) (limitArg : nat)
| Delete (where_ : list cond).

Section text.
Context (m : Memory).

Definition dollar (n : nat) : string := "$" +:+ Itoa (Z.of_nat n).
Definition scoreExpr : string := "1 - (" +:+ pm_embeddingCol m +:+ " <=> $1)".

Definition cond_text (c : cond) : string :=
  match c with
  | CEq col n => col +:+ " = " +:+ dollar n
  | CTags n => ColScopeTags +:+ " @> " +:+ dollar n +:+ "::text[]"
  | CKindAny n => ColKind +:+ " = ANY(" +:+ dollar n +:+ "::text[])"
  | CNotExpired => "(" +:+ ColExpiresAt +:+ " IS NULL OR " +:+ ColExpiresAt +:+ " > now())"
  | CScore n => scoreExpr +:+ " >= " +:+ dollar n
  end.

(** No condition is [TRUE]. *)
Definition where_text (cs : list cond) : string := match cs with [] => "TRUE" | _ => Join " AND " (map cond_text cs) end.

Definition columns : list string :=
  [ColID; pm_textCol m; ColKind; ColUserID; ColTenantID; ColAgentID; ColScopeTags; ColMetadata; ColExpiresAt; ColCreatedAt; ColUpdatedAt].

(** The columns that an upsert overwrites. *)
Definition updated_columns : list string :=
  [pm_textCol m; ColKind; ColUserID; ColTenantID; ColAgentID; ColScopeTags; ColMetadata; ColExpiresAt; ColUpdatedAt].

(** The text that is sent; white space apart. *)
Definition statement_text (s : statement) : string :=
  match s with
  | Insert =>
      "INSERT INTO " +:+ pm_table m +:+ " ( " +:+ Join ", " (columns ++ [pm_embeddingCol m]) +:+ " ) VALUES ( " +:+
      Join ", " (map dollar (seq 1 12)) +:+ " ) ON CONFLICT (" +:+ ColID +:+ ") DO UPDATE SET " +:+
      Join ", " (map (fun c => c +:+ " = EXCLUDED." +:+ c) updated_columns ++
                 [ColCreatedAt +:+ " = " +:+ pm_table m +:+ "." +:+ ColCreatedAt;
                  pm_embeddingCol m +:+ " = EXCLUDED." +:+ pm_embeddingCol m]) +:+ " RETURNING " +:+ ColID
  | SelectNear cs =>
      "SELECT " +:+ Join ", " columns +:+ ", " +:+ scoreExpr +:+ " AS score FROM " +:+ pm_table m +:+ " WHERE " +:+
      where_text cs +:+ " ORDER BY " +:+ pm_embeddingCol m +:+ " <=> $1 LIMIT $3"
  | SelectRecent cs n =>
      "SELECT " +:+ Join ", " columns +:+ ", 0::float8 AS score FROM " +:+ pm_table m +:+ " WHERE " +:+
      where_text cs +:+ " ORDER BY " +:+ ColUpdatedAt +:+ " DESC LIMIT " +:+ dollar n
  | Delete cs => "DELETE FROM " +:+ pm_table m +:+ " WHERE " +:+ where_text cs
  end.
End text.

(** The conditions of the scope, in the order of the map, numbered from [nextArg]. *)
Fixpoint scope_conds (ranged : list (string * string)) (nextArg : nat) : list cond * list arg :=
  match ranged with
  | [] => ([], [])
  | (key, value) :: ranged =>
      let rest := scope_conds ranged (S nextArg) in
      if reserved_key key then (CEq key nextArg :: rest.1, AStr value :: rest.2)
      else (CTags nextArg :: rest.1, AStrs [scopeTagToken key value] :: rest.2)
  end.

Definition kind_conds (kinds : list string) (nextArg : nat) : list cond * list arg :=
  match kinds with
  | [] => ([], [])
  | [kind] => ([CEq ColKind nextArg], [AStr kind])
  | _ => ([CKindAny nextArg], [AStrs kinds])
  end.

Definition buildScopeArgs (ranged : list (string * string)) (kinds : list string) (startArg : nat) : list cond * list arg :=
  let s := scope_conds ranged startArg in
  let k := kind_conds kinds (startArg + length ranged) in
  (s.1 ++ k.1, s.2 ++ k.2).

Definition appendNotExpired (cs : list cond) : list cond := cs ++ [CNotExpired].

(** ** Effects *)

(** A row as [Scan] reads it. *)
Record db_row := {
  r_id : string; r_text : string; r_kind : string; r_user : option string; r_tenant : option string;
  r_agent : option string; r_tags : list string; r_metadata : string; r_expires : option Time;
  r_created : Time; r_updated : Time; r_score : f64 }.

(** The rows of a query, each with the outcome of its [Scan], and [rows.Err()]. *)
Definition rows (A : Type) : Type := (list (result A) * option error)%type.

Inductive PgOp :=
| GSched
| GEmbed (text : string)
| GNow
| GUUID
| GInsert (s : statement) (args : list arg)      (* [db.Query], one column *)
| GSelect (s : statement) (args : list arg)      (* [db.Query], twelve columns *)
| GDelete (s : statement) (args : list arg).     (* [db.Exec] *)

Definition PgAns (o : PgOp) : Type :=
  match o with
  | GSched => bool
  | GEmbed _ => result Vec
  | GNow => Time
  | GUUID => string
  | GInsert _ _ => result (rows string)
  | GSelect _ _ => result (rows db_row)
  | GDelete _ _ => option error
  end.

#[export] Instance pg_sig : Sig := {| op := PgOp; ans := PgAns; sched := GSched; sched_ans := id |}.
Definition gcall (o : PgOp) : prog (PgAns o) := perform (S := pg_sig) o.

(** ** Store *)

(** [json.Marshal] of a map of strings. *)
Definition marshalMetadata (metadata : gmap string string) : option string :=
  if bool_decide (metadata = ∅) then Some "{}" else of_bytes ∘ render <$> c_enc metadata.

Definition nullIfEmpty (s : string) : arg := if String.eqb s "" then ANull else AStr s.

Definition insert_args (id : string) (record : MemoryRecord) (meta : gmap string string) (tags : list string)
    (metadataJSON : string) (now : Time) (vec : Vec) : list arg :=
  [AStr id; AStr (rec_Text record); AStr (rec_Kind record); nullIfEmpty (default "" (meta !! ScopeKeyUserID));
   nullIfEmpty (default "" (meta !! ScopeKeyTenantID)); nullIfEmpty (default "" (meta !! ScopeKeyAgentID));
   AStrs tags; ABytes metadataJSON; (if IsZero (rec_ExpiresAt record) then ANull else ATime (rec_ExpiresAt record));
   ATime now; ATime now; AVec vec].

(** The ID in the first row. *)
Definition returned_id (r : result (rows string)) : result string :=
  match r with
  | inl err => inl (wrap_error "pgvector store memory: " err)
  | inr ([], Some err) => inl (wrap_error "pgvector store memory: " err)
  | inr ([], None) => inl (errors_New "pgvector store memory: no id returned")
  | inr (inl err :: _, _) => inl (wrap_error "pgvector store memory scan id: " err)
  | inr (inr id :: _, Some err) => inl (wrap_error "pgvector store memory: " err)
  | inr (inr id :: _, None) => inr id
  end.

(** [ranged] is the order of the iteration over the scope's metadata. *)
Definition Store (ranged : list (string * string)) (scope : MemoryScope) (record : MemoryRecord) (storeID : string)
    : prog (S := pg_sig) (result string) :=
  vec ← gcall (GEmbed (rec_Text record));
  match vec with
  | inl err => mret (inl (wrap_error "embed memory text: " err))
  | inr vec =>
      now ← gcall GNow;
      match marshalMetadata (rec_Metadata record) with
      | None => mret (inl (errors_New "marshal metadata"))
      | Some metadataJSON =>
          id ← (let id := TrimSpace storeID in if String.eqb id "" then gcall GUUID else mret id);
          r ← gcall (GInsert Insert (insert_args id record (ScopeMetadata scope) (encodeScopeTags ranged) metadataJSON now vec));
          mret (returned_id r)
      end
  end.

(** ** Load *)

(** [json.Unmarshal] into a nil map. *)
Definition read_metadata (text : string) : result (gmap string string) :=
  if String.eqb text "" then inr ∅
  else match parse text with
       | None => inl (errors_New "unmarshal metadata: invalid JSON")
       | Some j => match c_dec ∅ j with
                   | Some md => inr md
                   | None => inl (errors_New "unmarshal metadata: wrong type")
                   end
       end.

Definition entry_of_row (r : db_row) (metadata : gmap string string) : MemoryEntry :=
  {| e_ID := r_id r; e_Text := r_text r; e_Kind := r_kind r;
     e_Scope := {| sc_UserID := default "" (r_user r); sc_TenantID := default "" (r_tenant r);
                   sc_AgentID := default "" (r_agent r); sc_Tags := decodeScopeTags (r_tags r) |};
     e_Metadata := metadata; e_ExpiresAt := default 0 (r_expires r); e_Score := float32 (r_score r);
     e_CreatedAt := r_created r; e_UpdatedAt := r_updated r |}.

(** [entry.Expired()] *)
Definition Expired (e : MemoryEntry) : prog (S := pg_sig) bool :=
  if IsZero (e_ExpiresAt e) then mret false
  else now ← gcall GNow; mret (e_ExpiresAt e <? now).

Fixpoint scan_rows (rs : list (result db_row)) : prog (S := pg_sig) (result (list MemoryEntry)) :=
  match rs with
  | [] => mret (inr [])
  | inl err :: _ => mret (inl (wrap_error "scan memory row: " err))
  | inr r :: rs =>
      match read_metadata (r_metadata r) with
      | inl err => mret (inl err)
      | inr md =>
          let entry := entry_of_row r md in
          gone ← Expired entry;
          rest ← scan_rows rs;
          mret (match rest with
                | inl err => inl err
                | inr entries => inr (if (gone : bool) then entries else entry :: entries)
                end)
      end
  end.

Definition scanMemoryRows (r : rows db_row) : prog (S := pg_sig) (result (list MemoryEntry)) :=
  entries ← scan_rows r.1;
  mret (match entries, r.2 with
        | inl err, _ => inl err
        | inr _, Some err => inl (wrap_error "iterate memory rows: " err)
        | inr entries, None => inr entries
        end).

Definition scan_answer (r : result (rows db_row)) : prog (S := pg_sig) (result (list MemoryEntry)) :=
  match r with
  | inl err => mret (inl (wrap_error "pgvector load memories: " err))
  | inr r => scanMemoryRows r
  end.

Section memory.
Context (m : Memory).

Definition load_limit (opts : LoadMemoryOptions) : Z := if lo_Limit opts <=? 0 then pm_defaultLimit m else lo_Limit opts.
Definition load_min_score (opts : LoadMemoryOptions) : f64 :=
  if f64_eqb (lo_MinScore opts) f64_zero then pm_defaultMinScore m else lo_MinScore opts.

Definition Load (ranged : list (string * string)) (query : string) (opts : LoadMemoryOptions)
    : prog (S := pg_sig) (result (list MemoryEntry)) :=
  let limit := load_limit opts in
  let query := TrimSpace query in
  if negb (String.eqb query "") then
    vec ← gcall (GEmbed query);
    match vec with
    | inl err => mret (inl (wrap_error "embed recall query: " err))
    | inr vec =>
        let w := buildScopeArgs ranged (lo_Kinds opts) 4 in
        r ← gcall (GSelect (SelectNear (appendNotExpired w.1 ++ [CScore 2]))
                           ([AVec vec; AFloat (load_min_score opts); AInt limit] ++ w.2));
        scan_answer r
    end
  else
    let w := buildScopeArgs ranged (lo_Kinds opts) 1 in
    r ← gcall (GSelect (SelectRecent (appendNotExpired w.1) (length w.2 + 1)) (w.2 ++ [AInt limit]));
    scan_answer r.

(** ** Clear *)

Definition Clear (ranged : list (string * string)) : prog (S := pg_sig) (option error) :=
  match ranged with
  | [] => mret (Some (errors_New "scope must include at least one non-empty field"))
  | _ =>
      let w := buildScopeArgs ranged [] 1 in
      e ← gcall (GDelete (Delete w.1) w.2);
      mret (match e with Some err => Some (wrap_error "pgvector clear memories: " err) | None => None end)
  end.
End memory.
End Pg.
