(* ===== verification/MemoryPgFacts.v ===== *)
(** What the PostgreSQL memory backend promises: against a server that does what its statements
    mean, any history of Store, Load and Clear is one of a map from IDs to memories in which
    scopes are sets of attributes and a memory is visible from every scope it extends. *)
From Stdlib Require Import Floats.SpecFloat.
From S2P Require Import Prelude GoLib Types Codec Prog JsonText JsonCodec MemoryConfig MemoryPg.

#[local] Open Scope string_scope.
#[local] Open Scope list_scope.
#[local] Open Scope Z_scope.

Module PgFacts.
Import ScopeTags Pg.

(** ** Scopes as sets of attributes *)

(** A tag key that can be told from its value. *)
Definition clean_key (k : string) : Prop := k <> "" /\ ~ In "="%char (to_bytes k).
Definition clean_tags (meta : gmap string string) : Prop :=
  forall k v, meta !! k = Some v -> (reserved_key k = false -> clean_key k) /\ (reserved_key k = true -> v <> "").

Lemma ScopeMetadata_clean s : (forall k v, sc_Tags s !! k = Some v -> clean_key k) -> clean_tags (ScopeMetadata s).
Proof.
  intros Hs k v. rewrite ScopeMetadata_lookup. unfold reserved_key.
  destruct (String.eqb k ScopeKeyUserID); [destruct (String.eqb (sc_UserID s) "") eqn:E; [done|]; intros [= <-]; split; [done|]; intros _; by apply String.eqb_neq|].
  destruct (String.eqb k ScopeKeyTenantID); [destruct (String.eqb (sc_TenantID s) "") eqn:E; [done|]; intros [= <-]; split; [done|]; intros _; by apply String.eqb_neq|].
  destruct (String.eqb k ScopeKeyAgentID); [destruct (String.eqb (sc_AgentID s) "") eqn:E; [done|]; intros [= <-]; split; [done|]; intros _; by apply String.eqb_neq|].
  intros H. split; [intros _; by eapply Hs|done].
Qed.

Lemma cut_token k v : ~ In "="%char k -> cut_bytes (k ++ "="%char :: v) = Some (k, v).
Proof.
  induction k as [|c k IH]; cbn [app cut_bytes]; [done|]. intros Hn.
  destruct (Ascii.eqb_spec c "="); [subst; destruct Hn; by left|]. rewrite IH by (intros H; apply Hn; by right). done.
Qed.

Lemma Cut_token k v : clean_key k -> Cut_eq (scopeTagToken k v) = Some (k, v).
Proof.
  intros [_ Hk]. unfold Cut_eq, scopeTagToken. rewrite !to_bytes_app. cbn [to_bytes app]. rewrite cut_token by done.
  cbn. by rewrite !of_to_bytes.
Qed.

Lemma token_inj k v k' v' : clean_key k -> clean_key k' -> scopeTagToken k v = scopeTagToken k' v' -> k = k' /\ v = v'.
Proof. intros H H' E. pose proof (Cut_token k v H) as E1. rewrite E, Cut_token in E1 by done. by injection E1 as <- <-. Qed.

Lemma kept_nodup {A} (p : string * A -> bool) l : NoDup l.*1 -> NoDup (List.filter p l).*1.
Proof.
  induction l as [|[k v] l IH]; [done|]. intros [Hk Hl]%NoDup_cons. cbn [List.filter].
  destruct (p (k, v)); [|by apply IH]. cbn. constructor; [|by apply IH]. contradict Hk.
  apply list_elem_of_fmap in Hk as ([k' v'] & -> & Hin). apply list_elem_of_fmap. exists (k', v'). split; [done|].
  apply list_elem_of_In in Hin. apply filter_In in Hin as [Hin _]. by apply list_elem_of_In.
Qed.

Section ranged.
Context (meta : gmap string string) (ranged : list (string * string)) (Hr : ranged ≡ₚ map_to_list meta) (Hclean : clean_tags meta).

Lemma ranged_in k v : In (k, v) ranged <-> meta !! k = Some v.
Proof using Hr. rewrite <- elem_of_map_to_list, list_elem_of_In. by rewrite <- Hr. Qed.

Lemma in_tags token : token ∈ encodeScopeTags ranged <->
  exists k v, reserved_key k = false /\ meta !! k = Some v /\ token = scopeTagToken k v.
Proof using Hr.
  unfold encodeScopeTags. rewrite list_elem_of_In, in_map_iff. split.
  - intros ([k v] & <- & Hin). apply filter_In in Hin as [Hin Hb]. apply negb_true_iff in Hb. apply ranged_in in Hin. by exists k, v.
  - intros (k & v & Hb & Hm & ->). exists (k, v). split; [done|]. apply filter_In. split; [by apply ranged_in|]. cbn. by rewrite Hb.
Qed.

Lemma tag_stored k v : clean_key k -> reserved_key k = false -> scopeTagToken k v ∈ encodeScopeTags ranged <-> meta !! k = Some v.
Proof using Hr Hclean.
  intros Hk Hb. rewrite in_tags. split; [|by intros Hm; exists k, v].
  intros (k' & v' & Hb' & Hm & E). destruct (Hclean k' v' Hm) as [Hc _]. by destruct (token_inj k v k' v' Hk (Hc Hb') E) as [-> ->].
Qed.

Lemma ranged_nodup : NoDup ranged.*1.
Proof using Hr. rewrite Hr. apply NoDup_fst_map_to_list. Qed.

(** The tags come back. *)
Lemma pg_tags_back : decodeScopeTags (encodeScopeTags ranged) = filter (fun kv => reserved_key kv.1 = false) meta.
Proof using Hr Hclean.
  unfold decodeScopeTags, encodeScopeTags.
  assert (H : forall l (out : gmap string string), (forall k v, In (k, v) l -> meta !! k = Some v) ->
    fold_left add_tag (map (fun kv => scopeTagToken kv.1 kv.2) (List.filter (fun kv => negb (reserved_key kv.1)) l)) out =
    fold_left (fun (m : gmap string string) kv => <[kv.1 := kv.2]> m) (List.filter (fun kv => negb (reserved_key kv.1)) l) out).
  { induction l as [|[k v] l IH]; intros out Hl; [done|]. cbn [List.filter fst]. destruct (reserved_key k) eqn:Eb; cbn [negb];
      [apply IH; intros; apply Hl; by right|]. cbn [map fold_left fst snd]. destruct (Hclean k v (Hl k v (or_introl eq_refl))) as [Hc _].
    specialize (Hc Eb). unfold add_tag at 2. rewrite Cut_token by done. destruct Hc as [Hne _]. apply String.eqb_neq in Hne as ->.
    apply IH. intros; apply Hl; by right. }
  rewrite H by (intros k v; apply ranged_in). rewrite insert_all_map by apply kept_nodup, ranged_nodup.
  rewrite map_union_empty. apply map_eq. intros k. apply option_eq. intros v. rewrite map_lookup_filter_Some. cbn [fst].
  rewrite <- elem_of_list_to_map by apply kept_nodup, ranged_nodup.
  rewrite list_elem_of_In, filter_In, ranged_in. cbn [fst]. by rewrite negb_true_iff.
Qed.
End ranged.

(** ** The server

    [distance] is the operator [<=>], [canon] what the server makes of the text of a UUID. *)

Record trow := {
  c_text : string; c_kind : string; c_user : option string; c_tenant : option string; c_agent : option string;
  c_tags : list string; c_metadata : string; c_expires : option Time; c_created : Time; c_updated : Time; c_vec : Vec }.

Abbreviation table := (gmap string trow).
Abbreviation pevent := (event pg_sig).

(** Microseconds, which is what a TIMESTAMPTZ keeps. *)
Definition micro (t : Time) : Time := t - t mod 1000.

Definition opt_str (a : arg) : option (option string) :=
  match a with AStr s => Some (Some s) | ANull => Some None | _ => None end.
Definition opt_time (a : arg) : option (option Time) :=
  match a with ATime t => Some (Some (micro t)) | ANull => Some None | _ => None end.

(** The row that the arguments of the upsert describe. *)
Definition inserted (args : list arg) : option (string * trow) :=
  match args with
  | [AStr id; AStr text; AStr kind; user; tenant; agent; AStrs tags; ABytes md; expires; ATime created; ATime updated; AVec vec] =>
      user ← opt_str user; tenant ← opt_str tenant; agent ← opt_str agent; expires ← opt_time expires;
      Some (id, {| c_text := text; c_kind := kind; c_user := user; c_tenant := tenant; c_agent := agent; c_tags := tags;
                   c_metadata := md; c_expires := expires; c_created := micro created; c_updated := micro updated; c_vec := vec |})
  | _ => None
  end.

(** A JSONB column keeps the object, not its text. *)
Definition same_object (a b : string) : Prop :=
  exists es es', parse a = Some (JObj es) /\ parse b = Some (JObj es') /\ es ≡ₚ es'.

Definition with_metadata (r : trow) (md : string) (created : Time) : trow :=
  {| c_text := c_text r; c_kind := c_kind r; c_user := c_user r; c_tenant := c_tenant r; c_agent := c_agent r;
     c_tags := c_tags r; c_metadata := md; c_expires := c_expires r; c_created := created; c_updated := c_updated r; c_vec := c_vec r |}.

Section server.
Context (distance : Vec -> Vec -> f64) (canon : string -> option string).

Definition upserted (tb : table) (args : list arg) (cid : string) (tb' : table) : Prop :=
  exists id r md, inserted args = Some (id, r) /\ canon id = Some cid /\ same_object (c_metadata r) md /\
    tb' = <[cid := with_metadata r md (match tb !! cid with Some old => c_created old | None => c_created r end)]> tb.

Definition arg_at (args : list arg) (n : nat) : option arg := args !! pred n.

Definition column (r : trow) (col : string) : option string :=
  if String.eqb col ColUserID then c_user r
  else if String.eqb col ColTenantID then c_tenant r
  else if String.eqb col ColAgentID then c_agent r
  else if String.eqb col ColKind then Some (c_kind r)
  else None.

Definition similarity (v w : Vec) : f64 := SFsub 53 1024 (f64_of_Z 1) (distance v w).

Definition holds (args : list arg) (now : Time) (r : trow) (c : cond) : Prop :=
  match c with
  | CEq col n => exists s, arg_at args n = Some (AStr s) /\ column r col = Some s
  | CTags n => exists l, arg_at args n = Some (AStrs l) /\ forall t, In t l -> t ∈ c_tags r
  | CKindAny n => exists l, arg_at args n = Some (AStrs l) /\ In (c_kind r) l
  | CNotExpired => forall e, c_expires r = Some e -> now < e
  | CScore n => exists v x, arg_at args 1 = Some (AVec v) /\ arg_at args n = Some (AFloat x) /\ f64_leb x (similarity (c_vec r) v) = true
  end.

(** The rows that satisfy the conditions, in some order. *)
Definition matching (tb : table) (cs : list cond) (args : list arg) (now : Time) (l : list (string * trow)) : Prop :=
  NoDup l.*1 /\ forall id r, (id, r) ∈ l <-> tb !! id = Some r /\ Forall (holds args now r) cs.

Definition row_of (score : trow -> f64) (p : string * trow) : db_row :=
  {| r_id := p.1; r_text := c_text p.2; r_kind := c_kind p.2; r_user := c_user p.2; r_tenant := c_tenant p.2; r_agent := c_agent p.2;
     r_tags := c_tags p.2; r_metadata := c_metadata p.2; r_expires := c_expires p.2; r_created := c_created p.2;
     r_updated := c_updated p.2; r_score := score p.2 |}.

Definition nearest (v : Vec) (l : list Vec) : Prop := Sorted (fun a b => f64_leb (distance a v) (distance b v) = true) l.
Definition newest (l : list Time) : Prop := Sorted (fun a b => b <= a) l.

Definition selects (tb : table) (s : statement) (args : list arg) (out : list db_row) : Prop :=
  exists now l, match s with
  | SelectNear cs => exists v n, arg_at args 1 = Some (AVec v) /\ arg_at args 3 = Some (AInt n) /\ matching tb cs args now l /\
      nearest v (map c_vec l.*2) /\ out = map (row_of (fun r => similarity (c_vec r) v)) (take (Z.to_nat n) l)
  | SelectRecent cs k => exists n, arg_at args k = Some (AInt n) /\ matching tb cs args now l /\
      newest (map c_updated l.*2) /\ out = map (row_of (fun _ => f64_zero)) (take (Z.to_nat n) l)
  | _ => False
  end.

(** The rows that satisfy the conditions are gone. *)
Definition deleted (tb : table) (s : statement) (args : list arg) (tb' : table) : Prop :=
  match s with
  | Delete cs => forall id r, tb' !! id = Some r <-> tb !! id = Some r /\ ~ Forall (holds args 0 r) cs
  | _ => False
  end.

(** An answer that the program reports as a failure. *)
Definition insert_failed (a : result (rows string)) : Prop := exists e, returned_id a = inl e.
Definition select_failed (a : result (rows db_row)) : Prop :=
  match a with inl _ => True | inr (rs, e) => e <> None \/ exists err, In (inl err) rs end.

(** What the server does on an event; a statement that fails may still have been carried out. *)
Definition reacts (tb : table) (e : pevent) (tb' : table) : Prop :=
  match e with
  | Ev o a =>
      match o return PgAns o -> Prop with
      | GInsert s args => fun a =>
          s = Insert /\ ((exists cid, a = inr ([inr cid], None) /\ upserted tb args cid tb') \/
                         insert_failed a /\ (tb' = tb \/ exists cid, upserted tb args cid tb'))
      | GSelect s args => fun a =>
          tb' = tb /\ ((exists out, a = inr (map inr out, None) /\ selects tb s args out) \/ select_failed a)
      | GDelete s args => fun a =>
          match a with None => deleted tb s args tb' | Some _ => tb' = tb \/ deleted tb s args tb' end
      | _ => fun _ => tb' = tb
      end a
  end.

Fixpoint reacts_all (tb : table) (tr : list pevent) (tb' : table) : Prop :=
  match tr with
  | [] => tb' = tb
  | e :: tr => exists tb1, reacts tb e tb1 /\ reacts_all tb1 tr tb'
  end.

(** ** The calls *)

Inductive call :=
| CStore (scope : MemoryScope) (record : MemoryRecord) (id : string)
| CLoad (scope : MemoryScope) (query : string) (opts : LoadMemoryOptions)
| CClear (scope : MemoryScope).

Inductive outcome := OStored (r : result string) | OLoaded (r : result (list MemoryEntry)) | OCleared (e : option error).

Definition call_scope (c : call) : MemoryScope := match c with CStore s _ _ | CLoad s _ _ | CClear s => s end.

Definition perform_call (m : Memory) (ranged : list (string * string)) (c : call) : prog (S := pg_sig) outcome :=
  match c with
  | CStore scope record id => r ← Store ranged scope record id; mret (OStored r)
  | CLoad scope query opts => r ← Load m ranged query opts; mret (OLoaded r)
  | CClear scope => e ← Clear ranged; mret (OCleared e)
  end.

(** One call after the other, whatever the order in which a map is ranged over. *)
Inductive serves (m : Memory) : table -> list (call * outcome) -> table -> Prop :=
| serves_nil tb : serves m tb [] tb
| serves_cons tb ranged c tr o tb1 h tb2 :
    ranged ≡ₚ map_to_list (ScopeMetadata (call_scope c)) -> texec (perform_call m ranged c) tr o -> reacts_all tb tr tb1 ->
    serves m tb1 h tb2 -> serves m tb ((c, o) :: h) tb2.

(** ** What the backend promises *)

Record mem := {
  m_scope : gmap string string; m_text : string; m_kind : string; m_meta : gmap string string; m_expires : option Time;
  m_created : Time; m_updated : Time; m_vec : Vec }.

Definition scope_of (meta : gmap string string) : MemoryScope :=
  {| sc_UserID := default "" (meta !! ScopeKeyUserID); sc_TenantID := default "" (meta !! ScopeKeyTenantID);
     sc_AgentID := default "" (meta !! ScopeKeyAgentID); sc_Tags := filter (fun kv => reserved_key kv.1 = false) meta |}.

Definition entry_of (score : mem -> f64) (p : string * mem) : MemoryEntry :=
  {| e_ID := p.1; e_Text := m_text p.2; e_Kind := m_kind p.2; e_Scope := scope_of (m_scope p.2); e_Metadata := m_meta p.2;
     e_ExpiresAt := default 0 (m_expires p.2); e_Score := float32 (score p.2); e_CreatedAt := m_created p.2; e_UpdatedAt := m_updated p.2 |}.

(** Seen from a scope: the memory's own extends it. *)
Definition visible (scope : MemoryScope) (kinds : list string) (now : Time) (m : mem) : Prop :=
  ScopeMetadata scope ⊆ m_scope m /\ (kinds = [] \/ In (m_kind m) kinds) /\ forall e, m_expires m = Some e -> now < e.

(** The entries of these memories; one that has expired on the caller's clock may be left out. *)
Inductive keeps (score : mem -> f64) : list (string * mem) -> list MemoryEntry -> Prop :=
| keeps_nil : keeps score [] []
| keeps_entry p l es : keeps score l es -> keeps score (p :: l) (entry_of score p :: es)
| keeps_dropped p l es : default 0 (m_expires p.2) <> 0 -> keeps score l es -> keeps score (p :: l) es.

Definition loads (m : Memory) (sp : gmap string mem) (scope : MemoryScope) (query : string) (opts : LoadMemoryOptions) (es : list MemoryEntry) : Prop :=
  exists now l, NoDup l.*1 /\
    if String.eqb (TrimSpace query) "" then
      (forall id x, (id, x) ∈ l <-> sp !! id = Some x /\ visible scope (lo_Kinds opts) now x) /\
      newest (map m_updated l.*2) /\ keeps (fun _ => f64_zero) (take (Z.to_nat (load_limit m opts)) l) es
    else exists v,
      (forall id x, (id, x) ∈ l <-> sp !! id = Some x /\ visible scope (lo_Kinds opts) now x /\
                                    f64_leb (load_min_score m opts) (similarity (m_vec x) v) = true) /\
      nearest v (map m_vec l.*2) /\ keeps (fun x => similarity (m_vec x) v) (take (Z.to_nat (load_limit m opts)) l) es.

(** A new memory, or the one with that ID anew; it keeps its creation time. *)
Definition stores (sp : gmap string mem) (scope : MemoryScope) (record : MemoryRecord) (id cid : string) (sp' : gmap string mem) : Prop :=
  (TrimSpace id <> "" -> canon (TrimSpace id) = Some cid) /\
  exists now vec, sp' = <[cid := {|
    m_scope := ScopeMetadata scope; m_text := rec_Text record; m_kind := rec_Kind record; m_meta := rec_Metadata record;
    m_expires := if IsZero (rec_ExpiresAt record) then None else Some (micro (rec_ExpiresAt record));
    m_created := match sp !! cid with Some old => m_created old | None => micro now end; m_updated := micro now; m_vec := vec |}]> sp.

Definition clears (sp : gmap string mem) (scope : MemoryScope) (sp' : gmap string mem) : Prop :=
  forall id x, sp' !! id = Some x <-> sp !! id = Some x /\ ~ (ScopeMetadata scope ⊆ m_scope x).

Definition spec_step (m : Memory) (sp : gmap string mem) (c : call) (o : outcome) (sp' : gmap string mem) : Prop :=
  match c, o with
  | CStore scope record id, OStored (inr cid) => stores sp scope record id cid sp'
  | CStore scope record id, OStored (inl _) => sp' = sp \/ exists cid, stores sp scope record id cid sp'
  | CLoad scope query opts, OLoaded (inr es) => sp' = sp /\ loads m sp scope query opts es
  | CLoad _ _ _, OLoaded (inl _) => sp' = sp
  | CClear scope, OCleared None => ScopeMetadata scope <> ∅ /\ clears sp scope sp'
  | CClear scope, OCleared (Some _) => sp' = sp \/ ScopeMetadata scope <> ∅ /\ clears sp scope sp'
  | _, _ => False
  end.

Inductive spec_serves (m : Memory) : gmap string mem -> list (call * outcome) -> gmap string mem -> Prop :=
| spec_serves_nil sp : spec_serves m sp [] sp
| spec_serves_cons sp c o sp1 h sp2 : spec_step m sp c o sp1 -> spec_serves m sp1 h sp2 -> spec_serves m sp ((c, o) :: h) sp2.

(** ** Proof *)

Record rep (r : trow) (x : mem) : Prop := {
  rep_text : c_text r = m_text x; rep_kind : c_kind r = m_kind x; rep_user : c_user r = m_scope x !! ScopeKeyUserID;
  rep_tenant : c_tenant r = m_scope x !! ScopeKeyTenantID; rep_agent : c_agent r = m_scope x !! ScopeKeyAgentID;
  rep_tags : exists ranged, ranged ≡ₚ map_to_list (m_scope x) /\ c_tags r = encodeScopeTags ranged;
  rep_meta : read_metadata (c_metadata r) = inr (m_meta x); rep_expires : c_expires r = m_expires x;
  rep_created : c_created r = m_created x; rep_updated : c_updated r = m_updated x; rep_vec : c_vec r = m_vec x;
  rep_clean : clean_tags (m_scope x) }.

Definition represents (tb : table) (sp : gmap string mem) : Prop :=
  forall id, match tb !! id, sp !! id with None, None => True | Some r, Some x => rep r x | _, _ => False end.

Lemma rep_some tb sp id r : represents tb sp -> tb !! id = Some r -> exists x, sp !! id = Some x /\ rep r x.
Proof. intros H E. specialize (H id). rewrite E in H. destruct (sp !! id) as [x|]; [by exists x|done]. Qed.
Lemma rep_some' tb sp id x : represents tb sp -> sp !! id = Some x -> exists r, tb !! id = Some r /\ rep r x.
Proof. intros H E. specialize (H id). rewrite E in H. destruct (tb !! id) as [r|]; [by exists r|done]. Qed.

(** The row has the attribute. *)
Definition attr (r : trow) (k v : string) : Prop :=
  if reserved_key k then column r k = Some v else scopeTagToken k v ∈ c_tags r.

Lemma rep_attr r x k v : rep r x -> (reserved_key k = false -> clean_key k) -> attr r k v <-> m_scope x !! k = Some v.
Proof.
  intros Hr Hk. unfold attr. destruct (reserved_key k) eqn:Eb.
  - unfold reserved_key, column, ColUserID, ColTenantID, ColAgentID in *.
    destruct (String.eqb_spec k ScopeKeyUserID) as [->|]; [by rewrite (rep_user r x Hr)|].
    destruct (String.eqb_spec k ScopeKeyTenantID) as [->|]; [by rewrite (rep_tenant r x Hr)|].
    destruct (String.eqb_spec k ScopeKeyAgentID) as [->|]; [by rewrite (rep_agent r x Hr)|done].
  - destruct (rep_tags r x Hr) as (ranged & Hp & ->). apply tag_stored; [done|apply Hr|by apply Hk|done].
Qed.

Lemma scope_conds_hold now r post ranged : forall start pre,
  length pre = start ->
  Forall (holds (pre ++ (scope_conds ranged (S start)).2 ++ post) now r) (scope_conds ranged (S start)).1 <->
  forall k v, In (k, v) ranged -> attr r k v.
Proof.
  induction ranged as [|[k v] ranged IH]; intros start pre Hpre; cbn [scope_conds]; [by split; [intros _ ? ? []|constructor]|].
  assert (Harg : forall a rest, arg_at (pre ++ (a :: rest) ++ post) (S start) = Some a).
  { intros a rest. unfold arg_at. cbn [Nat.pred app]. by rewrite lookup_app_r, Hpre, Nat.sub_diag by lia. }
  assert (Hrest : forall a, Forall (holds (pre ++ (a :: (scope_conds ranged (S (S start))).2) ++ post) now r) (scope_conds ranged (S (S start))).1 <->
    forall k v, In (k, v) ranged -> attr r k v).
  { intros a. specialize (IH (S start) (pre ++ [a])). rewrite length_app, Hpre, Nat.add_1_r in IH. specialize (IH eq_refl).
    rewrite <- IH. by rewrite <- !app_assoc. }
  assert (Hsplit : (forall k' v', In (k', v') ((k, v) :: ranged) -> attr r k' v') <-> attr r k v /\ forall k' v', In (k', v') ranged -> attr r k' v').
  { split; [intros H; split; [apply H; by left|intros; apply H; by right]|]. intros [H1 H2] k' v' [[= <- <-]|?]; auto. }
  rewrite Hsplit. unfold attr at 1. destruct (reserved_key k); cbn [fst snd]; rewrite Forall_cons, Hrest.
  - cbn [holds]. rewrite Harg. split; [intros [(s & [= <-] & ?) ?]; auto|intros [? ?]; split; [by exists v|done]].
  - cbn [holds]. rewrite Harg. split.
    + intros [(l & [= <-] & Hl) ?]. split; [apply Hl; by left|done].
    + intros [? ?]. split; [|done]. exists [scopeTagToken k v]. split; [done|]. by intros ? [<-|[]].
Qed.

Lemma kind_conds_hold now r post kinds start pre :
  length pre = start ->
  Forall (holds (pre ++ (kind_conds kinds (S start)).2 ++ post) now r) (kind_conds kinds (S start)).1 <-> kinds = [] \/ In (c_kind r) kinds.
Proof.
  intros Hpre. assert (Harg : forall a, arg_at (pre ++ [a] ++ post) (S start) = Some a).
  { intros a. unfold arg_at. cbn [Nat.pred app]. by rewrite lookup_app_r, Hpre, Nat.sub_diag by lia. }
  destruct kinds as [|k [|k' kinds]]; cbn [kind_conds fst snd]; [split; [by left|constructor]|..];
    rewrite Forall_cons, Forall_nil; cbn [holds]; rewrite Harg.
  - split; [intros [(s & [= <-] & H) _]; right; left; unfold column in H; cbn in H; by injection H|].
    intros [?|[->|[]]]; [done|]. split; [|done]. by exists (c_kind r).
  - split; [intros [(l & [= <-] & H) _]; by right|]. intros [?|?]; [done|]. split; [|done]. by exists (k :: k' :: kinds).
Qed.

Lemma length_scope_args ranged start : length (scope_conds ranged start).2 = length ranged.
Proof. revert start. induction ranged as [|[k v] l IH]; intros start; cbn [scope_conds]; [done|]. case_match; cbn; by rewrite IH. Qed.

Lemma build_hold now r post ranged kinds start pre :
  length pre = start ->
  let w := buildScopeArgs ranged kinds (S start) in
  Forall (holds (pre ++ w.2 ++ post) now r) w.1 <-> (forall k v, In (k, v) ranged -> attr r k v) /\ (kinds = [] \/ In (c_kind r) kinds).
Proof.
  intros Hpre. cbv zeta. unfold buildScopeArgs. cbn [fst snd]. rewrite Forall_app. rewrite <- (app_assoc (scope_conds ranged (S start)).2).
  rewrite scope_conds_hold by done.
  pose proof (kind_conds_hold now r post kinds (start + length ranged) (pre ++ (scope_conds ranged (S start)).2)) as Hk.
  rewrite length_app, length_scope_args, Hpre in Hk. specialize (Hk eq_refl). rewrite <- !app_assoc in Hk. cbn [Nat.add]. by rewrite Hk.
Qed.

Lemma seen r x scope ranged : rep r x -> clean_tags (ScopeMetadata scope) -> ranged ≡ₚ map_to_list (ScopeMetadata scope) ->
  (forall k v, In (k, v) ranged -> attr r k v) <-> ScopeMetadata scope ⊆ m_scope x.
Proof.
  intros Hr Hc Hp. rewrite map_subseteq_spec. split; intros H k v.
  - intros Hm. apply (rep_attr r x); [done|by apply (Hc k v Hm)|]. by apply H, (ranged_in _ _ Hp).
  - intros Hin%(ranged_in _ _ Hp). apply (rep_attr r x); [done|by apply (Hc k v Hin)|]. by apply H.
Qed.

(** The WHERE clause of a Load says what is visible. *)
Lemma where_visible r x scope ranged kinds now post start pre :
  length pre = start -> rep r x -> clean_tags (ScopeMetadata scope) -> ranged ≡ₚ map_to_list (ScopeMetadata scope) ->
  let w := buildScopeArgs ranged kinds (S start) in
  Forall (holds (pre ++ w.2 ++ post) now r) (appendNotExpired w.1) <-> visible scope kinds now x.
Proof.
  intros Hpre Hr Hc Hp. cbv zeta. unfold appendNotExpired, visible. rewrite Forall_app, Forall_cons, Forall_nil.
  rewrite build_hold by done. rewrite (seen r x) by done. cbn [holds]. rewrite (rep_expires r x Hr), (rep_kind r x Hr). tauto.
Qed.

(** The rows that match are the rows of the memories that match. *)
Lemma matched tb sp cs args now l (P : mem -> Prop) :
  represents tb sp -> matching tb cs args now l -> (forall r x, rep r x -> Forall (holds args now r) cs <-> P x) ->
  exists l', l'.*1 = l.*1 /\ Forall2 (fun p q => p.1 = q.1 /\ rep p.2 q.2) l l' /\
    forall id x, (id, x) ∈ l' <-> sp !! id = Some x /\ P x.
Proof.
  intros Hrep [Hnd Hl] HP.
  assert (Hex : forall l0, (forall id r, (id, r) ∈ l0 -> tb !! id = Some r) ->
    exists l', l'.*1 = l0.*1 /\ Forall2 (fun p q => p.1 = q.1 /\ rep p.2 q.2 /\ sp !! p.1 = Some q.2) l0 l').
  { induction l0 as [|[id r] l0 IH]; intros H0; [by exists []|]. destruct IH as (l' & H1 & H2); [intros; apply H0; by right|].
    destruct (rep_some tb sp id r Hrep (H0 id r (list_elem_of_here _ _))) as (x & Hx & Hr).
    exists ((id, x) :: l'). split; [cbn; by rewrite H1|]. by constructor. }
  destruct (Hex l) as (l' & H1 & H2); [intros id r Hin; by apply Hl|]. exists l'. split; [done|].
  split; [eapply Forall2_impl; [exact H2|]; by intros ? ? (? & ? & _)|]. intros id x. split.
  - intros Hin. apply list_elem_of_lookup in Hin as [i Hi]. destruct (Forall2_lookup_r _ _ _ _ _ H2 Hi) as ([id' r] & Hi' & Hid & Hr & Hx).
    cbn [fst snd] in *. subst id'. split; [done|]. apply (HP r x Hr). by apply (Hl id r), list_elem_of_lookup_2 with i.
  - intros [Hx HPx]. destruct (rep_some' tb sp id x Hrep Hx) as (r & Hr & Hrx).
    assert (Hin : (id, r) ∈ l) by (apply Hl; split; [done|]; by apply (HP r x)).
    apply list_elem_of_lookup in Hin as [i Hi]. destruct (Forall2_lookup_l _ _ _ _ _ H2 Hi) as ([id' x'] & Hi' & Hid & _ & Hx').
    cbn [fst snd] in *. subst id'. rewrite Hx in Hx'. injection Hx' as <-. by apply list_elem_of_lookup_2 with i.
Qed.

Lemma matched_keys (l : list (string * trow)) (l' : list (string * mem)) : Forall2 (fun p q => p.1 = q.1 /\ rep p.2 q.2) l l' ->
  map c_vec l.*2 = map m_vec l'.*2 /\ map c_updated l.*2 = map m_updated l'.*2.
Proof.
  induction 1 as [|[id r] [id' x] l l' [_ Hr] _ [IH1 IH2]]; [done|]. split.
  - exact (f_equal2 cons (rep_vec r x Hr) IH1).
  - exact (f_equal2 cons (rep_updated r x Hr) IH2).
Qed.

(** The entry of a row is the entry of its memory. *)
Lemma row_entry r x id score score' md : rep r x -> score r = score' x -> read_metadata (r_metadata (row_of score (id, r))) = inr md ->
  entry_of_row (row_of score (id, r)) md = entry_of score' (id, x).
Proof.
  intros Hr Hs. cbn [row_of r_metadata fst snd]. rewrite (rep_meta r x Hr). intros [= <-]. unfold entry_of_row, entry_of, row_of, scope_of.
  cbn [r_id r_text r_kind r_user r_tenant r_agent r_tags r_expires r_created r_updated r_score fst snd].
  rewrite (rep_text r x Hr), (rep_kind r x Hr), (rep_user r x Hr), (rep_tenant r x Hr), (rep_agent r x Hr), (rep_expires r x Hr),
    (rep_created r x Hr), (rep_updated r x Hr), Hs.
  destruct (rep_tags r x Hr) as (ranged & Hp & ->). by rewrite (pg_tags_back (m_scope x) ranged Hp (rep_clean r x Hr)).
Qed.

Lemma scanned score score' (l : list (string * trow)) (l' : list (string * mem)) tr es tb tb' :
  (forall r x, rep r x -> score r = score' x) -> Forall2 (fun p q => p.1 = q.1 /\ rep p.2 q.2) l l' ->
  texec (scan_rows (map inr (map (row_of score) l))) tr es -> reacts_all tb tr tb' ->
  tb' = tb /\ exists entries, es = inr entries /\ keeps score' l' entries.
Proof.
  intros Hs HF. revert tr es tb. induction HF as [|[id r] [id' x] l l' [Hid Hr] HF IH]; intros tr es tb Hx Htb; cbn [map scan_rows] in Hx.
  - apply texec_ret_inv in Hx as [-> ->]. cbn in Htb. split; [done|]. exists []. by split; [|constructor].
  - cbn [fst snd] in *. subst id'.
    assert (Hmd : read_metadata (r_metadata (row_of score (id, r))) = inr (m_meta x)) by apply (rep_meta r x Hr).
    rewrite Hmd in Hx. rewrite (row_entry r x id score score' _ Hr (Hs r x Hr) Hmd) in Hx.
    apply texec_bind_inv in Hx as (t1 & t2 & gone & -> & H1 & Hx). apply texec_bind_inv in Hx as (t3 & t4 & rest & -> & H2 & H3).
    apply texec_ret_inv in H3 as [-> ->]. rewrite app_nil_r in Htb.
    assert (Hsame : reacts_all tb t3 tb' /\ (gone = true -> default 0 (m_expires x) <> 0)).
    { unfold Expired in H1. destruct (IsZero (e_ExpiresAt (entry_of score' (id, x)))) eqn:Ez.
      - apply texec_ret_inv in H1 as [-> ->]. split; [exact Htb|done].
      - apply texec_do_inv in H1 as (now & t & -> & H1). apply texec_ret_inv in H1 as [-> ->]. cbn [app reacts_all reacts] in Htb.
        destruct Htb as (tb1 & -> & Htb). split; [exact Htb|]. intros _. unfold IsZero in Ez. by apply Z.eqb_neq in Ez. }
    destruct Hsame as [Hsame Hgone]. destruct (IH _ _ _ H2 Hsame) as (-> & entries & -> & Hk). split; [done|].
    destruct gone; (eexists; split; [reflexivity|]); [apply keeps_dropped; [by apply Hgone|done]|by constructor].
Qed.

Lemma reacts_app t1 : forall tb t2 tb2, reacts_all tb (t1 ++ t2) tb2 <-> exists tb1, reacts_all tb t1 tb1 /\ reacts_all tb1 t2 tb2.
Proof.
  induction t1 as [|e t1 IH]; intros tb t2 tb2; cbn [app reacts_all]; [split; [by exists tb|by intros (? & -> & ?)]|].
  split.
  - intros (tb1 & H1 & (tb3 & H2 & H3)%IH). exists tb3. eauto.
  - intros (tb3 & (tb1 & H1 & H2) & H3). exists tb1. split; [done|]. apply IH. eauto.
Qed.

Lemma scan_fails rs tr es tb tb' :
  (exists e, In (inl e) rs) -> texec (scan_rows rs) tr es -> reacts_all tb tr tb' -> tb' = tb /\ exists e, es = inl e.
Proof.
  revert tr es tb. induction rs as [|[err|r] rs IH]; intros tr es tb Hin Hx Htb; [by destruct Hin|..]; cbn [scan_rows] in Hx.
  - apply texec_ret_inv in Hx as [-> ->]. split; [done|by eexists].
  - destruct Hin as (e & [?|Hin]); [done|]. destruct (read_metadata (r_metadata r)) as [err|md];
      [apply texec_ret_inv in Hx as [-> ->]; split; [done|by eexists]|].
    apply texec_bind_inv in Hx as (t1 & t2 & gone & -> & H1 & Hx). apply texec_bind_inv in Hx as (t3 & t4 & rest & -> & H2 & H3).
    apply texec_ret_inv in H3 as [-> ->]. rewrite app_nil_r in Htb.
    apply reacts_app in Htb as (tb1 & Ht1 & Ht3).
    assert (tb1 = tb) as ->.
    { unfold Expired in H1. destruct (IsZero _); [by apply texec_ret_inv in H1 as [-> ->]|].
      apply texec_do_inv in H1 as (now & t & -> & H1). apply texec_ret_inv in H1 as [-> ->]. cbn in Ht1. by destruct Ht1 as (? & -> & ->). }
    destruct (IH _ _ _ (ex_intro _ e Hin) H2 Ht3) as (-> & e' & ->). split; [done|by eexists].
Qed.

Lemma scan_quiet rs tr es tb tb' : texec (scan_rows rs) tr es -> reacts_all tb tr tb' -> tb' = tb.
Proof.
  revert tr es tb. induction rs as [|[err|r] rs IH]; intros tr es tb Hx Htb; cbn [scan_rows] in Hx;
    [by apply texec_ret_inv in Hx as [-> ->]..|].
  destruct (read_metadata (r_metadata r)) as [err|md]; [by apply texec_ret_inv in Hx as [-> ->]|].
  apply texec_bind_inv in Hx as (t1 & t2 & gone & -> & H1 & Hx). apply texec_bind_inv in Hx as (t3 & t4 & rest & -> & H2 & H3).
  apply texec_ret_inv in H3 as [-> ->]. rewrite app_nil_r in Htb. apply reacts_app in Htb as (tb1 & Ht1 & Ht3).
  unfold Expired in H1. destruct (IsZero _).
  - apply texec_ret_inv in H1 as [-> ->]. cbn in Ht1. subst tb1. by eapply IH.
  - apply texec_do_inv in H1 as (now & t & -> & H1). apply texec_ret_inv in H1 as [-> ->]. cbn in Ht1. destruct Ht1 as (? & -> & ->). by eapply IH.
Qed.

(** *** Metadata through its JSON column *)

Definition metadata_ok (md : gmap string string) : Prop := forall j, c_enc md = Some j -> json_ok maxNestingDepth j = true.

Definition str_entries (l : list (string * string)) : list (string * json) := map (fun kv => (kv.1, JStr kv.2)) l.

Lemma members_strings (l : list (string * string)) : members (map (fun kv => (kv.1, c_enc kv.2)) l) = Some (str_entries l).
Proof. unfold members. induction l as [|[k v] l IH]; [done|]. cbn [map mapM mbind option_bind]. cbn [c_enc string_codec]. cbn in IH |- *. by rewrite IH. Qed.

Lemma enc_strings (md : gmap string string) : c_enc md = Some (JObj (str_entries (Json.sort_keys (map_to_list md)))).
Proof. cbn [c_enc map_codec]. unfold enc_map. by rewrite sort_keys_map, members_strings. Qed.

Lemma dec_strings (md : gmap string string) es : es ≡ₚ str_entries (Json.sort_keys (map_to_list md)) -> c_dec (∅ : gmap string string) (JObj es) = Some md.
Proof.
  intros Hp. apply Permutation_map_inv in Hp as (l & -> & Hl). cbn [c_dec map_codec dec_map].
  assert (Hl' : l ≡ₚ map_to_list md) by (rewrite <- Hl; apply sort_keys_perm).
  assert (Hnd : NoDup l.*1) by (rewrite Hl'; apply NoDup_fst_map_to_list).
  rewrite (dec_entries_law l _ ∅) by (first [by apply Forall_true|apply members_strings]).
  rewrite insert_all_map, map_union_empty by done. f_equal. rewrite <- (list_to_map_to_list md). by apply list_to_map_proper.
Qed.

Lemma metadata_read md a b : marshalMetadata md = Some a -> metadata_ok md -> same_object a b -> read_metadata b = inr md.
Proof.
  intros Ha Hok (es & es' & Pa & Pb & Hp). unfold read_metadata.
  assert (Hb : String.eqb b "" = false) by (apply String.eqb_neq; intros ->; by vm_compute in Pb). rewrite Hb, Pb. clear Hb.
  rewrite (dec_strings md); [done|]. unfold marshalMetadata in Ha. case_bool_decide as E.
  - injection Ha as <-. subst md. vm_compute in Pa. injection Pa as <-. by rewrite Hp.
  - pose proof (Hok _ (enc_strings md)) as Hj. rewrite enc_strings in Ha. cbn [fmap option_fmap option_map] in Ha. apply (inj Some) in Ha. subst a.
    pose proof (parse_render _ Hj) as E2. unfold compose in Pa. rewrite E2 in Pa. injection Pa as <-. by rewrite <- Hp.
Qed.

(** *** The operations *)

Lemma opt_str_of meta k : clean_tags meta -> reserved_key k = true -> opt_str (nullIfEmpty (default "" (meta !! k))) = Some (meta !! k).
Proof.
  intros Hc Hk. unfold nullIfEmpty. destruct (meta !! k) as [v|] eqn:E; [|done]. cbn [default].
  destruct (Hc k v E) as [_ Hv]. specialize (Hv Hk). apply String.eqb_neq in Hv. cbn. by rewrite Hv.
Qed.

Definition call_ok (c : call) : Prop :=
  (forall k v, sc_Tags (call_scope c) !! k = Some v -> clean_key k) /\
  match c with CStore _ record _ => metadata_ok (rec_Metadata record) | _ => True end.

Lemma stored_rep tb sp ranged scope record id0 id md now vec cid tb' :
  represents tb sp -> ranged ≡ₚ map_to_list (ScopeMetadata scope) -> call_ok (CStore scope record id0) ->
  marshalMetadata (rec_Metadata record) = Some md -> (TrimSpace id0 <> "" -> id = TrimSpace id0) ->
  upserted tb (insert_args id record (ScopeMetadata scope) (encodeScopeTags ranged) md now vec) cid tb' ->
  exists sp', stores sp scope record id0 cid sp' /\ represents tb' sp'.
Proof.
  intros Hrep Hp [Hc Hmd] Hm Hid (id' & r & md' & Hins & Hcan & Hsame & ->). apply ScopeMetadata_clean in Hc. cbn [call_scope] in Hc.
  unfold inserted, insert_args in Hins. rewrite !opt_str_of in Hins by done. cbn [mbind option_bind] in Hins.
  assert (He : opt_time (if IsZero (rec_ExpiresAt record) then ANull else ATime (rec_ExpiresAt record)) =
    Some (if IsZero (rec_ExpiresAt record) then None else Some (micro (rec_ExpiresAt record)))) by (by destruct (IsZero _)).
  rewrite He in Hins. cbn [mbind option_bind] in Hins. injection Hins as <- <-. cbn [c_metadata c_created] in *.
  eexists. split; [split; [intros Hne; rewrite <- Hid by done; exact Hcan|do 2 eexists; reflexivity]|].
  intros k. destruct (decide (k = cid)) as [->|Hne]; [rewrite !lookup_insert_eq|rewrite !lookup_insert_ne by done; apply Hrep].
  specialize (Hrep cid). constructor; cbn [with_metadata c_text c_kind c_user c_tenant c_agent c_tags c_metadata c_expires c_created c_updated c_vec
    m_scope m_text m_kind m_meta m_expires m_created m_updated m_vec]; try done.
  - by exists ranged.
  - by eapply metadata_read.
  - destruct (tb !! cid) as [old|], (sp !! cid) as [x|]; try done. by apply rep_created.
Qed.

Lemma store_step m tb sp ranged scope record id tr o tb' :
  represents tb sp -> ranged ≡ₚ map_to_list (ScopeMetadata scope) -> call_ok (CStore scope record id) ->
  texec (perform_call m ranged (CStore scope record id)) tr o -> reacts_all tb tr tb' ->
  exists sp', spec_step m sp (CStore scope record id) o sp' /\ represents tb' sp'.
Proof.
  intros Hrep Hp Hok Hx Htb. cbn [perform_call] in Hx. apply texec_bind_inv in Hx as (t1 & t2 & r & -> & Hx & H2).
  apply texec_ret_inv in H2 as [-> ->]. rewrite app_nil_r in Htb. cbn [spec_step].
  unfold Store in Hx. apply texec_do_inv in Hx as (vec & t & -> & Hx). cbn [reacts_all reacts] in Htb. destruct Htb as (? & -> & Htb).
  destruct vec as [err|vec]; [apply texec_ret_inv in Hx as [-> ->]; cbn in Htb; subst tb'; exists sp; by split; [left|]|].
  apply texec_do_inv in Hx as (now & t3 & -> & Hx). cbn [reacts_all reacts] in Htb. destruct Htb as (? & -> & Htb).
  destruct (marshalMetadata (rec_Metadata record)) as [md|] eqn:Hm;
    [|apply texec_ret_inv in Hx as [-> ->]; cbn in Htb; subst tb'; exists sp; by split; [left|]].
  cbv zeta in Hx. apply texec_bind_inv in Hx as (t4 & t5 & rid & -> & H4 & Hx). apply reacts_app in Htb as (tb1 & Ht4 & Htb).
  assert (tb1 = tb /\ (TrimSpace id <> "" -> rid = TrimSpace id)) as [-> Hid].
  { destruct (String.eqb (TrimSpace id) "") eqn:E.
    - apply String.eqb_eq in E. apply texec_do_inv in H4 as (u & t & -> & H4). apply texec_ret_inv in H4 as [-> ->]. cbn in Ht4.
      destruct Ht4 as (? & -> & ->). by split.
    - apply texec_ret_inv in H4 as [-> ->]. by split. }
  apply texec_do_inv in Hx as (a & t6 & -> & Hx). apply texec_ret_inv in Hx as [-> ->]. cbn [reacts_all reacts] in Htb.
  destruct Htb as (tb1 & (_ & [(cid & -> & Hup)|(Hf & Hup)]) & Heq); subst tb1.
  - cbn [returned_id]. by eapply stored_rep.
  - destruct Hf as [e ->]. destruct Hup as [->|(cid & Hup)]; [exists sp; by split; [left|]|].
    destruct (stored_rep tb sp ranged scope record id rid md now vec cid tb' Hrep Hp Hok Hm Hid Hup) as (sp' & Hst & Hr).
    exists sp'. split; [|done]. right. by exists cid.
Qed.

Lemma answered_rows score score' tb tb' (l : list (string * trow)) (l' : list (string * mem)) tr o :
  (forall r x, rep r x -> score r = score' x) -> Forall2 (fun p q => p.1 = q.1 /\ rep p.2 q.2) l l' ->
  texec (scan_answer (inr (map inr (map (row_of score) l), None))) tr o -> reacts_all tb tr tb' ->
  tb' = tb /\ exists entries, o = inr entries /\ keeps score' l' entries.
Proof.
  intros Hs HF Hx Htb. cbn [scan_answer] in Hx. unfold scanMemoryRows in Hx. cbn [fst snd] in Hx.
  apply texec_bind_inv in Hx as (t1 & t2 & es & -> & H1 & H2). apply texec_ret_inv in H2 as [-> ->]. rewrite app_nil_r in Htb.
  destruct (scanned score score' l l' t1 es tb tb' Hs HF H1 Htb) as (-> & entries & -> & Hk). split; [done|]. by exists entries.
Qed.

Lemma answered_failed a tb tb' tr o :
  select_failed a -> texec (scan_answer a) tr o -> reacts_all tb tr tb' -> tb' = tb /\ exists e, o = inl e.
Proof.
  intros Hf Hx Htb. destruct a as [err|[rs e]]; cbn [scan_answer] in Hx; [apply texec_ret_inv in Hx as [-> ->]; split; [done|by eexists]|].
  unfold scanMemoryRows in Hx. cbn [fst snd] in Hx. apply texec_bind_inv in Hx as (t1 & t2 & es & -> & H1 & H2).
  apply texec_ret_inv in H2 as [-> ->]. rewrite app_nil_r in Htb. split; [by eapply scan_quiet|].
  cbn [select_failed] in Hf. destruct Hf as [He|Hin]; [destruct es, e; try done; by eexists|].
  destruct (scan_fails rs t1 es tb tb' Hin H1 Htb) as (_ & err & ->). by eexists.
Qed.

Lemma load_recent m tb sp ranged scope opts query a tr o tb' :
  represents tb sp -> ranged ≡ₚ map_to_list (ScopeMetadata scope) -> clean_tags (ScopeMetadata scope) -> String.eqb (TrimSpace query) "" = true ->
  let w := buildScopeArgs ranged (lo_Kinds opts) 1 in
  reacts tb (Ev (S := pg_sig) (GSelect (SelectRecent (appendNotExpired w.1) (length w.2 + 1)) (w.2 ++ [AInt (load_limit m opts)])) a) tb ->
  texec (scan_answer a) tr o -> reacts_all tb tr tb' ->
  tb' = tb /\ forall es, o = inr es -> loads m sp scope query opts es.
Proof.
  intros Hrep Hp Hc Hq w (_ & Ha) Hx Htb. destruct Ha as [(out & -> & now & l & n & Hn & Hm & Hord & ->)|Hf];
    [|destruct (answered_failed _ _ _ _ _ Hf Hx Htb) as (-> & e & ->); by split].
  assert (n = load_limit m opts) as ->.
  { unfold arg_at in Hn. rewrite Nat.add_1_r in Hn. cbn [Nat.pred] in Hn. rewrite lookup_app_r, Nat.sub_diag in Hn by lia. by injection Hn. }
  destruct (matched tb sp _ _ now l (visible scope (lo_Kinds opts) now) Hrep Hm) as (l' & Hk & HF & Hl').
  { intros r x Hr. apply (where_visible r x scope ranged (lo_Kinds opts) now [AInt (load_limit m opts)] 0 []); done. }
  destruct (answered_rows (fun _ => f64_zero) (fun _ => f64_zero) tb tb' _ _ tr o ltac:(done) (Forall2_take _ _ _ (Z.to_nat (load_limit m opts)) HF) Hx Htb)
    as (-> & es & -> & Hkeep).
  split; [done|]. intros es' [= <-]. exists now, l'. destruct Hm as [Hnd _]. rewrite <- Hk in Hnd. split; [done|]. rewrite Hq.
  destruct (matched_keys l l' HF) as [_ Hu]. rewrite <- Hu. done.
Qed.

Lemma load_near m tb sp ranged scope opts query v a tr o tb' :
  represents tb sp -> ranged ≡ₚ map_to_list (ScopeMetadata scope) -> clean_tags (ScopeMetadata scope) -> String.eqb (TrimSpace query) "" = false ->
  let w := buildScopeArgs ranged (lo_Kinds opts) 4 in
  reacts tb (Ev (S := pg_sig) (GSelect (SelectNear (appendNotExpired w.1 ++ [CScore 2]))
    ([AVec v; AFloat (load_min_score m opts); AInt (load_limit m opts)] ++ w.2)) a) tb ->
  texec (scan_answer a) tr o -> reacts_all tb tr tb' ->
  tb' = tb /\ forall es, o = inr es -> loads m sp scope query opts es.
Proof.
  intros Hrep Hp Hc Hq w (_ & Ha) Hx Htb. destruct Ha as [(out & -> & now & l & v' & n & Hv & Hn & Hm & Hord & ->)|Hf];
    [|destruct (answered_failed _ _ _ _ _ Hf Hx Htb) as (-> & e & ->); by split].
  cbn in Hv, Hn. injection Hv as <-. injection Hn as <-.
  destruct (matched tb sp _ _ now l (fun x => visible scope (lo_Kinds opts) now x /\ f64_leb (load_min_score m opts) (similarity (m_vec x) v) = true)
    Hrep Hm) as (l' & Hk & HF & Hl').
  { intros r x Hr. rewrite Forall_app, Forall_cons, Forall_nil.
    pose proof (where_visible r x scope ranged (lo_Kinds opts) now [] 3 [AVec v; AFloat (load_min_score m opts); AInt (load_limit m opts)]
      eq_refl Hr Hc Hp) as Hw. cbv zeta in Hw. rewrite app_nil_r in Hw. fold w in Hw. rewrite Hw. cbn [holds]. rewrite (rep_vec r x Hr). split.
    - intros [? [(v' & y & [= <-] & [= <-] & ?) _]]. done.
    - intros [? ?]. split; [done|]. split; [|done]. by exists v, (load_min_score m opts). }
  destruct (answered_rows (fun r => similarity (c_vec r) v) (fun x => similarity (m_vec x) v) tb tb' _ _ tr o
    ltac:(intros r x Hr; cbn beta; by rewrite (rep_vec r x Hr)) (Forall2_take _ _ _ (Z.to_nat (load_limit m opts)) HF) Hx Htb) as (-> & es & -> & Hkeep).
  split; [done|]. intros es' [= <-]. exists now, l'. destruct Hm as [Hnd _]. rewrite <- Hk in Hnd. split; [done|]. rewrite Hq. exists v.
  destruct (matched_keys l l' HF) as [Hu _]. rewrite <- Hu. done.
Qed.

Lemma load_step m tb sp ranged scope query opts tr o tb' :
  represents tb sp -> ranged ≡ₚ map_to_list (ScopeMetadata scope) -> call_ok (CLoad scope query opts) ->
  texec (perform_call m ranged (CLoad scope query opts)) tr o -> reacts_all tb tr tb' ->
  exists sp', spec_step m sp (CLoad scope query opts) o sp' /\ represents tb' sp'.
Proof.
  intros Hrep Hp [Hc _] Hx Htb. apply ScopeMetadata_clean in Hc. cbn [call_scope] in Hc. cbn [perform_call] in Hx.
  apply texec_bind_inv in Hx as (t1 & t2 & r & -> & Hx & H2). apply texec_ret_inv in H2 as [-> ->]. rewrite app_nil_r in Htb.
  exists sp. cbn [spec_step].
  cut (tb' = tb /\ forall es, r = inr es -> loads m sp scope query opts es); [intros [-> Hl]; split; [destruct r; auto|done]|].
  unfold Load in Hx. cbv zeta in Hx. destruct (String.eqb (TrimSpace query) "") eqn:Eq; cbn [negb] in Hx.
  - apply texec_do_inv in Hx as (a & t & -> & Hx). cbn [reacts_all] in Htb. destruct Htb as (tb1 & Ha & Htb).
    assert (tb1 = tb) as -> by apply Ha. by eapply load_recent.
  - apply texec_do_inv in Hx as (vec & t & -> & Hx). cbn [reacts_all reacts] in Htb. destruct Htb as (tb1 & -> & Htb).
    destruct vec as [err|v]; [apply texec_ret_inv in Hx as [-> ->]; by split|].
    apply texec_do_inv in Hx as (a & t3 & -> & Hx). cbn [reacts_all] in Htb. destruct Htb as (tb1 & Ha & Htb).
    assert (tb1 = tb) as -> by apply Ha. by eapply load_near.
Qed.

(** Deleting rows deletes the memories that are seen. *)
Lemma deleted_rep tb sp scope ranged tb' :
  represents tb sp -> ranged ≡ₚ map_to_list (ScopeMetadata scope) -> clean_tags (ScopeMetadata scope) ->
  let w := buildScopeArgs ranged [] 1 in deleted tb (Delete w.1) w.2 tb' ->
  exists sp', clears sp scope sp' /\ represents tb' sp'.
Proof.
  intros Hrep Hp Hc w Hd.
  assert (Hw : forall r x, rep r x -> Forall (holds w.2 0 r) w.1 <-> ScopeMetadata scope ⊆ m_scope x).
  { intros r x Hr. pose proof (build_hold 0 r [] ranged [] 0 [] eq_refl) as H. cbv zeta in H. cbn [app] in H. rewrite app_nil_r in H.
    fold w in H. rewrite H, (seen r x scope ranged) by done. split; [by intros [? _]|intros ?; split; [done|by left]]. }
  exists (filter (fun kv => ~ (ScopeMetadata scope ⊆ m_scope kv.2)) sp). split.
  - intros id x. by rewrite map_lookup_filter_Some.
  - intros id. destruct (tb' !! id) as [r|] eqn:E'.
    + apply Hd in E' as [E Hn]. destruct (rep_some tb sp id r Hrep E) as (x & Hx & Hr).
      assert (filter (fun kv : string * mem => ~ (ScopeMetadata scope ⊆ m_scope kv.2)) sp !! id = Some x) as ->; [|done].
      apply map_lookup_filter_Some. split; [done|]. cbn [snd]. by rewrite <- (Hw r x Hr).
    + destruct (filter _ sp !! id) as [x|] eqn:Ex; [|done]. apply map_lookup_filter_Some in Ex as [Hx Hn]. cbn [snd] in Hn.
      destruct (rep_some' tb sp id x Hrep Hx) as (r & Er & Hr). rewrite <- (Hw r x Hr) in Hn.
      assert (tb' !! id = Some r) by (apply Hd; done). congruence.
Qed.

Lemma pg_clear_step m tb sp ranged scope tr o tb' :
  represents tb sp -> ranged ≡ₚ map_to_list (ScopeMetadata scope) -> call_ok (CClear scope) ->
  texec (perform_call m ranged (CClear scope)) tr o -> reacts_all tb tr tb' ->
  exists sp', spec_step m sp (CClear scope) o sp' /\ represents tb' sp'.
Proof.
  intros Hrep Hp [Hc _] Hx Htb. apply ScopeMetadata_clean in Hc. cbn [call_scope] in Hc. cbn [perform_call] in Hx.
  apply texec_bind_inv in Hx as (t1 & t2 & e & -> & Hx & H2). apply texec_ret_inv in H2 as [-> ->]. rewrite app_nil_r in Htb.
  cbn [spec_step]. destruct ranged as [|kv ranged']; cbn [Clear] in Hx.
  - apply texec_ret_inv in Hx as [-> ->]. cbn in Htb. subst tb'. exists sp. by split; [left|].
  - assert (Hne : ScopeMetadata scope <> ∅).
    { intros He. rewrite He, map_to_list_empty in Hp. by apply Permutation_nil_r in Hp. }
    set (rg := kv :: ranged') in *. clearbody rg.
    apply texec_do_inv in Hx as (a & t & -> & Hx). apply texec_ret_inv in Hx as [-> ->].
    cbn [reacts_all reacts] in Htb. destruct Htb as (tb1 & Ha & Heq). subst tb1. destruct a as [err|]; [destruct Ha as [->|Ha]|].
    + exists sp. by split; [left|].
    + destruct (deleted_rep tb sp scope rg tb' Hrep Hp Hc Ha) as (sp' & ? & ?). exists sp'. split; [right|]; done.
    + destruct (deleted_rep tb sp scope rg tb' Hrep Hp Hc Ha) as (sp' & ? & ?). by exists sp'.
Qed.

Lemma serves_refined m h : forall tb sp tb',
  represents tb sp -> Forall (fun c => call_ok c.1) h -> serves m tb h tb' ->
  exists sp', spec_serves m sp h sp' /\ represents tb' sp'.
Proof.
  intros tb sp tb' Hrep Hok Hs. revert sp Hrep Hok.
  induction Hs as [tb|tb ranged c tr o tb1 h tb2 Hp Hx Htb Hs IH]; intros sp Hrep Hok; [exists sp; by split; [constructor|]|].
  apply Forall_cons in Hok as [Hc Hok]. cbn [fst] in Hc.
  assert (exists sp1, spec_step m sp c o sp1 /\ represents tb1 sp1) as (sp1 & Hstep & Hrep1).
  { destruct c; cbn [call_scope] in Hp; [by eapply store_step|by eapply load_step|by eapply pg_clear_step]. }
  destruct (IH sp1 Hrep1 Hok) as (sp2 & ? & ?). exists sp2. split; [|done]. by econstructor.
Qed.
End server.

(** C22: The PostgreSQL memory backend, against a server that does what its statements mean: every
    history of Store, Load and Clear, with whatever failures, in which the keys of scope tags are not empty and contain no equals
    sign and the metadata of records is JSON that reads back ([call_ok]), answers as a map from IDs to memories in which each
    memory has the attributes of the scope it was stored in last.  A Load gives the memories whose attributes
    extend those of its scope, of the kinds asked for, not expired, the most recent or the most similar first, cut to the
    limit, each with its own text, kind, scope and metadata; a Clear with a scope removes exactly what that scope sees
    and never everything; a Store with an ID replaces the memory of that ID, whatever scope that memory was in, which it
    takes over for its own scope with the creation time kept.  So a scope sees only what was stored under attributes that
    extend it, but it is not protected from a Store in another scope that names its IDs. *)
Theorem pg_memory_refines distance canon m h tb :
  Forall (fun c => call_ok c.1) h -> serves distance canon m ∅ h tb ->
  exists sp, spec_serves distance canon m ∅ h sp /\ represents tb sp.
Proof. intros Hok Hs. eapply serves_refined; [|done|done]. intros id. by rewrite !lookup_empty. Qed.
End PgFacts.
