(* ===== verification/Providers.v ===== *)
(** The model clients ([pkg/llm]): configuration and classified errors ([config.go], [error.go]),
    and, per provider, the request that is built from a conversation, what is read from the
    response, and the adapter of its stream.  The vendors' SDKs are effects: their requests and
    responses are data, their stream accumulators parameters. *)
From S2P Require Import Prelude GoLib Types Codec Prog JsonText JsonCodec Sanitize MemoryConfig MemoryPg Effects.

#[local] Open Scope string_scope.
#[local] Open Scope list_scope.
#[local] Open Scope Z_scope.

(** ** Configuration and errors *)

Module Llm.

(** [LLMConfig], without logger and log level. *)
Record LLMConfig := { g_APIKey : string; g_Model : string; g_BaseURL : string; g_PromptCaching : option bool }.

Inductive Option_ :=
| WithAPIKey (apiKey : string)
| WithModel (model : string)
| WithBaseURL (baseURL : string)
| WithPromptCaching (enabled : bool).

Definition apply_option (c : LLMConfig) (o : Option_) : LLMConfig :=
  match o with
  | WithAPIKey s => {| g_APIKey := s; g_Model := g_Model c; g_BaseURL := g_BaseURL c; g_PromptCaching := g_PromptCaching c |}
  | WithModel s => {| g_APIKey := g_APIKey c; g_Model := s; g_BaseURL := g_BaseURL c; g_PromptCaching := g_PromptCaching c |}
  | WithBaseURL s => {| g_APIKey := g_APIKey c; g_Model := g_Model c; g_BaseURL := s; g_PromptCaching := g_PromptCaching c |}
  | WithPromptCaching b => {| g_APIKey := g_APIKey c; g_Model := g_Model c; g_BaseURL := g_BaseURL c; g_PromptCaching := Some b |}
  end.

Definition BuildConfigKeyless (opts : list Option_) : LLMConfig :=
  fold_left apply_option opts {| g_APIKey := ""; g_Model := ""; g_BaseURL := ""; g_PromptCaching := None |}.

Definition BuildConfig (opts : list Option_) : result LLMConfig :=
  let c := BuildConfigKeyless opts in
  if String.eqb (g_APIKey c) "" then inl (errors_New "APIKey is required") else inr c.

Definition with_base_url (c : LLMConfig) (url : string) : LLMConfig :=
  {| g_APIKey := g_APIKey c; g_Model := g_Model c; g_BaseURL := url; g_PromptCaching := g_PromptCaching c |}.

Definition DefaultMaxTokens : Z := 1024.

Definition LLMReasonUnknown : string := "unknown".
Definition LLMReasonRateLimit : string := "rate_limit".
Definition LLMReasonContextExceeded : string := "context_exceeded".
Definition LLMReasonProvider : string := "provider".

Record LLMError := { le_Reason : string; le_StatusCode : Z; le_RetryAfter : Duration; le_Err : error }.

Definition LLMError_Error (e : LLMError) : string := "llm: " +:+ le_Reason e +:+ ": " +:+ err_msg (le_Err e).

(** What the SDKs' error types carry; [ae_RetryAfter] is what [RetryAfterFromResponse] reads. *)
Record api_error := { ae_StatusCode : Z; ae_RetryAfter : Duration; ae_Type : string; ae_Code : string; ae_Message : string }.

(** An error of an SDK: whether its [Error] method panics, an [LLMError] or an API error in its chain. *)
Record vendor_error := { ve_error : error; ve_panics : bool; ve_LLM : option LLMError; ve_API : option api_error }.

Definition safeErrorString (err : vendor_error) : string := if ve_panics err then "" else err_msg (ve_error err).

Definition nonEmpty (vals : list string) : list string := List.filter (fun v => negb (String.eqb v "")) vals.

Definition isContextExceeded (msg : string) : bool :=
  existsb (Contains msg)
    ["context_length"; "context length"; "maximum context"; "max context"; "too many tokens"; "token limit";
     "prompt is too long"; "prompt too long"; "exceeds the context"].

Definition classifyReason (status : Z) (msg : string) : string :=
  if (status =? 429) || Contains msg "rate_limit" || Contains msg "too many requests" then LLMReasonRateLimit
  else if isContextExceeded msg then LLMReasonContextExceeded
  else if 400 <=? status then LLMReasonProvider
  else LLMReasonUnknown.

(** The error a client returns: one that was classified before, or a new one. *)
Inductive client_error := Unchanged (err : vendor_error) | Classified (e : LLMError).

Definition Classify (err : vendor_error) (status : Z) (retryAfter : Duration) (extras : list string) : client_error :=
  match ve_LLM err with
  | Some _ => Unchanged err
  | None =>
      let msg := ToLower (Join " " (nonEmpty extras)) in
      let msg := if String.eqb msg "" then ToLower (safeErrorString err) else msg in
      Classified {| le_Reason := classifyReason status msg; le_StatusCode := status; le_RetryAfter := retryAfter; le_Err := ve_error err |}
  end.

(** As a Go error. *)
Definition as_error (e : client_error) : error :=
  match e with
  | Unchanged err => ve_error err
  | Classified e => {| err_msg := LLMError_Error e; err_chain := err_chain (le_Err e); err_budget := err_budget (le_Err e) |}
  end.

(** What [errors.As] finds. *)
Definition as_LLMError (e : client_error) : option LLMError :=
  match e with Unchanged err => ve_LLM err | Classified e => Some e end.

(** ** Parts that several clients have in common *)

(** [strings.TrimSpace(name)], ["tool"] when nothing is left. *)
Definition tool_name (name : string) : string := let name := TrimSpace name in if String.eqb name "" then "tool" else name.

(** [json.Unmarshal] into an [any] whose error is ignored: a number out of range is left nil. *)
Fixpoint lenient (j : json) : value :=
  match j with
  | JNull => VNull
  | JBool b => VBool b
  | JNum lit => match read_float lit with Some x => VNum x | None => VNull end
  | JStr s => VStr s
  | JArr l => VArr (map lenient l)
  | JObj l => VObj (fold_left (fun m kv => put_key kv.1 kv.2 m) (map (fun kv => (kv.1, lenient kv.2)) l) [])
  end.

(** [_ = json.Unmarshal(text, &args)] into an empty map. *)
Definition unmarshal_args (text : string) : Args :=
  match parse text with
  | Some (JObj es) => fold_left (fun (m : Args) kv => <[kv.1 := lenient kv.2]> m) es ∅
  | _ => ∅
  end.

(** [argsBytes, _ := json.Marshal(args)], ["{}"] when there are none. *)
Definition args_text (a : Args) : string := default "{}" (Json.marshal_args a).

Definition obj_get (k : string) (l : list (string * value)) : option value :=
  snd <$> find (fun kv => String.eqb kv.1 k) l.

Definition has_schema (rf : ResponseFormat) : bool := match rf_Schema rf with VObj (_ :: _) => true | _ => false end.

Definition ResponseFormatJSON : string := "json".
Definition ResponseFormatText : string := "text".

(** The loop over the history of the clients that take the results of a round in one message:
    [results] are those of the tool messages directly before. *)
Fixpoint merge {W P} (result : Message -> P) (wrap : list P -> list W) (plain : Message -> list W)
    (results : list P) (messages : list Message) : list W :=
  match messages with
  | [] => match results with [] => [] | _ => wrap results end
  | m :: messages =>
      if String.eqb (m_Role m) "tool" then merge result wrap plain (results ++ [result m]) messages
      else match results with [] => [] | _ => wrap results end ++ plain m ++ merge result wrap plain [] messages
  end.

(** The empty object schema of a tool without parameters. *)
Definition empty_schema : value := VObj [("properties", VObj []); ("type", VStr "object")].
End Llm.

(** ** Requests and responses of the SDKs *)

Module Wire.
Import Llm.

(** *** Chat completions, as OpenAI, DeepSeek and Ollama take them *)

Record chat_call := { cc_ID : string; cc_Name : string; cc_Arguments : string }.

Inductive chat_message :=
| DeveloperMessage (text : string)
| SystemMessage (text : string)
| UserMessage (text : string)
| AssistantMessage (text : string) (calls : list chat_call)
| ToolMessage (text id : string).

Inductive chat_format :=
| FormatUnset
| FormatText
| FormatJSONObject
| FormatJSONSchema (name : string) (schema : value).

Record chat_tool := { ct_Name : string; ct_Description : string; ct_Parameters : value }.

Record chat_params := {
  cp_Messages : list chat_message; cp_Model : string; cp_Temperature : option f64; cp_MaxTokens : option Z; cp_TopP : option f64;
  cp_Tools : list chat_tool; cp_ToolChoice : option string; cp_ResponseFormat : chat_format; cp_ReasoningEffort : option string;
  cp_IncludeUsage : bool }.

Record chat_usage := {
  cu_PromptTokens : Z; cu_CompletionTokens : Z; cu_TotalTokens : Z; cu_CachedTokens : Z; cu_ReasoningTokens : Z }.

(** A choice; [ch_Reasoning] is the raw text of the extra field [reasoning_content]. *)
Record chat_choice := { ch_Content : string; ch_ToolCalls : list chat_call; ch_Reasoning : option string }.
Record chat_completion := { cm_Model : string; cm_Choices : list chat_choice; cm_Usage : chat_usage }.

(** A chunk of a stream: the content and raw reasoning of its first delta, if any. *)
Record chat_chunk := { ck_Delta : option (string * option string); ck_Rest : chat_completion }.

(** *** Messages, as Anthropic takes them; the flag is the mark of a cache breakpoint *)

Inductive block :=
| TextBlock (text : string) (cached : bool)
| ToolUseBlock (id name : string) (input : Args) (cached : bool)
| ToolResultBlock (id content : string) (cached : bool).

Record message_param := { mp_Role : string; mp_Content : list block }.

Record tool_schema := { is_Properties : value; is_Required : list string }.
Record anthropic_tool := { at_Name : string; at_Description : string; at_InputSchema : tool_schema; at_Cached : bool }.

Record anthropic_params := {
  ap_Messages : list message_param; ap_Model : string; ap_MaxTokens : Z; ap_Temperature : option f64; ap_TopK : option Z;
  ap_System : list (string * bool); ap_Tools : list anthropic_tool; ap_ToolChoiceAuto : bool; ap_OutputSchema : option value;
  ap_Thinking : option Z }.

(** A content block of the answer: its type, text, ID, name and raw input. *)
Record content_block := { cb_Type : string; cb_Text : string; cb_ID : string; cb_Name : string; cb_Input : string }.
Record anthropic_usage := { au_InputTokens : Z; au_OutputTokens : Z; au_CacheReadInputTokens : Z }.
Record anthropic_message := {
  am_Content : list content_block; am_Model : string; am_StopReason : string; am_Usage : anthropic_usage }.

Inductive anthropic_delta := TextDelta (text : string) | ThinkingDelta (text : string) | OtherEvent.

(** *** Contents, as Gemini takes them *)

Record function_call := { fc_ID : string; fc_Name : string; fc_Args : option Args }.
Record function_response := { fr_ID : string; fr_Name : string; fr_Response : Args }.

Inductive part :=
| TextPart (text : string)
| CallPart (call : function_call)
| ResponsePart (response : function_response).

Record content := { ct_Role : string; ct_Parts : list part }.

Record thinking_config := { tc_Budget : option Z; tc_Level : option string }.
Record function_declaration := { fd_Name : string; fd_Description : string; fd_Parameters : value }.

Record gemini_config := {
  gc_System : option string; gc_MaxOutputTokens : Z; gc_Temperature : option f64; gc_TopP : option f64; gc_TopK : option f64;
  gc_Tools : list function_declaration; gc_ModeAuto : bool; gc_JSONSchema : option value; gc_Thinking : option thinking_config }.

Record gemini_usage := {
  gu_Prompt : Z; gu_Candidates : Z; gu_Total : Z; gu_Cached : Z; gu_Thoughts : Z }.

(** A part of an answer; a candidate may have no content. *)
Record answer_part := { pt_Text : string; pt_Thought : bool }.
Record candidate := { cd_Parts : option (list (option answer_part)); cd_FinishReason : string }.

(** [gr_FunctionCalls] is what [resp.FunctionCalls()] gives. *)
Record gemini_response := {
  gr_Candidates : list candidate; gr_FunctionCalls : list (option function_call); gr_Usage : option gemini_usage;
  gr_ModelVersion : string }.
End Wire.

(** ** The calls to the SDKs *)

Module Sdk.
Import Llm Wire.

Inductive SdkOp :=
| SSched
| SChat (params : chat_params)
| SChatStream (params : chat_params)
| SMessages (params : anthropic_params)
| SMessagesStream (params : anthropic_params)
| SContent (model : string) (contents : list content) (config : gemini_config)
| SContentStream (model : string) (contents : list content) (config : gemini_config).

(** A stream gives its chunks and then its error, if any; Gemini's errors come with the items. *)
Definition SdkAns (event : Type) (o : SdkOp) : Type :=
  match o with
  | SSched => bool
  | SChat _ => vendor_error + chat_completion
  | SChatStream _ => list chat_chunk * option vendor_error
  | SMessages _ => vendor_error + anthropic_message
  | SMessagesStream _ => list event * option vendor_error
  | SContent _ _ _ => vendor_error + gemini_response
  | SContentStream _ _ _ => list (option gemini_response * option vendor_error)
  end.

(** A client ends a call with a response or an error; [None]: it panics. *)
Definition outcome : Type := option (client_error + LLMResponse).
End Sdk.

(** ** Clients of chat completions *)

Module Chat.
Import Llm Wire Sdk.

Section calls.
Context {event : Type}.

Definition sdk_sig : Sig := {| op := SdkOp; ans := SdkAns event; sched := SSched; sched_ans := id |}.
Definition scall (o : SdkOp) : prog (S := sdk_sig) (SdkAns event o) := perform (S := sdk_sig) o.
End calls.

(** *** What the three clients share *)

Definition wrapLLM (err : vendor_error) : client_error :=
  match ve_API err with
  | Some api => Classify err (ae_StatusCode api) (ae_RetryAfter api) [ae_Type api; ae_Code api; ae_Message api]
  | None => Classify err 0 0 []
  end.

(** A call of the model in the history; a nil call panics. *)
Definition call_param (tc : option ToolCall) : option chat_call :=
  tc ← tc; Some {| cc_ID := c_ToolCallID tc; cc_Name := tool_name (c_ToolName tc); cc_Arguments := args_text (c_Args tc) |}.

(** A message; one of another role is left out. *)
Definition message_param_of (m : Message) : option (list chat_message) :=
  if String.eqb (m_Role m) "user" then Some [UserMessage (m_Content m)]
  else if String.eqb (m_Role m) "assistant" then
    match m_ToolCalls m with
    | [] => Some [AssistantMessage (m_Content m) []]
    | calls => calls ← mapM call_param calls; Some [AssistantMessage (m_Content m) calls]
    end
  else if String.eqb (m_Role m) "tool" then Some [ToolMessage (m_Content m) (m_ToolCallID m)]
  else Some [].

Definition messages_with (system : string -> chat_message) (req : LLMRequest) : option (list chat_message) :=
  ms ← mapM message_param_of (q_Messages req);
  Some ((if String.eqb (q_SystemMessage req) "" then [] else [system (q_SystemMessage req)]) ++ concat ms).

Definition tools_param (specs : list ToolSpec) : list chat_tool :=
  map (fun s => {| ct_Name := ts_Name s; ct_Description := ts_Description s;
                   ct_Parameters := match ts_Parameters s with VNull => empty_schema | p => p end |}) specs.

Definition params_with (format : ResponseFormat -> chat_format) (effort : option string) (model : string)
    (messages : list chat_message) (req : LLMRequest) : chat_params :=
  {| cp_Messages := messages; cp_Model := model; cp_Temperature := q_Temperature req;
     cp_MaxTokens := if 0 <? q_MaxTokens req then Some (q_MaxTokens req) else None; cp_TopP := q_TopP req;
     cp_Tools := tools_param (q_Tools req); cp_ToolChoice := match q_Tools req with [] => None | _ => Some "auto" end;
     cp_ResponseFormat := match q_ResponseFormat req with Some rf => format rf | None => FormatUnset end;
     cp_ReasoningEffort := effort; cp_IncludeUsage := false |}.

Definition with_usage (p : chat_params) : chat_params :=
  {| cp_Messages := cp_Messages p; cp_Model := cp_Model p; cp_Temperature := cp_Temperature p; cp_MaxTokens := cp_MaxTokens p;
     cp_TopP := cp_TopP p; cp_Tools := cp_Tools p; cp_ToolChoice := cp_ToolChoice p; cp_ResponseFormat := cp_ResponseFormat p;
     cp_ReasoningEffort := cp_ReasoningEffort p; cp_IncludeUsage := true |}.

(** The calls of the answer; one without a name is left out. *)
Definition calls_of (calls : list chat_call) : list (option ToolCall) :=
  map (fun c => Some {| c_ToolCallID := cc_ID c; c_ToolName := cc_Name c; c_Args := unmarshal_args (cc_Arguments c) |})
      (List.filter (fun c => negb (String.eqb (cc_Name c) "")) calls).

Definition usage_of (u : chat_usage) : option LLMUsage :=
  if (cu_PromptTokens u =? 0) && (cu_CompletionTokens u =? 0) && (cu_TotalTokens u =? 0) then None
  else Some {| u_PromptTokens := cu_PromptTokens u; u_CompletionTokens := cu_CompletionTokens u; u_TotalTokens := cu_TotalTokens u;
               u_CachedPromptTokens := cu_CachedTokens u; u_ReasoningTokens := cu_ReasoningTokens u |}.

(** The first choice; without one the index is out of range. *)
Definition response_with (metadata : chat_choice -> Args) (resp : chat_completion) : option LLMResponse :=
  choice ← head (cm_Choices resp);
  Some {| p_Content := ch_Content choice; p_Metadata := <["model" := VStr (cm_Model resp)]> (metadata choice);
          p_Usage := usage_of (cm_Usage resp); p_ToolCalls := calls_of (ch_ToolCalls choice) |}.

(** The string that the raw text of [reasoning_content] encodes. *)
Definition extractReasoning (raw : option string) : string :=
  match raw with
  | None => ""
  | Some raw => match parse raw with Some (JStr s) => s | _ => "" end
  end.

Section generate.
Context {event : Type}.
Context (messages : LLMRequest -> option (list chat_message)) (build : list chat_message -> LLMRequest -> chat_params).
Context (response : chat_completion -> option LLMResponse).

Definition generate (req : LLMRequest) : prog (S := @sdk_sig event) outcome :=
  match messages req with
  | None => mret None
  | Some ms =>
      r ← scall (SChat (build ms req));
      mret (match r with
            | inl err => Some (inl (wrapLLM err))
            | inr resp => inr <$> response resp
            end)
  end.

(** The adapter, driven to its end: a chunk per [Next] and [Current], then [Err] and
    [GetResult]; [accumulated] is the completion the SDK's accumulator holds. *)
Context (accumulated : list chat_chunk -> chat_completion) (thinking : option string -> string).

Definition current (chunk : chat_chunk) : LLMStreamChunk :=
  match ck_Delta chunk with
  | Some (text, raw) => {| k_ContentDelta := text; k_ThinkingDelta := thinking raw |}
  | None => {| k_ContentDelta := ""; k_ThinkingDelta := "" |}
  end.

Definition get_result (chunks : list chat_chunk) : option LLMResponse :=
  match cm_Choices (accumulated chunks) with
  | [] => None
  | _ => response (accumulated chunks)
  end.

Definition adapter (s : list chat_chunk * option vendor_error) : Stream :=
  {| sm_Chunks := map (fun c => Some (current c)) s.1; sm_Err := (as_error ∘ wrapLLM) <$> s.2; sm_Result := get_result s.1 |}.

Definition generate_stream (req : LLMRequest) : prog (S := @sdk_sig event) (option Stream) :=
  match messages req with
  | None => mret None
  | Some ms => s ← scall (SChatStream (with_usage (build ms req))); mret (Some (adapter s))
  end.
End generate.
End Chat.

Module OpenAI.
Import Llm Wire Sdk Chat.

Definition NewClient (opts : list Option_) : result LLMConfig := BuildConfig opts.

Definition messagesToOpenAI (req : LLMRequest) : option (list chat_message) := messages_with DeveloperMessage req.

Definition openAIReasoningEffort (r : option LLMReasoning) : option string :=
  r ← r; let effort := TrimSpace (r_Effort r) in if String.eqb effort "" then None else Some effort.

Definition responseFormatToOpenAI (rf : ResponseFormat) : chat_format :=
  if String.eqb (rf_Type rf) ResponseFormatText then FormatText
  else if String.eqb (rf_Type rf) ResponseFormatJSON then
    if has_schema rf then FormatJSONSchema (if String.eqb (rf_Name rf) "" then "response" else rf_Name rf) (rf_Schema rf)
    else FormatJSONObject
  else FormatUnset.

Definition buildCompletionParams (c : LLMConfig) (messages : list chat_message) (req : LLMRequest) : chat_params :=
  params_with responseFormatToOpenAI (openAIReasoningEffort (q_Reasoning req)) (g_Model c) messages req.

Definition openAIResponseToLLM (resp : chat_completion) : option LLMResponse := response_with (fun _ => ∅) resp.

Definition Generate {event} (c : LLMConfig) (req : LLMRequest) : prog (S := @sdk_sig event) outcome :=
  generate messagesToOpenAI (buildCompletionParams c) openAIResponseToLLM req.
Definition GenerateStream {event} accumulated (c : LLMConfig) (req : LLMRequest) : prog (S := @sdk_sig event) (option Stream) :=
  generate_stream messagesToOpenAI (buildCompletionParams c) openAIResponseToLLM accumulated (fun _ => "") req.
End OpenAI.

Module DeepSeek.
Import Llm Wire Sdk Chat.

Definition DefaultBaseURL : string := "https://api.deepseek.com".
Definition reasoningContentField : string := "reasoning_content".

Definition NewClient (opts : list Option_) : result LLMConfig :=
  match BuildConfig opts with
  | inl err => inl err
  | inr c => inr (if String.eqb (g_BaseURL c) "" then with_base_url c DefaultBaseURL else c)
  end.

Definition messagesToDeepSeek (req : LLMRequest) : option (list chat_message) := messages_with SystemMessage req.

Definition responseFormatToDeepSeek (rf : ResponseFormat) : chat_format :=
  if String.eqb (rf_Type rf) ResponseFormatText then FormatText
  else if String.eqb (rf_Type rf) ResponseFormatJSON then FormatJSONObject
  else FormatUnset.

Definition buildCompletionParams (c : LLMConfig) (messages : list chat_message) (req : LLMRequest) : chat_params :=
  params_with responseFormatToDeepSeek None (g_Model c) messages req.

Definition reasoning_metadata (choice : chat_choice) : Args :=
  let reasoning := extractReasoning (ch_Reasoning choice) in
  if String.eqb reasoning "" then ∅ else {[ reasoningContentField := VStr reasoning ]}.

Definition deepSeekResponseToLLM (resp : chat_completion) : option LLMResponse := response_with reasoning_metadata resp.

Definition Generate {event} (c : LLMConfig) (req : LLMRequest) : prog (S := @sdk_sig event) outcome :=
  generate messagesToDeepSeek (buildCompletionParams c) deepSeekResponseToLLM req.
Definition GenerateStream {event} accumulated (c : LLMConfig) (req : LLMRequest) : prog (S := @sdk_sig event) (option Stream) :=
  generate_stream messagesToDeepSeek (buildCompletionParams c) deepSeekResponseToLLM accumulated extractReasoning req.
End DeepSeek.

Module Ollama.
Import Llm Wire Sdk Chat.

Definition DefaultBaseURL : string := "http://localhost:11434/v1".
Definition DefaultCloudBaseURL : string := "https://ollama.com/v1".
Definition cloudAPIKeyEnvVar : string := "OLLAMA_API_KEY".
Definition placeholderAPIKey : string := "ollama".
Definition reasoningContentField : string := "reasoning_content".

(** The configuration and the key of the transport; [Getenv] is [os.Getenv]. *)
Definition NewClient (Getenv : string -> string) (opts : list Option_) : LLMConfig * string :=
  let c := BuildConfigKeyless opts in
  let key := if String.eqb (g_APIKey c) "" then Getenv cloudAPIKeyEnvVar else g_APIKey c in
  let url := if String.eqb (g_BaseURL c) "" then if String.eqb key "" then DefaultBaseURL else DefaultCloudBaseURL else g_BaseURL c in
  ({| g_APIKey := key; g_Model := g_Model c; g_BaseURL := url; g_PromptCaching := g_PromptCaching c |},
   if String.eqb key "" then placeholderAPIKey else key).

Definition messagesToOllama (req : LLMRequest) : option (list chat_message) := messages_with SystemMessage req.

Definition responseFormatToOllama (rf : ResponseFormat) : chat_format :=
  if String.eqb (rf_Type rf) ResponseFormatText then FormatText
  else if String.eqb (rf_Type rf) ResponseFormatJSON then FormatJSONObject
  else FormatUnset.

Definition buildCompletionParams (c : LLMConfig) (messages : list chat_message) (req : LLMRequest) : chat_params :=
  params_with responseFormatToOllama None (g_Model c) messages req.

Definition reasoning_metadata (choice : chat_choice) : Args :=
  let reasoning := extractReasoning (ch_Reasoning choice) in
  if String.eqb reasoning "" then ∅ else {[ reasoningContentField := VStr reasoning ]}.

Definition ollamaResponseToLLM (resp : chat_completion) : option LLMResponse := response_with reasoning_metadata resp.

Definition Generate {event} (c : LLMConfig) (req : LLMRequest) : prog (S := @sdk_sig event) outcome :=
  generate messagesToOllama (buildCompletionParams c) ollamaResponseToLLM req.
Definition GenerateStream {event} accumulated (c : LLMConfig) (req : LLMRequest) : prog (S := @sdk_sig event) (option Stream) :=
  generate_stream messagesToOllama (buildCompletionParams c) ollamaResponseToLLM accumulated extractReasoning req.
End Ollama.

Module Anthropic.
Import Llm Wire Sdk Chat.

(** The configuration and whether prompts are cached. *)
Definition NewClient (opts : list Option_) : result (LLMConfig * bool) :=
  match BuildConfig opts with
  | inl err => inl err
  | inr c => inr (c, default false (g_PromptCaching c))
  end.

(** *** Messages *)

Definition user_message (blocks : list block) : message_param := {| mp_Role := "user"; mp_Content := blocks |}.

Definition use_block (tc : option ToolCall) : list block :=
  match tc with
  | None => []
  | Some tc => [ToolUseBlock (c_ToolCallID tc) (tool_name (c_ToolName tc)) (c_Args tc) false]
  end.

Definition assistant_blocks (m : Message) : list block :=
  (if String.eqb (m_Content m) "" then [] else [TextBlock (m_Content m) false]) ++ flat_map use_block (m_ToolCalls m).

Definition plain_message (m : Message) : list message_param :=
  if String.eqb (m_Role m) "user" then [user_message [TextBlock (m_Content m) false]]
  else if String.eqb (m_Role m) "assistant" then
    match assistant_blocks m with
    | [] => []
    | blocks => [{| mp_Role := "assistant"; mp_Content := blocks |}]
    end
  else [].

Definition result_block (m : Message) : block := ToolResultBlock (m_ToolCallID m) (m_Content m) false.

Definition convert (messages : list Message) : list message_param :=
  merge result_block (fun results => [user_message results]) plain_message [] messages.

Definition convertToAnthropicMessages (messages : list Message) : list message_param :=
  match messages with
  | [] => [user_message [TextBlock "" false]]
  | _ => convert messages
  end.

Definition setCacheControl (b : block) : block :=
  match b with
  | TextBlock text _ => TextBlock text true
  | ToolUseBlock id name input _ => ToolUseBlock id name input true
  | ToolResultBlock id content _ => ToolResultBlock id content true
  end.

(** The last block of the message before the last one. *)
Definition mark_last (m : message_param) : message_param :=
  {| mp_Role := mp_Role m; mp_Content := alter setCacheControl (pred (length (mp_Content m))) (mp_Content m) |}.
Definition markStableMessageForCaching (messages : list message_param) : list message_param :=
  if (length messages <? 2)%nat then messages else alter mark_last (length messages - 2)%nat messages.

Definition messagesToAnthropic (promptCaching : bool) (req : LLMRequest) : list message_param :=
  let out := convertToAnthropicMessages (q_Messages req) in
  if promptCaching then markStableMessageForCaching out else out.

(** *** Requests *)

(** Of a schema only the properties and the required names are kept. *)
Definition toolInputSchema (params : value) : tool_schema :=
  match params with
  | VObj l =>
      {| is_Properties := match obj_get "properties" l with Some (VObj p) => VObj p | _ => VObj [] end;
         is_Required := match obj_get "required" l with
                        | Some (VArr r) => flat_map (fun v => match v with VStr s => [s] | _ => [] end) r
                        | _ => []
                        end |}
  | _ => {| is_Properties := VObj []; is_Required := [] |}
  end.

(** The last tool carries the breakpoint. *)
Fixpoint toolsToAnthropic (promptCaching : bool) (specs : list ToolSpec) : list anthropic_tool :=
  match specs with
  | [] => []
  | s :: specs =>
      {| at_Name := ts_Name s; at_Description := ts_Description s; at_InputSchema := toolInputSchema (ts_Parameters s);
         at_Cached := promptCaching && match specs with [] => true | _ => false end |} :: toolsToAnthropic promptCaching specs
  end.

Definition anthropicThinkingBudget (r : option LLMReasoning) : option Z :=
  r ← r;
  if 0 <? r_BudgetTokens r then Some (if r_BudgetTokens r <? 1024 then 1024 else r_BudgetTokens r)
  else if r_Enabled r then Some 1024
  else None.

Definition responseFormatToAnthropic (rf : ResponseFormat) : option value :=
  if String.eqb (rf_Type rf) ResponseFormatJSON && has_schema rf then Some (rf_Schema rf) else None.

Definition buildMessageParams (c : LLMConfig) (promptCaching : bool) (messages : list message_param) (req : LLMRequest) : anthropic_params :=
  {| ap_Messages := messages; ap_Model := g_Model c;
     ap_MaxTokens := if 0 <? q_MaxTokens req then q_MaxTokens req else DefaultMaxTokens;
     ap_Temperature := q_Temperature req; ap_TopK := q_TopK req;
     ap_System := if String.eqb (q_SystemMessage req) "" then [] else [(q_SystemMessage req, promptCaching)];
     ap_Tools := toolsToAnthropic promptCaching (q_Tools req);
     ap_ToolChoiceAuto := match q_Tools req with [] => false | _ => true end;
     ap_OutputSchema := rf ← q_ResponseFormat req; responseFormatToAnthropic rf;
     ap_Thinking := anthropicThinkingBudget (q_Reasoning req) |}.

(** *** Responses *)

Definition block_text (b : content_block) : string := if String.eqb (cb_Type b) "text" then cb_Text b else "".
Definition block_call (b : content_block) : list (option ToolCall) :=
  if String.eqb (cb_Type b) "tool_use" then
    [Some {| c_ToolCallID := cb_ID b; c_ToolName := cb_Name b; c_Args := unmarshal_args (cb_Input b) |}]
  else [].

Definition extractContentAndToolCalls (blocks : list content_block) : string * list (option ToolCall) :=
  (foldr (fun b s => block_text b +:+ s) "" blocks, flat_map block_call blocks).

Definition anthropicUsageToLLM (u : anthropic_usage) : option LLMUsage :=
  if (au_InputTokens u =? 0) && (au_OutputTokens u =? 0) then None
  else Some {| u_PromptTokens := au_InputTokens u; u_CompletionTokens := au_OutputTokens u;
               u_TotalTokens := wrap64 (au_InputTokens u + au_OutputTokens u);
               u_CachedPromptTokens := au_CacheReadInputTokens u; u_ReasoningTokens := 0 |}.

Definition response_of (msg : anthropic_message) : LLMResponse :=
  let r := extractContentAndToolCalls (am_Content msg) in
  {| p_Content := r.1; p_ToolCalls := r.2; p_Usage := anthropicUsageToLLM (am_Usage msg);
     p_Metadata := {[ "model" := VStr (am_Model msg); "stop_reason" := VStr (am_StopReason msg) ]} |}.

Definition wrapLLM (err : vendor_error) : client_error :=
  match ve_API err with
  | Some api => Classify err (ae_StatusCode api) (ae_RetryAfter api) [ae_Type api]
  | None => Classify err 0 0 []
  end.

Section client.
Context {event : Type} (c : LLMConfig) (promptCaching : bool).

Definition Generate (req : LLMRequest) : prog (S := @sdk_sig event) outcome :=
  r ← scall (SMessages (buildMessageParams c promptCaching (messagesToAnthropic promptCaching req) req));
  mret (Some (match r with
              | inl err => inl (wrapLLM err)
              | inr msg => inr (response_of msg)
              end)).

(** [accumulate] is [acc.Accumulate], with whether it succeeds, [delta_of] what the type
    switches of the event find. *)
Context (accumulate : anthropic_message -> event -> anthropic_message * bool) (delta_of : event -> anthropic_delta).

Definition current (acc : anthropic_message) (ev : event) : LLMStreamChunk * anthropic_message :=
  let r := accumulate acc ev in
  let empty := {| k_ContentDelta := ""; k_ThinkingDelta := "" |} in
  (if r.2 then match delta_of ev with
               | TextDelta text => {| k_ContentDelta := text; k_ThinkingDelta := "" |}
               | ThinkingDelta text => {| k_ContentDelta := ""; k_ThinkingDelta := text |}
               | OtherEvent => empty
               end
   else empty, r.1).

(** The adapter, driven to its end. *)
Fixpoint drain (acc : anthropic_message) (events : list event) : list (option LLMStreamChunk) * anthropic_message :=
  match events with
  | [] => ([], acc)
  | ev :: events => let r := current acc ev in let s := drain r.2 events in (Some r.1 :: s.1, s.2)
  end.

Definition empty_message : anthropic_message :=
  {| am_Content := []; am_Model := ""; am_StopReason := "";
     am_Usage := {| au_InputTokens := 0; au_OutputTokens := 0; au_CacheReadInputTokens := 0 |} |}.

Definition adapter (s : list event * option vendor_error) : Stream :=
  let r := drain empty_message s.1 in
  {| sm_Chunks := r.1; sm_Err := (as_error ∘ wrapLLM) <$> s.2; sm_Result := Some (response_of r.2) |}.

Definition GenerateStream (req : LLMRequest) : prog (S := @sdk_sig event) Stream :=
  s ← scall (SMessagesStream (buildMessageParams c promptCaching (messagesToAnthropic promptCaching req) req));
  mret (adapter s).
End client.
End Anthropic.

Module Gemini.
Import Llm Wire Sdk Chat.

(** [int32(n)] *)
Definition wrap32 (z : Z) : Z := (z + 2147483648) mod 4294967296 - 2147483648.

(** [connect] is [genai.NewClient]. *)
Definition NewClient (connect : LLMConfig -> option error) (opts : list Option_) : result LLMConfig :=
  match BuildConfig opts with
  | inl err => inl err
  | inr c => match connect c with Some err => inl err | None => inr c end
  end.

(** *** Messages *)

(** The content of a tool message as a JSON object, or wrapped. *)
Definition parseToolResponse (content : string) : Args :=
  let wrapped : Args := {[ "result" := VStr content ]} in
  match parse content with
  | Some j => match j, c_dec (A := Args) ∅ j with
              | JNull, _ => wrapped
              | _, Some m => m
              | _, None => wrapped
              end
  | None => wrapped
  end.

Definition text_content (role text : string) : content := {| ct_Role := role; ct_Parts := [TextPart text] |}.

Definition call_part (tc : option ToolCall) : list part :=
  match tc with
  | None => []
  | Some tc => [CallPart {| fc_ID := ""; fc_Name := c_ToolName tc; fc_Args := Some (c_Args tc) |}]
  end.

Definition assistant_parts (m : Message) : list part :=
  (if String.eqb (m_Content m) "" then [] else [TextPart (m_Content m)]) ++ flat_map call_part (m_ToolCalls m).

Definition plain_content (m : Message) : list content :=
  if String.eqb (m_Role m) "user" then [text_content "user" (m_Content m)]
  else if String.eqb (m_Role m) "assistant" then
    match assistant_parts m with
    | [] => []
    | parts => [{| ct_Role := "model"; ct_Parts := parts |}]
    end
  else [].

Definition tool_part (m : Message) : part :=
  ResponsePart {| fr_ID := m_ToolCallID m; fr_Name := tool_name (m_ToolName m); fr_Response := parseToolResponse (m_Content m) |}.

Definition responses_content (parts : list part) : content := {| ct_Role := "user"; ct_Parts := parts |}.

Definition convert (messages : list Message) : list content :=
  merge tool_part (fun parts => [responses_content parts]) plain_content [] messages.

Definition messagesToGemini (req : LLMRequest) : list content :=
  match q_Messages req with
  | [] => [text_content "user" ""]
  | messages => convert messages
  end.

(** *** Requests *)

Definition toolsToGemini (specs : list ToolSpec) : list function_declaration :=
  map (fun s => {| fd_Name := ts_Name s; fd_Description := ts_Description s;
                   fd_Parameters := match ts_Parameters s with VNull => VObj [] | p => p end |}) specs.

Definition geminiThinkingLevelFromEffort (effort : string) : string :=
  let e := ToLower (TrimSpace effort) in
  if String.eqb e "low" then "LOW"
  else if String.eqb e "medium" then "MEDIUM"
  else if String.eqb e "high" then "HIGH"
  else if String.eqb e "minimal" then "MINIMAL"
  else "".

Definition geminiThinkingConfig (r : option LLMReasoning) : option thinking_config :=
  r ← r;
  if r_Enabled r || (0 <? r_BudgetTokens r) || negb (String.eqb (TrimSpace (r_Effort r)) "") then
    if 0 <? r_BudgetTokens r then Some {| tc_Budget := Some (wrap32 (r_BudgetTokens r)); tc_Level := None |}
    else let lvl := geminiThinkingLevelFromEffort (r_Effort r) in
         Some {| tc_Budget := None; tc_Level := if String.eqb lvl "" then None else Some lvl |}
  else None.

Definition applyResponseFormat (rf : ResponseFormat) : option value :=
  if String.eqb (rf_Type rf) ResponseFormatJSON && has_schema rf then Some (rf_Schema rf) else None.

Definition buildConfig (req : LLMRequest) : gemini_config :=
  {| gc_System := if String.eqb (q_SystemMessage req) "" then None else Some (q_SystemMessage req);
     gc_MaxOutputTokens := if 0 <? q_MaxTokens req then wrap32 (q_MaxTokens req) else DefaultMaxTokens;
     gc_Temperature := Pg.float32 <$> q_Temperature req; gc_TopP := Pg.float32 <$> q_TopP req;
     gc_TopK := f32_of_Z <$> q_TopK req;
     gc_Tools := toolsToGemini (q_Tools req); gc_ModeAuto := match q_Tools req with [] => false | _ => true end;
     gc_JSONSchema := rf ← q_ResponseFormat req; applyResponseFormat rf;
     gc_Thinking := geminiThinkingConfig (q_Reasoning req) |}.

(** *** Responses *)

Definition part_text (p : option answer_part) : list string :=
  match p with
  | Some p => if negb (String.eqb (pt_Text p) "") && negb (pt_Thought p) then [pt_Text p] else []
  | None => []
  end.

Definition geminiResponseText (resp : gemini_response) : string :=
  match gr_Candidates resp with
  | {| cd_Parts := Some parts |} :: _ => Join "" (flat_map part_text parts)
  | _ => ""
  end.

Definition geminiToolCallsToInterface (calls : list (option function_call)) : list (option ToolCall) :=
  flat_map (fun fc => match fc with
                      | Some fc => if String.eqb (fc_Name fc) "" then []
                                   else [Some {| c_ToolCallID := fc_ID fc; c_ToolName := fc_Name fc; c_Args := default ∅ (fc_Args fc) |}]
                      | None => []
                      end) calls.

Definition geminiUsageMetadataToLLM (um : option gemini_usage) : option LLMUsage :=
  um ← um;
  if (gu_Prompt um =? 0) && (gu_Candidates um =? 0) && (gu_Total um =? 0) then None
  else Some {| u_PromptTokens := gu_Prompt um; u_CompletionTokens := gu_Candidates um; u_TotalTokens := gu_Total um;
               u_CachedPromptTokens := gu_Cached um; u_ReasoningTokens := gu_Thoughts um |}.

Definition finish_metadata (resp : gemini_response) : Args :=
  match gr_Candidates resp with
  | cd :: _ => if String.eqb (cd_FinishReason cd) "" then ∅ else {[ "finish_reason" := VStr (cd_FinishReason cd) ]}
  | [] => ∅
  end.

Definition response_of (resp : gemini_response) (metadata : Args) : LLMResponse :=
  {| p_Content := geminiResponseText resp; p_ToolCalls := geminiToolCallsToInterface (gr_FunctionCalls resp);
     p_Usage := geminiUsageMetadataToLLM (gr_Usage resp); p_Metadata := metadata |}.

Definition full_metadata (resp : gemini_response) : Args :=
  if String.eqb (gr_ModelVersion resp) "" then finish_metadata resp
  else <["model_version" := VStr (gr_ModelVersion resp)]> (finish_metadata resp).

Definition wrapLLM (err : vendor_error) : client_error :=
  match ve_API err with
  | Some api => Classify err (ae_StatusCode api) 0 [ae_Message api; ae_Type api]
  | None => Classify err 0 0 []
  end.

(** *** The adapter of the stream *)

(** The producer stops after the first error. *)
Fixpoint sent (items : list (option gemini_response * option vendor_error)) : list (option gemini_response * option vendor_error) :=
  match items with
  | [] => []
  | it :: items => it :: match it.2 with None => sent items | Some _ => [] end
  end.

Record adapter_state := { as_result : option LLMResponse; as_err : option vendor_error; as_delta : string }.

(** [content[prevLen:]] *)
Fixpoint skip_bytes (n : nat) (s : string) : string :=
  match n, s with
  | O, _ => s
  | S n, String _ s => skip_bytes n s
  | S _, EmptyString => ""
  end.

Definition Next (a : adapter_state) (chunk : option gemini_response * option vendor_error) : adapter_state :=
  match chunk.1 with
  | None => {| as_result := as_result a; as_err := chunk.2; as_delta := as_delta a |}
  | Some resp =>
      let content := geminiResponseText resp in
      let prevLen := match as_result a with Some r => String.length (p_Content r) | None => O end in
      {| as_result := Some (response_of resp (finish_metadata resp)); as_err := chunk.2;
         as_delta := if (prevLen <? String.length content)%nat then skip_bytes prevLen content else "" |}
  end.

Definition Current (a : adapter_state) : LLMStreamChunk :=
  {| k_ContentDelta := match as_result a with Some _ => as_delta a | None => "" end; k_ThinkingDelta := "" |}.

Fixpoint drain (a : adapter_state) (items : list (option gemini_response * option vendor_error))
    : list (option LLMStreamChunk) * adapter_state :=
  match items with
  | [] => ([], a)
  | it :: items => let a := Next a it in let s := drain a items in (Some (Current a) :: s.1, s.2)
  end.

Definition adapter (items : list (option gemini_response * option vendor_error)) : Stream :=
  let r := drain {| as_result := None; as_err := None; as_delta := "" |} (sent items) in
  {| sm_Chunks := r.1; sm_Err := (as_error ∘ wrapLLM) <$> as_err r.2; sm_Result := as_result r.2 |}.

Section client.
Context {event : Type} (c : LLMConfig).

Definition Generate (req : LLMRequest) : prog (S := @sdk_sig event) outcome :=
  r ← scall (SContent (g_Model c) (messagesToGemini req) (buildConfig req));
  mret (Some (match r with
              | inl err => inl (wrapLLM err)
              | inr resp => inr (response_of resp (full_metadata resp))
              end)).

Definition GenerateStream (req : LLMRequest) : prog (S := @sdk_sig event) Stream :=
  items ← scall (SContentStream (g_Model c) (messagesToGemini req) (buildConfig req));
  mret (adapter items).
End client.
End Gemini.
