(* ===== verification/ProvidersFacts.v ===== *)
(** What the model clients promise: a complete conversation becomes a request that says the same
    things in the same order and answers every tool call where the vendor's API wants the
    answer; cache breakpoints change nothing else and stay within the vendor's limit; a stream's
    deltas add up to its result. *)
From S2P Require Import Prelude GoLib Types Codec Prog ProgSpec JsonText JsonCodec Effects LoopBounds Providers.

#[local] Open Scope string_scope.
#[local] Open Scope list_scope.
#[local] Open Scope Z_scope.

Module LlmFacts.
Import Llm Wire Sdk.

(** ** Arguments of a call, as text and back *)

(** They have an encoding that the decoder of JSON accepts, and its numbers read back. *)
Definition args_ok (a : Args) : Prop :=
  map_Forall (fun _ v => value_ok v = true) a /\ exists j, c_enc a = Some j /\ json_ok maxNestingDepth j = true.

Lemma lenient_of_json j : forall v, of_json j = Some v -> lenient j = v.
Proof.
  induction j as [|b|lit|s|l IH|l IH] using json_ind'; intros v; cbn [of_json lenient].
  1,2,4: by intros [= <-].
  - cbn [dec_float]. destruct (read_float lit); [|done]. by intros [= <-].
  - unfold Json.all_some. destruct (mapM id (map of_json l)) as [vs|] eqn:E; [|done]. intros [= <-]. f_equal.
    rewrite mapM_some_map in E. apply mapM_Some in E. induction E as [|j w l vs Hj E IHE]; [done|].
    apply Forall_cons in IH as [H1 H2]. cbn [map]. by rewrite (H1 w Hj), (IHE H2).
  - unfold Json.all_some. destruct (mapM id _) as [vs|] eqn:E; [|done]. cbn [mbind option_bind]. intros [= <-]. do 2 f_equal.
    rewrite mapM_some_map in E. apply mapM_Some in E. induction E as [|[k j] w l vs Hj E IHE]; [done|].
    apply Forall_cons in IH as [H1 H2]. cbn [map fst snd] in *. destruct (of_json j) as [u|] eqn:Eu; [|done]. injection Hj as <-.
    by rewrite (H1 u eq_refl), (IHE H2).
Qed.

Lemma lenient_entries es : forall (m m' : Args), dec_entries m es = Some m' ->
  fold_left (fun (m : Args) kv => <[kv.1 := lenient kv.2]> m) es m = m'.
Proof.
  induction es as [|[k j] es IH]; intros m m'; cbn [dec_entries fold_left fst snd]; [by intros [= <-]|].
  destruct (c_dec c_zero j) as [v|] eqn:Ej; [|done]. cbn [mbind option_bind]. rewrite (lenient_of_json j v Ej). apply IH.
Qed.

Lemma args_text_enc (a : Args) j : c_enc a = Some j -> args_text a = of_bytes (render j).
Proof.
  intros H. unfold args_text. change (Json.marshal_args a) with (Json.marshal (VObj (map_to_list a))).
  rewrite render_marshal. change (to_json (VObj (map_to_list a))) with (c_enc a). by rewrite H.
Qed.

Lemma args_read_back a : args_ok a -> unmarshal_args (args_text a) = a.
Proof.
  intros (Hok & j & Hj & Hjok). rewrite (args_text_enc a j Hj). unfold unmarshal_args. rewrite (parse_render j Hjok).
  pose proof (map_law a j Hok Hj) as H. destruct j; try (cbn in Hj; unfold enc_map in Hj; destruct (members _); discriminate).
  cbn [dec_map] in H. by apply lenient_entries.
Qed.

(** ** Turns of a conversation

    What a message of a vendor's API asks for, the keys of its tool calls, what it gives, the
    keys of its results, and what it says. *)
Inductive item :=
| Said (role text : string)
| Called (id name : string) (args : Args)
| Resulted (id name : string) (payload : string + Args).

Class Turns (M : Type) := { asks : M -> list string; gives : M -> list string; says : M -> list item }.

(** Every message that asks is followed directly by the results of its calls, in their order and
    nothing else; there are no other results. *)
Inductive turns {M} `{Turns M} : list M -> Prop :=
| turns_nil : turns []
| turns_plain m l : asks m = [] -> gives m = [] -> turns l -> turns (m :: l)
| turns_round a r l : gives a = [] -> r <> [] -> Forall (fun x => asks x = [] /\ gives x <> []) r -> flat_map gives r = asks a ->
    turns l -> turns (a :: r ++ l).

Lemma turns_app {M} `{Turns M} (l1 l2 : list M) : turns l1 -> turns l2 -> turns (l1 ++ l2).
Proof.
  intros H1 Hl2. induction H1 as [|m l ? ? _ IH|a r l ? ? ? ? _ IH]; [done|by constructor|].
  cbn [app]. rewrite <- app_assoc. by constructor.
Qed.

Lemma turns_plains {M} `{Turns M} (l : list M) : Forall (fun m => asks m = [] /\ gives m = []) l -> turns l.
Proof. induction 1 as [|m l [? ?] _ IH]; by constructor. Qed.

Definition chat_item (c : chat_call) : item := Called (cc_ID c) (cc_Name c) (unmarshal_args (cc_Arguments c)).
Definition text_item (role text : string) : list item := if String.eqb text "" then [] else [Said role text].

#[export] Instance chat_turns : Turns chat_message := {|
  asks m := match m with AssistantMessage _ calls => map cc_ID calls | _ => [] end;
  gives m := match m with ToolMessage _ id => [id] | _ => [] end;
  says m := match m with
            | DeveloperMessage text | SystemMessage text => [Said "system" text]
            | UserMessage text => [Said "user" text]
            | AssistantMessage text calls => text_item "assistant" text ++ map chat_item calls
            | ToolMessage text id => [Resulted id "" (inl text)]
            end |}.

Definition block_asks (b : block) : list string := match b with ToolUseBlock id _ _ _ => [id] | _ => [] end.
Definition block_gives (b : block) : list string := match b with ToolResultBlock id _ _ => [id] | _ => [] end.
Definition block_says (role : string) (b : block) : list item :=
  match b with
  | TextBlock text _ => [Said role text]
  | ToolUseBlock id name input _ => [Called id name input]
  | ToolResultBlock id text _ => [Resulted id "" (inl text)]
  end.

#[export] Instance anthropic_turns : Turns message_param := {|
  asks m := flat_map block_asks (mp_Content m);
  gives m := flat_map block_gives (mp_Content m);
  says m := flat_map (block_says (mp_Role m)) (mp_Content m) |}.

(** Gemini's calls have no IDs: results are matched by name. *)
Definition part_asks (p : part) : list string := match p with CallPart c => [fc_Name c] | _ => [] end.
Definition part_gives (p : part) : list string := match p with ResponsePart r => [fr_Name r] | _ => [] end.
Definition part_says (role : string) (p : part) : list item :=
  match p with
  | TextPart text => [Said role text]
  | CallPart c => [Called (fc_ID c) (fc_Name c) (default ∅ (fc_Args c))]
  | ResponsePart r => [Resulted (fr_ID r) (fr_Name r) (inr (fr_Response r))]
  end.

#[export] Instance gemini_turns : Turns content := {|
  asks m := flat_map part_asks (ct_Parts m);
  gives m := flat_map part_gives (ct_Parts m);
  says m := flat_map (part_says (ct_Role m)) (ct_Parts m) |}.

(** ** Complete conversations *)

(** Messages other than tool results and calls, and rounds: an assistant message with calls and
    one result per call. *)
Inductive complete : list Message -> Prop :=
| complete_nil : complete []
| complete_plain m l : m_Role m <> "tool" -> (m_Role m = "assistant" -> m_ToolCalls m = []) -> complete l -> complete (m :: l)
| complete_round a tools l : m_Role a = "assistant" -> m_ToolCalls a <> [] -> Forall2 call_answered (m_ToolCalls a) tools ->
    complete l -> complete (a :: tools ++ l).

Lemma complete_app l1 l2 : complete l1 -> complete l2 -> complete (l1 ++ l2).
Proof.
  intros H1 Hl2. induction H1 as [|m l ? ? _ IH|a r l ? ? ? _ IH]; [done|by constructor|].
  cbn [app]. rewrite <- app_assoc. by constructor.
Qed.

(** What a run adds to its history is complete. *)
Lemma rounds_complete ms : LoopBounds.paired ms -> complete ms.
Proof.
  induction 1 as [|ms a tools _ IH Hr Hne HF]; [constructor|]. apply complete_app; [done|].
  rewrite <- (app_nil_r tools). constructor; [done|done|done|constructor].
Qed.

(** The arguments of all calls can be sent as JSON. *)
Definition sendable (m : Message) : Prop := Forall (fun tc => forall c, tc = Some c -> args_ok (c_Args c)) (m_ToolCalls m).

(** What a message says. *)
Definition said_with (assistant : string) (name : string -> string) (id : string -> string) (result : Message -> item) (m : Message) : list item :=
  if String.eqb (m_Role m) "user" then [Said "user" (m_Content m)]
  else if String.eqb (m_Role m) "assistant" then
    text_item assistant (m_Content m) ++
    flat_map (fun tc => match tc with Some c => [Called (id (c_ToolCallID c)) (name (c_ToolName c)) (c_Args c)] | None => [] end) (m_ToolCalls m)
  else if String.eqb (m_Role m) "tool" then [result m]
  else [].

Definition said : Message -> list item :=
  said_with "assistant" tool_name id (fun m => Resulted (m_ToolCallID m) "" (inl (m_Content m))).
Definition said_to_gemini : Message -> list item :=
  said_with "model" id id
    (fun m => Resulted (m_ToolCallID m) (tool_name (m_ToolName m)) (inr (Gemini.parseToolResponse (m_Content m)))).

(** What Gemini's client drops: the ID of a call (its result keeps its own). *)
Definition without_call_id (x : item) : item :=
  match x with Called _ name args => Called "" name args | _ => x end.
Definition heard_by_gemini (m : Message) : list item := map without_call_id (said_to_gemini m).

Lemma heard_assistant text role cs :
  map without_call_id (text_item role text ++
    flat_map (fun tc => match tc with Some c => [Called (c_ToolCallID c) (c_ToolName c) (c_Args c)] | None => [] end) (map Some cs)) =
  text_item role text ++ map (fun c => Called "" (c_ToolName c) (c_Args c)) cs.
Proof.
  rewrite map_app. f_equal; [unfold text_item; by case_match|]. induction cs as [|c cs IH]; [done|]. cbn. by rewrite IH.
Qed.

Lemma answered_some calls tools : Forall2 call_answered calls tools ->
  exists cs, calls = map Some cs /\ Forall (fun t => m_Role t = "tool") tools /\
    map m_ToolCallID tools = map c_ToolCallID cs /\ map m_ToolName tools = map c_ToolName cs.
Proof.
  induction 1 as [|[c|] t calls tools H _ IH]; [by exists []| |done]. destruct IH as (cs & -> & Ht & Hi & Hn).
  destruct H as (Hr & Hname & Hid & _). exists (c :: cs). cbn. rewrite Hi, Hn, Hname, Hid. by repeat split; [constructor|..].
Qed.

(** *** Chat completions *)

Section chat.

Lemma chat_calls cs : mapM Chat.call_param (map Some cs) =
  Some (map (fun c => {| cc_ID := c_ToolCallID c; cc_Name := tool_name (c_ToolName c); cc_Arguments := args_text (c_Args c) |}) cs).
Proof. induction cs as [|c cs IH]; [done|]. cbn [map mapM]. by rewrite IH. Qed.

Lemma chat_results tools : Forall (fun t => m_Role t = "tool") tools ->
  mapM Chat.message_param_of tools = Some (map (fun t => [ToolMessage (m_Content t) (m_ToolCallID t)]) tools).
Proof.
  induction 1 as [|t tools Ht _ IH]; [done|]. cbn [map mapM]. rewrite IH. unfold Chat.message_param_of at 1. by rewrite Ht.
Qed.

Lemma concat_singletons {A B} (f : A -> B) l : concat (map (fun x => [f x]) l) = map f l.
Proof. induction l as [|x l IH]; [done|]. cbn. by rewrite IH. Qed.

Lemma flat_singletons {A B} (f : A -> B) l : flat_map (fun x => [f x]) l = map f l.
Proof. induction l as [|x l IH]; [done|]. cbn. by rewrite IH. Qed.

Lemma said_calls (name id : string -> string) cs :
  flat_map (fun tc => match tc with Some c => [Called (id (c_ToolCallID c)) (name (c_ToolName c)) (c_Args c)] | None => [] end) (map Some cs) =
  map (fun c => Called (id (c_ToolCallID c)) (name (c_ToolName c)) (c_Args c)) cs.
Proof. induction cs as [|c cs IH]; [done|]. cbn. by rewrite IH. Qed.

Lemma chat_plain m : m_Role m <> "tool" -> (m_Role m = "assistant" -> m_ToolCalls m = []) ->
  exists l, Chat.message_param_of m = Some l /\ Forall (fun x => asks x = [] /\ gives x = []) l /\ flat_map says l = said m.
Proof.
  intros Ht Ha. unfold Chat.message_param_of, said, said_with. apply String.eqb_neq in Ht as Ht'. rewrite Ht'.
  destruct (String.eqb_spec (m_Role m) "user"); [eexists; repeat split; by repeat constructor|].
  destruct (String.eqb_spec (m_Role m) "assistant"); [|exists []; by repeat split].
  rewrite Ha by done. eexists. repeat split; [by repeat constructor|]. cbn. by rewrite !app_nil_r.
Qed.

Lemma chat_round a tools : m_Role a = "assistant" -> m_ToolCalls a <> [] -> Forall2 call_answered (m_ToolCalls a) tools -> sendable a ->
  exists l, mapM Chat.message_param_of (a :: tools) = Some l /\ turns (concat l) /\ flat_map says (concat l) = flat_map said (a :: tools).
Proof.
  intros Hr Hne HF Hs. destruct (answered_some _ _ HF) as (cs & E & Ht & Hi & _). unfold sendable in Hs. rewrite E in *.
  cbn [mapM]. rewrite (chat_results tools Ht). unfold Chat.message_param_of. rewrite Hr, E. cbn [String.eqb Ascii.eqb Bool.eqb].
  destruct cs as [|c cs]; [done|]. cbn [map]. change (Some c :: map Some cs) with (map Some (c :: cs)). rewrite chat_calls. cbn [map mbind option_bind].
  eexists. split; [reflexivity|]. cbn [concat app]. rewrite concat_singletons. split.
  - rewrite <- (app_nil_r (map _ tools)). apply turns_round.
    + done.
    + apply Forall2_length in HF. by destruct tools.
    + apply Forall_map, List.Forall_forall. by intros.
    + transitivity (map m_ToolCallID tools); [rewrite flat_map_concat_map, map_map; apply concat_singletons|].
      rewrite Hi. cbn. by rewrite map_map.
    + constructor.
  - cbn [flat_map]. f_equal.
    + unfold said, said_with. rewrite Hr, E. cbn [String.eqb Ascii.eqb Bool.eqb]. rewrite said_calls. cbn [says chat_turns map]. f_equal.
      apply Forall_cons in Hs as [Hc Hs]. unfold chat_item. cbn [cc_ID cc_Name cc_Arguments]. rewrite (args_read_back _ (Hc c eq_refl)). f_equal.
      rewrite map_map. apply map_ext_in. intros c' Hin. cbn. rewrite args_read_back; [done|].
      apply Forall_map in Hs. rewrite List.Forall_forall in Hs. by apply (Hs c').
    + rewrite !flat_map_concat_map, map_map. f_equal. clear -Ht. induction Ht as [|t tools Ht _ IH]; [done|]. cbn [map].
      rewrite IH. f_equal. unfold said, said_with. by rewrite Ht.
Qed.
End chat.

(** *** Clients that take the results of a round in one message *)

Section merge.
Context {W P : Type} (result : Message -> P) (wrap : list P -> list W) (plain : Message -> list W).

Lemma merge_tools tools : Forall (fun t => m_Role t = "tool") tools -> forall acc l,
  merge result wrap plain acc (tools ++ l) = merge result wrap plain (acc ++ map result tools) l.
Proof using.
  induction 1 as [|t tools Ht _ IH]; intros acc l; [by rewrite app_nil_r|]. cbn [app merge map]. rewrite Ht. cbn [String.eqb Ascii.eqb Bool.eqb].
  by rewrite IH, <- app_assoc.
Qed.

Lemma merge_flush acc l : acc <> [] -> complete l -> merge result wrap plain acc l = wrap acc ++ merge result wrap plain [] l.
Proof using.
  intros Hacc Hl. destruct acc as [|x acc]; [done|]. destruct Hl as [|m l Ht _ _|a tools l Ha _ _ _]; cbn [merge].
  - by rewrite app_nil_r.
  - by apply String.eqb_neq in Ht as ->.
  - by rewrite Ha.
Qed.

Lemma merge_plain m l : m_Role m <> "tool" -> merge result wrap plain [] (m :: l) = plain m ++ merge result wrap plain [] l.
Proof using. intros Ht. cbn [merge]. by apply String.eqb_neq in Ht as ->. Qed.

Lemma merge_round a tools l : m_Role a = "assistant" -> m_ToolCalls a <> [] -> Forall2 call_answered (m_ToolCalls a) tools -> complete l ->
  merge result wrap plain [] (a :: tools ++ l) = plain a ++ wrap (map result tools) ++ merge result wrap plain [] l.
Proof using.
  intros Ha Hne HF Hl. destruct (answered_some _ _ HF) as (cs & _ & Ht & _). rewrite merge_plain by (by rewrite Ha).
  rewrite merge_tools by done. rewrite merge_flush; [done| |done]. apply Forall2_length in HF. by destruct tools, (m_ToolCalls a).
Qed.
End merge.

Section merged.
Context {W P : Type} `{Turns W} (result : Message -> P) (wrap : list P -> W) (plain : Message -> list W) (said : Message -> list item).
Context (good : ToolCall -> Prop).

(** What the parts of a client have to do for its requests to be right. *)
Record wire_laws : Prop := {
  wl_plain m : m_Role m <> "tool" -> (m_Role m = "assistant" -> m_ToolCalls m = []) ->
    Forall (fun x => asks x = [] /\ gives x = []) (plain m) /\ flat_map says (plain m) = said m;
  wl_calls a cs : m_Role a = "assistant" -> m_ToolCalls a = map Some cs -> cs <> [] -> Forall good cs ->
    exists x, plain a = [x] /\ gives x = [] /\ says x = said a /\
      forall tools, Forall2 call_answered (m_ToolCalls a) tools ->
        asks (wrap (map result tools)) = [] /\ gives (wrap (map result tools)) = asks x /\ asks x <> [];
  wl_results tools : Forall (fun t => m_Role t = "tool") tools -> says (wrap (map result tools)) = flat_map said tools }.

Definition calls_good (m : Message) : Prop := Forall (fun tc => forall c, tc = Some c -> good c) (m_ToolCalls m).

Lemma merged_turns ms : wire_laws -> complete ms -> Forall calls_good ms ->
  turns (merge result (fun l => [wrap l]) plain [] ms) /\
  flat_map says (merge result (fun l => [wrap l]) plain [] ms) = flat_map said ms.
Proof using.
  intros L Hms. induction Hms as [|m l Ht Ha Hl IH|a tools l Ha Hne HF Hl IH]; intros Hg; [by split; [constructor|]|..].
  - apply Forall_cons in Hg as [_ Hg]. destruct (IH Hg) as [IH1 IH2]. destruct (wl_plain L m Ht Ha) as [H1 H2].
    rewrite merge_plain by done. split; [apply turns_app; [by apply turns_plains|done]|].
    rewrite flat_map_app, H2, IH2. done.
  - apply Forall_cons in Hg as [Hga Hg]. apply Forall_app in Hg as [_ Hg]. destruct (IH Hg) as [IH1 IH2].
    destruct (answered_some _ _ HF) as (cs & E & Ht & _ & _). rewrite merge_round by done.
    assert (Hcs : Forall good cs).
    { unfold calls_good in Hga. rewrite E in Hga. apply Forall_map in Hga. eapply Forall_impl; [exact Hga|]. intros c Hc. by apply Hc. }
    destruct (wl_calls L a cs Ha E ltac:(intros ->; by rewrite E in Hne) Hcs) as (x & -> & Hx & Hsay & Hans).
    destruct (Hans tools HF) as (H1 & H2 & H3). split.
    + cbn [app]. apply (turns_round x [wrap (map result tools)]); [done|done| | |done].
      * constructor; [|done]. split; [done|]. by rewrite H2.
      * cbn. by rewrite app_nil_r.
    + cbn [app flat_map]. rewrite Hsay, IH2, (wl_results L tools Ht). by rewrite flat_map_app.
Qed.
End merged.

(** *** Anthropic *)

Section anthropic.
Import Anthropic.

Lemma use_blocks cs : flat_map use_block (map Some cs) = map (fun c => ToolUseBlock (c_ToolCallID c) (tool_name (c_ToolName c)) (c_Args c) false) cs.
Proof. induction cs as [|c cs IH]; [done|]. cbn. by rewrite IH. Qed.

Lemma flat_map_singles {A B C} (f : B -> list C) (g : A -> B) (h : A -> C) l : (forall a, f (g a) = [h a]) -> flat_map f (map g l) = map h l.
Proof. intros H. induction l as [|a l IH]; [done|]. cbn. by rewrite H, IH. Qed.

Lemma flat_map_none {A B C} (f : B -> list C) (g : A -> B) l : (forall a, f (g a) = []) -> flat_map f (map g l) = [].
Proof. intros H. induction l as [|a l IH]; [done|]. cbn. by rewrite H, IH. Qed.

Lemma anthropic_laws : wire_laws result_block user_message plain_message said (fun _ => True).
Proof.
  constructor.
  - intros m Ht Ha. unfold plain_message, said, said_with. apply String.eqb_neq in Ht as ->.
    destruct (String.eqb (m_Role m) "user"); [by repeat constructor|].
    destruct (String.eqb_spec (m_Role m) "assistant") as [E|]; [|done]. unfold assistant_blocks. rewrite (Ha E). cbn [flat_map].
    rewrite !app_nil_r. unfold text_item. destruct (String.eqb _ _); by repeat constructor.
  - intros a cs Ha E Hne _.
    assert (Hb : assistant_blocks a = (if String.eqb (m_Content a) "" then [] else [TextBlock (m_Content a) false]) ++
              map (fun c => ToolUseBlock (c_ToolCallID c) (tool_name (c_ToolName c)) (c_Args c) false) cs).
    { unfold assistant_blocks. by rewrite E, use_blocks. }
    exists {| mp_Role := "assistant"; mp_Content := assistant_blocks a |}. split; [|split; [|split]].
    + unfold plain_message. rewrite Ha. cbn [String.eqb Ascii.eqb Bool.eqb]. rewrite Hb. destruct cs as [|c cs]; [done|].
      by destruct (String.eqb (m_Content a) "").
    + cbn. rewrite Hb, flat_map_app, (flat_map_none block_gives) by done. by destruct (String.eqb (m_Content a) "").
    + cbn. rewrite Hb, flat_map_app. unfold said, said_with. rewrite Ha, E. cbn [String.eqb Ascii.eqb Bool.eqb]. rewrite said_calls. f_equal.
      * unfold text_item. by destruct (String.eqb (m_Content a) "").
      * by apply flat_map_singles.
    + intros tools HF. destruct (answered_some _ _ HF) as (cs' & E' & _ & Hi & _).
      rewrite E in E'. apply (inj (map Some)) in E' as <-.
      assert (Hasks : asks {| mp_Role := "assistant"; mp_Content := assistant_blocks a |} = map c_ToolCallID cs).
      { cbn. rewrite Hb, flat_map_app, (flat_map_singles block_asks _ c_ToolCallID) by done. by destruct (String.eqb (m_Content a) ""). }
      split; [by apply (flat_map_none block_asks result_block)|]. rewrite Hasks. split; [|by destruct cs].
      rewrite <- Hi. by apply (flat_map_singles block_gives result_block).
  - intros tools Ht. cbn. rewrite (flat_map_singles _ _ (fun t => Resulted (m_ToolCallID t) "" (inl (m_Content t)))) by done.
    induction Ht as [|t tools Ht _ IH]; [done|]. cbn [map flat_map]. rewrite IH. unfold said, said_with. by rewrite Ht.
Qed.
End anthropic.

(** *** Gemini *)

Section gemini.
Import Gemini.

(** A name that is its own trimmed form; results carry the trimmed one. *)
Definition trimmed (c : ToolCall) : Prop := TrimSpace (c_ToolName c) = c_ToolName c /\ c_ToolName c <> "".

Lemma tool_name_trimmed c : trimmed c -> tool_name (c_ToolName c) = c_ToolName c.
Proof. intros [H Hne]. unfold tool_name. rewrite H. by apply String.eqb_neq in Hne as ->. Qed.

Lemma call_parts cs : flat_map call_part (map Some cs) =
  map (fun c => CallPart {| fc_ID := ""; fc_Name := c_ToolName c; fc_Args := Some (c_Args c) |}) cs.
Proof. induction cs as [|c cs IH]; [done|]. cbn. by rewrite IH. Qed.

Lemma gemini_laws : wire_laws tool_part responses_content plain_content heard_by_gemini trimmed.
Proof.
  constructor.
  - intros m Ht Ha. unfold plain_content, heard_by_gemini, said_to_gemini, said_with. apply String.eqb_neq in Ht as ->.
    destruct (String.eqb (m_Role m) "user"); [by repeat constructor|].
    destruct (String.eqb_spec (m_Role m) "assistant") as [E|]; [|done]. unfold assistant_parts. rewrite (Ha E). cbn [flat_map].
    rewrite map_app, !app_nil_r. unfold text_item. destruct (String.eqb _ _); by repeat constructor.
  - intros a cs Ha E Hne Hgood.
    assert (Hb : assistant_parts a = (if String.eqb (m_Content a) "" then [] else [TextPart (m_Content a)]) ++
              map (fun c => CallPart {| fc_ID := ""; fc_Name := c_ToolName c; fc_Args := Some (c_Args c) |}) cs).
    { unfold assistant_parts. by rewrite E, call_parts. }
    exists {| ct_Role := "model"; ct_Parts := assistant_parts a |}. split; [|split; [|split]].
    + unfold plain_content. rewrite Ha. cbn [String.eqb Ascii.eqb Bool.eqb]. rewrite Hb. destruct cs as [|c cs]; [done|].
      by destruct (String.eqb (m_Content a) "").
    + cbn. rewrite Hb, flat_map_app, (flat_map_none part_gives) by done. by destruct (String.eqb (m_Content a) "").
    + cbn. rewrite Hb, flat_map_app. unfold heard_by_gemini, said_to_gemini, said_with. rewrite Ha, E. cbn [String.eqb Ascii.eqb Bool.eqb].
      unfold id. rewrite heard_assistant. f_equal.
      * unfold text_item. by destruct (String.eqb (m_Content a) "").
      * by apply flat_map_singles.
    + intros tools HF. destruct (answered_some _ _ HF) as (cs' & E' & _ & _ & Hn).
      rewrite E in E'. apply (inj (map Some)) in E' as <-.
      assert (Hasks : asks {| ct_Role := "model"; ct_Parts := assistant_parts a |} = map c_ToolName cs).
      { cbn. rewrite Hb, flat_map_app, (flat_map_singles part_asks _ c_ToolName) by done. by destruct (String.eqb (m_Content a) ""). }
      split; [by apply (flat_map_none part_asks tool_part)|]. rewrite Hasks. split; [|by destruct cs].
      cbn. rewrite (flat_map_singles part_gives tool_part (fun t => tool_name (m_ToolName t))) by done.
      rewrite <- map_map, Hn, map_map. apply map_ext_in. intros c Hin. apply tool_name_trimmed. rewrite List.Forall_forall in Hgood. auto.
  - intros tools Ht. cbn.
    rewrite (flat_map_singles _ _ (fun t => Resulted (m_ToolCallID t) (tool_name (m_ToolName t)) (inr (parseToolResponse (m_Content t))))) by done.
    induction Ht as [|t tools Ht _ IH]; [done|]. cbn [map flat_map]. rewrite IH. unfold heard_by_gemini, said_to_gemini, said_with. by rewrite Ht.
Qed.
End gemini.

(** *** Chat completions, whole conversations *)

Lemma mapM_app_some {A B} (f : A -> option B) l1 l2 x y : mapM f l1 = Some x -> mapM f l2 = Some y -> mapM f (l1 ++ l2) = Some (x ++ y).
Proof. rewrite !mapM_Some. apply Forall2_app. Qed.

Lemma chat_turns_right ms : complete ms -> Forall sendable ms ->
  exists l, mapM Chat.message_param_of ms = Some l /\ turns (concat l) /\ flat_map says (concat l) = flat_map said ms.
Proof.
  induction 1 as [|m ms Ht Ha _ IH|a tools ms Ha Hne HF _ IH]; intros Hs.
  - exists []. split; [done|]. split; [apply turns_nil|done].
  - apply Forall_cons in Hs as [_ Hs]. destruct (IH Hs) as (l & E & H1 & H2). destruct (chat_plain m Ht Ha) as (x & Ex & Hx & Hsay).
    exists (x :: l). cbn [mapM]. rewrite Ex, E. split; [done|]. split; [by apply turns_app; [apply turns_plains|]|].
    cbn [concat flat_map]. by rewrite flat_map_app, Hsay, H2.
  - apply Forall_cons in Hs as [Hsa Hs]. apply Forall_app in Hs as [_ Hs]. destruct (IH Hs) as (l & E & H1 & H2).
    destruct (chat_round a tools Ha Hne HF Hsa) as (x & Ex & Hx & Hsay). exists (x ++ l).
    change (a :: tools ++ ms) with ((a :: tools) ++ ms). split; [by apply mapM_app_some|]. split.
    + rewrite concat_app. by apply turns_app.
    + by rewrite concat_app, !flat_map_app, Hsay, H2.
Qed.

(** What the system message says. *)
Definition system_said (q : LLMRequest) : list item := if String.eqb (q_SystemMessage q) "" then [] else [Said "system" (q_SystemMessage q)].

Lemma chat_request_right system q : (forall text, asks (system text) = [] /\ gives (system text) = [] /\ says (system text) = [Said "system" text]) ->
  complete (q_Messages q) -> Forall sendable (q_Messages q) ->
  exists l, Chat.messages_with system q = Some l /\ turns l /\ flat_map says l = system_said q ++ flat_map said (q_Messages q).
Proof.
  intros Hsys Hc Hs. destruct (chat_turns_right _ Hc Hs) as (l & E & H1 & H2). unfold Chat.messages_with, system_said. rewrite E.
  destruct (Hsys (q_SystemMessage q)) as (Ha & Hg & Hsay). cbn [mbind option_bind]. eexists. split; [reflexivity|].
  destruct (String.eqb _ _); cbn [app flat_map]; [done|]. rewrite Hsay, H2. split; [by constructor|done].
Qed.

(** ** Cache breakpoints *)

Section caching.
Import Anthropic.

Definition plain_block (b : block) : block :=
  match b with
  | TextBlock text _ => TextBlock text false
  | ToolUseBlock id name input _ => ToolUseBlock id name input false
  | ToolResultBlock id text _ => ToolResultBlock id text false
  end.
Definition marked (b : block) : bool := match b with TextBlock _ m | ToolUseBlock _ _ _ m | ToolResultBlock _ _ m => m end.
Definition plain_param (m : message_param) : message_param := {| mp_Role := mp_Role m; mp_Content := map plain_block (mp_Content m) |}.
Definition plain_tool (t : anthropic_tool) : anthropic_tool :=
  {| at_Name := at_Name t; at_Description := at_Description t; at_InputSchema := at_InputSchema t; at_Cached := false |}.

(** The request without its breakpoints, and their number. *)
Definition unmarked (p : anthropic_params) : anthropic_params :=
  {| ap_Messages := map plain_param (ap_Messages p); ap_Model := ap_Model p; ap_MaxTokens := ap_MaxTokens p; ap_Temperature := ap_Temperature p;
     ap_TopK := ap_TopK p; ap_System := map (fun s => (s.1, false)) (ap_System p); ap_Tools := map plain_tool (ap_Tools p);
     ap_ToolChoiceAuto := ap_ToolChoiceAuto p; ap_OutputSchema := ap_OutputSchema p; ap_Thinking := ap_Thinking p |}.

Definition marks (m : message_param) : nat := length (List.filter marked (mp_Content m)).
Fixpoint total (l : list message_param) : nat := match l with [] => O | m :: l => (marks m + total l)%nat end.
Definition breakpoints (p : anthropic_params) : nat :=
  (total (ap_Messages p) + length (List.filter snd (ap_System p)) + length (List.filter at_Cached (ap_Tools p)))%nat.

Definition unmarked_block (b : block) : Prop := marked b = false.
Definition unmarked_param (m : message_param) : Prop := Forall unmarked_block (mp_Content m).

Lemma plain_block_id b : unmarked_block b -> plain_block b = b.
Proof. unfold unmarked_block. destruct b; cbn; by intros ->. Qed.

Lemma plain_param_id m : unmarked_param m -> plain_param m = m.
Proof.
  unfold unmarked_param, plain_param. destruct m as [role bs]. cbn. intros H. f_equal.
  induction H as [|b bs Hb _ IH]; [done|]. cbn. by rewrite plain_block_id, IH.
Qed.

Lemma merged_unmarked ms : forall acc, Forall unmarked_block acc ->
  Forall unmarked_param (merge result_block (fun results => [user_message results]) plain_message acc ms).
Proof.
  assert (Hw : forall acc, Forall unmarked_block acc -> Forall unmarked_param (match acc with [] => [] | _ => [user_message acc] end)).
  { intros [|b acc] H; [done|]. by constructor. }
  assert (Hp : forall m, Forall unmarked_param (plain_message m)).
  { intros m. unfold plain_message. destruct (String.eqb _ _); [by repeat constructor|]. destruct (String.eqb _ _); [|done].
    assert (H : Forall unmarked_block (assistant_blocks m)).
    { unfold assistant_blocks. apply Forall_app. split; [destruct (String.eqb _ _); by repeat constructor|].
      induction (m_ToolCalls m) as [|[c|] l IH]; [done| |done]. by constructor. }
    destruct (assistant_blocks m); [constructor|]. by apply Forall_singleton. }
  induction ms as [|m ms IH]; intros acc Hacc; cbn [merge]; [by apply Hw|].
  destruct (String.eqb _ _); [apply IH, Forall_app; split; [done|by repeat constructor]|].
  apply Forall_app. split; [by apply Hw|]. apply Forall_app. split; [done|by apply IH].
Qed.

Lemma converted_unmarked ms : Forall unmarked_param (convertToAnthropicMessages ms).
Proof. unfold convertToAnthropicMessages. destruct ms; [by repeat constructor|]. by apply merged_unmarked. Qed.

Lemma alter_plain {A B} (g : A -> B) (f : A -> A) l : (forall x, g (f x) = g x) -> forall i, map g (alter f i l) = map g l.
Proof. intros H. induction l as [|x l IH]; intros [|i]; [done|done|cbn; by rewrite H|]. cbn. f_equal. apply IH. Qed.

Lemma unmarked_marks m : unmarked_param m -> marks m = O.
Proof. unfold unmarked_param, marks. induction 1 as [|b bs Hb _ IH]; [done|]. cbn. unfold unmarked_block in Hb. by rewrite Hb. Qed.

Lemma unmarked_total l : Forall unmarked_param l -> total l = O.
Proof. induction 1 as [|m l Hm _ IH]; [done|]. cbn. by rewrite unmarked_marks, IH. Qed.

Lemma plain_params_id l : Forall unmarked_param l -> map plain_param l = l.
Proof. induction 1 as [|m l Hm _ IH]; [done|]. cbn. by rewrite plain_param_id, IH. Qed.

Lemma alter_marks bs i : Forall unmarked_block bs -> (length (List.filter marked (alter setCacheControl i bs)) <= 1)%nat.
Proof.
  intros H. revert i. induction H as [|b bs Hb H IH]; intros [|i]; [cbn; lia..| |]; cbn.
  - assert (E : List.filter marked bs = []).
    { clear -H. induction H as [|b bs Hb _ IH]; [done|]. cbn. unfold unmarked_block in Hb. by rewrite Hb. }
    rewrite E. destruct (marked _); cbn; lia.
  - unfold unmarked_block in Hb. rewrite Hb. apply IH.
Qed.

Lemma alter_sum l i : Forall unmarked_param l -> (total (alter mark_last i l) <= 1)%nat.
Proof.
  intros H. revert i. induction H as [|m l Hm H IH]; intros [|i]; [cbn; lia..| |]; cbn.
  - rewrite unmarked_total by done. unfold marks, mark_last. cbn. pose proof (alter_marks (mp_Content m) (pred (length (mp_Content m))) Hm). lia.
  - rewrite unmarked_marks by done. apply IH.
Qed.

Lemma tools_cached b specs : map plain_tool (toolsToAnthropic b specs) = toolsToAnthropic false specs /\
  (length (List.filter at_Cached (toolsToAnthropic b specs)) <= if b then 1 else 0)%nat.
Proof.
  induction specs as [|s specs [IH1 IH2]]; [by destruct b; split; cbn; [|lia| |lia]|]. cbn [toolsToAnthropic map].
  split; [unfold plain_tool at 1; cbn; by rewrite IH1|]. cbn [List.filter at_Cached]. destruct b; [|exact IH2].
  destruct specs; cbn [andb] in *; cbn in *; lia.
Qed.

Lemma messages_cached b q :
  map plain_param (messagesToAnthropic b q) = messagesToAnthropic false q /\
  (total (messagesToAnthropic b q) <= if b then 1 else 0)%nat.
Proof.
  pose proof (converted_unmarked (q_Messages q)) as H. unfold messagesToAnthropic.
  assert (Hid : map plain_param (convertToAnthropicMessages (q_Messages q)) = convertToAnthropicMessages (q_Messages q)) by by apply plain_params_id.
  assert (H0 : total (convertToAnthropicMessages (q_Messages q)) = O) by by apply unmarked_total.
  destruct b; [|split; [done|lia]]. unfold markStableMessageForCaching. destruct (_ <? 2)%nat; [split; [done|lia]|].
  split; [|by apply alter_sum]. rewrite alter_plain; [done|]. intros m. unfold plain_param, mark_last. cbn. f_equal.
  apply alter_plain. by intros [].
Qed.

(** The newest message carries no breakpoint. *)
Lemma newest_unmarked b q m : last (messagesToAnthropic b q) = Some m -> marks m = O.
Proof.
  pose proof (converted_unmarked (q_Messages q)) as H. unfold messagesToAnthropic. set (l := convertToAnthropicMessages _) in *.
  intros Hm. apply unmarked_marks. rewrite Forall_lookup in H. rewrite last_lookup in Hm.
  destruct b; [|by apply (H (pred (length l)))]. unfold markStableMessageForCaching in Hm.
  destruct (Nat.ltb_spec (length l) 2) as [|Hl]; [by apply (H (pred (length l)))|].
  rewrite length_alter, list_lookup_alter_ne in Hm by lia. by apply (H (pred (length l))).
Qed.

(** C21: Prompt caching at Anthropic only adds breakpoints: without them the request is the one
    that is sent with caching off; there are at most three, within the four the API allows, none
    of them in the newest message, and none at all when caching is off. *)
Theorem prompt_caching_transparent c q :
  let p := buildMessageParams c true (messagesToAnthropic true q) q in
  let p0 := buildMessageParams c false (messagesToAnthropic false q) q in
  unmarked p = p0 /\ (breakpoints p <= 3)%nat /\ breakpoints p0 = O /\
  match last (ap_Messages p) with Some m => marks m = O | None => True end.
Proof.
  cbv zeta. destruct (messages_cached true q) as [H1 H2], (messages_cached false q) as [_ H3].
  destruct (tools_cached true (q_Tools q)) as [T1 T2], (tools_cached false (q_Tools q)) as [_ T3].
  unfold unmarked, breakpoints. cbn in *. rewrite H1, T1. split; [|split; [|split]].
  - unfold buildMessageParams. by destruct (String.eqb (q_SystemMessage q) "").
  - destruct (String.eqb _ _); cbn; lia.
  - destruct (String.eqb _ _); cbn; lia.
  - pose proof (newest_unmarked true q) as H. unfold messagesToAnthropic in H. by destruct (last _); [apply H|].
Qed.
End caching.

(** ** Every client *)

Inductive client :=
| UseOpenAI (c : LLMConfig)
| UseDeepSeek (c : LLMConfig)
| UseOllama (c : LLMConfig)
| UseAnthropic (c : LLMConfig) (promptCaching : bool)
| UseGemini (c : LLMConfig).

Section generate.
Context {event : Type}.

Definition generate_with (k : client) (q : LLMRequest) : prog (S := @Chat.sdk_sig event) outcome :=
  match k with
  | UseOpenAI c => OpenAI.Generate c q
  | UseDeepSeek c => DeepSeek.Generate c q
  | UseOllama c => Ollama.Generate c q
  | UseAnthropic c caching => Anthropic.Generate c caching q
  | UseGemini c => Gemini.Generate c q
  end.

Definition open_stream (k : client) (accumulated : list chat_chunk -> chat_completion)
    (accumulate : anthropic_message -> event -> anthropic_message * bool) (delta_of : event -> anthropic_delta) (q : LLMRequest)
    : prog (S := @Chat.sdk_sig event) (option Stream) :=
  match k with
  | UseOpenAI c => OpenAI.GenerateStream accumulated c q
  | UseDeepSeek c => DeepSeek.GenerateStream accumulated c q
  | UseOllama c => Ollama.GenerateStream accumulated c q
  | UseAnthropic c caching => s ← Anthropic.GenerateStream c caching accumulate delta_of q; mret (Some s)
  | UseGemini c => s ← Gemini.GenerateStream c q; mret (Some s)
  end.

(** The request says what the conversation says, and answers its calls. *)
Definition right_request (k : client) (q : LLMRequest) (o : SdkOp) : Prop :=
  match o with
  | SChat p | SChatStream p =>
      turns (cp_Messages p) /\ flat_map says (cp_Messages p) = system_said q ++ flat_map said (q_Messages q)
  | SMessages p | SMessagesStream p =>
      turns (ap_Messages p) /\ map (fun s => Said "system" s.1) (ap_System p) ++ flat_map says (ap_Messages p) =
      system_said q ++ flat_map said (q_Messages q)
  | SContent _ contents config | SContentStream _ contents config =>
      turns contents /\ match gc_System config with Some s => [Said "system" s] | None => [] end ++ flat_map says contents =
      system_said q ++ map without_call_id (flat_map said_to_gemini (q_Messages q))
  | SSched => False
  end.

(** A failure is reported as a classified error; a call only panics when a chat completion has no choice. *)
Definition settled (o : SdkOp) (a : SdkAns event o) (r : outcome) : Prop :=
  match o return SdkAns event o -> Prop with
  | SChat _ => fun a => match a with
      | inl _ => exists e le, r = Some (inl e) /\ as_LLMError e = Some le
      | inr resp => match cm_Choices resp with [] => r = None | ch :: _ => exists p, r = Some (inr p) /\ p_Content p = ch_Content ch end
      end
  | SMessages _ => fun a => match a with
      | inl _ => exists e le, r = Some (inl e) /\ as_LLMError e = Some le
      | inr _ => exists p, r = Some (inr p)
      end
  | SContent _ _ _ => fun a => match a with
      | inl _ => exists e le, r = Some (inl e) /\ as_LLMError e = Some le
      | inr _ => exists p, r = Some (inr p)
      end
  | _ => fun _ => False
  end a.

Definition usable (k : client) (q : LLMRequest) : Prop :=
  q_Messages q <> [] /\ complete (q_Messages q) /\
  match k with
  | UseOpenAI _ | UseDeepSeek _ | UseOllama _ => Forall sendable (q_Messages q)
  | UseAnthropic _ _ => True
  | UseGemini _ => Forall (calls_good trimmed) (q_Messages q)
  end.

Lemma classified err status after extras : exists le, as_LLMError (Classify err status after extras) = Some le.
Proof. unfold Classify. destruct (ve_LLM err) eqn:E; [by eexists|]. by eexists. Qed.

Lemma turns_same {M} `{Turns M} (l : list M) : turns l -> forall l', Forall2 (fun x y => asks x = asks y /\ gives x = gives y) l l' -> turns l'.
Proof.
  intros Hl. induction Hl as [|m l Ha Hg _ IH|a r l Hg Hne HF He _ IH]; intros l' H'.
  - apply Forall2_nil_inv_l in H' as ->. constructor.
  - apply Forall2_cons_inv_l in H' as (m' & l2 & [Ea Eg] & H' & ->). constructor; [by rewrite <- Ea|by rewrite <- Eg|by apply IH].
  - apply Forall2_cons_inv_l in H' as (a' & l2 & [Ea Eg] & H' & ->). apply Forall2_app_inv_l in H' as (r' & l3 & Hr & Hl3 & ->).
    apply turns_round; [by rewrite <- Eg| | | |by apply IH].
    + intros ->. by apply Forall2_nil_inv_r in Hr.
    + clear -HF Hr. induction Hr as [|x y r r' [E1 E2] _ IH]; [done|]. apply Forall_cons in HF as [[H1 H2] HF].
      constructor; [|by apply IH]. by rewrite <- E1, <- E2.
    + rewrite <- Ea, <- He. clear -Hr. induction Hr as [|x y r r' [E1 E2] _ IH]; [done|]. cbn. by rewrite E2, IH.
Qed.

Lemma mark_last_same m : asks (Anthropic.mark_last m) = asks m /\ gives (Anthropic.mark_last m) = gives m /\ says (Anthropic.mark_last m) = says m.
Proof.
  cbn. rewrite !flat_map_concat_map. split; [|split]; f_equal; apply alter_plain; by intros [].
Qed.

Lemma alter_same {A} (P : A -> A -> Prop) f l : (forall x, P x x) -> (forall x, P x (f x)) -> forall i, Forall2 P l (alter f i l).
Proof.
  intros Hr Hf. induction l as [|x l IH]; intros [|i]; constructor; auto. clear -Hr. induction l; by constructor.
Qed.

Lemma anthropic_right caching q : q_Messages q <> [] -> complete (q_Messages q) ->
  turns (Anthropic.messagesToAnthropic caching q) /\ flat_map says (Anthropic.messagesToAnthropic caching q) = flat_map said (q_Messages q).
Proof.
  intros Hne Hc. destruct (merged_turns _ _ _ _ _ _ anthropic_laws Hc) as [H1 H2].
  { apply List.Forall_forall. intros m _. apply List.Forall_forall. by intros. }
  assert (E : Anthropic.convertToAnthropicMessages (q_Messages q) = Anthropic.convert (q_Messages q)) by (by destruct (q_Messages q)).
  unfold Anthropic.messagesToAnthropic. rewrite E. unfold Anthropic.convert. destruct caching; [|done].
  unfold Anthropic.markStableMessageForCaching. destruct (_ <? 2)%nat; [done|]. split.
  - eapply turns_same; [exact H1|]. apply alter_same; [done|]. intros m. by destruct (mark_last_same m) as (-> & -> & _).
  - rewrite flat_map_concat_map, alter_plain, <- flat_map_concat_map; [done|]. intros m. by destruct (mark_last_same m) as (_ & _ & ->).
Qed.

Lemma gemini_right q : q_Messages q <> [] -> complete (q_Messages q) -> Forall (calls_good trimmed) (q_Messages q) ->
  turns (Gemini.messagesToGemini q) /\ flat_map says (Gemini.messagesToGemini q) = map without_call_id (flat_map said_to_gemini (q_Messages q)).
Proof.
  intros Hne Hc Hg. assert (E : Gemini.messagesToGemini q = Gemini.convert (q_Messages q)) by (unfold Gemini.messagesToGemini; by destruct (q_Messages q)).
  rewrite E. destruct (merged_turns _ _ _ _ _ _ gemini_laws Hc Hg) as [H1 H2]. split; [exact H1|]. refine (eq_trans H2 _).
  rewrite !flat_map_concat_map, concat_map, map_map. done.
Qed.

Lemma scall_inv o tr (r : SdkAns event o) : texec (Chat.scall o) tr r -> tr = [Ev (S := @Chat.sdk_sig event) o r].
Proof. intros H. apply (spec_perform (S := @Chat.sdk_sig event) o (fun tr r => tr = [Ev (S := @Chat.sdk_sig event) o r])); [done|exact H]. Qed.

Lemma chat_generate system build response q :
  (forall text, asks (system text) = [] /\ gives (system text) = [] /\ says (system text) = [Said "system" text]) ->
  (forall ms, cp_Messages (build ms q) = ms) ->
  (forall resp, match cm_Choices resp with [] => response resp = None | ch :: _ => exists p, response resp = Some p /\ p_Content p = ch_Content ch end) ->
  complete (q_Messages q) -> Forall sendable (q_Messages q) ->
  forall k, spec (Chat.generate (event := event) (Chat.messages_with system) build response q) (fun tr o => exists op a, tr = [Ev op a] /\ right_request k q op /\ settled op a o).
Proof.
  intros Hsys Hb Hresp Hc Hs k. destruct (chat_request_right system q Hsys Hc Hs) as (l & E & H1 & H2). unfold Chat.generate. rewrite E.
  intros tr o H. apply texec_bind_inv in H as (t1 & t2 & r & -> & Hr & H). apply texec_ret_inv in H as [-> ->].
  apply (scall_inv (SChat (build l q))) in Hr as ->. exists (SChat (build l q)), r. split; [reflexivity|]. split; [cbn; by rewrite Hb|].
  cbn. destruct r as [err|resp].
  - unfold Chat.wrapLLM. destruct (ve_API err) as [api|];
      [destruct (classified err (ae_StatusCode api) (ae_RetryAfter api) [ae_Type api; ae_Code api; ae_Message api]) as [le Hle]|
       destruct (classified err 0 0 []) as [le Hle]]; by eexists _, le.
  - specialize (Hresp resp). destruct (cm_Choices resp); [by rewrite Hresp|]. destruct Hresp as (p & -> & Hp). by eexists.
Qed.

Lemma chat_stream system build response accumulated thinking q :
  (forall text, asks (system text) = [] /\ gives (system text) = [] /\ says (system text) = [Said "system" text]) ->
  (forall ms, cp_Messages (build ms q) = ms) -> complete (q_Messages q) -> Forall sendable (q_Messages q) ->
  forall k, spec (Chat.generate_stream (event := event) (Chat.messages_with system) build response accumulated thinking q)
    (fun tr s => exists op a, tr = [Ev op a] /\ right_request k q op /\ is_Some s).
Proof.
  intros Hsys Hb Hc Hs k. destruct (chat_request_right system q Hsys Hc Hs) as (l & E & H1 & H2). unfold Chat.generate_stream. rewrite E.
  intros tr o H. apply texec_bind_inv in H as (t1 & t2 & r & -> & Hr & H). apply texec_ret_inv in H as [-> ->].
  apply (scall_inv (SChatStream (Chat.with_usage (build l q)))) in Hr as ->. exists (SChatStream (Chat.with_usage (build l q))), r.
  split; [reflexivity|]. split; [cbn; by rewrite Hb|by eexists].
Qed.

Lemma anthropic_request c caching q : q_Messages q <> [] -> complete (q_Messages q) -> forall k,
  right_request k q (SMessages (Anthropic.buildMessageParams c caching (Anthropic.messagesToAnthropic caching q) q)).
Proof.
  intros Hne Hc k. destruct (anthropic_right caching q Hne Hc) as [H1 H2]. cbn [right_request Anthropic.buildMessageParams ap_Messages ap_System]. split; [done|]. rewrite H2. f_equal.
  unfold system_said. by destruct (String.eqb _ _).
Qed.

Lemma gemini_request model q : q_Messages q <> [] -> complete (q_Messages q) -> Forall (calls_good trimmed) (q_Messages q) -> forall k,
  right_request k q (SContent model (Gemini.messagesToGemini q) (Gemini.buildConfig q)).
Proof.
  intros Hne Hc Hg k. destruct (gemini_right q Hne Hc Hg) as [H1 H2]. cbn [right_request Gemini.buildConfig gc_System]. split; [done|]. rewrite H2. f_equal.
  unfold system_said. by destruct (String.eqb _ _).
Qed.

(** C20: A request can be used by a client when its conversation is complete (every assistant
    message with calls is followed by one result per call) and not empty, and, for the clients of
    chat completions, the arguments of its calls can be written as JSON, for Gemini its call
    names have no space around them. On such a request every model client makes exactly one call
    to its vendor, plain or streamed, whose request says what the system message and the
    conversation say, in the same order, with the same names and arguments and the same call IDs
    (Gemini's calls go without their IDs, its results keep theirs), and in which every tool call
    is answered directly after the message that makes it, by its own results and in their order,
    by ID, or at Gemini by name. A failure comes back as a classified error, and a call only
    panics when a chat completion comes without a choice. *)
Theorem requests_answer_calls k q accumulated accumulate delta_of : usable k q ->
  spec (generate_with k q) (fun tr o => exists op a, tr = [Ev op a] /\ right_request k q op /\ settled op a o) /\
  spec (open_stream k accumulated accumulate delta_of q) (fun tr s => exists op a, tr = [Ev op a] /\ right_request k q op /\ is_Some s).
Proof.
  intros (Hne & Hc & Hk).
  assert (Hresp : forall md resp, match cm_Choices resp with [] => Chat.response_with md resp = None
    | ch :: _ => exists p, Chat.response_with md resp = Some p /\ p_Content p = ch_Content ch end).
  { intros md resp. unfold Chat.response_with. destruct (cm_Choices resp); [done|]. by eexists. }
  destruct k; cbn [generate_with open_stream].
  1-3: split; [apply chat_generate; [done|done|apply Hresp|done|done]|by apply chat_stream].
  - pose proof (anthropic_request c promptCaching q Hne Hc (UseAnthropic c promptCaching)) as HR.
    split; intros tr o H; unfold Anthropic.Generate, Anthropic.GenerateStream in H.
    + apply texec_bind_inv in H as (t1 & t2 & r & -> & Hr & H). apply texec_ret_inv in H as [-> ->]. apply (scall_inv (SMessages _)) in Hr as ->.
      eexists (SMessages _), r. split; [reflexivity|]. split; [exact HR|]. cbn. destruct r as [err|]; [|by eexists].
      unfold Anthropic.wrapLLM. destruct (ve_API err) as [api|];
        [destruct (classified err (ae_StatusCode api) (ae_RetryAfter api) [ae_Type api])|destruct (classified err 0 0 [])]; by eexists _, _.
    + apply texec_bind_inv in H as (t1 & t2 & s & -> & Hs & H). apply texec_ret_inv in H as [-> ->].
      apply texec_bind_inv in Hs as (t3 & t4 & r & -> & Hr & H). apply texec_ret_inv in H as [-> ->]. apply (scall_inv (SMessagesStream _)) in Hr as ->.
      eexists (SMessagesStream _), r. split; [reflexivity|]. split; [exact HR|by eexists].
  - pose proof (gemini_request (g_Model c) q Hne Hc Hk (UseGemini c)) as HR.
    split; intros tr o H; unfold Gemini.Generate, Gemini.GenerateStream in H.
    + apply texec_bind_inv in H as (t1 & t2 & r & -> & Hr & H). apply texec_ret_inv in H as [-> ->]. apply (scall_inv (SContent _ _ _)) in Hr as ->.
      eexists (SContent _ _ _), r. split; [reflexivity|]. split; [exact HR|]. cbn. destruct r as [err|]; [|by eexists].
      unfold Gemini.wrapLLM. destruct (ve_API err) as [api|];
        [destruct (classified err (ae_StatusCode api) 0 [ae_Message api; ae_Type api])|destruct (classified err 0 0 [])]; by eexists _, _.
    + apply texec_bind_inv in H as (t1 & t2 & s & -> & Hs & H). apply texec_ret_inv in H as [-> ->].
      apply texec_bind_inv in Hs as (t3 & t4 & r & -> & Hr & H). apply texec_ret_inv in H as [-> ->]. apply (scall_inv (SContentStream _ _ _)) in Hr as ->.
      eexists (SContentStream _ _ _), r. split; [reflexivity|]. split; [exact HR|by eexists].
Qed.
End generate.

(** ** The stream of Gemini *)

Section gemini_stream.
Import Gemini.

(** The text that was delivered. *)
Definition delivered (s : Stream) : string := foldr (fun c acc => match c with Some c => k_ContentDelta c +:+ acc | None => acc end) "" (sm_Chunks s).

(** Answers whose text repeats and extends that of the one before. *)
Fixpoint cumulative (before : string) (items : list gemini_response) : Prop :=
  match items with
  | [] => True
  | r :: items => (exists more, geminiResponseText r = before +:+ more) /\ cumulative (geminiResponseText r) items
  end.

Lemma skip_prefix a b : skip_bytes (String.length a) (a +:+ b) = b.
Proof. induction a as [|c a IH]; [by destruct b|exact IH]. Qed.

Lemma skip_none s : skip_bytes (String.length s) s = "".
Proof. by induction s. Qed.

Lemma length_append a b : String.length (a +:+ b) = (String.length a + String.length b)%nat.
Proof. induction a as [|c a IH]; [done|]. change (S (String.length (a +:+ b)) = S (String.length a + String.length b)). by rewrite IH. Qed.

Lemma append_nil (s : string) : s +:+ "" = s.
Proof. induction s as [|c s IH]; [done|]. change (String c (s +:+ "") = String c s). by rewrite IH. Qed.

Lemma append_assoc (a b c : string) : a +:+ b +:+ c = (a +:+ b) +:+ c.
Proof. induction a as [|x a IH]; [done|]. change (String x (a +:+ b +:+ c) = String x ((a +:+ b) +:+ c)). by rewrite IH. Qed.

(** What the adapter has shown so far. *)
Definition shown (a : adapter_state) : string := match as_result a with Some r => p_Content r | None => "" end.

Lemma Next_delta a r more : geminiResponseText r = shown a +:+ more ->
  shown (Next a (Some r, None)) = geminiResponseText r /\ as_err (Next a (Some r, None)) = None /\
  k_ContentDelta (Current (Next a (Some r, None))) = more.
Proof.
  intros E. split; [done|]. split; [done|].
  unfold Next, Current. cbn [fst snd k_ContentDelta as_result as_delta]. rewrite E.
  assert (Hn : match as_result a with Some r => String.length (p_Content r) | None => O end = String.length (shown a)) by
    (unfold shown; by destruct (as_result a)).
  rewrite Hn, skip_prefix. destruct (Nat.ltb_spec (String.length (shown a)) (String.length (shown a +:+ more))) as [|Hl]; [done|].
  rewrite length_append in Hl. destruct more; [done|cbn in Hl; lia].
Qed.

Lemma drain_delivers items : forall a, cumulative (shown a) items -> as_err a = None ->
  let d := drain a (map (fun r => (Some r, None)) items) in
  shown d.2 = shown a +:+ delivered {| sm_Chunks := d.1; sm_Err := None; sm_Result := None |} /\ as_err d.2 = None.
Proof.
  induction items as [|r items IH]; intros a; cbn [cumulative map drain].
  - intros _ He. split; [|done]. cbn. by rewrite append_nil.
  - intros [[more Hmore] Hc] He. destruct (Next_delta a r more Hmore) as (H1 & H2 & H3).
    destruct (IH (Next a (Some r, None)) ltac:(by rewrite H1) H2) as [IH1 IH2]. split; [|done]. cbn [snd fst]. rewrite IH1, H1, Hmore.
    unfold delivered at 2. cbn [sm_Chunks foldr]. rewrite H3. by rewrite append_assoc.
Qed.

Lemma items_sent items : sent (map (fun r => (Some r, None)) items) = map (fun r => (Some r, None)) items.
Proof. induction items as [|r items IH]; [done|]. cbn. by rewrite IH. Qed.

(** When every answer repeats the text so far, the deltas add up to the result. *)
Lemma cumulative_stream items : cumulative "" items ->
  let s := adapter (map (fun r => (Some r, None)) items) in
  sm_Err s = None /\ delivered s = match sm_Result s with Some r => p_Content r | None => "" end.
Proof.
  intros Hc. cbv zeta. unfold adapter. rewrite items_sent.
  destruct (drain_delivers items {| as_result := None; as_err := None; as_delta := "" |} Hc eq_refl) as [H1 H2]. cbn [sm_Err sm_Result].
  rewrite H2. split; [done|]. symmetry. exact H1.
Qed.

Definition answer_of (text : string) : gemini_response :=
  {| gr_Candidates := [{| cd_Parts := Some [Some {| pt_Text := text; pt_Thought := false |}]; cd_FinishReason := "" |}];
     gr_FunctionCalls := []; gr_Usage := None; gr_ModelVersion := "" |}.

(** Answers that only carry what is new are lost but for the last; *)
Example incremental_lost :
  let s := adapter [(Some (answer_of "Hello "), None); (Some (answer_of "you"), None)] in
  (delivered s, p_Content <$> sm_Result s) = ("Hello ", Some "you").
Proof. vm_compute. reflexivity. Qed.

(** and an error repeats the delta before it. *)
Example error_repeats_delta :
  delivered (adapter [(Some (answer_of "Hello "), None);
                      (None, Some {| ve_error := errors_New "reset"; ve_panics := false; ve_LLM := None; ve_API := None |})]) = "Hello Hello ".
Proof. vm_compute. reflexivity. Qed.
End gemini_stream.
End LlmFacts.
