(* ===== verification/RestateDefs.v ===== *)
(** The durable agent loop on Restate ([internal/runtime/restate/agent_loop.go],
    [subagent.go], [runtime.go]): its inputs and results, the durable steps with their bodies,
    and the effects of handler code.

    A handler is executed again from the start after a crash, with the answers its commands got
    before taken from a journal.  Its commands are durable steps ([restatesdk.Run] and
    [RunAsync]), awakeables, timers, calls of other services and sends; these are effects,
    answered freely.  What a step does is a program of the base runtime's effects
    ([step_body]); that an answer comes from an execution of the body is [genuine].  The clock
    that stamps events, the counters, the stash of the process and the tools resolver are read
    outside the journal. *)
From S2P Require Import Prelude GoLib Types Prog Policies MemoryConfig Budget CircuitBreaker Telemetry Events TimeText EventsCodec Effects ErrorControl LLM Memory Tools AgentLoop.

#[local] Open Scope string_scope.
#[local] Open Scope list_scope.
#[local] Open Scope Z_scope.

Module Rs.

Definition agentLoopServiceName : string := "AgentLoop".
Definition agentEventLogServiceName : string := "AgentEventLog".
Definition agentLoopRunHandler : string := "Run".
Definition agentLoopStreamHandler : string := "Stream".
Definition agentLoopCancelHandler : string := "Cancel".
Definition defaultEventLogTTL : Duration := 90 * second.

Definition msgToolRejected : string := "Tool execution was rejected by the user.".
Definition msgToolApprovalUnavailable : string :=
  "Tool approval could not be completed because no approval handler is configured; continuing without running the tool.".
Definition msgToolUnauthorized : string := "Tool execution was denied by authorization policy.".
Definition msgToolApprovalTimedOut : string := "Tool approval timed out; continuing without running the tool.".

(** ** Inputs and results *)

(** [SubAgentRoute]; the map of child routes is an association list with distinct keys. *)
Inductive SubAgentRoute :=
| Route (Name ToolName ServiceName : string) (ChildRoutes : list (string * SubAgentRoute)).

Definition rt_Name (r : SubAgentRoute) : string := let '(Route n _ _ _) := r in n.
Definition rt_ServiceName (r : SubAgentRoute) : string := let '(Route _ _ s _) := r in s.
Definition rt_ChildRoutes (r : SubAgentRoute) : list (string * SubAgentRoute) := let '(Route _ _ _ c) := r in c.

Fixpoint find_route (m : list (string * SubAgentRoute)) (k : string) : option SubAgentRoute :=
  match m with
  | [] => None
  | (k', r) :: m => if String.eqb k' k then Some r else find_route m k
  end.

Record agentLoopCore := {
  co_RunID : string; co_UserPrompt : string; co_ConversationID : string; co_EventTopic : string;
  co_EventLogService : string; co_EventTypes : list string; co_MaxSubAgentDepth : Z; co_SubAgentDepth : Z;
  co_SubAgentRoutes : list (string * SubAgentRoute); co_MemoryScope : MemoryScope }.

Record AgentLoopRequest := {
  rq_core : agentLoopCore; rq_AgentName : string; rq_LLMStreamEnabled : bool; rq_StreamHandler : bool }.

Record AgentLoopResponse := { rs_Result : option AgentRunResult }.

(** [AgentLoopInput]; the circuit breaker and its clock are variables of the loop. *)
Record AgentLoopInput := {
  in_core : agentLoopCore; in_StreamingEnabled : bool; in_IsStreamHandler : bool; in_Tools : list Tool }.

(** [stagedRun]: what a run leaves in its process for the handler. *)
Record stagedRun := { sg_tools : list Tool; sg_eventTypes : list string; sg_maxSubAgentDepth : Z }.

Record toolResult := { tr_message : Message; tr_failed : bool; tr_llmUsage : option LLMUsage }.

(** [RestateRuntime]: the base runtime and what the handlers read besides; the event log's
    cleanup is [None] when it is disabled. *)
Record RestateRuntime := {
  rr_Runtime : Runtime;
  rr_approvalHandler : bool;
  rr_agentLoopServiceName : string;
  rr_eventLogServiceName : string;
  rr_hasIngress : bool;
  rr_hasResolver : bool;
  rr_DisableClear : bool;
  rr_TTL : Duration }.

(** ** Run options *)

(** [float32(x)] *)
Definition f32_of_f64 (x : f64) : f64 :=
  match x with
  | SpecFloat.S754_finite s m e => SpecFloat.binary_normalize 24 128 (if s then Z.neg m else Z.pos m) e s
  | _ => x
  end.

(** The options given to [restatesdk.Run]; an option that is not given is [None]. *)
Record run_options := {
  ro_Name : string; ro_MaxRetryAttempts : option Z; ro_InitialRetryInterval : option Duration;
  ro_MaxRetryInterval : option Duration; ro_RetryIntervalFactor : option f64; ro_MaxRetryDuration : option Duration }.

Definition when {A} (b : bool) (a : A) : option A := if b then Some a else None.

Definition policyToRunOpts (name : string) (policy : ExecutionPolicy) : run_options :=
  let r := ep_Retry policy in
  {| ro_Name := name;
     ro_MaxRetryAttempts := when (0 <? ep_MaxAttempts policy) (ep_MaxAttempts policy);
     ro_InitialRetryInterval := when (0 <? rp_InitialInterval r) (rp_InitialInterval r);
     ro_MaxRetryInterval := when (0 <? rp_MaximumInterval r) (rp_MaximumInterval r);
     ro_RetryIntervalFactor := when (f64_ltb f64_zero (rp_BackoffCoefficient r)) (f32_of_f64 (rp_BackoffCoefficient r));
     ro_MaxRetryDuration := when ((0 <? ep_Timeout policy) && (0 <? ep_MaxAttempts policy))
                              (wrap64 (ep_MaxAttempts policy * ep_Timeout policy)) |}.

(** [sdkruntime.ExecutionPolicy{MaxAttempts: 1}] *)
Definition once : ExecutionPolicy :=
  {| ep_Timeout := 0; ep_MaxAttempts := 1;
     ep_Retry := {| rp_InitialInterval := 0; rp_BackoffCoefficient := f64_zero; rp_MaximumInterval := 0 |} |}.

(** ** Durable steps *)

(** The closures given to [executeWithPolicy] and [RunAsync], with the values they capture;
    a streamed model call captures where its events go. *)
Inductive step :=
| SConversationLoad (conversationID : string)
| SMemoryRecall (i : ExecuteMemoryRecallInput)
| SRetrieverPrefetch (i : ExecuteRetrieversInput)
| SNow
| SUUID
| SLLM (stream : option (string * string * list string)) (i : ExecuteLLMInput)
| SLLMFailure (i : LLMFailureInfo)
| SMaxIterations (i : MaxIterationsInfo) (extended : bool)
| SAuthorize (tools : list Tool) (name : string) (args : Args)
| SExecuteTool (i : ExecuteToolInput) (scope : MemoryScope)
| SBreakerState (st : gmap string ToolState)
| SAddMessages (conversationID : string) (ms : list Message)
| SMemoryStore (i : ExecuteMemoryStoreInput).

Definition step_result (s : step) : Type :=
  match s with
  | SConversationLoad _ => list Message
  | SMemoryRecall _ => MemoryResult
  | SRetrieverPrefetch _ => RetrieverResult
  | SNow => Time
  | SUUID => string
  | SLLM _ _ => LLMResult
  | SLLMFailure _ => bool
  | SMaxIterations _ _ => ErrorControlDecision
  | SAuthorize _ _ _ => AuthorizeResult
  | SExecuteTool _ _ => string
  | SBreakerState _ => gmap string ToolState
  | SAddMessages _ _ | SMemoryStore _ => unit
  end.

(** ** Bodies of the steps *)

Definition eventAllowed (eventTypes : list string) (ev : EventBody) : bool := event_allowed eventTypes ev.

Section steps.
Context `{Location} (rt : RestateRuntime).

(** The service an event goes to: that of the stream's owner, or the runtime's own. *)
Definition event_service (eventLogService : string) : string :=
  let service := TrimSpace eventLogService in
  if String.eqb service "" then rr_eventLogServiceName rt else service.

(** The path of the object's handler. *)
Definition publish_path (service topic : string) : string := service +:+ "/" +:+ topic +:+ "/Publish".

(** A send with a fresh idempotency key; its error is logged. *)
Definition emitEventIngress (eventLogService topic : string) (eventTypes : list string) : emitter := fun ev =>
  if negb (rr_hasIngress rt) || negb (eventAllowed eventTypes (ae_Body ev)) || String.eqb (TrimSpace topic) ""
  then mret tt
  else match ToJSON ev with
       | None => mret tt
       | Some _ => _ ← call ONewUUID; call (OPublish (publish_path (event_service eventLogService) topic) ev)
       end.

Definition with_emit (i : ExecuteLLMInput) (e : emitter) : ExecuteLLMInput :=
  {| li_AgentName := li_AgentName i; li_MessageID := li_MessageID i; li_RunID := li_RunID i;
     li_Iteration := li_Iteration i; li_Messages := li_Messages i; li_SkipTools := li_SkipTools i;
     li_MemoryContext := li_MemoryContext i; li_RetrieverContext := li_RetrieverContext i;
     li_Tools := li_Tools i; li_Emit := Some e; li_Client := li_Client i |}.

Definition llm_body (stream : option (string * string * list string)) (i : ExecuteLLMInput) : prog (result LLMResult) :=
  match stream with
  | Some (service, topic, types) => ExecuteLLMStream (rr_Runtime rt) (with_emit i (emitEventIngress service topic types))
  | None => ExecuteLLM (rr_Runtime rt) i
  end.

Definition llm_failure_body (i : LLMFailureInfo) : prog (result bool) :=
  dec ← DecideLLMFailure (rr_Runtime rt) i;
  mret (match dec_Action dec with ErrorControlFallbackModel => inr true | _ => inl (fi_Err i) end).

Definition memory_store_body (i : ExecuteMemoryStoreInput) : prog (result unit) :=
  e ← ExecuteMemoryStore (rr_Runtime rt) i;
  mret (match e with Some err => inl err | None => inr tt end).

Definition step_body (s : step) : prog (S := agent_sig) (result (step_result s)) :=
  match s return prog (S := agent_sig) (result (step_result s)) with
  | SConversationLoad id => FetchConversationMessages (rr_Runtime rt) id
  | SMemoryRecall i => ExecuteMemoryRecall (rr_Runtime rt) i
  | SRetrieverPrefetch i => ExecuteRetrievers (rr_Runtime rt) i
  | SNow => now ← call ONow; mret (inr now)
  | SUUID => id ← call ONewUUID; mret (inr id)
  | SLLM stream i => llm_body stream i
  | SLLMFailure i => llm_failure_body i
  | SMaxIterations i extended => d ← DecideMaxIterations (rr_Runtime rt) i extended; mret (inr d)
  | SAuthorize tools name args => AuthorizeTool (rr_Runtime rt) tools name args
  | SExecuteTool i scope => ExecuteTool (rr_Runtime rt) i scope
  | SBreakerState st => mret (inr st)
  | SAddMessages id ms => _ ← add_messages id ms; mret (inr tt)
  | SMemoryStore i => memory_store_body i
  end.
End steps.

(** ** Effects of handler code *)

Inductive ROp :=
| RSched
| ROutOfFuel
(* outside the journal *)
| RNow
| RBase (o : Op)
| RStashLoad (runID : string)
| RStashDelete (runID : string)
| RResolveTools
(* durable steps *)
| RRun (o : run_options) (s : step)
| RRunAsync (o : run_options) (s : step)              (* its future *)
| RFutResult (s : step) (f : nat)
(* awakeables and timers *)
| RAwakeable                                          (* its id *)
| RAwakeResult (id : string)
| RAfter (d : Duration)
| RWaitApproval (id : string) (timer : nat)           (* [WaitFirst]: is it the timer? *)
| RTimerDone (timer : nat)
| RSleep (d : Duration)
(* other services *)
| RPublish (service topic : string) (raw : string)    (* [Object(...,"Publish").Request] *)
| RSendClear (service topic : string) (delay : Duration)
| RRequest (service handler : string) (req : AgentLoopRequest) (key : string)
| RRequestFuture (service handler : string) (req : AgentLoopRequest) (key : string)
| RWaitResponse (f timer : nat)
| RResponse (f : nat)
| RInvocationId (f : nat)
| RCancelInvocation (id : string).

Definition RAns (o : ROp) : Type :=
  match o with
  | RSched => bool
  | RNow => Time
  | RBase o => Ans o
  | RStashLoad _ => option stagedRun
  | RResolveTools => result (list Tool)
  | RRun _ s => result (step_result s)
  | RRunAsync _ _ => nat
  | RFutResult s _ => result (step_result s)
  | RAwakeable => string
  | RAwakeResult _ => result string
  | RAfter _ => nat
  | RWaitApproval _ _ | RWaitResponse _ _ => result bool
  | RTimerDone _ | RSleep _ | RPublish _ _ _ => option error
  | RRequest _ _ _ _ | RResponse _ => result (option AgentLoopResponse)
  | RRequestFuture _ _ _ _ => nat
  | RInvocationId _ => string
  | _ => unit
  end.

#[export] Instance rs_sig : Sig := {| op := ROp; ans := RAns; sched := RSched; sched_ans := id |}.

Definition rcall (o : ROp) : prog (RAns o) := perform (S := rs_sig) o.

Abbreviation revent := (event rs_sig).

(** [restatesdk.Run(ctx, fn, opts...)] and the [Result] of a [RunAsync] future. *)
Definition run_step (o : run_options) (s : step) : prog (result (step_result s)) := perform (S := rs_sig) (RRun o s).
Definition await_step (s : step) (f : nat) : prog (result (step_result s)) := perform (S := rs_sig) (RFutResult s f).

(** Continue on success, return the error otherwise. *)
Definition bind_rs {A B} (m : prog (S := rs_sig) (result A)) (f : A -> prog (S := rs_sig) (result B))
    : prog (S := rs_sig) (result B) :=
  r ← m; match r with inl e => mret (inl e) | inr a => f a end.

(** An operation of the base runtime in handler code, outside the journal. *)
Fixpoint outside {A} (m : prog (S := agent_sig) A) : prog (S := rs_sig) A :=
  match m with
  | Ret a => Ret a
  | Do o k => Do (S := rs_sig) (RBase o) (fun r => outside (k r))
  end.

(** A successful answer of a durable step is one its closure returned. *)
Definition genuine `{Location} (rt : RestateRuntime) (e : revent) : Prop :=
  match e with
  | Ev o r =>
      match o return RAns o -> Prop with
      | RRun _ s => fun r => forall v, r = inr v -> exists tr, texec (step_body rt s) tr (inr v)
      | RFutResult s _ => fun r => forall v, r = inr v -> exists tr, texec (step_body rt s) tr (inr v)
      | _ => fun _ => True
      end r
  end.
End Rs.

Notation "x ←% m ; k" := (Rs.bind_rs m (fun x => k))
  (at level 20, m at level 100, k at level 200, only parsing) : stdpp_scope.
