(* ===== verification/RestateLoop.v ===== *)
(** The handler code of the durable agent loop ([internal/runtime/restate/agent_loop.go],
    [subagent.go]): events, one tool call, the parallel batch, delegation to the service of a
    sub-agent, budget breaches, the rounds, and the handler around them.  The circuit breaker
    and the budget tracker of a run are values the loop threads; handler code has one thread. *)
From S2P Require Import Prelude GoLib Types Codec Prog Policies MemoryConfig Budget CircuitBreaker Telemetry Events TimeText EventsCodec Effects ErrorControl LLM Memory Tools AgentLoop RestateDefs.

#[local] Open Scope string_scope.
#[local] Open Scope list_scope.
#[local] Open Scope Z_scope.

Module RsLoop.
Import Rs.

Section loop.
Context `{Location} (rt : RestateRuntime).

#[local] Abbreviation base := (rr_Runtime rt).

(** ** Policies *)

Definition executionPolicies : ExecutionPolicies := ResolveExecutionPolicies (ac_ExecutionConfigs (rt_AgentConfig base)).

Definition toolExecutionPolicy (kind : string) (policies : ExecutionPolicies) : ExecutionPolicy :=
  if String.eqb kind ToolKindMCP then po_MCP policies
  else if String.eqb kind ToolKindA2A then po_A2A policies
  else po_ToolExecute policies.

Definition subAgentExecutionPolicy : ExecutionPolicy :=
  let p := po_SubAgent executionPolicies in
  if (ep_Timeout p =? 0) && (0 <? ac_Timeout (rt_AgentConfig base))
  then {| ep_Timeout := ac_Timeout (rt_AgentConfig base); ep_MaxAttempts := ep_MaxAttempts p; ep_Retry := ep_Retry p |}
  else p.

Definition approvalTaskTimeout : Duration :=
  let timeout := ac_ApprovalTimeout (rt_AgentConfig base) in
  if (timeout <=? 0) || (MaxApprovalTimeout <? timeout) then MaxApprovalTimeout else timeout.

(** A named durable step; its error names it. *)
Definition executeWithPolicy (name : string) (policy : ExecutionPolicy) (s : step) : prog (result (step_result s)) :=
  r ← run_step (policyToRunOpts name policy) s;
  mret (match r with inl e => inl (wrap_error (name +:+ ": ") e) | inr v => inr v end).

Section run.
Context (input : AgentLoopInput).

#[local] Abbreviation core := (in_core input).

(** ** Events *)

Definition run_topic : string :=
  let topic := TrimSpace (co_EventTopic core) in if String.eqb topic "" then co_RunID core else topic.

Definition run_event_log : string :=
  let service := TrimSpace (co_EventLogService core) in
  if String.eqb service "" then rr_eventLogServiceName rt else service.

(** An event that cannot be published is logged. *)
Definition emitEvent (eventLogService topic : string) (eventTypes : list string) (ev : AgentEvent) : prog unit :=
  if negb (eventAllowed eventTypes (ae_Body ev)) || String.eqb (TrimSpace topic) "" then mret tt
  else match ToJSON ev with
       | None => mret tt
       | Some raw => _ ← rcall (RPublish (event_service rt eventLogService) topic raw); mret tt
       end.

(** [emit(ev)], for an event built before. *)
Definition emit_built (ev : AgentEvent) : prog unit := emitEvent run_event_log run_topic (co_EventTypes core) ev.

(** [emit(events.NewAgent...Event(...))] *)
Definition emit (b : EventBody) : prog unit := now ← rcall RNow; emit_built (NewEvent b now).

Definition emitToolComplete (messageID toolCallID content : string) : prog unit :=
  _ ← emit (AgentToolCallEndEvent toolCallID);
  emit (AgentToolCallResultEvent messageID toolCallID content MessageRoleTool).

Definition emit_start (messageID : string) (tc : ToolCallRequest) : prog unit :=
  _ ← emit (AgentToolCallStartEvent (tc_ToolCallID tc) (tc_ToolName tc) messageID);
  match Json.marshal_args (tc_Args tc) with
  | Some s => if String.eqb s "" || String.eqb s "null" || String.eqb s "{}" then mret tt
              else emit (AgentToolCallArgsEvent (tc_ToolCallID tc) s)
  | None => mret tt
  end.

(** ** Approvals *)

Definition approval_body (tc : ToolCallRequest) (token : string) : EventBody :=
  match find_route (co_SubAgentRoutes core) (tc_ToolName tc) with
  | Some _ =>
      AgentCustomEvent AgentCustomEventNameSubAgentDelegation
        (AgentCustomEventDelegationValue (as_Name (rt_AgentSpec base)) (tc_ToolDisplayName tc) "" (tc_Args tc) token)
  | None =>
      AgentCustomEvent AgentCustomEventNameToolApproval
        (AgentCustomEventApprovalValue (as_Name (rt_AgentSpec base)) (tc_ToolCallID tc) (tc_ToolName tc)
           (tc_ToolDisplayName tc) (tc_Args tc) token)
  end.

(** The awakeable of the approval and the timer it races. *)
Definition emitApprovalRequest (tc : ToolCallRequest) : prog (string * nat) :=
  token ← rcall RAwakeable;
  _ ← emit (approval_body tc token);
  timer ← rcall (RAfter approvalTaskTimeout);
  mret (token, timer).

Definition wait_approval (p : string * nat) : prog (result string) :=
  first ← rcall (RWaitApproval p.1 p.2);
  match first with
  | inl e => mret (inl e)
  | inr true =>
      d ← rcall (RTimerDone p.2);
      mret (match d with Some e => inl e | None => inr ApprovalStatusTimedOut end)
  | inr false => rcall (RAwakeResult p.1)
  end.

Definition awaitApproval (tc : ToolCallRequest) : prog (result string) :=
  p ← emitApprovalRequest tc; wait_approval p.

(** Nobody can approve. *)
Definition no_approver : bool := negb (in_IsStreamHandler input) && negb (rr_approvalHandler rt).

(** ** Delegation *)

Definition childName (tc : ToolCallRequest) (route : SubAgentRoute) : string :=
  let n := TrimSpace (rt_Name route) in if String.eqb n "" then tc_ToolName tc else n.

Definition childReq (tc : ToolCallRequest) (route : SubAgentRoute) (childRunID : string) : AgentLoopRequest :=
  {| rq_core :=
       {| co_RunID := childRunID; co_UserPrompt := SubAgentQuery (tc_Args tc); co_ConversationID := "";
          co_EventTopic := run_topic; co_EventLogService := run_event_log; co_EventTypes := co_EventTypes core;
          co_MaxSubAgentDepth := co_MaxSubAgentDepth core; co_SubAgentDepth := co_SubAgentDepth core + 1;
          co_SubAgentRoutes := rt_ChildRoutes route;
          co_MemoryScope := SubAgentScope (co_MemoryScope core) (childName tc route) |};
     rq_AgentName := childName tc route; rq_LLMStreamEnabled := in_StreamingEnabled input;
     rq_StreamHandler := in_IsStreamHandler input |}.

Definition invokeSubAgentHandler (service handler : string) (req : AgentLoopRequest) (timeout : Duration)
    : prog (result (option AgentLoopResponse)) :=
  let key := co_RunID (rq_core req) in
  if timeout <=? 0 then rcall (RRequest service handler req key) else
  fut ← rcall (RRequestFuture service handler req key);
  timer ← rcall (RAfter timeout);
  first ← rcall (RWaitResponse fut timer);
  match first with
  | inl e => mret (inl e)
  | inr true =>
      d ← rcall (RTimerDone timer);
      match d with
      | Some e => mret (inl e)
      | None =>
          id ← rcall (RInvocationId fut);
          _ ← (if String.eqb id "" then mret tt else rcall (RCancelInvocation id));
          mret (inl (errors_New ("sub-agent timed out after " +:+ Duration_String timeout)))
      end
  | inr false => rcall (RResponse fut)
  end.

Definition next_backoff (r : RetryPolicy) (backoff : Duration) : Duration :=
  let next := f64_to_int64 (f64_mul (f64_of_Z backoff) (rp_BackoffCoefficient r)) in
  if (0 <? rp_MaximumInterval r) && (rp_MaximumInterval r <? next) then rp_MaximumInterval r
  else if 0 <? next then next else backoff.

Definition sub_agent_failed (e : error) : result (string * option LLMUsage) :=
  inr ("Sub-agent execution failed: " +:+ err_msg e, None).

Definition sub_agent_answer (resp : option AgentLoopResponse) : result (string * option LLMUsage) :=
  inr (match resp with
       | Some {| rs_Result := Some res |} => (ar_Content res, ar_LLMUsage res)
       | _ => ("", None)
       end).

Section delegation.
Context (tc : ToolCallRequest) (route : SubAgentRoute).

Definition sub_agent_handler : string :=
  if in_IsStreamHandler input then agentLoopStreamHandler else agentLoopRunHandler.

Definition run_id_step (attempt : Z) : string := "subagent-run-id-" +:+ tc_ToolCallID tc +:+ "-" +:+ Itoa attempt.

(** [for attempt := 1; attempt <= attempts; attempt++], with [n] attempts left after this one. *)
Fixpoint delegate_attempts (policy : ExecutionPolicy) (n : nat) (attempt : Z) (backoff : Duration)
    : prog (result (string * option LLMUsage)) :=
  childRunID ←% executeWithPolicy (run_id_step attempt) once SUUID;
  r ← invokeSubAgentHandler (TrimSpace (rt_ServiceName route)) sub_agent_handler (childReq tc route childRunID)
        (ep_Timeout policy);
  match r with
  | inr resp => mret (sub_agent_answer resp)
  | inl err =>
      match n with
      | O => mret (sub_agent_failed err)
      | S n =>
          if 0 <? backoff then
            e ← rcall (RSleep backoff);
            match e with
            | Some sleepErr => mret (sub_agent_failed sleepErr)
            | None => delegate_attempts policy n (attempt + 1) (next_backoff (ep_Retry policy) backoff)
            end
          else delegate_attempts policy n (attempt + 1) backoff
      end
  end.

Definition delegation_attempts (policy : ExecutionPolicy) : nat := Z.to_nat (Z.max 1 (ep_MaxAttempts policy)).

(** The deferred STEP_FINISHED event is built before the attempts. *)
Definition delegateToSubAgent : prog (result (string * option LLMUsage)) :=
  if String.eqb (TrimSpace (rt_ServiceName route)) "" then
    mret (inr ("Sub-agent delegation failed: sub-agent AgentLoop service is not configured.", None))
  else if co_MaxSubAgentDepth core <=? co_SubAgentDepth core then
    mret (inr ("Sub-agent delegation refused: maximum nesting depth (" +:+ Itoa (co_MaxSubAgentDepth core) +:+ ") reached.", None))
  else
    _ ← emit (AgentStepStartedEvent (childName tc route));
    now ← rcall RNow;
    let policy := subAgentExecutionPolicy in
    r ← delegate_attempts policy (pred (delegation_attempts policy)) 1 (rp_InitialInterval (ep_Retry policy));
    _ ← emit_built (NewEvent (AgentStepFinishedEvent (childName tc route)) now);
    mret r.
End delegation.

(** ** One tool call *)

Section tool.
Context (messageID : string) (iteration : Z) (policies : ExecutionPolicies) (circuitNow : Time).

Definition tool_result (tc : ToolCallRequest) (content : string) (failed : bool) (usage : option LLMUsage) : toolResult :=
  {| tr_message := tool_message content (tc_ToolName tc) (tc_ToolCallID tc); tr_failed := failed; tr_llmUsage := usage |}.

Definition complete (tc : ToolCallRequest) (content : string) (failed : bool) (usage : option LLMUsage) : prog toolResult :=
  _ ← emitToolComplete messageID (tc_ToolCallID tc) content;
  mret (tool_result tc content failed usage).

(** The condition of the skip; asking can close a breaker whose time is up. *)
Definition circuit_skips (cb : option CircuitBreaker) (tc : ToolCallRequest) : bool * option CircuitBreaker :=
  if bool_decide (is_Some cb) && CountsTowardCircuitBreaker (tc_Unknown tc) (tc_ToolKind tc)
  then IsTripped cb (tc_ToolName tc) circuitNow else (false, cb).

Definition note_unknown (tc : ToolCallRequest) : prog unit :=
  if tc_Unknown tc then mret tt else outside (NoteUnknownTool base (tc_ToolName tc)).

Definition auth_step (tc : ToolCallRequest) : step := SAuthorize (in_Tools input) (tc_ToolName tc) (tc_Args tc).
Definition auth_name (tc : ToolCallRequest) : string := "tool-auth-" +:+ tc_ToolCallID tc.

Definition exec_step (tc : ToolCallRequest) : step :=
  SExecuteTool {| ti_Tools := in_Tools input; ti_ToolName := tc_ToolName tc; ti_Args := tc_Args tc;
                  ti_ToolCallID := tc_ToolCallID tc; ti_RunID := co_RunID core; ti_Iteration := iteration |}
               (co_MemoryScope core).
Definition exec_name (tc : ToolCallRequest) : string := "tool-exec-" +:+ tc_ToolCallID tc.

Definition denied_content (reason : string) : string :=
  if String.eqb reason "" then msgToolUnauthorized else msgToolUnauthorized +:+ " Reason: " +:+ reason.

Definition unexpected_status (status name : string) : string :=
  "unexpected approval status " +:+ Quote status +:+ " for tool " +:+ Quote name.

Definition approval_status (tc : ToolCallRequest) : prog (result string) :=
  if negb (tc_NeedsApproval tc) then mret (inr ApprovalStatusApproved)
  else if no_approver then mret (inr ApprovalStatusUnavailable)
  else awaitApproval tc.

(** The approved call: content, failure and usage of a sub-agent. *)
Definition run_approved (tc : ToolCallRequest) : prog (result (string * bool * option LLMUsage)) :=
  match find_route (co_SubAgentRoutes core) (tc_ToolName tc) with
  | Some route => r ←% delegateToSubAgent tc route; mret (inr (r.1, false, r.2))
  | None =>
      r ← executeWithPolicy (exec_name tc) (toolExecutionPolicy (tc_ToolKind tc) policies) (exec_step tc);
      mret (inr (match r with
                 | inl e => ("Tool execution failed: " +:+ err_msg e, true, None)
                 | inr content => (content, false, None)
                 end))
  end.

Definition after_approval (tc : ToolCallRequest) (status : string) : prog (result (string * bool * option LLMUsage)) :=
  if String.eqb status ApprovalStatusApproved then run_approved tc
  else if String.eqb status ApprovalStatusRejected then mret (inr (msgToolRejected, false, None))
  else if String.eqb status ApprovalStatusUnavailable then mret (inr (msgToolApprovalUnavailable, false, None))
  else if String.eqb status ApprovalStatusTimedOut then mret (inr (msgToolApprovalTimedOut, false, None))
  else mret (inl (errors_New (unexpected_status status (tc_ToolName tc)))).

Definition authorized_call (tc : ToolCallRequest) : prog (result toolResult) :=
  a ← executeWithPolicy (auth_name tc) (po_ToolAuth policies) (auth_step tc);
  match a with
  | inl err => mret (inl (wrap_error ("tool authorization error for " +:+ Quote (tc_ToolName tc) +:+ ": ") err))
  | inr auth =>
      if negb (ar_Allowed auth) then r ← complete tc (denied_content (ar_Reason auth)) false None; mret (inr r)
      else
        status ←% approval_status tc;
        c ←% after_approval tc status;
        r ← complete tc c.1.1 c.1.2 c.2;
        mret (inr r)
  end.

Definition executeSingleTool (cb : option CircuitBreaker) (tc : ToolCallRequest)
    : prog (result toolResult * option CircuitBreaker) :=
  _ ← emit_start messageID tc;
  if IsUnknownTool tc (in_Tools input) then
    _ ← note_unknown tc;
    r ← complete tc (UnknownToolMessage (tc_ToolName tc)) false None;
    mret (inr r, cb)
  else
    let '(skip, cb) := circuit_skips cb tc in
    if skip then
      _ ← outside (NoteCircuitSkip base (tc_ToolName tc));
      r ← complete tc (CircuitBreakerSkippedMessage (tc_ToolName tc)) false None;
      mret (inr r, cb)
    else r ← authorized_call tc; mret (r, cb).

(** *** The batch, in sequence *)

(** An error becomes a tool message; the batch continues. *)
Definition settle (tc : ToolCallRequest) (r : result toolResult) : toolResult :=
  match r with
  | inr res => res
  | inl err => tool_result tc ("Tool execution failed: " +:+ err_msg err) true None
  end.

Fixpoint executeToolsSequential (cb : option CircuitBreaker) (calls : list ToolCallRequest)
    : prog (list toolResult * option CircuitBreaker) :=
  match calls with
  | [] => mret ([], cb)
  | tc :: calls =>
      r ← executeSingleTool cb tc;
      rs ← executeToolsSequential r.2 calls;
      mret (settle tc r.1 :: rs.1, rs.2)
  end.

(** *** The batch, in parallel

    The entries of [states] and [results] at one index.  Each phase goes through the indices in
    order; what runs concurrently are the steps between their start and their collection. *)
Record slot := { sl_tc : ToolCallRequest; sl_approval : string; sl_done : bool; sl_result : toolResult }.

Definition new_slot (tc : ToolCallRequest) : slot :=
  {| sl_tc := tc; sl_approval := ApprovalStatusApproved; sl_done := false;
     sl_result := {| tr_message := zero_message; tr_failed := false; tr_llmUsage := None |} |}.

Definition with_approval (x : slot) (status : string) : slot :=
  {| sl_tc := sl_tc x; sl_approval := status; sl_done := sl_done x; sl_result := sl_result x |}.

Definition writeResult_usage (x : slot) (content : string) (failed : bool) (usage : option LLMUsage) : prog slot :=
  r ← complete (sl_tc x) content failed usage;
  mret {| sl_tc := sl_tc x; sl_approval := sl_approval x; sl_done := true; sl_result := r |}.

Definition writeResult (x : slot) (content : string) (failed : bool) : prog slot := writeResult_usage x content failed None.

Definition write_error (x : slot) (e : error) : prog slot := writeResult x ("Tool execution failed: " +:+ err_msg e) true.

Definition answer_unknown (x : slot) : prog slot :=
  if negb (IsUnknownTool (sl_tc x) (in_Tools input)) then mret x else
  _ ← note_unknown (sl_tc x);
  writeResult x (UnknownToolMessage (tc_ToolName (sl_tc x))) false.

Fixpoint skip_tripped (cb : option CircuitBreaker) (xs : list slot) : prog (list slot * option CircuitBreaker) :=
  match xs with
  | [] => mret ([], cb)
  | x :: xs =>
      let '(skip, cb) := if sl_done x then (false, cb) else circuit_skips cb (sl_tc x) in
      x ← (if skip then
             _ ← outside (NoteCircuitSkip base (tc_ToolName (sl_tc x)));
             writeResult x (CircuitBreakerSkippedMessage (tc_ToolName (sl_tc x))) false
           else mret x);
      rs ← skip_tripped cb xs;
      mret (x :: rs.1, rs.2)
  end.

Definition start_auth (x : slot) : prog (slot * option nat) :=
  if sl_done x then mret (x, None) else
  f ← rcall (RRunAsync (policyToRunOpts (auth_name (sl_tc x)) (po_ToolAuth policies)) (auth_step (sl_tc x)));
  mret (x, Some f).

Definition collect_auth (p : slot * option nat) : prog slot :=
  let '(x, fut) := p in
  match fut with
  | None => mret x
  | Some f =>
      r ← await_step (auth_step (sl_tc x)) f;
      match r with
      | inl err => write_error x err
      | inr auth => if ar_Allowed auth then mret x else writeResult x (denied_content (ar_Reason auth)) false
      end
  end.

Definition request_approval (x : slot) : prog (slot * option (string * nat)) :=
  if sl_done x || negb (tc_NeedsApproval (sl_tc x)) then mret (x, None)
  else if no_approver then mret (with_approval x ApprovalStatusUnavailable, None)
  else p ← emitApprovalRequest (sl_tc x); mret (x, Some p).

Definition collect_approval (p : slot * option (string * nat)) : prog slot :=
  let '(x, pending) := p in
  match pending with
  | None => mret x
  | Some a =>
      r ← wait_approval a;
      match r with
      | inl err => write_error x err
      | inr status => mret (with_approval x status)
      end
  end.

Inductive dispatched := Nothing | Running (f : nat) | Delegated (route : SubAgentRoute).

Definition start_exec (x : slot) : prog (slot * dispatched) :=
  if sl_done x then mret (x, Nothing)
  else
    let tc := sl_tc x in
    if String.eqb (sl_approval x) ApprovalStatusApproved then
      match find_route (co_SubAgentRoutes core) (tc_ToolName tc) with
      | Some route => mret (x, Delegated route)
      | None =>
          f ← rcall (RRunAsync (policyToRunOpts (exec_name tc) (toolExecutionPolicy (tc_ToolKind tc) policies)) (exec_step tc));
          mret (x, Running f)
      end
    else
      x ← (if String.eqb (sl_approval x) ApprovalStatusRejected then writeResult x msgToolRejected false
           else if String.eqb (sl_approval x) ApprovalStatusUnavailable then writeResult x msgToolApprovalUnavailable false
           else if String.eqb (sl_approval x) ApprovalStatusTimedOut then writeResult x msgToolApprovalTimedOut false
           else writeResult x (unexpected_status (sl_approval x) (tc_ToolName tc)) true);
      mret (x, Nothing).

Definition collect_exec (p : slot * dispatched) : prog (slot * dispatched) :=
  let '(x, d) := p in
  match d with
  | Running f =>
      r ← await_step (exec_step (sl_tc x)) f;
      x ← (match r with inl e => write_error x e | inr content => writeResult x content false end);
      mret (x, Nothing)
  | _ => mret p
  end.

Definition run_delegation (p : slot * dispatched) : prog slot :=
  let '(x, d) := p in
  match d with
  | Delegated route =>
      if sl_done x then mret x else
      r ← delegateToSubAgent (sl_tc x) route;
      match r with
      | inl e => write_error x e
      | inr (content, usage) => writeResult_usage x content false usage
      end
  | _ => mret x
  end.

(** From the slots on: every phase in turn. *)
Definition parallel_phases (cb : option CircuitBreaker) (xs : list slot) : prog (list slot * option CircuitBreaker) :=
  xs ← traverse answer_unknown xs;
  s ← skip_tripped cb xs;
  auths ← traverse start_auth s.1;
  xs ← traverse collect_auth auths;
  pending ← traverse request_approval xs;
  xs ← traverse collect_approval pending;
  running ← traverse start_exec xs;
  running ← traverse collect_exec running;
  xs ← traverse run_delegation running;
  mret (xs, s.2).

Definition executeToolsParallel (cb : option CircuitBreaker) (calls : list ToolCallRequest)
    : prog (list toolResult * option CircuitBreaker) :=
  match calls with
  | [] => mret ([], cb)
  | [_] => executeToolsSequential cb calls
  | _ =>
      _ ← traverse (emit_start messageID) calls;
      r ← parallel_phases cb (map new_slot calls);
      mret (map sl_result r.1, r.2)
  end.
End tool.

(** ** Budget breaches *)

Definition awaitBudgetApproval (tracker : option BudgetTracker) (detail : string) : prog (result bool) :=
  token ← rcall RAwakeable;
  let totals := Totals tracker in
  _ ← emit (AgentCustomEvent AgentCustomEventNameBudget
              (AgentCustomEventBudgetValue (as_Name (rt_AgentSpec base)) detail totals.1 totals.2 token));
  timer ← rcall (RAfter approvalTaskTimeout);
  first ← rcall (RWaitApproval token timer);
  match first with
  | inl e => mret (inl e)
  | inr true =>
      d ← rcall (RTimerDone timer);
      mret (match d with Some e => inl e | None => inr false end)
  | inr false =>
      status ←% rcall (RAwakeResult token);
      mret (inr (String.eqb status ApprovalStatusApproved))
  end.

Definition budget_stop (tracker : option BudgetTracker) (tel : AgentTelemetry) (detail : string)
    : option error * option BudgetTracker * AgentTelemetry :=
  (Some (sentinel_with_msg ErrBudgetExceeded detail), tracker, upd_run (set_finish FinishReasonBudgetExceeded) tel).

(** The error that stops the run, the tracker and the telemetry. *)
Definition handleBudgetExceeded (tracker : option BudgetTracker) (tel : AgentTelemetry) (detail : string)
    : prog (option error * option BudgetTracker * AgentTelemetry) :=
  let action := match ac_Budget (rt_AgentConfig base) with
                | Some cfg => if String.eqb (cfg_OnExceeded cfg) "" then BudgetStopRun else cfg_OnExceeded cfg
                | None => BudgetStopRun
                end in
  if String.eqb action BudgetWaitForApproval then
    r ← awaitBudgetApproval tracker detail;
    mret (match r with
          | inr true => (None, (AdvanceWatermark tracker).2, tel)
          | _ => budget_stop tracker tel detail
          end)
  else mret (budget_stop tracker tel detail).

Definition enforceBudget (tracker : option BudgetTracker) : bool :=
  bool_decide (is_Some tracker) && (co_SubAgentDepth core =? 0).

Definition checkBudget (tracker : option BudgetTracker) (tel : AgentTelemetry) (usage : option LLMUsage)
    : prog (option error * option BudgetTracker * AgentTelemetry) :=
  let '(breach, t) := Add tracker usage in
  if negb (enforceBudget tracker) then mret (None, t, tel)
  else match breach with
       | None => mret (None, t, tel)
       | Some be => handleBudgetExceeded t tel (BudgetExceededError_Error be)
       end.
End run.
End loop.
End RsLoop.
