(* ===== verification/RestateRun.v ===== *)
(** The rounds of the durable agent loop and the handlers [Run], [Stream] and [Cancel] of its
    service ([internal/runtime/restate/agent_loop.go]). *)
From S2P Require Import Prelude GoLib Types Codec Prog Policies MemoryConfig Budget CircuitBreaker Telemetry Events TimeText EventsCodec Effects ErrorControl LLM Memory Tools AgentLoop RestateDefs RestateLoop.

#[local] Open Scope string_scope.
#[local] Open Scope list_scope.
#[local] Open Scope Z_scope.

Module RsRun.
Import Rs RsLoop.

(** The variables of the loop: those of the local one, the tracker and the breaker. *)
Record vars := { v_loop : loop_state; v_budget : option BudgetTracker; v_breaker : option CircuitBreaker }.

Definition on_loop (f : loop_state -> loop_state) (s : vars) : vars :=
  {| v_loop := f (v_loop s); v_budget := v_budget s; v_breaker := v_breaker s |}.
Definition with_cb (s : vars) (cb : option CircuitBreaker) : vars :=
  {| v_loop := v_loop s; v_budget := v_budget s; v_breaker := cb |}.

(** After [checkBudget]: its tracker and telemetry. *)
Definition charged (s : vars) (t : option BudgetTracker) (tel : AgentTelemetry) : vars :=
  {| v_loop := set_telemetry (v_loop s) tel; v_budget := t; v_breaker := v_breaker s |}.

Definition v_messages (s : vars) : list Message := ls_messages (v_loop s).
Definition v_telemetry (s : vars) : AgentTelemetry := ls_telemetry (v_loop s).

Definition add_message (m : Message) (s : vars) : vars := on_loop (fun l => set_messages l (ls_messages l ++ [m])) s.

Definition stop_with (s : vars) (e : error) : loop_outcome := Stopped (Some (partial_result (v_loop s))) e.

Inductive round_result :=
| RNext (s : vars)
| RBreak (s : vars)
| RReturn (o : loop_outcome).

Section loop.
Context `{Location} (rt : RestateRuntime).

#[local] Abbreviation base := (rr_Runtime rt).

Section run.
Context (input : AgentLoopInput).

#[local] Abbreviation core := (in_core input).

(** ** Model calls *)

Definition llm_stream : option (string * string * list string) :=
  when (in_StreamingEnabled input) (run_event_log rt input, run_topic input, co_EventTypes core).

Definition executeLLMStep (policy : ExecutionPolicy) (llmIn : ExecuteLLMInput) (iter : Z) (stepPrefix : string)
    (useFallback : bool) : prog (result LLMResult) :=
  match (if useFallback
         then match ResolveLLMClient base true with inl e => inl e | inr c => inr (with_client llmIn c) end
         else inr llmIn) with
  | inl e => mret (inl e)
  | inr llmIn => executeWithPolicy ("llm-" +:+ stepPrefix +:+ Itoa iter) policy (SLLM llm_stream llmIn)
  end.

(** The result and whether the fallback client is in use from now on. *)
Definition executeLLMStepWithErrorControl (policy : ExecutionPolicy) (llmIn : ExecuteLLMInput) (iter : Z)
    (stepPrefix : string) (useFallback : bool) : prog (result (LLMResult * bool)) :=
  r ← executeLLMStep policy llmIn iter stepPrefix useFallback;
  match r with
  | inr res => mret (inr (res, useFallback))
  | inl err =>
      if useFallback then mret (inl err) else
      useFB ←% executeWithPolicy ("llm-failure-" +:+ stepPrefix +:+ Itoa iter) once
                 (SLLMFailure {| fi_Attempt := LLMPolicyAttempts (ep_MaxAttempts policy); fi_Err := err |});
      res ←% executeLLMStep policy llmIn iter (stepPrefix +:+ "fallback-") true;
      mret (inr (res, useFB))
  end.

(** ** Accounting for the results of a batch *)

Definition to_local (r : toolResult) : AgentLoop.toolResult :=
  {| AgentLoop.tr_message := tr_message r; AgentLoop.tr_failed := tr_failed r |}.

(** The message, the counters and the breaker of one result. *)
Definition account (now : Time) (tc : ToolCallRequest) (r : toolResult) (s : vars) : vars :=
  with_cb (on_loop (fun l => set_telemetry l (record_tool (ls_telemetry l) tc (to_local r))) (add_message (tr_message r) s))
    (ApplyToolCircuitResult (v_breaker s) (tc_Unknown tc) (tc_ToolKind tc) (tc_ToolName tc) (tc_Args tc) (tr_failed r) now).

Definition merge_usage (u : option LLMUsage) (s : vars) : vars :=
  on_loop (fun l => after_llm l false u (ls_telemetry l)) s.

Definition check_budget (s : vars) (usage : option LLMUsage) : prog (option error * vars) :=
  b ← checkBudget rt input (v_budget s) (v_telemetry s) usage;
  mret (b.1.1, charged s b.1.2 b.2).

Definition charge_child (s : vars) (usage : option LLMUsage) : prog (option error * vars) :=
  match usage with
  | None => mret (None, s)
  | Some _ => check_budget (merge_usage usage s) usage
  end.

(** [for idx, res := range toolResults] *)
Fixpoint collect (now : Time) (calls : list ToolCallRequest) (rs : list toolResult) (s : vars)
    : prog (loop_outcome + vars) :=
  match calls, rs with
  | tc :: calls, r :: rs =>
      c ← charge_child (account now tc r s) (tr_llmUsage r);
      match c.1 with
      | Some err => mret (inl (stop_with c.2 err))
      | None => collect now calls rs c.2
      end
  | _, _ => mret (inr s)
  end.

(** ** Conversation *)

Definition conversationMemoryEnabled : bool :=
  negb (String.eqb (co_ConversationID core) "") && ac_Conversation (rt_AgentConfig base).

Definition persistConversationMessages (ms : list Message) : prog unit :=
  if negb (ac_Conversation (rt_AgentConfig base)) || bool_decide (ms = []) then mret tt
  else
    _ ← executeWithPolicy "conversation-save" (po_Conversation (executionPolicies rt)) (SAddMessages (co_ConversationID core) ms);
    mret tt.

Definition unsaved (s : vars) : list Message := drop (ls_persisted (v_loop s)) (v_messages s).

Definition save_iteration (s : vars) : prog vars :=
  if conversationMemoryEnabled && ac_ConversationSaveOnIteration (rt_AgentConfig base) &&
     (ls_persisted (v_loop s) <? length (v_messages s))%nat
  then _ ← persistConversationMessages (unsaved s);
       mret (on_loop (fun l => set_persisted l (length (v_messages s))) s)
  else mret s.

(** ** One round *)

Section round.
Context (memoryContext retrieverContext : string) (originalMaxIter : Z).

#[local] Abbreviation policies := (executionPolicies rt).

Definition llm_input (messageID : string) (iter : Z) (s : vars) (skipTools : bool) : ExecuteLLMInput :=
  {| li_AgentName := as_Name (rt_AgentSpec base); li_MessageID := messageID; li_RunID := co_RunID core;
     li_Iteration := iter; li_Messages := v_messages s; li_SkipTools := skipTools;
     li_MemoryContext := memoryContext; li_RetrieverContext := retrieverContext;
     li_Tools := in_Tools input; li_Emit := None; li_Client := None |}.

Definition toolExecMode : string :=
  if String.eqb (rt_ToolExecutionMode base) "" then AgentToolExecutionModeParallel else rt_ToolExecutionMode base.

Definition run_tools (messageID : string) (iter : Z) (now : Time) (cb : option CircuitBreaker) (calls : list ToolCallRequest)
    : prog (result (list toolResult * option CircuitBreaker)) :=
  if String.eqb toolExecMode AgentToolExecutionModeParallel
  then r ← executeToolsParallel rt input messageID iter policies now cb calls; mret (inr r)
  else if String.eqb toolExecMode AgentToolExecutionModeSequential
  then r ← executeToolsSequential rt input messageID iter policies now cb calls; mret (inr r)
  else mret (inl (errors_New ("invalid tool execution mode " +:+ Quote toolExecMode +:+ ": use " +:+
                    Quote AgentToolExecutionModeParallel +:+ " or " +:+ Quote AgentToolExecutionModeSequential))).

Definition snapshot_breaker (iter : Z) (s : vars) : prog (result vars) :=
  match v_breaker s with
  | None => mret (inr s)
  | Some _ =>
      snap ←% executeWithPolicy ("cb-" +:+ Itoa iter) once (SBreakerState (State (v_breaker s)));
      mret (inr (with_cb s (Restore (v_breaker s) snap)))
  end.

Definition tool_round (messageID : string) (iter : Z) (now : Time) (res : LLMResult) (s : vars) : prog round_result :=
  let s := add_message (assistant_message res) s in
  rs ← run_tools messageID iter now (v_breaker s) (lr_ToolCalls res);
  match rs with
  | inl err => mret (RReturn (Stopped None err))
  | inr (rs, cb) =>
      r ← collect now (lr_ToolCalls res) rs (with_cb s cb);
      match r with
      | inl o => mret (RReturn o)
      | inr s =>
          s ← snapshot_breaker iter s;
          match s with
          | inl err => mret (RReturn (Stopped None err))
          | inr s => s ← save_iteration s; mret (RNext s)
          end
      end
  end.

(** The iteration limit is reached: one last call without tools. *)
Definition final_call (iter : Z) (s : vars) : prog round_result :=
  id ← executeWithPolicy ("message-id-final-" +:+ Itoa iter) once SUUID;
  match id with
  | inl err => mret (RReturn (Stopped None err))
  | inr messageID =>
      r ← executeLLMStepWithErrorControl (po_LLM policies) (llm_input messageID iter s true) iter "final-"
            (ls_useFallback (v_loop s));
      match r with
      | inl err => mret (RReturn (Stopped None (wrap_error ("llm final call (iter " +:+ Itoa iter +:+ "): ") err)))
      | inr (res, _) =>
          b ← check_budget (merge_usage (lr_Usage res) s) (lr_Usage res);
          match b.1 with
          | Some err => mret (RReturn (stop_with b.2 err))
          | None =>
              mret (RBreak (on_loop (fun l => with_answer l (lr_Content res)
                (upd_run (fun r => set_finish FinishReasonMaxIterations (add_llm_call r)) (ls_telemetry l))) b.2))
          end
      end
  end.

(** What follows an answer with tool calls. *)
Definition after_calls (messageID : string) (iter : Z) (now : Time) (res : LLMResult) (s : vars) : prog round_result :=
  if iter =? ls_maxIter (v_loop s) - 1 then
    dec ← executeWithPolicy ("max-iter-" +:+ Itoa iter) once
      (SMaxIterations {| mi_IterationCount := iter + 1; mi_MaxIterations := originalMaxIter;
                         mi_LastAction := LastToolAction (map tc_ToolName (lr_ToolCalls res)) |} (ls_extended (v_loop s)));
    match dec with
    | inl err => mret (RReturn (Stopped None err))
    | inr dec =>
        match dec_Action dec with
        | ErrorControlExtendIterations =>
            tool_round messageID iter now res (on_loop (fun l => extend_iterations l (dec_ExtraIterations dec)) s)
        | _ => final_call iter s
        end
    end
  else tool_round messageID iter now res s.

Definition llm_round (iter : Z) (now : Time) (s : vars) : prog round_result :=
  id ← executeWithPolicy ("message-id-" +:+ Itoa iter) once SUUID;
  match id with
  | inl err => mret (RReturn (Stopped None err))
  | inr messageID =>
      r ← executeLLMStepWithErrorControl (po_LLM policies) (llm_input messageID iter s false) iter ""
            (ls_useFallback (v_loop s));
      match r with
      | inl err => mret (RReturn (Stopped None err))
      | inr (res, usedFB) =>
          b ← check_budget (on_loop (fun l => after_llm l usedFB (lr_Usage res) (upd_run add_llm_call (ls_telemetry l))) s)
                (lr_Usage res);
          match b.1 with
          | Some err => mret (RReturn (stop_with b.2 err))
          | None =>
              match lr_ToolCalls res with
              | [] => mret (RBreak (on_loop (fun l => with_answer l (lr_Content res) (ls_telemetry l)) b.2))
              | _ => after_calls messageID iter now res b.2
              end
          end
      end
  end.

(** The body of [for iter := 0; iter < maxIter; iter++]; the breaker's clock is journaled. *)
Definition round (iter : Z) (s : vars) : prog round_result :=
  match v_breaker s with
  | None => llm_round iter 0 s
  | Some _ =>
      now ← executeWithPolicy ("cb-now-" +:+ Itoa iter) once SNow;
      match now with
      | inl err => mret (RReturn (Stopped None err))
      | inr now => llm_round iter now s
      end
  end.

Fixpoint rounds (fuel : nat) (iter : Z) (s : vars) : prog (loop_outcome + vars) :=
  if ls_maxIter (v_loop s) <=? iter then mret (inr s) else
  match fuel with
  | O => _ ← rcall ROutOfFuel; mret (inr s)
  | S fuel =>
      r ← round iter s;
      match r with
      | RReturn o => mret (inl o)
      | RBreak s => mret (inr s)
      | RNext s => rounds fuel (iter + 1) s
      end
  end.
End round.

(** ** Before and after the rounds *)

Definition load_history : prog (list Message * nat) :=
  let prompt := [text_message MessageRoleUser (co_UserPrompt core)] in
  if conversationMemoryEnabled then
    r ← executeWithPolicy "conversation-load" (po_Conversation (executionPolicies rt)) (SConversationLoad (co_ConversationID core));
    mret (match r with inl _ => (prompt, 0%nat) | inr conv => (conv ++ prompt, length conv) end)
  else mret (prompt, 0%nat).

Definition recall_memory : prog (result MemoryResult) :=
  if MemoryConfigured base && RecallEnabled base then
    r ← executeWithPolicy "memory-recall" (po_Memory (executionPolicies rt))
          (SMemoryRecall {| mri_RunID := co_RunID core; mri_Iteration := 0; mri_Scope := co_MemoryScope core;
                            mri_Query := co_UserPrompt core |});
    mret (match r with inl e => inl (wrap_error "memory recall: " e) | inr m => inr m end)
  else mret (inr {| mr_Context := ""; mr_TotalRecalls := 0; mr_FailedRecalls := 0 |}).

Definition prefetch : prog (result RetrieverResult) :=
  if prefetch_enabled base then
    r ← executeWithPolicy "retriever-prefetch" (po_Retriever (executionPolicies rt))
          (SRetrieverPrefetch {| eri_RunID := co_RunID core; eri_Iteration := 0; eri_Query := co_UserPrompt core |});
    mret (match r with inl e => inl (wrap_error "retriever prefetch: " e) | inr m => inr m end)
  else mret (inr {| rr_Context := ""; rr_TotalSearches := 0; rr_FailedSearches := 0 |}).

Definition store_memory (s : vars) : prog vars :=
  if RunEndMemoryStoreEnabled base then
    e ← executeWithPolicy "memory-store" (po_Memory (executionPolicies rt))
          (SMemoryStore {| esi_RunID := co_RunID core; esi_Iteration := 0; esi_Scope := co_MemoryScope core;
                           esi_Messages := v_messages s |});
    mret (on_loop (fun l => set_telemetry l
            (upd_storage (match e with inl _ => add_memory 0 0 0 1 | inr _ => add_memory 0 0 1 0 end) (ls_telemetry l))) s)
  else mret s.

Definition finish_run (s : vars) : prog loop_outcome :=
  _ ← (if conversationMemoryEnabled && (ls_persisted (v_loop s) <? length (v_messages s))%nat
       then persistConversationMessages (unsaved s) else mret tt);
  s ← store_memory s;
  now ← rcall RNow;
  mret (Finished {| al_Content := ls_lastContent (v_loop s); al_LLMUsage := ls_llmUsage (v_loop s);
                    al_Telemetry := upd_run (set_completed now) (v_telemetry s) |}).

Definition maxIterations : Z := EffectiveMaxIterations (ac_MaxIterations (rt_AgentConfig base)).

Definition initial_vars (h : list Message * nat) (m : MemoryResult) (r : RetrieverResult) (startedAt : Time) : vars :=
  {| v_loop := initial_state maxIterations h.1 h.2
       (upd_storage (fun sg => add_searches (rr_TotalSearches r) (rr_FailedSearches r) (rr_TotalSearches r) 0
                                 (add_memory (mr_TotalRecalls m) (mr_FailedRecalls m) 0 0 sg)) (NewAgentTelemetry startedAt));
     v_budget := NewBudgetTracker (ac_Budget (rt_AgentConfig base));
     v_breaker := NewCircuitBreaker (ac_ErrorControl (rt_AgentConfig base)) |}.

Definition executeAgentLoop : prog loop_outcome :=
  startedAt ← rcall RNow;
  h ← load_history;
  m ← recall_memory;
  match m with
  | inl err => mret (Stopped None err)
  | inr m =>
      r ← prefetch;
      match r with
      | inl err => mret (Stopped None err)
      | inr r =>
          o ← rounds (mr_Context m) (rr_Context r) maxIterations (round_fuel maxIterations) 0 (initial_vars h m r startedAt);
          match o with
          | inl o => mret o
          | inr s => finish_run s
          end
      end
  end.
End run.

(** ** The handlers *)

(** The name of an agent is ASCII ([AgentConfig.validateAgentName]). *)
Definition validateAgentName (agentName : string) : option error :=
  let agentName := TrimSpace agentName in
  if String.eqb agentName "" || EqualFold agentName (TrimSpace (as_Name (rt_AgentSpec base))) then None
  else Some (errors_New ("restate: agent name " +:+ Quote agentName +:+ " does not match this AgentLoop (" +:+
                         Quote (as_Name (rt_AgentSpec base)) +:+ ")")).

Definition isMemoryScopeSet (scope : MemoryScope) : bool :=
  negb (String.eqb (TrimSpace (sc_UserID scope)) "") || negb (String.eqb (TrimSpace (sc_TenantID scope)) "") ||
  negb (String.eqb (TrimSpace (sc_AgentID scope)) "") || negb (bool_decide (sc_Tags scope = ∅)).

Definition isApplicationLoopError (err : error) : bool :=
  errors_Is err ErrBudgetExceeded || errors_Is err ErrBudgetApprovalUnavailable.

(** Terminal errors are Restate's: whether an error is one, and how one is made of an error. *)
Context (IsTerminalError : error -> bool) (ToTerminalError : error -> error).

Definition terminalLoopError (err : error) : error :=
  if IsTerminalError err then err
  else if errors_Is err ErrBudgetExceeded then sentinel_wrapping ErrBudgetExceeded (ToTerminalError err)
  else if errors_Is err ErrBudgetApprovalUnavailable then sentinel_wrapping ErrBudgetApprovalUnavailable (ToTerminalError err)
  else err.

Definition resolveTools (staged : option stagedRun) : prog (result (list Tool)) :=
  match staged with
  | Some {| sg_tools := (_ :: _) as tools |} => mret (inr tools)
  | _ => if rr_hasResolver rt then rcall RResolveTools else mret (inr [])
  end.

Definition no_staged : stagedRun := {| sg_tools := []; sg_eventTypes := []; sg_maxSubAgentDepth := 0 |}.

Definition handler_event_types (staged : stagedRun) (req : AgentLoopRequest) : list string :=
  match sg_eventTypes staged, co_EventTypes (rq_core req) with
  | (_ :: _) as l, _ => l
  | [], (_ :: _) as l => l
  | [], [] => if rq_StreamHandler req then [AgentEventAll] else if rr_approvalHandler rt then ["CUSTOM"] else []
  end.

(** The values of the handler's context decide a scope that the request does not set. *)
Definition handler_scope (ctx : Ctx) (req : AgentLoopRequest) : MemoryScope :=
  if isMemoryScopeSet (co_MemoryScope (rq_core req)) then co_MemoryScope (rq_core req)
  else match ResolveMemoryScope base ctx with inl _ => zero_scope | inr s => s end.

Definition handler_input (ctx : Ctx) (staged : stagedRun) (tools : list Tool) (req : AgentLoopRequest) : AgentLoopInput :=
  let c := rq_core req in
  {| in_core :=
       {| co_RunID := co_RunID c; co_UserPrompt := co_UserPrompt c; co_ConversationID := co_ConversationID c;
          co_EventTopic := (let topic := TrimSpace (co_EventTopic c) in if String.eqb topic "" then co_RunID c else topic);
          co_EventLogService := TrimSpace (co_EventLogService c);
          co_EventTypes := handler_event_types staged req;
          co_MaxSubAgentDepth := if sg_maxSubAgentDepth staged =? 0 then co_MaxSubAgentDepth c else sg_maxSubAgentDepth staged;
          co_SubAgentDepth := co_SubAgentDepth c; co_SubAgentRoutes := co_SubAgentRoutes c;
          co_MemoryScope := handler_scope ctx req |};
     in_StreamingEnabled := rq_LLMStreamEnabled req && rq_StreamHandler req;
     in_IsStreamHandler := rq_StreamHandler req;
     in_Tools := match tools with [] => sg_tools staged | _ => tools end |}.

Definition eventLogTTL : Duration := if rr_TTL rt <=? 0 then defaultEventLogTTL else rr_TTL rt.

(** The event log of a root run is cleared once its readers had the time to drain it. *)
Definition schedule_clear (i : AgentLoopInput) : prog unit :=
  let c := in_core i in
  if negb (rr_DisableClear rt) && negb (String.eqb (co_EventTopic c) "") && (co_SubAgentDepth c =? 0) &&
     (in_IsStreamHandler i || negb (bool_decide (co_EventTypes c = [])))
  then rcall (RSendClear (rr_eventLogServiceName rt) (co_EventTopic c) eventLogTTL)
  else mret tt.

Definition run_result (runID : string) (r : AgentLoopResult) : AgentRunResult :=
  {| ar_Content := al_Content r; ar_AgentName := TrimSpace (as_Name (rt_AgentSpec base));
     ar_Model := l_Model (ac_LLMClient (rt_AgentConfig base)); ar_Metadata := Some ∅; ar_RunID := runID;
     ar_LLMUsage := al_LLMUsage r; ar_Telemetry := Some (al_Telemetry r) |}.

Definition handle (ctx : Ctx) (req : AgentLoopRequest) : prog (result AgentLoopResponse) :=
  match validateAgentName (rq_AgentName req) with
  | Some err => mret (inl err)
  | None =>
      let runID := co_RunID (rq_core req) in
      staged ← rcall (RStashLoad runID);
      staged' ← rcall (RStashLoad runID);
      tools ←% resolveTools staged';
      let input := handler_input ctx (default no_staged staged) tools req in
      o ← executeAgentLoop input;
      match o with
      | Stopped _ err =>
          _ ← (if isApplicationLoopError err then rcall (RStashDelete runID) else mret tt);
          mret (inl (terminalLoopError err))
      | Finished r =>
          _ ← rcall (RStashDelete runID);
          _ ← schedule_clear input;
          mret (inr {| rs_Result := Some (run_result runID r) |})
      end
  end.

Definition with_handler (req : AgentLoopRequest) (stream : bool) : AgentLoopRequest :=
  {| rq_core := rq_core req; rq_AgentName := rq_AgentName req; rq_LLMStreamEnabled := rq_LLMStreamEnabled req;
     rq_StreamHandler := stream |}.

Definition Run (ctx : Ctx) (req : AgentLoopRequest) : prog (result AgentLoopResponse) := handle ctx (with_handler req false).
Definition Stream (ctx : Ctx) (req : AgentLoopRequest) : prog (result AgentLoopResponse) := handle ctx (with_handler req true).

Definition Cancel (invocationID : string) : prog (option error) :=
  let invocationID := TrimSpace invocationID in
  if String.eqb invocationID "" then mret (Some (errors_New "restate: Cancel requires invocation_id"))
  else _ ← rcall (RCancelInvocation invocationID); mret None.
End loop.
End RsRun.
