(* ===== verification/RestateFacts.v ===== *)
(** What each part of the durable loop on Restate can do: the kinds of effects it performs, and
    tactics to walk through handler code. *)
From S2P Require Import Prelude GoLib Types Codec Prog ProgSpec Policies MemoryConfig Budget CircuitBreaker Telemetry Events TimeText EventsCodec Effects ErrorControl LLM Memory Tools AgentLoop RestateDefs RestateLoop RestateRun.

#[local] Open Scope string_scope.
#[local] Open Scope list_scope.
#[local] Open Scope Z_scope.

Module RsFacts.
Import Rs RsLoop RsRun.

(** ** Kinds of effects *)

Inductive kind :=
| KQuiet      (* clock, identifiers, counters, timers, results of tool steps *)
| KPublish    (* events *)
| KLlm | KLlmFailure | KAuthorize | KAwait | KTool | KDecide | KPersist | KMemory | KBreaker
| KStash | KClear | KFuel.

#[export] Instance kind_eq_dec : EqDecision kind.
Proof. solve_decision. Defined.

Definition step_kind (s : step) : kind :=
  match s with
  | SNow | SUUID => KQuiet
  | SLLM _ _ => KLlm
  | SLLMFailure _ => KLlmFailure
  | SMaxIterations _ _ => KDecide
  | SAuthorize _ _ _ => KAuthorize
  | SExecuteTool _ _ => KTool
  | SBreakerState _ => KBreaker
  | SAddMessages _ _ | SConversationLoad _ => KPersist
  | SMemoryRecall _ | SRetrieverPrefetch _ | SMemoryStore _ => KMemory
  end.

Definition op_kind (o : ROp) : kind :=
  match o with
  | RRun _ s | RRunAsync _ s => step_kind s
  | RFutResult s _ => match step_kind s with KTool => KQuiet | k => k end
  | RAwakeable | RAwakeResult _ => KAwait
  | RPublish _ _ _ => KPublish
  | RRequest _ _ _ _ | RRequestFuture _ _ _ _ => KTool
  | RStashLoad _ | RStashDelete _ | RResolveTools => KStash
  | RSendClear _ _ _ => KClear
  | ROutOfFuel => KFuel
  | _ => KQuiet
  end.

Definition event_kind (e : revent) : kind := op_kind (ev_op e).

(** Quiet, or of one of the kinds. *)
Definition within (ks : list kind) (e : revent) : Prop := event_kind e = KQuiet \/ In (event_kind e) ks.

Lemma within_rs_incl ks ks' e : incl ks ks' -> within ks e -> within ks' e.
Proof. intros H [?|?]; [by left|right; auto]. Qed.

Lemma only_rs_incl ks ks' {A} (m : prog A) : incl ks ks' -> only (within ks) m -> only (within ks') m.
Proof. intros H. apply only_mono. intros e. by apply within_rs_incl. Qed.

Lemma within_rs_not ks k e : k <> KQuiet -> ~ In k ks -> within ks e -> event_kind e <> k.
Proof. intros Hq Hk [->|Hin] He; [by apply Hq|by rewrite He in Hin]. Qed.

(** ** One effect *)

Lemma only_rcall (P : revent -> Prop) o : (forall r, P (Ev (S := rs_sig) o r)) -> only P (rcall o).
Proof. apply (only_perform (S := rs_sig)). Qed.

Lemma only_step (P : revent -> Prop) o s : (forall r, P (Ev (S := rs_sig) (RRun o s) r)) -> only P (run_step o s).
Proof. apply (only_perform (S := rs_sig) P (RRun o s)). Qed.

Lemma only_await (P : revent -> Prop) s f : (forall r, P (Ev (S := rs_sig) (RFutResult s f) r)) -> only P (await_step s f).
Proof. apply (only_perform (S := rs_sig) P (RFutResult s f)). Qed.

Lemma only_rs (P : revent -> Prop) {A B} (m : prog (result A)) (f : A -> prog (result B)) :
  only P m -> (forall a, only P (f a)) -> only P (bind_rs m f).
Proof. intros Hm Hf. apply only_bind; [done|]. intros [e|a]; [apply only_ret|apply Hf]. Qed.

Lemma only_policy (P : revent -> Prop) name p s :
  (forall o r, P (Ev (S := rs_sig) (RRun o s) r)) -> only P (executeWithPolicy name p s).
Proof. intros H. unfold executeWithPolicy. apply only_bind; [by apply only_step|]. intros [e|v]; apply only_ret. Qed.

Lemma only_outside (P : revent -> Prop) {A} (m : prog (S := agent_sig) A) :
  (forall o r, P (Ev (S := rs_sig) (RBase o) r)) -> only P (outside m).
Proof.
  intros H. induction m as [a|o k IH]; [apply only_ret|]. apply (spec_do (S := rs_sig)). intros r.
  eapply spec_conseq; [apply IH|]. intros tr a Ht. by constructor.
Qed.

Lemma only_outside_silent (P : revent -> Prop) {A} (m : prog (S := agent_sig) A) :
  always silent m -> (forall o r, silent o -> P (Ev (S := rs_sig) (RBase o) r)) -> only P (outside m).
Proof.
  intros Hm H. induction m as [a|o k IH]; [apply only_ret|]. destruct Hm as [Ho Hk]. apply (spec_do (S := rs_sig)). intros r.
  eapply spec_conseq; [apply IH, Hk|]. intros tr a Ht. constructor; [by apply H|done].
Qed.

Lemma spec_after_rcall {A} o (f : RAns o -> prog A) (Q : list revent -> A -> Prop) :
  (forall r, spec (f r) (fun t b => Q (Ev (S := rs_sig) o r :: t) b)) -> spec (rcall o ≫= f) Q.
Proof. apply (spec_do (S := rs_sig) o f). Qed.

Lemma spec_one_rcall o (Q : list revent -> RAns o -> Prop) : (forall r, Q [Ev (S := rs_sig) o r] r) -> spec (rcall o) Q.
Proof. apply (spec_perform (S := rs_sig) o). Qed.

Lemma spec_one_await s f (Q : list revent -> result (step_result s) -> Prop) :
  (forall r, Q [Ev (S := rs_sig) (RFutResult s f) r] r) -> spec (await_step s f) Q.
Proof. apply (spec_perform (S := rs_sig) (RFutResult s f)). Qed.

Lemma spec_after_await {A} s f (g : result (step_result s) -> prog A) (Q : list revent -> A -> Prop) :
  (forall r, spec (g r) (fun t b => Q (Ev (S := rs_sig) (RFutResult s f) r :: t) b)) -> spec (await_step s f ≫= g) Q.
Proof. apply (spec_do (S := rs_sig) (RFutResult s f) g). Qed.

(** The error of a step names the step. *)
Definition named_result {A} (name : string) (r : result A) : result A :=
  match r with inl e => inl (wrap_error (name +:+ ": ") e) | inr v => inr v end.

Lemma spec_rs_policy name p s (Q : list revent -> result (step_result s) -> Prop) :
  (forall r, Q [Ev (S := rs_sig) (RRun (policyToRunOpts name p) s) r] (named_result name r)) -> spec (executeWithPolicy name p s) Q.
Proof.
  intros H. unfold executeWithPolicy. eapply spec_bind; [|intros tr1 r Hr; apply spec_mret; exact Hr].
  apply (spec_perform (S := rs_sig) (RRun (policyToRunOpts name p) s)). exact H.
Qed.

Lemma spec_after_policy {A} name p s (f : result (step_result s) -> prog A) (Q : list revent -> A -> Prop) :
  (forall r, spec (f (named_result name r))
               (fun t b => Q (Ev (S := rs_sig) (RRun (policyToRunOpts name p) s) r :: t) b)) ->
  spec (executeWithPolicy name p s ≫= f) Q.
Proof.
  intros H. eapply spec_bind.
  - apply (spec_rs_policy name p s (fun t a => exists r, t = [Ev (S := rs_sig) (RRun (policyToRunOpts name p) s) r] /\ a = named_result name r)).
    eauto.
  - cbn beta. intros t a (r & -> & ->). apply H.
Qed.

(** Perform the first effect. *)
Ltac rs_step :=
  match goal with
  | |- spec (rcall ?o) ?Q => apply (spec_one_rcall o Q)
  | |- spec (await_step ?s ?f) ?Q => apply (spec_one_await s f Q)
  | |- spec (executeWithPolicy ?n ?p ?s) ?Q => apply (spec_rs_policy n p s Q)
  | |- spec (mbind ?f (rcall ?o)) ?Q => apply (spec_after_rcall o f Q)
  | |- spec (mbind ?g (await_step ?s ?f)) ?Q => apply (spec_after_await s f g Q)
  | |- spec (mbind ?f (executeWithPolicy ?n ?p ?s)) ?Q => apply (spec_after_policy n p s f Q)
  end.

Create HintDb rs_foot.

(** Walk through a computation, checking the kind of each effect. *)
Ltac rs_kind := first [ by left | right; cbn; tauto ].
Ltac rs_only :=
  repeat first
    [ progress intros
    | apply only_ret
    | solve [ eauto 3 with rs_foot ]
    | match goal with
      | |- only ?P (rcall ?o) => apply (only_rcall P o); intros; solve [rs_kind]
      | |- only ?P (await_step ?s ?f) => apply (only_await P s f); intros; solve [rs_kind]
      | |- only ?P (executeWithPolicy ?n ?p ?s) => apply (only_policy P n p s); intros; solve [rs_kind]
      | |- only ?P (outside ?m) => apply (only_outside P m); intros; solve [rs_kind]
      end
    | apply only_rs
    | apply only_bind
    | apply only_fmap
    | apply only_traverse
    | case_match
    | progress cbv beta zeta ].
Ltac rs_sub l := eapply only_rs_incl; [|apply l]; intros ? ?; cbn in *; tauto.

(** ** Footprints *)

Section footprints.
Context `{Location} (rt : RestateRuntime) (input : AgentLoopInput).

Lemma only_emit_built ks e : In KPublish ks -> only (within ks) (emit_built rt input e).
Proof. intros H'. unfold emit_built, emitEvent. rs_only. Qed.
#[local] Hint Resolve only_emit_built in_eq in_cons : rs_foot.

Lemma only_rs_emit ks b : In KPublish ks -> only (within ks) (emit rt input b).
Proof. intros H'. unfold emit. rs_only. Qed.
#[local] Hint Resolve only_rs_emit : rs_foot.

Lemma only_complete ks mid tc c f u : In KPublish ks -> only (within ks) (complete rt input mid tc c f u).
Proof. intros H'. unfold complete, emitToolComplete. rs_only. Qed.
#[local] Hint Resolve only_complete : rs_foot.

Lemma only_rs_start ks mid tc : In KPublish ks -> only (within ks) (emit_start rt input mid tc).
Proof. intros H'. unfold emit_start. rs_only. Qed.
#[local] Hint Resolve only_rs_start : rs_foot.

Lemma only_write ks mid x c f u : In KPublish ks -> only (within ks) (writeResult_usage rt input mid x c f u).
Proof. intros H'. unfold writeResult_usage. rs_only. Qed.
#[local] Hint Resolve only_write : rs_foot.

Lemma only_note_unknown ks tc : only (within ks) (note_unknown rt tc).
Proof. unfold note_unknown. rs_only. Qed.
#[local] Hint Resolve only_note_unknown : rs_foot.

Lemma only_request_one tc : only (within [KPublish; KAwait]) (emitApprovalRequest rt input tc).
Proof. unfold emitApprovalRequest. rs_only. Qed.
#[local] Hint Resolve only_request_one : rs_foot.

Lemma only_wait ks p : In KAwait ks -> only (within ks) (wait_approval p).
Proof. intros H'. unfold wait_approval. rs_only. Qed.
#[local] Hint Resolve only_wait : rs_foot.

Lemma only_approval_status tc : only (within [KPublish; KAwait]) (approval_status rt input tc).
Proof. unfold approval_status, awaitApproval. rs_only. Qed.

Lemma only_invoke s h r t : only (within [KTool]) (invokeSubAgentHandler s h r t).
Proof. unfold invokeSubAgentHandler. rs_only. Qed.

Lemma only_attempts tc route p n : forall a b, only (within [KTool]) (delegate_attempts rt input tc route p n a b).
Proof.
  induction n as [|n IH]; intros a b; cbn [delegate_attempts];
    (apply only_rs; [rs_only|]; intros id; apply only_bind; [apply only_invoke|]; intros [e|r]; rs_only).
Qed.

Lemma only_rs_delegate tc route : only (within [KTool; KPublish]) (delegateToSubAgent rt input tc route).
Proof. unfold delegateToSubAgent. rs_only. rs_sub only_attempts. Qed.

(** The phases of a parallel batch. *)
Lemma only_answer_unknown ks mid x : In KPublish ks -> only (within ks) (answer_unknown rt input mid x).
Proof. intros H'. unfold answer_unknown, writeResult. rs_only. Qed.

Lemma only_skip ks mid now xs : In KPublish ks -> forall cb, only (within ks) (skip_tripped rt input mid now cb xs).
Proof.
  intros H'. induction xs as [|x xs IH]; intros cb; cbn [skip_tripped]; [apply only_ret|].
  case_match. unfold writeResult. rs_only.
Qed.

Lemma only_start_auth p x : only (within [KAuthorize]) (start_auth input p x).
Proof. unfold start_auth. rs_only. Qed.

Lemma only_collect_auth mid p : only (within [KAuthorize; KPublish]) (collect_auth rt input mid p).
Proof. unfold collect_auth, write_error, writeResult. rs_only. Qed.

Lemma only_request x : only (within [KPublish; KAwait]) (request_approval rt input x).
Proof. unfold request_approval. rs_only. Qed.

Lemma only_collect_approval mid p : only (within [KPublish; KAwait]) (collect_approval rt input mid p).
Proof. unfold collect_approval, write_error, writeResult. rs_only. Qed.

Lemma only_start_exec mid it ps x : only (within [KPublish; KTool]) (start_exec rt input mid it ps x).
Proof. unfold start_exec, writeResult. rs_only. Qed.

Lemma only_collect_exec mid it p : only (within [KPublish]) (collect_exec rt input mid it p).
Proof. unfold collect_exec, write_error, writeResult. rs_only. Qed.

Lemma only_run_delegation mid p : only (within [KPublish; KTool]) (run_delegation rt input mid p).
Proof. unfold run_delegation, write_error, writeResult. rs_only. rs_sub only_rs_delegate. Qed.

(** The loop. *)
Lemma only_llm_step ks p i it pre fb : In KLlm ks -> only (within ks) (executeLLMStep rt input p i it pre fb).
Proof. intros H'. unfold executeLLMStep. rs_only. Qed.
#[local] Hint Resolve only_llm_step : rs_foot.

Lemma only_llm p i it pre fb : only (within [KLlm; KLlmFailure]) (executeLLMStepWithErrorControl rt input p i it pre fb).
Proof. unfold executeLLMStepWithErrorControl. rs_only. Qed.

Lemma only_budget t tel u : only (within [KPublish; KAwait]) (checkBudget rt input t tel u).
Proof. unfold checkBudget, handleBudgetExceeded, awaitBudgetApproval. rs_only. Qed.
#[local] Hint Resolve only_budget : rs_foot.

Lemma only_check s u : only (within [KPublish; KAwait]) (check_budget rt input s u).
Proof. unfold check_budget. rs_only. Qed.

Lemma only_rs_collect now calls : forall rs s, only (within [KPublish; KAwait]) (collect rt input now calls rs s).
Proof.
  induction calls as [|tc calls IH]; intros [|r rs] s; cbn [collect]; try apply only_ret.
  apply only_bind; [unfold charge_child; case_match; [apply only_check|apply only_ret]|]. intros c. case_match; [apply only_ret|apply IH].
Qed.

Lemma only_persist ms : only (within [KPersist]) (persistConversationMessages rt input ms).
Proof. unfold persistConversationMessages. rs_only. Qed.
#[local] Hint Resolve only_persist : rs_foot.

Lemma only_rs_save s : only (within [KPersist]) (save_iteration rt input s).
Proof. unfold save_iteration. rs_only. Qed.

Lemma only_snapshot it s : only (within [KBreaker]) (snapshot_breaker it s).
Proof. unfold snapshot_breaker. rs_only. Qed.

Lemma only_final mem ret it s : only (within [KLlm; KLlmFailure; KPublish; KAwait]) (final_call rt input mem ret it s).
Proof.
  unfold final_call. apply only_bind; [rs_only|]. intros [e|id]; [apply only_ret|].
  apply only_bind; [rs_sub only_llm|]. intros [e|[res fb]]; [apply only_ret|].
  apply only_bind; [rs_sub only_check|]. intros b. case_match; apply only_ret.
Qed.

Lemma only_load : only (within [KPersist]) (load_history rt input).
Proof. unfold load_history. rs_only. Qed.

Lemma only_rs_recall : only (within [KMemory]) (recall_memory rt input).
Proof. unfold recall_memory. rs_only. Qed.

Lemma only_rs_prefetch : only (within [KMemory]) (prefetch rt input).
Proof. unfold prefetch. rs_only. Qed.

Lemma only_store s : only (within [KMemory]) (store_memory rt input s).
Proof. unfold store_memory. rs_only. Qed.

Lemma only_rs_finish s : only (within [KPersist; KMemory]) (finish_run rt input s).
Proof. unfold finish_run. rs_only; [rs_sub only_persist|rs_sub only_store]. Qed.
End footprints.
End RsFacts.
