(* ===== verification/RestateSafety.v ===== *)
(** Safety of the durable loop on Restate, in both tool execution modes: a tool runs, or the
    service of a sub-agent is called, only for a call the model asked for, after its
    authorization and, where it needs one, its approval. *)
From S2P Require Import Prelude GoLib Types Codec Prog ProgSpec Policies MemoryConfig Budget CircuitBreaker Telemetry Events TimeText EventsCodec Effects ErrorControl LLM Memory Tools AgentLoop LoopSafety RestateDefs RestateLoop RestateRun RestateFacts.

#[local] Open Scope string_scope.
#[local] Open Scope list_scope.
#[local] Open Scope Z_scope.

Module RsSafety.
Import Rs RsLoop RsRun RsFacts.

(** ** What the theorem says *)

Section claims.
Context `{Location} (rt : RestateRuntime) (input : AgentLoopInput).

(** A model answer of the trace contains the call. *)
Definition asked (past : list revent) (tc : ToolCallRequest) : Prop :=
  exists o stream i res, In (Ev (S := rs_sig) (RRun o (SLLM stream i)) (inr res)) past /\ In tc (lr_ToolCalls res).

(** The authorization step of this call, run or started in the background, allowed it. *)
Definition authorized (past : list revent) (tc : ToolCallRequest) : Prop :=
  exists o a, ro_Name o = auth_name tc /\ ar_Allowed a = true /\
    (In (Ev (S := rs_sig) (RRun o (auth_step input tc)) (inr a)) past \/
     exists f, In (Ev (S := rs_sig) (RRunAsync o (auth_step input tc)) f) past /\
               In (Ev (S := rs_sig) (RFutResult (auth_step input tc) f) (inr a)) past).

(** The request for the approval went out, if the run's events are wanted and it can be encoded. *)
Definition announced (past : list revent) (tc : ToolCallRequest) (token : string) : Prop :=
  let body := approval_body rt input tc token in
  exists now, eventAllowed (co_EventTypes (in_core input)) body = true -> TrimSpace (run_topic input) <> "" ->
    forall raw, ToJSON (NewEvent body now) = Some raw ->
    exists r, In (Ev (S := rs_sig) (RPublish (event_service rt (run_event_log rt input)) (run_topic input) raw) r) past.

(** The awakeable of this call's approval was resolved with an approval. *)
Definition approved (past : list revent) (tc : ToolCallRequest) : Prop :=
  exists token, In (Ev (S := rs_sig) RAwakeable token) past /\ announced past tc token /\
    In (Ev (S := rs_sig) (RAwakeResult token) (inr ApprovalStatusApproved)) past.

(** The event runs the call: as a tool, or as a call of the service its route names. *)
Definition performs (tc : ToolCallRequest) (e : revent) : Prop :=
  match ev_op e with
  | RRun _ (SExecuteTool i _) | RRunAsync _ (SExecuteTool i _) =>
      ti_Tools i = in_Tools input /\ ti_ToolCallID i = tc_ToolCallID tc /\ ti_ToolName i = tc_ToolName tc /\ ti_Args i = tc_Args tc
  | RRequest service _ req _ | RRequestFuture service _ req _ =>
      co_UserPrompt (rq_core req) = SubAgentQuery (tc_Args tc) /\
      exists route, find_route (co_SubAgentRoutes (in_core input)) (tc_ToolName tc) = Some route /\
                    service = TrimSpace (rt_ServiceName route)
  | _ => False
  end.

Definition ready (past : list revent) (tc : ToolCallRequest) : Prop :=
  IsUnknownTool tc (in_Tools input) = false /\ asked past tc /\ authorized past tc /\
  (tc_NeedsApproval tc = false \/ approved past tc).

Definition justified_call (past : list revent) (e : revent) : Prop :=
  event_kind e = KTool -> exists tc, performs tc e /\ ready past tc.
End claims.

(** ** Proof *)

Section safety.
Context `{Location} (rt : RestateRuntime) (input : AgentLoopInput).

#[local] Abbreviation J := (justified_call rt input).
#[local] Abbreviation ready := (ready rt input).
#[local] Abbreviation approved := (approved rt input).

(** More events keep what was established. *)
Definition grows (p p' : list revent) : Prop := forall f, In f p -> In f p'.

Lemma grows_app p t : grows p (p ++ t).
Proof. intros f Hf. apply in_or_app. by left. Qed.

Lemma grows_tail p t : grows t (p ++ t).
Proof. intros f Hf. apply in_or_app. by right. Qed.

Lemma asked_grows p p' tc : grows p p' -> asked p tc -> asked p' tc.
Proof. intros Hg (o & st & i & res & ? & ?). exists o, st, i, res. auto. Qed.

Lemma authorized_grows p p' tc : grows p p' -> authorized input p tc -> authorized input p' tc.
Proof.
  intros Hg (o & a & ? & ? & Hin). exists o, a. split; [done|]. split; [done|].
  destruct Hin as [?|(f & ? & ?)]; [left|right; exists f]; auto.
Qed.

Lemma announced_grows p p' tc k : grows p p' -> announced rt input p tc k -> announced rt input p' tc k.
Proof. intros Hg [now Ha]. exists now. intros H1 H2 raw Hr. destruct (Ha H1 H2 raw Hr) as [r ?]. eauto. Qed.

Lemma approved_grows p p' tc : grows p p' -> approved p tc -> approved p' tc.
Proof. intros Hg (k & ? & ? & ?). exists k. split; [auto|]. split; [by eapply announced_grows|auto]. Qed.

Lemma ready_grows p p' tc : grows p p' -> ready p tc -> ready p' tc.
Proof.
  intros Hg (? & ? & ? & Hap). split; [done|]. split; [by eapply asked_grows|]. split; [by eapply authorized_grows|].
  destruct Hap as [?|?]; [by left|right]. by eapply approved_grows.
Qed.

Lemma asked_app p t tc : asked p tc -> asked (p ++ t) tc.
Proof. apply asked_grows, grows_app. Qed.
Lemma authorized_app p t tc : authorized input p tc -> authorized input (p ++ t) tc.
Proof. apply authorized_grows, grows_app. Qed.
Lemma announced_app p t tc k : announced rt input p tc k -> announced rt input (p ++ t) tc k.
Proof. apply announced_grows, grows_app. Qed.
Lemma announced_tail p t tc k : announced rt input t tc k -> announced rt input (p ++ t) tc k.
Proof. apply announced_grows, grows_tail. Qed.
Lemma ready_app p t tc : ready p tc -> ready (p ++ t) tc.
Proof. apply ready_grows, grows_app. Qed.

Lemma J_mono p p' e : (forall f, In f p -> In f p') -> J p e -> J p' e.
Proof. intros Hg HJ Hk. destruct (HJ Hk) as (tc & ? & ?). exists tc. split; [done|]. by eapply ready_grows. Qed.
#[local] Hint Resolve J_mono grows_app grows_tail : core.

Lemma ready_rs_event past tc e : ready past tc -> performs input tc e -> J past e.
Proof. intros Hr Hp _. by exists tc. Qed.

(** Parts that run no tool. *)
Lemma safe_rs_within ks past {A} (m : prog A) : ~ In KTool ks -> only (within ks) m -> safe J past m.
Proof.
  intros Hk Hm. apply safe_only. eapply only_mono; [|exact Hm]. intros e He p Hke. by destruct (within_rs_not ks KTool e).
Qed.

Ltac quietly ks := apply (safe_rs_within ks); [cbn; intuition discriminate|].

Lemma safe_rcall past o : (forall r, J past (Ev (S := rs_sig) o r)) -> safe J past (rcall o).
Proof. apply (safe_perform (S := rs_sig) J past o). Qed.

Lemma safe_rs past {A B} (m : prog (result A)) (f : A -> prog (result B)) :
  safe J past m -> (forall t a, safe J (past ++ t) (f a)) -> safe J past (bind_rs m f).
Proof. intros Hm Hf. apply safe_seq; [done|]. intros t [e|a]; [apply safe_ret|apply Hf]. Qed.

Lemma safe_policy past name p s :
  (forall r, J past (Ev (S := rs_sig) (RRun (policyToRunOpts name p) s) r)) -> safe J past (executeWithPolicy name p s).
Proof.
  intros Hs. unfold executeWithPolicy. apply safe_seq; [|intros; apply safe_ret].
  apply (safe_perform (S := rs_sig) J past (RRun (policyToRunOpts name p) s)). exact Hs.
Qed.

(** *** Approvals *)

Lemma emit_built_published e :
  spec (emit_built rt input e) (fun t _ =>
    eventAllowed (co_EventTypes (in_core input)) (ae_Body e) = true -> TrimSpace (run_topic input) <> "" ->
    forall raw, ToJSON e = Some raw ->
    exists r, In (Ev (S := rs_sig) (RPublish (event_service rt (run_event_log rt input)) (run_topic input) raw) r) t).
Proof.
  unfold emit_built, emitEvent. destruct (_ || _) eqn:E.
  - apply spec_mret. intros H1 H2. rewrite H1 in E. by apply String.eqb_eq in E.
  - destruct (ToJSON e) as [raw|]; [|by apply spec_mret]. rs_step. intros r. apply spec_mret.
    intros _ _ raw' [= <-]. exists r. by left.
Qed.

Lemma request_spec tc :
  spec (emitApprovalRequest rt input tc) (fun t p => In (Ev (S := rs_sig) RAwakeable p.1) t /\ announced rt input t tc p.1).
Proof.
  unfold emitApprovalRequest. rs_step. intros token.
  eapply spec_bind with (Q1 := fun t _ => announced rt input t tc token).
  - unfold emit. rs_step. intros now. eapply spec_conseq; [apply emit_built_published|]. cbn beta. intros t _ Ht.
    exists now. intros H1 H2 raw Hr. destruct (Ht H1 H2 raw Hr) as [r ?]. exists r. by right.
  - cbn beta. intros t1 _ Ha. rs_step. intros timer. apply spec_mret. split; [by left|].
    eapply announced_grows; [|exact Ha]. intros f Hf. right. apply in_or_app. by left.
Qed.

Lemma wait_spec p :
  spec (wait_approval p) (fun t r => r = inr ApprovalStatusApproved ->
    In (Ev (S := rs_sig) (RAwakeResult p.1) (inr ApprovalStatusApproved)) t).
Proof.
  unfold wait_approval. rs_step. intros [e|[|]]; [by apply spec_mret| |].
  - rs_step. intros d. apply spec_mret. by destruct d.
  - rs_step. intros r ->. right. by left.
Qed.

Lemma approval_spec tc :
  spec (approval_status rt input tc) (fun t r => r = inr ApprovalStatusApproved -> tc_NeedsApproval tc = false \/ approved t tc).
Proof.
  unfold approval_status. destruct (tc_NeedsApproval tc); cbn [negb]; [|apply spec_mret; by left].
  case_match; [by apply spec_mret|]. unfold awaitApproval. eapply spec_bind; [apply request_spec|]. cbn beta.
  intros t1 p [H1 H2]. eapply spec_conseq; [apply wait_spec|]. cbn beta. intros t2 r Hr ->. right. exists p.1.
  repeat split; [apply in_or_app; by left|by apply announced_app|apply in_or_app; right; by apply Hr].
Qed.

(** *** Delegation *)

Lemma safe_invoke past tc route handler req timeout :
  ready past tc -> find_route (co_SubAgentRoutes (in_core input)) (tc_ToolName tc) = Some route ->
  co_UserPrompt (rq_core req) = SubAgentQuery (tc_Args tc) ->
  safe J past (invokeSubAgentHandler (TrimSpace (rt_ServiceName route)) handler req timeout).
Proof.
  intros Hr Hf Hq. unfold invokeSubAgentHandler.
  assert (forall key r, J past (Ev (S := rs_sig) (RRequest (TrimSpace (rt_ServiceName route)) handler req key) r) /\
                   forall r', J past (Ev (S := rs_sig) (RRequestFuture (TrimSpace (rt_ServiceName route)) handler req key) r')) as HJ.
  { intros key r. split; [|intros r']; apply (ready_rs_event _ tc); try done; (split; [done|]; by exists route). }
  destruct (timeout <=? 0).
  - apply (safe_rcall past (RRequest _ handler req _)). intros r. by apply (HJ _ r).
  - apply safe_seq; [apply (safe_rcall past (RRequestFuture _ handler req _)); intros r; by apply (HJ _ (inr None))|].
    intros t fut. quietly (@nil kind). rs_only.
Qed.

Lemma safe_attempts past tc route p n :
  ready past tc -> find_route (co_SubAgentRoutes (in_core input)) (tc_ToolName tc) = Some route ->
  forall a b, safe J past (delegate_attempts rt input tc route p n a b).
Proof.
  revert past. induction n as [|n IH]; intros past Hr Hf a b; cbn [delegate_attempts];
    (apply safe_rs; [quietly (@nil kind); rs_only|]; intros t1 id; apply safe_seq;
      [apply (safe_invoke _ tc); [by apply ready_app|done|done]|]; intros t2 [e|resp]; [|apply safe_ret]).
  - apply safe_ret.
  - assert (forall t, ready (((past ++ t1) ++ t2) ++ t) tc) as Hr' by (intros t; rewrite <- !app_assoc; by apply ready_app).
    case_match; [|specialize (Hr' []); rewrite app_nil_r in Hr'; by apply IH].
    apply safe_seq; [quietly (@nil kind); rs_only|]. intros t3 [e'|]; [apply safe_ret|]. by apply IH.
Qed.

Lemma safe_rs_delegate past tc route :
  ready past tc -> find_route (co_SubAgentRoutes (in_core input)) (tc_ToolName tc) = Some route ->
  safe J past (delegateToSubAgent rt input tc route).
Proof.
  intros Hr Hf. unfold delegateToSubAgent. case_match; [apply safe_ret|]. case_match; [apply safe_ret|].
  apply safe_seq; [quietly [KPublish]; apply only_rs_emit; by left|]. intros t1 _.
  apply safe_seq; [quietly (@nil kind); rs_only|]. intros t2 now. cbv zeta.
  apply safe_seq; [apply safe_attempts; [|done]; rewrite <- app_assoc; by apply ready_app|]. intros t3 r.
  apply safe_seq; [quietly [KPublish]; apply only_emit_built; by left|]. intros. apply safe_ret.
Qed.

(** *** One call at a time *)

Section call.
Context (mid : string) (it : Z) (ps : ExecutionPolicies) (now : Time).

Lemma safe_complete past tc c f u : safe J past (complete rt input mid tc c f u).
Proof. quietly [KPublish]. apply only_complete. by left. Qed.

Lemma exec_performs tc o r : performs input tc (Ev (S := rs_sig) (RRun o (exec_step input it tc)) r).
Proof. done. Qed.

Lemma safe_run_approved past tc : ready past tc -> safe J past (run_approved rt input it ps tc).
Proof.
  intros Hr. unfold run_approved. destruct (find_route _ _) as [route|] eqn:E.
  - apply safe_rs; [by apply safe_rs_delegate|]. intros; apply safe_ret.
  - apply safe_seq; [|intros; apply safe_ret]. apply (safe_policy past _ _ (exec_step input it tc)). intros r. by apply (ready_rs_event _ tc).
Qed.

Lemma safe_rs_after_approval past tc st :
  (st = ApprovalStatusApproved -> ready past tc) -> safe J past (after_approval rt input it ps tc st).
Proof.
  intros Hr. unfold after_approval. case_match eqn:E; [|repeat case_match; apply safe_ret].
  apply safe_run_approved, Hr. by apply String.eqb_eq.
Qed.

Lemma auth_spec tc p :
  spec (executeWithPolicy (auth_name tc) p (auth_step input tc))
    (fun t r => forall a, r = inr a -> ar_Allowed a = true -> authorized input t tc).
Proof.
  rs_step. intros r a Ha Hal. destruct r as [e|a']; [done|]. injection Ha as <-.
  do 2 eexists. split; [|split; [exact Hal|left; by left]]. done.
Qed.

Lemma safe_authorized past tc :
  IsUnknownTool tc (in_Tools input) = false -> asked past tc -> safe J past (authorized_call rt input mid it ps tc).
Proof.
  intros Hu Ha. unfold authorized_call.
  eapply safe_bind; [|apply auth_spec|]; [apply (safe_policy past _ _ (auth_step input tc)); intros r Hk; discriminate Hk|].
  cbn beta. intros t1 [e|a] Hz; [apply safe_ret|]. destruct (ar_Allowed a) eqn:Hal; cbn [negb];
    [|apply safe_seq; [apply safe_complete|intros; apply safe_ret]].
  eapply safe_bind; [quietly [KPublish; KAwait]; apply only_approval_status|apply approval_spec|].
  cbn beta. intros t2 [e|st] Hst; [apply safe_ret|].
  apply safe_rs; [|intros; apply safe_seq; [apply safe_complete|intros; apply safe_ret]].
  apply safe_rs_after_approval. intros ->. rewrite <- app_assoc. split; [done|]. split; [by apply asked_app|]. split.
  - eapply authorized_grows; [|by apply (Hz a eq_refl)]. intros f Hf. apply in_or_app. right. apply in_or_app. by left.
  - destruct (Hst eq_refl) as [?|?]; [by left|right]. eapply approved_grows; [|done].
    intros f Hf. apply in_or_app. right. apply in_or_app. by right.
Qed.

Lemma safe_single past cb tc : asked past tc -> safe J past (executeSingleTool rt input mid it ps now cb tc).
Proof.
  intros Ha. unfold executeSingleTool. apply safe_seq; [quietly [KPublish]; apply only_rs_start; by left|]. intros t1 _.
  destruct (IsUnknownTool tc (in_Tools input)) eqn:Hu.
  - quietly [KPublish]. apply only_bind; [apply only_note_unknown|]. intros _. apply only_bind; [by apply only_complete; left|].
    intros; apply only_ret.
  - destruct (circuit_skips now cb tc) as [[|] cb'].
    + quietly [KPublish]. apply only_bind; [rs_only|]. intros _. apply only_bind; [by apply only_complete; left|]. intros; apply only_ret.
    + apply safe_seq; [|intros; apply safe_ret]. apply safe_authorized; [done|]. by apply asked_app.
Qed.

Lemma safe_sequential calls : forall past cb,
  (forall tc, In tc calls -> asked past tc) -> safe J past (executeToolsSequential rt input mid it ps now cb calls).
Proof.
  induction calls as [|tc calls IH]; intros past cb Ha; cbn [executeToolsSequential]; [apply safe_ret|].
  apply safe_seq; [apply safe_single, Ha; by left|]. intros t r. apply safe_seq; [|intros; apply safe_ret].
  apply IH. intros tc' Hin. eapply asked_grows; [by apply grows_app|]. apply Ha. by right.
Qed.

(** *** The phases of a parallel batch *)

Definition known (tc : ToolCallRequest) : Prop := IsUnknownTool tc (in_Tools input) = false.

(** What is known of an index before the dispatch, and of what the dispatch starts. *)
Definition fresh (p : list revent) (x : slot) : Prop := asked p (sl_tc x) /\ sl_approval x = ApprovalStatusApproved.
Definition checked (p : list revent) (x : slot) : Prop :=
  asked p (sl_tc x) /\ sl_approval x = ApprovalStatusApproved /\ (sl_done x = false -> known (sl_tc x)).
Definition pending_auth (p : list revent) (y : slot * option nat) : Prop :=
  checked p y.1 /\
  match y.2 with
  | None => sl_done y.1 = true
  | Some f => exists o, ro_Name o = auth_name (sl_tc y.1) /\ In (Ev (S := rs_sig) (RRunAsync o (auth_step input (sl_tc y.1))) f) p
  end.
Definition allowed (p : list revent) (x : slot) : Prop :=
  sl_done x = false -> asked p (sl_tc x) /\ known (sl_tc x) /\ authorized input p (sl_tc x).
Definition pending_approval (p : list revent) (y : slot * option (string * nat)) : Prop :=
  allowed p y.1 /\
  (sl_done y.1 = false ->
   match y.2 with
   | None => sl_approval y.1 = ApprovalStatusApproved -> tc_NeedsApproval (sl_tc y.1) = false
   | Some a => In (Ev (S := rs_sig) RAwakeable a.1) p /\ announced rt input p (sl_tc y.1) a.1
   end).
Definition settled (p : list revent) (x : slot) : Prop :=
  sl_done x = false -> sl_approval x = ApprovalStatusApproved -> ready p (sl_tc x).
Definition started (p : list revent) (y : slot * dispatched) : Prop :=
  match y.2 with
  | Delegated route => ready p (sl_tc y.1) /\ find_route (co_SubAgentRoutes (in_core input)) (tc_ToolName (sl_tc y.1)) = Some route
  | _ => True
  end.

Lemma checked_grows p t x : checked p x -> checked (p ++ t) x.
Proof. intros (? & ? & ?). split; [by apply asked_app|done]. Qed.

Lemma allowed_grows p t x : allowed p x -> allowed (p ++ t) x.
Proof. intros Hx Hd. destruct (Hx Hd) as (? & ? & ?). split; [by apply asked_app|]. split; [done|by apply authorized_app]. Qed.

Lemma write_yields past x c f u (Q : list revent -> slot -> Prop) :
  (forall t y, sl_tc y = sl_tc x -> sl_approval y = sl_approval x -> sl_done y = true -> Q (past ++ t) y) ->
  yields J past (writeResult_usage rt input mid x c f u) Q.
Proof.
  intros HQ. apply (yields_both _ past _ (fun _ y => sl_tc y = sl_tc x /\ sl_approval y = sl_approval x /\ sl_done y = true)).
  - quietly [KPublish]. apply only_write. by left.
  - unfold writeResult_usage. eapply spec_bind; [apply spec_true|]. intros t r _. by apply spec_mret.
  - intros t y (? & ? & ?). by apply HQ.
Qed.

Lemma quiet_yields past ks {A} (m : prog A) (Q : list revent -> A -> Prop) :
  ~ In KTool ks -> only (within ks) m -> (forall t a, Q (past ++ t) a) -> yields J past m Q.
Proof.
  intros Hk Hm HQ. apply (yields_both _ past _ (fun _ _ => True)); [by apply (safe_rs_within ks)|apply spec_true|auto].
Qed.

Lemma stage_unknown past x : fresh past x -> yields J past (answer_unknown rt input mid x) checked.
Proof.
  intros [Ha Hs]. unfold answer_unknown. destruct (IsUnknownTool (sl_tc x) (in_Tools input)) eqn:E; cbn [negb].
  - apply (yields_bind _ past _ _ (fun p _ => grows past p)).
    + apply (quiet_yields past []); [auto|apply only_note_unknown|]. intros t _. apply grows_app.
    + intros p _ Hg. apply write_yields. intros t y Ht Hap Hd. unfold checked. rewrite Ht, Hap, Hd.
      split; [|done]. eapply asked_grows; [|exact Ha]. intros e He. apply in_or_app. left. by apply Hg.
  - apply yields_ret. split; [done|]. by split.
Qed.

Lemma stage_skip xs : forall past cb, Forall (checked past) xs ->
  yields J past (skip_tripped rt input mid now cb xs) (fun p r => Forall (checked p) r.1).
Proof.
  induction xs as [|x xs IH]; intros past cb Hl; cbn [skip_tripped]; [by apply yields_ret; constructor|].
  inversion Hl as [|? ? Hx Hxs]; subst. destruct (if sl_done x then _ else _) as [skip cb'].
  apply (yields_bind _ past _ _ (fun p y => checked p y /\ Forall (checked p) xs)).
  - assert (forall t, Forall (checked (past ++ t)) xs) as Hg.
    { intros t. eapply Forall_impl; [exact Hxs|]. intros z. apply checked_grows. }
    destruct skip; [|apply yields_ret; by split].
    apply (yields_bind _ past _ _ (fun p _ => exists t, p = past ++ t)).
    + apply (quiet_yields past []); [auto|rs_only|]. intros t _. by exists t.
    + intros p _ [t ->]. apply write_yields. intros t' y Ht Hap Hd. rewrite <- app_assoc. split; [|apply Hg].
      unfold checked. rewrite Ht, Hap, Hd. destruct Hx as (? & ? & ?). split; [by apply asked_app|done].
  - intros p y [Hy Hl']. apply (yields_bind _ p _ _ (fun p' r => checked p' y /\ Forall (checked p') r.1)).
    + apply (spec_conseq _ _ _ (IH p cb' Hl')). intros t r [? ?]. split; [done|]. split; [by apply checked_grows|done].
    + intros p' r [? ?]. apply yields_ret. by constructor.
Qed.

Lemma stage_start_auth past x : checked past x -> yields J past (start_auth input ps x) pending_auth.
Proof.
  intros Hx. unfold start_auth. destruct (sl_done x) eqn:E; [by apply yields_ret|].
  apply (yields_both _ past _ (fun t y => y.1 = x /\ exists o f, y.2 = Some f /\ ro_Name o = auth_name (sl_tc x) /\
    In (Ev (S := rs_sig) (RRunAsync o (auth_step input (sl_tc x))) f) t)).
  - quietly [KAuthorize]. rs_only.
  - rs_step. intros f. apply spec_mret. split; [done|]. do 2 eexists. split; [done|]. split; [|by left]. done.
  - intros t [y f] (Hy & o & f' & Hf & Ho & Hin). cbn [fst snd] in *. subst. split; [by apply checked_grows|].
    exists o. split; [done|]. apply in_or_app. by right.
Qed.

Lemma stage_collect_auth past y : pending_auth past y -> yields J past (collect_auth rt input mid y) allowed.
Proof.
  destruct y as [x [f|]]; intros [Hx Hf]; cbn [fst snd] in *; unfold collect_auth;
    [|apply yields_ret; intros Hd; by rewrite Hf in Hd].
  destruct Hf as (o & Ho & Hin). destruct Hx as (Ha & Hs & Hk).
  apply (yields_bind _ past _ _ (fun p r => p = past ++ [Ev (S := rs_sig) (RFutResult (auth_step input (sl_tc x)) f) r])).
  - apply (yields_both _ past _ (fun t r => t = [Ev (S := rs_sig) (RFutResult (auth_step input (sl_tc x)) f) r]));
      [quietly [KAuthorize]; rs_only|by rs_step|]. by intros t r ->.
  - intros p [e|a] ->; [unfold write_error, writeResult; apply write_yields; intros t y _ _ Hd Hd'; by rewrite Hd in Hd'|].
    destruct (ar_Allowed a) eqn:Hal; [|apply write_yields; intros t y _ _ Hd Hd'; by rewrite Hd in Hd'].
    apply yields_ret. intros Hd. split; [by apply asked_app|]. split; [by apply Hk|].
    exists o, a. split; [done|]. split; [done|]. right. exists f. split; apply in_or_app; [by left|right; by left].
Qed.

Lemma stage_request past x : allowed past x -> yields J past (request_approval rt input x) pending_approval.
Proof.
  intros Hx. unfold request_approval. destruct (sl_done x) eqn:E; cbn [orb].
  - apply yields_ret. split; [done|]. cbn [fst]. by rewrite E.
  - destruct (tc_NeedsApproval (sl_tc x)) eqn:En; cbn [negb]; [|apply yields_ret; split; [done|]; by intros _ _].
    destruct (no_approver rt input); [by apply yields_ret; split|].
    apply (yields_both _ past _ (fun t y => y.1 = x /\ exists a, y.2 = Some a /\
      In (Ev (S := rs_sig) RAwakeable a.1) t /\ announced rt input t (sl_tc x) a.1)).
    + quietly [KPublish; KAwait]. apply only_bind; [apply only_request_one|]. intros; apply only_ret.
    + eapply spec_bind; [apply request_spec|]. cbn beta. intros t a [? ?]. apply spec_mret. rewrite app_nil_r. eauto.
    + intros t [y a] (Hy & a' & Ha & ? & ?). cbn [fst snd] in *. subst. split; [by apply allowed_grows|]. intros _. cbn [fst snd].
      split; [apply in_or_app; by right|]. by apply announced_tail.
Qed.

Lemma allowed_ready p x : allowed p x -> sl_done x = false -> tc_NeedsApproval (sl_tc x) = false \/ approved p (sl_tc x) -> ready p (sl_tc x).
Proof. intros Hx Hd Hap. destruct (Hx Hd) as (? & ? & ?). by repeat split. Qed.

Lemma stage_collect_approval past y : pending_approval past y -> yields J past (collect_approval rt input mid y) settled.
Proof.
  destruct y as [x [a|]]; intros [Hx Hp]; cbn [fst snd] in *; unfold collect_approval.
  - apply (yields_bind _ past _ _ (fun p r => exists t, p = past ++ t /\ (r = inr ApprovalStatusApproved ->
      In (Ev (S := rs_sig) (RAwakeResult a.1) (inr ApprovalStatusApproved)) t))).
    + apply (yields_both _ past _ _ _ (safe_rs_within [KAwait] past _ ltac:(cbn; intuition discriminate) (only_wait [KAwait] a ltac:(by left)))
        (wait_spec a)). eauto.
    + intros p [e|st] (t & -> & Hst).
      * apply write_yields. intros t' y _ _ Hd Hd'. by rewrite Hd in Hd'.
      * apply yields_ret. intros Hd Hap. cbn [with_approval sl_tc sl_done sl_approval] in *. subst st.
        destruct (Hp Hd) as [Haw Han]. eapply (allowed_ready _ x); [by apply allowed_grows|done|]. right.
        exists a.1. split; [apply in_or_app; by left|]. split; [by apply announced_app|]. apply in_or_app. right. by apply Hst.
  - apply yields_ret. intros Hd Hap. eapply (allowed_ready _ x); [done..|]. left. by apply Hp.
Qed.

Lemma stage_start_exec past x : settled past x -> yields J past (start_exec rt input mid it ps x) started.
Proof.
  intros Hx. unfold start_exec. destruct (sl_done x) eqn:E; [by apply yields_ret|]. cbv zeta.
  destruct (String.eqb (sl_approval x) ApprovalStatusApproved) eqn:Ea.
  - apply String.eqb_eq in Ea. specialize (Hx E Ea). destruct (find_route _ _) as [route|] eqn:Er.
    + apply yields_ret. by split.
    + apply (yields_both _ past _ (fun _ y => exists f, y.2 = Running f)).
      * apply safe_seq; [|intros; apply safe_ret].
        match goal with |- safe _ _ (rcall ?o) => apply (safe_rcall past o) end. intros r. by apply (ready_rs_event _ (sl_tc x)).
      * rs_step. intros f. apply spec_mret. by exists f.
      * intros t [y d] [f Hd]. cbn [snd] in Hd. by subst d.
  - apply (yields_both _ past _ (fun _ y => y.2 = Nothing)).
    + quietly [KPublish]. unfold writeResult. apply only_bind; [repeat case_match; by apply only_write; left|]. intros; apply only_ret.
    + eapply spec_bind; [apply spec_true|]. intros t y _. by apply spec_mret.
    + intros t [y d] Hd. cbn [snd] in Hd. by subst d.
Qed.

Lemma started_grows p t y : started p y -> started (p ++ t) y.
Proof. unfold started. destruct (y.2); try done. intros [? ?]. split; [by apply ready_app|done]. Qed.

Lemma stage_collect_exec past y : started past y -> yields J past (collect_exec rt input mid it y) started.
Proof.
  destruct y as [x [|f|route]]; intros Hs; unfold collect_exec; try (by apply yields_ret).
  apply (yields_both _ past _ (fun _ y => y.2 = Nothing)).
  - quietly [KPublish]. apply only_bind; [rs_only|]. intros r. unfold write_error, writeResult.
    apply only_bind; [case_match; by apply only_write; left|]. intros; apply only_ret.
  - rs_step. intros r. eapply spec_bind; [apply spec_true|]. intros t y _. by apply spec_mret.
  - intros t [y d] Hd. cbn [snd] in Hd. by subst d.
Qed.

Lemma stage_delegation past y : started past y -> yields J past (run_delegation rt input mid y) (fun _ _ => True).
Proof.
  destruct y as [x [|f|route]]; intros Hs; unfold run_delegation; try (by apply yields_ret).
  destruct Hs as [Hr Hf]. cbn [fst] in *. case_match; [by apply yields_ret|].
  apply (yields_both _ past _ (fun _ _ => True)); [|apply spec_true|done].
  apply safe_seq; [by apply safe_rs_delegate|]. intros t [e|[c u]]; quietly [KPublish]; by apply only_write; left.
Qed.

Lemma safe_phases past cb xs : Forall (fresh past) xs -> safe J past (parallel_phases rt input mid it ps now cb xs).
Proof.
  intros Hl. apply (yields_safe _ _ _ (fun _ _ => True)). unfold parallel_phases.
  eapply yields_bind; [apply (yields_traverse _ fresh checked); [|apply checked_grows|apply stage_unknown|exact Hl]|].
  { intros p t x [? ?]. split; [by apply asked_app|done]. }
  cbn beta. intros p1 xs1 H1. eapply yields_bind; [by apply stage_skip|]. cbn beta. intros p2 [xs2 cb2] H2. cbn [fst snd] in *.
  eapply yields_bind; [apply (yields_traverse _ checked pending_auth); [apply checked_grows| |apply stage_start_auth|exact H2]|].
  { intros p t [x [f|]] [? Hf]; (split; [by apply checked_grows|]); [|done]. cbn in *. destruct Hf as (o & ? & ?). exists o.
    split; [done|]. apply in_or_app. by left. }
  cbn beta. intros p3 xs3 H3.
  eapply yields_bind; [apply (yields_traverse _ pending_auth allowed); [|apply allowed_grows|apply stage_collect_auth|exact H3]|].
  { intros p t [x [f|]] [? Hf]; (split; [by apply checked_grows|]); [|done]. cbn in *. destruct Hf as (o & ? & ?). exists o.
    split; [done|]. apply in_or_app. by left. }
  cbn beta. intros p4 xs4 H4.
  assert (forall p t y, pending_approval p y -> pending_approval (p ++ t) y) as Hpa.
  { intros p t [x [a|]] [? Ha]; (split; [by apply allowed_grows|]); [|done]. cbn in *. intros Hd. destruct (Ha Hd) as [? ?].
    split; [apply in_or_app; by left|by apply announced_app]. }
  assert (forall p t x, settled p x -> settled (p ++ t) x) as Hse by (intros p t x Hx ? ?; eapply ready_grows; [apply grows_app|auto]).
  eapply yields_bind; [apply (yields_traverse _ allowed pending_approval); [apply allowed_grows|exact Hpa|apply stage_request|exact H4]|].
  cbn beta. intros p5 xs5 H5.
  eapply yields_bind; [apply (yields_traverse _ pending_approval settled); [exact Hpa|exact Hse|apply stage_collect_approval|exact H5]|].
  cbn beta. intros p6 xs6 H6.
  eapply yields_bind; [apply (yields_traverse _ settled started); [exact Hse|apply started_grows|apply stage_start_exec|exact H6]|].
  cbn beta. intros p7 xs7 H7.
  eapply yields_bind; [apply (yields_traverse _ started started); [apply started_grows|apply started_grows|apply stage_collect_exec|exact H7]|].
  cbn beta. intros p8 xs8 H8.
  eapply yields_bind; [apply (yields_traverse _ started (fun _ _ => True)); [apply started_grows|done|apply stage_delegation|exact H8]|].
  intros p9 xs9 _. by apply yields_ret.
Qed.

Lemma safe_parallel past cb calls :
  (forall tc, In tc calls -> asked past tc) -> safe J past (executeToolsParallel rt input mid it ps now cb calls).
Proof.
  intros Ha. unfold executeToolsParallel. destruct calls as [|c1 [|c2 calls]]; [apply safe_ret|by apply safe_sequential|].
  apply safe_seq; [quietly [KPublish]; apply only_traverse; intros; apply only_rs_start; by left|]. intros t _.
  apply safe_seq; [|intros; apply safe_ret]. apply safe_phases. apply List.Forall_forall. intros x Hx.
  apply in_map_iff in Hx as (tc & <- & Hin). split; [|done]. eapply asked_grows; [apply grows_app|]. by apply Ha.
Qed.
End call.

(** *** The rounds *)

Lemma llm_step_asked p i it pre fb :
  spec (executeLLMStep rt input p i it pre fb) (fun t r => forall res tc, r = inr res -> In tc (lr_ToolCalls res) -> asked t tc).
Proof.
  unfold executeLLMStep. case_match; [by apply spec_mret|]. rs_step. intros [err|res'] res tc; [done|].
  intros [= <-] Hin. do 4 eexists. split; [by left|done].
Qed.

Lemma llm_asked p i it pre fb :
  spec (executeLLMStepWithErrorControl rt input p i it pre fb)
    (fun t r => forall res fb' tc, r = inr (res, fb') -> In tc (lr_ToolCalls res) -> asked t tc).
Proof.
  unfold executeLLMStepWithErrorControl. eapply spec_bind; [apply llm_step_asked|]. cbn beta. intros t1 [e|res] Hr.
  - destruct fb; [by apply spec_mret|]. unfold bind_rs. rs_step. intros [e'|useFB]; [by apply spec_mret|]. cbn [named_result].
    eapply spec_bind; [apply llm_step_asked|]. cbn beta. intros t2 [e''|res] Hr2; apply spec_mret; [done|].
    intros res' fb' tc [= <- _] Hin. eapply asked_grows; [|by apply (Hr2 res tc)]. intros f Hf. apply in_or_app. right.
    right. apply in_or_app. by left.
  - apply spec_mret. intros res' fb' tc [= <- _] Hin. rewrite app_nil_r. by apply (Hr res tc).
Qed.

Section round.
Context (mem ret : string) (orig : Z).

Lemma safe_run_tools past mid it now cb calls :
  (forall tc, In tc calls -> asked past tc) -> safe J past (run_tools rt input mid it now cb calls).
Proof.
  intros Ha. unfold run_tools. case_match; [|case_match; [|apply safe_ret]]; (apply safe_seq; [|intros; apply safe_ret]).
  - by apply safe_parallel.
  - by apply safe_sequential.
Qed.

Lemma safe_rs_tool_round past mid it now res s :
  (forall tc, In tc (lr_ToolCalls res) -> asked past tc) -> safe J past (tool_round rt input mid it now res s).
Proof.
  intros Ha. unfold tool_round. apply safe_seq; [by apply safe_run_tools|]. intros t1 [e|[rs cb]]; [apply safe_ret|].
  apply safe_seq; [quietly [KPublish; KAwait]; apply only_rs_collect|]. intros t2 [o|s2]; [apply safe_ret|].
  apply safe_seq; [quietly [KBreaker]; apply only_snapshot|]. intros t3 [e|s3]; [apply safe_ret|].
  apply safe_seq; [quietly [KPersist]; apply only_rs_save|]. intros; apply safe_ret.
Qed.

Lemma safe_after_calls past mid it now res s :
  (forall tc, In tc (lr_ToolCalls res) -> asked past tc) -> safe J past (after_calls rt input mem ret orig mid it now res s).
Proof.
  intros Ha. unfold after_calls. case_match; [|by apply safe_rs_tool_round].
  apply safe_seq; [quietly [KDecide]; rs_only|]. intros t [e|d]; [apply safe_ret|].
  case_match; try (quietly [KLlm; KLlmFailure; KPublish; KAwait]; apply only_final).
  apply safe_rs_tool_round. intros tc Hin. by apply asked_app, Ha.
Qed.

Lemma safe_llm_round past it now s : safe J past (llm_round rt input mem ret orig it now s).
Proof.
  unfold llm_round. apply safe_seq; [quietly (@nil kind); rs_only|]. intros t1 [e|mid]; [apply safe_ret|].
  eapply safe_bind; [quietly [KLlm; KLlmFailure]; apply only_llm|apply llm_asked|]. cbn beta.
  intros t2 [e|[res fb]] Hr; [apply safe_ret|].
  apply safe_seq; [quietly [KPublish; KAwait]; apply only_check|]. intros t3 b. case_match; [apply safe_ret|].
  destruct (lr_ToolCalls res) as [|c cs] eqn:E; [apply safe_ret|]. apply safe_after_calls.
  intros tc Hin. apply asked_app. eapply asked_grows; [apply grows_tail|]. by eapply Hr.
Qed.

Lemma safe_rounds fuel : forall past it s, safe J past (rounds rt input mem ret orig fuel it s).
Proof.
  induction fuel as [|fuel IH]; intros past it s; cbn [rounds]; (case_match; [apply safe_ret|]).
  - apply safe_seq; [quietly [KFuel]; rs_only|]. intros; apply safe_ret.
  - apply safe_seq; [|intros t [s1|s1|o]; [apply IH|apply safe_ret..]].
    unfold round. case_match; [|apply safe_llm_round].
    apply safe_seq; [quietly (@nil kind); rs_only|]. intros t [e|now]; [apply safe_ret|apply safe_llm_round].
Qed.
End round.

Lemma safe_rs_loop past : safe J past (executeAgentLoop rt input).
Proof.
  unfold executeAgentLoop. apply safe_seq; [quietly (@nil kind); rs_only|]. intros t0 startedAt.
  apply safe_seq; [quietly [KPersist]; apply only_load|]. intros t1 h.
  apply safe_seq; [quietly [KMemory]; apply only_rs_recall|]. intros t2 [e|m]; [apply safe_ret|].
  apply safe_seq; [quietly [KMemory]; apply only_rs_prefetch|]. intros t3 [e|r]; [apply safe_ret|].
  apply safe_seq; [apply safe_rounds|]. intros t4 [o|s]; [apply safe_ret|].
  quietly [KPersist; KMemory]. apply only_rs_finish.
Qed.
End safety.

(** The authorizer of the tool, if it has one, said yes in an execution of the step. *)
Lemma consulted `{Location} rt input past tc :
  Forall (genuine rt) past -> authorized input past tc ->
  forall tool, FindToolByName (in_Tools input) (tc_ToolName tc) = Some tool -> t_authorizer tool = true ->
  exists t a reason, texec (step_body rt (auth_step input tc)) t (inr a) /\
    In (Ev (S := agent_sig) (OToolAuthorize (rr_Runtime rt) tool (tc_Args tc)) (inr (true, reason))) t.
Proof.
  intros Hg (o & a & _ & Hal & Hin) tool Hf Ht. rewrite List.Forall_forall in Hg.
  assert (exists t, texec (step_body rt (auth_step input tc)) t (inr a)) as [t Hx].
  { destruct Hin as [Hin|(f & _ & Hin)]; apply (Hg _ Hin a eq_refl). }
  destruct (authorization_event _ _ _ _ _ _ _ Hf Ht Hx Hal) as [reason ?]. by exists t, a, reason.
Qed.

(** C10: In both tool execution modes a durable run on Restate runs a tool, or calls the service of
    a sub-agent, only for a known call that the model asked for, after the authorization step of
    that call allowed it (where the tool has an authorizer, in an execution of the step that
    consulted it) and, where the call needs approval, after an awakeable created for it, and
    announced on the run's event log where such events are wanted, was resolved with an
    approval. *)
Theorem durable_tools_approved `{Location} rt input tr o pre e post :
  texec (executeAgentLoop rt input) tr o -> Forall (genuine rt) tr -> tr = pre ++ e :: post -> event_kind e = KTool ->
  exists tc, performs input tc e /\ IsUnknownTool tc (in_Tools input) = false /\ asked pre tc /\ authorized input pre tc /\
    (forall tool, FindToolByName (in_Tools input) (tc_ToolName tc) = Some tool -> t_authorizer tool = true ->
     exists t a reason, texec (step_body rt (auth_step input tc)) t (inr a) /\
       In (Ev (S := agent_sig) (OToolAuthorize (rr_Runtime rt) tool (tc_Args tc)) (inr (true, reason))) t) /\
    (tc_NeedsApproval tc = false \/ approved rt input pre tc).
Proof.
  intros Hx Hg -> Hk. destruct (safe_rs_loop rt input [] _ _ Hx pre e post eq_refl Hk) as (tc & Hp & Hu & Ha & Hz & Hap).
  exists tc. apply Forall_app in Hg as [Hg _]. repeat (split; [done|]). split; [by apply (consulted rt input pre tc)|done].
Qed.
End RsSafety.
