(* ===== verification/RestateRouting.v ===== *)
(** Where the effects of a durable handler on Restate go: its events, the services of its
    sub-agents, its stash entry and the clean-up of the event log.  Each claim is a footprint of
    the whole handler, lifted from the few places that perform the effects it speaks of. *)
From S2P Require Import Prelude GoLib Types Codec Prog ProgSpec Policies MemoryConfig Budget CircuitBreaker Telemetry Events TimeText EventsCodec Effects ErrorControl LLM Memory Tools AgentLoop LoopFacts RestateDefs RestateLoop RestateRun RestateFacts.

#[local] Open Scope string_scope.
#[local] Open Scope list_scope.
#[local] Open Scope Z_scope.

Module RsRouting.
Import Rs RsLoop RsRun RsFacts.

(** What the loop does besides publishing events and calling other services. *)
Definition local_effect (o : ROp) : bool :=
  match o with
  | RPublish _ _ _ | RRequest _ _ _ _ | RRequestFuture _ _ _ _ | RSendClear _ _ _
  | RStashLoad _ | RStashDelete _ | RResolveTools => false
  | RRun _ (SLLM _ _) | RRunAsync _ (SLLM _ _) | RBase (OPublish _ _) => false
  | _ => true
  end.

Section lift.
Context `{Location} (rt : RestateRuntime) (input : AgentLoopInput) (P : revent -> Prop).
Context (Hlocal : forall o (r : RAns o), local_effect o = true -> P (Ev (S := rs_sig) o r)).
Context (Hemit : forall e, only P (emit_built rt input e)).
Context (Hllm : forall o i r, li_Emit i = None -> P (Ev (S := rs_sig) (RRun o (SLLM (llm_stream rt input) i)) r)).
Context (Hchild : forall tc route, find_route (co_SubAgentRoutes (in_core input)) (tc_ToolName tc) = Some route ->
  only P (delegateToSubAgent rt input tc route)).

Ltac lift :=
  repeat first
    [ progress intros
    | apply only_ret
    | solve [ auto 2 ]
    | match goal with
      | |- only ?P (rcall ?o) => apply (only_rcall P o); intros; solve [by apply Hlocal]
      | |- only ?P (await_step ?s ?f) => apply (only_await P s f); intros; solve [by apply Hlocal]
      | |- only ?P (executeWithPolicy ?n ?p ?s) => apply (only_policy P n p s); intros; solve [by apply Hlocal]
      | |- only ?P (outside ?m) =>
          apply (only_outside_silent P m); [solve [unfold NoteUnknownTool, NoteCircuitSkip, emit_metric; foot; done]|
            let o' := fresh in let r' := fresh in let Ho := fresh in
            intros o' r' Ho; destruct o'; first [by apply Hlocal|by destruct Ho]]
      end
    | apply only_rs
    | apply only_bind
    | apply only_traverse
    | case_match
    | progress cbv beta zeta ].

Lemma emit_effects b : only P (emit rt input b).
Proof using Hlocal Hemit. unfold emit. lift. Qed.
#[local] Hint Resolve emit_effects : core.

Lemma complete_effects mid tc c f u : only P (complete rt input mid tc c f u).
Proof using Hlocal Hemit. unfold complete, emitToolComplete. lift. Qed.
#[local] Hint Resolve complete_effects : core.

Lemma start_effects mid tc : only P (emit_start rt input mid tc).
Proof using Hlocal Hemit. unfold emit_start. lift. Qed.
#[local] Hint Resolve start_effects : core.

Lemma wait_effects a : only P (wait_approval a).
Proof using Hlocal. unfold wait_approval. lift. Qed.
#[local] Hint Resolve wait_effects : core.

Lemma single_effects mid it ps now cb tc : only P (executeSingleTool rt input mid it ps now cb tc).
Proof using Hlocal Hemit Hchild.
  unfold executeSingleTool, authorized_call, approval_status, awaitApproval, emitApprovalRequest, after_approval,
    run_approved, note_unknown. lift.
Qed.
#[local] Hint Resolve single_effects : core.

Lemma sequential_effects mid it ps now calls : forall cb, only P (executeToolsSequential rt input mid it ps now cb calls).
Proof using Hlocal Hemit Hchild. induction calls as [|tc calls IH]; intros cb; cbn [executeToolsSequential]; lift. Qed.
#[local] Hint Resolve sequential_effects : core.

Lemma skip_effects mid now xs : forall cb, only P (skip_tripped rt input mid now cb xs).
Proof using Hlocal Hemit.
  induction xs as [|x xs IH]; intros cb; cbn [skip_tripped]; [apply only_ret|].
  case_match. unfold writeResult, writeResult_usage. lift.
Qed.
#[local] Hint Resolve skip_effects : core.

(** A dispatched delegation has the route of its call. *)
Definition routed_slot (y : slot * dispatched) : Prop :=
  match y.2 with
  | Delegated route => find_route (co_SubAgentRoutes (in_core input)) (tc_ToolName (sl_tc y.1)) = Some route
  | _ => True
  end.

Lemma phase_effects {A B} (f : A -> prog B) (I : A -> Prop) (R : B -> Prop) l :
  (forall x, I x -> spec (f x) (fun t y => Forall P t /\ R y)) -> Forall I l ->
  spec (traverse f l) (fun t ys => Forall P t /\ Forall R ys).
Proof using.
  intros Hf. induction l as [|x l IH]; intros Hl; simpl; [by apply spec_mret|]. inversion Hl; subst.
  eapply spec_bind; [by apply Hf|]. cbn beta. intros t1 y [? ?]. eapply spec_bind; [by apply IH|]. cbn beta. intros t2 ys [? ?].
  apply spec_mret. rewrite app_nil_r. split; [by apply Forall_app|by constructor].
Qed.

Lemma start_exec_effects mid it ps x : spec (start_exec rt input mid it ps x) (fun t y => Forall P t /\ routed_slot y).
Proof using Hlocal Hemit.
  unfold start_exec. case_match; [by apply spec_mret|]. cbv zeta. case_match.
  - destruct (find_route _ _) as [route|] eqn:E; [by apply spec_mret|].
    rs_step. intros f. apply spec_mret. split; [|done]. constructor; [by apply Hlocal|constructor].
  - eapply spec_bind with (Q1 := fun t _ => Forall P t).
    + change (only P (if String.eqb (sl_approval x) ApprovalStatusRejected then writeResult rt input mid x msgToolRejected false
        else if String.eqb (sl_approval x) ApprovalStatusUnavailable then writeResult rt input mid x msgToolApprovalUnavailable false
        else if String.eqb (sl_approval x) ApprovalStatusTimedOut then writeResult rt input mid x msgToolApprovalTimedOut false
        else writeResult rt input mid x (unexpected_status (sl_approval x) (tc_ToolName (sl_tc x))) true)).
      unfold writeResult, writeResult_usage. lift.
    + cbn beta. intros t y Ht. apply spec_mret. rewrite app_nil_r. by split.
Qed.

Lemma collect_exec_effects mid it y : routed_slot y -> spec (collect_exec rt input mid it y) (fun t y' => Forall P t /\ routed_slot y').
Proof using Hlocal Hemit.
  destruct y as [x [|f|route]]; intros Hr; unfold collect_exec; try (by apply spec_mret).
  rs_step. intros r. eapply spec_bind with (Q1 := fun t _ => Forall P t).
  - unfold write_error, writeResult, writeResult_usage.
    destruct r; apply only_bind; try apply complete_effects; intros; apply only_ret.
  - cbn beta. intros t y Ht. apply spec_mret. rewrite app_nil_r. split; [|done]. constructor; [by apply Hlocal|done].
Qed.

Lemma delegation_effects mid y : routed_slot y -> spec (run_delegation rt input mid y) (fun t _ => Forall P t /\ True).
Proof using Hlocal Hemit Hchild.
  intros Hr. eapply spec_conseq; [|intros t a Ht; split; [exact Ht|done]].
  change (only P (run_delegation rt input mid y)). destruct y as [x [|f|route]]; unfold run_delegation; lift.
  all: unfold write_error, writeResult, writeResult_usage; lift.
Qed.

Lemma parallel_effects mid it ps now cb calls : only P (executeToolsParallel rt input mid it ps now cb calls).
Proof using Hlocal Hemit Hchild.
  unfold executeToolsParallel. destruct calls as [|c1 [|c2 calls]]; [apply only_ret|apply sequential_effects|].
  apply only_bind; [lift|]. intros _. apply only_bind; [|intros; apply only_ret]. unfold parallel_phases.
  apply only_bind; [unfold answer_unknown, note_unknown, writeResult, writeResult_usage; lift|]. intros xs.
  apply only_bind; [apply skip_effects|]. intros s.
  apply only_bind; [unfold start_auth; lift|]. intros auths.
  apply only_bind; [unfold collect_auth, write_error, writeResult, writeResult_usage; lift|]. intros xs1.
  apply only_bind; [unfold request_approval, emitApprovalRequest; lift|]. intros pending.
  apply only_bind; [unfold collect_approval, write_error, writeResult, writeResult_usage; lift|]. intros xs2.
  eapply spec_bind; [apply (phase_effects _ (fun _ => True) routed_slot);
    [intros x _; apply start_exec_effects|by apply List.Forall_forall]|]. cbn beta. intros t1 r1 [H1 Hr1].
  eapply spec_bind; [by apply (phase_effects _ routed_slot routed_slot); [intros; by apply collect_exec_effects|]|].
  cbn beta. intros t2 r2 [H2 Hr2].
  eapply spec_bind; [by apply (phase_effects _ routed_slot (fun _ => True)); [intros; by apply delegation_effects|]|].
  cbn beta. intros t3 xs3 [H3 _]. apply spec_mret. rewrite app_nil_r. by repeat apply Forall_app_2.
Qed.

Lemma budget_effects t tel u : only P (checkBudget rt input t tel u).
Proof using Hlocal Hemit. unfold checkBudget, handleBudgetExceeded, awaitBudgetApproval. lift. Qed.
#[local] Hint Resolve budget_effects : core.

Lemma collect_effects now calls : forall rs s, only P (collect rt input now calls rs s).
Proof using Hlocal Hemit.
  induction calls as [|tc calls IH]; intros [|r rs] s; cbn [collect]; try apply only_ret. unfold charge_child, check_budget. lift.
Qed.
#[local] Hint Resolve collect_effects parallel_effects : core.

Lemma llm_step_effects p i it pre fb : li_Emit i = None -> only P (executeLLMStep rt input p i it pre fb).
Proof using Hllm.
  intros Hi. unfold executeLLMStep. destruct fb; [destruct (ResolveLLMClient _ _); [apply only_ret|]|];
    (match goal with |- only ?P (executeWithPolicy ?n ?p ?s) => apply (only_policy P n p s) end; intros; by apply Hllm).
Qed.
#[local] Hint Resolve llm_step_effects : core.

Lemma llm_effects p i it pre fb : li_Emit i = None -> only P (executeLLMStepWithErrorControl rt input p i it pre fb).
Proof using Hlocal Hllm. intros Hi. unfold executeLLMStepWithErrorControl. lift. Qed.
#[local] Hint Resolve llm_effects : core.
#[local] Hint Extern 0 (li_Emit _ = None) => reflexivity : core.

Lemma round_effects mem ret orig it s : only P (round rt input mem ret orig it s).
Proof using Hlocal Hemit Hllm Hchild.
  unfold round, llm_round, after_calls, final_call, tool_round, run_tools, check_budget, snapshot_breaker, save_iteration,
    persistConversationMessages. lift.
Qed.

Lemma rounds_effects mem ret orig fuel : forall it s, only P (rounds rt input mem ret orig fuel it s).
Proof using Hlocal Hemit Hllm Hchild.
  induction fuel as [|fuel IH]; intros it s; cbn [rounds]; (case_match; [apply only_ret|]); [lift|].
  apply only_bind; [apply round_effects|]. intros [s1|s1|o]; [apply IH|apply only_ret..].
Qed.
#[local] Hint Resolve rounds_effects : core.

Lemma loop_effects : only P (executeAgentLoop rt input).
Proof using Hlocal Hemit Hllm Hchild.
  unfold executeAgentLoop, load_history, recall_memory, prefetch, finish_run, store_memory, persistConversationMessages. lift.
Qed.
End lift.

(** ** The claim *)

(** The event log and the topic of a run: those it was given, or its own. *)
Definition topic_of (c : agentLoopCore) : string :=
  let topic := TrimSpace (co_EventTopic c) in if String.eqb topic "" then TrimSpace (co_RunID c) else topic.
Definition stream_of (rt : RestateRuntime) (c : agentLoopCore) : string * string :=
  (event_service rt (co_EventLogService c), topic_of c).

(** A call of a sub-agent's service as its parent must make it. *)
Definition contained_child (rt : RestateRuntime) (staged : stagedRun) (req : AgentLoopRequest) (service handler : string)
    (child : AgentLoopRequest) (key : string) : Prop :=
  let c := rq_core req in let c' := rq_core child in
  key = co_RunID c' /\
  handler = (if rq_StreamHandler req then agentLoopStreamHandler else agentLoopRunHandler) /\
  rq_StreamHandler child = rq_StreamHandler req /\
  co_SubAgentDepth c' = co_SubAgentDepth c + 1 /\ co_SubAgentDepth c < co_MaxSubAgentDepth c' /\
  (sg_maxSubAgentDepth staged = 0 -> co_MaxSubAgentDepth c' = co_MaxSubAgentDepth c) /\
  co_EventTypes c' = handler_event_types rt staged req /\ co_ConversationID c' = "" /\
  (forall rt', stream_of rt' c' = stream_of rt c) /\
  exists name route, find_route (co_SubAgentRoutes c) name = Some route /\ service = TrimSpace (rt_ServiceName route) /\
    co_SubAgentRoutes c' = rt_ChildRoutes route.

(** An event a durable step publishes through the ingress client: to the run's log and topic,
    past its filter. *)
Definition to_stream `{Location} (rt : RestateRuntime) (staged : stagedRun) (req : AgentLoopRequest)
    (path : string) (ev : AgentEvent) : Prop :=
  path = publish_path (stream_of rt (rq_core req)).1 (stream_of rt (rq_core req)).2 /\
  eventAllowed (handler_event_types rt staged req) (ae_Body ev) = true.

Definition routed `{Location} (rt : RestateRuntime) (staged : stagedRun) (req : AgentLoopRequest) (e : revent) : Prop :=
  match ev_op e with
  | RPublish service topic raw =>
      (service, topic) = stream_of rt (rq_core req) /\
      exists ev, ToJSON ev = Some raw /\ eventAllowed (handler_event_types rt staged req) (ae_Body ev) = true
  | RRequest service handler child key | RRequestFuture service handler child key =>
      contained_child rt staged req service handler child key
  | RSendClear service topic _ =>
      service = rr_eventLogServiceName rt /\ co_SubAgentDepth (rq_core req) = 0 /\ TrimSpace topic = topic_of (rq_core req)
  | RStashLoad id | RStashDelete id => id = co_RunID (rq_core req)
  | RRun _ s | RRunAsync _ s => always (publishes (to_stream rt staged req)) (step_body rt s)
  | RBase o => silent o
  | _ => True
  end.

(** ** Proof *)

(** What the options make of the name of the event log service. *)
Definition clean_name (name : string) : Prop := TrimSpace name = name /\ name <> "".

Section handler.
Context `{Location} (rt : RestateRuntime) (ctx : Ctx) (staged : stagedRun) (tools : list Tool) (req : AgentLoopRequest).
Context (Hown : clean_name (rr_eventLogServiceName rt)) (Hrun : TrimSpace (co_RunID (rq_core req)) <> "").

#[local] Abbreviation input := (handler_input rt ctx staged tools req).

Lemma handler_service : event_service rt (run_event_log rt input) = event_service rt (co_EventLogService (rq_core req)).
Proof using Hown.
  destruct Hown as [Ht Hn]. unfold event_service, run_event_log. cbn [in_core handler_input co_EventLogService]. rewrite TrimSpace_idem.
  destruct (String.eqb (TrimSpace (co_EventLogService (rq_core req))) "") eqn:E; [|by rewrite TrimSpace_idem, E].
  rewrite Ht. by case_match.
Qed.

Lemma handler_topic : run_topic input = topic_of (rq_core req).
Proof using Hrun.
  unfold run_topic, topic_of. cbn [in_core handler_input co_EventTopic co_RunID].
  destruct (String.eqb (TrimSpace (co_EventTopic (rq_core req))) "") eqn:E; [|by rewrite TrimSpace_idem, E].
  destruct (String.eqb (TrimSpace (co_RunID (rq_core req))) "") eqn:E2; [|done]. by apply String.eqb_eq in E2.
Qed.

Lemma topic_of_nonempty : topic_of (rq_core req) <> "".
Proof using Hrun. unfold topic_of. destruct (String.eqb _ "") eqn:E; [done|]. by apply String.eqb_neq. Qed.

Lemma topic_of_trimmed : TrimSpace (topic_of (rq_core req)) = topic_of (rq_core req).
Proof using. unfold topic_of. case_match; apply TrimSpace_idem. Qed.

Lemma child_stream tc route id rt' : stream_of rt' (rq_core (childReq rt input tc route id)) = stream_of rt (rq_core req).
Proof using Hown Hrun.
  unfold stream_of. f_equal.
  - rewrite <- handler_service. cbn [childReq rq_core co_EventLogService].
    assert (TrimSpace (run_event_log rt input) <> "") as Hne.
    { unfold run_event_log. cbn [in_core handler_input co_EventLogService]. rewrite TrimSpace_idem.
      destruct (String.eqb _ "") eqn:E; [by rewrite (proj1 Hown); apply Hown|]. rewrite TrimSpace_idem. by apply String.eqb_neq. }
    unfold event_service. apply String.eqb_neq in Hne. by rewrite Hne.
  - unfold topic_of at 1. cbn [childReq rq_core co_EventTopic co_RunID]. rewrite handler_topic, topic_of_trimmed.
    pose proof topic_of_nonempty as Hne. apply String.eqb_neq in Hne. by rewrite Hne.
Qed.

#[local] Abbreviation R := (routed rt staged req).

Lemma routed_rs_emit e : only R (emit_built rt input e).
Proof using Hown Hrun.
  unfold emit_built, emitEvent. destruct (_ || _) eqn:E; [apply only_ret|]. apply orb_false_iff in E as [E _].
  apply negb_false_iff in E. destruct (ToJSON e) as [raw|] eqn:Ej; [|apply only_ret].
  apply only_bind; [|intros; apply only_ret]. match goal with |- only _ (rcall ?o) => apply (only_rcall R o) end. intros r.
  split; [|by exists e]. by rewrite handler_service, handler_topic.
Qed.

(** The bodies of the steps other than model calls publish nothing, wherever they may. *)
Lemma step_publishes allowed s : match s with SLLM _ _ => False | _ => True end -> always (publishes allowed) (step_body rt s).
Proof using.
  destruct s; intros Hs; try done; cbn [step_body].
  - apply publishes_fetch.
  - apply publishes_recall.
  - apply publishes_retrievers.
  - unfold llm_failure_body. apply always_bind; [apply publishes_llm_failure|]. intros; apply always_ret.
  - apply always_bind; [apply publishes_max_iterations|]. intros; apply always_ret.
  - apply publishes_authorize.
  - apply publishes_execute_tool.
  - apply always_bind; [apply publishes_add|]. intros; apply always_ret.
  - unfold memory_store_body. apply always_bind; [apply publishes_memory_store|]. intros; apply always_ret.
Qed.

(** A streamed model call publishes its tokens to the stream of the run, past its filter. *)
Lemma llm_publishes i : li_Emit i = None -> always (publishes (to_stream rt staged req)) (step_body rt (SLLM (llm_stream rt input) i)).
Proof using Hown Hrun.
  intros Hi. cbn [step_body]. unfold llm_stream. destruct (in_StreamingEnabled input); cbn [when llm_body].
  - apply publishes_stream. intros f ev [= <-]. unfold emitEventIngress. destruct (_ || _) eqn:E; [done|].
    destruct (ToJSON ev); [|done]. apply always_bind; [by apply always_call|]. intros id. apply always_call.
    split; [by rewrite handler_service, handler_topic|].
    apply orb_false_iff in E as [E _]. apply orb_false_iff in E as [_ E]. by apply negb_false_iff in E.
  - apply publishes_generate. intros f ev. by rewrite Hi.
Qed.

Lemma routed_child tc route id :
  find_route (co_SubAgentRoutes (in_core input)) (tc_ToolName tc) = Some route ->
  co_SubAgentDepth (in_core input) < co_MaxSubAgentDepth (in_core input) ->
  contained_child rt staged req (TrimSpace (rt_ServiceName route)) (sub_agent_handler input) (childReq rt input tc route id) id.
Proof using Hown Hrun.
  intros Hf Hd. unfold contained_child. cbv zeta. repeat (split; [done|]). split.
  { cbn [childReq rq_core co_MaxSubAgentDepth handler_input in_core]. intros ->. done. }
  split; [done|]. split; [done|]. split; [intros rt'; apply child_stream|]. by exists (tc_ToolName tc), route.
Qed.

Lemma routed_attempts tc route p n :
  find_route (co_SubAgentRoutes (in_core input)) (tc_ToolName tc) = Some route ->
  co_SubAgentDepth (in_core input) < co_MaxSubAgentDepth (in_core input) ->
  forall a b, only R (delegate_attempts rt input tc route p n a b).
Proof using Hown Hrun.
  intros Hf Hd. induction n as [|n IH]; intros a b; cbn [delegate_attempts];
    (apply only_rs; [by apply (only_policy R _ _ SUUID)|]; intros id; apply only_bind;
      [|intros [e|resp]; [|apply only_ret]]).
  1, 3: unfold invokeSubAgentHandler; cbn [childReq rq_core co_RunID]; case_match;
    [match goal with |- only _ (rcall ?o) => apply (only_rcall R o) end; intros r; by apply routed_child|];
    apply only_bind; [match goal with |- only _ (rcall ?o) => apply (only_rcall R o) end; intros r; by apply routed_child|];
    intros fut; repeat first [progress intros | apply only_ret | case_match | progress cbv beta zeta
      | match goal with |- only _ (rcall ?o) => apply (only_rcall R o); intros; exact I end | apply only_bind].
  - apply only_ret.
  - case_match; [|apply IH]. apply only_bind; [match goal with |- only _ (rcall ?o) => apply (only_rcall R o); intros; exact I end|].
    intros [e'|]; [apply only_ret|apply IH].
Qed.

Lemma routed_rs_delegate tc route :
  find_route (co_SubAgentRoutes (in_core input)) (tc_ToolName tc) = Some route -> only R (delegateToSubAgent rt input tc route).
Proof using Hown Hrun.
  intros Hf. unfold delegateToSubAgent. case_match; [apply only_ret|].
  destruct (Z.leb_spec (co_MaxSubAgentDepth (in_core input)) (co_SubAgentDepth (in_core input))); [apply only_ret|].
  assert (only R (rcall RNow)) as Hnow by (by apply (only_rcall R RNow)).
  apply only_bind; [unfold emit; apply only_bind; [exact Hnow|intros; apply routed_rs_emit]|]. intros _.
  apply only_bind; [exact Hnow|]. intros now. cbv zeta.
  apply only_bind; [by apply routed_attempts|]. intros r. apply only_bind; [apply routed_rs_emit|]. intros; apply only_ret.
Qed.

Lemma routed_loop : only R (executeAgentLoop rt input).
Proof using Hown Hrun.
  apply loop_effects; [|apply routed_rs_emit| |intros tc route; apply routed_rs_delegate].
  - intros o r Ho. unfold routed. destruct o; try done; [by destruct o| |];
      (destruct s; try discriminate Ho; by apply (step_publishes (to_stream rt staged req))).
  - intros o i r Hi. by apply llm_publishes.
Qed.

Lemma routed_clear : only R (schedule_clear rt input).
Proof using Hrun.
  unfold schedule_clear. cbv zeta. destruct (_ && _) eqn:E; [|apply only_ret]. crush_bool.
  match goal with |- only _ (rcall ?o) => apply (only_rcall R o) end. intros r. split; [done|]. split; [done|].
  unfold topic_of. cbn [handler_input in_core co_EventTopic]. case_match; [done|apply TrimSpace_idem].
Qed.
End handler.

(** C11: Whatever happens in a durable handler, every event it publishes, also those a durable step
    streams through the ingress client in any execution of its body, passes its filter and goes
    to one event log and topic, those its request names or the runtime's own; every call of a
    sub-agent's service follows a route of the request, is one level deeper, within the depth
    limit, keyed by its own run ID, and names the same event log, topic and filter, so that the
    handler that serves it publishes to the same stream; only a root run schedules the clean-up
    of its topic, and only the entry of the run is taken from the stash. *)
Theorem durable_routing `{Location} terminal toTerminal rt ctx req tr r :
  clean_name (rr_eventLogServiceName rt) -> TrimSpace (co_RunID (rq_core req)) <> "" ->
  texec (handle rt terminal toTerminal ctx req) tr r ->
  tr = [] \/ exists staged, In (Ev (S := rs_sig) (RStashLoad (co_RunID (rq_core req))) staged) tr /\
                           Forall (routed rt (default no_staged staged) req) tr.
Proof.
  intros Hown Hrun. unfold handle. destruct (validateAgentName _ _); [intros [-> _]%texec_ret_inv; by left|]. cbv zeta.
  intros Hx. right. unfold rcall at 1 in Hx. apply texec_bind_inv in Hx as (t1 & t2 & staged & -> & H1 & Hx).
  apply texec_do_inv in H1 as (staged' & t' & -> & [-> <-]%texec_ret_inv).
  exists staged. split; [by left|]. constructor; [done|].
  cut (only (routed rt (default no_staged staged) req)
    (staged' ← rcall (RStashLoad (co_RunID (rq_core req)));
     tools ←% resolveTools rt staged';
     o ← executeAgentLoop rt (handler_input rt ctx (default no_staged staged) tools req);
     match o with
     | Finished r =>
         _ ← rcall (RStashDelete (co_RunID (rq_core req)));
         _ ← schedule_clear rt (handler_input rt ctx (default no_staged staged) tools req);
         mret (inr {| rs_Result := Some (run_result rt (co_RunID (rq_core req)) r) |})
     | Stopped _ err =>
         _ ← (if isApplicationLoopError err then rcall (RStashDelete (co_RunID (rq_core req))) else mret tt);
         mret (inl (terminalLoopError terminal toTerminal err))
     end)); [intros Ho; exact (Ho _ _ Hx)|]. clear Hx.
  assert (forall id, id = co_RunID (rq_core req) ->
    only (routed rt (default no_staged staged) req) (rcall (RStashDelete id))) as Hdel
    by (intros id Hid; apply (only_rcall _ (RStashDelete id)); by intros).
  apply only_bind; [by apply (only_rcall _ (RStashLoad _))|]. intros staged2.
  apply only_rs; [unfold resolveTools; repeat case_match; try apply only_ret; by apply (only_rcall _ RResolveTools)|]. intros tools.
  apply only_bind; [by apply routed_loop|]. intros [res|p err].
  - apply only_bind; [by apply Hdel|]. intros _. apply only_bind; [by apply routed_clear|]. intros; apply only_ret.
  - apply only_bind; [case_match; [by apply Hdel|apply only_ret]|]. intros; apply only_ret.
Qed.
End RsRouting.
