(* ===== verification/RestateBounds.v ===== *)
(** Bounds of the durable loop on Restate: the model calls, the decisions and the single
    extension, and that the rounds the model provides are enough. *)
From S2P Require Import Prelude GoLib Types Codec Prog ProgSpec Policies MemoryConfig Budget CircuitBreaker Telemetry Events TimeText EventsCodec Effects ErrorControl LLM Memory Tools AgentLoop RestateDefs RestateLoop RestateRun RestateFacts.

#[local] Open Scope string_scope.
#[local] Open Scope list_scope.
#[local] Open Scope Z_scope.

Module RsBounds.
Import Rs RsLoop RsRun RsFacts.

(** ** Counting effects *)

Definition tally_if (p : revent -> bool) (tr : list revent) : Z := Z.of_nat (length (List.filter p tr)).
Definition tally_kind (k : kind) : list revent -> Z := tally_if (fun e => bool_decide (event_kind e = k)).

(** A decision that granted extra rounds. *)
Definition grants (e : revent) : bool :=
  match e with
  | Ev (RRun _ (SMaxIterations _ _)) (inr d) =>
      match dec_Action d with ErrorControlExtendIterations => true | _ => false end
  | _ => false
  end.

Lemma tally_rs_app p t1 t2 : tally_if p (t1 ++ t2) = tally_if p t1 + tally_if p t2.
Proof. unfold tally_if. rewrite List.filter_app, length_app. lia. Qed.

Lemma tally_none p tr : Forall (fun e => p e = false) tr -> tally_if p tr = 0.
Proof. unfold tally_if. induction 1 as [|e tr He _ IH]; [done|]. simpl. by rewrite He. Qed.

Lemma tally_nonneg p tr : 0 <= tally_if p tr.
Proof. unfold tally_if. lia. Qed.

Lemma grants_kind e : event_kind e <> KDecide -> grants e = false.
Proof. destruct e as [o r]. destruct o; try done. by destruct s. Qed.

(** The four counts of a trace: model calls, decisions, extensions, rounds that are missing. *)
Definition counts (tr : list revent) : Z * Z * Z * Z :=
  (tally_kind KLlm tr, tally_kind KDecide tr, tally_if grants tr, tally_kind KFuel tr).

Definition none : Z * Z * Z * Z := (0, 0, 0, 0).

Definition plus (a b : Z * Z * Z * Z) : Z * Z * Z * Z :=
  let '(a1, a2, a3, a4) := a in let '(b1, b2, b3, b4) := b in (a1 + b1, a2 + b2, a3 + b3, a4 + b4).

Lemma counts_app t1 t2 : counts (t1 ++ t2) = plus (counts t1) (counts t2).
Proof. unfold counts, plus, tally_kind. by rewrite !tally_rs_app. Qed.

Lemma plus_none_r a : plus a none = a.
Proof. destruct a as [[[a1 a2] a3] a4]. unfold plus, none. by rewrite !Z.add_0_r. Qed.

(** An effect that is not counted. *)
Lemma counts_end t e : counts [e] = none -> counts (t ++ [e]) = counts t.
Proof. intros He. by rewrite counts_app, He, plus_none_r. Qed.

Lemma counts_skip e t : counts [e] = none -> counts (e :: t) = counts t.
Proof.
  intros He. rewrite <- (app_nil_l (e :: t)), cons_middle, app_assoc, counts_app. rewrite app_nil_l, He.
  destruct (counts t) as [[[a1 a2] a3] a4]. done.
Qed.

Lemma only_uncounted ks {A} (m : prog A) :
  ~ In KLlm ks -> ~ In KDecide ks -> ~ In KFuel ks -> only (within ks) m -> spec m (fun tr _ => counts tr = none).
Proof.
  intros H1 H2 H3 H. eapply spec_conseq; [exact H|]. cbn beta. intros tr _ Ht. unfold counts, none, tally_kind.
  assert (forall k, k <> KQuiet -> ~ In k ks -> tally_if (fun e => bool_decide (event_kind e = k)) tr = 0) as Hk.
  { intros k Hq Hn. apply tally_none. eapply Forall_impl; [exact Ht|]. intros e He.
    apply bool_decide_eq_false_2. by eapply within_rs_not. }
  rewrite !Hk, tally_none; [done| |done..]. eapply Forall_impl; [exact Ht|]. intros e He.
  apply grants_kind. by eapply within_rs_not.
Qed.

Ltac uncounted ks := apply (only_uncounted ks); [cbn; intuition discriminate..|].

Section bounds.
Context `{Location} (rt : RestateRuntime) (input : AgentLoopInput).

#[local] Abbreviation M := (maxIterations rt).
#[local] Abbreviation T := (genuine rt).

Lemma M_positive : 0 < M.
Proof. unfold maxIterations. pose proof (EffectiveMaxIterations_pos (ac_MaxIterations (rt_AgentConfig (rr_Runtime rt)))). lia. Qed.

(** ** What controls the rounds *)

Definition control (s : vars) : Z * bool * bool :=
  (ls_maxIter (v_loop s), ls_useFallback (v_loop s), ls_extended (v_loop s)).

Definition in_limits (s : vars) : Prop :=
  ls_extended (v_loop s) = false /\ ls_maxIter (v_loop s) = M \/
  ls_extended (v_loop s) = true /\ M < ls_maxIter (v_loop s) <= 2 * M.

Lemma in_limits_control s s' : control s' = control s -> in_limits s -> in_limits s'.
Proof. unfold control, in_limits. intros [= -> _ ->]. done. Qed.

(** The fallback that is left, and the extension that was used. *)
Definition fallback_left (s : vars) : Z := if ls_useFallback (v_loop s) then 0 else 1.
Definition extension_used (s : vars) : Z := if ls_extended (v_loop s) then 1 else 0.

Lemma left_range s : 0 <= fallback_left s <= 1.
Proof. unfold fallback_left. case_match; lia. Qed.
Lemma used_range s : 0 <= extension_used s <= 1.
Proof. unfold extension_used. case_match; lia. Qed.

Lemma check_control s u : spec (check_budget rt input s u) (fun tr b => counts tr = none /\ control b.2 = control s).
Proof.
  apply spec_and; [uncounted [KPublish; KAwait]; apply only_check|].
  unfold check_budget. eapply spec_bind; [apply spec_true|]. intros t b _. by apply spec_mret.
Qed.

Lemma charge_control s u : spec (charge_child rt input s u) (fun _ c => control c.2 = control s).
Proof.
  unfold charge_child. destruct u as [u|]; [|by apply spec_mret].
  eapply spec_conseq; [apply check_control|]. cbn beta. intros t c [_ ->].
  unfold control, merge_usage, on_loop. cbn. by rewrite orb_false_r.
Qed.

Lemma collect_control now calls : forall rs s,
  spec (collect rt input now calls rs s) (fun _ r => match r with inr s' => control s' = control s | inl _ => True end).
Proof.
  induction calls as [|tc calls IH]; intros [|r rs] s; cbn [collect]; try by apply spec_mret.
  eapply spec_bind; [apply charge_control|]. cbn beta. intros t1 [[err|] s1] H1; [by apply spec_mret|].
  eapply spec_conseq; [apply IH|]. cbn beta. intros t2 [o|s2] H2; [done|]. cbn in *. by rewrite H2, H1.
Qed.

Lemma snapshot_control it s :
  spec (snapshot_breaker it s) (fun _ r => match r with inr s' => control s' = control s | inl _ => True end).
Proof. unfold snapshot_breaker, bind_rs. case_match; [|by apply spec_mret]. rs_step. intros [e|snap]; by apply spec_mret. Qed.

Lemma save_control s : spec (save_iteration rt input s) (fun _ s' => control s' = control s).
Proof.
  unfold save_iteration. case_match; [|by apply spec_mret]. eapply spec_bind; [apply spec_true|]. intros t [] _. by apply spec_mret.
Qed.

Definition tool_kinds : list kind := [KPublish; KAwait; KAuthorize; KTool; KBreaker; KPersist].

Lemma only_single mid it ps now cb tc : only (within tool_kinds) (executeSingleTool rt input mid it ps now cb tc).
Proof.
  unfold executeSingleTool. apply only_bind; [apply only_rs_start; cbn; tauto|]. intros _. case_match.
  - apply only_bind; [apply only_note_unknown|]. intros _. apply only_bind; [apply only_complete; cbn; tauto|]. intros; apply only_ret.
  - case_match. case_match.
    + apply only_bind; [rs_only|]. intros _. apply only_bind; [apply only_complete; cbn; tauto|]. intros; apply only_ret.
    + apply only_bind; [|intros; apply only_ret]. unfold authorized_call. apply only_bind; [rs_only|]. intros [e|a]; [apply only_ret|].
      case_match; [apply only_bind; [apply only_complete; cbn; tauto|intros; apply only_ret]|].
      apply only_rs; [rs_sub only_approval_status|]. intros status. apply only_rs.
      * unfold after_approval, run_approved. repeat case_match; try apply only_ret; [|rs_only].
        apply only_rs; [rs_sub only_rs_delegate|]. intros; apply only_ret.
      * intros c. apply only_bind; [apply only_complete; cbn; tauto|intros; apply only_ret].
Qed.

Lemma only_sequential mid it ps now calls : forall cb, only (within tool_kinds) (executeToolsSequential rt input mid it ps now cb calls).
Proof.
  induction calls as [|tc calls IH]; intros cb; cbn [executeToolsSequential]; [apply only_ret|].
  apply only_bind; [apply only_single|]. intros r. apply only_bind; [apply IH|]. intros; apply only_ret.
Qed.

Lemma only_parallel mid it ps now cb calls : only (within tool_kinds) (executeToolsParallel rt input mid it ps now cb calls).
Proof.
  unfold executeToolsParallel. destruct calls as [|c1 [|c2 calls]]; [apply only_ret|apply only_sequential|].
  apply only_bind; [apply only_traverse; intros; apply only_rs_start; cbn; tauto|]. intros _.
  apply only_bind; [|intros; apply only_ret]. unfold parallel_phases.
  repeat first
    [ apply only_traverse; intros ?; first
        [ apply only_answer_unknown; cbn; tauto | rs_sub only_start_auth | rs_sub only_collect_auth | rs_sub only_request
        | rs_sub only_collect_approval | rs_sub only_start_exec | rs_sub only_collect_exec | rs_sub only_run_delegation ]
    | apply only_skip; cbn; tauto
    | apply only_ret
    | apply only_bind; [|intros ?] ].
Qed.

Lemma only_run_tools mid it now cb calls : only (within tool_kinds) (run_tools rt input mid it now cb calls).
Proof.
  unfold run_tools. repeat case_match; try apply only_ret;
    (apply only_bind; [first [apply only_parallel | apply only_sequential]|intros; apply only_ret]).
Qed.

Lemma tool_round_control mid it now res s :
  spec (tool_round rt input mid it now res s) (fun tr r => counts tr = none /\
    match r with RNext s' => control s' = control s | RBreak _ => False | RReturn _ => True end).
Proof.
  apply spec_and.
  - uncounted tool_kinds. unfold tool_round. apply only_bind; [apply only_run_tools|]. intros [e|[rs cb]]; [apply only_ret|].
    apply only_bind; [rs_sub only_rs_collect|]. intros [o|s1]; [apply only_ret|].
    apply only_bind; [rs_sub only_snapshot|]. intros [e|s2]; [apply only_ret|].
    apply only_bind; [rs_sub only_rs_save|]. intros; apply only_ret.
  - unfold tool_round. eapply spec_bind; [apply spec_true|]. intros t1 [e|[rs cb]] _; [by apply spec_mret|].
    eapply spec_bind; [apply collect_control|]. cbn beta. intros t2 [o|s1] H1; [by apply spec_mret|].
    eapply spec_bind; [apply snapshot_control|]. cbn beta. intros t3 [e|s2] H2; [by apply spec_mret|].
    eapply spec_bind; [apply save_control|]. cbn beta. intros t4 s3 H3. apply spec_mret. by rewrite H3, H2, H1.
Qed.

(** ** Model calls *)

Lemma llm_step_count p i it pre fb :
  spec (executeLLMStep rt input p i it pre fb) (fun tr _ => exists n, counts tr = (n, 0, 0, 0) /\ 0 <= n <= 1).
Proof.
  unfold executeLLMStep. destruct (if fb then _ else _) as [e|i']; [apply spec_mret; by exists 0|].
  rs_step. intros r. by exists 1.
Qed.

(** A second call is only made to the fallback model, which is used from then on. *)
Lemma llm_count p i it pre fb :
  spec (executeLLMStepWithErrorControl rt input p i it pre fb) (given T (fun tr r =>
    exists n, counts tr = (n, 0, 0, 0) /\
      match r with
      | inr (_, usedFB) => n <= 1 \/ fb = false /\ usedFB = true /\ n <= 2
      | inl _ => n <= 1 \/ fb = false /\ n <= 2
      end)).
Proof.
  unfold executeLLMStepWithErrorControl. eapply spec_given_bind; [apply spec_given, llm_step_count|]. cbn beta.
  intros t1 [e|res] _ (n1 & H1 & Hn1).
  2:{ apply spec_given, spec_mret. rewrite app_nil_r. exists n1. split; [done|]. left; lia. }
  destruct fb; [apply spec_given, spec_mret; rewrite app_nil_r; exists n1; split; [done|left; lia]|].
  unfold bind_rs at 1. rs_step. intros ans. destruct ans as [e2|useFB]; cbn [named_result].
  { apply spec_mret. intros _. rewrite counts_end, H1 by done. exists n1. split; [done|]. left; lia. }
  intros t2 r Hx Hg. apply Forall_cons_1 in Hg as [Hb _]. cbn in Hb. destruct (Hb useFB eq_refl) as [t Ht].
  assert (useFB = true) as ->.
  { unfold llm_failure_body in Ht. apply texec_bind_inv in Ht as (? & ? & dec & _ & _ & [_ Hd]%texec_ret_inv).
    destruct (dec_Action dec); congruence. }
  apply texec_bind_inv in Hx as (t3 & t4 & r2 & -> & Hl & Hr). destruct (llm_step_count _ _ _ _ _ _ _ Hl) as (n2 & H2 & Hn2).
  assert (Hc : forall e, counts (t1 ++ Ev (S := rs_sig) (RRun (policyToRunOpts ("llm-failure-" +:+ pre +:+ Itoa it) once)
    (SLLMFailure {| fi_Attempt := LLMPolicyAttempts (ep_MaxAttempts p); fi_Err := e |})) (inr true) :: t3 ++ []) = (n1 + n2, 0, 0, 0)).
  { intros e'. rewrite app_nil_r, cons_middle, !counts_app, H1, H2. done. }
  exists (n1 + n2). destruct r2 as [e3|res]; apply texec_ret_inv in Hr as [-> ->]; (split; [apply Hc|]); right; split_and!; try done; lia.
Qed.

(** ** One round *)

Definition round_bound (s : vars) (tr : list revent) (r : round_result) : Prop :=
  exists a b c, counts tr = (a, b, c, 0) /\
    match r with
    | RNext s' => in_limits s' /\ a + fallback_left s' <= 1 + fallback_left s /\
                  b + extension_used s <= extension_used s' /\ c + extension_used s <= extension_used s'
    | RBreak _ | RReturn _ => a <= 2 + fallback_left s /\ b + extension_used s <= 2 /\ c + extension_used s <= 1
    end.

Lemma round_bound_control s s' tr r : control s = control s' -> round_bound s tr r -> round_bound s' tr r.
Proof. unfold control, round_bound, fallback_left, extension_used. intros [= _ -> ->]. done. Qed.

Lemma control_left s s' : control s' = control s -> fallback_left s' = fallback_left s.
Proof. unfold control, fallback_left. by intros [= _ -> _]. Qed.
Lemma control_used s s' : control s' = control s -> extension_used s' = extension_used s.
Proof. unfold control, extension_used. by intros [= _ _ ->]. Qed.

Lemma final_bound mem ret it s :
  spec (final_call rt input mem ret it s) (given T (fun tr r =>
    exists a, counts tr = (a, 0, 0, 0) /\ a <= 1 + fallback_left s /\ match r with RNext _ => False | _ => True end)).
Proof.
  pose proof (left_range s). unfold final_call. rs_step. intros id.
  destruct id as [e|id]; cbn [named_result]; [apply spec_mret; intros _; by exists 0; split_and!; [done|lia|done]|].
  match goal with |- spec ?m _ => cut (spec m (given T (fun tr r =>
    exists a, counts tr = (a, 0, 0, 0) /\ a <= 1 + fallback_left s /\ match r with RNext _ => False | _ => True end))) end.
  { intros Hs. eapply spec_conseq; [exact Hs|]. intros t r H1 Hg. apply Forall_cons_1 in Hg as [_ Hg].
    destruct (H1 Hg) as (a & Ha & Hr). exists a. split; [|exact Hr]. by rewrite counts_skip. }
  eapply (spec_given_bind T); [apply llm_count|].
  cbn beta. intros t1 r1 _ (n & Hc & Hn).
  assert (n <= 1 + fallback_left s).
  { unfold fallback_left. destruct r1 as [?|[? ?]], (ls_useFallback (v_loop s)); intuition (try done; try lia). }
  destruct r1 as [e|[res fb]]; apply spec_given.
  - apply spec_mret. rewrite app_nil_r. by exists n.
  - eapply spec_bind; [apply check_control|]. cbn beta. intros t2 b [Hb _].
    case_match; apply spec_mret; rewrite app_nil_r, counts_app, Hc, Hb, plus_none_r; exists n; split_and!; done.
Qed.

Lemma tool_round_bound mid it now res s0 s : in_limits s -> 
  fallback_left s <= fallback_left s0 -> extension_used s = extension_used s0 ->
  spec (tool_round rt input mid it now res s) (fun tr r => round_bound s0 tr r).
Proof.
  intros Hs Hf He. pose proof (used_range s). pose proof (left_range s). eapply spec_conseq; [apply tool_round_control|]. cbn beta.
  intros tr r [Hc Hr]. unfold round_bound. rewrite Hc. exists 0, 0, 0. split; [done|]. destruct r as [s'|s'|o]; [|done|lia].
  rewrite (control_left _ _ Hr), (control_used _ _ Hr). split; [by eapply in_limits_control|lia].
Qed.

(** An effect that is not counted before the rest of the round. *)
Lemma round_bound_skip s e t r : counts [e] = none -> round_bound s t r -> round_bound s (e :: t) r.
Proof. intros He (a & b & c & Hc & Hr). exists a, b, c. by rewrite counts_skip. Qed.

Lemma extended_in_limits s extra :
  in_limits s -> ls_extended (v_loop s) = false -> 1 <= extra <= EffectiveMaxIterations M ->
  in_limits (on_loop (fun l => extend_iterations l extra) s).
Proof.
  pose proof M_positive as HM. intros [[_ Hm]|[? _]] He Hx; [|congruence]. right. cbn. rewrite Hm.
  unfold EffectiveMaxIterations in Hx. replace (M <=? 0) with false in Hx by (symmetry; apply Z.leb_gt; lia). lia.
Qed.

(** After the answer that asked for tool calls: no further call but the final one. *)
Definition rest_bound (s : vars) (tr : list revent) (r : round_result) : Prop :=
  exists a b c, counts tr = (a, b, c, 0) /\
    match r with
    | RNext s' => a = 0 /\ in_limits s' /\ fallback_left s' = fallback_left s /\
                  b + extension_used s <= extension_used s' /\ c + extension_used s <= extension_used s'
    | RBreak _ | RReturn _ => a <= 1 + fallback_left s /\ b + extension_used s <= 2 /\ c + extension_used s <= 1
    end.

Lemma tool_round_rest mid it now res s0 s x t0 :
  in_limits s -> fallback_left s = fallback_left s0 -> counts t0 = (0, x, x, 0) -> 0 <= x -> x + extension_used s0 <= extension_used s ->
  spec (tool_round rt input mid it now res s) (fun tr r => rest_bound s0 (t0 ++ tr) r).
Proof.
  intros Hs Hf Hx H0 He. pose proof (used_range s). pose proof (left_range s). eapply spec_conseq; [apply tool_round_control|]. cbn beta.
  intros tr r [Hc Hr]. exists 0, x, x. rewrite counts_app, Hc, plus_none_r. split; [done|]. destruct r as [s'|s'|o]; [|done|lia].
  rewrite (control_left _ _ Hr), (control_used _ _ Hr). split; [done|]. split; [by eapply in_limits_control|lia].
Qed.

Lemma counts_decision o i x d :
  counts [Ev (S := rs_sig) (RRun o (SMaxIterations i x)) (inr d)] =
    (0, 1, match dec_Action d with ErrorControlExtendIterations => 1 | _ => 0 end, 0).
Proof. unfold counts, tally_kind, tally_if. cbn. by destruct (dec_Action d). Qed.

(** Anything but an extension leads to the final call. *)
Lemma final_rest mem ret it s o i x d : dec_Action d <> ErrorControlExtendIterations ->
  spec (final_call rt input mem ret it s)
    (fun t r => given T (rest_bound s) (Ev (S := rs_sig) (RRun o (SMaxIterations i x)) (inr d) :: t) r).
Proof.
  intros Hd. pose proof (used_range s). eapply spec_conseq; [apply final_bound|]. cbn beta. intros t r H1 Hg.
  apply Forall_cons_1 in Hg as [_ Hg]. destruct (H1 Hg) as (a & Ha & Hl & Hr). exists a, 1, 0.
  rewrite <- (app_nil_l (_ :: t)), cons_middle, app_nil_l, counts_app, Ha, counts_decision. split.
  - by destruct (dec_Action d).
  - destruct r; [done|lia..].
Qed.

Lemma after_calls_bound mem ret mid it now res s :
  in_limits s -> spec (after_calls rt input mem ret M mid it now res s) (given T (rest_bound s)).
Proof.
  intros Hs. pose proof (used_range s). pose proof (left_range s). unfold after_calls. case_match.
  2:{ apply spec_given. by apply (tool_round_rest mid it now res s s 0 []). }
  rs_step. intros [e|dec]; cbn [named_result].
  { apply spec_mret. intros _. exists 0, 1, 0. split; [done|lia]. }
  destruct (dec_Action dec) eqn:Ea; try (apply final_rest; by rewrite Ea).
  intros tr r Hx Hg. apply Forall_cons_1 in Hg as [Hd _]. cbn in Hd. destruct (Hd dec eq_refl) as [t Ht].
  apply texec_bind_inv in Ht as (? & ? & d & _ & Hdec & [_ [= ->]]%texec_ret_inv). apply DecideMaxIterations_inv in Hdec.
  cbn in Hdec. destruct Hdec as [Hdec|(_ & He & Hb)]; [congruence|].
  apply (tool_round_rest mid it now res s (on_loop (fun l => extend_iterations l (dec_ExtraIterations d)) s) 1 [_]); try done.
  - by apply extended_in_limits.
  - by rewrite counts_decision, Ea.
  - unfold extension_used. cbn. rewrite He. done.
Qed.

Lemma llm_round_bound mem ret it now s : in_limits s -> spec (llm_round rt input mem ret M it now s) (given T (round_bound s)).
Proof.
  intros Hs. pose proof (used_range s). pose proof (left_range s). unfold llm_round. rs_step. intros id.
  destruct id as [e|id]; cbn [named_result]; [apply spec_mret; intros _; exists 0, 0, 0; split; [done|lia]|].
  match goal with |- spec ?m _ => cut (spec m (given T (round_bound s))) end.
  { intros Hr. eapply spec_conseq; [exact Hr|]. intros t r Hin Hg. apply Forall_cons_1 in Hg as [_ Hg]. apply round_bound_skip; [done|by apply Hin]. }
  eapply (spec_given_bind T); [apply llm_count|]. cbn beta. intros t1 [e|[res fb]] _ (n & Hc & Hn).
  { apply spec_given, spec_mret. rewrite app_nil_r. exists n, 0, 0. split; [done|]. unfold fallback_left. destruct (ls_useFallback (v_loop s)); intuition (try done; try lia). }
  eapply (spec_given_bind T); [apply spec_given, check_control|]. cbn beta. intros t2 [[err|] s1] _ [Hb Hk]; cbn [fst snd] in *.
  { apply spec_given, spec_mret. exists n, 0, 0. rewrite app_nil_r, counts_app, Hc, Hb, plus_none_r. split; [done|].
    unfold fallback_left. destruct (ls_useFallback (v_loop s)); intuition (try done; try lia). }
  assert (Hs1 : in_limits s1) by (eapply in_limits_control; [exact Hk|exact Hs]).
  assert (n + fallback_left s1 <= 1 + fallback_left s /\ extension_used s1 = extension_used s) as [Hf He].
  { rewrite (control_left _ _ Hk), (control_used _ _ Hk). split; [|done]. unfold fallback_left. cbn [on_loop v_loop after_llm ls_useFallback].
    destruct (ls_useFallback (v_loop s)), fb; cbn; intuition (try done; try lia). }
  pose proof (left_range s1). destruct (lr_ToolCalls res) as [|tc calls].
  { apply spec_given, spec_mret. exists n, 0, 0. rewrite app_nil_r, counts_app, Hc, Hb, plus_none_r. split; [done|lia]. }
  eapply spec_conseq; [apply (after_calls_bound mem ret id it now res s1 Hs1)|]. cbn beta. intros t3 r Hr Hg.
  destruct (Hr Hg) as (a & b & c & Hc3 & Hrest). exists (n + a), b, c.
  rewrite app_assoc, !counts_app, Hc, Hb, plus_none_r, Hc3. split; [done|]. rewrite He in Hrest. destruct r as [s'|s'|o]; intuition lia.
Qed.

Lemma round_bounded mem ret it s : in_limits s -> spec (round rt input mem ret M it s) (given T (round_bound s)).
Proof.
  intros Hs. unfold round. case_match; [|by apply llm_round_bound]. rs_step. intros [e|now]; cbn [named_result].
  { pose proof (left_range s). pose proof (used_range s). apply spec_mret. intros _. exists 0, 0, 0. split; [done|lia]. }
  eapply spec_conseq; [by apply llm_round_bound|]. intros t r Hin Hg. apply Forall_cons_1 in Hg as [_ Hg]. apply round_bound_skip; [done|by apply Hin].
Qed.

(** ** All rounds *)

Definition run_bound (it : Z) (s : vars) (tr : list revent) : Prop :=
  exists a b c, counts tr = (a, b, c, 0) /\ a <= Z.max 0 (2 * M - it) + 1 + fallback_left s /\
    b + extension_used s <= 2 /\ c + extension_used s <= 1.

Lemma rounds_bounded mem ret fuel : forall it s, in_limits s -> 2 * M - it <= Z.of_nat fuel ->
  spec (rounds rt input mem ret M fuel it s) (given T (fun tr _ => run_bound it s tr)).
Proof.
  assert (Hnil : forall it s, run_bound it s []).
  { intros it s. pose proof (left_range s). pose proof (used_range s). exists 0, 0, 0. split; [done|lia]. }
  induction fuel as [|fuel IH]; intros it s Hs Hf; cbn [rounds];
    (destruct (Z.leb_spec (ls_maxIter (v_loop s)) it); [apply spec_given, spec_mret, Hnil|]);
    assert (ls_maxIter (v_loop s) <= 2 * M) by (pose proof M_positive; destruct Hs as [[_ ->]|[_ ?]]; lia); [lia|].
  eapply (spec_given_bind T); [by apply round_bounded|]. cbn beta. intros t1 [s1|s1|o] _ (a & b & c & Hc & Hr).
  2, 3: apply spec_given, spec_mret; rewrite app_nil_r; exists a, b, c; split; [done|lia].
  destruct Hr as (Hs1 & Ha & Hb & Hx). eapply spec_conseq; [apply (IH (it + 1) s1); [done|lia]|].
  cbn beta. intros t2 r Hin Hg. destruct (Hin Hg) as (a2 & b2 & c2 & Hc2 & Ha2 & Hb2 & Hx2).
  exists (a + a2), (b + b2), (c + c2). rewrite counts_app, Hc, Hc2. split; [done|lia].
Qed.

Lemma loop_bounded : spec (executeAgentLoop rt input) (given T (fun tr _ => exists a b c,
  counts tr = (a, b, c, 0) /\ a <= 2 * M + 2 /\ b <= 2 /\ c <= 1)).
Proof.
  pose proof M_positive as HM.
  assert (Hz : forall t, counts t = none -> exists a b c, counts t = (a, b, c, 0) /\ a <= 2 * M + 2 /\ b <= 2 /\ c <= 1)
    by (intros t Ht; exists 0, 0, 0; split; [done|lia]).
  assert (Hadd : forall t1 t2, counts t1 = none ->
    (exists a b c, counts t2 = (a, b, c, 0) /\ a <= 2 * M + 2 /\ b <= 2 /\ c <= 1) ->
    exists a b c, counts (t1 ++ t2) = (a, b, c, 0) /\ a <= 2 * M + 2 /\ b <= 2 /\ c <= 1).
  { intros t1 t2 H1 (a & b & c & H2 & Hr). exists a, b, c. rewrite counts_app, H1, H2. done. }
  unfold executeAgentLoop. apply spec_after_rcall. intros now.
  match goal with |- spec ?m _ => cut (spec m (given T (fun tr _ => exists a b c,
    counts tr = (a, b, c, 0) /\ a <= 2 * M + 2 /\ b <= 2 /\ c <= 1))) end.
  { intros Hs. eapply spec_conseq; [exact Hs|]. intros t r H1 Hg. apply Forall_cons_1 in Hg as [_ Hg]. by apply (Hadd [_]), H1. }
  eapply (spec_given_bind T); [apply spec_given; uncounted [KPersist]; apply only_load|]. cbn beta. intros t1 h _ H1.
  eapply (spec_given_bind T); [apply spec_given; uncounted [KMemory]; apply only_rs_recall|]. cbn beta. intros t2 [e|m] _ H2.
  { apply spec_given, spec_mret. rewrite app_nil_r. by apply Hadd, Hz. }
  eapply (spec_given_bind T); [apply spec_given; uncounted [KMemory]; apply only_rs_prefetch|]. cbn beta. intros t3 [e|r] _ H3.
  { apply spec_given, spec_mret. rewrite app_nil_r. by apply Hadd, Hadd, Hz. }
  eapply (spec_given_bind T); [apply (rounds_bounded (mr_Context m) (rr_Context r) (round_fuel M) 0)|].
  - left. done.
  - unfold round_fuel. lia.
  - cbn beta. intros t4 o _ (a & b & c & H4 & Ha & Hb & Hx).
    assert (forall t5, counts t5 = none -> exists a b c, counts (t1 ++ t2 ++ t3 ++ t4 ++ t5) = (a, b, c, 0) /\ a <= 2 * M + 2 /\ b <= 2 /\ c <= 1) as Hend.
    { intros t5 H5. do 3 (apply Hadd; [done|]). rewrite counts_app, H4, H5, plus_none_r. exists a, b, c. split; [done|].
      revert Ha Hb Hx. unfold fallback_left, extension_used, initial_vars, AgentLoop.initial_state. cbn. lia. }
    destruct o as [o|s]; apply spec_given; [by apply spec_mret, Hend|].
    eapply spec_conseq; [uncounted [KPersist; KMemory]; apply only_rs_finish|]. cbn beta. intros t5 o H5. by apply Hend.
Qed.
End bounds.

(** C12: A durable run on Restate ends within its rounds: with [M] its effective iteration limit, it
    asks the model through at most [2 * M + 2] durable steps (one extension, one final call
    without tools and one change to the fallback model included), has at most two decisions at
    an iteration limit, of which at most one grants more rounds, and never exhausts the rounds
    the model provides. *)
Theorem durable_run_bounded `{Location} rt input tr o :
  texec (executeAgentLoop rt input) tr o -> Forall (genuine rt) tr ->
  tally_kind KLlm tr <= 2 * maxIterations rt + 2 /\ tally_kind KDecide tr <= 2 /\ tally_if grants tr <= 1 /\
  tally_kind KFuel tr = 0.
Proof.
  intros Hx Hg. destruct (loop_bounded rt input tr o Hx Hg) as (a & b & c & Hc & Ha & Hb & He).
  unfold counts in Hc. injection Hc as -> -> -> ->. auto.
Qed.
End RsBounds.
