(* ===== verification/RestateClient.v ===== *)
(** The caller's side of the Restate runtime ([internal/runtime/restate/ingress.go],
    [run_handle.go], [approval.go], [stream_handle.go], [options.go], [server.go], [subagent.go],
    [runtime.go]): its configuration, the retried requests to the ingress, starting and finding
    a run, approvals on their way from the event log to the awakeable, handles. *)
From S2P Require Import Prelude GoLib Types Codec Prog ProgSpec JsonText JsonCodec TimeText Policies MemoryConfig Telemetry Events EventsCodec Effects Sanitize Memory Tools AgentLoop Handles EventLog RestateDefs RestateLoop RestateRun.

#[local] Open Scope string_scope.
#[local] Open Scope list_scope.
#[local] Open Scope Z_scope.

Module RsClient.
Import Rs RsLoop RsRun.

Definition millisecond : Z := 1000000.
Definition defaultIngressHTTPTimeout : Duration := 30 * second.
Definition defaultIngressHTTPAttempts : Z := 3.
Definition defaultIngressRetryInitial : Duration := 200 * millisecond.
Definition defaultIngressRetryMaxBackoff : Duration := 2 * second.
Definition defaultIngressRetryFactor : f64 := f64_of_Z 2.
Definition defaultEndpointListenAddress : string := ":9080".
Definition pubsubPullInterval : Duration := second.

(** ** Configuration *)

Record RestateConfig := {
  cf_URL : string; cf_AuthKey : string; cf_HTTPTimeout : Duration; cf_HTTPMaxAttempts : Z;
  cf_ListenAddress : string; cf_IdentityPublicKeys : list string; cf_AdminURL : string; cf_DeploymentURL : string;
  cf_DisableClear : bool; cf_TTL : Duration }.

(** The fields that are trimmed. *)
Definition trimmed_config (c : RestateConfig) : RestateConfig :=
  {| cf_URL := TrimSpace (cf_URL c); cf_AuthKey := TrimSpace (cf_AuthKey c); cf_HTTPTimeout := cf_HTTPTimeout c;
     cf_HTTPMaxAttempts := cf_HTTPMaxAttempts c; cf_ListenAddress := TrimSpace (cf_ListenAddress c);
     cf_IdentityPublicKeys := cf_IdentityPublicKeys c; cf_AdminURL := TrimSpace (cf_AdminURL c);
     cf_DeploymentURL := TrimSpace (cf_DeploymentURL c); cf_DisableClear := cf_DisableClear c; cf_TTL := cf_TTL c |}.

(** The defaults for what is not set. *)
Definition with_defaults (c : RestateConfig) : RestateConfig :=
  {| cf_URL := cf_URL c; cf_AuthKey := cf_AuthKey c;
     cf_HTTPTimeout := if cf_HTTPTimeout c =? 0 then defaultIngressHTTPTimeout else cf_HTTPTimeout c;
     cf_HTTPMaxAttempts := if cf_HTTPMaxAttempts c =? 0 then defaultIngressHTTPAttempts else cf_HTTPMaxAttempts c;
     cf_ListenAddress := if String.eqb (cf_ListenAddress c) "" then defaultEndpointListenAddress else cf_ListenAddress c;
     cf_IdentityPublicKeys := List.filter (fun k => negb (String.eqb k "")) (map TrimSpace (cf_IdentityPublicKeys c));
     cf_AdminURL := cf_AdminURL c; cf_DeploymentURL := cf_DeploymentURL c; cf_DisableClear := cf_DisableClear c;
     cf_TTL := if negb (cf_DisableClear c) && (cf_TTL c =? 0) then defaultEventLogTTL else cf_TTL c |}.

Section config.
(** [url.Parse]: scheme and host. *)
Context (url_Parse : string -> result (string * string)).

Definition validateConfig (cfg : RestateConfig) : result RestateConfig :=
  let c := trimmed_config cfg in
  if String.eqb (cf_URL c) "" then inl (errors_New "restate: Ingress.URL is required") else
  match url_Parse (cf_URL c) with
  | inl err => inl (wrap_error "restate: Ingress.URL is invalid: " err)
  | inr (scheme, host) =>
      if negb (String.eqb scheme "http") && negb (String.eqb scheme "https")
      then inl (errors_New "restate: Ingress.URL must use http or https scheme")
      else if String.eqb host "" then inl (errors_New "restate: Ingress.URL must include a host")
      else if cf_HTTPTimeout c <? 0 then inl (errors_New "restate: Ingress.HTTPTimeout must be >= 0")
      else if cf_HTTPMaxAttempts c <? 0 then inl (errors_New "restate: Ingress.HTTPMaxAttempts must be >= 0")
      else if cf_TTL c <? 0 then inl (errors_New "restate: EventLog.TTL must be >= 0")
      else inr (with_defaults c)
  end.

Definition serviceName (base agentName : string) : string := base +:+ "_" +:+ agentName.

(** What [newRuntimeFromOptions] makes of the options: the runtime of the handlers and the
    configuration of its client. *)
Definition newRuntimeFromOptions (base : Runtime) (has_client approvalHandler hasResolver : bool) (config : option RestateConfig)
    : result (RestateRuntime * RestateConfig) :=
  match config with
  | None => inl (errors_New "restate config is required")
  | Some cfg =>
      match validateConfig cfg with
      | inl err => inl err
      | inr cfg =>
          if negb has_client then inl (errors_New "llm client is required") else
          let agentName := TrimSpace (as_Name (rt_AgentSpec base)) in
          if String.eqb agentName "" then inl (errors_New "agent name is required") else
          inr ({| rr_Runtime := base; rr_approvalHandler := approvalHandler;
                  rr_agentLoopServiceName := serviceName agentLoopServiceName agentName;
                  rr_eventLogServiceName := serviceName agentEventLogServiceName agentName;
                  rr_hasIngress := true; rr_hasResolver := hasResolver;
                  rr_DisableClear := cf_DisableClear cfg; rr_TTL := cf_TTL cfg |}, cfg)
      end
  end.
End config.

(** ** Routes to sub-agents *)

(** [SubAgentSpec] with what the runtime looks for: the service of a [RestateRuntime]; [None] for
    another runtime. *)
Inductive RSpec := Spec_ (Name ToolName : string) (Runtime : option string) (Children : list (option RSpec)).

Definition sp_Name (s : RSpec) : string := let '(Spec_ n _ _ _) := s in n.

(** [out[k] = r] *)
Fixpoint set_route (m : list (string * SubAgentRoute)) (k : string) (r : SubAgentRoute) : list (string * SubAgentRoute) :=
  match m with
  | [] => [(k, r)]
  | (k', r') :: m => if String.eqb k' k then (k, r) :: m else (k', r') :: set_route m k r
  end.

(** The entry of one spec, unless it is skipped. *)
Fixpoint spec_route (s : RSpec) : option (string * SubAgentRoute) :=
  let '(Spec_ Name toolName runtime children) := s in
  let fix build (specs : list (option RSpec)) (out : list (string * SubAgentRoute)) :=
    match specs with
    | [] => out
    | None :: specs => build specs out
    | Some s :: specs => build specs (match spec_route s with Some (k, r) => set_route out k r | None => out end)
    end in
  match runtime with
  | None => None
  | Some service =>
      let name := TrimSpace Name in
      if String.eqb name "" then None else Some (toolName, Route name toolName service (build children []))
  end.

Fixpoint add_routes (specs : list (option RSpec)) (out : list (string * SubAgentRoute)) : list (string * SubAgentRoute) :=
  match specs with
  | [] => out
  | None :: specs => add_routes specs out
  | Some s :: specs => add_routes specs (match spec_route s with Some (k, r) => set_route out k r | None => out end)
  end.

Definition buildSubAgentRoutes (specs : list (option RSpec)) : list (string * SubAgentRoute) := add_routes specs [].

(** ** Effects of the caller *)

(** An error with what [errors.As] finds in it. *)
Record http_error := {
  he_err : error;
  he_retryable : bool;     (* [*retryableHTTPError] *)
  he_net : bool;           (* [net.Error] *)
  he_notFound : bool;      (* [*InvocationNotFoundError] *)
  he_notReady : bool }.    (* [*InvocationNotReadyError] *)

Definition fallible (A : Type) : Type := sum http_error A.

Definition plain_error (e : error) : http_error :=
  {| he_err := e; he_retryable := false; he_net := false; he_notFound := false; he_notReady := false |}.
(** [fmt.Errorf(prefix + "%w", err)] *)
Definition wrap_http (prefix : string) (e : http_error) : http_error :=
  {| he_err := wrap_error prefix (he_err e); he_retryable := he_retryable e; he_net := he_net e;
     he_notFound := he_notFound e; he_notReady := he_notReady e |}.

(** A POST with a JSON body. *)
Record http_request := { hr_URL : string; hr_Body : string; hr_Authorization : option string }.

Record approvalReply := { ay_approvalToken : string; ay_status : string }.

(** The select at the start of a turn of the approval loop. *)
Inductive poll_case := PollLeave | PollReply (r : approvalReply) | PollNothing.

Inductive HOp :=
| HSched
| HUUID
| HCtxErr                                                    (* [ctx.Err()] *)
| HBackoff (d : Duration)                                    (* the end of the context, or the timer *)
| HStashStore (runID : string) (s : stagedRun)
| HStashDelete (runID : string)
| HNewRequest (url : string)                                 (* [http.NewRequestWithContext] *)
| HDo (timeout : Duration) (req : http_request)              (* status, and the body or why it cannot be read *)
| HSend (timeout : Duration) (service handler : string) (req : AgentLoopRequest) (key : string)
| HOutput (timeout : Duration) (service handler key : string)
| HOutputById (timeout : Duration) (invocationID : string)
| HCancel (timeout : Duration) (service handler runID invocationID : string)
| HPull (timeout : Duration) (service topic : string) (offset : Z)
| HPoll                                                      (* the run is done, a reply, nothing yet *)
| HLeave                                                     (* is the run done? *)
| HPause (d : Duration)                                      (* is it done before the timer? *)
| HGoHandler (timeout : Duration) (req : ApprovalRequest).     (* [go func()]: a goroutine of its own calls the handler *)

Definition HAns (o : HOp) : Type :=
  match o with
  | HSched | HLeave | HPause _ => bool
  | HUUID => string
  | HCtxErr | HBackoff _ | HNewRequest _ => option error
  | HDo _ _ => fallible (Z * fallible string)
  | HSend _ _ _ _ _ => fallible string
  | HOutput _ _ _ _ | HOutputById _ _ | HCancel _ _ _ _ _ => fallible unit
  | HPull _ _ _ _ => result PullResponse
  | HPoll => poll_case
  | HStashStore _ _ | HStashDelete _ | HGoHandler _ _ => unit
  end.

#[export] Instance http_sig : Sig := {| op := HOp; ans := HAns; sched := HSched; sched_ans := id |}.

Definition hcall (o : HOp) : prog (HAns o) := perform (S := http_sig) o.

(** ** Requests with retries *)

Definition isRetryableHTTPStatus (code : Z) : bool := (code =? 429) || (code =? 502) || (code =? 503) || (code =? 504).

Definition isTransientIngressErr (err : http_error) : bool :=
  he_retryable err || he_net err || errors_Is (he_err err) ContextDeadlineExceeded.

Definition next_ingress_backoff (backoff : Duration) : Duration :=
  let next := f64_to_int64 (f64_mul (f64_of_Z backoff) defaultIngressRetryFactor) in
  if defaultIngressRetryMaxBackoff <? next then defaultIngressRetryMaxBackoff else next.

(** [for attempt := 1; attempt <= attempts; attempt++], with [n] attempts left after this one. *)
Fixpoint ingress_attempts {T} (op : prog (S := http_sig) (fallible T)) (n : nat) (backoff : Duration)
    : prog (S := http_sig) (fallible T) :=
  r ← op;
  match r with
  | inr v => mret (inr v)
  | inl err =>
      ended ← hcall HCtxErr;
      match ended with
      | Some e => mret (inl (plain_error e))
      | None =>
          match n with
          | O => mret (inl err)
          | S n =>
              if negb (isTransientIngressErr err) then mret (inl err) else
              ended ← hcall (HBackoff backoff);
              match ended with
              | Some e => mret (inl (plain_error e))
              | None => ingress_attempts op n (next_ingress_backoff backoff)
              end
          end
      end
  end.

Section client.
Context (rt : RestateRuntime) (cfg : RestateConfig).

(** Without attempts nothing is done and nothing fails. *)
Definition withIngressRetry {T} (zero : T) (op : prog (S := http_sig) (fallible T)) : prog (S := http_sig) (fallible T) :=
  if cf_HTTPMaxAttempts cfg <=? 0 then mret (inr zero)
  else ingress_attempts op (pred (Z.to_nat (cf_HTTPMaxAttempts cfg))) defaultIngressRetryInitial.

Definition retryable_status (code : Z) (body : string) : http_error :=
  {| he_err := errors_New ("restate: retryable http status " +:+ Itoa code +:+ ": " +:+ body);
     he_retryable := true; he_net := false; he_notFound := false; he_notReady := false |}.

(** One attempt of [doIngressHTTP]. *)
Definition http_attempt (newRequest : prog (S := http_sig) (fallible http_request)) : prog (S := http_sig) (fallible (Z * string)) :=
  req ← newRequest;
  match req with
  | inl err => mret (inl err)
  | inr req =>
      r ← hcall (HDo (cf_HTTPTimeout cfg) req);
      mret (match r with
            | inl err => inl err
            | inr (_, inl readErr) => inl (wrap_http "restate: read response: " readErr)
            | inr (code, inr body) => if isRetryableHTTPStatus code then inl (retryable_status code body) else inr (code, body)
            end)
  end.

Definition doIngressHTTP (newRequest : prog (S := http_sig) (fallible http_request)) : prog (S := http_sig) (fallible (Z * string)) :=
  withIngressRetry (0, "") (http_attempt newRequest).

Fixpoint drop_slashes (l : bytes) : bytes :=
  match l with c :: l' => if Ascii.eqb c "/" then drop_slashes l' else l | [] => [] end.

(** [strings.TrimRight(url, "/")] *)
Definition trim_slashes (s : string) : string := of_bytes (rev (drop_slashes (rev (to_bytes s)))).

Definition base_url : string := trim_slashes (cf_URL cfg).

Definition authorization : option string :=
  if String.eqb (cf_AuthKey cfg) "" then None else Some ("Bearer " +:+ cf_AuthKey cfg).

(** The closure that builds a request. *)
Definition new_request (what url body : string) : prog (S := http_sig) (fallible http_request) :=
  e ← hcall (HNewRequest url);
  mret (match e with
        | Some err => inl (plain_error (wrap_error ("restate: create " +:+ what +:+ " request: ") err))
        | None => inr {| hr_URL := url; hr_Body := body; hr_Authorization := authorization |}
        end).

(** ** Finding a run *)

Definition lookup_body (service handler runID : string) : option string :=
  of_bytes ∘ render <$> enc_struct [required "target" "idempotentInvocation"; required "service" service;
                                    required "handler" handler; required "idempotencyKey" runID].

(** [invocationLookupResponse.InvocationID] *)
Definition lookup_answer (body : string) : option string :=
  j ← parse body; dec_struct "" (fun es => dec_field "" "invocationId" es) j.

Definition service_path (service handler : string) : string := service +:+ "/" +:+ handler.

Definition lookupInvocationID (handler runID : string) : prog (S := http_sig) (result string) :=
  let service := rr_agentLoopServiceName rt in
  match lookup_body service handler runID with
  | None => mret (inl (errors_New "restate: marshal lookup request"))
  | Some body =>
      r ← doIngressHTTP (new_request "lookup" (base_url +:+ "/restate/lookup") body);
      mret (match r with
            | inl err => inl (wrap_error "restate: lookup invocation: " (he_err err))
            | inr (code, body) =>
                if code =? 200 then
                  match lookup_answer body with
                  | None => inl (errors_New "restate: decode lookup response")
                  | Some id => if String.eqb (TrimSpace id) "" then inl (errors_New "restate: lookup returned empty invocationId") else inr id
                  end
                else if code =? 404 then inl (sentinel_error ErrRunNotFound)
                else inl (errors_New ("restate: lookup " +:+ service_path service handler +:+ " run " +:+ Quote runID +:+
                                      ": status " +:+ Itoa code +:+ ": " +:+ TrimSpace body))
            end)
  end.

Definition resolveRunningInvocation (handler runID : string) : prog (S := http_sig) (result string) :=
  let service := rr_agentLoopServiceName rt in
  probe ← withIngressRetry tt (hcall (HOutput (cf_HTTPTimeout cfg) service handler runID));
  match probe with
  | inr _ => mret (inl (sentinel_error ErrRunAlreadyCompleted))
  | inl err =>
      if he_notFound err then mret (inl (sentinel_error ErrRunNotFound))
      else if negb (he_notReady err) then
        mret (inl (wrap_error ("restate: probe " +:+ service_path service handler +:+ " run " +:+ Quote runID +:+ ": ") (he_err err)))
      else lookupInvocationID handler runID
  end.

Definition ensureIngress : option error :=
  if rr_hasIngress rt then None else Some (errors_New "restate: ingress client not configured").

(** [GetRunHandle] and [GetStreamHandle]: the run and invocation IDs of the new handle. *)
Definition GetRunHandle (runID : string) : prog (S := http_sig) (result (string * string)) :=
  let runID := TrimSpace runID in
  if String.eqb runID "" then mret (inl (sentinel_error ErrRunNotFound)) else
  match ensureIngress with
  | Some err => mret (inl err)
  | None =>
      r ← resolveRunningInvocation agentLoopRunHandler runID;
      mret (match r with inl err => inl err | inr id => inr (runID, id) end)
  end.

Definition GetStreamHandle (runID : string) : prog (S := http_sig) (result (string * string)) :=
  let runID := TrimSpace runID in
  if String.eqb runID "" then mret (inl (sentinel_error ErrStreamNotFound)) else
  match ensureIngress with
  | Some err => mret (inl err)
  | None =>
      r ← resolveRunningInvocation agentLoopStreamHandler runID;
      mret (match r with
            | inl err => if errors_Is err ErrRunNotFound then inl (sentinel_error ErrStreamNotFound) else inl err
            | inr id => inr (runID, id)
            end)
  end.

(** ** Approvals *)

Definition upper_hex (n : N) : ascii := ascii_of_N (if (n <? 10)%N then 48 + n else 55 + n)%N.

(** A byte that [url.PathEscape] keeps. *)
Definition path_plain (c : ascii) : bool :=
  Json.in_range 97 122 c || Json.in_range 65 90 c || Json.in_range 48 57 c ||
  bool_decide (c ∈ to_bytes "-_.~$&+:=@").

Definition escape_byte (c : ascii) : bytes :=
  if path_plain c then [c] else let n := N_of_ascii c in ["%"%char; upper_hex (n / 16); upper_hex (n mod 16)].

(** [url.PathEscape] *)
Definition PathEscape (s : string) : string := of_bytes (concat (map escape_byte (to_bytes s))).

Definition resolve_url (token : string) : string := base_url +:+ "/restate/awakeables/" +:+ PathEscape token +:+ "/resolve".

(** [json.Marshal(status)] *)
Definition status_payload (status : string) : string := of_bytes (render (JStr status)).

Definition approve_answer (token : string) (r : fallible (Z * string)) : option error :=
  match r with
  | inl err => Some (wrap_error "restate: resolve awakeable: " (he_err err))
  | inr (code, body) =>
      if (code =? 200) || (code =? 202) || (code =? 204) then None
      else if (code =? 404) || (code =? 409) then Some (sentinel_error ErrApprovalAlreadyResolved)
      else Some (errors_New ("restate: resolve awakeable " +:+ Quote token +:+ ": status " +:+ Itoa code +:+ ": " +:+ TrimSpace body))
  end.

Definition approve (approvalToken status : string) : prog (S := http_sig) (option error) :=
  if negb (String.eqb status ApprovalStatusApproved) && negb (String.eqb status ApprovalStatusRejected)
  then mret (Some (errors_New ("restate: invalid approval status " +:+ Quote status)))
  else
    let token := TrimSpace approvalToken in
    if String.eqb token "" then mret (Some (errors_New "restate: empty approval token"))
    else
      r ← doIngressHTTP (new_request "awakeable resolve" (resolve_url token) (status_payload status));
      mret (approve_answer token r).

(** [cloneArgsMap] copies the map; values are shared, which maps of values do not show. *)
Definition cloneArgsMap (m : Args) : Args := m.

Definition toolApprovalFromEventValue (v : CustomValue) : option ApprovalRequest :=
  match v with
  | AgentCustomEventApprovalValue agent id tool display args token =>
      Some (ToolApproval agent id tool display (cloneArgsMap args) token)
  | _ => None
  end.
Definition delegationApprovalFromEventValue (v : CustomValue) : option ApprovalRequest :=
  match v with
  | AgentCustomEventDelegationValue agent sub _ args token => Some (SubAgentApproval agent sub (cloneArgsMap args) token)
  | _ => None
  end.
Definition budgetApprovalFromEventValue (v : CustomValue) : option ApprovalRequest :=
  match v with
  | AgentCustomEventBudgetValue agent detail tokens cost token => Some (BudgetApproval agent detail tokens cost token)
  | _ => None
  end.

Definition request_token (r : ApprovalRequest) : string :=
  match r with ToolApproval _ _ _ _ _ t | SubAgentApproval _ _ _ t | BudgetApproval _ _ _ _ t => t end.

(** The request of a CUSTOM event, [NotApproval] for [ErrNotApprovalCustomEvent]. *)
Inductive prepared := Prepared (req : ApprovalRequest) (token : string) | NotApproval | Malformed.

Definition prepared_value (v : option CustomValue) (f : CustomValue -> option ApprovalRequest) : prepared :=
  match v ≫= f with Some r => Prepared r (request_token r) | None => Malformed end.

Definition prepareApprovalFromCustomEvent (Name : string) (v : CustomValue) : prepared :=
  if String.eqb Name AgentCustomEventNameToolApproval then
    prepared_value (ParseCustomEventApproval Name v) toolApprovalFromEventValue
  else if String.eqb Name AgentCustomEventNameSubAgentDelegation then
    prepared_value (ParseCustomEventDelegation Name v) delegationApprovalFromEventValue
  else if String.eqb Name AgentCustomEventNameBudget then
    prepared_value (ParseCustomEventBudget Name v) budgetApprovalFromEventValue
  else NotApproval.

(** The approval request in a message of the event log. *)
Definition message_request `{Location} (raw : string) : option (ApprovalRequest * string) :=
  match EventFromJSON raw with
  | inl _ => None
  | inr ev =>
      match we_Body ev with
      | AgentCustomEvent name v =>
          match prepareApprovalFromCustomEvent name v with Prepared req token => Some (req, token) | _ => None end
      | _ => None
      end
  end.

(** What [Respond] of the request with that token puts on the channel. *)
Definition respond (token status : string) : result approvalReply :=
  if negb (String.eqb status ApprovalStatusRejected) && negb (String.eqb status ApprovalStatusApproved)
  then inl (errors_New "invalid approval status")
  else inr {| ay_approvalToken := token; ay_status := status |}.

(** ** The approval loop of a run *)

(** A goroutine is started for each request; what it does, and when, is not the loop's. *)
Fixpoint dispatch_messages `{Location} (raws : list string) : prog (S := http_sig) unit :=
  match raws with
  | [] => mret tt
  | raw :: raws =>
      _ ← match message_request raw with
          | Some (req, _) => hcall (HGoHandler (approvalTaskTimeout rt) req)
          | None => mret tt
          end;
      dispatch_messages raws
  end.

(** Leave when the run is done before the pause is over, else go on from the offset. *)
Definition pause_then (offset : Z) : prog (S := http_sig) (option Z) :=
  left ← hcall (HPause pubsubPullInterval);
  mret (if (left : bool) then None else Some offset).

(** One turn: [None] when the loop is left, else the next offset. *)
Definition approval_turn `{Location} (runID : string) (offset : Z) : prog (S := http_sig) (option Z) :=
  first ← hcall HPoll;
  match first with
  | PollLeave => mret None
  | _ =>
      _ ← match first with
          | PollReply r => _ ← approve (ay_approvalToken r) (ay_status r); mret tt
          | _ => mret tt
          end;
      resp ← hcall (HPull (cf_HTTPTimeout cfg) (rr_eventLogServiceName rt) runID offset);
      match resp with
      | inl err =>
          left ← hcall HLeave;
          if (left : bool) then mret None
          else if isAgentEventLogCleared (Some err) then mret None
          else pause_then offset
      | inr resp =>
          match pr_Messages resp with
          | [] => pause_then (pr_NextOffset resp)
          | raws => _ ← dispatch_messages raws; mret (Some (pr_NextOffset resp))
          end
      end
  end.

(** The first [turns] turns of [runApprovalLoop]. *)
Fixpoint approval_turns `{Location} (turns : nat) (runID : string) (offset : Z) : prog (S := http_sig) (option Z) :=
  match turns with
  | O => mret (Some offset)
  | S turns =>
      next ← approval_turn runID offset;
      match next with None => mret None | Some offset => approval_turns turns runID offset end
  end.

Definition runApprovalLoop `{Location} (turns : nat) (runID : string) : prog (S := http_sig) (option Z) :=
  if negb (rr_approvalHandler rt) then mret None else approval_turns turns runID 0.

(** ** Starting a run *)

Record RRunRequest := {
  rr_UserPrompt : string; rr_ConversationID : string; rr_EnableLLMStream : bool; rr_EventTypes : list string;
  rr_SubAgents : list (option RSpec); rr_MaxSubAgentDepth : Z; rr_Tools : list Tool }.

Definition start_event_types (req : RRunRequest) (streaming : bool) : list string :=
  match rr_EventTypes req with
  | [] => if streaming then [AgentEventAll] else if rr_approvalHandler rt then ["CUSTOM"] else []
  | l => l
  end.

Definition loop_request (ctx : Ctx) (req : RRunRequest) (runID : string) (streaming : bool) : AgentLoopRequest :=
  {| rq_core :=
       {| co_RunID := runID; co_UserPrompt := rr_UserPrompt req; co_ConversationID := rr_ConversationID req;
          co_EventTopic := runID; co_EventLogService := ""; co_EventTypes := start_event_types req streaming;
          co_MaxSubAgentDepth := rr_MaxSubAgentDepth req; co_SubAgentDepth := 0;
          co_SubAgentRoutes := buildSubAgentRoutes (rr_SubAgents req); co_MemoryScope := run_scope (rr_Runtime rt) ctx |};
     rq_AgentName := TrimSpace (as_Name (rt_AgentSpec (rr_Runtime rt))); rq_LLMStreamEnabled := rr_EnableLLMStream req;
     rq_StreamHandler := streaming |}.

(** The run and the invocation ID. *)
Definition sendAgentLoop (ctx : Ctx) (req : option RRunRequest) (handler : string) (streaming : bool)
    : prog (S := http_sig) (result (string * string)) :=
  match req with
  | None => mret (inl (errors_New "restate: nil RunRequest"))
  | Some req =>
      match ensureIngress with
      | Some err => mret (inl err)
      | None =>
          runID ← hcall HUUID;
          _ ← hcall (HStashStore runID {| sg_tools := rr_Tools req; sg_eventTypes := start_event_types req streaming;
                                          sg_maxSubAgentDepth := rr_MaxSubAgentDepth req |});
          let service := rr_agentLoopServiceName rt in
          sent ← withIngressRetry "" (hcall (HSend (cf_HTTPTimeout cfg) service handler (loop_request ctx req runID streaming) runID));
          match sent with
          | inl err =>
              _ ← hcall (HStashDelete runID);
              mret (inl (wrap_error ("restate: invoke " +:+ service_path service handler +:+ ": ") (he_err err)))
          | inr id => mret (inr (runID, id))
          end
      end
  end.

(** [Run]: the IDs of the handle, and whether an approval loop is started for it. *)
Definition start_run (ctx : Ctx) (req : option RRunRequest) : prog (S := http_sig) (result (string * string * bool)) :=
  r ← sendAgentLoop ctx req agentLoopRunHandler false;
  mret (match r with inl err => inl err | inr ids => inr (ids, rr_approvalHandler rt) end).

(** [Stream] *)
Definition start_stream (ctx : Ctx) (req : option RRunRequest) : prog (S := http_sig) (result (string * string)) :=
  ended ← hcall HCtxErr;
  match ended with
  | Some err => mret (inl err)
  | None => sendAgentLoop ctx req agentLoopStreamHandler true
  end.

Definition cancelInvocation (runID invocationID : string) : prog (S := http_sig) (option error) :=
  match ensureIngress with
  | Some err => mret (Some err)
  | None =>
      let invocationID := TrimSpace invocationID in
      if String.eqb invocationID "" then mret (Some (errors_New "restate: empty invocationId")) else
      let service := rr_agentLoopServiceName rt in
      r ← withIngressRetry tt (hcall (HCancel (cf_HTTPTimeout cfg) service agentLoopCancelHandler runID invocationID));
      mret (match r with
            | inl err => Some (wrap_error ("restate: invoke " +:+ service_path service agentLoopCancelHandler +:+ ": ") (he_err err))
            | inr _ => None
            end)
  end.
End client.

(** ** Handles *)

(** [runHandle]; its goroutine attaches to the invocation. *)
Record handle := {
  hd_id : string; hd_invocationID : string; hd_once : bool; hd_cancelled : bool;
  hd_res : option AgentRunResult; hd_err : option error; hd_done : bool }.

Definition newRunHandle (id invocationID : string) : handle :=
  {| hd_id := id; hd_invocationID := invocationID; hd_once := false; hd_cancelled := false;
     hd_res := None; hd_err := None; hd_done := false |}.

(** The error of the invocation as the SDK words it; Restate keeps the message of a terminal error only. *)
Definition mapInvocationError (err : error) : error :=
  if isApplicationLoopError err then err
  else if Contains (err_msg err) (sentinel_msg ErrBudgetExceeded) then sentinel_with_msg ErrBudgetExceeded (err_msg err)
  else if Contains (err_msg err) (sentinel_msg ErrBudgetApprovalUnavailable)
  then sentinel_with_msg ErrBudgetApprovalUnavailable (err_msg err)
  else err.

(** [res.RunID] is filled in when it is empty. *)
Definition with_run_id (id : string) (r : AgentRunResult) : AgentRunResult :=
  {| ar_Content := ar_Content r; ar_AgentName := ar_AgentName r; ar_Model := ar_Model r; ar_Metadata := ar_Metadata r;
     ar_RunID := if String.eqb (ar_RunID r) "" then id else ar_RunID r; ar_LLMUsage := ar_LLMUsage r;
     ar_Telemetry := ar_Telemetry r |}.

Definition finished (h : handle) (res : option AgentRunResult) (err : option error) : handle :=
  {| hd_id := hd_id h; hd_invocationID := hd_invocationID h; hd_once := hd_once h; hd_cancelled := hd_cancelled h;
     hd_res := res; hd_err := err; hd_done := true |}.

(** [awaitCompletion], with what [Attach] answers when it is asked. *)
Definition awaitCompletion (rt : RestateRuntime) (h : handle) (out : result (option AgentLoopResponse)) : handle :=
  if String.eqb (TrimSpace (hd_invocationID h)) "" || negb (rr_hasIngress rt) then
    finished h None (Some (errors_New ("restate: run handle " +:+ Quote (hd_id h) +:+ " cannot await completion")))
  else
    match out with
    | inl err => finished h None (Some (if hd_cancelled h then sentinel_error ContextCanceled else mapInvocationError err))
    | inr (Some {| rs_Result := Some r |}) => finished h (Some (with_run_id (hd_id h) r)) None
    | inr _ => finished h None None
    end.

(** [Get]: the outcome when the run is done; else it waits ([None]) until the caller's context ends. *)
Definition Get (h : handle) (ctx_Err : option error) : option (option AgentRunResult * option error) :=
  if hd_done h then Some (hd_res h, hd_err h)
  else match ctx_Err with Some e => Some (None, Some e) | None => None end.

Section handles.
Context (rt : RestateRuntime) (cfg : RestateConfig).

Definition ensureReady (h : handle) : option error :=
  if String.eqb (TrimSpace (hd_invocationID h)) "" then
    Some (errors_New ("restate: run handle " +:+ Quote (hd_id h) +:+ " has no invocationId"))
  else ensureIngress rt.

Definition Status (h : handle) : prog (S := http_sig) (result RunStatus) :=
  match ensureReady h with
  | Some err => mret (inl err)
  | None =>
      if hd_cancelled h then mret (inr StatusCancelled) else
      r ← withIngressRetry cfg tt (hcall (HOutputById (cf_HTTPTimeout cfg) (hd_invocationID h)));
      mret (match r with
            | inr _ => inr StatusCompleted
            | inl err => if he_notFound err then inl (sentinel_error ErrRunNotFound)
                         else if he_notReady err then inr StatusRunning else inr StatusFailed
            end)
  end.

(** The once is used whether or not the request succeeds. *)
Definition used_once (h : handle) : handle :=
  {| hd_id := hd_id h; hd_invocationID := hd_invocationID h; hd_once := true; hd_cancelled := hd_cancelled h;
     hd_res := hd_res h; hd_err := hd_err h; hd_done := hd_done h |}.
Definition cancelled_handle (h : handle) : handle :=
  {| hd_id := hd_id h; hd_invocationID := hd_invocationID h; hd_once := hd_once h; hd_cancelled := true;
     hd_res := hd_res h; hd_err := hd_err h; hd_done := hd_done h |}.

(** What [Cancel] answers, and what it does to the handle. *)
Definition Cancel_handle (h : handle) : prog (S := http_sig) (option error * (handle -> handle)) :=
  match ensureReady h with
  | Some err => mret (Some err, id)
  | None =>
      if hd_once h then mret (Some (sentinel_error ErrRunAlreadyCompleted), id) else
      e ← cancelInvocation rt cfg (hd_id h) (hd_invocationID h);
      mret (e, match e with None => cancelled_handle ∘ used_once | Some _ => used_once end)
  end.

(** *** The events of a stream *)

(** The check [Events] makes before it starts the delivery. *)
Definition Events_check (h : handle) (fromOffset : Z) : prog (S := http_sig) (option error) :=
  if negb (rr_hasIngress rt) then
    mret (Some (errors_New ("restate: stream handle " +:+ Quote (hd_id h) +:+ " is not configured for Events")))
  else
    ended ← hcall HCtxErr;
    match ended with
    | Some err => mret (Some err)
    | None =>
        if fromOffset <? 0 then mret (Some (errors_New "restate: fromOffset must be >= 0")) else
        status ← Status h;
        mret (match status with
              | inl err => Some err
              | inr st => if IsTerminal st then Some (sentinel_error ErrRunAlreadyCompleted) else None
              end)
    end.

Definition terminalStreamErrorMessage (getErr : option error) : string :=
  match getErr with
  | None => "run failed"
  | Some e => if errors_Is e ContextDeadlineExceeded then "context deadline exceeded"
              else if errors_Is e ContextCanceled then "context canceled" else err_msg e
  end.

Definition with_agent_name (r : AgentRunResult) (name : string) : AgentRunResult :=
  {| ar_Content := ar_Content r; ar_AgentName := name; ar_Model := ar_Model r; ar_Metadata := ar_Metadata r;
     ar_RunID := ar_RunID r; ar_LLMUsage := ar_LLMUsage r; ar_Telemetry := ar_Telemetry r |}.

Definition zero_result : AgentRunResult :=
  {| ar_Content := ""; ar_AgentName := ""; ar_Model := ""; ar_Metadata := None; ar_RunID := ""; ar_LLMUsage := None; ar_Telemetry := None |}.

Definition syntheticStreamCompleteEvent (result : option AgentRunResult) (threadID runID rootName : string) : EventBody :=
  AgentRunFinishedEvent threadID runID
    (match result with
     | Some r => if negb (String.eqb (TrimSpace (ar_AgentName r)) "") then Some (with_agent_name r (TrimSpace (ar_AgentName r)))
                 else if negb (String.eqb rootName "") then Some (with_agent_name r rootName) else Some r
     | None => if negb (String.eqb rootName "") then Some (with_agent_name zero_result rootName) else None
     end).

(** The event the reader of the pull loop makes of a message. *)
Definition decode_message `{Location} (raw : string) : result (option EventBody) :=
  match EventFromJSON raw with inl _ => inl (errors_New "restate: undecoded pubsub message") | inr e => inr (Some (we_Body e)) end.

(** What the channel of [Events] carries, with the offsets of what was pulled; [None] when the
    iterations given do not finish the loop. *)
Definition deliverEvents `{Location} (h : handle) (fromOffset : Z) (peeks : list peek) (outcome : option AgentRunResult * option error)
    : option (list (option Z * EventBody)) :=
  let first := if fromOffset =? 0 then [(None, AgentRunStartedEvent "" (hd_id h) "")] else [] in
  let rootName := TrimSpace (as_Name (rt_AgentSpec (rr_Runtime rt))) in
  let pulled := runPullLoop decode_message fromOffset 0 peeks in
  let sent := map (fun p => (Some p.1, p.2)) pulled.1 in
  match pulled.2 with
  | None => None
  | Some false => Some (first ++ sent)
  | Some true =>
      Some (first ++ sent ++
        [(None, match outcome.2 with
                | Some err => AgentRunErrorEvent (terminalStreamErrorMessage (Some err)) None
                | None => syntheticStreamCompleteEvent outcome.1 "" (hd_id h) rootName
                end)])
  end.
End handles.

(** ** Registering the deployment *)

Definition deploymentURLFromListen (listen : string) : string :=
  let listen := TrimSpace listen in
  let listen := if String.eqb listen "" then defaultEndpointListenAddress else listen in
  if String.prefix ":" listen then "http://127.0.0.1" +:+ listen
  else if Contains listen "://" then listen
  else "http://" +:+ listen.

Section register.
Context (cfg : RestateConfig).

Definition deploy_url : string :=
  let url := TrimSpace (cf_DeploymentURL cfg) in if String.eqb url "" then deploymentURLFromListen (cf_ListenAddress cfg) else url.

Definition admin_url : string := trim_slashes (TrimSpace (cf_AdminURL cfg)).

(** [json.Marshal(map[string]any{...})] *)
Definition deployment_body : option string :=
  of_bytes ∘ render <$> to_json (VObj [("force", VBool true); ("uri", VStr deploy_url)]).

Definition deploy_error (what : string) : error :=
  errors_New ("restate: register deployment " +:+ deploy_url +:+ " via " +:+ admin_url +:+ ": " +:+ what).

(** An answer that a further attempt cannot change. *)
Definition final_status (code : Z) : bool := (400 <=? code) && (code <? 500) && negb (code =? 409) && negb (code =? 429).

(** The attempts from [attempt] on, [n] of them. *)
Fixpoint register_attempts (n : nat) (attempt : Z) (body : string) (lastErr : option error) : prog (S := http_sig) (option error) :=
  match n with
  | O => mret lastErr
  | S n =>
      ended ← hcall HCtxErr;
      match ended with
      | Some err => mret (match lastErr with Some _ => lastErr | None => Some err end)
      | None =>
          bad ← hcall (HNewRequest (admin_url +:+ "/deployments"));
          match bad with
          | Some err => mret (Some err)
          | None =>
              r ← hcall (HDo 0 {| hr_URL := admin_url +:+ "/deployments"; hr_Body := body;
                                  hr_Authorization := (let key := TrimSpace (cf_AuthKey cfg) in
                                    if String.eqb key "" then None else Some ("Bearer " +:+ key)) |});
              let continue e :=
                ended ← hcall (HBackoff (attempt * (300 * millisecond)));
                match ended with
                | Some _ => mret (Some e)
                | None => register_attempts n (attempt + 1) body (Some e)
                end in
              match r with
              | inl err => continue (deploy_error (err_msg (he_err err)))
              | inr (code, content) =>
                  let text := match content with inr s => s | inl _ => "" end in
                  if (200 <=? code) && (code <? 300) then mret None
                  else
                    let e := deploy_error ("status " +:+ Itoa code +:+ ": " +:+ TrimSpace text) in
                    if final_status code then mret (Some e) else continue e
              end
          end
      end
  end.

Definition registerDeployment : prog (S := http_sig) (option error) :=
  if String.eqb admin_url "" then mret None
  else match deployment_body with
       | None => mret (Some (errors_New "json: marshal"))
       | Some body => register_attempts 3 1 body None
       end.
End register.
End RsClient.
