(* ===== verification/RestateCaller.v ===== *)
(** What the caller's side of the Restate runtime guarantees: a run reads the log its events go
    to, an approval request travels from the loop to the handler and its answer to the awakeable
    it waits on, requests are retried without being changed, and errors that end a run are still
    recognised behind the server. *)
From S2P Require Import Prelude GoLib Types Codec Prog ProgSpec JsonText JsonCodec TimeText Policies MemoryConfig Telemetry Events EventsCodec Effects Sanitize Memory Tools AgentLoop Handles EventLog RestateDefs RestateLoop RestateRun RestateFacts RestateRouting RestateClient.

#[local] Open Scope string_scope.
#[local] Open Scope list_scope.
#[local] Open Scope Z_scope.

Module RsCaller.
Import Rs RsLoop RsRun RsRouting RsClient.

Abbreviation hevent := (event http_sig).

(** ** Names of services *)

Lemma no_underscore : Forall (fun p => ~ In "_"%char p) (map (@rev ascii) space_runes).
Proof. unfold space_runes. repeat constructor; cbn; intuition discriminate. Qed.

Lemma trimmed_end s : strip_one (map (@rev ascii) space_runes) (rev (to_bytes (TrimSpace s))) = None.
Proof.
  unfold TrimSpace. rewrite to_of_bytes. unfold trim_right_bytes. rewrite rev_involutive.
  apply trim_fuel_done; [auto with sdk|]. by rewrite length_rev.
Qed.

Lemma underscore_stops t k :
  strip_one (map (@rev ascii) space_runes) t = None -> strip_one (map (@rev ascii) space_runes) (t ++ "_"%char :: k) = None.
Proof.
  rewrite !strip_one_None. intros Ht p r Hp Heq. pose proof no_underscore as Hu. rewrite List.Forall_forall in Hu.
  specialize (Hu p Hp). apply app_eq_app in Heq as [l [[Hl Hr]|[Hl Hr]]].
  - by apply (Ht p l Hp).
  - destruct l as [|c l]; [rewrite app_nil_r in Hl; subst p; by apply (Ht t [] Hp); rewrite app_nil_r|].
    injection Hr as <- _. apply Hu. rewrite Hl. apply in_or_app. right. by left.
Qed.

(** A service name that starts with a letter and ends with a trimmed name has no white space around it. *)
Lemma serviceName_clean base name : (forall k, strip_one space_runes (to_bytes base ++ k) = None) -> clean_name (serviceName base (TrimSpace name)).
Proof.
  intros Hb. split; [|unfold serviceName; destruct base; [by specialize (Hb [" "%char])|done]].
  unfold TrimSpace at 1, serviceName. rewrite !to_bytes_app. unfold trim_left_bytes.
  rewrite trim_fuel_id by apply Hb. unfold trim_right_bytes. rewrite trim_fuel_id.
  - rewrite rev_involutive, <- !to_bytes_app. apply of_to_bytes.
  - rewrite !rev_app_distr. cbn [to_bytes rev app]. rewrite <- app_assoc. apply underscore_stops, trimmed_end.
Qed.

Lemma eventLog_clean name : clean_name (serviceName agentEventLogServiceName (TrimSpace name)).
Proof. by apply serviceName_clean. Qed.

(** What a configuration is after [validateConfig]. *)
Definition config_ok (cfg : RestateConfig) : Prop :=
  0 < cf_HTTPTimeout cfg /\ 0 < cf_HTTPMaxAttempts cfg /\ 0 <= cf_TTL cfg /\ (cf_DisableClear cfg = false -> 0 < cf_TTL cfg) /\
  cf_URL cfg <> "" /\ cf_ListenAddress cfg <> "".

Lemma validated url_Parse c cfg : validateConfig url_Parse c = inr cfg -> config_ok cfg.
Proof.
  unfold validateConfig. destruct (String.eqb (cf_URL _) "") eqn:Eu; [done|]. destruct (url_Parse _) as [?|[scheme host]]; [done|].
  destruct (_ && _); [done|]. destruct (String.eqb host ""); [done|].
  destruct (Z.ltb_spec (cf_HTTPTimeout (trimmed_config c)) 0); [done|].
  destruct (Z.ltb_spec (cf_HTTPMaxAttempts (trimmed_config c)) 0); [done|].
  destruct (Z.ltb_spec (cf_TTL (trimmed_config c)) 0); [done|]. intros [= <-].
  unfold config_ok, with_defaults, defaultIngressHTTPTimeout, defaultIngressHTTPAttempts, defaultEventLogTTL, second.
  cbn [cf_HTTPTimeout cf_HTTPMaxAttempts cf_TTL cf_DisableClear cf_URL cf_ListenAddress]. split_and!.
  - destruct (Z.eqb_spec (cf_HTTPTimeout (trimmed_config c)) 0); lia.
  - destruct (Z.eqb_spec (cf_HTTPMaxAttempts (trimmed_config c)) 0); lia.
  - destruct (_ && _); lia.
  - intros ->. cbn [negb andb]. destruct (Z.eqb_spec (cf_TTL (trimmed_config c)) 0); lia.
  - by apply String.eqb_neq.
  - destruct (String.eqb (cf_ListenAddress (trimmed_config c)) "") eqn:E; [done|]. by apply String.eqb_neq.
Qed.

Lemma built_runtime url_Parse base hc ah hr config rt cfg :
  newRuntimeFromOptions url_Parse base hc ah hr config = inr (rt, cfg) ->
  clean_name (rr_eventLogServiceName rt) /\ config_ok cfg /\ rr_Runtime rt = base /\ rr_hasIngress rt = true /\
  rr_approvalHandler rt = ah /\ rr_TTL rt = cf_TTL cfg.
Proof.
  unfold newRuntimeFromOptions. destruct config as [c|]; [|done]. destruct (validateConfig url_Parse c) as [?|c'] eqn:E; [done|].
  destruct (negb hc); [done|]. destruct (String.eqb _ ""); [done|]. intros [= <- <-].
  split; [apply eventLog_clean|]. split; [by eapply validated|done].
Qed.

(** ** Retried requests *)

Definition tries (p : hevent -> bool) (tr : list hevent) : nat := length (List.filter p tr).

Lemma tries_app p t1 t2 : tries p (t1 ++ t2) = (tries p t1 + tries p t2)%nat.
Proof. unfold tries. by rewrite List.filter_app, length_app. Qed.

(** Not a request: the end of the context, a pause. *)
Definition control_event (e : hevent) : bool := match ev_op e with HCtxErr | HBackoff _ => true | _ => false end.

(** A request that answered: its execution is a part of the trace. *)
Definition answered_by {T} (op : prog (S := http_sig) (fallible T)) (tr : list hevent) (v : T) : Prop :=
  exists t1 t2 t3, tr = t1 ++ t2 ++ t3 /\ texec op t2 (inr v).

Section retry.
Context {T : Type} (op : prog (S := http_sig) (fallible T)).

Lemma only_attempts_of (P : hevent -> Prop) n :
  (forall e, control_event e = true -> P e) -> only P op -> forall b, only P (ingress_attempts op n b).
Proof.
  intros Hc Ho. induction n as [|n IH]; intros b; cbn [ingress_attempts]; (apply only_bind; [exact Ho|]); intros [err|v]; try apply only_ret.
  - apply only_bind; [apply (only_perform (S := http_sig) P HCtxErr); intros; by apply Hc|]. intros [e|]; apply only_ret.
  - apply only_bind; [apply (only_perform (S := http_sig) P HCtxErr); intros; by apply Hc|]. intros [e|]; [apply only_ret|].
    case_match; [apply only_ret|]. apply only_bind; [apply (only_perform (S := http_sig) P (HBackoff b)); intros; by apply Hc|].
    intros [e|]; [apply only_ret|apply IH].
Qed.

Lemma attempts_answered n : forall b, spec (ingress_attempts op n b) (fun tr r => forall v, r = inr v -> answered_by op tr v).
Proof.
  assert (Hself : spec op (fun tr r => forall v, r = inr v -> texec op tr (inr v))).
  { intros tr r Hx v ->. exact Hx. }
  induction n as [|n IH]; intros b; cbn [ingress_attempts]; (eapply spec_bind; [exact Hself|]); cbn beta; intros t1 [err|v] H1.
  2, 4: apply spec_mret; intros v' [= <-]; exists [], t1, []; split; [done|by apply H1].
  - apply (spec_do (S := http_sig) HCtxErr). intros [e|]; by apply spec_mret.
  - apply (spec_do (S := http_sig) HCtxErr). intros [e|]; [by apply spec_mret|]. case_match; [by apply spec_mret|].
    apply (spec_do (S := http_sig) (HBackoff b)). intros [e|]; [by apply spec_mret|]. eapply spec_conseq; [apply IH|].
    cbn beta. intros tr r Hr v Hv. destruct (Hr v Hv) as (a & b' & c & -> & Hx).
    exists (t1 ++ Ev (S := http_sig) HCtxErr None :: Ev (S := http_sig) (HBackoff b) None :: a), b', c. split; [|done].
    by rewrite <- !app_assoc.
Qed.

(** At most one attempt more than are left. *)
Lemma attempts_counted p n :
  (forall e, control_event e = true -> p e = false) -> spec op (fun tr _ => (tries p tr <= 1)%nat) ->
  forall b, spec (ingress_attempts op n b) (fun tr _ => (tries p tr <= S n)%nat).
Proof.
  intros Hc Ho. induction n as [|n IH]; intros b; cbn [ingress_attempts]; (eapply spec_bind; [exact Ho|]); cbn beta; intros t1 [err|v] H1;
    try (apply spec_mret; rewrite app_nil_r; lia).
  all: assert (forall t, tries p (t1 ++ t) = (tries p t1 + tries p t)%nat) as Happ by (intros; apply tries_app).
  all: assert (forall e t, control_event e = true -> tries p (e :: t) = tries p t) as Hcons
    by (intros e t He; unfold tries; cbn [List.filter]; by rewrite (Hc e He)).
  - apply (spec_do (S := http_sig) HCtxErr). intros [e|]; apply spec_mret; rewrite Happ, Hcons by done; cbn; lia.
  - apply (spec_do (S := http_sig) HCtxErr). intros [e|]; [apply spec_mret; rewrite Happ, Hcons by done; cbn; lia|].
    case_match; [apply spec_mret; rewrite Happ, Hcons by done; cbn; lia|].
    apply (spec_do (S := http_sig) (HBackoff b)). intros [e|]; [apply spec_mret; rewrite Happ, !Hcons by done; cbn; lia|].
    eapply spec_conseq; [apply IH|]. cbn beta. intros tr r Hr. rewrite Happ, !Hcons by done. lia.
Qed.

(** The contract of [withIngressRetry]. *)
Lemma retried cfg zero (P : hevent -> Prop) p :
  0 < cf_HTTPMaxAttempts cfg -> (forall e, control_event e = true -> P e /\ p e = false) ->
  only P op -> spec op (fun tr _ => (tries p tr <= 1)%nat) ->
  spec (withIngressRetry cfg zero op) (fun tr r =>
    Forall P tr /\ Z.of_nat (tries p tr) <= cf_HTTPMaxAttempts cfg /\ forall v, r = inr v -> answered_by op tr v).
Proof.
  intros Hn Hc Ho Hp. unfold withIngressRetry. destruct (Z.leb_spec (cf_HTTPMaxAttempts cfg) 0); [lia|].
  eapply spec_conseq; [apply spec_and; [apply (only_attempts_of P)|apply spec_and; [apply (attempts_counted p)|apply attempts_answered]]|]; try done.
  - intros e He. by apply Hc.
  - intros e He. by apply Hc.
  - cbn beta. intros tr r (? & ? & ?). split_and!; [done|lia|done].
Qed.
End retry.

(** ** The awakeable an approval resolves *)

(** What the server makes of a path segment. *)
Fixpoint path_unescape (l : bytes) : bytes :=
  match l with
  | [] => []
  | c :: l =>
      if Ascii.eqb c "%" then
        match l with
        | a :: b :: l => match unhex a, unhex b with
                         | Some x, Some y => ascii_of_N (16 * x + y) :: path_unescape l
                         | _, _ => []
                         end
        | _ => []
        end
      else c :: path_unescape l
  end.

(** A byte is kept, or written in hexadecimal. *)
Definition escape_ok (c : ascii) : bool :=
  match escape_byte c with
  | [d] => Ascii.eqb d c && negb (Ascii.eqb d "%") && negb (Ascii.eqb d "/")
  | [p; a; b] =>
      Ascii.eqb p "%" && negb (Ascii.eqb a "/") && negb (Ascii.eqb b "/") &&
      match unhex a, unhex b with Some x, Some y => Ascii.eqb (ascii_of_N (16 * x + y)) c | _, _ => false end
  | _ => false
  end.

Lemma escape_all c : escape_ok c = true.
Proof.
  assert (H : forallb (fun n => escape_ok (ascii_of_nat n)) (seq 0 256) = true) by (vm_compute; reflexivity).
  rewrite forallb_forall in H. rewrite <- (ascii_nat_embedding c). apply H. apply in_seq. pose proof (nat_ascii_bounded c). lia.
Qed.

Lemma unescape_byte c rest :
  path_unescape (escape_byte c ++ rest) = c :: path_unescape rest /\ ~ In "/"%char (escape_byte c).
Proof.
  pose proof (escape_all c) as H. unfold escape_ok in H. destruct (escape_byte c) as [|p [|a [|b [|? ?]]]]; try done; crush_bool.
  - apply Ascii.eqb_eq in H as ->. cbn [app path_unescape]. split; [by destruct (Ascii.eqb c "%")|].
    intros [->|[]]. by rewrite Ascii.eqb_refl in *.
  - repeat match goal with K : _ && _ = true |- _ => apply andb_true_iff in K as [? ?] end.
    destruct (Ascii.eqb_spec p "%"); [subst p|done]. cbn [app path_unescape]. rewrite Ascii.eqb_refl.
    destruct (unhex a) as [x|]; [|done]. destruct (unhex b) as [y|]; [|done]. destruct (Ascii.eqb_spec (ascii_of_N (16 * x + y)) c); [|done].
    subst c. split; [done|]. intros [?|[?|[?|[]]]]; subst; done.
Qed.

(** The segment is the token's and stays one segment. *)
Lemma PathEscape_segment token :
  path_unescape (to_bytes (PathEscape token)) = to_bytes token /\ ~ In "/"%char (to_bytes (PathEscape token)).
Proof.
  unfold PathEscape. rewrite to_of_bytes. induction (to_bytes token) as [|c l [IH1 IH2]]; [split; [done|intros []]|].
  cbn [map concat]. destruct (unescape_byte c (concat (map escape_byte l))) as [-> Hs]. rewrite IH1. split; [done|].
  by intros [H|H]%in_app_or.
Qed.

Definition is_post (e : hevent) : bool := match ev_op e with HDo _ _ => true | _ => false end.

(** A request resolves the awakeable of the token with the status. *)
Definition resolves (cfg : RestateConfig) (token status : string) (e : hevent) : Prop :=
  match ev_op e with
  | HDo timeout req =>
      timeout = cf_HTTPTimeout cfg /\ hr_Body req = status_payload status /\ hr_Authorization req = authorization cfg /\
      exists segment, hr_URL req = base_url cfg +:+ "/restate/awakeables/" +:+ segment +:+ "/resolve" /\
        path_unescape (to_bytes segment) = to_bytes token /\ ~ In "/"%char (to_bytes segment)
  | HNewRequest _ | HCtxErr | HBackoff _ => True
  | _ => False
  end.

(** The server accepted it. *)
Definition accepted (e : hevent) : Prop :=
  exists timeout req code body, e = Ev (S := http_sig) (HDo timeout req) (inr (code, inr body)) /\ (code = 200 \/ code = 202 \/ code = 204).

Definition allowed_status (status : string) : Prop := status = ApprovalStatusApproved \/ status = ApprovalStatusRejected.

(** One attempt: the request is created and sent once. *)
Lemma post_attempt cfg what url body :
  let req := {| hr_URL := url; hr_Body := body; hr_Authorization := authorization cfg |} in
  spec (http_attempt cfg (new_request cfg what url body)) (fun tr r =>
    (exists a e, tr = [Ev (S := http_sig) (HNewRequest url) a] /\ r = inl e) \/
    exists a, tr = [Ev (S := http_sig) (HNewRequest url) None; Ev (S := http_sig) (HDo (cf_HTTPTimeout cfg) req) a] /\
              forall v, r = inr v -> a = inr (v.1, inr v.2)).
Proof.
  intros req. unfold http_attempt, new_request.
  eapply (spec_bind _ _ (fun t r => exists a, t = [Ev (S := http_sig) (HNewRequest url) a] /\
    r = match a with Some err => inl (plain_error (wrap_error ("restate: create " +:+ what +:+ " request: ") err)) | None => inr req end)).
  - apply (spec_do (S := http_sig) (HNewRequest url)). intros a. apply spec_mret. by exists a.
  - cbn beta. intros t r ([err|] & -> & ->); [apply spec_mret; left; by do 2 eexists|].
    apply (spec_do (S := http_sig) (HDo (cf_HTTPTimeout cfg) req)). intros a. apply spec_mret. right. exists a. split; [done|].
    intros v. destruct a as [e|[code [e|b]]]; [done..|]. destruct (isRetryableHTTPStatus code); [done|]. by intros [= <-].
Qed.

Lemma approve_resolves cfg token status :
  0 < cf_HTTPMaxAttempts cfg -> allowed_status status -> TrimSpace token = token -> token <> "" ->
  spec (approve cfg token status) (fun tr r =>
    Forall (resolves cfg token status) tr /\ Z.of_nat (tries is_post tr) <= cf_HTTPMaxAttempts cfg /\
    (r = None -> exists e, In e tr /\ accepted e)).
Proof.
  intros Hn Hs Ht Hne. unfold approve.
  assert (negb (String.eqb status ApprovalStatusApproved) && negb (String.eqb status ApprovalStatusRejected) = false) as ->.
  { by destruct Hs as [-> | ->]. }
  rewrite Ht. cbv zeta. apply String.eqb_neq in Hne as ->. pose proof (PathEscape_segment token) as [Hseg Hslash].
  eapply spec_bind; [apply (retried _ cfg _ (resolves cfg token status) is_post); [done| | |]|].
  - intros e He. unfold control_event, resolves, is_post in *. by destruct (ev_op e).
  - eapply spec_conseq; [apply post_attempt|]. cbn beta. intros tr r [(a & e & -> & _)|(a & -> & _)]; [by repeat constructor|].
    constructor; [done|]. constructor; [|constructor]. unfold resolves. cbn [ev_op hr_Body hr_Authorization hr_URL].
    split_and!; [done..|]. by exists (PathEscape token).
  - eapply spec_conseq; [apply post_attempt|]. cbn beta. intros tr r [(a & e & -> & _)|(a & -> & _)]; cbv; lia.
  - cbn beta. intros tr r (H1 & H2 & H3). apply spec_mret. rewrite app_nil_r. split_and!; [done..|].
    unfold approve_answer. destruct r as [?|[code body]]; [done|]. intros Hr. destruct (H3 _ eq_refl) as (t1 & t2 & t3 & -> & Hx).
    apply post_attempt in Hx as [(a & e & _ & ?)|(a & -> & Ha)]; [done|]. specialize (Ha _ eq_refl). subst a.
    eexists. split; [apply in_or_app; right; apply in_or_app; left; right; by left|]. do 4 eexists. split; [done|].
    destruct ((code =? 200) || (code =? 202) || (code =? 204)) eqn:E; [|by destruct ((code =? 404) || (code =? 409))].
    repeat (apply orb_true_iff in E as [E|E]); apply Z.eqb_eq in E; auto.
Qed.

(** ** The way of an approval *)

(** The request the handler is to see for a call. *)
Definition call_request (rt : RestateRuntime) (input : AgentLoopInput) (tc : ToolCallRequest) (token : string) : ApprovalRequest :=
  let agent := as_Name (rt_AgentSpec (rr_Runtime rt)) in
  match find_route (co_SubAgentRoutes (in_core input)) (tc_ToolName tc) with
  | Some _ => SubAgentApproval agent (tc_ToolDisplayName tc) (tc_Args tc) token
  | None => ToolApproval agent (tc_ToolCallID tc) (tc_ToolName tc) (tc_ToolDisplayName tc) (tc_Args tc) token
  end.

Lemma rs_prepare_parsed n v w : named v n -> parse_custom n w = Some (reread v) ->
  prepareApprovalFromCustomEvent n w =
  match v with
  | AnyValue _ => Malformed
  | AgentCustomEventApprovalValue agent id tool display args token => Prepared (ToolApproval agent id tool display args token) token
  | AgentCustomEventDelegationValue agent sub _ args token => Prepared (SubAgentApproval agent sub args token) token
  | AgentCustomEventBudgetValue agent detail tokens cost token => Prepared (BudgetApproval agent detail tokens cost token) token
  | AgentCustomEventStepReplayedValue _ _ _ _ _ => NotApproval
  end.
Proof.
  unfold parse_custom, prepareApprovalFromCustomEvent. destruct v; intros Hn H; cbn in Hn; [done|subst n..];
    cbn [String.eqb AgentCustomEventNameToolApproval AgentCustomEventNameSubAgentDelegation AgentCustomEventNameBudget AgentCustomEventNameStepReplayed] in *;
    cbn in H |- *; first [rewrite H; reflexivity | reflexivity].
Qed.

(** C13: The approval of a tool call by its caller: from the text of the event that the durable loop
    publishes, the client rebuilds the request of exactly that call, with its arguments and the
    token of the awakeable that the loop waits on; the reply that the handler gives for it sends
    requests that resolve that awakeable, as the server reads the path and the payload, with the
    handler's status; they are at most as many as the attempts configured, and when [approve]
    reports success the server has accepted one. *)
Theorem durable_approval_roundtrip `{Location} rt input tc token now raw cfg status :
  let ev := NewEvent (approval_body rt input tc token) now in
  ToJSON ev = Some raw -> body_ok (ae_Body ev) -> in64 (ae_Timestamp ev) -> text_ok ev = true ->
  clean_name token -> allowed_status status -> 0 < cf_HTTPMaxAttempts cfg ->
  message_request raw = Some (call_request rt input tc token, token) /\
  respond token status = inr {| ay_approvalToken := token; ay_status := status |} /\
  parse (status_payload status) = Some (JStr status) /\
  forall tr r, texec (approve cfg token status) tr r ->
    Forall (resolves cfg token status) tr /\ Z.of_nat (tries is_post tr) <= cf_HTTPMaxAttempts cfg /\
    (r = None -> exists e, In e tr /\ accepted e).
Proof.
  intros ev Hs Hok Hts Htext [Ht Hne] Hst Hn. destruct (event_decoded _ _ Hs Hok Hts Htext) as (b & Hw & Hd). split; [|split_and!].
  - unfold message_request. rewrite Hd. cbn [we_Body]. clear Hd Hs Htext Hts. subst ev. cbn [ae_Body NewEvent] in *.
    unfold approval_body, call_request in *. destruct (find_route _ _) as [route|].
    + destruct (custom_decoded _ _ _ Hw Hok eq_refl) as (w & -> & Hp).
      by rewrite (fun H => rs_prepare_parsed _ _ _ H Hp).
    + destruct (custom_decoded _ _ _ Hw Hok eq_refl) as (w & -> & Hp).
      by rewrite (fun H => rs_prepare_parsed _ _ _ H Hp).
  - by destruct Hst as [-> | ->].
  - by destruct Hst as [-> | ->].
  - by apply approve_resolves.
Qed.

(** ** The approval loop of a run *)

(** The start of a goroutine that calls the handler with a request. *)
Definition handler_started (e : hevent) : option ApprovalRequest :=
  match ev_op e with HGoHandler _ req => Some req | _ => None end.

(** The requests goroutines were started for, in the order of their starts. *)
Definition handlers_started (tr : list hevent) : list ApprovalRequest := omap handler_started tr.

(** The requests in messages. *)
Definition requests_in `{Location} (raws : list string) : list ApprovalRequest := omap (fun raw => fst <$> message_request raw) raws.

(** The messages between two offsets. *)
Definition window (log : list string) (o o' : Z) : list string := take (Z.to_nat (o' - o)) (from_offset o log).

(** A pull is answered by the event log of the topic, as far as it had grown and was not cleared. *)
Definition answered_by_log (rt : RestateRuntime) (topic : string) (log : list string) (e : hevent) : Prop :=
  match e with
  | Ev (HPull _ service t o) (inr resp) =>
      service = rr_eventLogServiceName rt /\ t = topic /\
      exists n head, (n <= length log)%nat /\
        spec_pull {| ls_log := take n log; ls_head := head; ls_subs := [] |} {| pq_Offset := Some o; pq_Wait := false |} = PullReturns (inr resp)
  | _ => True
  end.

Lemma only_retried {T} (op : prog (S := http_sig) (fallible T)) cfg zero (P : hevent -> Prop) :
  (forall e, control_event e = true -> P e) -> only P op -> only P (withIngressRetry cfg zero op).
Proof. intros Hc Ho. unfold withIngressRetry. case_match; [apply only_ret|by apply only_attempts_of]. Qed.

(** Whatever the reply, only its awakeable is resolved. *)
Lemma approve_only cfg token status : only (resolves cfg (TrimSpace token) status) (approve cfg token status).
Proof.
  unfold approve. case_match; [apply only_ret|]. cbv zeta. case_match; [apply only_ret|].
  apply only_bind; [|intros; apply only_ret]. apply only_retried.
  - intros e He. unfold control_event, resolves in *. by destruct (ev_op e).
  - eapply spec_conseq; [apply post_attempt|]. cbn beta. pose proof (PathEscape_segment (TrimSpace token)) as [Hseg Hslash].
    intros tr r [(a & e & -> & _)|(a & -> & _)]; (constructor; [done|]); [constructor|]. constructor; [|constructor].
    unfold resolves. cbn [ev_op hr_Body hr_Authorization hr_URL]. split_and!; [done..|]. by exists (PathEscape (TrimSpace token)).
Qed.

Lemma handlers_started_app t1 t2 : handlers_started (t1 ++ t2) = handlers_started t1 ++ handlers_started t2.
Proof. apply omap_app. Qed.

Lemma no_handlers_started tr : Forall (fun e => handler_started e = None) tr -> handlers_started tr = [].
Proof. unfold handlers_started. induction 1 as [|e tr He _ IH]; [done|]. cbn [omap list_omap]. by rewrite He. Qed.

Lemma window_empty log o : window log o o = [].
Proof. unfold window. by rewrite Z.sub_diag. Qed.

Lemma window_join log o o' o'' : 0 <= o <= o' -> o' <= o'' -> window log o o'' = window log o o' ++ window log o' o''.
Proof.
  intros H1 H2. unfold window, from_offset. replace (Z.to_nat (o'' - o)) with (Z.to_nat (o' - o) + Z.to_nat (o'' - o'))%nat by lia.
  replace (Z.to_nat o') with (Z.to_nat o + Z.to_nat (o' - o))%nat by lia.
  by rewrite <- drop_drop, take_take_drop.
Qed.

(** An answer of the log is the messages between the offset and the next one. *)
Lemma pulled_window n log head o resp :
  0 <= o <= len log -> (n <= length log)%nat ->
  spec_pull {| ls_log := take n log; ls_head := head; ls_subs := [] |} {| pq_Offset := Some o; pq_Wait := false |} = PullReturns (inr resp) ->
  o <= pr_NextOffset resp <= len log /\ pr_Messages resp = window log o (pr_NextOffset resp).
Proof.
  intros Ho Hn. unfold spec_pull, pull_wait. cbn [pq_Offset pq_Wait ls_log ls_head negb]. case_match; [done|].
  assert (len (take n log) = Z.of_nat n) as -> by (unfold len; rewrite length_take; lia).
  destruct (Z.ltb_spec o (Z.of_nat n)); intros [= <-]; cbn [pr_NextOffset pr_Messages]; [|rewrite window_empty; split; [lia|done]].
  unfold len in *. split; [lia|]. unfold window, from_offset. rewrite skipn_firstn_comm. f_equal. lia.
Qed.

(** Every request the loop sends comes after a reply that the loop received, and resolves the
    awakeable that reply names, with its status. *)
Definition answers_reply (cfg : RestateConfig) (f e : hevent) : Prop :=
  exists r, f = Ev (S := http_sig) HPoll (PollReply r) /\ resolves cfg (TrimSpace (ay_approvalToken r)) (ay_status r) e.

Definition posts_justified (cfg : RestateConfig) (tr : list hevent) : Prop :=
  guarded (fun e => is_post e = true) (answers_reply cfg) [] tr.

Lemma posts_app cfg t1 t2 : posts_justified cfg t1 -> posts_justified cfg t2 -> posts_justified cfg (t1 ++ t2).
Proof. intros H1 H2. apply guarded_app; [done|]. eapply guarded_mono; [|exact H2]. by intros f []. Qed.

Lemma posts_none cfg tr : Forall (fun e => is_post e = false) tr -> posts_justified cfg tr.
Proof. intros H. apply guarded_no_needs. intros e Hin. rewrite List.Forall_forall in H. specialize (H e Hin). congruence. Qed.

(** What answers a reply is justified by it. *)
Lemma posts_after cfg r t :
  Forall (resolves cfg (TrimSpace (ay_approvalToken r)) (ay_status r)) t ->
  posts_justified cfg (Ev (S := http_sig) HPoll (PollReply r) :: t).
Proof.
  intros Ht. apply guarded_cons; [done|]. intros pre e post -> He. apply List.Forall_app in Ht as [_ [Hr _]%Forall_cons].
  eexists. split; [by left|]. by exists r.
Qed.

Section approval_loop.
Context `{Location} (rt : RestateRuntime) (cfg : RestateConfig) (topic : string) (log : list string).

#[local] Abbreviation genuine := (answered_by_log rt topic log).

(** From offset [o], goroutines were started for the requests of the messages up to the next offset. *)
Definition handled_from (o : Z) (tr : list hevent) (r : option Z) : Prop :=
  posts_justified cfg tr /\
  exists o', o <= o' <= len log /\ handlers_started tr = requests_in (window log o o') /\ (forall next, r = Some next -> next = o').

Lemma dispatched raws : spec (dispatch_messages rt raws) (fun tr _ =>
  Forall (fun e => is_post e = false) tr /\ handlers_started tr = requests_in raws).
Proof.
  induction raws as [|raw raws IH]; cbn [dispatch_messages]; [by apply spec_mret|].
  unfold requests_in. cbn [omap list_omap]. destruct (message_request raw) as [[req t]|]; cbn [fmap option_fmap option_map fst].
  - apply (spec_do (S := http_sig) (HGoHandler (approvalTaskTimeout rt) req)). intros []. eapply spec_conseq; [apply IH|].
    cbn beta. intros tr _ [H1 H2]. split; [by constructor|]. unfold handlers_started in *. cbn [omap list_omap]. cbn [handler_started ev_op].
    f_equal. exact H2.
  - apply IH.
Qed.

Lemma paused o : spec (pause_then o) (fun tr r =>
  Forall (fun e => is_post e = false) tr /\ handlers_started tr = [] /\ forall next, r = Some next -> next = o).
Proof.
  apply (spec_do (S := http_sig) (HPause pubsubPullInterval)). intros []; apply spec_mret; (split; [by repeat constructor|]);
    (split; [done|]); [done|by intros ? [= <-]].
Qed.

(** After the poll and the answer to a reply. *)
Lemma pull_part o : 0 <= o <= len log ->
  spec (resp ← hcall (HPull (cf_HTTPTimeout cfg) (rr_eventLogServiceName rt) topic o);
        match resp with
        | inl err =>
            left ← hcall HLeave;
            if (left : bool) then mret None
            else if isAgentEventLogCleared (Some err) then mret None
            else pause_then o
        | inr resp =>
            match pr_Messages resp with
            | [] => pause_then (pr_NextOffset resp)
            | raws => _ ← dispatch_messages rt raws; mret (Some (pr_NextOffset resp))
            end
        end) (given genuine (fun tr r => handled_from o tr r)).
Proof.
  intros Ho. apply (spec_do (S := http_sig) (HPull (cf_HTTPTimeout cfg) (rr_eventLogServiceName rt) topic o)). intros [err|resp].
  - apply (spec_do (S := http_sig) HLeave).
    assert (Hstay : forall e1 e2 tr r, is_post e1 = false -> is_post e2 = false -> handler_started e1 = None -> handler_started e2 = None ->
      Forall (fun e => is_post e = false) tr /\ handlers_started tr = [] /\ (forall next, r = Some next -> next = o) ->
      given genuine (handled_from o) (e1 :: e2 :: tr) r).
    { intros e1 e2 tr r P1 P2 N1 N2 (H1 & H2 & H3) _. split; [apply posts_none; by repeat constructor|]. exists o. split; [lia|]. split; [|done].
      rewrite window_empty. unfold handlers_started in *. cbn [omap list_omap]. by rewrite N1, N2. }
    intros [].
    + apply spec_mret. by apply Hstay.
    + case_match; [apply spec_mret; by apply Hstay|]. eapply spec_conseq; [apply paused|]. intros tr r Hr. by apply Hstay.
  - assert (Hwin : forall tr r, genuine (Ev (S := http_sig) (HPull (cf_HTTPTimeout cfg) (rr_eventLogServiceName rt) topic o) (inr resp)) ->
      Forall (fun e => is_post e = false) tr -> handlers_started tr = requests_in (pr_Messages resp) ->
      (forall next, r = Some next -> next = pr_NextOffset resp) ->
      handled_from o (Ev (S := http_sig) (HPull (cf_HTTPTimeout cfg) (rr_eventLogServiceName rt) topic o) (inr resp) :: tr) r).
    { intros tr r (_ & _ & n & head & Hn & Hp) H1 H2 H3. destruct (pulled_window _ _ _ _ _ Ho Hn Hp) as [Hb Hm].
      split; [apply posts_none; by constructor|]. exists (pr_NextOffset resp). split; [lia|]. split; [|done].
      unfold handlers_started in *. cbn [omap list_omap]. cbn [handler_started ev_op]. by rewrite H2, Hm. }
    destruct (pr_Messages resp) as [|raw raws] eqn:Er.
    + eapply spec_conseq; [apply paused|]. cbn beta. intros tr r (H1 & H2 & H3) [Hg _]%Forall_cons. by apply Hwin.
    + eapply spec_bind; [apply dispatched|]. cbn beta. intros tr [] [H1 H2]. apply spec_mret. rewrite app_nil_r.
      intros [Hg _]%Forall_cons. apply Hwin; [done..|]. by intros ? [= <-].
Qed.

Lemma one_turn o : 0 <= o <= len log -> spec (approval_turn rt cfg topic o) (given genuine (handled_from o)).
Proof.
  intros Ho. unfold approval_turn. apply (spec_do (S := http_sig) HPoll).
  assert (Hleft : handled_from o [Ev (S := http_sig) HPoll PollLeave] None).
  { split; [by apply posts_none; repeat constructor|]. exists o. by rewrite window_empty; repeat split; try lia. }
  intros [|r|]; [by apply spec_mret; intros _| |].
  - eapply (spec_bind _ _ (fun t _ => Forall (resolves cfg (TrimSpace (ay_approvalToken r)) (ay_status r)) t)).
    + eapply spec_bind; [apply approve_only|]. intros t a Ht. apply spec_mret. by rewrite app_nil_r.
    + cbn beta. intros t [] Ht. eapply spec_conseq; [by apply pull_part|]. intros tr x Hx [_ [_ Hg]%Forall_app]%Forall_cons.
      destruct (Hx Hg) as (Hp & o' & Hb & Hc & Hn). split.
      * change (Ev (S := http_sig) HPoll (PollReply r) :: t ++ tr) with (([Ev (S := http_sig) HPoll (PollReply r)] ++ t) ++ tr).
        apply posts_app; [|done]. by apply posts_after.
      * exists o'. split; [lia|]. split; [|done]. cbn [app]. unfold handlers_started in *. cbn [omap list_omap]. cbn [handler_started ev_op].
        rewrite omap_app. fold (handlers_started t). rewrite no_handlers_started; [done|].
        eapply Forall_impl; [exact Ht|]. cbn beta. unfold resolves, handler_started. intros e. by destruct (ev_op e).
  - eapply spec_conseq; [by apply pull_part|]. intros tr x Hx [_ Hg]%Forall_cons.
    destruct (Hx Hg) as (Hp & o' & Hb & Hc & Hn). split.
    + apply (posts_app cfg [_]); [by apply posts_none; repeat constructor|done].
    + by exists o'.
Qed.

Lemma all_turns turns : forall o, 0 <= o <= len log -> spec (approval_turns rt cfg turns topic o) (given genuine (handled_from o)).
Proof.
  induction turns as [|turns IH]; intros o Ho; cbn [approval_turns].
  - apply spec_mret. intros _. split; [by apply posts_none|]. exists o. rewrite window_empty. split; [lia|]. split; [done|]. by intros ? [= <-].
  - eapply spec_given_bind; [by apply one_turn|]. intros t1 next _ (Hp & o' & Hb & Hc & Hn). destruct next as [o2|].
    + specialize (Hn o2 eq_refl) as ->. eapply spec_conseq; [apply IH; lia|]. intros tr r Hr Hg.
      destruct (Hr Hg) as (Hp2 & o2 & Hb2 & Hc2 & Hn2). split; [by apply posts_app|]. exists o2. split; [lia|]. split; [|done].
      rewrite handlers_started_app, Hc, Hc2, (window_join log o o' o2) by lia. unfold requests_in. by rewrite omap_app.
    + apply spec_mret. intros _. rewrite app_nil_r. split; [done|]. by exists o'.
Qed.
End approval_loop.

(** C14: The approval loop of a run, when the event log answers its pulls with what it has of the
    run's topic at the time: over any number of turns, whatever fails and whenever the run ends,
    the loop starts one goroutine that calls the handler for each approval request of the first
    messages of the topic, in their order and for no other, up to the offset where the loop
    stands (in which order the goroutines then run is not claimed); and every request the loop
    sends comes after a reply it received, and resolves the awakeable that reply names, with
    its status. *)
Theorem approvals_delivered_once `{Location} rt cfg runID log turns tr r :
  texec (runApprovalLoop rt cfg turns runID) tr r -> Forall (answered_by_log rt runID log) tr ->
  (rr_approvalHandler rt = false -> tr = []) /\ posts_justified cfg tr /\
  exists o', 0 <= o' <= len log /\ handlers_started tr = requests_in (take (Z.to_nat o') log) /\ (forall next, r = Some next -> rr_approvalHandler rt = true -> next = o').
Proof.
  unfold runApprovalLoop. destruct (rr_approvalHandler rt) eqn:Eh; cbn [negb]; intros Hx Hg.
  - destruct (all_turns rt cfg runID log turns 0 ltac:(unfold len; lia) tr r Hx Hg) as (Hp & o' & Hb & Hc & Hn). split; [done|]. split; [done|].
    exists o'. split; [lia|]. split; [|auto]. rewrite Hc. unfold window, from_offset. cbn [drop Z.to_nat]. by rewrite Z.sub_0_r.
  - apply texec_ret_inv in Hx as [-> ->]. split; [done|]. split; [by apply posts_none|]. exists 0. unfold len. by repeat split; try lia.
Qed.

(** ** Starting a run *)

Lemma spec_hcall o (Q : list hevent -> HAns o -> Prop) : (forall a, Q [Ev (S := http_sig) o a] a) -> spec (hcall o) Q.
Proof. intros H. apply (spec_perform (S := http_sig) o). exact H. Qed.

Definition is_send (e : hevent) : bool := match ev_op e with HSend _ _ _ _ _ => true | _ => false end.

(** An attempt to send this request under this key, or a control step between two. *)
Definition sends (rt : RestateRuntime) (cfg : RestateConfig) (handler : string) (request : AgentLoopRequest) (key : string) (e : hevent) : Prop :=
  match ev_op e with
  | HSend timeout service h r k =>
      timeout = cf_HTTPTimeout cfg /\ service = rr_agentLoopServiceName rt /\ h = handler /\ r = request /\ k = key
  | HCtxErr | HBackoff _ => True
  | _ => False
  end.

(** What the caller then pulls is what the handler of the request publishes to. *)
Definition reads_its_stream (rt : RestateRuntime) (request : AgentLoopRequest) (runID : string) : Prop :=
  stream_of rt (rq_core request) = (rr_eventLogServiceName rt, runID) /\
  validateAgentName rt (rq_AgentName request) = None /\
  co_RunID (rq_core request) = runID /\ co_SubAgentDepth (rq_core request) = 0.

Lemma requested_stream rt ctx req runID streaming :
  clean_name runID -> reads_its_stream rt (loop_request rt ctx req runID streaming) runID.
Proof.
  intros [Ht Hne]. unfold reads_its_stream, loop_request. cbn [rq_core co_RunID co_SubAgentDepth rq_AgentName]. split; [|split; [|done]].
  - unfold stream_of, topic_of, event_service. cbn [co_EventLogService co_EventTopic co_RunID]. rewrite Ht.
    apply String.eqb_neq in Hne as ->. done.
  - unfold validateAgentName. rewrite TrimSpace_idem. unfold EqualFold. rewrite String.eqb_refl. by destruct (String.eqb _ "").
Qed.

(** An approval of the run passes its filter when the caller has a handler and asks for no types. *)
Lemma approvals_wanted rt req streaming input tc token :
  rr_approvalHandler rt = true -> rr_EventTypes req = [] ->
  eventAllowed (start_event_types rt req streaming) (approval_body rt input tc token) = true.
Proof.
  intros Ha He. unfold start_event_types. rewrite He, Ha. unfold approval_body.
  by destruct streaming; destruct (find_route _ _).
Qed.

(** C15: Starting a run on a runtime that [newRuntimeFromOptions] has built: the run's tools are
    staged under its ID before anything is sent; every attempt sends the same request to the same
    handler under the run's ID as its idempotency key, at most as often as is configured; the run
    is reported as started only when an attempt was accepted, with that attempt's invocation, and
    its staged tools are dropped exactly when it is not. For a run ID without white space around
    it, the handler of the request takes it for its own agent's and publishes to the service and
    topic that the caller's reader and approval loop pull, and with an approval handler and no
    event types asked for its approval requests pass the filter. *)
Theorem durable_run_started url_Parse base hc ah hr config rt cfg ctx req handler streaming tr r :
  newRuntimeFromOptions url_Parse base hc ah hr config = inr (rt, cfg) ->
  texec (sendAgentLoop rt cfg ctx (Some req) handler streaming) tr r ->
  exists runID staged sent cleanup,
    let request := loop_request rt ctx req runID streaming in
    tr = Ev (S := http_sig) HUUID runID :: Ev (S := http_sig) (HStashStore runID staged) tt :: sent ++ cleanup /\
    sg_tools staged = rr_Tools req /\ sg_eventTypes staged = co_EventTypes (rq_core request) /\
    sg_maxSubAgentDepth staged = co_MaxSubAgentDepth (rq_core request) /\
    Forall (sends rt cfg handler request runID) sent /\ Z.of_nat (tries is_send sent) <= cf_HTTPMaxAttempts cfg /\
    (match r with
     | inl _ => cleanup = [Ev (S := http_sig) (HStashDelete runID) tt]
     | inr (id, inv) => id = runID /\ cleanup = [] /\
         exists timeout service h r k, In (Ev (S := http_sig) (HSend timeout service h r k) (inr inv)) sent
     end) /\
    (clean_name runID -> reads_its_stream rt request runID /\
       forall input tc token, ah = true -> rr_EventTypes req = [] ->
         eventAllowed (co_EventTypes (rq_core request)) (approval_body rt input tc token) = true).
Proof.
  intros Hb Hx. apply built_runtime in Hb as (_ & (_ & Hn & _) & _ & Hi & Hah & _).
  unfold sendAgentLoop, ensureIngress in Hx. rewrite Hi in Hx.
  apply texec_do_inv in Hx as (runID & t1 & -> & Hx). apply texec_do_inv in Hx as ([] & t2 & -> & Hx).
  apply texec_bind_inv in Hx as (sent & cleanup & out & -> & H1 & H2).
  set (request := loop_request rt ctx req runID streaming) in *.
  pose proof (retried (hcall (HSend (cf_HTTPTimeout cfg) (rr_agentLoopServiceName rt) handler request runID)) cfg ""
    (sends rt cfg handler request runID) is_send Hn) as Hr. specialize (Hr ltac:(intros e; unfold control_event, sends, is_send; by destruct (ev_op e))).
  pose proof (spec_hcall (HSend (cf_HTTPTimeout cfg) (rr_agentLoopServiceName rt) handler request runID)) as Hsend.
  destruct (fun K1 K2 => Hr (Hsend _ K1) (Hsend _ K2) sent out H1) as (Hall & Hcnt & Hans);
    [intros a; constructor; [by repeat split|constructor]|intros a; cbv; lia|].
  do 2 eexists. exists sent, cleanup. cbv zeta. split; [reflexivity|]. do 3 (split; [reflexivity|]). split; [done|]. split; [done|]. split.
  - destruct out as [err|inv].
    + apply texec_do_inv in H2 as ([] & t & -> & H2). apply texec_ret_inv in H2 as [-> ->]. reflexivity.
    + apply texec_ret_inv in H2 as [-> ->]. split; [done|]. split; [done|]. destruct (Hans inv eq_refl) as (a & b & c & -> & Hop).
      apply texec_do_inv in Hop as (x & t & -> & Hop). apply texec_ret_inv in Hop as [-> <-].
      do 5 eexists. apply in_or_app. right. by left.
  - intros Hc. split; [by apply requested_stream|]. intros input tc token Ha He. apply approvals_wanted; [congruence|done].
Qed.
End RsCaller.
