(* ===== verification/TemporalFingerprint.v ===== *)
(** The digest of an agent that callers and workers of the Temporal runtime compare
    ([internal/runtime/temporal/fingerprint.go]): the payload, its JSON and its SHA-256. *)
From S2P Require Import Prelude GoLib Types Codec Prog Policies MemoryConfig Budget CircuitBreaker Telemetry Events Effects.

#[local] Open Scope string_scope.
#[local] Open Scope list_scope.
#[local] Open Scope Z_scope.

Definition agentFingerprintVersion : Z := 1.
Definition AgentModeInteractive : string := "interactive".
Definition AgentModeAutonomous : string := "autonomous".

(** [AgentFingerprintPayload]; the version is set when the digest is computed. *)
Record AgentFingerprintPayload := {
  fp_Name : string; fp_Description : string; fp_SystemPrompt : string;
  fp_ResponseFormat : option ResponseFormat;
  fp_ToolNames : list string;
  fp_PolicyFingerprint : string; fp_MCPFingerprint : string; fp_A2AFingerprint : string;
  fp_ObservabilityFingerprint : string; fp_AgentMode : string; fp_AgentToolExecutionMode : string;
  fp_RetrieverFingerprint : string; fp_HooksFingerprint : string; fp_NamedLLMFingerprint : string;
  fp_ErrorControlFingerprint : string;
  fp_Sampling : option LLMSampling;
  fp_SessionSize : Z; fp_MaxIterations : Z; fp_TimeoutNs : Z; fp_ApprovalTimeoutNs : Z;
  fp_BudgetMaxTokens : Z; fp_BudgetMaxCostUSD : f64; fp_BudgetOnExceeded : string;
  fp_BudgetApprovalExtraTokens : Z; fp_BudgetApprovalExtraCostUSD : f64 }.

(** ** JSON of structs: fields in declaration order, some left out when they are zero *)

Definition json_struct (fields : list (option (string * option string))) : option string :=
  fs ← mapM (fun kv => s ← kv.2; Some (Json.json_string kv.1 +:+ ":" +:+ s)) (omap id fields);
  Some ("{" +:+ Join "," fs +:+ "}").

Definition field (name : string) (v : option string) : option (string * option string) := Some (name, v).
Definition omit_when (zero : bool) (name : string) (v : option string) : option (string * option string) :=
  if zero then None else Some (name, v).

Definition json_str (s : string) : option string := Some (Json.json_string s).
Definition json_int (z : Z) : option string := Some (Itoa z).
Definition json_bool (b : bool) : option string := Some (if b then "true" else "false").
Definition json_ptr {A} (f : A -> option string) (o : option A) : option string :=
  match o with None => Some "null" | Some a => f a end.
Definition str_field (name s : string) := omit_when (String.eqb s "") name (json_str s).
Definition int_field (name : string) (z : Z) := omit_when (z =? 0) name (json_int z).
Definition float_field (name : string) (x : f64) := omit_when (f64_eqb x f64_zero) name (Json.json_num x).

Definition json_reasoning (r : LLMReasoning) : option string :=
  json_struct [field "Enabled" (json_bool (r_Enabled r)); field "Effort" (json_str (r_Effort r));
               field "BudgetTokens" (json_int (r_BudgetTokens r))].

Definition json_sampling (s : LLMSampling) : option string :=
  json_struct [field "Temperature" (json_ptr Json.json_num (s_Temperature s)); field "MaxTokens" (json_int (s_MaxTokens s));
               field "TopP" (json_ptr Json.json_num (s_TopP s)); field "TopK" (json_ptr json_int (s_TopK s));
               field "Reasoning" (json_ptr json_reasoning (s_Reasoning s))].

Definition empty_schema (v : value) : bool :=
  match v with VNull => true | VObj [] => true | _ => false end.

Definition json_response_format (r : ResponseFormat) : option string :=
  json_struct [field "type" (json_str (rf_Type r)); str_field "name" (rf_Name r);
               omit_when (empty_schema (rf_Schema r)) "schema" (Json.marshal (rf_Schema r))].

Definition json_names (l : list string) : option string := Some ("[" +:+ Join "," (map Json.json_string l) +:+ "]").

(** [tool_names] is a nil slice, [null], when there are none. *)
Definition json_tool_names (l : list string) : option string :=
  match l with [] => Some "null" | _ => json_names l end.

Definition is_none {A} (o : option A) : bool := match o with None => true | Some _ => false end.

Definition json_payload (m : AgentFingerprintPayload) : option string :=
  json_struct
    [field "v" (json_int agentFingerprintVersion);
     field "name" (json_str (fp_Name m)); field "description" (json_str (fp_Description m));
     field "system_prompt" (json_str (fp_SystemPrompt m));
     omit_when (is_none (fp_ResponseFormat m)) "response_format" (json_ptr json_response_format (fp_ResponseFormat m));
     field "tool_names" (json_tool_names (fp_ToolNames m));
     field "policy_fp" (json_str (fp_PolicyFingerprint m));
     str_field "mcp_fingerprint" (fp_MCPFingerprint m); str_field "a2a_fingerprint" (fp_A2AFingerprint m);
     str_field "observability_fingerprint" (fp_ObservabilityFingerprint m);
     field "agent_mode" (json_str (fp_AgentMode m));
     field "agent_tool_execution_mode" (json_str (fp_AgentToolExecutionMode m));
     str_field "retriever_fingerprint" (fp_RetrieverFingerprint m); str_field "hooks_fingerprint" (fp_HooksFingerprint m);
     str_field "named_llm_fingerprint" (fp_NamedLLMFingerprint m);
     str_field "error_control_fingerprint" (fp_ErrorControlFingerprint m);
     omit_when (is_none (fp_Sampling m)) "sampling" (json_ptr json_sampling (fp_Sampling m));
     field "session_size" (json_int (fp_SessionSize m)); field "max_iterations" (json_int (fp_MaxIterations m));
     field "timeout_ns" (json_int (fp_TimeoutNs m)); field "approval_timeout_ns" (json_int (fp_ApprovalTimeoutNs m));
     int_field "budget_max_tokens" (fp_BudgetMaxTokens m); float_field "budget_max_cost_usd" (fp_BudgetMaxCostUSD m);
     str_field "budget_on_exceeded" (fp_BudgetOnExceeded m);
     int_field "budget_approval_extra_tokens" (fp_BudgetApprovalExtraTokens m);
     float_field "budget_approval_extra_cost_usd" (fp_BudgetApprovalExtraCostUSD m)].

Definition with_tool_names (m : AgentFingerprintPayload) (l : list string) : AgentFingerprintPayload :=
  {| fp_Name := fp_Name m; fp_Description := fp_Description m; fp_SystemPrompt := fp_SystemPrompt m;
     fp_ResponseFormat := fp_ResponseFormat m; fp_ToolNames := l;
     fp_PolicyFingerprint := fp_PolicyFingerprint m; fp_MCPFingerprint := fp_MCPFingerprint m;
     fp_A2AFingerprint := fp_A2AFingerprint m; fp_ObservabilityFingerprint := fp_ObservabilityFingerprint m;
     fp_AgentMode := fp_AgentMode m; fp_AgentToolExecutionMode := fp_AgentToolExecutionMode m;
     fp_RetrieverFingerprint := fp_RetrieverFingerprint m; fp_HooksFingerprint := fp_HooksFingerprint m;
     fp_NamedLLMFingerprint := fp_NamedLLMFingerprint m; fp_ErrorControlFingerprint := fp_ErrorControlFingerprint m;
     fp_Sampling := fp_Sampling m; fp_SessionSize := fp_SessionSize m; fp_MaxIterations := fp_MaxIterations m;
     fp_TimeoutNs := fp_TimeoutNs m; fp_ApprovalTimeoutNs := fp_ApprovalTimeoutNs m;
     fp_BudgetMaxTokens := fp_BudgetMaxTokens m; fp_BudgetMaxCostUSD := fp_BudgetMaxCostUSD m;
     fp_BudgetOnExceeded := fp_BudgetOnExceeded m; fp_BudgetApprovalExtraTokens := fp_BudgetApprovalExtraTokens m;
     fp_BudgetApprovalExtraCostUSD := fp_BudgetApprovalExtraCostUSD m |}.

(** Empty when the payload has no JSON. *)
Definition ComputeAgentFingerprint (m : AgentFingerprintPayload) : string :=
  match json_payload (with_tool_names m (sort_Strings (fp_ToolNames m))) with
  | None => ""
  | Some b => Sha256.hex b
  end.

Definition cloneLLMSampling (s : option LLMSampling) : option LLMSampling := s.

(** The digests of the parts of the configuration that [pkg/agent] computes. *)
Record FingerprintInputs := {
  fi_policy : string; fi_mcp : string; fi_a2a : string; fi_observability : string; fi_agentMode : string;
  fi_retriever : string; fi_hooks : string; fi_namedLLM : string; fi_errorControl : string }.

Definition BuildAgentFingerprintPayload (spec : AgentSpec) (toolNames : list string) (c : AgentConfig)
    (toolExecutionMode : string) (f : FingerprintInputs) : AgentFingerprintPayload :=
  {| fp_Name := as_Name spec; fp_Description := as_Description spec; fp_SystemPrompt := as_SystemPrompt spec;
     fp_ResponseFormat := as_ResponseFormat spec; fp_ToolNames := sort_Strings toolNames;
     fp_PolicyFingerprint := fi_policy f; fp_MCPFingerprint := fi_mcp f; fp_A2AFingerprint := fi_a2a f;
     fp_ObservabilityFingerprint := fi_observability f;
     fp_AgentMode := if String.eqb (fi_agentMode f) "" then AgentModeInteractive else fi_agentMode f;
     fp_AgentToolExecutionMode := if String.eqb toolExecutionMode "" then AgentToolExecutionModeParallel else toolExecutionMode;
     fp_RetrieverFingerprint := fi_retriever f; fp_HooksFingerprint := fi_hooks f;
     fp_NamedLLMFingerprint := fi_namedLLM f; fp_ErrorControlFingerprint := fi_errorControl f;
     fp_Sampling := cloneLLMSampling (ac_Sampling c); fp_SessionSize := ac_ConversationSize c;
     fp_MaxIterations := ac_MaxIterations c; fp_TimeoutNs := ac_Timeout c; fp_ApprovalTimeoutNs := ac_ApprovalTimeout c;
     fp_BudgetMaxTokens := match ac_Budget c with Some b => cfg_MaxTokens b | None => 0 end;
     fp_BudgetMaxCostUSD := match ac_Budget c with Some b => cfg_MaxCostUSD b | None => f64_zero end;
     fp_BudgetOnExceeded := match ac_Budget c with Some b => cfg_OnExceeded b | None => "" end;
     fp_BudgetApprovalExtraTokens := match ac_Budget c with Some b => cfg_ApprovalExtraTokens b | None => 0 end;
     fp_BudgetApprovalExtraCostUSD := match ac_Budget c with Some b => cfg_ApprovalExtraCostUSD b | None => f64_zero end |}.

Definition ToolNamesFromTools (tools : list Tool) : list string := sort_Strings (map t_Name tools).

Definition computeAgentFingerprintFromRuntime (rt : Runtime) (f : FingerprintInputs) (tools : list Tool) : string :=
  ComputeAgentFingerprint
    (BuildAgentFingerprintPayload (rt_AgentSpec rt) (ToolNamesFromTools tools) (rt_AgentConfig rt) (rt_ToolExecutionMode rt) f).

(** ** Theorems *)

(** The digest does not depend on the order in which tools are resolved. *)
Lemma fingerprint_tool_order rt f tools tools' :
  map t_Name tools ≡ₚ map t_Name tools' ->
  computeAgentFingerprintFromRuntime rt f tools = computeAgentFingerprintFromRuntime rt f tools'.
Proof.
  intros H. unfold computeAgentFingerprintFromRuntime, ToolNamesFromTools.
  by rewrite (proj2 (sort_Strings_eq (map t_Name tools) (map t_Name tools')) H).
Qed.

(** Two runtimes whose agents differ in nothing the payload has. *)
Definition same_digest_inputs (rt rt' : Runtime) : Prop :=
  rt_AgentSpec rt = rt_AgentSpec rt' /\ rt_ToolExecutionMode rt = rt_ToolExecutionMode rt' /\
  let c := rt_AgentConfig rt in let c' := rt_AgentConfig rt' in
  ac_Sampling c = ac_Sampling c' /\ ac_ConversationSize c = ac_ConversationSize c' /\
  ac_MaxIterations c = ac_MaxIterations c' /\ ac_Timeout c = ac_Timeout c' /\ ac_ApprovalTimeout c = ac_ApprovalTimeout c' /\
  match ac_Budget c, ac_Budget c' with
  | Some b, Some b' =>
      cfg_MaxTokens b = cfg_MaxTokens b' /\ cfg_MaxCostUSD b = cfg_MaxCostUSD b' /\ cfg_OnExceeded b = cfg_OnExceeded b' /\
      cfg_ApprovalExtraTokens b = cfg_ApprovalExtraTokens b' /\ cfg_ApprovalExtraCostUSD b = cfg_ApprovalExtraCostUSD b'
  | None, None => True
  | _, _ => False
  end.

(** The prices and [MaxApprovals] of a budget, the memory, the conversation store, the execution
    policies and the fallback clients themselves are not compared. *)
Lemma fingerprint_blind rt rt' f tools :
  same_digest_inputs rt rt' ->
  computeAgentFingerprintFromRuntime rt f tools = computeAgentFingerprintFromRuntime rt' f tools.
Proof.
  intros (H1 & H2 & H3 & H4 & H5 & H6 & H7 & Hb).
  unfold computeAgentFingerprintFromRuntime, BuildAgentFingerprintPayload. rewrite H1, H2, H3, H4, H5, H6, H7.
  destruct (ac_Budget (rt_AgentConfig rt)), (ac_Budget (rt_AgentConfig rt')); try done.
  destruct Hb as (-> & -> & -> & -> & ->). reflexivity.
Qed.

Lemma digest_empty_iff m :
  ComputeAgentFingerprint m = "" <-> json_payload (with_tool_names m (sort_Strings (fp_ToolNames m))) = None.
Proof.
  unfold ComputeAgentFingerprint. destruct (json_payload _) as [b|]; [|done]. split; [|done].
  intros H. pose proof (Sha256.length_hex b) as Hl. by rewrite H in Hl.
Qed.

(** A sampling temperature that is not a number has no JSON, and the digest is empty. *)
Example unmarshalable_digest :
  ComputeAgentFingerprint
    (BuildAgentFingerprintPayload {| as_Name := "a"; as_Description := ""; as_SystemPrompt := ""; as_ResponseFormat := None |} []
       {| ac_LLMClient := {| l_Model := ""; l_Provider := ""; l_IsStreamSupported := false |};
          ac_Sampling := Some {| s_Temperature := Some SpecFloat.S754_nan; s_MaxTokens := 0; s_TopP := None; s_TopK := None; s_Reasoning := None |};
          ac_ToolApprovalPolicy := None; ac_Retrievers := []; ac_RetrieverMode := ""; ac_Conversation := false;
          ac_ConversationSize := 0; ac_ConversationSaveOnIteration := false; ac_Memory := None; ac_MaxIterations := 5;
          ac_Timeout := 0; ac_ApprovalTimeout := 0; ac_Budget := None;
          ac_ExecutionConfigs := let c := {| ex_Timeout := 0; ex_MaxAttempts := 0 |} in
            {| po_LLM := c; po_ToolAuth := c; po_ToolExecute := c; po_MCP := c; po_A2A := c; po_Retriever := c;
               po_Memory := c; po_Conversation := c; po_SubAgent := c |};
          ac_Hooks := []; ac_NamedLLMClients := ∅; ac_ErrorControl := None |} ""
       {| fi_policy := ""; fi_mcp := ""; fi_a2a := ""; fi_observability := ""; fi_agentMode := ""; fi_retriever := "";
          fi_hooks := ""; fi_namedLLM := ""; fi_errorControl := "" |}) = "".
Proof. vm_compute. reflexivity. Qed.
