(* ===== verification/TemporalDefs.v ===== *)
(** The Temporal workflow of an agent ([internal/runtime/temporal/agent_workflow.go]): its
    inputs and results, the variable every model answer is decoded into, and the effects of
    the workflow code.

    Workflow code is deterministic: what it asks of the outside is an activity, a child
    workflow, a side effect, the workflow clock, its own event stream, or the history counters
    that decide when to continue as new.  These are effects, answered freely.  The two objects
    the coroutines of one workflow share, the map of pending approvals and the circuit breaker,
    are effects answered as [wf_heap_step] defines.  Payloads cross the Temporal server as JSON;
    their encoding is taken to lose nothing except where decoding merges into a variable that
    already holds a value ([decode_result]). *)
From S2P Require Import Prelude GoLib Types Prog Policies Budget CircuitBreaker Telemetry Events Effects AgentLoop.

#[local] Open Scope string_scope.
#[local] Open Scope list_scope.
#[local] Open Scope Z_scope.

Definition agentLongActivityHeartbeatTimeout : Duration := 30 * second.
Definition agentToolApprovalActivityMaxAttempts : Z := 1.
Definition agentWorkflowCleanupActivityTaskTimeout : Duration := 30 * second.
Definition agentWorkflowCleanupActivityMaxAttempts : Z := 3.
Definition publishStreamEventActivityTaskTimeout : Duration := 15 * second.
Definition agentWorkflowHistoryLength : Z := 10000.
Definition agentWorkflowHistorySizeBytes : Z := 20000000.

Definition msgToolRejected : string := "Tool execution was rejected by the user.".
Definition msgToolApprovalUnavailable : string :=
  "Tool approval could not be completed because the event stream is unavailable; continuing without running the tool.".
Definition msgToolApprovalTimedOut : string := "Tool approval timed out; continuing without running the tool.".
Definition msgToolUnauthorized : string := "Tool execution was denied by authorization policy.".

(** ** Inputs *)

(** [SubAgentRoute]; the map of child routes is an association list with distinct keys. *)
Inductive SubAgentRoute :=
| Route (name taskQueue : string) (children : list (string * SubAgentRoute)) (fingerprint : string).

Definition rt_Name (r : SubAgentRoute) : string := let '(Route n _ _ _) := r in n.
Definition rt_TaskQueue (r : SubAgentRoute) : string := let '(Route _ q _ _) := r in q.
Definition rt_ChildRoutes (r : SubAgentRoute) : list (string * SubAgentRoute) := let '(Route _ _ c _) := r in c.
Definition rt_AgentFingerprint (r : SubAgentRoute) : string := let '(Route _ _ _ f) := r in f.

Fixpoint find_route (m : list (string * SubAgentRoute)) (k : string) : option SubAgentRoute :=
  match m with
  | [] => None
  | (k', r) :: m => if String.eqb k' k then Some r else find_route m k
  end.

(** [AgentWorkflowState]: what a run hands to its continuation. *)
Record AgentWorkflowState := {
  st_Iteration : Z;
  st_Messages : list Message;
  st_LLMUsage : option LLMUsage;
  st_Telemetry : option AgentTelemetry;
  st_BudgetTokens : Z; st_BudgetCostUSD : f64;
  st_BudgetWatermarkTokens : Z; st_BudgetWatermarkCostUSD : f64;
  st_UseFallbackLLM : bool;
  st_IterationsExtended : bool;
  st_ExtraIterations : Z;
  st_CircuitBreaker : option (gmap string ToolState) }.

(** [AgentWorkflowInput]; the stream state is the JSON value the stream library exports. *)
Record AgentWorkflowInput := {
  wi_UserPrompt : string;
  wi_RootWorkflowID : string;
  wi_StreamState : option value;
  wi_StreamingEnabled : bool;
  wi_ConversationID : string;
  wi_AgentFingerprint : string;
  wi_RunID : string;
  wi_MemoryScope : MemoryScope;
  wi_EventTypes : list string;
  wi_SubAgentDepth : Z;
  wi_SubAgentRoutes : list (string * SubAgentRoute);
  wi_MaxSubAgentDepth : Z;
  wi_State : option AgentWorkflowState }.

(** [input.State = s; input.StreamState = stream] *)
Definition with_state (i : AgentWorkflowInput) (stream : option value) (s : option AgentWorkflowState)
    : AgentWorkflowInput :=
  {| wi_UserPrompt := wi_UserPrompt i; wi_RootWorkflowID := wi_RootWorkflowID i; wi_StreamState := stream;
     wi_StreamingEnabled := wi_StreamingEnabled i; wi_ConversationID := wi_ConversationID i;
     wi_AgentFingerprint := wi_AgentFingerprint i; wi_RunID := wi_RunID i;
     wi_MemoryScope := wi_MemoryScope i; wi_EventTypes := wi_EventTypes i;
     wi_SubAgentDepth := wi_SubAgentDepth i; wi_SubAgentRoutes := wi_SubAgentRoutes i;
     wi_MaxSubAgentDepth := wi_MaxSubAgentDepth i; wi_State := s |}.

Record AgentRetrieverInput := { ari_AgentFingerprint : string; ari_RunID : string; ari_UserPrompt : string }.
Record AgentMemoryRecallInput := {
  ami_AgentFingerprint : string; ami_RunID : string; ami_UserPrompt : string; ami_MemoryScope : MemoryScope }.
Record AgentMemoryStoreInput := {
  ams_AgentFingerprint : string; ams_RunID : string; ams_MemoryScope : MemoryScope; ams_Messages : list Message }.
Record AgentLLMInput := {
  ali_AgentName : string; ali_ConversationID : string; ali_Messages : list Message; ali_SkipTools : bool;
  ali_AgentFingerprint : string; ali_MessageID : string; ali_StreamWorkflowID : string;
  ali_MemoryContext : string; ali_RetrieverContext : string; ali_RunID : string; ali_Iteration : Z;
  ali_UseFallback : bool }.
Record AgentToolExecuteInput := {
  ate_ToolName : string; ate_Args : Args; ate_ConversationID : string; ate_ToolCallID : string;
  ate_RunID : string; ate_Iteration : Z; ate_AgentFingerprint : string; ate_MemoryScope : MemoryScope }.
Record AgentToolApprovalInput := {
  ata_AgentName : string; ata_ToolCallID : string; ata_ToolName : string; ata_ToolDisplayName : string;
  ata_Args : Args; ata_StreamWorkflowID : string; ata_SubAgentName : string; ata_AgentFingerprint : string }.
Record AgentToolAuthorizeInput := {
  atz_ToolName : string; atz_Args : Args; atz_ToolCallID : string; atz_AgentFingerprint : string }.
Record AddConversationMessagesInput := {
  acm_ConversationID : string; acm_Messages : list Message; acm_AgentFingerprint : string }.
Record AgentMaxIterationsDecisionInput := {
  amd_IterationCount : Z; amd_MaxIterations : Z; amd_LastAction : string; amd_AlreadyExtended : bool }.
Record AgentBudgetApprovalInput := {
  aba_AgentName : string; aba_Detail : string; aba_TotalTokens : Z; aba_TotalCostUSD : f64;
  aba_StreamWorkflowID : string; aba_AgentFingerprint : string }.
Record PublishStreamEventInput := { pse_StreamWorkflowID : string; pse_Event : EventBody }.
Record AgentWorkflowCleanupInput := { awc_ApprovalActivityIDs : list string }.

(** ** The answer of a model activity *)

(** [ToolCallRequest] and [AgentLLMResult] as the activity returned them; a nil argument map,
    which JSON writes as [null], is told from an empty one. *)
Record TemporalToolCall := {
  wt_ToolCallID : string; wt_ToolName : string; wt_ToolDisplayName : string; wt_ToolKind : string;
  wt_Args : option Args; wt_NeedsApproval : bool; wt_Unknown : bool }.

Record AgentLLMResult := {
  wl_Content : string; wl_ToolCalls : list TemporalToolCall; wl_Usage : option LLMUsage;
  wl_RetryCount : Z; wl_UsedFallback : bool }.

(** *** The variable [llmResult]

    It is declared once, before the loop, and every answer is decoded into it.  Decoding JSON
    into a variable keeps what the JSON leaves out: a field tagged [omitempty] that is absent, the
    entries of a map that already exists, the fields of the element a slice already has at an
    index, up to the slice's capacity.  A slot is such an element; its argument map is a reference,
    since the assistant message of a round shares it. *)
Record slot := {
  sl_ToolCallID : string; sl_ToolName : string; sl_ToolDisplayName : string; sl_ToolKind : string;
  sl_Args : option nat; sl_NeedsApproval : bool; sl_Unknown : bool }.

Definition zero_slot : slot :=
  {| sl_ToolCallID := ""; sl_ToolName := ""; sl_ToolDisplayName := ""; sl_ToolKind := "";
     sl_Args := None; sl_NeedsApproval := false; sl_Unknown := false |}.

(** The argument maps allocated so far. *)
Abbreviation arg_store := (list Args).

Definition deref (s : arg_store) (r : option nat) : Args :=
  match r with None => ∅ | Some l => default ∅ (s !! l) end.

Record llm_var := {
  lv_Content : string;
  lv_slots : list slot;        (* the backing array *)
  lv_len : nat;                (* the length of the slice *)
  lv_Usage : option LLMUsage; lv_RetryCount : Z; lv_UsedFallback : bool }.

Definition zero_llm : llm_var :=
  {| lv_Content := ""; lv_slots := []; lv_len := 0; lv_Usage := None; lv_RetryCount := 0; lv_UsedFallback := false |}.

(** A field tagged [omitempty]: absent when it is the zero value. *)
Definition keep_string (old new : string) : string := if String.eqb new "" then old else new.
Definition keep_Z (old new : Z) : Z := if new =? 0 then old else new.

Definition decode_args (s : arg_store) (old : option nat) (new : option Args) : arg_store * option nat :=
  match new, old with
  | None, _ => (s, None)
  | Some a, Some l => (alter (fun m => a ∪ m) l s, Some l)
  | Some a, None => (s ++ [a], Some (length s))
  end.

Definition decode_call (s : arg_store) (old : slot) (w : TemporalToolCall) : arg_store * slot :=
  let '(s, r) := decode_args s (sl_Args old) (wt_Args w) in
  (s, {| sl_ToolCallID := wt_ToolCallID w; sl_ToolName := wt_ToolName w;
         sl_ToolDisplayName := keep_string (sl_ToolDisplayName old) (wt_ToolDisplayName w);
         sl_ToolKind := wt_ToolKind w; sl_Args := r; sl_NeedsApproval := wt_NeedsApproval w;
         sl_Unknown := sl_Unknown old || wt_Unknown w |}).

Fixpoint decode_calls (s : arg_store) (old : list slot) (ws : list TemporalToolCall) : arg_store * list slot :=
  match ws with
  | [] => (s, old)
  | w :: ws =>
      let '(s, x) := decode_call s (default zero_slot (head old)) w in
      let '(s, xs) := decode_calls s (tail old) ws in
      (s, x :: xs)
  end.

Definition decode_usage (old new : option LLMUsage) : option LLMUsage :=
  match new, old with
  | None, _ => old
  | Some u, None => Some u
  | Some u, Some v => Some
      {| u_PromptTokens := keep_Z (u_PromptTokens v) (u_PromptTokens u);
         u_CompletionTokens := keep_Z (u_CompletionTokens v) (u_CompletionTokens u);
         u_TotalTokens := keep_Z (u_TotalTokens v) (u_TotalTokens u);
         u_CachedPromptTokens := keep_Z (u_CachedPromptTokens v) (u_CachedPromptTokens u);
         u_ReasoningTokens := keep_Z (u_ReasoningTokens v) (u_ReasoningTokens u) |}
  end.

(** [Get(&llmResult)]; a slice without elements was built by no [append] and is [null]. *)
Definition decode_result (s : arg_store) (old : llm_var) (w : AgentLLMResult) : arg_store * llm_var :=
  let '(s, slots) := match wl_ToolCalls w with
                     | [] => (s, [])
                     | ws => decode_calls s (lv_slots old) ws
                     end in
  (s, {| lv_Content := wl_Content w; lv_slots := slots; lv_len := length (wl_ToolCalls w);
         lv_Usage := decode_usage (lv_Usage old) (wl_Usage w);
         lv_RetryCount := keep_Z (lv_RetryCount old) (wl_RetryCount w);
         lv_UsedFallback := lv_UsedFallback old || wl_UsedFallback w |}).

(** The calls of the slice, their argument maps read. *)
Definition read_call (s : arg_store) (x : slot) : ToolCallRequest :=
  {| tc_ToolCallID := sl_ToolCallID x; tc_ToolName := sl_ToolName x; tc_ToolDisplayName := sl_ToolDisplayName x;
     tc_ToolKind := sl_ToolKind x; tc_Args := deref s (sl_Args x); tc_NeedsApproval := sl_NeedsApproval x;
     tc_Unknown := sl_Unknown x |}.

Definition current_slots (v : llm_var) : list slot := take (lv_len v) (lv_slots v).

(** What the answer says, decoded into a fresh variable. *)
Definition fresh_call (w : TemporalToolCall) : ToolCallRequest :=
  {| tc_ToolCallID := wt_ToolCallID w; tc_ToolName := wt_ToolName w; tc_ToolDisplayName := wt_ToolDisplayName w;
     tc_ToolKind := wt_ToolKind w; tc_Args := default ∅ (wt_Args w); tc_NeedsApproval := wt_NeedsApproval w;
     tc_Unknown := wt_Unknown w |}.

(** ** Messages of the workflow *)

(** A message of the conversation, or the assistant message of a round, whose calls refer to the
    argument maps of [llmResult]. *)
Inductive wf_message :=
| Plain (m : Message)
| Called (content : string) (calls : list (string * string * option nat)).

Definition called_message (content : string) (slots : list slot) : wf_message :=
  Called content (map (fun x => (sl_ToolCallID x, sl_ToolName x, sl_Args x)) slots).

(** What a reader of the message finds now. *)
Definition read_message (s : arg_store) (m : wf_message) : Message :=
  match m with
  | Plain m => m
  | Called content calls =>
      {| m_Role := MessageRoleAssistant; m_Content := content; m_ToolName := ""; m_ToolCallID := "";
         m_ToolCalls := map (fun c => Some {| c_ToolCallID := c.1.1; c_ToolName := c.1.2; c_Args := deref s c.2 |}) calls;
         m_Metadata := ∅; m_CreatedAt := 0 |}
  end.

(** ** Errors and results *)

(** The error of an activity or child workflow, with the answers of [temporal.IsCanceledError]
    and [temporal.IsTimeoutError]. *)
Record act_error := { xe_err : error; xe_canceled : bool; xe_timeout : bool }.

Definition plain_error (e : error) : act_error := {| xe_err := e; xe_canceled := false; xe_timeout := false |}.

(** A result with such an error. *)
Definition fallible (A : Type) : Type := sum act_error A.

(** ** Activity options *)

Record ActivityOptions := {
  ao_ActivityID : string; ao_StartToCloseTimeout : Duration; ao_HeartbeatTimeout : Duration;
  ao_Retry : RetryPolicy; ao_MaximumAttempts : Z }.

(** [int32(n)] *)
Definition wrap32 (z : Z) : Z := (z + 2 ^ 31) mod 2 ^ 32 - 2 ^ 31.

Definition execActivityOptions (policy : ExecutionPolicy) (activityID : string) (withHeartbeat : bool)
    : ActivityOptions :=
  let attempts := wrap32 (ep_MaxAttempts policy) in
  let attempts := if attempts <? 1 then 1 else attempts in
  {| ao_ActivityID := activityID; ao_StartToCloseTimeout := ep_Timeout policy;
     ao_HeartbeatTimeout := if withHeartbeat then agentLongActivityHeartbeatTimeout else 0;
     ao_Retry := ep_Retry policy; ao_MaximumAttempts := attempts |}.

(** [retryPolicy]: its backoff and number of attempts. *)
Definition retryPolicy (maxAttempts : Z) : RetryPolicy * Z :=
  let maxAttempts := if maxAttempts <? 1 then 1 else maxAttempts in
  (DefaultRetryPolicy, maxAttempts).

(** [workflow.ActivityOptions] with a [retryPolicy]. *)
Definition activity_options (id : string) (timeout : Duration) (attempts : Z) : ActivityOptions :=
  let '(r, n) := retryPolicy attempts in
  {| ao_ActivityID := id; ao_StartToCloseTimeout := timeout; ao_HeartbeatTimeout := 0;
     ao_Retry := r; ao_MaximumAttempts := n |}.

(** ** Effects *)

Inductive activity :=
| AgentLLMActivity (i : AgentLLMInput)
| AgentLLMStreamActivity (i : AgentLLMInput)
| AgentToolAuthorizeActivity (i : AgentToolAuthorizeInput)
| AgentToolApprovalActivity (i : AgentToolApprovalInput)
| AgentToolExecuteActivity (i : AgentToolExecuteInput)
| AgentRetrieverActivity (i : AgentRetrieverInput)
| AgentMemoryRecallActivity (i : AgentMemoryRecallInput)
| AgentMemoryStoreActivity (i : AgentMemoryStoreInput)
| AddConversationMessagesActivity (i : AddConversationMessagesInput)
| AgentMaxIterationsDecisionActivity (i : AgentMaxIterationsDecisionInput)
| AgentBudgetApprovalActivity (i : AgentBudgetApprovalInput)
| PublishStreamEventActivity (i : PublishStreamEventInput)
| AgentWorkflowCleanupActivity (i : AgentWorkflowCleanupInput).

Definition activity_result (a : activity) : Type :=
  match a with
  | AgentLLMActivity _ | AgentLLMStreamActivity _ => AgentLLMResult
  | AgentToolAuthorizeActivity _ => AuthorizeResult
  | AgentToolApprovalActivity _ | AgentBudgetApprovalActivity _ => string
  | AgentToolExecuteActivity _ => string
  | AgentRetrieverActivity _ => RetrieverResult
  | AgentMemoryRecallActivity _ => MemoryResult
  | AgentMaxIterationsDecisionActivity _ => ErrorControlDecision
  | _ => unit
  end.

Inductive WfOp :=
| WSched
| WOutOfFuel
| WNow
| WUUID                                       (* [uuid.New()] in workflow code *)
| WSideEffectUUID
| WNewStream (state : option value)
| WSetQueryHandler
| WPublish (e : EventBody)                    (* append to the root's own stream *)
| WActivity (o : ActivityOptions) (a : activity)
| WChildWorkflow (id taskQueue : string) (timeout : Duration) (i : AgentWorkflowInput)
| WHistory                                    (* length and size of the history *)
| WDetachPollers
| WAwaitHandlers
| WStreamState
(* the map of pending approvals *)
| WPendingSet (toolCallID activityID : string)
| WPendingDelete (toolCallID : string)
| WPendingList
(* the circuit breaker *)
| WBreakerInit (c : option CircuitBreaker)
| WBreakerIsTripped (name : string) (now : Time)
| WBreakerRecordFailure (name : string) (args : Args) (now : Time)
| WBreakerRecordSuccess (name : string)
| WBreakerState.

Definition WfAns (o : WfOp) : Type :=
  match o with
  | WSched => bool
  | WNow => Time
  | WUUID => string
  | WSideEffectUUID => result string
  | WNewStream _ | WSetQueryHandler => option error
  | WPublish _ => option act_error
  | WActivity _ a => fallible (activity_result a)
  | WChildWorkflow _ _ _ _ => sum error (option AgentRunResult)
  | WHistory => Z * Z
  | WAwaitHandlers => option error
  | WStreamState => result value
  | WPendingList => list (string * string)
  | WBreakerIsTripped _ _ => bool
  | WBreakerState => option (gmap string ToolState)
  | _ => unit
  end.

#[export] Instance wf_sig : Sig := {| op := WfOp; ans := WfAns; sched := WSched; sched_ans := id |}.

Definition wcall (o : WfOp) : prog (WfAns o) := perform (S := wf_sig) o.

(** [workflow.ExecuteActivity(ctx, a, ...).Get(ctx, &result)] *)
Definition execute_activity (o : ActivityOptions) (a : activity) : prog (fallible (activity_result a)) :=
  perform (S := wf_sig) (WActivity o a).

Abbreviation wevent := (event wf_sig).

(** Continue on success, return the error otherwise. *)
Definition bind_fallible {E A B} (m : prog (sum E A)) (f : A -> prog (sum E B)) : prog (sum E B) :=
  r ← m; match r with inl e => mret (inl e) | inr a => f a end.

Notation "x ←! m ; k" := (bind_fallible m (fun x => k))
  (at level 20, m at level 100, k at level 200, only parsing) : stdpp_scope.

(** A call that only fails. *)
Definition check_error (m : prog (option act_error)) : prog (fallible unit) :=
  e ← m; mret (match e with Some e => inl e | None => inr tt end).

(** ** Shared objects *)

Record wf_heap := { wh_pending : gmap string string; wh_breaker : option CircuitBreaker }.

Definition empty_heap : wf_heap := {| wh_pending := ∅; wh_breaker := None |}.

Definition heap_with_pending (h : wf_heap) (m : gmap string string) : wf_heap :=
  {| wh_pending := m; wh_breaker := wh_breaker h |}.
Definition heap_with_breaker (h : wf_heap) (c : option CircuitBreaker) : wf_heap :=
  {| wh_pending := wh_pending h; wh_breaker := c |}.

Definition circuitBreakerStatePtr (cb : option CircuitBreaker) : option (gmap string ToolState) :=
  match cb with None => None | Some c => Some (State (Some c)) end.

(** Iterating over a map yields its entries in some order. *)
Definition wf_heap_step (h : wf_heap) (e : wevent) (h' : wf_heap) : Prop :=
  match e with
  | Ev o r =>
      match o return WfAns o -> Prop with
      | WPendingSet id act => fun _ => h' = heap_with_pending h (<[id := act]> (wh_pending h))
      | WPendingDelete id => fun _ => h' = heap_with_pending h (delete id (wh_pending h))
      | WPendingList => fun l => Permutation l (map_to_list (wh_pending h)) /\ h' = h
      | WBreakerInit c => fun _ => h' = heap_with_breaker h c
      | WBreakerIsTripped name now => fun b =>
          b = (IsTripped (wh_breaker h) name now).1 /\ h' = heap_with_breaker h (IsTripped (wh_breaker h) name now).2
      | WBreakerRecordFailure name args now => fun _ =>
          h' = heap_with_breaker h (RecordFailure (wh_breaker h) name args now).2
      | WBreakerRecordSuccess name => fun _ => h' = heap_with_breaker h (RecordSuccess (wh_breaker h) name)
      | WBreakerState => fun st =>
          st = circuitBreakerStatePtr (wh_breaker h) /\ h' = h
      | _ => fun _ => h' = h
      end r
  end.

Inductive wf_steps : wf_heap -> list wevent -> wf_heap -> Prop :=
| wf_steps_nil h : wf_steps h [] h
| wf_steps_cons h e h1 tr h2 : wf_heap_step h e h1 -> wf_steps h1 tr h2 -> wf_steps h (e :: tr) h2.
