(* ===== verification/TemporalLoop.v ===== *)
(** The workflow code of an agent ([AgentWorkflow] of
    [internal/runtime/temporal/agent_workflow.go]): one tool call, delegation to a child
    workflow, the reaction to a budget breach, the rounds, and continuing as new. *)
From S2P Require Import Prelude GoLib Types Codec Prog Policies MemoryConfig Budget CircuitBreaker Telemetry Events Effects ErrorControl LLM Memory AgentLoop TemporalDefs.

#[local] Open Scope string_scope.
#[local] Open Scope list_scope.
#[local] Open Scope Z_scope.

Section workflow.
(** The runtime of the worker, and the ID of the workflow execution ([workflow.GetInfo]). *)
Context (rt : Runtime) (workflowID : string).

Definition executionPolicies : ExecutionPolicies := ResolveExecutionPolicies (ac_ExecutionConfigs (rt_AgentConfig rt)).

Definition toolExecutionPolicy (kind : string) (policies : ExecutionPolicies) : ExecutionPolicy :=
  if String.eqb kind ToolKindMCP then po_MCP policies
  else if String.eqb kind ToolKindA2A then po_A2A policies
  else po_ToolExecute policies.

Definition subAgentChildWorkflowTimeout : Duration :=
  let timeout := ep_Timeout (po_SubAgent executionPolicies) in
  if (timeout =? 0) && (0 <? ac_Timeout (rt_AgentConfig rt)) then ac_Timeout (rt_AgentConfig rt) else timeout.

Definition conversationMemoryEnabled (conversationID : string) : bool :=
  negb (String.eqb conversationID "") && ac_Conversation (rt_AgentConfig rt).

Definition hasMaxIterationsHook : bool :=
  match ac_ErrorControl (rt_AgentConfig rt) with Some ec => ec_OnMaxIterationsExceeded ec | None => false end.

Section run.
Context (input : AgentWorkflowInput) (activityIDSuffix : string).

Definition isRoot : bool := String.eqb (wi_RootWorkflowID input) "".

Definition streamWorkflowID : string := if isRoot then workflowID else wi_RootWorkflowID input.

(** ** Events *)

Definition publish_options : ActivityOptions := activity_options "" publishStreamEventActivityTaskTimeout 1.

Definition emitAgentEvent (e : EventBody) : prog (option act_error) :=
  if event_allowed (wi_EventTypes input) e then
    if isRoot then wcall (WPublish e)
    else
      r ← execute_activity publish_options
            (PublishStreamEventActivity {| pse_StreamWorkflowID := streamWorkflowID; pse_Event := e |});
      mret (match r with inl err => Some err | inr _ => None end)
  else mret None.

Definition emit_event (e : EventBody) : prog (fallible unit) := check_error (emitAgentEvent e).

(** ** One tool call *)

Section tool.
(** The fields of [agentToolCallInput] that vary. *)
Context (messageID : string) (iteration : Z) (parallelSlot : string) (circuitBreaker : bool) (circuitNow : Time).

Definition approvalTaskTimeout_ : Duration :=
  let t := ac_ApprovalTimeout (rt_AgentConfig rt) in
  let t := if t =? 0 then MaxApprovalTimeout else t in
  if MaxApprovalTimeout <? t then MaxApprovalTimeout else t.

Definition activityScope : string :=
  if String.eqb parallelSlot "" then activityIDSuffix else activityIDSuffix +:+ "_" +:+ parallelSlot.

Definition authorizeActivityID : string := "AgentToolAuthorizeActivity_" +:+ activityScope.
Definition approvalActivityID : string := "AgentToolApprovalActivity_" +:+ activityScope.
Definition executeActivityID : string := "AgentToolExecuteActivity_" +:+ activityScope.

Definition authorize_options : ActivityOptions :=
  execActivityOptions (po_ToolAuth executionPolicies) authorizeActivityID false.
Definition approval_options : ActivityOptions :=
  activity_options approvalActivityID approvalTaskTimeout_ agentToolApprovalActivityMaxAttempts.
Definition execute_options (kind : string) : ActivityOptions :=
  execActivityOptions (toolExecutionPolicy kind executionPolicies) executeActivityID true.

(** [agentToolCallOutput] *)
Record agentToolCallOutput := { to_msg : Message; to_failed : bool; to_llmUsage : option LLMUsage }.

Definition emitToolEndThenResult (toolCallID content : string) : prog (fallible unit) :=
  _ ←! emit_event (AgentToolCallEndEvent toolCallID);
  emit_event (AgentToolCallResultEvent messageID toolCallID content MessageRoleTool).

(** Report the content as the result of the call. *)
Definition answer_call (tc : ToolCallRequest) (content : string) (failed : bool) (usage : option LLMUsage)
    : prog (fallible agentToolCallOutput) :=
  _ ←! emitToolEndThenResult (tc_ToolCallID tc) content;
  mret (inr {| to_msg := tool_message content (tc_ToolName tc) (tc_ToolCallID tc);
               to_failed := failed; to_llmUsage := usage |}).

Definition emit_start (tc : ToolCallRequest) : prog (fallible unit) :=
  _ ←! emit_event (AgentToolCallStartEvent (tc_ToolCallID tc) (tc_ToolName tc) messageID);
  match Json.marshal_args (tc_Args tc) with
  | Some s =>
      if String.eqb s "" || String.eqb s "null" || String.eqb s "{}" then mret (inr tt)
      else emit_event (AgentToolCallArgsEvent (tc_ToolCallID tc) s)
  | None => mret (inr tt)
  end.

Definition circuit_skips (tc : ToolCallRequest) : prog bool :=
  if circuitBreaker && CountsTowardCircuitBreaker (tc_Unknown tc) (tc_ToolKind tc)
  then wcall (WBreakerIsTripped (tc_ToolName tc) circuitNow)
  else mret false.

Definition authorize_input (tc : ToolCallRequest) : AgentToolAuthorizeInput :=
  {| atz_ToolName := tc_ToolName tc; atz_Args := tc_Args tc; atz_ToolCallID := tc_ToolCallID tc;
     atz_AgentFingerprint := wi_AgentFingerprint input |}.

Definition denied_content (reason : string) : string :=
  if String.eqb (TrimSpace reason) "" then msgToolUnauthorized else msgToolUnauthorized +:+ " Reason: " +:+ reason.

Definition approval_input (tc : ToolCallRequest) : AgentToolApprovalInput :=
  {| ata_AgentName := as_Name (rt_AgentSpec rt); ata_ToolCallID := tc_ToolCallID tc;
     ata_ToolName := tc_ToolName tc; ata_ToolDisplayName := tc_ToolDisplayName tc; ata_Args := tc_Args tc;
     ata_StreamWorkflowID := streamWorkflowID;
     ata_SubAgentName := match find_route (wi_SubAgentRoutes input) (tc_ToolName tc) with
                         | Some route => rt_Name route
                         | None => ""
                         end;
     ata_AgentFingerprint := wi_AgentFingerprint input |}.

(** The status of the approval; a timeout is a status, any other failure an error.  A
    cancelled wait leaves its entry in the map of pending approvals. *)
Definition await_approval (tc : ToolCallRequest) : prog (fallible string) :=
  if negb (tc_NeedsApproval tc) then mret (inr ApprovalStatusApproved) else
  _ ← wcall (WPendingSet (tc_ToolCallID tc) approvalActivityID);
  r ← execute_activity approval_options (AgentToolApprovalActivity (approval_input tc));
  let canceled := match r with inl e => xe_canceled e | inr _ => false end in
  _ ← (if canceled then mret tt else wcall (WPendingDelete (tc_ToolCallID tc)));
  mret (match r with
        | inr status => inr status
        | inl e => if xe_timeout e then inr ApprovalStatusTimedOut else inl e
        end).

(** *** Delegation *)

Definition delegationName (tc : ToolCallRequest) (route : SubAgentRoute) : string :=
  let n := TrimSpace (rt_Name route) in if String.eqb n "" then tc_ToolName tc else n.

Definition childInput (tc : ToolCallRequest) (route : SubAgentRoute) (childSuffix : string) : AgentWorkflowInput :=
  {| wi_UserPrompt := SubAgentQuery (tc_Args tc);
     wi_RootWorkflowID := if String.eqb (wi_RootWorkflowID input) "" then workflowID else wi_RootWorkflowID input;
     wi_StreamState := None; wi_StreamingEnabled := wi_StreamingEnabled input; wi_ConversationID := "";
     wi_AgentFingerprint := rt_AgentFingerprint route; wi_RunID := childSuffix;
     wi_MemoryScope := SubAgentScope (wi_MemoryScope input) (delegationName tc route);
     wi_EventTypes := wi_EventTypes input; wi_SubAgentDepth := wi_SubAgentDepth input + 1;
     wi_SubAgentRoutes := rt_ChildRoutes route; wi_MaxSubAgentDepth := wi_MaxSubAgentDepth input;
     wi_State := None |}.

Definition childWorkflowID (tc : ToolCallRequest) (childSuffix : string) : string :=
  workflowID +:+ "-sub-" +:+ tc_ToolCallID tc +:+ "-" +:+ childSuffix.

Definition delegateToSubAgent (tc : ToolCallRequest) (route : SubAgentRoute)
    : prog (fallible (string * option LLMUsage)) :=
  if String.eqb (TrimSpace (rt_TaskQueue route)) "" then
    mret (inr ("Sub-agent delegation failed: sub-agent task queue is not configured.", None))
  else if wi_MaxSubAgentDepth input <=? wi_SubAgentDepth input then
    mret (inr ("Sub-agent delegation refused: maximum nesting depth (" +:+ Itoa (wi_MaxSubAgentDepth input) +:+
               ") reached for this agent.", None))
  else
    suffix ← wcall WSideEffectUUID;
    match suffix with
    | inl err => mret (inl (plain_error err))
    | inr childSuffix =>
        _ ←! emit_event (AgentStepStartedEvent (delegationName tc route));
        r ← wcall (WChildWorkflow (childWorkflowID tc childSuffix) (rt_TaskQueue route)
                     subAgentChildWorkflowTimeout (childInput tc route childSuffix));
        match r with
        | inl err => mret (inr ("Sub-agent workflow failed: " +:+ err_msg err, None))
        | inr child =>
            _ ←! emit_event (AgentStepFinishedEvent (delegationName tc route));
            mret (inr (match child with
                       | None => ("", None)
                       | Some res => (ar_Content res, ar_LLMUsage res)
                       end))
        end
    end.

(** *** Execution *)

Definition execute_input (tc : ToolCallRequest) : AgentToolExecuteInput :=
  {| ate_ToolName := tc_ToolName tc; ate_Args := tc_Args tc; ate_ConversationID := wi_ConversationID input;
     ate_ToolCallID := tc_ToolCallID tc; ate_RunID := wi_RunID input; ate_Iteration := iteration;
     ate_AgentFingerprint := wi_AgentFingerprint input; ate_MemoryScope := wi_MemoryScope input |}.

(** Content, usage of a child, failure. *)
Definition run_approved (tc : ToolCallRequest) : prog (fallible (string * option LLMUsage * bool)) :=
  match find_route (wi_SubAgentRoutes input) (tc_ToolName tc) with
  | Some route => r ←! delegateToSubAgent tc route; mret (inr (r.1, r.2, false))
  | None =>
      r ← execute_activity (execute_options (tc_ToolKind tc)) (AgentToolExecuteActivity (execute_input tc));
      mret (inr (match r with
                 | inl e => ("Tool execution failed: " +:+ err_msg (xe_err e), None, true)
                 | inr result => (result, None, false)
                 end))
  end.

(** The [switch approvalStatus]. *)
Definition after_approval (tc : ToolCallRequest) (status : string)
    : prog (fallible (string * option LLMUsage * bool)) :=
  if String.eqb status ApprovalStatusApproved then run_approved tc
  else if String.eqb status ApprovalStatusRejected then mret (inr (msgToolRejected, None, false))
  else if String.eqb status ApprovalStatusUnavailable then mret (inr (msgToolApprovalUnavailable, None, false))
  else if String.eqb status ApprovalStatusTimedOut then mret (inr (msgToolApprovalTimedOut, None, false))
  else mret (inl (plain_error (errors_New ("workflow: unexpected approval status " +:+ Quote status +:+
                                           " for tool " +:+ Quote (tc_ToolName tc))))).

Definition approved_call (tc : ToolCallRequest) : prog (fallible agentToolCallOutput) :=
  status ←! await_approval tc;
  r ←! after_approval tc status;
  answer_call tc r.1.1 r.2 r.1.2.

Definition executeAgentToolCall (tc : ToolCallRequest) : prog (fallible agentToolCallOutput) :=
  _ ←! emit_start tc;
  if tc_Unknown tc then answer_call tc (UnknownToolMessage (tc_ToolName tc)) false None else
  skip ← circuit_skips tc;
  if (skip : bool) then answer_call tc (CircuitBreakerSkippedMessage (tc_ToolName tc)) false None else
  auth ←! execute_activity authorize_options (AgentToolAuthorizeActivity (authorize_input tc));
  if negb (ar_Allowed auth) then answer_call tc (denied_content (ar_Reason auth)) false None
  else approved_call tc.

(** [agentToolResult]: an error becomes a tool message. *)
Definition tool_outcome (tc : ToolCallRequest) (r : fallible agentToolCallOutput) : agentToolCallOutput :=
  match r with
  | inr o => o
  | inl e => {| to_msg := tool_message ("Tool execution failed: " +:+ err_msg (xe_err e)) (tc_ToolName tc) (tc_ToolCallID tc);
                to_failed := true; to_llmUsage := None |}
  end.

Definition run_branch (tc : ToolCallRequest) : prog agentToolCallOutput :=
  r ← executeAgentToolCall tc; mret (tool_outcome tc r).
End tool.

(** ** Budget breaches *)

Definition budget_options (pauseID : string) : ActivityOptions :=
  activity_options ("AgentBudgetApprovalActivity_" +:+ activityIDSuffix +:+ "_" +:+ pauseID)
    (ac_ApprovalTimeout (rt_AgentConfig rt)) agentToolApprovalActivityMaxAttempts.

Definition stop_for_budget (s : sentinel) (detail : string) (t : option BudgetTracker) (tel : AgentTelemetry)
    : option error * option BudgetTracker * AgentTelemetry :=
  (Some (sentinel_with_msg s detail), t, upd_run (set_finish FinishReasonBudgetExceeded) tel).

(** The error that stops the run, the tracker and the telemetry. *)
Definition handleBudgetExceeded (tracker : option BudgetTracker) (telemetry : AgentTelemetry) (detail : string)
    : prog (option error * option BudgetTracker * AgentTelemetry) :=
  let action := match ac_Budget (rt_AgentConfig rt) with
                | Some cfg => if String.eqb (cfg_OnExceeded cfg) "" then BudgetStopRun else cfg_OnExceeded cfg
                | None => BudgetStopRun
                end in
  let stop := stop_for_budget ErrBudgetExceeded detail tracker telemetry in
  let approvalsExhausted := String.eqb action BudgetWaitForApproval && ApprovalsExhausted tracker in
  if String.eqb action BudgetWaitForApproval && negb approvalsExhausted then
    pause ← wcall WSideEffectUUID;
    match pause with
    | inl _ => mret stop
    | inr pauseID =>
        let totals := Totals tracker in
        r ← execute_activity (budget_options pauseID) (AgentBudgetApprovalActivity
              {| aba_AgentName := as_Name (rt_AgentSpec rt); aba_Detail := detail;
                 aba_TotalTokens := totals.1; aba_TotalCostUSD := totals.2;
                 aba_StreamWorkflowID := streamWorkflowID;
                 aba_AgentFingerprint := wi_AgentFingerprint input |});
        mret (match r with
              | inl _ => stop
              | inr status =>
                  if String.eqb status ApprovalStatusApproved then (None, (AdvanceWatermark tracker).2, telemetry)
                  else if String.eqb status ApprovalStatusUnavailable
                  then stop_for_budget ErrBudgetApprovalUnavailable detail tracker telemetry
                  else stop
              end)
    end
  else mret stop.

(** ** The variables of the loop *)

Record wf_vars := {
  v_messages : list wf_message;
  v_maxIter : Z;
  v_useFallback : bool;
  v_iterationsExtended : bool;
  v_lastContent : string;
  v_llmUsage : option LLMUsage;
  v_telemetry : AgentTelemetry;
  v_budget : option BudgetTracker;
  v_llm : llm_var;
  v_store : arg_store }.

Definition set_msgs (s : wf_vars) (ms : list wf_message) : wf_vars :=
  {| v_messages := ms; v_maxIter := v_maxIter s; v_useFallback := v_useFallback s;
     v_iterationsExtended := v_iterationsExtended s; v_lastContent := v_lastContent s;
     v_llmUsage := v_llmUsage s; v_telemetry := v_telemetry s; v_budget := v_budget s;
     v_llm := v_llm s; v_store := v_store s |}.
Definition set_tel (s : wf_vars) (t : AgentTelemetry) : wf_vars :=
  {| v_messages := v_messages s; v_maxIter := v_maxIter s; v_useFallback := v_useFallback s;
     v_iterationsExtended := v_iterationsExtended s; v_lastContent := v_lastContent s;
     v_llmUsage := v_llmUsage s; v_telemetry := t; v_budget := v_budget s;
     v_llm := v_llm s; v_store := v_store s |}.
(** Usage, budget and telemetry after a charge. *)
Definition set_charge (s : wf_vars) (u : option LLMUsage) (b : option BudgetTracker) (t : AgentTelemetry) : wf_vars :=
  {| v_messages := v_messages s; v_maxIter := v_maxIter s; v_useFallback := v_useFallback s;
     v_iterationsExtended := v_iterationsExtended s; v_lastContent := v_lastContent s;
     v_llmUsage := u; v_telemetry := t; v_budget := b; v_llm := v_llm s; v_store := v_store s |}.
(** [Get(&llmResult)] *)
Definition set_llm (s : wf_vars) (w : AgentLLMResult) : wf_vars :=
  let d := decode_result (v_store s) (v_llm s) w in
  {| v_messages := v_messages s; v_maxIter := v_maxIter s; v_useFallback := v_useFallback s;
     v_iterationsExtended := v_iterationsExtended s; v_lastContent := v_lastContent s;
     v_llmUsage := v_llmUsage s; v_telemetry := v_telemetry s; v_budget := v_budget s;
     v_llm := d.2; v_store := d.1 |}.
Definition extend (s : wf_vars) (extra : Z) : wf_vars :=
  {| v_messages := v_messages s; v_maxIter := v_maxIter s + extra; v_useFallback := v_useFallback s;
     v_iterationsExtended := true; v_lastContent := v_lastContent s; v_llmUsage := v_llmUsage s;
     v_telemetry := v_telemetry s; v_budget := v_budget s; v_llm := v_llm s; v_store := v_store s |}.
Definition use_fallback (s : wf_vars) : wf_vars :=
  {| v_messages := v_messages s; v_maxIter := v_maxIter s;
     v_useFallback := v_useFallback s || lv_UsedFallback (v_llm s);
     v_iterationsExtended := v_iterationsExtended s; v_lastContent := v_lastContent s;
     v_llmUsage := v_llmUsage s; v_telemetry := v_telemetry s; v_budget := v_budget s;
     v_llm := v_llm s; v_store := v_store s |}.
(** Append the final assistant message. *)
Definition set_answer (s : wf_vars) : wf_vars :=
  {| v_messages := v_messages s ++ [Plain (text_message MessageRoleAssistant (lv_Content (v_llm s)))];
     v_maxIter := v_maxIter s; v_useFallback := v_useFallback s;
     v_iterationsExtended := v_iterationsExtended s; v_lastContent := lv_Content (v_llm s);
     v_llmUsage := v_llmUsage s; v_telemetry := v_telemetry s; v_budget := v_budget s;
     v_llm := v_llm s; v_store := v_store s |}.

Definition read_messages (s : wf_vars) : list Message := map (read_message (v_store s)) (v_messages s).

(** [telemetry.Run.LLMRetryCount += n] *)
Definition add_retries (n : Z) (r : RunTelemetry) : RunTelemetry :=
  {| rt_StartedAt := rt_StartedAt r; rt_CompletedAt := rt_CompletedAt r; rt_TotalLLMCalls := rt_TotalLLMCalls r;
     rt_LLMRetryCount := rt_LLMRetryCount r + n; rt_FinishReason := rt_FinishReason r |}.

(** How the workflow function returns. *)
Inductive wf_outcome :=
| WfDone (r : AgentRunResult)
| WfFailed (partial : option (option LLMUsage * AgentTelemetry)) (e : error)
| WfContinueAsNew (i : AgentWorkflowInput).

Definition failed (e : act_error) : wf_outcome := WfFailed None (xe_err e).

(** How one pass through the loop body ends. *)
Inductive wf_round :=
| RNext (s : wf_vars)
| RBreak (s : wf_vars)
| RReturn (o : wf_outcome).

Definition enforceBudget (s : wf_vars) : bool := bool_decide (is_Some (v_budget s)) && isRoot.

(** [budgetTracker.Add] with enforcement; the error stops the run. *)
Definition enforce (s : wf_vars) (usage : option LLMUsage) : prog (option error * wf_vars) :=
  if enforceBudget s then
    let '(breach, t) := Add (v_budget s) usage in
    match breach with
    | None => mret (None, set_charge s (v_llmUsage s) t (v_telemetry s))
    | Some be =>
        r ← handleBudgetExceeded t (v_telemetry s) (BudgetExceededError_Error be);
        mret (r.1.1, set_charge s (v_llmUsage s) r.1.2 r.2)
    end
  else mret (None, s).

(** [&types.AgentRunResult{LLMUsage, Telemetry}, stopErr] *)
Definition budget_stop (s : wf_vars) (e : error) : wf_outcome := WfFailed (Some (v_llmUsage s, v_telemetry s)) e.

Definition merge_usage (s : wf_vars) (u : option LLMUsage) : wf_vars :=
  set_charge s (MergeLLMUsage (v_llmUsage s) u) (v_budget s) (v_telemetry s).

(** ** Model calls *)

Definition useStreaming : bool := wi_StreamingEnabled input && l_IsStreamSupported (ac_LLMClient (rt_AgentConfig rt)).

Definition llm_input (s : wf_vars) (messageID : string) (iter : Z) (skipTools : bool) (mem ret : string) : AgentLLMInput :=
  {| ali_AgentName := as_Name (rt_AgentSpec rt); ali_ConversationID := wi_ConversationID input;
     ali_Messages := read_messages s; ali_SkipTools := skipTools;
     ali_AgentFingerprint := wi_AgentFingerprint input; ali_MessageID := messageID;
     ali_StreamWorkflowID := streamWorkflowID; ali_MemoryContext := mem; ali_RetrieverContext := ret;
     ali_RunID := wi_RunID input; ali_Iteration := iter; ali_UseFallback := v_useFallback s |}.

Definition call_llm (i : AgentLLMInput) : prog (fallible AgentLLMResult) :=
  if useStreaming
  then execute_activity (execActivityOptions (po_LLM executionPolicies) ("AgentLLMStreamActivity_" +:+ activityIDSuffix) true)
         (AgentLLMStreamActivity i)
  else execute_activity (execActivityOptions (po_LLM executionPolicies) ("AgentLLMActivity_" +:+ activityIDSuffix) false)
         (AgentLLMActivity i).

(** ** The tools of a round *)

Definition toolExecMode : string :=
  if String.eqb (rt_ToolExecutionMode rt) "" then AgentToolExecutionModeParallel else rt_ToolExecutionMode rt.

Definition indexed {A} (l : list A) : list (nat * A) := zip (seq 0 (length l)) l.

Definition run_parallel (messageID : string) (iter : Z) (breaker : bool) (now : Time) (calls : list ToolCallRequest)
    : prog (list agentToolCallOutput) :=
  par (map (fun p => run_branch messageID iter (Itoa (Z.of_nat p.1)) breaker now p.2) (indexed calls)).

Definition run_sequential (messageID : string) (iter : Z) (breaker : bool) (now : Time) (calls : list ToolCallRequest)
    : prog (list agentToolCallOutput) :=
  traverse (run_branch messageID iter "" breaker now) calls.

Definition run_tool_calls (messageID : string) (iter : Z) (breaker : bool) (now : Time) (calls : list ToolCallRequest)
    : prog (result (list agentToolCallOutput)) :=
  if String.eqb toolExecMode AgentToolExecutionModeParallel
  then rs ← run_parallel messageID iter breaker now calls; mret (inr rs)
  else if String.eqb toolExecMode AgentToolExecutionModeSequential
  then rs ← run_sequential messageID iter breaker now calls; mret (inr rs)
  else mret (inl (errors_New ("invalid tool execution mode " +:+ Quote toolExecMode +:+ ": use " +:+
                    Quote AgentToolExecutionModeParallel +:+ " or " +:+ Quote AgentToolExecutionModeSequential))).

(** [base.ApplyToolCircuitResult] *)
Definition apply_circuit (breaker : bool) (tc : ToolCallRequest) (isFailed : bool) (now : Time) : prog unit :=
  if negb breaker || negb (CountsTowardCircuitBreaker (tc_Unknown tc) (tc_ToolKind tc)) then mret tt
  else if isFailed then wcall (WBreakerRecordFailure (tc_ToolName tc) (tc_Args tc) now)
  else wcall (WBreakerRecordSuccess (tc_ToolName tc)).

(** The usage a child workflow reports. *)
Definition charge_child (s : wf_vars) (usage : option LLMUsage) : prog (option error * wf_vars) :=
  match usage with
  | None => mret (None, s)
  | Some _ =>
      let s := merge_usage s usage in
      if enforceBudget s then enforce s usage
      else mret (None, set_charge s (v_llmUsage s) (Add (v_budget s) usage).2 (v_telemetry s))
  end.

(** [for i, result := range toolResults] *)
Fixpoint collect (breaker : bool) (now : Time) (calls : list ToolCallRequest) (rs : list agentToolCallOutput) (s : wf_vars)
    : prog (wf_outcome + wf_vars) :=
  match calls, rs with
  | tc :: calls, r :: rs =>
      _ ← apply_circuit breaker tc (to_failed r) now;
      let s := set_tel s (record_tool (v_telemetry s) tc {| tr_message := to_msg r; tr_failed := to_failed r |}) in
      let s := set_msgs s (v_messages s ++ [Plain (to_msg r)]) in
      c ← charge_child s (to_llmUsage r);
      match c.1 with
      | Some err => mret (inl (budget_stop c.2 err))
      | None => collect breaker now calls rs c.2
      end
  | _, _ => mret (inr s)
  end.

(** ** Conversation *)

Definition persist_options : ActivityOptions :=
  execActivityOptions (po_Conversation executionPolicies) ("ConversationActivity_" +:+ activityIDSuffix) false.

Definition persist (s : wf_vars) : prog (fallible unit) :=
  execute_activity persist_options (AddConversationMessagesActivity
    {| acm_ConversationID := wi_ConversationID input; acm_Messages := read_messages s;
       acm_AgentFingerprint := wi_AgentFingerprint input |}).

(** [ConversationSaveOnIteration]: saved messages leave the workflow. *)
Definition save_iteration (s : wf_vars) : prog wf_vars :=
  if conversationMemoryEnabled (wi_ConversationID input) && ac_ConversationSaveOnIteration (rt_AgentConfig rt) &&
     negb (bool_decide (v_messages s = []))
  then r ← persist s; mret (match r with inl _ => s | inr _ => set_msgs s [] end)
  else mret s.

(** ** Continuing as new *)

Definition history_exceeded (h : Z * Z) : bool :=
  (agentWorkflowHistoryLength <=? h.1) || (agentWorkflowHistorySizeBytes <=? h.2).

Definition originalMaxIter : Z := ac_MaxIterations (rt_AgentConfig rt).

Definition extraGranted (s : wf_vars) : Z :=
  if (0 <? originalMaxIter) && (originalMaxIter <? v_maxIter s) then v_maxIter s - originalMaxIter else 0.

Definition saved_state (iter : Z) (s : wf_vars) (breaker : option (gmap string ToolState)) : AgentWorkflowState :=
  let totals := Totals (v_budget s) in
  let watermark := WatermarkTotals (v_budget s) in
  {| st_Iteration := iter + 1; st_Messages := read_messages s; st_LLMUsage := v_llmUsage s;
     st_Telemetry := Some (v_telemetry s);
     st_BudgetTokens := totals.1; st_BudgetCostUSD := totals.2;
     st_BudgetWatermarkTokens := watermark.1; st_BudgetWatermarkCostUSD := watermark.2;
     st_UseFallbackLLM := v_useFallback s; st_IterationsExtended := v_iterationsExtended s;
     st_ExtraIterations := extraGranted s; st_CircuitBreaker := breaker |}.

(** The root hands its event stream over: no poller left, every handler finished. *)
Definition detach_stream : prog (result (option value)) :=
  if isRoot then
    _ ← wcall WDetachPollers;
    e ← wcall WAwaitHandlers;
    match e with
    | Some err => mret (inl err)
    | None =>
        st ← wcall WStreamState;
        mret (match st with
              | inl err => inl (wrap_error "workflow: stream get state for CAN: " err)
              | inr v => inr (Some v)
              end)
    end
  else mret (inr (wi_StreamState input)).

Definition continue_as_new (iter : Z) (s : wf_vars) : prog wf_round :=
  h ← wcall WHistory;
  if history_exceeded h then
    d ← detach_stream;
    match d with
    | inl err => mret (RReturn (WfFailed None err))
    | inr stream =>
        breaker ← wcall WBreakerState;
        mret (RReturn (WfContinueAsNew (with_state input stream (Some (saved_state iter s breaker)))))
    end
  else mret (RNext s).

(** ** One round *)

Section round.
Context (memoryContext retrieverContext : string) (breaker : bool).

Definition tool_round (messageID : string) (iter : Z) (now : Time) (s : wf_vars) : prog wf_round :=
  let slots := current_slots (v_llm s) in
  let calls := map (read_call (v_store s)) slots in
  let s := set_msgs s (v_messages s ++ [called_message (lv_Content (v_llm s)) slots]) in
  rs ← run_tool_calls messageID iter breaker now calls;
  match rs with
  | inl err => mret (RReturn (WfFailed None err))
  | inr rs =>
      r ← collect breaker now calls rs s;
      match r with
      | inl o => mret (RReturn o)
      | inr s => s ← save_iteration s; continue_as_new iter s
      end
  end.

(** Max iterations reached: one last call without tools. *)
Definition final_round (iter : Z) (s : wf_vars) : prog wf_round :=
  messageID ← wcall WUUID;
  r ← call_llm (llm_input s messageID iter true memoryContext retrieverContext);
  match r with
  | inl e => mret (RReturn (failed e))
  | inr w =>
      let s := set_llm s w in
      let s := merge_usage s (lv_Usage (v_llm s)) in
      c ← enforce s (lv_Usage (v_llm s));
      match c.1 with
      | Some err => mret (RReturn (budget_stop c.2 err))
      | None =>
          let s := set_answer c.2 in
          mret (RBreak (set_tel s (upd_run (fun r => set_finish FinishReasonMaxIterations (add_llm_call r)) (v_telemetry s))))
      end
  end.

Definition decision_options (iter : Z) : ActivityOptions :=
  execActivityOptions {| ep_Timeout := ep_Timeout (po_LLM executionPolicies); ep_MaxAttempts := 1;
                         ep_Retry := {| rp_InitialInterval := 0; rp_BackoffCoefficient := f64_zero; rp_MaximumInterval := 0 |} |}
    ("AgentMaxIterationsDecisionActivity_" +:+ activityIDSuffix +:+ "_" +:+ Itoa iter) false.

(** The extra rounds granted in the last one. *)
Definition ask_extension (iter : Z) (calls : list ToolCallRequest) (s : wf_vars) : prog (fallible (option Z)) :=
  if hasMaxIterationsHook then
    dec ←! execute_activity (decision_options iter) (AgentMaxIterationsDecisionActivity
             {| amd_IterationCount := iter + 1; amd_MaxIterations := originalMaxIter;
                amd_LastAction := LastToolAction (map tc_ToolName calls);
                amd_AlreadyExtended := v_iterationsExtended s |});
    mret (inr (match dec_Action dec with
               | ErrorControlExtendIterations => Some (dec_ExtraIterations dec)
               | _ => None
               end))
  else mret (inr None).

Definition after_llm_answer (messageID : string) (iter : Z) (now : Time) (s : wf_vars) : prog wf_round :=
  match current_slots (v_llm s) with
  | [] => mret (RBreak (set_answer s))
  | slots =>
      if iter =? v_maxIter s - 1 then
        d ← ask_extension iter (map (read_call (v_store s)) slots) s;
        match d with
        | inl e => mret (RReturn (failed e))
        | inr (Some extra) => tool_round messageID iter now (extend s extra)
        | inr None => final_round iter s
        end
      else tool_round messageID iter now s
  end.

(** The body of [for iter := input.State.Iteration; iter < maxIter; iter++]. *)
Definition round (iter : Z) (s : wf_vars) : prog wf_round :=
  now ← wcall WNow;
  messageID ← wcall WUUID;
  r ← call_llm (llm_input s messageID iter false memoryContext retrieverContext);
  match r with
  | inl e => mret (RReturn (failed e))
  | inr w =>
      let s := use_fallback (set_llm s w) in
      let s := set_tel s (upd_run (fun r => add_retries (lv_RetryCount (v_llm s)) (add_llm_call r)) (v_telemetry s)) in
      let s := merge_usage s (lv_Usage (v_llm s)) in
      c ← enforce s (lv_Usage (v_llm s));
      match c.1 with
      | Some err => mret (RReturn (budget_stop c.2 err))
      | None => after_llm_answer messageID iter now c.2
      end
  end.

Fixpoint loop (fuel : nat) (iter : Z) (s : wf_vars) : prog (wf_outcome + wf_vars) :=
  if v_maxIter s <=? iter then mret (inr s) else
  match fuel with
  | O => _ ← wcall WOutOfFuel; mret (inr s)
  | S fuel =>
      r ← round iter s;
      match r with
      | RReturn o => mret (inl o)
      | RBreak s => mret (inr s)
      | RNext s => loop fuel (iter + 1) s
      end
  end.
End round.

(** ** Before the rounds *)

Definition initial_state : AgentWorkflowState :=
  {| st_Iteration := 0; st_Messages := [text_message MessageRoleUser (wi_UserPrompt input)]; st_LLMUsage := None;
     st_Telemetry := None; st_BudgetTokens := 0; st_BudgetCostUSD := f64_zero; st_BudgetWatermarkTokens := 0;
     st_BudgetWatermarkCostUSD := f64_zero; st_UseFallbackLLM := false; st_IterationsExtended := false;
     st_ExtraIterations := 0; st_CircuitBreaker := None |}.

Definition start_telemetry (st : AgentWorkflowState) : prog AgentTelemetry :=
  match st_Telemetry st with
  | Some t => mret t
  | None => now ← wcall WNow; mret (NewAgentTelemetry now)
  end.

Definition restored_breaker (st : AgentWorkflowState) : option CircuitBreaker :=
  match st_CircuitBreaker st with
  | Some tools => NewCircuitBreakerFromState (ac_ErrorControl (rt_AgentConfig rt)) tools
  | None => NewCircuitBreaker (ac_ErrorControl (rt_AgentConfig rt))
  end.

(** [RestoreState] panics on a tracker that already counts; this one is new. *)
Definition restored_budget (st : AgentWorkflowState) : option BudgetTracker :=
  let t := NewBudgetTracker (ac_Budget (rt_AgentConfig rt)) in
  default t (RestoreState t (st_BudgetTokens st) (st_BudgetCostUSD st)
               (st_BudgetWatermarkTokens st) (st_BudgetWatermarkCostUSD st)).

Definition restored_vars (st : AgentWorkflowState) (t : AgentTelemetry) : wf_vars :=
  {| v_messages := map Plain (st_Messages st);
     v_maxIter := if 0 <? st_ExtraIterations st then originalMaxIter + st_ExtraIterations st else originalMaxIter;
     v_useFallback := st_UseFallbackLLM st; v_iterationsExtended := st_IterationsExtended st;
     v_lastContent := ""; v_llmUsage := st_LLMUsage st; v_telemetry := t; v_budget := restored_budget st;
     v_llm := zero_llm; v_store := [] |}.

Definition recall (s : wf_vars) : prog (fallible (string * wf_vars)) :=
  if MemoryConfigured rt && RecallEnabled rt then
    r ←! execute_activity (execActivityOptions (po_Memory executionPolicies) ("AgentMemoryActivity_" +:+ activityIDSuffix) false)
           (AgentMemoryRecallActivity {| ami_AgentFingerprint := wi_AgentFingerprint input; ami_RunID := wi_RunID input;
                                         ami_UserPrompt := wi_UserPrompt input; ami_MemoryScope := wi_MemoryScope input |});
    mret (inr (mr_Context r, set_tel s (upd_storage (add_memory (mr_TotalRecalls r) (mr_FailedRecalls r) 0 0) (v_telemetry s))))
  else mret (inr ("", s)).

Definition prefetch (s : wf_vars) : prog (fallible (string * wf_vars)) :=
  if prefetch_enabled rt then
    r ←! execute_activity (execActivityOptions (po_Retriever executionPolicies) ("AgentRetrieverActivity_" +:+ activityIDSuffix) false)
           (AgentRetrieverActivity {| ari_AgentFingerprint := wi_AgentFingerprint input; ari_RunID := wi_RunID input;
                                      ari_UserPrompt := wi_UserPrompt input |});
    mret (inr (rr_Context r, set_tel s (upd_storage (add_searches (rr_TotalSearches r) (rr_FailedSearches r)
                                                       (rr_TotalSearches r) 0) (v_telemetry s))))
  else mret (inr ("", s)).

(** ** After the rounds *)

(** [Some e]: the run fails. *)
Definition persist_rest (s : wf_vars) : prog (option act_error) :=
  if conversationMemoryEnabled (wi_ConversationID input) && negb (bool_decide (v_messages s = [])) then
    r ← persist s;
    mret (match r with
          | inl e => if ac_ConversationSaveOnIteration (rt_AgentConfig rt) then None else Some e
          | inr _ => None
          end)
  else mret None.

Definition store_memory (s : wf_vars) : prog (fallible wf_vars) :=
  if RunEndMemoryStoreEnabled rt then
    r ← execute_activity (execActivityOptions (po_Memory executionPolicies) ("AgentMemoryActivity_" +:+ activityIDSuffix) false)
          (AgentMemoryStoreActivity {| ams_AgentFingerprint := wi_AgentFingerprint input; ams_RunID := wi_RunID input;
                                       ams_MemoryScope := wi_MemoryScope input; ams_Messages := read_messages s |});
    mret (match r with
          | inl e => if xe_canceled e then inl e
                     else inr (set_tel s (upd_storage (add_memory 0 0 0 1) (v_telemetry s)))
          | inr _ => inr (set_tel s (upd_storage (add_memory 0 0 1 0) (v_telemetry s)))
          end)
  else mret (inr s).

Definition finish (s : wf_vars) : prog wf_outcome :=
  e ← persist_rest s;
  match e with
  | Some err => mret (failed err)
  | None =>
      m ← store_memory s;
      match m with
      | inl err => mret (failed err)
      | inr s =>
          now ← wcall WNow;
          mret (WfDone {| ar_Content := v_lastContent s; ar_AgentName := as_Name (rt_AgentSpec rt);
                          ar_Model := l_Model (ac_LLMClient (rt_AgentConfig rt)); ar_Metadata := Some ∅;
                          ar_RunID := wi_RunID input;
                          ar_LLMUsage := v_llmUsage s; ar_Telemetry := Some (upd_run (set_completed now) (v_telemetry s)) |})
      end
  end.

(** From the restored variables on: the breaker, the memories, the rounds and the end. *)
Definition run_from (fuel : nat) (circuitBreaker : option CircuitBreaker) (iter : Z) (s : wf_vars) : prog wf_outcome :=
  _ ← wcall (WBreakerInit circuitBreaker);
  m ← recall s;
  match m with
  | inl e => mret (failed e)
  | inr (mem, s) =>
      p ← prefetch s;
      match p with
      | inl e => mret (failed e)
      | inr (ret, s) =>
          r ← loop mem ret (bool_decide (is_Some circuitBreaker)) fuel iter s;
          match r with
          | inl o => mret o
          | inr s => finish s
          end
      end
  end.

(** Everything between the registration of the deferred clean-up and the return. *)
Definition run_body (fuel : nat) : prog wf_outcome :=
  let st := default initial_state (wi_State input) in
  t ← start_telemetry st;
  run_from fuel (restored_breaker st) (st_Iteration st) (restored_vars st t).

(** ** The deferred clean-up *)

Definition pendingApprovalActivityIDs (pending : list (string * string)) : list string :=
  List.filter (fun id => negb (String.eqb id "")) (map snd pending).

Definition cleanup : prog unit :=
  pending ← wcall WPendingList;
  let ids := pendingApprovalActivityIDs pending in
  if bool_decide (ids = []) then mret tt else
  _ ← execute_activity (activity_options ("AgentWorkflowCleanupActivity_" +:+ activityIDSuffix)
          agentWorkflowCleanupActivityTaskTimeout agentWorkflowCleanupActivityMaxAttempts)
        (AgentWorkflowCleanupActivity {| awc_ApprovalActivityIDs := ids |});
  mret tt.
End run.

Definition AgentWorkflow (fuel : nat) (input : AgentWorkflowInput) : prog wf_outcome :=
  stream ← (if isRoot input then wcall (WNewStream (wi_StreamState input)) else mret None);
  match stream with
  | Some err => mret (WfFailed None (wrap_error "workflow: create stream: " err))
  | None =>
      q ← wcall WSetQueryHandler;
      match q with
      | Some err => mret (WfFailed None (wrap_error "workflow: register is_approval_pending query handler: " err))
      | None =>
          suffix ← wcall WSideEffectUUID;
          match suffix with
          | inl err => mret (WfFailed None err)
          | inr activityIDSuffix =>
              o ← run_body input activityIDSuffix fuel;
              _ ← cleanup activityIDSuffix;
              mret o
          end
      end
  end.

(** The server starts a continued workflow again with the input it returned. *)
Fixpoint run_chain (n fuel : nat) (input : AgentWorkflowInput) : prog wf_outcome :=
  o ← AgentWorkflow fuel input;
  match o, n with
  | WfContinueAsNew i, S n => run_chain n fuel i
  | _, _ => mret o
  end.
End workflow.
