(* ===== verification/TemporalFacts.v ===== *)
(** What each part of the Temporal workflow can do: the kinds of effects it performs, shared by
    the theorems about whole workflows. *)
From S2P Require Import Prelude GoLib Types Codec Prog ProgSpec Policies MemoryConfig Budget CircuitBreaker Telemetry Events Effects ErrorControl LLM Memory AgentLoop TemporalDefs TemporalLoop.

#[local] Open Scope string_scope.
#[local] Open Scope list_scope.
#[local] Open Scope Z_scope.

(** ** Kinds of effects *)

Inductive kind :=
| KQuiet      (* scheduler, clock, identifiers, the state of the stream *)
| KPublish    (* events *)
| KLlm | KAuthorize | KApproval | KTool | KDecide | KBudget | KPersist | KMemory | KCleanup
| KPending | KBreaker | KBreakerInit | KFuel.

#[export] Instance kind_eq_dec : EqDecision kind.
Proof. solve_decision. Defined.

Definition activity_kind (a : activity) : kind :=
  match a with
  | AgentLLMActivity _ | AgentLLMStreamActivity _ => KLlm
  | AgentToolAuthorizeActivity _ => KAuthorize
  | AgentToolApprovalActivity _ => KApproval
  | AgentToolExecuteActivity _ => KTool
  | AgentRetrieverActivity _ | AgentMemoryRecallActivity _ | AgentMemoryStoreActivity _ => KMemory
  | AddConversationMessagesActivity _ => KPersist
  | AgentMaxIterationsDecisionActivity _ => KDecide
  | AgentBudgetApprovalActivity _ => KBudget
  | PublishStreamEventActivity _ => KPublish
  | AgentWorkflowCleanupActivity _ => KCleanup
  end.

Definition op_kind (o : WfOp) : kind :=
  match o with
  | WActivity _ a => activity_kind a
  | WPublish _ => KPublish
  | WChildWorkflow _ _ _ _ => KTool
  | WPendingSet _ _ | WPendingDelete _ => KPending
  | WBreakerInit _ => KBreakerInit
  | WBreakerIsTripped _ _ | WBreakerRecordFailure _ _ _ | WBreakerRecordSuccess _ | WBreakerState => KBreaker
  | WOutOfFuel => KFuel
  | _ => KQuiet
  end.

Definition event_kind (e : wevent) : kind := op_kind (ev_op e).

(** Quiet, or of one of the kinds. *)
Definition within (ks : list kind) (e : wevent) : Prop := event_kind e = KQuiet \/ In (event_kind e) ks.

Lemma sched_quiet (e : wevent) : is_sched e -> event_kind e = KQuiet.
Proof. unfold is_sched, event_kind. by intros ->. Qed.

Lemma sched_within ks (e : wevent) : is_sched e -> within ks e.
Proof. intros H. left. by apply sched_quiet. Qed.

Lemma within_incl ks ks' e : incl ks ks' -> within ks e -> within ks' e.
Proof. intros H [?|?]; [by left|right; auto]. Qed.

Lemma only_incl ks ks' {A} (m : prog A) : incl ks ks' -> only (within ks) m -> only (within ks') m.
Proof. intros H. apply only_mono. intros e. by apply within_incl. Qed.

Lemma within_not ks k e : k <> KQuiet -> ~ In k ks -> within ks e -> event_kind e <> k.
Proof. intros Hq Hk [->|Hin] He; [by apply Hq|by rewrite He in Hin]. Qed.

Lemma only_wcall (P : wevent -> Prop) o : (forall r, P (Ev (S := wf_sig) o r)) -> only P (wcall o).
Proof. apply (only_perform (S := wf_sig)). Qed.

Lemma only_activity (P : wevent -> Prop) o a :
  (forall r, P (Ev (S := wf_sig) (WActivity o a) r)) -> only P (execute_activity o a).
Proof. apply (only_perform (S := wf_sig) P (WActivity o a)). Qed.

Lemma only_fallible (P : wevent -> Prop) {E A B} (m : prog (sum E A)) (f : A -> prog (sum E B)) :
  only P m -> (forall a, only P (f a)) -> only P (bind_fallible m f).
Proof. intros Hm Hf. apply only_bind; [done|]. intros [e|a]; [apply only_ret|apply Hf]. Qed.

(** One effect, then the rest. *)
Lemma spec_after_wcall {A} o (f : WfAns o -> prog A) (Q : list wevent -> A -> Prop) :
  (forall r, spec (f r) (fun t b => Q (Ev (S := wf_sig) o r :: t) b)) -> spec (wcall o ≫= f) Q.
Proof. apply (spec_do (S := wf_sig) o f). Qed.

Lemma spec_after_activity {A} o a (f : fallible (activity_result a) -> prog A) (Q : list wevent -> A -> Prop) :
  (forall r, spec (f r) (fun t b => Q (Ev (S := wf_sig) (WActivity o a) r :: t) b)) ->
  spec (execute_activity o a ≫= f) Q.
Proof. apply (spec_do (S := wf_sig) (WActivity o a) f). Qed.

Lemma spec_one_activity o a (Q : list wevent -> fallible (activity_result a) -> Prop) :
  (forall r, Q [Ev (S := wf_sig) (WActivity o a) r] r) -> spec (execute_activity o a) Q.
Proof. apply (spec_perform (S := wf_sig) (WActivity o a)). Qed.

(** Perform the first effect. *)
Ltac wf_step :=
  match goal with
  | |- spec (execute_activity ?o ?a) ?Q => apply (spec_one_activity o a Q)
  | |- spec (mbind ?f (wcall ?o)) ?Q => apply (spec_after_wcall o f Q)
  | |- spec (mbind ?f (execute_activity ?o ?a)) ?Q => apply (spec_after_activity o a f Q)
  end.

(** ** Counting *)

Definition count_if (p : wevent -> bool) (tr : list wevent) : Z := Z.of_nat (length (List.filter p tr)).

Lemma count_if_app p t1 t2 : count_if p (t1 ++ t2) = count_if p t1 + count_if p t2.
Proof. unfold count_if. rewrite List.filter_app, length_app. lia. Qed.

Lemma count_if_nil p : count_if p [] = 0.
Proof. done. Qed.

Lemma count_if_cons p e t : count_if p (e :: t) = (if p e then 1 else 0) + count_if p t.
Proof. unfold count_if. cbn [List.filter]. destruct (p e); cbn [length]; lia. Qed.

Lemma count_if_none p tr : Forall (fun e => p e = false) tr -> count_if p tr = 0.
Proof. unfold count_if. induction 1 as [|e tr He _ IH]; [done|]. simpl. by rewrite He. Qed.

Lemma count_if_nonneg p tr : 0 <= count_if p tr.
Proof. unfold count_if. lia. Qed.

Definition count_kind (k : kind) : list wevent -> Z := count_if (fun e => bool_decide (event_kind e = k)).

(** Counts of a trace put together from parts. *)
Ltac counts :=
  unfold count_kind in *; repeat rewrite ?count_if_nil, ?count_if_cons, ?count_if_app in *;
  cbn [event_kind op_kind activity_kind ev_op bool_decide decide_rel kind_eq_dec] in *.

(** A part that performs no effect of the kind. *)
Lemma count_kind_none k ks {A} (m : prog A) :
  k <> KQuiet -> ~ In k ks -> only (within ks) m -> spec m (fun tr _ => count_kind k tr = 0).
Proof.
  intros Hq Hk H. eapply spec_conseq; [exact H|]. cbn beta. intros tr _ Ht. apply count_if_none.
  eapply Forall_impl; [exact Ht|]. intros e He. apply bool_decide_eq_false_2. by eapply within_not.
Qed.

Create HintDb wf_foot.

(** Walk through a computation, checking the kind of each effect. *)
Ltac wf_kind := first [ by left | right; cbn; tauto ].
Ltac wf_only :=
  repeat first
    [ progress intros
    | apply only_ret
    | solve [ eauto 3 with wf_foot ]
    | match goal with
      | |- only ?P (wcall ?o) => apply (only_wcall P o); intros; solve [wf_kind]
      | |- only ?P (execute_activity ?o ?a) => apply (only_activity P o a); intros; solve [wf_kind]
      end
    | apply only_fallible
    | apply only_bind
    | apply only_fmap
    | apply only_traverse
    | case_match
    | progress cbv beta zeta ].
Ltac wf_sub l := eapply only_incl; [|apply l]; intros ? ?; cbn in *; tauto.

Section footprints.
Context (rt : Runtime) (wfID : string) (input : AgentWorkflowInput) (suffix : string).

Lemma only_emit e : only (within [KPublish]) (emit_event wfID input e).
Proof. unfold emit_event, check_error, emitAgentEvent. wf_only. Qed.

Lemma only_emit' ks e : In KPublish ks -> only (within ks) (emit_event wfID input e).
Proof. intros H. eapply only_incl; [|apply only_emit]. by intros k [<-|[]]. Qed.
#[local] Hint Resolve only_emit' : wf_foot.
#[local] Hint Resolve in_eq in_cons : wf_foot.

Lemma only_answer ks mid tc content f u : In KPublish ks -> only (within ks) (answer_call wfID input mid tc content f u).
Proof. intros H. unfold answer_call, emitToolEndThenResult. wf_only. Qed.
#[local] Hint Resolve only_answer : wf_foot.

Lemma only_emit_start ks mid tc : In KPublish ks -> only (within ks) (emit_start wfID input mid tc).
Proof. intros H. unfold emit_start. wf_only. Qed.
#[local] Hint Resolve only_emit_start : wf_foot.

Lemma only_circuit_skips b now tc : only (within [KBreaker]) (circuit_skips b now tc).
Proof. unfold circuit_skips. wf_only. Qed.

Lemma only_await_approval slot tc : only (within [KPending; KApproval]) (await_approval rt wfID input suffix slot tc).
Proof. unfold await_approval. wf_only. Qed.

Lemma only_delegate tc route : only (within [KTool; KPublish]) (delegateToSubAgent rt wfID input tc route).
Proof. unfold delegateToSubAgent. wf_only. Qed.
#[local] Hint Resolve only_delegate : wf_foot.

Lemma only_run_approved iter slot tc : only (within [KTool; KPublish]) (run_approved rt wfID input suffix iter slot tc).
Proof. unfold run_approved. wf_only. Qed.
#[local] Hint Resolve only_run_approved : wf_foot.

Lemma only_after_approval iter slot tc st : only (within [KTool; KPublish]) (after_approval rt wfID input suffix iter slot tc st).
Proof. unfold after_approval. wf_only. Qed.

Definition call_kinds : list kind := [KPublish; KAuthorize; KPending; KApproval; KTool; KBreaker].

Lemma only_branch mid iter slot b now tc : only (within call_kinds) (run_branch rt wfID input suffix mid iter slot b now tc).
Proof.
  unfold run_branch, executeAgentToolCall, approved_call. wf_only;
    [wf_sub only_circuit_skips|wf_sub only_await_approval|wf_sub only_after_approval].
Qed.

Lemma only_tool_calls mid iter b now calls :
  only (within call_kinds) (run_tool_calls rt wfID input suffix mid iter b now calls).
Proof.
  unfold run_tool_calls, run_parallel, run_sequential. repeat case_match; try apply only_ret;
    (apply only_bind; [|intros; apply only_ret]).
  - apply only_par; [apply sched_within|]. intros p. apply only_branch.
  - apply only_traverse. intros tc. apply only_branch.
Qed.

Lemma only_handle_budget t tel d : only (within [KBudget]) (handleBudgetExceeded rt wfID input suffix t tel d).
Proof. unfold handleBudgetExceeded. wf_only. Qed.
#[local] Hint Resolve only_handle_budget : wf_foot.

Lemma only_enforce s u : only (within [KBudget]) (enforce rt wfID input suffix s u).
Proof. unfold enforce. wf_only. Qed.
#[local] Hint Resolve only_enforce : wf_foot.

Lemma only_charge_child s u : only (within [KBudget]) (charge_child rt wfID input suffix s u).
Proof. unfold charge_child. wf_only. Qed.

Lemma only_collect b now calls rs s : only (within [KBudget; KBreaker]) (collect rt wfID input suffix b now calls rs s).
Proof.
  revert rs s. induction calls as [|tc calls IH]; intros [|r rs] s; simpl; try apply only_ret.
  apply only_bind; [unfold apply_circuit; wf_only|]. intros _.
  apply only_bind; [wf_sub only_charge_child|]. intros c. case_match; [apply only_ret|apply IH].
Qed.

Lemma only_save s : only (within [KPersist]) (save_iteration rt input suffix s).
Proof. unfold save_iteration, persist. wf_only. Qed.

Lemma only_continue iter s : only (within [KBreaker]) (continue_as_new rt input iter s).
Proof. unfold continue_as_new, detach_stream. wf_only. Qed.

Lemma only_call_llm i : only (within [KLlm]) (call_llm rt input suffix i).
Proof. unfold call_llm. wf_only. Qed.

Definition batch_kinds : list kind := call_kinds ++ [KBudget; KPersist].

Lemma only_tool_round b mid iter now s : only (within batch_kinds) (tool_round rt wfID input suffix b mid iter now s).
Proof.
  unfold tool_round. apply only_bind; [wf_sub only_tool_calls|]. intros [e|rs]; [apply only_ret|].
  apply only_bind; [wf_sub only_collect|]. intros [o|s1]; [apply only_ret|].
  apply only_bind; [wf_sub only_save|]. intros s2. wf_sub only_continue.
Qed.

Lemma only_ask iter calls s : only (within [KDecide]) (ask_extension rt suffix iter calls s).
Proof. unfold ask_extension. wf_only. Qed.

Lemma only_recall s : only (within [KMemory]) (recall rt input suffix s).
Proof. unfold recall. wf_only. Qed.

Lemma only_prefetch s : only (within [KMemory]) (prefetch rt input suffix s).
Proof. unfold prefetch. wf_only. Qed.

Lemma only_finish s : only (within [KMemory; KPersist]) (finish rt input suffix s).
Proof. unfold finish, persist_rest, store_memory, persist. wf_only. Qed.

Lemma only_cleanup : only (within [KCleanup]) (cleanup suffix).
Proof. unfold cleanup. wf_only. Qed.

Lemma only_start st : only (within []) (start_telemetry st).
Proof. unfold start_telemetry. wf_only. Qed.
End footprints.

(** ** What the parts of a round leave alone *)

(** A budget tracker without what a run adds to it. *)
Definition tracker_static (t : option BudgetTracker) : option BudgetTracker :=
  fmap (fun t => with_watermark (with_totals t 0 0 false) 0 0 0) t.

Lemma static_new cfg : tracker_static (NewBudgetTracker cfg) = NewBudgetTracker cfg.
Proof. by destruct cfg. Qed.

Lemma static_Add t u : tracker_static (Add t u).2 = tracker_static t.
Proof. by destruct t, u. Qed.

Lemma static_Advance t : tracker_static (AdvanceWatermark t).2 = tracker_static t.
Proof. by destruct t. Qed.

(** Telemetry, usage, messages and the amounts of the budget may change; nothing else. *)
Definition keeps (s s' : wf_vars) : Prop :=
  v_maxIter s' = v_maxIter s /\ v_useFallback s' = v_useFallback s /\
  v_iterationsExtended s' = v_iterationsExtended s /\ v_lastContent s' = v_lastContent s /\
  v_llm s' = v_llm s /\ v_store s' = v_store s /\ tracker_static (v_budget s') = tracker_static (v_budget s).

#[export] Instance keeps_refl : Reflexive keeps.
Proof. done. Qed.

#[export] Instance keeps_trans : Transitive keeps.
Proof. intros s1 s2 s3 (?&?&?&?&?&?&?) (?&?&?&?&?&?&?). repeat split; congruence. Qed.

Section keeps.
Context (rt : Runtime) (wfID : string) (input : AgentWorkflowInput) (suffix : string).

Lemma handle_static t tel d :
  spec (handleBudgetExceeded rt wfID input suffix t tel d) (fun _ r => tracker_static r.1.2 = tracker_static t).
Proof.
  unfold handleBudgetExceeded. cbv zeta. set (act := match ac_Budget _ with Some _ => _ | None => _ end).
  case_match; [|by apply spec_mret]. wf_step. intros [e|pause]; [by apply spec_mret|].
  wf_step. intros [e|status]; apply spec_mret; [done|].
  repeat case_match; try done. apply static_Advance.
Qed.

Lemma enforce_keeps s u : spec (enforce rt wfID input suffix s u) (fun _ r => keeps s r.2).
Proof.
  unfold enforce. case_match; [|by apply spec_mret].
  pose proof (static_Add (v_budget s) u) as Hs. destruct (Add (v_budget s) u) as [[be|] t]; cbn [snd] in Hs.
  - eapply spec_bind; [apply handle_static|]. cbn beta. intros t1 r Hr. apply spec_mret. repeat split. by transitivity (tracker_static t).
  - apply spec_mret. by repeat split.
Qed.

Lemma charge_child_keeps s u : spec (charge_child rt wfID input suffix s u) (fun _ r => keeps s r.2).
Proof.
  unfold charge_child. destruct u as [u|]; [|by apply spec_mret]. cbv zeta. case_match.
  - eapply spec_conseq; [apply enforce_keeps|]. intros t r Hr. etrans; [|exact Hr]. by repeat split.
  - apply spec_mret. repeat split. apply static_Add.
Qed.

Lemma collect_keeps b now calls : forall rs s,
  spec (collect rt wfID input suffix b now calls rs s)
    (fun _ r => match r with inr s' => keeps s s' | inl o => exists p e, o = WfFailed p e end).
Proof.
  induction calls as [|tc calls IH]; intros [|r rs] s; simpl; try (by apply spec_mret).
  eapply spec_bind; [apply spec_true|]. intros t1 [] _.
  eapply spec_bind; [apply charge_child_keeps|]. cbn beta. intros t2 [[err|] s1] Hs; cbn [fst snd] in *.
  - apply spec_mret. unfold budget_stop. eauto.
  - eapply spec_conseq; [apply IH|]. cbn beta. intros t3 [o|s2] H; [done|].
    etrans; [|exact H]. etrans; [|exact Hs]. by repeat split.
Qed.

Lemma save_keeps s : spec (save_iteration rt input suffix s) (fun _ s' => keeps s s').
Proof.
  unfold save_iteration. case_match; [|by apply spec_mret].
  eapply spec_bind; [apply spec_true|]. intros t [e|[]] _; by apply spec_mret.
Qed.
End keeps.
