(* ===== verification/TemporalActivities.v ===== *)
(** The activities a Temporal worker serves to the workflow (the second half of
    [internal/runtime/temporal/agent_workflow.go]): each checks the fingerprint of the caller and
    runs an operation of the base runtime. *)
From S2P Require Import Prelude GoLib Types Codec Prog ProgSpec Policies MemoryConfig Budget CircuitBreaker Telemetry Events Effects ErrorControl Sanitize LLM Memory Tools AgentLoop A2aClient TemporalFingerprint TemporalDefs TemporalLoop.

#[local] Open Scope string_scope.
#[local] Open Scope list_scope.
#[local] Open Scope Z_scope.

(** ** Effects of a worker

    Those of the base runtime, the resolver of the tools, the client of an event stream, the
    completion of another activity, and the tracer's span around a batch of messages. *)
Inductive ActOp :=
| ABase (o : Op)
| AFetchTools
| ARetrySignal (streamWorkflowID messageID : string)
| APublish (streamWorkflowID : string) (e : EventBody)
| AStreamClose (streamWorkflowID : string)
| ACompleteActivityByID (id : string).

Definition ActAns (o : ActOp) : Type :=
  match o with
  | ABase o => Ans o
  | AFetchTools => result (option (list Tool))   (* a nil slice is [None] *)
  | AStreamClose _ | ACompleteActivityByID _ => option error
  | ARetrySignal _ _ | APublish _ _ => unit
  end.

#[export] Instance act_sig : Sig := {| op := ActOp; ans := ActAns; sched := ABase OSched; sched_ans := id |}.

Definition acall (o : ActOp) : prog (ActAns o) := perform (S := act_sig) o.

(** Continue on success, return the error otherwise. *)
Definition bind_act {A B} (m : prog (S := act_sig) (result A)) (f : A -> prog (S := act_sig) (result B))
    : prog (S := act_sig) (result B) :=
  r ← m; match r with inl e => mret (inl e) | inr a => f a end.

#[local] Notation "x ←? m ; k" := (bind_act m (fun x => k))
  (at level 20, m at level 100, k at level 200, only parsing) : stdpp_scope.

(** An operation of the base runtime, performed by a worker. *)
Fixpoint base {A} (m : prog (S := agent_sig) A) : prog (S := act_sig) A :=
  match m with
  | Ret a => Ret a
  | Do o k => Do (S := act_sig) (ABase o) (fun r => base (k r))
  end.

(** ** The worker *)

(** [TemporalRuntime]: the base runtime and what the activities read besides. *)
Record Worker := {
  wk_Runtime : Runtime;
  wk_fingerprints : FingerprintInputs;
  wk_disableFingerprintCheck : bool;
  wk_hasResolver : bool;
  wk_hasClient : bool;
  wk_nilArgs : ToolCallRequest -> bool }.  (* which empty argument maps the model client left nil *)

(** [activity.GetInfo] *)
Record ActivityInfo := { inf_Attempt : Z; inf_TaskToken : bytes }.

Module Act.
Section worker.
Context (rt : Worker) (info : ActivityInfo).

(** The closure of the event emitter: no client without a stream. *)
Definition stream_emitter (streamWorkflowID : string) : emitter := fun e =>
  if String.eqb streamWorkflowID "" then Ret tt else call (OPublish streamWorkflowID e).

Definition fetchTools : prog (result (option (list Tool))) :=
  if wk_hasResolver rt then acall AFetchTools
  else mret (inl (errors_New "temporal: tools resolver is not configured")).

Definition worker_fingerprint (tools : list Tool) : string :=
  computeAgentFingerprintFromRuntime (wk_Runtime rt) (wk_fingerprints rt) tools.

Definition compare_fingerprints (callerFingerprint : string) (tools : list Tool) : option error :=
  let got := worker_fingerprint tools in
  if String.eqb got callerFingerprint then None
  else Some (sentinel_with_msg ErrAgentFingerprintMismatch ("worker=" +:+ Quote got +:+ " caller=" +:+ Quote callerFingerprint)).

(** Nil tools, also those an earlier fetch answered, are fetched here. *)
Definition verifyAgentFingerprint (callerFingerprint : string) (tools : option (list Tool)) : prog (option error) :=
  if wk_disableFingerprintCheck rt || String.eqb callerFingerprint "" then mret None else
  match tools with
  | Some tools => mret (compare_fingerprints callerFingerprint tools)
  | None =>
      r ← fetchTools;
      mret (match r with
            | inl err => Some err
            | inr tools => compare_fingerprints callerFingerprint (default [] tools)
            end)
  end.

(** The checks at the start of an activity. *)
Definition check_fingerprint (callerFingerprint : string) (tools : option (list Tool)) : prog (result unit) :=
  e ← verifyAgentFingerprint callerFingerprint tools;
  mret (match e with Some err => inl err | None => inr tt end).

Definition checked_tools (callerFingerprint : string) : prog (result (list Tool)) :=
  tools ←? fetchTools;
  _ ←? check_fingerprint callerFingerprint tools;
  mret (inr (default [] tools)).

(** ** Model calls *)

Definition activity_call (tc : ToolCallRequest) : TemporalToolCall :=
  {| wt_ToolCallID := tc_ToolCallID tc; wt_ToolName := tc_ToolName tc; wt_ToolDisplayName := tc_ToolDisplayName tc;
     wt_ToolKind := tc_ToolKind tc;
     wt_Args := if bool_decide (tc_Args tc = ∅) && wk_nilArgs rt tc then None else Some (tc_Args tc);
     wt_NeedsApproval := tc_NeedsApproval tc; wt_Unknown := tc_Unknown tc |}.

Definition baseLLMResultToActivity (r : LLMResult) : AgentLLMResult :=
  {| wl_Content := lr_Content r; wl_ToolCalls := map activity_call (lr_ToolCalls r);
     wl_Usage := CloneLLMUsage (lr_Usage r); wl_RetryCount := 0; wl_UsedFallback := false |}.

Definition finishLLMActivityResult (result : LLMResult) (usedFallback : bool) : AgentLLMResult :=
  let out := baseLLMResultToActivity result in
  {| wl_Content := wl_Content out; wl_ToolCalls := wl_ToolCalls out; wl_Usage := wl_Usage out;
     wl_RetryCount := if 1 <? inf_Attempt info then inf_Attempt info - 1 else wl_RetryCount out;
     wl_UsedFallback := usedFallback |}.

Definition llmActivityLastAttempt : bool :=
  let max := ep_MaxAttempts (po_LLM (executionPolicies (wk_Runtime rt))) in
  let max := if max <? 1 then 1 else max in
  max <=? inf_Attempt info.

Definition execute_llm (i : ExecuteLLMInput) (stream : bool) : prog (result LLMResult) :=
  if stream then base (ExecuteLLMStream (wk_Runtime rt) i) else base (ExecuteLLM (wk_Runtime rt) i).

Definition runLLMActivity (input : AgentLLMInput) (i : ExecuteLLMInput) (stream : bool) : prog (result AgentLLMResult) :=
  match ResolveLLMClient (wk_Runtime rt) (ali_UseFallback input) with
  | inl err => mret (inl err)
  | inr client =>
      let i := with_client i client in
      r ← execute_llm i stream;
      match r with
      | inr result => mret (inr (finishLLMActivityResult result (ali_UseFallback input)))
      | inl err =>
          if ali_UseFallback input || negb llmActivityLastAttempt then mret (inl err) else
          dec ← base (DecideLLMFailure (wk_Runtime rt) {| fi_Attempt := inf_Attempt info; fi_Err := err |});
          match dec_Action dec with
          | ErrorControlFallbackModel =>
              match ResolveLLMClient (wk_Runtime rt) true with
              | inl _ => mret (inl err)
              | inr fb =>
                  r ← execute_llm (with_client i fb) stream;
                  mret (match r with
                        | inl err => inl err
                        | inr result => inr (finishLLMActivityResult result true)
                        end)
              end
          | _ => mret (inl err)
          end
      end
  end.

(** On a retry, subscribers are told to drop what the failed attempt had published. *)
Definition signal_retry (input : AgentLLMInput) : prog unit :=
  if negb (String.eqb (ali_StreamWorkflowID input) "") && (1 <? inf_Attempt info) && negb (String.eqb (ali_MessageID input) "")
  then acall (ARetrySignal (ali_StreamWorkflowID input) (ali_MessageID input))
  else mret tt.

(** The deferred [Close] of the stream client. *)
Definition close_stream (streamWorkflowID : string) : prog unit :=
  if String.eqb streamWorkflowID "" then mret tt else _ ← acall (AStreamClose streamWorkflowID); mret tt.

Definition activity_messages (input : AgentLLMInput) : prog (result (list Message)) :=
  if conversationMemoryEnabled (wk_Runtime rt) (ali_ConversationID input) then
    conv ←? base (FetchConversationMessages (wk_Runtime rt) (ali_ConversationID input));
    mret (inr (conv ++ ali_Messages input))
  else mret (inr (ali_Messages input)).

Definition activity_llm_input (input : AgentLLMInput) (messages : list Message) (tools : list Tool) : ExecuteLLMInput :=
  {| li_AgentName := TrimSpace (ali_AgentName input); li_MessageID := ali_MessageID input; li_RunID := ali_RunID input;
     li_Iteration := ali_Iteration input; li_Messages := messages; li_SkipTools := ali_SkipTools input;
     li_MemoryContext := ali_MemoryContext input; li_RetrieverContext := ali_RetrieverContext input; li_Tools := tools;
     li_Emit := Some (stream_emitter (ali_StreamWorkflowID input)); li_Client := None |}.

(** Both model activities have this code. *)
Definition llm_activity (stream : bool) (input : AgentLLMInput) : prog (result AgentLLMResult) :=
  tools ←? checked_tools (ali_AgentFingerprint input);
  messages ←? activity_messages input;
  _ ← signal_retry input;
  r ← runLLMActivity input (activity_llm_input input messages tools) stream;
  _ ← close_stream (ali_StreamWorkflowID input);
  mret r.

Definition AgentLLMActivity : AgentLLMInput -> prog (result AgentLLMResult) := llm_activity false.
Definition AgentLLMStreamActivity : AgentLLMInput -> prog (result AgentLLMResult) := llm_activity true.

Definition AgentMaxIterationsDecisionActivity (input : AgentMaxIterationsDecisionInput) : prog (result ErrorControlDecision) :=
  d ← base (DecideMaxIterations (wk_Runtime rt)
        {| mi_IterationCount := amd_IterationCount input; mi_MaxIterations := amd_MaxIterations input;
           mi_LastAction := amd_LastAction input |} (amd_AlreadyExtended input));
  mret (inr d).

(** ** Retrieval and memory *)

Definition AgentRetrieverActivity (input : AgentRetrieverInput) : prog (result RetrieverResult) :=
  _ ←? check_fingerprint (ari_AgentFingerprint input) None;
  base (ExecuteRetrievers (wk_Runtime rt) {| eri_RunID := ari_RunID input; eri_Iteration := 0; eri_Query := ari_UserPrompt input |}).

Definition AgentMemoryRecallActivity (input : AgentMemoryRecallInput) : prog (result MemoryResult) :=
  _ ←? check_fingerprint (ami_AgentFingerprint input) None;
  base (ExecuteMemoryRecall (wk_Runtime rt) {| mri_RunID := ami_RunID input; mri_Iteration := 0;
                                              mri_Scope := ami_MemoryScope input; mri_Query := ami_UserPrompt input |}).

Definition AgentMemoryStoreActivity (input : AgentMemoryStoreInput) : prog (result unit) :=
  _ ←? check_fingerprint (ams_AgentFingerprint input) None;
  e ← base (ExecuteMemoryStore (wk_Runtime rt) {| esi_RunID := ams_RunID input; esi_Iteration := 0;
                                                 esi_Scope := ams_MemoryScope input; esi_Messages := ams_Messages input |});
  mret (match e with Some err => inl err | None => inr tt end).

(** A message that cannot be stored is skipped. *)
Definition AddConversationMessagesActivity (input : AddConversationMessagesInput) : prog (result unit) :=
  _ ←? check_fingerprint (acm_AgentFingerprint input) None;
  if negb (ac_Conversation (rt_AgentConfig (wk_Runtime rt))) then mret (inl (errors_New "conversation is not configured"))
  else
    _ ← base (add_messages (acm_ConversationID input) (acm_Messages input));
    mret (inr tt).

(** ** Tools *)

Definition AgentToolExecuteActivity (input : AgentToolExecuteInput) : prog (result string) :=
  tools ←? checked_tools (ate_AgentFingerprint input);
  base (ExecuteTool (wk_Runtime rt)
          {| ti_Tools := tools; ti_ToolName := ate_ToolName input; ti_Args := ate_Args input;
             ti_ToolCallID := ate_ToolCallID input; ti_RunID := ate_RunID input; ti_Iteration := ate_Iteration input |}
          (ate_MemoryScope input)).

Definition AgentToolAuthorizeActivity (input : AgentToolAuthorizeInput) : prog (result AuthorizeResult) :=
  tools ←? checked_tools (atz_AgentFingerprint input);
  base (AuthorizeTool (wk_Runtime rt) tools (atz_ToolName input) (atz_Args input)).

(** ** Approvals: a status, or the activity waits for its completion from outside *)

Inductive approval_answer := Answered (status : string) | Pending.

Definition taskTokenB64 : string := Base64.EncodeToString (of_bytes (inf_TaskToken info)).

(** Publish the request; without a stream, or when it cannot be flushed, nobody will see it. *)
Definition publish_request (streamWorkflowID : string) (e : EventBody) : prog approval_answer :=
  if String.eqb streamWorkflowID "" then mret (Answered ApprovalStatusUnavailable) else
  _ ← acall (APublish streamWorkflowID e);
  c ← acall (AStreamClose streamWorkflowID);
  mret (match c with Some _ => Answered ApprovalStatusUnavailable | None => Pending end).

Definition approval_request_event (input : AgentToolApprovalInput) : EventBody :=
  if String.eqb (ata_SubAgentName input) "" then
    AgentCustomEvent AgentCustomEventNameToolApproval
      (AgentCustomEventApprovalValue (ata_AgentName input) (ata_ToolCallID input) (ata_ToolName input)
         (ata_ToolDisplayName input) (ata_Args input) taskTokenB64)
  else
    AgentCustomEvent AgentCustomEventNameSubAgentDelegation
      (AgentCustomEventDelegationValue (ata_AgentName input) (ata_SubAgentName input) (ata_ToolCallID input)
         (ata_Args input) taskTokenB64).

Definition AgentToolApprovalActivity (input : AgentToolApprovalInput) : prog (result approval_answer) :=
  _ ←? check_fingerprint (ata_AgentFingerprint input) None;
  a ← publish_request (ata_StreamWorkflowID input) (approval_request_event input);
  mret (inr a).

Definition AgentBudgetApprovalActivity (input : AgentBudgetApprovalInput) : prog (result approval_answer) :=
  _ ←? check_fingerprint (aba_AgentFingerprint input) None;
  a ← publish_request (aba_StreamWorkflowID input)
        (AgentCustomEvent AgentCustomEventNameBudget
           (AgentCustomEventBudgetValue (aba_AgentName input) (aba_Detail input) (aba_TotalTokens input)
              (aba_TotalCostUSD input) taskTokenB64));
  mret (inr a).

(** ** Streams and clean-up *)

Definition PublishStreamEventActivity (input : PublishStreamEventInput) : prog (result unit) :=
  if String.eqb (pse_StreamWorkflowID input) "" then mret (inr tt) else
  _ ← acall (APublish (pse_StreamWorkflowID input) (pse_Event input));
  _ ← acall (AStreamClose (pse_StreamWorkflowID input));
  mret (inr tt).

Definition isNotFoundError (e : error) : bool :=
  Contains (err_msg e) "NotFound" || Contains (err_msg e) "not found" || Contains (err_msg e) "activity task not found".

Fixpoint complete_pending (ids : list string) : prog (result unit) :=
  match ids with
  | [] => mret (inr tt)
  | id :: ids =>
      if String.eqb id "" then complete_pending ids else
      e ← acall (ACompleteActivityByID id);
      match e with
      | Some err => if isNotFoundError err then complete_pending ids
                    else mret (inl (wrap_error ("activity: cleanup CompleteActivityByID " +:+ Quote id +:+ ": ") err))
      | None => complete_pending ids
      end
  end.

Definition AgentWorkflowCleanupActivity (input : AgentWorkflowCleanupInput) : prog (result unit) :=
  match awc_ApprovalActivityIDs input with
  | [] => mret (inr tt)
  | ids => if wk_hasClient rt then complete_pending ids
           else mret (inl (errors_New "activity: AgentWorkflowCleanupActivity requires a Temporal client"))
  end.
End worker.
End Act.
