(* ===== verification/TemporalSafety.v ===== *)
(** Safety of the Temporal workflow, over every interleaving of the tool branches of a round and
    every chain of continuations: a tool runs, or a sub-agent is started, only for a call the
    model asked for, after its authorization and, where it needs one, its approval. *)
From S2P Require Import Prelude GoLib Types Codec Prog ProgSpec Policies MemoryConfig Budget CircuitBreaker Telemetry Events Effects ErrorControl LLM Memory AgentLoop TemporalDefs TemporalLoop TemporalFacts.

#[local] Open Scope string_scope.
#[local] Open Scope list_scope.
#[local] Open Scope Z_scope.

(** ** What the theorem says *)

(** The answer of a model activity. *)
Definition llm_answer (e : wevent) : option AgentLLMResult :=
  match e with
  | Ev (WActivity _ (AgentLLMActivity _)) (inr w) => Some w
  | Ev (WActivity _ (AgentLLMStreamActivity _)) (inr w) => Some w
  | _ => None
  end.

(** A model answer of the trace contains the call. *)
Definition asked (past : list wevent) (tc : ToolCallRequest) : Prop :=
  exists e w c, In e past /\ llm_answer e = Some w /\ In c (wl_ToolCalls w) /\
    wt_ToolCallID c = tc_ToolCallID tc /\ wt_ToolName c = tc_ToolName tc /\
    wt_NeedsApproval c = tc_NeedsApproval tc /\ (tc_Unknown tc = false -> wt_Unknown c = false).

(** The authorization activity allowed this call, with these arguments. *)
Definition authorized (past : list wevent) (tc : ToolCallRequest) : Prop :=
  exists o i a, In (Ev (S := wf_sig) (WActivity o (AgentToolAuthorizeActivity i)) (inr a)) past /\
    ar_Allowed a = true /\ atz_ToolCallID i = tc_ToolCallID tc /\ atz_ToolName i = tc_ToolName tc /\
    atz_Args i = tc_Args tc.

(** The approval activity of this call was completed with an approval. *)
Definition approved (past : list wevent) (tc : ToolCallRequest) : Prop :=
  exists o i, In (Ev (S := wf_sig) (WActivity o (AgentToolApprovalActivity i)) (inr ApprovalStatusApproved)) past /\
    ata_ToolCallID i = tc_ToolCallID tc /\ ata_ToolName i = tc_ToolName tc /\ ata_Args i = tc_Args tc.

(** The event runs the call: as a tool, or as the child workflow of a sub-agent. *)
Definition performs (wfID : string) (tc : ToolCallRequest) (e : wevent) : Prop :=
  match ev_op e with
  | WActivity _ (AgentToolExecuteActivity i) =>
      ate_ToolCallID i = tc_ToolCallID tc /\ ate_ToolName i = tc_ToolName tc /\ ate_Args i = tc_Args tc
  | WChildWorkflow id _ _ i =>
      id = childWorkflowID wfID tc (wi_RunID i) /\ wi_UserPrompt i = SubAgentQuery (tc_Args tc)
  | _ => False
  end.

Definition justified_call (wfID : string) (past : list wevent) (e : wevent) : Prop :=
  event_kind e = KTool ->
  exists tc, performs wfID tc e /\ tc_Unknown tc = false /\ asked past tc /\ authorized past tc /\
    (tc_NeedsApproval tc = false \/ approved past tc).

(** ** Proof *)

Section safety.
Context (rt : Runtime) (wfID : string).

#[local] Abbreviation J := (justified_call wfID).

Lemma justified_call_mono p p' e : (forall f, In f p -> In f p') -> J p e -> J p' e.
Proof.
  intros H HJ Hk. destruct (HJ Hk) as (tc & ? & ? & (f & w & c & ? & ?) & (o & i & a & ? & ?) & Hap).
  exists tc. split; [done|]. split; [done|]. split; [exists f, w, c; auto|]. split; [exists o, i, a; auto|].
  destruct Hap as [?|(o' & i' & ? & ?)]; [by left|right]. exists o', i'. auto.
Qed.
#[local] Hint Resolve justified_call_mono : core.

Lemma asked_mono p t tc : asked p tc -> asked (p ++ t) tc.
Proof. intros (e & w & c & ? & ?). exists e, w, c. split; [apply in_or_app; by left|done]. Qed.

(** Parts that run no tool. *)
Lemma safe_within ks past {A} (m : prog A) : ~ In KTool ks -> only (within ks) m -> safe J past m.
Proof.
  intros Hk H. apply safe_only. eapply only_mono; [|exact H]. intros e He p Hke.
  by destruct (within_not ks KTool e).
Qed.

Ltac quietly ks := apply (safe_within ks); [cbn; intuition discriminate|].

Lemma safe_activity past o a :
  (forall r, J past (Ev (S := wf_sig) (WActivity o a) r)) -> safe J past (execute_activity o a).
Proof. apply (safe_perform (S := wf_sig) J past (WActivity o a)). Qed.

Lemma safe_wcall past o : (forall r, J past (Ev (S := wf_sig) o r)) -> safe J past (wcall o).
Proof. apply (safe_perform (S := wf_sig) J past o). Qed.

(** The call is justified from here on: what runs it may be performed. *)
Definition ready (past : list wevent) (tc : ToolCallRequest) : Prop :=
  tc_Unknown tc = false /\ asked past tc /\ authorized past tc /\ (tc_NeedsApproval tc = false \/ approved past tc).

Lemma ready_later past t tc : ready past tc -> ready (past ++ t) tc.
Proof.
  intros (? & ? & (o & i & a & ? & ?) & Hap). split; [done|]. split; [by apply asked_mono|]. split.
  - exists o, i, a. split; [apply in_or_app; by left|done].
  - destruct Hap as [?|(o' & i' & ? & ?)]; [by left|right]. exists o', i'. split; [apply in_or_app; by left|done].
Qed.

Lemma ready_event past tc e : ready past tc -> performs wfID tc e -> J past e.
Proof. intros (? & ? & ? & ?) ? _. exists tc. auto. Qed.

Section call.
Context (input : AgentWorkflowInput) (suffix mid slot : string) (iter : Z).

Lemma safe_emit past e : safe J past (emit_event wfID input e).
Proof. quietly [KPublish]. apply only_emit. Qed.

Lemma safe_answer past tc c f u : safe J past (answer_call wfID input mid tc c f u).
Proof. quietly [KPublish]. by apply only_answer; left. Qed.

Lemma safe_fallible past {E A B} (m : prog (sum E A)) (f : A -> prog (sum E B)) :
  safe J past m -> (forall t a, safe J (past ++ t) (f a)) -> safe J past (bind_fallible m f).
Proof. intros Hm Hf. apply safe_seq; [done|]. intros t [e|a]; [apply safe_ret|apply Hf]. Qed.

Lemma safe_delegate past tc route : ready past tc -> safe J past (delegateToSubAgent rt wfID input tc route).
Proof.
  intros H. unfold delegateToSubAgent. case_match; [apply safe_ret|]. case_match; [apply safe_ret|].
  apply safe_seq; [quietly (@nil kind); wf_only|]. intros t1 [e|sfx]; [apply safe_ret|].
  apply safe_fallible; [apply safe_emit|]. intros t2 _. apply safe_seq.
  - match goal with |- safe _ ?p (wcall ?o) => apply (safe_wcall p o) end. intros r.
    apply (ready_event _ tc); [by do 2 apply ready_later|]. by split.
  - intros t3 [e|child]; [apply safe_ret|]. apply safe_fallible; [apply safe_emit|]. intros; apply safe_ret.
Qed.

Lemma safe_approved past tc : ready past tc -> safe J past (run_approved rt wfID input suffix iter slot tc).
Proof.
  intros H. unfold run_approved. case_match.
  - apply safe_fallible; [by apply safe_delegate|]. intros; apply safe_ret.
  - apply safe_seq; [|intros; apply safe_ret].
    apply (safe_activity past (execute_options rt suffix slot (tc_ToolKind tc)) (AgentToolExecuteActivity (execute_input input iter tc))). intros r. by apply (ready_event _ tc).
Qed.

Lemma safe_after_approval past tc st :
  (st = ApprovalStatusApproved -> ready past tc) -> safe J past (after_approval rt wfID input suffix iter slot tc st).
Proof.
  intros H. unfold after_approval. case_match eqn:E; [|repeat case_match; apply safe_ret].
  apply safe_approved, H. by apply String.eqb_eq.
Qed.

(** The status of the gate is an approval only if none was needed or one was given. *)
Lemma await_approval_spec tc :
  spec (await_approval rt wfID input suffix slot tc)
    (fun t r => r = inr ApprovalStatusApproved -> tc_NeedsApproval tc = false \/ approved t tc).
Proof.
  unfold await_approval. destruct (tc_NeedsApproval tc) eqn:E; cbn [negb]; [|apply spec_mret; by left].
  wf_step. intros []. wf_step. intros r. eapply spec_bind; [apply spec_true|]. intros t [] _. apply spec_mret. intros Hr. right.
  destruct r as [e|status]; [by destruct (xe_timeout e)|]. injection Hr as ->.
  do 2 eexists. split; [by right; left|done].
Qed.

Lemma safe_approved_call past tc :
  tc_Unknown tc = false -> asked past tc -> authorized past tc ->
  safe J past (approved_call rt wfID input suffix mid iter slot tc).
Proof.
  intros Hu Ha Hz. unfold approved_call.
  apply (safe_bind _ _ (fun t r => r = inr ApprovalStatusApproved -> tc_NeedsApproval tc = false \/ approved t tc));
    [quietly [KPending; KApproval]; apply only_await_approval|apply await_approval_spec|].
  intros t [e|st] Hst; [apply safe_ret|]. apply safe_fallible; [|intros; apply safe_answer].
  apply safe_after_approval. intros ->. split; [done|]. split; [by apply asked_mono|]. split.
  - destruct Hz as (o & i & a & ? & ?). exists o, i, a. split; [apply in_or_app; by left|done].
  - destruct (Hst eq_refl) as [?|(o & i & ? & ?)]; [by left|right]. exists o, i. split; [apply in_or_app; by right|done].
Qed.

Lemma safe_branch past b now tc : asked past tc -> safe J past (run_branch rt wfID input suffix mid iter slot b now tc).
Proof.
  intros Ha. unfold run_branch, executeAgentToolCall. apply safe_seq; [|intros; apply safe_ret].
  apply safe_fallible; [quietly [KPublish]; by apply only_emit_start; left|]. intros t1 _.
  destruct (tc_Unknown tc) eqn:Hu; [apply safe_answer|].
  apply safe_seq; [quietly [KBreaker]; apply only_circuit_skips|]. intros t2 [|]; [apply safe_answer|].
  apply (safe_bind _ _ (fun t r => t = [Ev (S := wf_sig) (WActivity (authorize_options rt suffix slot) (AgentToolAuthorizeActivity (authorize_input input tc))) r]));
    [quietly [KAuthorize]; wf_only|by wf_step|].
  cbn beta. intros t3 [e|auth] ->; [apply safe_ret|].
  destruct (ar_Allowed auth) eqn:Hal; simpl; [|apply safe_answer].
  apply safe_approved_call; [done|by do 3 apply asked_mono|].
  do 3 eexists. split; [apply in_or_app; right; by left|done].
Qed.
End call.

(** ** The round *)

(** A call read from the variable is a call of the answer just decoded. *)
Lemma decode_calls_asked ws : forall s old st tc,
  In tc (map (read_call st) (take (length ws) (decode_calls s old ws).2)) ->
  exists c, In c ws /\ wt_ToolCallID c = tc_ToolCallID tc /\ wt_ToolName c = tc_ToolName tc /\
    wt_NeedsApproval c = tc_NeedsApproval tc /\ (tc_Unknown tc = false -> wt_Unknown c = false).
Proof.
  induction ws as [|w ws IH]; intros s old st tc Hin; simpl in Hin; [done|].
  unfold decode_call in Hin. destruct (decode_args s _ (wt_Args w)) as [s1 r] eqn:E1.
  destruct (decode_calls s1 (tail old) ws) as [s2 xs] eqn:E2. simpl in Hin. destruct Hin as [<-|Hin].
  - exists w. split; [by left|]. simpl. repeat split; try done. intros H. by apply orb_false_iff in H as [_ ?].
  - destruct (IH s1 (tail old) st tc) as (c & ? & ?); [by rewrite E2|]. exists c. split; [by right|done].
Qed.

Lemma decoded_asked s w st tc :
  In tc (map (read_call st) (current_slots (v_llm (set_llm s w)))) ->
  exists c, In c (wl_ToolCalls w) /\ wt_ToolCallID c = tc_ToolCallID tc /\ wt_ToolName c = tc_ToolName tc /\
    wt_NeedsApproval c = tc_NeedsApproval tc /\ (tc_Unknown tc = false -> wt_Unknown c = false).
Proof.
  unfold set_llm, current_slots, decode_result. destruct (wl_ToolCalls w) as [|c ws] eqn:E; [done|].
  destruct (decode_calls (v_store s) (lv_slots (v_llm s)) (c :: ws)) as [s2 xs] eqn:E2. cbn [v_llm snd lv_len lv_slots].
  intros Hin. pose proof (decode_calls_asked (c :: ws) (v_store s) (lv_slots (v_llm s)) st tc) as H.
  rewrite E2 in H. auto.
Qed.

Section round.
Context (input : AgentWorkflowInput) (suffix : string) (mem ret : string) (b : bool).

Lemma safe_tool_calls past mid iter now calls :
  (forall tc, In tc calls -> asked past tc) -> safe J past (run_tool_calls rt wfID input suffix mid iter b now calls).
Proof.
  intros H. unfold run_tool_calls, run_parallel, run_sequential. repeat case_match; try apply safe_ret;
    (apply safe_seq; [|intros; apply safe_ret]).
  - apply safe_par; [by apply justified_call_mono|intros e p He Hk; by rewrite (sched_quiet e He) in Hk|].
    intros p Hp. apply safe_branch, H. unfold indexed in Hp. destruct p as [n tc]. by apply in_combine_r in Hp.
  - apply safe_traverse; [by apply justified_call_mono|]. intros tc Htc. by apply safe_branch, H.
Qed.

(** The calls the variable holds were asked for. *)
Definition all_asked (past : list wevent) (s : wf_vars) : Prop :=
  forall st tc, In tc (map (read_call st) (current_slots (v_llm s))) -> asked past tc.

Lemma safe_tool_round past mid iter now s :
  all_asked past s -> safe J past (tool_round rt wfID input suffix b mid iter now s).
Proof.
  intros H. unfold tool_round. apply safe_seq; [by apply safe_tool_calls, H|]. intros t1 [e|rs]; [apply safe_ret|].
  apply safe_seq; [quietly [KBudget; KBreaker]; apply only_collect|]. intros t2 [o|s1]; [apply safe_ret|].
  apply safe_seq; [quietly [KPersist]; apply only_save|]. intros t3 s2.
  quietly [KBreaker]. apply only_continue.
Qed.

Lemma safe_final past iter s : safe J past (final_round rt wfID input suffix mem ret iter s).
Proof.
  quietly [KLlm; KBudget]. unfold final_round. apply only_bind; [wf_only|]. intros mid.
  apply only_bind; [wf_sub only_call_llm|]. intros [e|w]; [apply only_ret|].
  apply only_bind; [wf_sub only_enforce|]. intros c. case_match; apply only_ret.
Qed.

Lemma all_asked_later past t s : all_asked past s -> all_asked (past ++ t) s.
Proof. intros H st tc Hin. by eapply asked_mono, H. Qed.

Lemma safe_after_llm past mid iter now s :
  all_asked past s -> safe J past (after_llm_answer rt wfID input suffix mem ret b mid iter now s).
Proof.
  intros H. unfold after_llm_answer. destruct (current_slots (v_llm s)) as [|x slots] eqn:E; [apply safe_ret|].
  rewrite <- E. case_match; [|by apply safe_tool_round].
  apply safe_seq; [quietly [KDecide]; apply only_ask|]. intros t [e|[extra|]];
    [apply safe_ret|apply safe_tool_round; by apply all_asked_later|apply safe_final].
Qed.

Lemma spec_call_llm i :
  spec (call_llm rt input suffix i)
    (fun t r => forall w, r = inr w -> exists e, In e t /\ llm_answer e = Some w).
Proof.
  unfold call_llm. case_match;
    wf_step; intros r w ->; eexists; (split; [by left|done]).
Qed.

Lemma safe_round past iter s : safe J past (round rt wfID input suffix mem ret b iter s).
Proof.
  unfold round. apply safe_seq; [quietly (@nil kind); wf_only|]. intros t1 now.
  apply safe_seq; [quietly (@nil kind); wf_only|]. intros t2 mid.
  eapply safe_bind; [quietly [KLlm]; apply only_call_llm|apply spec_call_llm|]. cbn beta.
  intros t3 [e|w] Hw; [apply safe_ret|]. cbv zeta.
  eapply safe_bind; [quietly [KBudget]; apply only_enforce|apply enforce_keeps|]. cbn beta.
  intros t4 [[err|] s4] Hs; [apply safe_ret|]. apply safe_after_llm. apply all_asked_later.
  intros st tc Hin. cbn [snd] in *. destruct Hs as (_ & _ & _ & _ & Hs & _). rewrite Hs in Hin. apply decoded_asked in Hin as (c & ? & ?).
  destruct (Hw w eq_refl) as (e & ? & ?). exists e, w, c. split; [apply in_or_app; by right|done].
Qed.

Lemma safe_loop fuel : forall past iter s, safe J past (loop rt wfID input suffix mem ret b fuel iter s).
Proof.
  induction fuel as [|fuel IH]; intros past iter s; cbn [loop]; (case_match; [apply safe_ret|]).
  - apply safe_seq; [quietly [KFuel]; wf_only|]. intros; apply safe_ret.
  - apply safe_seq; [apply safe_round|]. intros t [s1|s1|o]; [apply IH|apply safe_ret..].
Qed.
End round.

Lemma safe_workflow past fuel input : safe J past (AgentWorkflow rt wfID fuel input).
Proof.
  unfold AgentWorkflow. apply safe_seq; [quietly (@nil kind); wf_only|]. intros t1 [e|]; [apply safe_ret|].
  apply safe_seq; [quietly (@nil kind); wf_only|]. intros t2 [e|]; [apply safe_ret|].
  apply safe_seq; [quietly (@nil kind); wf_only|]. intros t3 [e|sfx]; [apply safe_ret|].
  apply safe_seq; [|intros t4 o; apply safe_seq; [quietly [KCleanup]; apply only_cleanup|intros; apply safe_ret]].
  unfold run_body, run_from. apply safe_seq; [quietly (@nil kind); apply only_start|]. intros t4 tel.
  apply safe_seq; [quietly [KBreakerInit]; wf_only|]. intros t5 _.
  apply safe_seq; [quietly [KMemory]; apply only_recall|]. intros t6 [e|[mem s]]; [apply safe_ret|].
  apply safe_seq; [quietly [KMemory]; apply only_prefetch|]. intros t7 [e|[ret s1]]; [apply safe_ret|].
  apply safe_seq; [apply safe_loop|]. intros t8 [o|s2]; [apply safe_ret|].
  quietly [KMemory; KPersist]. apply only_finish.
Qed.

Lemma safe_chain n fuel : forall past input, safe J past (run_chain rt wfID n fuel input).
Proof.
  induction n as [|n IH]; intros past input; cbn [run_chain]; (apply safe_seq; [apply safe_workflow|]);
    intros t [r|p e|i]; try apply safe_ret. apply IH.
Qed.
End safety.

(** C6: In a run of the Temporal workflow, continued as new any number of times and under every
    interleaving of parallel tool calls, a tool execution or a child workflow of a sub-agent is
    preceded by a model answer that asked for this very call and did not name an unknown tool,
    by an authorization that allowed it with these arguments, and, when the answer says it
    needs one, by an approval of it with these arguments. *)
Theorem workflow_tool_safety rt wfID n fuel input tr o :
  texec (run_chain rt wfID n fuel input) tr o ->
  forall pre e post, tr = pre ++ e :: post -> event_kind e = KTool ->
    exists tc, performs wfID tc e /\ tc_Unknown tc = false /\ asked pre tc /\ authorized pre tc /\
      (tc_NeedsApproval tc = false \/ approved pre tc).
Proof. intros Hx pre e post -> Hk. by apply (safe_chain rt wfID n fuel [] input _ _ Hx pre e post). Qed.
