(* ===== verification/TemporalBounds.v ===== *)
(** Bounds of the Temporal workflow over every chain of continuations: the model calls, the
    single extension, and that the chain ends. *)
From S2P Require Import Prelude GoLib Types Codec Prog ProgSpec Policies MemoryConfig Budget CircuitBreaker Telemetry Events Effects ErrorControl LLM Memory AgentLoop TemporalDefs TemporalLoop TemporalFacts.

#[local] Open Scope string_scope.
#[local] Open Scope list_scope.
#[local] Open Scope Z_scope.

(** The decision activity answers as [base.DecideMaxIterations] does. *)
Definition decision_answered (e : wevent) : Prop :=
  match e with
  | Ev (WActivity _ (AgentMaxIterationsDecisionActivity i)) (inr d) =>
      bounded_decision (amd_MaxIterations i) (amd_AlreadyExtended i) d
  | _ => True
  end.

(** It granted extra rounds. *)
Definition is_extension (e : wevent) : bool :=
  match e with
  | Ev (WActivity _ (AgentMaxIterationsDecisionActivity i)) (inr d) =>
      match dec_Action d with ErrorControlExtendIterations => true | _ => false end
  | _ => false
  end.

Section bounds.
Context (rt : Runtime) (wfID : string).

#[local] Abbreviation M := (originalMaxIter rt).

(** ** The variables a run passes on *)

Definition in_bounds (s : wf_vars) : Prop :=
  v_iterationsExtended s = false /\ v_maxIter s = M \/
  v_iterationsExtended s = true /\ 0 < M /\ M < v_maxIter s <= 2 * M.

Definition vars_ok (s : wf_vars) : Prop :=
  in_bounds s /\ v_lastContent s = "" /\
  tracker_static (v_budget s) = NewBudgetTracker (ac_Budget (rt_AgentConfig rt)).

Lemma keeps_ok s s' : keeps s s' -> vars_ok s -> vars_ok s'.
Proof. unfold vars_ok, in_bounds. intros (H1 & _ & H2 & H3 & _ & _ & H4). rewrite H1, H2, H3, H4. done. Qed.

Lemma restored_static st : tracker_static (restored_budget rt st) = NewBudgetTracker (ac_Budget (rt_AgentConfig rt)).
Proof. unfold restored_budget. by destruct (ac_Budget (rt_AgentConfig rt)). Qed.

Lemma restored_bound s iter br t :
  in_bounds s -> v_maxIter (restored_vars rt (saved_state rt iter s br) t) = v_maxIter s.
Proof.
  unfold restored_vars, saved_state, extraGranted. cbn [v_maxIter st_ExtraIterations].
  intros [[_ H]|(_ & H0 & H1 & H2)].
  - rewrite H, Z.ltb_irrefl, andb_false_r. done.
  - replace (0 <? M) with true by (symmetry; by apply Z.ltb_lt).
    replace (M <? v_maxIter s) with true by (symmetry; by apply Z.ltb_lt). cbn [andb].
    replace (0 <? v_maxIter s - M) with true by (symmetry; apply Z.ltb_lt; lia). lia.
Qed.

Lemma restored_ok s iter br t : vars_ok s -> vars_ok (restored_vars rt (saved_state rt iter s br) t).
Proof.
  intros (Hb & _ & _). split; [|split; [done|apply restored_static]].
  pose proof (restored_bound s iter br t Hb) as Hm. unfold in_bounds in *. rewrite Hm. exact Hb.
Qed.

Lemma initial_ok input t : vars_ok (restored_vars rt (initial_state input) t).
Proof. split; [by left|]. split; [done|apply restored_static]. Qed.

(** ** One round *)

Definition ext (s : wf_vars) : Z := if v_iterationsExtended s then 1 else 0.

(** What a round of iteration [iter] from [s] does, [n] model calls being made before. *)
Definition round_post (n : Z) (input : AgentWorkflowInput) (iter : Z) (s : wf_vars) (tr : list wevent) (r : wf_round) : Prop :=
  let calls := n + count_kind KLlm tr in
  let extensions := count_if is_extension tr + ext s in
  match r with
  | RNext s' => vars_ok s' /\ calls = 1 /\ extensions <= ext s'
  | RBreak s' => calls <= 2 /\ extensions <= 1
  | RReturn o => calls <= 2 /\ extensions <= 1 /\
      forall i, o = WfContinueAsNew i -> calls = 1 /\
        exists s' stream br, i = with_state input stream (Some (saved_state rt iter s' br)) /\ vars_ok s' /\ extensions <= ext s'
  end.

Lemma ext_le s : 0 <= ext s <= 1.
Proof. unfold ext. case_match; lia. Qed.

Lemma keeps_ext s s' : keeps s s' -> ext s' = ext s.
Proof. unfold ext. intros (_ & _ & H & _). by rewrite H. Qed.

(** Parts without a model call or a decision. *)
Definition plain (tr : list wevent) : Prop := count_kind KLlm tr = 0 /\ count_if is_extension tr = 0.

Lemma plain_app t1 t2 : plain t1 -> plain t2 -> plain (t1 ++ t2).
Proof. unfold plain, count_kind. rewrite !count_if_app. lia. Qed.

Lemma not_extension e : event_kind e <> KDecide -> is_extension e = false.
Proof. destruct e as [o r]. destruct o; try done. destruct a; done. Qed.

Lemma only_plain ks {A} (m : prog A) :
  ~ In KLlm ks -> ~ In KDecide ks -> only (within ks) m -> spec m (fun tr _ => plain tr).
Proof.
  intros H1 H2 H. apply spec_and; [by eapply count_kind_none|].
  eapply spec_conseq; [exact H|]. cbn beta. intros tr _ Ht. apply count_if_none.
  eapply Forall_impl; [exact Ht|]. intros e He. apply not_extension. by eapply within_not.
Qed.

Ltac plainly ks := apply (only_plain ks); [cbn; intuition discriminate..|].

Section round.
Context (input : AgentWorkflowInput) (suffix : string).

(** A continuation saves the variables it was given. *)
Lemma continue_spec iter s :
  spec (continue_as_new rt input iter s) (fun tr r => plain tr /\
    match r with
    | RNext s' => s' = s
    | RBreak _ => False
    | RReturn o => forall i, o = WfContinueAsNew i ->
        exists stream br, i = with_state input stream (Some (saved_state rt iter s br))
    end).
Proof.
  apply spec_and; [plainly [KBreaker]; apply only_continue|].
  unfold continue_as_new. eapply spec_bind; [apply spec_true|]. intros t1 h _. case_match; [|by apply spec_mret].
  eapply spec_bind; [apply spec_true|]. intros t2 [e|stream] _; [by apply spec_mret|].
  eapply spec_bind; [apply spec_true|]. intros t3 br _. apply spec_mret. intros i [= <-]. eauto.
Qed.

Lemma tool_round_spec b mid iter now s :
  spec (tool_round rt wfID input suffix b mid iter now s) (fun tr r => plain tr /\
    match r with
    | RNext s' => keeps s s'
    | RBreak _ => False
    | RReturn o => forall i, o = WfContinueAsNew i ->
        exists s' stream br, keeps s s' /\ i = with_state input stream (Some (saved_state rt iter s' br))
    end).
Proof.
  apply spec_and; [plainly batch_kinds; apply only_tool_round|]. unfold tool_round. cbv zeta.
  eapply spec_bind; [apply spec_true|]. intros t1 [e|rs] _; [by apply spec_mret|].
  eapply spec_bind; [apply collect_keeps|]. cbn beta. intros t2 [o|s1] H1; [destruct H1 as (p & e & ->); by apply spec_mret|].
  eapply spec_bind; [apply save_keeps|]. cbn beta. intros t3 s2 H2.
  assert (Hk : keeps s s2).
  { transitivity s1; [|exact H2]. etrans; [|exact H1]. by repeat split. }
  eapply spec_conseq; [apply continue_spec|]. cbn beta. intros t4 [s3|s3|o] [_ H3]; [by subst|done|].
  intros i Hi. destruct (H3 i Hi) as (stream & br & ->). eauto 6.
Qed.

Lemma call_llm_spec i :
  spec (call_llm rt input suffix i) (fun tr _ => count_kind KLlm tr = 1 /\ count_if is_extension tr = 0).
Proof. unfold call_llm. case_match; by wf_step. Qed.

Lemma final_spec mem ret iter s :
  spec (final_round rt wfID input suffix mem ret iter s) (fun tr r =>
    count_kind KLlm tr <= 1 /\ count_if is_extension tr = 0 /\
    match r with RNext _ => False | RBreak _ => True | RReturn o => forall i, o <> WfContinueAsNew i end).
Proof.
  unfold final_round. wf_step. intros mid. eapply spec_bind; [apply call_llm_spec|]. cbn beta.
  assert (forall t, count_kind KLlm t <= 1 -> count_if is_extension t = 0 ->
    count_kind KLlm (Ev (S := wf_sig) WUUID mid :: t) <= 1 /\ count_if is_extension (Ev (S := wf_sig) WUUID mid :: t) = 0)
    as Hmid by (intros t ? ?; split; [|done]; counts; exact H).
  intros t1 [e|w] [H1 H2].
  - apply spec_mret. destruct (Hmid (t1 ++ [])) as [? ?]; [counts; lia..|]. split_and!; done.
  - eapply spec_bind; [apply (only_plain [KBudget]); [cbn; intuition discriminate..|apply only_enforce]|]. cbn beta.
    intros t2 [[err|] s'] [H3 H4]; apply spec_mret;
      (destruct (Hmid (t1 ++ t2 ++ [])) as [? ?]; [counts; lia..|]); split_and!; done.
Qed.

(** The decision is a decision of the round in which the rounds run out. *)
Lemma ask_spec iter calls s :
  spec (ask_extension rt suffix iter calls s) (given decision_answered (fun tr r =>
    count_kind KLlm tr = 0 /\
    match r with
    | inr (Some extra) =>
        v_iterationsExtended s = false /\ 1 <= extra <= EffectiveMaxIterations M /\ count_if is_extension tr = 1
    | _ => count_if is_extension tr = 0
    end)).
Proof.
  unfold ask_extension, bind_fallible. case_match; [|by apply spec_mret]. wf_step.
  intros [e|dec]; apply spec_mret; [done|]. intros Hd. apply Forall_cons_1 in Hd as [Hd _]. cbn in Hd.
  split; [done|]. unfold count_if. cbn.
  destruct Hd as [->|(-> & Hext & Hb)]; [done|]. auto.
Qed.

(** A tool round, after the answer that asked for its calls and from variables that may have
    been extended. *)
Lemma tool_round_post b mid iter now s0 s x :
  vars_ok s -> x + ext s0 <= ext s ->
  spec (tool_round rt wfID input suffix b mid iter now s) (fun tr r =>
    forall t, count_kind KLlm t = 0 -> count_if is_extension t = x -> round_post 1 input iter s0 (t ++ tr) r).
Proof.
  intros Hs Hx. eapply spec_conseq; [apply tool_round_spec|]. cbn beta. intros tr r [[H1 H2] H] t Ht1 Ht2.
  pose proof (ext_le s). unfold round_post. cbv zeta. assert (count_kind KLlm (t ++ tr) = 0 /\ count_if is_extension (t ++ tr) = x) as [-> ->] by (counts; lia).
  destruct r as [s'|s'|o]; [|done|].
  - rewrite (keeps_ext s s' H). split; [by apply (keeps_ok s)|]. lia.
  - split; [lia|]. split; [lia|]. intros i Hi. split; [lia|].
    destruct (H i Hi) as (s' & stream & br & Hk & ->). exists s', stream, br. split; [done|].
    rewrite (keeps_ext s s' Hk). split; [by apply (keeps_ok s)|lia].
Qed.

Lemma extend_ok s extra :
  vars_ok s -> v_iterationsExtended s = false -> 0 < v_maxIter s -> 1 <= extra <= EffectiveMaxIterations M ->
  vars_ok (extend s extra).
Proof.
  intros ([[_ Hm]|[? _]] & ? & ?) He Hpos Hx; [|congruence]. split; [|done]. right. cbn. rewrite Hm in *.
  unfold EffectiveMaxIterations in Hx. replace (M <=? 0) with false in Hx by (symmetry; apply Z.leb_gt; lia). lia.
Qed.

Lemma after_llm_spec mem ret b mid iter now s :
  vars_ok s -> 0 <= iter < v_maxIter s ->
  spec (after_llm_answer rt wfID input suffix mem ret b mid iter now s) (given decision_answered (round_post 1 input iter s)).
Proof.
  intros Hs Hi. pose proof (ext_le s). unfold after_llm_answer.
  destruct (current_slots (v_llm s)) as [|x slots]; [apply spec_mret; intros _; unfold round_post, count_kind; rewrite !count_if_nil; lia|].
  destruct (iter =? v_maxIter s - 1).
  2:{ apply spec_given. eapply spec_conseq; [apply (tool_round_post b mid iter now s s 0); [done|lia]|].
      intros tr r Hr. by apply (Hr []). }
  eapply spec_given_bind; [apply ask_spec|]. cbn beta. intros t1 [e|[extra|]] _ [H2 H3]; apply spec_given.
  - apply spec_mret. rewrite app_nil_r. cbn. rewrite H2, H3. split_and!; [lia..|done].
  - destruct H3 as (He & Hx & H3). eapply spec_conseq; [apply (tool_round_post b mid iter now s (extend s extra) 1)|].
    + apply extend_ok; [done..|lia|done].
    + unfold ext. rewrite He. cbn. lia.
    + intros tr r Hr. by apply Hr.
  - eapply spec_conseq; [apply final_spec|]. cbn beta. intros tr r (H4 & H5 & H6). unfold round_post. cbv zeta.
    assert (count_kind KLlm (t1 ++ tr) <= 1 /\ count_if is_extension (t1 ++ tr) = 0) as [? ->] by (counts; lia).
    destruct r as [?|?|o]; [done|lia|]. split_and!; [lia..|]. intros i Ho. by destruct (H6 i).
Qed.

Lemma round_spec mem ret b iter s :
  vars_ok s -> 0 <= iter < v_maxIter s ->
  spec (round rt wfID input suffix mem ret b iter s) (given decision_answered (round_post 0 input iter s)).
Proof.
  intros Hs Hi. pose proof (ext_le s). unfold round. wf_step. intros now. wf_step. intros mid.
  assert (Hpre : forall n t r, round_post n input iter s t r ->
    round_post n input iter s (Ev (S := wf_sig) WNow now :: Ev (S := wf_sig) WUUID mid :: t) r).
  { intros n t r H'. unfold round_post in *. cbv zeta in *. unfold count_kind in *. rewrite !count_if_cons. exact H'. }
  eapply spec_conseq; [|intros t r H'; exact (fun Hf => Hpre 0 t r (H' (proj2 (Forall_cons_1 _ _ _ (proj2 (Forall_cons_1 _ _ _ Hf))))))].
  eapply (spec_given_bind decision_answered); [apply spec_given, call_llm_spec|]. cbn beta. intros t1 [e|w] _ [H1 H2].
  - apply spec_given, spec_mret. rewrite app_nil_r. cbn. rewrite H1, H2. split_and!; [lia..|done].
  - cbv zeta. match goal with |- context [enforce _ _ _ _ ?s1 ?u] => set (s1' := s1); set (u' := u) end.
    eapply (spec_given_bind decision_answered);
      [apply spec_given, spec_and; [apply (only_plain [KBudget]); [cbn; intuition discriminate..|apply only_enforce]|apply enforce_keeps]|].
    cbn beta. intros t2 [[err|] s2] _ [[H3 H4] Hk]; cbn [fst snd] in *.
    + apply spec_given, spec_mret. cbn. rewrite app_nil_r.
      assert (count_kind KLlm (t1 ++ t2) = 1 /\ count_if is_extension (t1 ++ t2) = 0) as [-> ->] by (counts; lia).
      split_and!; [lia..|done].
    + assert (Hs2 : vars_ok s2) by (apply (keeps_ok s1'); done).
      assert (He2 : ext s2 = ext s) by (rewrite (keeps_ext _ _ Hk); done).
      assert (Hm2 : v_maxIter s2 = v_maxIter s) by (by destruct Hk as [-> _]).
      eapply spec_conseq; [apply (after_llm_spec mem ret b mid iter now s2); [done|lia]|].
      cbn beta. intros t3 r H5 Hf. specialize (H5 Hf). unfold round_post in *. cbv zeta in *.
      assert (count_kind KLlm (t1 ++ t2 ++ t3) = 1 + count_kind KLlm t3 /\
              count_if is_extension (t1 ++ t2 ++ t3) = count_if is_extension t3) as [-> ->] by (counts; lia).
      rewrite He2 in H5. rewrite Z.add_0_l. exact H5.
Qed.
End round.

(** ** The loop and the whole run *)

(** What a run that starts at iteration [iter], with [x] extensions granted, does. *)
Definition run_post (input : AgentWorkflowInput) (iter x : Z) (tr : list wevent) (o : option wf_outcome) : Prop :=
  let calls := count_kind KLlm tr in
  let extensions := count_if is_extension tr + x in
  0 <= calls <= Z.max 0 (2 * M - iter) + 1 /\ extensions <= 1 /\ count_kind KFuel tr = 0 /\
  forall i, o = Some (WfContinueAsNew i) -> exists k s stream br,
    i = with_state input stream (Some (saved_state rt k s br)) /\ vars_ok s /\ extensions <= ext s /\
    iter <= k < 2 * M /\ calls = k + 1 - iter.

Section loop.
Context (input : AgentWorkflowInput) (suffix : string).

Lemma only_round mem ret b iter s : only (within (KLlm :: KDecide :: batch_kinds)) (round rt wfID input suffix mem ret b iter s).
Proof.
  unfold round. apply only_bind; [wf_only|]. intros now. apply only_bind; [wf_only|]. intros mid.
  apply only_bind; [wf_sub only_call_llm|]. intros [e|w]; [apply only_ret|]. cbv zeta.
  apply only_bind; [wf_sub only_enforce|]. intros c. case_match; [apply only_ret|]. unfold after_llm_answer.
  repeat case_match; try apply only_ret; [|wf_sub only_tool_round].
  apply only_bind; [wf_sub only_ask|]. intros [e|[extra|]]; [apply only_ret|wf_sub only_tool_round|].
  unfold final_round. apply only_bind; [wf_only|]. intros mid'. apply only_bind; [wf_sub only_call_llm|].
  intros [e|w']; [apply only_ret|]. cbv zeta. apply only_bind; [wf_sub only_enforce|]. intros c'. case_match; apply only_ret.
Qed.

Lemma round_fuel_free mem ret b iter s :
  spec (round rt wfID input suffix mem ret b iter s) (fun tr _ => count_kind KFuel tr = 0).
Proof. eapply (count_kind_none KFuel); [done| |apply only_round]. cbn. intuition discriminate. Qed.

Lemma max_bound s : vars_ok s -> v_maxIter s <= Z.max 0 (2 * M).
Proof. intros ([[_ ?]|?] & _); lia. Qed.

Lemma loop_spec mem ret b fuel : forall iter s,
  vars_ok s -> 0 <= iter -> 2 * M - iter <= Z.of_nat fuel ->
  spec (loop rt wfID input suffix mem ret b fuel iter s)
    (given decision_answered (fun tr r => run_post input iter (ext s) tr (match r with inl o => Some o | inr _ => None end))).
Proof.
  assert (Hnil : forall iter s (x : wf_vars), spec (mret (inr x : wf_outcome + wf_vars)) (given decision_answered
    (fun tr r => run_post input iter (ext s) tr (match r with inl o => Some o | inr _ => None end)))).
  { intros iter s x. apply spec_given, spec_mret. pose proof (ext_le s).
    unfold run_post, count_kind. cbv zeta. rewrite !count_if_nil. split_and!; [lia..|done]. }
  induction fuel as [|fuel IH]; intros iter s Hs Hi Hf; cbn [loop]; pose proof (max_bound s Hs); pose proof (ext_le s);
    (destruct (v_maxIter s <=? iter) eqn:E; crush_bool; [apply (Hnil iter s)|]); [lia|].
  eapply spec_given_bind; [intros tr r Hx Ht; exact (conj (round_spec input suffix mem ret b iter s Hs ltac:(lia) tr r Hx Ht)
                                                         (round_fuel_free mem ret b iter s tr r Hx))|].
  cbn beta. intros t1 [s1|s1|o] _ [H1 H2]; unfold round_post in H1; cbv zeta in H1.
  - destruct H1 as (Hs1 & Hc & He). eapply spec_conseq; [apply (IH (iter + 1) s1 Hs1); lia|]. cbn beta.
    intros t2 r H3 Ht. destruct (H3 Ht) as (Ha & Hb & Hd & Hn). unfold run_post. cbv zeta.
    unfold count_kind in *. rewrite !count_if_app. split_and!; [lia..|].
    intros i Hr. destruct (Hn i Hr) as (k & s' & stream & br & -> & ? & ? & ? & ?). exists k, s', stream, br.
    split_and!; [done|done|lia..].
  - apply spec_given, spec_mret. unfold run_post. cbv zeta. rewrite app_nil_r. unfold count_kind in *.
    pose proof (count_if_nonneg (fun e => bool_decide (event_kind e = KLlm)) t1). split_and!; [lia..|done].
  - destruct H1 as (Hc & He & Hn). apply spec_given, spec_mret. unfold run_post. cbv zeta. rewrite app_nil_r.
    pose proof (count_if_nonneg (fun e => bool_decide (event_kind e = KLlm)) t1). unfold count_kind in *. split_and!; [lia..|].
    intros i [= Ho]. destruct (Hn i Ho) as (Hc1 & s' & stream & br & -> & ? & ?).
    exists iter, s', stream, br. split_and!; [done|done|lia..].
Qed.
End loop.

Lemma recall_keeps input suffix s :
  spec (recall rt input suffix s) (fun _ r => match r with inr p => keeps s p.2 | inl _ => True end).
Proof.
  unfold recall, bind_fallible. case_match; [|by apply spec_mret]. wf_step. intros [e|r]; by apply spec_mret.
Qed.

Lemma prefetch_keeps input suffix s :
  spec (prefetch rt input suffix s) (fun _ r => match r with inr p => keeps s p.2 | inl _ => True end).
Proof.
  unfold prefetch, bind_fallible. case_match; [|by apply spec_mret]. wf_step. intros [e|r]; by apply spec_mret.
Qed.

(** ** A run and its continuations *)

(** No model call, decision or exhausted fuel. *)
Definition calm (tr : list wevent) : Prop := plain tr /\ count_kind KFuel tr = 0.

Lemma only_calm ks {A} (m : prog A) :
  ~ In KLlm ks -> ~ In KDecide ks -> ~ In KFuel ks -> only (within ks) m -> spec m (fun tr _ => calm tr).
Proof. intros H1 H2 H3 H. apply spec_and; [by apply (only_plain ks)|by eapply count_kind_none]. Qed.

Ltac calmly ks := apply (only_calm ks); [cbn; intuition discriminate..|].

Lemma run_post_calm input k x t1 tr t2 o :
  calm t1 -> calm t2 -> run_post input k x tr o -> run_post input k x (t1 ++ tr ++ t2) o.
Proof.
  intros [[H1 H2] H3] [[H4 H5] H6] (Ha & Hb & Hc & Hd). unfold run_post, count_kind in *. cbv zeta.
  rewrite !count_if_app. split_and!; [lia..|]. intros i Hi.
  destruct (Hd i Hi) as (k' & s & stream & br & -> & ? & ? & ? & ?). exists k', s, stream, br. split_and!; [done|done|lia..].
Qed.

Lemma run_post_weaken input k x tr o : run_post input k x tr None -> (forall i, o <> Some (WfContinueAsNew i)) -> run_post input k x tr o.
Proof. intros (Ha & Hb & Hc & _) Ho. split_and!; [lia..|]. intros i Hi. by destruct (Ho i). Qed.

Lemma run_post_nil input k x o : x <= 1 -> (forall i, o <> Some (WfContinueAsNew i)) -> run_post input k x [] o.
Proof. intros Hx Ho. unfold run_post, count_kind. cbv zeta. rewrite !count_if_nil. split_and!; [lia..|]. intros i Hi. by destruct (Ho i). Qed.

(** A calm first part. *)
Lemma run_post_bind {A} input k x (m : prog A) (f : A -> prog wf_outcome) (R : list wevent -> A -> Prop) :
  spec m (fun tr _ => calm tr) -> spec m R ->
  (forall t a, R t a -> spec (f a) (given decision_answered (fun tr o => run_post input k x tr (Some o)))) ->
  spec (m ≫= f) (given decision_answered (fun tr o => run_post input k x tr (Some o))).
Proof.
  intros Hm HR Hf. eapply spec_given_bind; [apply spec_given, (spec_and _ _ _ Hm HR)|]. cbn beta.
  intros t1 a _ [Ht1 Ha]. eapply spec_conseq; [by apply (Hf t1)|]. intros t2 o H2 Hd.
  specialize (H2 Hd). rewrite <- (app_nil_r t2). by apply run_post_calm.
Qed.

Lemma finish_outcome input suffix s : spec (finish rt input suffix s) (fun _ o => forall i, Some o <> Some (WfContinueAsNew i)).
Proof.
  unfold finish. eapply spec_bind; [apply spec_true|]. intros t1 [e|] _; [by apply spec_mret|].
  eapply spec_bind; [apply spec_true|]. intros t2 [e|s'] _; [by apply spec_mret|]. wf_step. intros now. by apply spec_mret.
Qed.

(** The input of a fresh run, or of a continuation saved from sound variables. *)
Definition input_ok (input : AgentWorkflowInput) (k x : Z) : Prop :=
  match wi_State input with
  | None => k = 0 /\ x = 0
  | Some st => exists s br, st = saved_state rt (k - 1) s br /\ vars_ok s /\ x = ext s /\ 0 <= k
  end.

Lemma input_ok_vars input k x : input_ok input k x ->
  let st := default (initial_state input) (wi_State input) in
  st_Iteration st = k /\ 0 <= k /\ x <= 1 /\ forall t, vars_ok (restored_vars rt st t) /\ ext (restored_vars rt st t) = x.
Proof.
  unfold input_ok. destruct (wi_State input) as [st|]; cbn [default].
  - intros (s & br & -> & Hs & -> & Hk). pose proof (ext_le s). split_and!; [cbn; lia..|].
    intros t. split; [by apply restored_ok|done].
  - intros [-> ->]. split_and!; [done..|]. intros t. split; [apply initial_ok|done].
Qed.

Lemma run_body_spec input suffix fuel k x :
  input_ok input k x -> 2 * M - k <= Z.of_nat fuel ->
  spec (run_body rt wfID input suffix fuel) (given decision_answered (fun tr o => run_post input k x tr (Some o))).
Proof.
  intros Hin Hf. destruct (input_ok_vars input k x Hin) as (Hk & H0 & Hx & Hv). unfold run_body, run_from. cbv zeta.
  apply (run_post_bind input k x _ _ (fun _ _ => True)); [calmly (@nil kind); apply only_start|apply spec_true|]. intros _ t _.
  apply (run_post_bind input k x _ _ (fun _ _ => True)); [calmly [KBreakerInit]; wf_only|apply spec_true|]. intros _ [] _.
  destruct (Hv t) as [Hs He]. eapply run_post_bind; [calmly [KMemory]; apply only_recall|apply recall_keeps|].
  intros _ [e|[mem s1]] H1; [apply spec_given, spec_mret; by apply run_post_nil|].
  eapply run_post_bind; [calmly [KMemory]; apply only_prefetch|apply prefetch_keeps|].
  intros _ [e|[ret s2]] H2; [apply spec_given, spec_mret; by apply run_post_nil|]. cbn [snd] in *.
  assert (Hk2 : keeps (restored_vars rt (default (initial_state input) (wi_State input)) t) s2) by (by transitivity s1).
  rewrite Hk. eapply spec_given_bind; [apply (loop_spec input suffix mem ret _ fuel k s2)|].
  - by apply (keeps_ok _ _ Hk2).
  - done.
  - done.
  - rewrite (keeps_ext _ _ Hk2), He. cbn beta. intros t1 [o|s3] _ H3; apply spec_given.
    + apply spec_mret. by rewrite app_nil_r.
    + eapply spec_conseq; [apply spec_and; [apply (only_calm [KMemory; KPersist]); [cbn; intuition discriminate..|apply only_finish]|apply finish_outcome]|].
      cbn beta. intros t2 o [Hc Ho]. rewrite <- (app_nil_l (t1 ++ t2)). apply run_post_calm; [done|done|by apply run_post_weaken].
Qed.

Lemma workflow_spec fuel input k x :
  input_ok input k x -> 2 * M - k <= Z.of_nat fuel ->
  spec (AgentWorkflow rt wfID fuel input) (given decision_answered (fun tr o => run_post input k x tr (Some o))).
Proof.
  intros Hin Hf. destruct (input_ok_vars input k x Hin) as (_ & _ & Hx & _). unfold AgentWorkflow.
  apply (run_post_bind input k x _ _ (fun _ _ => True)); [calmly (@nil kind); wf_only|apply spec_true|].
  intros _ [e|] _; [apply spec_given, spec_mret; by apply run_post_nil|].
  apply (run_post_bind input k x _ _ (fun _ _ => True)); [calmly (@nil kind); wf_only|apply spec_true|].
  intros _ [e|] _; [apply spec_given, spec_mret; by apply run_post_nil|].
  apply (run_post_bind input k x _ _ (fun _ _ => True)); [calmly (@nil kind); wf_only|apply spec_true|].
  intros _ [e|suffix] _; [apply spec_given, spec_mret; by apply run_post_nil|].
  eapply spec_given_bind; [by apply run_body_spec|]. cbn beta. intros t1 o _ H1.
  eapply spec_given_bind; [apply spec_given, (only_calm [KCleanup]); [cbn; intuition discriminate..|apply only_cleanup]|].
  cbn beta. intros t2 [] _ H2. apply spec_given, spec_mret. rewrite app_nil_r. by apply (run_post_calm input k x []).
Qed.

Lemma chain_spec n fuel : forall input k x,
  input_ok input k x -> 2 * M - k <= Z.of_nat fuel ->
  spec (run_chain rt wfID n fuel input) (given decision_answered (fun tr o =>
    count_kind KLlm tr <= Z.max 0 (2 * M - k) + 1 /\ count_if is_extension tr + x <= 1 /\ count_kind KFuel tr = 0 /\
    (2 * M - k <= Z.of_nat n -> forall i, o <> WfContinueAsNew i))).
Proof.
  induction n as [|n IH]; intros input k x Hin Hf; cbn [run_chain];
    (eapply spec_given_bind; [by apply (workflow_spec fuel input k x)|]); cbn beta; intros t1 o _ (Ha & Hb & Hc & Hd);
    (destruct o as [r|p e|i]; [apply spec_given, spec_mret; rewrite app_nil_r; by split_and!; [lia..|]..|]).
  - apply spec_given, spec_mret. rewrite app_nil_r. split_and!; [lia..|]. intros Hn i' _.
    destruct (Hd i eq_refl) as (k' & s & stream & br & _ & _ & _ & ? & _). lia.
  - destruct (Hd i eq_refl) as (k' & s & stream & br & -> & Hs & He & Hk & Hcount). pose proof (ext_le s).
    destruct (input_ok_vars input k x Hin) as (_ & H0 & _).
    assert (Hin' : input_ok (with_state input stream (Some (saved_state rt k' s br))) (k' + 1) (ext s)).
    { exists s, br. split_and!; [by replace (k' + 1 - 1) with k' by lia|done|done|lia]. }
    eapply spec_conseq; [apply (IH _ (k' + 1) (ext s) Hin'); lia|]. cbn beta. intros t2 o H2 Hdec.
    destruct (H2 Hdec) as (H3 & H4 & H5 & H6). unfold count_kind in *. rewrite !count_if_app.
    split_and!; [lia..|]. intros Hn. apply H6. lia.
Qed.
End bounds.

(** C7: Over a run of the Temporal workflow and all its continuations, when the decision activity
    answers as its implementation does: at most twice [MaxIterations] model calls plus the final one
    are made (at most one when it is not positive), the rounds are extended at most once, the loop never
    runs out of fuel, and after twice [MaxIterations] continuations there is no further one. *)
Theorem workflow_chain_bounded rt wfID n fuel input tr o :
  wi_State input = None -> 2 * originalMaxIter rt <= Z.of_nat fuel ->
  texec (run_chain rt wfID n fuel input) tr o -> Forall decision_answered tr ->
  count_kind KLlm tr <= Z.max 0 (2 * originalMaxIter rt) + 1 /\ count_if is_extension tr <= 1 /\
  count_kind KFuel tr = 0 /\ (2 * originalMaxIter rt <= Z.of_nat n -> forall i, o <> WfContinueAsNew i).
Proof.
  intros Hst Hf Hx Hd. assert (Hin : input_ok rt input 0 0) by (unfold input_ok; by rewrite Hst).
  assert (Hf' : 2 * originalMaxIter rt - 0 <= Z.of_nat fuel) by lia.
  pose proof (chain_spec rt wfID n fuel input 0 0 Hin Hf' tr o Hx Hd) as (H1 & H2 & H3 & H4).
  rewrite Z.sub_0_r in *. split_and!; [lia..|exact H4].
Qed.
