(* ===== verification/TemporalResume.v ===== *)
(** State of the Temporal workflow: what a continuation restores, what decoding into the reused
    variable does, the pending approvals, and where events and child workflows go. *)
From S2P Require Import Prelude GoLib Types Codec Prog ProgSpec Policies MemoryConfig Budget CircuitBreaker Telemetry Events Effects ErrorControl LLM Memory AgentLoop TemporalDefs TemporalLoop TemporalFacts TemporalBounds.

#[local] Open Scope string_scope.
#[local] Open Scope list_scope.
#[local] Open Scope Z_scope.

(** ** Decoding a model answer *)

(** What a slot reads as after an answer was decoded over it. *)
Definition merged_call (old : ToolCallRequest) (w : TemporalToolCall) : ToolCallRequest :=
  {| tc_ToolCallID := wt_ToolCallID w; tc_ToolName := wt_ToolName w;
     tc_ToolDisplayName := keep_string (tc_ToolDisplayName old) (wt_ToolDisplayName w);
     tc_ToolKind := wt_ToolKind w;
     tc_Args := match wt_Args w with Some a => a ∪ tc_Args old | None => ∅ end;
     tc_NeedsApproval := wt_NeedsApproval w; tc_Unknown := tc_Unknown old || wt_Unknown w |}.

Definition zero_call : ToolCallRequest :=
  {| tc_ToolCallID := ""; tc_ToolName := ""; tc_ToolDisplayName := ""; tc_ToolKind := ""; tc_Args := ∅;
     tc_NeedsApproval := false; tc_Unknown := false |}.

(** The slots refer to distinct maps of the store. *)
Definition refs (l : list slot) : list nat := omap sl_Args l.
Definition slots_ok (s : arg_store) (l : list slot) : Prop := NoDup (refs l) /\ Forall (fun r => (r < length s)%nat) (refs l).

(** Merging calls over older ones, index by index. *)
Fixpoint merge_calls (old : list ToolCallRequest) (ws : list TemporalToolCall) : list ToolCallRequest :=
  match ws with
  | [] => []
  | w :: ws => merged_call (default zero_call (head old)) w :: merge_calls (tail old) ws
  end.

Lemma refs_cons x l : refs (x :: l) = match sl_Args x with Some r => r :: refs l | None => refs l end.
Proof. done. Qed.

Lemma elem_refs l x r : In x l -> sl_Args x = Some r -> r ∈ refs l.
Proof. intros Hin Hr. apply list_elem_of_omap. exists x. split; [by apply list_elem_of_In|done]. Qed.

#[local] Arguments refs : simpl never.
#[local] Opaque refs.

(** One argument map: the store changes at this reference only. *)
Lemma decode_args_spec s r w s' r' :
  decode_args s r w = (s', r') -> match r with Some l => (l < length s)%nat | None => True end ->
  (length s <= length s')%nat /\ match r' with Some l => (l < length s')%nat | None => True end /\
  deref s' r' = match w with Some a => a ∪ deref s r | None => ∅ end /\
  (forall l, (l < length s)%nat -> Some l <> r -> s' !! l = s !! l) /\
  (forall l, r' = Some l -> r = Some l \/ (length s <= l)%nat).
Proof.
  unfold decode_args. destruct w as [a|]; [destruct r as [l|]|]; intros [= <- <-] Hr; cbn [deref].
  - rewrite length_alter. destruct (lookup_lt_is_Some_2 s l Hr) as [m Hm].
    rewrite list_lookup_alter_eq, Hm. split_and!; [done|done|done| |naive_solver].
    intros k _ Hne. apply list_lookup_alter_ne. naive_solver.
  - rewrite length_app. cbn [length]. split_and!; [lia|lia| | |].
    + rewrite lookup_app_r, Nat.sub_diag by lia. cbn. by rewrite map_union_empty.
    + intros k Hk _. by apply lookup_app_l.
    + intros l [= <-]. right. lia.
  - split_and!; [lia|done|done|done|done].
Qed.

Lemma read_call_frame s s' x :
  (forall l, sl_Args x = Some l -> s' !! l = s !! l) -> read_call s' x = read_call s x.
Proof. intros H. unfold read_call, deref. destruct (sl_Args x) as [l|]; [by rewrite H|done]. Qed.

Lemma decode_call_spec s x w s' y :
  decode_call s x w = (s', y) -> match sl_Args x with Some l => (l < length s)%nat | None => True end ->
  (length s <= length s')%nat /\ match sl_Args y with Some l => (l < length s')%nat | None => True end /\
  read_call s' y = merged_call (read_call s x) w /\
  (forall l, (l < length s)%nat -> Some l <> sl_Args x -> s' !! l = s !! l) /\
  (forall l, sl_Args y = Some l -> sl_Args x = Some l \/ (length s <= l)%nat).
Proof.
  unfold decode_call. destruct (decode_args s (sl_Args x) (wt_Args w)) as [s1 r] eqn:E. intros [= <- <-] Hx.
  destruct (decode_args_spec _ _ _ _ _ E Hx) as (H1 & H2 & H3 & H4 & H5). cbn [sl_Args]. split_and!; try done.
  unfold read_call, merged_call. cbn. by rewrite H3.
Qed.

Lemma slots_ok_cons s x l : slots_ok s (x :: l) ->
  slots_ok s l /\ match sl_Args x with Some r => (r < length s)%nat /\ r ∉ refs l | None => True end.
Proof.
  unfold slots_ok. rewrite refs_cons. destruct (sl_Args x) as [r|]; [|done].
  rewrite NoDup_cons, Forall_cons. naive_solver.
Qed.

Lemma decode_calls_spec ws : forall s old s' slots,
  slots_ok s old -> decode_calls s old ws = (s', slots) ->
  slots_ok s' slots /\ (length s <= length s')%nat /\
  map (read_call s') (take (length ws) slots) = merge_calls (map (read_call s) old) ws /\
  (forall l, (l < length s)%nat -> l ∉ refs old -> s' !! l = s !! l) /\
  (forall r, r ∈ refs slots -> r ∈ refs old \/ (length s <= r)%nat).
Proof.
  induction ws as [|w ws IH]; intros s old s' slots Hok; cbn [decode_calls].
  { intros [= <- <-]. split_and!; try done. auto. }
  destruct (decode_call s (default zero_slot (head old)) w) as [s1 x] eqn:E1.
  destruct (decode_calls s1 (tail old) ws) as [s2 xs] eqn:E2. intros [= <- <-].
  set (x0 := default zero_slot (head old)) in *.
  assert (Hx0 : match sl_Args x0 with Some l => (l < length s)%nat /\ l ∉ refs (tail old) | None => True end /\
                slots_ok s (tail old) /\ read_call s x0 = default zero_call (head (map (read_call s) old)) /\
                (forall l, l ∈ refs old <-> sl_Args x0 = Some l \/ l ∈ refs (tail old))).
  { subst x0. destruct old as [|x0 old]; cbn; [split_and!; [done|done|done|]; intros l; naive_solver|].
    destruct (slots_ok_cons s x0 old Hok) as [? ?]. split_and!; try done. intros l. rewrite refs_cons.
    destruct (sl_Args x0) as [r|]; [rewrite elem_of_cons|]; naive_solver. }
  destruct Hx0 as (Hx & Hold & Hread & Hrefs).
  destruct (decode_call_spec s x0 w s1 x E1) as (L1 & V1 & R1 & F1 & N1); [by destruct (sl_Args x0); [destruct Hx|]|].
  assert (Hfresh : forall r, r ∈ refs (tail old) -> (r < length s)%nat /\ Some r <> sl_Args x0).
  { intros r Hr. destruct Hold as [_ Hlt]. rewrite Forall_forall in Hlt. split; [by apply Hlt|].
    intros Heq. rewrite <- Heq in Hx. by destruct Hx. }
  assert (Hok1 : slots_ok s1 (tail old)).
  { destruct Hold as [? Hlt]. split; [done|]. eapply Forall_impl; [exact Hlt|]. cbn. intros. lia. }
  destruct (IH s1 (tail old) s2 xs Hok1 E2) as (Hok2 & L2 & R2 & F2 & N2).
  assert (Hxfresh : forall r, sl_Args x = Some r -> r ∉ refs (tail old)).
  { intros r Hr Hin. destruct (Hfresh r Hin) as [? Hne]. destruct (N1 r Hr) as [Heq|]; [by rewrite Heq in Hne|lia]. }
  assert (Hx2 : forall r, sl_Args x = Some r -> s2 !! r = s1 !! r).
  { intros r Hr. rewrite Hr in V1. apply F2; [done|by apply Hxfresh]. }
  split_and!.
  - unfold slots_ok. rewrite refs_cons. destruct (sl_Args x) as [r|] eqn:Er; [|done].
    destruct Hok2 as [Hnd Hlt]. split; [|constructor; [lia|done]].
    apply NoDup_cons. split; [|done]. intros Hin. destruct (N2 r Hin) as [Ho|]; [by apply (Hxfresh r)|lia].
  - lia.
  - cbn [take length map merge_calls]. f_equal.
    + rewrite <- Hread, <- R1. apply read_call_frame. exact Hx2.
    + rewrite R2. f_equal. destruct old as [|y old]; [done|]. cbn.
      apply map_ext_in. intros z Hz. apply read_call_frame. intros l Hl. apply F1; apply (Hfresh l);
        by apply (elem_refs _ z).
  - intros l Hl Hnl. rewrite F2; [apply F1; [done|]|lia|].
    + intros Heq. apply Hnl, Hrefs. left. done.
    + intros Hin. apply Hnl, Hrefs. by right.
  - intros r. rewrite refs_cons. destruct (sl_Args x) as [r'|] eqn:Er.
    + rewrite elem_of_cons. intros [->|Hin].
      * destruct (N1 r' eq_refl) as [?|?]; [left; apply Hrefs; by left|right; lia].
      * destruct (N2 r Hin); [left; apply Hrefs; by right|right; lia].
    + intros Hin. destruct (N2 r Hin); [left; apply Hrefs; by right|right; lia].
Qed.

(** The variable and the store agree. *)
Definition var_ok (s : arg_store) (v : llm_var) : Prop := slots_ok s (lv_slots v).

Lemma zero_ok s : var_ok s zero_llm.
Proof. split; constructor. Qed.

Lemma decode_result_spec s v w s' v' :
  var_ok s v -> decode_result s v w = (s', v') ->
  var_ok s' v' /\ (length s <= length s')%nat /\
  map (read_call s') (current_slots v') = merge_calls (map (read_call s) (lv_slots v)) (wl_ToolCalls w).
Proof.
  unfold decode_result, current_slots. intros Hok. destruct (wl_ToolCalls w) as [|c ws].
  - intros [= <- <-]. cbn. split_and!; [|done|done]. split; constructor.
  - destruct (decode_calls s (lv_slots v) (c :: ws)) as [s1 slots] eqn:E. intros [= <- <-].
    destruct (decode_calls_spec (c :: ws) s (lv_slots v) s1 slots Hok E) as (? & ? & ? & _). done.
Qed.

(** Without an older answer, merging is copying. *)
Lemma merge_calls_fresh ws : merge_calls [] ws = map fresh_call ws.
Proof.
  induction ws as [|w ws IH]; cbn [merge_calls head tail default map]; [done|]. rewrite IH. f_equal.
  unfold merged_call, fresh_call, keep_string. cbn.
  assert ((if String.eqb (wt_ToolDisplayName w) "" then "" else wt_ToolDisplayName w) = wt_ToolDisplayName w) as ->.
  { destruct (String.eqb _ _) eqn:E; [|done]. by apply String.eqb_eq in E. }
  f_equal. destruct (wt_Args w); [cbn; apply map_union_empty|done].
Qed.

(** The reference of a slot survives decoding arguments over it. *)
Lemma decode_calls_ref ws : forall s old s' slots i x r c a,
  decode_calls s old ws = (s', slots) -> old !! i = Some x -> sl_Args x = Some r ->
  ws !! i = Some c -> wt_Args c = Some a -> exists y, slots !! i = Some y /\ sl_Args y = Some r.
Proof.
  induction ws as [|w ws IH]; intros s old s' slots i x r c a; cbn [decode_calls]; [by destruct i|].
  destruct (decode_call s (default zero_slot (head old)) w) as [s1 y] eqn:E1.
  destruct (decode_calls s1 (tail old) ws) as [s2 ys] eqn:E2. intros [= <- <-] Hx Hr Hc Ha.
  destruct i as [|i].
  - destruct old as [|x0 old]; [done|]. cbn in Hx, Hc, E1. injection Hx as ->. injection Hc as ->.
    exists y. split; [done|]. unfold decode_call, decode_args in E1. rewrite Hr, Ha in E1. by injection E1 as _ <-.
  - destruct old as [|x0 old]; [done|]. cbn in Hx, Hc. by apply (IH s1 old s2 ys i x r c a).
Qed.

Lemma merge_calls_at i : forall old ws o w,
  old !! i = Some o -> ws !! i = Some w -> merge_calls old ws !! i = Some (merged_call o w).
Proof.
  induction i as [|i IH]; intros [|o' old] [|w' ws] o w; try done; cbn; [by intros [= ->] [= ->]|apply IH].
Qed.

Lemma decode_at s v w s' v' i x r c a :
  var_ok s v -> decode_result s v w = (s', v') ->
  lv_slots v !! i = Some x -> sl_Args x = Some r -> wl_ToolCalls w !! i = Some c -> wt_Args c = Some a ->
  map (read_call s') (current_slots v') !! i = Some (merged_call (read_call s x) c) /\
  deref s' (Some r) = a ∪ deref s (Some r).
Proof.
  intros Hok E Hx Hr Hc Ha. destruct (decode_result_spec _ _ _ _ _ Hok E) as (_ & _ & Hcur).
  assert (Hm : map (read_call s') (current_slots v') !! i = Some (merged_call (read_call s x) c)).
  { rewrite Hcur. apply merge_calls_at; [by rewrite list_lookup_fmap, Hx|done]. }
  split; [done|]. unfold decode_result in E. destruct (wl_ToolCalls w) as [|c0 ws] eqn:Ew; [done|].
  destruct (decode_calls s (lv_slots v) (c0 :: ws)) as [s1 slots] eqn:Ed. injection E as <- <-.
  destruct (decode_calls_ref _ _ _ _ _ i x r c a Ed Hx Hr Hc Ha) as (y & Hy & Hyr).
  unfold current_slots in Hm. cbn [lv_len lv_slots] in Hm. rewrite list_lookup_fmap, lookup_take in Hm.
  case_decide; [|done]. rewrite Hy in Hm. cbn [fmap option_fmap option_map] in Hm.
  apply (f_equal (fmap tc_Args)) in Hm. cbn in Hm. rewrite Hyr, Hr, Ha in Hm. by injection Hm.
Qed.

(** Decoding a model answer into a variable that holds nothing gives exactly the calls of the
    answer, and leaves variable and argument maps consistent for the next answer. *)
Theorem decode_fresh_exact s w s' v' :
  decode_result s zero_llm w = (s', v') ->
  map (read_call s') (current_slots v') = map fresh_call (wl_ToolCalls w) /\ var_ok s' v'.
Proof.
  intros E. destruct (decode_result_spec s zero_llm w s' v' (zero_ok s) E) as (? & _ & ->).
  split; [apply merge_calls_fresh|done].
Qed.

(** Decoding an answer over an earlier one does not replace it: a call whose position had
    arguments before is run with the earlier entries its own arguments do not mention, keeps an
    earlier display name and an earlier "unknown" mark the answer leaves out; and the assistant
    message of the earlier round, which shares the map, now reads the new arguments too. *)
Theorem decode_again_merges s v w s' v' i x r c a :
  var_ok s v -> decode_result s v w = (s', v') ->
  lv_slots v !! i = Some x -> sl_Args x = Some r -> wl_ToolCalls w !! i = Some c -> wt_Args c = Some a ->
  (exists tc, map (read_call s') (current_slots v') !! i = Some tc /\
     tc_ToolName tc = wt_ToolName c /\ tc_Args tc = a ∪ deref s (Some r) /\ tc_Unknown tc = sl_Unknown x || wt_Unknown c /\
     tc_ToolDisplayName tc = if String.eqb (wt_ToolDisplayName c) "" then sl_ToolDisplayName x else wt_ToolDisplayName c) /\
  forall content, (i < lv_len v)%nat ->
    exists old, m_ToolCalls (read_message s' (called_message content (current_slots v))) !! i = Some (Some old) /\
      c_ToolCallID old = sl_ToolCallID x /\ c_Args old = a ∪ deref s (Some r).
Proof.
  intros Hok E Hx Hr Hc Ha. destruct (decode_at s v w s' v' i x r c a Hok E Hx Hr Hc Ha) as [Hm Hd]. split.
  - exists (merged_call (read_call s x) c). split; [done|]. cbn. by rewrite Ha, Hr.
  - intros content Hi. exists {| c_ToolCallID := sl_ToolCallID x; c_ToolName := sl_ToolName x; c_Args := deref s' (sl_Args x) |}.
    split_and!; [|done|cbn [c_Args]; by rewrite Hr, Hd].
    unfold read_message, called_message, current_slots. cbn [m_ToolCalls].
    rewrite !list_lookup_fmap, lookup_take. case_decide; [|lia]. by rewrite Hx.
Qed.

(** ** Continuing as new *)

(** A cost after the state carried it as US dollars. *)
Definition usd_trip (n : Z) : Z := round_to_int64 (nano_to_usd n) nanoUSDPerUSD.

(** What a continuation finds of a tracker: the amounts; the count of approvals starts over. *)
Definition resumed_tracker (t : BudgetTracker) : BudgetTracker :=
  with_watermark (with_totals t (totalTokens t) (usd_trip (totalCostNanoUSD t)) false)
    (watermarkTokens t) (usd_trip (watermarkCostNanoUSD t)) 0.

(** What it finds of the variables: the same, except that the messages no longer share the
    argument maps of [llmResult], which is new. *)
Definition resumed (s : wf_vars) : wf_vars :=
  {| v_messages := map Plain (read_messages s); v_maxIter := v_maxIter s; v_useFallback := v_useFallback s;
     v_iterationsExtended := v_iterationsExtended s; v_lastContent := v_lastContent s;
     v_llmUsage := v_llmUsage s; v_telemetry := v_telemetry s; v_budget := fmap resumed_tracker (v_budget s);
     v_llm := zero_llm; v_store := [] |}.

(** The breaker is the configured one with some history. *)
Definition breaker_ok (ec : option ErrorControlConfig) (c : option CircuitBreaker) : Prop :=
  exists tools, c = NewCircuitBreakerFromState ec tools.

Lemma resumed_budget rt st t :
  tracker_static t = NewBudgetTracker (ac_Budget (rt_AgentConfig rt)) ->
  st_BudgetTokens st = (Totals t).1 -> st_BudgetCostUSD st = (Totals t).2 ->
  st_BudgetWatermarkTokens st = (WatermarkTotals t).1 -> st_BudgetWatermarkCostUSD st = (WatermarkTotals t).2 ->
  restored_budget rt st = fmap resumed_tracker t.
Proof.
  intros Hs H1 H2 H3 H4. unfold restored_budget. rewrite H1, H2, H3, H4, <- Hs. by destruct t as [t|].
Qed.

Lemma resumed_breaker ec c : breaker_ok ec c ->
  match circuitBreakerStatePtr c with
  | Some tools => NewCircuitBreakerFromState ec tools
  | None => NewCircuitBreaker ec
  end = c.
Proof. intros [tools ->]. unfold NewCircuitBreakerFromState. by destruct (NewCircuitBreaker ec). Qed.

Lemma resumed_vars rt iter s br :
  vars_ok rt s -> restored_vars rt (saved_state rt iter s br) (v_telemetry s) = resumed s.
Proof.
  intros (Hb & Hc & Hs). pose proof (restored_bound rt s iter br (v_telemetry s) Hb) as Hm.
  unfold restored_vars, resumed in *. cbn [v_maxIter] in Hm. rewrite Hm.
  rewrite (resumed_budget rt (saved_state rt iter s br) (v_budget s)) by done. by rewrite Hc.
Qed.

Lemma steps_none h tr h' : wf_steps h tr h' -> Forall (fun e => event_kind e <> KBreaker /\ event_kind e <> KBreakerInit) tr ->
  wh_breaker h' = wh_breaker h.
Proof.
  induction 1 as [|h [o r] h1 tr h2 H1 H IH]; [done|]. intros [Hk Ht]%Forall_cons_1. rewrite (IH Ht).
  unfold event_kind in Hk. destruct Hk as [H2 H3].
  destruct o; cbn in H1, H2, H3; try done; try (by subst h1). by destruct H1 as [_ ->].
Qed.

Lemma wf_steps_app h t1 t2 h2 : wf_steps h (t1 ++ t2) h2 -> exists h1, wf_steps h t1 h1 /\ wf_steps h1 t2 h2.
Proof.
  revert h. induction t1 as [|e t1 IH]; intros h H; cbn in H; [exists h; split; [constructor|done]|].
  inversion H as [|? ? hm ? ? He Hr]; subst. destruct (IH hm Hr) as (h1 & ? & ?). exists h1. split; [by econstructor|done].
Qed.

(** What continuing saves of the breaker is what the coroutines left in it. *)
Lemma continue_saves rt input iter s :
  spec (continue_as_new rt input iter s) (fun tr r => forall i h h',
    r = RReturn (WfContinueAsNew i) -> wf_steps h tr h' ->
    exists stream, i = with_state input stream (Some (saved_state rt iter s (circuitBreakerStatePtr (wh_breaker h))))).
Proof.
  unfold continue_as_new. wf_step. intros hist. destruct (history_exceeded hist); [|by apply spec_mret].
  eapply (spec_bind _ _ (fun tr _ => Forall (fun e => event_kind e <> KBreaker /\ event_kind e <> KBreakerInit) tr)).
  { apply (only_mono (within [])); [intros e He; split; (apply (within_not []); [done|by intros []|done])|unfold detach_stream; wf_only]. }
  cbn beta. intros t1 [e|stream] H1; [by apply spec_mret|]. wf_step. intros br. apply spec_mret.
  intros i h h' [= <-] Hst. exists stream. do 2 f_equal.
  inversion Hst as [|? ? h0 ? ? H0 Hrest]; subst. cbn in H0. subst h0.
  apply wf_steps_app in Hrest as (h1 & Hs1 & Hs2). apply steps_none in Hs1; [|done].
  inversion Hs2 as [|? ? h2 ? ? Hbr _]; subst. cbn in Hbr. destruct Hbr as [-> _]. by rewrite Hs1.
Qed.

(** C8: A workflow that continues as new after iteration [iter] is started again as the loop from
    iteration [iter + 1] with the variables, the usage, the telemetry, the circuit breaker and
    the budget it had; only the count of budget approvals, the variable of the model answer
    and the sharing of argument maps are lost, and recall and prefetch run again. *)
Theorem continuation_resumes rt wfID input suffix fuel iter s tr i h h' :
  vars_ok rt s -> breaker_ok (ac_ErrorControl (rt_AgentConfig rt)) (wh_breaker h) ->
  texec (continue_as_new rt input iter s) tr (RReturn (WfContinueAsNew i)) -> wf_steps h tr h' ->
  (exists stream, i = with_state input stream (wi_State i)) /\
  run_body rt wfID i suffix fuel = run_from rt wfID i suffix fuel (wh_breaker h) (iter + 1) (resumed s).
Proof.
  intros Hs Hb Hx Hst. destruct (continue_saves rt input iter s tr _ Hx i h h' eq_refl Hst) as [stream ->].
  split; [by exists stream|]. set (st := saved_state rt iter s _). set (i := with_state _ _ _).
  transitivity (run_from rt wfID i suffix fuel (restored_breaker rt st) (st_Iteration st) (restored_vars rt st (v_telemetry s)));
    [reflexivity|].
  subst st. rewrite resumed_vars by done. unfold restored_breaker. cbn [st_CircuitBreaker saved_state].
  by rewrite resumed_breaker.
Qed.
