(* ===== verification/TemporalLift.v ===== *)
(** Lifting a property of one tool call to a whole Temporal workflow and its continuations: a family
    of properties of computations that is closed under sequencing and fan-out, and that holds of
    the computations that run no tool call, holds of everything once it holds of a call. *)
From S2P Require Import Prelude GoLib Types Codec Prog ProgSpec Policies MemoryConfig Budget CircuitBreaker Telemetry Events Effects ErrorControl LLM Memory AgentLoop TemporalDefs TemporalLoop TemporalFacts TemporalBounds.

#[local] Open Scope string_scope.
#[local] Open Scope list_scope.
#[local] Open Scope Z_scope.

(** What the body of a workflow does besides its tool calls. *)
Definition loop_kinds : list kind := [KLlm; KDecide; KBudget; KPersist; KMemory; KBreaker; KFuel].

(** ** A continuation has the input of its run, up to the state *)

Definition same_run (input : AgentWorkflowInput) (o : wf_outcome) : Prop :=
  forall i, o = WfContinueAsNew i -> exists a b, i = with_state input a b.

Section same_run.
Context (rt : Runtime) (wfID : string).

Lemma round_same_run input suffix mem ret b iter s :
  spec (round rt wfID input suffix mem ret b iter s) (fun _ r => forall o, r = RReturn o -> same_run input o).
Proof.
  assert (Ht : forall mid now s, spec (tool_round rt wfID input suffix b mid iter now s)
    (fun _ r => forall o, r = RReturn o -> same_run input o)).
  { intros mid now s0. eapply spec_conseq; [apply tool_round_spec|]. cbn beta. intros tr r [_ H] o -> i Hi.
    destruct (H i Hi) as (s' & a & br & _ & ->). eauto. }
  unfold round. wf_step. intros now. wf_step. intros mid.
  eapply spec_bind; [apply spec_true|]. intros t1 [e|w] _; [by apply spec_mret; intros o [= <-]|]. cbv zeta.
  eapply spec_bind; [apply spec_true|]. intros t2 [[err|] s1] _; cbn [fst snd]; [by apply spec_mret; intros o [= <-]|].
  unfold after_llm_answer. destruct (current_slots (v_llm s1)); [by apply spec_mret|]. case_match; [|apply Ht].
  eapply spec_bind; [apply spec_true|]. intros t3 [e|[extra|]] _; [by apply spec_mret; intros o [= <-]|apply Ht|].
  eapply spec_conseq; [apply final_spec|]. cbn beta. intros tr r (_ & _ & Hf) o -> i Hi. by destruct (Hf i).
Qed.

Lemma loop_same_run input suffix mem ret b fuel : forall iter s,
  spec (loop rt wfID input suffix mem ret b fuel iter s) (fun _ r => forall o, r = inl o -> same_run input o).
Proof.
  induction fuel as [|fuel IH]; intros iter s; cbn [loop]; (case_match; [by apply spec_mret|]).
  - wf_step. intros []. by apply spec_mret.
  - eapply spec_bind; [apply round_same_run|]. cbn beta. intros t1 [s1|s1|o] H1.
    + apply IH.
    + by apply spec_mret.
    + apply spec_mret. intros o' [= <-]. by apply H1.
Qed.

Lemma workflow_same_run fuel input : spec (AgentWorkflow rt wfID fuel input) (fun _ o => same_run input o).
Proof.
  assert (Hf : forall p e, same_run input (WfFailed p e)) by (by intros p e i).
  assert (Hskip : forall A B (m : prog A) (f : A -> prog B) (Q : B -> Prop),
    (forall a, spec (f a) (fun _ b => Q b)) -> spec (m ≫= f) (fun _ b => Q b)).
  { intros A B m f Q H. eapply spec_bind; [apply spec_true|]. intros t a _. apply H. }
  unfold AgentWorkflow. apply Hskip. intros [e|]; [by apply spec_mret|].
  apply Hskip. intros [e|]; [by apply spec_mret|]. apply Hskip. intros [e|suffix]; [by apply spec_mret|].
  eapply (spec_bind _ _ (fun _ o => same_run input o)).
  - unfold run_body, run_from. do 2 (apply Hskip; intros ?). apply Hskip. intros [e|[mem s]]; [by apply spec_mret|].
    apply Hskip. intros [e|[ret s1]]; [by apply spec_mret|].
    eapply spec_bind; [apply loop_same_run|]. cbn beta. intros t1 [o|s2] H1; [apply spec_mret; by apply H1|].
    eapply spec_conseq; [apply finish_outcome|]. cbn beta. intros t2 o H2 i Hi. subst. by destruct (H2 i).
  - cbn beta. intros t1 o Ho. apply Hskip. intros _. by apply spec_mret.
Qed.
End same_run.

(** ** The stream the activities are told to publish to *)

(** The workflow that owns the event stream of a run. *)
Definition stream_owner (wfID : string) (i : AgentWorkflowInput) : string :=
  if String.eqb (wi_RootWorkflowID i) "" then wfID else wi_RootWorkflowID i.

(** The stream named in the input of an activity that publishes. *)
Definition activity_stream (a : activity) : option string :=
  match a with
  | AgentLLMActivity i | AgentLLMStreamActivity i => Some (ali_StreamWorkflowID i)
  | AgentToolApprovalActivity i => Some (ata_StreamWorkflowID i)
  | AgentBudgetApprovalActivity i => Some (aba_StreamWorkflowID i)
  | PublishStreamEventActivity p => Some (pse_StreamWorkflowID p)
  | _ => None
  end.

Definition told_stream (wfID : string) (i : AgentWorkflowInput) (e : wevent) : Prop :=
  match ev_op e with
  | WActivity _ a => forall s, activity_stream a = Some s -> s = stream_owner wfID i
  | _ => True
  end.

(** The kinds of the loop whose activities publish nothing. *)
Definition mute_kinds : list kind := [KDecide; KPersist; KMemory; KBreaker; KFuel].

Section told.
Context (rt : Runtime) (wfID : string) (input : AgentWorkflowInput) (suffix : string).
Local Notation told := (only (told_stream wfID input)).

Lemma told_mute {A} (m : prog (S := wf_sig) A) ks :
  incl ks (KCleanup :: mute_kinds) -> only (within ks) m -> told m.
Proof using.
  intros Hk. apply only_mono. intros [o r] [He|He]; unfold told_stream, event_kind in *; cbn [ev_op] in *;
    [|apply Hk in He]; destruct o as [| | | | | | | |? a| | | | | | | | | | | | |]; try done; destruct a; cbn in *;
    first [discriminate|intuition discriminate].
Qed.

Lemma told_call_llm i : ali_StreamWorkflowID i = stream_owner wfID input -> told (call_llm rt input suffix i).
Proof using.
  intros Hi. unfold call_llm. case_match; match goal with |- only ?P (execute_activity ?o ?a) => apply (only_activity P o a) end;
    intros r s [= <-]; exact Hi.
Qed.

Lemma told_handle_budget t tel d : told (handleBudgetExceeded rt wfID input suffix t tel d).
Proof using.
  unfold handleBudgetExceeded. cbv zeta. set (act := match ac_Budget _ with Some _ => _ | None => _ end).
  case_match; [|apply only_ret]. apply only_bind; [by apply (only_wcall _ WSideEffectUUID)|].
  intros [e|pause]; [apply only_ret|]. apply only_bind; [|intros; apply only_ret].
  match goal with |- only ?P (execute_activity ?o ?a) => apply (only_activity P o a) end. by intros r s [= <-].
Qed.

Lemma told_enforce s u : told (enforce rt wfID input suffix s u).
Proof using.
  unfold enforce. case_match; [|apply only_ret]. case_match. case_match; [|apply only_ret].
  apply only_bind; [apply told_handle_budget|intros; apply only_ret].
Qed.

Lemma told_charge_child s u : told (charge_child rt wfID input suffix s u).
Proof using. unfold charge_child. repeat (case_match; try apply only_ret). apply told_enforce. Qed.

Lemma told_collect b now calls rs s : told (collect rt wfID input suffix b now calls rs s).
Proof using.
  revert rs s. induction calls as [|tc calls IH]; intros [|r rs] s; simpl; try apply only_ret.
  apply only_bind; [apply (told_mute _ [KBreaker]); [intros k; cbn; tauto|unfold apply_circuit; wf_only]|]. intros _.
  apply only_bind; [apply told_charge_child|]. intros c. case_match; [apply only_ret|apply IH].
Qed.

Lemma told_final mem ret iter s : told (final_round rt wfID input suffix mem ret iter s).
Proof using.
  unfold final_round. apply only_bind; [apply (told_mute _ []); [by intros ? []|wf_only]|]. intros mid.
  apply only_bind; [by apply told_call_llm|]. intros [e|w]; [apply only_ret|].
  apply only_bind; [apply told_enforce|]. intros c. case_match; apply only_ret.
Qed.
End told.

(** ** Lifting *)

Section lift.
Context (rt : Runtime) (wfID : string).
Context (H : forall A, prog (S := wf_sig) A -> Prop) (shape : AgentWorkflowInput -> Prop).
Context (H_ret : forall A (a : A), H A (mret a)).
Context (H_bind : forall A B (R : A -> Prop) (m : prog A) (f : A -> prog B),
  H A m -> spec m (fun _ a => R a) -> (forall a, R a -> H B (f a)) -> H B (m ≫= f)).
Context (H_par : forall A B (f : A -> prog B) l, (forall x, H B (f x)) -> H (list B) (par (map f l))).
Context (H_quiet : forall i A (m : prog A), shape i -> only (within loop_kinds) m -> only (told_stream wfID i) m -> H A m).
Context (H_branch : forall i suffix mid iter slot b now tc, shape i ->
  H agentToolCallOutput (run_branch rt wfID i suffix mid iter slot b now tc)).
Context (H_init : forall st, H unit (wcall (WBreakerInit (restored_breaker rt st)))).
Context (H_shape : forall i a b, shape i -> shape (with_state i a b)).

Lemma lift_seq {A B} (m : prog A) (f : A -> prog B) : H A m -> (forall a, H B (f a)) -> H B (m ≫= f).
Proof using H_bind. intros Hm Hf. apply (H_bind A B (fun _ => True)); [done|apply spec_true|auto]. Qed.

Lemma lift_each {A B} (f : A -> prog B) l : (forall x, H B (f x)) -> H (list B) (traverse f l).
Proof using H_ret H_bind.
  intros Hf. induction l as [|x l IH]; [apply H_ret|]. cbn [traverse].
  apply lift_seq; [apply Hf|]. intros y. apply lift_seq; [apply IH|]. intros ys. apply H_ret.
Qed.

Section run.
Context (input : AgentWorkflowInput) (suffix : string) (Hin : shape input).

Lemma lift_mute {A} (m : prog A) : only (within mute_kinds) m -> H A m.
Proof using H_quiet Hin.
  intros Hm. apply (H_quiet input); [done|eapply only_incl; [|exact Hm]; intros k; cbn; tauto|].
  eapply told_mute; [|exact Hm]. intros k. by right.
Qed.

Lemma lift_speaks {A} (m : prog A) : only (within loop_kinds) m -> only (told_stream wfID input) m -> H A m.
Proof using H_quiet Hin. by apply H_quiet. Qed.

Ltac quiet l := apply lift_mute; wf_sub l.
Ltac speaks l l' := apply lift_speaks; [wf_sub l|by apply l'].

Lemma lift_tool_round b mid iter now s : H wf_round (tool_round rt wfID input suffix b mid iter now s).
Proof using H_ret H_bind H_par H_quiet H_branch Hin.
  unfold tool_round. apply lift_seq.
  - unfold run_tool_calls, run_parallel, run_sequential. repeat case_match; try apply H_ret;
      (apply lift_seq; [|intros; apply H_ret]); [apply H_par|apply lift_each]; intros x; by apply H_branch.
  - intros [e|rs]; [apply H_ret|]. apply lift_seq; [speaks only_collect told_collect|]. intros [o|s1]; [apply H_ret|].
    apply lift_seq; [quiet only_save|]. intros s2. quiet only_continue.
Qed.

Lemma lift_final mem ret iter s : H wf_round (final_round rt wfID input suffix mem ret iter s).
Proof using H_quiet Hin.
  apply lift_speaks; [|apply told_final].
  unfold final_round. apply only_bind; [wf_only|]. intros mid. apply only_bind; [wf_sub only_call_llm|].
  intros [e|w]; [apply only_ret|]. apply only_bind; [wf_sub only_enforce|]. intros c. case_match; apply only_ret.
Qed.

Lemma lift_loop mem ret b fuel : forall iter s, H _ (loop rt wfID input suffix mem ret b fuel iter s).
Proof using H_ret H_bind H_par H_quiet H_branch Hin.
  induction fuel as [|fuel IH]; intros iter s; cbn [loop]; (case_match; [apply H_ret|]).
  - apply lift_seq; [apply lift_mute; wf_only|]. intros; apply H_ret.
  - apply lift_seq; [|intros [s1|s1|o]; [apply IH|apply H_ret..]]. unfold round.
    apply lift_seq; [apply lift_mute; wf_only|]. intros now. apply lift_seq; [apply lift_mute; wf_only|]. intros mid.
    apply lift_seq; [speaks only_call_llm told_call_llm|]. intros [e|w]; [apply H_ret|]. cbv zeta.
    apply lift_seq; [speaks only_enforce told_enforce|]. intros [[err|] s1]; cbn [fst snd]; [apply H_ret|]. unfold after_llm_answer.
    case_match; [apply H_ret|]. case_match; [|apply lift_tool_round].
    apply lift_seq; [quiet only_ask|]. intros [e|[extra|]]; [apply H_ret|apply lift_tool_round|apply lift_final].
Qed.

Lemma lift_body fuel : H wf_outcome (run_body rt wfID input suffix fuel).
Proof using H_ret H_bind H_par H_quiet H_branch H_init Hin.
  unfold run_body, run_from. apply lift_seq; [quiet only_start|]. intros t. apply lift_seq; [apply H_init|]. intros _.
  apply lift_seq; [quiet only_recall|]. intros [e|[mem s]]; [apply H_ret|].
  apply lift_seq; [quiet only_prefetch|]. intros [e|[ret s1]]; [apply H_ret|].
  apply lift_seq; [apply lift_loop|]. intros [o|s2]; [apply H_ret|]. quiet only_finish.
Qed.
End run.

Context (H_cleanup : forall suffix, H unit (cleanup suffix)).

Lemma lift_workflow fuel input : shape input -> H wf_outcome (AgentWorkflow rt wfID fuel input).
Proof using H_ret H_bind H_par H_quiet H_branch H_init H_cleanup.
  intros Hin. unfold AgentWorkflow. apply lift_seq; [apply (lift_mute input Hin); wf_only|]. intros [e|]; [apply H_ret|].
  apply lift_seq; [apply (lift_mute input Hin); wf_only|]. intros [e|]; [apply H_ret|].
  apply lift_seq; [apply (lift_mute input Hin); wf_only|]. intros [e|suffix]; [apply H_ret|].
  apply lift_seq; [by apply lift_body|]. intros o. apply lift_seq; [apply H_cleanup|]. intros _. apply H_ret.
Qed.

Lemma lift_chain n fuel : forall input, shape input -> H wf_outcome (run_chain rt wfID n fuel input).
Proof using H_ret H_bind H_par H_quiet H_branch H_init H_shape H_cleanup.
  induction n as [|n IH]; intros input Hin; cbn [run_chain];
    (apply (H_bind _ _ (same_run input)); [by apply lift_workflow|apply workflow_same_run|]); intros [r|p e|i] Hi; try apply H_ret.
  destruct (Hi i eq_refl) as (a & b & ->). by apply IH, H_shape.
Qed.
End lift.

(** Instance: a predicate of single effects. *)
Lemma lift_only rt wfID (P : wevent -> Prop) (shape : AgentWorkflowInput -> Prop) n fuel input :
  (forall i e, shape i -> within (KCleanup :: loop_kinds) e -> told_stream wfID i e -> P e) ->
  (forall i suffix mid iter slot b now tc, shape i -> only P (run_branch rt wfID i suffix mid iter slot b now tc)) ->
  (forall st, only P (wcall (WBreakerInit (restored_breaker rt st)))) ->
  (forall i a b, shape i -> shape (with_state i a b)) -> shape input ->
  only P (run_chain rt wfID n fuel input).
Proof.
  intros HP Hb Hi Hs Hin.
  assert (Hone : forall i A (m : prog A), shape i -> only (within (KCleanup :: loop_kinds)) m -> only (told_stream wfID i) m -> only P m).
  { intros i A m Hsh Hk Ht tr a Hx. apply Forall_forall. intros e He.
    apply (HP i); [done|by apply (proj1 (Forall_forall _ _) (Hk _ _ Hx))|by apply (proj1 (Forall_forall _ _) (Ht _ _ Hx))]. }
  apply (lift_chain rt wfID (fun A m => only P m) shape); try done.
  - intros A a. apply only_ret.
  - intros A B R m f Hm HR Hf tr b Hx. apply texec_bind_inv in Hx as (t1 & t2 & a & -> & Ha & Hb').
    apply Forall_app. split; [by eapply Hm|]. by eapply Hf; [eapply HR|].
  - intros A B f l Hf. apply only_par; [|done]. intros e He. apply (HP input); [done|by apply sched_within|].
    unfold told_stream. unfold is_sched in He. by rewrite He.
  - intros i A m Hsh Hk Ht. apply (Hone i); [done| |done]. eapply only_incl; [|exact Hk]. intros k. by right.
  - intros sfx. apply (Hone input); [done| |].
    + eapply only_incl; [|apply only_cleanup]. intros k [<-|[]]. by left.
    + eapply told_mute; [|apply only_cleanup]. intros k [<-|[]]. by left.
Qed.

(** The effects of the body of a run. *)
Lemma only_body rt wfID input suffix fuel :
  only (within (KBreakerInit :: loop_kinds ++ call_kinds)) (run_body rt wfID input suffix fuel).
Proof.
  apply (lift_body rt wfID (fun A m => only (within (KBreakerInit :: loop_kinds ++ call_kinds)) m) (fun _ => True));
    [| | | | | |done].
  - intros A a. apply only_ret.
  - intros A B R m f Hm HR Hf tr b Hx. apply texec_bind_inv in Hx as (t1 & t2 & a & -> & Ha & Hb').
    apply Forall_app. split; [by eapply Hm|]. by eapply Hf; [eapply HR|].
  - intros A B f l Hf. apply only_par; [|done]. intros e He. by apply sched_within.
  - intros i A m _ Hm _. revert Hm. apply only_incl. intros k Hk. right. apply in_or_app. by left.
  - intros i sfx mid iter slot b now tc _. eapply only_incl; [|apply only_branch]. intros k Hk. right. apply in_or_app. by right.
  - intros st. wf_only.
Qed.
