(* ===== verification/TemporalServe.v ===== *)
(** What a Temporal worker guarantees when it serves activities, and the composition of the
    workflow with such a worker: fingerprints are compared before anything is done, the decision
    activity keeps the bounds the workflow relies on, and a tool of the worker that requires
    approval or has an authorizer runs only after both. *)
From S2P Require Import Prelude GoLib Types Codec Prog ProgSpec Policies MemoryConfig Budget CircuitBreaker Telemetry Events Effects Hooks ErrorControl LLM Memory Tools Retry AgentLoop LoopFacts LoopSafety TemporalFingerprint TemporalDefs TemporalLoop TemporalFacts TemporalActivities TemporalSafety TemporalBounds.

#[local] Open Scope string_scope.
#[local] Open Scope list_scope.
#[local] Open Scope Z_scope.

(** ** The arguments a tool receives *)

(** Those of the call, or those a BeforeTool hook answered. *)
Definition received (given args : Args) (tr : list Event) : Prop :=
  args = given \/ exists f m c, In (Ev (S := agent_sig) (OBeforeTool f m c) (inr args)) tr.

Lemma received_more given args t1 t2 t3 : received given args t2 -> received given args (t1 ++ t2 ++ t3).
Proof.
  intros [H|(f & m & c & H)]; [by left|right]. exists f, m, c. apply in_or_app. right. apply in_or_app. by left.
Qed.

Lemma before_tool_args groups m c :
  spec (RunBeforeTool groups m c) (fun tr r => forall c', r = inr c' -> received (hc_Args c) (hc_Args c') tr).
Proof.
  unfold RunBeforeTool. case_match; [by apply spec_mret; intros c' [= <-]; left|].
  intros tr r (t1 & t2 & [c1 e] & -> & H1 & H2)%texec_mbind_inv c' ->. apply texec_mret_inv in H2 as [-> H2].
  destruct e; [done|]. injection H2 as ->. rewrite app_nil_r. apply run_groups_iff in H1. cbn [fst].
  enough (forall r, chain (before_tool_step m) (flat h_BeforeTool groups) c t1 r -> received (hc_Args c) (hc_Args r.1) t1) as Hall
    by exact (Hall _ H1).
  clear. intros r H. induction H as [|n f hs c t1 t2 c1 r Hs H IH|]; [by left| |by left].
  unfold before_tool_step in Hs. apply texec_mbind_inv in Hs as (t3 & t4 & [e|a] & -> & Hc & Hs); apply texec_mret_inv in Hs as [-> Hs]; [done|].
  injection Hs as ->. call_inv Hc. cbn [hc_Args with_args] in IH. destruct IH as [IH|(f' & m' & c' & IH)].
  - right. rewrite IH. exists f, (with_group m n), c. by left.
  - right. exists f', m', c'. by right.
Qed.

Lemma no_tool_event {A} (m : prog (S := agent_sig) A) tr a rt t mt args reply :
  always (LoopFacts.within []) m -> texec m tr a -> ~ In (Ev (S := agent_sig) (OToolExecute rt t mt args) reply) tr.
Proof.
  intros H Hx Hin. apply (always_spec _ _ H) in Hx. rewrite List.Forall_forall in Hx. apply Hx in Hin.
  by destruct Hin as [|[]].
Qed.

(** A tool other than a retriever receives the arguments of its call, or what a BeforeTool hook
    made of them; a retriever receives a query taken from them. *)
Lemma ExecuteTool_received rt i sc tr r : texec (ExecuteTool rt i sc) tr r ->
  forall rt' t m args reply, In (Ev (S := agent_sig) (OToolExecute rt' t m args) reply) tr ->
  KindOf t <> ToolKindRetriever -> received (ti_Args i) args tr.
Proof.
  intros Hx rt' t m args reply Hin Hk. unfold ExecuteTool in Hx. case_match.
  { exfalso. revert Hin. eapply no_tool_event; [|exact Hx]. unfold executeSaveMemoryTool, tool_failed, tool_completed. class_foot. }
  pose proof (always_spec _ _ (executeTool_executes rt i) _ _ Hx) as Hex. rewrite List.Forall_forall in Hex.
  pose proof (Hex _ Hin) as (_ & Hf & _). unfold executeTool in Hx. rewrite Hf in Hx. clear Hex.
  apply texec_result_inv in Hx as [(e & _ & Hx)|(t1 & t2 & hooked & -> & H1 & Hx)].
  { exfalso. revert Hin. eapply no_tool_event; [|exact Hx]. class_foot. }
  assert (Hargs : received (ti_Args i) (if run_tool_hooks rt t then hc_Args hooked else ti_Args i) t1).
  { destruct (run_tool_hooks rt t); [|by left]. unfold runBeforeToolHooks in H1. destruct (ac_Hooks _) as [|g gs].
    - apply texec_mret_inv in H1 as [_ [= ->]]. by left.
    - exact (before_tool_args _ _ _ _ _ H1 _ eq_refl). }
  apply in_app_iff in Hin as [Hin|Hin].
  { exfalso. revert Hin. eapply no_tool_event; [|exact H1]. class_foot. }
  cbv zeta in Hx. apply texec_mbind_inv in Hx as (t3 & t4 & u & -> & H3 & Hx). unfold emit_metric in H3. call_inv H3.
  destruct Hin as [Hin|Hin]; [done|]. destruct (String.eqb_spec (KindOf t) ToolKindRetriever); [done|].
  unfold execute_plain in Hx. cbv zeta in Hx. apply texec_mbind_inv in Hx as (t5 & t6 & res & -> & H5 & Hx). call_inv H5.
  destruct Hin as [Hin|Hin].
  - apply (f_equal ev_op) in Hin. cbn [ev_op] in Hin. injection Hin as _ _ <-. exact (received_more _ _ [] _ _ Hargs).
  - exfalso. revert Hin. eapply no_tool_event; [|exact Hx]. unfold tool_failed, tool_completed. class_foot.
Qed.

(** ** Serving *)

(** The activities [Start] registers, by the name the workflow calls them by. *)
Definition act_answer (a : activity) : Type :=
  match a with
  | AgentToolApprovalActivity _ | AgentBudgetApprovalActivity _ => Act.approval_answer
  | _ => activity_result a
  end.

Definition serve (rt : Worker) (info : ActivityInfo) (a : activity) : prog (S := act_sig) (result (act_answer a)) :=
  match a return prog (S := act_sig) (result (act_answer a)) with
  | AgentLLMActivity i => Act.AgentLLMActivity rt info i
  | AgentLLMStreamActivity i => Act.AgentLLMStreamActivity rt info i
  | AgentToolAuthorizeActivity i => Act.AgentToolAuthorizeActivity rt i
  | AgentToolApprovalActivity i => Act.AgentToolApprovalActivity rt info i
  | AgentToolExecuteActivity i => Act.AgentToolExecuteActivity rt i
  | AgentRetrieverActivity i => Act.AgentRetrieverActivity rt i
  | AgentMemoryRecallActivity i => Act.AgentMemoryRecallActivity rt i
  | AgentMemoryStoreActivity i => Act.AgentMemoryStoreActivity rt i
  | AddConversationMessagesActivity i => Act.AddConversationMessagesActivity rt i
  | AgentMaxIterationsDecisionActivity i => Act.AgentMaxIterationsDecisionActivity rt i
  | AgentBudgetApprovalActivity i => Act.AgentBudgetApprovalActivity rt info i
  | PublishStreamEventActivity i => Act.PublishStreamEventActivity i
  | AgentWorkflowCleanupActivity i => Act.AgentWorkflowCleanupActivity rt i
  end.

(** The digest the caller sent, where the activity has one. *)
Definition caller_fingerprint (a : activity) : option string :=
  match a with
  | AgentLLMActivity i | AgentLLMStreamActivity i => Some (ali_AgentFingerprint i)
  | AgentToolAuthorizeActivity i => Some (atz_AgentFingerprint i)
  | AgentToolApprovalActivity i => Some (ata_AgentFingerprint i)
  | AgentToolExecuteActivity i => Some (ate_AgentFingerprint i)
  | AgentRetrieverActivity i => Some (ari_AgentFingerprint i)
  | AgentMemoryRecallActivity i => Some (ami_AgentFingerprint i)
  | AgentMemoryStoreActivity i => Some (ams_AgentFingerprint i)
  | AddConversationMessagesActivity i => Some (acm_AgentFingerprint i)
  | AgentBudgetApprovalActivity i => Some (aba_AgentFingerprint i)
  | AgentMaxIterationsDecisionActivity _ | PublishStreamEventActivity _ | AgentWorkflowCleanupActivity _ => None
  end.

(** ** Operations of the base runtime inside a worker *)

Definition base_event (e : event agent_sig) : event act_sig :=
  match e with Ev o r => Ev (S := act_sig) (ABase o) r end.

Definition unbase (e : event act_sig) : option (event agent_sig) :=
  match e with Ev (ABase o) r => Some (Ev (S := agent_sig) o r) | _ => None end.

Lemma base_inv {A} (m : prog (S := agent_sig) A) tr a :
  texec (base m) tr a -> exists tr', tr = map base_event tr' /\ texec m tr' a.
Proof.
  revert tr. induction m as [b|o k IH]; intros tr H; cbn [base] in H.
  - apply texec_ret_inv in H as [-> ->]. exists []. split; [done|constructor].
  - apply texec_do_inv in H as (r & t & -> & H). destruct (IH r t H) as (t' & -> & H').
    exists (Ev (S := agent_sig) o r :: t'). split; [done|by constructor].
Qed.

Lemma spec_base {A} (m : prog (S := agent_sig) A) (Q : list (event agent_sig) -> A -> Prop) :
  spec m Q -> spec (base m) (fun tr a => exists tr', tr = map base_event tr' /\ Q tr' a).
Proof. intros H tr a Hx. apply base_inv in Hx as (t & -> & Hx). exists t. split; [done|by apply H]. Qed.

Lemma in_base_event o (r : Ans o) tr :
  In (Ev (S := act_sig) (ABase o) r) (map base_event tr) -> In (Ev (S := agent_sig) o r) tr.
Proof.
  intros H. apply in_map_iff in H as ([o' r'] & E & Hin). apply (f_equal unbase), (inj Some) in E.
  exact (eq_ind _ (fun e => In e tr) Hin _ E).
Qed.

(** ** Fingerprints are compared first *)

Section checked.
Context (rt : Worker) (fp : string).

(** The caller's digest is the worker's, for tools the worker has resolved; or nothing is compared. *)
Definition passed (past : list (event act_sig)) : Prop :=
  wk_disableFingerprintCheck rt = true \/ fp = "" \/
  exists tools, In (Ev (S := act_sig) AFetchTools (inr tools)) past /\
    Act.worker_fingerprint rt (default [] tools) = fp.

(** Effects other than resolving the tools come after the comparison. *)
Definition after_check (past : list (event act_sig)) (e : event act_sig) : Prop :=
  ev_op e = AFetchTools \/ passed past.

Lemma passed_mono p p' : (forall f, In f p -> In f p') -> passed p -> passed p'.
Proof. intros H [?|[?|(tools & ? & ?)]]; [by left|by right; left|]. right. right. exists tools. auto. Qed.

Lemma after_check_passed past {A} (m : prog (S := act_sig) A) : passed past -> safe after_check past m.
Proof.
  intros Hp tr a _ pre e post ->. right. eapply passed_mono; [|exact Hp]. intros f ?. apply in_or_app. by left.
Qed.

Lemma safe_fetch past : safe after_check past (Act.fetchTools rt).
Proof.
  unfold Act.fetchTools. case_match; [|apply safe_ret].
  apply (safe_perform (S := act_sig) after_check past AFetchTools). intros r. by left.
Qed.

Lemma fetch_answer : spec (Act.fetchTools rt) (fun t r => forall tools, r = inr tools -> In (Ev (S := act_sig) AFetchTools (inr tools)) t).
Proof.
  unfold Act.fetchTools. case_match; [|by apply spec_mret].
  apply (spec_perform (S := act_sig) AFetchTools). intros r tools ->. by left.
Qed.

(** [tools] were fetched before, or are nil. *)
Definition fetched (past : list (event act_sig)) (tools : option (list Tool)) : Prop :=
  tools = None \/ In (Ev (S := act_sig) AFetchTools (inr tools)) past.

Lemma compared past tools t :
  In (Ev (S := act_sig) AFetchTools (inr tools)) (past ++ t) ->
  Act.compare_fingerprints rt fp (default [] tools) = None -> passed (past ++ t).
Proof.
  intros Hin. unfold Act.compare_fingerprints. destruct (String.eqb _ fp) eqn:E; [|done]. intros _.
  right. right. exists tools. split; [done|by apply String.eqb_eq].
Qed.

Lemma safe_check past tools : safe after_check past (Act.check_fingerprint rt fp tools).
Proof.
  unfold Act.check_fingerprint, Act.verifyAgentFingerprint. apply safe_seq; [|intros; apply safe_ret].
  case_match; [apply safe_ret|]. case_match; [apply safe_ret|]. apply safe_seq; [apply safe_fetch|intros; apply safe_ret].
Qed.

Lemma check_passed past tools : fetched past tools ->
  spec (Act.check_fingerprint rt fp tools) (fun t r => forall u, r = inr u -> passed (past ++ t)).
Proof.
  intros Hf. unfold Act.check_fingerprint, Act.verifyAgentFingerprint.
  apply (spec_bind _ _ (fun t e => e = None -> passed (past ++ t))); [|].
  - destruct (_ || _) eqn:E; [apply spec_mret; intros _; unfold passed; apply orb_true_iff in E as [?|E]; [auto|];
      apply String.eqb_eq in E; auto|].
    destruct tools as [tools|].
    + apply spec_mret. intros Hn. destruct Hf as [?|Hf]; [done|]. apply (compared past (Some tools)); [|done].
      apply in_or_app. by left.
    + eapply spec_bind; [apply fetch_answer|]. cbn beta. intros t [e|tools] Ha; apply spec_mret; [done|]. intros Hn.
      rewrite app_nil_r. apply (compared past tools); [apply in_or_app; right; by apply Ha|done].
  - intros t e H. apply spec_mret. rewrite app_nil_r. destruct e; [done|]. intros u _. by apply H.
Qed.

Lemma safe_after_check past tools {A} (f : unit -> prog (S := act_sig) (result A)) :
  fetched past tools -> safe after_check past (bind_act (Act.check_fingerprint rt fp tools) f).
Proof.
  intros Hf. eapply safe_bind; [apply safe_check|by apply check_passed|]. cbn beta.
  intros t [e|u] H; [apply safe_ret|]. apply after_check_passed. by apply (H u).
Qed.

Lemma safe_checked_tools past {A} (f : list Tool -> prog (S := act_sig) (result A)) :
  safe after_check past (bind_act (Act.checked_tools rt fp) f).
Proof.
  unfold Act.checked_tools. eapply (safe_bind after_check past (fun t r => forall x, r = inr x -> passed (past ++ t))).
  - eapply safe_bind; [apply safe_fetch|apply fetch_answer|]. cbn beta. intros t [e|tools] Ha; [apply safe_ret|].
    apply safe_after_check. right. apply in_or_app. right. by apply Ha.
  - eapply spec_bind; [apply fetch_answer|]. cbn beta. intros t [e|tools] Ha; [by apply spec_mret|].
    eapply spec_bind; [apply (check_passed (past ++ t) tools); right; apply in_or_app; right; by apply Ha|]. cbn beta.
    intros t' [e|u] H; apply spec_mret; [done|]. intros x _. rewrite app_nil_r, app_assoc. by apply (H u).
  - intros t [e|tools] H; [apply safe_ret|]. apply after_check_passed. by apply (H tools).
Qed.
End checked.

(** Whatever activity with a caller's digest a worker serves, it does nothing but resolve its
    tools before it has found the caller's digest equal to its own, computed from tools it
    resolved, unless the check is switched off or the caller sent no digest. *)
Theorem activities_checked rt info a fp tr r :
  texec (serve rt info a) tr r -> caller_fingerprint a = Some fp ->
  forall pre e post, tr = pre ++ e :: post -> ev_op e = AFetchTools \/ passed rt fp pre.
Proof.
  intros Hx Hfp pre e post Htr.
  enough (H : safe (after_check rt fp) [] (serve rt info a)) by exact (H tr r Hx pre e post Htr).
  clear Hx Htr. destruct a; cbn in Hfp; try done; injection Hfp as <-; cbn [serve];
    first [apply safe_checked_tools|apply safe_after_check; by left].
Qed.

(** ** A workflow whose activities are served by a worker *)

(** The worker resolves the same tools every time. *)
Definition fetches (T : list Tool) (e : event act_sig) : Prop :=
  match e with Ev AFetchTools r => r = inr (Some T) | _ => True end.

(** The result the workflow gets from what the activity answered: a pending approval is
    completed from outside, with one of the two statuses [approve] lets through. *)
Definition delivers (a : activity) : act_answer a -> activity_result a -> Prop :=
  match a return act_answer a -> activity_result a -> Prop with
  | AgentToolApprovalActivity _ | AgentBudgetApprovalActivity _ => fun x r =>
      match x with
      | Act.Answered s => r = s
      | Act.Pending => r = ApprovalStatusApproved \/ r = ApprovalStatusRejected
      end
  | _ => fun x r => x = r
  end.

Definition served (rt : Worker) (T : list Tool) (e : wevent) : Prop :=
  match e with
  | Ev (WActivity _ a) (inr r) => exists info tr x,
      texec (serve rt info a) tr (inr x) /\ Forall (fetches T) tr /\ delivers a x r
  | _ => True
  end.

(** What is asked of the decision activity is what it does. *)
Lemma served_decision rt T e : served rt T e -> decision_answered e.
Proof.
  destruct e as [o r]. destruct o as [| | | | | | | |o a| | | | | | | | | | | | |]; try done. destruct a; try done.
  destruct r as [err|d]; [done|]. intros (info & tr & x & Hx & _ & Hd). cbn in *. subst x.
  unfold Act.AgentMaxIterationsDecisionActivity in Hx. apply texec_bind_inv in Hx as (t1 & t2 & d' & -> & H1 & H2).
  apply texec_ret_inv in H2 as [-> [= ->]]. apply base_inv in H1 as (t & -> & H1).
  by apply DecideMaxIterations_inv in H1.
Qed.

(** A served approval ends with a status the workflow knows. *)
Lemma served_approval rt T o i s :
  served rt T (Ev (S := wf_sig) (WActivity o (AgentToolApprovalActivity i)) (inr s)) ->
  s = ApprovalStatusApproved \/ s = ApprovalStatusRejected \/ s = ApprovalStatusUnavailable.
Proof.
  intros (info & tr & x & Hx & _ & Hd). cbn in *.
  unfold Act.AgentToolApprovalActivity, bind_act in Hx. apply texec_bind_inv in Hx as (t1 & t2 & [e|u] & -> & _ & Hx);
    [by apply texec_ret_inv in Hx as [_ [=]]|].
  apply texec_bind_inv in Hx as (t3 & t4 & a & -> & Ha & Hx). apply texec_ret_inv in Hx as [-> [= ->]].
  unfold Act.publish_request in Ha. destruct (String.eqb _ _); [apply texec_ret_inv in Ha as [_ ->]; right; right; exact Hd|].
  apply texec_bind_inv in Ha as (? & ? & ? & _ & _ & Ha). apply texec_bind_inv in Ha as (? & ? & c & _ & _ & Ha).
  apply texec_ret_inv in Ha as [_ ->]. destruct c; cbn in Hd; tauto.
Qed.

(** ** Tools of a served workflow *)

Lemma bind_act_inv {A B} (m : prog (S := act_sig) (result A)) (f : A -> prog (S := act_sig) (result B)) tr b :
  texec (bind_act m f) tr (inr b) -> exists t1 t2 a, tr = t1 ++ t2 /\ texec m t1 (inr a) /\ texec (f a) t2 (inr b).
Proof.
  intros (t1 & t2 & [e|a] & -> & H1 & H2)%texec_bind_inv; [by apply texec_ret_inv in H2 as [_ [=]]|]. eauto 10.
Qed.

Section resolved.
Context (W : Worker) (T : list Tool).

Lemma fetch_inv tr tools :
  texec (Act.fetchTools W) tr (inr tools) -> Forall (fetches T) tr -> tools = Some T.
Proof.
  unfold Act.fetchTools. destruct (wk_hasResolver W); [|by intros [_ [=]]%texec_ret_inv].
  intros (r & t & -> & [-> E]%texec_ret_inv)%texec_do_inv [H _]%Forall_cons_iff. cbn in *. congruence.
Qed.

Lemma checked_tools_inv fp tr tools :
  texec (Act.checked_tools W fp) tr (inr tools) -> Forall (fetches T) tr -> tools = T.
Proof.
  intros (t1 & t2 & x & -> & H1 & H2)%bind_act_inv [F1 _]%Forall_app. apply fetch_inv in H1 as ->; [|done].
  by apply bind_act_inv in H2 as (t3 & t4 & [] & -> & _ & [_ [= ->]]%texec_ret_inv).
Qed.

(** A call of a model answer, as the worker that resolved it against its tools reports it. *)
Definition reported (c : TemporalToolCall) : Prop :=
  exists tc, made_for (wk_Runtime W) T tc /\ c = Act.activity_call W tc.

Lemma execute_llm_made_for i stream tr r :
  texec (Act.execute_llm W i stream) tr r -> calls_made_for (wk_Runtime W) (li_Tools i) r.
Proof.
  unfold Act.execute_llm. destruct stream; intros (t & _ & H)%base_inv.
  - by apply (stream_made_for _ _ _ _ H).
  - by apply (generate_made_for _ _ _ _ H).
Qed.

Lemma finish_reported i r fb :
  Forall (made_for (wk_Runtime W) T) (lr_ToolCalls r) ->
  Forall reported (wl_ToolCalls (Act.finishLLMActivityResult W i r fb)).
Proof. intros H. cbn. induction H; cbn; constructor; [by eexists|done]. Qed.

Lemma runLLMActivity_reported info input i stream tr w :
  li_Tools i = T -> texec (Act.runLLMActivity W info input i stream) tr (inr w) -> Forall reported (wl_ToolCalls w).
Proof.
  intros HT. unfold Act.runLLMActivity. destruct (ResolveLLMClient _ _) as [e|c]; [by intros [_ [=]]%texec_ret_inv|].
  cbv zeta. intros (t1 & t2 & r & -> & H1%execute_llm_made_for & H)%texec_bind_inv. cbn in H1. rewrite HT in H1.
  destruct r as [e|r]; [|apply texec_ret_inv in H as [_ [= ->]]; by apply finish_reported, H1].
  destruct (_ || _); [by apply texec_ret_inv in H as [_ [=]]|].
  apply texec_bind_inv in H as (t3 & t4 & dec & -> & _ & H).
  destruct (dec_Action dec); try by apply texec_ret_inv in H as [_ [=]].
  destruct (ResolveLLMClient _ true) as [e'|fb]; [by apply texec_ret_inv in H as [_ [=]]|].
  apply texec_bind_inv in H as (t5 & t6 & r & -> & H2%execute_llm_made_for & H). cbn in H2. rewrite HT in H2.
  apply texec_ret_inv in H as [_ H]. destruct r as [e'|r]; [done|]. injection H as ->. by apply finish_reported, H2.
Qed.

Lemma llm_activity_reported info stream input tr w :
  texec (Act.llm_activity W info stream input) tr (inr w) -> Forall (fetches T) tr -> Forall reported (wl_ToolCalls w).
Proof.
  intros (t1 & t2 & tools & -> & H1 & H)%bind_act_inv [F1 _]%Forall_app. apply checked_tools_inv in H1 as ->; [|done].
  apply bind_act_inv in H as (t3 & t4 & ms & -> & _ & H). apply texec_bind_inv in H as (t5 & t6 & [] & -> & _ & H).
  apply texec_bind_inv in H as (t7 & t8 & r & -> & H & H'). apply texec_bind_inv in H' as (t9 & t10 & [] & -> & _ & H').
  apply texec_ret_inv in H' as [_ <-]. by eapply runLLMActivity_reported in H.
Qed.

Lemma served_calls e w :
  served W T e -> llm_answer e = Some w -> Forall reported (wl_ToolCalls w).
Proof.
  destruct e as [o r]. destruct o as [| | | | | | | |o a| | | | | | | | | | | | |]; try done.
  destruct a; try done; (destruct r as [err|x]; [done|]); intros (info & tr & y & Hx & HF & Hd) [= <-];
    cbn in Hx, Hd; subst y; by eapply llm_activity_reported.
Qed.

Lemma checks_only_fetch fp : only (fun e => ev_op e = AFetchTools) (Act.checked_tools W fp).
Proof.
  assert (Hf : only (S := act_sig) (fun e => ev_op e = AFetchTools) (Act.fetchTools W)).
  { unfold Act.fetchTools. case_match; [|apply only_ret]. by apply (only_perform (S := act_sig) _ AFetchTools). }
  unfold Act.checked_tools, Act.check_fingerprint, Act.verifyAgentFingerprint, bind_act.
  apply only_bind; [done|]. intros [e|tools]; [apply only_ret|]. apply only_bind.
  - apply only_bind; [|intros; apply only_ret]. case_match; [apply only_ret|]. case_match; [apply only_ret|].
    apply only_bind; [done|intros; apply only_ret].
  - intros [e|u]; apply only_ret.
Qed.

(** The arguments a served tool receives: those the activity was given, or those a BeforeTool
    hook of the worker answered. *)
Definition served_args (i : AgentToolExecuteInput) (args : Args) (tr : list (event act_sig)) : Prop :=
  args = ate_Args i \/ exists f m c, In (Ev (S := act_sig) (ABase (OBeforeTool f m c)) (inr args)) tr.

(** What an execution activity runs, and what an authorization activity asked. *)
Lemma execute_runs info i tr r rt t m args reply :
  texec (serve W info (AgentToolExecuteActivity i)) tr r -> Forall (fetches T) tr ->
  In (Ev (S := act_sig) (ABase (OToolExecute rt t m args)) reply) tr ->
  rt = wk_Runtime W /\ FindToolByName T (ate_ToolName i) = Some t /\
  (KindOf t <> ToolKindRetriever -> served_args i args tr).
Proof.
  cbn [serve]. unfold Act.AgentToolExecuteActivity. intros (t1 & t2 & x & -> & H1 & H2)%texec_bind_inv HF Hin.
  apply Forall_app in HF as [F1 _]. apply in_app_iff in Hin as [Hin|Hin].
  - apply checks_only_fetch in H1. rewrite List.Forall_forall in H1. by apply H1 in Hin.
  - destruct x as [e|tools]; [by apply texec_ret_inv in H2 as [-> _]|]. apply checked_tools_inv in H1 as ->; [|done].
    apply base_inv in H2 as (t' & -> & H2). apply in_base_event in Hin.
    pose proof (ExecuteTool_received _ _ _ _ _ H2 _ _ _ _ _ Hin) as Hargs.
    apply (always_spec _ _ (ExecuteTool_executes _ _ _)) in H2. rewrite List.Forall_forall in H2. apply H2 in Hin.
    cbn in Hin, Hargs. split_and!; [tauto|tauto|]. intros Hk. destruct (Hargs Hk) as [Ha|(f & m' & c & Ha)]; [by left|right].
    exists f, m', c. apply in_or_app. right. by apply (in_map base_event) in Ha.
Qed.

Lemma authorize_asked info i tr a t :
  texec (serve W info (AgentToolAuthorizeActivity i)) tr (inr a) -> Forall (fetches T) tr -> ar_Allowed a = true ->
  FindToolByName T (atz_ToolName i) = Some t -> t_authorizer t = true ->
  exists reason, In (Ev (S := act_sig) (ABase (OToolAuthorize (wk_Runtime W) t (atz_Args i))) (inr (true, reason))) tr.
Proof.
  cbn [serve]. intros (t1 & t2 & x & -> & H1 & H2)%bind_act_inv HF Hok Hf Ht. apply Forall_app in HF as [F1 _].
  apply checked_tools_inv in H1 as ->; [|done]. apply base_inv in H2 as (t' & -> & H2).
  destruct (authorization_event _ _ _ _ _ _ _ Hf Ht H2 Hok) as [reason Hin]. exists reason.
  apply in_or_app. right. by apply (in_map base_event) in Hin.
Qed.

Lemma reported_needs c tc t :
  reported c -> wt_ToolName c = tc_ToolName tc -> wt_NeedsApproval c = tc_NeedsApproval tc ->
  FindToolByName T (tc_ToolName tc) = Some t -> tc_NeedsApproval tc = RequiresApproval (wk_Runtime W) t.
Proof.
  intros (tc' & [c' (_ & Hn & _ & Hr)] & ->) Hname Hneeds Hf. cbn in Hname, Hneeds.
  rewrite <- Hn, Hname, Hf in Hr. destruct Hr as (_ & Hr & _). congruence.
Qed.
End resolved.

(** The authorizer of tool [t] of worker [W] was asked by an authorization activity for the
    call, with the arguments the activity was given, and allowed it. *)
Definition authorizer_allowed (W : Worker) (T : list Tool) (t : Tool) (i : AgentToolExecuteInput) (past : list wevent) : Prop :=
  exists o j a info tr reason,
    In (Ev (S := wf_sig) (WActivity o (AgentToolAuthorizeActivity j)) (inr a)) past /\
    texec (serve W info (AgentToolAuthorizeActivity j)) tr (inr a) /\
    atz_ToolCallID j = ate_ToolCallID i /\ atz_Args j = ate_Args i /\
    In (Ev (S := act_sig) (ABase (OToolAuthorize (wk_Runtime W) t (ate_Args i))) (inr (true, reason))) tr.

(** The approval of the call, with the arguments it is executed with. *)
Definition approval_given (i : AgentToolExecuteInput) (past : list wevent) : Prop :=
  exists o j, In (Ev (S := wf_sig) (WActivity o (AgentToolApprovalActivity j)) (inr ApprovalStatusApproved)) past /\
    ata_ToolCallID j = ate_ToolCallID i /\ ata_ToolName j = ate_ToolName i /\ ata_Args j = ate_Args i.

(** C17: When the activities of a run of the workflow are served by a worker that resolves the same
    tools whenever an activity asks for them, a tool that the worker executes for the run is the
    tool it has under the name of the call; the call was approved, with the arguments its
    activity was given, if the worker's policy requires approval of the tool; if the tool has an
    authorizer, that was asked by the worker about these arguments and allowed them; and a tool
    other than a retriever receives exactly these arguments, unless a BeforeTool hook of the
    worker rewrote them (which happens after authorization and approval). *)
Theorem served_tools_approved rt wfID n fuel input W T tr o :
  texec (run_chain rt wfID n fuel input) tr o -> Forall (served W T) tr ->
  forall pre op i r post, tr = pre ++ Ev (S := wf_sig) (WActivity op (AgentToolExecuteActivity i)) r :: post ->
  forall info wtr x, texec (serve W info (AgentToolExecuteActivity i)) wtr x -> Forall (fetches T) wtr ->
  forall rt' t m args reply, In (Ev (S := act_sig) (ABase (OToolExecute rt' t m args)) reply) wtr ->
    FindToolByName T (ate_ToolName i) = Some t /\
    (KindOf t <> ToolKindRetriever -> served_args i args wtr) /\
    (RequiresApproval (wk_Runtime W) t = true -> approval_given i pre) /\
    (t_authorizer t = true -> authorizer_allowed W T t i pre).
Proof.
  intros Hx HS pre op i r post -> info wtr x Hw HF rt' t m args reply Hin.
  destruct (execute_runs W T _ _ _ _ _ _ _ _ _ Hw HF Hin) as (-> & Hf & Hargs). split; [done|]. split; [done|].
  destruct (safe_chain rt wfID n fuel [] input _ _ Hx pre _ post eq_refl) as (tc & Hp & _ & Hasked & Hauth & Happr);
    [done|]. cbn in Hp, Hasked, Hauth, Happr. destruct Hp as (E1 & E2 & E3).
  apply Forall_app in HS as [HS _]. rewrite List.Forall_forall in HS. split.
  - intros Hreq. destruct Happr as [Hn|(o' & j & ? & ? & ? & ?)]; [|exists o', j; repeat split; congruence].
    destruct Hasked as (e & w & c & He & Ha & Hc & _ & Hname & Hneeds & _).
    apply HS in He. pose proof (served_calls W T e w He Ha) as Hr. rewrite List.Forall_forall in Hr. apply Hr in Hc.
    rewrite E2 in Hf. by rewrite (reported_needs W T c tc t Hc Hname Hneeds Hf), Hreq in Hn.
  - intros Ht. destruct Hauth as (o' & j & a & Hin' & Hok & F1 & F2 & F3).
    destruct (HS _ Hin') as (info' & tr' & y & Hy & HF' & Hd). cbn in Hd. subst y.
    destruct (authorize_asked W T info' j tr' a t Hy HF' Hok) as [reason Hr]; [congruence|done|].
    exists o', j, a, info', tr', reason. repeat split; [done..|congruence|congruence|]. by rewrite E3, <- F3.
Qed.
