(* ===== verification/TemporalRouting.v ===== *)
(** Where the effects of a Temporal workflow go: its events, its child workflows, its breaker.
    Each theorem is a footprint of the whole chain of continuations, lifted from the few places
    that perform the effects it speaks of. *)
From S2P Require Import Prelude GoLib Types Codec Prog ProgSpec Policies MemoryConfig Budget CircuitBreaker Telemetry Events Effects ErrorControl LLM Memory Tools AgentLoop LoopFacts TemporalDefs TemporalLoop TemporalFacts TemporalActivities TemporalBounds TemporalResume TemporalLift TemporalServe.

#[local] Open Scope string_scope.
#[local] Open Scope list_scope.
#[local] Open Scope Z_scope.

(** ** The effects of a tool call *)

(** What a call does besides emitting events and delegating. *)
Definition call_effect (o : WfOp) : bool :=
  match o with
  | WPendingSet _ _ | WPendingDelete _ | WBreakerIsTripped _ _ => true
  | WActivity _ (AgentToolAuthorizeActivity _) | WActivity _ (AgentToolExecuteActivity _) => true
  | _ => false
  end.

Section branch.
Context (rt : Runtime) (wfID : string) (input : AgentWorkflowInput) (suffix : string) (P : wevent -> Prop).
Context (Hrest : forall o (r : WfAns o), call_effect o = true -> P (Ev (S := wf_sig) o r)).
Context (Hemit : forall e, only P (emit_event wfID input e)).
Context (Hask : forall opts tc, only P (execute_activity opts (AgentToolApprovalActivity (approval_input rt wfID input tc)))).
Context (Hchild : forall tc route, find_route (wi_SubAgentRoutes input) (tc_ToolName tc) = Some route ->
  only P (delegateToSubAgent rt wfID input tc route)).

Lemma branch_effects mid iter slot b now tc : only P (run_branch rt wfID input suffix mid iter slot b now tc).
Proof using Hrest Hemit Hask Hchild.
  unfold run_branch, executeAgentToolCall, approved_call, after_approval, run_approved, await_approval, circuit_skips,
    emit_start, answer_call, emitToolEndThenResult.
  repeat first
    [ progress intros
    | apply only_ret
    | solve [ auto 2 ]
    | apply Hask
    | match goal with
      | |- only ?P (wcall ?o) => apply (only_wcall P o); intros; solve [by apply Hrest]
      | |- only ?P (execute_activity ?o ?a) => apply (only_activity P o a); intros; solve [by apply Hrest]
      end
    | apply only_fallible
    | apply only_bind
    | case_match
    | progress cbv beta zeta ].
Qed.
End branch.

(** ** Events and child workflows *)

(** An activity publishes to one stream at most: its events, its retry signals and the flush
    that ends them. *)
Definition publishes_to (stream : string) (e : event act_sig) : Prop :=
  match ev_op e with
  | ABase (OPublish c _) | APublish c _ | ARetrySignal c _ | AStreamClose c => c = stream
  | _ => True
  end.

Section activities.
Context (wk : Worker) (info : ActivityInfo) (stream : string).
Local Notation on_stream := (only (publishes_to stream)).

Lemma on_stream_acall o : (forall r, publishes_to stream (Ev (S := act_sig) o r)) -> on_stream (acall o).
Proof using. apply (only_perform (S := act_sig)). Qed.

Ltac act_op := match goal with |- only _ (acall ?o) => by apply (on_stream_acall o) end.

Lemma on_stream_base {A} (m : prog (S := agent_sig) A) :
  always (publishes (fun c _ => c = stream)) m -> on_stream (base m).
Proof using.
  intros H tr a (t & -> & Hx)%base_inv. apply (always_spec _ _ H) in Hx. apply List.Forall_map.
  eapply Forall_impl; [exact Hx|]. intros [o r]. by destruct o.
Qed.

Lemma on_stream_act {A B} (m : prog (S := act_sig) (result A)) (f : A -> prog (S := act_sig) (result B)) :
  on_stream m -> (forall a, on_stream (f a)) -> on_stream (bind_act m f).
Proof using. intros Hm Hf. apply only_bind; [done|]. intros [e|a]; [apply only_ret|apply Hf]. Qed.

Lemma on_stream_tools fp : on_stream (Act.checked_tools wk fp).
Proof using.
  assert (Hf : on_stream (Act.fetchTools wk)) by (unfold Act.fetchTools; case_match; [act_op|apply only_ret]).
  unfold Act.checked_tools, Act.check_fingerprint, Act.verifyAgentFingerprint. apply on_stream_act; [done|]. intros tools.
  apply on_stream_act; [|intros; apply only_ret]. apply only_bind; [|intros; apply only_ret].
  repeat case_match; try apply only_ret. apply only_bind; [done|intros; apply only_ret].
Qed.

Lemma on_stream_check fp : on_stream (Act.check_fingerprint wk fp None).
Proof using.
  unfold Act.check_fingerprint, Act.verifyAgentFingerprint. apply only_bind; [|intros; apply only_ret].
  case_match; [apply only_ret|]. apply only_bind; [|intros; apply only_ret].
  unfold Act.fetchTools. case_match; [act_op|apply only_ret].
Qed.

Lemma on_stream_llm b (i : AgentLLMInput) : ali_StreamWorkflowID i = stream -> on_stream (Act.llm_activity wk info b i).
Proof using.
  intros Hi. unfold Act.llm_activity. apply on_stream_act; [apply on_stream_tools|]. intros tools.
  apply on_stream_act.
  { unfold Act.activity_messages. case_match; [|apply only_ret].
    apply on_stream_act; [apply on_stream_base, publishes_fetch|intros; apply only_ret]. }
  intros ms. apply only_bind; [unfold Act.signal_retry; case_match; [act_op|apply only_ret]|]. intros _.
  apply only_bind; [|intros r; apply only_bind; [|intros; apply only_ret]].
  - assert (He : forall f c e, li_Emit (with_client (Act.activity_llm_input i ms tools) c) = Some f ->
      always (publishes (fun c _ => c = stream)) (f e)).
    { intros f c e [= <-]. unfold Act.stream_emitter. case_match; [done|]. by apply always_call. }
    assert (Hrun : forall c, on_stream (Act.execute_llm wk (with_client (Act.activity_llm_input i ms tools) c) b)).
    { intros c. unfold Act.execute_llm. case_match; apply on_stream_base; [apply publishes_stream|apply publishes_generate];
        intros f e Hf; by eapply He. }
    unfold Act.runLLMActivity. case_match; [apply only_ret|]. cbv zeta. apply only_bind; [apply Hrun|].
    intros [err|res]; [|apply only_ret]. case_match; [apply only_ret|].
    apply only_bind; [apply on_stream_base, publishes_llm_failure|]. intros d.
    repeat (case_match; try apply only_ret). apply only_bind; [apply Hrun|intros; apply only_ret].
  - unfold Act.close_stream. case_match; [apply only_ret|]. apply only_bind; [act_op|intros; apply only_ret].
Qed.

Lemma on_stream_request s e : s = stream -> on_stream (Act.publish_request s e).
Proof using.
  intros ->. unfold Act.publish_request. case_match; [apply only_ret|].
  apply only_bind; [act_op|]. intros _. apply only_bind; [act_op|]. intros; apply only_ret.
Qed.

Lemma on_stream_pending ids : on_stream (Act.complete_pending ids).
Proof using.
  induction ids as [|id ids IH]; cbn [Act.complete_pending]; [apply only_ret|]. case_match; [done|].
  apply only_bind; [act_op|]. intros [e|]; [case_match; [done|apply only_ret]|done].
Qed.

(** An activity publishes only to the stream its input names. *)
Lemma activity_publishes a :
  (forall s, activity_stream a = Some s -> s = stream) -> on_stream (serve wk info a).
Proof using.
  intros Ha. destruct a; cbn [serve]; cbn in Ha; try (pose proof (Ha _ eq_refl) as Hs).
  - by apply on_stream_llm.
  - by apply on_stream_llm.
  - apply on_stream_act; [apply on_stream_tools|]. intros; apply on_stream_base, publishes_authorize.
  - apply on_stream_act; [apply on_stream_check|]. intros _. apply only_bind; [by apply on_stream_request|intros; apply only_ret].
  - apply on_stream_act; [apply on_stream_tools|]. intros; apply on_stream_base, publishes_execute_tool.
  - apply on_stream_act; [apply on_stream_check|]. intros; apply on_stream_base, publishes_retrievers.
  - apply on_stream_act; [apply on_stream_check|]. intros; apply on_stream_base, publishes_recall.
  - apply on_stream_act; [apply on_stream_check|]. intros. apply only_bind; [apply on_stream_base, publishes_memory_store|intros; apply only_ret].
  - apply on_stream_act; [apply on_stream_check|]. intros. case_match; [apply only_ret|].
    apply only_bind; [apply on_stream_base, publishes_add|intros; apply only_ret].
  - apply only_bind; [apply on_stream_base, publishes_max_iterations|intros; apply only_ret].
  - apply on_stream_act; [apply on_stream_check|]. intros _. apply only_bind; [by apply on_stream_request|intros; apply only_ret].
  - unfold Act.PublishStreamEventActivity. case_match; [apply only_ret|].
    do 2 (apply only_bind; [act_op|]; intros _). apply only_ret.
  - unfold Act.AgentWorkflowCleanupActivity. repeat (case_match; try apply only_ret). apply on_stream_pending.
Qed.
End activities.

(** A child workflow as its parent must start it. *)
Definition contained_child (wfID : string) (i c : AgentWorkflowInput) : Prop :=
  wi_SubAgentDepth c = wi_SubAgentDepth i + 1 /\ wi_SubAgentDepth i < wi_MaxSubAgentDepth i /\
  wi_MaxSubAgentDepth c = wi_MaxSubAgentDepth i /\ wi_RootWorkflowID c = stream_owner wfID i /\
  wi_EventTypes c = wi_EventTypes i /\ wi_ConversationID c = "" /\ wi_State c = None /\
  sc_UserID (wi_MemoryScope c) = sc_UserID (wi_MemoryScope i) /\
  sc_TenantID (wi_MemoryScope c) = sc_TenantID (wi_MemoryScope i) /\
  exists name route, find_route (wi_SubAgentRoutes i) name = Some route /\
    wi_AgentFingerprint c = rt_AgentFingerprint route /\ wi_SubAgentRoutes c = rt_ChildRoutes route.

(** The events of the workflow pass the filter and go to the stream of the root; an activity is
    told that stream, and whichever worker serves it publishes nowhere else; children are
    contained. *)
Definition routed (wfID : string) (i : AgentWorkflowInput) (e : wevent) : Prop :=
  match ev_op e with
  | WPublish b => isRoot i = true /\ event_allowed (wi_EventTypes i) b = true
  | WActivity _ a =>
      match a with
      | PublishStreamEventActivity p => isRoot i = false /\ event_allowed (wi_EventTypes i) (pse_Event p) = true
      | _ => True
      end /\
      (forall s, activity_stream a = Some s -> s = stream_owner wfID i) /\
      forall wk info, only (publishes_to (stream_owner wfID i)) (serve wk info a)
  | WChildWorkflow _ _ _ c => contained_child wfID i c
  | _ => True
  end.

(** The input of a run or of one of its continuations. *)
Definition of_run (input i : AgentWorkflowInput) : Prop := i = input \/ exists a b, i = with_state input a b.

Lemma of_run_state input i a b : of_run input i -> of_run input (with_state i a b).
Proof. intros [->|(a' & b' & ->)]; right; by exists a, b. Qed.

Lemma routed_activity wfID i opts a r :
  match a with
  | PublishStreamEventActivity p => isRoot i = false /\ event_allowed (wi_EventTypes i) (pse_Event p) = true
  | _ => True
  end -> (forall s, activity_stream a = Some s -> s = stream_owner wfID i) ->
  routed wfID i (Ev (S := wf_sig) (WActivity opts a) r).
Proof. intros Ha Hs. split; [exact Ha|]. split; [exact Hs|]. intros wk info. by apply activity_publishes. Qed.

Lemma routed_emit wfID input i e : of_run input i -> only (routed wfID input) (emit_event wfID i e).
Proof.
  intros Hi. assert (Hf : isRoot i = isRoot input /\ wi_EventTypes i = wi_EventTypes input /\ streamWorkflowID wfID i = stream_owner wfID input).
  { destruct Hi as [->|(a & b & ->)]; done. }
  destruct Hf as (Hr & Ht & Hs). unfold emit_event, check_error, emitAgentEvent. rewrite Hr, Ht.
  apply only_bind; [|intros; apply only_ret]. case_match eqn:Ea; [|apply only_ret]. case_match eqn:Er.
  - apply (only_wcall _ (WPublish e)). done.
  - apply only_bind; [|intros; apply only_ret].
    match goal with |- only ?P (execute_activity ?o ?a) => apply (only_activity P o a) end. intros r.
    apply routed_activity; [done|]. intros s [= <-]. exact Hs.
Qed.

Lemma sub_scope_tenant m id : sc_UserID (SubAgentScope m id) = sc_UserID m /\ sc_TenantID (SubAgentScope m id) = sc_TenantID m.
Proof. done. Qed.

Lemma routed_delegate rt wfID input i tc route :
  of_run input i -> find_route (wi_SubAgentRoutes i) (tc_ToolName tc) = Some route ->
  only (routed wfID input) (delegateToSubAgent rt wfID i tc route).
Proof.
  intros Hi Hroute. pose proof (fun e => routed_emit wfID input i e Hi) as He. unfold delegateToSubAgent.
  case_match; [apply only_ret|]. case_match eqn:Ed; [apply only_ret|]. crush_bool.
  apply only_bind; [by apply (only_wcall _ WSideEffectUUID)|]. intros [e|sfx]; [apply only_ret|].
  apply only_fallible; [apply He|]. intros _. apply only_bind.
  - match goal with |- only ?P (wcall ?o) => apply (only_wcall P o) end. intros r.
    destruct Hi as [->|(a & b & ->)]; unfold routed, contained_child; cbn; split_and!; try done; by exists (tc_ToolName tc), route.
  - intros [err|child]; [apply only_ret|]. apply only_fallible; [apply He|]. intros _. apply only_ret.
Qed.

(** C9: In a Temporal run and all its continuations every event the workflow itself publishes passes
    the run's filter and goes to the event stream of the root workflow, directly from the root
    and through an activity from a sub-agent; every activity it starts is told that stream, and
    whichever worker serves it publishes nowhere else (its own events are not filtered); and
    every child workflow is one level deeper and within the depth limit, publishes to the same
    stream with the same filter, keeps the user and tenant of the memory scope, has no
    conversation, and gets the routes and fingerprint of a configured sub-agent. *)
Theorem workflow_routing rt wfID n fuel input tr o :
  texec (run_chain rt wfID n fuel input) tr o -> Forall (routed wfID input) tr.
Proof.
  assert (Howner : forall i, of_run input i -> stream_owner wfID i = stream_owner wfID input) by (by intros i [->|(a & b & ->)]).
  intros Hx. eapply (lift_only rt wfID (routed wfID input) (of_run input)); [..|exact Hx].
  - intros i [o' r] Hi He Ht. unfold told_stream in Ht. cbn in Ht.
    destruct o' as [| | | | | | |b|opts a|? ? ? c| | | | | | | | | | | |]; try done;
      [by destruct He as [?|He]; cbn in *; intuition discriminate| |by destruct He as [?|He]; cbn in *; intuition discriminate].
    apply routed_activity; [|intros s Hs; rewrite <- (Howner i Hi); by apply Ht].
    destruct a; try done. by destruct He as [?|He]; cbn in *; intuition discriminate.
  - intros i suffix mid iter slot b now tc Hi. apply branch_effects.
    + intros [] r Ho; try done. destruct a; try done; apply routed_activity; done.
    + intros e. by apply routed_emit.
    + intros opts tc'. match goal with |- only ?P (execute_activity ?o ?a) => apply (only_activity P o a) end.
      intros r. apply routed_activity; [done|]. intros s [= <-]. exact (Howner i Hi).
    + intros tc' route Hr. by apply routed_delegate.
  - intros st. by apply (only_wcall _ (WBreakerInit _)).
  - intros i a b. apply of_run_state.
  - by left.
Qed.

(** ** The circuit breaker *)

Definition restores_breaker (rt : Runtime) (e : wevent) : Prop :=
  match ev_op e with
  | WBreakerInit c => breaker_ok (ac_ErrorControl (rt_AgentConfig rt)) c
  | _ => True
  end.

Lemma restored_breaker_ok rt st : breaker_ok (ac_ErrorControl (rt_AgentConfig rt)) (restored_breaker rt st).
Proof.
  unfold restored_breaker, breaker_ok. destruct (st_CircuitBreaker st) as [tools|]; [by exists tools|]. exists ∅.
  unfold NewCircuitBreakerFromState, NewCircuitBreaker. repeat case_match; done.
Qed.

Lemma chain_restores rt wfID n fuel input : only (restores_breaker rt) (run_chain rt wfID n fuel input).
Proof.
  apply (lift_only rt wfID (restores_breaker rt) (fun _ => True)); [| |intros st|done..].
  - intros _ [o r] _ He _. unfold restores_breaker. destruct o; try done. by destruct He as [?|He]; cbn in *; intuition discriminate.
  - intros i suffix mid iter slot b now tc _. eapply only_mono; [|apply only_branch]. intros [o r] He.
    unfold restores_breaker. destruct o; try done. by destruct He as [?|He]; cbn in *; intuition discriminate.
  - apply (only_wcall _ (WBreakerInit _)). intros r. apply restored_breaker_ok.
Qed.

(** The operations of a breaker keep its configuration. *)
Definition same_cfg (c c' : option CircuitBreaker) : Prop :=
  match c, c' with Some b, Some b' => cfg b' = cfg b | None, None => True | _, _ => False end.

Lemma same_cfg_IsTripped c name now : same_cfg c (IsTripped c name now).2.
Proof. destruct c as [b|]; [|done]. unfold IsTripped. repeat (case_match; try done). Qed.

Lemma same_cfg_RecordFailure c name args now : same_cfg c (RecordFailure c name args now).2.
Proof. destruct c as [b|]; [|done]. unfold RecordFailure. repeat (case_match; try done). Qed.

Lemma same_cfg_RecordSuccess c name : same_cfg c (RecordSuccess c name).
Proof. destruct c as [b|]; [|done]. unfold RecordSuccess. repeat (case_match; try done). Qed.

Lemma breaker_ok_step rt h e h' :
  wf_heap_step h e h' -> restores_breaker rt e ->
  breaker_ok (ac_ErrorControl (rt_AgentConfig rt)) (wh_breaker h) \/ event_kind e = KBreakerInit ->
  breaker_ok (ac_ErrorControl (rt_AgentConfig rt)) (wh_breaker h').
Proof.
  destruct e as [o r]. unfold restores_breaker, event_kind. cbn [ev_op]. set (ec := ac_ErrorControl _).
  assert (Hcfg : forall c c', breaker_ok ec c ->
    same_cfg c c' -> breaker_ok ec c').
  { intros c c' [tools ->]. unfold breaker_ok, NewCircuitBreakerFromState. destruct (NewCircuitBreaker ec) as [b|], c' as [b'|]; cbn; intros Hc; try done.
    exists (Tools b'). destruct b'. cbn in *. by subst. }
  intros Hst Hr [Hok|Hk].
  - destruct o; cbn in Hst; try (by subst h'); try (by destruct Hst as [_ ->]); try (subst h'; done).
    + destruct Hst as [_ ->]. apply (Hcfg _ _ Hok). apply same_cfg_IsTripped.
    + subst h'. apply (Hcfg _ _ Hok). apply same_cfg_RecordFailure.
    + subst h'. apply (Hcfg _ _ Hok). apply same_cfg_RecordSuccess.
  - destruct o; try done; [by destruct a|]. cbn in Hst. by subst h'.
Qed.

(** From its creation on, the breaker of a run is the configured one with some history: the
    hypothesis of [continuation_resumes] holds wherever a run continues as new. *)
Lemma chain_breaker_ok rt wfID n fuel input tr o t1 t2 h h1 :
  texec (run_chain rt wfID n fuel input) tr o -> tr = t1 ++ t2 ->
  Exists (fun e => event_kind e = KBreakerInit) t1 -> wf_steps h t1 h1 ->
  breaker_ok (ac_ErrorControl (rt_AgentConfig rt)) (wh_breaker h1).
Proof.
  intros Hx -> Hex Hst. pose proof (chain_restores rt wfID n fuel input _ _ Hx) as Hr. cbn beta in Hr.
  apply Forall_app in Hr as [Hr _]. clear Hx.
  assert (Hgen : breaker_ok (ac_ErrorControl (rt_AgentConfig rt)) (wh_breaker h) \/ Exists (fun e => event_kind e = KBreakerInit) t1)
    by (by right). clear Hex. revert Hgen.
  induction Hst as [h|h e hm tr h2 He Hst IH]; intros Hgen.
  - destruct Hgen as [?|Hex]; [done|]. inversion Hex.
  - apply Forall_cons_1 in Hr as [Hre Hr]. apply IH; [done|].
    destruct Hgen as [Hok|Hex]; [left; eapply breaker_ok_step; eauto|].
    inversion Hex as [? ? Hk|? ? Hk]; subst; [left; eapply breaker_ok_step; eauto|by right].
Qed.
