(* ===== verification/TemporalApprovals.v ===== *)
(** The map of pending approvals of a Temporal workflow and its deferred clean-up: an approval that
    ends is taken out of the map, and one whose wait is cancelled is completed by the clean-up
    activity. *)
From S2P Require Import Prelude GoLib Types Codec Prog ProgSpec Policies MemoryConfig Budget CircuitBreaker Telemetry Events Effects ErrorControl LLM Memory AgentLoop TemporalDefs TemporalLoop TemporalFacts TemporalBounds TemporalResume TemporalLift.

#[local] Open Scope string_scope.
#[local] Open Scope list_scope.
#[local] Open Scope Z_scope.

(** ** Events of the map *)

(** The call whose entry an event touches. *)
Definition pending_id (e : wevent) : option string :=
  match ev_op e with
  | WPendingSet id _ | WPendingDelete id => Some id
  | _ => None
  end.

(** No wait for an approval was cancelled. *)
Definition not_cancelled (e : wevent) : Prop :=
  match e with
  | Ev (WActivity _ (AgentToolApprovalActivity _)) (inl err) => xe_canceled err = false
  | _ => True
  end.

Definition is_set (e : wevent) : Prop := match ev_op e with WPendingSet _ _ => True | _ => False end.
Definition deletes (e f : wevent) : Prop :=
  match ev_op e, ev_op f with WPendingSet id _, WPendingDelete id' => id' = id | _, _ => False end.

(** The event ends the wait for the approval of the call without its being cancelled. *)
Definition ends_wait (id : string) (e : wevent) : Prop :=
  match e with
  | Ev (WActivity _ (AgentToolApprovalActivity i)) (inl err) => ata_ToolCallID i = id /\ xe_canceled err = false
  | Ev (WActivity _ (AgentToolApprovalActivity i)) (inr _) => ata_ToolCallID i = id
  | _ => False
  end.

(** An approval activity runs under the activity ID its entry names; an entry is deleted after
    the wait it stands for. *)
Definition entered (past : list wevent) (e : wevent) : Prop :=
  match ev_op e with
  | WActivity o (AgentToolApprovalActivity i) =>
      In (Ev (S := wf_sig) (WPendingSet (ata_ToolCallID i) (ao_ActivityID o)) tt) past /\ ao_ActivityID o <> ""
  | WPendingDelete id => exists f, In f past /\ ends_wait id f
  | _ => True
  end.

(** An entry is made for an approval activity with its activity ID. *)
Definition awaits (e f : wevent) : Prop :=
  match ev_op e, ev_op f with
  | WPendingSet id act, WActivity o (AgentToolApprovalActivity i) => ata_ToolCallID i = id /\ ao_ActivityID o = act
  | _, _ => False
  end.

Lemma entered_mono p p' e : (forall f, In f p -> In f p') -> entered p e -> entered p' e.
Proof. unfold entered. intros H. repeat case_match; naive_solver. Qed.

(** ** The map after a trace *)

Lemma pending_step h e h' : wf_heap_step h e h' ->
  wh_pending h' = match ev_op e with
                  | WPendingSet id act => <[id := act]> (wh_pending h)
                  | WPendingDelete id => delete id (wh_pending h)
                  | _ => wh_pending h
                  end.
Proof.
  destruct e as [o r]. destruct o; cbn; intros Hs; try (by subst h'); try (by destruct Hs as [_ ->]).
Qed.

Lemma set_then_delete x y z :
  is_set x -> ~ is_set y -> ~ is_set z -> deletes x z -> followed is_set deletes [x; y; z].
Proof.
  intros Hx Hy Hz Hd. apply followed_cons; [intros _; exists z; split; [right; by left|done]|].
  apply followed_no_needs. intros e [<-|[<-|[]]]; done.
Qed.

(** An entry that is always deleted is gone at the end. *)
Lemma settled id t : forall h h', wf_steps h t h' -> followed is_set deletes t ->
  wh_pending h !! id = None \/ Exists (fun e => ev_op e = WPendingDelete id) t -> wh_pending h' !! id = None.
Proof.
  induction t as [|e t IH]; intros h h' Hst Hf Hid; inversion Hst as [|? ? hm ? ? He Hr]; subst.
  - destruct Hid as [?|Hex]; [done|inversion Hex].
  - apply pending_step in He.
    assert (Hft : followed is_set deletes t) by (intros pre x post ->; by apply (Hf (e :: pre) x post)).
    apply (IH hm h' Hr Hft). rewrite He.
    assert (Hcase : is_set e \/ ~ is_set e) by (unfold is_set; destruct (ev_op e); auto).
    destruct Hcase as [Hs|Hs].
    + destruct (Hf [] e t eq_refl Hs) as (f & Hin & Hdel). unfold is_set, deletes in *.
      destruct (ev_op e) as [] eqn:Ee; try done. destruct (ev_op f) as [] eqn:Ef; try done. subst.
      destruct (decide (toolCallID = id)) as [->|Hne].
      * right. apply List.Exists_exists. eauto.
      * rewrite lookup_insert_ne by done. destruct Hid as [?|Hex]; [by left|right].
        inversion Hex as [? ? Hx|? ? Hx]; subst; [by rewrite Ee in Hx|done].
    + unfold is_set in Hs. destruct Hid as [Hid|Hex].
      * left. destruct (ev_op e); try done. destruct (decide (toolCallID = id)) as [->|Hne];
          [apply lookup_delete_eq|by rewrite lookup_delete_ne].
      * inversion Hex as [? ? Hx|? ? Hx]; subst; [left; rewrite Hx; apply lookup_delete_eq|by right].
Qed.

(** An entry touched by one kind of [set] only is there at the end. *)
Lemma kept id act t : forall h h', wf_steps h t h' ->
  Forall (fun e => pending_id e = Some id -> ev_op e = WPendingSet id act) t ->
  wh_pending h !! id = Some act \/ Exists (fun e => ev_op e = WPendingSet id act) t -> wh_pending h' !! id = Some act.
Proof.
  induction t as [|e t IH]; intros h h' Hst Hf Hid; inversion Hst as [|? ? hm ? ? He Hr]; subst.
  - destruct Hid as [?|Hex]; [done|inversion Hex].
  - apply pending_step in He. apply Forall_cons_1 in Hf as [Hfe Hft]. apply (IH hm h' Hr Hft). rewrite He.
    unfold pending_id in Hfe. destruct Hid as [Hid|Hex].
    + left. destruct (ev_op e) as [] eqn:Ee; try done;
        (destruct (decide (toolCallID = id)) as [->|Hne];
         [specialize (Hfe eq_refl); try done; injection Hfe as ->; apply lookup_insert_eq
         |by rewrite ?lookup_insert_ne, ?lookup_delete_ne]).
    + inversion Hex as [? ? Hx|? ? Hx]; subst; [left; rewrite Hx; apply lookup_insert_eq|by right].
Qed.

(** ** The workflow *)

Section approvals.
Context (rt : Runtime) (wfID : string).

(** Parts that do not touch the map. *)
Lemma paired_within T G ks {A} (m : prog A) : ~ In KPending ks -> only (within ks) m -> paired T is_set G m.
Proof.
  intros Hk H. apply paired_only. eapply only_mono; [|exact H]. intros [o r] He Hs.
  apply (within_not ks KPending) in He; [|done..]. unfold is_set in Hs. by destruct o.
Qed.

Lemma entered_within ks past {A} (m : prog A) :
  ~ In KApproval ks -> ~ In KPending ks -> only (within ks) m -> safe entered past m.
Proof.
  intros Hk Hk' H. apply safe_only. eapply only_mono; [|exact H]. intros [o r] He p.
  pose proof (within_not ks KApproval _ ltac:(done) Hk He) as H1.
  pose proof (within_not ks KPending _ ltac:(done) Hk' He) as H2. unfold entered. cbn.
  destruct o as [| | | | | | | |? a| | | | | | | | | | | | |]; try done. by destruct a.
Qed.

Ltac pquiet ks := apply (paired_within _ _ ks); [cbn; intuition discriminate|].
Ltac equiet ks := apply (entered_within ks); [cbn; intuition discriminate..|].

Lemma paired_fallible T G {E A B} (m : prog (sum E A)) (f : A -> prog (sum E B)) :
  paired T is_set G m -> (forall a, paired T is_set G (f a)) -> paired T is_set G (bind_fallible m f).
Proof. intros Hm Hf. apply paired_bind; [done|]. intros [e|a]; [apply paired_ret|apply Hf]. Qed.

Section call.
Context (input : AgentWorkflowInput) (suffix : string).

Lemma paired_await slot tc : paired not_cancelled is_set deletes (await_approval rt wfID input suffix slot tc).
Proof.
  unfold await_approval. destruct (negb (tc_NeedsApproval tc)); [apply paired_ret|]. unfold paired.
  wf_step. intros []. wf_step. intros r. cbv zeta.
  destruct r as [e|st]; [destruct (xe_canceled e) eqn:Ec|].
  - apply spec_mret. intros Ht. apply Forall_cons_1 in Ht as [_ [Ht _]%Forall_cons_1]. cbn in Ht. congruence.
  - wf_step. intros []. apply spec_mret. intros _. apply set_then_delete; cbn; auto.
  - wf_step. intros []. apply spec_mret. intros _. apply set_then_delete; cbn; auto.
Qed.

Lemma paired_awaits slot tc : paired (fun _ => True) is_set awaits (await_approval rt wfID input suffix slot tc).
Proof.
  unfold await_approval. destruct (negb (tc_NeedsApproval tc)); [apply paired_ret|]. unfold paired.
  wf_step. intros []. wf_step. intros r. cbv zeta.
  assert (Hf : forall a b l, awaits a b -> Forall (fun e => ~ is_set e) (b :: l) -> followed is_set awaits (a :: b :: l)).
  { intros a b l H Hl. apply followed_cons; [intros _; exists b; split; [by left|done]|].
    apply followed_no_needs. intros e He. rewrite List.Forall_forall in Hl. by apply Hl. }
  destruct r as [e|st]; [destruct (xe_canceled e)|].
  - apply spec_mret. intros _. apply Hf; [done|]. repeat constructor; intros [].
  - wf_step. intros []. apply spec_mret. intros _. apply Hf; [done|]. repeat constructor; intros [].
  - wf_step. intros []. apply spec_mret. intros _. apply Hf; [done|]. repeat constructor; intros [].
Qed.

Lemma entered_await past slot tc : safe entered past (await_approval rt wfID input suffix slot tc).
Proof.
  unfold await_approval. destruct (negb (tc_NeedsApproval tc)); [apply safe_ret|]. unfold safe.
  wf_step. intros []. wf_step. intros r. cbv zeta.
  assert (Happ : forall l, justified entered
      (past ++ [Ev (S := wf_sig) (WPendingSet (tc_ToolCallID tc) (approvalActivityID suffix slot)) tt;
                Ev (S := wf_sig) (WActivity (approval_options rt suffix slot) (AgentToolApprovalActivity (approval_input rt wfID input tc))) r]) l ->
      justified entered past
        (Ev (S := wf_sig) (WPendingSet (tc_ToolCallID tc) (approvalActivityID suffix slot)) tt ::
         Ev (S := wf_sig) (WActivity (approval_options rt suffix slot) (AgentToolApprovalActivity (approval_input rt wfID input tc))) r :: l)).
  { intros l Hl. apply justified_cons; [done|]. apply justified_cons; [|by rewrite <- app_assoc].
    split; [apply in_or_app; right; by left|done]. }
  destruct r as [e|st]; [destruct (xe_canceled e) eqn:Ec|].
  - apply spec_mret. apply Happ, justified_nil.
  - wf_step. intros []. apply spec_mret. apply Happ. apply justified_cons; [|apply justified_nil].
    cbn. eexists. split; [apply in_or_app; right; right; by left|done].
  - wf_step. intros []. apply spec_mret. apply Happ. apply justified_cons; [|apply justified_nil].
    cbn. eexists. split; [apply in_or_app; right; right; by left|done].
Qed.

Lemma paired_branch T G mid iter slot b now tc :
  (forall slot tc, paired T is_set G (await_approval rt wfID input suffix slot tc)) ->
  paired T is_set G (run_branch rt wfID input suffix mid iter slot b now tc).
Proof.
  intros Hawait. unfold run_branch, executeAgentToolCall, approved_call. apply paired_bind; [|intros; apply paired_ret].
  apply paired_fallible; [pquiet [KPublish]; by apply only_emit_start; left|]. intros _.
  case_match; [pquiet [KPublish]; by apply only_answer; left|].
  apply paired_bind; [pquiet [KBreaker]; apply only_circuit_skips|]. intros [|]; [pquiet [KPublish]; by apply only_answer; left|].
  apply paired_fallible; [pquiet [KAuthorize]; wf_only|]. intros auth.
  case_match; [pquiet [KPublish]; by apply only_answer; left|].
  apply paired_fallible; [apply Hawait|]. intros st.
  apply paired_fallible; [pquiet [KTool; KPublish]; apply only_after_approval|]. intros r. pquiet [KPublish]. by apply only_answer; left.
Qed.

Lemma entered_branch past mid iter slot b now tc : safe entered past (run_branch rt wfID input suffix mid iter slot b now tc).
Proof.
  unfold run_branch, executeAgentToolCall, approved_call. apply safe_seq; [|intros; apply safe_ret].
  apply safe_seq; [equiet [KPublish]; by apply only_emit_start; left|]. intros t1 [e|_]; [apply safe_ret|].
  case_match; [equiet [KPublish]; by apply only_answer; left|].
  apply safe_seq; [equiet [KBreaker]; apply only_circuit_skips|]. intros t2 [|]; [equiet [KPublish]; by apply only_answer; left|].
  apply safe_seq; [equiet [KAuthorize]; wf_only|]. intros t3 [e|auth]; [apply safe_ret|].
  case_match; [equiet [KPublish]; by apply only_answer; left|].
  apply safe_seq; [apply entered_await|]. intros t4 [e|st]; [apply safe_ret|].
  apply safe_seq; [equiet [KTool; KPublish]; apply only_after_approval|]. intros t5 [e|r]; [apply safe_ret|].
  equiet [KPublish]. by apply only_answer; left.
Qed.
End call.

(** The whole of a run. *)
Lemma paired_body T G input suffix fuel :
  (forall i suffix slot tc, paired T is_set G (await_approval rt wfID i suffix slot tc)) ->
  paired T is_set G (run_body rt wfID input suffix fuel).
Proof.
  intros Ha. apply (lift_body rt wfID (fun A m => paired T is_set G m) (fun _ => True)); [| | | | | |done].
  - intros A a. apply paired_ret.
  - intros A B R m f Hm HR Hf tr b Hx Ht. apply texec_bind_inv in Hx as (t1 & t2 & a & -> & H1 & H2).
    apply Forall_app in Ht as [Ht1 Ht2]. apply followed_app; [exact (Hm _ _ H1 Ht1)|]. exact (Hf a (HR _ _ H1) _ _ H2 Ht2).
  - intros A B f l Hf. apply paired_par; [|done]. intros [o r] He. unfold is_sched in He. cbn in He. unfold is_set. cbn. rewrite He. intros [].
  - intros i A m _ Hm _. revert Hm. apply paired_within. cbn. intuition discriminate.
  - intros i sfx mid iter slot b now tc _. by apply paired_branch.
  - intros st. pquiet [KBreakerInit]. wf_only.
Qed.

Lemma entered_body input suffix fuel past : safe entered past (run_body rt wfID input suffix fuel).
Proof.
  revert past. apply (lift_body rt wfID (fun A m => forall past, safe entered past m) (fun _ => True)); [| | | | | |done].
  - intros A a past. apply safe_ret.
  - intros A B R m f Hm HR Hf past. apply (safe_bind entered past (fun _ => R)); [done..|]. intros t a Ha. by apply Hf.
  - intros A B f l Hf past. apply safe_par; [apply entered_mono| |done].
    intros [o r] p He. unfold is_sched in He. cbn in He. unfold entered. cbn. by rewrite He.
  - intros i A m _ Hm _ past. apply (entered_within loop_kinds); [cbn; intuition discriminate..|done].
  - intros i sfx mid iter slot b now tc _ past. apply entered_branch.
  - intros st past. equiet [KBreakerInit]. wf_only.
Qed.

(** A run is some set-up, its body, and the clean-up. *)
Lemma workflow_parts fuel input tr o : texec (AgentWorkflow rt wfID fuel input) tr o ->
  Forall (fun e => event_kind e = KQuiet) tr \/
  exists suffix t0 t1 t2, tr = t0 ++ t1 ++ t2 /\ Forall (fun e => event_kind e = KQuiet) t0 /\
    texec (run_body rt wfID input suffix fuel) t1 o /\ texec (cleanup suffix) t2 tt.
Proof.
  revert tr o. change (spec (AgentWorkflow rt wfID fuel input) (fun tr o =>
    Forall (fun e => event_kind e = KQuiet) tr \/
    exists suffix t0 t1 t2, tr = t0 ++ t1 ++ t2 /\ Forall (fun e => event_kind e = KQuiet) t0 /\
      texec (run_body rt wfID input suffix fuel) t1 o /\ texec (cleanup suffix) t2 tt)).
  unfold AgentWorkflow.
  apply (spec_seq _ _ (fun t _ => Forall (fun e => event_kind e = KQuiet) t)
    (fun t1 _ t2 o => Forall (fun e => event_kind e = KQuiet) t2 \/
      exists suffix t0 t1' t2', t2 = t0 ++ t1' ++ t2' /\ Forall (fun e => event_kind e = KQuiet) t0 /\
      texec (run_body rt wfID input suffix fuel) t1' o /\ texec (cleanup suffix) t2' tt)).
  - case_match; [|apply spec_mret; constructor]. match goal with |- spec (wcall ?o) ?Q => apply (spec_perform (S := wf_sig) o Q) end.
    intros r. by repeat constructor.
  - intros t1 [e|] _; [apply spec_mret; left; constructor|]. wf_step. intros [e|]; [apply spec_mret; left; by repeat constructor|].
    wf_step. intros [e|suffix]; [apply spec_mret; left; by repeat constructor|].
    intros tr o Hx. right. apply texec_bind_inv in Hx as (b1 & b2 & o1 & -> & H1 & H2).
    apply texec_bind_inv in H2 as (c1 & c2 & [] & -> & H2 & H3). apply texec_ret_inv in H3 as [-> ->].
    eexists suffix, [_; _], b1, c1. rewrite app_nil_r. split; [reflexivity|]. split; [by repeat constructor|done].
  - intros t1 a t2 b H1 [H2|(suffix & t0 & t1' & t2' & -> & H2 & H3)]; [left; by apply Forall_app|right].
    exists suffix, (t1 ++ t0), t1', t2'. rewrite app_assoc. split; [done|]. split; [by apply Forall_app|done].
Qed.

Lemma quiet_pending t : forall h h', wf_steps h t h' -> Forall (fun e => event_kind e = KQuiet) t -> wh_pending h' = wh_pending h.
Proof.
  induction t as [|e t IH]; intros h h' Hst Hq; inversion Hst as [|? ? hm ? ? He Hr]; subst; [done|].
  apply Forall_cons_1 in Hq as [Hqe Hq]. rewrite (IH _ _ Hr Hq). apply pending_step in He. rewrite He.
  unfold event_kind in Hqe. by destruct (ev_op e).
Qed.
End approvals.

(** ** The clean-up *)

Lemma cleanup_nothing suffix h t h' : texec (cleanup suffix) t tt -> wf_steps h t h' -> wh_pending h = ∅ ->
  count_kind KCleanup t = 0 /\ wh_pending h' = ∅.
Proof.
  intros Hx Hst Hp. revert Hx Hst. generalize (tt). intros u Hx. revert t u Hx.
  change (spec (cleanup suffix) (fun t _ => wf_steps h t h' -> count_kind KCleanup t = 0 /\ wh_pending h' = ∅)).
  unfold cleanup. wf_step. intros l. cbv zeta.
  assert (Hl : forall t, wf_steps h (Ev (S := wf_sig) WPendingList l :: t) h' -> l = [] /\ wf_steps h t h').
  { intros t Hs. inversion Hs as [|? ? hm ? ? He Hr]; subst. destruct He as [Hperm ->]. rewrite Hp, map_to_list_empty in Hperm.
    split; [by apply Permutation_nil, Permutation_sym|done]. }
  destruct l as [|x l].
  - apply spec_mret. intros Hs. destruct (Hl _ Hs) as [_ Hs']. inversion Hs'; subst. by counts.
  - intros t u _ Hs. by destruct (Hl t Hs).
Qed.

Lemma cleanup_completes suffix h t h' id act : texec (cleanup suffix) t tt -> wf_steps h t h' ->
  wh_pending h !! id = Some act -> act <> "" ->
  exists o c r, In (Ev (S := wf_sig) (WActivity o (AgentWorkflowCleanupActivity c)) r) t /\ In act (awc_ApprovalActivityIDs c).
Proof.
  intros Hx Hst Hp Hne. revert Hx Hst. generalize (tt). intros u Hx. revert t u Hx.
  change (spec (cleanup suffix) (fun t _ => wf_steps h t h' ->
    exists o c r, In (Ev (S := wf_sig) (WActivity o (AgentWorkflowCleanupActivity c)) r) t /\ In act (awc_ApprovalActivityIDs c))).
  unfold cleanup. wf_step. intros l. cbv zeta.
  assert (Hl : forall t, wf_steps h (Ev (S := wf_sig) WPendingList l :: t) h' -> In act (pendingApprovalActivityIDs l)).
  { intros t Hs. inversion Hs as [|? ? hm ? ? He Hr]; subst. destruct He as [Hperm _]. unfold pendingApprovalActivityIDs.
    apply List.filter_In. split; [|by apply negb_true_iff, String.eqb_neq].
    apply (in_map snd _ (id, act)). apply list_elem_of_In. rewrite Hperm. by apply elem_of_map_to_list. }
  case_bool_decide as Hd.
  - apply spec_mret. intros Hs. specialize (Hl _ Hs). by rewrite Hd in Hl.
  - wf_step. intros r. apply spec_mret. intros Hs. eexists _, _, r. split; [right; by left|]. by apply (Hl _ Hs).
Qed.

(** When no wait for an approval is cancelled, every entry made in the map of pending
    approvals is taken out again: the map is empty when the workflow returns and the deferred
    clean-up starts no activity. *)
Theorem approvals_settled rt wfID fuel input tr o h' :
  texec (AgentWorkflow rt wfID fuel input) tr o -> Forall not_cancelled tr -> wf_steps empty_heap tr h' ->
  wh_pending h' = ∅ /\ count_kind KCleanup tr = 0.
Proof.
  intros Hx Hn Hst. destruct (workflow_parts rt wfID fuel input tr o Hx) as [Hq|(suffix & t0 & t1 & t2 & -> & Hq & H1 & H2)].
  - split; [by rewrite (quiet_pending _ _ _ Hst Hq)|]. apply count_if_none. eapply Forall_impl; [exact Hq|].
    intros e He. apply bool_decide_eq_false_2. congruence.
  - apply wf_steps_app in Hst as (h0 & Hs0 & Hst). apply wf_steps_app in Hst as (h1 & Hs1 & Hs2).
    apply Forall_app in Hn as [_ Hn]. apply Forall_app in Hn as [Hn _].
    assert (Hp0 : wh_pending h0 = ∅) by (by rewrite (quiet_pending _ _ _ Hs0 Hq)).
    assert (Hp1 : wh_pending h1 = ∅).
    { apply map_eq. intros id. rewrite lookup_empty. apply (settled id t1 _ _ Hs1); [|left; by rewrite Hp0].
      apply (paired_body rt wfID not_cancelled deletes input suffix fuel (fun i sfx slot tc => paired_await rt wfID i sfx slot tc) _ _ H1 Hn). }
    destruct (cleanup_nothing suffix h1 t2 h' H2 Hs2 Hp1) as [Hc Hp]. split; [done|]. unfold count_kind. rewrite !count_if_app.
    fold (count_kind KCleanup t2). rewrite Hc.
    assert (count_kind KCleanup t1 = 0) as Hb; [|fold (count_kind KCleanup t1); rewrite Hb].
    { refine (count_kind_none KCleanup _ _ _ _ (only_body rt wfID input suffix fuel) _ _ H1); [done|]. cbn. intuition discriminate. }
    rewrite count_if_none; [done|]. eapply Forall_impl; [exact Hq|].
    intros e He. apply bool_decide_eq_false_2. congruence.
Qed.

(** The waits for the approval of a call all ran under one activity and were cancelled. *)
Definition only_cancelled (id act : string) (tr : list wevent) : Prop :=
  forall o i r, In (Ev (S := wf_sig) (WActivity o (AgentToolApprovalActivity i)) r) tr -> ata_ToolCallID i = id ->
  ao_ActivityID o = act /\ exists e, r = inl e /\ xe_canceled e = true.

(** Then the entry of the call is made for that activity and never taken out. *)
Lemma only_own_entry id act t :
  justified entered [] t -> followed is_set awaits t -> only_cancelled id act t ->
  Forall (fun e => pending_id e = Some id -> ev_op e = WPendingSet id act) t.
Proof.
  intros Hj Hf Hc. apply List.Forall_forall. intros e He Hid. apply in_split in He as (p & q & ->).
  unfold pending_id in Hid. destruct (ev_op e) as [] eqn:Ee; try done; injection Hid as ->.
  - destruct (Hf p e q eq_refl) as (f & Hin & Haw); [unfold is_set; by rewrite Ee|].
    unfold awaits in Haw. rewrite Ee in Haw. destruct f as [fo rf]. cbn in Haw.
    destruct fo as [| | | | | | | |o' a| | | | | | | | | | | | |]; try done. destruct a as [| | |j| | | | | | | | |]; try done. destruct Haw as [Hid' <-].
    destruct (Hc o' j rf) as [<- _]; [apply in_or_app; right; by right|done|done].
  - pose proof (Hj p e q eq_refl) as Hd. unfold entered in Hd. rewrite Ee in Hd. destruct Hd as ([fo rf] & Hin & Hw).
    unfold ends_wait in Hw. destruct fo as [| | | | | | | |o' a| | | | | | | | | | | | |]; try done. destruct a as [| | |j| | | | | | | | |]; try done.
    assert (Hid : ata_ToolCallID j = id) by (by destruct rf as [err|]; [destruct Hw|]).
    destruct (Hc o' j rf) as [_ (err & -> & Hcan)]; [apply in_or_app; by left|done|]. destruct Hw as [_ Hw]. congruence.
Qed.

Lemma no_approval_outside t : Forall (fun e => event_kind e = KQuiet \/ event_kind e = KCleanup) t ->
  forall o i r, ~ In (Ev (S := wf_sig) (WActivity o (AgentToolApprovalActivity i)) r) t.
Proof. intros H o i r Hin. rewrite List.Forall_forall in H. by destruct (H _ Hin). Qed.

(** C16: An approval whose wait was cancelled is not left behind, provided that every wait of this workflow execution for the approval of
    that call was cancelled and ran under one activity ID ([only_cancelled]): the deferred clean-up then runs an
    activity whose input lists the ID of that approval activity. Without the condition this is false: parallel calls of
    the model that share an ID share one entry of the pending approvals, and the wait that ends first removes it. *)
Theorem cancelled_approval_cleaned rt wfID fuel input tr out h' o i e :
  texec (AgentWorkflow rt wfID fuel input) tr out -> wf_steps empty_heap tr h' ->
  In (Ev (S := wf_sig) (WActivity o (AgentToolApprovalActivity i)) (inl e)) tr ->
  only_cancelled (ata_ToolCallID i) (ao_ActivityID o) tr ->
  exists o' c r, In (Ev (S := wf_sig) (WActivity o' (AgentWorkflowCleanupActivity c)) r) tr /\
    In (ao_ActivityID o) (awc_ApprovalActivityIDs c).
Proof.
  intros Hx Hst Hin Hc. destruct (workflow_parts rt wfID fuel input tr out Hx) as [Hq|(suffix & t0 & t1 & t2 & -> & Hq & H1 & H2)].
  { exfalso. eapply no_approval_outside, Hin. eapply Forall_impl; [exact Hq|]. by left. }
  apply wf_steps_app in Hst as (h0 & Hs0 & Hst). apply wf_steps_app in Hst as (h1 & Hs1 & Hs2).
  pose proof (entered_body rt wfID input suffix fuel [] _ _ H1) as Hj.
  pose proof (paired_body rt wfID (fun _ => True) awaits input suffix fuel
    (fun i sfx slot tc => paired_awaits rt wfID i sfx slot tc) _ _ H1 ltac:(by apply Forall_true)) as Hf.
  assert (Hin1 : In (Ev (S := wf_sig) (WActivity o (AgentToolApprovalActivity i)) (inl e)) t1).
  { apply in_app_or in Hin as [Hin|Hin]; [exfalso; eapply no_approval_outside, Hin; eapply Forall_impl; [exact Hq|]; by left|].
    apply in_app_or in Hin as [?|Hin]; [done|]. exfalso. eapply no_approval_outside, Hin.
    eapply Forall_impl; [exact (only_cleanup suffix _ _ H2)|]. intros f [?|[?|[]]]; [by left|by right]. }
  assert (Hc1 : only_cancelled (ata_ToolCallID i) (ao_ActivityID o) t1).
  { intros o' j r Hr. apply (Hc o' j r). apply in_or_app. right. apply in_or_app. by left. }
  pose proof (only_own_entry _ _ _ Hj Hf Hc1) as Hown.
  apply in_split in Hin1 as (p & q & Ht1). destruct (Hj p _ q Ht1) as [Hset Hne].
  assert (Hp1 : wh_pending h1 !! ata_ToolCallID i = Some (ao_ActivityID o)).
  { apply (kept _ _ t1 _ _ Hs1 Hown). right. apply List.Exists_exists. eexists.
    split; [rewrite Ht1; apply in_or_app; left; exact Hset|done]. }
  destruct (cleanup_completes suffix h1 t2 h' _ _ H2 Hs2 Hp1 Hne) as (o' & c & r & Hr & Ha).
  exists o', c, r. split; [|done]. apply in_or_app. right. apply in_or_app. by right.
Qed.
