(* ===== verification/TemporalClient.v ===== *)
(** The caller's side of the Temporal runtime ([runtime.go], [approval.go], [subagent.go]): the
    identifiers of a run, the input of its workflow, approvals from the event to the activity
    that waits, and the goroutines that drive a run. *)
From S2P Require Import Prelude GoLib Types Codec Prog ProgSpec JsonText JsonCodec TimeText Policies MemoryConfig Telemetry Events EventsCodec Effects Sanitize Memory AgentLoop Handles A2aClient TemporalFingerprint TemporalDefs TemporalLoop TemporalActivities.

#[local] Open Scope string_scope.
#[local] Open Scope list_scope.
#[local] Open Scope Z_scope.

Module Client.

(** ** Workflow IDs *)

Definition maxAgentNameWorkflowSegmentBytes : nat := 128.

(** The byte a rune of [len] bytes that starts with [c] becomes; an invalid byte has no length. *)
Definition segment_byte (len : nat) (c : ascii) : ascii :=
  let n := N_of_ascii c in
  if Nat.eqb len 1 &&
     (Json.in_range 97 122 c || Json.in_range 65 90 c || Json.in_range 48 57 c ||
      Ascii.eqb c "-" || Ascii.eqb c "_" || Ascii.eqb c ".")
  then c else "-"%char.

(** One byte per rune. *)
Fixpoint segment_bytes (fuel : nat) (l : bytes) : bytes :=
  match fuel, l with
  | S fuel, c :: _ => let n := Json.rune_len l in segment_byte n c :: segment_bytes fuel (drop (Nat.max 1 n) l)
  | _, _ => []
  end.

Fixpoint drop_hyphens (l : bytes) : bytes :=
  match l with c :: l' => if Ascii.eqb c "-" then drop_hyphens l' else l | [] => [] end.

(** [strings.Trim(s, "-")] *)
Definition trim_hyphens (l : bytes) : bytes := rev (drop_hyphens (rev (drop_hyphens l))).

Fixpoint drop_invalid (fuel : nat) (l : bytes) : bytes :=
  match fuel with
  | O => l
  | S fuel => if (0 <? length l)%nat && negb (ValidString (of_bytes l)) then drop_invalid fuel (removelast l) else l
  end.

Definition truncateUTF8String (s : string) (maxBytes : nat) : string :=
  let l := to_bytes s in
  if (length l <=? maxBytes)%nat then s else of_bytes (drop_invalid maxBytes (take maxBytes l)).

Definition sanitizeTemporalWorkflowIDSegment (s : string) : string :=
  let s := TrimSpace s in
  if String.eqb s "" then "agent" else
  let out := trim_hyphens (segment_bytes (String.length s) (to_bytes s)) in
  match out with
  | [] => "agent"
  | _ => truncateUTF8String (of_bytes out) maxAgentNameWorkflowSegmentBytes
  end.

Definition getWorkflowID (runID agentName : string) (isStream : bool) : string :=
  let name := sanitizeTemporalWorkflowIDSegment agentName in
  (if isStream then "agent-stream-" else "agent-run-") +:+ name +:+ "-" +:+ runID.

(** ** Routes to sub-agents *)

(** [SubAgentSpec] with the runtime a Temporal caller looks for: the worker side of a
    [TemporalRuntime] and its task queue; [None] for another runtime. *)
Inductive Spec_ :=
| TSpec (Name ToolName : string) (Runtime : option (Worker * string)) (Children : list (option Spec_)) (tools : list Tool).

(** [out[k] = r] *)
Fixpoint set_route (m : list (string * SubAgentRoute)) (k : string) (r : SubAgentRoute) : list (string * SubAgentRoute) :=
  match m with
  | [] => [(k, r)]
  | (k', r') :: m => if String.eqb k' k then (k, r) :: m else (k', r') :: set_route m k r
  end.

Fixpoint build_route (s : Spec_) : string * SubAgentRoute :=
  let '(TSpec name toolName rt children tools) := s in
  let fix build (specs : list (option Spec_)) (out : list (string * SubAgentRoute)) :=
    match specs with
    | [] => out
    | None :: specs => build specs out
    | Some s :: specs => let '(k, r) := build_route s in build specs (set_route out k r)
    end in
  (toolName,
   match rt with
   | Some (tr, taskQueue) =>
       Route name taskQueue (build children []) (computeAgentFingerprintFromRuntime (wk_Runtime tr) (wk_fingerprints tr) tools)
   | None => Route name "" (build children []) ""
   end).

Fixpoint build_routes (specs : list (option Spec_)) (out : list (string * SubAgentRoute)) : list (string * SubAgentRoute) :=
  match specs with
  | [] => out
  | None :: specs => build_routes specs out
  | Some s :: specs => let '(k, r) := build_route s in build_routes specs (set_route out k r)
  end.

Definition buildSubAgentRoutes (specs : list (option Spec_)) : list (string * SubAgentRoute) := build_routes specs [].

(** ** Effects of a caller *)

Inductive WorkflowExecutionStatus :=
| WORKFLOW_UNSPECIFIED | WORKFLOW_RUNNING | WORKFLOW_COMPLETED | WORKFLOW_FAILED | WORKFLOW_CANCELED
| WORKFLOW_TERMINATED | WORKFLOW_CONTINUED_AS_NEW | WORKFLOW_TIMED_OUT | WORKFLOW_OTHER (n : Z).

Inductive CliOp :=
| KSched
| KNow
| KNewTicker                                             (* answers when it was created *)
| KTick                                                  (* the 500 ms ticker, or the context's end *)
| KUUID
| KCompleteActivity (taskToken status : string)
| KQueryApprovalPending (workflowID toolCallID : string)
| KCancelWorkflow (workflowID : string)
| KTerminateWorkflow (workflowID reason : string)
| KWaitDone                                              (* [<-done] *)
| KDoneWithin (d : Duration)                             (* done, or the timer first *)
| KDoneOrStop                                            (* done, or the end of the stop context *)
| KDescribeWorkflow (workflowID : string)
| KDescribeTaskQueue (taskQueue : string)
| KExecuteWorkflow (workflowID taskQueue : string) (input : AgentWorkflowInput)
| KSubscribe (workflowID : string)
| KApprovalHandler (req : ApprovalRequest)
| KSetStopCause (cause : error).

Definition CliAns (o : CliOp) : Type :=
  match o with
  | KSched => bool
  | KNow | KNewTicker => Time
  | KTick | KDoneWithin _ | KDoneOrStop => bool
  | KUUID => string
  | KCompleteActivity _ _ | KCancelWorkflow _ | KTerminateWorkflow _ _ | KExecuteWorkflow _ _ _ => option error
  | KQueryApprovalPending _ _ => result (option bool)    (* [None] when the answer does not decode *)
  | KDescribeWorkflow _ => result WorkflowExecutionStatus
  | KDescribeTaskQueue _ => result nat                   (* the number of pollers *)
  | KWaitDone | KSubscribe _ | KApprovalHandler _ | KSetStopCause _ => unit
  end.

#[export] Instance cli_sig : Sig := {| op := CliOp; ans := CliAns; sched := KSched; sched_ans := id |}.

Definition kcall (o : CliOp) : prog (CliAns o) := perform (S := cli_sig) o.

(** What a caller has of its runtime. *)
Record Caller := {
  cr_worker : Worker;            (* the runtime, which the worker side reads as well *)
  cr_taskQueue : string;
  cr_disableLocalWorker : bool;
  cr_approvalHandler : bool }.

(** ** Approvals: from the published event to the activity that waits *)

(** [cloneArgsMap] copies the map; values are shared, which maps of values do not show. *)
Definition cloneArgsMap (m : Args) : Args := m.

Definition toolApprovalFromEventValue (v : CustomValue) : option ApprovalRequest :=
  match v with
  | AgentCustomEventApprovalValue agent id tool display args token =>
      Some (ToolApproval agent id tool display (cloneArgsMap args) token)
  | _ => None
  end.
Definition delegationApprovalFromEventValue (v : CustomValue) : option ApprovalRequest :=
  match v with
  | AgentCustomEventDelegationValue agent sub _ args token => Some (SubAgentApproval agent sub (cloneArgsMap args) token)
  | _ => None
  end.
Definition budgetApprovalFromEventValue (v : CustomValue) : option ApprovalRequest :=
  match v with
  | AgentCustomEventBudgetValue agent detail tokens cost token => Some (BudgetApproval agent detail tokens cost token)
  | _ => None
  end.

Definition request_token (r : ApprovalRequest) : string :=
  match r with ToolApproval _ _ _ _ _ t | SubAgentApproval _ _ _ t | BudgetApproval _ _ _ _ t => t end.

Definition malformed_value : error := errors_New "events: unmarshal custom value".

Definition parsed (v : option CustomValue) (f : CustomValue -> option ApprovalRequest) : result (ApprovalRequest * string) :=
  match v ≫= f with
  | Some r => inr (r, request_token r)
  | None => inl malformed_value
  end.

(** [prepareApprovalFromCustomEvent]; [Respond] is set by the caller. *)
Definition prepareApprovalFromCustomEvent (Name : string) (v : CustomValue) : result (ApprovalRequest * string) :=
  if String.eqb Name AgentCustomEventNameToolApproval then parsed (ParseCustomEventApproval Name v) toolApprovalFromEventValue
  else if String.eqb Name AgentCustomEventNameSubAgentDelegation then
    parsed (ParseCustomEventDelegation Name v) delegationApprovalFromEventValue
  else if String.eqb Name AgentCustomEventNameBudget then parsed (ParseCustomEventBudget Name v) budgetApprovalFromEventValue
  else inl (sentinel_error ErrNotApprovalCustomEvent).

(** [approvalToolCallIDOf]: the call of a tool or delegation approval; budgets have none. *)
Definition approvalToolCallIDOf (ev : EventBody) : option string :=
  match ev with
  | AgentCustomEvent name v =>
      let id :=
        if String.eqb name AgentCustomEventNameToolApproval then
          match ParseCustomEventApproval name v with Some (AgentCustomEventApprovalValue _ id _ _ _ _) => id | _ => "" end
        else if String.eqb name AgentCustomEventNameSubAgentDelegation then
          match ParseCustomEventDelegation name v with Some (AgentCustomEventDelegationValue _ _ id _ _) => id | _ => "" end
        else "" in
      if String.eqb id "" then None else Some id
  | _ => None
  end.

(** A failed query counts as pending. *)
Definition isPendingApproval (workflowID toolCallID : string) : prog bool :=
  r ← kcall (KQueryApprovalPending workflowID toolCallID);
  mret (match r with inr (Some pending) => pending | _ => true end).

(** [approve] *)
Definition approve (approvalToken status : string) : prog (option error) :=
  if negb (String.eqb status ApprovalStatusApproved) && negb (String.eqb status ApprovalStatusRejected) then
    mret (Some (errors_New ("invalid approval status: " +:+ status)))
  else
  match Base64.DecodeString approvalToken with
  | None => mret (Some (errors_New "invalid approval token"))
  | Some taskToken =>
      e ← kcall (KCompleteActivity taskToken status);
      mret (match e with
            | Some err => if Act.isNotFoundError err then Some (sentinel_error ErrApprovalAlreadyResolved) else Some err
            | None => None
            end)
  end.

(** One item of the subscription of [subscribeApprovalEvents]; [None] does not decode. *)
Definition forward_approval (workflowID : string) (item : option EventBody) : prog (option EventBody) :=
  match item with
  | None => mret None
  | Some ev =>
      if negb (String.eqb (Type_ ev) "CUSTOM") then mret None else
      match approvalToolCallIDOf ev with
      | Some toolCallID =>
          pending ← isPendingApproval workflowID toolCallID;
          mret (if (pending : bool) then Some ev else None)
      | None => mret (Some ev)
      end
  end.

(** ** Stopping a run *)

Definition cancelWorkflow (workflowID reason : string) : prog unit :=
  if String.eqb workflowID "" then mret tt else
  e ← kcall (KCancelWorkflow workflowID);
  match e with
  | Some _ => _ ← kcall (KTerminateWorkflow workflowID reason); mret tt
  | None => mret tt
  end.

Definition terminateWorkflow (workflowID reason : string) : prog unit :=
  if String.eqb workflowID "" then mret tt else
  _ ← kcall (KTerminateWorkflow workflowID reason); mret tt.

(** A run that timed out is terminated; another one is cancelled first, and terminated when it is
    still open after three seconds. *)
Definition stopWorkflow (workflowID : string) (runErr : error) : prog unit :=
  if errors_Is runErr ContextDeadlineExceeded then
    _ ← terminateWorkflow workflowID "run timeout";
    kcall KWaitDone
  else
    _ ← cancelWorkflow workflowID "run cancelled";
    done ← kcall (KDoneWithin (3 * second));
    if (done : bool) then mret tt else
    _ ← terminateWorkflow workflowID "run cancelled";
    _ ← kcall KDoneOrStop;
    mret tt.

(** ** Status *)

Definition temporalStatusToRunStatus (s : WorkflowExecutionStatus) : RunStatus :=
  match s with
  | WORKFLOW_RUNNING => StatusRunning
  | WORKFLOW_COMPLETED => StatusCompleted
  | WORKFLOW_FAILED => StatusFailed
  | WORKFLOW_CANCELED => StatusCancelled
  | WORKFLOW_TIMED_OUT => StatusFailed
  | WORKFLOW_TERMINATED => StatusCancelled
  | WORKFLOW_UNSPECIFIED | WORKFLOW_CONTINUED_AS_NEW | WORKFLOW_OTHER _ => StatusPending
  end.

Definition getRunStatus (workflowID : string) : prog (result RunStatus) :=
  if String.eqb workflowID "" then mret (inl (errors_New "temporal: getRunStatus requires workflowID")) else
  r ← kcall (KDescribeWorkflow workflowID);
  mret (match r with
        | inl err => if Act.isNotFoundError err then inl (sentinel_error ErrRunNotFound) else inl err
        | inr s => inr (temporalStatusToRunStatus s)
        end).

(** ** Looking for workers *)

Definition workersCheckTimeout : Duration := 15 * second.

(** [deadline] is the time left until the deadline of the context. *)
Definition poll_timeout (left : option Duration) : Duration :=
  let timeout := match left with Some d => if d <? workersCheckTimeout then d else workersCheckTimeout | None => workersCheckTimeout end in
  if timeout <=? 0 then 2 * second else timeout.

(** The loop of [hasWorkers]; [None] when the rounds the model gives it are used up. *)
Fixpoint poll_workers (fuel : nat) (q : string) (deadlineTime : Time) : prog (option bool) :=
  match fuel with
  | O => mret None
  | S fuel =>
      res ← kcall (KDescribeTaskQueue q);
      match res with
      | inr (S _) => mret (Some true)
      | _ =>
          now ← kcall KNow;
          if deadlineTime <? now then mret (Some false) else
          tick ← kcall KTick;
          if (tick : bool) then poll_workers fuel q deadlineTime else mret (Some false)
      end
  end.

(** A tick is at least 500 ms after the one before it, and a timeout is at most 15 s. *)
Definition poll_rounds : nat := 32.

Definition hasWorkers (rt : Caller) (ctx_deadline : option Time) (taskQueue : string) : prog (option bool) :=
  let q := if String.eqb taskQueue "" then cr_taskQueue rt else taskQueue in
  left ← match ctx_deadline with
         | Some d => now ← kcall KNow; mret (Some (time_Sub d now))
         | None => mret None
         end;
  now ← kcall KNow;
  _ ← kcall KNewTicker;
  poll_workers poll_rounds q (time_Add now (poll_timeout left)).

Definition skipHasWorkersPrecheck (rt : Caller) : bool :=
  String.eqb (fi_agentMode (wk_fingerprints (cr_worker rt))) AgentModeAutonomous || negb (cr_disableLocalWorker rt).

(** ** Starting a run *)

Record TRunRequest := {
  tq_UserPrompt : string; tq_ConversationID : string; tq_EnableLLMStream : bool; tq_EventTypes : list string;
  tq_SubAgents : list (option Spec_); tq_MaxSubAgentDepth : Z; tq_Tools : list Tool }.

(** The handle a start returns, and what its driver gets. *)
Record started := { sd_runID : string; sd_workflowID : string; sd_threadID : string; sd_approvals : bool; sd_deadline : option Time }.

Section start.
Context (rt : Caller) (ctx : Ctx).

Definition base_runtime : Runtime := wk_Runtime (cr_worker rt).
Definition agent_name : string := as_Name (rt_AgentSpec base_runtime).

(** [newDriveContext]: the deadline of the run, of the parent or from the limits. *)
Definition newDriveContext (parent : option Time) (now : Time) : option Time :=
  match parent with
  | Some d => Some d
  | None =>
      let d := ac_Timeout (rt_AgentConfig base_runtime) in
      if 0 <? d then Some (time_Add now d) else None
  end.

Definition thread_of (conversationID runID : string) : string :=
  if String.eqb conversationID "" then
    (if String.eqb (TrimSpace agent_name) "" then runID else TrimSpace agent_name)
  else conversationID.

Definition workflow_input (req : TRunRequest) (runID : string) (streaming : bool) (eventTypes : list string)
    : AgentWorkflowInput :=
  {| wi_UserPrompt := tq_UserPrompt req; wi_RootWorkflowID := ""; wi_StreamState := None;
     wi_StreamingEnabled := streaming; wi_ConversationID := tq_ConversationID req;
     wi_AgentFingerprint := computeAgentFingerprintFromRuntime base_runtime (wk_fingerprints (cr_worker rt)) (tq_Tools req);
     wi_RunID := runID; wi_MemoryScope := run_scope base_runtime ctx; wi_EventTypes := eventTypes;
     wi_SubAgentDepth := 0; wi_SubAgentRoutes := buildSubAgentRoutes (tq_SubAgents req);
     wi_MaxSubAgentDepth := tq_MaxSubAgentDepth req; wi_State := None |}.

(** [None] of the answer: the rounds of the look for workers are used up. *)
Definition precheck (deadline : option Time) : prog (option bool) :=
  if skipHasWorkersPrecheck rt then mret (Some true) else hasWorkers rt deadline (cr_taskQueue rt).

Definition no_workers : error := errors_New ("no workers available on task queue " +:+ cr_taskQueue rt).

Definition start_workflow (deadline : option Time) (workflowID : string) (input : AgentWorkflowInput)
    : prog (option (result unit)) :=
  ok ← precheck deadline;
  match ok with
  | None => mret None
  | Some false => mret (Some (inl no_workers))
  | Some true =>
      e ← kcall (KExecuteWorkflow workflowID (cr_taskQueue rt) input);
      mret (Some (match e with Some err => inl err | None => inr tt end))
  end.

Definition run_event_types : list string := if cr_approvalHandler rt then ["CUSTOM"] else [].

Definition Run (parent : option Time) (req : option TRunRequest) : prog (option (result started)) :=
  match req with
  | None => mret (Some (inl (errors_New "temporal: nil RunRequest")))
  | Some req =>
      now ← kcall KNow;
      let deadline := newDriveContext parent now in
      runID ← kcall KUUID;
      let workflowID := getWorkflowID runID agent_name false in
      r ← start_workflow deadline workflowID (workflow_input req runID false run_event_types);
      match r with
      | None => mret None
      | Some (inl err) => mret (Some (inl err))
      | Some (inr _) =>
          _ ← (if cr_approvalHandler rt then kcall (KSubscribe workflowID) else mret tt);
          mret (Some (inr {| sd_runID := runID; sd_workflowID := workflowID; sd_threadID := "";
                             sd_approvals := cr_approvalHandler rt; sd_deadline := deadline |}))
      end
  end.

Definition stream_event_types (req : TRunRequest) : list string :=
  match tq_EventTypes req with [] => [AgentEventAll] | l => l end.

(** The check for workers has the context of the caller, not that of the run. *)
Definition Stream (ctx_err : option error) (parent : option Time) (req : option TRunRequest) : prog (option (result started)) :=
  match req with
  | None => mret (Some (inl (errors_New "temporal: nil RunRequest")))
  | Some req =>
      match ctx_err with
      | Some err => mret (Some (inl err))
      | None =>
          now ← kcall KNow;
          runID ← kcall KUUID;
          let workflowID := getWorkflowID runID agent_name true in
          r ← start_workflow parent workflowID
                (workflow_input req runID (tq_EnableLLMStream req) (stream_event_types req));
          mret (match r with
                | None => None
                | Some (inl err) => Some (inl err)
                | Some (inr _) =>
                    Some (inr {| sd_runID := runID; sd_workflowID := workflowID;
                                 sd_threadID := thread_of (tq_ConversationID req) runID; sd_approvals := false;
                                 sd_deadline := newDriveContext parent now |})
                end)
      end
  end.

(** [GetRunHandle] and [GetStreamHandle] up to the registry: the workflow ID of a run that is
    still open. *)
Definition open_workflow (not_found : sentinel) (runID : string) (isStream : bool) : prog (result string) :=
  if String.eqb (TrimSpace runID) "" then mret (inl (sentinel_error not_found)) else
  let workflowID := getWorkflowID runID agent_name isStream in
  r ← kcall (KDescribeWorkflow workflowID);
  mret (match r with
        | inl err => if Act.isNotFoundError err then inl (sentinel_error not_found) else inl err
        | inr s => if IsTerminal (temporalStatusToRunStatus s) then inl (sentinel_error ErrRunAlreadyCompleted) else inr workflowID
        end).
End start.

(** ** Driving a run *)

(** What the select of [driveRun] finds; a response is one a handler gave through [Respond] to the
    request with that number. *)
Inductive select_case :=
| HandleDone
| RunCtxDone (err : error)
| ApprovalEvent (ev : option EventBody)     (* [None]: the channel was closed *)
| ApprovalResponse (request : nat) (status : string).

(** The requests the handler was called with, oldest first. *)
Abbreviation driver_state := (list ApprovalRequest).

Definition prepare (ev : EventBody) : option ApprovalRequest :=
  match ev with
  | AgentCustomEvent name v => match prepareApprovalFromCustomEvent name v with inr (req, _) => Some req | inl _ => None end
  | _ => None
  end.

(** [Respond] accepts two statuses. *)
Definition respond_ok (status : string) : bool :=
  String.eqb status ApprovalStatusRejected || String.eqb status ApprovalStatusApproved.

(** One turn of the loop; [None] when the driver returns. *)
Definition drive_turn (workflowID : string) (asked : driver_state) (c : select_case) : prog (option driver_state) :=
  match c with
  | HandleDone => mret None
  | RunCtxDone err =>
      _ ← kcall (KSetStopCause err);
      _ ← stopWorkflow workflowID err;
      mret None
  | ApprovalEvent None => mret (Some asked)
  | ApprovalEvent (Some ev) =>
      match prepare ev with
      | None => mret (Some asked)
      | Some req =>
          _ ← kcall (KApprovalHandler req);
          mret (Some (asked ++ [req]))
      end
  | ApprovalResponse n status =>
      match asked !! n with
      | Some req =>
          if respond_ok status then
            _ ← approve (request_token req) status;
            mret (Some asked)
          else mret (Some asked)
      | None => mret (Some asked)
      end
  end.

(** The driver on the cases its select finds, as many as it looks at. *)
Fixpoint driveRun (workflowID : string) (asked : driver_state) (cases : list select_case) : prog (option driver_state) :=
  match cases with
  | [] => mret (Some asked)
  | c :: cases =>
      r ← drive_turn workflowID asked c;
      match r with None => mret None | Some asked => driveRun workflowID asked cases end
  end.

(** A stream has no approvals to deliver. *)
Definition driveStream (workflowID : string) (runErr : option error) : prog unit :=
  match runErr with
  | None => mret tt
  | Some err =>
      _ ← kcall (KSetStopCause err);
      stopWorkflow workflowID err
  end.
End Client.

(** ** Workflow IDs are valid *)

Import Client.

Definition id_byte (c : ascii) : bool :=
  Json.in_range 97 122 c || Json.in_range 65 90 c || Json.in_range 48 57 c || Ascii.eqb c "-" || Ascii.eqb c "_" || Ascii.eqb c ".".

Lemma segment_byte_ok n c : id_byte (segment_byte n c) = true.
Proof. unfold segment_byte. cbv zeta. destruct (_ && _) eqn:E; [|done]. by apply andb_true_iff in E as [_ ?]. Qed.

Lemma segment_bytes_ok fuel l : Forall (fun c => id_byte c = true) (segment_bytes fuel l).
Proof. revert l. induction fuel as [|fuel IH]; intros [|c l]; cbn; try constructor; [apply segment_byte_ok|apply IH]. Qed.

Lemma drop_hyphens_suffix l : exists k, l = k ++ drop_hyphens l /\ Forall (fun c => c = "-"%char) k.
Proof.
  induction l as [|c l (k & Hk & HF)]; [by exists []|]. cbn. destruct (Ascii.eqb_spec c "-") as [->|]; [|by exists []].
  exists ("-"%char :: k). cbn. rewrite <- Hk. by repeat constructor.
Qed.

Lemma drop_hyphens_head l c r : drop_hyphens l = c :: r -> c <> "-"%char.
Proof.
  induction l as [|x l IH]; [done|]. cbn. destruct (Ascii.eqb_spec x "-"); [exact IH|]. by intros [= <- _].
Qed.

Lemma trim_hyphens_infix l : exists a b, l = a ++ trim_hyphens l ++ b.
Proof.
  unfold trim_hyphens. destruct (drop_hyphens_suffix l) as (a & Ha & _).
  destruct (drop_hyphens_suffix (rev (drop_hyphens l))) as (b & Hb & _). exists a, (rev b).
  rewrite <- rev_app_distr, <- Hb, rev_involutive. exact Ha.
Qed.

Lemma trim_hyphens_head l c r : trim_hyphens l = c :: r -> c <> "-"%char.
Proof.
  unfold trim_hyphens. intros H. destruct (drop_hyphens_suffix (rev (drop_hyphens l))) as (b & Hb & _).
  apply (f_equal (@rev ascii)) in Hb. rewrite rev_involutive, rev_app_distr, H in Hb. by eapply drop_hyphens_head.
Qed.

Lemma id_byte_ascii c l : id_byte c = true -> Json.rune_len (c :: l) = 1%nat.
Proof.
  intros H. unfold Json.rune_len. assert (Json.in_range 0 127 c = true) as ->; [|done]. apply in_range_spec.
  unfold id_byte in H. repeat apply orb_true_iff in H as [H|H];
    (apply in_range_spec in H; lia) || (apply Ascii.eqb_eq in H as ->; split; vm_compute; discriminate).
Qed.

Lemma id_bytes_valid l : Forall (fun c => id_byte c = true) l -> ValidString (of_bytes l) = true.
Proof.
  unfold ValidString. rewrite to_of_bytes.
  assert (forall fuel, (length l <= fuel)%nat -> Forall (fun c => id_byte c = true) l -> valid_utf8 fuel l = true) as Hv.
  { intros fuel. revert l. induction fuel as [|fuel IH]; intros [|c l] Hl HF; cbn in Hl; try done; try lia.
    apply Forall_cons_1 in HF as [Hc HF]. cbn [valid_utf8]. rewrite (id_byte_ascii c l Hc).
    change (valid_utf8 fuel l = true). apply IH; [lia|done]. }
  apply Hv. clear. induction l; cbn; [done|lia].
Qed.

(** What the segment of an agent name can be. *)
Definition segment_ok (l : bytes) : Prop :=
  l <> [] /\ (length l <= maxAgentNameWorkflowSegmentBytes)%nat /\ Forall (fun c => id_byte c = true) l /\
  forall c r, l = c :: r -> c <> "-"%char.

Lemma truncate_ok l : Forall (fun c => id_byte c = true) l ->
  to_bytes (truncateUTF8String (of_bytes l) maxAgentNameWorkflowSegmentBytes) = take maxAgentNameWorkflowSegmentBytes l.
Proof.
  intros HF. unfold truncateUTF8String. cbv zeta. rewrite to_of_bytes. case_match eqn:E.
  - rewrite to_of_bytes. by rewrite take_ge by (by apply Nat.leb_le).
  - rewrite to_of_bytes. change maxAgentNameWorkflowSegmentBytes with (S 127) at 1. cbn [drop_invalid].
    rewrite id_bytes_valid by (by apply Forall_take). by rewrite andb_false_r.
Qed.

Lemma segment_valid name : segment_ok (to_bytes (sanitizeTemporalWorkflowIDSegment name)).
Proof.
  assert (Hd : segment_ok (to_bytes "agent")).
  { repeat split; [done|vm_compute; lia|by repeat constructor|by intros c r [= <- _]]. }
  unfold sanitizeTemporalWorkflowIDSegment. cbv zeta. case_match; [done|].
  destruct (trim_hyphens _) as [|c l] eqn:E; [done|].
  assert (HF : Forall (fun c => id_byte c = true) (c :: l)).
  { destruct (trim_hyphens_infix (segment_bytes (String.length (TrimSpace name)) (to_bytes (TrimSpace name)))) as (a & b & Hab).
    pose proof (segment_bytes_ok (String.length (TrimSpace name)) (to_bytes (TrimSpace name))) as HF. rewrite Hab, E in HF.
    apply Forall_app in HF as [_ HF]. by apply Forall_app in HF as [HF _]. }
  rewrite (truncate_ok _ HF). repeat split; [done|by rewrite length_take; lia|by apply Forall_take|].
  intros x r Hx. injection Hx as <- _. by eapply trim_hyphens_head.
Qed.

(** The workflow ID of a run is the kind of the run, a segment of the agent's name and the run
    ID; the segment has 1 to 128 bytes, only letters, digits, [-], [_] and [.], and does not
    begin with a hyphen, whatever the name is; runs and streams never share an ID and runs of an agent with
    different run IDs have different ones. *)
Theorem workflow_ids runID name isStream :
  (exists segment, segment_ok (to_bytes segment) /\
     getWorkflowID runID name isStream = (if isStream then "agent-stream-" else "agent-run-") +:+ segment +:+ "-" +:+ runID) /\
  (forall runID' name', getWorkflowID runID' name' (negb isStream) <> getWorkflowID runID name isStream) /\
  (forall runID', getWorkflowID runID' name isStream = getWorkflowID runID name isStream -> runID' = runID).
Proof.
  split_and!.
  - exists (sanitizeTemporalWorkflowIDSegment name). split; [apply segment_valid|done].
  - intros r' n' H. by destruct isStream.
  - intros r' H. apply (f_equal to_bytes) in H. unfold getWorkflowID in H. rewrite !to_bytes_app in H.
    repeat apply app_inv_head in H. by apply to_bytes_inj.
Qed.

(** ** Looking for workers ends *)

(** The clock does not run back, nor behind the ticker: after its [n]-th tick at least [n] half
    seconds have passed since it was created. *)
Fixpoint clock_ok (last created : Time) (ticks : Z) (tr : list (event cli_sig)) : Prop :=
  match tr with
  | [] => True
  | Ev KNow now :: tr => last <= now /\ created + ticks * (second / 2) <= now /\ clock_ok now created ticks tr
  | Ev KNewTicker t :: tr => last <= t /\ clock_ok t t 0 tr
  | Ev KTick b :: tr => clock_ok last created (if b : bool then ticks + 1 else ticks) tr
  | _ :: tr => clock_ok last created ticks tr
  end.

Lemma poll_timeout_bounds left : 0 < poll_timeout left <= workersCheckTimeout.
Proof. unfold poll_timeout, workersCheckTimeout, second. cbv zeta. destruct left as [d|]; repeat case_match; lia. Qed.

Lemma poll_ends fuel q deadline : forall last created ticks tr r,
  texec (poll_workers fuel q deadline) tr r -> clock_ok last created ticks tr ->
  fuel <> 0%nat -> deadline < created + (ticks + Z.of_nat fuel - 1) * (second / 2) -> r <> None.
Proof.
  induction fuel as [|fuel IH]; intros last created ticks tr r H Hc Hf Hhi; [done|].
  cbn [poll_workers] in H. apply texec_do_inv in H as (res & t1 & -> & H). cbn [clock_ok] in Hc.
  destruct res as [err|[|n]]; [..|by apply texec_ret_inv in H as [_ ->]];
    (apply texec_do_inv in H as (now & t2 & -> & H); destruct Hc as (Hl & Hn & Hc);
     case_match; [by apply texec_ret_inv in H as [_ ->]|];
     apply texec_do_inv in H as (b & t3 & -> & H); cbn [clock_ok] in Hc; destruct b; [|by apply texec_ret_inv in H as [_ ->]];
     eapply IH; [exact H|exact Hc|intros ->; unfold second in *; lia|unfold second in *; lia]).
Qed.

Lemma rounds_suffice (now created d : Z) : now <= created -> d <= workersCheckTimeout ->
  time_Add now d < created + (0 + Z.of_nat poll_rounds - 1) * (second / 2).
Proof.
  unfold time_Add, poll_rounds, workersCheckTimeout, second. intros. change (Z.of_nat 32) with 32.
  change (1000000000 / 2) with 500000000. lia.
Qed.

(** The pollers an answer of the server counts. *)
Definition pollers (e : event cli_sig) : option nat :=
  match e with Ev (KDescribeTaskQueue _) (inr n) => Some n | _ => None end.

(** A poller was seen. *)
Definition poller_seen (q : string) (tr : list (event cli_sig)) : Prop :=
  exists n, In (Ev (S := cli_sig) (KDescribeTaskQueue q) (inr (S n))) tr.

Lemma poll_answer fuel q deadline : forall tr r,
  texec (poll_workers fuel q deadline) tr r -> r = Some true <-> poller_seen q tr.
Proof.
  assert (Hskip : forall e tr, (forall n, e <> Ev (S := cli_sig) (KDescribeTaskQueue q) (inr (S n))) ->
    poller_seen q (e :: tr) <-> poller_seen q tr).
  { intros e tr He. split; intros [n Hn]; exists n; [|by right]. destruct Hn as [Hn|]; [|done]. by destruct (He n). }
  assert (Hno : ~ poller_seen q []) by (by intros [n []]).
  induction fuel as [|fuel IH]; intros tr r H; cbn [poll_workers] in H; [apply texec_ret_inv in H as [-> ->]; split; done|].
  apply texec_do_inv in H as (res & t1 & -> & H).
  destruct res as [err|[|n]]; [..|apply texec_ret_inv in H as [-> ->]; split; [intros _; exists n; by left|done]];
    (rewrite Hskip by (intros n' E; by apply (f_equal pollers) in E);
     apply texec_do_inv in H as (now & t2 & -> & H); rewrite Hskip by done;
     case_match; [apply texec_ret_inv in H as [-> ->]; split; done|];
     apply texec_do_inv in H as (b & t3 & -> & H); rewrite Hskip by done;
     destruct b; [by apply IH|apply texec_ret_inv in H as [-> ->]; split; done]).
Qed.

(** The look for workers always answers, after at most 32 questions to the server, on every
    clock that does not run behind its ticker; the answer is yes exactly when a poller was seen on the task
    queue. *)
Theorem hasWorkers_answers rt ctx_deadline q last tr r :
  texec (hasWorkers rt ctx_deadline q) tr r -> clock_ok last last 0 tr ->
  exists b, r = Some b /\ (b = true <-> poller_seen (if String.eqb q "" then cr_taskQueue rt else q) tr).
Proof.
  intros H Hc. unfold hasWorkers in H. set (q' := if String.eqb q "" then cr_taskQueue rt else q) in *. cbv zeta in H.
  assert (exists left, exists pre now created loop, tr = pre ++ Ev (S := cli_sig) KNow now :: Ev (S := cli_sig) KNewTicker created :: loop /\
    texec (poll_workers poll_rounds q' (time_Add now (poll_timeout left))) loop r /\
    now <= created /\ clock_ok created created 0 loop /\ (forall f, In f pre -> ev_op f = KNow)) as (left & pre & now & created & loop & -> & Hx & Hn & Hl & Hpre).
  { unfold kcall, perform, mret, prog_ret, mbind, prog_bind in H. destruct ctx_deadline as [d|]; cbn [bind] in H.
    - apply texec_do_inv in H as (n0 & t0 & -> & H). apply texec_do_inv in H as (now & t1 & -> & H).
      apply texec_do_inv in H as (c & loop & -> & H). destruct Hc as (_ & _ & _ & _ & Hn & Hc).
      exists (Some (time_Sub d n0)), [Ev (S := cli_sig) KNow n0], now, c, loop. split_and!; try done. by intros f [<-|[]].
    - apply texec_do_inv in H as (now & t1 & -> & H).
      apply texec_do_inv in H as (c & loop & -> & H). destruct Hc as (_ & _ & Hn & Hc).
      exists None, [], now, c, loop. by split_and!. }
  pose proof (poll_timeout_bounds left) as [Ht1 Ht2].
  assert (r <> None) as Hr.
  { eapply poll_ends; [exact Hx|exact Hl|done|]. by apply rounds_suffice. }
  destruct r as [b|]; [|done]. exists b. split; [done|]. rewrite <- (inj_iff Some), (poll_answer _ _ _ _ _ Hx).
  unfold poller_seen. split; intros [n Hin]; exists n.
  - apply in_or_app. right. by do 2 right.
  - apply in_app_or in Hin as [Hin|Hin]; [by apply Hpre in Hin|]. destruct Hin as [Hin|[Hin|Hin]]; [..|done];
      by apply (f_equal pollers) in Hin.
Qed.
