(* ===== verification/TemporalCaller.v ===== *)
(** What the caller's side of the Temporal runtime guarantees: an approval request reaches the
    handler as the activity published it and its answer completes exactly that activity; a driver
    completes only what its handler answered, and a run that has to stop is stopped. *)
From S2P Require Import Prelude GoLib Types Codec Prog ProgSpec JsonText JsonCodec TimeText Policies MemoryConfig Telemetry Events EventsCodec Effects Sanitize Memory AgentLoop Handles A2aClient TemporalFingerprint TemporalDefs TemporalLoop TemporalActivities TemporalServe TemporalClient.
Import Client.

#[local] Open Scope string_scope.
#[local] Open Scope list_scope.
#[local] Open Scope Z_scope.

(** ** The way of an approval *)

Definition is_approval_activity (a : activity) : bool :=
  match a with AgentToolApprovalActivity _ | AgentBudgetApprovalActivity _ => true | _ => false end.

(** The event an approval activity publishes, and the request the handler is to see. *)
Definition published (info : ActivityInfo) (a : activity) : option EventBody :=
  match a with
  | AgentToolApprovalActivity i => Some (Act.approval_request_event info i)
  | AgentBudgetApprovalActivity i =>
      Some (AgentCustomEvent AgentCustomEventNameBudget
              (AgentCustomEventBudgetValue (aba_AgentName i) (aba_Detail i) (aba_TotalTokens i) (aba_TotalCostUSD i)
                 (Act.taskTokenB64 info)))
  | _ => None
  end.

Definition request_of (token : string) (a : activity) : option ApprovalRequest :=
  match a with
  | AgentToolApprovalActivity i =>
      Some (if String.eqb (ata_SubAgentName i) "" then
              ToolApproval (ata_AgentName i) (ata_ToolCallID i) (ata_ToolName i) (ata_ToolDisplayName i) (ata_Args i) token
            else SubAgentApproval (ata_AgentName i) (ata_SubAgentName i) (ata_Args i) token)
  | AgentBudgetApprovalActivity i =>
      Some (BudgetApproval (aba_AgentName i) (aba_Detail i) (aba_TotalTokens i) (aba_TotalCostUSD i) token)
  | _ => None
  end.

Definition publishes_only (e : option EventBody) (x : event act_sig) : Prop :=
  match ev_op x with APublish _ b => e = Some b | _ => True end.

Lemma only_bind_act {A B} P (m : prog (S := act_sig) (result A)) (f : A -> prog (S := act_sig) (result B)) :
  only P m -> (forall a, only P (f a)) -> only P (bind_act m f).
Proof. intros Hm Hf. apply only_bind; [done|]. intros [e|a]; [apply only_ret|apply Hf]. Qed.

Lemma only_check_fingerprint P rt fp tools :
  (forall r, P (Ev (S := act_sig) AFetchTools r)) -> only P (Act.check_fingerprint rt fp tools).
Proof.
  intros HP. unfold Act.check_fingerprint, Act.verifyAgentFingerprint, Act.fetchTools.
  apply only_bind; [|intros; apply only_ret]. case_match; [apply only_ret|]. case_match; [apply only_ret|].
  apply only_bind; [case_match; [by apply (only_perform (S := act_sig) P AFetchTools)|apply only_ret]|intros; apply only_ret].
Qed.

Lemma only_publish_request P st e :
  (forall r, P (Ev (S := act_sig) (APublish st e) r)) -> (forall r, P (Ev (S := act_sig) (AStreamClose st) r)) ->
  only P (Act.publish_request st e).
Proof.
  intros H1 H2. unfold Act.publish_request. case_match; [apply only_ret|].
  apply only_bind; [by apply (only_perform (S := act_sig) P (APublish st e))|]. intros _.
  apply only_bind; [by apply (only_perform (S := act_sig) P (AStreamClose st))|intros; apply only_ret].
Qed.

Lemma published_only rt info a : is_approval_activity a = true -> only (publishes_only (published info a)) (serve rt info a).
Proof.
  destruct a; try done; intros _; cbn [serve];
    (apply only_bind_act; [by apply only_check_fingerprint|]; intros _;
     apply only_bind; [by apply only_publish_request|intros; apply only_ret]).
Qed.

Lemma approve_encoded raw status : respond_ok status = true ->
  approve (Base64.EncodeToString raw) status =
  (e ← kcall (KCompleteActivity raw status);
   mret (match e with
         | Some err => if Act.isNotFoundError err then Some (sentinel_error ErrApprovalAlreadyResolved) else Some err
         | None => None
         end)).
Proof.
  intros H. unfold approve. rewrite DecodeString_EncodeToString. unfold respond_ok in H.
  destruct (String.eqb status ApprovalStatusApproved) eqn:E1; [done|].
  destruct (String.eqb status ApprovalStatusRejected) eqn:E2; [done|]. by apply orb_true_iff in H as [?|?]; congruence.
Qed.

(** The typed values of the three requests. *)
Lemma prepare_parsed n v w : named v n -> parse_custom n w = Some (reread v) ->
  prepareApprovalFromCustomEvent n w =
  match v with
  | AnyValue _ => inl malformed_value
  | AgentCustomEventApprovalValue agent id tool display args token => inr (ToolApproval agent id tool display args token, token)
  | AgentCustomEventDelegationValue agent sub _ args token => inr (SubAgentApproval agent sub args token, token)
  | AgentCustomEventBudgetValue agent detail tokens cost token => inr (BudgetApproval agent detail tokens cost token, token)
  | AgentCustomEventStepReplayedValue _ _ _ _ _ => inl (sentinel_error ErrNotApprovalCustomEvent)
  end.
Proof.
  unfold parse_custom, prepareApprovalFromCustomEvent. destruct v; intros Hn H; cbn in Hn; [done|subst n..];
    cbn [String.eqb AgentCustomEventNameToolApproval AgentCustomEventNameSubAgentDelegation AgentCustomEventNameBudget AgentCustomEventNameStepReplayed] in *;
    cbn in H |- *; first [rewrite H; reflexivity | reflexivity].
Qed.

Section wire.
Context `{Location}.

Definition arrives (e : AgentEvent) (s : string) : Prop :=
  ToJSON e = Some s /\ body_ok (ae_Body e) /\ in64 (ae_Timestamp e) /\ text_ok e = true.

(** C18: From the JSON of an approval request that an activity publishes, when the request is one the
    encoding keeps ([arrives]), the client rebuilds the request of exactly that activity, with its arguments and its
    task token; and every status a handler may answer with completes exactly that activity, by that
    token, an activity that is gone being reported as already resolved. Which published requests the client's
    subscription passes on is not part of this ([approvals_forwarded]): those of child workflows it does not. *)
Theorem approval_completes_its_activity rt info a tr r st e ts s :
  is_approval_activity a = true -> texec (serve rt info a) tr r -> In (Ev (S := act_sig) (APublish st e) tt) tr ->
  arrives {| ae_Body := e; ae_Timestamp := ts |} s ->
  exists n w req,
    EventFromJSON s = inr {| we_Body := AgentCustomEvent n (AnyValue w); we_Timestamp := Some ts; we_Offset := None |} /\
    prepareApprovalFromCustomEvent n (AnyValue w) = inr (req, request_token req) /\
    request_of (Act.taskTokenB64 info) a = Some req /\
    forall status, respond_ok status = true ->
      approve (request_token req) status =
      (e ← kcall (KCompleteActivity (of_bytes (inf_TaskToken info)) status);
       mret (match e with
             | Some err => if Act.isNotFoundError err then Some (sentinel_error ErrApprovalAlreadyResolved) else Some err
             | None => None
             end)).
Proof.
  intros Ha Hx Hin (Hs & Hok & Hts & Ht).
  pose proof (published_only rt info a Ha tr r Hx) as Hp. rewrite List.Forall_forall in Hp. specialize (Hp _ Hin). cbn in Hp.
  destruct (event_decoded _ _ Hs Hok Hts Ht) as (b & Hw & Hd). cbn [ae_Body ae_Timestamp] in *.
  assert (exists n v req, e = AgentCustomEvent n v /\ named v n /\ request_of (Act.taskTokenB64 info) a = Some req /\
    request_token req = Act.taskTokenB64 info /\
    forall w, parse_custom n w = Some (reread v) -> prepareApprovalFromCustomEvent n w = inr (req, request_token req))
    as (n & v & req & -> & Hn & Hreq & Htok & Hprep).
  { destruct a as [| | |i| | | | | | |i| |]; try done; injection Hp as <-; unfold Act.approval_request_event in *.
    - cbn [request_of]. destruct (String.eqb (ata_SubAgentName i) ""); (do 3 eexists; split_and!; [reflexivity|done|reflexivity|done|]);
        intros w Hw'; rewrite (fun H => prepare_parsed _ _ w H Hw'); done.
    - cbn [request_of]. do 3 eexists; split_and!; [reflexivity|done|reflexivity|done|].
      intros w Hw'; rewrite (fun H => prepare_parsed _ _ w H Hw'); done. }
  destruct (custom_decoded n v b Hw Hok Hn) as (w & -> & Hparse).
  exists n, w, req. split_and!; [done|by apply Hprep|done|]. intros status Hst. rewrite Htok. by apply approve_encoded.
Qed.
End wire.

(** ** Driving a run *)

Definition handler_call (e : event cli_sig) : option ApprovalRequest :=
  match e with Ev (KApprovalHandler req) _ => Some req | _ => None end.

(** The requests the handler was called with, in order. *)
Definition handled (tr : list (event cli_sig)) : list ApprovalRequest := omap handler_call tr.

(** What justifies an effect of the driver that finds [cases]. *)
Definition genuine (workflowID : string) (cases : list select_case) (past : list (event cli_sig)) (e : event cli_sig) : Prop :=
  match ev_op e with
  | KCompleteActivity taskToken status =>
      exists n req, In (ApprovalResponse n status) cases /\ handled past !! n = Some req /\
        Base64.DecodeString (request_token req) = Some taskToken /\ respond_ok status = true
  | KApprovalHandler req => exists ev, In (ApprovalEvent (Some ev)) cases /\ prepare ev = Some req
  | KSetStopCause err => In (RunCtxDone err) cases
  | KCancelWorkflow w => w = workflowID /\
      exists err, In (Ev (S := cli_sig) (KSetStopCause err) tt) past /\ errors_Is err ContextDeadlineExceeded = false
  | KTerminateWorkflow w _ => w = workflowID /\ exists err, In (Ev (S := cli_sig) (KSetStopCause err) tt) past
  | KWaitDone | KDoneWithin _ | KDoneOrStop => exists err, In (Ev (S := cli_sig) (KSetStopCause err) tt) past
  | _ => False
  end.

(** A run that has to stop: its workflow was told to end, or was seen to be done. *)
Definition stopped (workflowID : string) (tr : list (event cli_sig)) : Prop :=
  (exists reason r, In (Ev (S := cli_sig) (KTerminateWorkflow workflowID reason) r) tr) \/
  In (Ev (S := cli_sig) (KDoneWithin (3 * second)) true) tr.

Lemma terminateWorkflow_spec w reason : w <> "" ->
  spec (terminateWorkflow w reason) (fun tr _ => exists r, tr = [Ev (S := cli_sig) (KTerminateWorkflow w reason) r]).
Proof.
  intros Hw. unfold terminateWorkflow. rewrite (proj2 (String.eqb_neq w "") Hw).
  intros tr r H. apply texec_do_inv in H as (x & t & -> & H). apply texec_ret_inv in H as [-> _]. by exists x.
Qed.

Lemma stopWorkflow_stops w err : w <> "" -> spec (stopWorkflow w err) (fun tr _ => stopped w tr).
Proof.
  intros Hw. unfold stopWorkflow. case_match.
  - eapply spec_bind; [by apply terminateWorkflow_spec|]. intros tr [] [r ->]. eapply spec_conseq; [apply spec_true|].
    intros t2 _ _. left. exists "run timeout", r. by left.
  - eapply spec_bind; [apply spec_true|]. intros t0 [] _. intros tr a Hx.
    apply texec_do_inv in Hx as (b & t & -> & Hx). destruct b.
    + right. apply in_or_app. right. by left.
    + apply texec_bind_inv in Hx as (t1 & t2 & [] & -> & H1 & _). apply terminateWorkflow_spec in H1 as [r ->]; [|done].
      left. exists "run cancelled", r. apply in_or_app. right. right. by left.
Qed.

Section driver.
Context (w : string) (cases : list select_case).
Abbreviation J := (genuine w cases).

Lemma safe_terminate past reason err :
  In (Ev (S := cli_sig) (KSetStopCause err) tt) past -> safe J past (terminateWorkflow w reason).
Proof.
  intros Hin. unfold terminateWorkflow. case_match; [apply safe_ret|]. apply safe_seq; [|intros; apply safe_ret].
  apply (safe_perform (S := cli_sig) J past (KTerminateWorkflow w reason)). intros r. split; [done|by exists err].
Qed.

Lemma safe_wait past o err : In (Ev (S := cli_sig) (KSetStopCause err) tt) past ->
  match o with KWaitDone | KDoneWithin _ | KDoneOrStop => True | _ => False end -> safe J past (kcall o).
Proof. intros Hin Ho. apply (safe_perform (S := cli_sig) J past o). intros r. destruct o; try done; by exists err. Qed.

#[local] Hint Resolve in_or_app : core.

Lemma safe_stop past err : In (Ev (S := cli_sig) (KSetStopCause err) tt) past -> safe J past (stopWorkflow w err).
Proof.
  intros Hin. unfold stopWorkflow. case_match eqn:E.
  - apply safe_seq; [by eapply safe_terminate|]. intros t _. by eapply (safe_wait _ KWaitDone err); auto.
  - apply safe_seq; [|intros t _; apply safe_seq; [by eapply (safe_wait _ (KDoneWithin _) err); auto|]].
    + unfold cancelWorkflow. case_match; [apply safe_ret|]. apply safe_seq.
      * apply (safe_perform (S := cli_sig) J past (KCancelWorkflow w)). intros r. split; [done|by exists err].
      * intros t [e|]; [|apply safe_ret]. apply safe_seq; [|intros; apply safe_ret].
        apply (safe_perform (S := cli_sig) J _ (KTerminateWorkflow w _)). intros r. split; [done|]. exists err. auto.
    + intros t2 done_. case_match; [apply safe_ret|].
      apply safe_seq; [eapply (safe_terminate _ _ err); auto|]. intros t3 _.
      apply safe_seq; [eapply (safe_wait _ KDoneOrStop err); auto 10|intros; apply safe_ret].
Qed.

Lemma approve_turn past n req status :
  In (ApprovalResponse n status) cases -> handled past !! n = Some req -> respond_ok status = true ->
  spec (approve (request_token req) status) (fun t _ => justified J past t /\ handled (past ++ t) = handled past).
Proof.
  intros Hin Hn Hok. unfold approve. case_match; [apply spec_mret; rewrite app_nil_r; split; [apply justified_nil|done]|].
  destruct (Base64.DecodeString (request_token req)) as [tok|] eqn:Et;
    [|apply spec_mret; rewrite app_nil_r; split; [apply justified_nil|done]].
  intros t r H'. apply texec_do_inv in H' as (x & t' & -> & H'). apply texec_ret_inv in H' as [-> _]. split.
  - apply justified_cons; [|apply justified_nil]. by exists n, req.
  - unfold handled. rewrite omap_app. cbn. by rewrite app_nil_r.
Qed.

(** One turn keeps what the loop knows: the requests its handler was called with. *)
Lemma drive_turn_genuine past c : In c cases ->
  spec (drive_turn w (handled past) c)
    (fun t r => justified J past t /\ forall asked, r = Some asked -> handled (past ++ t) = asked).
Proof.
  assert (Hidle : spec (mret (Some (handled past)) : prog (S := cli_sig) _)
    (fun t r => justified J past t /\ forall asked, r = Some asked -> handled (past ++ t) = asked)).
  { apply spec_mret. split; [apply justified_nil|]. rewrite app_nil_r. by intros ? [= ->]. }
  intros Hc. destruct c as [|err|[ev|]|n status]; cbn [drive_turn]; try done.
  - apply spec_mret. split; [apply justified_nil|done].
  - assert (Hs : safe J past (_ ← kcall (KSetStopCause err); _ ← stopWorkflow w err; mret (None : option driver_state))).
    { eapply (safe_bind _ _ (fun t _ => t = [Ev (S := cli_sig) (KSetStopCause err) tt])).
      - apply (safe_perform (S := cli_sig) J past (KSetStopCause err)). intros []. exact Hc.
      - apply (spec_perform (S := cli_sig) (KSetStopCause err)). by intros [].
      - intros t a ->. apply safe_seq; [apply safe_stop, in_or_app; right; by left|intros; apply safe_ret]. }
    intros t r H'. split; [by eapply Hs|]. intros asked ->. exfalso.
    apply texec_bind_inv in H' as (t1 & t2 & a & _ & _ & H'). apply texec_bind_inv in H' as (t3 & t4 & a' & _ & _ & H').
    by apply texec_ret_inv in H' as [_ ?].
  - destruct (prepare ev) as [req|] eqn:Ep; [|done].
    intros t r H'. apply texec_do_inv in H' as (x & t' & -> & H'). apply texec_ret_inv in H' as [-> ->]. split.
    + apply justified_cons; [|apply justified_nil]. by exists ev.
    + intros asked [= <-]. unfold handled. by rewrite omap_app.
  - destruct (handled past !! n) as [req|] eqn:En; [|done]. destruct (respond_ok status) eqn:Es; [|done].
    eapply spec_bind; [by eapply approve_turn|]. intros t e [H1 H2]. apply spec_mret. rewrite app_nil_r.
    split; [done|]. by intros ? [= <-].
Qed.

Lemma driveRun_justified cases' : (forall c, In c cases' -> In c cases) -> forall past,
  spec (driveRun w (handled past) cases') (fun t _ => justified J past t).
Proof.
  induction cases' as [|c cases' IH]; intros Hsub past; cbn [driveRun]; [apply spec_mret, justified_nil|].
  eapply spec_bind; [apply drive_turn_genuine, Hsub; by left|]. intros t [asked|] [H1 H2];
    [|apply spec_mret; by rewrite app_nil_r]. rewrite <- (H2 asked eq_refl).
  eapply spec_conseq; [apply IH; intros; apply Hsub; by right|]. intros t2 x H3. by apply justified_app.
Qed.
End driver.

Definition is_stop (e : event cli_sig) : bool := match ev_op e with KSetStopCause _ => true | _ => false end.

(** The cases after which the driver returns. *)
Definition ends (c : select_case) : bool := match c with HandleDone | RunCtxDone _ => true | _ => false end.

(** How a driver must have come to its end, by the first such case its select found: the handle
    of the run was done and nothing was stopped; or the context of the run was, and its error was
    recorded and then the workflow told to end, or seen to be done. Without such a case it is
    still at work. *)
Definition ended_well (w : string) (found : option select_case) (t : list (event cli_sig)) (r : option driver_state) : Prop :=
  match found with
  | Some (RunCtxDone err) =>
      r = None /\ exists t1 t2, t = t1 ++ Ev (S := cli_sig) (KSetStopCause err) tt :: t2 /\ stopped w t2
  | Some _ => r = None /\ Forall (fun e => is_stop e = false) t
  | None => is_Some r /\ Forall (fun e => is_stop e = false) t
  end.

Lemma ended_later w found t1 t2 r :
  Forall (fun e => is_stop e = false) t1 -> ended_well w found t2 r -> ended_well w found (t1 ++ t2) r.
Proof.
  intros H1. destruct found as [[|err|ev|n status]|]; cbn; try (intros [? ?]; split; [done|by apply Forall_app]).
  intros (? & t3 & t4 & -> & H). split; [done|]. exists (t1 ++ t3), t4. by rewrite app_assoc.
Qed.

(** A turn that does not end the driver stops nothing. *)
Lemma drive_turn_goes_on w asked c : ends c = false ->
  spec (drive_turn w asked c) (fun t r => is_Some r /\ Forall (fun e => is_stop e = false) t).
Proof.
  intros Hc. destruct c as [|err|[ev|]|n status]; try done; cbn [drive_turn]; try (by apply spec_mret).
  - case_match; [|by apply spec_mret]. apply (spec_do (S := cli_sig) (KApprovalHandler a)). intros u. apply spec_mret.
    split; [done|by repeat constructor].
  - repeat (case_match; [|by apply spec_mret]).
    eapply (spec_bind _ _ (fun t _ => Forall (fun e => is_stop e = false) t)).
    + unfold approve. repeat case_match; try (by apply spec_mret).
      match goal with |- spec (kcall ?o ≫= _) _ => apply (spec_do (S := cli_sig) o) end. intros u. apply spec_mret. by repeat constructor.
    + intros t e Ht. apply spec_mret. by rewrite app_nil_r.
Qed.

Lemma driveRun_ends w cases asked : w <> "" -> spec (driveRun w asked cases) (ended_well w (List.find ends cases)).
Proof.
  intros Hw. revert asked. induction cases as [|c cases IH]; intros asked; cbn [driveRun List.find]; [by apply spec_mret|].
  destruct (ends c) eqn:Ec.
  - destruct c as [|err|ev|n status]; try done; cbn [drive_turn].
    + apply spec_mret. by split.
    + intros t r Hx. apply texec_bind_inv in Hx as (t0 & t3 & r0 & -> & H1 & Hx).
      apply texec_do_inv in H1 as ([] & t1 & -> & H1).
      apply texec_bind_inv in H1 as (t2 & t4 & u & -> & Hs & H1). apply texec_ret_inv in H1 as [-> ->].
      apply texec_ret_inv in Hx as [-> ->]. split; [done|]. exists [], t2. rewrite !app_nil_r. split; [done|].
      by eapply stopWorkflow_stops.
  - eapply spec_bind; [by apply drive_turn_goes_on|]. intros t1 r1 [[asked' ->] H1].
    eapply spec_conseq; [apply IH|]. intros t2 r2. by apply ended_later.
Qed.

(** C19: Whatever its select finds and whatever the handler does, a driver calls the approval
    handler only for a request of the event stream, completes an activity only with an allowed
    status that was given to the request with that task token, touches only its own workflow,
    and that only after it recorded why the run ended; a run whose time is up is never cancelled
    but terminated. It returns exactly when its select finds the handle of the run done or the
    context of the run ended, and in the second case only after it recorded the context's error
    and then told the workflow to end or saw it done. *)
Theorem driver_genuine w cases tr r :
  texec (driveRun w [] cases) tr r ->
  justified (genuine w cases) [] tr /\ (w <> "" -> ended_well w (List.find ends cases) tr r).
Proof.
  intros Hx. split; [by eapply (driveRun_justified w cases cases (fun c H => H) []); exact Hx|].
  intros Hw. by apply (driveRun_ends w cases [] Hw tr r Hx).
Qed.

(** ** Approvals and the map of the workflow that is asked *)

(** The queries of [workflowID] are answered by the handler of that workflow, from its map. *)
Definition query_answered (h : wf_heap) (workflowID : string) (e : event cli_sig) : Prop :=
  match e with
  | Ev (KQueryApprovalPending w id) r => w = workflowID -> r = inr (Some (bool_decide (is_Some (wh_pending h !! id))))
  | _ => True
  end.

(** The subscription of a run hands to its driver exactly the CUSTOM events that ask for no
    tool call, and those whose call the workflow of the run itself has pending; the request of
    a child workflow, whose call is pending in the map of the child alone, is dropped. *)
Theorem approvals_forwarded h w item tr r :
  texec (forward_approval w item) tr r -> Forall (query_answered h w) tr ->
  r = match item with
      | Some ev =>
          if String.eqb (Type_ ev) "CUSTOM" &&
             match approvalToolCallIDOf ev with Some id => bool_decide (is_Some (wh_pending h !! id)) | None => true end
          then Some ev else None
      | None => None
      end.
Proof.
  intros Hx Hq. destruct item as [ev|]; cbn [forward_approval] in Hx; [|by apply texec_ret_inv in Hx as [_ ->]].
  destruct (String.eqb (Type_ ev) "CUSTOM"); cbn [negb andb] in *; [|by apply texec_ret_inv in Hx as [_ ->]].
  destruct (approvalToolCallIDOf ev) as [id|]; [|by apply texec_ret_inv in Hx as [_ ->]].
  apply texec_do_inv in Hx as (a & t & -> & Hx). apply texec_ret_inv in Hx as [_ ->].
  apply Forall_cons_1 in Hq as [Hq _]. by rewrite (Hq eq_refl).
Qed.

(** ** Routes *)

Lemma find_set_route m k r k' : find_route (set_route m k r) k' = if String.eqb k k' then Some r else find_route m k'.
Proof.
  induction m as [|[k1 r1] m IH]; cbn; [done|]. destruct (String.eqb_spec k1 k) as [->|Hk]; cbn; [by case_match|].
  rewrite IH. destruct (String.eqb_spec k1 k') as [->|]; [|done]. by rewrite (proj2 (String.eqb_neq k k')) by congruence.
Qed.

Definition spec_tool (s : Spec_) : string := let '(TSpec _ t _ _ _) := s in t.

(** The last sub-agent of that tool name. *)
Definition last_spec (specs : list (option Spec_)) (k : string) : option Spec_ :=
  List.find (fun s => String.eqb (spec_tool s) k) (rev (omap id specs)).

Lemma find_app_first {A} (p : A -> bool) l1 l2 :
  List.find p (l1 ++ l2) = match List.find p l1 with Some a => Some a | None => List.find p l2 end.
Proof. induction l1 as [|a l1 IH]; cbn; [done|]. by destruct (p a). Qed.

Lemma build_routes_spec specs : forall out k,
  find_route (build_routes specs out) k =
  match last_spec specs k with Some s => Some (build_route s).2 | None => find_route out k end.
Proof.
  unfold last_spec. induction specs as [|[s|] specs IH]; intros out k; cbn [build_routes omap list_omap id]; [done| |apply IH].
  destruct (build_route s) as [k0 r0] eqn:E. rewrite IH. cbn [rev]. rewrite find_app_first. cbn [List.find].
  destruct (List.find _ _); [done|]. rewrite find_set_route.
  assert (k0 = spec_tool s) as -> by (destruct s; by injection E as <- _).
    by destruct (String.eqb (spec_tool s) k); rewrite ?E.
Qed.

Lemma build_inner children out :
  (fix build (specs : list (option Spec_)) (out : list (string * SubAgentRoute)) :=
     match specs with
     | [] => out
     | None :: specs => build specs out
     | Some s :: specs => let '(k, r) := build_route s in build specs (set_route out k r)
     end) children out = build_routes children out.
Proof. revert out. induction children as [|[s|] children IH]; intros out; cbn; [done| |done]. by destruct (build_route s). Qed.

(** The route to a tool name is that of the last sub-agent with the name, with its own routes
    below; its digest is the one the worker of that sub-agent compares with, whatever the order in which that
    worker resolves the same tools. *)
Theorem routes_of_specs specs k :
  find_route (buildSubAgentRoutes specs) k =
    match last_spec specs k with
    | Some (TSpec name _ (Some (tr, q)) children tools) =>
        Some (Route name q (buildSubAgentRoutes children) (Act.worker_fingerprint tr tools))
    | Some (TSpec name _ None children _) => Some (Route name "" (buildSubAgentRoutes children) "")
    | None => None
    end /\
  forall tr tools tools', map t_Name tools ≡ₚ map t_Name tools' ->
    Act.compare_fingerprints tr (Act.worker_fingerprint tr tools) tools' = None.
Proof.
  split.
  - unfold buildSubAgentRoutes, Act.worker_fingerprint. rewrite build_routes_spec.
    destruct (last_spec specs k) as [[name tool [[tr q]|] children tools]|]; cbn [build_route snd find_route];
      rewrite ?build_inner; reflexivity.
  - intros tr tools tools' H. unfold Act.compare_fingerprints, Act.worker_fingerprint.
    by rewrite (fingerprint_tool_order _ _ _ _ H), String.eqb_refl.
Qed.
