(* ===== verification/TemporalStream.v ===== *)
(** The subscriber's side of a Temporal stream ([stream_handle.go], [stream.go]): decoding the items
    of the workflow's stream, dropping what a failed attempt of a model call left, approvals
    already resolved, and the event that ends the stream; with the outcome a handle keeps
    ([run_handle.go]). *)
From S2P Require Import Prelude GoLib Types Codec JsonText JsonCodec TimeText Telemetry Events EventsCodec Sanitize Handles Prog A2aClient TemporalClient.

#[local] Open Scope string_scope.
#[local] Open Scope list_scope.
#[local] Open Scope Z_scope.

Module Stream.

(** ** The outcome of a run *)

Definition isApplicationWorkflowError (err : error) : bool :=
  errors_Is err ErrBudgetExceeded || errors_Is err ErrBudgetApprovalUnavailable.

(** Restores the sentinels a workflow error loses when Temporal serialises it. *)
Definition mapWorkflowError (err : error) : error :=
  if isApplicationWorkflowError err then err
  else if Contains (err_msg err) (sentinel_msg ErrBudgetExceeded) then sentinel_with_msg ErrBudgetExceeded (err_msg err)
  else if Contains (err_msg err) (sentinel_msg ErrBudgetApprovalUnavailable) then
    sentinel_with_msg ErrBudgetApprovalUnavailable (err_msg err)
  else err.

Definition with_run_id (id : string) (r : AgentRunResult) : AgentRunResult :=
  {| ar_Content := ar_Content r; ar_AgentName := ar_AgentName r; ar_Model := ar_Model r; ar_Metadata := ar_Metadata r;
     ar_RunID := if String.eqb (ar_RunID r) "" then id else ar_RunID r; ar_LLMUsage := ar_LLMUsage r; ar_Telemetry := ar_Telemetry r |}.

Definition with_agent_name (name : string) (r : AgentRunResult) : AgentRunResult :=
  {| ar_Content := ar_Content r; ar_AgentName := name; ar_Model := ar_Model r; ar_Metadata := ar_Metadata r;
     ar_RunID := ar_RunID r; ar_LLMUsage := ar_LLMUsage r; ar_Telemetry := ar_Telemetry r |}.

(** What [awaitCompletion] stores, given what the workflow answered and the cause recorded so far. *)
Definition stored_error (stopCause : option error) (err : error) : error :=
  match stopCause with
  | Some c =>
      if errors_Is c ContextDeadlineExceeded then sentinel_error ContextDeadlineExceeded
      else if errors_Is c ContextCanceled then sentinel_error ContextCanceled
      else mapWorkflowError err
  | None => mapWorkflowError err
  end.

Definition stored_outcome (id : string) (stopCause : option error) (res : option AgentRunResult) (err : option error)
    : option AgentRunResult * option error := (with_run_id id <$> res, stored_error stopCause <$> err).

(** [setStopCause]: the first cause stays. *)
Definition setStopCause (cur : option error) (err : error) : option error :=
  match cur with Some c => Some c | None => Some err end.

(** ** Events of the stream *)

Section stream.
Context `{Location}.

Definition with_offset (offset : Z) (e : WireEvent) : WireEvent :=
  {| we_Body := we_Body e; we_Timestamp := we_Timestamp e; we_Offset := Some offset |}.

(** [decodeStreamItem]; the payload of an item is [None] when it is no JSON payload. *)
Definition decodeStreamItem (data : option string) (offset : Z) : option WireEvent :=
  match data with
  | None => None
  | Some rawJSON => match EventFromJSON rawJSON with inl _ => None | inr ev => Some (with_offset offset ev) end
  end.

Definition messageIDOf (ev : EventBody) : string :=
  match ev with
  | AgentTextMessageStartEvent m _ | AgentTextMessageContentEvent m _ | AgentTextMessageEndEvent m
  | AgentReasoningMessageStartEvent m _ | AgentReasoningMessageContentEvent m _ | AgentReasoningMessageEndEvent m => m
  | _ => ""
  end.

(** The start of a new attempt. *)
Definition is_message_start (ev : EventBody) : bool :=
  match ev with AgentTextMessageStartEvent _ _ | AgentReasoningMessageStartEvent _ _ => true | _ => false end.

Definition is_custom (ev : EventBody) : bool := match ev with AgentCustomEvent _ _ => true | _ => false end.

(** ** What the subscription delivers

    An item of the events topic or of the retry topic (the message ID of its signal, [None] when it does
    not decode), what the workflow answers to a query for the approval, and which case of the
    final select was taken; or an error. *)
Inductive send_outcome := Sent | SubscriberGone (done : bool) | RunDone.

Inductive arrival :=
| EventItem (data : option string) (offset : Z) (pending : bool) (send : send_outcome)
| RetryItem (messageID : option string)
| SubscribeError (ctx_ended done : bool).

(** Why the loop was left. *)
Inductive loop_end := GoTerminal | Disconnected.

Section deliver.
Context (fromOffset : Z) (workflowID : string).

Abbreviation stale_ids := (gset string).

(** The filter of stale messages: the event is to be forwarded, and the set after it. *)
Definition filter_stale (stale : stale_ids) (ev : EventBody) : bool * stale_ids :=
  let msgID := messageIDOf ev in
  if negb (String.eqb msgID "") && bool_decide (msgID ∈ stale) then
    if is_message_start ev then (true, stale ∖ {[msgID]}) else (false, stale)
  else (true, stale).

(** On a reconnect, an approval that is no longer pending. *)
Definition resolved_approval (ev : EventBody) (pending : bool) : bool :=
  (0 <? fromOffset) && negb (String.eqb workflowID "") && is_custom ev &&
  match Client.approvalToolCallIDOf ev with Some _ => negb pending | None => false end.

Fixpoint deliver_loop (stale : stale_ids) (l : list arrival) : list WireEvent * loop_end :=
  match l with
  | [] => ([], GoTerminal)
  | SubscribeError ctx_ended done :: _ => ([], if ctx_ended && negb done then Disconnected else GoTerminal)
  | RetryItem (Some m) :: l => deliver_loop (if String.eqb m "" then stale else {[m]} ∪ stale) l
  | RetryItem None :: l => deliver_loop stale l
  | EventItem data offset pending send :: l =>
      match decodeStreamItem data offset with
      | None => deliver_loop stale l
      | Some ev =>
          let '(fwd, stale) := filter_stale stale (we_Body ev) in
          if negb fwd || resolved_approval (we_Body ev) pending then deliver_loop stale l else
          match send with
          | Sent => let '(out, e) := deliver_loop stale l in (ev :: out, e)
          | SubscriberGone true | RunDone => ([], GoTerminal)
          | SubscriberGone false => ([], Disconnected)
          end
      end
  end.

(** An event made by the subscriber itself. *)
Definition synthetic (b : EventBody) (now : Time) : WireEvent :=
  {| we_Body := b; we_Timestamp := Some (ae_Timestamp (NewEvent b now)); we_Offset := None |}.

Definition terminalStreamErrorMessage (stopCause getErr : option error) : string :=
  let has s := existsb (fun e => match e with Some e => errors_Is e s | None => false end) [stopCause; getErr] in
  if has ContextDeadlineExceeded then "context deadline exceeded"
  else if has ContextCanceled then "context canceled"
  else match getErr, stopCause with
       | Some e, _ => err_msg e
       | None, Some c => err_msg c
       | None, None => "run failed"
       end.

Definition syntheticStreamCompleteEvent (result : option AgentRunResult) (threadID runID rootName : string) : EventBody :=
  AgentRunFinishedEvent threadID runID
    (match result with
     | Some r =>
         Some (if negb (String.eqb (TrimSpace (ar_AgentName r)) "") then with_agent_name (TrimSpace (ar_AgentName r)) r
               else if negb (String.eqb (TrimSpace rootName) "") then with_agent_name (TrimSpace rootName) r else r)
     | None =>
         if negb (String.eqb (TrimSpace rootName) "") then
           Some {| ar_Content := ""; ar_AgentName := TrimSpace rootName; ar_Model := ""; ar_Metadata := None; ar_RunID := "";
                   ar_LLMUsage := None; ar_Telemetry := None |}
         else None
     end).

(** The event that ends the stream, from the outcome the handle has stored. *)
Definition terminal_event (threadID runID rootName : string) (stopCause : option error)
    (outcome : option AgentRunResult * option error) : EventBody :=
  match outcome.2 with
  | Some err => AgentRunErrorEvent (terminalStreamErrorMessage stopCause (Some err)) None
  | None => syntheticStreamCompleteEvent outcome.1 threadID runID rootName
  end.

(** [deliverEvents]: all it sends; [t0] and [t1] are the times of its own events. *)
Definition deliverEvents (threadID runID rootName : string) (t0 t1 : Time) (l : list arrival)
    (stopCause : option error) (outcome : option AgentRunResult * option error) : list WireEvent :=
  let '(out, e) := deliver_loop ∅ l in
  (if fromOffset =? 0 then [synthetic (AgentRunStartedEvent threadID runID "") t0] else []) ++ out ++
  match e with
  | Disconnected => []
  | GoTerminal => [synthetic (terminal_event threadID runID rootName stopCause outcome) t1]
  end.

(** [Events]: the check before the subscription. *)
Definition Events_check (ctx_err : option error) (status : result RunStatus) : option error :=
  match ctx_err with
  | Some e => Some e
  | None =>
      match status with
      | inl e => Some e
      | inr s => if IsTerminal s then Some (sentinel_error ErrRunAlreadyCompleted) else None
      end
  end.
End deliver.
End stream.
End Stream.

(** ** What a subscriber gets *)

Import Stream.

Section facts.
Context `{Location} (fromOffset : Z) (workflowID : string).

(** The events of failed attempts, told by positions: the last signal for message [m], a retry
    or the start of a new attempt, was a retry. *)
Definition signal (m : string) (cur : bool) (a : arrival) : bool :=
  match a with
  | RetryItem (Some m') => if String.eqb m' m then true else cur
  | EventItem data offset _ _ =>
      match decodeStreamItem data offset with
      | Some ev => if String.eqb (messageIDOf (we_Body ev)) m && is_message_start (we_Body ev) then false else cur
      | None => cur
      end
  | _ => cur
  end.
Definition failed_attempt (before : list arrival) (m : string) : bool :=
  negb (String.eqb m "") && fold_left (signal m) before false.

(** The event of an arrival that is to be forwarded. *)
Definition wanted (before : list arrival) (a : arrival) : option WireEvent :=
  match a with
  | EventItem data offset pending _ =>
      ev ← decodeStreamItem data offset;
      if (failed_attempt before (messageIDOf (we_Body ev)) && negb (is_message_start (we_Body ev))) ||
         resolved_approval fromOffset workflowID (we_Body ev) pending
      then None else Some ev
  | _ => None
  end.

(** The arrivals at which the loop is left. *)
Definition stops (before : list arrival) (a : arrival) : option loop_end :=
  match a with
  | SubscribeError ctx_ended done => Some (if ctx_ended && negb done then Disconnected else GoTerminal)
  | EventItem _ _ _ send =>
      match wanted before a, send with
      | Some _, SubscriberGone false => Some Disconnected
      | Some _, SubscriberGone true | Some _, RunDone => Some GoTerminal
      | _, _ => None
      end
  | RetryItem _ => None
  end.

Fixpoint before_stop (before l : list arrival) : list arrival * loop_end :=
  match l with
  | [] => ([], GoTerminal)
  | a :: l =>
      match stops before a with
      | Some e => ([], e)
      | None => let '(l1, e) := before_stop (before ++ [a]) l in (a :: l1, e)
      end
  end.

Fixpoint forwarded (before l : list arrival) : list WireEvent :=
  match l with
  | [] => []
  | a :: l => match wanted before a with Some ev => ev :: forwarded (before ++ [a]) l | None => forwarded (before ++ [a]) l end
  end.

(** The set of the code holds the messages whose attempt has failed. *)
Definition tracks (stale : gset string) (before : list arrival) : Prop := forall m, m ∈ stale <-> failed_attempt before m = true.

Lemma failed_snoc before a m : m <> "" -> failed_attempt (before ++ [a]) m = signal m (failed_attempt before m) a.
Proof.
  intros Hm. unfold failed_attempt. rewrite fold_left_app, (proj2 (String.eqb_neq m "") Hm). done.
Qed.

Lemma failed_empty before : failed_attempt before "" = false.
Proof. done. Qed.

Lemma tracks_retry stale before m : tracks stale before ->
  tracks (if String.eqb m "" then stale else {[m]} ∪ stale) (before ++ [RetryItem (Some m)]).
Proof.
  intros Ht m'. destruct (String.eqb_spec m' "") as [->|Hm'].
  - rewrite failed_empty. destruct (String.eqb_spec m ""); [by rewrite (Ht ""), failed_empty|].
    rewrite elem_of_union, elem_of_singleton, (Ht ""), failed_empty. naive_solver.
  - rewrite failed_snoc by done. cbn [signal]. destruct (String.eqb_spec m "") as [->|Hm].
    + rewrite (proj2 (String.eqb_neq "" m')) by done. apply Ht.
    + rewrite elem_of_union, elem_of_singleton, (Ht m'). destruct (String.eqb_spec m m') as [->|]; [naive_solver|]. naive_solver.
Qed.

Lemma tracks_skip stale before a : tracks stale before -> (forall m cur, m <> "" -> signal m cur a = cur) -> tracks stale (before ++ [a]).
Proof.
  intros Ht Hs m. destruct (String.eqb_spec m "") as [->|Hm]; [rewrite failed_empty; apply (Ht "")|].
  rewrite failed_snoc, Hs by done. apply Ht.
Qed.

(** The filter forwards what is of no failed attempt, and keeps track. *)
Lemma filter_stale_tracks stale before data offset pending send ev :
  tracks stale before -> decodeStreamItem data offset = Some ev ->
  (filter_stale stale (we_Body ev)).1 =
    negb (failed_attempt before (messageIDOf (we_Body ev)) && negb (is_message_start (we_Body ev))) /\
  tracks (filter_stale stale (we_Body ev)).2 (before ++ [EventItem data offset pending send]).
Proof.
  intros Ht Hd. unfold filter_stale. cbv zeta. set (m := messageIDOf (we_Body ev)).
  assert (Hsig : forall m' cur, signal m' cur (EventItem data offset pending send) =
    if String.eqb m m' && is_message_start (we_Body ev) then false else cur) by (intros; cbn [signal]; by rewrite Hd).
  assert (Hmem : bool_decide (m ∈ stale) = failed_attempt before m).
  { destruct (failed_attempt before m) eqn:E; [by apply bool_decide_eq_true, Ht|]. apply bool_decide_eq_false. rewrite (Ht m), E. done. }
  rewrite Hmem. destruct (String.eqb_spec m "") as [Hm|Hm]; cbn [negb andb].
  { rewrite Hm, failed_empty. split; [done|]. apply tracks_skip; [done|]. intros m' cur Hm'. rewrite Hsig.
    by rewrite (proj2 (String.eqb_neq m m')) by congruence. }
  destruct (failed_attempt before m) eqn:Ef; [destruct (is_message_start (we_Body ev)) eqn:Es|]; cbn [fst snd negb andb].
  - split; [done|]. intros m'. destruct (String.eqb_spec m' "") as [->|Hm'].
    { rewrite failed_empty. split; [|done]. intros Hin. by apply elem_of_difference in Hin as [Hin%Ht _]. }
    rewrite failed_snoc, Hsig by done. rewrite elem_of_difference, elem_of_singleton, (Ht m').
    destruct (String.eqb_spec m m') as [->|]; cbn; naive_solver.
  - split; [done|]. apply tracks_skip; [done|]. intros m' cur _. rewrite Hsig. by rewrite andb_false_r.
  - split; [done|]. intros m'. destruct (String.eqb_spec m' "") as [->|Hm']; [rewrite failed_empty; apply (Ht "")|].
    rewrite failed_snoc, Hsig by done. destruct (String.eqb_spec m m') as [->|]; cbn; [|apply Ht].
    rewrite (Ht m'), Ef. by case_match.
Qed.

Lemma deliver_loop_reference l : forall stale before, tracks stale before ->
  deliver_loop fromOffset workflowID stale l =
  (forwarded before (before_stop before l).1, (before_stop before l).2).
Proof.
  induction l as [|[data offset pending send|[m|]|c d] l IH]; intros stale before Ht; cbn [deliver_loop before_stop]; [done|..].
  - cbn [stops wanted]. destruct (decodeStreamItem data offset) as [ev|] eqn:Ed; cbn [mbind option_bind].
    + destruct (filter_stale_tracks stale before data offset pending send ev Ht Ed) as [Hf Ht'].
      destruct (filter_stale stale (we_Body ev)) as [fwd stale'] eqn:Efs. cbn [fst snd] in *. subst fwd. rewrite negb_involutive.
      destruct (_ || _) eqn:Ew.
      * rewrite (IH stale' _ Ht'). destruct (before_stop _ l) as [l1 e]. cbn [fst snd forwarded wanted]. rewrite Ed. cbn. by rewrite Ew.
      * destruct send as [|[]|]; try done. rewrite (IH stale' _ Ht'). destruct (before_stop _ l) as [l1 e].
        cbn [fst snd forwarded wanted]. rewrite Ed. cbn. by rewrite Ew.
    + rewrite (IH stale (before ++ [EventItem data offset pending send])).
      * destruct (before_stop _ l) as [l1 e]. cbn [fst snd forwarded wanted]. rewrite Ed. done.
      * apply tracks_skip; [done|]. intros m cur _. cbn [signal]. by rewrite Ed.
  - cbn [stops]. rewrite (IH _ (before ++ [RetryItem (Some m)])) by (by apply tracks_retry). by destruct (before_stop _ l).
  - cbn [stops]. rewrite (IH _ (before ++ [RetryItem None])) by (by apply tracks_skip). by destruct (before_stop _ l).
  - done.
Qed.

Lemma tracks_init : tracks ∅ [].
Proof. intros m. rewrite elem_of_empty. unfold failed_attempt. cbn. by rewrite andb_false_r. Qed.
(** Neither the forwarded events nor the others of the stream are RUN_* events. *)
Definition no_lifecycle (l : list arrival) : Prop :=
  Forall (fun a => forall data offset pending send ev, a = EventItem data offset pending send ->
            decodeStreamItem data offset = Some ev -> is_lifecycle (we_Body ev) = false) l.

Lemma forwarded_quiet l : forall before, no_lifecycle l ->
  List.filter (fun ev => is_lifecycle (we_Body ev)) (forwarded before l) = [].
Proof.
  induction l as [|a l IH]; intros before Hl; [done|]. apply Forall_cons_1 in Hl as [Ha Hl]. cbn [forwarded].
  destruct (wanted before a) as [ev|] eqn:E; [|by apply IH]. cbn [List.filter].
  assert (is_lifecycle (we_Body ev) = false) as ->; [|by apply IH].
  destruct a as [data offset pending send|o|c d]; try done. cbn [wanted] in E.
  destruct (decodeStreamItem data offset) as [ev'|] eqn:Ed; [|done]. cbn in E. case_match; [done|]. injection E as <-.
  by eapply Ha.
Qed.

Lemma before_stop_prefix l : forall before, (before_stop before l).1 `prefix_of` l.
Proof.
  induction l as [|a l IH]; intros before; [done|]. cbn [before_stop]. destruct (stops _ _); [by eexists|].
  specialize (IH (before ++ [a])). destruct (before_stop _ l) as [l1 e]. by apply prefix_cons.
Qed.

(** The start and the end a subscriber is shown. *)
Definition start_events (threadID runID : string) (t0 : Time) : list WireEvent :=
  if fromOffset =? 0 then [synthetic (AgentRunStartedEvent threadID runID "") t0] else [].
Definition end_events (threadID runID rootName : string) (t1 : Time) (stopCause : option error)
    (outcome : option AgentRunResult * option error) (e : loop_end) : list WireEvent :=
  match e with Disconnected => [] | GoTerminal => [synthetic (terminal_event threadID runID rootName stopCause outcome) t1] end.

(** A subscriber gets RUN_STARTED when it reads from the beginning, then, in order, the events of the stream that
    decode, belong to no failed attempt of a model call (after the retry signal of their
    message and before its new start) and are no resolved approvals, up to where the subscription ends; then, unless it left
    itself, exactly one RUN_FINISHED or RUN_ERROR, which is last. *)
Theorem subscriber_gets threadID runID rootName t0 t1 l stopCause outcome :
  let '(l1, e) := before_stop [] l in
  let out := deliverEvents fromOffset workflowID threadID runID rootName t0 t1 l stopCause outcome in
  out = start_events threadID runID t0 ++ forwarded [] l1 ++
        end_events threadID runID rootName t1 stopCause outcome e /\
  (no_lifecycle l ->
   List.filter (fun ev => is_lifecycle (we_Body ev)) out =
     start_events threadID runID t0 ++ end_events threadID runID rootName t1 stopCause outcome e).
Proof.
  pose proof (deliver_loop_reference l ∅ [] tracks_init) as Hr. pose proof (before_stop_prefix l []) as Hp.
  destruct (before_stop [] l) as [l1 e]. cbn [fst snd] in Hr, Hp.
  assert (E : deliverEvents fromOffset workflowID threadID runID rootName t0 t1 l stopCause outcome =
    start_events threadID runID t0 ++ forwarded [] l1 ++ end_events threadID runID rootName t1 stopCause outcome e).
  { unfold deliverEvents. by rewrite Hr. }
  split; [exact E|]. intros Hl. rewrite E, !List.filter_app, forwarded_quiet.
  - cbn [app]. f_equal; [unfold start_events; by case_match|]. destruct e; [|done]. unfold end_events, terminal_event. cbn [List.filter we_Body synthetic].
    by destruct outcome.2.
  - destruct Hp as [k ->]. by apply Forall_app in Hl as [Hl _].
Qed.
End facts.

(** ** The outcome of a run that was stopped *)

Lemma Contains_spec s sub : Contains s sub = true <-> exists p q, s = p +:+ sub +:+ q.
Proof.
  unfold Contains. rewrite bytes_contains_spec. split.
  - intros (p & q & H). exists (of_bytes p), (of_bytes q). apply to_bytes_inj. by rewrite !to_bytes_app, !to_of_bytes.
  - intros (p & q & ->). exists (to_bytes p), (to_bytes q). by rewrite !to_bytes_app.
Qed.

(** What a workflow that ended with error [e] shows its caller: the message stays inside the one of
    the server's error, the chain is lost. *)
Definition serialised (e err : error) : Prop :=
  (exists p q, err_msg err = p +:+ err_msg e +:+ q) /\ err_chain err = [].

(** ** The handle of a run

    [runHandle] of [run_handle.go] with the context of the run and the goroutine [driveRun] or
    [driveStream] beside it.  [Cancel], the end of the context, the driver, the three steps of
    [awaitCompletion] and the readers come in any order; what the server answers, and when, is open.
    The work of the driver until it leaves is that of [TemporalClient.v]; the [cleanup] between
    the store and the close removes the handle from the registry of the process. *)
Module Run.

Inductive waiter := Waiting | Stored | Burned | Closed.

Record runHandle := {
  th_cancelOnce : bool; th_cancel : bool; (* the once has fired; the cancel function is set *)
  th_ctx : option error;                  (* [runCtx.Err()] *)
  th_stopCause : option error;
  th_res : option AgentRunResult; th_err : option error;
  th_waiter : waiter;                     (* where [awaitCompletion] is; [doneCh] is closed at its end *)
  th_driving : bool }.                    (* the driver is in its select *)

Definition newRunHandle : runHandle :=
  {| th_cancelOnce := false; th_cancel := true; th_ctx := None; th_stopCause := None; th_res := None; th_err := None;
     th_waiter := Waiting; th_driving := true |}.

Definition th_done (h : runHandle) : bool := match th_waiter h with Closed => true | _ => false end.

Definition runCancel (ctx : option error) : option error :=
  match ctx with Some e => Some e | None => Some (sentinel_error ContextCanceled) end.

Definition runHandle_Cancel (h : runHandle) : option error * runHandle :=
  if th_cancelOnce h then (Some (sentinel_error ErrRunAlreadyCompleted), h)
  else (if th_cancel h then None else Some (sentinel_error ErrRunAlreadyCompleted),
        {| th_cancelOnce := true; th_cancel := false; th_ctx := if th_cancel h then runCancel (th_ctx h) else th_ctx h;
           th_stopCause := th_stopCause h; th_res := th_res h; th_err := th_err h; th_waiter := th_waiter h; th_driving := th_driving h |}).

(** The context of the run ends by itself: its time is up, or the caller's context ended. *)
Definition end_ctx (h : runHandle) (e : error) : runHandle :=
  {| th_cancelOnce := th_cancelOnce h; th_cancel := th_cancel h; th_ctx := Some e; th_stopCause := th_stopCause h;
     th_res := th_res h; th_err := th_err h; th_waiter := th_waiter h; th_driving := th_driving h |}.

(** The driver leaves its select: it has seen [e] as the error of the context, or the run done. *)
Definition driver_leaves (h : runHandle) (e : option error) : runHandle :=
  {| th_cancelOnce := th_cancelOnce h; th_cancel := th_cancel h; th_ctx := runCancel (th_ctx h);
     th_stopCause := match e with Some e => setStopCause (th_stopCause h) e | None => th_stopCause h end;
     th_res := th_res h; th_err := th_err h; th_waiter := th_waiter h; th_driving := false |}.

Section machine.
Context `{Location} (id workflowID threadID rootName : string).

(** The steps of [awaitCompletion]. *)
Definition await_store (h : runHandle) (res : option AgentRunResult) (err : option error) : runHandle :=
  let o := stored_outcome id (th_stopCause h) res err in
  {| th_cancelOnce := th_cancelOnce h; th_cancel := th_cancel h; th_ctx := th_ctx h; th_stopCause := th_stopCause h;
     th_res := o.1; th_err := o.2; th_waiter := Stored; th_driving := th_driving h |}.
Definition await_burn (h : runHandle) : runHandle :=
  {| th_cancelOnce := true; th_cancel := if th_cancelOnce h then th_cancel h else false; th_ctx := th_ctx h;
     th_stopCause := th_stopCause h; th_res := th_res h; th_err := th_err h; th_waiter := Burned; th_driving := th_driving h |}.
Definition await_close (h : runHandle) : runHandle :=
  {| th_cancelOnce := th_cancelOnce h; th_cancel := th_cancel h; th_ctx := th_ctx h; th_stopCause := th_stopCause h;
     th_res := th_res h; th_err := th_err h; th_waiter := Closed; th_driving := th_driving h |}.

(** A subscription is a step when it ends; [complete] are those that go on to the outcome, and so wait for [Done]. *)
Inductive action :=
| ACancel (r : option error)
| ACtx (e : error)
| AStop
| ALeave
| AAnswer (res : option AgentRunResult) (err : option error)
| ABurn
| AClose
| AGet (o : option AgentRunResult * option error)
| AGetLeft (ctx_Err : error)
| AEvents (fromOffset : Z) (t0 t1 : Time) (l : list arrival) (out : list WireEvent).

Definition complete (fromOffset : Z) (l : list arrival) : Prop := (deliver_loop fromOffset workflowID ∅ l).2 = GoTerminal.

Inductive act : runHandle -> action -> runHandle -> Prop :=
| act_cancel h : act h (ACancel (runHandle_Cancel h).1) (runHandle_Cancel h).2
| act_ctx h e : th_ctx h = None -> e = sentinel_error ContextDeadlineExceeded \/ e = sentinel_error ContextCanceled ->
    act h (ACtx e) (end_ctx h e)
| act_stop h e : th_driving h = true -> th_ctx h = Some e -> act h AStop (driver_leaves h (Some e))
| act_leave h : th_driving h = true -> th_done h = true -> act h ALeave (driver_leaves h None)
| act_answer h res err : th_waiter h = Waiting -> act h (AAnswer res err) (await_store h res err)
| act_burn h : th_waiter h = Stored -> act h ABurn (await_burn h)
| act_close h : th_waiter h = Burned -> act h AClose (await_close h)
| act_get h : th_done h = true -> act h (AGet (th_res h, th_err h)) h
| act_get_left h ctx_Err : th_done h = false -> act h (AGetLeft ctx_Err) h
| act_events h fromOffset t0 t1 l :
    (complete fromOffset l -> th_done h = true) ->
    act h (AEvents fromOffset t0 t1 l
             (deliverEvents fromOffset workflowID threadID id rootName t0 t1 l (th_stopCause h) (th_res h, th_err h))) h.

Inductive acts : runHandle -> list action -> runHandle -> Prop :=
| acts_nil h : acts h [] h
| acts_cons h a h1 tr h2 : act h a h1 -> acts h1 tr h2 -> acts h (a :: tr) h2.

(** What ended the context first: a [Cancel] that was accepted, or the context itself. *)
Definition ends_ctx (a : action) : option error :=
  match a with ACancel None => Some (sentinel_error ContextCanceled) | ACtx e => Some e | _ => None end.
Definition ended_by (tr : list action) : option error := head (omap ends_ctx tr).

(** What the readers of the run are shown: the outcome, and the last event of every subscription that is not given up. *)
Definition shown (tr : list action) (o : option AgentRunResult * option error) (b : EventBody) : Prop :=
  (forall o', AGet o' ∈ tr -> o' = o) /\
  (forall fromOffset t0 t1 l out, AEvents fromOffset t0 t1 l out ∈ tr -> complete fromOffset l ->
     exists out', out = out' ++ [synthetic b t1]).
Definition unread (tr : list action) : Prop :=
  (forall o, AGet o ∉ tr) /\ (forall fromOffset t0 t1 l out, AEvents fromOffset t0 t1 l out ∈ tr -> ~ complete fromOffset l).

Lemma acts_app h tr1 tr2 h2 : acts h (tr1 ++ tr2) h2 <-> exists h1, acts h tr1 h1 /\ acts h1 tr2 h2.
Proof.
  split.
  - revert h. induction tr1 as [|a tr1 IH]; intros h Hs; [exists h; split; [constructor|done]|].
    inversion Hs as [|? ? ? ? ? Ha Hs1]; subst. destruct (IH _ Hs1) as (k & H1 & H2). exists k. split; [by econstructor|done].
  - intros (h1 & H1 & H2). induction H1; [done|]. econstructor; [done|auto].
Qed.

(** A step of a run is taken from a state on the way. *)
Lemma acts_elem h tr h' a : acts h tr h' -> a ∈ tr ->
  exists tr1 h1 h2 tr2, tr = tr1 ++ a :: tr2 /\ acts h tr1 h1 /\ act h1 a h2 /\ acts h2 tr2 h'.
Proof.
  intros Hs (tr1 & tr2 & ->)%list_elem_of_split. apply acts_app in Hs as (h1 & H1 & H2). inversion H2; subst. by eauto 10.
Qed.

(** Along a run, the cause is what ended the context, once the driver has seen it. *)
Definition cause_ok (tr : list action) (h : runHandle) : Prop :=
  (th_driving h = true -> AStop ∉ tr /\ th_ctx h = ended_by tr) /\
  (AStop ∉ tr -> th_stopCause h = None) /\
  (AStop ∈ tr -> th_stopCause h = ended_by tr /\ is_Some (ended_by tr)) /\
  (forall e, ended_by tr = Some e -> e = sentinel_error ContextDeadlineExceeded \/ e = sentinel_error ContextCanceled).

Lemma ended_by_snoc tr a : ended_by (tr ++ [a]) = match ended_by tr with Some e => Some e | None => ends_ctx a end.
Proof. unfold ended_by. rewrite omap_app. destruct (omap ends_ctx tr); [|done]. cbn. by destruct (ends_ctx a). Qed.

Lemma act_ctx_end h a h' : act h a h' -> a <> AStop -> th_driving h' = true ->
  th_driving h = true /\ th_ctx h' = match th_ctx h with Some e => Some e | None => ends_ctx a end.
Proof.
  intros Ha Hne Hd. destruct Ha as [h|h e Hctx _| | | | | | | |]; cbn in *; try done; try (by split; [|destruct (th_ctx h)]).
  - revert Hd. unfold runHandle_Cancel. destruct (th_cancelOnce h), (th_cancel h); cbn; intros; split; try done; by destruct (th_ctx h).
Qed.

Lemma cause_ok_act tr h a h' : cause_ok tr h -> act h a h' -> cause_ok (tr ++ [a]) h'.
Proof.
  intros (Hd & Hn & Hs & He) Ha. unfold cause_ok. rewrite ended_by_snoc.
  assert (He' : forall e, match ended_by tr with Some e => Some e | None => ends_ctx a end = Some e ->
    e = sentinel_error ContextDeadlineExceeded \/ e = sentinel_error ContextCanceled).
  { intros e. destruct (ended_by tr) as [e'|] eqn:E; [intros [= <-]; by apply He|]. destruct Ha as [h|h e' _ [->| ->]| | | | | | | |]; cbn; try done.
    - destruct (_.1); [done|]. intros [= <-]. by right.
    - intros [= <-]. by left.
    - intros [= <-]. by right. }
  rewrite !not_elem_of_app, !elem_of_app, !list_elem_of_singleton.
  assert (a = AStop \/ a <> AStop) as [->|Hne] by (destruct a; by auto).
  - inversion Ha as [| |? e Hdr Hctx| | | | | | |]; subst. destruct (Hd Hdr) as [Hns Hc]. rewrite Hctx in Hc. rewrite <- Hc.
    cbn [driver_leaves th_driving th_stopCause]. rewrite (Hn Hns). cbn. split_and!; [done|naive_solver|intros _; by split|].
    intros e' [= <-]. by apply He.
  - assert (Hst : th_stopCause h' = th_stopCause h).
    { destruct Ha; try done. unfold runHandle_Cancel. by destruct (th_cancelOnce h). }
    rewrite Hst. split_and!; [|naive_solver| |exact He'].
    + intros Hdr. destruct (act_ctx_end _ _ _ Ha Hne Hdr) as [Hdr0 ->]. destruct (Hd Hdr0) as [Hns ->]. split; [naive_solver|done].
    + intros [Hin|Heq]; [|by destruct Hne]. destruct (Hs Hin) as [-> [e ->]]. by split.
Qed.

Lemma cause_ok_acts h tr h' tr0 : acts h tr h' -> cause_ok tr0 h -> cause_ok (tr0 ++ tr) h'.
Proof.
  intros Hs. revert tr0. induction Hs as [h|h a h1 tr h2 Ha _ IH]; intros tr0 H0; [by rewrite app_nil_r|].
  change (a :: tr) with ([a] ++ tr). rewrite app_assoc. by eapply IH, cause_ok_act.
Qed.

Lemma cause_ok_new : cause_ok [] newRunHandle.
Proof. unfold cause_ok. change (ended_by []) with (@None error). split_and!; [split; [by apply not_elem_of_nil|done]|done|by intros ?%not_elem_of_nil|done]. Qed.

(** Once the answer is stored it stays. *)
Lemma act_stored h a h' : act h a h' -> th_waiter h <> Waiting ->
  th_waiter h' <> Waiting /\ th_res h' = th_res h /\ th_err h' = th_err h.
Proof.
  intros Ha Hw. destruct Ha; cbn; try done. unfold runHandle_Cancel. by destruct (th_cancelOnce h).
Qed.

Lemma acts_stored h tr h' : acts h tr h' -> th_waiter h <> Waiting ->
  th_waiter h' <> Waiting /\ th_res h' = th_res h /\ th_err h' = th_err h.
Proof.
  induction 1 as [h|h a h1 tr h2 Ha _ IH]; intros Hw; [done|].
  destruct (act_stored _ _ _ Ha Hw) as (Hw1 & <- & <-). by apply IH.
Qed.

Lemma done_stored h : th_done h = true -> th_waiter h <> Waiting.
Proof. unfold th_done. by intros E Hw; rewrite Hw in E. Qed.

(** What is read before the answer: nothing. *)
Lemma undone_before h tr h' : acts h tr h' -> th_waiter h' = Waiting ->
  forall a, a ∈ tr -> exists h1 h2, act h1 a h2 /\ th_done h1 = false.
Proof.
  intros Hs Hw a Hin. destruct (acts_elem _ _ _ _ Hs Hin) as (tr1 & h1 & h2 & tr2 & _ & _ & Ha & H2). exists h1, h2. split; [done|].
  destruct (th_done h1) eqn:Hd; [|done]. destruct (act_stored _ _ _ Ha (done_stored _ Hd)) as (Hw2 & _).
  by destruct (acts_stored _ _ _ H2 Hw2) as (Hw' & _).
Qed.

Lemma unread_before tr h : acts newRunHandle tr h -> th_waiter h = Waiting -> unread tr.
Proof.
  intros Hs Hw. pose proof (undone_before _ _ _ Hs Hw) as Hu. split.
  - intros o Hin. destruct (Hu _ Hin) as (h1 & h2 & Ha & Hd). inversion Ha; congruence.
  - intros fromOffset t0 t1 l out Hin Hc. destruct (Hu _ Hin) as (h1 & h2 & Ha & Hd).
    inversion Ha as [| | | | | | | | |? ? ? ? ? Hdone]; subst. rewrite (Hdone Hc) in Hd. done.
Qed.

(** After it, every reader gets what is stored; a subscription ends with the event of the cause then recorded. *)
Lemma shown_after h tr h' b : acts h tr h' -> th_waiter h <> Waiting ->
  (forall tr1 h1, tr1 `prefix_of` tr -> acts h tr1 h1 ->
     terminal_event threadID id rootName (th_stopCause h1) (th_res h, th_err h) = b) ->
  shown tr (th_res h, th_err h) b.
Proof.
  intros Hs Hw Hb. split.
  - intros o Hin. destruct (acts_elem _ _ _ _ Hs Hin) as (tr1 & h1 & h2 & tr2 & _ & H1 & Ha & _).
    destruct (acts_stored _ _ _ H1 Hw) as (_ & <- & <-). by inversion Ha.
  - intros fromOffset t0 t1 l out Hin Hc. destruct (acts_elem _ _ _ _ Hs Hin) as (tr1 & h1 & h2 & tr2 & Etr & H1 & Ha & _).
    specialize (Hb tr1 h1 ltac:(subst; by eexists) H1). destruct (acts_stored _ _ _ H1 Hw) as (_ & Er & Ee).
    inversion Ha; subst. unfold deliverEvents. unfold complete in Hc. destruct (deliver_loop _ _ ∅ l) as [out e]. cbn [snd] in Hc. subst e.
    eexists. by rewrite Er, Ee, app_assoc.
Qed.

(** The cause, once recorded, stays; only the driver records one. *)
Lemma act_cause h a h' : act h a h' -> (is_Some (th_stopCause h) \/ a <> AStop) -> th_stopCause h' = th_stopCause h.
Proof.
  intros Ha Hc. destruct Ha; cbn; try done.
  - unfold runHandle_Cancel. by destruct (th_cancelOnce h).
  - destruct Hc as [[c ->]|]; done.
Qed.

Lemma acts_cause h tr h' : acts h tr h' -> (is_Some (th_stopCause h) \/ AStop ∉ tr) -> th_stopCause h' = th_stopCause h.
Proof.
  induction 1 as [h|h a h1 tr h2 Ha _ IH]; intros Hc; [done|]. rewrite not_elem_of_cons in Hc.
  rewrite <- (act_cause _ _ _ Ha) by naive_solver. apply IH. rewrite (act_cause _ _ _ Ha) by naive_solver. naive_solver.
Qed.

(** The messages of the errors of a context. *)
Lemma stopped_event c res : c = sentinel_error ContextDeadlineExceeded \/ c = sentinel_error ContextCanceled ->
  terminal_event threadID id rootName (Some c) (res, Some c) = AgentRunErrorEvent (err_msg c) None /\
  forall e, stored_error (Some c) e = c.
Proof. by intros [->| ->]. Qed.

Lemma stored_budget msg err : serialised (sentinel_with_msg ErrBudgetExceeded msg) err ->
  stored_error None err = sentinel_with_msg ErrBudgetExceeded (err_msg err).
Proof.
  intros [(p & q & Hm) Hch]. cbn [sentinel_with_msg err_msg] in Hm.
  assert (Hc : Contains (err_msg err) (sentinel_msg ErrBudgetExceeded) = true).
  { apply Contains_spec. exists p, (": " +:+ msg +:+ q). rewrite Hm. apply to_bytes_inj. by rewrite !to_bytes_app, <- !app_assoc. }
  unfold stored_error, mapWorkflowError, isApplicationWorkflowError, errors_Is. by rewrite Hch, Hc.
Qed.


End machine.
End Run.
