(* ===== verification/Witnesses.v ===== *)
(** Concrete inputs at which the theorems with hypotheses are applied: a sample agent, an
    environment that answers its effects, and the runs they give. *)
From S2P Require Import Prelude GoLib Types Codec Prog Policies MemoryConfig Budget CircuitBreaker Telemetry Events Effects Hooks ErrorControl Sanitize LLM Memory Tools Retry AgentLoop LoopFacts LoopSafety LoopBounds LoopMessages LoopBudget LoopEvents LoopBreaker.
From Stdlib Require Import SpecFloat.

#[local] Open Scope string_scope.
#[local] Open Scope list_scope.
#[local] Open Scope Z_scope.

(** ** A sample environment

    The model answers its first call with two tool calls and every later one with text;
    tools succeed, authorizers allow, approvals are granted; everything else answers its
    default.  The state counts the model calls and alternates the
    scheduler between the branches of a fan-out. *)

Definition no_error : error := errors_New "".

Definition sample_usage : LLMUsage := usage 45 15.

Definition text_response (s : string) : LLMResponse :=
  {| p_Content := s; p_Metadata := ∅; p_Usage := Some sample_usage; p_ToolCalls := [] |}.

Definition tool_call (id name : string) : option ToolCall :=
  Some {| c_ToolCallID := id; c_ToolName := name; c_Args := {[ "query" := VStr "go" ]} |}.

Definition first_response : LLMResponse :=
  {| p_Content := "let me look"; p_Metadata := ∅; p_Usage := Some sample_usage;
     p_ToolCalls := [tool_call "c1" "search"; tool_call "c2" "lookup"] |}.

Definition respond (n : nat) : LLMResponse := if Nat.eqb n 0 then first_response else text_response "done".

Definition no_decision : ErrorControlDecision := final_decision.

Definition default_ans (n : nat) (o : Op) : Ans o :=
  match o return Ans o with
  | OSched => true
  | ONow => 1000
  | ONewUUID => "id"
  | OCtxErr => None
  | OBackoff _ => None
  | OBeforeLLM _ _ q => inr q
  | OAfterLLM _ _ p => inr p
  | OBeforeTool _ _ c => inr (hc_Args c)
  | OAfterTool _ _ _ content e => inr (content, e)
  | OBeforeRetrieve _ _ c => inr (rq_Query c)
  | OAfterRetrieve _ _ _ docs => inr docs
  | OBeforeMemoryLoad _ _ c => inr (ml_Query c, ml_Limit c, ml_MinScore c, ml_Kinds c)
  | OAfterMemoryLoad _ _ _ _ context => inr context
  | OBeforeMemoryStore _ _ c => inr (ms_Record c, ms_ID c)
  | OAfterMemoryStore _ _ _ => None
  | OOnLLMFailure _ => abort_decision
  | OOnMaxIterations _ => final_decision
  | OGenerate _ _ => inr (respond n)
  | OGenerateStream _ _ =>
      inr {| sm_Chunks := [Some {| k_ContentDelta := ""; k_ThinkingDelta := "hm" |}; None;
                           Some {| k_ContentDelta := "done"; k_ThinkingDelta := "" |}];
             sm_Err := None; sm_Result := Some (respond n) |}
  | OToolExecute _ _ _ _ => inr {| any_docs := None; any_fmt := "42"; any_type := "string" |}
  | OToolAuthorize _ _ _ => inr (true, "")
  | OSearch r _ => if String.eqb (ret_Name r) "down" then inl no_error
                   else inr [{| d_Content := "text"; d_Source := "wiki"; d_Score := f64_of_Z 1 |}]
  | OMemoryLoad _ _ _ => inr []
  | OMemoryStore _ _ _ => inr "m1"
  | OMemoryExtract _ _ => inr []
  | OListMessages _ _ => inr []
  | OAddMessage _ _ => None
  | OAwaitApproval _ _ => Resolved ApprovalStatusApproved
  | OBudgetAdd _ _ => None
  | OBudgetCheck _ => None
  | OBudgetExhausted _ => false
  | OBudgetCount _ => 0
  | OBudgetTotals _ => (0, f64_zero)
  | OBudgetAdvance _ => true
  | OCBNew _ => None
  | OCBIsTripped _ _ _ => false
  | OCBRecordFailure _ _ _ _ => false
  | OCBState _ => ∅
  | _ => tt
  end.

(** Budget effects answer as the tracker in the state does. *)
Record world := { w_calls : nat; w_sched : bool; w_tracker : BudgetTracker }.

Definition next_world (w : world) (o : Op) : world :=
  let with_tracker (t : option BudgetTracker) :=
    {| w_calls := w_calls w; w_sched := w_sched w; w_tracker := default (w_tracker w) t |} in
  match o with
  | OGenerate _ _ | OGenerateStream _ _ =>
      {| w_calls := S (w_calls w); w_sched := w_sched w; w_tracker := w_tracker w |}
  | OSched => {| w_calls := w_calls w; w_sched := negb (w_sched w); w_tracker := w_tracker w |}
  | OBudgetAdd _ u => with_tracker (Add (Some (w_tracker w)) u).2
  | OBudgetAdvance _ => with_tracker (AdvanceWatermark (Some (w_tracker w))).2
  | _ => w
  end.

Definition sample_env (w : world) (o : Op) : Ans o * world :=
  (match o return Ans o with
   | OSched => w_sched w
   | OBudgetAdd _ u => (Add (Some (w_tracker w)) u).1
   | OBudgetCheck _ => Check_ (Some (w_tracker w))
   | OBudgetExhausted _ => ApprovalsExhausted (Some (w_tracker w))
   | OBudgetCount _ => ApprovalCount (Some (w_tracker w))
   | OBudgetTotals _ => Totals (Some (w_tracker w))
   | o => default_ans (w_calls w) o
   end, next_world w o).

Definition w0 : world := {| w_calls := 0; w_sched := true; w_tracker := sample_t0 |}.

Definition trace_of {A} (m : prog A) : list Event := run_trace (S := agent_sig) sample_env w0 m.
Definition value_of {A} (m : prog A) : A := run_value (S := agent_sig) sample_env w0 m.

Lemma executes_sample {A} (m : prog A) : texec m (trace_of m) (value_of m).
Proof. apply run_texec'. Qed.

(** ** A sample agent *)

Definition search_tool : Tool :=
  {| t_Name := "search"; t_DisplayName := "Search"; t_Description := ""; t_Parameters := VNull;
     t_kind := None; t_approval := Some true; t_authorizer := true |}.
Definition lookup_tool : Tool :=
  {| t_Name := "lookup"; t_DisplayName := ""; t_Description := ""; t_Parameters := VNull;
     t_kind := None; t_approval := None; t_authorizer := false |}.

Definition sample_client : LLMClient := {| l_Model := "m"; l_Provider := "p"; l_IsStreamSupported := true |}.

Definition no_configs : ExecutionConfigs :=
  let c := {| ex_Timeout := 0; ex_MaxAttempts := 0 |} in
  {| po_LLM := c; po_ToolAuth := c; po_ToolExecute := c; po_MCP := c; po_A2A := c;
     po_Retriever := c; po_Memory := c; po_Conversation := c; po_SubAgent := c |}.

Definition hook_set : AgentHooks :=
  {| h_BeforeLLM := [Some 1%nat; None]; h_AfterLLM := []; h_BeforeTool := [Some 2%nat]; h_AfterTool := [];
     h_BeforeRetrieve := []; h_AfterRetrieve := []; h_BeforeMemoryLoad := []; h_AfterMemoryLoad := [];
     h_BeforeMemoryStore := []; h_AfterMemoryStore := []; h_OnBudgetExceeded := [Some 3%nat] |}.

Definition sample_runtime : Runtime :=
  {| rt_AgentSpec := {| as_Name := "agent"; as_Description := ""; as_SystemPrompt := "be brief"; as_ResponseFormat := None |};
     rt_AgentConfig :=
       {| ac_LLMClient := sample_client; ac_Sampling := None; ac_ToolApprovalPolicy := None;
          ac_Retrievers := [{| ret_Name := "wiki" |}; {| ret_Name := "down" |}]; ac_RetrieverMode := "prefetch";
          ac_Conversation := true; ac_ConversationSize := 0; ac_ConversationSaveOnIteration := true;
          ac_Memory := Some sample_config; ac_MaxIterations := 3; ac_Timeout := 0; ac_ApprovalTimeout := 0;
          ac_Budget := Some sample_cfg; ac_ExecutionConfigs := no_configs;
          ac_Hooks := [{| g_Name := "g"; g_Hooks := hook_set |}]; ac_NamedLLMClients := ∅; ac_ErrorControl := None |};
     rt_Metrics := true; rt_ToolExecutionMode := "" |}.

Definition sample_input : AgentLoopInput :=
  {| in_UserPrompt := "hi"; in_ConversationID := "conv"; in_StreamingEnabled := false;
     in_Tools := [search_tool; lookup_tool]; in_ChannelName := ""; in_EventTypes := []; in_ApprovalHandler := true;
     in_SubAgentRoutes := []; in_SubAgentDepth := 0; in_MaxSubAgentDepth := 2; in_MemoryScope := zero_scope;
     in_RunID := "run"; in_BudgetTracker := Some 0%nat; in_EnforceBudget := true; in_circuitBreaker := None;
     in_circuitNow := 0 |}.

Definition sample_run : prog loop_outcome := executeAgentLoop sample_runtime sample_input.

Definition is_exec (e : Event) : bool := match ev_op e with OToolExecute _ _ _ _ => true | _ => false end.

Example sample_outcome :
  match value_of sample_run with Finished r => al_Content r = "done" | Stopped _ _ => False end /\
  length (List.filter is_exec (trace_of sample_run)) = 2%nat.
Proof. vm_compute. auto. Qed.

(** *** Replaying the effects of a trace on the shared objects *)

#[export] Instance breach_eq_dec : EqDecision BudgetExceededError.
Proof. solve_decision. Defined.
#[export] Instance tool_state_eq_dec : EqDecision ToolState.
Proof. solve_decision. Defined.

(** The heap after an event, when the event is what the heap answers. *)
Definition replay_access {R} `{EqDecision R} (h : heap) (l : loc) (f : BudgetTracker -> R * BudgetTracker) (r : R)
    : option heap :=
  t ← hp_budget h !! l; if decide ((f t).1 = r) then Some (set_budget h l (f t).2) else None.

Definition replay_cb {R} `{EqDecision R} (h : heap) (l : loc) (f : CircuitBreaker -> R * CircuitBreaker) (r : R)
    : option heap :=
  c ← hp_cb h !! l; if decide ((f c).1 = r) then Some (set_cb h l (f c).2) else None.

Definition replay_event (h : heap) (e : Event) : option heap :=
  let 'Ev o r := e in
  match o return Ans o -> option heap with
  | OBudgetAdd l u => fun r => replay_access h l (fun t => keep t (Add (Some t) u)) r
  | OBudgetCheck l => fun r => replay_access h l (fun t => (Check_ (Some t), t)) r
  | OBudgetExhausted l => fun r => replay_access h l (fun t => (ApprovalsExhausted (Some t), t)) r
  | OBudgetCount l => fun r => replay_access h l (fun t => (ApprovalCount (Some t), t)) r
  | OBudgetTotals l => fun r => replay_access h l (fun t => (Totals (Some t), t)) r
  | OBudgetAdvance l => fun r => replay_access h l (fun t => keep t (AdvanceWatermark (Some t))) r
  | OCBNew ec => fun r =>
      match NewCircuitBreaker ec, r with
      | None, None => Some h
      | Some c, Some l => match hp_cb h !! l with None => Some (set_cb h l c) | Some _ => None end
      | _, _ => None
      end
  | OCBIsTripped l name now => fun r => replay_cb h l (fun c => keep c (IsTripped (Some c) name now)) r
  | OCBRecordFailure l name args now => fun r =>
      replay_cb h l (fun c => keep c (RecordFailure (Some c) name args now)) r
  | OCBRecordSuccess l name => fun r => replay_cb h l (fun c => (tt, default c (RecordSuccess (Some c) name))) r
  | OCBState l => fun r => replay_cb h l (fun c => (State (Some c), c)) r
  | OCBRestore l st => fun r => replay_cb h l (fun c => (tt, default c (Restore (Some c) st))) r
  | _ => fun _ => Some h
  end r.

Fixpoint replay (h : heap) (tr : list Event) : option heap :=
  match tr with [] => Some h | e :: tr => h ← replay_event h e; replay h tr end.

Lemma replay_access_sound {R} `{EqDecision R} h l (f : BudgetTracker -> R * BudgetTracker) r h' :
  replay_access h l f r = Some h' -> budget_access h l f r h'.
Proof.
  unfold replay_access. destruct (hp_budget h !! l) as [t|] eqn:E; simpl; [|done].
  case_decide; [|done]. intros [= <-]. by exists t.
Qed.

Lemma replay_cb_sound {R} `{EqDecision R} h l (f : CircuitBreaker -> R * CircuitBreaker) r h' :
  replay_cb h l f r = Some h' -> cb_access h l f r h'.
Proof.
  unfold replay_cb. destruct (hp_cb h !! l) as [c|] eqn:E; simpl; [|done].
  case_decide; [|done]. intros [= <-]. by exists c.
Qed.

Lemma replay_event_sound h e h' : replay_event h e = Some h' -> heap_step h e h'.
Proof.
  destruct e as [o r]. destruct o; simpl; try (by intros [= <-]); try done;
    try apply replay_access_sound; try apply replay_cb_sound.
  destruct (NewCircuitBreaker _), r; try (by intros [= <-]); try done.
  destruct (hp_cb h !! _) eqn:E; [done|]. by intros [= <-].
Qed.

Lemma replay_sound h tr h' : replay h tr = Some h' -> steps h tr h'.
Proof.
  revert h. induction tr as [|e tr IH]; intros h; simpl; [intros [= <-]; constructor|].
  destruct (replay_event h e) as [h1|] eqn:E; simpl; [|done]. intros H.
  eapply steps_cons; [by apply replay_event_sound|by apply IH].
Qed.

Definition heap0 : heap := {| hp_budget := {[ 0%nat := sample_t0 ]}; hp_cb := ∅ |}.
Definition sample_heap : heap := default heap0 (replay heap0 (trace_of sample_run)).

(** ** The agent loop *)

Lemma tools_execute_approved_witness :
  guarded needs_approval approved_by [] (trace_of sample_run) /\
  existsb is_exec (trace_of sample_run) = true.
Proof.
  split; [apply (tools_execute_approved sample_runtime sample_input _ (value_of sample_run)), executes_sample|].
  vm_compute. reflexivity.
Defined.

Lemma tools_execute_authorized_witness :
  guarded needs_authorization authorized_by [] (trace_of sample_run) /\
  length (List.filter is_exec (trace_of sample_run)) = 2%nat.
Proof.
  split; [apply (tools_execute_authorized sample_runtime sample_input _ (value_of sample_run)), executes_sample|].
  vm_compute. reflexivity.
Defined.

Definition is_advance (e : Event) : bool := match ev_op e with OBudgetAdvance _ => true | _ => false end.

Lemma breach_stops_spending_witness :
  existsb is_advance (trace_of sample_run) = true /\ exists s, gate Settled (trace_of sample_run) = Some s.
Proof.
  split; [vm_compute; reflexivity|].
  destruct (breach_stops_spending sample_runtime sample_input 0%nat _ (value_of sample_run) eq_refl eq_refl eq_refl
              (executes_sample sample_run)) as (b & H & _). exists b. exact H.
Defined.

Definition small_report (e : Event) : bool :=
  match ev_op e with
  | OBudgetAdd _ (Some u) => (0 <=? u_TotalTokens u) && (u_TotalTokens u <=? 60)
  | _ => true
  end.

Lemma small_report_sound e : small_report e = true -> reports_within 60 e.
Proof.
  unfold small_report, reports_within, call_usage. destruct (ev_op e); try done.
  destruct u; [|done]. intros H. crush_bool. lia.
Qed.


Lemma conversation_appended_witness :
  length (appends (trace_of sample_run)) = 5%nat /\
  exists sent, appends (trace_of sample_run) = map (pair "conv") sent.
Proof.
  split; [vm_compute; reflexivity|].
  destruct (conversation_appended sample_runtime sample_input _ (value_of sample_run) eq_refl
              (executes_sample sample_run)) as (sent & H & _). exists sent. exact H.
Defined.

Definition finished_result (o : loop_outcome) : AgentLoopResult :=
  match o with Finished r => r | Stopped _ _ => {| al_Content := ""; al_LLMUsage := None; al_Telemetry := NewAgentTelemetry 0 |} end.

Lemma finished_calls_bounded_witness :
  exists M, 3 <= M <= 6 /\
    (rt_FinishReason (at_Run (al_Telemetry (finished_result (value_of sample_run)))) = FinishReasonComplete /\
     1 <= rt_TotalLLMCalls (at_Run (al_Telemetry (finished_result (value_of sample_run)))) <= M \/
     rt_FinishReason (at_Run (al_Telemetry (finished_result (value_of sample_run)))) = FinishReasonMaxIterations /\
     rt_TotalLLMCalls (at_Run (al_Telemetry (finished_result (value_of sample_run)))) = M + 1).
Proof.
  apply (finished_calls_bounded sample_runtime sample_input (trace_of sample_run)).
  replace (Finished (finished_result (value_of sample_run))) with (value_of sample_run) by (vm_compute; reflexivity).
  apply executes_sample.
Defined.

Definition sample_request (id name : string) : ToolCallRequest :=
  {| tc_ToolCallID := id; tc_ToolName := name; tc_ToolDisplayName := name; tc_ToolKind := ToolKindNative;
     tc_Args := ∅; tc_NeedsApproval := false; tc_Unknown := false |}.

Definition no_sub (rt : Runtime) (i : AgentLoopInput) : prog loop_outcome := mret (Stopped None no_error).
Definition sample_calls : list ToolCallRequest := [sample_request "c1" "search"; sample_request "c2" "nope"].
Definition sample_batch : prog (result (list toolResult)) :=
  run_tools no_sub sample_runtime sample_input (executionPolicies sample_runtime) "msg" 0 sample_calls.
Definition batch_results (r : result (list toolResult)) : list toolResult := match r with inr rs => rs | inl _ => [] end.

Lemma tool_batch_answered_witness :
  Forall2 (fun tc x => answers tc (tr_message x)) sample_calls (batch_results (value_of sample_batch)) /\
  length (batch_results (value_of sample_batch)) = 2%nat.
Proof.
  split; [|vm_compute; reflexivity].
  apply (tool_batch_answered no_sub sample_runtime sample_input (executionPolicies sample_runtime) "msg" 0
           sample_calls (trace_of sample_batch)).
  replace (inr (batch_results (value_of sample_batch))) with (value_of sample_batch) by (vm_compute; reflexivity).
  apply executes_sample.
Defined.

Lemma loop_terminates_witness : Forall (fun e => ev_op e <> OOutOfFuel) (trace_of sample_run).
Proof.
  destruct (loop_terminates sample_runtime sample_input) as [_ H]. apply (H _ (value_of sample_run)), executes_sample.
Defined.

(** ** Circuit breaker *)

Definition breaker_config (same window : Z) (reset : Duration) : CircuitBreakerConfig :=
  {| cb_MaxConsecutiveSameArgs := same; cb_PatternWindowSize := window; cb_ResetAfter := reset |}.
Definition fresh_breaker (c : CircuitBreakerConfig) : CircuitBreaker := {| cfg := c; CircuitBreaker.Tools := ∅ |}.
Definition bad_args : Args := {[ "q" := VStr "x" ]}.

Definition two_failures : list ((Args * bool) * Time) := [((bad_args, true), 1); ((bad_args, true), 2)].

Lemma breaker_refines_history_witness :
  represents (breaker_config 3 0 0)
    (get_tool (apply_outcomes (fresh_breaker (breaker_config 3 0 0)) "search" two_failures) "search")
    (Some [HashToolArgs bad_args; HashToolArgs bad_args]).
Proof.
  destruct (breaker_refines_history (fresh_breaker (breaker_config 3 0 0)) "search" two_failures (Some []))
    as [H _]; [reflexivity|apply zero_represents|].
  assert (E : fold_left (abs_step (breaker_config 3 0 0)) (map (fun e => outcome_of e.1) two_failures) (Some []) =
              Some [HashToolArgs bad_args; HashToolArgs bad_args]) by (vm_compute; reflexivity).
  simpl cfg in H. rewrite E in H. exact H.
Defined.

Lemma same_args_trip_point_witness :
  Tripped (get_tool (apply_outcomes (fresh_breaker (breaker_config 2 0 0)) "search"
    (map (fun t => ((bad_args, true), t)) [1; 2])) "search") = true.
Proof.
  apply (same_args_trip_point (fresh_breaker (breaker_config 2 0 0)) "search" bad_args [1; 2]);
    [reflexivity|reflexivity|reflexivity|reflexivity|vm_compute; discriminate|simpl; lia].
Defined.

Lemma odd_window_never_trips_witness :
  Tripped (get_tool (apply_outcomes (fresh_breaker (breaker_config 0 5 0)) "search" two_failures) "search") = false.
Proof. apply odd_window_never_trips; reflexivity || (simpl; lia). Defined.

Definition tripped_state : ToolState :=
  {| LastHash := "h"; Consecutive := 2; Window := []; Tripped := true; TrippedAtUnixNano := 5 |}.
Definition tripped_breaker (reset : Duration) : CircuitBreaker :=
  {| cfg := breaker_config 2 0 reset; CircuitBreaker.Tools := {[ "search" := tripped_state ]} |}.

Lemma trip_is_permanent_witness :
  (IsTripped (fold_left cb_run [OpSuccess "search"; OpSnapshot; OpFailure "search" bad_args 9] (Some (tripped_breaker 0)))
     "search" 100).1 = true.
Proof.
  apply trip_is_permanent; [|simpl; lia].
  exists (tripped_breaker 0), tripped_state. repeat split.
Defined.

Lemma trip_resets_after_witness :
  exists b', IsTripped (Some (tripped_breaker second)) "search" (unix_epoch + 5 + second) = (false, Some b') /\
    get_tool b' "search" = zero_state.
Proof.
  destruct (trip_resets_after (tripped_breaker second) "search" tripped_state (unix_epoch + 5 + second))
    as [_ H]; try reflexivity.
  apply H. vm_compute. congruence.
Defined.

Definition extend_runtime : Runtime :=
  {| rt_AgentSpec := rt_AgentSpec sample_runtime;
     rt_AgentConfig :=
       {| ac_LLMClient := sample_client; ac_Sampling := None; ac_ToolApprovalPolicy := None;
          ac_Retrievers := []; ac_RetrieverMode := ""; ac_Conversation := false; ac_ConversationSize := 0;
          ac_ConversationSaveOnIteration := false; ac_Memory := None; ac_MaxIterations := 3; ac_Timeout := 0;
          ac_ApprovalTimeout := 0; ac_Budget := None; ac_ExecutionConfigs := no_configs; ac_Hooks := [];
          ac_NamedLLMClients := {[ "backup" := Some sample_client ]};
          ac_ErrorControl := Some {| ec_OnLLMFailure := true; ec_OnMaxIterationsExceeded := true;
                                     ec_FallbackLLMClient := "backup"; ec_CircuitBreaker := None |} |};
     rt_Metrics := true; rt_ToolExecutionMode := "" |}.

(** *** A run whose only tool keeps failing *)

Record failing_world := { fw_calls : nat; fw_breaker : CircuitBreaker }.

Definition failing_env (w : failing_world) (o : Op) : Ans o * failing_world :=
  let after (c : option CircuitBreaker) := {| fw_calls := fw_calls w; fw_breaker := default (fw_breaker w) c |} in
  (match o return Ans o with
   | OGenerate _ _ =>
       inr (if Nat.ltb (fw_calls w) 2
            then {| p_Content := ""; p_Metadata := ∅; p_Usage := None; p_ToolCalls := [tool_call "c1" "lookup"] |}
            else text_response "done")
   | OToolExecute _ _ _ _ => inl no_error
   | OCBIsTripped _ name now => (IsTripped (Some (fw_breaker w)) name now).1
   | OCBRecordFailure _ name args now => (RecordFailure (Some (fw_breaker w)) name args now).1
   | OCBState _ => State (Some (fw_breaker w))
   | o => default_ans 0 o
   end,
   match o with
   | OGenerate _ _ => {| fw_calls := S (fw_calls w); fw_breaker := fw_breaker w |}
   | OCBIsTripped _ name now => after (IsTripped (Some (fw_breaker w)) name now).2
   | OCBRecordFailure _ name args now => after (RecordFailure (Some (fw_breaker w)) name args now).2
   | OCBRecordSuccess _ name => after (RecordSuccess (Some (fw_breaker w)) name)
   | _ => w
   end).

Definition failing_breaker : CircuitBreaker := fresh_breaker (breaker_config 1 0 0).
Definition failing_input : AgentLoopInput :=
  {| in_UserPrompt := "hi"; in_ConversationID := ""; in_StreamingEnabled := false;
     in_Tools := [lookup_tool]; in_ChannelName := ""; in_EventTypes := []; in_ApprovalHandler := false;
     in_SubAgentRoutes := []; in_SubAgentDepth := 0; in_MaxSubAgentDepth := 0; in_MemoryScope := zero_scope;
     in_RunID := "run"; in_BudgetTracker := None; in_EnforceBudget := false; in_circuitBreaker := Some 1%nat;
     in_circuitNow := 0 |}.
Definition failing_run : prog loop_outcome := executeAgentLoop extend_runtime failing_input.
Definition failing_w0 : failing_world := {| fw_calls := 0; fw_breaker := failing_breaker |}.
Definition failing_trace : list Event := run_trace (S := agent_sig) failing_env failing_w0 failing_run.
Definition failing_outcome : loop_outcome := run_value (S := agent_sig) failing_env failing_w0 failing_run.
Definition failing_heap0 : heap := {| hp_budget := ∅; hp_cb := {[ 1%nat := failing_breaker ]} |}.

Definition is_failure (e : Event) : bool := match ev_op e with OCBRecordFailure _ _ _ _ => true | _ => false end.

(** The trace up to the first recorded failure, and the rest. *)
Fixpoint through_failure (tr : list Event) : list Event * list Event :=
  match tr with
  | [] => ([], [])
  | e :: tr => if is_failure e then ([e], tr) else let p := through_failure tr in (e :: p.1, p.2)
  end.

Definition heap_after (h : heap) (tr : list Event) : heap := default h (replay h tr).
Definition tripped_heap : heap := heap_after failing_heap0 (through_failure failing_trace).1.

(** The tool is called in two rounds and executed, three attempts, in the first only. *)
Lemma tripped_tools_stay_skipped_witness :
  length (List.filter is_exec failing_trace) = 3%nat /\
  existsb (fun e => match ev_op e with OGenerate _ _ => true | _ => false end) (through_failure failing_trace).2 = true /\
  Forall (fun e => ~ executes_watched "lookup" e) (through_failure failing_trace).2.
Proof.
  split; [vm_compute; reflexivity|]. split; [vm_compute; reflexivity|].
  assert (E : (through_failure failing_trace).1 ++ (through_failure failing_trace).2 = failing_trace)
    by (vm_compute; reflexivity).
  assert (H1 : steps failing_heap0 (through_failure failing_trace).1 tripped_heap)
    by (apply replay_sound; vm_compute; reflexivity).
  assert (H2 : steps tripped_heap (through_failure failing_trace).2
                 (heap_after tripped_heap (through_failure failing_trace).2))
    by (apply replay_sound; vm_compute; reflexivity).
  assert (Ht : tripped_for_good tripped_heap 1%nat "lookup").
  { assert (Hc : breaker_at tripped_heap 1%nat =
                 Some (apply_outcomes failing_breaker "lookup" [(({[ "query" := VStr "go" ]}, true), 1000)]))
      by (vm_compute; reflexivity).
    unfold tripped_for_good. rewrite Hc. split; [|intros b [= <-]; vm_compute; congruence].
    eexists _, _. split; [reflexivity|]. split; [vm_compute; reflexivity|]. split; vm_compute; reflexivity. }
  apply (tripped_tools_stay_skipped extend_runtime failing_input 1%nat (through_failure failing_trace).1
           (through_failure failing_trace).2 failing_outcome failing_heap0 tripped_heap
           (heap_after tripped_heap (through_failure failing_trace).2) "lookup");
    [reflexivity|reflexivity| |exact H1|exact H2|exact Ht].
  rewrite E. unfold failing_trace, failing_outcome. apply run_texec'.
Defined.

(** ** Error control *)

Definition at_limit : MaxIterationsInfo :=
  {| mi_IterationCount := 3; mi_MaxIterations := 3; mi_LastAction := "search" |}.
Definition asked_extension : ErrorControlDecision :=
  {| dec_Action := ErrorControlExtendIterations; dec_ExtraIterations := 100 |}.
Definition granted_extension : ErrorControlDecision :=
  {| dec_Action := ErrorControlExtendIterations; dec_ExtraIterations := 3 |}.

(** The callback is asked and its answer judged. *)
Lemma decided {A} (o : Op) (r : Ans o) (f : Ans o -> A) :
  texec (d ← call o; mret (f d)) [Ev (S := agent_sig) o r] (f r).
Proof. apply (texec_bind (call o) (fun d => mret (f d)) [_] [] r); [apply texec_call|apply texec_ret]. Qed.

Lemma max_iterations_decision_bounded_witness : bounded_decision 3 false granted_extension.
Proof.
  apply (max_iterations_decision_bounded extend_runtime at_limit false
           [Ev (S := agent_sig) (OOnMaxIterations at_limit) asked_extension] granted_extension).
  exact (decided (OOnMaxIterations at_limit) asked_extension (accept_max_iterations at_limit)).
Defined.

Definition failure_info : LLMFailureInfo := {| fi_Attempt := 1; fi_Err := no_error |}.
Definition use_fallback : ErrorControlDecision :=
  {| dec_Action := ErrorControlFallbackModel; dec_ExtraIterations := 0 |}.

Lemma llm_failure_decision_sound_witness :
  dec_Action use_fallback = ErrorControlAbort \/
  dec_Action use_fallback = ErrorControlFallbackModel /\ exists c, ResolveLLMClient extend_runtime true = inr c.
Proof.
  apply (llm_failure_decision_sound extend_runtime failure_info
           [Ev (S := agent_sig) (OOnLLMFailure failure_info) use_fallback] use_fallback).
  exact (decided (OOnLLMFailure failure_info) use_fallback (accept_llm_failure extend_runtime)).
Defined.

(** ** Events *)

Definition sample_stream_request : RunRequest :=
  {| rq_UserPrompt := "hi"; rq_ConversationID := ""; rq_EnableLLMStream := true; rq_EventTypes := [];
     rq_SubAgents := []; rq_MaxSubAgentDepth := 1; rq_Tools := [search_tool] |}.
Definition stream_run : prog (result AgentRunResult) :=
  driveStream sample_runtime true ∅ sample_stream_request "run" "thread" None.

Definition started_run : prog unit := stream_started "run" "thread".


Definition streaming_input : AgentLoopInput :=
  {| in_UserPrompt := "hi"; in_ConversationID := ""; in_StreamingEnabled := true;
     in_Tools := [search_tool]; in_ChannelName := "ch"; in_EventTypes := [AgentEventAll]; in_ApprovalHandler := false;
     in_SubAgentRoutes := []; in_SubAgentDepth := 0; in_MaxSubAgentDepth := 1; in_MemoryScope := zero_scope;
     in_RunID := "run"; in_BudgetTracker := None; in_EnforceBudget := false; in_circuitBreaker := None;
     in_circuitNow := 0 |}.
Definition single_tool : prog (toolResult * option error) :=
  executeSingleTool no_sub sample_runtime streaming_input "m1" 0 (executionPolicies sample_runtime)
    (sample_request "c1" "search").

Lemma tool_events_bracketed_witness :
  length (published (trace_of single_tool)) = 3%nat /\
  exists args between,
    published (trace_of single_tool) =
      shown streaming_input (AgentToolCallStartEvent "c1" "search" "m1" :: args) ++ between ++
      shown streaming_input (ends_with "m1" (sample_request "c1" "search") (value_of single_tool)) /\
    (args = [] \/ exists s, args = [AgentToolCallArgsEvent "c1" s]) /\
    between_ok sample_runtime streaming_input (sample_request "c1" "search") between.
Proof.
  split; [vm_compute; reflexivity|].
  exact (tool_events_bracketed no_sub sample_runtime streaming_input "m1" 0 (executionPolicies sample_runtime)
           (sample_request "c1" "search") _ _ (executes_sample single_tool)).
Defined.

(** ** Hooks *)

Definition hook_call : HookToolCall :=
  {| hc_ID := "c1"; hc_Name := "search"; hc_DisplayName := "Search"; hc_Kind := ToolKindNative; hc_Args := bad_args |}.
Definition sample_meta : RunMeta := {| rm_RunID := "run"; rm_Iteration := 0; rm_HooksGroup := "" |}.
Definition run_hook : prog (result HookToolCall) := RunBeforeTool [{| g_Name := "g"; g_Hooks := hook_set |}] sample_meta hook_call.

Lemma before_tool_keeps_identity_witness :
  length (trace_of run_hook) = 1%nat /\
  forall c, value_of run_hook = inr c -> c = with_args hook_call (hc_Args c).
Proof.
  split; [vm_compute; reflexivity|].
  exact (proj1 (before_tool_keeps_identity _ _ _ _ _ (executes_sample run_hook))).
Defined.

(** ** Model calls *)

Definition sample_llm_input (channel : string) : ExecuteLLMInput :=
  {| li_AgentName := "agent"; li_MessageID := "m1"; li_RunID := "run"; li_Iteration := 0;
     li_Messages := [text_message MessageRoleUser "hi"]; li_SkipTools := false; li_MemoryContext := "";
     li_RetrieverContext := ""; li_Tools := [search_tool]; li_Emit := Some (publish_to channel); li_Client := None |}.

Definition stream_call : prog (result LLMResult) := ExecuteLLMStream sample_runtime (sample_llm_input "ch").

Lemma stream_events_well_formed_witness :
  length (published (trace_of stream_call)) = 8%nat /\
  exists t, turn_run "m1" (false, None) (published (trace_of stream_call)) = Some (t, None).
Proof.
  split; [vm_compute; reflexivity|].
  destruct (stream_events_well_formed sample_runtime (sample_llm_input "ch") "ch" _ _ eq_refl
              (executes_sample stream_call)) as (t & H & _). exists t. exact H.
Defined.

Lemma publish_quiet f e : li_Emit (sample_llm_input "ch") = Some f -> always (quiet "agent.llm.call") (f e).
Proof. intros [= <-]. apply always_call. repeat split. Qed.

Lemma stream_calls_metered_witness :
  tally "agent.llm.call" (trace_of stream_call) = (0, 0, 0) \/
  tally "agent.llm.call" (trace_of stream_call) =
    match value_of stream_call with inr _ => (1, 1, 0) | inl _ => (1, 0, 1) end.
Proof.
  apply (stream_calls_metered sample_runtime (sample_llm_input "ch") (trace_of stream_call));
    [apply publish_quiet|apply executes_sample].
Defined.

Definition generate_call : prog (result LLMResult) := ExecuteLLM sample_runtime (sample_llm_input "ch").

Lemma generate_calls_metered_witness :
  tally "agent.llm.call" (trace_of generate_call) =
    match value_of generate_call with
    | inr _ => (1, 1, 0)
    | inl _ => if existsb (fun e => match ev_op e with OGenerate _ _ => true | _ => false end) (trace_of generate_call)
               then if 0 <? metric_count "agent.llm.call.failed" (trace_of generate_call) then (1, 0, 1) else (1, 0, 0)
               else (0, 0, 0)
    end.
Proof.
  apply (generate_calls_metered sample_runtime (sample_llm_input "ch")); [apply publish_quiet|apply executes_sample].
Defined.

Definition resolve_response : prog LLMResult :=
  llmResponseToResult sample_runtime first_response (in_Tools sample_input).

Lemma tool_calls_resolved_witness :
  map tc_NeedsApproval (lr_ToolCalls (value_of resolve_response)) = [true; false] /\
  Forall2 (resolved sample_runtime (in_Tools sample_input)) (omap id (p_ToolCalls first_response))
    (lr_ToolCalls (value_of resolve_response)).
Proof.
  split; [vm_compute; reflexivity|].
  exact (proj1 (tool_calls_resolved sample_runtime first_response (in_Tools sample_input) _ _ (executes_sample resolve_response))).
Defined.

(** ** Tools, retrievers and memory *)

Definition sample_tool_input : ExecuteToolInput :=
  {| ti_Tools := in_Tools sample_input; ti_ToolName := "search"; ti_Args := bad_args; ti_ToolCallID := "c1";
     ti_RunID := "run"; ti_Iteration := 0 |}.
Definition tool_run : prog (result string) := ExecuteTool sample_runtime sample_tool_input zero_scope.

Lemma tool_calls_metered_witness :
  tally "agent.tool.call" (trace_of tool_run) = (0, 0, 0) \/
  tally "agent.tool.call" (trace_of tool_run) = match value_of tool_run with inr _ => (1, 1, 0) | inl _ => (1, 0, 1) end.
Proof. apply (tool_calls_metered sample_runtime sample_tool_input zero_scope), executes_sample. Defined.

Definition sample_prefetch : prog (result RetrieverResult) :=
  ExecuteRetrievers sample_runtime {| eri_RunID := "run"; eri_Iteration := 0; eri_Query := "go" |}.

Lemma prefetch_partial_results_witness :
  exists res, value_of sample_prefetch = inr res /\ rr_TotalSearches res = 2 /\ rr_FailedSearches res <= 2.
Proof.
  destruct (prefetch_partial_results _ _ _ _ (executes_sample sample_prefetch)) as (rs & res & H & _ & Ht & _ & Hf & _).
  exists res. split; [exact H|]. split; [exact Ht|]. rewrite Ht in Hf. apply Hf.
Defined.

Definition sample_records : StoreMemoryRecordsInput :=
  {| sri_RunID := "run"; sri_Iteration := 0; sri_Scope := zero_scope;
     sri_Records := [{| rec_Text := " likes go "; rec_Kind := KindPreference; rec_Metadata := ∅; rec_ExpiresAt := 0 |}] |}.
Definition is_store (e : Event) : bool := match ev_op e with OMemoryStore _ _ _ => true | _ => false end.

Lemma memory_writes_well_formed_witness :
  existsb is_store (trace_of (StoreMemoryRecords sample_runtime sample_records)) = true /\
  Forall (fun e => write_ok sample_config zero_scope (ev_op e)) (trace_of (StoreMemoryRecords sample_runtime sample_records)).
Proof.
  split; [vm_compute; reflexivity|].
  apply (memory_writes_well_formed sample_runtime sample_config sample_records eq_refl _
           (value_of (StoreMemoryRecords sample_runtime sample_records))), executes_sample.
Defined.
