(* ===== verification/BuilderWitnesses.v ===== *)
(** Concrete inputs at which the theorems about the agent builder, its registries and its
    protocol clients are applied: a root agent with one sub-agent, a flaky MCP server, an
    A2A message with a file. *)
From S2P Require Import Prelude GoLib Types Prog Policies MemoryConfig Budget CircuitBreaker Telemetry Events Effects ErrorControl LLM AgentLoop Registry AgentTools McpClient A2aClient AgentConfig AgentConfigFacts AgentRun.

#[local] Open Scope string_scope.
#[local] Open Scope list_scope.
#[local] Open Scope Z_scope.

Definition sample_model : LLMClient := {| l_Model := "m"; l_Provider := "p"; l_IsStreamSupported := true |}.

Definition native_tool (name : string) : Tool :=
  {| t_Name := name; t_DisplayName := name; t_Description := ""; t_Parameters := VNull; t_kind := None;
     t_approval := None; t_authorizer := false |}.

Definition no_overrides : ExecutionConfigs :=
  let c := {| ex_Timeout := 0; ex_MaxAttempts := 0 |} in
  {| po_LLM := c; po_ToolAuth := c; po_ToolExecute := c; po_MCP := c; po_A2A := c;
     po_Retriever := c; po_Memory := c; po_Conversation := c; po_SubAgent := c |}.

(** The options of an agent: a name, native tools, sub-agents, a run timeout. *)
Definition options (name : string) (tools : list string) (subs : list loc) (timeout : Duration) : agentConfig :=
  {| b_Name := name; b_Description := ""; b_SystemPrompt := "be brief"; b_runtimeFactory := None;
     b_factoryConflict := None; b_localConfig := false; b_LLMClient := Some sample_model; b_namedLLMClients := ∅;
     b_tools := map (fun n => Some (native_tool n)) tools; b_toolRegistry := None; b_mcpRegistry := None;
     b_a2aRegistry := None; b_subAgentRegistry := None; b_toolApprovalPolicy := None; b_maxIterations := 0;
     b_approvalHandler := true; b_timeout := timeout; b_approvalTimeout := 0; b_executionConfigs := no_overrides;
     b_conversationConfig := Some {| cv_Conversation := Some false; cv_Size := 0; cv_SaveOnIteration := true |};
     b_memoryConfig := None; b_responseFormat := None; b_llmSampling := None; b_disableLocalWorker := false;
     b_subAgents := map Some subs; b_maxSubAgentDepth := 0; b_mcpServers := ∅; b_mcpClients := []; b_a2aServers := ∅;
     b_a2aClients := []; b_retrievers := []; b_retrieverMode := ""; b_agentMode := "";
     b_agentToolExecutionMode := ""; b_budgetConfig := Some {| cfg_MaxTokens := 100; cfg_MaxCostUSD := f64_zero;
       cfg_PromptUSDPer1M := f64_zero; cfg_CompletionUSDPer1M := f64_zero; cfg_OnExceeded := BudgetWaitForApproval;
       cfg_ApprovalExtraTokens := 0; cfg_ApprovalExtraCostUSD := f64_zero; cfg_MaxApprovals := 1 |};
     b_hooks := []; b_errorControl := None |}.

Definition no_mcp (_ : MCPClient) : result (list ToolSpec) := inr [].
Definition no_a2a (_ : A2AClient) : result (list A2ASkillSpec) := inr [].

Definition build (deref : loc -> agentConfig) (c : agentConfig) : build_result :=
  (buildAgentConfig deref no_mcp no_a2a None ∅ c).1.
Definition built (deref : loc -> agentConfig) (c : agentConfig) : agentConfig :=
  match build deref c with Built c => c | _ => c end.

(** The agent at location 1 is built first, then the root at location 0 that delegates to it. *)
Definition research_agent : agentConfig := built (fun _ => options "" [] [] 0) (options "research team" ["fetch"] [] 0).
Definition root_options : agentConfig := options "Root Agent" ["search"; "echo"] [1%nat] 0.
Definition root_agent : agentConfig := built (fun _ => research_agent) root_options.
Definition sample_deref (l : loc) : agentConfig := if Nat.eqb l 0 then root_agent else research_agent.

(** ** Registries and names *)

Lemma register_unregister_witness :
  Unregister (Register t_Name NewRegistry (Some (native_tool " search "))).2 " search " = (None, NewRegistry).
Proof.
  apply (register_unregister t_Name NewRegistry [] (native_tool " search ")); [apply stores_new|reflexivity].
Defined.

Definition sample_allowlist : AllowlistToolApprovalConfig :=
  {| al_ToolNames := [" echo "; ""]; al_SubAgentNames := ["research team"]; al_MCPTools := {[ "docs" := ["search"] ]} |}.

Definition sample_policy : ApprovalPolicy :=
  match AllowlistToolApprovalPolicy sample_allowlist with inr p => p | inl _ => AutoToolApprovalPolicy end.

Lemma allowlist_waives_listed_witness :
  policy_requires sample_policy (native_tool "echo") = false /\ policy_requires sample_policy (native_tool "search") = true.
Proof.
  split; [|vm_compute; reflexivity].
  apply (allowlist_waives_listed sample_allowlist sample_policy (native_tool "echo")); [vm_compute; reflexivity|].
  split; [done|]. left. exists " echo ". split; [by left|reflexivity].
Defined.

(** ** Protocol clients *)

Definition flaky_client : Client :=
  match sample_client 2 with
  | inr c => c
  | inl _ => {| cl_name := ""; cl_transportCfg := MCPLoopback false; cl_closed := true; cl_rpcTimeout := 0;
                cl_maxRPCAttempts := 1; cl_toolFilter := {| f_AllowTools := []; f_BlockTools := [] |} |}
  end.

Lemma ListTools_accumulates_witness :
  let tr := run_trace (S := mcp_sig) flaky 0%nat (ListTools flaky_client) in
  count is_connect tr = 2%nat /\ (count is_connect tr <= Z.to_nat (Z.max 1 (cl_maxRPCAttempts flaky_client)))%nat.
Proof.
  split; [vm_compute; reflexivity|].
  eapply (ListTools_accumulates flaky_client _ (run_value (S := mcp_sig) flaky 0%nat (ListTools flaky_client))).
  apply (run_texec' (S := mcp_sig)).
Defined.

Lemma CallTool_at_most_attempts_witness :
  let tr := run_trace (S := mcp_sig) flaky 0%nat (CallTool flaky_client "search" None) in
  count is_call tr = 1%nat /\ (count is_call tr <= Z.to_nat (Z.max 1 (cl_maxRPCAttempts flaky_client)))%nat.
Proof.
  split; [vm_compute; reflexivity|].
  apply (CallTool_at_most_attempts flaky_client "search" None _
           (run_value (S := mcp_sig) flaky 0%nat (CallTool flaky_client "search" None))).
  apply (run_texec' (S := mcp_sig)).
Defined.

Definition sample_message : A2AMessage :=
  {| am_MessageID := "m1"; am_Role := "user";
     am_Parts := [part "text" "look at this" VNull "" "" "";
                  part "file" "" VNull "image/png" (Base64.EncodeToString "raw") ""] |}.

Lemma message_roundtrip_witness : fromSDKMessage (toSDKMessage "fresh" sample_message) = sample_message.
Proof.
  apply (message_roundtrip "fresh" sample_message); [done|by left|].
  repeat constructor. done.
Defined.

Definition raced : conn_state :=
  let s := getInner_connected (getInner_connected conn_init 1%nat) 2%nat in
  A2A_Close (getInner_finish (getInner_finish s 1%nat).2 2%nat).2.

Lemma no_connection_leaks_witness : cs_live raced = ∅.
Proof.
  apply (no_connection_leaks raced); [|reflexivity|vm_compute; reflexivity].
  eapply rtc_l; [apply (cs_connect conn_init conn_init 1%nat); [reflexivity|set_solver]|].
  eapply rtc_l; [apply (cs_connect _ conn_init 2%nat); [reflexivity|cbn; set_solver]|].
  eapply rtc_l; [apply (cs_finish _ 1%nat); cbn; set_solver|].
  eapply rtc_l; [apply (cs_finish _ 2%nat); cbn; set_solver|].
  eapply rtc_l; [apply cs_close|]. apply rtc_refl.
Defined.

(** ** The builder *)

Lemma resolveTools_unambiguous_witness :
  exists tools, resolveTools sample_deref no_mcp no_a2a root_agent = inr tools /\ NoDup (map t_Name tools) /\
    map t_Name tools = ["search"; "echo"; "subagent_research_team"].
Proof.
  eexists. split; [vm_compute; reflexivity|]. split; [|reflexivity].
  eapply (resolveTools_unambiguous sample_deref no_mcp no_a2a root_agent). vm_compute. reflexivity.
Defined.

Lemma built_config_sound_witness :
  validateAgentName (b_Name root_agent) = None /\ b_Name root_agent = "root-agent" /\
  b_approvalTimeout root_agent < b_timeout root_agent.
Proof.
  assert (H : build (fun _ => research_agent) root_options = Built root_agent) by (vm_compute; reflexivity).
  unfold build in H. destruct (buildAgentConfig (fun _ => research_agent) no_mcp no_a2a None ∅ root_options) as [r s] eqn:E.
  cbn [fst] in H. subst r.
  destruct (built_config_sound (fun _ => research_agent) no_mcp no_a2a None ∅ root_options root_agent s E)
    as (H1 & _ & _ & _ & _ & H2 & _).
  split; [exact H1|]. split; [vm_compute; reflexivity|exact H2].
Defined.

Lemma short_runs_have_no_approval_window_witness :
  let c := options "quick" [] [] (10 * second) in
  approvalTaskTimeout (local_runtime (with_limits c (resolve_timeout c) (resolve_approval_timeout c (resolve_timeout c)) None)
                         sample_model) < 0.
Proof.
  apply (short_runs_have_no_approval_window (options "quick" [] [] (10 * second)) sample_model None);
    vm_compute; intuition discriminate.
Defined.

Definition sample_request : RunRequest :=
  match run_preflight sample_deref no_mcp no_a2a 3 0%nat "hi" "conv" with
  | Accepted req => req
  | _ => createRunRequest root_agent "" "" false [] []
  end.

Lemma sample_accepted :
  run_preflight sample_deref no_mcp no_a2a (S (Z.to_nat (b_maxSubAgentDepth (sample_deref 0%nat)))) 0%nat "hi" "conv" =
  Accepted sample_request.
Proof. vm_compute. reflexivity. Qed.

Lemma run_preflight_sound_witness :
  NoDup (map t_Name (rq_Tools sample_request)) /\ length (rq_Tools sample_request) = 3%nat.
Proof.
  split; [|vm_compute; reflexivity].
  assert (Hp : 0 < b_maxSubAgentDepth (sample_deref 0%nat)) by (vm_compute; reflexivity).
  pose proof (run_preflight_sound sample_deref no_mcp no_a2a 0%nat "hi" "conv" Hp) as H.
  rewrite sample_accepted in H. exact (proj1 (proj2 H)).
Defined.
