(* ===== verification/StoreWitnesses.v ===== *)
(** A concrete Redis server and message codec, at which the theorems about the conversation
    stores are applied, and the behaviours of the stores that their contract leaves open. *)
From S2P Require Import Prelude GoLib Types Prog Effects AgentLoop LoopBounds LoopMessages Conversation ConversationFaults ConversationRun Witnesses.

#[local] Open Scope string_scope.
#[local] Open Scope list_scope.
#[local] Open Scope Z_scope.

(** ** A server: lists by key; its schedule decides which of two writers goes next *)

Record table := { tb_lists : gmap string (list string); tb_schedule : list bool }.

Definition values (s : table) (k : string) : list string := default [] (tb_lists s !! k).
Definition set_values (s : table) (k : string) (l : list string) : table :=
  {| tb_lists := <[k := l]> (tb_lists s); tb_schedule := tb_schedule s |}.

(** Negative indices count from the end. *)
Definition position (n i : Z) : Z := if i <? 0 then Z.max 0 (n + i) else i.
Definition range (s : table) (k : string) (start stop : Z) : list string :=
  let n := Z.of_nat (length (values s k)) in slice (position n start) (position n stop + 1) (values s k).

Definition table_exec (s : table) (o : RedisOp) : RedisAns o * table :=
  match o with
  | ORPush k d => (None, set_values s k (values s k ++ [d]))
  | OLLen k => (inr (Z.of_nat (length (values s k))), s)
  | OLTrim k start stop => (None, set_values s k (range s k start stop))
  | OExpire _ _ => (None, s)
  | OLRange k start stop => (inr (range s k start stop), s)
  | ODel k => (None, set_values s k [])
  | ORedisSched =>
      match tb_schedule s with
      | [] => (true, s)
      | b :: bs => (b, {| tb_lists := tb_lists s; tb_schedule := bs |})
      end
  end.

Lemma values_set s k l k' : values (set_values s k l) k' = if decide (k = k') then l else values s k'.
Proof.
  unfold values, set_values. cbn [tb_lists]. destruct (decide (k = k')) as [->|].
  - by rewrite lookup_insert_eq.
  - by rewrite lookup_insert_ne.
Qed.

Lemma range_to_end s k start : 0 <= start -> range s k start (-1) = drop (Z.to_nat start) (values s k).
Proof.
  intros Hs. unfold range, position, slice. destruct (start <? 0) eqn:E; crush_bool; [lia|]. cbn [Z.ltb Z.compare].
  apply take_ge. rewrite length_drop. lia.
Qed.

Lemma range_inside s k start stop : 0 <= start <= stop -> range s k start stop = slice start (stop + 1) (values s k).
Proof.
  intros Hs. unfold range, position. destruct (start <? 0) eqn:E; crush_bool; [lia|].
  destruct (stop <? 0) eqn:E2; crush_bool; [lia|done].
Qed.

#[export, refine] Instance table_server : RedisServer table := {| redis_exec := table_exec; contents := values |}.
Proof.
  - intros s k d. split; [done|]. apply values_set.
  - done.
  - intros s k start Hs. split; [done|]. intros k'. cbn [table_exec snd]. by rewrite values_set, range_to_end.
  - done.
  - intros s k start stop Hs. split; [|done]. cbn [table_exec fst]. by rewrite range_inside.
  - intros s k. split; [done|]. apply values_set.
Defined.

(** ** A codec of plain user and assistant turns *)

Definition plain (m : Message) : Prop :=
  exists role content, m = text_message role content /\ role ∈ [MessageRoleUser; MessageRoleAssistant].

Definition marshal_plain (m : Message) : result string :=
  if String.eqb (m_Role m) MessageRoleUser then inr ("u" +:+ m_Content m)
  else if String.eqb (m_Role m) MessageRoleAssistant then inr ("a" +:+ m_Content m)
  else inl (errors_New "json: unsupported value").

Definition unmarshal_plain (s : string) : result Message :=
  match s with
  | String c content =>
      if Ascii.eqb c "u" then inr (text_message MessageRoleUser content)
      else if Ascii.eqb c "a" then inr (text_message MessageRoleAssistant content)
      else inl (errors_New "invalid character")
  | EmptyString => inl (errors_New "unexpected end of JSON input")
  end.

#[export, refine] Instance plain_codec : MessageCodec :=
  {| marshal_message := marshal_plain; unmarshal_message := unmarshal_plain; storable := plain |}.
Proof.
  intros m (role & content & -> & Hr). apply elem_of_cons in Hr as [->|Hr%list_elem_of_singleton].
  - by exists ("u" +:+ content).
  - subst. by exists ("a" +:+ content).
Defined.

(** ** Applications *)

Definition user (s : string) : Message := text_message MessageRoleUser s.
Definition assistant (s : string) : Message := text_message MessageRoleAssistant s.

Lemma user_plain s : plain (user s).
Proof. exists MessageRoleUser, s. split; [done|by left]. Qed.
Lemma assistant_plain s : plain (assistant s).
Proof. exists MessageRoleAssistant, s. split; [done|right; by left]. Qed.

Definition sample_ops : list conv_op :=
  [CAdd "a" (user "1"); CAdd "b" (user "x"); CAdd "a" (assistant "2"); CAdd "a" (user "3");
   CList "a" [WithLimit 20]; CList "a" [WithLimit 1; WithOffset 1]; CClear "a"; CList "a" []; CList "b" []].

Lemma sample_ops_defined (accepts : Message -> Prop) :
  (forall s, accepts (user s)) -> (forall s, accepts (assistant s)) -> defined_ops 2 accepts ∅ sample_ops.
Proof. intros Hu Ha. repeat split; auto; try done; try (vm_compute; discriminate). Qed.

Lemma inmem_refines_logs_witness :
  (run_ops store_op (inmem_New 2) sample_ops).1 = (run_ops (spec_conv_op 2) ∅ sample_ops).1 /\
  nth_error (run_ops store_op (inmem_New 2) sample_ops).1 4 = Some (CListed (Listed [assistant "2"; user "3"])).
Proof.
  split; [|vm_compute; reflexivity].
  apply (inmem_refines_logs 2 sample_ops); [unfold max_int64; lia|]. by apply sample_ops_defined.
Defined.

Definition sample_redis : RedisConversation := redis_New 2 0 "".
Definition empty_table (schedule : list bool) : table := {| tb_lists := ∅; tb_schedule := schedule |}.

(** A server that refuses the commands its schedule marks. *)
Definition refusal (o : RedisOp) : RedisAns o :=
  match o with
  | OLLen _ | OLRange _ _ _ => inl (errors_New "connection refused")
  | ORedisSched => true
  | _ => Some (errors_New "connection refused")
  end.

Definition has_room (o : RedisOp) (s : lists) : bool :=
  match o with ORPush k _ => Z.of_nat (length (s k)) <? max_int64 | _ => true end.

Definition faulty_exec (w : lists * list bool) (o : RedisOp) : RedisAns o * (lists * list bool) :=
  if match o with ORedisSched => false | _ => hd false w.2 || negb (has_room o w.1) end then (refusal o, (w.1, tl w.2))
  else (redis_answer o w.1, (redis_effect o w.1, tl w.2)).

Lemma faulty_answered w o : answered w.1 o (faulty_exec w o).1 false (faulty_exec w o).2.1.
Proof.
  unfold faulty_exec. destruct (match o with ORedisSched => false | _ => _ end) eqn:E.
  - eapply (answered_refused _ _ _ _ w.1); [apply expires_refl| |done]. by destruct o.
  - eapply (answered_done _ _ _ w.1); [apply expires_refl| |done]. destruct o; try done. cbn in E |- *.
    apply orb_false_iff in E as [_ E%negb_false_iff]. by apply Z.ltb_lt.
Qed.

Lemma faulty_serves {A} (m : prog (S := redis_sig) A) : forall w tr a w',
  run (S := redis_sig) faulty_exec w m = (tr, a, w') -> redis_serves w.1 tr false w'.1.
Proof.
  induction m as [a0|o k IH]; intros w tr a w'; cbn [run]; [intros [= <- _ <-]; constructor|].
  pose proof (faulty_answered w o) as Ha. destruct (faulty_exec w o) as [r w1]. cbn [fst snd] in Ha.
  destruct (run (S := redis_sig) faulty_exec w1 (k r)) as [[tr1 a1] w2] eqn:E. intros [= <- _ <-].
  exact (serves_command _ _ _ false _ _ false _ Ha (IH r w1 tr1 a1 w2 E)).
Qed.

(** A client's calls, one after the other. *)
Fixpoint faulty_calls (w : lists * list bool) (os : list conv_op) : list call * (lists * list bool) :=
  match os with
  | [] => ([], w)
  | o :: os =>
      let '(tr, out, w1) := run (S := redis_sig) faulty_exec w (redis_op sample_redis o) in
      let q := faulty_calls w1 os in ({| cl_op := o; cl_out := out; cl_failed := faults tr; cl_lost := false |} :: q.1, q.2)
  end.

Lemma faulty_history os : forall w, redis_history sample_redis w.1 (faulty_calls w os).1 (faulty_calls w os).2.1.
Proof.
  induction os as [|o os IH]; intros w; cbn [faulty_calls]; [constructor|].
  destruct (run (S := redis_sig) faulty_exec w (redis_op sample_redis o)) as [[tr out] w1] eqn:E. cbn [fst snd].
  econstructor; [exact (run_texec _ _ _ _ _ _ E)|exact (faulty_serves _ _ _ _ _ E)|apply IH].
Qed.

Lemma faulty_ops_all (P : conv_op -> Prop) w os : Forall P os -> Forall (fun x => P (cl_op x)) (faulty_calls w os).1.
Proof.
  intros H. revert w. induction H as [|o os Ho _ IH]; intros w; cbn [faulty_calls]; [constructor|].
  destruct (run (S := redis_sig) faulty_exec w (redis_op sample_redis o)) as [[tr out] w1]. by constructor.
Qed.

Lemma calm_all h : forallb (fun x => negb (cl_failed x || cl_lost x)) h = true -> Forall calm h.
Proof.
  rewrite forallb_forall, List.Forall_forall. intros H x Hx%H. apply negb_true_iff, orb_false_iff in Hx as [??]. by split.
Qed.

Definition no_lists : lists := fun _ => [].

(** The trim of the third message is refused. *)
Definition faulty_ops : list conv_op :=
  [CAdd "a" (user "1"); CAdd "a" (assistant "2"); CAdd "a" (user "3"); CList "a" []; CAdd "a" (assistant "4"); CList "a" []].
Definition faulty_schedule : list bool := [false; false; false; false; false; false; false; false; true].
Definition faulty_run : list call := (faulty_calls (no_lists, faulty_schedule) faulty_ops).1.

Example faulty_answers : map cl_out faulty_run =
  [CErr None; CErr None; CErr (Some (wrap_error "redis ltrim: " (errors_New "connection refused")));
   CListed (Listed [user "1"; assistant "2"; user "3"]); CErr None; CListed (Listed [user "3"; assistant "4"])].
Proof. vm_compute. reflexivity. Qed.

Definition calm_run : list call := (faulty_calls (no_lists, []) sample_ops).1.

Lemma redis_refines_logs_witness :
  kept_history 2 (view sample_redis no_lists) faulty_run (view sample_redis (faulty_calls (no_lists, faulty_schedule) faulty_ops).2.1) /\
  map cl_out calm_run = (run_ops (spec_conv_op 2) ∅ (map cl_op calm_run)).1.
Proof.
  assert (Hb : bounded no_lists) by (intros k; vm_compute; discriminate).
  split.
  - refine (proj1 (redis_refines_logs sample_redis no_lists faulty_run _ eq_refl Hb _ (faulty_history faulty_ops (no_lists, faulty_schedule)))).
    apply (faulty_ops_all go_op). repeat constructor; vm_compute; discriminate.
  - refine (proj2 (redis_refines_logs sample_redis no_lists calm_run _ eq_refl Hb _ (faulty_history sample_ops (no_lists, []))) _ _ _).
    + apply (faulty_ops_all go_op). repeat constructor; vm_compute; discriminate.
    + done.
    + apply calm_all. vm_compute. reflexivity.
    + apply (faulty_ops_all (fun o => op_id o <> "" /\ match o with CAdd _ m => storable m | _ => True end)).
      repeat constructor; try discriminate; first [apply user_plain|apply assistant_plain].
Defined.

(** ** Two writers whose commands alternate *)

Definition full_table (schedule : list bool) : table :=
  {| tb_lists := {[ getKey sample_redis "c" := ["u1"; "u2"] ]}; tb_schedule := schedule |}.

Definition two_writers : prog (list (option error)) := par (map (redis_AddMessage sample_redis "c") [user "3"; user "4"]).

Definition race (schedule : list bool) : list (event redis_sig) * list (option error) * table :=
  run (S := redis_sig) redis_exec (full_table schedule) two_writers.

(** When both push before either reads the length, both trim the excess of both: the whole
    conversation is lost.  One after the other they leave the last two messages. *)
Example concurrent_writers_over_trim :
  values (race [true; false; true; false]).2 (getKey sample_redis "c") = [] /\
  values (race []).2 (getKey sample_redis "c") = ["u3"; "u4"].
Proof. split; vm_compute; reflexivity. Qed.

Lemma run_replays s (tr : list (event redis_sig)) A (m : prog (S := redis_sig) A) a s' :
  run (S := redis_sig) redis_exec s m = (tr, a, s') -> tb_schedule s = [] -> replays s tr s'.
Proof.
  revert s tr a s'. induction m as [b|o k IH]; intros s tr a s'; cbn [run]; [intros [= <- _ <-] _; constructor|].
  destruct (redis_exec s o) as [r w] eqn:Hx. destruct (run (S := redis_sig) redis_exec w (k r)) as [[t b] w'] eqn:Hr.
  intros [= <- _ <-] Hs. destruct (decide (o = ORedisSched)) as [->|Ho].
  - cbn in Hx. rewrite Hs in Hx. injection Hx as <- <-. constructor. by eapply IH.
  - pose proof (replays_command s o t w' Ho) as Hc. rewrite Hx in Hc. apply Hc. eapply IH; [exact Hr|].
    assert (Hw : w = (table_exec s o).2) by (change (redis_exec s o) with (table_exec s o) in Hx; by rewrite Hx).
    rewrite Hw. destruct o; done.
Qed.

Definition small_length (e : event redis_sig) : bool :=
  match e with Ev (OLLen _) (inr n) => n <=? 9 | _ => true end.

Lemma small_go_ints tr : forallb small_length tr = true -> go_ints tr.
Proof.
  intros H k n Hin. rewrite forallb_forall in H. apply H in Hin. cbn in Hin. apply Z.leb_le in Hin. unfold max_int64. lia.
Qed.

Lemma concurrent_writers_bounded_witness :
  let '(tr, _, s') := race [] in
  pushed tr ≡ₚ ["u3"; "u4"] /\ Z.of_nat (length (values s' (getKey sample_redis "c"))) <= 2.
Proof.
  destruct (race []) as [[tr rs] s'] eqn:Hr.
  destruct (concurrent_writers_bounded sample_redis "c" [user "3"; user "4"] (full_table []) tr rs s') as (H1 & _ & H2).
  - reflexivity.
  - eapply (run_texec (S := redis_sig)). exact Hr.
  - eapply run_replays; [exact Hr|reflexivity].
  - apply small_go_ints. replace tr with (race []).1.1 by by rewrite Hr. vm_compute. reflexivity.
  - vm_compute. discriminate.
  - split; [exact H1|exact H2].
Defined.

(** ** What the contract leaves open *)

(** An offset past the conversation makes the in-memory store panic; Redis lists nothing. *)
Example offset_past_the_end :
  inmem_ListMessages (run_ops store_op (inmem_New 2) [CAdd "a" (user "1")]).2 "a" [WithOffset 2] = Panicked /\
  (atomically (full_table []) (redis_ListMessages sample_redis "c" [WithOffset 3])).1 = Listed [].
Proof. split; vm_compute; reflexivity. Qed.

Definition call : Message :=
  {| m_Role := MessageRoleAssistant; m_Content := ""; m_ToolName := ""; m_ToolCallID := "";
     m_ToolCalls := [Some {| c_ToolCallID := "t1"; c_ToolName := "search"; c_Args := ∅ |}]; m_Metadata := ∅; m_CreatedAt := 0 |}.
Definition answer : Message := tool_message "found" "search" "t1".

(** A window that cuts a round starts with a tool message whose call is gone. *)
Example window_cuts_round :
  inmem_ListMessages (run_ops store_op (inmem_New 100) [CAdd "a" (user "1"); CAdd "a" call; CAdd "a" answer; CAdd "a" (assistant "2")]).2
    "a" [WithLimit 2] = Listed [answer; assistant "2"].
Proof. vm_compute. reflexivity. Qed.

(** ** A run and its store *)

