(* ===== verification/TemporalWitnesses.v ===== *)
(** Concrete Temporal runs at which the theorems about the workflow are applied. *)
From S2P Require Import Prelude GoLib Types Codec Prog ProgSpec Policies MemoryConfig Budget CircuitBreaker Telemetry Events Effects Hooks ErrorControl LLM Memory AgentLoop TemporalDefs TemporalLoop TemporalFacts TemporalSafety TemporalBounds TemporalResume TemporalLift TemporalRouting TemporalApprovals Witnesses.

#[local] Open Scope string_scope.
#[local] Open Scope list_scope.
#[local] Open Scope Z_scope.

(** ** A sample server

    The model asks for a tool that needs approval and for a sub-agent, then for the tool again
    without arguments, then answers.  [tw_history] is what the history counters say after the
    first round, [tw_cancel] whether waits for approvals are cancelled. *)

Record twf_world := { tw_calls : nat; tw_sched : bool; tw_history : Z * Z; tw_cancel : bool; tw_heap : wf_heap }.

Definition wf_call (id name : string) (args : option Args) (approval : bool) : TemporalToolCall :=
  {| wt_ToolCallID := id; wt_ToolName := name; wt_ToolDisplayName := ""; wt_ToolKind := ""; wt_Args := args;
     wt_NeedsApproval := approval; wt_Unknown := false |}.

Definition wf_answer (content : string) (calls : list TemporalToolCall) : AgentLLMResult :=
  {| wl_Content := content; wl_ToolCalls := calls; wl_Usage := Some sample_usage; wl_RetryCount := 0; wl_UsedFallback := false |}.

Definition first_answer : AgentLLMResult :=
  wf_answer "let me look" [wf_call "c1" "search" (Some {[ "query" := VStr "go" ]}) true;
                           wf_call "c2" "helper" (Some {[ "query" := VStr "help" ]}) false].
Definition second_answer : AgentLLMResult := wf_answer "again" [wf_call "c3" "search" (Some ∅) false].

Definition respond_wf (n : nat) : AgentLLMResult :=
  match n with O => first_answer | S O => second_answer | _ => wf_answer "done" [] end.

Definition no_act_error : act_error := {| xe_err := no_error; xe_canceled := true; xe_timeout := false |}.

Definition activity_ans (w : twf_world) (a : activity) : fallible (activity_result a) :=
  match a return fallible (activity_result a) with
  | AgentLLMActivity _ | AgentLLMStreamActivity _ => inr (respond_wf (tw_calls w))
  | AgentToolAuthorizeActivity _ => inr {| ar_Allowed := true; ar_Reason := "" |}
  | AgentToolApprovalActivity _ => if tw_cancel w then inl no_act_error else inr ApprovalStatusApproved
  | AgentBudgetApprovalActivity _ => inr ApprovalStatusApproved
  | AgentToolExecuteActivity _ => inr "42"
  | AgentRetrieverActivity _ => inr {| rr_Context := ""; rr_TotalSearches := 1; rr_FailedSearches := 0 |}
  | AgentMemoryRecallActivity _ => inr {| mr_Context := ""; mr_TotalRecalls := 1; mr_FailedRecalls := 0 |}
  | AgentMaxIterationsDecisionActivity _ => inr no_decision
  | AgentMemoryStoreActivity _ | AddConversationMessagesActivity _ | PublishStreamEventActivity _
  | AgentWorkflowCleanupActivity _ => inr tt
  end.

Definition wf_ans (w : twf_world) (o : WfOp) : WfAns o :=
  match o return WfAns o with
  | WSched => tw_sched w
  | WNow => 1000
  | WUUID => "mid"
  | WSideEffectUUID => inr "sfx"
  | WNewStream _ | WSetQueryHandler | WAwaitHandlers => None
  | WPublish _ => None
  | WActivity _ a => activity_ans w a
  | WChildWorkflow _ _ _ i => inr (Some {| ar_Content := "helped"; ar_AgentName := "helper"; ar_Model := "m"; ar_Metadata := None;
      ar_RunID := wi_RunID i; ar_LLMUsage := None; ar_Telemetry := None |})
  | WHistory => if Nat.eqb (tw_calls w) 1 then tw_history w else (0, 0)
  | WStreamState => inr VNull
  | WPendingList => map_to_list (wh_pending (tw_heap w))
  | WBreakerIsTripped name now => (IsTripped (wh_breaker (tw_heap w)) name now).1
  | WBreakerState => circuitBreakerStatePtr (wh_breaker (tw_heap w))
  | _ => tt
  end.

Definition with_heap (w : twf_world) (h : wf_heap) : twf_world :=
  {| tw_calls := tw_calls w; tw_sched := tw_sched w; tw_history := tw_history w; tw_cancel := tw_cancel w; tw_heap := h |}.

Definition wf_next (w : twf_world) (o : WfOp) : twf_world :=
  let h := tw_heap w in
  match o with
  | WActivity _ (AgentLLMActivity _) | WActivity _ (AgentLLMStreamActivity _) =>
      {| tw_calls := S (tw_calls w); tw_sched := tw_sched w; tw_history := tw_history w; tw_cancel := tw_cancel w; tw_heap := h |}
  | WSched => {| tw_calls := tw_calls w; tw_sched := negb (tw_sched w); tw_history := tw_history w;
                 tw_cancel := tw_cancel w; tw_heap := h |}
  | WPendingSet id act => with_heap w (heap_with_pending h (<[id := act]> (wh_pending h)))
  | WPendingDelete id => with_heap w (heap_with_pending h (delete id (wh_pending h)))
  | WBreakerInit c => with_heap w (heap_with_breaker h c)
  | WBreakerIsTripped name now => with_heap w (heap_with_breaker h (IsTripped (wh_breaker h) name now).2)
  | WBreakerRecordFailure name args now => with_heap w (heap_with_breaker h (RecordFailure (wh_breaker h) name args now).2)
  | WBreakerRecordSuccess name => with_heap w (heap_with_breaker h (RecordSuccess (wh_breaker h) name))
  | _ => w
  end.

Definition wf_env (w : twf_world) (o : WfOp) : WfAns o * twf_world := (wf_ans w o, wf_next w o).

(** The server answers as the shared objects do. *)
Lemma wf_env_steps {A} (m : prog (S := wf_sig) A) : forall w tr a w',
  run (S := wf_sig) wf_env w m = (tr, a, w') -> wf_steps (tw_heap w) tr (tw_heap w').
Proof.
  induction m as [b|o k IH]; intros w tr a w'; cbn [run].
  - intros [= <- _ <-]. constructor.
  - unfold wf_env at 1. destruct (run _ (wf_next w o) (k (wf_ans w o))) as [[tr1 a1] w1] eqn:E. intros [= <- <- <-].
    apply (wf_steps_cons _ _ (tw_heap (wf_next w o))); [|by eapply IH].
    destruct o as [| | | | | | | |? a| | | | | | | | | | | | |]; cbn; try done. by destruct a.
Qed.

Definition wf_world (history : Z * Z) (cancel : bool) : twf_world :=
  {| tw_calls := 0; tw_sched := true; tw_history := history; tw_cancel := cancel; tw_heap := empty_heap |}.

Definition wf_trace {A} (w : twf_world) (m : prog (S := wf_sig) A) : list wevent := run_trace (S := wf_sig) wf_env w m.
Definition wf_value {A} (w : twf_world) (m : prog (S := wf_sig) A) : A := run_value (S := wf_sig) wf_env w m.
Definition wf_after {A} (w : twf_world) (m : prog (S := wf_sig) A) : wf_heap := tw_heap (run (S := wf_sig) wf_env w m).2.

Lemma wf_executes {A} w (m : prog (S := wf_sig) A) : texec m (wf_trace w m) (wf_value w m).
Proof. apply run_texec'. Qed.

Lemma wf_executes_steps {A} w (m : prog (S := wf_sig) A) : wf_steps (tw_heap w) (wf_trace w m) (wf_after w m).
Proof.
  unfold wf_trace, wf_after, run_trace. destruct (run (S := wf_sig) wf_env w m) as [[tr a] w'] eqn:E. by eapply wf_env_steps.
Qed.

Definition sample_routes : list (string * SubAgentRoute) := [("helper", Route "helper" "queue" [] "fp2")].

Definition sample_wf_input : AgentWorkflowInput :=
  {| wi_UserPrompt := "hi"; wi_RootWorkflowID := ""; wi_StreamState := None; wi_StreamingEnabled := false;
     wi_ConversationID := "conv"; wi_AgentFingerprint := "fp"; wi_RunID := "run"; wi_MemoryScope := zero_scope;
     wi_EventTypes := [AgentEventAll]; wi_SubAgentDepth := 0; wi_SubAgentRoutes := sample_routes; wi_MaxSubAgentDepth := 2; wi_State := None |}.

(** One continuation, after the first round. *)
Definition sample_chain : prog (S := wf_sig) wf_outcome := run_chain sample_runtime "wf" 6 6 sample_wf_input.
Definition continued_world : twf_world := wf_world (20000, 0) false.

Example sample_chain_outcome :
  match wf_value continued_world sample_chain with WfDone r => ar_Content r = "done" | _ => False end /\
  count_kind KLlm (wf_trace continued_world sample_chain) = 3 /\
  count_kind KTool (wf_trace continued_world sample_chain) = 3 /\
  count_kind KBreakerInit (wf_trace continued_world sample_chain) = 2.
Proof. vm_compute. auto. Qed.

(** ** Checks on traces *)

(** The first effect of the kind, with what surrounds it. *)
Fixpoint split_kind (k : kind) (tr : list wevent) : option (list wevent * wevent * list wevent) :=
  match tr with
  | [] => None
  | e :: tr => if decide (event_kind e = k) then Some ([], e, tr)
               else '(pre, x, post) ← split_kind k tr; Some (e :: pre, x, post)
  end.

Lemma split_kind_spec k tr pre e post : split_kind k tr = Some (pre, e, post) -> tr = pre ++ e :: post /\ event_kind e = k.
Proof.
  revert pre. induction tr as [|x tr IH]; intros pre; cbn [split_kind]; [done|].
  case_decide; [by intros [= <- <- <-]|]. destruct (split_kind k tr) as [[[p y] q]|] eqn:E; [|done].
  cbn. intros [= <- <- <-]. destruct (IH p eq_refl) as [-> ?]. done.
Qed.

Definition has_kind (k : kind) (tr : list wevent) : bool := bool_decide (is_Some (split_kind k tr)).

Lemma has_kind_split k tr : has_kind k tr = true -> exists pre e post, split_kind k tr = Some (pre, e, post).
Proof. intros H. apply bool_decide_eq_true in H as [[[pre e] post] ->]. eauto. Qed.

Lemma no_decisions tr : count_kind KDecide tr = 0 -> Forall decision_answered tr.
Proof.
  unfold count_kind, count_if. intros H. apply List.Forall_forall. intros [o r] Hin.
  destruct o as [| | | | | | | |? a| | | | | | | | | | | | |]; try done. destruct a; try done. destruct r as [|d]; [done|]. exfalso.
  assert (Hf : In (Ev (S := wf_sig) (WActivity o (AgentMaxIterationsDecisionActivity i)) (inr d))
    (List.filter (fun e => bool_decide (event_kind e = KDecide)) tr)).
  { apply List.filter_In. split; [done|]. by apply bool_decide_eq_true_2. }
  destruct (List.filter _ tr); [done|cbn in H; lia].
Qed.

(** The answer of an approval activity: its call, its activity ID, whether the wait was cancelled. *)
Definition approval_wait (e : wevent) : option (string * string * bool) :=
  match e with
  | Ev (WActivity o (AgentToolApprovalActivity i)) (inl err) => Some (ata_ToolCallID i, ao_ActivityID o, xe_canceled err)
  | Ev (WActivity o (AgentToolApprovalActivity i)) (inr _) => Some (ata_ToolCallID i, ao_ActivityID o, false)
  | _ => None
  end.

Definition first_wait (tr : list wevent) : option (string * string * bool) :=
  '(_, e, _) ← split_kind KApproval tr; approval_wait e.

Lemma first_wait_cancelled tr id act : first_wait tr = Some (id, act, true) ->
  exists o i err, In (Ev (S := wf_sig) (WActivity o (AgentToolApprovalActivity i)) (inl err)) tr /\
    ata_ToolCallID i = id /\ ao_ActivityID o = act.
Proof.
  unfold first_wait. destruct (split_kind KApproval tr) as [[[pre e] post]|] eqn:E; [|done]. cbn [mbind option_bind].
  destruct (split_kind_spec _ _ _ _ _ E) as [-> _]. destruct e as [o r].
  destruct o as [| | | | | | | |o a| | | | | | | | | | | | |]; try done. destruct a as [| | |i| | | | | | | | |]; try done.
  destruct r as [err|st]; [|done]. intros [= Hid Hact _]. exists o, i, err. split; [|done]. apply in_or_app. right. by left.
Qed.

Lemma none_cancelled tr : forallb (fun e => match approval_wait e with Some (_, _, true) => false | _ => true end) tr = true ->
  Forall not_cancelled tr.
Proof.
  rewrite forallb_forall. intros H. apply List.Forall_forall. intros e He. specialize (H e He).
  destruct e as [o r]. destruct o as [| | | | | | | |? a| | | | | | | | | | | | |]; try done. destruct a; try done.
  destruct r as [err|]; [|done]. cbn in *. by destruct (xe_canceled err).
Qed.

Lemma all_cancelled id act tr :
  forallb (fun e => match approval_wait e with
                    | Some (id', act', c) => negb (String.eqb id' id) || String.eqb act' act && c
                    | None => true
                    end) tr = true -> only_cancelled id act tr.
Proof.
  rewrite forallb_forall. intros H o i r Hin Hid. specialize (H _ Hin). cbn in H.
  destruct r as [err|st]; cbn in H; rewrite Hid, String.eqb_refl in H; cbn in H.
  - apply andb_true_iff in H as [H1 H2]. apply String.eqb_eq in H1. eauto.
  - by rewrite andb_false_r in H.
Qed.

(** ** Witnesses *)

Definition the_trace : list wevent := wf_trace continued_world sample_chain.

Lemma the_run : texec sample_chain the_trace (wf_value continued_world sample_chain).
Proof. apply wf_executes. Qed.

Lemma workflow_tool_safety_witness : exists pre e post,
  split_kind KTool the_trace = Some (pre, e, post) /\
  exists tc, performs "wf" tc e /\ tc_Unknown tc = false /\ asked pre tc /\ authorized pre tc /\
    (tc_NeedsApproval tc = false \/ approved pre tc).
Proof.
  destruct (has_kind_split KTool the_trace) as (pre & e & post & E); [by vm_compute|].
  destruct (split_kind_spec _ _ _ _ _ E) as [Htr Hk]. exists pre, e, post. split; [exact E|].
  exact (workflow_tool_safety sample_runtime "wf" 6 6 sample_wf_input the_trace _ the_run pre e post Htr Hk).
Defined.

Lemma workflow_chain_bounded_witness :
  count_kind KLlm the_trace <= 7 /\ count_if is_extension the_trace <= 1 /\ count_kind KFuel the_trace = 0 /\
  (6 <= 6 -> forall i, wf_value continued_world sample_chain <> WfContinueAsNew i).
Proof.
  apply (workflow_chain_bounded sample_runtime "wf" 6 6 sample_wf_input the_trace _ eq_refl); [by vm_compute|apply the_run|].
  apply no_decisions. by vm_compute.
Defined.

Lemma workflow_routing_witness : Forall (routed "wf" sample_wf_input) the_trace /\ count_kind KPublish the_trace = 13.
Proof.
  split; [apply (workflow_routing sample_runtime "wf" 6 6 sample_wf_input the_trace _ the_run)|by vm_compute].
Defined.

(** The first answer, and the second decoded over it. *)
Definition decoded_once : arg_store * llm_var := decode_result [] zero_llm first_answer.
Definition decoded_twice : arg_store * llm_var := decode_result decoded_once.1 decoded_once.2 second_answer.

Lemma decode_fresh_exact_witness :
  map (read_call decoded_once.1) (current_slots decoded_once.2) = map fresh_call (wl_ToolCalls first_answer).
Proof. apply (decode_fresh_exact [] first_answer decoded_once.1 decoded_once.2 eq_refl). Defined.

(** The second call has no arguments; it is run with those of the first. *)
Lemma decode_again_merges_witness :
  exists tc, map (read_call decoded_twice.1) (current_slots decoded_twice.2) !! 0%nat = Some tc /\
    tc_ToolName tc = "search" /\ tc_Args tc = {[ "query" := VStr "go" ]}.
Proof.
  destruct (decode_again_merges decoded_once.1 decoded_once.2 second_answer decoded_twice.1 decoded_twice.2 0
    (default zero_slot (lv_slots decoded_once.2 !! 0%nat)) 0 (wf_call "c3" "search" (Some ∅) false) ∅)
    as [(tc & Htc & Hn & Ha & _) _].
  - split; [apply (bool_decide_unpack _); by vm_compute|repeat constructor].
  - reflexivity.
  - reflexivity.
  - reflexivity.
  - reflexivity.
  - reflexivity.
  - exists tc. split; [exact Htc|]. split; [exact Hn|]. rewrite Ha. by vm_compute.
Defined.

(** What the server executed for the calls, in order: once within one execution of the workflow,
    once with a continuation between the rounds. *)
Definition executed (tr : list wevent) : list (string * Args) :=
  omap (fun e => match ev_op e with WActivity _ (AgentToolExecuteActivity i) => Some (ate_ToolCallID i, ate_Args i) | _ => None end) tr.

Example leftover_arguments :
  executed (wf_trace (wf_world (0, 0) false) sample_chain) = [("c1", {[ "query" := VStr "go" ]}); ("c3", {[ "query" := VStr "go" ]})] /\
  executed the_trace = [("c1", {[ "query" := VStr "go" ]}); ("c3", ∅)].
Proof. split; vm_compute; reflexivity. Qed.

(** The variables at the start of the first round. *)
Definition first_vars : wf_vars := restored_vars sample_runtime (initial_state sample_wf_input) (NewAgentTelemetry 1000).

Lemma first_vars_ok : vars_ok sample_runtime first_vars.
Proof. apply initial_ok. Qed.

Definition continuing : prog (S := wf_sig) wf_round := continue_as_new sample_runtime sample_wf_input 0 first_vars.
Definition counting_world : twf_world :=
  {| tw_calls := 1; tw_sched := true; tw_history := (20000, 0); tw_cancel := false; tw_heap := empty_heap |}.

Lemma continuation_resumes_witness : exists i,
  wf_value counting_world continuing = RReturn (WfContinueAsNew i) /\
  run_body sample_runtime "wf" i "sfx" 6 = run_from sample_runtime "wf" i "sfx" 6 None 1 (resumed first_vars).
Proof.
  destruct (wf_value counting_world continuing) as [s|s|[r|p e|i]] eqn:E; try (vm_compute in E; discriminate E).
  exists i. split; [reflexivity|].
  destruct (continuation_resumes sample_runtime "wf" sample_wf_input "sfx" 6 0 first_vars (wf_trace counting_world continuing) i
    empty_heap (wf_after counting_world continuing) first_vars_ok) as [_ H].
  - by exists ∅.
  - rewrite <- E. apply wf_executes.
  - apply (wf_executes_steps counting_world).
  - exact H.
Defined.

(** *** Approvals *)

Definition sample_workflow : prog (S := wf_sig) wf_outcome := AgentWorkflow sample_runtime "wf" 6 sample_wf_input.

Lemma approvals_settled_witness :
  let w := wf_world (0, 0) false in
  wh_pending (wf_after w sample_workflow) = ∅ /\ count_kind KCleanup (wf_trace w sample_workflow) = 0 /\
  count_kind KApproval (wf_trace w sample_workflow) = 1.
Proof.
  intros w. destruct (approvals_settled sample_runtime "wf" 6 sample_wf_input (wf_trace w sample_workflow) (wf_value w sample_workflow) (wf_after w sample_workflow))
    as [H1 H2].
  - apply wf_executes.
  - apply none_cancelled. by vm_compute.
  - apply (wf_executes_steps w).
  - split; [exact H1|]. split; [exact H2|by vm_compute].
Defined.

Lemma cancelled_approval_cleaned_witness :
  let w := wf_world (0, 0) true in
  exists o' c r, In (Ev (S := wf_sig) (WActivity o' (AgentWorkflowCleanupActivity c)) r) (wf_trace w sample_workflow) /\
    In "AgentToolApprovalActivity_sfx_0" (awc_ApprovalActivityIDs c).
Proof.
  intros w. destruct (first_wait_cancelled (wf_trace w sample_workflow) "c1" "AgentToolApprovalActivity_sfx_0")
    as (o & i & err & Hin & Hid & Hact); [by vm_compute|]. rewrite <- Hact.
  apply (cancelled_approval_cleaned sample_runtime "wf" 6 sample_wf_input (wf_trace w sample_workflow) (wf_value w sample_workflow) (wf_after w sample_workflow) o i err).
  - apply wf_executes.
  - apply (wf_executes_steps w).
  - exact Hin.
  - rewrite Hid, Hact. apply all_cancelled. by vm_compute.
Defined.
