(* ===== verification/WireWitnesses.v ===== *)
(** Concrete inputs of the theorems on what crosses the wire: an event, a conversation sent to
    the model providers, and a history of the PostgreSQL memory. *)
From S2P Require Import Prelude GoLib Prog ProgSpec Types Codec JsonText JsonCodec TimeText MemoryConfig Telemetry Events EventsCodec Effects LoopBounds MemoryPg MemoryPgFacts Providers ProvidersFacts.

#[local] Open Scope string_scope.
#[local] Open Scope list_scope.
#[local] Open Scope Z_scope.

(** ** Events *)

(** A process in UTC. *)
#[local] Instance utc : Location := {| zone_of _ := 0 |}.

Definition sample_args : Args := <["path" := VStr "a b"]> (<["n" := VNum (f64_of_Z 3)]> ∅).

(** The request for the approval of a tool call. *)
Definition sample_approval : AgentEvent :=
  {| ae_Body := AgentCustomEvent AgentCustomEventNameToolApproval (AgentCustomEventApprovalValue "helper" "c1" "rm" "Remove" sample_args "dG9r");
     ae_Timestamp := 1700000000000 |}.

Lemma event_roundtrip_witness : exists s b, ToJSON sample_approval = Some s /\ on_wire (ae_Body sample_approval) = Some b /\
  EventFromJSON s = inr {| we_Body := b; we_Timestamp := Some 1700000000000; we_Offset := None |} /\
  exists w, b = AgentCustomEvent AgentCustomEventNameToolApproval (AnyValue w) /\
    parse_custom AgentCustomEventNameToolApproval (AnyValue w) =
      Some (AgentCustomEventApprovalValue "helper" "c1" "rm" "Remove" sample_args "dG9r").
Proof.
  destruct (ToJSON sample_approval) as [s|] eqn:E; [|vm_compute in E; discriminate].
  exists s. destruct (event_roundtrip sample_approval s E) as (b & H1 & H2 & H3).
  - cbn [body_ok sample_approval ae_Body custom_ok]. unfold sample_args.
    repeat (apply map_Forall_insert_2; [vm_compute; reflexivity|]). apply map_Forall_empty.
  - vm_compute. split; congruence.
  - vm_compute. reflexivity.
  - exists b. split; [reflexivity|]. split; [exact H1|]. split; [exact H2|].
    exact (H3 _ _ eq_refl eq_refl).
Defined.

(** ** A conversation with a round of two parallel calls *)

Import Llm Wire Sdk LlmFacts.

Definition call_a : ToolCall := {| c_ToolCallID := "a"; c_ToolName := "search"; c_Args := {[ "query" := VStr "rocq" ]} |}.
Definition call_b : ToolCall := {| c_ToolCallID := "b"; c_ToolName := "clock"; c_Args := ∅ |}.

Definition asking : Message :=
  {| m_Role := "assistant"; m_Content := ""; m_ToolName := ""; m_ToolCallID := ""; m_ToolCalls := [Some call_a; Some call_b];
     m_Metadata := ∅; m_CreatedAt := 0 |}.

Definition conversation : list Message :=
  [text_message "user" "what and when?"; asking; tool_message "a prover" "search" "a"; tool_message "noon" "clock" "b";
   text_message "assistant" "a prover, at noon"; text_message "user" "thanks"].

Definition question : LLMRequest :=
  {| q_SystemMessage := "be brief"; q_ResponseFormat := None; q_Tools := []; q_Messages := conversation; q_Temperature := None;
     q_MaxTokens := 0; q_TopP := None; q_TopK := None; q_Reasoning := None |}.

Definition config : LLMConfig := {| g_APIKey := "key"; g_Model := "model"; g_BaseURL := ""; g_PromptCaching := None |}.

Lemma conversation_complete : complete conversation.
Proof.
  unfold conversation. apply complete_plain; [done|done|].
  apply (complete_round asking [tool_message "a prover" "search" "a"; tool_message "noon" "clock" "b"]); [done|done|by repeat constructor|].
  apply complete_plain; [done|done|]. apply complete_plain; [done|done|]. constructor.
Qed.

Lemma sample_args_sendable (a : Args) : bool_decide (map_Forall (fun _ v => value_ok v = true) a) = true ->
  match c_enc a with Some j => json_ok maxNestingDepth j | None => false end = true -> args_ok a.
Proof.
  intros H%bool_decide_eq_true H2. split; [done|]. destruct (c_enc a) as [j|]; [|done]. by exists j.
Qed.

(** Only one message has calls. *)
Lemma conversation_calls (P : ToolCall -> Prop) : P call_a -> P call_b ->
  Forall (fun m => Forall (fun tc => forall c, tc = Some c -> P c) (m_ToolCalls m)) conversation.
Proof.
  intros Ha Hb. unfold conversation. repeat (apply Forall_cons_2; [cbn [m_ToolCalls text_message tool_message asking]|]); try by constructor.
  all: repeat constructor; by intros c [= <-].
Qed.

Lemma conversation_sendable : Forall sendable conversation.
Proof. apply (conversation_calls (fun c => args_ok (c_Args c))); apply sample_args_sendable; vm_compute; reflexivity. Qed.

Lemma conversation_trimmed : Forall (calls_good trimmed) conversation.
Proof. by apply (conversation_calls trimmed). Qed.

Definition usable_everywhere (k : client) : Prop :=
  usable k question /\
  spec (generate_with (event := unit) k question) (fun tr o => exists op a, tr = [Ev op a] /\ right_request k question op /\ settled op a o) /\
  spec (open_stream k (fun _ => {| cm_Model := ""; cm_Choices := []; cm_Usage := {| cu_PromptTokens := 0; cu_CompletionTokens := 0;
    cu_TotalTokens := 0; cu_CachedTokens := 0; cu_ReasoningTokens := 0 |} |}) (fun m (_ : unit) => (m, true)) (fun _ => OtherEvent) question)
    (fun tr s => exists op a, tr = [Ev op a] /\ right_request k question op /\ is_Some s).

Lemma requests_answer_calls_witness :
  usable_everywhere (UseOpenAI config) /\ usable_everywhere (UseAnthropic config true) /\ usable_everywhere (UseGemini config).
Proof.
  assert (H1 : usable (UseOpenAI config) question) by (split; [done|split; [exact conversation_complete|exact conversation_sendable]]).
  assert (H2 : usable (UseAnthropic config true) question) by (split; [done|split; [exact conversation_complete|exact I]]).
  assert (H3 : usable (UseGemini config) question) by (split; [done|split; [exact conversation_complete|exact conversation_trimmed]]).
  split; [split; [exact H1|exact (requests_answer_calls _ _ _ _ _ H1)]|].
  split; [split; [exact H2|exact (requests_answer_calls _ _ _ _ _ H2)]|].
  split; [exact H3|exact (requests_answer_calls _ _ _ _ _ H3)].
Defined.

(** ** A history of the PostgreSQL memory *)

Import ScopeTags Pg PgFacts.

Definition pg_scope : MemoryScope := {| sc_UserID := "u1"; sc_TenantID := ""; sc_AgentID := ""; sc_Tags := {["env" := "prod"]} |}.
Definition pg_record : MemoryRecord :=
  {| rec_Text := "likes tea"; rec_Kind := "preference"; rec_Metadata := {["run" := "r1"]}; rec_ExpiresAt := 0 |}.
Definition pg_options : LoadMemoryOptions := {| lo_Limit := 0; lo_MinScore := f64_zero; lo_Kinds := ["preference"] |}.
Definition pg_memory : Memory :=
  {| pm_table := DefaultTable; pm_textCol := DefaultTextCol; pm_embeddingCol := DefaultEmbeddingCol;
     pm_defaultLimit := DefaultLoadLimit; pm_defaultMinScore := DefaultMinScore |}.
Definition pg_time : Time := unix_epoch + 5000.
Definition no_distance (v w : Vec) : f64 := f64_zero.

Definition pg_ranged : list (string * string) := map_to_list (ScopeMetadata pg_scope).
Definition pg_tags : list string := encodeScopeTags pg_ranged.

Definition pg_row : trow :=
  {| c_text := "likes tea"; c_kind := "preference"; c_user := Some "u1"; c_tenant := None; c_agent := None; c_tags := pg_tags;
     c_metadata := default "" (marshalMetadata (rec_Metadata pg_record)); c_expires := None; c_created := micro pg_time;
     c_updated := micro pg_time; c_vec := [] |}.

Definition pg_table : table := {["m1" := pg_row]}.

(** The server's answers. *)
Definition pg_ans (o : PgOp) : PgAns o :=
  match o return PgAns o with
  | GSched => true
  | GEmbed _ => inr []
  | GNow => pg_time
  | GUUID => "m1"
  | GInsert _ _ => inr ([inr "m1"], None)
  | GSelect _ _ => inr ([inr (row_of (fun _ => f64_zero) ("m1", pg_row))], None)
  | GDelete _ _ => None
  end.

Definition pg_env (u : unit) (o : PgOp) : PgAns o * unit := (pg_ans o, u).
Definition pg_trace {A} (m : prog (S := pg_sig) A) : list pevent := run_trace (S := pg_sig) pg_env tt m.
Definition pg_value {A} (m : prog (S := pg_sig) A) : A := run_value (S := pg_sig) pg_env tt m.

Lemma pg_executes {A} (m : prog (S := pg_sig) A) : texec m (pg_trace m) (pg_value m).
Proof. apply run_texec'. Qed.

Definition pg_history : list (call * outcome) :=
  map (fun c => (c, pg_value (perform_call pg_memory pg_ranged c)))
    [CStore pg_scope pg_record ""; CLoad pg_scope "" pg_options].

(** The memory comes back as it was stored. *)
Example pg_outcome : map snd pg_history =
  [OStored (inr "m1");
   OLoaded (inr [{| e_ID := "m1"; e_Text := "likes tea"; e_Kind := "preference"; e_Scope := pg_scope; e_Metadata := {["run" := "r1"]};
                    e_ExpiresAt := 0; e_Score := f64_zero; e_CreatedAt := pg_time; e_UpdatedAt := pg_time |}])].
Proof. vm_compute. reflexivity. Qed.

Lemma pg_only id r : pg_table !! id = Some r <-> id = "m1" /\ r = pg_row.
Proof. unfold pg_table. rewrite lookup_singleton_Some. split; by intros [-> ->]. Qed.

Definition pg_store_trace : list pevent := Eval vm_compute in pg_trace (perform_call pg_memory pg_ranged (CStore pg_scope pg_record "")).
Definition pg_load_trace : list pevent := Eval vm_compute in pg_trace (perform_call pg_memory pg_ranged (CLoad pg_scope "" pg_options)).

Lemma pg_stored : reacts_all no_distance Some ∅ pg_store_trace pg_table.
Proof.
  do 3 (exists ∅; split; [reflexivity|]). exists pg_table. split; [|reflexivity]. split; [reflexivity|]. left. exists "m1". split; [reflexivity|].
  exists "m1", pg_row, (c_metadata pg_row). split; [vm_compute; reflexivity|]. split; [reflexivity|]. split.
  - exists [("run", JStr "r1")], [("run", JStr "r1")]. split; [vm_compute; reflexivity|]. split; [vm_compute; reflexivity|done].
  - vm_compute. reflexivity.
Qed.

Lemma pg_loaded : reacts_all no_distance Some pg_table pg_load_trace pg_table.
Proof.
  exists pg_table. split; [|reflexivity]. split; [reflexivity|]. left. exists [row_of (fun _ => f64_zero) ("m1", pg_row)]. split; [reflexivity|].
  exists 0, [("m1", pg_row)]. exists 10. split; [vm_compute; reflexivity|]. split; [|split; [by repeat constructor|reflexivity]].
  split; [repeat constructor; by intros ?%elem_of_nil|]. intros id r. rewrite list_elem_of_singleton, pg_only.
  split; [intros [= -> ->]|by intros [[-> ->] _]]. split; [done|].
  apply Forall_cons_2; [exists "u1"; by split|]. apply Forall_cons_2; [|apply Forall_cons_2; [exists "preference"; by split|by repeat constructor]].
  exists ["env=prod"]. split; [reflexivity|]. intros t [<-|[]]. apply (bool_decide_unpack _). vm_compute. exact I.
Qed.

Lemma pg_serves : serves no_distance Some pg_memory ∅ pg_history pg_table.
Proof.
  assert (H1 : pg_trace (perform_call pg_memory pg_ranged (CStore pg_scope pg_record "")) = pg_store_trace) by (vm_compute; reflexivity).
  assert (H2 : pg_trace (perform_call pg_memory pg_ranged (CLoad pg_scope "" pg_options)) = pg_load_trace) by (vm_compute; reflexivity).
  eapply serves_cons; [reflexivity|apply pg_executes|rewrite H1; exact pg_stored|].
  eapply serves_cons; [reflexivity|apply pg_executes|rewrite H2; exact pg_loaded|]. apply serves_nil.
Qed.

Lemma pg_memory_refines_witness : exists sp, spec_serves no_distance Some pg_memory ∅ pg_history sp /\ represents pg_table sp.
Proof.
  apply (pg_memory_refines no_distance Some pg_memory pg_history pg_table); [|exact pg_serves].
  assert (Hk : forall k v, sc_Tags pg_scope !! k = Some v -> clean_key k).
  { intros k v Hk. change (({["env" := "prod"]} : gmap string string) !! k = Some v) in Hk. apply lookup_singleton_Some in Hk as [<- _]. split; [discriminate|]. cbn. intuition discriminate. }
  repeat apply Forall_cons_2; [..|apply Forall_nil_2]; (split; [exact Hk|]); [|done].
  intros j Hj. vm_compute in Hj. injection Hj as <-. vm_compute. reflexivity.
Defined.
