(* ===== verification/ClientWitnesses.v ===== *)
(** Runs of the Temporal workflow whose activities are served by a sample worker, and concrete
    inputs of the theorems on the caller's and the subscriber's side of the Temporal runtime. *)
From S2P Require Import Prelude GoLib Prog ProgSpec Types Codec JsonText JsonCodec TimeText Budget CircuitBreaker Policies MemoryConfig Telemetry Events EventsCodec Effects ErrorControl LLM Memory AgentLoop A2aClient TemporalFingerprint TemporalDefs TemporalLoop TemporalFacts TemporalActivities TemporalSafety TemporalServe TemporalClient TemporalCaller TemporalStream Witnesses TemporalWitnesses WireWitnesses.

#[local] Open Scope string_scope.
#[local] Open Scope list_scope.
#[local] Open Scope Z_scope.

(** ** A sample worker *)

Definition sample_worker : Worker :=
  {| wk_Runtime := sample_runtime;
     wk_fingerprints := {| fi_policy := "p"; fi_mcp := ""; fi_a2a := ""; fi_observability := ""; fi_agentMode := "";
                           fi_retriever := ""; fi_hooks := ""; fi_namedLLM := ""; fi_errorControl := "" |};
     wk_disableFingerprintCheck := false; wk_hasResolver := true; wk_hasClient := true; wk_nilArgs := fun _ => false |}.

Definition sample_tools : list Tool := [search_tool; lookup_tool].
Definition sample_info : ActivityInfo := {| inf_Attempt := 1; inf_TaskToken := [] |}.
Definition sample_digest : string := Act.worker_fingerprint sample_worker sample_tools.

Definition act_env (w : world) (o : ActOp) : ActAns o * world :=
  match o return ActAns o * world with
  | ABase o => sample_env w o
  | AFetchTools => (inr (Some sample_tools), w)
  | AStreamClose _ | ACompleteActivityByID _ => (None, w)
  | ARetrySignal _ _ | APublish _ _ => (tt, w)
  end.

(** The worker's environment when the model has answered [n] times. *)
Definition act_world (n : nat) : world := {| w_calls := n; w_sched := true; w_tracker := w_tracker w0 |}.

Definition served_trace (n : nat) (a : activity) : list (event act_sig) :=
  run_trace (S := act_sig) act_env (act_world n) (serve sample_worker sample_info a).
Definition served_value (n : nat) (a : activity) : result (act_answer a) :=
  run_value (S := act_sig) act_env (act_world n) (serve sample_worker sample_info a).

Lemma served_executes n a : texec (serve sample_worker sample_info a) (served_trace n a) (served_value n a).
Proof. apply run_texec'. Qed.

Lemma act_env_fetches {A} (m : prog (S := act_sig) A) : forall w, Forall (fetches sample_tools) (run_trace (S := act_sig) act_env w m).
Proof.
  unfold run_trace. induction m as [a|o k IH]; intros w; cbn [run]; [constructor|].
  destruct (act_env w o) as [r w1] eqn:E. destruct (run (S := act_sig) act_env w1 (k r)) as [[tr a] w2] eqn:E'. cbn.
  constructor; [|specialize (IH r w1); by rewrite E' in IH].
  destruct o; try done. cbn in E. injection E as <- _. done.
Qed.

(** A pending approval is approved. *)
Definition deliver (a : activity) : act_answer a -> activity_result a :=
  match a return act_answer a -> activity_result a with
  | AgentToolApprovalActivity _ | AgentBudgetApprovalActivity _ => fun x =>
      match x with Act.Answered s => s | Act.Pending => ApprovalStatusApproved end
  | _ => fun x => x
  end.

Lemma deliver_delivers a x : delivers a x (deliver a x).
Proof. destruct a; try done; destruct x; cbn; auto. Qed.

Definition served_env (w : twf_world) (o : WfOp) : WfAns o * twf_world :=
  (match o return WfAns o with
   | WActivity _ a => match served_value (tw_calls w) a with
                      | inl e => inl (plain_error e)
                      | inr x => inr (deliver a x)
                      end
   | o => wf_ans w o
   end, wf_next w o).

Lemma served_env_serves {A} (m : prog (S := wf_sig) A) : forall w,
  Forall (served sample_worker sample_tools) (run_trace (S := wf_sig) served_env w m).
Proof.
  unfold run_trace. induction m as [a|o k IH]; intros w; cbn [run]; [constructor|].
  destruct (served_env w o) as [r w1] eqn:E. destruct (run (S := wf_sig) served_env w1 (k r)) as [[tr a] w2] eqn:E'. cbn.
  constructor; [|specialize (IH r w1); by rewrite E' in IH].
  destruct o as [| | | | | | | |? a0| | | | | | | | | | | | |]; try done. unfold served_env in E. injection E as <- _. cbn.
  pose proof (served_executes (tw_calls w) a0) as Hx. destruct (served_value _ a0) as [e|x] eqn:Ev; [done|].
  exists sample_info, (served_trace (tw_calls w) a0), x. split; [done|]. split; [apply act_env_fetches|].
  apply deliver_delivers.
Qed.

(** ** The run *)

Definition served_input : AgentWorkflowInput :=
  {| wi_UserPrompt := "hi"; wi_RootWorkflowID := "root"; wi_StreamState := None; wi_StreamingEnabled := false;
     wi_ConversationID := "conv"; wi_AgentFingerprint := sample_digest; wi_RunID := "run"; wi_MemoryScope := zero_scope;
     wi_EventTypes := []; wi_SubAgentDepth := 0; wi_SubAgentRoutes := []; wi_MaxSubAgentDepth := 2; wi_State := None |}.

Definition served_chain : prog (S := wf_sig) wf_outcome := run_chain sample_runtime "wf" 6 6 served_input.
Definition served_run : list wevent := run_trace (S := wf_sig) served_env (wf_world (0, 0) false) served_chain.
Definition served_outcome : wf_outcome := run_value (S := wf_sig) served_env (wf_world (0, 0) false) served_chain.

Lemma served_env_executes {A} w (m : prog (S := wf_sig) A) :
  texec m (run_trace (S := wf_sig) served_env w m) (run_value (S := wf_sig) served_env w m).
Proof. apply run_texec'. Qed.

Lemma served_run_executes : texec served_chain served_run served_outcome.
Proof. exact (served_env_executes _ served_chain). Qed.

Example served_run_outcome :
  match served_outcome with WfDone r => ar_Content r = "done" | _ => False end /\ count_kind KTool served_run = 2.
Proof. vm_compute. auto. Qed.

(** ** Witnesses *)

(** The name of the tool an event executes. *)
Definition exec_of (e : wevent) : option string :=
  match e with Ev (WActivity _ (AgentToolExecuteActivity i)) _ => Some (ate_ToolName i) | _ => None end.

Lemma exec_of_event e name : exec_of e = Some name ->
  exists o i r, e = Ev (S := wf_sig) (WActivity o (AgentToolExecuteActivity i)) r /\ ate_ToolName i = name.
Proof.
  destruct e as [o r]. destruct o as [| | | | | | | |o a| | | | | | | | | | | | |]; try discriminate. destruct a; try discriminate.
  intros [= <-]. eauto.
Qed.

(** The first execution of a tool, with what precedes and follows it. *)
Fixpoint split_exec (name : string) (tr : list wevent) : option (list wevent * wevent * list wevent) :=
  match tr with
  | [] => None
  | e :: tr => if decide (exec_of e = Some name) then Some ([], e, tr)
               else '(pre, x, post) ← split_exec name tr; Some (e :: pre, x, post)
  end.

Lemma split_exec_spec name tr pre e post : split_exec name tr = Some (pre, e, post) -> tr = pre ++ e :: post.
Proof.
  revert pre. induction tr as [|x tr IH]; intros pre; cbn [split_exec]; [done|].
  case_decide; [by intros [= <- <- <-]|]. destruct (split_exec name tr) as [[[p y] q]|]; [|done].
  cbn. intros [= <- <- <-]. by rewrite (IH p eq_refl).
Qed.

(** The tool a worker runs. *)
Definition tool_of (e : event act_sig) : option Tool :=
  match e with Ev (ABase (OToolExecute _ t _ _)) _ => Some t | _ => None end.

Lemma tool_of_event e t : tool_of e = Some t ->
  exists rt m args reply, e = Ev (S := act_sig) (ABase (OToolExecute rt t m args)) reply.
Proof. destruct e as [[o| | | | |] r]; try discriminate. destruct o; try discriminate. intros [= ->]. eauto. Qed.

Definition runs_tool (n : nat) (e : wevent) : bool :=
  match e with
  | Ev (WActivity _ (AgentToolExecuteActivity i)) _ =>
      existsb (fun x => if tool_of x then true else false) (served_trace n (AgentToolExecuteActivity i))
  | _ => false
  end.

Lemma served_tools_approved_witness : exists pre o i r post,
  split_exec "search" served_run = Some (pre, Ev (S := wf_sig) (WActivity o (AgentToolExecuteActivity i)) r, post) /\
  ate_ToolName i = "search" /\
  approval_given i pre /\ authorizer_allowed sample_worker sample_tools search_tool i pre.
Proof.
  assert (E : match split_exec "search" served_run with
              | Some (_, e, _) => runs_tool 1 e && bool_decide (exec_of e = Some "search")
              | None => false
              end = true) by (vm_compute; reflexivity).
  destruct (split_exec "search" served_run) as [[[pre e] post]|] eqn:Es; [|discriminate E].
  apply andb_true_iff in E as [E1 E2]. apply bool_decide_eq_true in E2.
  destruct (exec_of_event _ _ E2) as (o & i & r & -> & Hn). cbn [runs_tool] in E1.
  apply existsb_exists in E1 as (x & Hx & Ht). destruct (tool_of x) as [t|] eqn:Et; [|discriminate Ht].
  destruct (tool_of_event x t Et) as (rt' & m & args & reply & ->).
  destruct (served_tools_approved sample_runtime "wf" 6 6 served_input sample_worker sample_tools served_run served_outcome
    served_run_executes (served_env_serves served_chain _) pre o i r post (split_exec_spec _ _ _ _ _ Es)
    sample_info _ _ (served_executes 1 (AgentToolExecuteActivity i)) (act_env_fetches _ _) rt' _ _ _ _ Hx) as (Hf & _ & Ha & Hz).
  rewrite Hn in Hf. injection Hf as <-. exists pre, o, i, r, post.
  split; [exact eq_refl|]. split; [exact Hn|]. split; [apply Ha; reflexivity|apply Hz; reflexivity].
Defined.

(** The execution of a tool, by a worker whose digest is the caller's. *)
Definition sample_execution : activity :=
  AgentToolExecuteActivity {| ate_ToolName := "search"; ate_Args := ∅; ate_ConversationID := ""; ate_ToolCallID := "c1";
    ate_RunID := "run"; ate_Iteration := 1; ate_AgentFingerprint := sample_digest; ate_MemoryScope := zero_scope |}.

Lemma activities_checked_witness : exists pre e post,
  served_trace 1 sample_execution = pre ++ e :: post /\ (if tool_of e then true else false) = true /\
  (ev_op e = AFetchTools \/ passed sample_worker sample_digest pre).
Proof.
  assert (E : existsb (fun x => if tool_of x then true else false) (served_trace 1 sample_execution) = true)
    by (vm_compute; reflexivity).
  apply existsb_exists in E as (x & Hx & Ht). destruct (in_split _ _ Hx) as (pre & post & Hs).
  exists pre, x, post. split; [exact Hs|]. split; [exact Ht|].
  exact (activities_checked sample_worker sample_info sample_execution sample_digest _ _
           (served_executes 1 sample_execution) eq_refl pre x post Hs).
Defined.

Import Client Stream.

#[local] Existing Instance utc.

(** ** An approval and its answer *)

Definition token_info : ActivityInfo := {| inf_Attempt := 1; inf_TaskToken := to_bytes "task-7" |}.

Definition approval_input : AgentToolApprovalInput :=
  {| ata_AgentName := "helper"; ata_ToolCallID := "c1"; ata_ToolName := "rm"; ata_ToolDisplayName := "Remove";
     ata_Args := sample_args; ata_StreamWorkflowID := "wf"; ata_SubAgentName := "";
     ata_AgentFingerprint := "" |}.

Definition approval_activity : activity := AgentToolApprovalActivity approval_input.

Definition approval_trace : list (event act_sig) :=
  run_trace (S := act_sig) act_env (act_world 0) (serve sample_worker token_info approval_activity).
Definition approval_value : result (act_answer approval_activity) :=
  run_value (S := act_sig) act_env (act_world 0) (serve sample_worker token_info approval_activity).

Lemma approval_executes : texec (serve sample_worker token_info approval_activity) approval_trace approval_value.
Proof. apply run_texec'. Qed.

Definition approval_event : AgentEvent :=
  {| ae_Body := Act.approval_request_event token_info approval_input; ae_Timestamp := 1700000000000 |}.

Lemma sample_args_ok : map_Forall (fun _ v => value_ok v = true) sample_args.
Proof. unfold sample_args. repeat (apply map_Forall_insert_2; [vm_compute; reflexivity|]). apply map_Forall_empty. Qed.

Lemma approval_arrives : exists s, arrives approval_event s.
Proof.
  destruct (ToJSON approval_event) as [s|] eqn:E; [|vm_compute in E; discriminate]. exists s. split_and!; [exact E|..].
  - exact sample_args_ok.
  - vm_compute. split; congruence.
  - vm_compute. reflexivity.
Qed.

Lemma approval_completes_its_activity_witness : exists n w req s,
  EventFromJSON s = inr {| we_Body := AgentCustomEvent n (AnyValue w); we_Timestamp := Some 1700000000000; we_Offset := None |} /\
  prepareApprovalFromCustomEvent n (AnyValue w) = inr (req, request_token req) /\
  approve (request_token req) ApprovalStatusApproved =
  (e ← kcall (KCompleteActivity "task-7" ApprovalStatusApproved);
   mret (match e with
         | Some err => if Act.isNotFoundError err then Some (sentinel_error ErrApprovalAlreadyResolved) else Some err
         | None => None
         end)).
Proof.
  destruct approval_arrives as [s Hs].
  destruct (approval_completes_its_activity sample_worker token_info approval_activity approval_trace approval_value "wf"
    (Act.approval_request_event token_info approval_input) 1700000000000 s eq_refl approval_executes) as (n & w & req & H1 & H2 & _ & H3).
  - vm_compute. tauto.
  - exact Hs.
  - exists n, w, req, s. split; [exact H1|]. split; [exact H2|]. exact (H3 ApprovalStatusApproved eq_refl).
Defined.

(** ** A driver whose run is cancelled *)

Definition cli_ans (o : CliOp) : CliAns o :=
  match o return CliAns o with
  | KSched => true
  | KNow | KNewTicker => 1000
  | KTick | KDoneWithin _ | KDoneOrStop => false
  | KUUID => "run-1"
  | KCompleteActivity _ _ | KCancelWorkflow _ | KTerminateWorkflow _ _ | KExecuteWorkflow _ _ _ => None
  | KQueryApprovalPending _ id => inr (Some (String.eqb id "c1"))
  | KDescribeWorkflow _ => inr WORKFLOW_RUNNING
  | KDescribeTaskQueue _ => inr 1%nat
  | KWaitDone | KSubscribe _ | KApprovalHandler _ | KSetStopCause _ => tt
  end.

Definition cli_env (w : unit) (o : CliOp) : CliAns o * unit := (cli_ans o, w).

Definition cli_trace {A} (m : prog (S := cli_sig) A) : list (event cli_sig) := run_trace (S := cli_sig) cli_env tt m.
Definition cli_value {A} (m : prog (S := cli_sig) A) : A := run_value (S := cli_sig) cli_env tt m.

Lemma cli_executes {A} (m : prog (S := cli_sig) A) : texec m (cli_trace m) (cli_value m).
Proof. apply run_texec'. Qed.

Definition driven_cases : list select_case :=
  [ApprovalEvent (Some (ae_Body approval_event)); ApprovalResponse 0 ApprovalStatusApproved;
   RunCtxDone (sentinel_error ContextCanceled)].

Definition driven : prog (S := cli_sig) (option (list ApprovalRequest)) := driveRun "wf" [] driven_cases.

Example driven_completes :
  omap (fun e => match e with Ev (KCompleteActivity t s) _ => Some (t, s) | _ => None end) (cli_trace driven) = [("task-7", ApprovalStatusApproved)].
Proof. vm_compute. reflexivity. Qed.

Lemma driver_genuine_witness :
  justified (genuine "wf" driven_cases) [] (cli_trace driven) /\
  ended_well "wf" (Some (RunCtxDone (sentinel_error ContextCanceled))) (cli_trace driven) (cli_value driven).
Proof.
  destruct (driver_genuine "wf" driven_cases (cli_trace driven) (cli_value driven) (cli_executes driven)) as [H1 H2].
  split; [exact H1|]. apply H2. discriminate.
Defined.

(** ** Pending approvals *)

Definition asking_heap : wf_heap := heap_with_pending empty_heap {[ "c1" := "act" ]}.

Lemma approvals_forwarded_witness :
  cli_value (forward_approval "wf" (Some (ae_Body approval_event))) = Some (ae_Body approval_event).
Proof.
  rewrite (approvals_forwarded asking_heap "wf" (Some (ae_Body approval_event)) _ _ (cli_executes _)); [vm_compute; reflexivity|].
  vm_compute. repeat constructor.
Defined.

(** The request of a child's tool call is dropped: the workflow that is asked does not know it. *)
Definition child_approval : EventBody :=
  AgentCustomEvent AgentCustomEventNameToolApproval (AgentCustomEventApprovalValue "child" "c9" "rm" "" ∅ "dG9r").

Example child_approval_dropped : cli_value (forward_approval "wf" (Some child_approval)) = None.
Proof. vm_compute. reflexivity. Qed.

(** ** Looking for workers *)

Definition sample_caller : Caller :=
  {| cr_worker := sample_worker; cr_taskQueue := "q"; cr_disableLocalWorker := true; cr_approvalHandler := true |}.

Lemma hasWorkers_answers_witness : exists b, cli_value (hasWorkers sample_caller None "q") = Some b /\
  (b = true <-> poller_seen "q" (cli_trace (hasWorkers sample_caller None "q"))).
Proof.
  apply (hasWorkers_answers sample_caller None "q" 1000 _ _ (cli_executes _)). vm_compute. repeat split; discriminate.
Defined.

(** ** Routes *)

Definition sample_specs : list (option Spec_) :=
  [None; Some (TSpec "helper" "helper" (Some (sample_worker, "hq")) [] sample_tools)].

Lemma routes_of_specs_witness :
  find_route (buildSubAgentRoutes sample_specs) "helper" =
    Some (Route "helper" "hq" (buildSubAgentRoutes []) (Act.worker_fingerprint sample_worker sample_tools)) /\
  Act.compare_fingerprints sample_worker (Act.worker_fingerprint sample_worker sample_tools) (rev sample_tools) = None.
Proof.
  destruct (routes_of_specs sample_specs "helper") as [H1 H2]. split; [exact H1|].
  apply H2. rewrite map_rev. apply Permutation_rev.
Defined.

(** ** What a subscriber gets *)

Definition text_event (b : EventBody) : option string := ToJSON {| ae_Body := b; ae_Timestamp := 5 |}.

(** A token of a failed attempt, the retry, a late token, and the new attempt. *)
Definition sample_arrivals : list arrival :=
  [EventItem (text_event (AgentTextMessageStartEvent "m" "assistant")) 0 true Sent;
   EventItem (text_event (AgentTextMessageContentEvent "m" "wrong")) 1 true Sent;
   RetryItem (Some "m");
   EventItem (text_event (AgentTextMessageContentEvent "m" "late")) 3 true Sent;
   EventItem (text_event (AgentTextMessageStartEvent "m" "assistant")) 4 true Sent;
   EventItem (text_event (AgentTextMessageContentEvent "m" "right")) 5 true Sent;
   SubscribeError false true].

Definition sample_outcome : option AgentRunResult * option error := stored_outcome "run-1" None None None.

Definition sample_delivery : list WireEvent :=
  deliverEvents 0 "wf" "conv" "run-1" "helper" unix_epoch unix_epoch sample_arrivals None sample_outcome.

Example sample_delivery_events : map (fun e => (Type_ (we_Body e), we_Offset e)) sample_delivery =
  [("RUN_STARTED", None); ("TEXT_MESSAGE_START", Some 0); ("TEXT_MESSAGE_CONTENT", Some 1); ("TEXT_MESSAGE_START", Some 4);
   ("TEXT_MESSAGE_CONTENT", Some 5); ("RUN_FINISHED", None)].
Proof. vm_compute. reflexivity. Qed.

Lemma subscriber_gets_witness :
  List.filter (fun ev => is_lifecycle (we_Body ev)) sample_delivery =
    start_events 0 "conv" "run-1" unix_epoch ++ end_events "conv" "run-1" "helper" unix_epoch None sample_outcome GoTerminal.
Proof.
  pose proof (subscriber_gets 0 "wf" "conv" "run-1" "helper" unix_epoch unix_epoch sample_arrivals None sample_outcome) as H.
  assert (E : (before_stop 0 "wf" [] sample_arrivals).2 = GoTerminal) by (vm_compute; reflexivity).
  destruct (before_stop 0 "wf" [] sample_arrivals) as [l1 e]. cbn in E. subst e. destruct H as [_ H]. apply H.
  repeat constructor; intros data offset pending send ev Ha Hd; try discriminate Ha; injection Ha as <- <- <- <-;
    vm_compute in Hd; injection Hd as <-; reflexivity.
Defined.

(** ** A run that was stopped *)

Definition timed_out : error := sentinel_error ContextDeadlineExceeded.
Definition budget_text : error := errors_New "workflow execution error: agent: per-run budget exceeded: 12 tokens (type: wrapError)".

Definition given_up : list arrival := [SubscribeError false true].
Definition shown_stream (out : option AgentRunResult * option error) (cause : option error) : list WireEvent :=
  deliverEvents 0 "wf" "conv" "run-1" "helper" unix_epoch unix_epoch given_up cause out.

(** A run is cancelled, and the driver sees it, before the server says that the workflow failed. *)
Definition cancelled_before : list Run.action := [Run.ACancel None; Run.AGetLeft timed_out; Run.AStop].
Definition cancelled_outcome : option AgentRunResult * option error := (None, Some (sentinel_error ContextCanceled)).
Definition cancelled_after : list Run.action :=
  [Run.ABurn; Run.ACancel (Some (sentinel_error ErrRunAlreadyCompleted)); Run.AClose; Run.AGet cancelled_outcome;
   Run.AEvents 0 unix_epoch unix_epoch given_up (shown_stream cancelled_outcome (Some (sentinel_error ContextCanceled)))].

(** A run its budget ended. *)
Definition budget_outcome : option AgentRunResult * option error :=
  (None, Some (sentinel_with_msg ErrBudgetExceeded (err_msg budget_text))).
Definition budget_after : list Run.action :=
  [Run.ABurn; Run.AClose; Run.ALeave; Run.AEvents 0 unix_epoch unix_epoch given_up (shown_stream budget_outcome None); Run.AGet budget_outcome].

Abbreviation sample_acts := (Run.acts "run-1" "wf" "conv" "helper" Run.newRunHandle).

Ltac next_run_act :=
  eapply Run.acts_cons; [first
    [ eapply Run.act_cancel | eapply Run.act_stop; reflexivity | eapply Run.act_leave; reflexivity | eapply Run.act_answer; reflexivity
    | eapply Run.act_burn; reflexivity | eapply Run.act_close; reflexivity | eapply Run.act_get; reflexivity
    | eapply Run.act_get_left; reflexivity | eapply Run.act_events; intros _; reflexivity ] |].

