(* ===== verification/RestateWitnesses.v ===== *)
(** Concrete runs of the durable loop on Restate, and a sample caller (an ingress that fails once,
    a run whose log grows, a handler that approves), at which the theorems are applied. *)
From S2P Require Import Prelude GoLib Prog ProgSpec Types Codec JsonText JsonCodec TimeText Budget CircuitBreaker Policies MemoryConfig Telemetry Events EventsCodec Effects ErrorControl Sanitize LLM Memory Tools AgentLoop Handles EventLog RestateDefs RestateLoop RestateRun RestateFacts RestateSafety RestateRouting RestateBounds RestateClient RestateCaller Witnesses WireWitnesses.

#[local] Open Scope string_scope.
#[local] Open Scope list_scope.
#[local] Open Scope Z_scope.

Import Rs RsLoop RsRun RsFacts.

(** A process in UTC. *)
#[local] Instance utc : Location := {| zone_of _ := 0 |}.

(** ** A sample server

    A durable step is executed by running its closure in the sample environment; the state
    counts the model calls.  The model asks for [search], which needs an approval, and for
    [lookup], which is a sub-agent here, then answers.  Approvals are granted. *)

Definition sample_restate : RestateRuntime :=
  {| rr_Runtime := sample_runtime; rr_approvalHandler := true; rr_agentLoopServiceName := "AgentLoop.q";
     rr_eventLogServiceName := "AgentEventLog.q"; rr_hasIngress := true; rr_hasResolver := true;
     rr_DisableClear := false; rr_TTL := 0 |}.

Definition world_at (n : nat) : world := {| w_calls := n; w_sched := true; w_tracker := sample_t0 |}.

Definition step_ans (n : nat) (s : step) : result (step_result s) :=
  run_value (S := agent_sig) sample_env (world_at n) (step_body sample_restate s).

Definition child_result : AgentRunResult :=
  {| ar_Content := "helped"; ar_AgentName := "helper"; ar_Model := "m"; ar_Metadata := None; ar_RunID := "child";
     ar_LLMUsage := Some sample_usage; ar_Telemetry := None |}.

Definition rs_ans (n : nat) (o : ROp) : RAns o :=
  match o return RAns o with
  | RSched => true
  | RNow => 1000
  | RBase o => (sample_env (world_at n) o).1
  | RStashLoad _ => Some {| sg_tools := [search_tool; lookup_tool]; sg_eventTypes := [AgentEventAll]; sg_maxSubAgentDepth := 2 |}
  | RResolveTools => inr []
  | RRun _ s => step_ans n s
  | RRunAsync _ _ => 0%nat
  | RFutResult s _ => step_ans n s
  | RAwakeable => "prom_1"
  | RAwakeResult _ => inr ApprovalStatusApproved
  | RAfter _ | RRequestFuture _ _ _ _ => 0%nat
  | RWaitApproval _ _ | RWaitResponse _ _ => inr false
  | RTimerDone _ | RSleep _ | RPublish _ _ _ => None
  | RRequest _ _ _ _ | RResponse _ => inr (Some {| rs_Result := Some child_result |})
  | RInvocationId _ => "inv_1"
  | _ => tt
  end.

Definition rs_next (n : nat) (o : ROp) : nat := match o with RRun _ (SLLM _ _) => S n | _ => n end.

Definition rs_env (n : nat) (o : ROp) : RAns o * nat := (rs_ans n o, rs_next n o).

Definition rs_trace {A} (m : prog (S := rs_sig) A) : list revent := run_trace (S := rs_sig) rs_env 0%nat m.
Definition rs_value {A} (m : prog (S := rs_sig) A) : A := run_value (S := rs_sig) rs_env 0%nat m.

Lemma rs_executes {A} (m : prog (S := rs_sig) A) : texec m (rs_trace m) (rs_value m).
Proof. apply run_texec'. Qed.

(** Every answer of a step comes from an execution of its closure. *)
Lemma genuine_event n o : genuine sample_restate (Ev (S := rs_sig) o (rs_ans n o)).
Proof.
  destruct o as [| | | | | | |o s| |s f| | | | | | | | | | | | | |]; cbn; try done.
  all: intros v Hv; exists (run_trace (S := agent_sig) sample_env (world_at n) (step_body sample_restate s)).
  all: rewrite <- Hv; apply run_texec'.
Qed.

(** Every answer is the server's. *)
Lemma rs_answers {A} (P : revent -> Prop) (m : prog (S := rs_sig) A) :
  (forall n o, P (Ev (S := rs_sig) o (rs_ans n o))) -> Forall P (rs_trace m).
Proof.
  intros HP. unfold rs_trace, run_trace. generalize 0%nat.
  induction m as [b|o k IH]; intros n; cbn [run]; [constructor|].
  unfold rs_env at 1. specialize (IH (rs_ans n o) (rs_next n o)). destruct (run _ (rs_next n o) (k (rs_ans n o))) as [[tr1 a1] n1].
  by constructor.
Qed.

Lemma rs_genuine {A} (m : prog (S := rs_sig) A) : Forall (genuine sample_restate) (rs_trace m).
Proof. apply rs_answers, genuine_event. Qed.

Definition sample_request : AgentLoopRequest :=
  {| rq_core :=
       {| co_RunID := "run"; co_UserPrompt := "hi"; co_ConversationID := "conv"; co_EventTopic := ""; co_EventLogService := "";
          co_EventTypes := []; co_MaxSubAgentDepth := 2; co_SubAgentDepth := 0;
          co_SubAgentRoutes := [("lookup", Route "helper" "lookup" "AgentLoop.helper" [])]; co_MemoryScope := zero_scope |};
     rq_AgentName := "agent"; rq_LLMStreamEnabled := false; rq_StreamHandler := false |}.

Definition sample_staged : stagedRun := default no_staged (rs_ans 0 (RStashLoad "run")).
Definition sample_rs_input : AgentLoopInput := handler_input sample_restate ∅ sample_staged [] sample_request.

Definition rs_run : prog loop_outcome := executeAgentLoop sample_restate sample_rs_input.
Definition rs_handler : prog (result AgentLoopResponse) :=
  handle sample_restate (fun _ => false) (fun e => e) ∅ sample_request.

Definition count_of (k : kind) (tr : list revent) : nat := length (List.filter (fun e => bool_decide (event_kind e = k)) tr).

Example sample_restate_outcome :
  match rs_value rs_run with AgentLoop.Finished r => al_Content r = "done" | Stopped _ _ => False end /\
  count_of KTool (rs_trace rs_run) = 2%nat /\ count_of KLlm (rs_trace rs_run) = 2%nat.
Proof. vm_compute. auto. Qed.

(** ** Witnesses *)

(** The first event of the kind, with what surrounds it. *)
Fixpoint split_of (k : kind) (tr : list revent) : option (list revent * revent * list revent) :=
  match tr with
  | [] => None
  | e :: tr => if decide (event_kind e = k) then Some ([], e, tr)
               else '(pre, x, post) ← split_of k tr; Some (e :: pre, x, post)
  end.

Lemma split_of_spec k tr pre e post : split_of k tr = Some (pre, e, post) -> tr = pre ++ e :: post /\ event_kind e = k.
Proof.
  revert pre. induction tr as [|x tr IH]; intros pre; cbn [split_of]; [done|].
  case_decide; [by intros [= <- <- <-]|]. destruct (split_of k tr) as [[[p y] q]|] eqn:E; [|done].
  cbn. intros [= <- <- <-]. destruct (IH p eq_refl) as [-> ?]. done.
Qed.

(** The first tool of the run: a call that was asked for, authorized and approved. *)
Lemma durable_tools_approved_witness : exists pre e post tc,
  split_of KTool (rs_trace rs_run) = Some (pre, e, post) /\ RsSafety.performs sample_rs_input tc e /\
  RsSafety.asked pre tc /\ RsSafety.authorized sample_rs_input pre tc /\
  (tc_NeedsApproval tc = false \/ RsSafety.approved sample_restate sample_rs_input pre tc).
Proof.
  assert (Hs : is_Some (split_of KTool (rs_trace rs_run))) by (apply (bool_decide_unpack _); vm_compute; exact I).
  destruct (split_of KTool (rs_trace rs_run)) as [[[pre e] post]|] eqn:E; [|by destruct Hs].
  destruct (split_of_spec _ _ _ _ _ E) as [Htr Hk].
  destruct (RsSafety.durable_tools_approved sample_restate sample_rs_input _ _ pre e post (rs_executes rs_run) (rs_genuine rs_run) Htr Hk)
    as (tc & H1 & _ & H2 & H3 & _ & H4).
  exists pre, e, post, tc. split; [reflexivity|]. split; [exact H1|]. split; [exact H2|]. split; [exact H3|exact H4].
Defined.

Lemma durable_routing_witness :
  Forall (RsRouting.routed sample_restate sample_staged sample_request) (rs_trace rs_handler) /\
  count_of KPublish (rs_trace rs_handler) = 12%nat.
Proof.
  split; [|vm_compute; reflexivity].
  destruct (RsRouting.durable_routing (fun _ => false) (fun e => e) sample_restate ∅ sample_request _ _
    ltac:(split; [vm_compute; reflexivity|discriminate]) ltac:(discriminate) (rs_executes rs_handler)) as [H|(st & Hin & Hf)].
  - exfalso. apply (f_equal (@length revent)) in H. vm_compute in H. discriminate.
  - assert (Hst : st = Some sample_staged).
    { assert (Hone : forall st', In (Ev (S := rs_sig) (RStashLoad "run") st') (rs_trace rs_handler) -> st' = Some sample_staged);
        [|by apply Hone]. clear Hin Hf. intros st' Hin.
      assert (Ha : Forall (fun e => match e with Ev (RStashLoad _) r => r = Some sample_staged | _ => True end) (rs_trace rs_handler)).
      { apply rs_answers. intros n o. by destruct o. }
      rewrite List.Forall_forall in Ha. by specialize (Ha _ Hin). }
    by rewrite Hst in Hf.
Defined.

Lemma durable_run_bounded_witness :
  RsBounds.tally_kind KLlm (rs_trace rs_run) <= 2 * 3 + 2 /\ RsBounds.tally_kind KDecide (rs_trace rs_run) <= 2 /\
  RsBounds.tally_if RsBounds.grants (rs_trace rs_run) <= 1 /\ RsBounds.tally_kind KFuel (rs_trace rs_run) = 0.
Proof. exact (RsBounds.durable_run_bounded sample_restate sample_rs_input _ _ (rs_executes rs_run) (rs_genuine rs_run)). Defined.

(** ** A sample caller *)

Import Rs RsLoop RsRun RsRouting RsClient RsCaller.

#[local] Instance rs_utc : Location := {| zone_of _ := 0 |}.

Definition caller_options : RestateConfig :=
  {| cf_URL := " http://localhost:8080/ "; cf_AuthKey := "key"; cf_HTTPTimeout := 0; cf_HTTPMaxAttempts := 0;
     cf_ListenAddress := ""; cf_IdentityPublicKeys := []; cf_AdminURL := ""; cf_DeploymentURL := "";
     cf_DisableClear := false; cf_TTL := 0 |}.

Definition parse_local (url : string) : result (string * string) := inr ("http", "localhost:8080").

Definition caller : RestateRuntime * RestateConfig :=
  match newRuntimeFromOptions parse_local sample_runtime true true true (Some caller_options) with
  | inr p => p
  | inl _ => (sample_restate, caller_options)
  end.

Definition caller_call : ToolCallRequest :=
  {| tc_ToolCallID := "c1"; tc_ToolName := "search"; tc_ToolDisplayName := "Search"; tc_ToolKind := ToolKindNative;
     tc_Args := {["q" := VStr "go"]}; tc_NeedsApproval := true; tc_Unknown := false |}.

(** The token has bytes that must be escaped in a path. *)
Definition caller_token : string := "prom/1%2 x".

Definition caller_time : Time := unix_epoch + 1700000000000 * 1000000.
Definition caller_event : AgentEvent := NewEvent (approval_body (caller.1) sample_rs_input caller_call caller_token) caller_time.
Definition caller_message : string := default "" (ToJSON caller_event).
Definition caller_log : list string := [default "" (ToJSON (NewEvent (AgentRunStartedEvent "" "run-1" "") caller_time)); caller_message].

(** The state counts the effects. *)
Definition caller_ans (n : nat) (o : HOp) : HAns o :=
  match o return HAns o with
  | HSched | HLeave | HPause _ => false
  | HUUID => "run-1"
  | HCtxErr | HBackoff _ | HNewRequest _ => None
  | HDo _ _ => inr (if (n <? 9)%nat then 503 else 202, inr "")
  | HSend _ _ _ _ _ => if (n <? 3)%nat then inl {| he_err := errors_New "refused"; he_retryable := false; he_net := true;
                                                   he_notFound := false; he_notReady := false |} else inr "inv_1"
  | HOutput _ _ _ _ | HOutputById _ _ | HCancel _ _ _ _ _ => inr tt
  | HPull _ _ _ o =>
      match spec_pull {| ls_log := take (if (n <? 3)%nat then 1 else 2) caller_log; ls_head := 0; ls_subs := [] |}
              {| pq_Offset := Some o; pq_Wait := false |} with
      | PullReturns r => r
      | PullWaits _ => inl (errors_New "waits")
      end
  | HPoll => if (n =? 5)%nat then PollReply {| ay_approvalToken := caller_token; ay_status := ApprovalStatusApproved |}
             else if (20 <? n)%nat then PollLeave else PollNothing
  | HStashStore _ _ | HStashDelete _ | HGoHandler _ _ => tt
  end.

Definition caller_env (n : nat) (o : HOp) : HAns o * nat := (caller_ans n o, S n).
Definition caller_trace {A} (m : prog (S := http_sig) A) : list hevent := run_trace (S := http_sig) caller_env 0%nat m.
Definition caller_value {A} (m : prog (S := http_sig) A) : A := run_value (S := http_sig) caller_env 0%nat m.

Lemma caller_executes {A} (m : prog (S := http_sig) A) : texec m (caller_trace m) (caller_value m).
Proof. apply run_texec'. Qed.

Lemma caller_answers {A} (P : hevent -> Prop) (m : prog (S := http_sig) A) :
  (forall n o, P (Ev (S := http_sig) o (caller_ans n o))) -> Forall P (caller_trace m).
Proof.
  intros HP. unfold caller_trace, run_trace. generalize 0%nat.
  induction m as [b|o k IH]; intros n; cbn [run]; [constructor|].
  unfold caller_env at 1. specialize (IH (caller_ans n o) (S n)). destruct (run _ (S n) (k (caller_ans n o))) as [[tr1 a1] n1].
  by constructor.
Qed.

Definition caller_loop : prog (S := http_sig) (option Z) := runApprovalLoop caller.1 caller.2 4 "run-1".
Definition caller_approve : prog (S := http_sig) (option error) := approve caller.2 caller_token ApprovalStatusApproved.

(** The third attempt is accepted; the handler is called once. *)
Example caller_outcome :
  caller_value caller_approve = None /\ tries is_post (caller_trace caller_approve) = 3%nat /\
  handlers_started (caller_trace caller_loop) = [call_request caller.1 sample_rs_input caller_call caller_token].
Proof. vm_compute. auto. Qed.

(** The server the caller pulls from. *)
Lemma caller_pulls n o : answered_by_log caller.1 "run-1" caller_log (Ev (S := http_sig) o (caller_ans n o)) \/
  match o with HPull _ service t _ => service <> rr_eventLogServiceName caller.1 \/ t <> "run-1" | _ => False end.
Proof.
  destruct o as [| | | | | | | | | | | |timeout service topic offset| | | |]; try (by left).
  destruct (decide (service = rr_eventLogServiceName caller.1)); [|by right; left].
  destruct (decide (topic = "run-1")); [|by right; right]. left. unfold answered_by_log.
  destruct (caller_ans n (HPull timeout service topic offset)) as [err|resp] eqn:E; [done|]. do 2 (split; [done|]).
  exists (if (n <? 3)%nat then 1%nat else 2%nat), 0%nat. split; [destruct (n <? 3)%nat; cbn; lia|].
  cbn [caller_ans] in E. destruct (spec_pull _ _) as [r|]; [|done]. by subst r.
Qed.

(** It pulls nothing else. *)
Definition pulls_topic (e : hevent) : bool :=
  match ev_op e with
  | HPull _ service t _ => String.eqb service (rr_eventLogServiceName caller.1) && String.eqb t "run-1"
  | _ => true
  end.

Lemma caller_served : Forall (answered_by_log caller.1 "run-1" caller_log) (caller_trace caller_loop).
Proof.
  assert (H : forallb pulls_topic (caller_trace caller_loop) = true) by (vm_compute; reflexivity).
  pose proof (caller_answers (fun e => pulls_topic e = true -> answered_by_log caller.1 "run-1" caller_log e) caller_loop) as Ha.
  rewrite forallb_forall in H. rewrite List.Forall_forall in Ha |- *. intros e He. apply Ha; [|done|by apply H].
  clear. intros n o Hp. destruct (caller_pulls n o) as [?|Hn]; [done|]. destruct o; try done. unfold pulls_topic in Hp. cbn [ev_op] in Hp.
  apply andb_true_iff in Hp as [H1%String.eqb_eq H2%String.eqb_eq]. by destruct Hn.
Qed.

(** ** Witnesses *)

Lemma durable_approval_roundtrip_witness :
  message_request caller_message = Some (call_request caller.1 sample_rs_input caller_call caller_token, caller_token) /\
  exists e, In e (caller_trace caller_approve) /\ accepted e.
Proof.
  destruct (durable_approval_roundtrip caller.1 sample_rs_input caller_call caller_token caller_time caller_message caller.2
    ApprovalStatusApproved) as (H1 & _ & _ & H2).
  - vm_compute. reflexivity.
  - apply map_Forall_insert_2; [vm_compute; reflexivity|apply map_Forall_empty].
  - vm_compute. split; congruence.
  - vm_compute. reflexivity.
  - split; [vm_compute; reflexivity|discriminate].
  - left. reflexivity.
  - vm_compute. reflexivity.
  - split; [exact H1|]. destruct (H2 _ _ (caller_executes caller_approve)) as (_ & _ & H3). apply H3. vm_compute. reflexivity.
Defined.

Lemma approvals_delivered_once_witness :
  posts_justified caller.2 (caller_trace caller_loop) /\
  exists o, 0 <= o <= 2 /\ handlers_started (caller_trace caller_loop) = requests_in (take (Z.to_nat o) caller_log).
Proof.
  destruct (approvals_delivered_once caller.1 caller.2 "run-1" caller_log 4 _ _ (caller_executes caller_loop) caller_served)
    as (_ & H1 & o & H2 & H3 & _).
  split; [exact H1|]. exists o. split; [exact H2|exact H3].
Defined.

Definition caller_request : RRunRequest :=
  {| rr_UserPrompt := "hi"; rr_ConversationID := ""; rr_EnableLLMStream := false; rr_EventTypes := [];
     rr_SubAgents := [Some (Spec_ "helper" "lookup" (Some "AgentLoop_helper") [])]; rr_MaxSubAgentDepth := 2; rr_Tools := [search_tool] |}.

Definition caller_start : prog (S := http_sig) (result (string * string)) :=
  sendAgentLoop caller.1 caller.2 ∅ (Some caller_request) agentLoopRunHandler false.

Lemma durable_run_started_witness : exists runID inv request,
  caller_value caller_start = inr (runID, inv) /\ stream_of caller.1 (rq_core request) = ("AgentEventLog_agent", runID).
Proof.
  destruct (durable_run_started parse_local sample_runtime true true true (Some caller_options) caller.1 caller.2 ∅ caller_request
    agentLoopRunHandler false (caller_trace caller_start) (caller_value caller_start)
    ltac:(vm_compute; reflexivity) (caller_executes caller_start)) as (id & st & sent & cleanup & Htr & _ & _ & _ & _ & _ & _ & Hs).
  assert (Hid : id = "run-1").
  { pose proof (caller_answers (fun e => match e with Ev HUUID id => id = "run-1" | _ => True end) caller_start) as Ha.
    rewrite Htr in Ha. assert (Hall : forall n o, match Ev (S := http_sig) o (caller_ans n o) with Ev HUUID id => id = "run-1" | _ => True end)
      by (intros n []; done). specialize (Ha Hall). by apply Forall_cons in Ha as [-> _]. }
  subst id. exists "run-1", "inv_1". eexists. split; [vm_compute; reflexivity|].
  destruct (Hs ltac:(split; [vm_compute; reflexivity|discriminate])) as [[Hst _] _]. exact Hst.
Defined.
